(* ===== verification/_CoqProject ===== *)
-Q . S2P
Prelude.v
Flow.v
Crew.v
JsString.v
OsRange.v
Domain.v
Resolve.v
RequestStore.v
Capacity.v
Claims.v
Cleanup.v
Planner.v
Registry.v
RegistryInv.v
WaitQueue.v
Renewal.v
RequestBook.v
Lifecycle.v
AcquisitionState.v
Devices.v
DevicePool.v
Effects.v
Quarantine.v
Reclaim.v
Provision.v
WarmPool.v
Acquisition.v
Ownership.v
Drives.v
Together.v
WarmLearned.v
WarmConverge.v
WarmConvergeInv.v
Release.v
Alone.v
Turns.v
Health.v
HealthInv.v
Watch.v
WatchInv.v
Text.v
Wire.v
Ordered.v
Sqlite.v
Rows.v
RowsRead.v
Keyed.v
RowsWrite.v
RowsInv.v
FleetIndex.v
FleetViews.v
Routing.v
Fleet.v
FleetInv.v
