(* ===== verification/Prelude.v ===== *)
(** * Simlock: a verification library

    Simlock is a daemon that leases iOS simulators, Android emulators and enrolled phones to
    agents. A client asks for a device; the daemon picks, boots or creates one, hands out a lease
    with a deadline, and takes the device back when the lease is released, expires or is lost. A
    gateway does the same for a fleet of such daemons. The paths below are relative to the sources
    of the program ([src/src/] of the repository).

    ** Parts of the program and the files that model them

    Foundations:
    - [Prelude]: record update, the result type, the state-and-error monad [action] with its rules
      ([runs], [run_action]), the array methods of the language on lists ([Arr]), and the lemmas and
      tactics every file shares.
    - [Flow]: [core/serialized-decision.ts], the decision gate, and the language of flows: trees of
      sections on shared state and of driver calls, with the rely-guarantee judgement [safe].
    - [Crew]: flows beside each other, each owning a part of the books of what they share, and what a
      crew of them keeps, also when an answer tells a flow of the state; runs by a schedule, for the
      examples.
    - [JsString]: the string and number primitives of the language the sources use ([split], [trim],
      [Number] with the rounding of its doubles, [toLowerCase], [localeCompare] as a parameter with its
      order laws).
    - [Ordered]: maps and sets that iterate in insertion order.

    What a device and a request are:
    - [OsRange]: [contract/os-range.ts], the grammar and meaning of OS constraints.
    - [Domain]: [core/domain.ts], [core/catalog-match.ts] and the request of [core/driver.ts]: specs,
      device records of both kinds, leases, the matching of a device against a requirement, and the
      two transition tables with the fields a transition keeps or clears.
    - [Resolve]: [core/driver-catalog.ts], [leasing/acquisition-requests.ts],
      [leasing/acquisition-timing.ts], and how a request becomes the spec of a device.
    - [RequestStore]: [core/lease-request-store.ts]: retention, the cap and the write-once result of
      a stored request; the class [LeaseRequestStore] with its laws is the interface between the
      request book and its two stores.

    The daemon's state and its decisions:
    - [Capacity]: [core/capacity/]: the class [CapacityStrategy] with its laws, the two shipped
      strategies as instances, the coordinator's reservation tables, the figures and the observer.
    - [Claims]: [core/device-operation-claims.ts].
    - [Cleanup]: [core/idle-order.ts], [core/cleanup/] and the reduction of proposals of
      [core/reaper.ts] and [core/cleanup-executor.ts].
    - [Planner]: [leasing/acquisition-planner.ts], written over [Capacity], [Claims] and [Cleanup].
    - [Registry], [RegistryInv]: [core/registry.ts], the operations and their invariant; [Effects]:
      what each operation does to one device.
    - [Sqlite]: [ports/sqlite.ts] and the part of the database engine the rows go through: typed
      columns, keys, statements and transactions. [Rows]: [core/registry-rows.ts],
      [core/registry-schema.ts] and the transaction of a commit, over a table of device data per
      driver ([DeviceDataTable] with its laws [DeviceDataLaws]); [RowsRead], [Keyed], [RowsWrite],
      [RowsInv]: that rows read back, what the writers leave, and restarts.
    - [WaitQueue]: [leasing/wait-queue.ts].
    - [Renewal]: [lease-policy/index.ts], the loop by which a holder keeps a lease.
    - [RequestBook]: [leasing/lease-request-book.ts], written against [LeaseRequestStore].
    - [Lifecycle]: [leasing/lease-lifecycle.ts], [leasing/lease-expiry-scheduler.ts],
      [leasing/lease-reconciler.ts] and the serialized decisions of
      [leasing/lease-release-coordinator.ts], over [Registry].
    - [WarmPool]: [core/warm-pool/policy.ts], which idle devices are shut down, booted and created.
    - [WarmLearned]: [core/warm-pool/learned.ts], [core/warm-pool/retry.ts], the record of the kinds
      leased and of the boots that failed.

    - [WarmConverge], [WarmConvergeInv]: [core/warm-pool/converger.ts] and
      [core/warm-pool/catalog-check.ts], the pool at work: passes, flights, targets, and its promises.

    The daemon's work on devices, as flows over the state all of it shares ([Shared] of [Devices]):
    - [Devices], [DevicePool]: [core/managed-device-lifecycle.ts]: booting, recovering, stopping and
      destroying a device under a claim, and any number of these side by side.
    - [Quarantine]: [core/quarantine-coordinator.ts], [core/physical-presence.ts].
    - [Reclaim]: [core/reclaim-coordinator.ts], what becomes of a device whose lease ended.
    - [Provision]: [core/device-provisioner.ts] with the claims of [core/component-installer.ts] and
      the holds of [core/baselines.ts].
    - [AcquisitionState], [Acquisition]: [leasing/lease-acquisition-coordinator.ts] and
      [leasing/lease-refusal.ts]: from a request to a grant through plans, boots and evictions.
    - [Release]: [leasing/lease-release-coordinator.ts] and [core/nuke-service.ts] with [removeAll] of
      [core/baselines.ts]: endings of leases with their background reclaims, and the operator's reset;
      [Alone]: these side by side; [Turns]: resets that take turns and wait for their own endings.
    - [Health], [HealthInv]: [leasing/lease-health-monitor.ts], which reboots or gives up the leased
      devices that stop; [Watch], [WatchInv]: [leasing/physical-device-watcher.ts], which records the
      phones that are gone or back.
    - [Ownership], [Drives], [Together]: what a drive of the coordinator owns, that each drive gives
      it back, and any number of drives interleaved.

    A gateway over a fleet of daemons:
    - [FleetIndex]: [gateway/lease-index.ts], the leases it issued.
    - [FleetViews]: [gateway/worker-registry.ts], [gateway/drain-store.ts], its views of workers.
    - [Routing]: [gateway/routing.ts] and [gateway/routing/], which worker a request goes to.
    - [Fleet], [FleetInv]: [gateway/fleet-coordinator.ts], [gateway/fleet-refusals.ts] and the lease
      half of [gateway/fleet-forwarding.ts], over [WaitQueue] (which [gateway/queue.ts] wraps) and a
      class [RoutingPolicy] whose laws the policies of [Routing] satisfy; and its invariant.

    Formats:
    - [Text]: [contract/device-schemas.ts], [cli/csv.ts]: bounded texts and the ledger as CSV.
    - [Wire]: [contract/tunnel-frames.ts], [contract/duration.ts], [lease-files/range.ts].

    How they interact: a request enters the book, which stores it and starts a wait; the wait queue
    keeps the waiters; a drive resolves the request, plans over a registry snapshot, taking capacity
    reservations and device claims, and carries the plan out through the device operations; the
    lifecycle grants through the registry, which commits the lease, the device and the request's
    result at once, and arms the expiry timer; a lease that ends hands its device to reclaim, and a
    device that cannot be cleaned goes to quarantine; cleanup and the warm pool read the same devices
    and leases and act only on devices nothing holds. A gateway keeps a queue of its own, picks a
    worker by routing, and forwards the request; its index follows the leases the workers report.

    ** How the code is modelled

    - A method that reads and writes its object's fields is an [action]: a function from the state
      to the state and a result, where a thrown error is an [Err] and the state is the one at the
      throw. State changes made before a throw stay, as in the source.
    - A method that awaits is a [flow]: its sections (stretches between awaits, or inside the gate)
      are actions on the state the daemon shares, and its driver calls are answered by the
      environment, any answer and any error. [safe] runs a flow beside other code: what the others
      may do is a rely, what it does is a guarantee, and [Together] and [DevicePool] compose
      them into pools that interleave any number of flows, and [Crew] does for the coordinators whose
      flows start others ([Alone], [Turns], [HealthInv], [WatchInv], [WarmConvergeInv]).
    - Callbacks of timers and answers of forwarded calls (the queue's timers, the renewal loop, the
      book, the scheduler, the attempts of a gateway) are a step relation whose steps are the
      stretches of code that run without giving way, in any order; properties of runs are by
      induction on it.
    - A record spread is the notation [r <| field := v |>]. Optional fields are options.
      Tagged unions are inductive types with the source's cases.
    - The clock is read once per operation and passed as [now]; moments and durations are integers
      of milliseconds. Generated ids are arguments, with freshness as a premise where a theorem
      needs it ([lease_ids_free] for the leases drives grant).
    - Objects compared or shared by identity (claims, reservations, waiters, promises, entries of
      the book, arrays of leases in a view) have a number of their own and live in a table, so that
      aliasing is visible.
    - Callbacks and events are entries of a log kept in the state, in the order they happen.
    - Tables of the state database are records under their keys; a commit writes the changed ones.
    - Code outside the sources (drivers, the locale's comparison, the class of a model in a device
      catalog) is an argument of the definitions, with its documented laws as a class. Values the
      program only passes on are of the type [opaque].
    - What a gateway is told by workers is arbitrary; the theorems on its index say which reports
      they need ([op_agrees]: a worker reports of a lease the requester it was issued to and whether
      its id was chosen by the requester; a worker's id has no dot or space, [worker_id_ok]).

    Recursion is structural except for these loops. [evict_settled] of [RequestStore] takes the
    length of the list as its fuel: each pass drops one record, and the theorem on it states the
    state the loop ends in, not only what holds if it ends.
    [over_budget_loop] and [displace_loop] of [WarmPool] take the number of candidates: each pass
    takes one, and the lemmas on them state that the loop ended for the source's reason.
    [fill_loop] counts the source's loop variable down. [carry_out] and [drivePhysical] of
    [Acquisition] plan again after an eviction or a retry, as often as the daemon's state makes them;
    they take the number of steps, answer what is left to do when it is used up, and their theorems
    hold for every number. So do the waits of [Release]; its theorems say that the wait of a workflow
    kept out can be answered whenever no reset is on.

    ** What the theorems show

    - The registry: leases and leased devices are in step in every reachable state, a grant is
      one commit, an operation that throws changes nothing, a granted request never outlives its
      device, and the transactions of the commits never fail and are read back after a restart as
      what was in memory.
    - Leases in time: every live lease expires at its own deadline and at no other; a start ends
      exactly the leases whose device is not running; the holder's loop renews in time, follows the
      newest answer and ends once.
    - Waiting: a waiter is settled once, no waiter overtakes another, a deadline is fixed once, and a
      repeated request joins the wait or gets the stored answer of the first.
    - Room: no reservation passes a limit under any lawful strategy, none leaks; claims are exclusive;
      a plan holds exactly what it carries, names a device that serves, and evicts only what helps.
    - Work on devices: no two driver calls on one device are ever out at once and none on a leased
      device but the one that recovers it; a retried quarantine ends and a device that was not
      cleaned is never leased again; drives of the coordinator, in any number and order, never work
      on the same device, and the claims, reservations, components and versions that are taken are
      at any moment those taken before and those of the drives under way.
    - Endings and resets: a reset has the drivers to itself while it walks the devices, its own endings
      included unless one failed, and a workflow it kept out is let in when it ends. Both are for
      runs without [releaseAll]; an example shows what that command leaves behind.
    - Watching: no lease is ended, no device rebooted under one and no phone found absent without as
      many readings in a row of that very device as are asked for; recoveries stay within their limit.
    - Requests: a request resolves to a spec that honours it, and installs only what it may.
    - Idle devices: cleanup proposes exactly what its thresholds say and only what is safe.
    - The warm pool: its plan touches only devices nothing holds, stays within every limit and the
      operator's reserve, gives way to the budget oldest first, never displaces what a target is
      configured to keep, and explains every target it leaves short; what it learns from leases is
      bounded and counts the true peak of use. At work it runs one pass at a time, never has more
      boots out than it may, sheds once for a reading, begins nothing once it is closed or while a
      reset is on, and has nothing at a driver that it did not begin.
    - A fleet: no request is lost or sent to two workers, a pass spreads requests over workers, the
      policy picks the best eligible worker and the table never refuses what it could send, the index
      answers as a history of grants and reports says, a late report neither drops nor revives a
      lease, and a drain outlives the view of its worker.
    - Language of requests: OS ranges and baselines mean what their grammar says, the transition
      tables are exactly what [transition] allows, texts fit their schemas, and frames read back.

    ** What is not modelled

    The tables of other owners and migrations of an old database, schema validation of options and
    configuration, logging, the drivers and every host tool, process, socket, HTTP, MCP
    and command-line glue, and file transfer. Numbers read from text (version segments, byte
    ranges) are rounded to doubles as the language does; the other doubles are integers: millisecond
    times, counts and byte sizes below 2^53.

    Planned next, in this order: [core/startup-converger.ts], the rest of [gateway/fleet-forwarding.ts]
    and of [core/baselines.ts], and the runs of [core/reaper.ts]. *)
From stdpp Require Import base strings list option numbers sorting.
#[export] Set Warnings "-clear-no-such-hyp".

(** ** Record update *)

(** A record rebuilt field by field; [derive_setter] reads the body of the instance. *)
Class Eta (R : Type) := eta_record : R → R.
Class Setter {R T : Type} (p : R → T) := update_field : (T → T) → R → R.

Ltac derive_setter :=
  lazymatch goal with
  | |- @Setter ?R ?T ?p =>
      let inst := constr:(_ : Eta R) in
      let body := eval red in inst in
      lazymatch (eval pattern p in body) with
      | (fun _ => ?unchanged) _ => fail "no such field" p
      | ?rebuild _ => exact (fun f r => rebuild (fun r' => f (p r')) r)
      end
  end.
#[export] Hint Extern 1 (Setter _) => derive_setter : typeclass_instances.

Declare Scope js_scope.
Delimit Scope js_scope with js.

(** [{ ...r, p: v }] of the source. *)
Notation "r <| p := v |>" := (update_field (p := p) (λ _, v) r)
  (at level 1, left associativity, p at level 10, format "r  <| p  :=  v |>").

Create Rewrite HintDb capacity.

(** ** Comparison operators of the source *)

Notation "a === b" := (bool_decide (a = b)) (at level 70, no associativity) : js_scope.
Notation "a !== b" := (negb (bool_decide (a = b))) (at level 70, no associativity) : js_scope.
(** [a ?? b] of the source is [default b a]. *)
(** [a || b] on numbers: the second when the first is zero. *)
Definition num_or (a b : Z) : Z := if (a =? 0)%Z then b else a.
#[global] Open Scope js_scope.

(** Evaluates the comparisons whose two sides are closed. *)
Ltac js_eval :=
  repeat match goal with
  | |- context [bool_decide ?P] =>
      let b := eval vm_compute in (bool_decide P) in
      lazymatch b with
      | true => change (bool_decide P) with true
      | false => change (bool_decide P) with false
      end
  end; cbn beta iota zeta delta [negb andb orb].

(** ** Fallible operations *)

Inductive result (E A : Type) : Type :=
| Ok (a : A)
| Err (e : E).
Arguments Ok {E A} a.
Arguments Err {E A} e.

#[global] Instance result_ret {E} : MRet (result E) := λ A a, Ok a.
#[global] Instance result_bind {E} : MBind (result E) := λ A B f m,
  match m with Ok a => f a | Err e => Err e end.
#[global] Instance result_fmap {E} : FMap (result E) := λ A B f m,
  match m with Ok a => Ok (f a) | Err e => Err e end.

Definition is_Ok {E A} (r : result E A) : Prop := ∃ a, r = Ok a.
(** A thrown error when a check fails: [if (!b) throw e]. *)
Definition require {E} (b : bool) (e : E) : result E unit := if b then Ok tt else Err e.
Definition of_option {E A} (e : E) (o : option A) : result E A :=
  match o with Some a => Ok a | None => Err e end.

Lemma bind_Ok {E A B} (f : A → result E B) m b :
  (m ≫= f) = Ok b ↔ ∃ a, m = Ok a ∧ f a = Ok b.
Proof. destruct m; cbn; naive_solver. Qed.
Lemma bind_Err {E A B} (f : A → result E B) m e :
  (m ≫= f) = Err e ↔ m = Err e ∨ ∃ a, m = Ok a ∧ f a = Err e.
Proof. destruct m; cbn; naive_solver. Qed.
Lemma require_Ok {E} b (e : E) u : require b e = Ok u ↔ b = true.
Proof. destruct b, u; cbn; naive_solver. Qed.
Lemma require_Err {E} b (e e' : E) : require b e = Err e' ↔ b = false ∧ e = e'.
Proof. destruct b; cbn; naive_solver. Qed.
Lemma of_option_Ok {E A} (e : E) (o : option A) a : of_option e o = Ok a ↔ o = Some a.
Proof. destruct o; cbn; naive_solver. Qed.
Lemma of_option_Err {E A} (e e' : E) (o : option A) : of_option e o = Err e' ↔ o = None ∧ e = e'.
Proof. destruct o; cbn; naive_solver. Qed.

(** ** Methods that throw: state passed along, kept as it is when an error is thrown *)

Definition action (S E A : Type) : Type := S → S * result E A.
#[global] Instance action_ret {S E} : MRet (action S E) := λ A a s, (s, Ok a).
#[global] Instance action_bind {S E} : MBind (action S E) := λ A B f m s,
  match m s with (s', Ok a) => f a s' | (s', Err e) => (s', Err e) end.
Definition throw {S E A} (e : E) : action S E A := λ s, (s, Err e).
Definition get {S E} : action S E S := λ s, (s, Ok s).
Definition modify {S E} (f : S → S) : action S E unit := λ s, (f s, Ok tt).
Definition lift {S E A} (r : result E A) : action S E A := λ s, (s, r).
(** [if (!b) throw e]. *)
Definition guard_or {S E} (b : bool) (e : E) : action S E unit := lift (require b e).

(** What an action ends in, and with what answer: [Q] on return, [R] on a throw. *)
Definition runs {S E A} (m : action S E A) (s : S) (Q : A → S → Prop) (R : E → S → Prop) : Prop :=
  match m s with (s', Ok a) => Q a s' | (s', Err e) => R e s' end.

Section action.
Context {S E : Type}.
Implicit Types (s : S) (e : E).

Lemma runs_ret {A} (a : A) s Q (R : E → S → Prop) : Q a s → runs (mret a) s Q R.
Proof. done. Qed.
Lemma runs_throw {A} e s (Q : A → S → Prop) (R : E → S → Prop) : R e s → runs (throw e) s Q R.
Proof. done. Qed.
Lemma runs_get s (Q : S → S → Prop) (R : E → S → Prop) : Q s s → runs get s Q R.
Proof. done. Qed.
Lemma runs_modify f s Q (R : E → S → Prop) : Q tt (f s) → runs (modify f) s Q R.
Proof. done. Qed.
Lemma runs_lift {A} (r : result E A) s Q R :
  (∀ a, r = Ok a → Q a s) → (∀ e, r = Err e → R e s) → runs (lift r) s Q R.
Proof. unfold runs, lift. destruct r; auto. Qed.
Lemma runs_guard b e s Q (R : E → S → Prop) :
  (b = true → Q tt s) → (b = false → R e s) → runs (guard_or b e) s Q R.
Proof. unfold runs, guard_or, lift. destruct b; cbn; auto. Qed.
Lemma runs_bind {A B} (m : action S E A) (f : A → action S E B) s Q R :
  runs m s (λ a s', runs (f a) s' Q R) R → runs (m ≫= f) s Q R.
Proof. unfold runs, mbind, action_bind. by destruct (m s) as [s' [a|e]]. Qed.
Lemma runs_and {A} (m : action S E A) s (Q Q' : A → S → Prop) (R R' : E → S → Prop) :
  runs m s Q R → runs m s Q' R' → runs m s (λ a s, Q a s ∧ Q' a s) (λ e s, R e s ∧ R' e s).
Proof. unfold runs. by destruct (m s) as [s' [a|e]]. Qed.
Lemma runs_mono {A} (m : action S E A) s (Q Q' : A → S → Prop) (R R' : E → S → Prop) :
  runs m s Q R → (∀ a s', Q a s' → Q' a s') → (∀ e s', R e s' → R' e s') → runs m s Q' R'.
Proof. unfold runs. destruct (m s) as [s' [a|e]]; auto. Qed.
End action.

(** Steps an action through its primitive parts, leaving the branches to prove. *)
Ltac run_action :=
  repeat first
  [ apply runs_bind
  | apply runs_ret
  | apply runs_throw
  | apply runs_get
  | apply runs_modify
  | apply runs_guard; [intros ?|intros ?]
  | apply runs_lift; [intros ??|intros ??] ].

(** ** Arrays: the array methods the source calls, on lists *)

Module Arr.
Section arr.
Context {A B : Type}.
Implicit Types (f : A → bool) (l : list A).

Definition filter f l : list A := List.filter f l.
Definition find f l : option A := List.find f l.
Definition some f l : bool := existsb f l.
Definition every f l : bool := forallb f l.
Definition flatMap (g : A → list B) l : list B := l ≫= g.

(** [findIndex], with [None] for [-1]. *)
Fixpoint findIndex f l : option nat :=
  match l with
  | [] => None
  | x :: l => if f x then Some 0 else S <$> findIndex f l
  end.

(** [splice(i, 1)]. *)
Definition removeAt (i : nat) l : list A := base.delete i l.
End arr.
Definition includes {A} `{EqDecision A} (x : A) (l : list A) : bool := bool_decide (x ∈ l).
End Arr.

Section arr_lemmas.
Context {A : Type}.
Implicit Types (f g : A → bool) (l k : list A) (x y : A).

Lemma elem_of_afilter f l x : x ∈ Arr.filter f l ↔ x ∈ l ∧ f x = true.
Proof. rewrite !list_elem_of_In. apply filter_In. Qed.

Lemma afind_Some f l x : Arr.find f l = Some x → x ∈ l ∧ f x = true.
Proof. intros H%find_some. by rewrite list_elem_of_In. Qed.

Lemma afind_None f l : Arr.find f l = None ↔ ∀ x, x ∈ l → f x = false.
Proof.
  split.
  - intros H x Hx. apply (find_none _ _ H). by apply list_elem_of_In.
  - induction l as [|y l IH]; intros H; [done|]. unfold Arr.find in *. cbn.
    rewrite (H y) by (by left). apply IH. intros x ?. apply H. by right.
Qed.

Lemma afind_Some_first f l x : Arr.find f l = Some x →
  ∃ i, l !! i = Some x ∧ f x = true ∧ ∀ j y, l !! j = Some y → j < i → f y = false.
Proof.
  unfold Arr.find. induction l as [|y l IH]; cbn; [done|]. destruct (f y) eqn:Ey.
  - intros [= <-]. exists 0. split_and!; [done..|lia].
  - intros (i & Hi & Hx & Hlt)%IH. exists (S i). split_and!; [done..|].
    intros [|j] z Hz ?; cbn in Hz; [congruence|]. apply (Hlt j z Hz). lia.
Qed.

Lemma asome_true f l : Arr.some f l = true ↔ ∃ x, x ∈ l ∧ f x = true.
Proof. unfold Arr.some. rewrite existsb_exists. by setoid_rewrite list_elem_of_In. Qed.

Lemma asome_false f l : Arr.some f l = false ↔ ∀ x, x ∈ l → f x = false.
Proof.
  rewrite <- not_true_iff_false, asome_true. split.
  - intros H x Hx. destruct (f x) eqn:E; [|done]. exfalso. eauto.
  - intros H (x & Hx & E). by rewrite (H x Hx) in E.
Qed.

Lemma aevery_true f l : Arr.every f l = true ↔ ∀ x, x ∈ l → f x = true.
Proof. unfold Arr.every. rewrite forallb_forall. by setoid_rewrite list_elem_of_In. Qed.

Lemma afindIndex_Some f l i :
  Arr.findIndex f l = Some i ↔
  ∃ x, l !! i = Some x ∧ f x = true ∧ ∀ j y, l !! j = Some y → j < i → f y = false.
Proof.
  revert i. induction l as [|x l IH]; intros i; cbn.
  { split; [done|]. by intros (y & ? & _). }
  destruct (f x) eqn:Ex.
  - split.
    + intros [= <-]. exists x. split_and!; [done..|lia].
    + intros (y & Hy & Ey & Hlt). destruct i as [|i]; [done|].
      pose proof (Hlt 0 x eq_refl ltac:(lia)). congruence.
  - rewrite fmap_Some. split.
    + intros (j & Hj & ->). apply IH in Hj as (y & Hy & Ey & Hlt).
      exists y. split_and!; [done..|]. intros [|j'] z Hz ?; cbn in *; [congruence|].
      eapply Hlt; [done|lia].
    + intros (y & Hy & Ey & Hlt). destruct i as [|i]; cbn in *; [congruence|].
      exists i. split; [|done]. apply IH. exists y. split_and!; [done..|].
      intros j z Hz ?. apply (Hlt (S j) z Hz). lia.
Qed.

Lemma afindIndex_None f l : Arr.findIndex f l = None ↔ ∀ x, x ∈ l → f x = false.
Proof.
  induction l as [|x l IH]; cbn.
  { split; [|done]. by intros _ x ?%elem_of_nil. }
  destruct (f x) eqn:Ex.
  - split; [done|]. intros H. specialize (H x ltac:(by left)). congruence.
  - rewrite fmap_None, IH. split.
    + intros H y [->|Hy]%elem_of_cons; [done|by apply H].
    + intros H y Hy. apply H. by right.
Qed.

Lemma sublist_filter_b f l : sublist (Arr.filter f l) l.
Proof. induction l as [|x l IH]; cbn; [done|]. destruct (f x); by constructor. Qed.

Lemma sublist_elem_of l k x : sublist l k → x ∈ l → x ∈ k.
Proof. intros Hs Hx. eapply elem_of_submseteq; [done|by apply sublist_submseteq]. Qed.

Lemma afilter_length_le f l : length (Arr.filter f l) ≤ length l.
Proof. apply filter_length_le. Qed.

Lemma filter_filter_b f g l : List.filter f (List.filter g l) = List.filter (λ x, g x && f x) l.
Proof.
  induction l as [|x l IH]; cbn; [done|]. destruct (g x); cbn; [|done]. destruct (f x); by rewrite IH.
Qed.
Lemma afilter_all f l : (∀ x, x ∈ l → f x = true) → Arr.filter f l = l.
Proof.
  unfold Arr.filter. induction l as [|y l IH]; intros Hl; cbn; [done|].
  rewrite (Hl y) by (by left). f_equal. apply IH. intros x Hx. apply Hl. by right.
Qed.
Lemma filter_fmap_length f (g : A → A) l : (∀ x, f (g x) = f x) →
  length (Arr.filter f (g <$> l)) = length (Arr.filter f l).
Proof.
  intros Hg. unfold Arr.filter. induction l as [|x l IH]; cbn; [done|]. rewrite Hg.
  by destruct (f x); cbn; rewrite <- IH.
Qed.
Lemma afilter_none f l : (∀ x, x ∈ l → f x = false) → Arr.filter f l = [].
Proof.
  unfold Arr.filter. induction l as [|y l IH]; intros Hl; cbn; [done|].
  rewrite (Hl y) by (by left). apply IH. intros x Hx. apply Hl. by right.
Qed.
Lemma afilter_full f l x : length l ≤ length (Arr.filter f l) → x ∈ l → f x = true.
Proof.
  unfold Arr.filter. induction l as [|y l IH]; cbn; intros Hl Hx; [by apply elem_of_nil in Hx|].
  pose proof (filter_length_le f l). destruct (f y) eqn:Ey; cbn in Hl; [|lia].
  apply elem_of_cons in Hx as [->|Hx]; [done|]. apply IH; [lia|done].
Qed.
End arr_lemmas.

#[global] Instance afilter_perm {A} (f : A → bool) : Proper ((≡ₚ) ==> (≡ₚ)) (Arr.filter f).
Proof.
  unfold Arr.filter. induction 1 as [|x l k _ IH|x y l|l k m _ IH1 _ IH2]; cbn.
  - done.
  - destruct (f x); [by constructor|done].
  - destruct (f x), (f y); [apply Permutation_swap|done..].
  - by etrans.
Qed.

Lemma afilter_fmap {A B} (f : A → B) (p : B → bool) (l : list A) :
  Arr.filter p (f <$> l) = f <$> Arr.filter (λ a, p (f a)) l.
Proof. unfold Arr.filter. induction l as [|a l IH]; cbn; [done|]. destruct (p (f a)); cbn; by rewrite IH. Qed.
Lemma afilter_ext {A} (p q : A → bool) (l : list A) : (∀ a, a ∈ l → p a = q a) →
  Arr.filter p l = Arr.filter q l.
Proof. intros H. apply List.filter_ext_in. intros a ?%list_elem_of_In. by apply H. Qed.
Lemma asome_fmap {A B} (f : A → B) (p : B → bool) (l : list A) :
  Arr.some p (f <$> l) = Arr.some (λ a, p (f a)) l.
Proof. unfold Arr.some. induction l as [|a l IH]; cbn; [done|]. by rewrite IH. Qed.
Lemma asome_ext {A} (p q : A → bool) (l : list A) : (∀ a, a ∈ l → p a = q a) → Arr.some p l = Arr.some q l.
Proof.
  intros H. apply eq_true_iff_eq. rewrite !asome_true. by split; intros (a & Ha & E); exists a;
    [rewrite <- H|rewrite H].
Qed.

(** A function with distinct values on a list is injective on it. *)
Lemma NoDup_fmap_inj_on {A B} (f : A → B) l x y :
  NoDup (f <$> l) → x ∈ l → y ∈ l → f x = f y → x = y.
Proof.
  intros Hn [i Hi]%list_elem_of_lookup [j Hj]%list_elem_of_lookup Hxy.
  assert (i = j) as ->; [|congruence].
  eapply (NoDup_lookup _ i j (f x) Hn); rewrite list_lookup_fmap; [by rewrite Hi|].
  by rewrite Hj, Hxy.
Qed.

(** ** Sorting with a comparator: [Array.prototype.sort], which is stable *)

(** The contract of a comparator argument: a total preorder read through the sign. *)
Class Comparator {A} (cmp : A → A → Z) : Prop := {
  cmp_total a b : (cmp a b ≤ 0 ∨ cmp b a ≤ 0)%Z;
  cmp_trans a b c : (cmp a b ≤ 0 → cmp b c ≤ 0 → cmp a c ≤ 0)%Z
}.

Fixpoint sort_insert {A} (cmp : A → A → Z) (x : A) (l : list A) : list A :=
  match l with
  | [] => [x]
  | y :: l => if (cmp x y <=? 0)%Z then x :: y :: l else y :: sort_insert cmp x l
  end.
Definition sort_by {A} (cmp : A → A → Z) (l : list A) : list A :=
  foldr (sort_insert cmp) [] l.

Section sort.
Context {A : Type} (cmp : A → A → Z).
Local Abbreviation le := (λ a b, (cmp a b ≤ 0)%Z).

Lemma sort_insert_perm x l : sort_insert cmp x l ≡ₚ x :: l.
Proof.
  induction l as [|y l IH]; cbn; [done|]. destruct (_ <=? _)%Z; [done|].
  rewrite IH. apply Permutation_swap.
Qed.

Lemma sort_by_perm l : sort_by cmp l ≡ₚ l.
Proof.
  induction l as [|x l IH]; cbn; [done|]. rewrite sort_insert_perm. by constructor.
Qed.

Lemma elem_of_sort_by x l : x ∈ sort_by cmp l ↔ x ∈ l.
Proof. by rewrite sort_by_perm. Qed.

Context `{!Comparator cmp}.

Lemma sort_insert_sorted x l : StronglySorted le l → StronglySorted le (sort_insert cmp x l).
Proof.
  induction 1 as [|y l Hs IH Hy]; cbn; [by repeat constructor|].
  destruct (Z.leb_spec (cmp x y) 0) as [Hle|Hgt].
  - constructor; [by constructor|]. constructor; [done|].
    eapply Forall_impl; [done|]. cbn. intros z ?. by eapply cmp_trans.
  - constructor; [done|]. rewrite sort_insert_perm. constructor; [|done].
    destruct (cmp_total x y); lia.
Qed.

Lemma sort_by_sorted l : StronglySorted le (sort_by cmp l).
Proof. induction l; cbn; [constructor|by apply sort_insert_sorted]. Qed.

(** [l.sort(cmp)[0]] is an element no other comes before. *)
Lemma sort_by_head l x : head (sort_by cmp l) = Some x →
  x ∈ l ∧ ∀ y, y ∈ l → (cmp x y ≤ 0)%Z.
Proof.
  intros Hh. pose proof (sort_by_sorted l) as Hs.
  destruct (sort_by cmp l) as [|z k] eqn:E; [done|]. injection Hh as ->.
  assert (∀ y, y ∈ l ↔ y = x ∨ y ∈ k) as Hl.
  { intros y. by rewrite <- (elem_of_sort_by y l), E, elem_of_cons. }
  split; [apply Hl; by left|]. intros y [->|Hy]%Hl.
  - destruct (cmp_total x x); lia.
  - apply StronglySorted_inv in Hs as [_ Hs]. rewrite Forall_forall in Hs. by apply Hs.
Qed.

Lemma sort_by_head_None l : head (sort_by cmp l) = None ↔ l = [].
Proof.
  split; [|by intros ->]. intros H. destruct (sort_by cmp l) eqn:E; [|done].
  apply Permutation_nil_r. by rewrite <- (sort_by_perm l), E.
Qed.
Lemma StronglySorted_afilter (R : A → A → Prop) f l : StronglySorted R l → StronglySorted R (Arr.filter f l).
Proof.
  induction 1 as [|x l Hs IH Hx]; cbn; [constructor|]. destruct (f x); [|done].
  constructor; [done|]. rewrite Forall_forall in *. intros y [Hy _]%elem_of_afilter. by apply Hx.
Qed.
End sort.

(** [String.prototype.localeCompare]: the collation belongs to the host, so it is a
    parameter; the laws are the ones the language specification gives every implementation. *)
Class LocaleCompare := localeCompare : string → string → Z.
Class LocaleCompareLaws `{LocaleCompare} : Prop :=
  locale_comparator :: Comparator localeCompare.

(** Keys compared first by a number and then by an id: [a - b || x.localeCompare(y)]. *)
Definition compare_key_id `{LocaleCompare} {A} (key : A → Z) (id : A → string) (a b : A) : Z :=
  num_or (key a - key b) (localeCompare (id a) (id b)).

#[global] Instance compare_key_id_comparator `{LocaleCompareLaws} {A}
    (key : A → Z) (id : A → string) : Comparator (compare_key_id key id).
Proof.
  split; unfold compare_key_id, num_or; intros a b.
  - destruct (Z.eqb_spec (key a - key b) 0), (Z.eqb_spec (key b - key a) 0); try lia.
    apply cmp_total.
  - intros c. destruct (Z.eqb_spec (key a - key b) 0), (Z.eqb_spec (key b - key c) 0),
      (Z.eqb_spec (key a - key c) 0); try lia. apply cmp_trans.
Qed.

(** Code-point order, one collation that satisfies the laws. *)
Definition codepoint_compare (a b : string) : Z :=
  match String.compare a b with Lt => -1 | Eq => 0 | Gt => 1 end.

Module Codepoint.
#[export] Instance compare : LocaleCompare := codepoint_compare.
#[export] Instance laws : LocaleCompareLaws.
Proof.
  unfold LocaleCompareLaws, localeCompare, compare, codepoint_compare.
  assert (∀ a b, (match String.compare a b with Lt => -1 | Eq => 0 | Gt => 1 end ≤ 0)%Z ↔
    String.le a b) as Hle.
  { intros a b. unfold String.le, String.leb. destruct (String.compare a b); cbn; split; (lia || done). }
  split; [intros a b|intros a b c]; rewrite !Hle.
  - apply total, _.
  - intros ??. by etrans.
Qed.
End Codepoint.
