(* ===== verification/Flow.v ===== *)
(** * Workflows between the gate and the drivers: [src/core/serialized-decision.ts]

    The program's asynchronous methods alternate short sections that read, decide and commit
    (inside the decision gate, or between two awaits) with driver calls that take as long as they
    take. [SerializedDecision] is the gate. A method is a [flow]: a tree of atomic sections on the
    shared state and of calls whose answer the environment chooses. [safe] is what a flow promises
    under interference: at every call and section it relies on the others keeping what it owns, and
    guarantees the same to them. *)
From stdpp Require Import base strings list option numbers relations.
From S2P Require Import Prelude.

(** ** The decision gate *)

(** The sections handed to [run], in the order of the calls: each holds the promise of the one
    before it, starts when that is released, and releases its own however it ends. *)
Inductive SectionState := waiting_turn | running_section | released_section.
#[global] Instance SectionState_eq_dec : EqDecision SectionState.
Proof. solve_decision. Defined.
Abbreviation SerializedDecision := (list SectionState).

(** [run]: the new tail, behind the previous one. *)
Definition run_section (l : SerializedDecision) : SerializedDecision := l ++ [waiting_turn].
(** [await previous] has resolved: the first section's previous is the resolved promise. *)
Definition previous_released (l : SerializedDecision) (i : nat) : bool :=
  match i with 0 => true | S j => l !! j === Some released_section end.
Definition start_section (l : SerializedDecision) (i : nat) : option SerializedDecision :=
  if (l !! i === Some waiting_turn) && previous_released l i
  then Some (<[i := running_section]> l) else None.
(** The [finally]: the operation returned or threw. *)
Definition end_section (l : SerializedDecision) (i : nat) : option SerializedDecision :=
  if l !! i === Some running_section then Some (<[i := released_section]> l) else None.

Inductive gate_reachable : SerializedDecision → Prop :=
| gate_new : gate_reachable []
| gate_run l : gate_reachable l → gate_reachable (run_section l)
| gate_start l i l' : gate_reachable l → start_section l i = Some l' → gate_reachable l'
| gate_end l i l' : gate_reachable l → end_section l i = Some l' → gate_reachable l'.

(** The shape of the gate: released sections, at most one running, then those whose turn is still
    to come. *)
Definition gate_shape (n : nat) (running : bool) (m : nat) : SerializedDecision :=
  replicate n released_section ++ (if running then [running_section] else []) ++ replicate m waiting_turn.

Lemma gate_shape_lookup n b m i :
  gate_shape n b m !! i =
  if decide (i < n) then Some released_section
  else if b then
    if decide (i = n) then Some running_section
    else if decide (i < S n + m) then Some waiting_turn else None
  else if decide (i < n + m) then Some waiting_turn else None.
Proof.
  unfold gate_shape. destruct (decide (i < n)) as [Hi|Hi].
  { rewrite lookup_app_l by (by rewrite length_replicate). by apply lookup_replicate_2. }
  rewrite lookup_app_r, length_replicate by (rewrite length_replicate; lia).
  destruct b; cbn.
  - destruct (decide (i = n)) as [->|Hne]; [by rewrite Nat.sub_diag|].
    destruct (i - n) as [|j] eqn:E; [lia|]. cbn. case_decide.
    + apply lookup_replicate_2. lia.
    + apply lookup_replicate_None. lia.
  - case_decide; [apply lookup_replicate_2|apply lookup_replicate_None]; lia.
Qed.

Lemma gate_shape_start n m : <[n := running_section]> (gate_shape n false (S m)) = gate_shape n true m.
Proof. unfold gate_shape. cbn. by rewrite insert_app_r_alt, length_replicate, Nat.sub_diag
  by (by rewrite length_replicate). Qed.
Lemma gate_shape_end n m : <[n := released_section]> (gate_shape n true m) = gate_shape (S n) false m.
Proof.
  unfold gate_shape. cbn [app]. rewrite insert_app_r_alt, length_replicate, Nat.sub_diag
    by (by rewrite length_replicate). cbn [list_insert app].
  by rewrite replicate_S_end, <- app_assoc.
Qed.

Lemma gate_reachable_shape l : gate_reachable l → ∃ n b m, l = gate_shape n b m.
Proof.
  induction 1 as [|l _ (n & b & m & ->)|l i l' _ (n & b & m & ->) E|l i l' _ (n & b & m & ->) E].
  - by exists 0, false, 0.
  - exists n, b, (S m). unfold run_section, gate_shape.
    by rewrite <- !app_assoc, <- replicate_S_end.
  - unfold start_section in E. case_bool_decide as Hw; [|done]. cbn in E.
    destruct (previous_released _ _) eqn:Hp; [|done]. injection E as <-.
    rewrite gate_shape_lookup in Hw. destruct b; repeat case_decide; try done.
    + (* one running: the section after it has an unreleased previous *)
      exfalso. destruct i as [|i]; [lia|]. cbn in Hp. rewrite bool_decide_eq_true, gate_shape_lookup in Hp.
      repeat case_decide; (done || lia).
    + assert (i = n) as ->.
      { destruct i as [|i]; [lia|]. cbn in Hp. rewrite bool_decide_eq_true, gate_shape_lookup in Hp.
        repeat case_decide; (done || lia). }
      destruct m as [|m]; [lia|]. exists n, true, m. apply gate_shape_start.
  - unfold end_section in E. case_bool_decide as Hw; [|done]. injection E as <-.
    rewrite gate_shape_lookup in Hw. destruct b; repeat case_decide; try done.
    subst i. exists (S n), false, m. apply gate_shape_end.
Qed.

(** The decision gate runs one section at a time, in the order they were asked for, and never
    stops: in every reachable state the sections before some point are released, at most one is
    running and the rest wait; and unless every section is released, either the running one can
    end or the next in line can start, so a section that throws holds nobody up. *)
Theorem gate_is_fifo_mutex l : gate_reachable l →
  ∃ n (running : bool) m, l = gate_shape n running m
    ∧ (running = true → is_Some (end_section l n))
    ∧ (running = false → 0 < m → is_Some (start_section l n))
    ∧ ∀ i, is_Some (start_section l i) → i = n ∧ running = false.
Proof.
  intros (n & b & m & ->)%gate_reachable_shape. exists n, b, m. split; [done|]. split_and!.
  - intros ->. unfold end_section. rewrite gate_shape_lookup.
    rewrite decide_False, decide_True by lia. by rewrite bool_decide_eq_true_2.
  - intros -> Hm. unfold start_section. rewrite gate_shape_lookup.
    rewrite decide_False, decide_True by lia. rewrite bool_decide_eq_true_2 by done. cbn [andb].
    destruct n as [|n]; cbn [previous_released]; [done|]. rewrite gate_shape_lookup, decide_True by lia.
    by rewrite bool_decide_eq_true_2.
  - intros i [l' E]. unfold start_section in E. case_bool_decide as Hw; [|done]. cbn in E.
    destruct (previous_released _ _) eqn:Hp; [|done]. rewrite gate_shape_lookup in Hw.
    destruct i as [|i]; cbn in Hp; rewrite ?bool_decide_eq_true, ?gate_shape_lookup in Hp;
      destruct b; repeat case_decide; try done; split; (done || lia).
Qed.

(** [gate_is_fifo_mutex] on a gate whose first section is running and whose second waits. *)
Lemma gate_is_fifo_mutex_witness :
  start_section [running_section; waiting_turn] 1 = None.
Proof.
  destruct (gate_is_fifo_mutex [running_section; waiting_turn]) as (n & b & m & Hl & _ & _ & Hs).
  - apply (gate_start (run_section (run_section [])) 0); [|reflexivity].
    apply gate_run, gate_run, gate_new.
  - destruct (start_section _ 1) as [l|] eqn:E; [|reflexivity].
    destruct (Hs 1) as [<- ->]; [by rewrite E|]. by destruct m.
Defined.

(** ** Flows *)

Section flow.
(** The shared state, the driver calls, what they answer and the errors they throw. *)
Context {St C D E : Type}.

Inductive flow (R : Type) : Type :=
| Done (r : result E R)
| Gate (section : St → St) (next : St → flow R)
| Call (c : C) (next : result E D → flow R).
Arguments Done {R} r.
Arguments Gate {R} section next.
Arguments Call {R} c next.

(** A section that is an action on the shared state; a driver call. *)
Definition gate {R} (m : action St E R) : flow R := Gate (λ s, (m s).1) (λ s, Done (m s).2).
Definition call (c : C) : flow D := Call c Done.

(** [await f] and then, on its result, [k]: sequencing, [catch] and [finally] are instances. *)
Fixpoint after {R R'} (f : flow R) (k : result E R → flow R') : flow R' :=
  match f with
  | Done r => k r
  | Gate section next => Gate section (λ s, after (next s) k)
  | Call c next => Call c (λ a, after (next a) k)
  end.

#[global] Instance flow_ret : MRet flow := λ R a, Done (Ok a).
#[global] Instance flow_bind : MBind flow := λ R R' k f,
  after f (λ r, match r with Ok a => k a | Err e => Done (Err e) end).
Definition fail {R} (e : E) : flow R := Done (Err e).
Definition try_catch {R} (f : flow R) (h : E → flow R) : flow R :=
  after f (λ r, match r with Ok a => Done (Ok a) | Err e => h e end).
(** [finally]: an error thrown by the clean-up replaces the outcome. *)
Definition finally {R} (f : flow R) (clean : flow unit) : flow R :=
  after f (λ r, after clean (λ c, match c with Ok _ => Done r | Err e => Done (Err e) end)).

(** ** Runs with nothing in between *)

(** A flow run to its end while nothing else runs, its driver answering each call as [answer] says
    from the calls before it: the result, the calls with their answers, and the state. *)
Fixpoint execute {R} (answer : list (C * result E D) → C → result E D) (f : flow R)
    (h : list (C * result E D)) (s : St) : result E R * list (C * result E D) * St :=
  match f with
  | Done r => (r, h, s)
  | Gate section next => execute answer (next s) h (section s)
  | Call c next => let a := answer h c in execute answer (next a) (h ++ [(c, a)]) s
  end.

Lemma execute_after {R R'} answer (f : flow R) (k : result E R → flow R') h s :
  execute answer (after f k) h s
  = let '(r, h', s') := execute answer f h s in execute answer (k r) h' s'.
Proof.
  revert h s. induction f as [r|sec next IH|c next IH]; intros h s; cbn; [done|by rewrite IH|by rewrite IH].
Qed.
Lemma execute_bind {R R'} answer (f : flow R) (k : R → flow R') h s r h' s' :
  execute answer f h s = (Ok r, h', s') → execute answer (f ≫= k) h s = execute answer (k r) h' s'.
Proof. intros Hf. unfold mbind, flow_bind. by rewrite execute_after, Hf. Qed.
Lemma execute_bind_Err {R R'} answer (f : flow R) (k : R → flow R') h s e h' s' :
  execute answer f h s = (Err e, h', s') → execute answer (f ≫= k) h s = (Err e, h', s').
Proof. intros Hf. unfold mbind, flow_bind. by rewrite execute_after, Hf. Qed.
Lemma execute_gate {R} answer (m : action St E R) h s :
  execute answer (gate m) h s = ((m s).2, h, (m s).1).
Proof. done. Qed.
Lemma execute_catch {R} answer (f : flow R) (k : E → flow R) h s :
  execute answer (try_catch f k) h s
  = let '(r, h', s') := execute answer f h s in
    match r with Ok a => (Ok a, h', s') | Err e => execute answer (k e) h' s' end.
Proof.
  unfold try_catch. rewrite execute_after. by destruct (execute answer f h s) as [[[a|e] h'] s'].
Qed.
Lemma execute_finally {R} answer (f : flow R) (m : action St E unit) h s :
  (∀ s, (m s).2 = Ok tt) →
  execute answer (finally f (gate m)) h s
  = let '(r, h', s') := execute answer f h s in (r, h', (m s').1).
Proof.
  intros Hm. unfold finally. rewrite execute_after. destruct (execute answer f h s) as [[r h'] s'].
  rewrite execute_after, execute_gate, Hm. done.
Qed.

(** ** Rely and guarantee *)

(** What a flow owns is [O]; [rely o] is what the others may do to the state while it owns [o],
    [guar o s o' s'] what its own section may do, passing from owning [o] to [o'], and [may_call]
    what must hold while a call is outstanding. *)
Context {O : Type} (rely : O → St → St → Prop) (guar : O → St → O → St → Prop)
  (may_call : C → O → St → Prop).
Local Abbreviation history := (list (C * result E D)).

Fixpoint safe {R} (f : flow R) (o : O) (h : history) (s : St)
    (Q : result E R → O → history → St → Prop) : Prop :=
  match f with
  | Done r => Q r o h s
  | Gate section next => ∀ s', rely o s s' →
      ∃ o', guar o s' o' (section s') ∧ safe (next s') o' h (section s') Q
  | Call c next => ∀ s', rely o s s' →
      may_call c o s' ∧ ∀ a, safe (next a) o (h ++ [(c, a)]) s' Q
  end.

Context (rely_refl : ∀ o s, rely o s s) (rely_trans : ∀ o s1 s2 s3, rely o s1 s2 → rely o s2 s3 → rely o s1 s3).

Lemma safe_mono {R} (f : flow R) o h s Q Q' : safe f o h s Q →
  (∀ r o h s, Q r o h s → Q' r o h s) → safe f o h s Q'.
Proof.
  revert o h s. induction f as [r|sec next IH|c next IH]; intros o h s Hs HQ; cbn in *; [auto|..].
  - intros s' Hr. destruct (Hs s' Hr) as (o' & ? & ?). eauto.
  - intros s' Hr. destruct (Hs s' Hr) as [? Ha]. split; [done|]. intros a. eauto.
Qed.

Lemma safe_after {R R'} (f : flow R) (k : result E R → flow R') o h s Q :
  safe f o h s (λ r o h s, safe (k r) o h s Q) → safe (after f k) o h s Q.
Proof.
  revert o h s. induction f as [r|sec next IH|c next IH]; intros o h s Hs; cbn in *; [auto|..].
  - intros s' Hr. destruct (Hs s' Hr) as (o' & ? & ?). eauto.
  - intros s' Hr. destruct (Hs s' Hr) as [? Ha]. split; [done|]. intros a. eauto.
Qed.

Definition is_done {R} (f : flow R) : bool := match f with Done _ => true | _ => false end.

Lemma safe_stable {R} (f : flow R) o h s s' Q : is_done f = false → rely o s s' →
  safe f o h s Q → safe f o h s' Q.
Proof using rely_trans.
  destruct f as [r|sec next|c next]; cbn; [done|..]; intros _ Hr Hs s'' Hr'; apply Hs; by eapply rely_trans.
Qed.

(** A section, a driver call: the steps a proof of [safe] takes. *)
Lemma safe_gate {R} (m : action St E R) o h s Q :
  (∀ s', rely o s s' → ∃ o', guar o s' o' (m s').1 ∧ Q (m s').2 o' h (m s').1) →
  safe (gate m) o h s Q.
Proof. done. Qed.
Lemma safe_call c o h s Q :
  (∀ s', rely o s s' → may_call c o s' ∧ ∀ a, Q a o (h ++ [(c, a)]) s') → safe (call c) o h s Q.
Proof. done. Qed.

(** What came before a flow's own calls does not matter to it. *)
Lemma safe_history {R} (f : flow R) o h0 h s Q : safe f o h s Q →
  safe f o (h0 ++ h) s (λ r o h' s, ∃ h, h' = h0 ++ h ∧ Q r o h s).
Proof.
  revert o h s. induction f as [r|sec next IH|c next IH]; intros o h s Hs; cbn in *; [eauto|..].
  - intros s' Hr. destruct (Hs s' Hr) as (o' & ? & ?). eauto.
  - intros s' Hr. destruct (Hs s' Hr) as [? Ha]. split; [done|]. intros a.
    rewrite <- (assoc_L app). apply IH, Ha.
Qed.

(** Every section of a flow relates the states around it. *)
Fixpoint sections {R} (P : St → St → Prop) (f : flow R) : Prop :=
  match f with
  | Done _ => True
  | Gate section next => ∀ s, P s (section s) ∧ sections P (next s)
  | Call _ next => ∀ a, sections P (next a)
  end.
Lemma sections_after {R R'} P (f : flow R) (k : result E R → flow R') :
  sections P f → (∀ r, sections P (k r)) → sections P (after f k).
Proof.
  intros Hf Hk. induction f as [r|sec next IH|c next IH]; cbn in *; [done|..]; intros x; [|by apply IH].
  destruct (Hf x) as [? ?]. split; [done|]. by apply IH.
Qed.
Lemma sections_bind {R R'} P (f : flow R) (k : R → flow R') :
  sections P f → (∀ a, sections P (k a)) → sections P (f ≫= k).
Proof. intros Hf Hk. apply sections_after; [done|]. by intros [a|e]; [apply Hk|]. Qed.
Lemma sections_catch {R} P (f : flow R) (k : E → flow R) :
  sections P f → (∀ e, sections P (k e)) → sections P (try_catch f k).
Proof. intros Hf Hk. apply sections_after; [done|]. by intros [a|e]; [|apply Hk]. Qed.
Lemma sections_finally {R} P (f : flow R) (k : flow unit) :
  sections P f → sections P k → sections P (finally f k).
Proof. intros Hf Hk. apply sections_after; [done|]. intros r. by apply sections_after; [|intros []]. Qed.
Lemma sections_gate {R} (P : St → St → Prop) (m : action St E R) : (∀ s, P s (m s).1) → sections P (gate m).
Proof. intros H s. by split. Qed.
End flow.
Arguments flow : clear implicits.
Arguments Done {St C D E R} r.
Arguments Gate {St C D E R} section next.
Arguments Call {St C D E R} c next.

(** A flow safe for what it owns is safe where more is owned, if its sections leave the rest alone. *)
Lemma safe_frame {St C D E O O' R} (rely : O → St → St → Prop) guar (may_call : C → O → St → Prop)
    (rely' : O' → St → St → Prop) guar' (may_call' : C → O' → St → Prop) (wider : O → O')
    (P : St → St → Prop) (inv : O → St → Prop) (J : St → Prop)
    (f : flow St C D E R) o h s Q :
  (∀ o s s', inv o s → rely' (wider o) s s' → rely o s s' ∧ inv o s') →
  (∀ o s o' s', inv o s → guar o s o' s' → P s s' → guar' (wider o) s (wider o') s' ∧ inv o' s') →
  (∀ c o s, may_call c o s → may_call' c (wider o) s) →
  (∀ o s s', J s → inv o s → rely' (wider o) s s' → J s') → (∀ s s', J s → P s s' → J s') →
  sections P f → inv o s → J s → safe rely guar may_call f o h s Q →
  safe rely' guar' may_call' f (wider o) h s (λ r o' h s, ∃ o, o' = wider o ∧ inv o s ∧ J s ∧ Q r o h s).
Proof.
  intros Hr Hg Hc HJr HJp. revert o h s. induction f as [r|sec next IH|c next IH]; intros o h s Hsec Hi HJ Hs; cbn in *.
  - eauto 6.
  - intros s' Hr'. destruct (Hr _ _ _ Hi Hr') as [Hr1 Hi']. destruct (Hs s' Hr1) as (o' & Hgu & Hs').
    destruct (Hsec s') as [HP Hnext]. destruct (Hg _ _ _ _ Hi' Hgu HP) as [Hgu' Hi''].
    exists (wider o'). split; [done|]. apply IH; eauto.
  - intros s' Hr'. destruct (Hr _ _ _ Hi Hr') as [Hr1 Hi']. destruct (Hs s' Hr1) as [Hmay Ha].
    split; [auto|]. intros a. apply IH; eauto.
Qed.

(** ** Flows run beside each other *)

Section pool.
Context {St C D E O R : Type}.
Local Abbreviation flow_of := (flow St C D E R).
Local Abbreviation history := (list (C * result E D)).
(** What happens in the rest of the program, and the states that can come about. *)
Context (elsewhere : St → St → Prop) (fine : St → Prop).

(** Any of the flows may run its next section, or have its call answered in any way. *)
Inductive pool_step : list flow_of * St → list flow_of * St → Prop :=
| pool_section fs (i : nat) section next s : fs !! i = Some (Gate section next) → fine (section s) →
    pool_step (fs, s) (<[i := next s]> fs, section s)
| pool_answer fs (i : nat) c next a s : fs !! i = Some (Call c next) → pool_step (fs, s) (<[i := next a]> fs, s)
| pool_elsewhere fs s s' : elsewhere s s' → fine s' → pool_step (fs, s) (fs, s').

(** Each flow has a rely, a guarantee and an outcome of its own; [J] is what holds of all they own. *)
Context (rely : nat → O → St → St → Prop) (guar : nat → O → St → O → St → Prop)
  (may_call : nat → C → O → St → Prop) (Q : nat → result E R → O → history → St → Prop) (J : list O → St → Prop).
Context (rely_refl : ∀ i o s, rely i o s s)
  (rely_trans : ∀ i o s1 s2 s3, rely i o s1 s2 → rely i o s2 s3 → rely i o s1 s3).
Context (own_steps : ∀ os s (i : nat) o o' s', J os s → os !! i = Some o → guar i o s o' s' → fine s' →
    J (<[i := o']> os) s' ∧ ∀ (j : nat) o2, j ≠ i → os !! j = Some o2 → rely j o2 s s')
  (other_steps : ∀ os s s', J os s → elsewhere s s' → fine s' →
    J os s' ∧ ∀ (i : nat) o, os !! i = Some o → rely i o s s').

(** A flow that ended did so in a state from which only the others have moved on. *)
Definition thread_ok (i : nat) (f : flow_of) (o : O) (h : history) (s : St) : Prop :=
  match f with
  | Done r => ∃ s0, Q i r o h s0 ∧ rely i o s0 s
  | _ => safe (rely i) (guar i) (may_call i) f o h s (Q i)
  end.
Definition pool_ok (fs : list flow_of) (s : St) : Prop :=
  ∃ os, J os s ∧ ∀ i f, fs !! i = Some f → ∃ o h, os !! i = Some o ∧ thread_ok i f o h s.

Lemma thread_ok_safe i f o h s : safe (rely i) (guar i) (may_call i) f o h s (Q i) → thread_ok i f o h s.
Proof using rely_refl. destruct f; [|done..]. intros HQ. by exists s. Qed.
Lemma thread_ok_rely i f o h s s' : thread_ok i f o h s → rely i o s s' → thread_ok i f o h s'.
Proof using rely_trans.
  intros Hf Hr. destruct f as [r|sec next|c next].
  - destruct Hf as (s0 & HQ & Hr0). exists s0. eauto.
  - eapply (safe_stable _ _ _ (rely_trans i)); [reflexivity|exact Hr|exact Hf].
  - eapply (safe_stable _ _ _ (rely_trans i)); [reflexivity|exact Hr|exact Hf].
Qed.

Lemma pool_step_ok fs s fs' s' : pool_ok fs s → pool_step (fs, s) (fs', s') → pool_ok fs' s'.
Proof using rely_refl rely_trans own_steps other_steps.
  intros (os & HJ & Hfs) Hstep. inversion Hstep as [? i section next ? Hi Hfine|? i c next a ? Hi|? ? ? Helse Hfine]; subst.
  - destruct (Hfs i _ Hi) as (o & h & Ho & Hsafe). destruct (Hsafe s (rely_refl i o s)) as (o' & Hg & Hnext).
    destruct (own_steps os s i o o' _ HJ Ho Hg Hfine) as [HJ' Hrely]. exists (<[i := o']> os). split; [done|].
    intros j f Hj. destruct (decide (j = i)) as [->|Hne].
    + rewrite list_lookup_insert_eq in Hj by (by eapply lookup_lt_Some). injection Hj as <-.
      exists o', h. rewrite list_lookup_insert_eq by (by eapply lookup_lt_Some). split; [done|]. by apply thread_ok_safe.
    + rewrite list_lookup_insert_ne in Hj by done. destruct (Hfs j f Hj) as (o2 & h2 & Ho2 & Hf).
      exists o2, h2. rewrite list_lookup_insert_ne by done. split; [done|]. eapply thread_ok_rely; [done|]. by apply Hrely.
  - destruct (Hfs i _ Hi) as (o & h & Ho & Hsafe). destruct (Hsafe s' (rely_refl i o s')) as [_ Hnext].
    exists os. split; [done|]. intros j f Hj. destruct (decide (j = i)) as [->|Hne].
    + rewrite list_lookup_insert_eq in Hj by (by eapply lookup_lt_Some). injection Hj as <-.
      exists o, (h ++ [(c, a)]). split; [done|]. apply thread_ok_safe, Hnext.
    + rewrite list_lookup_insert_ne in Hj by done. by apply Hfs.
  - destruct (other_steps os s s' HJ Helse Hfine) as [HJ' Hrely]. exists os. split; [done|]. intros j f Hj.
    destruct (Hfs j f Hj) as (o & h & Ho & Hf). exists o, h. split; [done|]. eapply thread_ok_rely; [done|]. by apply Hrely.
Qed.
Lemma pool_steps_ok fs s fs' s' : pool_ok fs s → rtc pool_step (fs, s) (fs', s') → pool_ok fs' s'.
Proof using rely_refl rely_trans own_steps other_steps.
  intros Hok Hsteps. change fs' with (fs', s').1. change s' with (fs', s').2 at 2.
  assert (pool_ok (fs, s).1 (fs, s).2) as Hok' by done. clear Hok. revert Hok'.
  induction Hsteps as [|[f1 s1] [f2 s2] z Hst Hrest IH]; [done|]. intros Hok. apply IH. by eapply pool_step_ok.
Qed.

(** What is known of the calls that are out at any moment. *)
Lemma pool_calls fs s (i : nat) c next : pool_ok fs s → fs !! i = Some (Call c next) →
  ∃ os o, J os s ∧ os !! i = Some o ∧ may_call i c o s.
Proof using rely_refl.
  intros (os & HJ & Hfs) Hi. destruct (Hfs i _ Hi) as (o & h & Ho & Hsafe). exists os, o. split; [done|]. split; [done|].
  apply (Hsafe s (rely_refl i o s)).
Qed.
End pool.
