(* ===== verification/Crew.v ===== *)
(** * Crews of flows

    A crew is a list of flows beside each other, each owning a part of the books of a shared state:
    [moves] says how one section may change what its flow owns and the books, [may_ask] what must be
    owned while a call is out. Whatever holds of all that is owned, and is kept by every such move,
    holds of the crew at any time. Flows join a crew as others start them, and leave what they own in
    a state [final] allows. *)
From stdpp Require Import base list option relations.
From S2P Require Import Prelude Flow.

(** A flow of a part of the program, run on a state that has the part's state in it. *)
Section embed.
Context {St1 C1 D1 St C D E : Type} (part : St1 → St) (with_part : St → St1 → St1) (ask : C → C1) (read : D1 → D).
Definition read_answer (a : result E D1) : result E D := match a with Ok a => Ok (read a) | Err e => Err e end.
Fixpoint embed {R} (f : flow St C D E R) : flow St1 C1 D1 E R :=
  match f with
  | Done r => Done r
  | Gate section next => Gate (λ s, with_part (section (part s)) s) (λ s, embed (next (part s)))
  | Call c next => Call (ask c) (λ a, embed (next (read_answer a)))
  end.
End embed.

(** Every call of a flow passes a test. *)
Section asks.
Context {St C D E : Type} (P : C → Prop).
Fixpoint asks {R} (f : flow St C D E R) : Prop :=
  match f with
  | Done _ => True
  | Gate _ next => ∀ s, asks (next s)
  | Call c next => P c ∧ ∀ a, asks (next a)
  end.
Lemma asks_after {R R'} (f : flow St C D E R) (k : result E R → flow St C D E R') : asks f → (∀ r, asks (k r)) → asks (after f k).
Proof.
  intros Hf Hk. induction f as [r|sec next IH|c next IH]; cbn in *; [done|auto|]. destruct Hf as [Hc Hf]. auto.
Qed.
Lemma asks_bind {R R'} (f : flow St C D E R) (k : R → flow St C D E R') : asks f → (∀ a, asks (k a)) → asks (f ≫= k).
Proof. intros Hf Hk. apply asks_after; [done|]. by intros [a|e]; [apply Hk|]. Qed.
Lemma asks_try {R} (f : flow St C D E R) (k : E → flow St C D E R) : asks f → (∀ e, asks (k e)) → asks (try_catch f k).
Proof. intros Hf Hk. apply asks_after; [done|]. by intros [a|e]; [|apply Hk]. Qed.
Lemma asks_finally {R} (f : flow St C D E R) k : asks f → asks k → asks (finally f k).
Proof. intros Hf Hk. apply asks_after; [done|]. intros r. by apply asks_after; [|intros []]. Qed.
Lemma asks_gate {R} (m : action St E R) : asks (gate m).
Proof. by intros s. Qed.
Lemma asks_call c : P c → asks (call c).
Proof. by split. Qed.
(** A section's answer is known to what runs after it. *)
Lemma asks_section {R R'} (m : action St E R) (k : R → flow St C D E R') :
  (∀ s a, (m s).2 = Ok a → asks (k a)) → asks (gate m ≫= k).
Proof. intros Hk s. destruct (m s).2 as [a|e] eqn:Em; [by apply (Hk s)|done]. Qed.
End asks.
Lemma asks_weaken {St C D E R} (P Q : C → Prop) (f : flow St C D E R) : (∀ c, P c → Q c) → asks P f → asks Q f.
Proof. intros HPQ. induction f as [r|sec next IH|c next IH]; cbn; [done|auto|]. intros [Hc Hf]. auto. Qed.
Ltac ask_step :=
  match goal with
  | |- asks _ (gate _) => apply asks_gate
  | |- asks _ (call _) => apply asks_call
  | |- asks _ (finally _ _) => apply asks_finally
  | |- asks _ (try_catch _ _) => apply asks_try
  | |- asks _ (_ ≫= _) => apply asks_bind
  | |- asks _ (match ?x with _ => _ end) => destruct x
  | |- asks _ (after _ _) => apply asks_after
  end.
Ltac ask := repeat (intros; cbv beta zeta; first [done|ask_step]).

(** A section that leaves the books alone is a move of every flow. *)
Class QuietMoves {St O} (moves : O → St → O → St → Prop) (quiet : St → St → Prop) : Prop :=
  quiet_moves o s s' : quiet s s' → moves o s o s'.

Section crew.
Context {St C D E O : Type} (moves : O → St → O → St → Prop) (may_ask : C → O → Prop).
Local Abbreviation flow_of R := (flow St C D E R).
Implicit Types (o : O) (s : St).

(** Nothing is relied on: what a flow needs to know of the state is part of what it owns. *)
Definition anything (_ : O) (_ _ : St) : Prop := True.
Definition does {R} o (f : flow_of R) (Q : result E R → O → Prop) : Prop :=
  ∀ h s, safe anything moves (λ c o _, may_ask c o) f o h s (λ r o _ _, Q r o).
(** It ends owning what it owned. *)
Definition keeps {R} o (f : flow_of R) : Prop := does o f (λ _ o', o' = o).

Lemma does_mono {R} o (f : flow_of R) Q Q' : does o f Q → (∀ r o, Q r o → Q' r o) → does o f Q'.
Proof. intros Hf HQ h s. eapply safe_mono; [apply Hf|]. auto. Qed.
Lemma does_after {R R'} o (f : flow_of R) (k : result E R → flow_of R') Q :
  does o f (λ r o', does o' (k r) Q) → does o (after f k) Q.
Proof. intros Hf h s. apply safe_after. eapply safe_mono; [apply Hf|]. intros r o' h' s' Hk. apply Hk. Qed.
Lemma does_bind {R R'} o (f : flow_of R) (k : R → flow_of R') Q :
  does o f (λ r o', match r with Ok a => does o' (k a) Q | Err e => Q (Err e) o' end) → does o (f ≫= k) Q.
Proof. intros Hf. apply does_after. eapply does_mono; [exact Hf|]. by intros [a|e] o' Ho' h s. Qed.
Lemma does_try {R} o (f : flow_of R) (k : E → flow_of R) Q :
  does o f (λ r o', match r with Ok a => Q (Ok a) o' | Err e => does o' (k e) Q end) → does o (try_catch f k) Q.
Proof. intros Hf. apply does_after. eapply does_mono; [exact Hf|]. by intros [a|e] o' Ho' h s. Qed.
Lemma does_gate {R} o (m : action St E R) Q :
  (∀ s, ∃ o', moves o s o' (m s).1 ∧ Q (m s).2 o') → does o (gate m) Q.
Proof. intros Hm h s s' _. apply Hm. Qed.
Lemma does_section {R} o o' (m : action St E R) a Q :
  (∀ s, moves o s o' (m s).1) → (∀ s, (m s).2 = Ok a) → Q (Ok a) o' → does o (gate m) Q.
Proof. intros Hm Ha HQ. apply does_gate. intros s. exists o'. by rewrite Ha. Qed.
Lemma does_call o c Q : may_ask c o → (∀ a, Q a o) → does o (call c) Q.
Proof. intros Hc HQ h s s' _. by split. Qed.
Lemma does_done {R} o r (Q : result E R → O → Prop) : Q r o → does o (Done r) Q.
Proof. by intros HQ h s. Qed.
Lemma does_keeps {R} o (f : flow_of R) (Q : result E R → O → Prop) : keeps o f → (∀ r, Q r o) → does o f Q.
Proof. intros Hf HQ. eapply does_mono; [exact Hf|]. by intros r o' ->. Qed.

Lemma keeps_after {R R'} o (f : flow_of R) (k : result E R → flow_of R') :
  keeps o f → (∀ r, keeps o (k r)) → keeps o (after f k).
Proof. intros Hf Hk. apply does_after. by apply does_keeps. Qed.
Lemma keeps_done {R} o (r : result E R) : keeps o (Done r).
Proof. by apply does_done. Qed.
Lemma keeps_ret {R} o (a : R) : keeps o (mret a).
Proof. apply keeps_done. Qed.
Lemma keeps_fail {R} o e : keeps (R := R) o (fail e).
Proof. apply keeps_done. Qed.
Lemma keeps_bind {R R'} o (f : flow_of R) (k : R → flow_of R') : keeps o f → (∀ a, keeps o (k a)) → keeps o (f ≫= k).
Proof. intros Hf Hk. apply keeps_after; [done|]. intros [a|e]; [apply Hk|apply keeps_done]. Qed.
Lemma keeps_try {R} o (f : flow_of R) (k : E → flow_of R) : keeps o f → (∀ e, keeps o (k e)) → keeps o (try_catch f k).
Proof. intros Hf Hk. apply keeps_after; [done|]. intros [a|e]; [apply keeps_done|apply Hk]. Qed.
Lemma keeps_finally {R} o (f : flow_of R) k : keeps o f → keeps o k → keeps o (finally f k).
Proof. intros Hf Hk. apply keeps_after; [done|]. intros r. apply keeps_after; [done|]. intros [a|e]; apply keeps_done. Qed.
Lemma keeps_call o c : may_ask c o → keeps o (call c).
Proof. intros Hc. by apply does_call. Qed.

(** ** Actions that leave the books alone *)

Context (quiet : St → St → Prop) `{!PreOrder quiet} `{!QuietMoves moves quiet}.
Definition calm {A} (m : action St E A) : Prop := ∀ s, quiet s (m s).1.
Lemma calm_bind {A B} (m : action St E A) (k : A → action St E B) : calm m → (∀ a, calm (k a)) → calm (m ≫= k).
Proof using PreOrder0.
  intros Hm Hk s. specialize (Hm s). unfold mbind, action_bind. destruct (m s) as [s' [a|e]]; [|done].
  etransitivity; [exact Hm|apply Hk].
Qed.
Lemma calm_ret {A} (a : A) : calm (mret a).
Proof using PreOrder0. intros s. change (quiet s s). reflexivity. Qed.
Lemma calm_get : calm get.
Proof using PreOrder0. intros s. change (quiet s s). reflexivity. Qed.
Lemma calm_throw {A} e : calm (A := A) (throw e).
Proof using PreOrder0. intros s. change (quiet s s). reflexivity. Qed.
Lemma calm_modify f : (∀ s, quiet s (f s)) → calm (modify f).
Proof. done. Qed.
Lemma keeps_gate {A} o (m : action St E A) : calm m → keeps o (gate m).
Proof using QuietMoves0. intros Hm. apply does_gate. intros s. exists o. split; [|done]. by apply quiet_moves. Qed.
Lemma keeps_embed_asks {St2 C2 D2 R} o (part : St → St2) with_part (ask : C2 → C) (read : D → D2) (P : C2 → Prop)
    (f : flow St2 C2 D2 E R) :
  (∀ p s, quiet s (with_part p s)) → (∀ c, P c → may_ask (ask c) o) → asks P f → keeps o (embed part with_part ask read f).
Proof using QuietMoves0.
  intros Hq Hc. induction f as [r|sec next IH|c next IH]; cbn [embed asks]; intros Hf.
  - apply keeps_done.
  - intros h s s' _. exists o. split; [by apply quiet_moves|]. by apply IH.
  - destruct Hf as [HP Hf]. intros h s s' _. split; [by apply Hc|]. intros a. by apply IH.
Qed.
Lemma keeps_embed {St2 C2 D2 R} o (part : St → St2) with_part (ask : C2 → C) (read : D → D2) (f : flow St2 C2 D2 E R) :
  (∀ p s, quiet s (with_part p s)) → (∀ c, may_ask (ask c) o) → keeps o (embed part with_part ask read f).
Proof using QuietMoves0.
  intros Hq Hc. apply (keeps_embed_asks _ _ _ _ _ (λ _, True)); [done..|].
  induction f as [r|sec next IH|c next IH]; cbn; auto.
Qed.

(** ** The crew *)

Context {R : Type} (final : result E R → O → Prop) (J : list O → St → Prop).
Definition thread (f : flow_of R) o : Prop :=
  ∃ h, ∀ s, safe anything moves (λ c o _, may_ask c o) f o h s (λ r o _ _, final r o).
Definition crew_ok (fs : list (flow_of R)) s : Prop := ∃ os, Forall2 thread fs os ∧ J os s.
Context (J_perm : ∀ os os' s, os ≡ₚ os' → J os s → J os' s)
  (J_moves : ∀ o os s o' s', J (o :: os) s → moves o s o' s' → J (o' :: os) s').

Lemma thread_does o f : does o f final → thread f o.
Proof. intros Hf. exists []. intros s. apply Hf. Qed.
Lemma thread_safe f o h s : safe anything moves (λ c o _, may_ask c o) f o h s (λ r o _ _, final r o) → thread f o.
Proof. intros Hs. exists h. intros s'. by destruct f. Qed.
Lemma insert_perm {A} (l : list A) (i : nat) x : l !! i = Some x → ∃ rest, l ≡ₚ x :: rest ∧ ∀ y, <[i := y]> l ≡ₚ y :: rest.
Proof.
  intros Hi. exists (take i l ++ drop (S i) l). split.
  - rewrite <- (take_drop_middle l i x Hi) at 1. by rewrite Permutation_middle.
  - intros y. rewrite insert_take_drop by (by eapply lookup_lt_Some). by rewrite Permutation_middle.
Qed.
Lemma crew_joins fs os f o s : Forall2 thread fs os → thread f o → J (o :: os) s → crew_ok (fs ++ [f]) s.
Proof using J_perm.
  intros Hfs Hf HJ. exists (os ++ [o]). split; [by apply Forall2_app; [|constructor]|].
  eapply J_perm; [|exact HJ]. by rewrite Permutation_cons_append.
Qed.
Lemma crew_section fs (i : nat) section next s : crew_ok fs s → fs !! i = Some (Gate section next) →
  crew_ok (<[i := next s]> fs) (section s).
Proof using J_perm J_moves.
  intros (os & Hfs & HJ) Hi. destruct (Forall2_lookup_l _ _ _ _ _ Hfs Hi) as (o & Ho & h & Hs).
  destruct (Hs s s I) as (o' & Hm & Hnext). exists (<[i := o']> os).
  split; [by apply Forall2_insert; [|eapply thread_safe]|].
  destruct (insert_perm os i o Ho) as (rest & Hp & Hp'). eapply J_perm; [symmetry; apply Hp'|].
  eapply J_moves; [|exact Hm]. by eapply J_perm.
Qed.
Lemma crew_answer fs (i : nat) c next a s : crew_ok fs s → fs !! i = Some (Call c next) → crew_ok (<[i := next a]> fs) s.
Proof.
  intros (os & Hfs & HJ) Hi. destruct (Forall2_lookup_l _ _ _ _ _ Hfs Hi) as (o & Ho & h & Hs).
  destruct (Hs s s I) as [_ Hnext]. exists os. split; [|done].
  rewrite <- (list_insert_id os i o Ho). apply Forall2_insert; [done|]. eapply thread_safe, Hnext.
Qed.
Lemma crew_elsewhere fs s s' : crew_ok fs s → (∀ os, J os s → J os s') → crew_ok fs s'.
Proof. intros (os & Hfs & HJ) He. exists os. auto. Qed.

(** What is known of a call that is out, and of a flow that ended. *)
Lemma crew_call fs os s (i : nat) c next : Forall2 thread fs os → J os s → fs !! i = Some (Call c next) →
  ∃ o, os !! i = Some o ∧ may_ask c o.
Proof.
  intros Hfs _ Hi. destruct (Forall2_lookup_l _ _ _ _ _ Hfs Hi) as (o & Ho & h & Hs). exists o. split; [done|]. by apply (Hs s s).
Qed.
Lemma crew_done fs os s (i : nat) o r : Forall2 thread fs os → J os s → os !! i = Some o → fs !! i = Some (Done r) → final r o.
Proof.
  intros Hfs _ Ho Hi. destruct (Forall2_lookup_l _ _ _ _ _ Hfs Hi) as (o' & Ho' & h & Hs). simplify_eq. by apply (Hs s).
Qed.
(** As many calls of a kind are out as there is owned what they need, at most. *)
Definition asking (P : C → bool) (f : flow_of R) : bool := match f with Call c _ => P c | _ => false end.
Lemma crew_counts {A} (P : C → bool) (g : O → list A) fs os s : Forall2 thread fs os →
  (∀ c o, P c = true → may_ask c o → 1 ≤ length (g o)) → length (Arr.filter (asking P) fs) ≤ length (os ≫= g).
Proof.
  intros Hfs Hg. induction Hfs as [|f o fs os (h & Hsafe) _ IH]; [done|]. rewrite bind_cons, length_app. unfold Arr.filter in *. cbn.
  destruct f as [r|sec next|c next]; cbn; [lia..|]. destruct (P c) eqn:Ec; cbn; [|lia].
  specialize (Hg c o Ec (proj1 (Hsafe s s I))). lia.
Qed.
End crew.

(** ** Crews whose flows learn from what they are answered *)

(** An answer can tell a flow of the state: what it owns after the answer is [learns]'s, and the crew
    keeps its books when the call was answered as [answers] allows. *)
Section learning.
Context {St C D E O : Type} (moves : O → St → O → St → Prop) (may_ask : C → O → Prop)
  (learns : C → result E D → O → O → Prop).
Local Abbreviation flow_of R := (flow St C D E R).
Implicit Types (o : O) (s : St).

Fixpoint told {R} o (f : flow_of R) (Q : result E R → O → Prop) : Prop :=
  match f with
  | Done r => Q r o
  | Gate section next => ∀ s, ∃ o', moves o s o' (section s) ∧ told o' (next s) Q
  | Call c next => may_ask c o ∧ ∀ a, ∃ o', learns c a o o' ∧ told o' (next a) Q
  end.
Lemma told_mono {R} o (f : flow_of R) Q Q' : told o f Q → (∀ r o, Q r o → Q' r o) → told o f Q'.
Proof.
  intros Hf HQ. revert o Hf. induction f as [r|sec next IH|c next IH]; intros o; cbn; [auto|..].
  - intros Hf s. destruct (Hf s) as (o' & Hm & Hn). eauto.
  - intros [Hc Hf]. split; [done|]. intros a. destruct (Hf a) as (o' & Hl & Hn). eauto.
Qed.
Lemma told_after {R R'} o (f : flow_of R) (k : result E R → flow_of R') Q :
  told o f (λ r o', told o' (k r) Q) → told o (after f k) Q.
Proof.
  revert o. induction f as [r|sec next IH|c next IH]; intros o; cbn; [auto|..].
  - intros Hf s. destruct (Hf s) as (o' & Hm & Hn). eauto.
  - intros [Hc Hf]. split; [done|]. intros a. destruct (Hf a) as (o' & Hl & Hn). eauto.
Qed.
Lemma told_bind {R R'} o (f : flow_of R) (k : R → flow_of R') Q :
  told o f (λ r o', match r with Ok a => told o' (k a) Q | Err e => Q (Err e) o' end) → told o (f ≫= k) Q.
Proof. intros Hf. apply told_after. eapply told_mono; [exact Hf|]. by intros [a|e] o'. Qed.
Lemma told_gate {R} o (m : action St E R) Q : (∀ s, ∃ o', moves o s o' (m s).1 ∧ Q (m s).2 o') → told o (gate m) Q.
Proof. done. Qed.
Lemma told_call o c Q : may_ask c o → (∀ a, ∃ o', learns c a o o' ∧ Q a o') → told o (call c) Q.
Proof. done. Qed.
(** A flow that needs to learn nothing. *)
Context (learns_refl : ∀ c a o, learns c a o o).
Lemma told_safe {R} (f : flow_of R) o h s Q : safe anything moves (λ c o _, may_ask c o) f o h s (λ r o _ _, Q r o) → told o f Q.
Proof using learns_refl.
  revert o h s. induction f as [r|sec next IH|c next IH]; intros o h s; cbn; [done|..].
  - intros Hf s'. destruct (Hf s' I) as (o' & Hm & Hn). eauto.
  - intros Hf. destruct (Hf s I) as [Hc Hn]. split; [done|]. eauto.
Qed.
Lemma told_does `{!Inhabited St} {R} o (f : flow_of R) Q : does moves may_ask o f Q → told o f Q.
Proof using learns_refl. intros Hf. apply (told_safe f o [] inhabitant), Hf. Qed.
Lemma told_keeps `{!Inhabited St} {R} o (f : flow_of R) Q : keeps moves may_ask o f → (∀ r, Q r o) → told o f Q.
Proof using learns_refl. intros Hf HQ. by apply told_does, does_keeps. Qed.

Context {R : Type} (final : result E R → O → Prop) (J : list O → St → Prop) (answers : C → result E D → St → Prop).
Definition taught_ok (fs : list (flow_of R)) s : Prop := ∃ os, Forall2 (λ f o, told o f final) fs os ∧ J os s.
Context (J_perm : ∀ os os' s, os ≡ₚ os' → J os s → J os' s)
  (J_moves : ∀ o os s o' s', J (o :: os) s → moves o s o' s' → J (o' :: os) s')
  (J_learns : ∀ c a o os s o', J (o :: os) s → answers c a s → learns c a o o' → J (o' :: os) s).
Lemma taught_joins fs os f o s : Forall2 (λ f o, told o f final) fs os → told o f final → J (o :: os) s → taught_ok (fs ++ [f]) s.
Proof using J_perm.
  intros Hfs Hf HJ. exists (os ++ [o]). split; [by apply Forall2_app; [|constructor]|].
  eapply J_perm; [|exact HJ]. by rewrite Permutation_cons_append.
Qed.
Lemma taught_section fs (i : nat) section next s : taught_ok fs s → fs !! i = Some (Gate section next) →
  taught_ok (<[i := next s]> fs) (section s).
Proof using J_perm J_moves.
  intros (os & Hfs & HJ) Hi. destruct (Forall2_lookup_l _ _ _ _ _ Hfs Hi) as (o & Ho & Hs).
  destruct (Hs s) as (o' & Hm & Hnext). exists (<[i := o']> os). split; [by apply Forall2_insert|].
  destruct (insert_perm os i o Ho) as (rest & Hp & Hp'). eapply J_perm; [symmetry; apply Hp'|].
  eapply J_moves; [|exact Hm]. by eapply J_perm.
Qed.
Lemma taught_answer fs (i : nat) c next a s : taught_ok fs s → fs !! i = Some (Call c next) → answers c a s →
  taught_ok (<[i := next a]> fs) s.
Proof using J_perm J_learns.
  intros (os & Hfs & HJ) Hi Ha. destruct (Forall2_lookup_l _ _ _ _ _ Hfs Hi) as (o & Ho & Hs).
  destruct (proj2 Hs a) as (o' & Hl & Hnext). exists (<[i := o']> os). split; [by apply Forall2_insert|].
  destruct (insert_perm os i o Ho) as (rest & Hp & Hp'). eapply J_perm; [symmetry; apply Hp'|].
  eapply J_learns; [|exact Ha|exact Hl]. by eapply J_perm.
Qed.
Lemma taught_elsewhere fs s s' : taught_ok fs s → (∀ os, J os s → J os s') → taught_ok fs s'.
Proof. intros (os & Hfs & HJ) He. exists os. auto. Qed.
Lemma taught_call fs os (i : nat) c next : Forall2 (λ f o, told o f final) fs os → fs !! i = Some (Call c next) →
  ∃ o, os !! i = Some o ∧ may_ask c o.
Proof. intros Hfs Hi. destruct (Forall2_lookup_l _ _ _ _ _ Hfs Hi) as (o & Ho & Hs). exists o. split; [done|]. apply Hs. Qed.
End learning.

(** ** Logs with a reason for every entry *)

Section justified.
Context {X : Type} (P : list X → X → Prop).
(** Every entry has its reason in what was logged before it. *)
Definition each_justified (l : list X) : Prop := ∀ l1 e l2, l = l1 ++ e :: l2 → P l1 e.
Lemma each_justified_nil : each_justified [].
Proof. intros l1 e l2 Hl. by destruct l1. Qed.
Lemma each_justified_snoc l e : each_justified l → P l e → each_justified (l ++ [e]).
Proof.
  intros Hl He l1 e' l2 Heq. destruct l2 as [|x l2 _] using rev_ind.
  - by apply app_inj_tail in Heq as [<- <-].
  - rewrite app_comm_cons, (assoc_L (++)) in Heq. apply app_inj_tail in Heq as [-> _]. by apply (Hl _ _ l2).
Qed.
End justified.

(** ** Runs by a schedule *)

(** A schedule of turns, each of which is a step when it can be taken. *)
Section schedule.
Context {X T : Type} (turn : T → X → option X) (step : X → X → Prop) (turn_step : ∀ t x y, turn t x = Some y → step x y).
Fixpoint play (ts : list T) (x : X) : option X :=
  match ts with [] => Some x | t :: ts => match turn t x with Some y => play ts y | None => None end end.
Lemma play_steps ts x y : play ts x = Some y → rtc step x y.
Proof using turn_step.
  revert x. induction ts as [|t ts IH]; intros x; cbn; [by intros [= <-]|]. destruct (turn t x) as [z|] eqn:Ez; [|done].
  intros Hp. eapply rtc_l; [by eapply turn_step|by apply IH].
Qed.
End schedule.
Section calls_at.
Context {St C D E R : Type}.
Local Abbreviation flow_of := (flow St C D E R).
(** The call a flow of the crew is at. *)
Definition call_at (x : option (list flow_of * St)) (i : nat) : option C :=
  match x with
  | Some (fs, _) => match fs !! i with Some (Call c _) => Some c | _ => None end
  | None => None
  end.
Lemma call_at_Some x (i : nat) c : call_at x i = Some c → ∃ fs s next, x = Some (fs, s) ∧ fs !! i = Some (Call c next).
Proof.
  destruct x as [[fs s]|]; [|done]. cbn. destruct (fs !! i) as [[r|sec next|c' next]|] eqn:Ei; try done. intros [= ->]. eauto 6.
Qed.
End calls_at.

(** ** Automation *)

(** Hints for the actions that leave a component's books alone and the flows that keep what they own. *)
Create HintDb calm.
#[export] Hint Resolve keeps_done keeps_ret keeps_fail : calm.
(** Splits a flow that keeps what it owns into its parts, and a calm action into its. *)
Ltac calm_step :=
  match goal with
  | |- calm ?q (mret _) => apply (calm_ret q)
  | |- calm ?q get => apply (calm_get q)
  | |- calm ?q (throw _) => apply (calm_throw q)
  | |- calm ?q (_ ≫= _) => apply (calm_bind q)
  | |- calm ?q (modify _) => apply (calm_modify q); done
  | |- calm _ (match ?x with _ => _ end) => destruct x
  | |- keeps ?m ?a _ (gate _) => apply (keeps_gate m a _)
  | |- keeps _ _ _ (call _) => apply keeps_call
  | |- keeps _ _ _ (finally _ _) => apply keeps_finally
  | |- keeps _ _ _ (try_catch _ _) => apply keeps_try
  | |- keeps _ _ _ (_ ≫= _) => apply keeps_bind
  | |- keeps _ _ _ (match ?x with _ => _ end) => destruct x
  | |- keeps _ _ _ (after _ _) => apply keeps_after
  end.
Ltac keep := repeat (intros; cbv beta zeta; first [solve [auto 3 with calm]|calm_step]).
