(* ===== verification/JsString.v ===== *)
(** * Strings and numbers of the language, as far as the source uses them

    Strings are byte strings: the names, versions and ids the program compares are ASCII, and
    [toLowerCase] and the white space [Number] trims are the ASCII ones. A number is [NaN], an
    infinity or a decimal; what is read from text and what a sum or a difference comes to is
    rounded to a double ([double]), so that two versions with segments above 2^53 compare as they
    do in the program. *)
From Stdlib Require Import Ascii.
From stdpp Require Import base strings list option numbers.
From S2P Require Import Prelude.

(** ** Text *)

Definition in_range (lo hi c : ascii) : bool :=
  (N_of_ascii lo <=? N_of_ascii c)%N && (N_of_ascii c <=? N_of_ascii hi)%N.
Definition is_digit (c : ascii) : bool := in_range "0" "9" c.

Fixpoint str_map (f : ascii → ascii) (s : string) : string :=
  match s with "" => "" | String c s => String (f c) (str_map f s) end.
Definition lower (c : ascii) : ascii :=
  if in_range "A" "Z" c then ascii_of_N (N_of_ascii c + 32) else c.
Definition toLowerCase (s : string) : string := str_map lower s.

Definition startsWith (p s : string) : bool := String.prefix p s.
Fixpoint str_drop (n : nat) (s : string) : string :=
  match n, s with
  | S n, String _ s => str_drop n s
  | _, _ => s
  end.
(** Whether [sub] occurs in [s]. *)
Fixpoint str_includes (sub s : string) : bool :=
  startsWith sub s || match s with "" => false | String _ s => str_includes sub s end.
Fixpoint str_all (f : ascii → bool) (s : string) : bool :=
  match s with "" => true | String c s => f c && str_all f s end.

Definition push_head (c : ascii) (l : list string) : list string :=
  match l with [] => [String c ""] | h :: t => String c h :: t end.
(** [s.split(sep)] for a non-empty separator: matches are taken left to right and do not
    overlap; [skip] counts the characters of the last match still to pass. *)
Fixpoint split_go (sep : string) (skip : nat) (s : string) : list string :=
  match s with
  | "" => [""]
  | String c rest =>
      match skip with
      | S k => split_go sep k rest
      | 0 => if startsWith sep s then "" :: split_go sep (pred (String.length sep)) rest
             else push_head c (split_go sep 0 rest)
      end
  end.
Definition split (sep s : string) : list string := split_go sep 0 s.

Fixpoint join (sep : string) (l : list string) : string :=
  match l with
  | [] => ""
  | [s] => s
  | s :: l => s +:+ sep +:+ join sep l
  end.

(** ** Numbers *)

Inductive num :=
| NaN
| Inf (negative : bool)
| Dec (m : Z) (e : nat). (* m * 10^-e *)

Definition int (n : Z) : num := Dec n 0.
Definition pow10 (n : nat) : Z := (10 ^ Z.of_nat n)%Z.
(** The double nearest to a decimal, ties to even: 53 significant bits, none below 2^-1074, and an
    infinity from 2^1024 on. A decimal that is a double is left as it is written. *)
Definition round_half_even (n d : Z) : Z :=
  let q := (n / d)%Z in
  match (2 * (n mod d) ?= d)%Z with
  | Lt => q
  | Gt => (q + 1)%Z
  | Eq => if Z.even q then q else (q + 1)%Z
  end.
(** The position of the highest bit of [n / d]. *)
Definition top_bit (n d : Z) : Z :=
  let k := (Z.log2 n - Z.log2 d)%Z in
  if (n * 2 ^ Z.max 0 (- k) <? d * 2 ^ Z.max 0 k)%Z then (k - 1)%Z else k.
Definition double (x : num) : num :=
  match x with
  | Dec m e =>
      let u := Z.max (top_bit (Z.abs m) (pow10 e) - 52) (-1074) in
      let n := (Z.abs m * 2 ^ Z.max 0 (- u))%Z in
      let d := (pow10 e * 2 ^ Z.max 0 u)%Z in
      let q := round_half_even n d in
      if (2 ^ 1024 <=? q * 2 ^ Z.max 0 u)%Z then Inf (m <? 0)%Z
      else if (q * d =? n)%Z then x
      else if (0 <=? u)%Z then int (Z.sgn m * q * 2 ^ u)
      else Dec (Z.sgn m * q * 5 ^ (- u)) (Z.to_nat (- u))
  | _ => x
  end.

Definition num_sub (a b : num) : num :=
  match a, b with
  | NaN, _ | _, NaN => NaN
  | Inf s, Inf t => if Bool.eqb s t then NaN else Inf s
  | Inf s, Dec _ _ => Inf s
  | Dec _ _, Inf t => Inf (negb t)
  | Dec m e, Dec m' e' => double (Dec (m * pow10 e' - m' * pow10 e) (e + e'))
  end.
Definition num_add (a b : num) : num :=
  match a, b with
  | NaN, _ | _, NaN => NaN
  | Inf s, Inf t => if Bool.eqb s t then Inf s else NaN
  | Inf s, Dec _ _ => Inf s
  | Dec _ _, Inf t => Inf t
  | Dec m e, Dec m' e' => double (Dec (m * pow10 e' + m' * pow10 e) (e + e'))
  end.
(** [n !== 0], [n >= 0] and [n < 0]; a comparison with [NaN] is false. *)
Definition num_nonzero (n : num) : bool :=
  match n with Dec m _ => negb (m =? 0)%Z | _ => true end.
Definition num_ge0 (n : num) : bool :=
  match n with NaN => false | Inf s => negb s | Dec m _ => (0 <=? m)%Z end.
Definition num_lt0 (n : num) : bool :=
  match n with NaN => false | Inf s => s | Dec m _ => (m <? 0)%Z end.

(** ** [Number(text)] *)

Definition digit_value (c : ascii) : option Z :=
  let code := Z.of_N (N_of_ascii c) in
  if in_range "0" "9" c then Some (code - 48)%Z
  else if in_range "a" "z" c then Some (code - 87)%Z
  else if in_range "A" "Z" c then Some (code - 55)%Z
  else None.
Definition digit_in (base : Z) (c : ascii) : option Z :=
  d ← digit_value c; if (d <? base)%Z then Some d else None.
(** Reads the digits of [s] on top of [acc]: how many, their value, and what follows. *)
Fixpoint read_digits (base : Z) (acc : Z) (s : string) : nat * Z * string :=
  match s with
  | "" => (0, acc, "")
  | String c rest =>
      match digit_in base c with
      | Some d => let '(n, v, tail) := read_digits base (acc * base + d)%Z rest in (S n, v, tail)
      | None => (0, acc, s)
      end
  end.

Definition is_space (c : ascii) : bool := in_range "009" "013" c || (c === " "%char).
Fixpoint trim_start (s : string) : string :=
  match s with
  | String c rest => if is_space c then trim_start rest else s
  | "" => ""
  end.
Definition trim (s : string) : string := String.rev (trim_start (String.rev (trim_start s))).

(** [0x], [0o] and [0b] literals. *)
Definition radix_literal (base : Z) (digits : string) : num :=
  match read_digits base 0 digits with
  | (S _, v, "") => int v
  | _ => NaN
  end.
(** The exponent part of a decimal literal: [None] when the text is not one. *)
Definition exponent (s : string) : option Z :=
  match s with
  | "" => Some 0%Z
  | String c rest =>
      if (c === "e"%char) || (c === "E"%char) then
        let '(negative, digits) :=
          match rest with
          | String "-" d => (true, d)
          | String "+" d => (false, d)
          | d => (false, d)
          end in
        match read_digits 10 0 digits with
        | (S _, v, "") => Some (if negative then - v else v)%Z
        | _ => None
        end
      else None
  end.
Definition scale (m : Z) (fraction : nat) (exp : Z) : num :=
  let e := (exp - Z.of_nat fraction)%Z in
  if (0 <=? e)%Z then int (m * 10 ^ e) else Dec m (Z.to_nat (- e)).
Definition unsigned_decimal (s : string) : num :=
  if s === "Infinity" then Inf false else
  let '(n, whole, tail) := read_digits 10 0 s in
  let '(k, m, tail) :=
    match tail with
    | String "." rest => read_digits 10 whole rest
    | _ => (0, whole, tail)
    end in
  match n + k, exponent tail with
  | S _, Some exp => scale m k exp
  | _, _ => NaN
  end.
Definition num_opp (n : num) : num :=
  match n with NaN => NaN | Inf s => Inf (negb s) | Dec m e => Dec (- m) e end.

Definition literal (text : string) : num :=
  let s := trim text in
  match s with
  | "" => int 0
  | String "0" (String "x" d) | String "0" (String "X" d) => radix_literal 16 d
  | String "0" (String "o" d) | String "0" (String "O" d) => radix_literal 8 d
  | String "0" (String "b" d) | String "0" (String "B" d) => radix_literal 2 d
  | String "-" d => num_opp (unsigned_decimal d)
  | String "+" d => unsigned_decimal d
  | _ => unsigned_decimal s
  end.
Definition Number (text : string) : num := double (literal text).

(** The value of a string of decimal digits. *)
Definition decimal_value (s : string) : Z := (read_digits 10 0 s).1.2.

Example number_words :
  (Number "18", Number "Baklava", Number "", Number "0x1F", Number " 7 ", Number "34-ext12",
   Number "1e3", Number "25e-1", Number "-Infinity")
  = (int 18, NaN, int 0, int 31, int 7, NaN, int 1000, Dec 25 1, Inf true).
Proof. vm_compute. reflexivity. Qed.
(** The doubles around 2^53 are two apart; 0.1 is the double nearest to it, and a sum is rounded. *)
Example number_rounds :
  (Number "9007199254740993", num_add (int 9007199254740992) (int 1),
   num_nonzero (num_sub (num_add (Number "0.1") (Number "0.2")) (Number "0.3")),
   num_nonzero (num_sub (Number "0.1") (Number "1e-1")), Number "1e309", Number "-1e400")
  = (int 9007199254740992, int 9007199254740992, true, false, Inf false, Inf true).
Proof. vm_compute. reflexivity. Qed.

(** ** Lemmas *)

Lemma str_app_cons c s t : String c s +:+ t = String c (s +:+ t).
Proof. done. Qed.
Lemma str_app_nil t : "" +:+ t = t.
Proof. done. Qed.
Lemma str_app_assoc s t u : (s +:+ t) +:+ u = s +:+ t +:+ u.
Proof. induction s as [|c s IH]; [done|]. by rewrite !str_app_cons, IH. Qed.
Lemma str_app_nil_r s : s +:+ "" = s.
Proof. induction s as [|c s IH]; [done|]. by rewrite str_app_cons, IH. Qed.

Lemma prefix_app p s : startsWith p (p +:+ s) = true.
Proof.
  unfold startsWith. induction p as [|c p IH]; [by destruct s|].
  rewrite str_app_cons. cbn. by destruct (ascii_dec c c).
Qed.
Lemma prefix_head_ne c d p s : c ≠ d → startsWith (String c p) (String d s) = false.
Proof. intros. unfold startsWith. cbn. by destruct (ascii_dec c d). Qed.
Lemma str_length_app s t : String.length (s +:+ t) = String.length s + String.length t.
Proof. induction s as [|c s IH]; [done|]. rewrite str_app_cons. cbn. by rewrite IH. Qed.
Lemma str_app_inj_suffix (a b s t : string) :
  String.length s = String.length t → a +:+ s = b +:+ t → a = b ∧ s = t.
Proof.
  intros Hlen. revert b. induction a as [|c a IH]; intros [|e b] H; [done|..].
  1-2: apply (f_equal String.length) in H; rewrite !str_length_app in H; cbn in H; lia.
  rewrite !str_app_cons in H. injection H as -> H. by destruct (IH b H) as [-> ->].
Qed.
Lemma str_drop_app p s : str_drop (String.length p) (p +:+ s) = s.
Proof. induction p as [|c p IH]; [by destruct s|]. by rewrite str_app_cons. Qed.

Lemma str_all_app f s t : str_all f (s +:+ t) = str_all f s && str_all f t.
Proof. induction s as [|c s IH]; [done|]. rewrite str_app_cons. cbn. by rewrite IH, andb_assoc. Qed.
Lemma str_all_impl (f g : ascii → bool) s :
  (∀ c, f c = true → g c = true) → str_all f s = true → str_all g s = true.
Proof.
  intros Hfg. induction s as [|c s IH]; cbn; [done|]. intros [??]%andb_true_iff.
  by rewrite Hfg, IH.
Qed.

Section split.
Context (c0 : ascii) (sep' : string).
Local Abbreviation sep := (String c0 sep').
Local Abbreviation free := (str_all (λ c, negb (c === c0))).

Lemma split_go_skip (p s : string) : split_go sep (String.length p) (p +:+ s) = split_go sep 0 s.
Proof. induction p as [|c p IH]; [by destruct s|]. rewrite str_app_cons. by cbn. Qed.

Lemma split_free a : free a = true → split sep a = [a].
Proof.
  unfold split. induction a as [|c a IH]; [done|]. cbn [str_all].
  intros [Hc Ha]%andb_true_iff. cbn [split_go].
  rewrite prefix_head_ne by (intros <-; by case_bool_decide). by rewrite IH.
Qed.

Lemma split_app a b : free a = true → split sep (a +:+ sep +:+ b) = a :: split sep b.
Proof.
  unfold split. induction a as [|c a IH].
  - intros _. rewrite str_app_nil. rewrite str_app_cons. cbn [split_go].
    rewrite <- str_app_cons, prefix_app. cbn [String.length pred].
    by rewrite split_go_skip.
  - cbn [str_all]. intros [Hc Ha]%andb_true_iff. rewrite str_app_cons. cbn [split_go].
    rewrite prefix_head_ne by (intros <-; by case_bool_decide). by rewrite IH.
Qed.

Lemma split_join l : l ≠ [] → Forall (λ a, free a = true) l → split sep (join sep l) = l.
Proof.
  intros Hl Hf. induction Hf as [|a l Ha Hf IH]; [done|].
  destruct l as [|b l]; [by apply split_free|].
  change (join sep (a :: b :: l)) with (a +:+ sep +:+ join sep (b :: l)).
  by rewrite split_app, IH.
Qed.
End split.

(** ** Strings of digits *)

Definition digits (s : string) : bool := (s !== "") && str_all is_digit s.

Ltac destruct_ascii c := destruct c as [[] [] [] [] [] [] [] []].

Lemma is_digit_not_space c : is_digit c = true → is_space c = false.
Proof. by destruct_ascii c. Qed.
Lemma is_digit_value c : is_digit c = true → ∃ d, digit_in 10 c = Some d ∧ (0 ≤ d < 10)%Z.
Proof. destruct_ascii c; try done; intros _; eexists; (split; [vm_compute; reflexivity|lia]). Qed.

Lemma rev_app_spec s t : String.rev_app s t = String.rev s +:+ t.
Proof.
  revert t. unfold String.rev. induction s as [|c s IH]; intros t; [done|].
  cbn. rewrite (IH (String c t)), (IH (String c "")), str_app_assoc. done.
Qed.
Lemma rev_cons c s : String.rev (String c s) = String.rev s +:+ String c "".
Proof. unfold String.rev at 1. cbn. apply rev_app_spec. Qed.
Lemma rev_app_dist s t : String.rev (s +:+ t) = String.rev t +:+ String.rev s.
Proof.
  induction s as [|c s IH]; [by rewrite str_app_nil_r|].
  by rewrite str_app_cons, !rev_cons, IH, str_app_assoc.
Qed.
Lemma rev_involutive_str s : String.rev (String.rev s) = s.
Proof. induction s as [|c s IH]; [done|]. by rewrite rev_cons, rev_app_dist, IH. Qed.
Lemma str_all_rev f s : str_all f (String.rev s) = str_all f s.
Proof.
  induction s as [|c s IH]; [done|]. rewrite rev_cons, str_all_app, IH. cbn.
  by rewrite andb_true_r, andb_comm.
Qed.

Lemma trim_start_digits s : str_all is_digit s = true → trim_start s = s.
Proof.
  destruct s as [|c s]; [done|]. cbn. intros [Hc _]%andb_true_iff.
  by rewrite is_digit_not_space.
Qed.
Lemma trim_digits s : str_all is_digit s = true → trim s = s.
Proof.
  intros H. unfold trim. rewrite (trim_start_digits s) by done.
  rewrite trim_start_digits by (by rewrite str_all_rev). apply rev_involutive_str.
Qed.

Lemma read_digits_all acc s : str_all is_digit s = true → (0 ≤ acc)%Z →
  ∃ v, read_digits 10 acc s = (String.length s, v, "") ∧ (0 ≤ v)%Z.
Proof.
  revert acc. induction s as [|c s IH]; intros acc; cbn; [by exists acc|].
  intros [(d & Hd & Hr)%is_digit_value Hs]%andb_true_iff Hacc. rewrite Hd.
  destruct (IH (acc * 10 + d)%Z Hs ltac:(lia)) as (v & -> & ?). by exists v.
Qed.

Lemma decimal_value_nonneg s : str_all is_digit s = true → (0 ≤ decimal_value s)%Z.
Proof. intros (v & Hv & ?)%(read_digits_all 0); [|lia]. unfold decimal_value. by rewrite Hv. Qed.

Lemma unsigned_decimal_digits s : digits s = true → unsigned_decimal s = int (decimal_value s).
Proof.
  unfold digits. intros [Hne Hs]%andb_true_iff. unfold unsigned_decimal, decimal_value.
  destruct (read_digits_all 0 s Hs ltac:(lia)) as (v & -> & _). cbn.
  rewrite bool_decide_eq_false_2 by (by intros ->). destruct s; [done|].
  cbn. unfold scale. cbn. by rewrite Z.mul_1_r.
Qed.

(** An integer of at most 53 bits is a double. *)
Lemma double_int z : (Z.abs z ≤ 2 ^ 53)%Z → double (int z) = int z.
Proof.
  intros Hz. unfold double, int, top_bit. change (pow10 0) with 1%Z. change (Z.log2 1) with 0%Z.
  pose proof (Z.log2_nonneg (Z.abs z)).
  rewrite Z.sub_0_r, (Z.max_l 0 (- Z.log2 _)), (Z.max_r 0 (Z.log2 _)) by lia.
  rewrite Z.mul_1_r, Z.mul_1_l.
  destruct (decide (z = 0%Z)) as [->|Hne]; [reflexivity|].
  pose proof (Z.log2_spec (Z.abs z) ltac:(lia)) as [Hlo Hhi].
  rewrite (proj2 (Z.ltb_ge _ _)) by done. set (k := Z.log2 (Z.abs z)) in *.
  assert (k ≤ 53)%Z as Hk.
  { apply Z.lt_succ_r. unfold k. apply Z.log2_lt_pow2; [lia|]. eapply Z.le_lt_trans; [exact Hz|]. done. }
  set (n := (Z.abs z * _)%Z). set (d := (1 * _)%Z).
  assert (n mod d = 0 ∧ 0 < d)%Z as [Hd Hpos].
  { unfold n, d. destruct (decide (k = 53%Z)) as [Hk53|Hk53].
    - rewrite Hk53 in *. change (2 ^ Z.max 0 (Z.max (53 - 52) (-1074)))%Z with 2%Z.
      assert (Z.abs z = 2 ^ 53)%Z as -> by lia. by vm_compute.
    - rewrite (Z.max_l 0 (Z.max (k - 52) (-1074))) by lia. change (1 * 2 ^ 0)%Z with 1%Z.
      split; [apply Z.mod_1_r|done]. }
  assert (round_half_even n d * d = n)%Z as Hq.
  { unfold round_half_even. rewrite Hd. change (2 * 0)%Z with 0%Z.
    replace (0 ?= d)%Z with Lt by (symmetry; by apply Z.compare_lt_iff).
    apply Z.div_exact in Hd; lia. }
  rewrite (proj2 (Z.eqb_eq _ _) Hq), (proj2 (Z.leb_gt _ _)); [done|].
  assert (round_half_even n d * 2 ^ Z.max 0 (Z.max (k - 52) (-1074)) ≤ 2 ^ 53 * 2 ^ 52)%Z as Hle.
  { replace (2 ^ Z.max 0 (Z.max (k - 52) (-1074)))%Z with d by apply Z.mul_1_l. rewrite Hq. unfold n. apply Z.mul_le_mono_nonneg; [lia|done| |apply Z.pow_le_mono_r; lia]. apply Z.pow_nonneg. lia. }
  eapply Z.le_lt_trans; [exact Hle|]. by vm_compute.
Qed.

Lemma literal_digits s : digits s = true → literal s = int (decimal_value s).
Proof.
  intros H. rewrite <- unsigned_decimal_digits by done.
  unfold digits in H. apply andb_true_iff in H as [Hne Hs].
  unfold literal. rewrite trim_digits by done. destruct s as [|c s]; [done|].
  cbn in Hs. apply andb_true_iff in Hs as [Hc Hs].
  destruct_ascii c; try done. destruct s as [|d s]; [done|].
  cbn in Hs. apply andb_true_iff in Hs as [Hd _]. by destruct_ascii d.
Qed.
Lemma Number_digits s : digits s = true → (decimal_value s ≤ 2 ^ 53)%Z → Number s = int (decimal_value s).
Proof.
  intros H Hle. unfold Number. rewrite literal_digits by done. apply double_int.
  apply andb_true_iff in H as [_ H]. pose proof (decimal_value_nonneg s H). lia.
Qed.
