(* ===== verification/OsRange.v ===== *)
(** * OS constraints: [src/contract/os-range.ts]

    The grammar of an OS constraint (an exact version, comparators joined by single spaces, or a
    hyphen range) and its meaning. The abstract specification is [op_holds]: a comparator holds of
    a version when the version, cut or padded to the comparator's own precision, compares that
    way. The refinement is that what the parser returns for a written range accepts exactly the
    versions of which every comparator holds. *)
From Stdlib Require Import Ascii.
From stdpp Require Import base strings list option numbers.
From S2P Require Import Prelude JsString.

(** ** Definitions *)

(** A version at or above [from], and below [before] when it has one. *)
Record Bound := MkBound { from : option (list num); before : option (list num) }.

Inductive OsConstraint :=
| ExactOs (version : string)
| RangeOs (text : string) (bounds : list Bound).

(** [ParsedOsConstraint]: the refusal carries the text its message quotes. *)
Definition ParsedOsConstraint := result string OsConstraint.

(** [VERSION], the pattern of dotted integers. *)
Definition is_version (s : string) : bool := Arr.every digits (split "." s).

Inductive operator := OpGe | OpGt | OpLe | OpLt.
Definition operator_text (o : operator) : string :=
  match o with OpGe => ">=" | OpGt => ">" | OpLe => "<=" | OpLt => "<" end.
Definition OPERATORS : list operator := [OpGe; OpGt; OpLe; OpLt].

Definition looksLikeRange (text : string) : bool :=
  match text with
  | String c _ => (c === "<"%char) || (c === ">"%char) || (c === "="%char)
  | "" => false
  end
  || (str_includes " - " text || str_includes "^" text || str_includes "~" text
      || str_includes "*" text || str_includes "||" text)
  || Arr.some (λ segment, (segment === "x") || (segment === "X")) (split "." text).

Definition segments (version : string) : list num := Number <$> split "." version.

(** The next version of the same precision. *)
Definition bump (version : list num) : list num :=
  imap (λ index part,
    if (index =? pred (length version))%nat then num_add part (int 1) else part) version.

Definition comparatorBound (o : operator) (version : list num) : Bound :=
  match o with
  | OpGe => MkBound (Some version) None
  | OpGt => MkBound (Some (bump version)) None
  | OpLe => MkBound None (Some (bump version))
  | OpLt => MkBound None (Some version)
  end.

Definition hyphenBounds (text : string) : option (list Bound) :=
  match split " - " text with
  | [a; b] =>
      if is_version a && is_version b
      then Some [comparatorBound OpGe (segments a); comparatorBound OpLe (segments b)]
      else None
  | _ => None
  end.

Fixpoint comparatorTokens (tokens : list string) : option (list Bound) :=
  match tokens with
  | [] => Some []
  | token :: tokens =>
      o ← Arr.find (λ candidate, startsWith (operator_text candidate) token) OPERATORS;
      let version := str_drop (String.length (operator_text o)) token in
      if is_version version then
        bounds ← comparatorTokens tokens;
        Some (comparatorBound o (segments version) :: bounds)
      else None
  end.
Definition comparatorBounds (text : string) : option (list Bound) :=
  comparatorTokens (split " " text).

Definition parseOsConstraint (text : string) : ParsedOsConstraint :=
  if text === "" then Err text
  else if negb (looksLikeRange text) then Ok (ExactOs text)
  else
    match (match hyphenBounds text with Some b => Some b | None => comparatorBounds text end) with
    | Some bounds => Ok (RangeOs text bounds)
    | None => Err text
    end.

Definition compareSegments (left right : list num) : num :=
  let differences :=
    (λ index, num_sub (default (int 0) (left !! index)) (default (int 0) (right !! index)))
      <$> seq 0 (Nat.max (length left) (length right)) in
  default (int 0) (Arr.find num_nonzero differences).

Definition satisfies_bound (parts : list num) (b : Bound) : bool :=
  match from b with None => true | Some f => num_ge0 (compareSegments parts f) end
  && match before b with None => true | Some f => num_lt0 (compareSegments parts f) end.

Definition satisfies (version : string) (c : OsConstraint) : bool :=
  match c with
  | ExactOs v => v === version
  | RangeOs _ bounds => Arr.every (satisfies_bound (segments version)) bounds
  end.

Definition compareVersions (left right : string) : num :=
  compareSegments (segments left) (segments right).

(** ** The specification *)

(** Lexicographic comparison of two versions of one precision. *)
Fixpoint lex (a b : list Z) : comparison :=
  match a, b with
  | x :: a, y :: b => match (x ?= y)%Z with Eq => lex a b | c => c end
  | _, _ => Eq
  end.
(** A version cut, or padded with zeros, to [n] segments. *)
Fixpoint at_precision (n : nat) (l : list Z) : list Z :=
  match n with
  | 0 => []
  | S n => default 0%Z (head l) :: at_precision n (tail l)
  end.
Definition version_numbers (v : string) : list Z := decimal_value <$> split "." v.

(** The dotted integers a double holds exactly, and the next one after each segment. *)
Definition exact_version (v : string) : bool :=
  is_version v && Arr.every (λ n, n <? 2 ^ 53)%Z (version_numbers v).

Definition op_holds (o : operator) (c : comparison) : bool :=
  match o, c with
  | OpGe, Lt | OpGt, (Lt | Eq) | OpLe, Gt | OpLt, (Gt | Eq) => false
  | _, _ => true
  end.
(** [w] satisfies [o v], read at the precision [v] is written with. *)
Definition comparator_holds (w : string) (c : operator * string) : bool :=
  let v := version_numbers c.2 in
  op_holds c.1 (lex (at_precision (length v) (version_numbers w)) v).

Definition comparator_text (c : operator * string) : string := operator_text c.1 +:+ c.2.
Definition range_text (cs : list (operator * string)) : string := join " " (comparator_text <$> cs).

Example os_range_examples :
  (parseOsConstraint "18.4", parseOsConstraint "", parseOsConstraint ">=18 <26",
   parseOsConstraint "^18", satisfies "18.0" (RangeOs "" [comparatorBound OpGe (segments "18")]),
   satisfies "26.5" (RangeOs "" [comparatorBound OpLe (segments "26")]))
  = (Ok (ExactOs "18.4"), Err "",
     Ok (RangeOs ">=18 <26" [MkBound (Some [int 18]) None; MkBound None (Some [int 26])]),
     Err "^18", true, true).
Proof. vm_compute. reflexivity. Qed.

(** ** Comparing segments *)

Lemma compareSegments_step l r : l ≠ [] ∨ r ≠ [] →
  compareSegments l r =
  let d := num_sub (default (int 0) (head l)) (default (int 0) (head r)) in
  if num_nonzero d then d else compareSegments (tail l) (tail r).
Proof.
  intros H. unfold compareSegments.
  assert (Nat.max (length l) (length r)
    = S (Nat.max (length (tail l)) (length (tail r)))) as ->.
  { destruct l, r; cbn; (lia || by destruct H). }
  cbn [seq fmap list_fmap]. rewrite <- fmap_S_seq, <- list_fmap_compose. cbn.
  replace (l !! 0) with (head l) by (by destruct l).
  replace (r !! 0) with (head r) by (by destruct r).
  destruct (num_nonzero _); [done|]. f_equal. f_equal. apply list_fmap_ext.
  intros i j _. cbn. by destruct l, r.
Qed.

(** The integers of a version and of the one after it. *)
Definition exact (x : Z) : Prop := (0 ≤ x ≤ 2 ^ 53)%Z.
Lemma exact_head l : Forall exact l → exact (default 0%Z (head l)).
Proof. intros [|x l' Hx _]; [by vm_compute|done]. Qed.
Lemma exact_tail l : Forall exact l → Forall exact (tail l).
Proof. by intros [|x l' _ Hl]. Qed.

Lemma num_sub_int x y : exact x → exact y → num_sub (int x) (int y) = int (x - y).
Proof.
  intros [Hx0 Hx] [Hy0 Hy]. rewrite <- (double_int (x - y)) by lia. unfold int. cbn [num_sub].
  change (pow10 0) with 1%Z. by rewrite !Z.mul_1_r.
Qed.

(** Segments of integers compare to an integer. *)
Lemma compareSegments_int a b : Forall exact a → Forall exact b →
  ∃ m, compareSegments (int <$> a) (int <$> b) = int m.
Proof.
  intros Ha. revert b. induction Ha as [|x a Hx Ha IH]; intros b Hb.
  - induction Hb as [|y b Hy Hb IHb]; [by exists 0%Z|].
    rewrite compareSegments_step by (right; done). cbn -[compareSegments num_sub int].
    rewrite num_sub_int by done. destruct (num_nonzero _); [eauto|]. apply IHb.
  - rewrite compareSegments_step by (left; done).
    replace (default (int 0) (head (int <$> b))) with (int (default 0%Z (head b)))
      by (by destruct b).
    cbn -[compareSegments num_sub int]. rewrite num_sub_int by (done || by apply exact_head).
    destruct (num_nonzero _); [eauto|]. replace (tail (int <$> b)) with (int <$> tail b)
      by (by destruct b). by apply IH, exact_tail.
Qed.

Lemma compareSegments_nil_ge0 a : Forall exact a →
  num_ge0 (compareSegments (int <$> a) []) = true.
Proof.
  induction 1 as [|x a Hx Ha IH]; [done|].
  rewrite compareSegments_step by (left; done). cbn -[compareSegments num_sub int].
  rewrite num_sub_int by (done || by vm_compute). destruct Hx.
  cbn -[compareSegments]. destruct (negb _); [cbn; lia|done].
Qed.

Lemma compareSegments_ge0 a v : Forall exact a → Forall exact v →
  num_ge0 (compareSegments (int <$> a) (int <$> v))
  = op_holds OpGe (lex (at_precision (length v) a) v).
Proof.
  intros Ha Hv. revert a Ha. induction Hv as [|y v Hy Hv IH]; intros a Ha.
  { cbn -[compareSegments]. by apply compareSegments_nil_ge0. }
  rewrite compareSegments_step by (right; done).
  replace (default (int 0) (head (int <$> a))) with (int (default 0%Z (head a)))
    by (by destruct a).
  replace (tail (int <$> a)) with (int <$> tail a) by (by destruct a).
  cbn -[compareSegments num_sub int]. rewrite num_sub_int by (done || by apply exact_head).
  cbn -[compareSegments]. destruct (Z.compare_spec (default 0%Z (head a)) y) as [->|Hlt|Hgt].
  - rewrite Z.sub_diag. cbn -[compareSegments]. by apply IH, exact_tail.
  - rewrite (proj2 (Z.eqb_neq _ _)) by lia. cbn. lia.
  - rewrite (proj2 (Z.eqb_neq _ _)) by lia. cbn. lia.
Qed.

Lemma compareSegments_lt0 a v : Forall exact a → Forall exact v →
  num_lt0 (compareSegments (int <$> a) (int <$> v))
  = negb (num_ge0 (compareSegments (int <$> a) (int <$> v))).
Proof. intros Ha Hv. destruct (compareSegments_int a v Ha Hv) as [m ->]. cbn. lia. Qed.

Fixpoint bumpZ (v : list Z) : list Z :=
  match v with
  | [] => []
  | [x] => [(x + 1)%Z]
  | x :: v => x :: bumpZ v
  end.

Lemma bump_cons x y l : bump (x :: y :: l) = x :: bump (y :: l).
Proof. unfold bump. rewrite imap_cons. f_equal. Qed.
Definition exact_below (x : Z) : Prop := (0 ≤ x < 2 ^ 53)%Z.
Lemma bump_int v : Forall exact_below v → bump (int <$> v) = int <$> bumpZ v.
Proof.
  induction v as [|x [|y v] IH]; intros [Hx Hv]%list.Forall_cons || intros _; [done| |].
  - unfold bump. cbn. change (pow10 0) with 1%Z. rewrite !Z.mul_1_r. f_equal.
    change (double (int (x + 1)) = int (x + 1)). apply double_int. destruct Hx. lia.
  - change (int <$> x :: y :: v) with (int x :: int y :: (int <$> v)).
    rewrite bump_cons. change (int y :: (int <$> v)) with (int <$> y :: v). by rewrite IH.
Qed.
Lemma bumpZ_length v : length (bumpZ v) = length v.
Proof. induction v as [|x [|y v] IH]; [done..|]. cbn [bumpZ length] in *. by rewrite IH. Qed.

Lemma bumpZ_exact v : Forall exact_below v → Forall exact (bumpZ v).
Proof.
  induction v as [|x [|y v] IH]; [done|..]; intros [[Hx Hx'] Hv]%list.Forall_cons.
  - cbn. repeat constructor; lia.
  - change (bumpZ (x :: y :: v)) with (x :: bumpZ (y :: v)). constructor; [split; lia|by apply IH].
Qed.
Lemma below_exact v : Forall exact_below v → Forall exact v.
Proof. intros Hv. eapply list.Forall_impl; [exact Hv|]. intros x []. split; lia. Qed.

Lemma lex_bump p v : v ≠ [] → length p = length v →
  op_holds OpGe (lex p (bumpZ v)) = op_holds OpGt (lex p v).
Proof.
  revert p. induction v as [|x [|y v] IH]; intros [|z p] Hne Hlen; try done.
  - cbn. destruct p; [|done]. cbn.
    destruct (Z.compare_spec z (x + 1)), (Z.compare_spec z x); (done || lia).
  - change (bumpZ (x :: y :: v)) with (x :: bumpZ (y :: v)).
    cbn [lex]. destruct (z ?= x)%Z; [|done..]. apply IH; [done|]. by injection Hlen.
Qed.

Lemma at_precision_length n l : length (at_precision n l) = n.
Proof. revert l. induction n; intros; cbn; auto. Qed.

Lemma comparatorBound_spec o w v : v ≠ [] → Forall exact_below v → Forall exact w →
  satisfies_bound (int <$> w) (comparatorBound o (int <$> v))
  = op_holds o (lex (at_precision (length v) w) v).
Proof.
  intros Hv Hb Hw. pose proof (bumpZ_exact v Hb). pose proof (below_exact v Hb).
  pose proof (lex_bump (at_precision (length v) w) v Hv (at_precision_length _ _)) as Hl.
  unfold satisfies_bound. destruct o; cbn [comparatorBound from before];
    rewrite ?andb_true_r, ?andb_true_l, ?bump_int, ?compareSegments_lt0 by done;
    rewrite compareSegments_ge0 by done; rewrite ?bumpZ_length, ?Hl; clear Hl;
    by destruct (lex (at_precision _ _) v).
Qed.

(** ** Versions *)

Lemma is_version_digits v : is_version v = true ↔ Forall (λ s, digits s = true) (split "." v).
Proof. unfold is_version. by rewrite aevery_true, list.Forall_forall. Qed.

Lemma exact_version_numbers v : exact_version v = true → Forall exact_below (version_numbers v).
Proof.
  unfold exact_version. rewrite andb_true_iff, is_version_digits, aevery_true. intros [Hd Hs].
  apply list.Forall_forall. intros x Hx. split; [|specialize (Hs x Hx); lia].
  apply list_elem_of_fmap in Hx as (t & -> & Ht). rewrite list.Forall_forall in Hd. apply Hd in Ht.
  apply decimal_value_nonneg. by apply andb_true_iff in Ht as [_ ?].
Qed.
Lemma exact_version_is v : exact_version v = true → is_version v = true.
Proof. by intros [? _]%andb_true_iff. Qed.

Lemma segments_version v : exact_version v = true → segments v = int <$> version_numbers v.
Proof.
  intros Hv. pose proof (exact_version_numbers v Hv) as Hb. apply exact_version_is in Hv.
  rewrite is_version_digits in Hv. unfold segments, version_numbers in *.
  induction Hv as [|s l Hs Hl IH]; [done|]. apply list.Forall_cons in Hb as [[_ Hx] Hb]. cbn.
  rewrite Number_digits, IH; [done..|lia].
Qed.

Lemma split_go_nonempty sep k s : split_go sep k s ≠ [].
Proof.
  revert k. induction s as [|c s IH]; intros k; cbn [split_go]; [done|].
  destruct k; [|done]. destruct (startsWith _ _); [done|].
  unfold push_head. by destruct (split_go sep 0 s).
Qed.
Lemma version_numbers_nonempty v : version_numbers v ≠ [].
Proof. unfold version_numbers. intros H%fmap_nil_inv. by apply split_go_nonempty in H. Qed.

Lemma satisfies_comparator o v w : exact_version v = true → exact_version w = true →
  satisfies_bound (segments w) (comparatorBound o (segments v)) = comparator_holds w (o, v).
Proof.
  intros Hv Hw. rewrite !segments_version by done.
  apply comparatorBound_spec; [apply version_numbers_nonempty|by apply exact_version_numbers|].
  by apply below_exact, exact_version_numbers.
Qed.

(** ** What the parser reads back *)

Lemma split_push c0 sep' c s : c ≠ c0 →
  split (String c0 sep') (String c s) = push_head c (split (String c0 sep') s).
Proof. intros. unfold split. cbn [split_go]. by rewrite prefix_head_ne. Qed.

Lemma split_dot s : split "." (String "." s) = "" :: split "." s.
Proof. unfold split. cbn. by destruct s. Qed.

Lemma is_version_head c s : is_version (String c s) = true → is_digit c = true.
Proof.
  rewrite is_version_digits. destruct (decide (c = "."%char)) as [->|Hne].
  - rewrite split_dot. inversion 1; subst. done.
  - rewrite split_push by done. unfold push_head. pose proof (split_go_nonempty "." 0 s) as Hn.
    unfold split. destruct (split_go "." 0 s) as [|h t]; [done|]. inversion 1 as [|?? Hd]; subst.
    unfold digits in Hd. apply andb_true_iff in Hd as [_ Hd]. cbn in Hd.
    by apply andb_true_iff in Hd as [? _].
Qed.

Lemma version_chars s : Forall (λ p, str_all is_digit p = true) (split "." s) →
  str_all (λ c, is_digit c || (c === "."%char)) s = true.
Proof.
  induction s as [|c s IH]; [done|]. destruct (decide (c = "."%char)) as [->|Hne].
  - rewrite split_dot. intros [_ H]%list.Forall_cons. cbn. by apply IH.
  - rewrite split_push by done. unfold push_head. pose proof (split_go_nonempty "." 0 s) as Hn.
    unfold split in *. destruct (split_go "." 0 s) as [|h t]; [done|].
    intros [[Hc Hh]%andb_true_iff Ht]%list.Forall_cons. cbn -[is_digit].
    rewrite Hc. cbn. apply IH. by constructor.
Qed.

Lemma is_version_no_space v : is_version v = true → str_all (λ c, negb (c === " "%char)) v = true.
Proof.
  rewrite is_version_digits. intros H. eapply str_all_impl; [|apply version_chars].
  - intros c. by destruct_ascii c.
  - eapply list.Forall_impl; [exact H|]. cbn. intros p Hp. by apply andb_true_iff in Hp as [_ ?].
Qed.

Lemma operator_no_space o : str_all (λ c, negb (c === " "%char)) (operator_text o) = true.
Proof. by destruct o. Qed.

Lemma comparator_token o v : is_version v = true →
  Arr.find (λ candidate, startsWith (operator_text candidate) (comparator_text (o, v))) OPERATORS
  = Some o.
Proof.
  intros Hv. destruct v as [|c v]; [done|].
  pose proof (is_version_head _ _ Hv) as Hc. clear Hv.
  unfold comparator_text. destruct_ascii c; try discriminate Hc; destruct o; vm_compute; reflexivity.
Qed.

Lemma comparatorTokens_text cs : Forall (λ c, is_version c.2 = true) cs →
  comparatorTokens (comparator_text <$> cs)
  = Some ((λ c, comparatorBound c.1 (segments c.2)) <$> cs).
Proof.
  induction 1 as [|[o v] cs Hv Hcs IH]; [done|]. cbn [fmap list_fmap comparatorTokens].
  rewrite comparator_token by done. cbn [mbind option_bind].
  unfold comparator_text at 1 2. cbn [fst snd]. rewrite str_drop_app.
  cbn [snd] in Hv. rewrite Hv, IH. done.
Qed.

Lemma hyphenBounds_comparator c s : c ≠ " "%char → c ≠ "."%char → is_digit c = false →
  hyphenBounds (String c s) = None.
Proof.
  intros Hsp Hdot Hd. unfold hyphenBounds. rewrite split_push by done. unfold push_head.
  destruct (split _ s) as [|h [|b [|]]]; try done.
  destruct (is_version (String c h)) eqn:E; [|done].
  apply is_version_head in E. congruence.
Qed.

Lemma range_text_cons c cs : range_text (c :: cs)
  = operator_text c.1 +:+ match cs with [] => c.2 | _ => c.2 +:+ " " +:+ range_text cs end.
Proof.
  unfold range_text. destruct cs; [done|]. cbn [fmap list_fmap].
  change (join " " (?a :: ?b :: ?l)) with (a +:+ " " +:+ join " " (b :: l)).
  unfold comparator_text at 1. by rewrite str_app_assoc.
Qed.

Lemma range_text_head cs : cs ≠ [] →
  ∃ c s, range_text cs = String c s ∧ (c = "<"%char ∨ c = ">"%char).
Proof.
  destruct cs as [|[o v] cs]; [done|]. intros _. rewrite range_text_cons. cbn [fst].
  destruct o; eexists _, _; (split; [reflexivity|]); auto.
Qed.

Lemma parse_range_text cs : cs ≠ [] → Forall (λ c, is_version c.2 = true) cs →
  parseOsConstraint (range_text cs)
  = Ok (RangeOs (range_text cs) ((λ c, comparatorBound c.1 (segments c.2)) <$> cs)).
Proof.
  intros Hne Hcs. destruct (range_text_head cs Hne) as (c & s & Ht & Hc).
  assert (looksLikeRange (range_text cs) = true) as Hl.
  { rewrite Ht. unfold looksLikeRange. by destruct Hc as [-> | ->]. }
  assert (hyphenBounds (range_text cs) = None) as Hh.
  { rewrite Ht. apply hyphenBounds_comparator; by destruct Hc as [-> | ->]. }
  assert (range_text cs ≠ "") as He by (by rewrite Ht).
  unfold parseOsConstraint. rewrite bool_decide_eq_false_2 by done.
  rewrite Hl, Hh. cbn [negb]. unfold comparatorBounds. unfold range_text at 1.
  rewrite split_join; [by rewrite comparatorTokens_text| |].
  - by intros ?%fmap_nil_inv.
  - apply Forall_fmap. eapply list.Forall_impl; [exact Hcs|]. cbn. intros [o v] Hv.
    unfold comparator_text. by rewrite str_all_app, operator_no_space, is_version_no_space.
Qed.

Lemma every_fmap {A B} (f : A → B) (g : B → bool) l :
  Arr.every g (f <$> l) = Arr.every (λ x, g (f x)) l.
Proof. unfold Arr.every. induction l as [|x l IH]; cbn; [done|]. by rewrite IH. Qed.
Lemma every_ext {A} (f g : A → bool) l :
  Forall (λ x, f x = g x) l → Arr.every f l = Arr.every g l.
Proof. unfold Arr.every. induction 1 as [|x l Hx Hl IH]; cbn; [done|]. by rewrite Hx, IH. Qed.

(** ** Properties *)

(** C32. A written range is read back and means what it says: for every non-empty list of
    comparators over dotted-integer versions, joined by single spaces, [parseOsConstraint]
    accepts the text and keeps it; and the constraint it returns accepts a version exactly when every
    comparator holds of it at the comparator's own precision (so [>=18] is 18.0 onward, [<=26]
    includes every 26.x, [>26] and [<18] exclude every 26.x and 18.x), for versions with segments
    below 2^53, which the doubles the code reads them as hold exactly. *)
Theorem range_parse_refines cs :
  cs ≠ [] → Forall (λ c, is_version c.2 = true) cs →
  ∃ bounds, parseOsConstraint (range_text cs) = Ok (RangeOs (range_text cs) bounds)
    ∧ (Forall (λ c, exact_version c.2 = true) cs → ∀ w, exact_version w = true →
         satisfies w (RangeOs (range_text cs) bounds) = Arr.every (comparator_holds w) cs).
Proof.
  intros Hne Hcs. eexists. split; [by apply parse_range_text|]. intros Hex w Hw.
  cbn [satisfies]. rewrite every_fmap. apply every_ext.
  eapply list.Forall_impl; [exact Hex|]. cbn. intros [o v] Hv. by apply satisfies_comparator.
Qed.

Lemma range_parse_refines_witness :
  ∃ bounds, parseOsConstraint ">=18 <=26" = Ok (RangeOs ">=18 <=26" bounds)
    ∧ satisfies "26.5" (RangeOs ">=18 <=26" bounds) = true.
Proof.
  destruct (range_parse_refines [(OpGe, "18"); (OpLe, "26")]) as (bounds & Hp & Hs);
    [done|by repeat constructor|]. exists bounds. split; [exact Hp|].
  refine (eq_trans (Hs _ "26.5" _) _); [by repeat constructor|reflexivity|reflexivity].
Defined.
(** Above 2^53 the segments a version is written with are not those it is compared by. *)
Example segment_rounds :
  match parseOsConstraint ">=9007199254740993" with Ok c => satisfies "9007199254740992" c | Err _ => false end = true
  ∧ comparator_holds "9007199254740992" (OpGe, "9007199254740993") = false.
Proof. split; vm_compute; reflexivity. Qed.

Lemma hyphen_text_bounds a b : is_version a = true → is_version b = true →
  hyphenBounds (a +:+ " - " +:+ b)
  = Some [comparatorBound OpGe (segments a); comparatorBound OpLe (segments b)].
Proof.
  intros Ha Hb. unfold hyphenBounds.
  rewrite split_app, split_free by (by apply is_version_no_space). by rewrite Ha, Hb.
Qed.

Lemma str_includes_app sub a b : str_includes sub (a +:+ sub +:+ b) = true.
Proof.
  induction a as [|c a IH].
  - rewrite str_app_nil. destruct sub as [|d sub]; [by destruct b|].
    rewrite str_app_cons. cbn [str_includes]. by rewrite <- str_app_cons, prefix_app.
  - rewrite str_app_cons. cbn [str_includes]. by rewrite IH, orb_true_r.
Qed.

(** A hyphen range [A - B] is [>=A <=B]: it parses, and a version satisfies it exactly when it
    is at or above [A] and at or below [B], each at its own precision. *)
Theorem hyphen_range_refines a b w :
  exact_version a = true → exact_version b = true → exact_version w = true →
  ∃ bounds, parseOsConstraint (a +:+ " - " +:+ b) = Ok (RangeOs (a +:+ " - " +:+ b) bounds)
    ∧ satisfies w (RangeOs (a +:+ " - " +:+ b) bounds)
      = comparator_holds w (OpGe, a) && comparator_holds w (OpLe, b).
Proof.
  intros Ha Hb Hw. eexists. split.
  - unfold parseOsConstraint. rewrite hyphen_text_bounds by (by apply exact_version_is).
    rewrite bool_decide_eq_false_2 by (by destruct a).
    unfold looksLikeRange. rewrite str_includes_app. cbn [orb]. rewrite orb_true_r. done.
  - cbn [satisfies]. unfold Arr.every. cbn [forallb]. rewrite andb_true_r.
    by rewrite !satisfies_comparator.
Qed.

Lemma hyphen_range_refines_witness :
  ∃ bounds, parseOsConstraint "18 - 26" = Ok (RangeOs "18 - 26" bounds)
    ∧ satisfies "26.9" (RangeOs "18 - 26" bounds) = true.
Proof. apply (hyphen_range_refines "18" "26" "26.9"); reflexivity. Defined.

(** A version whose first segment is not a number satisfies no bound. *)
Lemma nan_first_refused v b l : segments v = NaN :: l →
  (from b ≠ None ∨ before b ≠ None) → satisfies_bound (segments v) b = false.
Proof.
  intros -> Hb. unfold satisfies_bound.
  assert (∀ f, compareSegments (NaN :: l) f = NaN) as Hn.
  { intros f. by rewrite compareSegments_step by (by left). }
  destruct (from b), (before b); rewrite ?Hn; cbn; try done. by destruct Hb.
Qed.

(** The comment on [satisfies] says a version that is not dotted integers satisfies no range.
    That holds when its first segment is not a number, and not in general: a version such as
    [18.beta], whose first segments already decide the comparison, satisfies [>=17]. *)
Theorem non_integer_version_satisfies_range :
  (∀ v l cs, segments v = NaN :: l → cs ≠ [] → Forall (λ c, is_version c.2 = true) cs →
     ∃ c, parseOsConstraint (range_text cs) = Ok c ∧ satisfies v c = false)
  ∧ is_version "18.beta" = false
  ∧ (∃ c, parseOsConstraint ">=17" = Ok c ∧ satisfies "18.beta" c = true).
Proof.
  split_and!.
  - intros v l [|[o u] cs] Hv Hne Hcs; [done|]. eexists. split; [by apply parse_range_text|].
    cbn. unfold Arr.every. cbn.
    rewrite (nan_first_refused v _ l) by (done || (destruct o; cbn; auto)). done.
  - done.
  - by eexists.
Qed.
