(* ===== verification/Domain.v ===== *)
(** * Devices, leases and requests: [src/core/domain.ts], [src/core/catalog-match.ts]

    The data model of the daemon (specs, device records, leases, lease requests), the matching of
    a device against a requirement, and the device state machine with its legal transitions. *)
From stdpp Require Import base strings list option numbers gmap.
From S2P Require Import Prelude JsString OsRange.

(** ** Platforms, classes, modes *)

Inductive Platform := ios | android.
Inductive DeviceClass := phone | tablet | watch | tv | vision | auto_class | desktop.
Inductive DeviceMode := slim | full.
#[global] Instance Platform_eq_dec : EqDecision Platform.
Proof. solve_decision. Defined.
#[global] Instance DeviceClass_eq_dec : EqDecision DeviceClass.
Proof. solve_decision. Defined.
#[global] Instance DeviceMode_eq_dec : EqDecision DeviceMode.
Proof. solve_decision. Defined.

(** A value the core stores and hands back without reading it ([unknown] in the source). *)
Inductive opaque := Opaque (text : string).
#[global] Instance opaque_eq_dec : EqDecision opaque.
Proof. solve_decision. Defined.

(** ** Specs *)

Record BaselineRef := MkBaseline { bl_name : string; bl_version : Z }.
#[global] Instance BaselineRef_eq_dec : EqDecision BaselineRef.
Proof. solve_decision. Defined.

(** [vs_slim] is whether the optional [mode: "slim"] is present. *)
Record VirtualSpec := MkVirtualSpec {
  vs_platform : Platform;
  vs_model : string;
  vs_osVersion : string;
  vs_slim : bool;
  vs_imageTag : option string;
  vs_baseline : option BaselineRef }.
#[global] Instance VirtualSpec_eq_dec : EqDecision VirtualSpec.
Proof. solve_decision. Defined.
#[export] Instance VirtualSpec_eta : Eta VirtualSpec := λ r,
  MkVirtualSpec (vs_platform r) (vs_model r) (vs_osVersion r) (vs_slim r) (vs_imageTag r)
    (vs_baseline r).

Inductive PhysicalClass := physical_phone | physical_tablet.
#[global] Instance PhysicalClass_eq_dec : EqDecision PhysicalClass.
Proof. solve_decision. Defined.
Definition class_of_physical (c : PhysicalClass) : DeviceClass :=
  match c with physical_phone => phone | physical_tablet => tablet end.

Record PhysicalSpec := MkPhysicalSpec {
  ps_platform : Platform;
  ps_model : string;
  ps_osVersion : string;
  ps_class : PhysicalClass }.
#[global] Instance PhysicalSpec_eq_dec : EqDecision PhysicalSpec.
Proof. solve_decision. Defined.
#[export] Instance PhysicalSpec_eta : Eta PhysicalSpec := λ r,
  MkPhysicalSpec (ps_platform r) (ps_model r) (ps_osVersion r) (ps_class r).

Inductive DeviceSpec :=
| VSpec (s : VirtualSpec)
| PSpec (s : PhysicalSpec).

(** The fields every spec has; a physical spec declares its mode, tag and baseline undefined. *)
Definition spec_physical (s : DeviceSpec) : bool :=
  match s with VSpec _ => false | PSpec _ => true end.
Definition spec_platform (s : DeviceSpec) : Platform :=
  match s with VSpec s => vs_platform s | PSpec s => ps_platform s end.
Definition spec_model (s : DeviceSpec) : string :=
  match s with VSpec s => vs_model s | PSpec s => ps_model s end.
Definition spec_osVersion (s : DeviceSpec) : string :=
  match s with VSpec s => vs_osVersion s | PSpec s => ps_osVersion s end.
Definition spec_imageTag (s : DeviceSpec) : option string :=
  match s with VSpec s => vs_imageTag s | PSpec _ => None end.
Definition spec_baseline (s : DeviceSpec) : option BaselineRef :=
  match s with VSpec s => vs_baseline s | PSpec _ => None end.

Definition specMode (s : DeviceSpec) : DeviceMode :=
  match s with VSpec s => if vs_slim s then slim else full | PSpec _ => full end.

Definition sameBaseline (left right : option BaselineRef) : bool :=
  ((bl_name <$> left) === (bl_name <$> right))
  && ((bl_version <$> left) === (bl_version <$> right)).

Definition sameSpec (left right : DeviceSpec) : bool :=
  (spec_physical left === spec_physical right)
  && (spec_platform left === spec_platform right)
  && (spec_model left === spec_model right)
  && (spec_osVersion left === spec_osVersion right)
  && (specMode left === specMode right)
  && (spec_imageTag left === spec_imageTag right)
  && sameBaseline (spec_baseline left) (spec_baseline right).

(** ** The catalog: [src/core/catalog-match.ts] *)

Record DriverCatalogImage := MkImage { im_runtime : string; im_tag : string; im_abi : string }.

(** An object used as a map is a [gmap]: only its own keys are read ([Object.hasOwn]). *)
Record DriverCatalogEntry := MkCatalog {
  ce_models : list string;
  ce_runtimes : list string;
  ce_defaultRuntime : option string;
  ce_modelRuntimes : gmap string (list string);
  ce_modelAliases : gmap string (list string);
  ce_modelClasses : gmap string DeviceClass;
  ce_images : option (list DriverCatalogImage) }.

Definition fold (name : string) : string := toLowerCase name.
Definition ownList (record : gmap string (list string)) (key : string) : list string :=
  default [] (record !! key).

Definition findCatalogModel (entry : DriverCatalogEntry) (name : string) : option string :=
  let wanted := fold name in
  Arr.find (λ model,
    (fold model === wanted)
    || Arr.some (λ alias, fold alias === wanted) (ownList (ce_modelAliases entry) model))
    (ce_models entry).

Definition modelClass (entry : DriverCatalogEntry) (model : string) : option DeviceClass :=
  ce_modelClasses entry !! model.

Definition pairedRuntimes (entry : DriverCatalogEntry) (model : string) : list string :=
  ownList (ce_modelRuntimes entry) model.

Definition classCandidates (entry : DriverCatalogEntry) (deviceClass : DeviceClass)
    (preferences : list string) : list string :=
  Arr.flatMap (λ name,
    match findCatalogModel entry name with
    | Some model => if modelClass entry model === Some deviceClass then [model] else []
    | None => []
    end) preferences.

(** ** Requests: [DeviceRequest] of [src/core/driver.ts] *)

Record DeviceRequest := MkRequest {
  rq_platform : Platform;
  rq_model : option string;
  rq_osVersion : option string;
  rq_mode : option DeviceMode;
  rq_imageTag : option string;
  rq_except : option (list string);
  rq_baseline : option string;
  rq_class : option DeviceClass;
  rq_physical : option bool }.
#[global] Instance DeviceRequest_eq_dec : EqDecision DeviceRequest.
Proof. solve_decision. Defined.

(** [requestedClass] of [src/contract/operations.ts]. *)
Definition requestedClass (model : option string) (class : option DeviceClass)
    : option DeviceClass :=
  match class with
  | Some c => Some c
  | None => match model with None => Some phone | Some _ => None end
  end.

(** ** Baselines *)

Record BaselineFacts := MkBaselineFacts {
  bf_name : string;
  bf_platform : Platform;
  bf_model : string;
  bf_osVersion : string;
  bf_mode : DeviceMode;
  bf_imageTag : option string }.

Inductive MismatchField := mf_platform | mf_model | mf_osVersion | mf_mode | mf_imageTag.
#[global] Instance MismatchField_eq_dec : EqDecision MismatchField.
Proof. solve_decision. Defined.

Definition platform_text (p : Platform) : string :=
  match p with ios => "ios" | android => "android" end.
Definition platform_label (p : Platform) : string :=
  match p with ios => "iOS" | android => "Android" end.
Definition mode_text (m : DeviceMode) : string :=
  match m with slim => "slim" | full => "full" end.

Definition modelDiffers (baseline : BaselineFacts) (asked : option string)
    (entry : DriverCatalogEntry) : bool :=
  match asked with
  | None => false
  | Some asked => default asked (findCatalogModel entry asked) !== bf_model baseline
  end.

Definition osDiffers (baseline : BaselineFacts) (asked : option string) : bool :=
  match asked with
  | None => false
  | Some asked =>
      match parseOsConstraint asked with
      | Err _ => true
      | Ok constraint => negb (satisfies (bf_osVersion baseline) constraint)
      end
  end.

(** The checks, in the order they are made: the field, whether it differs, what the baseline is
    and what the request asks for. *)
Definition baseline_checks (baseline : BaselineFacts) (request : DeviceRequest)
    (entry : DriverCatalogEntry) : list (MismatchField * bool * string * option string) :=
  [ (mf_platform, rq_platform request !== bf_platform baseline,
     platform_text (bf_platform baseline), Some (platform_text (rq_platform request)));
    (mf_model, modelDiffers baseline (rq_model request) entry,
     bf_model baseline, rq_model request);
    (mf_osVersion, osDiffers baseline (rq_osVersion request),
     platform_label (bf_platform baseline) +:+ " " +:+ bf_osVersion baseline,
     rq_osVersion request);
    (mf_mode, (rq_mode request !== None) && (rq_mode request !== Some (bf_mode baseline)),
     mode_text (bf_mode baseline), mode_text <$> rq_mode request);
    (mf_imageTag, (rq_imageTag request !== None) && (rq_imageTag request !== bf_imageTag baseline),
     "image tag " +:+ default "none" (bf_imageTag baseline), rq_imageTag request) ].

Definition baselineMismatch (baseline : BaselineFacts) (request : DeviceRequest)
    (entry : DriverCatalogEntry) : option (MismatchField * string) :=
  '(field, _, what, asked) ←
    Arr.find (λ c, c.1.1.2) (baseline_checks baseline request entry);
  Some (field, "baseline " +:+ bf_name baseline +:+ " is " +:+ what
    +:+ ", the request asks for " +:+ default "" asked).

(** ** Requirements *)

Inductive OsRequirement :=
| RequiredOs (c : OsConstraint)
| InstalledOs (versions : list string).

Inductive RequirementTarget :=
| TargetModel (model : string)
| TargetClass (class : DeviceClass).

Record DeviceRequirement := MkRequirement {
  rr_platform : Platform;
  rr_target : RequirementTarget;
  rr_osVersion : OsRequirement;
  rr_imageTag : option string;
  rr_baseline : option BaselineRef }.

Definition exactRequirement (spec : VirtualSpec) : DeviceRequirement :=
  MkRequirement (vs_platform spec) (TargetModel (vs_model spec))
    (RequiredOs (ExactOs (vs_osVersion spec))) (vs_imageTag spec) (vs_baseline spec).

(** What [fits] reads of a spec; a gateway builds one from a worker's view. *)
Record FittableSpec := MkFittable {
  fs_physical : bool;
  fs_platform : Platform;
  fs_model : string;
  fs_osVersion : string;
  fs_imageTag : option string;
  fs_baseline : option BaselineRef }.
Definition fittable (s : DeviceSpec) : FittableSpec :=
  MkFittable (spec_physical s) (spec_platform s) (spec_model s) (spec_osVersion s)
    (spec_imageTag s) (spec_baseline s).

Definition fitsTarget (target : RequirementTarget) (model : string)
    (classOf : string → option DeviceClass) : bool :=
  match target with
  | TargetModel m => m === model
  | TargetClass c => classOf model === Some c
  end.

Definition satisfiesOs (constraint : OsRequirement) (osVersion : string) : bool :=
  match constraint with
  | InstalledOs versions => Arr.includes osVersion versions
  | RequiredOs c => satisfies osVersion c
  end.

Definition fits (requirement : DeviceRequirement) (spec : FittableSpec)
    (classOf : string → option DeviceClass) : bool :=
  if fs_physical spec then false
  else if (rr_platform requirement !== fs_platform spec)
       || (rr_imageTag requirement !== fs_imageTag spec)
       || negb (sameBaseline (rr_baseline requirement) (fs_baseline spec))
  then false
  else fitsTarget (rr_target requirement) (fs_model spec) classOf
       && satisfiesOs (rr_osVersion requirement) (fs_osVersion spec).

Record PhysicalRequest := MkPhysicalRequest {
  pr_platform : Platform;
  pr_model : option string;
  pr_class : option DeviceClass;
  pr_osVersion : option string }.

Record FittablePhysical := MkFittablePhysical {
  fp_platform : Platform;
  fp_model : string;
  fp_osVersion : string;
  fp_spec_class : option PhysicalClass;
  fp_class : option PhysicalClass }.

Definition fitsPhysical (device : FittablePhysical) (request : PhysicalRequest) : bool :=
  if fp_platform device !== pr_platform request then false else
  let named :=
    match pr_model request with
    | None =>
        let class := match fp_class device with Some c => Some c | None => fp_spec_class device end in
        (class_of_physical <$> class) === requestedClass None (pr_class request)
    | Some model => toLowerCase (fp_model device) === toLowerCase model
    end in
  if negb named then false else
  match pr_osVersion request with
  | None => true
  | Some text =>
      match parseOsConstraint text with
      | Ok constraint => satisfies (fp_osVersion device) constraint
      | Err _ => false
      end
  end.

(** ** Device records *)

Inductive DeviceState :=
| provisioning | ready | leased | reclaiming | quarantined | shutdown | absent | deleted.
#[global] Instance DeviceState_eq_dec : EqDecision DeviceState.
Proof. solve_decision. Defined.
Inductive AbsentReason := locked | untrusted | not_present.
#[global] Instance AbsentReason_eq_dec : EqDecision AbsentReason.
Proof. solve_decision. Defined.
Definition absent_text (r : AbsentReason) : string :=
  match r with locked => "locked" | untrusted => "untrusted" | not_present => "not-present" end.
Inductive LeaseIdentity := reusable | fresh.
#[global] Instance LeaseIdentity_eq_dec : EqDecision LeaseIdentity.
Proof. solve_decision. Defined.

Inductive CauseKind := purge_failed | shutdown_failed | delete_failed | stalled.
#[global] Instance CauseKind_eq_dec : EqDecision CauseKind.
Proof. solve_decision. Defined.
Record QuarantineCause := MkCause {
  qc_kind : CauseKind;
  qc_stalledState : option DeviceState;
  qc_message : option string }.
#[global] Instance QuarantineCause_eq_dec : EqDecision QuarantineCause.
Proof. solve_decision. Defined.

(** The fields both kinds of device have. *)
Record DeviceRecordFields := MkFields {
  id : string;
  driverDeviceId : string;
  driverData : opaque;
  createdAt : Z;
  lastLeaseEndedAt : option Z;
  readyAt : option Z;
  shutdownAt : option Z;
  deletedAt : option Z;
  foreignStateDetectedAt : option Z;
  foreignProvenanceDetectedAt : option Z;
  recoveringSince : option Z;
  recoveryAttempts : option Z;
  deferredReclaimLeaseId : option string;
  quarantinedAt : option Z;
  quarantineAttempts : option Z;
  quarantineNextRetryAt : option Z;
  quarantineCause : option QuarantineCause;
  address : option string }.
#[global] Instance DeviceRecordFields_eq_dec : EqDecision DeviceRecordFields.
Proof. solve_decision. Defined.
#[export] Instance DeviceRecordFields_eta : Eta DeviceRecordFields := λ r,
  MkFields (id r) (driverDeviceId r) (driverData r) (createdAt r) (lastLeaseEndedAt r)
    (readyAt r) (shutdownAt r) (deletedAt r) (foreignStateDetectedAt r)
    (foreignProvenanceDetectedAt r) (recoveringSince r) (recoveryAttempts r)
    (deferredReclaimLeaseId r) (quarantinedAt r) (quarantineAttempts r)
    (quarantineNextRetryAt r) (quarantineCause r) (address r).

Record VirtualDevice := MkVirtual {
  v_fields : DeviceRecordFields;
  v_spec : VirtualSpec;
  v_state : DeviceState;
  v_mode : DeviceMode;
  v_except : option (list string);
  v_leaseIdentity : option LeaseIdentity }.
#[global] Instance VirtualDevice_eq_dec : EqDecision VirtualDevice.
Proof. solve_decision. Defined.
#[export] Instance VirtualDevice_eta : Eta VirtualDevice := λ r,
  MkVirtual (v_fields r) (v_spec r) (v_state r) (v_mode r) (v_except r) (v_leaseIdentity r).

Record PhysicalDevice := MkPhysical {
  p_fields : DeviceRecordFields;
  p_spec : PhysicalSpec;
  p_state : DeviceState;
  p_enrolledApps : list string;
  p_reclaimingSince : option Z;
  p_absentReason : option AbsentReason }.
#[global] Instance PhysicalDevice_eq_dec : EqDecision PhysicalDevice.
Proof. solve_decision. Defined.
#[export] Instance PhysicalDevice_eta : Eta PhysicalDevice := λ r,
  MkPhysical (p_fields r) (p_spec r) (p_state r) (p_enrolledApps r) (p_reclaimingSince r)
    (p_absentReason r).

Inductive DeviceRecord :=
| Virtual (v : VirtualDevice)
| Physical (p : PhysicalDevice).
#[global] Instance DeviceRecord_eq_dec : EqDecision DeviceRecord.
Proof. solve_decision. Defined.

Definition dev_fields (d : DeviceRecord) : DeviceRecordFields :=
  match d with Virtual v => v_fields v | Physical p => p_fields p end.
Definition dev_id (d : DeviceRecord) : string := id (dev_fields d).
Definition dev_state (d : DeviceRecord) : DeviceState :=
  match d with Virtual v => v_state v | Physical p => p_state p end.
Definition dev_spec (d : DeviceRecord) : DeviceSpec :=
  match d with Virtual v => VSpec (v_spec v) | Physical p => PSpec (p_spec p) end.
Definition dev_physical (d : DeviceRecord) : bool :=
  match d with Virtual _ => false | Physical _ => true end.
Definition dev_virtual (d : DeviceRecord) : option VirtualDevice :=
  match d with Virtual v => Some v | Physical _ => None end.
(** [{ ...device, <fields> }] on the shared fields. *)
Definition set_fields (f : DeviceRecordFields → DeviceRecordFields) (d : DeviceRecord)
    : DeviceRecord :=
  match d with
  | Virtual v => Virtual v <| v_fields := f (v_fields v) |>
  | Physical p => Physical p <| p_fields := f (p_fields p) |>
  end.

Definition assertVirtual (d : DeviceRecord) : result string VirtualDevice :=
  match d with
  | Physical p => Err (id (p_fields p))
  | Virtual v => Ok v
  end.

Definition readySince (d : DeviceRecord) : Z :=
  default (createdAt (dev_fields d)) (readyAt (dev_fields d)).

Definition mayBeGranted (d : DeviceRecord) : bool :=
  dev_physical d || (lastLeaseEndedAt (dev_fields d) === None).

(** ** Leases and lease requests *)

Record LeaseRecord := MkLease {
  l_id : string;
  l_deviceId : string;
  l_requesterId : string;
  l_ownerId : string;
  l_grantedAt : Z;
  l_ttlMs : Z;
  l_ttlDeadline : Z;
  l_lastRenewedAt : Z;
  l_idChosenByRequester : bool }.
#[global] Instance LeaseRecord_eq_dec : EqDecision LeaseRecord.
Proof. solve_decision. Defined.
#[export] Instance LeaseRecord_eta : Eta LeaseRecord := λ r,
  MkLease (l_id r) (l_deviceId r) (l_requesterId r) (l_ownerId r) (l_grantedAt r) (l_ttlMs r)
    (l_ttlDeadline r) (l_lastRenewedAt r) (l_idChosenByRequester r).

Record LeaseTiming := MkTiming {
  estimatedProvisionMs : Z;
  estimatedBootMs : Z;
  estimatedReclaimMs : Z;
  estimatedReadyMs : Z }.
#[global] Instance LeaseTiming_eq_dec : EqDecision LeaseTiming.
Proof. solve_decision. Defined.

Record LeaseGrant := MkGrant {
  g_device : DeviceRecord;
  g_environment : list (string * string);
  g_lease : LeaseRecord;
  g_timing : LeaseTiming }.
#[global] Instance LeaseGrant_eq_dec : EqDecision LeaseGrant.
Proof. solve_decision. Defined.
#[export] Instance LeaseGrant_eta : Eta LeaseGrant := λ r,
  MkGrant (g_device r) (g_environment r) (g_lease r) (g_timing r).

Inductive LeaseRequestState := open | granted | failed | cancelled.
#[global] Instance LeaseRequestState_eq_dec : EqDecision LeaseRequestState.
Proof. solve_decision. Defined.

Record LeaseRequestFailure := MkFailure { f_code : string; f_message : string }.
#[global] Instance LeaseRequestFailure_eq_dec : EqDecision LeaseRequestFailure.
Proof. solve_decision. Defined.

(** Generic over the grant: a gateway's grants carry a worker's device untyped. *)
Record LeaseRequestRecord (Grant : Type) := MkRequestRecord {
  q_id : string;
  q_requesterId : string;
  q_ownerId : string;
  q_idempotencyKey : option string;
  q_leaseId : option string;
  q_fleetRequestId : option string;
  q_request : DeviceRequest;
  q_createdAt : Z;
  q_state : LeaseRequestState;
  q_settledAt : option Z;
  q_grant : option Grant;
  q_failure : option LeaseRequestFailure }.
Arguments MkRequestRecord {Grant}.
Arguments q_id {Grant}. Arguments q_requesterId {Grant}. Arguments q_ownerId {Grant}.
Arguments q_idempotencyKey {Grant}. Arguments q_leaseId {Grant}.
Arguments q_fleetRequestId {Grant}. Arguments q_request {Grant}. Arguments q_createdAt {Grant}.
Arguments q_state {Grant}. Arguments q_settledAt {Grant}. Arguments q_grant {Grant}.
Arguments q_failure {Grant}.
#[global] Instance LeaseRequestRecord_eq_dec {G} `{EqDecision G} :
  EqDecision (LeaseRequestRecord G).
Proof. solve_decision. Defined.
#[export] Instance LeaseRequestRecord_eta {G} : Eta (LeaseRequestRecord G) := λ r,
  MkRequestRecord (q_id r) (q_requesterId r) (q_ownerId r) (q_idempotencyKey r) (q_leaseId r)
    (q_fleetRequestId r) (q_request r) (q_createdAt r) (q_state r) (q_settledAt r) (q_grant r)
    (q_failure r).

Definition isSettled {G} (r : LeaseRequestRecord G) : bool := q_state r !== open.

(** ** The device state machine *)

Definition legalTransitions (from : DeviceState) : option (list DeviceState) :=
  match from with
  | provisioning => Some [ready; deleted; quarantined]
  | ready => Some [leased; shutdown]
  | leased => Some [reclaiming]
  | reclaiming => Some [ready; shutdown; quarantined]
  | quarantined => Some [ready; shutdown; deleted]
  | shutdown => Some [ready; deleted; quarantined]
  | deleted => Some []
  | absent => None
  end.
Definition legalPhysicalTransitions (from : DeviceState) : option (list DeviceState) :=
  match from with
  | ready => Some [leased; absent; deleted]
  | leased => Some [reclaiming; absent]
  | reclaiming => Some [ready; quarantined; absent]
  | quarantined => Some [ready; deleted]
  | absent => Some [reclaiming; ready; deleted]
  | deleted => Some []
  | provisioning | shutdown => None
  end.
(** A state is a key of its table ([Object.hasOwn]). *)
Definition isVirtualState (s : DeviceState) : bool := legalTransitions s !== None.
Definition isPhysicalState (s : DeviceState) : bool := legalPhysicalTransitions s !== None.

Record IllegalTransition := MkIllegal { it_from : DeviceState; it_to : DeviceState }.

Record DeviceTransitionUpdate := MkUpdate {
  u_address : option string;
  u_readyAt : option Z;
  u_shutdownAt : option Z;
  u_driverData : option opaque;
  u_mode : option DeviceMode;
  u_osVersion : option string;
  u_absentReason : option AbsentReason;
  u_reclaimingSince : option Z }.
#[export] Instance DeviceTransitionUpdate_eta : Eta DeviceTransitionUpdate := λ r,
  MkUpdate (u_address r) (u_readyAt r) (u_shutdownAt r) (u_driverData r) (u_mode r)
    (u_osVersion r) (u_absentReason r) (u_reclaimingSince r).
Definition no_update : DeviceTransitionUpdate := MkUpdate None None None None None None None None.

(** [{ ...r, ...update }] over the shared fields: a key that is present replaces the field. *)
Definition spread {A} (new old : option A) : option A :=
  match new with Some a => Some a | None => old end.
Definition spread_update (u : DeviceTransitionUpdate) (f : DeviceRecordFields)
    : DeviceRecordFields :=
  f <| address := spread (u_address u) (address f) |>
    <| readyAt := spread (u_readyAt u) (readyAt f) |>
    <| shutdownAt := spread (u_shutdownAt u) (shutdownAt f) |>
    <| driverData := default (driverData f) (u_driverData u) |>.

Definition transitionPhysical (current : PhysicalDevice) (to : DeviceState)
    (u : DeviceTransitionUpdate) : result IllegalTransition PhysicalDevice :=
  let from := p_state current in
  if negb (isPhysicalState from) || negb (isPhysicalState to)
     || negb (Arr.includes to (default [] (legalPhysicalTransitions from)))
  then Err (MkIllegal from to)
  else
    let fields := (p_fields current) <| deferredReclaimLeaseId := None |> in
    let spec :=
      match u_osVersion u with
      | None => p_spec current
      | Some v => (p_spec current) <| ps_osVersion := v |>
      end in
    Ok (MkPhysical (spread_update u fields) spec to (p_enrolledApps current)
          (spread (u_reclaimingSince u) (p_reclaimingSince current))
          (if to === absent then u_absentReason u else None)).

Definition transitionVirtual (current : VirtualDevice) (to : DeviceState)
    (u : DeviceTransitionUpdate) : result IllegalTransition VirtualDevice :=
  if negb (isVirtualState to)
     || negb (Arr.includes to (default [] (legalTransitions (v_state current))))
  then Err (MkIllegal (v_state current) to)
  else
    let fields := (v_fields current) <| deferredReclaimLeaseId := None |> in
    let fields := if to === shutdown then fields <| address := None |> else fields in
    Ok (MkVirtual (spread_update u fields) (v_spec current) to
          (default (v_mode current) (u_mode u)) (v_except current) (v_leaseIdentity current)).

Definition transition (current : DeviceRecord) (to : DeviceState) (u : DeviceTransitionUpdate)
    : result IllegalTransition DeviceRecord :=
  match current with
  | Physical p => Physical <$> transitionPhysical p to u
  | Virtual v => Virtual <$> transitionVirtual v to u
  end.

Definition transitionEnteredAt (d : DeviceRecord) : option Z :=
  match dev_state d with
  | provisioning => Some (createdAt (dev_fields d))
  | reclaiming =>
      match d with
      | Physical p => spread (p_reclaimingSince p) (lastLeaseEndedAt (p_fields p))
      | Virtual v => lastLeaseEndedAt (v_fields v)
      end
  | _ => None
  end.

(** ** Lemmas on specs and matching *)

(** Case analysis on the comparisons of the source in the goal and the hypotheses. *)
Ltac js_cases :=
  repeat (case_bool_decide || case_match || simplify_eq).

Lemma sameBaseline_eq a b : sameBaseline a b = true ↔ a = b.
Proof.
  unfold sameBaseline. rewrite andb_true_iff, !bool_decide_eq_true.
  destruct a as [[n v]|], b as [[m w]|]; cbn; naive_solver.
Qed.

Lemma sameSpec_virtual a b : sameSpec (VSpec a) (VSpec b) = true ↔ a = b.
Proof.
  unfold sameSpec. rewrite !andb_true_iff, !bool_decide_eq_true, sameBaseline_eq.
  destruct a as [p m o s t bl], b as [p' m' o' s' t' bl']; cbn.
  destruct s, s'; naive_solver.
Qed.

Lemma lower_idem c : lower (lower c) = lower c.
Proof. by destruct_ascii c. Qed.
Lemma toLowerCase_idem s : toLowerCase (toLowerCase s) = toLowerCase s.
Proof.
  unfold toLowerCase. induction s as [|c s IH]; cbn; [done|]. by rewrite lower_idem, IH.
Qed.
Lemma findCatalogModel_fold entry name :
  findCatalogModel entry (toLowerCase name) = findCatalogModel entry name.
Proof. unfold findCatalogModel, fold. by rewrite toLowerCase_idem. Qed.
Lemma findCatalogModel_listed entry name model :
  findCatalogModel entry name = Some model → model ∈ ce_models entry.
Proof. by intros [? _]%afind_Some. Qed.

(** ** Lemmas on transitions *)

(** The type of a record: its state is one of its kind. *)
Definition wf_device (d : DeviceRecord) : bool :=
  match d with
  | Virtual v => isVirtualState (v_state v)
  | Physical p => isPhysicalState (p_state p)
  end.

(** The edges of the two tables. *)
Definition legal_edge (physical : bool) (from to : DeviceState) : bool :=
  Arr.includes to
    (default [] (if physical then legalPhysicalTransitions from else legalTransitions from)).

Lemma legal_edge_virtual from to : legal_edge false from to = true → isVirtualState to = true.
Proof. by destruct from, to. Qed.
Lemma legal_edge_physical from to : legal_edge true from to = true →
  isPhysicalState from = true ∧ isPhysicalState to = true.
Proof. by destruct from, to. Qed.

Lemma transition_Ok d to u d' : transition d to u = Ok d' →
  legal_edge (dev_physical d) (dev_state d) to = true
  ∧ dev_state d' = to ∧ dev_physical d' = dev_physical d ∧ wf_device d' = true
  ∧ (∃ f, dev_fields d' = spread_update u f
       ∧ f = (dev_fields d) <| deferredReclaimLeaseId := None |>
             <| address := if (to === shutdown) && negb (dev_physical d) then None
                           else address (dev_fields d) |>).
Proof.
  destruct d as [v|p]; cbn.
  - unfold transitionVirtual. destruct (negb _ || _) eqn:E; cbn; intros H; simplify_eq.
    apply orb_false_iff in E as [E1%negb_false_iff E2%negb_false_iff]. cbn.
    split_and!; [done..|]. eexists. split; [done|]. rewrite andb_true_r.
    case_bool_decide; [done|]. by destruct v as [[]].
  - unfold transitionPhysical. destruct (negb _ || _ || _) eqn:E; cbn; intros H; simplify_eq.
    rewrite !orb_false_iff, !negb_false_iff in E. destruct E as [[? ?] ?]. cbn.
    split_and!; [done..|]. eexists. split; [done|]. rewrite andb_false_r. by destruct p as [[]].
Qed.

Lemma transition_Err d to u e : transition d to u = Err e →
  legal_edge (dev_physical d) (dev_state d) to = false ∧ e = MkIllegal (dev_state d) to.
Proof.
  destruct d as [v|p]; cbn.
  - unfold transitionVirtual. destruct (negb _ || _) eqn:E; cbn; intros H; simplify_eq.
    split; [|done]. destruct (legal_edge false _ _) eqn:Hl; [|done].
    rewrite (legal_edge_virtual _ _ Hl) in E. unfold legal_edge in Hl. by rewrite Hl in E.
  - unfold transitionPhysical. destruct (negb _ || _ || _) eqn:E; cbn; intros H; simplify_eq.
    split; [|done]. destruct (legal_edge true _ _) eqn:Hl; [|done].
    destruct (legal_edge_physical _ _ Hl) as [-> ->] in E. unfold legal_edge in Hl.
    by rewrite Hl in E.
Qed.

(** One transition of a device record, with whatever update its caller passes. *)
Inductive device_step (d : DeviceRecord) (to : DeviceState) : DeviceRecord → Prop :=
| device_step_intro u d' : transition d to u = Ok d' → device_step d to d'.

(** The states a run of transitions passes through, the first excluded. *)
Inductive device_run : DeviceRecord → list DeviceState → DeviceRecord → Prop :=
| device_run_nil d : device_run d [] d
| device_run_cons d to d1 tos d2 :
    device_step d to d1 → device_run d1 tos d2 → device_run d (to :: tos) d2.

Lemma device_step_legal d to : legal_edge (dev_physical d) (dev_state d) to = true →
  ∃ d', device_step d to d'.
Proof.
  intros H. destruct (transition d to no_update) as [d'|e] eqn:E.
  - exists d'. by econstructor.
  - apply transition_Err in E as [E _]. congruence.
Qed.

(** The shortest way out of each state. *)
Definition way_to_deleted (physical : bool) (s : DeviceState) : list DeviceState :=
  match s with
  | deleted => []
  | provisioning | quarantined | shutdown | absent => [deleted]
  | ready => if physical then [deleted] else [shutdown; deleted]
  | leased => if physical then [absent; deleted] else [reclaiming; shutdown; deleted]
  | reclaiming => if physical then [absent; deleted] else [shutdown; deleted]
  end.

(** Every edge along [tos], starting from [s], is legal. *)
Fixpoint legal_path (physical : bool) (s : DeviceState) (tos : list DeviceState) : bool :=
  match tos with
  | [] => true
  | to :: tos => legal_edge physical s to && legal_path physical to tos
  end.

Lemma last_cons_default {A} (x : A) l d : List.last (x :: l) d = List.last l x.
Proof.
  revert x d. induction l as [|y l IH]; intros x d; [done|].
  change (List.last (y :: l) d = List.last (y :: l) x). by rewrite !IH.
Qed.

Lemma legal_path_run d tos : legal_path (dev_physical d) (dev_state d) tos = true →
  ∃ d', device_run d tos d' ∧ dev_state d' = List.last tos (dev_state d).
Proof.
  revert d. induction tos as [|to tos IH]; intros d; [by exists d; split; [constructor|]|].
  cbn [legal_path]. intros [He Hp]%andb_true_iff.
  destruct (device_step_legal d to He) as [d1 Hd1]. pose proof Hd1 as Ht. inversion Ht as [u ? Ht']; subst.
  apply transition_Ok in Ht' as (_ & Hs & Hk & _). rewrite <- Hk in Hp. rewrite <- Hs in Hp at 1.
  destruct (IH d1 Hp) as (d' & Hr & Hl). exists d'. split; [by econstructor|].
  by rewrite Hl, last_cons_default, Hs.
Qed.

(** ** Properties *)

(** C5. [transition] is exactly the two tables: it succeeds on their edges only, and then the
    record is of the same kind, in the asked state and well formed, keeps its id and creation
    time, drops any deferred reclaim, drops the address of a virtual device that stops unless the
    update names one, and keeps a physical device's absence reason only in [absent]; off the
    tables it fails with the two states and nothing else. *)
Theorem transition_refines_tables d to u :
  match transition d to u with
  | Ok d' =>
      legal_edge (dev_physical d) (dev_state d) to = true
      ∧ dev_state d' = to ∧ dev_physical d' = dev_physical d ∧ wf_device d' = true
      ∧ dev_id d' = dev_id d ∧ createdAt (dev_fields d') = createdAt (dev_fields d)
      ∧ deferredReclaimLeaseId (dev_fields d') = None
      ∧ (dev_physical d = false → to = shutdown → address (dev_fields d') = u_address u)
      ∧ (∀ p, d' = Physical p → to ≠ absent → p_absentReason p = None)
  | Err e =>
      legal_edge (dev_physical d) (dev_state d) to = false ∧ e = MkIllegal (dev_state d) to
  end.
Proof.
  destruct (transition d to u) as [d'|e] eqn:E; [|by apply transition_Err in E].
  pose proof (transition_Ok _ _ _ _ E) as (Hl & Hs & Hk & Hw & f & Hf & ->).
  unfold dev_id. rewrite Hf. split_and!; try done.
  - intros Hp ->. cbn. rewrite Hp. cbn. by destruct (u_address u).
  - intros p -> Hne. destruct d as [v|q]; [by destruct (transitionVirtual v to u) in E|].
    cbn in E. unfold transitionPhysical in E. destruct (negb _ || _ || _) in E; simplify_eq/=.
    rewrite <- E. cbn [p_absentReason]. by rewrite bool_decide_eq_false_2.
Qed.

(** The state machine has no trap and one end: every well-formed record of either kind has a
    run of legal transitions to [deleted], no transition leaves [deleted], and every run that takes
    a leased virtual device anywhere passes through [reclaiming] first. *)
Theorem device_lifecycle d :
  wf_device d = true →
  (∃ tos d', device_run d tos d' ∧ dev_state d' = deleted)
  ∧ (dev_state d = deleted → ∀ to d', ¬ device_step d to d')
  ∧ (dev_physical d = false → dev_state d = leased →
     ∀ tos d', device_run d tos d' → tos ≠ [] → head tos = Some reclaiming).
Proof.
  intros Hwf. split_and!.
  - set (tos := way_to_deleted (dev_physical d) (dev_state d)).
    destruct (legal_path_run d tos) as (d' & Hr & Hl).
    { unfold tos. clear tos. destruct d as [v|p]; cbn in *;
        [destruct (v_state v)|destruct (p_state p)]; done. }
    exists tos, d'. split; [done|]. rewrite Hl. unfold tos. clear.
    by destruct (dev_physical d), (dev_state d).
  - intros Hd to d' [u ? Ht]. apply transition_Ok in Ht as (Hl & _). rewrite Hd in Hl.
    by destruct (dev_physical d).
  - intros Hp Hs tos d' Hr Hne. destruct Hr as [|d to d1 tos d2 [u ? Ht] _]; [done|].
    apply transition_Ok in Ht as (Hl & _). rewrite Hp, Hs in Hl. by destruct to.
Qed.

Definition sample_fields (i : string) : DeviceRecordFields :=
  MkFields i ("udid-" +:+ i) (Opaque "{}") 0 None None None None None None None None None
    None None None None None.
Definition sample_spec : VirtualSpec := MkVirtualSpec ios "iPhone 16" "26.5" false None None.
Definition sample_virtual (i : string) (s : DeviceState) : VirtualDevice :=
  MkVirtual (sample_fields i) sample_spec s full None (Some reusable).

Lemma device_lifecycle_witness :
  ∃ tos d', device_run (Virtual (sample_virtual "dev_1" leased)) tos d' ∧ dev_state d' = deleted.
Proof. apply (device_lifecycle (Virtual (sample_virtual "dev_1" leased))). reflexivity. Defined.

(** For a request a driver resolved to one spec, the planner's test of a device (it fits the
    exact requirement and is in the spec's pool mode) is spec identity, whatever the class lookup:
    it accepts a device exactly when [sameSpec] does, which is when the device is virtual and its
    spec is that spec, field for field. *)
Theorem exact_requirement_is_identity s d classOf :
  (fits (exactRequirement s) (fittable d) classOf && (specMode d === specMode (VSpec s)))
    = sameSpec (VSpec s) d
  ∧ (sameSpec (VSpec s) d = true ↔ d = VSpec s).
Proof.
  split.
  - unfold fits, sameSpec, exactRequirement. cbn.
    destruct d as [t|t]; cbn; [|done]. destruct (sameBaseline _ _); cbn;
      repeat case_bool_decide; cbn; (done || congruence).
  - destruct d as [t|t]; [|by split].
    rewrite sameSpec_virtual. naive_solver.
Qed.

(** [baselineMismatch] answers nothing exactly when the request agrees with the baseline on
    every field it names (a model by the catalog's spelling rule, an OS by the constraint
    grammar), and otherwise names the first field that differs in the order platform, model, OS,
    mode, image tag. *)
Theorem baseline_mismatch_spec b r e :
  let agrees f :=
    match f with
    | mf_platform => rq_platform r = bf_platform b
    | mf_model => ∀ m, rq_model r = Some m → default m (findCatalogModel e m) = bf_model b
    | mf_osVersion => ∀ o, rq_osVersion r = Some o →
        ∃ c, parseOsConstraint o = Ok c ∧ satisfies (bf_osVersion b) c = true
    | mf_mode => ∀ m, rq_mode r = Some m → m = bf_mode b
    | mf_imageTag => ∀ t, rq_imageTag r = Some t → bf_imageTag b = Some t
    end in
  let order := [mf_platform; mf_model; mf_osVersion; mf_mode; mf_imageTag] in
  match baselineMismatch b r e with
  | None => ∀ f, agrees f
  | Some (f, _) => ¬ agrees f ∧ ∀ g i j, order !! i = Some g → order !! j = Some f → i < j → agrees g
  end.
Proof.
  intros agrees order.
  assert (∀ f d i a, (f, d, i, a) ∈ baseline_checks b r e → d = false ↔ agrees f) as Hc.
  { intros f d i a Hin. unfold baseline_checks in Hin. rewrite !elem_of_cons, elem_of_nil in Hin.
    destruct Hin as [?|[?|[?|[?|[?|[]]]]]]; simplify_eq; unfold agrees;
      unfold modelDiffers, osDiffers; clear.
    - rewrite negb_false_iff, bool_decide_eq_true. done.
    - destruct (rq_model r); [|naive_solver]. rewrite negb_false_iff, bool_decide_eq_true.
      naive_solver.
    - destruct (rq_osVersion r) as [o|]; [|naive_solver].
      destruct (parseOsConstraint o) as [c|] eqn:E; [rewrite negb_false_iff|]; split.
      + intros H o' [= <-]. eauto.
      + intros H. destruct (H o eq_refl) as (c' & ? & ?). congruence.
      + done.
      + intros H. destruct (H o eq_refl) as (c' & ? & ?). congruence.
    - destruct (rq_mode r); cbn; [|naive_solver]. rewrite negb_false_iff, bool_decide_eq_true.
      naive_solver.
    - destruct (rq_imageTag r); cbn; [|naive_solver]. rewrite negb_false_iff, bool_decide_eq_true.
      naive_solver. }
  assert (∀ i c, baseline_checks b r e !! i = Some c → order !! i = Some c.1.1.1) as Ho.
  { intros i c Hi. do 5 (destruct i as [|i]; [by simplify_eq/=|]). done. }
  unfold baselineMismatch. destruct (Arr.find _ _) as [[[[f d] w] a]|] eqn:E; cbn.
  - apply afind_Some_first in E as (i & Hi & Hd & Hlt). cbn in Hd. subst d.
    pose proof (Ho _ _ Hi) as Hf. cbn in Hf. split.
    + rewrite <- (Hc f true w a) by (by eapply list_elem_of_lookup_2). done.
    + intros g k j Hg Hj Hkj.
      assert (j = i) as ->.
      { eapply (NoDup_lookup order); [|done..]. apply (bool_decide_unpack _). by vm_compute. }
      destruct (baseline_checks b r e !! k) as [[[[g' d'] w'] a']|] eqn:Ek.
      * pose proof (Ho _ _ Ek) as Hg'. simplify_eq/=.
        apply (Hc g d' w' a'); [by eapply list_elem_of_lookup_2|]. by apply (Hlt k _ Ek).
      * apply lookup_ge_None in Ek. apply lookup_lt_Some in Hi. lia.
  - intros f. rewrite afind_None in E.
    assert (∃ d i a, (f, d, i, a) ∈ baseline_checks b r e) as (d & i & a & Hin).
    { destruct f; do 3 eexists; unfold baseline_checks; rewrite !elem_of_cons; tauto. }
    rewrite <- (Hc f d i a Hin). by apply (E _ Hin).
Qed.
