(* ===== verification/Resolve.v ===== *)
(** * From a request to a spec: [src/core/driver-catalog.ts], [src/leasing/acquisition-requests.ts],
    [src/leasing/acquisition-timing.ts], and the resolution half of
    [src/leasing/lease-acquisition-coordinator.ts]

    A request names a model, a class, a baseline or nothing; resolving it settles which model and
    runtime a driver is asked for, asks it, installs a missing runtime when the request may
    download, and holds the driver's answer to what the request asked. A driver is a record of the
    calls made to it, each of which may answer anything; what it reads of the machine is an
    abstract [Host], which only the component installer changes. *)
From Stdlib Require Import Ascii QArith Qround.
From stdpp Require Import base strings list option numbers gmap sorting.
From S2P Require Import Prelude JsString OsRange Domain.

(** ** Data *)

(** [ExactDeviceRequest] of [src/core/driver.ts]: what a driver is asked to resolve. *)
Record ExactDeviceRequest := MkExact {
  ex_platform : Platform;
  ex_model : string;
  ex_osVersion : option string;
  ex_mode : option DeviceMode;
  ex_imageTag : option string;
  ex_except : option (list string) }.

(** The errors resolution raises or passes on. A missing runtime is downloadable exactly when it
    names the component that would supply it. *)
Inductive ResolveError :=
| RuntimeMissing (platform : Platform) (osVersion : string) (component : option string)
| UnknownModel (platform : Platform) (model : option string) (class : option DeviceClass)
| UnknownBaseline (name : string)
| BaselineMismatchError (name : string) (field : MismatchField) (message : string)
| BaselineStale (name reason : string)
| BadDeviceRequest (message : string)
| NoDriver (platform : Platform)
| OtherError (message : string).

(** A baseline's current version as a lease request reads it, [CurrentBaseline] of
    [src/core/baselines.ts]. *)
Record CurrentBaseline := MkCurrent {
  cb_imageTag : option string;
  cb_mode : DeviceMode;
  cb_model : string;
  cb_name : string;
  cb_osVersion : string;
  cb_platform : Platform;
  cb_sourceId : string;
  cb_staleReason : option string;
  cb_version : Z }.
Definition baseline_facts (current : CurrentBaseline) : BaselineFacts :=
  MkBaselineFacts (cb_name current) (cb_platform current) (cb_model current)
    (cb_osVersion current) (cb_mode current) (cb_imageTag current).

(** What the installer reports. A percentage is a rational: every finite double is one. *)
Inductive ComponentInstallerProgress :=
| InstallPercent (percent : Q)
| InstallStarted
| InstallWaiting.

Record DownloadingProgress := MkDownloading {
  dp_component : string; dp_waiting : bool; dp_percent : option Z }.
#[global] Instance DownloadingProgress_eq_dec : EqDecision DownloadingProgress.
Proof. solve_decision. Defined.

Inductive TargetRefusal := refusal_no_driver | refusal_runtime_missing | refusal_unknown_model
  | refusal_unresolvable.
Inductive TargetResolution :=
| Resolves (spec : VirtualSpec)
| Refused (refusal : TargetRefusal) (message : string).

(** What resolving settles on before a driver is asked; an exact request has only [rt_exact]. *)
Record ResolvedTarget := MkTarget {
  rt_exact : ExactDeviceRequest;
  rt_requirement : option DeviceRequirement;
  rt_classOf : option (string → option DeviceClass) }.

Record Resolution := MkResolution {
  rn_spec : VirtualSpec;
  rn_requirement : DeviceRequirement;
  rn_classOf : option (string → option DeviceClass) }.

Definition class_text (c : DeviceClass) : string :=
  match c with
  | phone => "phone" | tablet => "tablet" | watch => "watch" | tv => "tv" | vision => "vision"
  | auto_class => "auto" | desktop => "desktop"
  end.

(** The double quote, and the text of a constraint that is a range. *)
Definition quote : string := String (Ascii.ascii_of_nat 34) "".
Definition constraint_text (c : OsConstraint) : string :=
  match c with ExactOs v => v | RangeOs text _ => text end.

(** The [message] of each error. *)
Definition error_message (e : ResolveError) : string :=
  match e with
  | RuntimeMissing platform osVersion _ =>
      "Runtime missing for " +:+ platform_text platform +:+ " " +:+ osVersion
  | UnknownModel platform model None =>
      "Unknown " +:+ platform_text platform +:+ " model: " +:+ default "undefined" model
  | UnknownModel platform _ (Some c) =>
      "No " +:+ platform_text platform +:+ " model of class " +:+ class_text c
      +:+ " is listed on this host; name one in " +:+ platform_text platform
      +:+ ".defaultModels." +:+ class_text c
  | UnknownBaseline name => "no baseline named " +:+ quote +:+ name +:+ quote +:+ " on this worker"
  | BaselineMismatchError _ _ message => message
  | BaselineStale name reason => "baseline " +:+ name +:+ " is stale: " +:+ reason
  | BadDeviceRequest message => message
  | NoDriver platform => "No driver registered for platform: " +:+ platform_text platform
  | OtherError message => message
  end.

(** ** Helpers: [acquisition-requests.ts] *)

Definition physicalRequestOf (request : DeviceRequest) : PhysicalRequest :=
  MkPhysicalRequest (rq_platform request) (rq_model request) (rq_class request)
    (rq_osVersion request).

Definition fullSpec (spec : VirtualSpec) : VirtualSpec :=
  if negb (vs_slim spec) then spec else spec <| vs_slim := false |>.

Definition downloadingProgress (component : string) (progress : ComponentInstallerProgress)
    : DownloadingProgress :=
  match progress with
  | InstallWaiting => MkDownloading component true None
  | InstallStarted => MkDownloading component false None
  | InstallPercent percent => MkDownloading component false (Some (Qfloor percent))
  end.

Definition sameDownloadingProgress (left right : DownloadingProgress) : bool :=
  (dp_waiting left === dp_waiting right) && (dp_percent left === dp_percent right).

Definition matchingRuntimes (entry : DriverCatalogEntry) (model : string)
    (imageTag osVersion : option string) (range : option OsConstraint) : list string :=
  Arr.filter (λ runtime,
    match range with
    | None => (osVersion === None) || (Some runtime === osVersion)
    | Some range => satisfies runtime range
    end
    && match imageTag with
       | None => true
       | Some tag =>
           Arr.some (λ image, (im_runtime image === runtime) && (im_tag image === tag))
             (default [] (ce_images entry))
       end)
    (pairedRuntimes entry model).

(** [Array.prototype.sort] reads only the sign of the comparator's answer, and [NaN] as zero. *)
Definition num_sign (n : num) : Z :=
  match n with NaN => 0 | Inf negative => if negative then -1 else 1 | Dec m _ => Z.sgn m end.
Definition by_version (left right : string) : Z := num_sign (compareVersions left right).

Definition newestRuntime (entry : DriverCatalogEntry) (model : string) (request : DeviceRequest)
    (range : OsConstraint) : result ResolveError string :=
  match last (sort_by by_version
          (matchingRuntimes entry model (rq_imageTag request) (rq_osVersion request) (Some range))) with
  | None => Err (RuntimeMissing (rq_platform request) (constraint_text range) None)
  | Some newest => Ok newest
  end.

Definition requiredOs (entry : DriverCatalogEntry) (request : DeviceRequest)
    (range : option OsConstraint) : OsRequirement :=
  match range with
  | Some range => RequiredOs range
  | None =>
      match rq_osVersion request with
      | None => InstalledOs (ce_runtimes entry)
      | Some version => RequiredOs (ExactOs version)
      end
  end.

Definition requestedRange (request : DeviceRequest) : option OsConstraint :=
  match rq_osVersion request with
  | None => None
  | Some text =>
      match parseOsConstraint text with
      | Ok (RangeOs t bounds) => Some (RangeOs t bounds)
      | _ => None
      end
  end.

(** ** The driver catalog *)

Section resolve.
(** The machine as drivers and the installer see it. *)
Context {Host : Type}.

(** The calls made to a driver. [dr_estimate] is [Driver.estimate] of an operation on a spec;
    [dr_estimate_boot] is the boot estimate of one device, which the driver reads and may fail to. *)
Inductive EstimateOperation := est_provision | est_boot | est_reclaim_standard.
Record Driver := MkDriver {
  dr_platform : Platform;
  dr_listCatalog : Host → result ResolveError DriverCatalogEntry;
  dr_resolveSpec : Host → ExactDeviceRequest → result ResolveError VirtualSpec;
  dr_estimate : EstimateOperation → DeviceSpec → Z;
  dr_estimate_boot : DeviceRecord → result ResolveError Z }.

(** *** Timing: [acquisition-timing.ts] *)

Definition releaseReclaimEstimateMs (driver : Driver) (spec : DeviceSpec) : Z :=
  dr_estimate driver est_reclaim_standard spec.

Definition estimatedTiming (driver : Driver) (spec : DeviceSpec) : LeaseTiming :=
  let provisionMs := dr_estimate driver est_provision spec in
  let bootMs := dr_estimate driver est_boot spec in
  {| estimatedBootMs := bootMs;
     estimatedProvisionMs := provisionMs;
     estimatedReclaimMs := releaseReclaimEstimateMs driver spec;
     estimatedReadyMs := provisionMs + bootMs |}.

(** The quote is advisory: a driver that cannot read the device's own boot path is asked for the
    figure without it. *)
Definition estimatedBootTiming (driver : Driver) (device : DeviceRecord) : LeaseTiming :=
  let spec := dev_spec device in
  let bootMs :=
    match dr_estimate_boot driver device with Ok ms => ms | Err _ => dr_estimate driver est_boot spec end in
  {| estimatedBootMs := bootMs;
     estimatedProvisionMs := 0;
     estimatedReclaimMs := releaseReclaimEstimateMs driver spec;
     estimatedReadyMs := bootMs |}.

Definition grantReadyTiming (driver : Driver) (spec : DeviceSpec) : LeaseTiming :=
  {| estimatedBootMs := 0;
     estimatedProvisionMs := 0;
     estimatedReclaimMs := releaseReclaimEstimateMs driver spec;
     estimatedReadyMs := 0 |}.

(** [new Map(drivers.map(...))]: a later driver of a platform replaces an earlier one in place. *)
Fixpoint map_set (d : Driver) (l : list Driver) : list Driver :=
  match l with
  | [] => [d]
  | x :: l => if dr_platform x === dr_platform d then d :: l else x :: map_set d l
  end.
Definition driver_map (drivers : list Driver) : list Driver :=
  fold_left (λ l d, map_set d l) drivers [].

(** The catalog's drivers and preferences, the worker's default modes, the baselines' current
    versions, and the installer: what it did to the host, what it reported and how it ended. *)
Context (drivers : list Driver) (preferences : Platform → DeviceClass → list string)
  (defaultModes : Platform → option DeviceMode) (current_baseline : string → option CurrentBaseline)
  (install : Host → Platform → string → string → (Host → bool)
    → Host * list ComponentInstallerProgress * result ResolveError unit).

Definition driver_of (platform : Platform) : option Driver :=
  Arr.find (λ d, dr_platform d === platform) (driver_map drivers).
Definition catalog_get (platform : Platform) : result ResolveError Driver :=
  of_option (NoDriver platform) (driver_of platform).

Definition select (platform : option Platform) : list Driver :=
  match platform with
  | None => driver_map drivers
  | Some platform => option_list (driver_of platform)
  end.

Definition DEVICE_CLASSES : list DeviceClass := [phone; tablet; watch; tv; vision; auto_class; desktop].
Definition classDefaults (platform : Platform) (entry : DriverCatalogEntry)
    : list (DeviceClass * string) :=
  Arr.flatMap (λ deviceClass,
    let counted := classCandidates entry deviceClass (preferences platform deviceClass) in
    let chosen :=
      match Arr.find (λ model, (0 <? length (pairedRuntimes entry model))%nat) counted with
      | Some model => Some model
      | None => head counted
      end in
    (deviceClass,.) <$> option_list chosen) DEVICE_CLASSES.

Record PlatformCatalog := MkPlatformCatalog {
  pc_platform : Platform;
  pc_entry : DriverCatalogEntry;
  pc_classDefaults : list (DeviceClass * string) }.

(** A catalog of one platform passes its driver's failure on; a catalog of all leaves out the
    drivers that fail. *)
Definition platform_catalog (h : Host) (d : Driver) : result ResolveError PlatformCatalog :=
  entry ← dr_listCatalog d h;
  Ok (MkPlatformCatalog (dr_platform d) entry (classDefaults (dr_platform d) entry)).
Definition listCatalog (h : Host) (platform : option Platform)
    : result ResolveError (list PlatformCatalog) :=
  match platform with
  | Some _ => mapM (M:=result ResolveError) (platform_catalog h) (select platform)
  | None => Ok (Arr.flatMap (λ d,
      match platform_catalog h d with Ok c => [c] | Err _ => [] end) (select None))
  end.

(** ** Resolution *)

Definition defaultMode (platform : Platform) : DeviceMode := default full (defaultModes platform).
Definition servesDefaultMode (spec : DeviceSpec) : bool :=
  if spec_physical spec then false else specMode spec === defaultMode (spec_platform spec).

Definition baselineSpec (current : CurrentBaseline) : VirtualSpec :=
  MkVirtualSpec (cb_platform current) (cb_model current) (cb_osVersion current)
    (cb_mode current === slim) (cb_imageTag current)
    (Some (MkBaseline (cb_name current) (cb_version current))).

(** Resolution reads and, through the installer, changes the host; [w_sent] is the progress the
    requester was sent, oldest first. *)
Record World := MkWorld { w_host : Host; w_sent : list DownloadingProgress }.
Local Abbreviation op A := (action World ResolveError A).

Definition read_host {A} (f : Host → result ResolveError A) : op A := λ w, (w, f (w_host w)).

Definition exactTarget (request : DeviceRequest) (mode : DeviceMode) : option ResolvedTarget :=
  model ← rq_model request;
  Some (MkTarget
    (MkExact (rq_platform request) model (rq_osVersion request) (Some mode) (rq_imageTag request)
      (rq_except request)) None None).

Definition rangedTarget (entry : DriverCatalogEntry) (model : string) (target : RequirementTarget)
    (request : DeviceRequest) (mode : DeviceMode) (range : option OsConstraint)
    : result ResolveError ResolvedTarget :=
  osVersion ←
    match range with
    | None => Ok (rq_osVersion request)
    | Some range => Some <$> newestRuntime entry model request range
    end;
  Ok (MkTarget
    (MkExact (rq_platform request) model osVersion (Some mode) (rq_imageTag request)
      (rq_except request))
    (Some (MkRequirement (rq_platform request) target (requiredOs entry request range)
      (rq_imageTag request) None))
    None).

(** [(await catalog.listCatalog(platform))[0]] *)
Definition catalog_entry (platform : Platform) (h : Host) : result ResolveError (option DriverCatalogEntry) :=
  (λ l, pc_entry <$> head l) <$> listCatalog h (Some platform).

Definition resolveClass (request : DeviceRequest) (mode : DeviceMode) (range : option OsConstraint)
    : op ResolvedTarget :=
  let deviceClass := default phone (requestedClass None (rq_class request)) in
  let unknown := UnknownModel (rq_platform request) None (Some deviceClass) in
  listed ← read_host (catalog_entry (rq_platform request));
  entry ← lift (of_option unknown listed);
  let candidates := classCandidates entry deviceClass (preferences (rq_platform request) deviceClass) in
  guard_or (0 <? length candidates)%nat unknown;;
  chosen ← lift (of_option
    (RuntimeMissing (rq_platform request) (default "default" (rq_osVersion request)) None)
    (Arr.find (λ candidate, (0 <? length
      (matchingRuntimes entry candidate (rq_imageTag request) (rq_osVersion request) range))%nat)
      candidates));
  target ← lift (rangedTarget entry chosen (TargetClass deviceClass) request mode range);
  mret (MkTarget (rt_exact target) (rt_requirement target) (Some (modelClass entry))).

Definition resolveRanged (request : DeviceRequest) (mode : DeviceMode) (range : OsConstraint)
    : op ResolvedTarget :=
  match rq_model request with
  | None => resolveClass request mode (Some range)
  | Some model =>
      let unknown := UnknownModel (rq_platform request) (Some model) None in
      entry ← read_host (catalog_entry (rq_platform request));
      entry ← lift (of_option unknown entry);
      listed ← lift (of_option unknown (findCatalogModel entry model));
      lift (rangedTarget entry listed (TargetModel listed) request mode (Some range))
  end.

(** The reports of one install, each sent unless it equals the last one sent. *)
Fixpoint send_reports (component : string) (lastSent : option DownloadingProgress)
    (reports : list ComponentInstallerProgress) : list DownloadingProgress :=
  match reports with
  | [] => []
  | progress :: reports =>
      let next := downloadingProgress component progress in
      if match lastSent with Some last => sameDownloadingProgress last next | None => false end
      then send_reports component lastSent reports
      else next :: send_reports component (Some next) reports
  end.

Definition still_needed (driver : Driver) (request : ExactDeviceRequest) (h : Host) : bool :=
  match dr_resolveSpec driver h request with Err (RuntimeMissing _ _ _) => true | _ => false end.

Definition resolveOrInstall (driver : Driver) (request : ExactDeviceRequest) (allowDownload : bool)
    (requesterId : string) : op VirtualSpec := λ w,
  match dr_resolveSpec driver (w_host w) request with
  | Err (RuntimeMissing platform osVersion (Some component)) =>
      if allowDownload then
        let '(h, reports, outcome) :=
          install (w_host w) (ex_platform request) component requesterId
            (still_needed driver request) in
        let w' := MkWorld h (w_sent w ++ send_reports component None reports) in
        match outcome with
        | Err e => (w', Err e)
        | Ok _ => (w', dr_resolveSpec driver h request)
        end
      else (w, Err (RuntimeMissing platform osVersion (Some component)))
  | answer => (w, answer)
  end.

Definition image_tag_message (platform : Platform) (resolved asked : option string) : string :=
  "The " +:+ platform_text platform +:+ " driver resolved image tag " +:+ default "undefined" resolved
  +:+ " for a request naming " +:+ default "undefined" asked.

Definition checkedSpec (resolved : VirtualSpec) (request : DeviceRequest) (mode : DeviceMode)
    : result ResolveError VirtualSpec :=
  if vs_imageTag resolved !== rq_imageTag request
  then Err (OtherError
    (image_tag_message (rq_platform request) (vs_imageTag resolved) (rq_imageTag request)))
  else Ok (if mode === slim then resolved else fullSpec resolved).

Definition no_catalog : DriverCatalogEntry := MkCatalog [] [] None ∅ ∅ ∅ None.

Definition resolveBaseline (driver : Driver) (name : string) (request : DeviceRequest)
    : op Resolution :=
  current ← lift (of_option (UnknownBaseline name) (current_baseline name));
  entry ← read_host (catalog_entry (cb_platform current));
  lift (match baselineMismatch (baseline_facts current) request (default no_catalog entry) with
        | Some (field, message) => Err (BaselineMismatchError name field message)
        | None => Ok tt
        end);;
  lift (match cb_staleReason current with
        | Some reason => Err (BaselineStale name reason)
        | None => Ok tt
        end);;
  let spec := baselineSpec current in
  match rq_except request with
  | None => mret (MkResolution spec (exactRequirement spec) None)
  | Some except =>
      guard_or (vs_slim spec)
        (BadDeviceRequest ("except needs a slim lease (baseline " +:+ quote +:+ name +:+ quote +:+ " is full)"));;
      read_host (λ h, dr_resolveSpec driver h
        (MkExact (vs_platform spec) (vs_model spec) (Some (vs_osVersion spec)) (Some slim)
          (vs_imageTag spec) (Some except)));;
      mret (MkResolution spec (exactRequirement spec) None)
  end.

Definition resolveSpec (driver : Driver) (request : DeviceRequest) (allowDownload : bool)
    (requesterId : string) : op Resolution :=
  match rq_baseline request with
  | Some name => resolveBaseline driver name request
  | None =>
      let mode := default (defaultMode (rq_platform request)) (rq_mode request) in
      guard_or ((rq_except request === None) || (mode === slim))
        (BadDeviceRequest "except needs a slim lease (this worker's default mode is full)");;
      let range := requestedRange request in
      target ←
        match range with
        | None =>
            match exactTarget request mode with
            | Some target => mret target
            | None => resolveClass request mode None
            end
        | Some range => resolveRanged request mode range
        end;
      resolved ← resolveOrInstall driver (rt_exact target)
        (allowDownload && (range === None)) requesterId;
      spec ← lift (checkedSpec resolved request mode);
      mret (MkResolution spec (default (exactRequirement spec) (rt_requirement target))
        (rt_classOf target))
  end.

(** What a target's refusal is called. *)
Definition refusalOf (e : ResolveError) : TargetRefusal :=
  match e with
  | RuntimeMissing _ _ _ => refusal_runtime_missing
  | UnknownModel _ _ _ => refusal_unknown_model
  | _ => refusal_unresolvable
  end.

(** [resolve], which the warm pool asks: with downloads off. *)
Definition resolve (request : DeviceRequest) (w : World) : World * TargetResolution :=
  match catalog_get (rq_platform request) with
  | Err e => (w, Refused refusal_no_driver (error_message e))
  | Ok driver =>
      match resolveSpec driver request false "warm-pool" w with
      | (w, Ok r) => (w, Resolves (rn_spec r))
      | (w, Err e) => (w, Refused (refusalOf e) (error_message e))
      end
  end.
End resolve.

(** ** Sorting versions

    [by_version] is a comparator only on dotted integers, where it is the sign of the first
    difference of the padded segments. *)

Fixpoint first_nonzero (l : list Z) : Z :=
  match l with [] => 0 | x :: l => if (x =? 0)%Z then first_nonzero l else x end.
Fixpoint first_difference (a b : list Z) : Z :=
  match a, b with
  | [], b => first_nonzero (Z.opp <$> b)
  | a, [] => first_nonzero a
  | x :: a, y :: b => if (x - y =? 0)%Z then first_difference a b else (x - y)%Z
  end.
Definition version_order (left right : string) : Z :=
  first_difference (version_numbers left) (version_numbers right).

(** Padding by zeros is invisible, so every pair can be compared head by head. *)
Lemma first_difference_heads a b :
  first_difference a b =
  let d := (default 0 (head a) - default 0 (head b))%Z in
  if (d =? 0)%Z then first_difference (tail a) (tail b) else d.
Proof.
  destruct a as [|x a], b as [|y b]; cbn; rewrite ?Z.sub_0_r; try done.
  by destruct a.
Qed.

Lemma tail_int l : tail (int <$> l) = int <$> tail l.
Proof. by destruct l. Qed.
Lemma head_int l : default (int 0) (head (int <$> l)) = int (default 0%Z (head l)).
Proof. by destruct l. Qed.

Lemma compareSegments_first_difference n a b : Forall exact a → Forall exact b →
  (length a ≤ n)%nat → (length b ≤ n)%nat →
  compareSegments (int <$> a) (int <$> b) = int (first_difference a b).
Proof.
  revert a b. induction n as [|n IH]; intros a b Ea Eb Ha Hb.
  { destruct a, b; cbn in *; (done || lia). }
  destruct (decide (a = [] ∧ b = [])) as [[-> ->]|Hne]; [done|].
  rewrite compareSegments_step, first_difference_heads
    by (destruct a, b; cbn; (by left) || (by right) || (by destruct Hne)).
  rewrite !head_int, !tail_int. cbn -[compareSegments num_sub int].
  rewrite num_sub_int, IH by (by apply exact_head || apply exact_tail || (destruct a, b; cbn in *; lia)).
  unfold int at 1. cbn. by destruct (Z.eqb_spec (default 0%Z (head a) - default 0%Z (head b)) 0).
Qed.

Lemma first_difference_opp n a b : (length a ≤ n)%nat → (length b ≤ n)%nat →
  first_difference b a = (- first_difference a b)%Z.
Proof.
  revert a b. induction n as [|n IH]; intros a b Ha Hb.
  { destruct a, b; cbn in *; (done || lia). }
  rewrite (first_difference_heads a), (first_difference_heads b). cbn.
  destruct (Z.eqb_spec (default 0%Z (head b) - default 0%Z (head a)) 0),
    (Z.eqb_spec (default 0%Z (head a) - default 0%Z (head b)) 0); try lia.
  apply IH; [destruct a|destruct b]; cbn in *; lia.
Qed.

Lemma first_difference_trans n a b c : (length a ≤ n)%nat → (length b ≤ n)%nat → (length c ≤ n)%nat →
  (first_difference a b ≤ 0 → first_difference b c ≤ 0 → first_difference a c ≤ 0)%Z.
Proof.
  revert a b c. induction n as [|n IH]; intros a b c Ha Hb Hc.
  { by destruct a, b, c; cbn in *; try lia. }
  rewrite (first_difference_heads a b), (first_difference_heads b c), (first_difference_heads a c).
  cbn. destruct (Z.eqb_spec (default 0%Z (head a) - default 0%Z (head b)) 0),
    (Z.eqb_spec (default 0%Z (head b) - default 0%Z (head c)) 0),
    (Z.eqb_spec (default 0%Z (head a) - default 0%Z (head c)) 0); try lia.
  apply IH; [destruct a|destruct b|destruct c]; cbn in *; lia.
Qed.

#[global] Instance version_order_comparator : Comparator version_order.
Proof.
  split; unfold version_order; intros a b.
  - rewrite (first_difference_opp (length (version_numbers a) + length (version_numbers b)) (version_numbers a)); lia.
  - intros c. eapply (first_difference_trans (length (version_numbers a) + length (version_numbers b)
      + length (version_numbers c))); lia.
Qed.

Lemma by_version_order a b : exact_version a = true → exact_version b = true →
  by_version a b = Z.sgn (version_order a b).
Proof.
  intros Ha Hb. unfold by_version, compareVersions. rewrite !segments_version by done.
  by erewrite compareSegments_first_difference
    by (by apply below_exact, exact_version_numbers) || apply Nat.le_add_r || apply Nat.le_add_l.
Qed.

Lemma sort_insert_sign {A} (cmp cmp' : A → A → Z) x l :
  (∀ y, y ∈ l → (cmp x y ≤ 0 ↔ cmp' x y ≤ 0)%Z) → sort_insert cmp x l = sort_insert cmp' x l.
Proof.
  induction l as [|y l IH]; intros H; cbn; [done|].
  assert ((cmp x y ≤ 0 ↔ cmp' x y ≤ 0)%Z) as Hy by (apply H; left).
  rewrite IH by (intros z Hz; apply H; by right).
  destruct (Z.leb_spec (cmp x y) 0), (Z.leb_spec (cmp' x y) 0); (done || lia).
Qed.

Lemma sort_by_sign {A} (cmp cmp' : A → A → Z) l :
  (∀ x y, x ∈ l → y ∈ l → (cmp x y ≤ 0 ↔ cmp' x y ≤ 0)%Z) → sort_by cmp l = sort_by cmp' l.
Proof.
  induction l as [|x l IH]; intros H; cbn; [done|].
  change (sort_insert cmp x (sort_by cmp l) = sort_insert cmp' x (sort_by cmp' l)).
  rewrite IH by (intros y z ??; apply H; by right).
  apply sort_insert_sign. intros y Hy%elem_of_sort_by. apply H; [left|by right].
Qed.

Lemma sort_by_last {A} (cmp : A → A → Z) `{!Comparator cmp} l x : last (sort_by cmp l) = Some x →
  x ∈ l ∧ ∀ y, y ∈ l → (cmp y x ≤ 0)%Z.
Proof.
  intros Hl. pose proof (sort_by_sorted cmp l) as Hs.
  apply last_Some in Hl as [k Hk].
  assert (∀ y, y ∈ l ↔ y ∈ k ∨ y = x) as Hin.
  { intros y. by rewrite <- (elem_of_sort_by cmp y l), Hk, elem_of_app, list_elem_of_singleton. }
  split; [apply Hin; by right|]. rewrite Hk in Hs. intros y [Hy| ->]%Hin.
  - apply StronglySorted_app in Hs as [Hs _]. apply Hs; [done|left].
  - destruct (cmp_total x x); lia.
Qed.

(** The newest of some versions: one of them, and none of them is newer. *)
Lemma newest_version l v : (∀ r, r ∈ l → exact_version r = true) →
  last (sort_by by_version l) = Some v →
  v ∈ l ∧ ∀ r, r ∈ l → num_lt0 (compareVersions v r) = false.
Proof.
  intros Hv Hl. rewrite (sort_by_sign _ version_order) in Hl.
  - apply sort_by_last in Hl as [Hin Hmax]; [|apply _]. split; [done|]. intros r Hr.
    specialize (Hmax r Hr). unfold compareVersions. rewrite !segments_version by auto.
    set (n := (length (version_numbers v) + length (version_numbers r))%nat).
    rewrite (compareSegments_first_difference n) by (lia || by apply below_exact, exact_version_numbers; auto). unfold version_order in Hmax.
    rewrite (first_difference_opp n (version_numbers r)) by lia. cbn. lia.
  - intros x y Hx Hy. rewrite by_version_order by auto. lia.
Qed.

(** ** What resolution promises *)

(** [resolveClass] reads the catalog and settles on the first preferred model of the class that
    the catalog lists and pairs with a runtime the request accepts. *)
Definition class_settled (entry : DriverCatalogEntry) (liked : list string) (request : DeviceRequest)
    (mode : DeviceMode) (range : option OsConstraint) (t : ResolvedTarget) : Prop :=
  let deviceClass := default phone (rq_class request) in
  let accepted m := matchingRuntimes entry m (rq_imageTag request) (rq_osVersion request) range in
  ∃ before after,
    classCandidates entry deviceClass liked = before ++ ex_model (rt_exact t) :: after
    ∧ (∀ m, m ∈ before → accepted m = [])
    ∧ accepted (ex_model (rt_exact t)) ≠ []
    ∧ ex_platform (rt_exact t) = rq_platform request
    ∧ ex_mode (rt_exact t) = Some mode
    ∧ ex_imageTag (rt_exact t) = rq_imageTag request
    ∧ ex_except (rt_exact t) = rq_except request
    ∧ match range with
      | None => ex_osVersion (rt_exact t) = rq_osVersion request
      | Some range => ∃ v, ex_osVersion (rt_exact t) = Some v
          ∧ last (sort_by by_version (accepted (ex_model (rt_exact t)))) = Some v
      end
    ∧ rt_requirement t = Some (MkRequirement (rq_platform request) (TargetClass deviceClass)
        (requiredOs entry request range) (rq_imageTag request) None)
    ∧ rt_classOf t = Some (modelClass entry).

Lemma requestedClass_phone c : default phone (requestedClass None c) = default phone c.
Proof. by destruct c. Qed.

Lemma last_sort_by_nonempty {A} (cmp : A → A → Z) l : l ≠ [] → ∃ x, last (sort_by cmp l) = Some x.
Proof.
  intros Hl. destruct (last (sort_by cmp l)) as [x|] eqn:E; [by eexists|].
  apply last_None in E. destruct Hl. apply Permutation_nil_r.
  by rewrite <- (sort_by_perm cmp l), E.
Qed.

Lemma length_positive {A} (l : list A) : (0 <? length l)%nat = true ↔ l ≠ [].
Proof. rewrite Nat.ltb_lt. destruct l; cbn; (split; [|lia]) || split; (lia || done). Qed.
Lemma length_not_positive {A} (l : list A) : (0 <? length l)%nat = false ↔ l = [].
Proof. destruct l; cbn; split; done. Qed.

(** [resolveClass] never changes the world, settles the class as above when it answers, and
    refuses with no model listed or none paired, never as something a download could fix. *)
Lemma resolveClass_runs {Host} (drivers : list (Driver (Host := Host))) preferences request mode range w :
  runs (resolveClass drivers preferences request mode range) w
    (λ t w', w' = w ∧ ∃ entry, catalog_entry drivers preferences (rq_platform request) (w_host w) = Ok (Some entry)
       ∧ class_settled entry (preferences (rq_platform request) (default phone (rq_class request))) request mode range t)
    (λ e w', w' = w ∧
       (catalog_entry drivers preferences (rq_platform request) (w_host w) = Err e
        ∨ e = UnknownModel (rq_platform request) None (Some (default phone (rq_class request)))
        ∨ ∃ v, e = RuntimeMissing (rq_platform request) v None)).
Proof.
  unfold resolveClass. rewrite requestedClass_phone. apply runs_bind.
  unfold runs at 1, read_host. destruct (catalog_entry _ _ _ _) as [listed|e] eqn:Hc; [|by eauto].
  destruct listed as [entry|]; cbn [of_option]; run_action; simplify_eq; eauto 6.
  - split; [done|]. exists entry. split; [done|].
    match goal with H : of_option _ _ = Ok _ |- _ => apply of_option_Ok, afind_Some_first in H as (i & Hi & Hm & Hb) end.
    match goal with H : rangedTarget _ _ _ _ _ _ = Ok _ |- _ => rename H into Ht end.
    apply length_positive in Hm.
    exists (take i (classCandidates entry (default phone (rq_class request))
      (preferences (rq_platform request) (default phone (rq_class request))))).
    eexists. unfold rangedTarget in Ht. apply bind_Ok in Ht as (v & Hv & [= <-]). cbn.
    split; [symmetry; by apply take_drop_middle|]. split.
    { intros m (j & Hj & Hlt)%elem_of_take. apply length_not_positive. by eapply Hb. }
    split; [done|]. do 4 (split; [done|]). split; [|done].
    destruct range as [range|]; [|by injection Hv].
    unfold newestRuntime in Hv. destruct (last _) as [v'|] eqn:E; [|done].
    injection Hv as <-. eauto.
  - split; [done|]. right; right.
    match goal with H : rangedTarget _ _ _ _ _ _ = Err _ |- _ => rename H into Ht end.
    unfold rangedTarget in Ht. apply bind_Err in Ht as [Ht|(v & _ & [=])].
    destruct range as [range|]; [|done]. unfold newestRuntime in Ht.
    destruct (last _); [done|]. injection Ht as <-. eauto.
  - match goal with H : of_option _ _ = Err _ |- _ => apply of_option_Err in H as [_ <-] end. eauto 6.
Qed.

Section promises.
Context {Host : Type} (drivers : list (Driver (Host := Host)))
  (preferences : Platform → DeviceClass → list string)
  (defaultModes : Platform → option DeviceMode) (current_baseline : string → option CurrentBaseline)
  (install : Host → Platform → string → string → (Host → bool)
    → Host * list ComponentInstallerProgress * result ResolveError unit).
Local Abbreviation resolves := (resolveSpec drivers preferences defaultModes current_baseline install).

(** A model and a range: the model is listed, and the runtime is the newest the range accepts. *)
Lemma resolveRanged_runs request mode range w :
  runs (resolveRanged drivers preferences request mode range) w
    (λ t w', w' = w ∧
       ((rq_model request = None ∧ ∃ entry,
           catalog_entry drivers preferences (rq_platform request) (w_host w) = Ok (Some entry)
           ∧ class_settled entry (preferences (rq_platform request) (default phone (rq_class request)))
               request mode (Some range) t)
        ∨ ∃ model entry listed v, rq_model request = Some model
           ∧ catalog_entry drivers preferences (rq_platform request) (w_host w) = Ok (Some entry)
           ∧ findCatalogModel entry model = Some listed
           ∧ last (sort_by by_version (matchingRuntimes entry listed (rq_imageTag request)
               (rq_osVersion request) (Some range))) = Some v
           ∧ t = MkTarget (MkExact (rq_platform request) listed (Some v) (Some mode)
                   (rq_imageTag request) (rq_except request))
                 (Some (MkRequirement (rq_platform request) (TargetModel listed)
                   (RequiredOs range) (rq_imageTag request) None)) None))
    (λ _ w', w' = w).
Proof.
  unfold resolveRanged. destruct (rq_model request) as [model|] eqn:Hm.
  - apply runs_bind. unfold runs at 1, read_host.
    destruct (catalog_entry _ _ _ _) as [listed|e] eqn:Hc; [|done].
    run_action; try done. split; [done|]. right.
    match goal with H : of_option _ listed = _ |- _ => apply of_option_Ok in H as -> end.
    match goal with H : of_option _ _ = _ |- _ => apply of_option_Ok in H as Hl end.
    match goal with H : rangedTarget _ _ _ _ _ _ = _ |- _ => rename H into Ht end.
    unfold rangedTarget, newestRuntime in Ht. destruct (last _) as [v|] eqn:E; [|done].
    injection Ht as <-. eauto 10.
  - eapply runs_mono; [apply resolveClass_runs|..]; cbn; [|naive_solver].
    intros t w' [-> ?]. eauto.
Qed.

Lemma resolveOrInstall_still driver request requesterId w :
  (resolveOrInstall install driver request false requesterId w).1 = w.
Proof. unfold resolveOrInstall. by destruct (dr_resolveSpec _ _ _) as [s|[??[?|]| | | | | | |]]. Qed.

Lemma runs_intro {S E A} (m : action S E A) s (Q : A → S → Prop) (R : E → S → Prop) :
  (∀ a s', m s = (s', Ok a) → Q a s') → (∀ e s', m s = (s', Err e) → R e s') → runs m s Q R.
Proof. unfold runs. destruct (m s) as [s' [a|e]]; auto. Qed.
Lemma runs_elim {S E A} (m : action S E A) s Q R s' r : runs m s Q R → m s = (s', r) →
  match r with Ok a => Q a s' | Err e => R e s' end.
Proof. unfold runs. intros H Hm. rewrite Hm in H. by destruct r. Qed.

(** The target a non-baseline request settles on before the driver is asked. *)
Definition settles_on (request : DeviceRequest) (mode : DeviceMode) (w : World) (target : ResolvedTarget)
    : Prop :=
  match requestedRange request, rq_model request with
  | None, Some model => target = MkTarget (MkExact (rq_platform request) model
      (rq_osVersion request) (Some mode) (rq_imageTag request) (rq_except request)) None None
  | None, None => runs (resolveClass drivers preferences request mode None) w
      (λ t _, t = target) (λ _ _, False)
  | Some range, _ => runs (resolveRanged drivers preferences request mode range) w
      (λ t _, t = target) (λ _ _, False)
  end.

(** A non-baseline request once its target is settled: the driver is asked, and its answer held to
    the request. *)
Definition answered (driver : Driver) (request : DeviceRequest) (download : bool)
    (requesterId : string) (w : World) (r : Resolution) (w' : World) : Prop :=
  let mode := default (defaultMode defaultModes (rq_platform request)) (rq_mode request) in
  ∃ target resolved, settles_on request mode w target
    ∧ resolveOrInstall install driver (rt_exact target) download requesterId w = (w', Ok resolved)
    ∧ checkedSpec resolved request mode = Ok (rn_spec r)
    ∧ rn_requirement r = default (exactRequirement (rn_spec r)) (rt_requirement target)
    ∧ rn_classOf r = rt_classOf target.

Lemma resolveSpec_runs driver request allowDownload requesterId w : rq_baseline request = None →
  let download := allowDownload && (requestedRange request === None) in
  runs (resolves driver request allowDownload requesterId) w
    (answered driver request download requesterId w) (λ _ w', download = false → w' = w).
Proof.
  intros Hb download. unfold resolveSpec. rewrite Hb.
  set (mode := default (defaultMode defaultModes (rq_platform request)) (rq_mode request)).
  apply runs_bind, runs_guard; [intros _|done]. apply runs_bind.
  assert (∀ target, settles_on request mode w target →
    runs (resolved ← resolveOrInstall install driver (rt_exact target) download requesterId;
          spec ← lift (checkedSpec resolved request mode);
          mret (MkResolution spec (default (exactRequirement spec) (rt_requirement target))
            (rt_classOf target))) w
      (answered driver request download requesterId w) (λ _ w', download = false → w' = w)) as Hrest.
  { intros target Ht. pose proof (resolveOrInstall_still driver (rt_exact target) requesterId w) as Hs.
    apply runs_bind, runs_intro; intros x w' Hr; [run_action; [by exists target; eauto 10|]|];
      intros Hd; rewrite Hd in Hr; by rewrite Hr in Hs. }
  destruct (requestedRange request) as [range|] eqn:Hrange.
  - pose proof (resolveRanged_runs request mode range w) as HR.
    apply runs_intro; intros x w' E; pose proof (runs_elim _ _ _ _ _ _ HR E) as HE; cbn in HE;
      [|by rewrite HE]. destruct HE as [-> _]. apply Hrest. unfold settles_on, runs. by rewrite Hrange, E.
  - unfold exactTarget. destruct (rq_model request) as [model|] eqn:Hm; cbn [mbind option_bind].
    + apply runs_ret, Hrest. unfold settles_on. by rewrite Hrange, Hm.
    + pose proof (resolveClass_runs drivers preferences request mode None w) as HR.
      apply runs_intro; intros x w' E; pose proof (runs_elim _ _ _ _ _ _ HR E) as HE; cbn in HE;
        destruct HE as [-> _]; [|done]. apply Hrest. unfold settles_on, runs. by rewrite Hrange, Hm, E.
Qed.

(** A baseline: the answer is the baseline's own spec, and the host is not touched. *)
Lemma resolveBaseline_runs driver name request w :
  runs (resolveBaseline drivers preferences current_baseline driver name request) w
    (λ r w', w' = w ∧ ∃ current entry,
       current_baseline name = Some current ∧ cb_staleReason current = None
       ∧ baselineMismatch (baseline_facts current) request entry = None
       ∧ (rq_except request ≠ None → cb_mode current = slim)
       ∧ rn_spec r = baselineSpec current ∧ rn_requirement r = exactRequirement (baselineSpec current)
       ∧ rn_classOf r = None)
    (λ _ w', w' = w).
Proof.
  unfold resolveBaseline. apply runs_bind, runs_lift; [intros current Hc%of_option_Ok|done].
  apply runs_bind. unfold runs at 1, read_host. destruct (catalog_entry _ _ _ _) as [entry|]; [|done].
  apply runs_bind, runs_lift; [|done]. intros [] Hm. apply runs_bind, runs_lift; [|done]. intros [] Hs.
  destruct (baselineMismatch _ _ _) as [[]|] eqn:E; [done|]. destruct (cb_staleReason current) eqn:Es; [done|].
  destruct (rq_except request) as [except|] eqn:Ee.
  - apply runs_bind, runs_guard; [|done]. intros Hslim. apply runs_bind. unfold runs at 1, read_host.
    destruct (dr_resolveSpec _ _ _); [|done]. apply runs_ret. split; [done|].
    exists current, (default no_catalog entry). repeat split; try done. intros _.
    by apply bool_decide_eq_true in Hslim.
  - split; [done|]. by exists current, (default no_catalog entry).
Qed.

(** Resolving a request never installs anything unless the request may download, names no
    baseline and names no OS range: in every other case the host is as it was and no download is
    reported, whether a spec is found or not. The resolution the warm pool asks for never does. *)
Theorem resolution_installs_only_when_allowed driver request allowDownload requesterId w :
  (allowDownload = false ∨ rq_baseline request ≠ None ∨ requestedRange request ≠ None →
   (resolves driver request allowDownload requesterId w).1 = w)
  ∧ (resolve drivers preferences defaultModes current_baseline install request w).1 = w.
Proof.
  assert (∀ d a i, a = false ∨ rq_baseline request ≠ None ∨ requestedRange request ≠ None →
    (resolves d request a i w).1 = w) as Hw.
  { intros d a i H. destruct (rq_baseline request) as [name|] eqn:Hb.
    - unfold resolveSpec. rewrite Hb. pose proof (resolveBaseline_runs d name request w) as HR.
      unfold runs in HR. destruct (resolveBaseline _ _ _ _ _ _ _) as [w' [r|e]]; [by destruct HR|done].
    - pose proof (resolveSpec_runs d request a i w Hb) as HR.
      assert (a && (requestedRange request === None) = false) as Hd.
      { destruct H as [->|[?|H]]; [done|done|]. by rewrite bool_decide_eq_false_2, andb_false_r. }
      cbn in HR. rewrite Hd in HR. unfold runs in HR.
      destruct (resolves d request a i w) as [w' [r|e]]; [|by apply HR].
      destruct HR as (t & s & _ & Ho & _). cbn.
      pose proof (resolveOrInstall_still d (rt_exact t) i w) as Hs. by rewrite Ho in Hs. }
  split; [apply Hw|]. unfold resolve. destruct (catalog_get _ _) as [d|]; [|done].
  specialize (Hw d false "warm-pool" (or_introl eq_refl)).
  by destruct (resolves d request false "warm-pool" w) as [w' [r|e]].
Qed.

(** The driver was asked for the target, before or after an install. *)
Lemma resolveOrInstall_asked driver ex download requesterId w w' s :
  resolveOrInstall install driver ex download requesterId w = (w', Ok s) →
  dr_resolveSpec driver (w_host w') ex = Ok s.
Proof.
  unfold resolveOrInstall. destruct (dr_resolveSpec driver (w_host w) ex) as [s'|e] eqn:E.
  { intros [= <- <-]. done. }
  destruct e as [p v [component|]| | | | | | |]; try (by intros [=]).
  destruct download; [|by intros [=]]. destruct (install _ _ _ _ _) as [[h reports] [[]|]]; [|by intros [=]].
  by intros [= <- <-].
Qed.

Lemma checkedSpec_fields s request mode spec : checkedSpec s request mode = Ok spec →
  vs_model spec = vs_model s ∧ vs_osVersion spec = vs_osVersion s ∧ vs_platform spec = vs_platform s
  ∧ vs_baseline spec = vs_baseline s ∧ vs_imageTag spec = rq_imageTag request.
Proof.
  unfold checkedSpec. case_bool_decide as Ht; cbn [negb]; [|done]. intros [= <-].
  case_bool_decide; [done|]. unfold fullSpec. by destruct (negb (vs_slim s)).
Qed.

(** C33. The spec a request resolves to is held to the request, whatever the driver answers. A
    request that names no baseline gets what the driver answered for the target the resolver settled
    on, its platform, model, OS version and baseline (which a driver leaves empty) unchanged, but
    exactly the image tag the request named (or none), and a full device when a full lease was asked
    for or is the worker's default. A request that names a baseline gets that baseline's current
    version, not stale, and every platform, OS, mode and image tag it also named is the baseline's. *)
Theorem resolved_spec_honours_request driver request allowDownload requesterId w w' r :
  resolves driver request allowDownload requesterId w = (w', Ok r) →
  match rq_baseline request with
  | None =>
      let mode := default (defaultMode defaultModes (rq_platform request)) (rq_mode request) in
      vs_imageTag (rn_spec r) = rq_imageTag request
      ∧ (mode = full → specMode (VSpec (rn_spec r)) = full)
      ∧ ∃ t s, settles_on request mode w t ∧ dr_resolveSpec driver (w_host w') (rt_exact t) = Ok s
          ∧ vs_platform (rn_spec r) = vs_platform s ∧ vs_model (rn_spec r) = vs_model s
          ∧ vs_osVersion (rn_spec r) = vs_osVersion s ∧ vs_baseline (rn_spec r) = vs_baseline s
  | Some name => ∃ current,
      current_baseline name = Some current ∧ cb_staleReason current = None
      ∧ rn_spec r = baselineSpec current
      ∧ vs_platform (rn_spec r) = rq_platform request
      ∧ (∀ o, rq_osVersion request = Some o → ∃ c, parseOsConstraint o = Ok c
           ∧ satisfies (vs_osVersion (rn_spec r)) c = true)
      ∧ (∀ m, rq_mode request = Some m → specMode (VSpec (rn_spec r)) = m)
      ∧ (∀ t, rq_imageTag request = Some t → vs_imageTag (rn_spec r) = Some t)
  end.
Proof.
  intros E. destruct (rq_baseline request) as [name|] eqn:Hb.
  - unfold resolveSpec in E. rewrite Hb in E.
    pose proof (runs_elim _ _ _ _ _ _ (resolveBaseline_runs driver name request w) E)
      as (-> & current & entry & Hc & Hs & Hm & _ & Hspec & _).
    exists current. split; [done|]. split; [done|]. split; [done|]. rewrite Hspec.
    pose proof (baseline_mismatch_spec (baseline_facts current) request entry) as Hagree.
    cbn zeta in Hagree. rewrite Hm in Hagree. split; [symmetry; apply (Hagree mf_platform)|].
    split; [apply (Hagree mf_osVersion)|]. split; [|apply (Hagree mf_imageTag)].
    intros m Hm'. pose proof (Hagree mf_mode m Hm') as ->. cbn. by destruct (cb_mode current).
  - pose proof (runs_elim _ _ _ _ _ _ (resolveSpec_runs driver request allowDownload requesterId w Hb) E)
      as (t & s & Ht & Ho & Hch & _).
    pose proof (checkedSpec_fields _ _ _ _ Hch) as (Hm & Hv & Hp & Hbl & Htag). split; [done|]. split.
    2:{ exists t, s. apply resolveOrInstall_asked in Ho. by split_and!. }
    unfold checkedSpec in Hch. case_bool_decide; cbn in Hch; [|done]. injection Hch as <-.
    intros ->. rewrite bool_decide_eq_false_2 by done. unfold fullSpec, specMode.
    destruct (vs_slim s) eqn:Hs; cbn; [done|]. by rewrite Hs.
Qed.

(** What a driver's [resolveSpec] is relied on for: it answers the platform and the OS version it
    was asked for, a name its catalog lists means that model, and when it picks the OS version
    itself it picks one its catalog lists. *)
Record DriverContract (driver : Driver (Host := Host)) : Prop := {
  answers_asked h ex s : dr_resolveSpec driver h ex = Ok s →
    vs_platform s = ex_platform ex ∧ vs_baseline s = None
    ∧ ∀ v, ex_osVersion ex = Some v → vs_osVersion s = v;
  answers_listed h h' ex s entry : dr_listCatalog driver h = Ok entry → ex_model ex ∈ ce_models entry →
    dr_resolveSpec driver h' ex = Ok s → vs_model s = ex_model ex;
  answers_installed h ex s entry : dr_listCatalog driver h = Ok entry → ex_osVersion ex = None →
    dr_resolveSpec driver h ex = Ok s → vs_osVersion s ∈ ce_runtimes entry }.

Lemma catalog_entry_driver driver platform h entry : driver_of drivers platform = Some driver →
  catalog_entry drivers preferences platform h = Ok (Some entry) → dr_listCatalog driver h = Ok entry.
Proof.
  intros Hd. unfold catalog_entry, listCatalog, select. rewrite Hd. cbn.
  unfold platform_catalog. destruct (dr_listCatalog driver h); cbn; congruence.
Qed.

Lemma elem_of_classCandidates entry c liked m : m ∈ classCandidates entry c liked →
  m ∈ ce_models entry ∧ modelClass entry m = Some c.
Proof.
  unfold classCandidates, Arr.flatMap. intros (name & Hm & _)%list_elem_of_bind.
  destruct (findCatalogModel entry name) as [m'|] eqn:E; [|by apply elem_of_nil in Hm].
  case_bool_decide; [|by apply elem_of_nil in Hm]. apply list_elem_of_singleton in Hm as ->.
  split; [|done]. unfold findCatalogModel in E. by apply afind_Some in E as [? _].
Qed.

Lemma newest_runtime_spec entry model imageTag osVersion range v :
  (∀ r, r ∈ pairedRuntimes entry model → exact_version r = true) →
  last (sort_by by_version (matchingRuntimes entry model imageTag osVersion (Some range))) = Some v →
  v ∈ pairedRuntimes entry model ∧ satisfies v range = true
  ∧ ∀ r, r ∈ matchingRuntimes entry model imageTag osVersion (Some range) → num_lt0 (compareVersions v r) = false.
Proof.
  intros Hp Hl. apply newest_version in Hl as [Hin Hmax].
  - unfold matchingRuntimes in Hin. apply elem_of_afilter in Hin as [? [? _]%andb_true_iff]. done.
  - intros r [? _]%elem_of_afilter. auto.
Qed.

Lemma settles_on_class request mode w t : rq_model request = None → settles_on request mode w t →
  ∃ entry, catalog_entry drivers preferences (rq_platform request) (w_host w) = Ok (Some entry)
    ∧ class_settled entry (preferences (rq_platform request) (default phone (rq_class request)))
        request mode (requestedRange request) t.
Proof.
  intros Hmodel Ht. unfold settles_on in Ht. destruct (requestedRange request) as [c|].
  - pose proof (resolveRanged_runs request mode c w) as HR. unfold runs in Ht, HR.
    destruct (resolveRanged _ _ _ _ _ _) as [w0 [t0|]]; [subst t0|done].
    destruct HR as [_ [[_ ?]|(m & _ & _ & _ & ? & _)]]; [done|congruence].
  - rewrite Hmodel in Ht. pose proof (resolveClass_runs drivers preferences request mode None w) as HR.
    unfold runs in Ht, HR. destruct (resolveClass _ _ _ _ _ _) as [w0 [t0|]]; [subst t0|done].
    by destruct HR as [_ ?].
Qed.

(** A settled class requirement is met by what a driver answers for the target. *)
Lemma class_requirement_fits entry request spec (classOf := modelClass entry) :
  vs_platform spec = rq_platform request → vs_imageTag spec = rq_imageTag request →
  vs_baseline spec = None → modelClass entry (vs_model spec) = Some (default phone (rq_class request)) →
  satisfiesOs (requiredOs entry request (requestedRange request)) (vs_osVersion spec) = true →
  fits (MkRequirement (rq_platform request) (TargetClass (default phone (rq_class request)))
    (requiredOs entry request (requestedRange request)) (rq_imageTag request) None)
    (fittable (VSpec spec)) classOf = true.
Proof.
  intros Hp Ht Hb Hc Hos. unfold fits, classOf. cbn -[satisfiesOs requiredOs modelClass]. rewrite Hp, Ht, Hb.
  by rewrite !bool_decide_eq_true_2 by done.
Qed.

(** A request that names no model and no baseline resolves to a device of the class it named
    (a phone when it named none): the model is listed by the host's catalog with that class, is the
    first on the class's preference list that pairs with a runtime the request accepts, and with an
    OS range the runtime is one the model pairs with, in the range, and none accepted is newer. A
    device of the resolved spec then fits the requirement the request is planned with, for a
    driver that answers what it is asked. *)
Theorem class_request_resolves_to_class driver request allowDownload requesterId w w' r :
  DriverContract driver → driver_of drivers (rq_platform request) = Some driver →
  rq_baseline request = None → rq_model request = None →
  (w_host w' = w_host w ∨ rq_osVersion request ≠ None) →
  resolves driver request allowDownload requesterId w = (w', Ok r) →
  let class := default phone (rq_class request) in
  let model := vs_model (rn_spec r) in
  let range := requestedRange request in
  ∃ entry, dr_listCatalog driver (w_host w) = Ok entry
    ∧ let accepted m := matchingRuntimes entry m (rq_imageTag request) (rq_osVersion request) range in
      model ∈ ce_models entry ∧ modelClass entry model = Some class
      ∧ (∃ before after, classCandidates entry class (preferences (rq_platform request) class)
           = before ++ model :: after ∧ ∀ m, m ∈ before → accepted m = [])
      ∧ (∀ c, range = Some c → (∀ v, v ∈ pairedRuntimes entry model → exact_version v = true) →
           vs_osVersion (rn_spec r) ∈ pairedRuntimes entry model
           ∧ satisfies (vs_osVersion (rn_spec r)) c = true
           ∧ ∀ v, v ∈ accepted model → num_lt0 (compareVersions (vs_osVersion (rn_spec r)) v) = false)
      ∧ ((∀ v, v ∈ pairedRuntimes entry model → exact_version v = true) →
         fits (rn_requirement r) (fittable (VSpec (rn_spec r))) (default (λ _, None) (rn_classOf r)) = true).
Proof.
  intros [Hasked Hlisted Hinstalled] Hdriver Hb Hmodel Hhost E class model range.
  pose proof (runs_elim _ _ _ _ _ _ (resolveSpec_runs driver request allowDownload requesterId w Hb) E)
    as (t & s & Ht & Ho & Hch & Hreq & Hclass).
  apply settles_on_class in Ht as (entry & Hentry & before & after & Hcand & Hbefore & _ & Hplat & _
    & Htag & _ & Hos & Htreq & Htclass); [|done].
  apply (catalog_entry_driver driver) in Hentry; [|done]. fold class in Hcand, Htreq.
  assert (ex_model (rt_exact t) ∈ ce_models entry ∧ modelClass entry (ex_model (rt_exact t)) = Some class)
    as [Hin Hcl].
  { apply (elem_of_classCandidates _ _ (preferences (rq_platform request) class)).
    rewrite Hcand. apply elem_of_app. right. left. }
  apply resolveOrInstall_asked in Ho. destruct (Hasked _ _ _ Ho) as (Hp & Hbl & Hv).
  pose proof (Hlisted _ _ _ _ _ Hentry Hin Ho) as Hm.
  apply checkedSpec_fields in Hch as (Hrm & Hro & Hrp & Hrb & Hrt). rewrite Hm in Hrm. fold model in Hrm.
  rewrite <- Hrm in Hin, Hcl, Hcand, Hos.
  assert (∀ c, range = Some c → (∀ v, v ∈ pairedRuntimes entry model → exact_version v = true) →
    vs_osVersion (rn_spec r) ∈ pairedRuntimes entry model
    ∧ satisfies (vs_osVersion (rn_spec r)) c = true
    ∧ ∀ v, v ∈ matchingRuntimes entry model (rq_imageTag request) (rq_osVersion request) range →
        num_lt0 (compareVersions (vs_osVersion (rn_spec r)) v) = false) as Hrange.
  { intros c Hc Hver. subst range. rewrite Hc in Hos |- *. destruct Hos as (v & Hexv & Hlast).
    rewrite Hro, (Hv v Hexv). by eapply newest_runtime_spec. }
  exists entry. split; [done|]. cbn zeta. split; [done|]. split; [done|].
  split; [by exists before, after|]. split; [done|]. intros Hver.
  rewrite Hreq, Htreq, Hclass, Htclass. apply class_requirement_fits; [congruence|congruence|congruence|exact Hcl|].
  unfold requiredOs. subst range. destruct (requestedRange request) as [c|]; [by destruct (Hrange c eq_refl Hver) as (_ & ? & _)|].
  rewrite Hro. destruct (rq_osVersion request) as [v|] eqn:Erq; cbn; apply bool_decide_eq_true_2.
  - symmetry. by apply Hv.
  - destruct Hhost as [Hh|]; [|done]. rewrite Hh in Ho. by eapply Hinstalled.
Qed.
End promises.

(** The progress of one install is sent without repeats: two reports sent one after the other
    differ, and nothing is lost but repeats, since the last report sent is the last one made. *)
Theorem progress_sent_without_repeats component reports :
  let sent := send_reports component None reports in
  (∀ i x y, sent !! i = Some x → sent !! S i = Some y → x ≠ y)
  ∧ last sent = downloadingProgress component <$> last reports.
Proof.
  assert (∀ a b, sameDownloadingProgress (downloadingProgress component a) (downloadingProgress component b) = true
    ↔ downloadingProgress component a = downloadingProgress component b) as Hsame.
  { intros [a| |] [b| |]; unfold sameDownloadingProgress; cbn; rewrite andb_true_iff, !bool_decide_eq_true;
      (split; [by intros [??]; congruence|intros [=]; split; congruence]). }
  assert (∀ l p, let sent := send_reports component (Some (downloadingProgress component p)) l in
    (∀ i x y, (downloadingProgress component p :: sent) !! i = Some x →
       (downloadingProgress component p :: sent) !! S i = Some y → x ≠ y)
    ∧ last (downloadingProgress component p :: sent) = downloadingProgress component <$> last (p :: l)) as Hgo.
  { induction l as [|q l IH]; intros p; cbn [send_reports].
    - split; [|done]. by intros [|i] x y Hx Hy.
    - specialize (Hsame p q). destruct (sameDownloadingProgress _ _).
      + destruct (IH p) as [H1 H2]. split; [done|]. destruct Hsame as [Hpq _].
        rewrite H2. rewrite !last_cons. destruct (last l); [done|]. cbn. by rewrite Hpq.
      + destruct (IH q) as [H1 H2]. split.
        * intros [|i] x y; [|apply H1]. intros [= <-] [= <-] Heq. by apply Hsame in Heq.
        * rewrite last_cons, H2, !last_cons. by destruct (last l). }
  destruct reports as [|p l]; [by split; [intros [|?] ?? [=]|]|]. apply (Hgo l p).
Qed.

(** ** A host to resolve on: two phones, and the runtimes that are installed *)

Module Samples.
Definition entry (installed : list string) : DriverCatalogEntry :=
  MkCatalog ["iPhone 16"; "iPhone 17"] installed None
    {[ "iPhone 16" := installed; "iPhone 17" := Arr.filter (λ r, satisfies r
        (RangeOs "" [MkBound (Some [int 26]) None])) installed ]} ∅
    {[ "iPhone 16" := phone; "iPhone 17" := phone ]} None.
Definition answer (installed : list string) (ex : ExactDeviceRequest) : result ResolveError VirtualSpec :=
  let spec v := MkVirtualSpec (ex_platform ex) (ex_model ex) v (ex_mode ex === Some slim) (ex_imageTag ex) None in
  match ex_osVersion ex with
  | Some v => if Arr.includes v installed then Ok (spec v) else Err (RuntimeMissing ios v (Some v))
  | None => match last installed with Some v => Ok (spec v) | None => Err (RuntimeMissing ios "default" None) end
  end.
Definition driver : Driver (Host := list string) :=
  MkDriver ios (λ h, Ok (entry h)) answer (λ _ _, 1000%Z) (λ _, Err (OtherError "unreadable")).
Definition liked (_ : Platform) (c : DeviceClass) : list string :=
  if c === phone then ["iphone 17"; "iPhone 16"] else [].
Definition install (h : list string) (_ : Platform) (component _ : string) (needed : list string → bool)
    : list string * list ComponentInstallerProgress * result ResolveError unit :=
  if needed h then (h ++ [component], [InstallWaiting; InstallStarted; InstallPercent (21 # 2);
    InstallPercent (43 # 4)], Ok tt) else (h, [], Ok tt).
Definition baseline : CurrentBaseline :=
  MkCurrent None slim "iPhone 16" "ready" "18.4" ios "source-1" None 3.
Definition baselines (name : string) : option CurrentBaseline := if name === "ready" then Some baseline else None.
Definition ask (osVersion baseline : option string) (mode : option DeviceMode) : DeviceRequest :=
  MkRequest ios None osVersion mode None None baseline None None.
Definition run (request : DeviceRequest) (download : bool) (installed : list string) :=
  resolveSpec [driver] liked (λ _, Some slim) baselines install driver request download "me"
    (MkWorld installed []).

Lemma contract : DriverContract driver.
Proof.
  split; cbn; unfold answer; intros.
  - destruct (ex_osVersion ex) as [v|]; [destruct (Arr.includes _ _)|destruct (last _)]; simplify_eq; cbn;
      (split; [done|split; [done|]]); intros; by simplify_eq.
  - destruct (ex_osVersion ex) as [v|]; [destruct (Arr.includes _ _)|destruct (last _)]; by simplify_eq.
  - destruct (ex_osVersion ex) as [v|]; [done|]. destruct (last h) as [v|] eqn:E; simplify_eq; cbn.
    by apply last_Some in E as [l ->]; apply elem_of_app; right; left.
Qed.
End Samples.

Definition requested_range : DeviceRequest := Samples.ask (Some ">=18 <27") None (Some full).
Definition resolved_range : Resolution :=
  MkResolution (MkVirtualSpec ios "iPhone 17" "26.10" false None None)
    (MkRequirement ios (TargetClass phone) (RequiredOs (RangeOs ">=18 <27"
      [MkBound (Some [int 18]) None; MkBound None (Some [int 27])])) None None)
    (Some (modelClass (Samples.entry ["18.4"; "26.10"; "26.9"]))).

Lemma class_request_resolves_to_class_witness :
  vs_osVersion (rn_spec resolved_range) = "26.10"
  ∧ fits (rn_requirement resolved_range) (fittable (VSpec (rn_spec resolved_range)))
      (default (λ _, None) (rn_classOf resolved_range)) = true.
Proof.
  split; [done|].
  destruct (class_request_resolves_to_class [Samples.driver] Samples.liked (λ _, Some slim)
    Samples.baselines Samples.install Samples.driver requested_range true "me"
    (MkWorld ["18.4"; "26.10"; "26.9"] []) (MkWorld ["18.4"; "26.10"; "26.9"] []) resolved_range)
    as (entry & Hentry & _ & _ & _ & _ & Hfits).
  - exact Samples.contract.
  - reflexivity.
  - reflexivity.
  - reflexivity.
  - by left.
  - vm_compute. reflexivity.
  - injection Hentry as <-. apply Hfits. apply aevery_true. vm_compute. reflexivity.
Defined.

Lemma resolved_spec_honours_request_witness :
  specMode (VSpec (rn_spec resolved_range)) = full ∧ vs_imageTag (rn_spec resolved_range) = None.
Proof.
  pose proof (resolved_spec_honours_request [Samples.driver] Samples.liked (λ _, Some slim)
    Samples.baselines Samples.install Samples.driver requested_range true "me"
    (MkWorld ["18.4"; "26.10"; "26.9"] []) (MkWorld ["18.4"; "26.10"; "26.9"] []) resolved_range) as H.
  destruct H as (Htag & Hmode & _); [vm_compute; reflexivity|]. split; [by apply Hmode|exact Htag].
Defined.

Lemma resolution_installs_only_when_allowed_witness :
  (Samples.run requested_range true ["18.4"]).1 = MkWorld ["18.4"] [].
Proof.
  apply (resolution_installs_only_when_allowed [Samples.driver] Samples.liked (λ _, Some slim)
    Samples.baselines Samples.install Samples.driver requested_range true "me").
  right; right. by vm_compute.
Defined.

(** The resolver at work: an install is reported once per whole per cent, a baseline stands for its
    version, and a class with no paired runtime cannot be downloaded. *)
Example resolution_samples :
  (Samples.run (MkRequest ios (Some "iPhone 16") (Some "26.5") None None None None None None) true ["18.4"])
    = (MkWorld ["18.4"; "26.5"] [MkDownloading "26.5" true None; MkDownloading "26.5" false None;
         MkDownloading "26.5" false (Some 10%Z)],
       Ok (MkResolution (MkVirtualSpec ios "iPhone 16" "26.5" true None None)
             (exactRequirement (MkVirtualSpec ios "iPhone 16" "26.5" true None None)) None))
  ∧ rn_spec <$> (Samples.run (Samples.ask None (Some "ready") None) false ["18.4"]).2
    = Ok (MkVirtualSpec ios "iPhone 16" "18.4" true None (Some (MkBaseline "ready" 3)))
  ∧ rn_spec <$> (Samples.run (Samples.ask (Some "17") None None) true ["18.4"]).2
    = Err (RuntimeMissing ios "17" None)
  ∧ rn_spec <$> (Samples.run (Samples.ask None (Some "ready") (Some full)) false ["18.4"]).2
    = Err (BaselineMismatchError "ready" mf_mode "baseline ready is slim, the request asks for full").
Proof. vm_compute. repeat split; reflexivity. Qed.
