(* ===== verification/RequestStore.v ===== *)
(** * Stored lease requests: [src/core/lease-request-store.ts]

    Retention, the record cap and settlement of stored lease requests. The daemon's registry and
    the gateway's in-memory store both go through these functions. [LeaseRequestStore] is the
    interface the request book is written against, with the laws both stores satisfy. *)
From stdpp Require Import base strings list option numbers.
From S2P Require Import Prelude JsString OsRange Domain.

(** ** Definitions *)

Record LeaseRequestLimits := MkLimits { retentionMs : Z; maxRecords : Z }.

Record NewLeaseRequest := MkNewRequest {
  n_id : option string;
  n_requesterId : string;
  n_ownerId : string;
  n_idempotencyKey : option string;
  n_leaseId : option string;
  n_fleetRequestId : option string;
  n_request : DeviceRequest }.

Inductive LeaseRequestOutcome (Grant : Type) :=
| OutcomeGranted (grant : Grant)
| OutcomeFailed (failure : LeaseRequestFailure)
| OutcomeCancelled.
Arguments OutcomeGranted {Grant}.
Arguments OutcomeFailed {Grant}.
Arguments OutcomeCancelled {Grant}.

(** An id from the generator, with the prefix of its kind. *)
Definition newLeaseRequestId (generated : string) : string := "req_" +:+ generated.

Section store.
Context {Grant : Type}.
Implicit Types (r : LeaseRequestRecord Grant) (rs : list (LeaseRequestRecord Grant)).

Definition retained (now retention : Z) r : bool :=
  negb (isSettled r) || (now <? default now (q_settledAt r) + retention)%Z.
Definition retainedLeaseRequests rs (now retention : Z) : list (LeaseRequestRecord Grant) :=
  Arr.filter (retained now retention) rs.

(** The loop of [withNewLeaseRequest]: while the list is at the cap, the oldest settled record
    goes. Each pass removes one record, so [length kept] passes are enough. *)
Fixpoint evict_settled (fuel : nat) (cap : Z) kept : list (LeaseRequestRecord Grant) :=
  match fuel with
  | 0 => kept
  | S fuel =>
      if (cap <=? Z.of_nat (length kept))%Z then
        match Arr.findIndex isSettled kept with
        | None => kept
        | Some oldestSettled => evict_settled fuel cap (Arr.removeAt oldestSettled kept)
        end
      else kept
  end.

Definition withNewLeaseRequest rs r (now : Z) (limits : LeaseRequestLimits)
    : list (LeaseRequestRecord Grant) :=
  let kept := retainedLeaseRequests rs now (retentionMs limits) in
  evict_settled (length kept) (maxRecords limits) kept ++ [r].

Definition outcome_state (o : LeaseRequestOutcome Grant) : LeaseRequestState :=
  match o with
  | OutcomeGranted _ => granted
  | OutcomeFailed _ => failed
  | OutcomeCancelled => cancelled
  end.
(** [{ ...open, ...outcome }]. *)
Definition with_outcome r (o : LeaseRequestOutcome Grant) : LeaseRequestRecord Grant :=
  match o with
  | OutcomeGranted g => r <| q_state := granted |> <| q_grant := Some g |>
  | OutcomeFailed f => r <| q_state := failed |> <| q_failure := Some f |>
  | OutcomeCancelled => r <| q_state := cancelled |>
  end.

Definition withSettledLeaseRequest rs (rid : string) (o : LeaseRequestOutcome Grant) (now : Z)
    : list (LeaseRequestRecord Grant) * option (LeaseRequestRecord Grant) :=
  match Arr.findIndex (λ r, q_id r === rid) rs with
  | None => (rs, None)
  | Some index =>
      match rs !! index with
      | None => (rs, None)
      | Some found =>
          if isSettled found then (rs, None) else
          let settled := (with_outcome found o) <| q_settledAt := Some now |> in
          (<[index := settled]> rs, Some settled)
      end
  end.

Definition newLeaseRequestRecord (rid : string) (input : NewLeaseRequest) (now : Z)
    : LeaseRequestRecord Grant :=
  MkRequestRecord rid (n_requesterId input) (n_ownerId input) (n_idempotencyKey input)
    (n_leaseId input) (n_fleetRequestId input) (n_request input) now open None None None.

(** ** Lemmas *)

Lemma elem_of_retained r rs now retention :
  r ∈ retainedLeaseRequests rs now retention ↔ r ∈ rs ∧ retained now retention r = true.
Proof. apply elem_of_afilter. Qed.

Lemma open_retained r rs now retention :
  r ∈ rs → isSettled r = false → r ∈ retainedLeaseRequests rs now retention.
Proof. intros Hr Ho. apply elem_of_retained. split; [done|]. unfold retained. by rewrite Ho. Qed.

Lemma removeAt_settled rs i r : rs !! i = Some r →
  Arr.removeAt i rs ⊆+ rs ∧ sublist (Arr.removeAt i rs) rs
  ∧ S (length (Arr.removeAt i rs)) = length rs
  ∧ ∀ x, x ∈ rs → x = r ∨ x ∈ Arr.removeAt i rs.
Proof.
  intros Hi. unfold Arr.removeAt. pose proof (lookup_lt_Some _ _ _ Hi).
  split_and!; [apply submseteq_delete|apply sublist_delete|rewrite length_delete by eauto; lia|].
  intros x Hx. pose proof (delete_Permutation rs i r Hi) as Hp. rewrite Hp in Hx.
  by apply elem_of_cons in Hx.
Qed.

(** What is left after the loop: an order-preserving part of the list that keeps every open
    record, under the cap or with nothing but open records. *)
Lemma evict_settled_spec fuel cap rs : length rs ≤ fuel →
  let kept := evict_settled fuel cap rs in
  sublist kept rs
  ∧ (∀ r, r ∈ rs → isSettled r = false → r ∈ kept)
  ∧ ((Z.of_nat (length kept) < cap)%Z ∨ ∀ r, r ∈ kept → isSettled r = false).
Proof.
  revert rs. induction fuel as [|fuel IH]; intros rs Hlen; cbn.
  { split_and!; [done..|]. right. intros r Hr.
    destruct rs; [by apply elem_of_nil in Hr|cbn in Hlen; lia]. }
  destruct (Z.leb_spec cap (Z.of_nat (length rs))) as [Hcap|Hcap].
  2:{ split_and!; [done..|]. by left. }
  destruct (Arr.findIndex isSettled rs) as [i|] eqn:Ei.
  2:{ split_and!; [done..|]. right. by apply afindIndex_None. }
  apply afindIndex_Some in Ei as (s & Hi & Hs & _).
  destruct (removeAt_settled rs i s Hi) as (_ & Hsub & Hl & Hin).
  destruct (IH (Arr.removeAt i rs) ltac:(lia)) as (IH1 & IH2 & IH3).
  split_and!; [by etrans| |done].
  intros r Hr Ho. apply IH2; [|done]. destruct (Hin r Hr) as [->|]; [congruence|done].
Qed.

Lemma withNew_sublist rs r now limits :
  ∃ kept, withNewLeaseRequest rs r now limits = kept ++ [r] ∧ sublist kept rs.
Proof.
  eexists. split; [done|].
  etrans; [by apply evict_settled_spec|]. apply sublist_filter_b.
Qed.

Lemma with_outcome_settled r o now :
  isSettled ((with_outcome r o) <| q_settledAt := Some now |>) = true.
Proof. by destruct o. Qed.
Lemma with_outcome_id r o now : q_id ((with_outcome r o) <| q_settledAt := Some now |>) = q_id r.
Proof. by destruct o. Qed.

(** Settling finds the first record of that id, and writes it only while it is open. *)
Lemma withSettled_cases rs rid o now :
  (∃ i r, rs !! i = Some r ∧ q_id r = rid ∧ isSettled r = false
     ∧ (∀ j x, rs !! j = Some x → j < i → q_id x ≠ rid)
     ∧ let r' := (with_outcome r o) <| q_settledAt := Some now |> in
       withSettledLeaseRequest rs rid o now = (<[i := r']> rs, Some r'))
  ∨ ((∀ i r, rs !! i = Some r → q_id r = rid →
        (∀ j x, rs !! j = Some x → j < i → q_id x ≠ rid) → isSettled r = true)
     ∧ withSettledLeaseRequest rs rid o now = (rs, None)).
Proof.
  unfold withSettledLeaseRequest.
  destruct (Arr.findIndex _ rs) as [i|] eqn:Ei.
  - apply afindIndex_Some in Ei as (r & Hi & Hr%bool_decide_eq_true & Hlt). rewrite Hi.
    assert (∀ j x, rs !! j = Some x → j < i → q_id x ≠ rid) as Hlt'.
    { intros j x Hj Hji Hx. specialize (Hlt j x Hj Hji).
      by rewrite (bool_decide_eq_true_2 _ Hx) in Hlt. }
    destruct (isSettled r) eqn:Es.
    + right. split; [|done]. intros k x Hk Hx Hf.
      assert (k = i) as ->; [|by simplify_eq].
      destruct (Nat.lt_trichotomy k i) as [H|[H|H]]; [by destruct (Hlt' k x Hk H)|done|].
      by destruct (Hf i r Hi H).
    + left. exists i, r. split_and!; done.
  - right. split; [|done]. intros i r Hi Hr. rewrite afindIndex_None in Ei.
    specialize (Ei r (list_elem_of_lookup_2 _ _ _ Hi)).
    by rewrite (bool_decide_eq_true_2 _ Hr) in Ei.
Qed.

(** Settling moves no record and no id. *)
Lemma withSettled_ids rs rid o now : q_id <$> (withSettledLeaseRequest rs rid o now).1 = q_id <$> rs.
Proof.
  destruct (withSettled_cases rs rid o now) as [(i & r & Hi & _ & _ & _ & ->)|[_ ->]]; [|done].
  cbn [fst]. rewrite list_fmap_insert, with_outcome_id. apply list_insert_id.
  by rewrite list_lookup_fmap, Hi.
Qed.
End store.

(** ** The store interface *)

(** What a record is besides its result: only a grant is refreshed when a record is read. *)
Definition same_request {G} (x y : LeaseRequestRecord G) : Prop :=
  x <| q_grant := None |> = y <| q_grant := None |> ∧ (q_grant x = None ↔ q_grant y = None).

Class LeaseRequestStore (S G : Type) := {
  store_leaseRequests : Z → S → list (LeaseRequestRecord G);
  store_createLeaseRequest : Z → string → NewLeaseRequest → S → S * LeaseRequestRecord G;
  store_settleLeaseRequest : Z → string → LeaseRequestOutcome G → S → S * option (LeaseRequestRecord G) }.

(** The stored list behind a store, and what each operation does to it: a read shows the retained
    records with their grants refreshed; a new record comes last, after retained records among
    which every open one is; a settlement is [withSettledLeaseRequest], and may also drop settled
    records. *)
Class LeaseRequestStoreLaws S G `{LeaseRequestStore S G} := {
  store_records : S → list (LeaseRequestRecord G);
  store_retention : Z;
  law_leaseRequests now s : ∃ refresh, (∀ x, same_request (refresh x) x)
    ∧ store_leaseRequests now s = refresh <$> retainedLeaseRequests (store_records s) now store_retention;
  law_create now g input s :
    let '(s', r) := store_createLeaseRequest now g input s in
    r = newLeaseRequestRecord (default (newLeaseRequestId g) (n_id input)) input now
    ∧ ∃ kept, store_records s' = kept ++ [r] ∧ sublist kept (store_records s)
      ∧ (∀ x, x ∈ kept → retained now store_retention x = true)
      ∧ ∀ x, x ∈ store_records s → isSettled x = false → x ∈ kept;
  law_settle now i o s :
    let rs := (withSettledLeaseRequest (store_records s) i o now).1 in
    let rs' := store_records (store_settleLeaseRequest now i o s).1 in
    sublist rs' rs ∧ ∀ x, x ∈ rs → isSettled x = false → x ∈ rs' }.

(** What [withNewLeaseRequest] gives a store that uses it. *)
Lemma withNew_law {G} (rs : list (LeaseRequestRecord G)) r now limits :
  ∃ kept, withNewLeaseRequest rs r now limits = kept ++ [r] ∧ sublist kept rs
    ∧ (∀ x, x ∈ kept → retained now (retentionMs limits) x = true)
    ∧ ∀ x, x ∈ rs → isSettled x = false → x ∈ kept.
Proof.
  set (live := retainedLeaseRequests rs now (retentionMs limits)).
  destruct (evict_settled_spec (length live) (maxRecords limits) live ltac:(lia)) as (Hsub & Hopen & _).
  eexists. split; [done|]. split_and!.
  - etrans; [done|]. apply sublist_filter_b.
  - intros x Hx. assert (x ∈ live) as [_ Hr]%elem_of_retained by (by eapply sublist_elem_of). done.
  - intros x Hx Ho. apply Hopen; [by apply open_retained|done].
Qed.

(** ** Properties *)

(** Admitting a request bounds the store without losing anything that is still driven: the
    new record comes last, everything before it is an order-preserving part of what was stored,
    every open record is still there, no expired one is, and either the list was brought below the
    cap or nothing but open records is left. *)
Theorem new_request_bounded {G} (rs : list (LeaseRequestRecord G)) r now limits :
  let rs' := withNewLeaseRequest rs r now limits in
  ∃ kept, rs' = kept ++ [r] ∧ sublist kept rs
    ∧ (∀ x, x ∈ rs → isSettled x = false → x ∈ kept)
    ∧ (∀ x, x ∈ kept → isSettled x = true →
         (now < default now (q_settledAt x) + retentionMs limits)%Z)
    ∧ ((Z.of_nat (length rs') ≤ maxRecords limits)%Z ∨ ∀ x, x ∈ kept → isSettled x = false).
Proof.
  intros rs'. set (live := retainedLeaseRequests rs now (retentionMs limits)).
  destruct (evict_settled_spec (length live) (maxRecords limits) live ltac:(lia))
    as (Hsub & Hopen & Hcap).
  eexists. split; [done|]. split_and!.
  - etrans; [done|]. apply sublist_filter_b.
  - intros x Hx Ho. apply Hopen; [by apply open_retained|done].
  - intros x Hx Hs.
    assert (x ∈ live) as [_ Hr]%elem_of_retained by (by eapply sublist_elem_of).
    unfold retained in Hr. rewrite Hs in Hr. cbn in Hr. lia.
  - destruct Hcap as [Hlt|Hall]; [left|by right]. unfold rs', withNewLeaseRequest.
    fold live. rewrite length_app. cbn. lia.
Qed.

(** A result is written once. Settling an open request changes that record and no other, gives
    it the outcome's state and the moment, and any later settle of it, with any outcome, finds it
    settled: it writes nothing and answers nothing. Settling an unknown or settled id changes
    nothing. *)
Theorem settle_once {G} (rs : list (LeaseRequestRecord G)) rid o now :
  let '(rs', settled) := withSettledLeaseRequest rs rid o now in
  match settled with
  | None => rs' = rs
  | Some r' =>
      (∃ i r, rs !! i = Some r ∧ q_id r = rid ∧ isSettled r = false
         ∧ rs' !! i = Some r' ∧ q_state r' = outcome_state o ∧ q_settledAt r' = Some now
         ∧ ∀ j, j ≠ i → rs' !! j = rs !! j)
      ∧ ∀ o' now', withSettledLeaseRequest rs' rid o' now' = (rs', None)
  end.
Proof.
  destruct (withSettled_cases rs rid o now) as [(i & r & Hi & Hr & Ho & Hlt & ->)|[_ ->]]; [|done].
  set (r' := (with_outcome r o) <| q_settledAt := Some now |>).
  pose proof (lookup_lt_Some _ _ _ Hi) as Hlen.
  assert (<[i := r']> rs !! i = Some r') as Hi' by (by apply list_lookup_insert_eq).
  split.
  - exists i, r. split_and!; [done..| | |].
    + by destruct o.
    + done.
    + intros j Hj. by apply list_lookup_insert_ne.
  - intros o' now'.
    destruct (withSettled_cases (<[i := r']> rs) rid o' now')
      as [(k & x & Hk & Hx & Hopen & Hmin & _)|[_ ->]]; [|done].
    exfalso. destruct (decide (k = i)) as [->|Hne].
    + simplify_eq. by destruct o.
    + rewrite list_lookup_insert_ne in Hk by done.
      assert (¬ k < i) by (intros Hki; by destruct (Hlt k x Hk Hki)).
      destruct (Hmin i r' Hi' ltac:(lia)). unfold r'. by rewrite with_outcome_id.
Qed.
