(* ===== verification/Capacity.v ===== *)
(** * Capacity: [src/core/capacity/]

    How many devices may exist and run at once. [CapacityStrategy] is the interface every strategy
    implements ([strategy.ts]); [FixedCapacity] and [ResourceCapacity] are the two strategies; the
    coordinator ([coordinator.ts]) keeps the reservations around a strategy, and its theorems are
    proved against the interface and its laws. *)
From stdpp Require Import base strings list option numbers sets.
From S2P Require Import Prelude JsString OsRange Domain.

(** ** Strategy: [strategy.ts], [limits.ts], [devices.ts] *)

Record PlannedCapacityDevice := MkPlanned { pc_platform : Platform; pc_mode : DeviceMode }.

(** The states a capacity device is in: a registry state, or [booting] for one whose boot is
    reserved. *)
Inductive CapacityState := CState (s : DeviceState) | booting.
#[global] Instance CapacityState_eq_dec : EqDecision CapacityState.
Proof. solve_decision. Defined.

Record CapacityDevice := MkCapacity {
  c_platform : Platform;
  c_mode : DeviceMode;
  c_state : CapacityState;
  c_id : option string }.
#[export] Instance CapacityDevice_eta : Eta CapacityDevice := λ r,
  MkCapacity (c_platform r) (c_mode r) (c_state r) (c_id r).

Record RamBudget := MkRamBudget { limitBytes : Z; usedBytes : Z; ram_overLimit : bool }.

Inductive CapacityRefusalReason :=
| device_limit | ram_budget | memory_pressure | global_running_limit | platform_running_limit.
#[global] Instance CapacityRefusalReason_eq_dec : EqDecision CapacityRefusalReason.
Proof. solve_decision. Defined.

Definition CapacityDecision := result CapacityRefusalReason unit.

Record RunningCapacityEntry := MkEntry {
  running : Z; maxRunning : Z; reserved : Z; overLimit : bool }.
Record RunningCapacity := MkRunning {
  rc_global : RunningCapacityEntry; rc_ios : RunningCapacityEntry; rc_android : RunningCapacityEntry }.
Definition rc_platform (c : RunningCapacity) (p : Platform) : RunningCapacityEntry :=
  match p with ios => rc_ios c | android => rc_android c end.

Record PlatformLimits := MkPlatformLimits { pl_maxDevices : Z; pl_maxRunning : Z }.
Record CapacityLimits := MkCapacityLimits {
  cl_maxRunning : Z; cl_ios : PlatformLimits; cl_android : PlatformLimits }.
Definition cl_platform (l : CapacityLimits) (p : Platform) : PlatformLimits :=
  match p with ios => cl_ios l | android => cl_android l end.

Definition RUNNING_STATES (s : CapacityState) : bool :=
  match s with
  | CState (ready | leased | reclaiming | quarantined) => true
  | _ => false
  end.

Definition count {A} (f : A → bool) (l : list A) : Z := Z.of_nat (length (Arr.filter f l)).

Definition on_platform (platform : option Platform) (p : Platform) : bool :=
  match platform with None => true | Some q => p === q end.

Definition running_entry (devices : list CapacityDevice) (reservations : list Platform)
    (limits : CapacityLimits) (platform : option Platform) : RunningCapacityEntry :=
  let running := count (λ d, RUNNING_STATES (c_state d) && on_platform platform (c_platform d))
    devices in
  let reserved := count (on_platform platform) reservations in
  let max := match platform with
             | None => cl_maxRunning limits
             | Some p => pl_maxRunning (cl_platform limits p)
             end in
  MkEntry running max reserved (max <? running + reserved)%Z.

Definition limits_runningCapacity (devices : list CapacityDevice) (reservations : list Platform)
    (limits : CapacityLimits) : RunningCapacity :=
  MkRunning (running_entry devices reservations limits None)
    (running_entry devices reservations limits (Some ios))
    (running_entry devices reservations limits (Some android)).

Definition at_limit (e : RunningCapacityEntry) : bool :=
  (maxRunning e <=? running e + reserved e)%Z.
Definition limits_canReserveRunning (platform : Platform) (devices : list CapacityDevice)
    (reservations : list Platform) (limits : CapacityLimits) : CapacityDecision :=
  let capacity := limits_runningCapacity devices reservations limits in
  if at_limit (rc_global capacity) then Err global_running_limit
  else if at_limit (rc_platform capacity platform) then Err platform_running_limit
  else Ok tt.

Definition activeDevices (devices : list CapacityDevice) : list CapacityDevice :=
  Arr.filter (λ d, c_state d !== CState deleted) devices.

Definition withinDeviceLimit (platform : Platform) (devices : list CapacityDevice)
    (limits : CapacityLimits) : bool :=
  (count (λ d, c_platform d === platform) (activeDevices devices)
    <? pl_maxDevices (cl_platform limits platform))%Z.

Definition capacityDevice (record : VirtualDevice) : CapacityDevice :=
  MkCapacity (vs_platform (v_spec record))
    (if v_state record === provisioning then full else v_mode record)
    (CState (v_state record)) (Some (id (v_fields record))).
Definition capacityDevices (records : list VirtualDevice) : list CapacityDevice :=
  capacityDevice <$> records.
Definition plannedCapacityDevice (spec : VirtualSpec) : PlannedCapacityDevice :=
  MkPlanned (vs_platform spec) full.

(** The interface of a strategy: pure decisions over a snapshot and the reservations handed in. *)
Class CapacityStrategy (S : Type) := {
  canProvision : S → PlannedCapacityDevice → list CapacityDevice → CapacityDecision;
  canBoot : S → CapacityDevice → list CapacityDevice → CapacityDecision;
  canReserveRunning : S → Platform → list CapacityDevice → list Platform → CapacityDecision;
  runningCapacity : S → list CapacityDevice → list Platform → RunningCapacity;
  deviceLimit : S → Platform → Z;
  ramBudget : S → list CapacityDevice → option RamBudget
}.

(** What a strategy promises: its running decisions and figures are those of one set of limits, a
    device it lets be created is within its device ceiling, and it never answers
    [memory-pressure], which is the coordinator's own refusal. *)
Class CapacityStrategyLaws (S : Type) `{CapacityStrategy S} := {
  strategy_limits : S → CapacityLimits;
  strategy_running s devices reservations :
    runningCapacity s devices reservations
    = limits_runningCapacity devices reservations (strategy_limits s);
  strategy_reserve s p devices reservations :
    canReserveRunning s p devices reservations
    = limits_canReserveRunning p devices reservations (strategy_limits s);
  strategy_ceiling s d devices : canProvision s d devices = Ok tt →
    (count (λ x, c_platform x === pc_platform d) (activeDevices devices)
      < deviceLimit s (pc_platform d))%Z;
  strategy_no_pressure s d devices : canProvision s d devices ≠ Err memory_pressure
}.

(** ** The fixed strategy: [strategies/fixed/index.ts] *)

Record FixedPlatformOptions := MkFixedPlatform {
  fo_maxDevices : option Z; fo_maxRunning : option Z }.
Record FixedStrategyOptions := MkFixedOptions {
  fx_maxRunning : Z;
  fx_ios : option FixedPlatformOptions;
  fx_android : option FixedPlatformOptions }.

Definition resolve_platform (options : FixedStrategyOptions)
    (overrides : option FixedPlatformOptions) : PlatformLimits :=
  let maxRunning := default (fx_maxRunning options) (overrides ≫= fo_maxRunning) in
  MkPlatformLimits (default maxRunning (overrides ≫= fo_maxDevices)) maxRunning.
Definition resolveLimits (options : FixedStrategyOptions) : CapacityLimits :=
  MkCapacityLimits (fx_maxRunning options) (resolve_platform options (fx_ios options))
    (resolve_platform options (fx_android options)).

Record FixedCapacity := MkFixed { fixed_limits : CapacityLimits }.
Definition fixed_create (options : FixedStrategyOptions) : FixedCapacity :=
  MkFixed (resolveLimits options).
Definition fixed_defaults : FixedStrategyOptions := MkFixedOptions 2 None None.

#[global] Instance FixedCapacityStrategy : CapacityStrategy FixedCapacity := {
  canProvision s d devices :=
    if withinDeviceLimit (pc_platform d) devices (fixed_limits s) then Ok tt else Err device_limit;
  canBoot _ _ _ := Ok tt;
  canReserveRunning s p devices reservations :=
    limits_canReserveRunning p devices reservations (fixed_limits s);
  runningCapacity s devices reservations :=
    limits_runningCapacity devices reservations (fixed_limits s);
  deviceLimit s p := pl_maxDevices (cl_platform (fixed_limits s) p);
  ramBudget _ _ := None
}.

(** ** The resource strategy: [strategies/resource/index.ts] *)

Definition GIBIBYTE : Z := 1024 ^ 3.
Definition OS_RAM_RESERVE_BYTES : Z := 4 * GIBIBYTE.

Record RamBudgetOptions := MkRamOptions {
  iosBytesPerDevice : Z;
  iosSlimBytesPerDevice : option Z;
  androidBytesPerDevice : Z;
  androidSlimBytesPerDevice : option Z }.
Record ResourceStrategyOptions := MkResourceOptions {
  ro_limits : CapacityLimits; ro_ramBudget : RamBudgetOptions }.
(** The machine, as [SystemStats] reports it. *)
Record SystemStats := MkStats { cpuCount : Z; totalRamBytes : Z }.
Record ResourceCapacity := MkResource {
  resource_options : ResourceStrategyOptions; resource_stats : SystemStats }.

Section resource.
Context (s : ResourceCapacity).
Definition resource_limitBytes : Z := totalRamBytes (resource_stats s) - OS_RAM_RESERVE_BYTES.
Definition bytesPerDevice (d : PlannedCapacityDevice) : Z :=
  let budget := ro_ramBudget (resource_options s) in
  let whole := match pc_platform d with
               | ios => iosBytesPerDevice budget
               | android => androidBytesPerDevice budget
               end in
  match pc_mode d with
  | full => whole
  | slim => default whole
      match pc_platform d with
      | ios => iosSlimBytesPerDevice budget
      | android => androidSlimBytesPerDevice budget
      end
  end.
Definition planned_of (d : CapacityDevice) : PlannedCapacityDevice :=
  MkPlanned (c_platform d) (c_mode d).
Definition resource_usedBytes (devices : list CapacityDevice) : Z :=
  foldl (λ total d, total + bytesPerDevice (planned_of d))%Z 0%Z
    (Arr.filter (λ d, c_state d !== CState shutdown) (activeDevices devices)).
Definition resource_canProvision (d : PlannedCapacityDevice) (devices : list CapacityDevice)
    : CapacityDecision :=
  if negb (withinDeviceLimit (pc_platform d) devices (ro_limits (resource_options s)))
  then Err device_limit
  else if (resource_limitBytes <? resource_usedBytes devices + bytesPerDevice d)%Z
  then Err ram_budget
  else Ok tt.
Definition boot_extra (d : CapacityDevice) : Z :=
  let fullBytes := bytesPerDevice (MkPlanned (c_platform d) full) in
  if c_state d === CState shutdown then fullBytes
  else (fullBytes - bytesPerDevice (planned_of d))%Z.
Definition resource_canBoot (d : CapacityDevice) (devices : list CapacityDevice)
    : CapacityDecision :=
  let extraBytes := boot_extra d in
  if (extraBytes <=? 0)%Z then Ok tt
  else if (resource_limitBytes <? resource_usedBytes devices + extraBytes)%Z
  then Err ram_budget
  else Ok tt.
Definition resource_ramBudget (devices : list CapacityDevice) : RamBudget :=
  let used := resource_usedBytes devices in
  MkRamBudget resource_limitBytes used (resource_limitBytes <? used)%Z.
End resource.

#[global] Instance ResourceCapacityStrategy : CapacityStrategy ResourceCapacity := {
  canProvision := resource_canProvision;
  canBoot := resource_canBoot;
  canReserveRunning s p devices reservations :=
    limits_canReserveRunning p devices reservations (ro_limits (resource_options s));
  runningCapacity s devices reservations :=
    limits_runningCapacity devices reservations (ro_limits (resource_options s));
  deviceLimit s p := pl_maxDevices (cl_platform (ro_limits (resource_options s)) p);
  ramBudget s devices := Some (resource_ramBudget s devices)
}.

Definition resource_defaults (stats : SystemStats) : ResourceStrategyOptions :=
  let iosMaxDevices := Z.max 1 (cpuCount stats / 2) in
  let androidMaxDevices :=
    Z.max 1 (Z.min (cpuCount stats / 4) (totalRamBytes stats / (GIBIBYTE * 8))) in
  MkResourceOptions
    (MkCapacityLimits (iosMaxDevices + androidMaxDevices)
       (MkPlatformLimits iosMaxDevices iosMaxDevices)
       (MkPlatformLimits androidMaxDevices androidMaxDevices))
    (MkRamOptions (3 * GIBIBYTE / 2) None (4 * GIBIBYTE) None).

Lemma withinDeviceLimit_true p devices limits : withinDeviceLimit p devices limits = true →
  (count (λ d, c_platform d === p) (activeDevices devices) < pl_maxDevices (cl_platform limits p))%Z.
Proof. unfold withinDeviceLimit. lia. Qed.

#[global] Instance FixedCapacityLaws : CapacityStrategyLaws FixedCapacity.
Proof.
  refine {| strategy_limits := fixed_limits |}; [done..| |]; cbn; intros s d devices;
    destruct (withinDeviceLimit _ _ _) eqn:E; try done.
  intros _. by apply withinDeviceLimit_true.
Defined.
#[global] Instance ResourceCapacityLaws : CapacityStrategyLaws ResourceCapacity.
Proof.
  refine {| strategy_limits s := ro_limits (resource_options s) |}; [done..| |];
    cbn; intros s d devices; unfold resource_canProvision;
    destruct (withinDeviceLimit _ _ _) eqn:E; cbn; try done; destruct (_ <? _)%Z; try done.
  intros _. by apply withinDeviceLimit_true.
Defined.

(** ** The coordinator: [coordinator.ts] *)

Inductive PressureStep := pressure_none | warming_paused | new_devices_paused.
#[global] Instance PressureStep_eq_dec : EqDecision PressureStep.
Proof. solve_decision. Defined.

(** A reservation entry is an object compared by identity: here, an entry with a number of its
    own. [releasedEntries] holds the [released] flags the reservations close over, each named by
    its list and its entry, and [changesReported] counts the calls of [onReservationsChanged]. *)
Inductive EntryList := ProvisioningList | RunningList | BootList.
#[global] Instance EntryList_eq_dec : EqDecision EntryList.
Proof. solve_decision. Defined.

Record Coordinator := MkCoordinator {
  provisioningReservations : list (nat * PlannedCapacityDevice);
  runningReservations : list (nat * Platform);
  bootReservations : list (nat * string);
  nextEntry : nat;
  releasedEntries : list (EntryList * nat);
  changesReported : nat }.
#[export] Instance Coordinator_eta : Eta Coordinator := λ r,
  MkCoordinator (provisioningReservations r) (runningReservations r) (bootReservations r)
    (nextEntry r) (releasedEntries r) (changesReported r).
Definition empty_coordinator : Coordinator := MkCoordinator [] [] [] 0 [] 0.

Inductive CapacityReservation :=
| ProvisioningReservation (entry : nat)
| BootReservation (runningEntry bootEntry : nat)
| RewarmReservation (bootEntry : nat).

Definition CapacityReservationAttempt := result CapacityRefusalReason (Coordinator * CapacityReservation).

Definition without_entry {A} (entry : nat) (l : list (nat * A)) : list (nat * A) :=
  match Arr.findIndex (λ e, e.1 === entry) l with
  | Some index => Arr.removeAt index l
  | None => l
  end.

(** The [release] a reservation of one list closes over. *)
Definition release_entry (entries : EntryList) (entry : nat)
    (remove : Coordinator → Coordinator) (c : Coordinator) : Coordinator :=
  if Arr.includes (entries, entry) (releasedEntries c) then c else
  let c := c <| releasedEntries := (entries, entry) :: releasedEntries c |> in
  let c := remove c in
  c <| changesReported := S (changesReported c) |>.
Definition release_provisioning (entry : nat) : Coordinator → Coordinator :=
  release_entry ProvisioningList entry (λ c,
    c <| provisioningReservations := without_entry entry (provisioningReservations c) |>).
Definition release_running (entry : nat) : Coordinator → Coordinator :=
  release_entry RunningList entry (λ c,
    c <| runningReservations := without_entry entry (runningReservations c) |>).
Definition release_boot (entry : nat) : Coordinator → Coordinator :=
  release_entry BootList entry (λ c,
    c <| bootReservations := without_entry entry (bootReservations c) |>).
Definition release (r : CapacityReservation) (c : Coordinator) : Coordinator :=
  match r with
  | ProvisioningReservation n => release_provisioning n c
  | BootReservation n m => release_boot m (release_running n c)
  | RewarmReservation m => release_boot m c
  end.

Definition newDevicesPaused (pressure : option PressureStep) : bool :=
  pressure === Some new_devices_paused.

Definition asProvisioningDevice (r : PlannedCapacityDevice) : CapacityDevice :=
  MkCapacity (pc_platform r) (pc_mode r) (CState provisioning) None.

Definition count_booting (reservations : list string) (d : CapacityDevice) : CapacityDevice :=
  match c_id d with
  | Some i =>
      if Arr.includes i reservations
      then d <| c_mode := full |>
             <| c_state := if c_state d === CState shutdown then booting else c_state d |>
      else d
  | None => d
  end.

Section coordinator.
Context {S : Type} `{CapacityStrategy S} (strategy : S) (pressure : option PressureStep).
Implicit Types (c : Coordinator) (devices : list CapacityDevice).

Definition withReservations c devices : list CapacityDevice :=
  (count_booting (bootReservations c).*2 <$> devices)
  ++ (asProvisioningDevice <$> (provisioningReservations c).*2).
Definition allRunningReservations c : list Platform :=
  (pc_platform <$> (provisioningReservations c).*2) ++ (runningReservations c).*2.

Definition coordinator_canProvision c (d : PlannedCapacityDevice) devices : CapacityDecision :=
  canProvision strategy d (withReservations c devices).
Definition atRamBudget c (p : Platform) devices : bool :=
  match coordinator_canProvision c (MkPlanned p full) devices with
  | Err reason => reason === ram_budget
  | Ok _ => false
  end.
Definition coordinator_canBoot c (d : CapacityDevice) devices : CapacityDecision :=
  canBoot strategy d (withReservations c devices).
Definition coordinator_canReserveRunning c (p : Platform) devices : CapacityDecision :=
  canReserveRunning strategy p devices (allRunningReservations c).
Definition coordinator_runningCapacity c devices : RunningCapacity :=
  runningCapacity strategy devices (allRunningReservations c).
Definition coordinator_ramBudget devices : option RamBudget := ramBudget strategy devices.

Definition tryReserveProvisioning c (d : PlannedCapacityDevice) devices
    : CapacityReservationAttempt :=
  if newDevicesPaused pressure then Err memory_pressure else
  _ ← coordinator_canProvision c d devices;
  _ ← coordinator_canReserveRunning c (pc_platform d) devices;
  let entry := nextEntry c in
  Ok (c <| provisioningReservations :=
            provisioningReservations c ++ [(entry, MkPlanned (pc_platform d) (pc_mode d))] |>
        <| nextEntry := entry + 1 |>
        <| changesReported := changesReported c + 1 |>,
      ProvisioningReservation entry).

Definition tryReserveBoot c (i : string) (d : CapacityDevice) devices
    : CapacityReservationAttempt :=
  if newDevicesPaused pressure then Err memory_pressure else
  _ ← coordinator_canBoot c d devices;
  _ ← coordinator_canReserveRunning c (c_platform d) devices;
  let entry := nextEntry c in
  Ok (c <| runningReservations := runningReservations c ++ [(entry, c_platform d)] |>
        <| bootReservations := bootReservations c ++ [(entry + 1, i)] |>
        <| nextEntry := entry + 2 |>
        <| changesReported := changesReported c + 2 |>,
      BootReservation entry (entry + 1)).

Definition tryReserveRewarm c (i : string) (d : CapacityDevice) devices
    : CapacityReservationAttempt :=
  if newDevicesPaused pressure then Err memory_pressure else
  _ ← coordinator_canBoot c d devices;
  let entry := nextEntry c in
  Ok (c <| bootReservations := bootReservations c ++ [(entry, i)] |>
        <| nextEntry := entry + 1 |>
        <| changesReported := changesReported c + 1 |>,
      RewarmReservation entry).
End coordinator.

(** ** Figures: [figures.ts], [observer.ts] *)

Record PlatformCapacityFigures := MkPlatformFigures {
  pf_entry : RunningCapacityEntry; pf_limit : Z; pf_atRamBudget : bool; pf_warm : Z; pf_used : Z }.
Record CapacityFigures := MkFigures {
  fig_ios : PlatformCapacityFigures;
  fig_android : PlatformCapacityFigures;
  fig_global : RunningCapacityEntry;
  fig_global_warm : Z;
  fig_ramBudget : option RamBudget }.

Definition buildCapacityFigures {S} `{CapacityStrategy S} (s : S) (c : Coordinator)
    (devices : list VirtualDevice) : CapacityFigures :=
  let run := coordinator_runningCapacity s c (capacityDevices devices) in
  let warmDevices := Arr.filter (λ d, v_state d === ready) devices in
  let forPlatform p :=
    MkPlatformFigures (rc_platform run p) (deviceLimit s p)
      (atRamBudget s c p (capacityDevices devices))
      (count (λ d, vs_platform (v_spec d) === p) warmDevices)
      (count (λ d, (vs_platform (v_spec d) === p) && (v_state d !== deleted)) devices) in
  MkFigures (forPlatform ios) (forPlatform android) (rc_global run)
    (Z.of_nat (length warmDevices)) (coordinator_ramBudget s (capacityDevices devices)).

(** The part of an entry the event carries: the ceiling, the reserved, the running and the warm. *)
Definition figures_entry (e : RunningCapacityEntry) (warm : Z) : Z * Z * Z * Z :=
  (maxRunning e, reserved e, running e, warm).
Definition CapacityChanged : Type :=
  (Z * Z * Z * Z) * (Z * Z * Z * Z) * (Z * Z * Z * Z) * option (Z * Z).
Definition capacityChangedPayload (f : CapacityFigures) : CapacityChanged :=
  (figures_entry (pf_entry (fig_android f)) (pf_warm (fig_android f)),
   figures_entry (fig_global f) (fig_global_warm f),
   figures_entry (pf_entry (fig_ios f)) (pf_warm (fig_ios f)),
   (λ b, (limitBytes b, usedBytes b)) <$> fig_ramBudget f).

(** The observer keeps the last payload it emitted; its key is the payload's text, which is the
    payload. [emitted] is what the bus was given, oldest first. *)
Record CapacityObserver := MkObserver {
  ob_started : bool; ob_last : option CapacityChanged; ob_emitted : list CapacityChanged }.
Definition observer_changed (figures : CapacityFigures) (o : CapacityObserver) : CapacityObserver :=
  if negb (ob_started o) then o else
  let payload := capacityChangedPayload figures in
  if Some payload === ob_last o then o
  else MkObserver (ob_started o) (Some payload) (ob_emitted o ++ [payload]).
Definition observer_start (figures : CapacityFigures) (o : CapacityObserver) : CapacityObserver :=
  observer_changed figures (MkObserver true (ob_last o) (ob_emitted o)).

(** ** Lemmas *)

Lemma count_app {A} (f : A → bool) l k : count f (l ++ k) = (count f l + count f k)%Z.
Proof. unfold count, Arr.filter. rewrite List.filter_app, length_app. lia. Qed.
Lemma count_singleton {A} (f : A → bool) x : count f [x] = if f x then 1%Z else 0%Z.
Proof. unfold count. cbn. by destruct (f x). Qed.
#[export] Hint Rewrite @count_app @count_singleton @fmap_app : capacity.

Lemma canReserveRunning_Ok p devices res limits :
  limits_canReserveRunning p devices res limits = Ok tt →
  let run := limits_runningCapacity devices res limits in
  at_limit (rc_global run) = false ∧ at_limit (rc_platform run p) = false.
Proof.
  unfold limits_canReserveRunning. destruct (at_limit (rc_global _)); [done|].
  destruct (at_limit _) eqn:E; done.
Qed.
Lemma canReserveRunning_refusals p devices res limits reason :
  limits_canReserveRunning p devices res limits = Err reason →
  reason = global_running_limit ∨ reason = platform_running_limit.
Proof.
  unfold limits_canReserveRunning. destruct (at_limit (rc_global _)); [naive_solver|].
  destruct (at_limit _); naive_solver.
Qed.

(** Adding one reservation below a limit does not pass it. *)
Lemma running_entry_add devices l k q limits platform :
  at_limit (running_entry devices (l ++ k) limits platform) = false →
  overLimit (running_entry devices (l ++ [q] ++ k) limits platform) = false.
Proof.
  unfold at_limit. cbn -[app]. autorewrite with capacity. intros Hat.
  destruct (on_platform platform q); lia.
Qed.

Lemma running_add p q devices l k limits :
  let before := limits_runningCapacity devices (l ++ k) limits in
  let after := limits_runningCapacity devices (l ++ [q] ++ k) limits in
  at_limit (rc_global before) = false ∧ at_limit (rc_platform before p) = false →
  overLimit (rc_global after) = false ∧ overLimit (rc_platform after p) = false.
Proof.
  intros before after [Hg Hp]. split; [by apply running_entry_add|].
  destruct p; by apply running_entry_add.
Qed.

(** ** RAM arithmetic of the resource strategy *)

Lemma foldl_sum {A} (f : A → Z) l a :
  foldl (λ t x, (t + f x)%Z) a l = (a + foldl (λ t x, (t + f x)%Z) 0 l)%Z.
Proof.
  revert a. induction l as [|x l IH]; intros a; cbn; [lia|].
  rewrite IH, (IH (0 + f x)%Z). lia.
Qed.

Section ram.
Context (s : ResourceCapacity).

(** What one device adds to the use. *)
Definition device_bytes (d : CapacityDevice) : Z :=
  if (c_state d === CState deleted) || (c_state d === CState shutdown) then 0%Z
  else bytesPerDevice s (planned_of d).

Lemma usedBytes_cons d l :
  resource_usedBytes s (d :: l) = (device_bytes d + resource_usedBytes s l)%Z.
Proof.
  unfold resource_usedBytes, device_bytes, activeDevices, Arr.filter. cbn.
  destruct (c_state d === CState deleted); cbn; [done|].
  destruct (c_state d === CState shutdown); cbn; [done|]. rewrite foldl_sum. lia.
Qed.
Lemma usedBytes_app l k :
  resource_usedBytes s (l ++ k) = (resource_usedBytes s l + resource_usedBytes s k)%Z.
Proof.
  induction l as [|d l IH]; [done|]. rewrite <- app_comm_cons, !usedBytes_cons, IH. lia.
Qed.

Lemma count_booting_bytes boots i d :
  c_id d = Some i → i ∉ boots → c_state d ≠ CState deleted →
  (device_bytes (count_booting (boots ++ [i]) d)
   = device_bytes (count_booting boots d) + boot_extra s d)%Z.
Proof.
  intros Hi Hni Hd. unfold count_booting. rewrite Hi. unfold Arr.includes.
  rewrite (bool_decide_eq_true_2 (i ∈ boots ++ [i])) by set_solver.
  rewrite (bool_decide_eq_false_2 (i ∈ boots)) by done.
  destruct d as [p m st j]. cbn in *. unfold device_bytes, boot_extra, planned_of. cbn.
  destruct st as [[]|]; js_eval; (done || lia).
Qed.

Lemma count_booting_other boots i (l : list CapacityDevice) : (∀ d, d ∈ l → c_id d ≠ Some i) →
  count_booting (boots ++ [i]) <$> l = count_booting boots <$> l.
Proof.
  intros H. apply list_fmap_ext. intros k d Hd%list_elem_of_lookup_2. unfold count_booting.
  destruct (c_id d) as [j|] eqn:E; [|done]. unfold Arr.includes.
  rewrite (bool_decide_ext (j ∈ boots ++ [i]) (j ∈ boots)); [done|].
  specialize (H d Hd). rewrite E in H. set_solver.
Qed.
End ram.

(** ** The books of the coordinator *)

(** One reservation taken, by any of the three attempts. *)
Inductive reserve_step {S} `{CapacityStrategy S} (s : S) (pressure : option PressureStep)
    (c : Coordinator) : Coordinator → CapacityReservation → Prop :=
| reserve_provisioning d devices c' r :
    tryReserveProvisioning s pressure c d devices = Ok (c', r) → reserve_step s pressure c c' r
| reserve_boot i d devices c' r :
    tryReserveBoot s pressure c i d devices = Ok (c', r) → reserve_step s pressure c c' r
| reserve_rewarm i d devices c' r :
    tryReserveRewarm s pressure c i d devices = Ok (c', r) → reserve_step s pressure c c' r.

(** Runs of a coordinator with the reservations it handed out; an owner may release one more than
    once, and the pressure may change between attempts. *)
Inductive capacity_reachable {S} `{CapacityStrategy S} (s : S)
    : Coordinator → list CapacityReservation → Prop :=
| reach_empty : capacity_reachable s empty_coordinator []
| reach_reserve pressure c issued c' r :
    capacity_reachable s c issued → reserve_step s pressure c c' r →
    capacity_reachable s c' (r :: issued)
| reach_release c issued r :
    capacity_reachable s c issued → r ∈ issued → capacity_reachable s (release r c) issued.

(** The shape of the state after an attempt that succeeded. *)
Lemma reserve_step_shape {S} `{CapacityStrategy S} (s : S) pressure c c' r :
  reserve_step s pressure c c' r →
  let n := nextEntry c in
  releasedEntries c' = releasedEntries c ∧ n ≤ nextEntry c' ∧
  ((∃ d, r = ProvisioningReservation n ∧ n < nextEntry c'
     ∧ provisioningReservations c' = provisioningReservations c ++ [(n, d)]
     ∧ runningReservations c' = runningReservations c ∧ bootReservations c' = bootReservations c)
  ∨ (∃ p i, r = BootReservation n (n + 1) ∧ n + 1 < nextEntry c'
     ∧ provisioningReservations c' = provisioningReservations c
     ∧ runningReservations c' = runningReservations c ++ [(n, p)]
     ∧ bootReservations c' = bootReservations c ++ [(n + 1, i)])
  ∨ (∃ i, r = RewarmReservation n ∧ n < nextEntry c'
     ∧ provisioningReservations c' = provisioningReservations c
     ∧ runningReservations c' = runningReservations c
     ∧ bootReservations c' = bootReservations c ++ [(n, i)])).
Proof.
  intros [d devices c1 r1 E|i d devices c1 r1 E|i d devices c1 r1 E];
    unfold tryReserveProvisioning, tryReserveBoot, tryReserveRewarm in E;
    destruct (newDevicesPaused pressure); try done;
    repeat match type of E with
    | (_ ≫= _) = Ok _ => apply bind_Ok in E as (? & _ & E)
    end; simplify_eq/=; split_and!; eauto 12 with lia.
Qed.

(** A list of entries against the entries handed out ([I]) and the released ones ([R]): it holds,
    once each, those that are handed out and not released. *)
Definition list_books {A} (l : list (nat * A)) (I R : nat → Prop) : Prop :=
  NoDup l.*1 ∧ ∀ n, n ∈ l.*1 ↔ I n ∧ ¬ R n.

Lemma list_books_ext {A} (l : list (nat * A)) (I I' R R' : nat → Prop) :
  (∀ n, I n ↔ I' n) → (∀ n, R n ↔ R' n) → list_books l I R → list_books l I' R'.
Proof. intros HI HR [Hn Hl]. split; [done|]. intros n. by rewrite Hl, HI, HR. Qed.

Lemma list_books_add {A} (l : list (nat * A)) I R n x :
  list_books l I R → ¬ I n → ¬ R n → list_books (l ++ [(n, x)]) (λ k, k = n ∨ I k) R.
Proof.
  intros [Hn Hl] HI HR. split.
  - rewrite fmap_app. apply NoDup_app. split_and!; [done| |apply NoDup_singleton].
    intros k [Hk _]%Hl ->%list_elem_of_singleton. done.
  - intros k. rewrite fmap_app, elem_of_app, Hl. cbn. rewrite list_elem_of_singleton.
    split; [|naive_solver]. intros [[??]| ->]; auto.
Qed.

Lemma list_books_release {A} (l : list (nat * A)) (I R : nat → Prop) n :
  list_books l I R → list_books (without_entry n l) I (λ k, k = n ∨ R k).
Proof.
  intros [Hnd Hl]. unfold without_entry. destruct (Arr.findIndex _ l) as [i|] eqn:Ei.
  - apply afindIndex_Some in Ei as ([k x] & Hi & Hk%bool_decide_eq_true & _). cbn in Hk. subst k.
    pose proof (delete_Permutation l i _ Hi) as Hp. unfold Arr.removeAt.
    apply (fmap_Permutation fst) in Hp. cbn in Hp. setoid_rewrite Hp in Hl. rewrite Hp in Hnd.
    apply NoDup_cons in Hnd as [Hn Hnd]. split; [done|]. intros m. specialize (Hl m).
    rewrite elem_of_cons in Hl. split.
    + intros Hm. assert (m ≠ n) by (by intros ->). naive_solver.
    + intros [HI HR]. destruct (proj2 Hl) as [->|?]; naive_solver.
  - rewrite afindIndex_None in Ei. split; [done|]. intros m. rewrite Hl.
    assert (m ∈ l.*1 → m ≠ n) as Hne.
    { intros Hm ->. apply list_elem_of_fmap in Hm as ([k x] & Hk & Hin). cbn in Hk. subst k.
      specialize (Ei _ Hin). by rewrite bool_decide_eq_true_2 in Ei. }
    rewrite Hl in Hne. split; [|naive_solver]. intros HIR. split; [apply HIR|].
    intros [->|?]; [by apply Hne|naive_solver].
Qed.

Definition issued_running (issued : list CapacityReservation) (n : nat) : Prop :=
  ∃ m, BootReservation n m ∈ issued.
Definition issued_boot (issued : list CapacityReservation) (m : nat) : Prop :=
  (∃ n, BootReservation n m ∈ issued) ∨ (RewarmReservation m ∈ issued).

(** The state against the reservations handed out. *)
Record books (c : Coordinator) (issued : list CapacityReservation) : Prop := {
  books_provisioning : list_books (provisioningReservations c)
    (λ n, ProvisioningReservation n ∈ issued) (λ n, (ProvisioningList, n) ∈ releasedEntries c);
  books_running : list_books (runningReservations c) (issued_running issued)
    (λ n, (RunningList, n) ∈ releasedEntries c);
  books_boot : list_books (bootReservations c) (issued_boot issued)
    (λ m, (BootList, m) ∈ releasedEntries c);
  books_issued n : (ProvisioningReservation n ∈ issued) ∨ issued_running issued n
    ∨ issued_boot issued n → n < nextEntry c;
  books_released k n : (k, n) ∈ releasedEntries c → n < nextEntry c }.

Lemma books_fresh c issued k : books c issued → nextEntry c ≤ k →
  (ProvisioningReservation k ∉ issued) ∧ ¬ issued_running issued k ∧ ¬ issued_boot issued k
  ∧ ∀ l, (l, k) ∉ releasedEntries c.
Proof.
  intros B Hk. split_and!; [intros H|intros H|intros H|intros l H].
  1-3: pose proof (books_issued _ _ B k ltac:(auto)); lia.
  pose proof (books_released _ _ B _ _ H). lia.
Qed.

Lemma books_reserve {S} `{CapacityStrategy S} (s : S) pressure c c' r issued :
  books c issued → reserve_step s pressure c c' r → books c' (r :: issued).
Proof.
  intros B Hs. pose proof (reserve_step_shape _ _ _ _ _ Hs) as (Hrel & Hle & Hshape).
  destruct (books_fresh c issued (nextEntry c) B ltac:(lia)) as (F1 & F2 & F3 & F4).
  destruct (books_fresh c issued (nextEntry c + 1) B ltac:(lia)) as (G1 & G2 & G3 & G4).
  destruct B as [Bp Br Bb Bi Bl].
  assert (∀ k n, (k, n) ∈ releasedEntries c → n < nextEntry c') as Bl'.
  { intros k n ?%Bl. lia. }
  destruct Hshape as [(d & -> & Hn & Hp & Hu & Hb)|[(p & i & -> & Hn & Hp & Hu & Hb)
    |(i & -> & Hn & Hp & Hu & Hb)]].
  - split; rewrite ?Hp, ?Hu, ?Hb, ?Hrel; [| | | |done].
    + eapply list_books_ext; [| |apply list_books_add; [exact Bp|exact F1|apply F4]]; set_solver.
    + eapply list_books_ext; [| |exact Br]; unfold issued_running; set_solver.
    + eapply list_books_ext; [| |exact Bb]; unfold issued_boot; set_solver.
    + intros n Hin. assert (n = nextEntry c ∨ n < nextEntry c); [|lia].
      unfold issued_running, issued_boot in *. destruct (decide (n = nextEntry c)); [by left|].
      right. apply Bi. set_solver.
  - split; rewrite ?Hp, ?Hu, ?Hb, ?Hrel; [| | | |done].
    + eapply list_books_ext; [| |exact Bp]; set_solver.
    + eapply list_books_ext; [| |apply list_books_add; [exact Br|exact F2|apply F4]];
        unfold issued_running; set_solver.
    + eapply list_books_ext; [| |apply list_books_add; [exact Bb|exact G3|apply G4]];
        unfold issued_boot; set_solver.
    + intros n Hin. assert (n = nextEntry c ∨ n = nextEntry c + 1 ∨ n < nextEntry c); [|lia].
      unfold issued_running, issued_boot in *. destruct (decide (n = nextEntry c)); [by left|].
      destruct (decide (n = nextEntry c + 1)); [by right; left|].
      right; right. apply Bi. set_solver.
  - split; rewrite ?Hp, ?Hu, ?Hb, ?Hrel; [| | | |done].
    + eapply list_books_ext; [| |exact Bp]; set_solver.
    + eapply list_books_ext; [| |exact Br]; unfold issued_running; set_solver.
    + eapply list_books_ext; [| |apply list_books_add; [exact Bb|exact F3|apply F4]];
        unfold issued_boot; set_solver.
    + intros n Hin. assert (n = nextEntry c ∨ n < nextEntry c); [|lia].
      unfold issued_running, issued_boot in *. destruct (decide (n = nextEntry c)); [by left|].
      right. apply Bi. set_solver.
Qed.

(** Releasing one entry keeps the books, whatever list it is of. *)
Lemma books_release_entry c issued (k : EntryList) n :
  books c issued → n < nextEntry c →
  books (match k with
         | ProvisioningList => release_provisioning n c
         | RunningList => release_running n c
         | BootList => release_boot n c
         end) issued.
Proof.
  intros [Bp Br Bb Bi Bl] Hn.
  destruct k; unfold release_provisioning, release_running, release_boot, release_entry;
    destruct (Arr.includes _ _); try done; split; cbn;
    try (by intros k m [|?%Bl]%elem_of_cons; simplify_eq);
    try exact Bi; eapply list_books_ext;
    try (apply list_books_release; eassumption); try eassumption; set_solver.
Qed.

Lemma release_provisioning_next n c : nextEntry (release_provisioning n c) = nextEntry c.
Proof. unfold release_provisioning, release_entry. by destruct (Arr.includes _ _). Qed.
Lemma release_running_next n c : nextEntry (release_running n c) = nextEntry c.
Proof. unfold release_running, release_entry. by destruct (Arr.includes _ _). Qed.

Lemma books_release c issued r : books c issued → r ∈ issued → books (release r c) issued.
Proof.
  intros B Hr.
  assert (∀ n, (ProvisioningReservation n ∈ issued) ∨ issued_running issued n
    ∨ issued_boot issued n → n < nextEntry c) as Hn by apply B.
  destruct r as [n|n m|m]; cbn.
  - apply (books_release_entry _ _ ProvisioningList); [done|]. apply Hn. by left.
  - apply (books_release_entry _ _ BootList).
    + apply (books_release_entry _ _ RunningList); [done|]. apply Hn. right; left. by exists m.
    + rewrite release_running_next. apply Hn. right; right. left. by exists n.
  - apply (books_release_entry _ _ BootList); [done|]. apply Hn. right; right. by right.
Qed.

Lemma capacity_reachable_books {S} `{CapacityStrategy S} (s : S) c issued :
  capacity_reachable s c issued → books c issued.
Proof.
  induction 1 as [|pressure c issued c' r _ IH Hs|c issued r _ IH Hr].
  - split; cbn; try (split; [constructor|]); unfold issued_running, issued_boot; set_solver.
  - by eapply books_reserve.
  - by apply books_release.
Qed.

(** The released flags of a reservation. *)
Definition is_released (c : Coordinator) (r : CapacityReservation) : Prop :=
  match r with
  | ProvisioningReservation n => (ProvisioningList, n) ∈ releasedEntries c
  | BootReservation n m => (RunningList, n) ∈ releasedEntries c ∧ (BootList, m) ∈ releasedEntries c
  | RewarmReservation m => (BootList, m) ∈ releasedEntries c
  end.

Lemma release_entry_released k n remove c :
  (∀ d, releasedEntries (remove d) = releasedEntries d) →
  ∀ x, x ∈ releasedEntries (release_entry k n remove c) ↔ x = (k, n) ∨ x ∈ releasedEntries c.
Proof.
  intros Hrem x. unfold release_entry, Arr.includes.
  destruct (bool_decide_reflect ((k, n) ∈ releasedEntries c)) as [Hin|_]; [set_solver|].
  cbn. rewrite Hrem. cbn. apply elem_of_cons.
Qed.
Lemma release_released r c x : x ∈ releasedEntries (release r c) ↔
  x ∈ releasedEntries c ∨
  match r with
  | ProvisioningReservation n => x = (ProvisioningList, n)
  | BootReservation n m => x = (RunningList, n) ∨ x = (BootList, m)
  | RewarmReservation m => x = (BootList, m)
  end.
Proof.
  destruct r; cbn; unfold release_provisioning, release_boot, release_running;
    rewrite !release_entry_released by done; tauto.
Qed.
Lemma release_is_released r c : is_released (release r c) r.
Proof. destruct r; cbn [is_released]; rewrite !release_released; tauto. Qed.
Lemma is_released_mono r r' c : is_released c r → is_released (release r' c) r.
Proof. destruct r; cbn [is_released]; rewrite !release_released; tauto. Qed.

Lemma release_entry_again k n remove c : (k, n) ∈ releasedEntries c →
  release_entry k n remove c = c.
Proof. intros. unfold release_entry, Arr.includes. by rewrite bool_decide_eq_true_2. Qed.
Lemma release_again r c : is_released c r → release r c = c.
Proof.
  destruct r; cbn; unfold release_provisioning, release_boot, release_running.
  - apply release_entry_again.
  - intros [H1 H2]. rewrite (release_entry_again _ _ _ c H1). by apply release_entry_again.
  - apply release_entry_again.
Qed.

Lemma books_empty c issued : books c issued → (∀ r, r ∈ issued → is_released c r) →
  provisioningReservations c = [] ∧ runningReservations c = [] ∧ bootReservations c = [].
Proof.
  intros [[_ Bp] [_ Br] [_ Bb] _ _] Hr.
  assert (∀ {A} (l : list (nat * A)), (∀ n, n ∉ l.*1) → l = []) as Hnil.
  { intros A [|[n x] l] Hl; [done|]. destruct (Hl n). by left. }
  split_and!; apply Hnil; intros n.
  - intros [HI HR]%Bp. by apply HR, (Hr _ HI).
  - intros [[m HI] HR]%Br. apply HR, (Hr _ HI).
  - intros [[[m HI]|HI] HR]%Bb; apply HR, (Hr _ HI).
Qed.

Lemma release_all c issued l : books c issued → l ⊆ issued →
  let c' := foldr release c l in
  books c' issued ∧ ∀ r, r ∈ l → is_released c' r.
Proof.
  intros B. induction l as [|r l IH]; intros Hsub; cbn.
  { split; [done|]. by intros r ?%elem_of_nil. }
  destruct IH as [IH1 IH2]; [set_solver|]. split; [apply books_release; [done|set_solver]|].
  intros x [->|Hx]%elem_of_cons; [apply release_is_released|]. by apply is_released_mono, IH2.
Qed.

(** ** Lemmas on attempts *)

Section attempts.
Context {S : Type} `{CapacityStrategyLaws S} (s : S) (pressure : option PressureStep).
Implicit Types (c : Coordinator) (devices : list CapacityDevice).

Lemma tryReserveProvisioning_Ok c d devices c' r :
  tryReserveProvisioning s pressure c d devices = Ok (c', r) →
  coordinator_canProvision s c d devices = Ok tt
  ∧ coordinator_canReserveRunning s c (pc_platform d) devices = Ok tt
  ∧ (provisioningReservations c').*2 = (provisioningReservations c).*2 ++ [d]
  ∧ runningReservations c' = runningReservations c ∧ bootReservations c' = bootReservations c.
Proof.
  unfold tryReserveProvisioning. destruct (newDevicesPaused pressure); [done|].
  intros ([] & Hp & ([] & Hr & Hc)%bind_Ok)%bind_Ok. simplify_eq/=.
  split_and!; [done..| |done|done]. rewrite fmap_app. by destruct d.
Qed.
Lemma tryReserveBoot_Ok c i d devices c' r :
  tryReserveBoot s pressure c i d devices = Ok (c', r) →
  coordinator_canBoot s c d devices = Ok tt
  ∧ coordinator_canReserveRunning s c (c_platform d) devices = Ok tt
  ∧ provisioningReservations c' = provisioningReservations c
  ∧ (runningReservations c').*2 = (runningReservations c).*2 ++ [c_platform d]
  ∧ (bootReservations c').*2 = (bootReservations c).*2 ++ [i].
Proof.
  unfold tryReserveBoot. destruct (newDevicesPaused pressure); [done|].
  intros ([] & Hp & ([] & Hr & Hc)%bind_Ok)%bind_Ok. simplify_eq/=.
  split_and!; [done..| |]; by rewrite fmap_app.
Qed.
Lemma tryReserveRewarm_Ok c i d devices c' r :
  tryReserveRewarm s pressure c i d devices = Ok (c', r) →
  coordinator_canBoot s c d devices = Ok tt
  ∧ provisioningReservations c' = provisioningReservations c
  ∧ runningReservations c' = runningReservations c
  ∧ (bootReservations c').*2 = (bootReservations c).*2 ++ [i].
Proof.
  unfold tryReserveRewarm. destruct (newDevicesPaused pressure); [done|].
  intros ([] & Hp & Hc)%bind_Ok. simplify_eq/=. split_and!; [done..|]. by rewrite fmap_app.
Qed.

Lemma running_after c c' p q devices l k :
  coordinator_canReserveRunning s c p devices = Ok tt →
  allRunningReservations c = l ++ k → allRunningReservations c' = l ++ [q] ++ k →
  let run := coordinator_runningCapacity s c' devices in
  overLimit (rc_global run) = false ∧ overLimit (rc_platform run p) = false.
Proof.
  unfold coordinator_canReserveRunning, coordinator_runningCapacity. intros Hr Hl Hl'.
  rewrite strategy_reserve, Hl in Hr. rewrite strategy_running, Hl'.
  by apply running_add, canReserveRunning_Ok.
Qed.

Lemma withReservations_add c c' d devices :
  (provisioningReservations c').*2 = (provisioningReservations c).*2 ++ [d] →
  bootReservations c' = bootReservations c →
  withReservations c' devices = withReservations c devices ++ [asProvisioningDevice d].
Proof. intros Hp Hb. unfold withReservations. by rewrite Hp, Hb, fmap_app, app_assoc. Qed.
End attempts.

(** The boots and the provisionings of the resource strategy, in bytes. *)
Lemma resource_provision_bytes s c c' d devices :
  coordinator_canProvision s c d devices = Ok tt →
  (provisioningReservations c').*2 = (provisioningReservations c).*2 ++ [d] →
  bootReservations c' = bootReservations c →
  (resource_usedBytes s (withReservations c' devices) ≤ resource_limitBytes s)%Z.
Proof.
  intros Hp Hadd Hb. rewrite (withReservations_add c c' d) by done.
  rewrite usedBytes_app, usedBytes_cons. unfold coordinator_canProvision in Hp. cbn in Hp.
  unfold resource_canProvision in Hp. destruct (negb _); [done|].
  destruct (_ <? _)%Z eqn:E in Hp; [done|]. destruct d as [p m].
  unfold device_bytes. cbn [c_state asProvisioningDevice]. js_eval.
  unfold resource_usedBytes at 2. cbn. unfold planned_of. cbn. lia.
Qed.

Lemma resource_boot_bytes s c c' i d l1 l2 :
  coordinator_canBoot s c d (l1 ++ d :: l2) = Ok tt →
  provisioningReservations c' = provisioningReservations c →
  (bootReservations c').*2 = (bootReservations c).*2 ++ [i] →
  c_id d = Some i → c_state d ≠ CState deleted → i ∉ (bootReservations c).*2 →
  (∀ x, x ∈ l1 ++ l2 → c_id x ≠ Some i) →
  (resource_usedBytes s (withReservations c' (l1 ++ d :: l2))
    ≤ Z.max (resource_usedBytes s (withReservations c (l1 ++ d :: l2))) (resource_limitBytes s))%Z.
Proof.
  intros Hboot Hp Hb Hid Hd Hi Hother.
  assert (resource_usedBytes s (withReservations c' (l1 ++ d :: l2))
    = resource_usedBytes s (withReservations c (l1 ++ d :: l2)) + boot_extra s d)%Z as Hu.
  { unfold withReservations. rewrite Hp, Hb, !fmap_app, !fmap_cons.
    rewrite !usedBytes_app, !usedBytes_cons, (count_booting_bytes s _ i d) by done.
    rewrite (count_booting_other _ i l1), (count_booting_other _ i l2) by set_solver. lia. }
  rewrite Hu. unfold coordinator_canBoot in Hboot. cbn in Hboot. unfold resource_canBoot in Hboot.
  destruct (_ <=? _)%Z eqn:E1 in Hboot; [lia|]. destruct (_ <? _)%Z eqn:E2 in Hboot; [done|]. lia.
Qed.

(** ** Properties *)

(** C4. No reservation passes a limit, under any strategy that keeps the interface's laws. After
    a provisioning reservation the platform's devices, the pending one included, are within the
    device ceiling, and neither the global nor the platform's running count is over its limit;
    after a boot reservation the two running counts are within their limits; a rewarm takes no
    running slot. *)
Theorem reservations_within_limits {S} `{CapacityStrategyLaws S} (s : S) pressure c devices :
  (∀ d c' r, tryReserveProvisioning s pressure c d devices = Ok (c', r) →
     let run := coordinator_runningCapacity s c' devices in
     let p := pc_platform d in
     overLimit (rc_global run) = false ∧ overLimit (rc_platform run p) = false
     ∧ (count (λ x, c_platform x === p) (activeDevices (withReservations c' devices))
         ≤ deviceLimit s p)%Z)
  ∧ (∀ i d c' r, tryReserveBoot s pressure c i d devices = Ok (c', r) →
     let run := coordinator_runningCapacity s c' devices in
     overLimit (rc_global run) = false ∧ overLimit (rc_platform run (c_platform d)) = false)
  ∧ (∀ i d c' r, tryReserveRewarm s pressure c i d devices = Ok (c', r) →
     coordinator_runningCapacity s c' devices = coordinator_runningCapacity s c devices).
Proof.
  split_and!.
  - intros d c' r (Hp & Hr & Hadd & Hru & Hb)%tryReserveProvisioning_Ok run p.
    destruct (running_after s c c' p p devices (pc_platform <$> (provisioningReservations c).*2)
      (runningReservations c).*2 Hr eq_refl) as [Hg Hpl].
    { unfold allRunningReservations. by rewrite Hadd, Hru, fmap_app, <- app_assoc. }
    split_and!; [done..|]. rewrite (withReservations_add c c' d) by done.
    apply strategy_ceiling in Hp. unfold activeDevices, Arr.filter in *.
    rewrite List.filter_app, count_app.
    assert (count (λ x, c_platform x === p)
      (List.filter (λ x, c_state x !== CState deleted) [asProvisioningDevice d]) = 1%Z) as Hone.
    { destruct d as [q m]. cbn. js_eval. rewrite count_singleton. cbn.
      by rewrite bool_decide_eq_true_2. }
    unfold p in *. lia.
  - intros i d c' r (Hboot & Hr & Hp & Hru & Hb)%tryReserveBoot_Ok run.
    eapply (running_after s c c' _ (c_platform d) devices (allRunningReservations c) []);
      [done|by rewrite app_nil_r|].
    unfold allRunningReservations. by rewrite Hp, Hru, app_assoc, app_nil_r.
  - intros i d c' r (_ & Hp & Hru & _)%tryReserveRewarm_Ok.
    unfold coordinator_runningCapacity, allRunningReservations. by rewrite Hp, Hru.
Qed.

(** A machine with 16 GiB and the defaults, and devices of it. *)
Definition sample_stats : SystemStats := MkStats 8 (16 * GIBIBYTE).
Definition sample_resource : ResourceCapacity :=
  MkResource (resource_defaults sample_stats) sample_stats.
Definition sample_device (i : string) (p : Platform) (st : DeviceState) : CapacityDevice :=
  MkCapacity p full (CState st) (Some i).

Lemma reservations_within_limits_witness :
  overLimit (rc_global (coordinator_runningCapacity sample_resource
    (MkCoordinator [(0, MkPlanned ios full)] [] [] 1 [] 1) [sample_device "dev_1" ios ready]))
  = false.
Proof.
  apply (proj1 (reservations_within_limits sample_resource None empty_coordinator
    [sample_device "dev_1" ios ready]) (MkPlanned ios full) _ (ProvisioningReservation 0)).
  vm_compute. reflexivity.
Defined.

(** Capacity does not leak and is never given back twice. In any run of attempts and
    releases, in any order and with repeated releases, releasing a reservation again changes
    nothing, and once each reservation handed out is released the coordinator holds no entry, so
    its running figures are those of the devices alone. *)
Theorem reservations_never_leak {S} `{CapacityStrategyLaws S} (s : S) c issued :
  capacity_reachable s c issued →
  (∀ r, r ∈ issued → release r (release r c) = release r c)
  ∧ let c' := foldr release c issued in
    provisioningReservations c' = [] ∧ runningReservations c' = [] ∧ bootReservations c' = []
    ∧ ∀ devices, coordinator_runningCapacity s c' devices
        = limits_runningCapacity devices [] (strategy_limits s).
Proof.
  intros Hreach. split; [intros r _; apply release_again, release_is_released|].
  destruct (release_all c issued issued) as [HB HR];
    [by eapply capacity_reachable_books|done|].
  destruct (books_empty _ _ HB HR) as (Hp & Hr & Hb). split_and!; [done..|]. intros devices.
  unfold coordinator_runningCapacity, allRunningReservations.
  by rewrite strategy_running, Hp, Hr.
Qed.

Definition sample_booting : Coordinator :=
  MkCoordinator [] [(0, android)] [(1, "dev_1")] 2 [] 2.

Lemma reservations_never_leak_witness :
  runningReservations (release (BootReservation 0 1)
    sample_booting) = [].
Proof.
  apply (reservations_never_leak sample_resource
    sample_booting [BootReservation 0 1]).
  eapply (reach_reserve _ None); [apply reach_empty|].
  apply (reserve_boot _ _ _ "dev_1" (sample_device "dev_1" android shutdown)
    [sample_device "dev_1" android shutdown]).
  vm_compute. reflexivity.
Defined.

(** The RAM budget holds under the resource strategy: after a provisioning reservation the
    bytes of all devices, pending and booting ones at their full size, are within the machine's
    RAM less the operating system's reserve; a boot or a rewarm of one registered device never
    raises the use past the budget, so from within the budget it stays there. *)
Theorem resource_ram_bounded (s : ResourceCapacity) pressure c devices :
  let used c := resource_usedBytes s (withReservations c devices) in
  (∀ d c' r, tryReserveProvisioning s pressure c d devices = Ok (c', r) →
     (used c' ≤ resource_limitBytes s)%Z)
  ∧ (∀ i d c' r l1 l2, devices = l1 ++ d :: l2 → c_id d = Some i → c_state d ≠ CState deleted →
     (∀ x, x ∈ l1 ++ l2 → c_id x ≠ Some i) → i ∉ (bootReservations c).*2 →
     tryReserveBoot s pressure c i d devices = Ok (c', r)
     ∨ tryReserveRewarm s pressure c i d devices = Ok (c', r) →
     (used c' ≤ Z.max (used c) (resource_limitBytes s))%Z).
Proof.
  intros used. split.
  - intros d c' r (Hp & _ & Hadd & _ & Hb)%tryReserveProvisioning_Ok.
    by eapply resource_provision_bytes.
  - intros i d c' r l1 l2 Hdev Hid Hd Hother Hi Htry.
    assert (coordinator_canBoot s c d devices = Ok tt
      ∧ provisioningReservations c' = provisioningReservations c
      ∧ (bootReservations c').*2 = (bootReservations c).*2 ++ [i]) as (Hboot & Hp & Hb).
    { destruct Htry as [H|H]; [apply tryReserveBoot_Ok in H|apply tryReserveRewarm_Ok in H];
        tauto. }
    unfold used. rewrite Hdev in *. by eapply resource_boot_bytes.
Qed.

Lemma resource_ram_bounded_witness :
  (resource_usedBytes sample_resource (withReservations
     sample_booting
     [sample_device "dev_1" android shutdown]) ≤ 12 * GIBIBYTE)%Z.
Proof.
  pose proof (proj2 (resource_ram_bounded sample_resource None empty_coordinator
    [sample_device "dev_1" android shutdown]) "dev_1" (sample_device "dev_1" android shutdown)
    sample_booting (BootReservation 0 1) [] [] eq_refl
    eq_refl) as H.
  apply H.
  - discriminate.
  - intros x Hx. inversion Hx.
  - intros Hx. inversion Hx.
  - left. vm_compute. reflexivity.
Defined.

(** What the status reports and what the planner meets agree: while new devices are paused
    all three attempts are refused for memory pressure and nothing else; otherwise memory pressure
    is never the answer to a provisioning, and the platform is reported at its RAM budget exactly
    when reserving one more full device of it is refused for RAM. *)
Theorem refusals_agree {S} `{CapacityStrategyLaws S} (s : S) pressure c devices :
  if newDevicesPaused pressure then
    ∀ i d x, tryReserveProvisioning s pressure c d devices = Err memory_pressure
      ∧ tryReserveBoot s pressure c i x devices = Err memory_pressure
      ∧ tryReserveRewarm s pressure c i x devices = Err memory_pressure
  else
    (∀ d, tryReserveProvisioning s pressure c d devices ≠ Err memory_pressure)
    ∧ ∀ p, atRamBudget s c p devices = true
        ↔ tryReserveProvisioning s pressure c (MkPlanned p full) devices = Err ram_budget.
Proof.
  destruct (newDevicesPaused pressure) eqn:E.
  { intros i d x. unfold tryReserveProvisioning, tryReserveBoot, tryReserveRewarm.
    by rewrite E. }
  assert (∀ p devices e, coordinator_canReserveRunning s c p devices = Err e →
    e = global_running_limit ∨ e = platform_running_limit) as Hrun.
  { intros p l e Hr. unfold coordinator_canReserveRunning in Hr. rewrite strategy_reserve in Hr.
    by eapply canReserveRunning_refusals. }
  unfold tryReserveProvisioning, atRamBudget. rewrite E. split.
  - intros d [Hp|([] & _ & [Hr|([] & _ & Hn)]%bind_Err)]%bind_Err; [|by apply Hrun in Hr as []|done].
    by apply strategy_no_pressure in Hp.
  - intros p. destruct (coordinator_canProvision s c _ devices) as [[]|e]; cbn.
    + split; [done|]. intros [Hr|([] & _ & Hn)]%bind_Err; [|done]. by apply Hrun in Hr as [].
    + rewrite bool_decide_eq_true. naive_solver.
Qed.

(** Figures shown to the observer one after another, from before its start. *)
Definition observer_run (o : CapacityObserver) (figures : list CapacityFigures) : CapacityObserver :=
  foldl (λ o f, observer_changed f o) o figures.
Definition observer_idle : CapacityObserver := MkObserver false None [].

Definition no_repeat (l : list CapacityChanged) : Prop :=
  ∀ i x y, l !! i = Some x → l !! S i = Some y → x ≠ y.
Definition observer_inv (o : CapacityObserver) : Prop :=
  ob_last o = last (ob_emitted o) ∧ no_repeat (ob_emitted o).

Lemma observer_changed_inv f o : observer_inv o → observer_inv (observer_changed f o).
Proof.
  intros [Hl Hn]. unfold observer_changed. destruct (negb _); [done|].
  case_bool_decide as Hp; [done|]. split; cbn; [by rewrite last_snoc|].
  intros i x y Hx Hy. rewrite Hl in Hp. rewrite last_lookup in Hp.
  destruct (decide (S i < length (ob_emitted o))).
  - rewrite lookup_app_l in Hx, Hy by lia. by eapply Hn.
  - pose proof (lookup_lt_Some _ _ _ Hy) as Hlen. rewrite length_app in Hlen. cbn in Hlen.
    assert (S i = length (ob_emitted o)) as Hi by lia.
    rewrite lookup_app_l in Hx by lia. rewrite Hi, list_lookup_middle in Hy by done.
    rewrite <- Hi in Hp. cbn in Hp. congruence.
Qed.
Lemma observer_run_inv o l : observer_inv o → observer_inv (observer_run o l).
Proof.
  revert o. induction l as [|f l IH]; intros o Ho; [done|]. cbn. by apply IH, observer_changed_inv.
Qed.
Lemma observer_run_started o l : ob_started (observer_run o l) = ob_started o.
Proof.
  revert o. induction l as [|f l IH]; intros o; [done|]. cbn. rewrite IH. unfold observer_changed.
  destruct (negb _); [done|]. by case_bool_decide.
Qed.

(** The capacity events are exactly the changes: nothing before the start, one event at the
    start, never two equal events in a row, and after every report the last event is the payload
    of the current figures. *)
Theorem observer_emits_changes before f0 reports :
  let idle := observer_run observer_idle before in
  let o := observer_run (observer_start f0 idle) reports in
  ob_emitted idle = []
  ∧ ob_emitted (observer_start f0 idle) = [capacityChangedPayload f0]
  ∧ last (ob_emitted o) = Some (capacityChangedPayload (List.last reports f0))
  ∧ no_repeat (ob_emitted o).
Proof.
  intros idle o.
  assert (idle = observer_idle) as Hidle.
  { unfold idle. by induction before. }
  assert (observer_start f0 idle = MkObserver true (Some (capacityChangedPayload f0))
    [capacityChangedPayload f0]) as Hs.
  { rewrite Hidle. unfold observer_start, observer_changed. cbn. by rewrite bool_decide_eq_false_2. }
  assert (observer_inv (observer_start f0 idle)) as Hi.
  { rewrite Hs. split; [done|]. intros [|i] x y; done. }
  split_and!; [by rewrite Hidle|by rewrite Hs| |by apply observer_run_inv].
  unfold o. destruct (observer_run_inv _ reports Hi) as [<- _].
  destruct reports as [|f r _] using rev_ind; [by rewrite Hs|].
  rewrite List.last_last. unfold observer_run. rewrite foldl_snoc.
  unfold observer_changed at 1. fold (observer_run (observer_start f0 idle) r).
  rewrite observer_run_started, Hs. cbn. by case_bool_decide as Hp.
Qed.
