(* ===== verification/Claims.v ===== *)
(** * Device operation claims: [src/core/device-operation-claims.ts]

    One operation at a time on a device. A claim is an object compared by identity; here a claim
    has a number of its own, and the table keeps the [released] flags the claims close over. *)
From stdpp Require Import base strings list option numbers gmap sets.
From S2P Require Import Prelude.

(** ** Definitions *)

Inductive DeviceOperation :=
| op_boot | op_eviction | op_cleanup | op_nuke | op_recovery | op_reclaim | op_enrollment | op_grant.
#[global] Instance DeviceOperation_eq_dec : EqDecision DeviceOperation.
Proof. solve_decision. Defined.

Record DeviceOperationClaim := MkClaim {
  k_number : nat;
  k_deviceId : string;
  k_operation : DeviceOperation;
  k_owner : option string }.
#[global] Instance DeviceOperationClaim_eq_dec : EqDecision DeviceOperationClaim.
Proof. solve_decision. Defined.

Record DeviceOperationClaims := MkClaims {
  claims : gmap string DeviceOperationClaim;
  nextClaim : nat;
  releasedClaims : list nat }.
#[export] Instance DeviceOperationClaims_eta : Eta DeviceOperationClaims := λ r,
  MkClaims (claims r) (nextClaim r) (releasedClaims r).
Definition no_claims : DeviceOperationClaims := MkClaims ∅ 0 [].

Section claims.
Implicit Types (t : DeviceOperationClaims) (k : DeviceOperationClaim) (i : string).

Definition tryClaim t i (operation : DeviceOperation) (owner : option string)
    : option (DeviceOperationClaims * DeviceOperationClaim) :=
  match claims t !! i with
  | Some _ => None
  | None =>
      let claim := MkClaim (nextClaim t) i operation owner in
      Some (t <| claims := <[i := claim]> (claims t) |> <| nextClaim := S (nextClaim t) |>, claim)
  end.

(** [this.#claims.get(deviceId) === claim]. *)
Definition holds t k : bool :=
  match claims t !! k_deviceId k with
  | Some held => k_number held === k_number k
  | None => false
  end.

Definition releaseClaim t k : DeviceOperationClaims :=
  if Arr.includes (k_number k) (releasedClaims t) then t else
  let t := t <| releasedClaims := k_number k :: releasedClaims t |> in
  if holds t k then t <| claims := delete (k_deviceId k) (claims t) |> else t.

Definition claim_of t i : option (DeviceOperation * option string) :=
  (λ held, (k_operation held, k_owner held)) <$> claims t !! i.
Definition operationFor t i : option DeviceOperation := k_operation <$> claims t !! i.
Definition isClaimed t i : bool := bool_decide (is_Some (claims t !! i)).
Definition isActive t k : bool := holds t k.
End claims.

(** Runs of the table with the claims it handed out; a holder may release more than once. *)
Inductive claims_reachable : DeviceOperationClaims → list DeviceOperationClaim → Prop :=
| claims_none : claims_reachable no_claims []
| claims_claim t issued i op owner t' k :
    claims_reachable t issued → tryClaim t i op owner = Some (t', k) →
    claims_reachable t' (k :: issued)
| claims_release t issued k :
    claims_reachable t issued → k ∈ issued → claims_reachable (releaseClaim t k) issued.

(** ** Lemmas *)

Lemma tryClaim_Some t i op owner t' k : tryClaim t i op owner = Some (t', k) ↔
  claims t !! i = None ∧ k = MkClaim (nextClaim t) i op owner
  ∧ t' = MkClaims (<[i := k]> (claims t)) (S (nextClaim t)) (releasedClaims t).
Proof. unfold tryClaim. destruct t as [m n l]. cbn. destruct (m !! i); naive_solver. Qed.

Lemma tryClaim_unclaimed t i op owner : isClaimed t i = false →
  tryClaim t i op owner = Some (MkClaims (<[i := MkClaim (nextClaim t) i op owner]> (claims t))
    (S (nextClaim t)) (releasedClaims t), MkClaim (nextClaim t) i op owner).
Proof.
  unfold isClaimed. intros H%bool_decide_eq_false. apply tryClaim_Some. split; [|done].
  by apply eq_None_not_Some.
Qed.

(** The table against the claims handed out: it holds, under its device, each claim that is handed
    out and not released. *)
Record claims_inv (t : DeviceOperationClaims) (issued : list DeviceOperationClaim) : Prop := {
  ci_held i k : claims t !! i = Some k ↔
    (k ∈ issued) ∧ (k_number k ∉ releasedClaims t) ∧ k_deviceId k = i;
  ci_issued k : k ∈ issued → k_number k < nextClaim t;
  ci_released n : n ∈ releasedClaims t → n < nextClaim t;
  ci_numbers k k' : k ∈ issued → k' ∈ issued → k_number k = k_number k' → k = k' }.

Lemma claims_inv_holds t issued k : claims_inv t issued → k ∈ issued →
  holds t k = true ↔ k_number k ∉ releasedClaims t.
Proof.
  intros [Hh _ _ Hn] Hk. unfold holds. destruct (claims t !! k_deviceId k) as [h|] eqn:E.
  - pose proof (proj1 (Hh _ _) E) as (Hi & Hr & Hd). rewrite bool_decide_eq_true. split.
    + by intros <-.
    + intros Hnr. assert (claims t !! k_deviceId k = Some k) by (by apply Hh). by simplify_eq.
  - split; [done|]. intros Hnr. assert (claims t !! k_deviceId k = Some k) by (by apply Hh).
    congruence.
Qed.

Lemma claims_inv_claim t issued i op owner t' k :
  claims_inv t issued → tryClaim t i op owner = Some (t', k) → claims_inv t' (k :: issued).
Proof.
  intros [Hh Hi Hr Hn] (Hnone & -> & ->)%tryClaim_Some.
  set (k := MkClaim (nextClaim t) i op owner).
  assert (∀ x, x ∈ issued → k_number x ≠ nextClaim t) as Hold by (intros x Hx%Hi; lia).
  split; cbn.
  - intros j x. rewrite lookup_insert_Some, elem_of_cons, Hh. split.
    + intros [[<- <-]|(Hne & Hx & Hnr & Hd)]; [|tauto]. split_and!; [by left| |done].
      intros Hin%Hr. cbn in Hin. lia.
    + intros ([->|Hx] & Hnr & Hd); [by left|]. right. split_and!; [|done..].
      intros ->. assert (claims t !! j = Some x) by (by apply Hh). congruence.
  - intros x [->|Hx%Hi]%elem_of_cons; cbn; lia.
  - intros n Hin%Hr. lia.
  - intros x y [->|Hx]%elem_of_cons [->|Hy]%elem_of_cons Hxy; [done|..|by apply Hn].
    + by destruct (Hold y Hy).
    + by destruct (Hold x Hx).
Qed.

Lemma claims_inv_release t issued k :
  claims_inv t issued → k ∈ issued → claims_inv (releaseClaim t k) issued.
Proof.
  intros Inv Hk. unfold releaseClaim, Arr.includes. case_bool_decide as Hin; [done|].
  pose proof (proj2 (claims_inv_holds t issued k Inv Hk) Hin) as Hholds.
  destruct Inv as [Hh Hi Hr Hn].
  replace (holds _ k) with true by (symmetry; exact Hholds).
  split; cbn; [|done| |done].
  - intros i x. rewrite lookup_delete_Some, Hh, not_elem_of_cons. split.
    + intros (Hne & Hx & Hnr & Hd). split_and!; [done| |done|done].
      intros Heq. by rewrite (Hn x k Hx Hk Heq) in Hd.
    + intros (Hx & [Hne Hnr] & Hd). split_and!; [|done..]. intros Heq.
      assert (claims t !! i = Some x) by (by apply Hh).
      assert (claims t !! i = Some k) by (by apply Hh). by simplify_eq.
  - intros n [->|Hn']%elem_of_cons; [by apply Hi|by apply Hr].
Qed.

Lemma claims_reachable_inv t issued : claims_reachable t issued → claims_inv t issued.
Proof.
  induction 1 as [|t issued i op owner t' k _ IH H|t issued k _ IH H].
  - split; cbn; [|set_solver..]. intros i k. rewrite lookup_empty. split; [done|set_solver].
  - by eapply claims_inv_claim.
  - by apply claims_inv_release.
Qed.

(** ** Properties *)

(** A device is held by at most one operation, and only its holder ends the hold. In any run
    of claims and releases, stale and repeated releases included: a claim handed out is active
    exactly until its own release; two active claims on one device are the same claim; claiming is
    refused exactly while some claim handed out for the device is active; and releasing one claim
    leaves every other active. *)
Theorem claims_exclusive t issued : claims_reachable t issued →
  (∀ k, k ∈ issued → isActive t k = true ↔ k_number k ∉ releasedClaims t)
  ∧ (∀ k k', k ∈ issued → k' ∈ issued → k_deviceId k = k_deviceId k' →
       isActive t k = true → isActive t k' = true → k = k')
  ∧ (∀ i op owner, tryClaim t i op owner = None
       ↔ ∃ k, k ∈ issued ∧ k_deviceId k = i ∧ isActive t k = true)
  ∧ (∀ k k', k ∈ issued → k' ∈ issued → k ≠ k' →
       isActive (releaseClaim t k) k' = isActive t k' ∧ isActive (releaseClaim t k) k = false).
Proof.
  intros Hre. pose proof (claims_reachable_inv _ _ Hre) as Inv.
  assert (∀ k, k ∈ issued → isActive t k = true ↔ k_number k ∉ releasedClaims t) as Hact
    by (intros; by apply (claims_inv_holds t issued)).
  assert (∀ k i, k ∈ issued → k_deviceId k = i → isActive t k = true → claims t !! i = Some k) as Hat.
  { intros k i Hk Hd Ha. apply (ci_held _ _ Inv). rewrite <- (Hact k Hk). done. }
  split_and!; [done|..].
  - intros k k' Hk Hk' Hd Ha Ha'. apply (Hat _ _ Hk Hd) in Ha.
    apply (Hat _ _ Hk' eq_refl) in Ha'. by simplify_eq.
  - intros i op owner. unfold tryClaim. destruct (claims t !! i) as [k|] eqn:E.
    + split; [|done]. intros _. exists k. apply (ci_held _ _ Inv) in E as (Hk & Hr & Hd).
      split_and!; [done..|]. by apply Hact.
    + split; [done|]. intros (k & Hk & Hd & Ha). by rewrite (Hat _ _ Hk Hd Ha) in E.
  - intros k k' Hk Hk' Hne. pose proof (claims_inv_release _ _ _ Inv Hk) as Inv'.
    assert (releasedClaims (releaseClaim t k) = k_number k :: releasedClaims t
      ∨ (k_number k ∈ releasedClaims t) ∧ releaseClaim t k = t) as Hrel.
    { unfold releaseClaim, Arr.includes. case_bool_decide; [by right|left]. by destruct (holds _ _). }
    split.
    + apply eq_bool_prop_intro. rewrite !Is_true_true. rewrite (Hact k' Hk').
      unfold isActive. rewrite (claims_inv_holds _ issued) by done.
      destruct Hrel as [->|[_ ->]]; [|done]. rewrite not_elem_of_cons. split; [tauto|].
      intros. split; [|done]. intros Heq. by destruct Hne; apply (ci_numbers _ _ Inv).
    + apply not_true_is_false. unfold isActive. rewrite (claims_inv_holds _ issued) by done.
      destruct Hrel as [->|[? ->]]; set_solver.
Qed.

Lemma claims_exclusive_witness :
  tryClaim (MkClaims {["dev_1" := MkClaim 0 "dev_1" op_boot None]} 1 []) "dev_1" op_cleanup None
  = None.
Proof.
  apply (claims_exclusive (MkClaims {["dev_1" := MkClaim 0 "dev_1" op_boot None]} 1 [])
    [MkClaim 0 "dev_1" op_boot None]).
  - apply (claims_claim no_claims [] "dev_1" op_boot None); [apply claims_none|reflexivity].
  - exists (MkClaim 0 "dev_1" op_boot None). split; [apply list_elem_of_here|].
    split; reflexivity.
Defined.
