(* ===== verification/Cleanup.v ===== *)
(** * Idle order and cleanup: [src/core/idle-order.ts], [src/core/cleanup/], [src/core/reaper.ts]

    Which idle device goes first, the two automatic cleanup rules, how the reaper reduces the
    rules' proposals to safe ones, and the executor's own check before it acts. *)
From stdpp Require Import base strings pretty list option numbers sets.
From S2P Require Import Prelude JsString OsRange Domain.

(** ** Idle order: [idle-order.ts] *)

Inductive IdleVictimScope := GlobalScope | PlatformScope (p : Platform).

Definition idle_since (d : VirtualDevice) : Z :=
  default (createdAt (v_fields d)) (lastLeaseEndedAt (v_fields d)).
Definition v_id (d : VirtualDevice) : string := id (v_fields d).

Definition isWarmDevice (d : VirtualDevice) : bool := v_state d === ready.
Definition in_scope (scope : IdleVictimScope) (d : VirtualDevice) : bool :=
  match scope with
  | GlobalScope => true
  | PlatformScope p => vs_platform (v_spec d) === p
  end.

Section order.
Context `{LocaleCompare}.

Definition compareLeastRecentlyUsed : VirtualDevice → VirtualDevice → Z :=
  compare_key_id idle_since v_id.

Definition selectIdleRunningVictim (devices : list VirtualDevice) (scope : IdleVictimScope)
    : option VirtualDevice :=
  head (sort_by compareLeastRecentlyUsed
    (Arr.filter (λ d, isWarmDevice d && in_scope scope d) devices)).

Definition selectManagedVictim (devices : list VirtualDevice) (platform : Platform)
    : option VirtualDevice :=
  head (sort_by compareLeastRecentlyUsed
    (Arr.filter (λ d, (vs_platform (v_spec d) === platform)
      && ((v_state d === ready) || (v_state d === shutdown))) devices)).
End order.

(** ** Rules: [cleanup/] *)

Inductive CleanupAction := act_shutdown | act_destroy.
#[global] Instance CleanupAction_eq_dec : EqDecision CleanupAction.
Proof. solve_decision. Defined.
Definition action_text (a : CleanupAction) : string :=
  match a with act_shutdown => "shutdown" | act_destroy => "destroy" end.

Record CleanupConfig := MkCleanupConfig {
  shutdownAfterMs : Z; deleteAfterMs : Z; freeBytesThreshold : Z }.

Record RegistryView := MkView {
  vw_config : CleanupConfig;
  vw_devices : list VirtualDevice;
  vw_diskFreeBytes : Z;
  vw_leases : list LeaseRecord;
  vw_now : Z;
  vw_targeted : list string }.

Record Proposal := MkProposal {
  pp_action : CleanupAction; pp_reason : string; pp_rule : string; pp_target : string }.
#[global] Instance Proposal_eq_dec : EqDecision Proposal.
Proof. solve_decision. Defined.

Record CleanupRule := MkRule {
  rule_name : string; evaluate : RegistryView → list Proposal }.

Definition hasActiveLease (leases : list LeaseRecord) (deviceId : string) : bool :=
  Arr.some (λ l, l_deviceId l === deviceId) leases.

Definition formatDuration (milliseconds : Z) : string :=
  if (Z.rem milliseconds 60000 =? 0)%Z then pretty (milliseconds ÷ 60000)%Z +:+ "m"
  else pretty (milliseconds / 1000)%Z +:+ "s".

(** [toFixed(1)] of a count of gibibytes rounds half up; the quotient by a power of two is exact. *)
Definition formatBytes (bytes : Z) : string :=
  let gibibyte := (1024 ^ 3)%Z in
  if (bytes mod gibibyte =? 0)%Z then pretty (bytes / gibibyte)%Z +:+ "GiB"
  else
    let tenths := ((20 * bytes + gibibyte) / (2 * gibibyte))%Z in
    pretty (tenths / 10)%Z +:+ "." +:+ pretty (tenths mod 10)%Z +:+ "GiB".

Definition idle_shutdown_device (view : RegistryView) (d : VirtualDevice) : list Proposal :=
  match lastLeaseEndedAt (v_fields d) with
  | None => []
  | Some ended =>
      if (v_state d !== ready) || Arr.includes (v_id d) (vw_targeted view)
         || hasActiveLease (vw_leases view) (v_id d)
      then []
      else
        let idleMs := (vw_now view - ended)%Z in
        let t1 := shutdownAfterMs (vw_config view) in
        if (idleMs <=? t1)%Z then []
        else [MkProposal act_shutdown
                ("idle " +:+ formatDuration idleMs +:+ " > T1=" +:+ formatDuration t1)
                "idle-shutdown" (v_id d)]
  end.
Definition idleShutdownRule : CleanupRule :=
  MkRule "idle-shutdown" (λ view, Arr.flatMap (idle_shutdown_device view) (vw_devices view)).

Definition isUnderPressure (view : RegistryView) : bool :=
  (vw_diskFreeBytes view <? freeBytesThreshold (vw_config view))%Z.
Definition destroy_threshold (view : RegistryView) : Z :=
  if isUnderPressure view then shutdownAfterMs (vw_config view)
  else deleteAfterMs (vw_config view).
Definition destroy_idle_since (d : VirtualDevice) : option Z :=
  spread (lastLeaseEndedAt (v_fields d)) (shutdownAt (v_fields d)).

Definition idle_destroy_device (view : RegistryView) (d : VirtualDevice) : list Proposal :=
  match destroy_idle_since d with
  | None => []
  | Some idleSince =>
      if (v_state d !== shutdown) || hasActiveLease (vw_leases view) (v_id d) then []
      else
        let idleMs := (vw_now view - idleSince)%Z in
        if (idleMs <=? destroy_threshold view)%Z then []
        else
          let config := vw_config view in
          [MkProposal act_destroy
             (if isUnderPressure view then
                "disk pressure (free " +:+ formatBytes (vw_diskFreeBytes view) +:+ " < "
                +:+ formatBytes (freeBytesThreshold config) +:+ "): idle "
                +:+ formatDuration idleMs +:+ " > T1=" +:+ formatDuration (shutdownAfterMs config)
              else "idle " +:+ formatDuration idleMs +:+ " > T2="
                   +:+ formatDuration (deleteAfterMs config))
             "idle-destroy" (v_id d)]
  end.
Definition idleDestroyRule : CleanupRule :=
  MkRule "idle-destroy" (λ view, Arr.flatMap (idle_destroy_device view) (vw_devices view)).

Definition automaticCleanupRules : list CleanupRule := [idleShutdownRule; idleDestroyRule].

(** ** The reaper's reduction: [dedupe], [isSafeProposal], [filterProposals] of [reaper.ts] *)

Definition proposal_key (target : string) (a : CleanupAction) : string :=
  target +:+ ":" +:+ action_text a.
Definition key_of (p : Proposal) : string := proposal_key (pp_target p) (pp_action p).

(** The insertion-ordered map of the first loop. *)
Fixpoint select_first (selected : list (string * Proposal)) (proposals : list Proposal)
    : list (string * Proposal) :=
  match proposals with
  | [] => selected
  | p :: proposals =>
      if Arr.includes (key_of p) selected.*1 then select_first selected proposals
      else select_first (selected ++ [(key_of p, p)]) proposals
  end.
(** The second loop runs over the live map; only shutdown entries are deleted, and a visited
    shutdown entry deletes nothing. *)
Fixpoint drop_shutdowns (visit : list (string * Proposal)) (selected : list (string * Proposal))
    : list (string * Proposal) :=
  match visit with
  | [] => selected
  | (_, p) :: visit =>
      drop_shutdowns visit
        (if pp_action p === act_destroy
         then Arr.filter (λ e, e.1 !== proposal_key (pp_target p) act_shutdown) selected
         else selected)
  end.
Definition dedupe (proposals : list Proposal) : list Proposal :=
  let selected := select_first [] proposals in
  (drop_shutdowns selected selected).*2.

Definition action_allowed (a : CleanupAction) (s : DeviceState) : bool :=
  ((a === act_shutdown) && (s === ready)) || ((a === act_destroy) && (s === shutdown)).

Definition isSafeProposal (p : Proposal) (view : RegistryView) : bool :=
  match Arr.find (λ d, v_id d === pp_target p) (vw_devices view) with
  | None => false
  | Some d =>
      if hasActiveLease (vw_leases view) (v_id d) then false
      else action_allowed (pp_action p) (v_state d)
  end.

Definition filterProposals (rules : list CleanupRule) (view : RegistryView) : list Proposal :=
  Arr.filter (λ p, isSafeProposal p view) (dedupe (Arr.flatMap (λ r, evaluate r view) rules)).

Definition rulesFor (rules : list CleanupRule) (name : option string) : list CleanupRule :=
  match name with
  | None => rules
  | Some n => Arr.filter (λ r, rule_name r === n) rules
  end.

(** [canExecute] of [cleanup-executor.ts], on the registry's current devices and leases. *)
Definition canExecute (d : VirtualDevice) (a : CleanupAction) (leases : list LeaseRecord) : bool :=
  if hasActiveLease leases (v_id d) then false else action_allowed a (v_state d).

(** The crossing of the pressure threshold: [#underPressure], and the events it emitted. *)
Record PressureWatch := MkWatch { pw_under : bool; pw_emitted : list (Z * Z) }.
Definition notePressureCrossing (threshold freeBytes : Z) (w : PressureWatch) : PressureWatch :=
  let underPressure := (freeBytes <? threshold)%Z in
  MkWatch underPressure
    (if underPressure && negb (pw_under w) then pw_emitted w ++ [(freeBytes, threshold)]
     else pw_emitted w).

(** ** Lemmas *)

(** The text key names the pair. *)
Lemma proposal_key_inj t a t' a' : proposal_key t a = proposal_key t' a' → t = t' ∧ a = a'.
Proof.
  assert (∀ t u, t +:+ ":shutdown" ≠ u +:+ ":destroy") as Hne.
  { intros x y H. assert (x +:+ ":shutdown" = (x +:+ ":") +:+ "shutdown") as Hx
      by (by rewrite str_app_assoc).
    rewrite Hx in H. by apply str_app_inj_suffix in H as [_ H]. }
  unfold proposal_key. intros H. destruct a, a'.
  - by apply str_app_inj_suffix in H as [-> _].
  - by destruct (Hne t t').
  - by destruct (Hne t' t).
  - by apply str_app_inj_suffix in H as [-> _].
Qed.

(** The entries of the map are the proposals under their keys, each key once. *)
Definition keyed (l : list (string * Proposal)) : Prop :=
  NoDup l.*1 ∧ ∀ e, e ∈ l → e.1 = key_of e.2.

Lemma select_first_spec selected ps : keyed selected →
  let l := select_first selected ps in
  keyed l ∧ (∀ e, e ∈ l → e ∈ selected ∨ e.2 ∈ ps)
  ∧ (∀ e, e ∈ selected → e ∈ l) ∧ (∀ p, p ∈ ps → key_of p ∈ l.*1).
Proof.
  revert selected. induction ps as [|p ps IH]; intros selected Hk; cbn.
  { split_and!; [done|by left|done|]. by intros p ?%elem_of_nil. }
  unfold Arr.includes. case_bool_decide as Hin.
  - destruct (IH selected Hk) as (H1 & H2 & H3 & H4). split_and!; [done| |done|].
    + intros e [?|?]%H2; [by left|right; by right].
    + intros q [->|Hq]%elem_of_cons; [|by apply H4].
      apply list_elem_of_fmap in Hin as (e & -> & He). apply list_elem_of_fmap_2. by apply H3.
  - assert (keyed (selected ++ [(key_of p, p)])) as Hk'.
    { destruct Hk as [Hn Hv]. split.
      - rewrite fmap_app. apply NoDup_app. split_and!; [done| |apply NoDup_singleton].
        intros x Hx ->%list_elem_of_singleton. done.
      - intros e [?| ->%list_elem_of_singleton]%elem_of_app; [by apply Hv|done]. }
    destruct (IH _ Hk') as (H1 & H2 & H3 & H4). split_and!; [done|..].
    + intros e [[?| ->%list_elem_of_singleton]%elem_of_app|?]%H2; [by left|right; by left|].
      right; by right.
    + intros e He. apply H3, elem_of_app. by left.
    + intros q [->|Hq]%elem_of_cons; [|by apply H4].
      apply (list_elem_of_fmap_2 fst _ (key_of p, p)). apply H3, elem_of_app. right.
      by apply list_elem_of_singleton.
Qed.

Lemma drop_shutdowns_spec visit selected :
  sublist (drop_shutdowns visit selected) selected
  ∧ ∀ e, e ∈ drop_shutdowns visit selected ↔ e ∈ selected
      ∧ ∀ v, v ∈ visit → pp_action v.2 = act_destroy →
          e.1 ≠ proposal_key (pp_target v.2) act_shutdown.
Proof.
  revert selected. induction visit as [|[k p] visit IH]; intros selected; cbn.
  { split; [done|]. intros e. split; [|tauto]. intros He. split; [done|]. by intros v ?%elem_of_nil. }
  destruct (decide (pp_action p = act_destroy)) as [Ha|Ha].
  - rewrite bool_decide_eq_true_2 by done.
    destruct (IH (Arr.filter (λ e, e.1 !== proposal_key (pp_target p) act_shutdown) selected))
      as [Hs He].
    split; [etrans; [done|apply sublist_filter_b]|]. intros e.
    rewrite He, elem_of_afilter, negb_true_iff, bool_decide_eq_false. split.
    + intros [[Hin Hne] Hv]. split; [done|]. by intros v [->|Hv']%elem_of_cons; [|apply Hv].
    + intros [Hin Hv]. split_and!; [done|by apply (Hv (k, p)); [left|]|].
      intros v Hv'. apply Hv. by right.
  - rewrite bool_decide_eq_false_2 by done. destruct (IH selected) as [Hs He]. split; [done|].
    intros e. rewrite He. split; (intros [Hin Hv]; split; [done|]); intros v.
    + intros [->|Hv']%elem_of_cons; [done|by apply Hv].
    + intros Hv'. apply Hv. by right.
Qed.

Lemma dedupe_spec ps :
  NoDup (key_of <$> dedupe ps)
  ∧ ∀ p, p ∈ dedupe ps → p ∈ ps
      ∧ (pp_action p = act_shutdown →
         ∀ q, q ∈ ps → pp_target q = pp_target p → pp_action q ≠ act_destroy).
Proof.
  unfold dedupe. destruct (select_first_spec [] ps) as ((Hn & Hv) & Hin & _ & Hall).
  { split; [constructor|]. by intros e ?%elem_of_nil. }
  set (l := select_first [] ps) in *. destruct (drop_shutdowns_spec l l) as [Hs He].
  set (l' := drop_shutdowns l l) in *.
  assert (∀ e, e ∈ l' → e.1 = key_of e.2) as Hv' by (intros e [? _]%He; by apply Hv).
  split.
  - replace (key_of <$> l'.*2) with (l'.*1).
    + eapply sublist_NoDup; [done|]. by apply fmap_sublist.
    + rewrite <- list_fmap_compose. apply list_fmap_ext. intros i e Hi. cbn.
      by apply Hv', (list_elem_of_lookup_2 _ i).
  - intros p ([k q] & -> & [Hq Hd]%He)%list_elem_of_fmap. cbn in *. split.
    + by destruct (Hin _ Hq) as [?%elem_of_nil|].
    + intros Ha x Hx Ht Hx'. apply Hall in Hx as ([k' y] & Hk & Hy)%list_elem_of_fmap.
      pose proof (Hv _ Hy) as Hk'. cbn in Hk, Hk'. subst k'. unfold key_of in Hk'.
      apply proposal_key_inj in Hk' as [Ht' Ha']. apply (Hd _ Hy); cbn; [congruence|].
      pose proof (Hv _ Hq) as Hk. cbn in Hk. rewrite Hk. unfold key_of. by rewrite Ha, <- Ht, Ht'.
Qed.

(** Proposals with distinct targets pass unchanged. *)
Lemma dedupe_distinct ps : NoDup (pp_target <$> ps) → dedupe ps = ps.
Proof.
  intros Hn. unfold dedupe.
  assert (∀ sel, NoDup (sel.*1 ++ (key_of <$> ps)) →
    select_first sel ps = sel ++ ((λ p, (key_of p, p)) <$> ps)) as Hsel.
  { clear Hn. induction ps as [|p ps IH]; intros sel Hd; cbn; [by rewrite app_nil_r|].
    unfold Arr.includes. cbn in Hd. apply NoDup_app in Hd as Hd'. destruct Hd' as (_ & Hdis & _).
    rewrite bool_decide_eq_false_2 by (intros Hin; apply (Hdis _ Hin); by left).
    rewrite IH, <- app_assoc; [done|]. by rewrite fmap_app, <- app_assoc. }
  assert (NoDup (key_of <$> ps)) as Hk.
  { apply NoDup_fmap_2_strong; [|by eapply NoDup_fmap_1]. intros x y Hx Hy [Hxy _]%proposal_key_inj.
    by apply (NoDup_fmap_inj_on pp_target ps). }
  rewrite Hsel by done. cbn. set (l := (λ p, (key_of p, p)) <$> ps).
  assert (∀ visit sel, (∀ v, v ∈ visit → pp_action v.2 = act_destroy →
    ∀ e, e ∈ sel → e.1 ≠ proposal_key (pp_target v.2) act_shutdown) →
    drop_shutdowns visit sel = sel) as Hdrop.
  { clear. induction visit as [|[k p] visit IH]; intros sel H; cbn; [done|]. rewrite IH.
    - case_bool_decide as Ha; [|done]. specialize (H (k, p) ltac:(by left) Ha). cbn in H. clear IH.
      unfold Arr.filter. induction sel as [|e sel IH]; cbn; [done|].
      rewrite bool_decide_eq_false_2 by (by apply H; left). cbn. f_equal. apply IH.
      intros x Hx. apply H. by right.
    - intros v Hv Ha e He. assert (e ∈ sel) as He' by (case_bool_decide; [|done];
        by apply elem_of_afilter in He as [? _]).
      apply (H v); [by right|done|done]. }
  rewrite Hdrop.
  - unfold l. clear. induction ps as [|p ps IH]; [done|]. cbn. by rewrite IH.
  - intros v Hv Ha e He Heq. unfold l in *.
    apply list_elem_of_fmap in Hv as (p & -> & Hp), He as (q & -> & Hq). cbn in *.
    apply proposal_key_inj in Heq as [Ht Hqa].
    assert (p = q) as -> by (by apply (NoDup_fmap_inj_on pp_target ps)). congruence.
Qed.

Lemma isSafeProposal_true p view : isSafeProposal p view = true →
  ∃ d, d ∈ vw_devices view ∧ v_id d = pp_target p
    ∧ (∀ l, l ∈ vw_leases view → l_deviceId l ≠ v_id d)
    ∧ (pp_action p = act_shutdown ∧ v_state d = ready
       ∨ pp_action p = act_destroy ∧ v_state d = shutdown)
    ∧ Arr.find (λ d, v_id d === pp_target p) (vw_devices view) = Some d.
Proof.
  unfold isSafeProposal. destruct (Arr.find _ _) as [d|] eqn:E; [|done].
  apply afind_Some in E as E'. destruct E' as [Hd Hid%bool_decide_eq_true].
  destruct (hasActiveLease _ _) eqn:Hl; [done|]. intros Ha. exists d. split_and!; [done..| | |done].
  - unfold hasActiveLease in Hl. rewrite asome_false in Hl. intros l Hin%Hl.
    by apply bool_decide_eq_false in Hin.
  - unfold action_allowed in Ha. rewrite orb_true_iff, !andb_true_iff, !bool_decide_eq_true in Ha.
    tauto.
Qed.

(** The device of a proposal that is safe as soon as it is proposed. *)
Lemma isSafeProposal_unique p view d :
  NoDup (v_id <$> vw_devices view) → d ∈ vw_devices view → v_id d = pp_target p →
  hasActiveLease (vw_leases view) (v_id d) = false →
  action_allowed (pp_action p) (v_state d) = true → isSafeProposal p view = true.
Proof.
  intros Hn Hd Hid Hl Ha. unfold isSafeProposal. destruct (Arr.find _ _) as [e|] eqn:E.
  - apply afind_Some in E as [He Hide%bool_decide_eq_true].
    assert (e = d) as -> by (eapply (NoDup_fmap_inj_on v_id); [done..|congruence]).
    by rewrite Hl.
  - rewrite afind_None in E. specialize (E d Hd). by rewrite bool_decide_eq_true_2 in E.
Qed.

(** What each rule says of one device. *)
Definition shutdown_due (view : RegistryView) (d : VirtualDevice) : Prop :=
  v_state d = ready ∧ (v_id d ∉ vw_targeted view)
  ∧ hasActiveLease (vw_leases view) (v_id d) = false
  ∧ ∃ ended, lastLeaseEndedAt (v_fields d) = Some ended
      ∧ (shutdownAfterMs (vw_config view) < vw_now view - ended)%Z.
Definition destroy_due (view : RegistryView) (d : VirtualDevice) : Prop :=
  v_state d = shutdown ∧ hasActiveLease (vw_leases view) (v_id d) = false
  ∧ ∃ since, destroy_idle_since d = Some since
      ∧ ((if isUnderPressure view then shutdownAfterMs (vw_config view)
          else deleteAfterMs (vw_config view)) < vw_now view - since)%Z.

Lemma idle_shutdown_device_spec view d :
  (∃ p, idle_shutdown_device view d = [p] ∧ pp_action p = act_shutdown ∧ pp_target p = v_id d
        ∧ shutdown_due view d)
  ∨ (idle_shutdown_device view d = [] ∧ ¬ shutdown_due view d).
Proof.
  unfold idle_shutdown_device, shutdown_due, Arr.includes.
  destruct (lastLeaseEndedAt _) as [ended|]; [|right; naive_solver].
  destruct (decide (v_state d = ready)) as [Hs|Hs];
    [rewrite (bool_decide_eq_true_2 _ Hs)|rewrite (bool_decide_eq_false_2 _ Hs); right; naive_solver].
  case_bool_decide as Ht; [right; naive_solver|]. cbn.
  destruct (hasActiveLease _ _) eqn:Hl; [right; naive_solver|].
  destruct (Z.leb_spec (vw_now view - ended) (shutdownAfterMs (vw_config view))).
  - right. split; [done|]. intros (_ & _ & _ & e & [= <-] & ?). lia.
  - left. eexists. split_and!; [done..|]. eauto.
Qed.

Lemma idle_destroy_device_spec view d :
  (∃ p, idle_destroy_device view d = [p] ∧ pp_action p = act_destroy ∧ pp_target p = v_id d
        ∧ destroy_due view d)
  ∨ (idle_destroy_device view d = [] ∧ ¬ destroy_due view d).
Proof.
  unfold idle_destroy_device, destroy_due. fold (destroy_threshold view).
  destruct (destroy_idle_since d) as [since|]; [|right; naive_solver].
  destruct (decide (v_state d = shutdown)) as [Hs|Hs];
    [rewrite (bool_decide_eq_true_2 _ Hs)|rewrite (bool_decide_eq_false_2 _ Hs); right; naive_solver].
  cbn. destruct (hasActiveLease _ _) eqn:Hl; [right; naive_solver|].
  destruct (Z.leb_spec (vw_now view - since) (destroy_threshold view)).
  - right. split; [done|]. intros (_ & _ & e & [= <-] & ?). lia.
  - left. eexists. split_and!; [done..|]. eauto.
Qed.

Lemma elem_of_idle_shutdown view d p : p ∈ idle_shutdown_device view d →
  pp_action p = act_shutdown ∧ pp_target p = v_id d ∧ shutdown_due view d.
Proof.
  destruct (idle_shutdown_device_spec view d) as [(q & -> & H)|[-> _]].
  - by intros ->%list_elem_of_singleton.
  - by intros ?%elem_of_nil.
Qed.
Lemma elem_of_idle_destroy view d p : p ∈ idle_destroy_device view d →
  pp_action p = act_destroy ∧ pp_target p = v_id d ∧ destroy_due view d.
Proof.
  destruct (idle_destroy_device_spec view d) as [(q & -> & H)|[-> _]].
  - by intros ->%list_elem_of_singleton.
  - by intros ?%elem_of_nil.
Qed.

(** A rule that proposes at most its own device for each device keeps targets distinct. *)
Lemma flatMap_targets (f : VirtualDevice → list Proposal) devices :
  (∀ d, f d = [] ∨ ∃ p, f d = [p] ∧ pp_target p = v_id d) →
  sublist (pp_target <$> Arr.flatMap f devices) (v_id <$> devices).
Proof.
  intros Hf. unfold Arr.flatMap. induction devices as [|d devices IH]; cbn; [done|].
  rewrite fmap_app. destruct (Hf d) as [->|(p & -> & Hp)]; cbn.
  - by constructor.
  - rewrite Hp. by constructor.
Qed.

(** The targets of the two automatic rules are distinct, one rule's from the other's too. *)
Lemma automatic_targets view : NoDup (v_id <$> vw_devices view) →
  NoDup (pp_target <$> Arr.flatMap (λ r, evaluate r view) automaticCleanupRules).
Proof.
  intros Hn. unfold Arr.flatMap. cbn. rewrite app_nil_r, fmap_app. apply NoDup_app. split_and!.
  - eapply sublist_NoDup; [exact Hn|]. apply flatMap_targets. intros d.
    destruct (idle_shutdown_device_spec view d) as [(p & ? & _ & ? & _)|[? _]]; eauto.
  - intros t (p & -> & Hp)%list_elem_of_fmap (q & Ht & Hq)%list_elem_of_fmap.
    apply list_elem_of_bind in Hp as (d & Hp & Hd), Hq as (e & Hq & He).
    apply elem_of_idle_shutdown in Hp as (_ & Hpt & Hr & _).
    apply elem_of_idle_destroy in Hq as (_ & Hqt & Hs & _).
    assert (d = e) as -> by (eapply (NoDup_fmap_inj_on v_id); [done..|congruence]). congruence.
  - eapply sublist_NoDup; [exact Hn|]. apply flatMap_targets. intros d.
    destruct (idle_destroy_device_spec view d) as [(p & ? & _ & ? & _)|[? _]]; eauto.
Qed.

(** The head of the sorted candidates: a candidate used no later than any other. *)
Lemma victim_spec `{LocaleCompareLaws} devices (f : VirtualDevice → bool) (P : VirtualDevice → Prop) :
  (∀ d, f d = true ↔ P d) →
  match head (sort_by compareLeastRecentlyUsed (Arr.filter f devices)) with
  | Some v => v ∈ devices ∧ P v ∧ ∀ d, d ∈ devices → P d → (idle_since v ≤ idle_since d)%Z
  | None => ∀ d, d ∈ devices → ¬ P d
  end.
Proof.
  intros HfP. destruct (head _) as [v|] eqn:E.
  - apply sort_by_head in E as [Hv Hmin]; [|apply _]. apply elem_of_afilter in Hv as [Hv Hf%HfP].
    split_and!; [done..|]. intros d Hd HP%HfP.
    specialize (Hmin d ltac:(by apply elem_of_afilter)).
    unfold compareLeastRecentlyUsed, compare_key_id, num_or in Hmin.
    destruct (Z.eqb_spec (idle_since v - idle_since d) 0); lia.
  - apply sort_by_head_None in E. intros d Hd HP%HfP.
    assert (d ∈ Arr.filter f devices) as Hin by (by apply elem_of_afilter).
    rewrite E in Hin. by apply elem_of_nil in Hin.
Qed.

(** Every victim is one of the devices offered, in the state its kind asks for. *)
Lemma running_victim_elem `{LocaleCompare} devices scope v :
  selectIdleRunningVictim devices scope = Some v →
  v ∈ devices ∧ v_state v = ready ∧ in_scope scope v = true.
Proof.
  unfold selectIdleRunningVictim. intros Hh.
  assert (v ∈ sort_by compareLeastRecentlyUsed
    (Arr.filter (λ d, isWarmDevice d && in_scope scope d) devices)) as Hin.
  { destruct (sort_by _ _); [done|]. injection Hh as ->. by left. }
  rewrite elem_of_sort_by, elem_of_afilter, andb_true_iff in Hin.
  unfold isWarmDevice in Hin. rewrite bool_decide_eq_true in Hin. tauto.
Qed.
Lemma managed_victim_elem `{LocaleCompare} devices platform v :
  selectManagedVictim devices platform = Some v →
  v ∈ devices ∧ vs_platform (v_spec v) = platform ∧ (v_state v = ready ∨ v_state v = shutdown).
Proof.
  unfold selectManagedVictim. intros Hh.
  match type of Hh with head ?l = _ => assert (v ∈ l) as Hin end.
  { destruct (sort_by _ _); [done|]. injection Hh as ->. by left. }
  rewrite elem_of_sort_by, elem_of_afilter, andb_true_iff, orb_true_iff, !bool_decide_eq_true in Hin.
  tauto.
Qed.

(** ** Properties *)

(** The device chosen to make room is the one idle longest: it is among the eligible devices
    (ready and in scope for a running victim, ready or shut down on the platform for a managed
    one), no eligible device's last use is older, and there is no victim only when nothing is
    eligible. *)
Theorem victims_least_recently_used `{LocaleCompareLaws} devices scope platform :
  let warm d := v_state d = ready ∧ in_scope scope d = true in
  let idle d := vs_platform (v_spec d) = platform ∧ (v_state d = ready ∨ v_state d = shutdown) in
  match selectIdleRunningVictim devices scope with
  | Some v => v ∈ devices ∧ warm v ∧ ∀ d, d ∈ devices → warm d → (idle_since v ≤ idle_since d)%Z
  | None => ∀ d, d ∈ devices → ¬ warm d
  end
  ∧ match selectManagedVictim devices platform with
    | Some v => v ∈ devices ∧ idle v ∧ ∀ d, d ∈ devices → idle d → (idle_since v ≤ idle_since d)%Z
    | None => ∀ d, d ∈ devices → ¬ idle d
    end.
Proof.
  intros warm idle. split; apply victim_spec; intros d.
  - unfold isWarmDevice, warm. by rewrite andb_true_iff, bool_decide_eq_true.
  - unfold idle. by rewrite andb_true_iff, orb_true_iff, !bool_decide_eq_true.
Qed.

Lemma victims_least_recently_used_witness :
  @selectIdleRunningVictim Codepoint.compare [sample_virtual "dev_1" leased] GlobalScope = None
  ∧ ∀ d, d ∈ [sample_virtual "dev_1" leased] → ¬ (v_state d = ready ∧ true = true).
Proof.
  split; [vm_compute; reflexivity|].
  apply (proj1 (@victims_least_recently_used Codepoint.compare Codepoint.laws
    [sample_virtual "dev_1" leased] GlobalScope ios)).
Defined.

(** Whatever rules are registered, a cleanup run acts at most once per device, and only on an
    unleased managed device in the state the action applies to: a ready one is shut down, a
    shut-down one destroyed. No proposal is invented, and the executor's own check, made on the
    same devices and leases, accepts every one. *)
Theorem cleanup_proposals_safe rules view :
  let proposals := filterProposals rules view in
  NoDup (pp_target <$> proposals)
  ∧ ∀ p, p ∈ proposals →
      (∃ r, r ∈ rules ∧ p ∈ evaluate r view)
      ∧ ∃ d, d ∈ vw_devices view ∧ v_id d = pp_target p
          ∧ (∀ l, l ∈ vw_leases view → l_deviceId l ≠ pp_target p)
          ∧ v_state d = match pp_action p with act_shutdown => ready | act_destroy => shutdown end
          ∧ canExecute d (pp_action p) (vw_leases view) = true.
Proof.
  intros proposals. destruct (dedupe_spec (Arr.flatMap (λ r, evaluate r view) rules)) as [Hn Hin].
  split.
  - apply NoDup_fmap_2_strong.
    + intros p q [Hp (d & _ & _ & _ & Hap & Ed)%isSafeProposal_true]%elem_of_afilter
        [Hq (e & _ & _ & _ & Haq & Ee)%isSafeProposal_true]%elem_of_afilter Ht.
      rewrite Ht in Ed. simplify_eq. eapply (NoDup_fmap_inj_on key_of); [exact Hn|done..|].
      unfold key_of. rewrite Ht. f_equal. destruct Hap as [[-> Hs]|[-> Hs]], Haq as [[-> Hs']|[-> Hs']];
        congruence.
    + apply NoDup_fmap_1 in Hn. eapply sublist_NoDup; [exact Hn|]. apply sublist_filter_b.
  - intros p [Hp Hs]%elem_of_afilter. apply isSafeProposal_true in Hs as (d & Hd & Hid & Hl & Ha & E).
    split.
    + apply Hin in Hp as [(r & Hr & Hir)%list_elem_of_bind _]. eauto.
    + exists d. split_and!; [done..| | |].
      * rewrite <- Hid. done.
      * by destruct Ha as [[-> ?]|[-> ?]].
      * unfold canExecute. replace (hasActiveLease _ _) with false.
        -- unfold action_allowed. by destruct Ha as [[-> ->]|[-> ->]].
        -- symmetry. apply asome_false. intros l Hin'. apply bool_decide_eq_false. by apply Hl.
Qed.

(** The automatic rules do exactly what their thresholds say. With distinct device ids, a
    device is proposed for shutdown if and only if it is ready, spared by no warm target, unleased
    and has been idle longer than T1 since its last lease; for destruction if and only if it is
    shut down, unleased and idle longer than T2, or than T1 while the disk is under pressure. The
    reduction of the proposals loses none of them. *)
Theorem automatic_cleanup_exact view :
  NoDup (v_id <$> vw_devices view) →
  ∀ d, d ∈ vw_devices view →
    let proposed a := ∃ p, p ∈ filterProposals automaticCleanupRules view
      ∧ pp_target p = v_id d ∧ pp_action p = a in
    (proposed act_shutdown ↔ shutdown_due view d)
    ∧ (proposed act_destroy ↔ destroy_due view d).
Proof.
  intros Hn d Hd proposed.
  assert (∀ p, p ∈ filterProposals automaticCleanupRules view ↔
    (∃ e, e ∈ vw_devices view
       ∧ ((p ∈ idle_shutdown_device view e) ∨ (p ∈ idle_destroy_device view e)))) as Hin.
  { intros p. unfold filterProposals.
    rewrite dedupe_distinct by (by apply automatic_targets). rewrite elem_of_afilter.
    assert (p ∈ Arr.flatMap (λ r, evaluate r view) automaticCleanupRules ↔ ∃ e, e ∈ vw_devices view
      ∧ ((p ∈ idle_shutdown_device view e) ∨ (p ∈ idle_destroy_device view e))) as Hflat.
    { unfold Arr.flatMap. cbn. rewrite app_nil_r, elem_of_app, !list_elem_of_bind. naive_solver. }
    rewrite Hflat. split; [tauto|]. intros (e & He & Hp). split; [by exists e|].
    destruct Hp as [(Ha & Ht & Hs & _ & Hl & _)%elem_of_idle_shutdown
      |(Ha & Ht & Hs & Hl & _)%elem_of_idle_destroy];
      (apply (isSafeProposal_unique _ _ e); [done..|]); by rewrite Ha, Hs. }
  assert (∀ e, e ∈ vw_devices view → v_id e = v_id d → e = d) as Huniq.
  { intros e He Hid. by apply (NoDup_fmap_inj_on v_id (vw_devices view)). }
  unfold proposed. setoid_rewrite Hin. split; split.
  - intros (p & (e & He & [(Ha & Hq & Hdue)%elem_of_idle_shutdown
      |(Ha & _)%elem_of_idle_destroy]) & Ht & Hact); [|congruence].
    rewrite <- (Huniq e); [done..|congruence].
  - intros Hdue. destruct (idle_shutdown_device_spec view d) as [(p & Ep & Ha & Ht & _)|[_ []]]; [|done].
    exists p. split; [|done]. exists d. split; [done|]. left. rewrite Ep. by left.
  - intros (p & (e & He & [(Ha & _)%elem_of_idle_shutdown
      |(Ha & Hq & Hdue)%elem_of_idle_destroy]) & Ht & Hact); [congruence|].
    rewrite <- (Huniq e); [done..|congruence].
  - intros Hdue. destruct (idle_destroy_device_spec view d) as [(p & Ep & Ha & Ht & _)|[_ []]]; [|done].
    exists p. split; [|done]. exists d. split; [done|]. right. rewrite Ep. by left.
Qed.

Definition sample_view : RegistryView :=
  MkView (MkCleanupConfig 1000 5000 0)
    [(sample_virtual "dev_1" ready) <| v_fields := (sample_fields "dev_1") <| lastLeaseEndedAt := Some 0%Z |> |>]
    1 [] 3000 [].

Lemma automatic_cleanup_exact_witness :
  ∃ p, p ∈ filterProposals automaticCleanupRules sample_view
    ∧ pp_target p = "dev_1" ∧ pp_action p = act_shutdown.
Proof.
  apply (automatic_cleanup_exact sample_view (NoDup_singleton _) _ (list_elem_of_here _ _)).
  split; [reflexivity|]. split; [intros H; inversion H|]. split; [reflexivity|].
  exists 0%Z. split; [reflexivity|]. vm_compute. reflexivity.
Defined.
