(* ===== verification/Planner.v ===== *)
(** * The acquisition planner: [src/leasing/acquisition-planner.ts]

    What to do for a lease request: grant a ready device, boot one, create one, make room, wait, or
    refuse. The planner decides over a registry snapshot and takes capacity reservations and device
    claims from the two components it is built on ([Capacity], [Claims]); here it passes their
    states through. *)
From stdpp Require Import base strings list option numbers gmap sets.
From S2P Require Import Prelude JsString OsRange Domain Capacity Claims Cleanup.

(** ** Definitions *)

Record AcquisitionPlannerSnapshot := MkSnapshot {
  sn_devices : list DeviceRecord;
  sn_leases : list LeaseRecord }.
(** The virtual devices of a snapshot are the virtual ones of its devices, in order. *)
Definition sn_virtualDevices (s : AcquisitionPlannerSnapshot) : list VirtualDevice :=
  omap dev_virtual (sn_devices s).

Record AcquisitionPlannerInput := MkPlannerInput {
  in_noWait : bool;
  in_owner : option string;
  in_snapshot : AcquisitionPlannerSnapshot;
  in_spec : VirtualSpec;
  in_requirement : option DeviceRequirement;
  in_rebootReady : option bool;
  in_classOf : option (string → option DeviceClass) }.

Record PhysicalPlanInput := MkPhysicalInput {
  ph_request : PhysicalRequest;
  ph_noWait : bool;
  ph_owner : string;
  ph_snapshot : AcquisitionPlannerSnapshot;
  ph_absent : list string;
  ph_heldByOlder : PhysicalDevice → bool }.

Inductive WaitingReason :=
| CapacityReason (r : CapacityRefusalReason)
| behind_earlier_request | waiting_for_device | no_free_physical.
#[global] Instance WaitingReason_eq_dec : EqDecision WaitingReason.
Proof. solve_decision. Defined.

Definition CAPACITY_WAITING_REASON (r : CapacityRefusalReason) : WaitingReason := CapacityReason r.
Definition capacityReasonOf (reason : option WaitingReason) : option CapacityRefusalReason :=
  match reason with Some (CapacityReason r) => Some r | _ => None end.

Inductive AcquisitionPlan :=
| GrantReady (d : DeviceRecord)
| RebootReady (claim : DeviceOperationClaim) (d : VirtualDevice)
| GrantPhysical (claim : DeviceOperationClaim) (d : PhysicalDevice)
| BootShutdown (r : CapacityReservation) (claim : DeviceOperationClaim) (d : VirtualDevice)
| Provision (r : CapacityReservation)
| EvictRunning (claim : DeviceOperationClaim) (d : VirtualDevice) (reason : WaitingReason)
| EvictManaged (claim : DeviceOperationClaim) (d : VirtualDevice) (reason : WaitingReason)
| Wait (reason : WaitingReason)
| NoCapacity (reason : WaitingReason).

Definition blocked (noWait : bool) (reason : WaitingReason) : AcquisitionPlan :=
  if noWait then NoCapacity reason else Wait reason.

(** [FittablePhysical] of an enrolled device: its class is its spec's. *)
Definition fittable_physical (p : PhysicalDevice) : FittablePhysical :=
  MkFittablePhysical (ps_platform (p_spec p)) (ps_model (p_spec p)) (ps_osVersion (p_spec p))
    (Some (ps_class (p_spec p))) None.

Section planner.
Context `{LocaleCompare} {S : Type} `{CapacityStrategy S}
  (strategy : S) (pressure : option PressureStep).

(** The two components the planner shares with the rest of the daemon. *)
Record PlannerState := MkPlannerState {
  st_capacity : Coordinator;
  st_claims : DeviceOperationClaims }.
Implicit Types (st : PlannerState) (input : AcquisitionPlannerInput).

Definition serves input (d : DeviceRecord) : bool :=
  let requirement := default (exactRequirement (in_spec input)) (in_requirement input) in
  let classOf := default (λ _, None) (in_classOf input) in
  mayBeGranted d
  && (specMode (dev_spec d) === specMode (VSpec (in_spec input)))
  && fits requirement (fittable (dev_spec d)) classOf.
Definition servesRequest st input (d : DeviceRecord) : bool :=
  negb (isClaimed (st_claims st) (dev_id d)) && serves input d.

Definition eligibleEvictionDevices st (snapshot : AcquisitionPlannerSnapshot)
    : list VirtualDevice :=
  let leased := l_deviceId <$> sn_leases snapshot in
  Arr.filter (λ d, negb (Arr.includes (v_id d) leased) && negb (isClaimed (st_claims st) (v_id d)))
    (sn_virtualDevices snapshot).

Definition snapshot_capacity (snapshot : AcquisitionPlannerSnapshot) : list CapacityDevice :=
  capacityDevices (sn_virtualDevices snapshot).

Definition runningVictim st (snapshot : AcquisitionPlannerSnapshot)
    (reason : CapacityRefusalReason) (platform : Platform) : option VirtualDevice :=
  if (reason !== global_running_limit) && (reason !== platform_running_limit) then None else
  let capacity := coordinator_runningCapacity strategy (st_capacity st)
                    (snapshot_capacity snapshot) in
  let platformBlocked := at_limit (rc_platform capacity platform) in
  let scope := if platformBlocked then PlatformScope platform else GlobalScope in
  selectIdleRunningVictim (eligibleEvictionDevices st snapshot) scope.

Definition claimManagedEviction st (d : VirtualDevice) (noWait : bool) (reason : WaitingReason)
    : PlannerState * AcquisitionPlan :=
  match tryClaim (st_claims st) (v_id d) op_eviction None with
  | None => (st, blocked noWait reason)
  | Some (t, claim) => (MkPlannerState (st_capacity st) t, EvictManaged claim d reason)
  end.
Definition claimEviction st (d : VirtualDevice) (noWait : bool) (reason : WaitingReason)
    : PlannerState * AcquisitionPlan :=
  match tryClaim (st_claims st) (v_id d) op_eviction None with
  | None => (st, blocked noWait reason)
  | Some (t, claim) => (MkPlannerState (st_capacity st) t, EvictRunning claim d reason)
  end.

Definition planReady st input (d : DeviceRecord) : PlannerState * AcquisitionPlan :=
  match d with
  | Virtual v =>
      if in_rebootReady input !== Some true then (st, GrantReady d)
      else if newDevicesPaused pressure
      then (st, blocked (in_noWait input) (CapacityReason memory_pressure))
      else
        match tryClaim (st_claims st) (v_id v) op_boot (in_owner input) with
        | None => (st, blocked (in_noWait input) waiting_for_device)
        | Some (t, claim) => (MkPlannerState (st_capacity st) t, RebootReady claim v)
        end
  | Physical _ => (st, GrantReady d)
  end.

Definition isOnItsWay st input (d : VirtualDevice) : bool :=
  if (v_state d !== provisioning) && (v_state d !== shutdown) then false
  else match claim_of (st_claims st) (v_id d) with
       | Some (kind, owner) =>
           (kind === op_boot) && (owner === None) && serves input (Virtual d)
       | None => false
       end.

Definition planShutdownBoot st input (d : VirtualDevice) : PlannerState * AcquisitionPlan :=
  match tryReserveBoot strategy pressure (st_capacity st) (v_id d) (capacityDevice d)
          (snapshot_capacity (in_snapshot input)) with
  | Err refusal =>
      let reason := CAPACITY_WAITING_REASON refusal in
      match runningVictim st (in_snapshot input) refusal (vs_platform (in_spec input)) with
      | None => (st, blocked (in_noWait input) reason)
      | Some victim => claimEviction st victim (in_noWait input) reason
      end
  | Ok (c, reservation) =>
      match tryClaim (st_claims st) (v_id d) op_boot (in_owner input) with
      | None => (MkPlannerState (release reservation c) (st_claims st),
                 blocked (in_noWait input) waiting_for_device)
      | Some (t, claim) => (MkPlannerState c t, BootShutdown reservation claim d)
      end
  end.

Definition planProvision st input : PlannerState * AcquisitionPlan :=
  match tryReserveProvisioning strategy pressure (st_capacity st)
          (plannedCapacityDevice (in_spec input)) (snapshot_capacity (in_snapshot input)) with
  | Ok (c, reservation) => (MkPlannerState c (st_claims st), Provision reservation)
  | Err refusal =>
      let reason := CAPACITY_WAITING_REASON refusal in
      let managed :=
        if refusal === device_limit
        then selectManagedVictim (eligibleEvictionDevices st (in_snapshot input))
               (vs_platform (in_spec input))
        else None in
      match managed with
      | Some victim => claimManagedEviction st victim (in_noWait input) reason
      | None =>
          match runningVictim st (in_snapshot input) refusal (vs_platform (in_spec input)) with
          | None => (st, blocked (in_noWait input) reason)
          | Some victim => claimEviction st victim (in_noWait input) reason
          end
      end
  end.

Definition plan st input : PlannerState * AcquisitionPlan :=
  let snapshot := in_snapshot input in
  match Arr.find (λ d, (dev_state d === ready) && servesRequest st input d) (sn_devices snapshot) with
  | Some d => planReady st input d
  | None =>
      if negb (in_noWait input) && Arr.some (isOnItsWay st input) (sn_virtualDevices snapshot)
      then (st, Wait waiting_for_device)
      else
        match Arr.find (λ d, (v_state d === shutdown) && servesRequest st input (Virtual d))
                (sn_virtualDevices snapshot) with
        | Some d => planShutdownBoot st input d
        | None => planProvision st input
        end
  end.

(** The loop of [planPhysical], with its [heldForOlder] flag. *)
Fixpoint plan_physical_loop st (input : PhysicalPlanInput) (heldForOlder : bool)
    (devices : list DeviceRecord) : PlannerState * AcquisitionPlan :=
  match devices with
  | [] => (st, blocked (ph_noWait input)
             (if heldForOlder then behind_earlier_request else no_free_physical))
  | Virtual _ :: devices => plan_physical_loop st input heldForOlder devices
  | Physical p :: devices =>
      if p_state p !== ready then plan_physical_loop st input heldForOlder devices
      else if Arr.includes (id (p_fields p)) (ph_absent input)
      then plan_physical_loop st input heldForOlder devices
      else if negb (fitsPhysical (fittable_physical p) (ph_request input))
      then plan_physical_loop st input heldForOlder devices
      else if ph_heldByOlder input p then plan_physical_loop st input true devices
      else
        match tryClaim (st_claims st) (id (p_fields p)) op_grant (Some (ph_owner input)) with
        | Some (t, claim) => (MkPlannerState (st_capacity st) t, GrantPhysical claim p)
        | None => plan_physical_loop st input heldForOlder devices
        end
  end.
Definition planPhysical st (input : PhysicalPlanInput) : PlannerState * AcquisitionPlan :=
  plan_physical_loop st input false (sn_devices (ph_snapshot input)).
End planner.

(** ** Lemmas *)

(** What a plan holds for its caller. *)
Definition plan_claim (p : AcquisitionPlan) : option DeviceOperationClaim :=
  match p with
  | RebootReady k _ | GrantPhysical k _ | BootShutdown _ k _
  | EvictRunning k _ _ | EvictManaged k _ _ => Some k
  | _ => None
  end.
Definition plan_reservation (p : AcquisitionPlan) : option CapacityReservation :=
  match p with BootShutdown r _ _ | Provision r => Some r | _ => None end.

(** The entries a coordinator holds. *)
Definition holdings (c : Coordinator)
    : list (nat * PlannedCapacityDevice) * list (nat * Platform) * list (nat * string) :=
  (provisioningReservations c, runningReservations c, bootReservations c).

(** The claims of [st'] are those of [st] and the plan's own, which nothing held. *)
Definition claims_added (st st' : PlannerState) (p : AcquisitionPlan) : Prop :=
  match plan_claim p with
  | None => st_claims st' = st_claims st
  | Some k =>
      claims (st_claims st) !! k_deviceId k = None
      ∧ claims (st_claims st') = <[k_deviceId k := k]> (claims (st_claims st))
  end.

(** A reservation just taken, released at once, leaves the entries as they were. *)
Lemma without_entry_fresh {A} n (l : list (nat * A)) x : n ∉ l.*1 →
  without_entry n (l ++ [(n, x)]) = l.
Proof.
  intros Hn. unfold without_entry.
  assert (Arr.findIndex (λ e, e.1 === n) (l ++ [(n, x)]) = Some (length l)) as ->.
  { apply afindIndex_Some. exists (n, x). split_and!.
    - by rewrite lookup_app_r, Nat.sub_diag by lia.
    - by apply bool_decide_eq_true.
    - intros j y Hj Hlt. rewrite lookup_app_l in Hj by lia. apply bool_decide_eq_false. intros <-.
      apply Hn, list_elem_of_fmap_2. by eapply list_elem_of_lookup_2. }
  unfold Arr.removeAt. by rewrite delete_middle, app_nil_r.
Qed.

Lemma release_restores {S} `{CapacityStrategy S} (s : S) pressure c c' r issued :
  capacity_reachable s c issued → reserve_step s pressure c c' r →
  holdings (release r c') = holdings c.
Proof.
  intros B%capacity_reachable_books Hs. pose proof (reserve_step_shape _ _ _ _ _ Hs) as (Hrel & _ & Hsh).
  destruct (books_fresh c issued (nextEntry c) B ltac:(lia)) as (F1 & F2 & F3 & F4).
  destruct (books_fresh c issued (nextEntry c + 1) B ltac:(lia)) as (G1 & G2 & G3 & G4).
  destruct B as [[_ Bp] [_ Br] [_ Bb] _ _]. unfold holdings.
  destruct Hsh as [(d & -> & _ & Hp & Hu & Hb)|[(p & i & -> & _ & Hp & Hu & Hb)
    |(i & -> & _ & Hp & Hu & Hb)]]; cbn;
    unfold release_boot, release_running, release_provisioning, release_entry, Arr.includes;
    rewrite ?Hrel, (bool_decide_eq_false_2 _ (F4 _)); cbn; rewrite ?Hrel.
  - rewrite Hp, Hu, Hb, without_entry_fresh; [done|]. rewrite Bp. tauto.
  - rewrite (bool_decide_eq_false_2 ((BootList, _) ∈ _)) by (specialize (G4 BootList); set_solver).
    cbn. rewrite Hp, Hu, Hb, !without_entry_fresh; [done| |].
    + rewrite Bb. tauto.
    + rewrite Br. tauto.
  - rewrite Hp, Hu, Hb, without_entry_fresh; [done|]. rewrite Bb. tauto.
Qed.

Section plan_lemmas.
Context `{LocaleCompare} {S : Type} `{CapacityStrategy S}
  (strategy : S) (pressure : option PressureStep).
Implicit Types (st : PlannerState) (input : AcquisitionPlannerInput).

(** A plan that names what it took: the claims grew by its claim, and giving its reservation
    back, if it has one, leaves the entries the planner started from. *)
Definition accounted st (result : PlannerState * AcquisitionPlan) : Prop :=
  claims_added st (fst result) (snd result)
  ∧ holdings (match plan_reservation result.2 with
              | None => st_capacity result.1
              | Some r => release r (st_capacity result.1)
              end) = holdings (st_capacity st).

Lemma accounted_blocked st noWait reason : accounted st (st, blocked noWait reason).
Proof. by destruct noWait. Qed.

Lemma accounted_claim st i op owner t k p : tryClaim (st_claims st) i op owner = Some (t, k) →
  plan_claim p = Some k → plan_reservation p = None →
  accounted st (MkPlannerState (st_capacity st) t, p).
Proof.
  intros (Hn & -> & ->)%tryClaim_Some Hk Hr. unfold accounted, claims_added. cbn.
  by rewrite Hk, Hr.
Qed.

Lemma claimEviction_accounted st d noWait reason :
  accounted st (claimEviction st d noWait reason)
  ∧ accounted st (claimManagedEviction st d noWait reason).
Proof.
  unfold claimEviction, claimManagedEviction.
  destruct (tryClaim _ _ _ _) as [[t k]|] eqn:E.
  - split; by eapply accounted_claim.
  - split; apply accounted_blocked.
Qed.

Lemma planShutdownBoot_accounted st input d issued :
  capacity_reachable strategy (st_capacity st) issued →
  accounted st (planShutdownBoot strategy pressure st input d).
Proof.
  intros Hre. unfold planShutdownBoot. destruct (tryReserveBoot _ _ _ _ _ _) as [[c r]|e] eqn:E.
  - assert (holdings (release r c) = holdings (st_capacity st)) as Hrel
      by (eapply release_restores; [done|by eapply (reserve_boot strategy pressure)]).
    destruct (tryClaim _ _ _ _) as [[t k]|] eqn:Ek.
    + apply tryClaim_Some in Ek as (Hn & -> & ->). done.
    + split; [by destruct (in_noWait input)|]. cbn. by destruct (in_noWait input).
  - destruct (runningVictim _ _ _ _ _) as [v|]; [apply claimEviction_accounted|apply accounted_blocked].
Qed.

Lemma planProvision_accounted st input issued :
  capacity_reachable strategy (st_capacity st) issued →
  accounted st (planProvision strategy pressure st input).
Proof.
  intros Hre. unfold planProvision. destruct (tryReserveProvisioning _ _ _ _ _) as [[c r]|e] eqn:E.
  - split; [done|]. cbn. eapply release_restores; [done|by eapply (reserve_provisioning strategy pressure)].
  - destruct (if (e === device_limit) then _ else None) as [v|]; [apply claimEviction_accounted|].
    destruct (runningVictim _ _ _ _ _) as [v|]; [apply claimEviction_accounted|apply accounted_blocked].
Qed.

Lemma planReady_accounted st input d : accounted st (planReady pressure st input d).
Proof.
  unfold planReady. destruct d as [v|p]; [|done]. destruct (negb _); [done|].
  destruct (newDevicesPaused _); [apply accounted_blocked|].
  destruct (tryClaim _ _ _ _) as [[t k]|] eqn:E; [by eapply accounted_claim|apply accounted_blocked].
Qed.

Lemma plan_physical_accounted st (input : PhysicalPlanInput) held devices :
  accounted st (plan_physical_loop st input held devices).
Proof.
  revert held. induction devices as [|[v|p] devices IH]; intros held; cbn;
    [apply accounted_blocked|apply IH|].
  destruct (p_state p !== ready); [apply IH|]. destruct (Arr.includes _ _); [apply IH|].
  destruct (negb _); [apply IH|]. destruct (ph_heldByOlder input p); [apply IH|].
  destruct (tryClaim _ _ _ _) as [[t k]|] eqn:E; [by eapply accounted_claim|apply IH].
Qed.

(** Devices that may be evicted: virtual ones of the snapshot, unleased and unclaimed. *)
Lemma elem_of_eligible st snapshot v : v ∈ eligibleEvictionDevices st snapshot →
  Virtual v ∈ sn_devices snapshot ∧ (∀ l, l ∈ sn_leases snapshot → l_deviceId l ≠ v_id v)
  ∧ isClaimed (st_claims st) (v_id v) = false.
Proof.
  unfold eligibleEvictionDevices. rewrite elem_of_afilter, andb_true_iff, !negb_true_iff.
  intros (Hv & Hl & Hc). split_and!; [| |done].
  - apply list_elem_of_omap in Hv as ([w|w] & Hw & E); simplify_eq/=. done.
  - unfold Arr.includes in Hl. apply bool_decide_eq_false in Hl. intros l Hin Heq. apply Hl.
    rewrite <- Heq. by apply list_elem_of_fmap_2.
Qed.

Lemma runningVictim_Some st snapshot reason platform v :
  runningVictim strategy st snapshot reason platform = Some v →
  v ∈ eligibleEvictionDevices st snapshot ∧ v_state v = ready
  ∧ (reason = global_running_limit ∨ reason = platform_running_limit)
  ∧ (at_limit (rc_platform (coordinator_runningCapacity strategy (st_capacity st)
       (snapshot_capacity snapshot)) platform) = true → vs_platform (v_spec v) = platform).
Proof.
  unfold runningVictim.
  destruct (decide (reason = global_running_limit ∨ reason = platform_running_limit)) as [Hr|Hr].
  2:{ rewrite !bool_decide_eq_false_2 by tauto. done. }
  replace ((_ !== _) && _) with false
    by (destruct Hr as [->| ->]; js_eval; reflexivity).
  intros (He & Hs & Hsc)%running_victim_elem. split_and!; [done..|]. intros Hat.
  rewrite Hat in Hsc. by apply bool_decide_eq_true in Hsc.
Qed.
End plan_lemmas.

(** ** Properties *)

(** C26. No plan leaks. Whatever the planner answers, for a virtual or a physical request, it holds
    one claim more than before exactly when the plan carries a claim, on a device nothing held; and
    giving back the reservation the plan carries, if any, leaves the coordinator with the entries
    it had. A plan that only waits, refuses or grants a ready device leaves nothing behind. *)
Theorem plans_account_for_holdings `{LocaleCompare} {S} `{CapacityStrategy S} (s : S) pressure st
    issued :
  capacity_reachable s (st_capacity st) issued →
  (∀ input, accounted st (plan s pressure st input))
  ∧ (∀ input, accounted st (planPhysical st input)).
Proof.
  intros Hre. split; intros input; [|apply plan_physical_accounted]. unfold plan.
  destruct (Arr.find _ _) as [d|]; [apply planReady_accounted|].
  destruct (_ && _); [done|].
  destruct (Arr.find _ _) as [d|].
  - by eapply planShutdownBoot_accounted.
  - by eapply planProvision_accounted.
Qed.

Definition sample_input (noWait : bool) (devices : list DeviceRecord) : AcquisitionPlannerInput :=
  MkPlannerInput noWait (Some "req_1") (MkSnapshot devices []) sample_spec None None None.

Lemma plans_account_for_holdings_witness :
  accounted (MkPlannerState empty_coordinator no_claims)
    (@plan Codepoint.compare _ _ sample_resource None (MkPlannerState empty_coordinator no_claims)
      (sample_input false [])).
Proof.
  apply (proj1 (@plans_account_for_holdings Codepoint.compare _ _ sample_resource None
    (MkPlannerState empty_coordinator no_claims) [] (reach_empty _))).
Defined.

(** What a plan promises of the device it names. *)
Definition plan_choice (pressure : option PressureStep) (st : PlannerState)
    (input : AcquisitionPlannerInput) (p : AcquisitionPlan) : Prop :=
  let snapshot := in_snapshot input in
  let idle_ready := ∃ d, d ∈ sn_devices snapshot ∧ dev_state d = ready
                      ∧ servesRequest st input d = true in
  let evictable v := Virtual v ∈ sn_devices snapshot
    ∧ (∀ l, l ∈ sn_leases snapshot → l_deviceId l ≠ v_id v)
    ∧ isClaimed (st_claims st) (v_id v) = false in
  match p with
  | GrantReady d =>
      ∃ v, d = Virtual v ∧ (d ∈ sn_devices snapshot) ∧ v_state v = ready
        ∧ servesRequest st input d = true ∧ in_rebootReady input ≠ Some true
  | RebootReady k v =>
      (Virtual v ∈ sn_devices snapshot) ∧ v_state v = ready
      ∧ servesRequest st input (Virtual v) = true ∧ in_rebootReady input = Some true
      ∧ newDevicesPaused pressure = false
      ∧ k_deviceId k = v_id v ∧ k_operation k = op_boot ∧ k_owner k = in_owner input
  | BootShutdown _ k v =>
      ¬ idle_ready ∧ (Virtual v ∈ sn_devices snapshot) ∧ v_state v = shutdown
      ∧ servesRequest st input (Virtual v) = true
      ∧ newDevicesPaused pressure = false
      ∧ k_deviceId k = v_id v ∧ k_operation k = op_boot ∧ k_owner k = in_owner input
  | Provision _ =>
      ¬ idle_ready ∧ newDevicesPaused pressure = false
      ∧ ∀ v, Virtual v ∈ sn_devices snapshot → v_state v = shutdown →
          servesRequest st input (Virtual v) = false
  | EvictRunning k v reason =>
      ¬ idle_ready ∧ evictable v ∧ v_state v = ready
      ∧ (reason = CapacityReason global_running_limit
         ∨ reason = CapacityReason platform_running_limit)
      ∧ k_deviceId k = v_id v ∧ k_operation k = op_eviction
  | EvictManaged k v reason =>
      ¬ idle_ready ∧ evictable v ∧ (v_state v = ready ∨ v_state v = shutdown)
      ∧ vs_platform (v_spec v) = vs_platform (in_spec input)
      ∧ reason = CapacityReason device_limit
      ∧ k_deviceId k = v_id v ∧ k_operation k = op_eviction
  | Wait reason => in_noWait input = false
      ∧ (idle_ready → reason = CapacityReason memory_pressure ∧ newDevicesPaused pressure = true)
  | NoCapacity reason => in_noWait input = true
      ∧ (idle_ready → reason = CapacityReason memory_pressure ∧ newDevicesPaused pressure = true)
  | GrantPhysical _ _ => False
  end.

Lemma servesRequest_true st input d : servesRequest st input d = true →
  ∃ v, d = Virtual v ∧ isClaimed (st_claims st) (v_id v) = false.
Proof.
  unfold servesRequest, serves. rewrite !andb_true_iff, negb_true_iff.
  intros (Hc & (_ & Hf)). destruct d as [v|p]; [by exists v|]. done.
Qed.

Lemma choice_blocked pressure st input reason :
  (¬ ∃ d, d ∈ sn_devices (in_snapshot input) ∧ dev_state d = ready
     ∧ servesRequest st input d = true) →
  plan_choice pressure st input (blocked (in_noWait input) reason).
Proof. intros Hno. unfold blocked. destruct (in_noWait input) eqn:E; cbn; rewrite E; tauto. Qed.

Section choice.
Context `{LocaleCompare} {S : Type} `{CapacityStrategy S}
  (strategy : S) (pressure : option PressureStep).
Implicit Types (st : PlannerState) (input : AcquisitionPlannerInput).

Lemma choice_ready st input d :
  d ∈ sn_devices (in_snapshot input) → dev_state d = ready → servesRequest st input d = true →
  plan_choice pressure st input (planReady pressure st input d).2.
Proof.
  intros Hd Hs Hv. destruct (servesRequest_true _ _ _ Hv) as (v & -> & Hc). unfold planReady.
  case_bool_decide as Hr; cbn [negb]; [|by exists v].
  destruct (newDevicesPaused pressure) eqn:Ep.
  - unfold blocked. destruct (in_noWait input) eqn:E; cbn; by rewrite E.
  - rewrite (tryClaim_unclaimed _ _ _ _ Hc). done.
Qed.

Context st input (Hno : ¬ ∃ d, d ∈ sn_devices (in_snapshot input) ∧ dev_state d = ready
   ∧ servesRequest st input d = true).

Lemma choice_evict_running reason v :
  runningVictim strategy st (in_snapshot input) reason (vs_platform (in_spec input)) = Some v →
  plan_choice pressure st input
    (claimEviction st v (in_noWait input) (CAPACITY_WAITING_REASON reason)).2.
Proof using Hno.
  intros (Hv & Hs & Hr & _)%runningVictim_Some. apply elem_of_eligible in Hv as (Hin & Hl & Hc).
  unfold claimEviction. rewrite (tryClaim_unclaimed _ _ _ _ Hc). cbn.
  split_and!; try done. destruct Hr as [->| ->]; auto.
Qed.

Lemma choice_shutdown d :
  Virtual d ∈ sn_devices (in_snapshot input) → v_state d = shutdown →
  servesRequest st input (Virtual d) = true →
  plan_choice pressure st input (planShutdownBoot strategy pressure st input d).2.
Proof using Hno.
  intros Hd Hs Hv. destruct (servesRequest_true _ _ _ Hv) as (v & [= <-] & Hc).
  unfold planShutdownBoot. destruct (tryReserveBoot _ _ _ _ _ _) as [[c r]|e] eqn:E.
  - rewrite (tryClaim_unclaimed _ _ _ _ Hc). cbn. split_and!; try done.
    unfold tryReserveBoot in E. by destruct (newDevicesPaused pressure).
  - destruct (runningVictim _ _ _ _ _) as [w|] eqn:Ew.
    + by apply choice_evict_running.
    + by apply choice_blocked.
Qed.

Lemma choice_provision :
  (∀ v, Virtual v ∈ sn_devices (in_snapshot input) → v_state v = shutdown →
     servesRequest st input (Virtual v) = false) →
  plan_choice pressure st input (planProvision strategy pressure st input).2.
Proof using Hno.
  intros Hsh. unfold planProvision.
  destruct (tryReserveProvisioning _ _ _ _ _) as [[c r]|e] eqn:E.
  - cbn. split_and!; [done| |done]. unfold tryReserveProvisioning in E.
    by destruct (newDevicesPaused pressure).
  - case_bool_decide as He.
    + destruct (selectManagedVictim _ _) as [v|] eqn:Ev.
      * apply managed_victim_elem in Ev as (Hv & Hp & Hs).
        apply elem_of_eligible in Hv as (Hin & Hl & Hc).
        unfold claimManagedEviction. rewrite (tryClaim_unclaimed _ _ _ _ Hc). cbn.
        split_and!; try done. by rewrite He.
      * destruct (runningVictim _ _ _ _ _) as [w|] eqn:Ew;
          [by apply choice_evict_running|by apply choice_blocked].
    + destruct (runningVictim _ _ _ _ _) as [w|] eqn:Ew;
        [by apply choice_evict_running|by apply choice_blocked].
Qed.
End choice.

(** The plan names the right device. A ready device is granted or rebooted only when it is in
    the snapshot, ready, unclaimed and serves the request; a boot takes a shut-down device that
    serves, a new device is created only when none does, and neither happens while a ready device
    could serve or new devices are paused; only unleased and unclaimed devices are evicted, a ready
    one for a running limit and one of the request's platform for the device limit; a request that
    may wait is never refused and one that may not never waits; and a ready device that serves is
    passed over only for a reboot under memory pressure. *)
Theorem plan_chooses_well `{LocaleCompare} {S} `{CapacityStrategy S} (s : S) pressure st input :
  plan_choice pressure st input (plan s pressure st input).2.
Proof.
  unfold plan. destruct (Arr.find _ _) as [d|] eqn:E.
  { apply afind_Some in E as [Hd [Hr%bool_decide_eq_true Hs]%andb_true_iff]. by apply choice_ready. }
  assert (¬ ∃ d, d ∈ sn_devices (in_snapshot input) ∧ dev_state d = ready
    ∧ servesRequest st input d = true) as Hno.
  { rewrite afind_None in E. intros (d & Hd & Hr & Hs). specialize (E d Hd). cbn in E.
    by rewrite Hr, Hs in E. }
  destruct (negb _ && _) eqn:Ew.
  { apply andb_true_iff in Ew as [Hw%negb_true_iff _]. cbn. rewrite Hw. split; [done|].
    by intros ?%Hno. }
  destruct (Arr.find _ (sn_virtualDevices _)) as [d|] eqn:Es.
  - apply afind_Some in Es as [Hd [Hr%bool_decide_eq_true Hs]%andb_true_iff].
    apply list_elem_of_omap in Hd as ([w|w] & Hw & ?); simplify_eq/=. by apply choice_shutdown.
  - apply choice_provision; [done|]. rewrite afind_None in Es. intros v Hv Hs.
    specialize (Es v). cbn in Es. rewrite Hs in Es. apply Es.
    apply list_elem_of_omap. by exists (Virtual v).
Qed.

(** The snapshot once the victim is shut down. *)
Definition shut_down (v : VirtualDevice) (devices : list VirtualDevice) : list VirtualDevice :=
  (λ d, if v_id d === v_id v then d <| v_state := shutdown |> else d) <$> devices.

Lemma count_shut_down (f : CapacityDevice → bool) v devices :
  NoDup (v_id <$> devices) → v ∈ devices →
  (∀ d, f (capacityDevice (d <| v_state := shutdown |>)) = false) →
  f (capacityDevice v) = true →
  (count f (capacityDevices (shut_down v devices)) = count f (capacityDevices devices) - 1)%Z.
Proof.
  intros Hn (l1 & l2 & ->)%list_elem_of_split Hf Hv. unfold shut_down, capacityDevices.
  assert (∀ l : list VirtualDevice, (∀ d, d ∈ l → v_id d ≠ v_id v) →
    (λ d, if v_id d === v_id v then d <| v_state := shutdown |> else d) <$> l = l) as Hid.
  { clear. induction l as [|d l IH]; intros Hd; [done|]. cbn.
    rewrite bool_decide_eq_false_2 by (apply Hd; by left). f_equal. apply IH.
    intros e He. apply Hd. by right. }
  rewrite fmap_app, fmap_cons in Hn. apply NoDup_app in Hn as (_ & Hd & Hn).
  apply NoDup_cons in Hn as [Hnv _].
  rewrite !fmap_app, !fmap_cons, !Hid.
  - rewrite bool_decide_eq_true_2 by done. change (capacityDevice <$> l2) with (capacityDevices l2).
    rewrite !count_app. unfold count at 2 4. unfold Arr.filter. cbn [List.filter].
    rewrite Hf, Hv. cbn [length]. unfold count, Arr.filter. lia.
  - intros d Hin Heq. apply Hnv. rewrite <- Heq. by apply list_elem_of_fmap_2.
  - intros d Hin Heq. apply (Hd (v_id d)); [by apply list_elem_of_fmap_2|]. rewrite Heq. by left.
Qed.

(** A plan that evicts a running device took its victim from [runningVictim]. *)
Lemma plan_evict_running `{LocaleCompare} {S} `{CapacityStrategy S} (s : S) pressure st input k v reason :
  (plan s pressure st input).2 = EvictRunning k v reason →
  ∃ r, runningVictim s st (in_snapshot input) r (vs_platform (in_spec input)) = Some v.
Proof.
  assert (∀ w r, (claimEviction st w (in_noWait input) r).2 = EvictRunning k v reason → w = v) as Hce.
  { intros w r. unfold claimEviction. destruct (tryClaim _ _ _ _) as [[t k']|]; cbn; [naive_solver|].
    by destruct (in_noWait input). }
  unfold plan. destruct (Arr.find _ _) as [d|].
  { unfold planReady. destruct d as [w|w]; [|done]. destruct (negb _); [done|].
    destruct (newDevicesPaused _); [by destruct (in_noWait input)|].
    destruct (tryClaim _ _ _ _) as [[]|]; [done|]. by destruct (in_noWait input). }
  destruct (_ && _); [done|]. destruct (Arr.find _ _) as [d|].
  - unfold planShutdownBoot. destruct (tryReserveBoot _ _ _ _ _ _) as [[c r]|e].
    { destruct (tryClaim _ _ _ _) as [[]|]; [done|]. by destruct (in_noWait input). }
    destruct (runningVictim _ _ _ _ _) as [w|] eqn:Ew; [|by destruct (in_noWait input)].
    intros ->%Hce. eauto.
  - unfold planProvision. destruct (tryReserveProvisioning _ _ _ _ _) as [[c r]|e]; [done|].
    destruct (if (e === device_limit) then _ else None) as [w|].
    { unfold claimManagedEviction. destruct (tryClaim _ _ _ _) as [[]|]; [done|].
      by destruct (in_noWait input). }
    destruct (runningVictim _ _ _ _ _) as [w|] eqn:Ew; [|by destruct (in_noWait input)].
    intros ->%Hce. eauto.
Qed.

(** Evicting makes progress: when a plan evicts a running device, shutting that device down
    lowers the global running count by one, and the request's platform count by one whenever that
    platform is at its limit, so every limit the request met is lowered by each eviction. *)
Theorem eviction_frees_every_full_limit `{LocaleCompare} {S} `{CapacityStrategyLaws S} (s : S)
    pressure st input k v reason :
  NoDup (v_id <$> sn_virtualDevices (in_snapshot input)) →
  (plan s pressure st input).2 = EvictRunning k v reason →
  let devices := sn_virtualDevices (in_snapshot input) in
  let platform := vs_platform (in_spec input) in
  let before := coordinator_runningCapacity s (st_capacity st) (capacityDevices devices) in
  let after := coordinator_runningCapacity s (st_capacity st) (capacityDevices (shut_down v devices)) in
  running (rc_global after) = (running (rc_global before) - 1)%Z
  ∧ (at_limit (rc_platform before platform) = true →
     running (rc_platform after platform) = (running (rc_platform before platform) - 1)%Z).
Proof.
  intros Hn [r Hv]%plan_evict_running devices platform before after.
  apply runningVictim_Some in Hv as (He & Hs & _ & Hp). apply elem_of_eligible in He as (Hin & _).
  assert (v ∈ devices) as Hd by (apply list_elem_of_omap; by exists (Virtual v)).
  unfold before, after, coordinator_runningCapacity in *. rewrite !strategy_running in *.
  set (limits := strategy_limits s) in *.
  set (res := allRunningReservations (st_capacity st)) in *.
  assert (∀ platform, on_platform platform (vs_platform (v_spec v)) = true →
    running (running_entry (capacityDevices (shut_down v devices)) res limits platform)
    = (running (running_entry (capacityDevices devices) res limits platform) - 1)%Z) as Hrun.
  { intros q Hq. apply count_shut_down; [done..| |].
    - done.
    - unfold capacityDevice. cbn. by rewrite Hs, Hq. }
  split; [by apply Hrun|]. intros Hat%Hp.
  assert (on_platform (Some platform) (vs_platform (v_spec v)) = true) as Hq
    by (by apply bool_decide_eq_true).
  unfold limits_runningCapacity. destruct platform; by apply Hrun.
Qed.

Definition sample_evicting : AcquisitionPlannerInput :=
  sample_input false [Virtual ((sample_virtual "dev_1" ready)
    <| v_spec := sample_spec <| vs_model := "iPhone 15" |> |>)].
Definition sample_fixed_roomy : FixedCapacity :=
  fixed_create (MkFixedOptions 1 (Some (MkFixedPlatform (Some 2%Z) None)) None).

Lemma eviction_frees_every_full_limit_witness :
  running (rc_global (coordinator_runningCapacity sample_fixed_roomy empty_coordinator
    (capacityDevices (shut_down ((sample_virtual "dev_1" ready)
      <| v_spec := sample_spec <| vs_model := "iPhone 15" |> |>)
      (sn_virtualDevices (in_snapshot sample_evicting)))))) = (1 - 1)%Z.
Proof.
  refine (proj1 (@eviction_frees_every_full_limit Codepoint.compare _ _ _ sample_fixed_roomy None
    (MkPlannerState empty_coordinator no_claims) sample_evicting
    (MkClaim 0 "dev_1" op_eviction None)
    ((sample_virtual "dev_1" ready) <| v_spec := sample_spec <| vs_model := "iPhone 15" |> |>)
    (CapacityReason global_running_limit) _ _)).
  - apply NoDup_singleton.
  - vm_compute. reflexivity.
Defined.

(** A physical device that is free for a request. *)
Definition physical_free (st : PlannerState) (input : PhysicalPlanInput) (p : PhysicalDevice) : bool :=
  (p_state p === ready) && negb (Arr.includes (id (p_fields p)) (ph_absent input))
  && fitsPhysical (fittable_physical p) (ph_request input)
  && negb (ph_heldByOlder input p) && negb (isClaimed (st_claims st) (id (p_fields p))).
(** One that would be free but for an older request. *)
Definition physical_held (input : PhysicalPlanInput) (p : PhysicalDevice) : bool :=
  (p_state p === ready) && negb (Arr.includes (id (p_fields p)) (ph_absent input))
  && fitsPhysical (fittable_physical p) (ph_request input) && ph_heldByOlder input p.
Definition physicals (devices : list DeviceRecord) : list PhysicalDevice :=
  omap (λ d, match d with Physical p => Some p | Virtual _ => None end) devices.

Lemma tryClaim_None t i op owner : tryClaim t i op owner = None ↔ isClaimed t i = true.
Proof.
  unfold tryClaim, isClaimed. rewrite bool_decide_eq_true. destruct (claims t !! i); [|done].
  split; [by eexists|done].
Qed.

Lemma plan_physical_loop_spec st (input : PhysicalPlanInput) held devices :
  match Arr.find (physical_free st input) (physicals devices) with
  | Some p => ∃ st' k, plan_physical_loop st input held devices = (st', GrantPhysical k p)
      ∧ k_deviceId k = id (p_fields p) ∧ k_operation k = op_grant ∧ k_owner k = Some (ph_owner input)
  | None => plan_physical_loop st input held devices
      = (st, blocked (ph_noWait input)
          (if held || Arr.some (physical_held input) (physicals devices)
           then behind_earlier_request else no_free_physical))
  end.
Proof.
  revert held. induction devices as [|[v|p] devices IH]; intros held; cbn.
  - by rewrite orb_false_r.
  - apply IH.
  - unfold physical_free at 1, physical_held at 1. unfold Arr.find, Arr.some in *. cbn.
    case_bool_decide; cbn; [|apply IH]. destruct (Arr.includes _ _); cbn; [apply IH|].
    destruct (fitsPhysical _ _); cbn; [|apply IH].
    destruct (ph_heldByOlder input p); cbn; [rewrite orb_true_r; apply IH|].
    destruct (isClaimed _ _) eqn:Ec; cbn.
    + rewrite (proj2 (tryClaim_None _ _ _ _) Ec). apply IH.
    + rewrite (tryClaim_unclaimed _ _ _ _ Ec). eauto 10.
Qed.

(** A physical request takes the first enrolled device, in registry order, that is ready,
    present, fits, is not due to an older request and is unclaimed, under a grant claim of its own;
    when there is none it waits (or is refused), naming an earlier request exactly when one holds a
    device that would have served. *)
Theorem physical_plan_first_free (st : PlannerState) (input : PhysicalPlanInput) :
  let devices := physicals (sn_devices (ph_snapshot input)) in
  match Arr.find (physical_free st input) devices with
  | Some p => ∃ st' k, planPhysical st input = (st', GrantPhysical k p)
      ∧ k_deviceId k = id (p_fields p) ∧ k_operation k = op_grant ∧ k_owner k = Some (ph_owner input)
  | None => planPhysical st input
      = (st, blocked (ph_noWait input)
          (if Arr.some (physical_held input) devices
           then behind_earlier_request else no_free_physical))
  end.
Proof. apply (plan_physical_loop_spec st input false). Qed.
