(* ===== verification/Registry.v ===== *)
(** * The registry: [src/core/registry.ts]

    Devices, leases, lease requests and installed components, every write of which goes through
    one commit. This file holds the operations; [RegistryInv] holds the invariant and the
    theorems. The clock is read once per operation ([now]), and generated ids are arguments. The
    rows of the state database are kept as the records under their keys, and [log] is what an
    observer of the registry sees, in order: commits with what they leave in memory, events, and
    announced lease ends. *)
From stdpp Require Import base strings list option numbers gmap.
From S2P Require Import Prelude JsString OsRange Domain RequestStore.

(** ** Data *)

Record ComponentRecord := MkComponent {
  cp_platform : Platform;
  cp_version : string;
  cp_installedAt : Z;
  cp_receipt : list (string * string) }.
#[global] Instance ComponentRecord_eq_dec : EqDecision ComponentRecord.
Proof. solve_decision. Defined.

Record RegistryOptions := MkRegistryOptions {
  leaseIdentity : Platform → LeaseIdentity;
  leaseRequestLimits : LeaseRequestLimits;
  deletedRetentionMs : Z }.

Inductive DeviceEventName :=
| ev_ready | ev_reclaimed | ev_shutdown | ev_absence_detected | ev_returned | ev_deleted.
#[global] Instance DeviceEventName_eq_dec : EqDecision DeviceEventName.
Proof. solve_decision. Defined.

Definition event_text (e : DeviceEventName) : string :=
  match e with
  | ev_ready => "device.ready"
  | ev_reclaimed => "device.reclaimed"
  | ev_shutdown => "device.shutdown"
  | ev_absence_detected => "device.absence-detected"
  | ev_returned => "device.returned"
  | ev_deleted => "device.deleted"
  end.
Definition state_text (s : DeviceState) : string :=
  match s with
  | provisioning => "provisioning"
  | ready => "ready"
  | leased => "leased"
  | reclaiming => "reclaiming"
  | quarantined => "quarantined"
  | shutdown => "shutdown"
  | absent => "absent"
  | deleted => "deleted"
  end.

(** The event a caller hands to a transition: its name, the device its payload names and the rest
    of the payload. *)
Record RegistryDeviceEvent := MkDeviceEvent {
  de_event : DeviceEventName;
  de_deviceId : string;
  de_payload : opaque }.

(** What the registry emits: a caller's event with the field the registry adds to it, and the
    events it writes itself. *)
Inductive RegistryEmit :=
| EmitProvisioned (deviceId : string) (driver : Platform) (duration : Z) (spec : VirtualSpec)
| EmitReady (e : RegistryDeviceEvent) (platform : Platform)
| EmitAsGiven (e : RegistryDeviceEvent)
| EmitGivenDeleted (e : RegistryDeviceEvent) (physical : bool)
| EmitDeleted (deviceId initiator : string) (physical : bool)
| EmitAbsence (reason : AbsentReason) (deviceId : string) (previousState : DeviceState)
| EmitEnrolled (device : PhysicalDevice) (reenrolled : bool).

Record ReleasedLease := MkReleased { rl_device : DeviceRecord; rl_lease : LeaseRecord }.

(** What a commit leaves in memory. *)
Record Contents := MkContents {
  ct_devices : list DeviceRecord;
  ct_leases : list LeaseRecord;
  ct_requests : list (LeaseRequestRecord LeaseGrant);
  ct_components : list ComponentRecord }.

Inductive LogEntry :=
| LogCommit (s : Contents)
| LogEmit (e : RegistryEmit)
| LogLeaseEnd (ended : ReleasedLease).

Inductive RegistryError :=
| UnknownDeviceError (deviceId : string)
| UnknownLeaseError (leaseId : string)
| RegistryEventError (message : string)
| IllegalTransitionError (e : IllegalTransition).

#[global] Instance Platform_countable : Countable Platform.
Proof.
  refine (inj_countable' (λ p, match p with ios => true | android => false end)
    (λ b : bool, if b then ios else android) _).
  by intros [].
Defined.

(** The tables, by primary key. *)
Record RegistryRows := MkRows {
  db_devices : gmap string DeviceRecord;
  db_leases : gmap string LeaseRecord;
  db_requests : gmap string (LeaseRequestRecord LeaseGrant);
  db_components : gmap (Platform * string) ComponentRecord }.

Record Registry := MkRegistry {
  devices : list DeviceRecord;
  leases : list LeaseRecord;
  leaseRequests : list (LeaseRequestRecord LeaseGrant);
  components : list ComponentRecord;
  rows : RegistryRows;
  log : list LogEntry }.
#[export] Instance Registry_eta : Eta Registry := λ r,
  MkRegistry (devices r) (leases r) (leaseRequests r) (components r) (rows r) (log r).

Definition contents (r : Registry) : Contents :=
  MkContents (devices r) (leases r) (leaseRequests r) (components r).

Record RegisterDeviceInput := MkRegister {
  rd_driverDeviceId : string;
  rd_spec : VirtualSpec;
  rd_driverData : opaque;
  rd_provisionDuration : Z }.
Record PhysicalEnrollmentInput := MkEnroll {
  en_platform : Platform;
  en_driverDeviceId : string;
  en_model : string;
  en_osVersion : string;
  en_class : PhysicalClass;
  en_apps : list string }.
Record CreateLeaseRequestRef := MkRequestRef {
  cr_id : string; cr_environment : list (string * string); cr_timing : LeaseTiming }.
Record CreateLeaseInput := MkCreateLease {
  cl_deviceId : string;
  cl_requesterId : string;
  cl_ownerId : string;
  cl_ttlMs : Z;
  cl_ttlDeadline : Z;
  cl_leaseId : option string;
  cl_except : option (list string);
  cl_request : option CreateLeaseRequestRef }.
Record RebootUpdate := MkReboot { rb_address : string; rb_driverData : opaque; rb_mode : DeviceMode }.

(** ** The commit *)

(** Records whose object is not the committed one are written, keys that are gone are removed.
    [same] is object identity, which the model reads as a test the caller of [changes] passes. *)
Definition changes {K T} `{Countable K} (same : T → T → bool) (keyOf : T → K) (before after : list T)
    : list T * list K :=
  let committed : gmap K T := list_to_map (reverse ((λ r, (keyOf r, r)) <$> before)) in
  let kept := keyOf <$> after in
  (Arr.filter (λ r, match committed !! keyOf r with Some c => negb (same c r) | None => true end) after,
   List.filter (λ k, negb (Arr.includes k kept)) (map_to_list committed).*1).

(** Rows removed and then rows written. *)
Definition write_rows {K T} `{Countable K} (keyOf : T → K) (diff : list T * list K) (table : gmap K T)
    : gmap K T :=
  foldl (λ t r, <[keyOf r := r]> t) (foldl (λ t k, delete k t) table diff.2) diff.1.

Definition componentKey (c : ComponentRecord) : Platform * string := (cp_platform c, cp_version c).

Definition withoutCauseUnlessQuarantined (d : DeviceRecord) : DeviceRecord :=
  if (dev_state d === quarantined) || (quarantineCause (dev_fields d) === None) then d
  else set_fields (λ f, f <| quarantineCause := None |>) d.
Definition stamp_deleted (now : Z) (d : DeviceRecord) : DeviceRecord :=
  if (dev_state d === deleted) && (deletedAt (dev_fields d) === None)
  then set_fields (λ f, f <| deletedAt := Some now |>) d else d.
Definition isExpired (now retention : Z) (d : DeviceRecord) : bool :=
  match deletedAt (dev_fields d) with
  | Some at_ => (retention <? now - at_)%Z
  | None => false
  end.

(** Equality of the records: two references to one immutable record are equal. *)
Definition same_record {T} `{EqDecision T} (a b : T) : bool := a === b.

Section registry.
Context (options : RegistryOptions) (now : Z).
Local Abbreviation op A := (action Registry RegistryError A).

Definition commit_rows (r : Registry) (ds : list DeviceRecord) (ls : list LeaseRecord)
    (qs : list (LeaseRequestRecord LeaseGrant)) (cs : list ComponentRecord) : RegistryRows :=
  let t := rows r in
  MkRows (write_rows dev_id (changes same_record dev_id (devices r) ds) (db_devices t))
    (write_rows l_id (changes same_record l_id (leases r) ls) (db_leases t))
    (write_rows q_id (changes same_record q_id (leaseRequests r) qs) (db_requests t))
    (write_rows componentKey (changes same_record componentKey (components r) cs)
       (db_components t)).

Definition committed_devices (ds : list DeviceRecord) : list DeviceRecord :=
  Arr.filter (λ d, negb (isExpired now (deletedRetentionMs options) d))
    (stamp_deleted now <$> (withoutCauseUnlessQuarantined <$> ds)).

Definition commit (ds : list DeviceRecord) (ls : list LeaseRecord)
    (qs : list (LeaseRequestRecord LeaseGrant)) (cs : list ComponentRecord) : op unit :=
  modify (λ r,
    let committed := committed_devices ds in
    let requests :=
      if length committed <? length ds
      then retainedLeaseRequests qs now (retentionMs (leaseRequestLimits options)) else qs in
    MkRegistry committed ls requests cs (commit_rows r committed ls requests cs)
      (log r ++ [LogCommit (MkContents committed ls requests cs)])).
(** With the requests and components left as they are. *)
Definition commit_devices (ds : list DeviceRecord) (ls : list LeaseRecord) : op unit :=
  r ← get; commit ds ls (leaseRequests r) (components r).

Definition emit (e : RegistryEmit) : op unit := modify (λ r, r <| log := log r ++ [LogEmit e] |>).
Definition announceLeaseEnd (ended : ReleasedLease) : op unit :=
  modify (λ r, r <| log := log r ++ [LogLeaseEnd ended] |>).

Definition requireDeviceRecord (deviceId : string) : op (DeviceRecord * nat) :=
  r ← get;
  match Arr.findIndex (λ d, dev_id d === deviceId) (devices r) with
  | Some index => lift (of_option (UnknownDeviceError deviceId)
                          ((λ d, (d, index)) <$> devices r !! index))
  | None => throw (UnknownDeviceError deviceId)
  end.
Definition committed (deviceId : string) : op DeviceRecord :=
  '(device, _) ← requireDeviceRecord deviceId; mret device.

(** [devices[index] = updated], committed with the leases as they are. *)
Definition replace_device (index : nat) (updated : DeviceRecord) : op unit :=
  r ← get; commit_devices (<[index := updated]> (devices r)) (leases r).

Definition transitioned (d : DeviceRecord) (to : DeviceState) (u : DeviceTransitionUpdate)
    : result RegistryError DeviceRecord :=
  let u :=
    if to === ready then u <| u_readyAt := Some now |>
    else if to === shutdown then u <| u_shutdownAt := Some now |>
    else if (to === reclaiming) && dev_physical d then u <| u_reclaimingSince := Some now |>
    else u in
  match transition d to u with
  | Ok d => Ok d
  | Err e => Err (IllegalTransitionError e)
  end.

(** ** Components and registration *)

Definition other_component (p : Platform) (version : string) (c : ComponentRecord) : bool :=
  (cp_platform c !== p) || (cp_version c !== version).
Definition recordComponent (record : ComponentRecord) : op unit :=
  r ← get;
  commit (devices r) (leases r) (leaseRequests r)
    (Arr.filter (other_component (cp_platform record) (cp_version record)) (components r)
     ++ [record]).
Definition deleteComponent (p : Platform) (version : string) : op unit :=
  r ← get;
  let cs := Arr.filter (other_component p version) (components r) in
  if length cs =? length (components r) then mret tt
  else commit (devices r) (leases r) (leaseRequests r) cs.

Definition registerDevice (generated : string) (input : RegisterDeviceInput) : op DeviceRecord :=
  let spec := rd_spec input in
  let i := "dev_" +:+ generated in
  let record := MkVirtual
    (MkFields i (rd_driverDeviceId input) (rd_driverData input) now None None None None None None
       None None None None None None None None)
    spec provisioning full None (Some (leaseIdentity options (vs_platform spec))) in
  r ← get;
  _ ← commit_devices (devices r ++ [Virtual record]) (leases r);
  _ ← emit (EmitProvisioned i (vs_platform spec) (rd_provisionDuration input) spec);
  mret (Virtual record).

(** ** Transitions *)

Definition eventForTransition (from to : DeviceState) : option DeviceEventName :=
  if to === absent then Some ev_absence_detected
  else if (from === absent) && (to === reclaiming) then Some ev_returned
  else if from === reclaiming then Some ev_reclaimed
  else if to === ready then Some ev_ready
  else if to === shutdown then Some ev_shutdown
  else if to === deleted then Some ev_deleted
  else None.
Definition assertTransitionEvent (d : DeviceRecord) (to : DeviceState)
    (event : option RegistryDeviceEvent) : op unit :=
  if (de_event <$> event) !== eventForTransition (dev_state d) to
  then throw (RegistryEventError ("Transition from " +:+ state_text (dev_state d) +:+ " to "
         +:+ state_text to +:+ " requires "
         +:+ default "no" (event_text <$> eventForTransition (dev_state d) to)
         +:+ " device event"))
  else match event with
       | Some e =>
           guard_or (de_deviceId e === dev_id d)
             (RegistryEventError ("Device event payload does not match device: " +:+ dev_id d))
       | None => mret tt
       end.
Definition emitDeviceEvent (e : RegistryDeviceEvent) (d : DeviceRecord) : op unit :=
  emit match de_event e with
       | ev_ready => EmitReady e (spec_platform (dev_spec d))
       | ev_deleted => EmitGivenDeleted e (dev_physical d)
       | _ => EmitAsGiven e
       end.

Definition on_device (deviceId : string) (l : LeaseRecord) : bool := l_deviceId l === deviceId.

Definition transitionDevice (deviceId : string) (to : DeviceState)
    (event : option RegistryDeviceEvent) (u : DeviceTransitionUpdate) : op DeviceRecord :=
  '(device, index) ← requireDeviceRecord deviceId;
  r ← get;
  _ ← guard_or (negb ((to === deleted) && Arr.some (on_device deviceId) (leases r)))
        (RegistryEventError ("Cannot delete device with an active lease: " +:+ deviceId));
  _ ← assertTransitionEvent device to event;
  updated ← lift (transitioned device to u);
  _ ← replace_device index updated;
  _ ← match event with Some e => emitDeviceEvent e updated | None => mret tt end;
  committed deviceId.

Definition recordRebootedDevice (deviceId : string) (u : RebootUpdate) : op DeviceRecord :=
  '(device, index) ← requireDeviceRecord deviceId;
  match device with
  | Virtual v =>
      _ ← guard_or (v_state v === ready)
            (RegistryEventError ("Only a ready virtual device can be rebooted: " +:+ deviceId));
      let updated :=
        v <| v_fields := (v_fields v) <| address := Some (rb_address u) |>
                           <| driverData := rb_driverData u |> |>
          <| v_mode := rb_mode u |> in
      _ ← replace_device index (Virtual updated);
      committed deviceId
  | Physical _ =>
      throw (RegistryEventError ("Only a ready virtual device can be rebooted: " +:+ deviceId))
  end.

Definition completeReclaimWithoutPurge (deviceId : string) : op DeviceRecord :=
  '(device, index) ← requireDeviceRecord deviceId;
  _ ← guard_or (dev_state device === reclaiming)
        (RegistryEventError ("Device is not reclaiming: " +:+ deviceId));
  updated ← lift (transitioned device shutdown no_update);
  _ ← replace_device index updated;
  mret updated.

(** ** Quarantine *)

Definition enterQuarantine (deviceId : string) (nextRetryAt : Z) (cause : QuarantineCause)
    : op DeviceRecord :=
  '(device, index) ← requireDeviceRecord deviceId;
  _ ← guard_or ((dev_state device === reclaiming) || (dev_state device === provisioning)
                || (dev_state device === shutdown))
        (RegistryEventError ("Device is not reclaiming, provisioning, or shutdown: " +:+ deviceId));
  moved ← lift (transitioned device quarantined no_update);
  let updated := set_fields (λ f,
    f <| quarantineAttempts := Some 0%Z |> <| quarantineNextRetryAt := Some nextRetryAt |>
      <| quarantinedAt := Some now |> <| quarantineCause := Some cause |>) moved in
  _ ← replace_device index updated;
  mret updated.

Definition require_quarantined (deviceId : string) (device : DeviceRecord) : op unit :=
  guard_or (dev_state device === quarantined)
    (RegistryEventError ("Device is not quarantined: " +:+ deviceId)).

Definition recordQuarantineRetryFailure (deviceId : string) (attempts nextRetryAt : Z)
    : op DeviceRecord :=
  '(device, index) ← requireDeviceRecord deviceId;
  _ ← require_quarantined deviceId device;
  let updated := set_fields (λ f,
    f <| quarantineAttempts := Some attempts |>
      <| quarantineNextRetryAt := Some nextRetryAt |>) device in
  _ ← replace_device index updated;
  mret updated.

Definition without_quarantine (f : DeviceRecordFields) : DeviceRecordFields :=
  f <| quarantineAttempts := None |> <| quarantineNextRetryAt := None |>
    <| quarantinedAt := None |>.

(** [to] is [ready] or [shutdown]. *)
Definition recoverFromQuarantine (deviceId : string) (to : DeviceState) : op DeviceRecord :=
  '(device, index) ← requireDeviceRecord deviceId;
  _ ← require_quarantined deviceId device;
  moved ← lift (transitioned device to no_update);
  _ ← replace_device index (set_fields without_quarantine moved);
  committed deviceId.

Definition strandQuarantine (deviceId : string) (attempts : Z) : op DeviceRecord :=
  '(device, index) ← requireDeviceRecord deviceId;
  _ ← require_quarantined deviceId device;
  let updated := set_fields (λ f,
    f <| quarantineNextRetryAt := None |> <| quarantineAttempts := Some attempts |>) device in
  _ ← replace_device index updated;
  mret updated.

Definition deleteQuarantined (deviceId initiator : string) : op DeviceRecord :=
  '(device, index) ← requireDeviceRecord deviceId;
  _ ← require_quarantined deviceId device;
  moved ← lift (transitioned device deleted no_update);
  _ ← replace_device index (set_fields without_quarantine moved);
  _ ← emit (EmitDeleted deviceId initiator (dev_physical device));
  committed deviceId.

(** ** Markers *)

Definition markForeignStateDetected (deviceId : string) (at_ : Z) : op DeviceRecord :=
  '(device, index) ← requireDeviceRecord deviceId;
  if foreignStateDetectedAt (dev_fields device) !== None then mret device else
  let updated := set_fields (λ f, f <| foreignStateDetectedAt := Some at_ |>) device in
  _ ← replace_device index updated;
  mret updated.
Definition markForeignProvenanceDetected (deviceId : string) (at_ : Z) : op DeviceRecord :=
  '(device, index) ← requireDeviceRecord deviceId;
  if foreignProvenanceDetectedAt (dev_fields device) !== None then mret device else
  let updated := set_fields (λ f, f <| foreignProvenanceDetectedAt := Some at_ |>) device in
  _ ← replace_device index updated;
  mret updated.
Definition clearForeignStateDetected (deviceId : string) : op DeviceRecord :=
  '(device, index) ← requireDeviceRecord deviceId;
  if foreignStateDetectedAt (dev_fields device) === None then mret device else
  let updated := set_fields (λ f, f <| foreignStateDetectedAt := None |>) device in
  _ ← replace_device index updated;
  mret updated.
Definition markRecoveryAttempt (deviceId : string) (at_ : Z) : op DeviceRecord :=
  '(device, index) ← requireDeviceRecord deviceId;
  let updated := set_fields (λ f,
    f <| recoveringSince := Some (default at_ (recoveringSince f)) |>
      <| recoveryAttempts := Some (default 0 (recoveryAttempts f) + 1)%Z |>) device in
  _ ← replace_device index updated;
  mret updated.
Definition without_recovery (f : DeviceRecordFields) : DeviceRecordFields :=
  f <| recoveringSince := None |> <| recoveryAttempts := None |>.
Definition clearRecovery (deviceId : string) : op DeviceRecord :=
  '(device, index) ← requireDeviceRecord deviceId;
  if (recoveringSince (dev_fields device) === None)
     && (recoveryAttempts (dev_fields device) === None)
  then mret device else
  let updated := set_fields without_recovery device in
  _ ← replace_device index updated;
  mret updated.

(** ** Missing and absent devices *)

Definition commitMissing (device : DeviceRecord) (ls : list LeaseRecord) : op DeviceRecord :=
  match device with
  | Physical p =>
      throw (RegistryEventError ("Cannot mark a physical device missing: " +:+ dev_id device))
  | Virtual v =>
      let gone := Virtual
        (v <| v_fields := (without_recovery (v_fields v)) <| deferredReclaimLeaseId := None |> |>
           <| v_state := deleted |>) in
      r ← get;
      _ ← commit_devices
            ((λ d, if dev_id d === dev_id device then gone else d) <$> devices r) ls;
      committed (dev_id device)
  end.

Definition markDeviceMissing (deviceId initiator : string) : op DeviceRecord :=
  '(device, _) ← requireDeviceRecord deviceId;
  r ← get;
  _ ← guard_or (negb (Arr.some (on_device deviceId) (leases r)))
        (RegistryEventError ("Cannot mark leased device missing: " +:+ deviceId));
  if dev_state device === deleted then mret device else
  _ ← commitMissing device (leases r);
  _ ← emit (EmitDeleted deviceId initiator (dev_physical device));
  committed deviceId.

Definition find_lease (leaseId : string) : op LeaseRecord :=
  r ← get;
  lift (of_option (UnknownLeaseError leaseId) (Arr.find (λ l, l_id l === leaseId) (leases r))).
Definition without_lease (leaseId : string) (ls : list LeaseRecord) : list LeaseRecord :=
  Arr.filter (λ l, l_id l !== leaseId) ls.

Definition endLeaseAndMarkDeviceMissing (leaseId initiator : string) : op ReleasedLease :=
  lease ← find_lease leaseId;
  '(device, _) ← requireDeviceRecord (l_deviceId lease);
  r ← get;
  gone ← commitMissing device (without_lease leaseId (leases r));
  let ended := MkReleased gone lease in
  _ ← announceLeaseEnd ended;
  _ ← emit (EmitDeleted (dev_id device) initiator (dev_physical device));
  mret ended.

Definition endLeaseAndMarkDeviceAbsent (leaseId : string) (absentReason : AbsentReason)
    : op ReleasedLease :=
  lease ← find_lease leaseId;
  '(device, index) ← requireDeviceRecord (l_deviceId lease);
  moved ← lift (transitioned device absent (no_update <| u_absentReason := Some absentReason |>));
  let gone := set_fields (λ f, f <| lastLeaseEndedAt := Some now |>) moved in
  r ← get;
  _ ← commit_devices (<[index := gone]> (devices r)) (without_lease leaseId (leases r));
  let ended := MkReleased gone lease in
  _ ← announceLeaseEnd ended;
  _ ← emit (EmitAbsence absentReason (dev_id device) leased);
  mret ended.

Definition rewriteAbsentReason (deviceId : string) (absentReason : AbsentReason)
    : op DeviceRecord :=
  '(device, index) ← requireDeviceRecord deviceId;
  match device with
  | Physical p =>
      _ ← guard_or (p_state p === absent)
            (RegistryEventError ("Device is not absent: " +:+ deviceId));
      let updated := Physical (p <| p_absentReason := Some absentReason |>) in
      _ ← replace_device index updated;
      mret updated
  | Virtual _ => throw (RegistryEventError ("Device is not absent: " +:+ deviceId))
  end.

(** ** Physical enrolment *)

Definition enrolled_spec (platform : Platform) (input : PhysicalEnrollmentInput) : PhysicalSpec :=
  MkPhysicalSpec platform (en_model input) (en_osVersion input) (en_class input).

Definition enrollPhysical (generated : string) (input : PhysicalEnrollmentInput) : op DeviceRecord :=
  let record := MkPhysical
    (MkFields ("dev_" +:+ generated) (en_driverDeviceId input) (Opaque "{}") now None (Some now)
       None None None None None None None None None None None None)
    (enrolled_spec (en_platform input) input) ready (en_apps input) None None in
  r ← get;
  _ ← commit_devices (devices r ++ [Physical record]) (leases r);
  _ ← emit (EmitEnrolled record false);
  mret (Physical record).

Definition reenrollPhysical (deviceId : string) (input : PhysicalEnrollmentInput)
    : op DeviceRecord :=
  '(device, index) ← requireDeviceRecord deviceId;
  match device with
  | Virtual _ => throw (RegistryEventError ("Cannot re-enrol device: " +:+ deviceId))
  | Physical p =>
      let kept := p <| p_fields :=
        (without_quarantine (p_fields p)) <| deferredReclaimLeaseId := None |> |> in
      settled ←
        if p_state p === ready then mret kept
        else match transitionPhysical kept ready no_update with
             | Ok q => mret q
             | Err _ => throw (RegistryEventError ("Cannot re-enrol device: " +:+ deviceId))
             end;
      let updated :=
        settled <| p_enrolledApps := en_apps input |>
                <| p_fields := (p_fields settled) <| readyAt := Some now |> |>
                <| p_spec := enrolled_spec (ps_platform (p_spec p)) input |> in
      _ ← replace_device index (Physical updated);
      _ ← emit (EmitEnrolled updated true);
      committed deviceId
  end.

Definition unenrollPhysical (deviceId : string) : op DeviceRecord :=
  '(device, index) ← requireDeviceRecord deviceId;
  match device with
  | Virtual _ => throw (RegistryEventError ("Cannot unenrol device: " +:+ deviceId))
  | Physical p =>
      let kept := p <| p_fields := without_quarantine (p_fields p) |> in
      updated ← match transitionPhysical kept deleted no_update with
                | Ok q => mret q
                | Err _ => throw (RegistryEventError ("Cannot unenrol device: " +:+ deviceId))
                end;
      _ ← replace_device index (Physical updated);
      _ ← emit (EmitDeleted deviceId "operator" true);
      committed deviceId
  end.

(** ** Leases *)

(** [{ ...leased, except }] unless no list was given or the device is physical. *)
Definition with_except (ex : option (list string)) (d : DeviceRecord) : DeviceRecord :=
  match ex, d with
  | Some categories, Virtual v => Virtual (v <| v_except := Some categories |>)
  | _, _ => d
  end.

Definition createLease (generated : string) (input : CreateLeaseInput) : op LeaseRecord :=
  let deviceId := cl_deviceId input in
  '(device, index) ← requireDeviceRecord deviceId;
  r ← get;
  _ ← guard_or (negb (Arr.some (on_device deviceId) (leases r)))
        (RegistryEventError ("Device already has an active lease: " +:+ deviceId));
  taken ← lift (transitioned device leased no_update);
  let leasedDevice := with_except (cl_except input) taken in
  let lease := MkLease (default ("lse_" +:+ generated) (cl_leaseId input)) deviceId
    (cl_requesterId input) (cl_ownerId input) now (cl_ttlMs input) (cl_ttlDeadline input) now
    (cl_leaseId input !== None) in
  let requests :=
    match cl_request input with
    | None => leaseRequests r
    | Some request =>
        (withSettledLeaseRequest (leaseRequests r) (cr_id request)
           (OutcomeGranted (MkGrant leasedDevice (cr_environment request) lease (cr_timing request)))
           now).1
    end in
  _ ← commit (<[index := leasedDevice]> (devices r)) (leases r ++ [lease]) requests (components r);
  mret lease.

Definition beginRelease (leaseId : string) (deferReclaim : bool) : op ReleasedLease :=
  lease ← find_lease leaseId;
  '(device, index) ← requireDeviceRecord (l_deviceId lease);
  moved ← lift (transitioned (set_fields without_recovery device) reclaiming no_update);
  let released := set_fields (λ f,
    let f := f <| lastLeaseEndedAt := Some now |> in
    if deferReclaim then f <| deferredReclaimLeaseId := Some leaseId |> else f) moved in
  r ← get;
  _ ← commit_devices (<[index := released]> (devices r)) (without_lease leaseId (leases r));
  mret (MkReleased released lease).

Definition renewLease (leaseId : string) (ttlDeadline ttlMs : Z) : op LeaseRecord :=
  r ← get;
  match Arr.findIndex (λ l, l_id l === leaseId) (leases r) with
  | None => throw (UnknownLeaseError leaseId)
  | Some index =>
      lease ← lift (of_option (UnknownLeaseError leaseId) (leases r !! index));
      let renewed := lease <| l_lastRenewedAt := now |> <| l_ttlDeadline := ttlDeadline |>
                           <| l_ttlMs := ttlMs |> in
      _ ← commit_devices (devices r) (<[index := renewed]> (leases r));
      mret renewed
  end.

(** ** Lease requests *)

Definition withCurrentDevice (r : Registry) (q : LeaseRequestRecord LeaseGrant)
    : LeaseRequestRecord LeaseGrant :=
  match q_grant q with
  | None => q
  | Some grant =>
      match Arr.find (λ d, dev_id d === dev_id (g_device grant)) (devices r) with
      | None => q
      | Some device => q <| q_grant := Some (grant <| g_device := device |>) |>
      end
  end.
Definition registry_leaseRequests (r : Registry) : list (LeaseRequestRecord LeaseGrant) :=
  withCurrentDevice r <$>
    retainedLeaseRequests (leaseRequests r) now (retentionMs (leaseRequestLimits options)).

Definition createLeaseRequest (generated : string) (input : NewLeaseRequest)
    : op (LeaseRequestRecord LeaseGrant) :=
  let record := newLeaseRequestRecord (default (newLeaseRequestId generated) (n_id input))
                  input now in
  r ← get;
  _ ← commit (devices r) (leases r)
        (withNewLeaseRequest (leaseRequests r) record now (leaseRequestLimits options))
        (components r);
  mret record.

Definition settleLeaseRequest (rid : string) (outcome : LeaseRequestOutcome LeaseGrant)
    : op (option (LeaseRequestRecord LeaseGrant)) :=
  r ← get;
  let '(records, settled) := withSettledLeaseRequest (leaseRequests r) rid outcome now in
  match settled with
  | None => mret None
  | Some record =>
      _ ← commit (devices r) (leases r) records (components r);
      r ← get;
      mret (Some (withCurrentDevice r record))
  end.

(** The loop of [failOpenLeaseRequests]: the records so far, and the settled ones. *)
Definition fail_open (failure : LeaseRequestFailure)
    (acc : list (LeaseRequestRecord LeaseGrant) * list (LeaseRequestRecord LeaseGrant))
    (open_ : LeaseRequestRecord LeaseGrant)
    : list (LeaseRequestRecord LeaseGrant) * list (LeaseRequestRecord LeaseGrant) :=
  let '(records, settled) := withSettledLeaseRequest acc.1 (q_id open_) (OutcomeFailed failure) now in
  (records, match settled with Some s => acc.2 ++ [s] | None => acc.2 end).
Definition failOpenLeaseRequests (failure : LeaseRequestFailure)
    : op (list (LeaseRequestRecord LeaseGrant)) :=
  r ← get;
  let '(records, settled) :=
    foldl (fail_open failure) (leaseRequests r, [])
      (Arr.filter (λ q, negb (isSettled q)) (leaseRequests r)) in
  _ ← (if 0 <? length settled then commit (devices r) (leases r) records (components r)
       else mret tt);
  r ← get;
  mret (withCurrentDevice r <$> settled).

(** ** Loading *)

(** [load]: the rows as records; a deleted device found there is stamped or purged at once. *)
Definition load (ds : list DeviceRecord) (ls : list LeaseRecord)
    (qs : list (LeaseRequestRecord LeaseGrant)) (cs : list ComponentRecord) (t : RegistryRows)
    : Registry :=
  let r := MkRegistry ds ls qs cs t [] in
  if Arr.some (λ d, dev_state d === deleted) ds then (commit_devices ds ls r).1 else r.
End registry.

(** [snapshot]: virtual devices first, then physical ones. *)
Definition snapshot_devices (r : Registry) : list DeviceRecord :=
  Arr.filter (λ d, negb (dev_physical d)) (devices r) ++ Arr.filter dev_physical (devices r).
