(* ===== verification/RegistryInv.v ===== *)
(** * The registry's invariant: [src/core/registry.ts]

    What every commit of the registry keeps true, for every operation and every order of them: the
    leases and the leased devices are in step, ids are unique, and the rows on disk are the records
    in memory. *)
From stdpp Require Import base strings list option numbers gmap fin_maps sets.
From S2P Require Import Prelude JsString OsRange Domain RequestStore Registry.

(** ** Tables *)

Section tables.
Context {K T : Type} `{Countable K} (keyOf : T → K).
Implicit Types (l before after : list T) (t : gmap K T).

Definition table_of l : gmap K T := list_to_map ((λ r, (keyOf r, r)) <$> l).

Lemma table_of_Some l k r : NoDup (keyOf <$> l) →
  table_of l !! k = Some r ↔ r ∈ l ∧ keyOf r = k.
Proof.
  intros Hn. unfold table_of.
  rewrite <- elem_of_list_to_map by (by rewrite <- list_fmap_compose).
  rewrite list_elem_of_fmap. naive_solver.
Qed.
Lemma table_of_None l k : table_of l !! k = None ↔ k ∉ keyOf <$> l.
Proof.
  unfold table_of. rewrite <- not_elem_of_list_to_map, <- list_fmap_compose. done.
Qed.

Lemma delete_all_lookup (ks : list K) t k :
  foldl (λ t k, delete k t) t ks !! k = if bool_decide (k ∈ ks) then None else t !! k.
Proof.
  revert t. induction ks as [|j ks IH]; intros t; cbn; [done|]. rewrite IH.
  destruct (decide (k = j)) as [->|Hne].
  - rewrite lookup_delete_eq, (bool_decide_eq_true_2 (j ∈ j :: ks)) by (by left).
    by case_bool_decide.
  - rewrite lookup_delete_ne by done. case_bool_decide as Hk.
    + by rewrite bool_decide_eq_true_2 by (by right).
    + rewrite bool_decide_eq_false_2; [done|]. by intros [?|?]%elem_of_cons.
Qed.

Lemma insert_all_lookup (rs : list T) t k : NoDup (keyOf <$> rs) →
  foldl (λ t r, <[keyOf r := r]> t) t rs !! k
  = match table_of rs !! k with Some r => Some r | None => t !! k end.
Proof.
  revert t. induction rs as [|r rs IH]; intros t Hn; cbn; [done|].
  apply NoDup_cons in Hn as [Hr Hn]. rewrite IH by done.
  change (table_of (r :: rs)) with (<[keyOf r := r]> (table_of rs)).
  destruct (decide (k = keyOf r)) as [->|Hne].
  - rewrite lookup_insert_eq, (proj2 (table_of_None _ _) Hr). by rewrite lookup_insert_eq.
  - rewrite !lookup_insert_ne by done. done.
Qed.

(** Writing the difference is writing the whole table, whatever identity test is used, as long
    as records it calls the same are equal. *)
Lemma write_changes same before after :
  (∀ a b, same a b = true → a = b) →
  NoDup (keyOf <$> before) → NoDup (keyOf <$> after) →
  write_rows keyOf (changes same keyOf before after) (table_of before) = table_of after.
Proof.
  intros Hsame Hb Ha. unfold changes.
  replace (list_to_map (reverse _)) with (table_of before).
  2:{ unfold table_of. apply list_to_map_proper; [by rewrite <- list_fmap_compose|].
      by rewrite reverse_Permutation. }
  unfold write_rows. cbn [fst snd].
  set (changed := Arr.filter _ after). set (removed := List.filter _ _).
  assert (NoDup (keyOf <$> changed)) as Hc.
  { eapply sublist_NoDup; [exact Ha|]. apply fmap_sublist, sublist_filter_b. }
  apply map_eq. intros k. rewrite insert_all_lookup, delete_all_lookup by done.
  destruct (table_of changed !! k) as [r|] eqn:Er.
  { apply table_of_Some in Er as [[Hr _]%elem_of_afilter Hk]; [|done].
    symmetry. by apply table_of_Some. }
  rewrite table_of_None in Er.
  assert (k ∈ removed ↔ (k ∈ keyOf <$> before) ∧ k ∉ keyOf <$> after) as Hrem.
  { unfold removed. rewrite list_elem_of_In, filter_In, <- list_elem_of_In.
    unfold Arr.includes. rewrite negb_true_iff, bool_decide_eq_false.
    enough (k ∈ (map_to_list (table_of before)).*1 ↔ k ∈ keyOf <$> before) as ->; [done|].
    rewrite list_elem_of_fmap. split.
    - intros ([k' r] & Hk' & Hin%elem_of_map_to_list). cbn in Hk'. subst k'.
      apply table_of_Some in Hin as [? <-]; [|done].
      by apply list_elem_of_fmap_2.
    - intros (r & -> & Hr)%list_elem_of_fmap. exists (keyOf r, r). split; [done|].
      by apply elem_of_map_to_list, table_of_Some. }
  case_bool_decide as Hk.
  - apply Hrem in Hk as [_ Hk]. symmetry. by apply table_of_None.
  - destruct (table_of after !! k) as [r|] eqn:Ea.
    + apply table_of_Some in Ea as [Hr <-]; [|done].
      destruct (table_of before !! keyOf r) as [c|] eqn:Eb.
      * destruct (same c r) eqn:Es; [by rewrite (Hsame _ _ Es)|].
        destruct Er. apply list_elem_of_fmap_2, elem_of_afilter. split; [done|].
        by rewrite Eb, Es.
      * destruct Er. apply list_elem_of_fmap_2, elem_of_afilter. split; [done|]. by rewrite Eb.
    + rewrite table_of_None in Ea. apply table_of_None. tauto.
Qed.
End tables.

(** ** The invariant *)

(** A granted request names a device of the registry, and was settled before any deletion of it. *)
Definition grant_ok (t : Z) (ds : list DeviceRecord) (q : LeaseRequestRecord LeaseGrant)
    (g : LeaseGrant) : Prop :=
  isSettled q = true ∧ ∃ at_ d, q_settledAt q = Some at_ ∧ (at_ ≤ t)%Z ∧ d ∈ ds
    ∧ dev_id d = dev_id (g_device g) ∧ ∀ x, deletedAt (dev_fields d) = Some x → (at_ ≤ x)%Z.

(** The records at clock reading [t], on their way to a commit. *)
Record data_ok (t : Z) (ds : list DeviceRecord) (ls : list LeaseRecord)
    (qs : list (LeaseRequestRecord LeaseGrant)) (cs : list ComponentRecord) : Prop := {
  do_ids : NoDup (dev_id <$> ds);
  do_wf d : d ∈ ds → wf_device d = true;
  do_deleted d : d ∈ ds → deletedAt (dev_fields d) ≠ None → dev_state d = deleted;
  do_lease_ids : NoDup (l_id <$> ls);
  do_lease_devices : NoDup (l_deviceId <$> ls);
  do_leased i : i ∈ l_deviceId <$> ls ↔ ∃ d, d ∈ ds ∧ dev_id d = i ∧ dev_state d = leased;
  do_request_ids : NoDup (q_id <$> qs);
  do_grants q g : q ∈ qs → q_grant q = Some g → grant_ok t ds q g;
  do_granted q : q ∈ qs → q_state q = granted ↔ q_grant q ≠ None;
  do_components : NoDup (componentKey <$> cs) }.

Definition rows_of (r : Registry) : RegistryRows :=
  MkRows (table_of dev_id (devices r)) (table_of l_id (leases r))
    (table_of q_id (leaseRequests r)) (table_of componentKey (components r)).

(** What was committed, one after the other: each commit leaves sound records, what it keeps stays
    in its place, and a request that was granted stays as it was granted for as long as it is
    kept. *)
Definition commits (l : list LogEntry) : list Contents :=
  omap (λ e, match e with LogCommit s => Some s | _ => None end) l.
Definition contents_ok (t : Z) (s : Contents) : Prop :=
  data_ok t (ct_devices s) (ct_leases s) (ct_requests s) (ct_components s).
Definition grants_kept (qs qs' : list (LeaseRequestRecord LeaseGrant)) : Prop :=
  ∀ q q' g, q ∈ qs → q' ∈ qs' → q_id q = q_id q' → q_grant q = Some g → q_grant q' = Some g.
(** Keys that are kept stay in order, and new ones come after them. *)
Definition extends {K} (l l' : list K) : Prop :=
  ∃ kept new, l' = kept ++ new ∧ sublist kept l ∧ ∀ k, k ∈ new → k ∉ l.
Record carries (s s' : Contents) : Prop := {
  ca_devices : extends (dev_id <$> ct_devices s) (dev_id <$> ct_devices s');
  ca_leases : extends (l_id <$> ct_leases s) (l_id <$> ct_leases s');
  ca_requests : extends (q_id <$> ct_requests s) (q_id <$> ct_requests s');
  ca_grants : grants_kept (ct_requests s) (ct_requests s') }.
Definition follows (s s' : Contents) : Prop := (∃ t, contents_ok t s') ∧ carries s s'.
Fixpoint chain (s : Contents) (l : list Contents) (s' : Contents) : Prop :=
  match l with
  | [] => s = s'
  | x :: l => follows s x ∧ chain x l s'
  end.
Definition no_contents : Contents := MkContents [] [] [] [].

Lemma extends_sub {K} (l l' : list K) : sublist l' l → extends l l'.
Proof. intros H. exists l', []. split_and!; [by rewrite app_nil_r|done|]. by intros k ?%elem_of_nil. Qed.
Lemma extends_same {K} (l l' : list K) : l' = l → extends l l'.
Proof. intros ->. by apply extends_sub. Qed.
Lemma extends_snoc {K} (l l' : list K) k : sublist l' l → k ∉ l → extends l (l' ++ [k]).
Proof. intros H Hk. exists l', [k]. split_and!; [done..|]. by intros ? ->%list_elem_of_singleton. Qed.
Lemma extends_then_sub {K} (l m n : list K) : extends l m → sublist n m → extends l n.
Proof.
  intros (kept & new & -> & Hs & Hn) (a & b & -> & Ha & Hb)%sublist_app_r.
  exists a, b. split_and!; [done|by etrans|]. intros k Hk. apply Hn. by eapply sublist_elem_of.
Qed.
Lemma chain_snoc s l x y : chain s l x → follows x y → chain s (l ++ [y]) y.
Proof.
  revert s. induction l as [|z l IH]; intros s; cbn; [by intros ->|].
  intros [Hz Hl] Hy. split; [done|]. by apply IH.
Qed.
Lemma commits_app l k : commits (l ++ k) = commits l ++ commits k.
Proof. apply omap_app. Qed.
Lemma grants_kept_sub qs qs' : NoDup (q_id <$> qs) → qs' ⊆ qs → grants_kept qs qs'.
Proof.
  intros Hn Hsub q q' g Hq Hq' Hid. by rewrite (NoDup_fmap_inj_on q_id qs q q' Hn Hq (Hsub q' Hq') Hid).
Qed.

(** The registry after a commit at clock reading [t]. *)
Record registry_ok (t : Z) (r : Registry) : Prop := {
  ro_data : data_ok t (devices r) (leases r) (leaseRequests r) (components r);
  ro_rows : rows r = rows_of r;
  ro_log : chain no_contents (commits (log r)) (contents r);
  ro_stamped d : d ∈ devices r → dev_state d = deleted → deletedAt (dev_fields d) ≠ None;
  ro_cause d : d ∈ devices r → quarantineCause (dev_fields d) ≠ None → dev_state d = quarantined }.

Lemma data_ok_later t t' ds ls qs cs : (t ≤ t')%Z → data_ok t ds ls qs cs → data_ok t' ds ls qs cs.
Proof.
  intros Ht [? ? ? ? ? ? ? Hg ? ?]. split; try done.
  intros q g Hq Hgr. destruct (Hg q g Hq Hgr) as (Hs & at_ & d & ? & ? & ? & ? & ?).
  split; [done|]. exists at_, d. split_and!; try done. lia.
Qed.
Lemma registry_ok_later t t' r : (t ≤ t')%Z → registry_ok t r → registry_ok t' r.
Proof. intros Ht [? ? ? ? ?]. split; try done. by eapply data_ok_later. Qed.

(** ** What a commit does to each device *)

Lemma set_fields_id f d : (∀ x, id (f x) = id x) → dev_id (set_fields f d) = dev_id d.
Proof. intros Hf. destruct d; apply Hf. Qed.
Lemma set_fields_state f d : dev_state (set_fields f d) = dev_state d.
Proof. by destruct d. Qed.
Lemma set_fields_wf f d : wf_device (set_fields f d) = wf_device d.
Proof. by destruct d. Qed.
Lemma set_fields_fields f d : dev_fields (set_fields f d) = f (dev_fields d).
Proof. by destruct d. Qed.
Lemma set_fields_physical f d : dev_physical (set_fields f d) = dev_physical d.
Proof. by destruct d. Qed.

Definition settle_device (now : Z) (d : DeviceRecord) : DeviceRecord :=
  stamp_deleted now (withoutCauseUnlessQuarantined d).

Lemma settle_device_spec now d :
  let d' := settle_device now d in
  dev_id d' = dev_id d ∧ dev_state d' = dev_state d ∧ wf_device d' = wf_device d
  ∧ deletedAt (dev_fields d')
    = (if (dev_state d === deleted) && (deletedAt (dev_fields d) === None) then Some now
       else deletedAt (dev_fields d))
  ∧ quarantineCause (dev_fields d')
    = (if dev_state d === quarantined then quarantineCause (dev_fields d) else None).
Proof.
  assert (∀ d, let d' := withoutCauseUnlessQuarantined d in
    dev_id d' = dev_id d ∧ dev_state d' = dev_state d ∧ wf_device d' = wf_device d
    ∧ deletedAt (dev_fields d') = deletedAt (dev_fields d)
    ∧ quarantineCause (dev_fields d')
      = (if dev_state d === quarantined then quarantineCause (dev_fields d) else None)) as Hc.
  { clear d. intros d d'. unfold d', withoutCauseUnlessQuarantined.
    destruct (dev_state d === quarantined) eqn:Eq; cbn [orb]; [done|].
    clear Eq. case_bool_decide as Hn; [done|].
    rewrite set_fields_state, set_fields_wf, set_fields_fields, set_fields_id by done. done. }
  intros d'. unfold d', settle_device. destruct (Hc d) as (H1 & H2 & H3 & H4 & H5).
  set (c := withoutCauseUnlessQuarantined d) in *. unfold stamp_deleted.
  rewrite H2, H4. destruct (_ && _); [|done].
  rewrite set_fields_state, set_fields_wf, set_fields_fields, set_fields_id by done. cbn. done.
Qed.

Section commit.
Context (options : RegistryOptions) (now : Z).
Context (Hret : (retentionMs (leaseRequestLimits options) ≤ deletedRetentionMs options)%Z).

Lemma elem_of_committed ds x : x ∈ committed_devices options now ds ↔
  ∃ d, d ∈ ds ∧ x = settle_device now d ∧ isExpired now (deletedRetentionMs options) x = false.
Proof.
  unfold committed_devices. rewrite elem_of_afilter, negb_true_iff, <- list_fmap_compose.
  rewrite list_elem_of_fmap. naive_solver.
Qed.

Lemma committed_ids ds : sublist (dev_id <$> committed_devices options now ds) (dev_id <$> ds).
Proof.
  unfold committed_devices. rewrite <- list_fmap_compose.
  replace (dev_id <$> ds)
    with (dev_id <$> ((stamp_deleted now ∘ withoutCauseUnlessQuarantined) <$> ds)).
  - apply fmap_sublist, sublist_filter_b.
  - rewrite <- list_fmap_compose. apply list_fmap_ext. intros i d _. cbn.
    apply (settle_device_spec now d).
Qed.

(** The length drops only when some device expired. *)
Lemma committed_all ds : ¬ length (committed_devices options now ds) < length ds →
  ∀ d, d ∈ ds → settle_device now d ∈ committed_devices options now ds.
Proof.
  intros Hlen d Hd. apply elem_of_committed. exists d. split_and!; [done..|].
  unfold committed_devices in Hlen. rewrite <- list_fmap_compose in Hlen.
  set (l := (stamp_deleted now ∘ withoutCauseUnlessQuarantined) <$> ds) in *.
  assert (length l = length ds) as Hl by apply length_fmap.
  assert (settle_device now d ∈ l) as Hin by (by apply list_elem_of_fmap_2).
  apply negb_true_iff. revert Hin.
  apply (afilter_full (λ x, negb (isExpired now (deletedRetentionMs options) x))). lia.
Qed.

Definition committed_requests (ds : list DeviceRecord) (qs : list (LeaseRequestRecord LeaseGrant))
    : list (LeaseRequestRecord LeaseGrant) :=
  if length (committed_devices options now ds) <? length ds
  then retainedLeaseRequests qs now (retentionMs (leaseRequestLimits options)) else qs.

Lemma committed_requests_sub ds qs : sublist (committed_requests ds qs) qs.
Proof. unfold committed_requests. destruct (_ <? _); [apply sublist_filter_b|done]. Qed.

(** A purged device leaves no request that names it. *)
Lemma committed_grant ds qs q g : q ∈ committed_requests ds qs → grant_ok now ds q g →
  grant_ok now (committed_devices options now ds) q g.
Proof using Hret.
  intros Hq (Hs & at_ & d & Hat & Hle & Hd & Hid & Hdel). split; [done|].
  exists at_, (settle_device now d).
  destruct (settle_device_spec now d) as (Hid' & _ & _ & Hdel' & _).
  set (x := settle_device now d) in *.
  assert (∀ y, deletedAt (dev_fields x) = Some y → (at_ ≤ y)%Z) as Hy.
  { intros y. rewrite Hdel'. destruct (_ && _); [by intros [= <-]|]. apply Hdel. }
  split_and!; [done..| |congruence|done].
  destruct (Nat.ltb_spec (length (committed_devices options now ds)) (length ds)) as [Hlt|Hge].
  2:{ apply committed_all; [lia|done]. }
  unfold committed_requests in Hq. rewrite (proj2 (Nat.ltb_lt _ _) Hlt) in Hq.
  apply elem_of_retained in Hq as [_ Hr]. unfold retained in Hr. rewrite Hs, Hat in Hr.
  cbn in Hr. apply elem_of_committed. exists d. split_and!; [done..|]. unfold isExpired.
  destruct (deletedAt (dev_fields x)) as [y|] eqn:Ey; [|done]. specialize (Hy y eq_refl). lia.
Qed.

Lemma committed_data ds ls qs cs : data_ok now ds ls qs cs →
  data_ok now (committed_devices options now ds) ls (committed_requests ds qs) cs.
Proof using Hret.
  intros [Hids Hwf Hdel Hlids Hldev Hleased Hqids Hgrants Hgranted Hcs]. split; try done.
  - eapply sublist_NoDup; [exact Hids|]. apply committed_ids.
  - intros x (d & Hd & -> & _)%elem_of_committed.
    destruct (settle_device_spec now d) as (_ & _ & -> & _). by apply Hwf.
  - intros x (d & Hd & -> & _)%elem_of_committed.
    destruct (settle_device_spec now d) as (_ & -> & _ & -> & _).
    destruct (decide (dev_state d = deleted)) as [|Hn]; [done|].
    rewrite bool_decide_eq_false_2 by done. by apply Hdel.
  - intros i. rewrite Hleased. split.
    + intros (d & Hd & Hid & Hs). exists (settle_device now d).
      destruct (settle_device_spec now d) as (-> & -> & _ & Hdel' & _). split_and!; [|done..].
      apply elem_of_committed. exists d. split_and!; [done..|]. unfold isExpired. rewrite Hdel', Hs.
      js_eval. destruct (deletedAt (dev_fields d)) eqn:E; [|done].
      exfalso. rewrite (Hdel d Hd) in Hs; [done|]. by rewrite E.
    + intros (x & (d & Hd & -> & _)%elem_of_committed & Hid & Hs). exists d.
      destruct (settle_device_spec now d) as (Hi & Hst & _). by rewrite <- Hi, <- Hst.
  - eapply sublist_NoDup; [exact Hqids|]. apply fmap_sublist, committed_requests_sub.
  - intros q g Hq Hg. apply (committed_grant _ qs); [done|]. apply Hgrants; [|done].
    eapply sublist_elem_of; [apply committed_requests_sub|done].
  - intros q Hq. apply Hgranted. eapply sublist_elem_of; [apply committed_requests_sub|done].
Qed.

(** The commit lemma: sound records give a sound registry, rows included. *)
Lemma commit_ok r t ds ls qs cs :
  registry_ok t r → data_ok now ds ls qs cs → carries (contents r) (MkContents ds ls qs cs) →
  registry_ok now (commit options now ds ls qs cs r).1.
Proof using Hret.
  intros [Hd Hrows Hlog _ _] Hnew Hkeep. pose proof (committed_data _ _ _ _ Hnew) as Hc.
  unfold commit, modify. cbn [fst]. fold (committed_requests ds qs). split; cbn.
  - done.
  - unfold commit_rows. rewrite Hrows. unfold rows_of. cbn.
    assert (∀ {T} `{EqDecision T} (a b : T), same_record a b = true → a = b) as Hsame
      by (intros T ? a b ?%bool_decide_eq_true; done).
    f_equal; apply write_changes; try (by apply Hsame); apply Hd || apply Hc.
  - rewrite commits_app. eapply chain_snoc; [exact Hlog|]. split; [by exists now|].
    destruct Hkeep as [Hkd Hkl Hkq Hkg]. split; cbn in *; [|done|..].
    + eapply extends_then_sub; [exact Hkd|apply committed_ids].
    + eapply extends_then_sub; [exact Hkq|]. apply fmap_sublist, committed_requests_sub.
    + intros q q' g Hq Hq'. apply Hkg; [done|].
      eapply sublist_elem_of; [apply committed_requests_sub|done].
  - intros x (d & Hin & -> & _)%elem_of_committed.
    destruct (settle_device_spec now d) as (_ & -> & _ & -> & _). intros ->. js_eval.
    case_bool_decide; done.
  - intros x (d & Hin & -> & _)%elem_of_committed.
    destruct (settle_device_spec now d) as (_ & -> & _ & _ & ->). by case_bool_decide.
Qed.
End commit.

(** ** Changes of the records *)

Lemma elem_of_replace (ds : list DeviceRecord) (i : nat) d d' x : NoDup (dev_id <$> ds) → ds !! i = Some d →
  x ∈ <[i := d']> ds ↔ x = d' ∨ (x ∈ ds ∧ dev_id x ≠ dev_id d).
Proof.
  intros Hn Hi. pose proof (lookup_lt_Some _ _ _ Hi) as Hlt. rewrite list_elem_of_lookup. split.
  - intros [j Hj]. destruct (decide (j = i)) as [->|Hne].
    + left. rewrite list_lookup_insert_eq in Hj by done. congruence.
    + right. rewrite list_lookup_insert_ne in Hj by done.
      split; [by eapply list_elem_of_lookup_2|]. intros Heq. apply Hne.
      eapply (NoDup_lookup _ j i (dev_id x) Hn); rewrite list_lookup_fmap; [by rewrite Hj|].
      by rewrite Hi, Heq.
  - intros [->|[[j Hj]%list_elem_of_lookup Hne]].
    + exists i. by rewrite list_lookup_insert_eq.
    + exists j. rewrite list_lookup_insert_ne; [done|]. intros ->. congruence.
Qed.

Lemma replace_ids (ds : list DeviceRecord) (i : nat) d d' : ds !! i = Some d → dev_id d' = dev_id d →
  dev_id <$> <[i := d']> ds = dev_id <$> ds.
Proof.
  intros Hi Hid. rewrite list_fmap_insert, Hid. apply list_insert_id. by rewrite list_lookup_fmap, Hi.
Qed.

Lemma replace_extends (ds : list DeviceRecord) (i : nat) d d' : ds !! i = Some d →
  dev_id d' = dev_id d → extends (dev_id <$> ds) (dev_id <$> <[i := d']> ds).
Proof. intros. apply extends_same. by eapply replace_ids. Qed.
Lemma without_lease_extends i (ls : list LeaseRecord) :
  extends (l_id <$> ls) (l_id <$> without_lease i ls).
Proof. apply extends_sub, fmap_sublist, sublist_filter_b. Qed.

(** A device may be replaced by one of the same id and deletion mark. *)
Record successor (d d' : DeviceRecord) : Prop := {
  su_id : dev_id d' = dev_id d;
  su_wf : wf_device d' = true;
  su_deletedAt : deletedAt (dev_fields d') = deletedAt (dev_fields d);
  su_deleted : deletedAt (dev_fields d) ≠ None → dev_state d' = deleted }.

(** The parts of the records a replacement keeps, whatever happens to the leases. *)
Lemma data_replace_parts t ds ls qs cs i d d' : data_ok t ds ls qs cs → ds !! i = Some d →
  successor d d' →
  NoDup (dev_id <$> <[i := d']> ds)
  ∧ (∀ x, x ∈ <[i := d']> ds → wf_device x = true)
  ∧ (∀ x, x ∈ <[i := d']> ds → deletedAt (dev_fields x) ≠ None → dev_state x = deleted)
  ∧ (∀ q g, q ∈ qs → q_grant q = Some g → grant_ok t (<[i := d']> ds) q g).
Proof.
  intros [Hids Hwf Hdel _ _ _ _ Hg _ _] Hi [Sid Swf Sdel Sdeleted].
  assert (∀ x, x ∈ <[i := d']> ds → x = d' ∨ x ∈ ds) as Hel.
  { intros x Hx. apply (elem_of_replace ds i d d') in Hx; tauto. }
  split_and!.
  - by rewrite (replace_ids _ _ d).
  - intros x [->|Hx]%Hel; [done|by apply Hwf].
  - intros x [->|Hx]%Hel; [by rewrite Sdel|by apply Hdel].
  - intros q g Hq Hgr. destruct (Hg q g Hq Hgr) as (Hs & at_ & e & Hat & Hle & He & Hide & Hdele).
    split; [done|]. destruct (decide (dev_id e = dev_id d)) as [Heq|Hne].
    + assert (e = d) as ->.
      { eapply (NoDup_fmap_inj_on dev_id); [done..| |done]. by eapply list_elem_of_lookup_2. }
      exists at_, d'. split_and!; [done..| | |].
      * apply (elem_of_replace ds i d); [done..|]. by left.
      * by rewrite Sid.
      * by rewrite Sdel.
    + exists at_, e. split_and!; [done..| |done|done]. apply (elem_of_replace ds i d); [done..|]. by right.
Qed.

Lemma data_replace t ds ls qs cs i d d' : data_ok t ds ls qs cs → ds !! i = Some d →
  successor d d' → (dev_state d' = leased ↔ dev_state d = leased) →
  data_ok t (<[i := d']> ds) ls qs cs.
Proof.
  intros H Hi S Hls. destruct (data_replace_parts _ _ _ _ _ _ _ _ H Hi S) as (? & ? & ? & ?).
  destruct S as [Sid _ _ _]. destruct H as [Hids Hwf Hdel Hlids Hldev Hleased Hqids Hg Hgd Hcs].
  assert (d ∈ ds) as Hd by (by eapply list_elem_of_lookup_2).
  split; try done. intros k. rewrite Hleased. split.
  - intros (x & Hx & Hk & Hs). destruct (decide (dev_id x = dev_id d)) as [Heq|Hne].
    + assert (x = d) as -> by (by apply (NoDup_fmap_inj_on dev_id ds)).
      exists d'. rewrite Sid, Hls. split_and!; try done.
      apply (elem_of_replace ds i d); [done..|]. by left.
    + exists x. split_and!; try done. apply (elem_of_replace ds i d); [done..|]. by right.
  - intros (x & [->|[Hx Hne]]%(elem_of_replace ds i d) & Hk & Hs); [|by exists x|done|done].
    exists d. rewrite <- Sid. split_and!; try done. by apply Hls.
Qed.

(** A new lease on a device that becomes leased. *)
Lemma data_lease t ds ls qs cs i d d' l : data_ok t ds ls qs cs → ds !! i = Some d →
  successor d d' → dev_state d' = leased → dev_state d ≠ leased →
  l_deviceId l = dev_id d → l_id l ∉ l_id <$> ls →
  data_ok t (<[i := d']> ds) (ls ++ [l]) qs cs.
Proof.
  intros H Hi S Hs' Hs Hl Hfresh.
  destruct (data_replace_parts _ _ _ _ _ _ _ _ H Hi S) as (? & ? & ? & ?).
  destruct S as [Sid _ _ _]. destruct H as [Hids Hwf Hdel Hlids Hldev Hleased Hqids Hg Hgd Hcs].
  assert (d ∈ ds) as Hd by (by eapply list_elem_of_lookup_2).
  assert (dev_id d ∉ l_deviceId <$> ls) as Hno.
  { rewrite Hleased. intros (x & Hx & Hk & Hsx). apply Hs.
    by rewrite <- (NoDup_fmap_inj_on dev_id ds x d Hids Hx Hd Hk). }
  split; try done.
  - rewrite fmap_app. apply NoDup_app. split_and!; [done| |apply NoDup_singleton].
    intros k Hk ->%list_elem_of_singleton. done.
  - rewrite fmap_app. apply NoDup_app. split_and!; [done| |apply NoDup_singleton].
    intros k Hk ->%list_elem_of_singleton. by rewrite Hl in Hk.
  - intros k. rewrite fmap_app, elem_of_app, Hleased. cbn. rewrite list_elem_of_singleton, Hl. split.
    + intros [(x & Hx & Hk & Hsx)| ->].
      * exists x. split_and!; try done. apply (elem_of_replace ds i d); [done..|]. right.
        split; [done|]. intros Heq. apply Hs.
        by rewrite <- (NoDup_fmap_inj_on dev_id ds x d Hids Hx Hd Heq).
      * exists d'. split_and!; try done. apply (elem_of_replace ds i d); [done..|]. by left.
    + intros (x & [->|[Hx Hne]]%(elem_of_replace ds i d) & Hk & Hsx); [|left; by exists x|done|done].
      right. congruence.
Qed.

(** The lease of an id is dropped with its device leaving [leased]. *)
Lemma data_release t ds ls qs cs i d d' l : data_ok t ds ls qs cs → ds !! i = Some d →
  successor d d' → dev_state d' ≠ leased → l ∈ ls → l_deviceId l = dev_id d →
  data_ok t (<[i := d']> ds) (without_lease (l_id l) ls) qs cs.
Proof.
  intros H Hi S Hs' Hl Hld.
  destruct (data_replace_parts _ _ _ _ _ _ _ _ H Hi S) as (? & ? & ? & ?).
  destruct S as [Sid _ _ _]. destruct H as [Hids Hwf Hdel Hlids Hldev Hleased Hqids Hg Hgd Hcs].
  assert (d ∈ ds) as Hd by (by eapply list_elem_of_lookup_2).
  assert (sublist (without_lease (l_id l) ls) ls) as Hsub by apply sublist_filter_b.
  assert (∀ k, k ∈ l_deviceId <$> without_lease (l_id l) ls ↔
    (k ∈ l_deviceId <$> ls) ∧ k ≠ dev_id d) as Hdrop.
  { intros k. rewrite !list_elem_of_fmap. unfold without_lease.
    setoid_rewrite elem_of_afilter. setoid_rewrite negb_true_iff.
    setoid_rewrite bool_decide_eq_false. split.
    - intros (x & -> & Hx & Hne). split; [by exists x|]. intros Heq. apply Hne. f_equal.
      apply (NoDup_fmap_inj_on l_deviceId ls); [done..|congruence].
    - intros [(x & -> & Hx) Hne]. exists x. split_and!; [done..|]. intros Heq. apply Hne.
      by rewrite (NoDup_fmap_inj_on l_id ls x l Hlids Hx Hl Heq). }
  split; try done.
  - eapply sublist_NoDup; [exact Hlids|]. by apply fmap_sublist.
  - eapply sublist_NoDup; [exact Hldev|]. by apply fmap_sublist.
  - intros k. rewrite Hdrop, Hleased. split.
    + intros [(x & Hx & Hk & Hsx) Hne]. exists x. split_and!; try done.
      apply (elem_of_replace ds i d); [done..|]. right. split; [done|congruence].
    + intros (x & [->|[Hx Hne]]%(elem_of_replace ds i d) & Hk & Hsx); [done| |done|done].
      split; [by exists x|congruence].
Qed.

(** A device of a fresh id. *)
Lemma data_add t ds ls qs cs d : data_ok t ds ls qs cs → dev_id d ∉ dev_id <$> ds →
  wf_device d = true → deletedAt (dev_fields d) = None → dev_state d ≠ leased →
  data_ok t (ds ++ [d]) ls qs cs.
Proof.
  intros [Hids Hwf Hdel Hlids Hldev Hleased Hqids Hg Hgd Hcs] Hf Hw Hn Hs.
  assert (∀ x, x ∈ ds ++ [d] ↔ x ∈ ds ∨ x = d) as Hel.
  { intros x. by rewrite elem_of_app, list_elem_of_singleton. }
  split; try done.
  - rewrite fmap_app. apply NoDup_app. split_and!; [done| |apply NoDup_singleton].
    intros k Hk ->%list_elem_of_singleton. done.
  - intros x [Hx| ->]%Hel; [by apply Hwf|done].
  - intros x [Hx| ->]%Hel; [by apply Hdel|]. by rewrite Hn.
  - intros k. rewrite Hleased. setoid_rewrite Hel. split; [intros (x & ? & ? & ?); exists x; tauto|].
    intros (x & [Hx| ->] & ? & ?); [by exists x|done].
  - intros q g Hq Hgr. destruct (Hg q g Hq Hgr) as (? & at_ & e & ? & ? & He & ? & ?).
    split; [done|]. exists at_, e. split_and!; try done. apply Hel. by left.
Qed.

(** Other requests, as long as their grants are sound. *)
Lemma data_requests t ds ls qs qs' cs : data_ok t ds ls qs cs → NoDup (q_id <$> qs') →
  (∀ q g, q ∈ qs' → q_grant q = Some g → grant_ok t ds q g) →
  (∀ q, q ∈ qs' → q_state q = granted ↔ q_grant q ≠ None) → data_ok t ds ls qs' cs.
Proof. by intros [? ? ? ? ? ? ? ? ? ?] ???; split. Qed.
Lemma data_components t ds ls qs cs cs' : data_ok t ds ls qs cs → NoDup (componentKey <$> cs') →
  data_ok t ds ls qs cs'.
Proof. by intros [? ? ? ? ? ? ? ? ? ?] ?; split. Qed.

(** ** Operations *)

Lemma transitioned_Ok now d to u d' : transitioned now d to u = Ok d' →
  legal_edge (dev_physical d) (dev_state d) to = true
  ∧ dev_state d' = to ∧ dev_physical d' = dev_physical d
  ∧ (wf_device d = true → deletedAt (dev_fields d) = None → successor d d').
Proof.
  unfold transitioned. destruct (transition d to _) as [x|e] eqn:E; [|done]. intros [= <-].
  apply transition_Ok in E as (Hl & Hs & Hk & Hw & f & Hf & Hfeq).
  split_and!; [done..|]. intros Hwf Hdel. split; [|done| |].
  - unfold dev_id. rewrite Hf, Hfeq. done.
  - rewrite Hf, Hfeq. done.
  - by rewrite Hdel.
Qed.

Lemma legal_edge_not_deleted b from to : legal_edge b from to = true → from ≠ deleted.
Proof. destruct b, from; done. Qed.

(** A move along the tables gives a successor that carries on. *)
Lemma transitioned_successor now d to u d' :
  transitioned now d to u = Ok d' → wf_device d = true →
  (deletedAt (dev_fields d) ≠ None → dev_state d = deleted) →
  successor d d' ∧ dev_state d' = to
  ∧ legal_edge (dev_physical d) (dev_state d) to = true.
Proof.
  intros (Hl & Hs & Hk & Hsu)%transitioned_Ok Hwf Hdel. split_and!; [|done..]. apply Hsu; [done|].
  destruct (deletedAt (dev_fields d)); [|done]. apply legal_edge_not_deleted in Hl.
  by destruct Hl; apply Hdel.
Qed.

Lemma set_fields_successor f d : (∀ x, id (f x) = id x) → (∀ x, deletedAt (f x) = deletedAt x) →
  wf_device d = true → (deletedAt (dev_fields d) ≠ None → dev_state d = deleted) →
  successor d (set_fields f d).
Proof.
  intros Hid Hdel Hwf Hd. split.
  - by apply set_fields_id.
  - by rewrite set_fields_wf.
  - by rewrite set_fields_fields, Hdel.
  - by rewrite set_fields_state.
Qed.
Lemma successor_trans d d' d'' : successor d d' → successor d' d'' → successor d d''.
Proof. intros [? ? Ha Hb] [? ? Hc Hd]. split; [congruence|done|congruence|]. by rewrite <- Ha. Qed.
(** A change of fields after a move. *)
Lemma successor_set_fields f d d' : (∀ x, id (f x) = id x) → (∀ x, deletedAt (f x) = deletedAt x) →
  successor d d' → successor d (set_fields f d').
Proof.
  intros Hid Hdel [? ? Ha Hb]. split.
  - by rewrite set_fields_id.
  - by rewrite set_fields_wf.
  - by rewrite set_fields_fields, Hdel.
  - by rewrite set_fields_state.
Qed.

Lemma runs_requireDeviceRecord k r Q R :
  (∀ d i, devices r !! i = Some d → dev_id d = k → Q (d, i) r) →
  R (UnknownDeviceError k) r → runs (requireDeviceRecord k) r Q R.
Proof.
  intros HQ HR. unfold requireDeviceRecord. apply runs_bind, runs_get.
  destruct (Arr.findIndex _ _) as [i|] eqn:E; [|by apply runs_throw].
  apply afindIndex_Some in E as (d & Hi & Hid%bool_decide_eq_true & _).
  rewrite Hi. apply runs_lift; [|done]. intros ? [= <-]. by apply HQ.
Qed.
Definition has_device (k : string) (r : Registry) : Prop := k ∈ dev_id <$> devices r.

Lemma runs_committed k r (Q : DeviceRecord → Registry → Prop) R :
  (∀ d, Q d r) → has_device k r → runs (committed k) r Q R.
Proof.
  intros HQ (d & Hk & Hd)%list_elem_of_fmap. unfold committed, requireDeviceRecord.
  apply runs_bind, runs_bind, runs_get.
  destruct (Arr.findIndex _ _) as [i|] eqn:E.
  - apply afindIndex_Some in E as (x & Hi & _). rewrite Hi. apply runs_lift; [|done].
    intros ? [= <-]. apply runs_ret, HQ.
  - rewrite afindIndex_None in E. specialize (E d Hd). cbn in E. by rewrite bool_decide_eq_true_2 in E.
Qed.
Lemma runs_find_lease k r Q R :
  (∀ l, l ∈ leases r → l_id l = k → Q l r) → R (UnknownLeaseError k) r → runs (find_lease k) r Q R.
Proof.
  intros HQ HR. unfold find_lease. apply runs_bind, runs_get.
  apply runs_lift; [intros l H%of_option_Ok|intros e [_ <-]%of_option_Err; done].
  apply afind_Some in H as [Hl Hid%bool_decide_eq_true]. by apply HQ.
Qed.

Section operations.
Context (options : RegistryOptions) (now : Z).
Context (Hret : (retentionMs (leaseRequestLimits options) ≤ deletedRetentionMs options)%Z).
Context (Hpos : (0 ≤ deletedRetentionMs options)%Z).
Implicit Types (r : Registry).
Local Abbreviation ok := (registry_ok now).

(** A device written without a deletion mark is there after the commit. *)
Lemma committed_has ds d : d ∈ ds → deletedAt (dev_fields d) = None →
  dev_id d ∈ dev_id <$> committed_devices options now ds.
Proof using Hpos.
  intros Hd Hn. destruct (settle_device_spec now d) as (Hid & _ & _ & Hdel & _).
  rewrite <- Hid. apply list_elem_of_fmap_2, elem_of_committed. exists d. split_and!; [done..|].
  unfold isExpired. rewrite Hdel, Hn. clear Hdel. destruct (_ && _); [apply Z.ltb_ge; lia|done].
Qed.

Lemma runs_commit r ds ls qs cs (Q : unit → Registry → Prop) R :
  ok r → data_ok now ds ls qs cs → carries (contents r) (MkContents ds ls qs cs) →
  (∀ r', ok r' →
     (∀ d, d ∈ ds → deletedAt (dev_fields d) = None → has_device (dev_id d) r') → Q tt r') →
  runs (commit options now ds ls qs cs) r Q R.
Proof using Hret Hpos.
  intros Hr Hd Hkeep HQ. pose proof (commit_ok options now Hret r now ds ls qs cs Hr Hd Hkeep) as H.
  unfold runs, commit, modify in *. apply HQ; [done|]. intros d. apply committed_has.
Qed.
Lemma runs_commit_devices r ds ls (Q : unit → Registry → Prop) R :
  ok r → data_ok now ds ls (leaseRequests r) (components r) →
  extends (dev_id <$> devices r) (dev_id <$> ds) → extends (l_id <$> leases r) (l_id <$> ls) →
  (∀ r', ok r' →
     (∀ d, d ∈ ds → deletedAt (dev_fields d) = None → has_device (dev_id d) r') → Q tt r') →
  runs (commit_devices options now ds ls) r Q R.
Proof using Hret Hpos.
  intros Hr Hd Hds Hls HQ. apply runs_bind, runs_get. apply runs_commit; [done..| |done].
  split; cbn; [done..|by apply extends_sub|]. by apply grants_kept_sub; [apply Hr|].
Qed.
Lemma runs_replace r i d d' (Q : unit → Registry → Prop) R :
  ok r → devices r !! i = Some d → successor d d' →
  (dev_state d' = leased ↔ dev_state d = leased) →
  (∀ r', ok r' → (dev_state d ≠ deleted → has_device (dev_id d) r') → Q tt r') →
  runs (replace_device options now i d') r Q R.
Proof using Hret Hpos.
  intros Hr Hi S Hl HQ. apply runs_bind, runs_get. apply runs_commit_devices; [done| |..].
  - eapply data_replace; [apply Hr|done..].
  - eapply replace_extends; [done|apply S].
  - by apply extends_same.
  - intros r' Hr' Hhas. apply HQ; [done|]. intros Hn. destruct S as [Sid _ Sdel _].
    rewrite <- Sid. apply Hhas.
    + apply list_elem_of_lookup. exists i. apply list_lookup_insert_eq. by eapply lookup_lt_Some.
    + rewrite Sdel. destruct (deletedAt (dev_fields d)) eqn:E; [|done]. destruct Hn.
      apply (do_deleted _ _ _ _ _ (ro_data _ _ Hr)); [by eapply list_elem_of_lookup_2|by rewrite E].
Qed.
Lemma registry_ok_noted t r e : registry_ok t r → commits [e] = [] →
  registry_ok t (r <| log := log r ++ [e] |>).
Proof.
  intros [? ? Hlog ? ?] He. split; try done. cbn [log].
  change (log (r <| log := log r ++ [e] |>)) with (log r ++ [e]).
  by rewrite commits_app, He, app_nil_r.
Qed.
Lemma runs_emit r e (Q : unit → Registry → Prop) R :
  ok r → (∀ r', ok r' → (∀ k, has_device k r → has_device k r') → Q tt r') →
  runs (emit e) r Q R.
Proof. intros Hr HQ. apply runs_modify, HQ; [by apply registry_ok_noted|done]. Qed.
Lemma runs_announce r e (Q : unit → Registry → Prop) R :
  ok r → (∀ r', ok r' → (∀ k, has_device k r → has_device k r') → Q tt r') →
  runs (announceLeaseEnd e) r Q R.
Proof. intros Hr HQ. apply runs_modify, HQ; [by apply registry_ok_noted|done]. Qed.

(** A device found by a lookup, with what the invariant says of it. *)
Lemma ok_device r i d : ok r → devices r !! i = Some d →
  d ∈ devices r ∧ wf_device d = true ∧ (deletedAt (dev_fields d) ≠ None → dev_state d = deleted).
Proof.
  intros [[] _ _ _ _] Hi. assert (d ∈ devices r) by (by eapply list_elem_of_lookup_2). auto.
Qed.
End operations.

Lemma runs_assertTransitionEvent d to event r (Q : unit → Registry → Prop)
    (R : RegistryError → Registry → Prop) :
  Q tt r → (∀ e, R e r) → runs (assertTransitionEvent d to event) r Q R.
Proof.
  intros HQ HR. unfold assertTransitionEvent. destruct (negb _); [apply runs_throw, HR|].
  destruct event; [apply runs_guard; auto|by apply runs_ret].
Qed.

(** Runs a registry operation up to its next commit. *)
Ltac registry_step :=
  cbv beta iota zeta;
  lazymatch goal with
  | |- runs (_ ≫= _) _ _ _ => apply runs_bind
  | |- runs (mret _) _ _ _ => apply runs_ret; try eassumption
  | |- runs (throw _) _ _ _ => apply runs_throw; reflexivity
  | |- runs get _ _ _ => apply runs_get
  | |- runs (guard_or _ _) _ _ _ => apply runs_guard; [intros ?|intros _; reflexivity]
  | |- runs (requireDeviceRecord _) _ _ _ =>
      apply runs_requireDeviceRecord; [intros ?d ?i ?Hi ?Hid; subst|reflexivity]
  | |- runs (committed _) _ _ _ => apply runs_committed; [intros _; eassumption|auto]
  | |- runs (find_lease _) _ _ _ => apply runs_find_lease; [intros ?l ?Hl ?Hlid|reflexivity]
  | |- runs (emit _) _ _ _ => eapply runs_emit; [eassumption|intros ?r ?Hok ?Hkeep]
  | |- runs (announceLeaseEnd _) _ _ _ => eapply runs_announce; [eassumption|intros ?r ?Hok ?Hkeep]
  | |- runs (assertTransitionEvent _ _ _) _ _ _ => apply runs_assertTransitionEvent; [|reflexivity]
  | |- runs (lift _) _ _ _ => apply runs_lift; [intros ?x ?Hx|intros ? _; reflexivity]
  end.
Ltac registry_run := repeat registry_step; cbv beta iota zeta.

Section preservation.
Context (options : RegistryOptions) (now : Z).
Context (Hret : (retentionMs (leaseRequestLimits options) ≤ deletedRetentionMs options)%Z).
Context (Hpos : (0 ≤ deletedRetentionMs options)%Z).
Implicit Types (r : Registry).
Local Abbreviation ok := (registry_ok now).
(** A return leaves a sound registry, a throw leaves the registry untouched. *)
Local Abbreviation kept m r := (runs m r (λ _, ok) (λ _ r', r' = r)).

(** Fields changed in place. *)
Lemma runs_set_fields f r i d (Q : unit → Registry → Prop) R :
  ok r → devices r !! i = Some d → (∀ x, id (f x) = id x) → (∀ x, deletedAt (f x) = deletedAt x) →
  (∀ r', ok r' → (dev_state d ≠ deleted → has_device (dev_id d) r') → Q tt r') →
  runs (replace_device options now i (set_fields f d)) r Q R.
Proof using Hret Hpos.
  intros Hr Hi Hid Hdel Hk. destruct (ok_device now r i d Hr Hi) as (Hd & Hwf & Hdeleted).
  eapply runs_replace; [done..|by apply set_fields_successor| |done].
  by rewrite set_fields_state.
Qed.

(** A move between states neither of which is [leased], with fields changed after it. *)
Lemma kept_move f r i d to u d' (Q : unit → Registry → Prop) R :
  ok r → devices r !! i = Some d → transitioned now d to u = Ok d' →
  (∀ x, id (f x) = id x) → (∀ x, deletedAt (f x) = deletedAt x) →
  dev_state d ≠ leased → to ≠ leased → (∀ r', ok r' → has_device (dev_id d) r' → Q tt r') →
  runs (replace_device options now i (set_fields f d')) r Q R.
Proof using Hret Hpos.
  intros Hr Hi Ht Hid Hdel Hs Hto HQ. destruct (ok_device now r i d Hr Hi) as (Hd & Hwf & Hdeleted).
  destruct (transitioned_successor now d to u d' Ht Hwf Hdeleted) as (S & Hst & Hl).
  apply legal_edge_not_deleted in Hl.
  eapply runs_replace; [done..|by apply successor_set_fields| |auto].
  rewrite set_fields_state, Hst. tauto.
Qed.

Lemma set_fields_same d : set_fields (λ f, f) d = d.
Proof. by destruct d as [[]|[]]. Qed.

Lemma kept_move_plain r i d to u d' (Q : unit → Registry → Prop) R :
  ok r → devices r !! i = Some d → transitioned now d to u = Ok d' →
  dev_state d ≠ leased → to ≠ leased → (∀ r', ok r' → has_device (dev_id d) r' → Q tt r') →
  runs (replace_device options now i d') r Q R.
Proof using Hret Hpos. intros. rewrite <- (set_fields_same d'). by eapply kept_move. Qed.

Lemma state_guard {s t : DeviceState} : (s === t) = true → t ≠ leased → s ≠ leased.
Proof. by intros ->%bool_decide_eq_true. Qed.

(** *** Transitions and quarantine *)

Lemma transitionDevice_kept r k to event u : ok r → to ≠ leased →
  (∀ d, d ∈ devices r → dev_id d = k → dev_state d ≠ leased) →
  kept (transitionDevice options now k to event u) r.
Proof using Hret Hpos.
  intros Hr Hto Hk. unfold transitionDevice. registry_run.
  eapply kept_move_plain; [done..| |done|].
  { eapply Hk; [by eapply list_elem_of_lookup_2|done]. }
  intros r' Hr' Hhas. registry_run. destruct event as [e|]; unfold emitDeviceEvent; registry_run.
Qed.

Lemma recordRebootedDevice_kept r k u : ok r → kept (recordRebootedDevice options now k u) r.
Proof using Hret Hpos.
  intros Hr. unfold recordRebootedDevice. registry_run. destruct d as [v|p]; registry_run.
  destruct (ok_device now r i _ Hr Hi) as (Hd & Hwf & Hdeleted).
  eapply runs_replace; [done..| |done|].
  { split; [done..|]. apply Hdeleted. }
  intros r' Hr' Hhas. registry_run. apply Hhas. cbn.
  match goal with H : (_ === ready) = true |- _ => apply bool_decide_eq_true in H; by rewrite H end.
Qed.

Lemma completeReclaimWithoutPurge_kept r k : ok r → kept (completeReclaimWithoutPurge options now k) r.
Proof using Hret Hpos.
  intros Hr. unfold completeReclaimWithoutPurge. registry_run.
  eapply kept_move_plain; [done..|by eapply state_guard|done|]. intros r' Hr' Hhas. registry_run.
Qed.

Lemma enterQuarantine_kept r k at_ cause : ok r → kept (enterQuarantine options now k at_ cause) r.
Proof using Hret Hpos.
  intros Hr. unfold enterQuarantine. registry_run.
  eapply kept_move; [done..| |done|].
  - match goal with H : _ || _ = true |- _ => rewrite !orb_true_iff in H;
      destruct H as [[H|H]|H]; by eapply state_guard end.
  - intros r' Hr' Hhas. registry_run.
Qed.

Lemma recordQuarantineRetryFailure_kept r k a at_ : ok r →
  kept (recordQuarantineRetryFailure options now k a at_) r.
Proof using Hret Hpos.
  intros Hr. unfold recordQuarantineRetryFailure, require_quarantined. registry_run.
  apply runs_set_fields; [done..|]. intros r' Hr' Hhas. registry_run.
Qed.

Lemma recoverFromQuarantine_kept r k to : ok r → to ≠ leased →
  kept (recoverFromQuarantine options now k to) r.
Proof using Hret Hpos.
  intros Hr Hto. unfold recoverFromQuarantine, require_quarantined. registry_run.
  eapply kept_move; [done..|by eapply state_guard|done|]. intros r' Hr' Hhas. registry_run.
Qed.

Lemma strandQuarantine_kept r k a : ok r → kept (strandQuarantine options now k a) r.
Proof using Hret Hpos.
  intros Hr. unfold strandQuarantine, require_quarantined. registry_run.
  apply runs_set_fields; [done..|]. intros r' Hr' Hhas. registry_run.
Qed.

Lemma deleteQuarantined_kept r k who : ok r → kept (deleteQuarantined options now k who) r.
Proof using Hret Hpos.
  intros Hr. unfold deleteQuarantined, require_quarantined. registry_run.
  eapply kept_move; [done..|by eapply state_guard|done|]. intros r' Hr' Hhas. registry_run.
Qed.

(** *** Markers *)

Lemma markForeignStateDetected_kept r k at_ : ok r →
  kept (markForeignStateDetected options now k at_) r.
Proof using Hret Hpos.
  intros Hr. unfold markForeignStateDetected. registry_run. destruct (negb _); registry_run.
  apply runs_set_fields; [done..|]. intros r' Hr' Hhas. registry_run.
Qed.
Lemma markForeignProvenanceDetected_kept r k at_ : ok r →
  kept (markForeignProvenanceDetected options now k at_) r.
Proof using Hret Hpos.
  intros Hr. unfold markForeignProvenanceDetected. registry_run. destruct (negb _); registry_run.
  apply runs_set_fields; [done..|]. intros r' Hr' Hhas. registry_run.
Qed.
Lemma clearForeignStateDetected_kept r k : ok r → kept (clearForeignStateDetected options now k) r.
Proof using Hret Hpos.
  intros Hr. unfold clearForeignStateDetected. registry_run. case_bool_decide; registry_run.
  apply runs_set_fields; [done..|]. intros r' Hr' Hhas. registry_run.
Qed.
Lemma markRecoveryAttempt_kept r k at_ : ok r → kept (markRecoveryAttempt options now k at_) r.
Proof using Hret Hpos.
  intros Hr. unfold markRecoveryAttempt. registry_run.
  apply runs_set_fields; [done..|]. intros r' Hr' Hhas. registry_run.
Qed.
Lemma clearRecovery_kept r k : ok r → kept (clearRecovery options now k) r.
Proof using Hret Hpos.
  intros Hr. unfold clearRecovery. registry_run. destruct (_ && _); registry_run.
  apply runs_set_fields; [done..|]. intros r' Hr' Hhas. registry_run.
Qed.

(** *** Missing and absent devices *)

Lemma replace_map r i d gone : ok r → devices r !! i = Some d → 
  (λ x, if dev_id x === dev_id d then gone else x) <$> devices r = <[i := gone]> (devices r).
Proof.
  intros [[Hids _ _ _ _ _ _ _ _ _] _ _ _ _] Hi. apply list_eq. intros j. rewrite list_lookup_fmap.
  destruct (decide (j = i)) as [->|Hne].
  - rewrite Hi, list_lookup_insert_eq by (by eapply lookup_lt_Some). cbn.
    by rewrite bool_decide_eq_true_2.
  - rewrite list_lookup_insert_ne by done. destruct (devices r !! j) as [x|] eqn:Ej; [|done].
    cbn. rewrite bool_decide_eq_false_2; [done|]. intros Heq. apply Hne.
    eapply (NoDup_lookup _ j i (dev_id x) Hids); rewrite list_lookup_fmap; [by rewrite Ej|].
    by rewrite Hi, Heq.
Qed.

(** Writing a device as missing, with the leases that do not name it. *)
Lemma runs_commitMissing r i d ls (Q : DeviceRecord → Registry → Prop) R :
  ok r → devices r !! i = Some d → dev_state d ≠ deleted →
  (∀ v gone, d = Virtual v → dev_state gone = deleted → successor d gone →
     data_ok now (<[i := gone]> (devices r)) ls (leaseRequests r) (components r)) →
  extends (l_id <$> leases r) (l_id <$> ls) →
  (∀ x r', ok r' → has_device (dev_id d) r' → Q x r') → (dev_physical d = true → ∀ e, R e r) →
  runs (commitMissing options now d ls) r Q R.
Proof using Hret Hpos.
  intros Hr Hi Hn Hdata Hls HQ HR. destruct (ok_device now r i d Hr Hi) as (Hd & Hwf & Hdeleted).
  unfold commitMissing. destruct d as [v|p]; [|by apply runs_throw, HR].
  apply runs_bind, runs_get. erewrite replace_map by done. apply runs_bind.
  apply runs_commit_devices; [done..| | |done|].
  - eapply Hdata; [done..|]. by split.
  - by eapply replace_extends.
  - set (gone := Virtual _). intros r' Hr' Hhas.
    assert (has_device (dev_id (Virtual v)) r') as Hg.
    { change (dev_id (Virtual v)) with (dev_id gone). apply Hhas.
      - apply list_elem_of_lookup. exists i. apply list_lookup_insert_eq. by eapply lookup_lt_Some.
      - cbn in *. destruct (deletedAt (v_fields v)); [|done]. by destruct Hn; apply Hdeleted. }
    apply runs_committed; [|done]. intros x. by apply HQ.
Qed.

(** A device of the registry is leased when a lease names it. *)
Lemma ok_leased r i d l : ok r → devices r !! i = Some d → l ∈ leases r → l_deviceId l = dev_id d →
  dev_state d = leased.
Proof.
  intros Hr Hi Hl Hid. pose proof (ro_data _ _ Hr) as Hd.
  assert (dev_id d ∈ l_deviceId <$> leases r) as (x & Hx & Hk & Hs)%(do_leased _ _ _ _ _ Hd).
  { rewrite <- Hid. by apply list_elem_of_fmap_2. }
  rewrite <- Hs. f_equal. apply (NoDup_fmap_inj_on dev_id (devices r)); [apply Hd|..|done].
  - by eapply list_elem_of_lookup_2.
  - done.
Qed.

Lemma markDeviceMissing_kept r k who : ok r → kept (markDeviceMissing options now k who) r.
Proof using Hret Hpos.
  intros Hr. unfold markDeviceMissing. registry_run. case_bool_decide; registry_run.
  eapply runs_commitMissing; [done..| |by apply extends_same|intros x r' Hr' Hhas; registry_run|done].
  intros v gone -> Hg S. eapply data_replace; [apply Hr|done..|]. rewrite Hg.
  split; [done|]. intros Hs. exfalso.
  assert (dev_id (Virtual v) ∈ l_deviceId <$> leases r) as (l & Hlk & Hl)%list_elem_of_fmap.
  { apply (do_leased _ _ _ _ _ (ro_data _ _ Hr)). eexists. split; [|done].
    by eapply list_elem_of_lookup_2. }
  match goal with H : negb _ = true |- _ => apply negb_true_iff in H; rewrite asome_false in H;
    specialize (H l Hl); apply bool_decide_eq_false in H; congruence end.
Qed.

Lemma endLeaseAndMarkDeviceMissing_kept r k who : ok r →
  kept (endLeaseAndMarkDeviceMissing options now k who) r.
Proof using Hret Hpos.
  intros Hr. unfold endLeaseAndMarkDeviceMissing. registry_run.
  eapply runs_commitMissing;
    [done..| | |apply without_lease_extends|intros x r' Hr' Hhas; registry_run|done].
  - by rewrite (ok_leased r i d l).
  - intros v gone -> Hg S. eapply data_release; [apply Hr|done..| |done|done].
    by rewrite Hg.
Qed.

Lemma endLeaseAndMarkDeviceAbsent_kept r k why : ok r →
  kept (endLeaseAndMarkDeviceAbsent options now k why) r.
Proof using Hret Hpos.
  intros Hr. unfold endLeaseAndMarkDeviceAbsent. registry_run.
  destruct (ok_device now r i d Hr Hi) as (Hd & Hwf & Hdeleted).
  destruct (transitioned_successor _ _ _ _ _ Hx Hwf Hdeleted) as (S & Hst & _).
  assert (successor d (set_fields (λ f, f <| lastLeaseEndedAt := Some now |>) x)) as S'
    by (by apply successor_set_fields).
  apply runs_commit_devices; [done..| | |apply without_lease_extends|intros r' Hr' Hhas; registry_run].
  2:{ eapply replace_extends; [done|apply S']. }
  eapply data_release; [apply Hr|done| | |done|done]; [done|].
  by rewrite set_fields_state, Hst.
Qed.

Lemma rewriteAbsentReason_kept r k why : ok r → kept (rewriteAbsentReason options now k why) r.
Proof using Hret Hpos.
  intros Hr. unfold rewriteAbsentReason. registry_run. destruct d as [v|p]; registry_run.
  destruct (ok_device now r i _ Hr Hi) as (Hd & Hwf & Hdeleted).
  eapply runs_replace; [done..| | |intros r' Hr' Hhas; registry_run]; [|done].
  split; [done..|]. apply Hdeleted.
Qed.

(** *** Registration and enrolment *)

Lemma registerDevice_kept r g input : ok r → "dev_" +:+ g ∉ dev_id <$> devices r →
  kept (registerDevice options now g input) r.
Proof using Hret Hpos.
  intros Hr Hf. unfold registerDevice. registry_run.
  apply runs_commit_devices; [done..| | |by apply extends_same|intros r' Hr' Hhas; registry_run].
  - apply data_add; [apply Hr|done..].
  - rewrite fmap_app. by apply extends_snoc.
Qed.
Lemma enrollPhysical_kept r g input : ok r → "dev_" +:+ g ∉ dev_id <$> devices r →
  kept (enrollPhysical options now g input) r.
Proof using Hret Hpos.
  intros Hr Hf. unfold enrollPhysical. registry_run.
  apply runs_commit_devices; [done..| | |by apply extends_same|intros r' Hr' Hhas; registry_run].
  - apply data_add; [apply Hr|done..].
  - rewrite fmap_app. by apply extends_snoc.
Qed.

(** What [transitionPhysical] leaves of a physical device. *)
Lemma transitionPhysical_Ok p to u q : transitionPhysical p to u = Ok q →
  legal_edge true (p_state p) to = true ∧ p_state q = to
  ∧ id (p_fields q) = id (p_fields p) ∧ deletedAt (p_fields q) = deletedAt (p_fields p).
Proof.
  intros H. assert (transition (Physical p) to u = Ok (Physical q)) as E by (cbn; by rewrite H).
  apply transition_Ok in E as (Hl & Hs & _ & _ & f & Hf & Hfeq). cbn in *.
  split_and!; [done..| |]; by rewrite Hf, Hfeq.
Qed.

Lemma reenrollPhysical_kept r k input : ok r → kept (reenrollPhysical options now k input) r.
Proof using Hret Hpos.
  intros Hr. unfold reenrollPhysical. registry_run. destruct d as [v|p]; registry_run.
  destruct (ok_device now r i _ Hr Hi) as (Hd & Hwf & Hdeleted). cbn in Hwf, Hdeleted.
  case_bool_decide as Hs; registry_run.
  - eapply runs_replace; [done..| |done|].
    { split; [done..|]. apply Hdeleted. }
    intros r' Hr' Hhas. registry_run. apply Hkeep, Hhas. cbn. by rewrite Hs.
  - destruct (transitionPhysical _ _ _) as [q|e] eqn:E; registry_run.
    apply transitionPhysical_Ok in E as (Hl & Hq & Hqi & Hqd). cbn in Hl, Hqi, Hqd.
    apply legal_edge_not_deleted in Hl as Hnd.
    eapply runs_replace; [done..| | |intros r' Hr' Hhas; registry_run].
    + split; cbn; [done|by rewrite Hq|done|]. by intros Hdel%Hdeleted.
    + cbn. rewrite Hq. split; [done|]. intros Hp. by rewrite Hp in Hl.
Qed.

Lemma unenrollPhysical_kept r k : ok r → kept (unenrollPhysical options now k) r.
Proof using Hret Hpos.
  intros Hr. unfold unenrollPhysical. registry_run. destruct d as [v|p]; registry_run.
  destruct (ok_device now r i _ Hr Hi) as (Hd & Hwf & Hdeleted). cbn in Hwf, Hdeleted.
  destruct (transitionPhysical _ _ _) as [q|e] eqn:E; registry_run.
  apply transitionPhysical_Ok in E as (Hl & Hq & Hqi & Hqd). cbn in Hl, Hqi, Hqd.
  apply legal_edge_not_deleted in Hl as Hnd.
  eapply runs_replace; [done..| | |intros r' Hr' Hhas; registry_run].
  - split; cbn; [done|by rewrite Hq|done|]. by rewrite Hq.
  - cbn. rewrite Hq. split; [done|]. intros Hp. by rewrite Hp in Hl.
Qed.

(** *** Requests *)

(** Settling keeps the requests sound when a granted outcome names a live device. *)
Definition outcome_ok (ds : list DeviceRecord) (o : LeaseRequestOutcome LeaseGrant) : Prop :=
  ∀ g, o = OutcomeGranted g →
    ∃ d, d ∈ ds ∧ dev_id d = dev_id (g_device g) ∧ deletedAt (dev_fields d) = None.

Lemma unsettled_no_grant t ds ls qs cs q : data_ok t ds ls qs cs → q ∈ qs → isSettled q = false →
  q_grant q = None.
Proof.
  intros Hd Hq Hopen. destruct (q_grant q) as [g|] eqn:E; [|done].
  destruct (do_grants _ _ _ _ _ Hd q g Hq E) as [Hs _]. congruence.
Qed.

Lemma settle_data ds ls qs cs rid o : data_ok now ds ls qs cs → outcome_ok ds o →
  data_ok now ds ls (withSettledLeaseRequest qs rid o now).1 cs.
Proof.
  intros Hd Ho.
  destruct (withSettled_cases qs rid o now) as [(i & q & Hi & _ & Hopen & _ & Heq)|[_ ->]]; [|done].
  assert (q ∈ qs) as Hq by (by eapply list_elem_of_lookup_2).
  pose proof (unsettled_no_grant _ _ _ _ _ _ Hd Hq Hopen) as Hnone.
  assert (∀ x, x ∈ (withSettledLeaseRequest qs rid o now).1 →
    x = (with_outcome q o) <| q_settledAt := Some now |> ∨ x ∈ qs) as Hel.
  { rewrite Heq. cbn [fst]. intros x [j Hj]%list_elem_of_lookup. destruct (decide (j = i)) as [->|Hne].
    - rewrite list_lookup_insert_eq in Hj by (by eapply lookup_lt_Some). left. congruence.
    - rewrite list_lookup_insert_ne in Hj by done. right. by eapply list_elem_of_lookup_2. }
  eapply data_requests; [done|by rewrite withSettled_ids; apply Hd|..].
  - intros x g [->|Hx]%Hel Hg; [|by eapply (do_grants _ _ _ _ _ Hd)].
    destruct o as [g'|f|]; cbn in Hg; [|congruence..]. simplify_eq.
    destruct (Ho g eq_refl) as (d & Hin & Hid & Hdel).
    split; [done|]. exists now, d. split_and!; [done..|lia| | |]; [done..|]. by rewrite Hdel.
  - intros x [->|Hx]%Hel; [|by apply (do_granted _ _ _ _ _ Hd)]. by destruct o; cbn; rewrite ?Hnone.
Qed.

(** A request that has its grant is settled, and so it is not settled again. *)
Lemma settle_keeps ds ls qs cs rid o : data_ok now ds ls qs cs →
  grants_kept qs (withSettledLeaseRequest qs rid o now).1.
Proof.
  intros Hd.
  destruct (withSettled_cases qs rid o now) as [(i & q & Hi & _ & Hopen & _ & ->)|[_ ->]].
  2:{ by apply grants_kept_sub; [apply Hd|]. }
  assert (q ∈ qs) as Hq by (by eapply list_elem_of_lookup_2).
  intros x x' g Hx [j Hj]%list_elem_of_lookup Hid Hg. destruct (decide (j = i)) as [->|Hne].
  - cbn [fst] in Hj. rewrite list_lookup_insert_eq in Hj by (by eapply lookup_lt_Some). simplify_eq.
    assert (q_id x = q_id q) as Hxq by (rewrite Hid; by destruct o).
    rewrite (NoDup_fmap_inj_on q_id qs x q (do_request_ids _ _ _ _ _ Hd) Hx Hq Hxq) in Hg.
    by rewrite (unsettled_no_grant _ _ _ _ _ _ Hd Hq Hopen) in Hg.
  - cbn [fst] in Hj. rewrite list_lookup_insert_ne in Hj by done.
    by rewrite <- (NoDup_fmap_inj_on q_id qs x x' (do_request_ids _ _ _ _ _ Hd) Hx
      (list_elem_of_lookup_2 _ _ _ Hj) Hid).
Qed.

Lemma settle_carries r k o ds ls : ok r →
  extends (dev_id <$> devices r) (dev_id <$> ds) → extends (l_id <$> leases r) (l_id <$> ls) →
  carries (contents r)
    (MkContents ds ls (withSettledLeaseRequest (leaseRequests r) k o now).1 (components r)).
Proof.
  intros Hr Hds Hls. split; cbn; [done..| |by eapply settle_keeps, Hr].
  apply extends_same, withSettled_ids.
Qed.

Lemma createLeaseRequest_kept r g input : ok r →
  default (newLeaseRequestId g) (n_id input) ∉ q_id <$> leaseRequests r →
  kept (createLeaseRequest options now g input) r.
Proof using Hret Hpos.
  intros Hr Hf. unfold createLeaseRequest. registry_run.
  edestruct (withNew_sublist (leaseRequests r)) as (kept_ & -> & Hsub).
  pose proof (ro_data _ _ Hr) as Hd.
  assert (kept_ ⊆ leaseRequests r) as Hin by (intros q; by apply sublist_elem_of).
  apply runs_commit; [done..| | |intros r' Hr' Hhas; registry_run].
  - eapply data_requests; [done|..].
    + rewrite fmap_app. apply NoDup_app. split_and!; [| |apply NoDup_singleton].
      * eapply sublist_NoDup; [apply (do_request_ids _ _ _ _ _ Hd)|]. by apply fmap_sublist.
      * intros k Hk ->%list_elem_of_singleton. apply Hf. eapply sublist_elem_of; [|exact Hk].
        by apply fmap_sublist.
    + intros q gr [Hq| ->%list_elem_of_singleton]%elem_of_app Hg; [|done].
      eapply (do_grants _ _ _ _ _ Hd); [|done]. by apply Hin.
    + intros q [Hq| ->%list_elem_of_singleton]%elem_of_app; [|done].
      apply (do_granted _ _ _ _ _ Hd). by apply Hin.
  - split; cbn; [by apply extends_same..| |].
    { rewrite fmap_app. apply extends_snoc; [by apply fmap_sublist|done]. }
    intros q q' gr Hq [Hq'| ->%list_elem_of_singleton]%elem_of_app Hid.
    + by apply (grants_kept_sub (leaseRequests r) kept_); [apply Hr|..].
    + destruct Hf. cbn in Hid. rewrite <- Hid. by apply list_elem_of_fmap_2.
Qed.

Lemma settleLeaseRequest_kept r k o : ok r → outcome_ok (devices r) o →
  kept (settleLeaseRequest options now k o) r.
Proof using Hret Hpos.
  intros Hr Ho. unfold settleLeaseRequest. registry_run.
  pose proof (settle_data _ _ _ _ k o (ro_data _ _ Hr) Ho) as Hd.
  pose proof (settle_carries r k o (devices r) (leases r) Hr) as Hk.
  specialize (Hk (extends_same _ _ eq_refl) (extends_same _ _ eq_refl)).
  destruct (withSettledLeaseRequest (leaseRequests r) k o now) as [qs [q|]]; registry_run.
  apply runs_commit; [done..|]. intros r' Hr' Hhas. registry_run.
Qed.

Lemma fail_open_data ds ls cs failure opens acc : data_ok now ds ls acc.1 cs →
  let qs := (foldl (fail_open now failure) acc opens).1 in
  data_ok now ds ls qs cs ∧ grants_kept acc.1 qs ∧ q_id <$> qs = q_id <$> acc.1.
Proof.
  revert acc. induction opens as [|q opens IH]; intros acc Hd; cbn.
  { split_and!; [done| |done]. by apply grants_kept_sub; [apply Hd|]. }
  pose proof (settle_data _ _ _ _ (q_id q) (OutcomeFailed failure) Hd) as H.
  pose proof (settle_keeps _ _ _ _ (q_id q) (OutcomeFailed failure) Hd) as Hk.
  pose proof (withSettled_ids acc.1 (q_id q) (OutcomeFailed failure) now) as Hids.
  specialize (H ltac:(done)). revert H Hk Hids. unfold fail_open at 2 4 6.
  destruct (withSettledLeaseRequest acc.1 _ _ now) as [qs o]. cbn [fst]. intros H Hk Hids.
  edestruct (IH (qs, match o with Some r => acc.2 ++ [r] | None => acc.2 end) H) as (H1 & H2 & H3).
  split_and!; [done| |by rewrite <- Hids].
  intros x x' g Hx Hx' Hid Hg.
  assert (q_id x ∈ q_id <$> qs) as (y & Hxy & Hy)%list_elem_of_fmap.
  { rewrite Hids. by apply list_elem_of_fmap_2. }
  apply (H2 y x' g Hy Hx'); [congruence|]. by apply (Hk x y g).
Qed.

Lemma failOpenLeaseRequests_kept r failure : ok r → kept (failOpenLeaseRequests options now failure) r.
Proof using Hret Hpos.
  intros Hr. unfold failOpenLeaseRequests. registry_run.
  destruct (fail_open_data _ _ _ failure (Arr.filter (λ q, negb (isSettled q)) (leaseRequests r))
    (leaseRequests r, []) (ro_data _ _ Hr)) as (Hd & Hk & Hids).
  destruct (foldl _ _ _) as [qs settled]. registry_run. destruct (_ <? _); registry_run.
  apply runs_commit; [done..| |].
  { split; cbn; [by apply extends_same..|done]. }
  intros r' Hr' Hhas. registry_run.
Qed.

(** *** Leases *)

Lemma with_except_successor ex d d' : successor d d' →
  successor d (with_except ex d') ∧ dev_state (with_except ex d') = dev_state d'.
Proof. intros [? ? ? ?]. destruct ex, d'; cbn; split; by split || done. Qed.

Lemma createLease_kept r g input : ok r →
  default ("lse_" +:+ g) (cl_leaseId input) ∉ l_id <$> leases r →
  kept (createLease options now g input) r.
Proof using Hret Hpos.
  intros Hr Hf. unfold createLease. registry_run.
  destruct (ok_device now r i d Hr Hi) as (Hd & Hwf & Hdeleted).
  destruct (transitioned_successor _ _ _ _ _ Hx Hwf Hdeleted) as (S & Hst & Hl).
  destruct (with_except_successor (cl_except input) d x S) as [S' Hst'].
  set (d' := with_except (cl_except input) x) in *.
  apply runs_commit; [done..| | |intros r' Hr' Hhas; registry_run].
  2:{ assert (extends (dev_id <$> devices r) (dev_id <$> <[i := d']> (devices r))).
      { eapply replace_extends; [done|apply S']. }
      set (l := MkLease _ _ _ _ _ _ _ _ _).
      assert (extends (l_id <$> leases r) (l_id <$> leases r ++ [l])).
      { rewrite fmap_app. by apply extends_snoc. }
      destruct (cl_request input) as [ref|]; [by apply settle_carries|].
      split; cbn; [done..|by apply extends_same|]. by apply grants_kept_sub; [apply Hr|]. }
  set (l := MkLease _ _ _ _ _ _ _ _ _).
  assert (data_ok now (<[i := d']> (devices r)) (leases r ++ [l]) (leaseRequests r) (components r))
    as Hlease.
  { eapply data_lease; [apply Hr|done..| | | |].
    - congruence.
    - intros Hs. rewrite Hs in Hl. by destruct (dev_physical d).
    - done.
    - done. }
  destruct (cl_request input) as [ref|]; [|done]. apply settle_data; [done|].
  intros gr [= <-]. exists d'. split_and!; [|done|].
  - apply (elem_of_replace (devices r) i d); [apply Hr|done|by left].
  - destruct S' as [_ _ -> _]. apply legal_edge_not_deleted in Hl.
    destruct (deletedAt (dev_fields d)); [|done]. by destruct Hl; apply Hdeleted.
Qed.

Lemma beginRelease_kept r k b : ok r → kept (beginRelease options now k b) r.
Proof using Hret Hpos.
  intros Hr. unfold beginRelease. registry_run.
  destruct (ok_device now r i d Hr Hi) as (Hd & Hwf & Hdeleted).
  assert (successor d (set_fields without_recovery d)) as S0 by (by apply set_fields_successor).
  destruct (transitioned_successor _ _ _ _ _ Hx) as (S & Hst & _).
  { apply S0. }
  { by rewrite set_fields_fields, set_fields_state. }
  set (y := set_fields _ x).
  assert (successor d y) as S'.
  { apply successor_set_fields; [by destruct b..|]. by eapply successor_trans. }
  apply runs_commit_devices; [done..| | |apply without_lease_extends|intros r' Hr' Hhas; registry_run].
  2:{ eapply replace_extends; [done|apply S']. }
  eapply data_release; [apply Hr|done|done| |done|done]. unfold y.
  by rewrite set_fields_state, Hst.
Qed.

Lemma renewLease_kept r k deadline ttl : ok r → kept (renewLease options now k deadline ttl) r.
Proof using Hret Hpos.
  intros Hr. unfold renewLease. registry_run.
  destruct (Arr.findIndex _ _) as [i|] eqn:E; registry_run. apply of_option_Ok in Hx.
  assert (∀ (f : LeaseRecord → string) y, f y = f x → f <$> <[i := y]> (leases r) = f <$> leases r)
    as Hsame.
  { intros f y Hy. rewrite list_fmap_insert, Hy. apply list_insert_id. by rewrite list_lookup_fmap, Hx. }
  apply runs_commit_devices; [done..| |by apply extends_same|by apply extends_same, Hsame|
    intros r' Hr' Hhas; registry_run].
  destruct (ro_data _ _ Hr). split; rewrite ?Hsame; done.
Qed.

(** *** Components *)

Lemma other_component_keys p v cs : NoDup (componentKey <$> cs) →
  NoDup (componentKey <$> Arr.filter (other_component p v) cs)
  ∧ (p, v) ∉ componentKey <$> Arr.filter (other_component p v) cs.
Proof.
  intros Hn. split.
  - eapply sublist_NoDup; [exact Hn|]. apply fmap_sublist, sublist_filter_b.
  - intros (c & Hk & [_ Hc]%elem_of_afilter)%list_elem_of_fmap. unfold componentKey in Hk.
    unfold other_component in Hc. injection Hk as Hp Hv. rewrite <- Hp, <- Hv in Hc.
    by rewrite !bool_decide_eq_true_2 in Hc.
Qed.

Lemma components_carry r cs : ok r →
  carries (contents r) (MkContents (devices r) (leases r) (leaseRequests r) cs).
Proof. intros Hr. split; cbn; [by apply extends_same..|]. by apply grants_kept_sub; [apply Hr|]. Qed.
Lemma recordComponent_kept r c : ok r → kept (recordComponent options now c) r.
Proof using Hret Hpos.
  intros Hr. unfold recordComponent. registry_run.
  apply runs_commit; [done..| |by apply components_carry|by intros].
  destruct (other_component_keys (cp_platform c) (cp_version c) (components r)) as [Hn Hf];
    [apply Hr|].
  eapply data_components; [apply Hr|]. rewrite fmap_app. apply NoDup_app.
  split_and!; [done| |apply NoDup_singleton]. intros k Hk ->%list_elem_of_singleton. done.
Qed.
Lemma deleteComponent_kept r p v : ok r → kept (deleteComponent options now p v) r.
Proof using Hret Hpos.
  intros Hr. unfold deleteComponent. registry_run. destruct (_ =? _)%nat; registry_run.
  apply runs_commit; [done..| |by apply components_carry|by intros].
  eapply data_components; [apply Hr|].
  apply other_component_keys, Hr.
Qed.
End preservation.

(** ** Runs of the registry *)

Inductive RegistryCommand :=
| CRegister (generated : string) (input : RegisterDeviceInput)
| CTransition (k : string) (to : DeviceState) (event : option RegistryDeviceEvent)
    (u : DeviceTransitionUpdate)
| CReboot (k : string) (u : RebootUpdate)
| CCompleteReclaim (k : string)
| CEnterQuarantine (k : string) (nextRetryAt : Z) (cause : QuarantineCause)
| CRetryFailure (k : string) (attempts nextRetryAt : Z)
| CRecover (k : string) (to : DeviceState)
| CStrand (k : string) (attempts : Z)
| CDeleteQuarantined (k initiator : string)
| CMarkForeignState (k : string) (at_ : Z)
| CMarkForeignProvenance (k : string) (at_ : Z)
| CClearForeignState (k : string)
| CMarkRecovery (k : string) (at_ : Z)
| CClearRecovery (k : string)
| CMissing (k initiator : string)
| CEndMissing (leaseId initiator : string)
| CEndAbsent (leaseId : string) (why : AbsentReason)
| CRewriteAbsent (k : string) (why : AbsentReason)
| CEnroll (generated : string) (input : PhysicalEnrollmentInput)
| CReenroll (k : string) (input : PhysicalEnrollmentInput)
| CUnenroll (k : string)
| CCreateLease (generated : string) (input : CreateLeaseInput)
| CBeginRelease (leaseId : string) (deferReclaim : bool)
| CRenew (leaseId : string) (ttlDeadline ttlMs : Z)
| CCreateRequest (generated : string) (input : NewLeaseRequest)
| CSettleRequest (rid : string) (o : LeaseRequestOutcome LeaseGrant)
| CFailOpen (failure : LeaseRequestFailure)
| CRecordComponent (c : ComponentRecord)
| CDeleteComponent (p : Platform) (version : string).

(** The operation without its answer. *)
Definition discard {A} (m : action Registry RegistryError A) : action Registry RegistryError unit :=
  _ ← m; mret tt.
Definition perform (options : RegistryOptions) (now : Z) (c : RegistryCommand)
    : action Registry RegistryError unit :=
  match c with
  | CRegister g input => discard (registerDevice options now g input)
  | CTransition k to event u => discard (transitionDevice options now k to event u)
  | CReboot k u => discard (recordRebootedDevice options now k u)
  | CCompleteReclaim k => discard (completeReclaimWithoutPurge options now k)
  | CEnterQuarantine k at_ cause => discard (enterQuarantine options now k at_ cause)
  | CRetryFailure k a at_ => discard (recordQuarantineRetryFailure options now k a at_)
  | CRecover k to => discard (recoverFromQuarantine options now k to)
  | CStrand k a => discard (strandQuarantine options now k a)
  | CDeleteQuarantined k who => discard (deleteQuarantined options now k who)
  | CMarkForeignState k at_ => discard (markForeignStateDetected options now k at_)
  | CMarkForeignProvenance k at_ => discard (markForeignProvenanceDetected options now k at_)
  | CClearForeignState k => discard (clearForeignStateDetected options now k)
  | CMarkRecovery k at_ => discard (markRecoveryAttempt options now k at_)
  | CClearRecovery k => discard (clearRecovery options now k)
  | CMissing k who => discard (markDeviceMissing options now k who)
  | CEndMissing l who => discard (endLeaseAndMarkDeviceMissing options now l who)
  | CEndAbsent l why => discard (endLeaseAndMarkDeviceAbsent options now l why)
  | CRewriteAbsent k why => discard (rewriteAbsentReason options now k why)
  | CEnroll g input => discard (enrollPhysical options now g input)
  | CReenroll k input => discard (reenrollPhysical options now k input)
  | CUnenroll k => discard (unenrollPhysical options now k)
  | CCreateLease g input => discard (createLease options now g input)
  | CBeginRelease l b => discard (beginRelease options now l b)
  | CRenew l deadline ttl => discard (renewLease options now l deadline ttl)
  | CCreateRequest g input => discard (createLeaseRequest options now g input)
  | CSettleRequest rid o => discard (settleLeaseRequest options now rid o)
  | CFailOpen failure => discard (failOpenLeaseRequests options now failure)
  | CRecordComponent c => recordComponent options now c
  | CDeleteComponent p v => deleteComponent options now p v
  end.

(** What the callers keep to: generated ids are new, a lease id chosen by a requester is not in
    use, [leased] is entered and left only with the lease, and a granted outcome names a live
    device. *)
Definition admissible (r : Registry) (c : RegistryCommand) : Prop :=
  match c with
  | CRegister g _ | CEnroll g _ => "dev_" +:+ g ∉ dev_id <$> devices r
  | CTransition k to _ _ =>
      to ≠ leased ∧ ∀ d, d ∈ devices r → dev_id d = k → dev_state d ≠ leased
  | CRecover _ to => to = ready ∨ to = shutdown
  | CCreateLease g input => default ("lse_" +:+ g) (cl_leaseId input) ∉ l_id <$> leases r
  | CCreateRequest g input =>
      default (newLeaseRequestId g) (n_id input) ∉ q_id <$> leaseRequests r
  | CSettleRequest _ o => outcome_ok (devices r) o
  | _ => True
  end.

Definition empty_registry : Registry := MkRegistry [] [] [] [] (MkRows ∅ ∅ ∅ ∅) [].

(** The states of a registry that starts empty, with the clock reading of its last operation. *)
Inductive registry_reachable (options : RegistryOptions) : Registry → Z → Prop :=
| registry_start t : registry_reachable options empty_registry t
| registry_command r t now c :
    registry_reachable options r t → (t ≤ now)%Z → admissible r c →
    registry_reachable options (perform options now c r).1 now.

(** The retention settings the configuration accepts. *)
Record retention_ok (options : RegistryOptions) : Prop := {
  ret_requests : (retentionMs (leaseRequestLimits options) ≤ deletedRetentionMs options)%Z;
  ret_deleted : (0 ≤ deletedRetentionMs options)%Z }.

Lemma runs_discard {A} (m : action Registry RegistryError A) r (P : Registry → Prop) R :
  runs m r (λ _, P) R → runs (discard m) r (λ _, P) R.
Proof. intros H. apply runs_bind. eapply runs_mono; [exact H| |]; done. Qed.

Lemma perform_kept options now r c : retention_ok options → registry_ok now r → admissible r c →
  runs (perform options now c) r (λ _, registry_ok now) (λ _ r', r' = r).
Proof.
  intros [Hret Hpos] Hr Hadm. destruct c; cbn [perform admissible] in *;
    try (apply runs_discard; destruct_and?).
  - by apply registerDevice_kept.
  - by apply transitionDevice_kept.
  - by apply recordRebootedDevice_kept.
  - by apply completeReclaimWithoutPurge_kept.
  - by apply enterQuarantine_kept.
  - by apply recordQuarantineRetryFailure_kept.
  - apply recoverFromQuarantine_kept; [done..|]. destruct Hadm as [->| ->]; done.
  - by apply strandQuarantine_kept.
  - by apply deleteQuarantined_kept.
  - by apply markForeignStateDetected_kept.
  - by apply markForeignProvenanceDetected_kept.
  - by apply clearForeignStateDetected_kept.
  - by apply markRecoveryAttempt_kept.
  - by apply clearRecovery_kept.
  - by apply markDeviceMissing_kept.
  - by apply endLeaseAndMarkDeviceMissing_kept.
  - by apply endLeaseAndMarkDeviceAbsent_kept.
  - by apply rewriteAbsentReason_kept.
  - by apply enrollPhysical_kept.
  - by apply reenrollPhysical_kept.
  - by apply unenrollPhysical_kept.
  - by apply createLease_kept.
  - by apply beginRelease_kept.
  - by apply renewLease_kept.
  - by apply createLeaseRequest_kept.
  - by apply settleLeaseRequest_kept.
  - by apply failOpenLeaseRequests_kept.
  - by apply recordComponent_kept.
  - by apply deleteComponent_kept.
Qed.

Lemma empty_registry_ok t : registry_ok t empty_registry.
Proof.
  split; [split|done|done|..]; cbn; try apply NoDup_nil_2; try (by intros ? ?%elem_of_nil).
  - by intros i; split; [intros ?%elem_of_nil|intros (d & ?%elem_of_nil & _)].
  - by intros q g ?%elem_of_nil.
Qed.

Lemma registry_reachable_ok options r t : retention_ok options → registry_reachable options r t →
  registry_ok t r.
Proof.
  intros Hret. induction 1 as [t|r t now c _ IH Ht Hadm]; [apply empty_registry_ok|].
  assert (registry_ok now r) as Hr by (by eapply registry_ok_later).
  pose proof (perform_kept options now r c Hret Hr Hadm) as H. unfold runs in H.
  destruct (perform options now c r) as [r' [[]|e]]; cbn; [done|by subst].
Qed.

(** ** Properties *)

(** C1. Leases and devices stay in step. In every reachable registry, device ids and lease ids are
    unique, a device has at most one lease, each lease is on a device of the registry that is
    [leased], and each [leased] device has its lease; every device is in a state of its kind, a
    deleted one carries the moment of its deletion, and only a quarantined one carries a cause. *)
Theorem registry_leases_in_step options r t :
  retention_ok options → registry_reachable options r t →
  NoDup (dev_id <$> devices r) ∧ NoDup (l_id <$> leases r) ∧ NoDup (l_deviceId <$> leases r)
  ∧ (∀ l, l ∈ leases r → ∃ d, d ∈ devices r ∧ dev_id d = l_deviceId l ∧ dev_state d = leased)
  ∧ (∀ d, d ∈ devices r → dev_state d = leased → ∃ l, l ∈ leases r ∧ l_deviceId l = dev_id d)
  ∧ (∀ d, d ∈ devices r → wf_device d = true
       ∧ (dev_state d = deleted ↔ deletedAt (dev_fields d) ≠ None)
       ∧ (quarantineCause (dev_fields d) ≠ None → dev_state d = quarantined)).
Proof.
  intros Hret Hre. destruct (registry_reachable_ok _ _ _ Hret Hre) as [Hd _ _ Hst Hc].
  destruct Hd as [Hids Hwf Hdel Hlids Hldev Hleased _ _ _]. split_and!; [done..| | |].
  - intros l Hl. destruct (proj1 (Hleased (l_deviceId l))) as (d & ? & ? & ?); [|by exists d].
    by apply list_elem_of_fmap_2.
  - intros d Hin Hs. assert (dev_id d ∈ l_deviceId <$> leases r) as (l & ? & ?)%list_elem_of_fmap.
    { apply Hleased. by exists d. }
    by exists l.
  - intros d Hin. split_and!; [by apply Hwf| |by apply Hc]. split; [by apply Hst|by apply Hdel].
Qed.

Definition sample_options : RegistryOptions :=
  MkRegistryOptions (λ _, reusable) (MkLimits 1000 10) 5000.
Lemma sample_retention : retention_ok sample_options.
Proof. by split. Qed.
(** A device registered, made ready and leased for a stored request. *)
Definition sample_input_device : RegisterDeviceInput :=
  MkRegister "udid-1" sample_spec (Opaque "{}") 10.
Definition sample_request : DeviceRequest :=
  MkRequest ios (Some "iPhone 16") None None None None None None None.
Definition sample_new_request : NewLeaseRequest :=
  MkNewRequest None "agent" "owner" None None None sample_request.
Definition sample_lease_input : CreateLeaseInput :=
  MkCreateLease "dev_1" "agent" "owner" 100 104 None None
    (Some (MkRequestRef "req_1" [] (MkTiming 0 0 0 0))).
Definition run_commands (options : RegistryOptions) (cs : list (Z * RegistryCommand)) (r : Registry)
    : Registry :=
  foldl (λ r c, (perform options c.1 c.2 r).1) r cs.
Definition sample_ready : Registry := run_commands sample_options
  [(1%Z, CRegister "1" sample_input_device);
   (2%Z, CTransition "dev_1" ready (Some (MkDeviceEvent ev_ready "dev_1" (Opaque ""))) no_update);
   (3%Z, CCreateRequest "1" sample_new_request)] empty_registry.
Definition sample_registry : Registry :=
  (perform sample_options 4 (CCreateLease "1" sample_lease_input) sample_ready).1.

(** The same run, as steps. *)
Lemma sample_ready_reachable : registry_reachable sample_options sample_ready 3.
Proof.
  apply (registry_command _ _ 2 3); [|lia|].
  2:{ cbn. apply (bool_decide_unpack _). by vm_compute. }
  apply (registry_command _ _ 1 2); [|lia|].
  2:{ cbn. split; [done|]. intros d ->%list_elem_of_singleton. by vm_compute. }
  apply (registry_command _ _ 0 1); [apply registry_start|lia|]. cbn. apply not_elem_of_nil.
Qed.
Lemma sample_reachable : registry_reachable sample_options sample_registry 4.
Proof.
  apply (registry_command _ _ 3 4); [apply sample_ready_reachable|lia|].
  cbn. apply (bool_decide_unpack _). by vm_compute.
Qed.

Lemma registry_leases_in_step_witness :
  length (leases sample_registry) = 1
  ∧ ∀ d, d ∈ devices sample_registry → dev_state d = leased →
      ∃ l, l ∈ leases sample_registry ∧ l_deviceId l = dev_id d.
Proof.
  split; [vm_compute; reflexivity|].
  apply (registry_leases_in_step _ _ _ sample_retention sample_reachable).
Defined.

(** What is on disk is what is in memory: after every operation, successful or not, the tables
    hold exactly the records of the registry under their keys, although each commit writes only
    the records that changed and removes only the keys that went. *)
Theorem registry_rows_current options r t :
  retention_ok options → registry_reachable options r t →
  (∀ k d, db_devices (rows r) !! k = Some d ↔ d ∈ devices r ∧ dev_id d = k)
  ∧ (∀ k l, db_leases (rows r) !! k = Some l ↔ l ∈ leases r ∧ l_id l = k)
  ∧ (∀ k q, db_requests (rows r) !! k = Some q ↔ q ∈ leaseRequests r ∧ q_id q = k)
  ∧ (∀ k c, db_components (rows r) !! k = Some c ↔ c ∈ components r ∧ componentKey c = k).
Proof.
  intros Hret Hre. destruct (registry_reachable_ok _ _ _ Hret Hre) as [Hd Hrows _ _].
  rewrite Hrows. unfold rows_of. cbn.
  split_and!; intros k x; (rewrite table_of_Some; [done|apply Hd]).
Qed.

Lemma registry_rows_current_witness :
  size (db_leases (rows sample_registry)) = 1
  ∧ ∀ k l, db_leases (rows sample_registry) !! k = Some l ↔ l ∈ leases sample_registry ∧ l_id l = k.
Proof.
  split; [vm_compute; reflexivity|].
  apply (registry_rows_current _ _ _ sample_retention sample_reachable).
Defined.

(** A granted request never outlives its device: with a deleted record kept at least as long as
    a settled request, every granted request of a reachable registry names a device the registry
    still holds, so a purge never leaves a row that refers to a missing one. *)
Theorem granted_requests_have_devices options r t :
  retention_ok options → registry_reachable options r t →
  ∀ q g, q ∈ leaseRequests r → q_grant q = Some g →
    isSettled q = true ∧ ∃ d, d ∈ devices r ∧ dev_id d = dev_id (g_device g).
Proof.
  intros Hret Hre q g Hq Hg. destruct (registry_reachable_ok _ _ _ Hret Hre) as [Hd _ _ _].
  destruct (do_grants _ _ _ _ _ Hd q g Hq Hg) as (Hs & _ & d & _ & _ & Hin & Hid & _). eauto.
Qed.

Lemma granted_requests_have_devices_witness :
  ∃ d, d ∈ devices sample_registry ∧ dev_id d = "dev_1".
Proof.
  destruct (leaseRequests sample_registry) as [|q qs] eqn:Eq; [vm_compute in Eq; discriminate|].
  destruct (q_grant q) as [g|] eqn:Eg; [|vm_compute in Eq; injection Eq as <- _; discriminate].
  destruct (granted_requests_have_devices _ _ _ sample_retention sample_reachable q g) as [_ Hd].
  - rewrite Eq. apply list_elem_of_here.
  - exact Eg.
  - vm_compute in Eq. injection Eq as <- _. vm_compute in Eg. injection Eg as <-. exact Hd.
Defined.

(** C6. An operation that throws changes nothing: in a reachable registry, whatever admissible
    operation answers an error leaves every record, every row and the log as they were. *)
Theorem registry_errors_change_nothing options r t now c e :
  retention_ok options → registry_reachable options r t → (t ≤ now)%Z → admissible r c →
  (perform options now c r).2 = Err e → (perform options now c r).1 = r.
Proof.
  intros Hret Hre Ht Hadm He. pose proof (registry_reachable_ok _ _ _ Hret Hre) as Hr.
  pose proof (perform_kept options now r c Hret (registry_ok_later _ _ _ Ht Hr) Hadm) as H.
  unfold runs in H. destruct (perform options now c r) as [r' [[]|e']]; [done|]. done.
Qed.

Lemma registry_errors_change_nothing_witness :
  (perform sample_options 5 (CMissing "dev_1" "doctor") sample_registry).1 = sample_registry.
Proof.
  apply (registry_errors_change_nothing sample_options sample_registry 4 5 (CMissing "dev_1" "doctor")
    (RegistryEventError "Cannot mark leased device missing: dev_1") sample_retention sample_reachable).
  - lia.
  - exact I.
  - vm_compute. reflexivity.
Defined.

Lemma legal_edge_leased b from : legal_edge b from leased = true ↔ from = ready.
Proof. destruct b, from; cbn; naive_solver. Qed.

(** What [createLease] commits, and when it throws. *)
Lemma createLease_runs options now g input r (Q : LeaseRecord → Registry → Prop) R :
  (∀ d i x l, devices r !! i = Some d → dev_id d = cl_deviceId input →
     Arr.some (on_device (cl_deviceId input)) (leases r) = false →
     transitioned now d leased no_update = Ok x →
     let d' := with_except (cl_except input) x in
     l_id l = default ("lse_" +:+ g) (cl_leaseId input) → l_deviceId l = cl_deviceId input →
     l_grantedAt l = now → l_ttlDeadline l = cl_ttlDeadline input →
     Q l (commit options now (<[i := d']> (devices r)) (leases r ++ [l])
       match cl_request input with
       | None => leaseRequests r
       | Some ref => (withSettledLeaseRequest (leaseRequests r) (cr_id ref)
           (OutcomeGranted (MkGrant d' (cr_environment ref) l (cr_timing ref))) now).1
       end (components r) r).1) →
  (∀ e, (∀ d, d ∈ devices r → dev_id d ≠ cl_deviceId input)
      ∨ Arr.some (on_device (cl_deviceId input)) (leases r) = true
      ∨ (∃ d i e', devices r !! i = Some d ∧ dev_id d = cl_deviceId input
          ∧ transitioned now d leased no_update = Err e') → R e r) →
  runs (createLease options now g input) r Q R.
Proof.
  intros HQ HR. unfold createLease. apply runs_bind. unfold requireDeviceRecord.
  apply runs_bind, runs_get. destruct (Arr.findIndex _ _) as [i|] eqn:E.
  2:{ apply runs_throw, HR. left. rewrite afindIndex_None in E. intros d Hd Hid.
      specialize (E d Hd). by rewrite bool_decide_eq_true_2 in E. }
  apply afindIndex_Some in E as (d & Hi & Hid%bool_decide_eq_true & _). rewrite Hi.
  apply runs_lift; [|done]. intros ? [= <-]. apply runs_bind, runs_get, runs_bind, runs_guard.
  2:{ intros Hs%negb_false_iff. apply HR. by right; left. }
  intros Hs%negb_true_iff. apply runs_bind, runs_lift.
  2:{ intros e He. apply HR. right; right. eauto 10. }
  intros x Hx. apply runs_bind. unfold commit at 1. apply runs_modify, runs_ret. by eapply HQ.
Qed.

(** The open request of an id is settled as granted, and no purge of the same moment drops it. *)
Lemma settled_as_granted t ds ls qs cs now retention rid gr q purge :
  data_ok t ds ls qs cs → (0 < retention)%Z → q ∈ qs → q_id q = rid → isSettled q = false →
  let qs' := (withSettledLeaseRequest qs rid (OutcomeGranted gr) now).1 in
  ∃ q', q' ∈ (if purge : bool then retainedLeaseRequests qs' now retention else qs')
    ∧ q_id q' = q_id q ∧ q_state q' = granted ∧ q_grant q' = Some gr.
Proof.
  intros Hd Hpos Hq Hqid Hopen. cbv zeta. pose proof (do_request_ids _ _ _ _ _ Hd) as Hn.
  destruct (withSettled_cases qs rid (OutcomeGranted gr) now) as [(j & q0 & Hj & Hq0 & _ & _ & ->)|[Hall _]].
  - assert (q = q0) as <-.
    { apply (NoDup_fmap_inj_on q_id qs); [done..| |congruence]. by eapply list_elem_of_lookup_2. }
    cbn [fst]. set (q' := (with_outcome q _) <| q_settledAt := Some now |>). exists q'.
    split_and!; [|done..].
    assert (q' ∈ <[j := q']> qs) as Hin.
    { apply list_elem_of_lookup. exists j. apply list_lookup_insert_eq. by eapply lookup_lt_Some. }
    destruct purge; [|done]. apply elem_of_retained. split; [done|].
    unfold retained. cbn. apply Z.ltb_lt. lia.
  - exfalso. apply list_elem_of_lookup in Hq as [j Hj].
    rewrite (Hall j q Hj Hqid) in Hopen; [done|]. intros k y Hk Hlt Hy. assert (k = j); [|lia].
    eapply (NoDup_lookup (q_id <$> qs) k j rid Hn); rewrite list_lookup_fmap;
      [rewrite Hk|rewrite Hj]; cbn; congruence.
Qed.

(** None of the reasons [createLease] throws for applies to a ready device. *)
Lemma ready_can_be_leased t r now k d : registry_ok t r → d ∈ devices r → dev_id d = k →
  dev_state d = ready →
  ¬ ((∀ d, d ∈ devices r → dev_id d ≠ k)
     ∨ Arr.some (on_device k) (leases r) = true
     ∨ (∃ d i e', devices r !! i = Some d ∧ dev_id d = k
         ∧ transitioned now d leased no_update = Err e')).
Proof.
  intros Hr Hd Hid Hready. pose proof (ro_data _ _ Hr) as Hdata.
  assert (∀ x, x ∈ devices r → dev_id x = k → x = d) as Huniq.
  { intros x Hx Hxid. apply (NoDup_fmap_inj_on dev_id (devices r)); [apply Hdata|done..|congruence]. }
  intros [Hno|[Hs|(x & i & e' & Hi & Hx & He)]].
  - by eapply Hno.
  - apply asome_true in Hs as (l & Hl & Hlid%bool_decide_eq_true).
    assert (l_deviceId l ∈ l_deviceId <$> leases r)
      as (y & Hy & Hyid & Hys)%(do_leased _ _ _ _ _ Hdata) by (by apply list_elem_of_fmap_2).
    rewrite (Huniq y Hy) in Hys; congruence.
  - rewrite (Huniq x (list_elem_of_lookup_2 _ _ _ Hi) Hx) in He. unfold transitioned in He.
    destruct (transition d leased _) as [|e''] eqn:Et; [done|].
    apply transition_Err in Et as [Hl _]. rewrite Hready in Hl. by destruct (dev_physical d).
Qed.

(** C2. A lease, its device and its request change together. [createLease] succeeds exactly when
    the device exists and is ready; then one commit appends the lease, makes the device [leased]
    and settles the open request it was asked for as granted with that very lease, so no crash can
    fall between them. Otherwise it throws and the registry is as it was. *)
Theorem create_lease_atomic options r t now g input :
  retention_ok options → (0 < retentionMs (leaseRequestLimits options))%Z →
  registry_reachable options r t → (t ≤ now)%Z → admissible r (CCreateLease g input) →
  let '(r', answer) := createLease options now g input r in
  match answer with
  | Ok l =>
      (l_deviceId l = cl_deviceId input ∧ l_grantedAt l = now
       ∧ l_ttlDeadline l = cl_ttlDeadline input)
      ∧ (∃ d, d ∈ devices r ∧ dev_id d = cl_deviceId input ∧ dev_state d = ready)
      ∧ leases r' = leases r ++ [l]
      ∧ (∃ d, d ∈ devices r' ∧ dev_id d = cl_deviceId input ∧ dev_state d = leased)
      ∧ log r' = log r ++ [LogCommit (contents r')]
      ∧ (∀ ref q, cl_request input = Some ref → q ∈ leaseRequests r → q_id q = cr_id ref →
           isSettled q = false →
           ∃ q' gr, q' ∈ leaseRequests r' ∧ q_id q' = q_id q ∧ q_state q' = granted
             ∧ q_grant q' = Some gr ∧ g_lease gr = l)
  | Err _ => r' = r ∧ ∀ d, d ∈ devices r → dev_id d = cl_deviceId input → dev_state d ≠ ready
  end.
Proof.
  intros Hret Hpos Hre Ht Hadm.
  pose proof (registry_ok_later _ _ _ Ht (registry_reachable_ok _ _ _ Hret Hre)) as Hr.
  pose proof (createLease_kept options now (ret_requests _ Hret) (ret_deleted _ Hret) r g input Hr Hadm)
    as Hkept.
  assert (runs (createLease options now g input) r
    (λ l r', (l_deviceId l = cl_deviceId input ∧ l_grantedAt l = now
       ∧ l_ttlDeadline l = cl_ttlDeadline input)
      ∧ (∃ d, d ∈ devices r ∧ dev_id d = cl_deviceId input ∧ dev_state d = ready)
      ∧ leases r' = leases r ++ [l] ∧ log r' = log r ++ [LogCommit (contents r')]
      ∧ (∀ ref q, cl_request input = Some ref → q ∈ leaseRequests r → q_id q = cr_id ref →
           isSettled q = false →
           ∃ q' gr, q' ∈ leaseRequests r' ∧ q_id q' = q_id q ∧ q_state q' = granted
             ∧ q_grant q' = Some gr ∧ g_lease gr = l))
    (λ _ r', r' = r ∧ ∀ d, d ∈ devices r → dev_id d = cl_deviceId input → dev_state d ≠ ready))
    as Hrun.
  { apply createLease_runs.
    - intros d i x l Hi Hid Hs Hx d' Hl1 Hl2 Hl3 Hl4. split_and!; [done..| |done|done|].
      + exists d. apply transitioned_Ok in Hx as (Hl%legal_edge_leased & _).
        split_and!; [by eapply list_elem_of_lookup_2|done..].
      + intros ref q Href Hq Hqid Hopen. rewrite Href. unfold commit, modify. cbn [fst leaseRequests].
        edestruct (settled_as_granted now (devices r) (leases r) (leaseRequests r) (components r) now
          (retentionMs (leaseRequestLimits options)) (cr_id ref)
          (MkGrant d' (cr_environment ref) l (cr_timing ref)) q) as (q' & H1 & H2 & H3 & H4);
          [apply (ro_data _ _ Hr)|exact Hpos|done..|].
        exists q', (MkGrant d' (cr_environment ref) l (cr_timing ref)). split_and!; done.
    - intros e Hwhy. split; [done|]. intros d Hd Hid Hready.
      by eapply (ready_can_be_leased now r now). }
  unfold runs in Hrun, Hkept. destruct (createLease options now g input r) as [r' [l|e]]; [|done].
  destruct Hrun as ((Hl & Hl') & Hd & Hls & Hlog & Hreq).
  split; [done|]. split; [done|]. split; [done|]. split; [|done].
  assert (l_deviceId l ∈ l_deviceId <$> leases r')
    as (y & Hy & Hyid & Hys)%(do_leased _ _ _ _ _ (ro_data _ _ Hkept)).
  { rewrite Hls, fmap_app, elem_of_app. right. by left. }
  exists y. split_and!; [done|congruence|done].
Qed.

Lemma create_lease_atomic_witness :
  let '(r', answer) := createLease sample_options 4 "1" sample_lease_input sample_ready in
  match answer with
  | Ok l => leases r' = leases sample_ready ++ [l]
  | Err _ => r' = sample_ready
  end.
Proof.
  pose proof (create_lease_atomic sample_options sample_ready 3 4 "1" sample_lease_input
    sample_retention eq_refl sample_ready_reachable ltac:(lia)
    ltac:(apply (bool_decide_unpack _); vm_compute; exact I)) as H.
  destruct (createLease sample_options 4 "1" sample_lease_input sample_ready) as [r' [l|e]].
  - destruct H as (_ & _ & Hl & _). exact Hl.
  - destruct H as [Hr _]. exact Hr.
Defined.

(** Releasing a lease of the registry: it succeeds, and what it leaves. *)
(** A live lease and its device are found. *)
Lemma runs_live {A} t r l (m : LeaseRecord → DeviceRecord * nat → action Registry RegistryError A) Q R :
  registry_ok t r → l ∈ leases r →
  (∀ d i, devices r !! i = Some d → dev_id d = l_deviceId l → dev_state d = leased →
     runs (m l (d, i)) r Q R) →
  runs (find_lease (l_id l) ≫= λ l, requireDeviceRecord (l_deviceId l) ≫= m l) r Q R.
Proof.
  intros Hr Hl Hm. pose proof (ro_data _ _ Hr) as Hd.
  apply runs_bind. unfold find_lease. apply runs_bind, runs_get, runs_lift.
  2:{ intros e [Hn _]%of_option_Err. rewrite afind_None in Hn. specialize (Hn l Hl). cbn in Hn.
      by rewrite bool_decide_eq_true_2 in Hn. }
  intros x [Hx Hxid%bool_decide_eq_true]%of_option_Ok%afind_Some.
  assert (x = l) as -> by (by apply (NoDup_fmap_inj_on l_id (leases r)); [apply Hd|..]).
  assert (l_deviceId l ∈ l_deviceId <$> leases r) as (y & Hy & Hyid & Hys)%(do_leased _ _ _ _ _ Hd)
    by (by apply list_elem_of_fmap_2).
  apply runs_bind. unfold requireDeviceRecord. apply runs_bind, runs_get.
  destruct (Arr.findIndex _ _) as [i|] eqn:E.
  2:{ rewrite afindIndex_None in E. specialize (E y Hy). cbn in E. by rewrite bool_decide_eq_true_2 in E. }
  apply afindIndex_Some in E as (d & Hi & Hid%bool_decide_eq_true & _).
  assert (d = y) as ->.
  { apply (NoDup_fmap_inj_on dev_id (devices r)); [apply Hd| |done|congruence].
    by eapply list_elem_of_lookup_2. }
  rewrite Hi. apply runs_lift; [|done]. intros ? [= <-]. by apply Hm.
Qed.

Lemma beginRelease_runs t options now r l defer : registry_ok t r → l ∈ leases r →
  runs (beginRelease options now (l_id l) defer) r
    (λ released r', rl_lease released = l ∧ leases r' = without_lease (l_id l) (leases r)
      ∧ dev_id (rl_device released) = l_deviceId l ∧ dev_state (rl_device released) = reclaiming
      ∧ lastLeaseEndedAt (dev_fields (rl_device released)) = Some now) (λ _ _, False).
Proof.
  intros Hr Hl. pose proof (ro_data _ _ Hr) as Hd. unfold beginRelease.
  eapply runs_live; [done..|]. intros y i Hi Hid Hys. cbv beta iota.
  assert (y ∈ devices r) as Hy by by eapply list_elem_of_lookup_2.
  apply runs_bind, runs_lift.
  2:{ intros e He. unfold transitioned in He.
      destruct (transition _ reclaiming _) as [|e'] eqn:Et; [done|].
      apply transition_Err in Et as [Hle _]. rewrite set_fields_state, set_fields_physical, Hys in Hle.
      by destruct (dev_physical y). }
  intros x Hx'. destruct (transitioned_Ok _ _ _ _ _ Hx') as (_ & Hst & _ & Hsu).
  destruct Hsu as [Hxid' _ _ _].
  { rewrite set_fields_wf. by apply Hd. }
  { rewrite set_fields_fields. cbn. destruct (deletedAt (dev_fields y)) eqn:E; [|done].
    rewrite (do_deleted _ _ _ _ _ Hd y Hy) in Hys; [done|by rewrite E]. }
  apply runs_bind, runs_get, runs_bind. unfold commit_devices. apply runs_bind, runs_get.
  unfold commit. apply runs_modify, runs_ret. cbn [rl_lease rl_device leases].
  split_and!; [done..| | |].
  - rewrite set_fields_id by (by destruct defer). rewrite Hxid', set_fields_id by done. done.
  - by rewrite set_fields_state.
  - rewrite set_fields_fields. by destruct defer.
Qed.

Lemma without_lease_snoc l ls : l_id l ∉ l_id <$> ls → without_lease (l_id l) (ls ++ [l]) = ls.
Proof.
  intros Hf. unfold without_lease, Arr.filter. rewrite List.filter_app. cbn.
  rewrite bool_decide_eq_true_2 by done. cbn. rewrite app_nil_r.
  induction ls as [|k ls IH]; cbn; [done|]. cbn in Hf. rewrite not_elem_of_cons in Hf.
  destruct Hf as [Hne Hrest]. rewrite bool_decide_eq_false_2 by done. cbn. f_equal. by apply IH.
Qed.

(** Granting and releasing is a round trip on the leases: releasing the lease [createLease]
    made, at any later time, succeeds, gives back exactly the leases there were before the grant,
    and leaves its device [reclaiming] with the moment the lease ended. *)
Theorem lease_round_trip options r t now now' g input l r1 defer :
  retention_ok options → registry_reachable options r t → (t ≤ now ≤ now')%Z →
  admissible r (CCreateLease g input) →
  createLease options now g input r = (r1, Ok l) →
  let '(r2, answer) := beginRelease options now' (l_id l) defer r1 in
  ∃ released, answer = Ok released ∧ rl_lease released = l ∧ leases r2 = leases r
    ∧ dev_id (rl_device released) = l_deviceId l ∧ dev_state (rl_device released) = reclaiming
    ∧ lastLeaseEndedAt (dev_fields (rl_device released)) = Some now'.
Proof.
  intros Hret Hre [Ht Ht'] Hadm Hcreate.
  pose proof (registry_ok_later _ _ _ Ht (registry_reachable_ok _ _ _ Hret Hre)) as Hr.
  pose proof (createLease_kept options now (ret_requests _ Hret) (ret_deleted _ Hret) r g input Hr Hadm)
    as Hkept.
  assert (runs (createLease options now g input) r
    (λ l r', leases r' = leases r ++ [l] ∧ l_id l = default ("lse_" +:+ g) (cl_leaseId input))
    (λ _ _, True)) as Hrun.
  { apply createLease_runs; [|done]. intros. done. }
  unfold runs in Hkept, Hrun. rewrite Hcreate in Hkept, Hrun. destruct Hrun as [Hls Hlid].
  pose proof (beginRelease_runs now options now' r1 l defer Hkept) as Hrel. unfold runs in Hrel.
  cbn in Hadm. rewrite <- Hlid in Hadm. rewrite Hls, (without_lease_snoc l (leases r) Hadm) in Hrel.
  destruct (beginRelease options now' (l_id l) defer r1) as [r2 [released|e]].
  - exists released. split; [done|]. apply Hrel, elem_of_app. right. by left.
  - exfalso. apply Hrel, elem_of_app. right. by left.
Qed.

Lemma lease_round_trip_witness :
  let l := MkLease "lse_1" "dev_1" "agent" "owner" 4 100 104 4 false in
  let '(r2, answer) := beginRelease sample_options 9 (l_id l) false
    (createLease sample_options 4 "1" sample_lease_input sample_ready).1 in
  ∃ released, answer = Ok released ∧ rl_lease released = l ∧ leases r2 = leases sample_ready
    ∧ dev_id (rl_device released) = l_deviceId l ∧ dev_state (rl_device released) = reclaiming
    ∧ lastLeaseEndedAt (dev_fields (rl_device released)) = Some 9%Z.
Proof.
  apply (lease_round_trip sample_options sample_ready 3 4 9 "1" sample_lease_input
    (MkLease "lse_1" "dev_1" "agent" "owner" 4 100 104 4 false)
    (createLease sample_options 4 "1" sample_lease_input sample_ready).1 false
    sample_retention sample_ready_reachable).
  - lia.
  - apply (bool_decide_unpack _). vm_compute. exact I.
  - vm_compute. reflexivity.
Defined.
