(* ===== verification/WaitQueue.v ===== *)
(** * The wait queue: [src/leasing/wait-queue.ts]

    Requests that wait for a device, and the rule that limits how many one requester may have.
    Waiters are objects shared between the queue and its callers, so they live in a store and are
    named by a handle; [#ownedWaiters] is the domain of the store. The clock is read once per
    operation ([now]), and [q_log] is what callers and observers see of the queue, in order. *)
From stdpp Require Import base strings pretty list option numbers gmap sets.
From S2P Require Import Prelude JsString OsRange Domain Capacity Claims Cleanup Planner.

(** ** The requester limit *)

Inductive MaxPerRequester :=
| MaxNumber (limit : Z)
| MaxByPlatform (max_ios max_android : option Z).
Definition max_for (max_ios max_android : option Z) (p : Platform) : option Z :=
  match p with ios => max_ios | android => max_android end.

Record HeldLease := MkHeld { h_id : string; h_grantedAt : Z; h_platform : option Platform }.

Record RequesterLimitInput := MkLimitInput {
  li_requesterId : string;
  li_platform : Platform;
  li_maxPerRequester : option MaxPerRequester;
  li_held : list HeldLease;
  li_waiting : list Platform;
  li_probe : bool }.

Record RequesterLimitContext := MkLimitContext {
  lc_limit : Z; lc_held : Z; lc_waiting : bool; lc_platform : option Platform }.
Record RequesterAlreadyLeasedError := MkAlreadyLeased {
  al_requesterId : string;
  al_existingLeaseId : option string;
  al_context : RequesterLimitContext;
  al_message : string }.

(** [String(x)] of an optional id. *)
Definition id_text (i : option string) : string := default "undefined" i.

Definition platformRefusalMessage (requesterId : string) (existing : option string)
    (context : RequesterLimitContext) (platform : Platform) : string :=
  let label := platform_label platform in
  if lc_waiting context then
    "Requester " +:+ requesterId +:+ " already has a waiting " +:+ label
    +:+ " request; wait for it to be granted or cancel it before requesting another " +:+ label
    +:+ " device"
  else
    let release := "release it (`simlock release " +:+ id_text existing +:+ "`)" in
    if (lc_limit context =? 1)%Z then
      "Requester " +:+ requesterId +:+ " already holds " +:+ label +:+ " lease "
      +:+ id_text existing +:+ "; " +:+ release +:+ " before requesting another " +:+ label
      +:+ " device"
    else
      "Requester " +:+ requesterId +:+ " already holds " +:+ pretty (lc_held context) +:+ " "
      +:+ label +:+ " leases and lease.maxPerRequester." +:+ platform_text platform +:+ " is "
      +:+ pretty (lc_limit context) +:+ "; release one (`simlock release " +:+ id_text existing
      +:+ "`) before requesting another " +:+ label +:+ " device".

Definition requesterRefusalMessage (requesterId : string) (existing : option string)
    (context : RequesterLimitContext) : string :=
  match lc_platform context with
  | Some p => platformRefusalMessage requesterId existing context p
  | None =>
      if (1 <? lc_limit context)%Z then
        if lc_waiting context then
          "Requester " +:+ requesterId +:+ " already has a waiting request; wait for it to be granted"
          +:+ " or cancel it before requesting another device"
        else
          "Requester " +:+ requesterId +:+ " already holds " +:+ pretty (lc_held context)
          +:+ " leases and lease.maxPerRequester is " +:+ pretty (lc_limit context)
          +:+ "; release one (`simlock release " +:+ id_text existing
          +:+ "`) before requesting another device"
      else
        match existing with
        | None => "Requester already has a lease or pending request: " +:+ requesterId
        | Some l =>
            "Requester " +:+ requesterId +:+ " already holds lease " +:+ l
            +:+ "; release it (`simlock release " +:+ l +:+ "`) before requesting another device"
        end
  end.
Definition already_leased (requesterId : string) (existing : option string)
    (context : RequesterLimitContext) : RequesterAlreadyLeasedError :=
  MkAlreadyLeased requesterId existing context (requesterRefusalMessage requesterId existing context).

Definition earlier (earliest : option HeldLease) (l : HeldLease) : option HeldLease :=
  match earliest with
  | None => Some l
  | Some e => if (h_grantedAt l <? h_grantedAt e)%Z then Some l else Some e
  end.
Definition earliestGranted (leases : list HeldLease) : option HeldLease := foldl earlier None leases.

Definition requesterLimitDecision (input : RequesterLimitInput)
    : option RequesterAlreadyLeasedError :=
  match default (MaxNumber 1) (li_maxPerRequester input) with
  | MaxNumber configured =>
      let held := Z.of_nat (length (li_held input)) in
      let waiting := 0 <? length (li_waiting input) in
      let atLimit := negb (li_probe input)
        && (configured <=? held + Z.of_nat (length (li_waiting input)))%Z in
      if negb (Arr.includes (li_platform input) (li_waiting input)) && negb atLimit then None
      else Some (already_leased (li_requesterId input) (h_id <$> earliestGranted (li_held input))
             (MkLimitContext configured held waiting None))
  | MaxByPlatform max_ios max_android =>
      let limit := default 1%Z (max_for max_ios max_android (li_platform input)) in
      let held := Arr.filter
        (λ l, (h_platform l === None) || (h_platform l === Some (li_platform input)))
        (li_held input) in
      let atLimit := negb (li_probe input) && (limit <=? Z.of_nat (length held))%Z in
      let waiting := Arr.includes (li_platform input) (li_waiting input) in
      if negb waiting && negb atLimit then None
      else Some (already_leased (li_requesterId input) (h_id <$> earliestGranted held)
             (MkLimitContext limit (Z.of_nat (length held)) (waiting && negb atLimit)
                (Some (li_platform input))))
  end.

(** ** Waiters *)

Record LeaseRequestOptions := MkRequestOptions {
  ro_requesterId : string;
  ro_ownerId : string;
  ro_timeoutMs : option Z;
  ro_noWait : bool;
  ro_ttlMs : option Z;
  ro_idempotencyKey : option string;
  ro_leaseId : option string;
  ro_fleetRequestId : option string;
  ro_requires : option (list string) }.

Inductive WaiterState := w_new | w_queued | w_processing | w_granted | w_rejected.
#[global] Instance WaiterState_eq_dec : EqDecision WaiterState.
Proof. solve_decision. Defined.
Definition isTerminal (s : WaiterState) : bool := (s === w_granted) || (s === w_rejected).

Inductive QueueLine := line_virtual | line_physical.
#[global] Instance QueueLine_eq_dec : EqDecision QueueLine.
Proof. solve_decision. Defined.
Definition lineOf (request : DeviceRequest) : QueueLine :=
  if rq_physical request === Some true then line_physical else line_virtual.

(** [w_timer] is the moment the pending timer was set for, [None] when there is none. *)
Record Waiter := MkWaiter {
  w_id : string;
  w_request : DeviceRequest;
  w_options : LeaseRequestOptions;
  w_reason : option WaitingReason;
  w_state : WaiterState;
  w_timer : option Z;
  w_deadlineAt : option Z }.
#[export] Instance Waiter_eta : Eta Waiter := λ w,
  MkWaiter (w_id w) (w_request w) (w_options w) (w_reason w) (w_state w) (w_timer w)
    (w_deadlineAt w).

(** The queue's own errors, and those its callers reject a waiter with. *)
Inductive WaitError :=
| QueueTimeoutError (requestId : string)
| RequestCancelledError (requestId : string)
| NoCapacityError (reason : WaitingReason)
| ProvisionFailedError (message : string)
| DaemonUpdatingError
| NukeCancelledError
| PhysicalUnknownModelError (request : PhysicalRequest)
| DispatchFailed (code message : string)
| OtherError (what : string).
Inductive QueueError := ForeignWaiterError.

(** [LeaseProgress] of [src/core/domain.ts]. *)
Inductive LeaseProgress :=
| ProgressQueued (queuePosition : Z)
| ProgressDownloading (component : string) (waiting : bool) (percent : option Z)
| ProgressProvisioning (etaMs : Z)
| ProgressBooting (etaMs : Z)
| ProgressReclaiming (etaMs : Z).

Inductive QueueEvent :=
| DepthChanged (depth : Z) (line : QueueLine)
| Progressed (h : nat) (p : LeaseProgress)
| Resolved (h : nat) (grant : LeaseGrant)
| Rejected (h : nat) (e : WaitError)
| TimedOut (h : nat).

Record WaitQueue := MkQueue {
  store : gmap nat Waiter;
  waiters : list nat;
  pendingWaiters : list nat;
  nextWaiter : nat;
  q_log : list QueueEvent }.
#[export] Instance WaitQueue_eta : Eta WaitQueue := λ q,
  MkQueue (store q) (waiters q) (pendingWaiters q) (nextWaiter q) (q_log q).
Definition empty_queue : WaitQueue := MkQueue ∅ [] [] 0 [].

(** [waiters.splice(waiters.indexOf(h), 1)] when [h] is there. *)
Definition spliced (h : nat) (l : list nat) : list nat :=
  match Arr.findIndex (λ k, k === h) l with
  | Some index => Arr.removeAt index l
  | None => l
  end.

Section queue.
Context (now : Z).
Local Abbreviation op A := (action WaitQueue QueueError A).
Implicit Types (q : WaitQueue) (h : nat).

Definition on_line q (line : QueueLine) h : bool :=
  match store q !! h with Some w => lineOf (w_request w) === line | None => false end.
Definition queue_line q (line : QueueLine) : list nat := Arr.filter (on_line q line) (waiters q).
Definition depth q : Z := Z.of_nat (length (queue_line q line_virtual)).
Definition physicalDepth q : Z := Z.of_nat (length (queue_line q line_physical)).
Definition queue_head q : option nat := head (queue_line q line_virtual).

Definition note (e : QueueEvent) : op unit := modify (λ q, q <| q_log := q_log q ++ [e] |>).
Definition mutable h : op Waiter := q ← get; lift (of_option ForeignWaiterError (store q !! h)).
Definition put h (w : Waiter) : op unit := modify (λ q, q <| store := <[h := w]> (store q) |>).

(** [places]: a waiter's id, its place in its line while it is queued, and its reason. *)
Definition QueuePlace : Type := string * option Z * option WaitingReason.
Definition place_of q h : option QueuePlace :=
  w ← store q !! h;
  Some (if w_state w === w_queued
        then (w_id w,
              Some (match Arr.findIndex (λ k, k === h) (queue_line q (lineOf (w_request w))) with
                    | Some i => Z.of_nat i + 1
                    | None => -1 + 1
                    end)%Z,
              w_reason w)
        else (w_id w, None, None)).
Definition places q : list QueuePlace := omap (place_of q) (pendingWaiters q).

Definition pendingPlatforms q (requesterId : string) : list Platform :=
  omap (λ h, w ← store q !! h;
             if ro_requesterId (w_options w) === requesterId
             then Some (rq_platform (w_request w)) else None) (pendingWaiters q).
Definition hasPendingRequester q (requesterId : string) : bool :=
  0 <? length (pendingPlatforms q requesterId).
Definition findPendingWaiter q (requesterId : string) (platform : option Platform) : option nat :=
  Arr.find (λ h, match store q !! h with
                 | Some w => (ro_requesterId (w_options w) === requesterId)
                     && match platform with
                        | None => true
                        | Some p => rq_platform (w_request w) === p
                        end
                 | None => false
                 end) (pendingWaiters q).

Definition create (generated : string) (request : DeviceRequest) (options : LeaseRequestOptions)
    (i : option string) : op nat :=
  q ← get;
  let h := nextWaiter q in
  let w := MkWaiter (default ("req_" +:+ generated) i) request options None w_new None None in
  _ ← modify (λ q, q <| store := <[h := w]> (store q) |>
                     <| pendingWaiters := pendingWaiters q ++ [h] |>
                     <| nextWaiter := S h |>);
  mret h.

(** [notifyProgress] with the waiter's client's callback as a log entry. *)
Definition notifyProgress h (p : LeaseProgress) : op unit :=
  w ← mutable h;
  if isTerminal (w_state w) then mret tt else note (Progressed h p).

(** [#remove]. *)
Definition remove h : op unit :=
  q ← get;
  w ← mutable h;
  _ ← (if Arr.includes h (waiters q) then
         let line := lineOf (w_request w) in
         _ ← modify (λ q, q <| waiters := spliced h (waiters q) |>);
         q ← get;
         note (DepthChanged (Z.of_nat (length (queue_line q line))) line)
       else mret tt);
  _ ← modify (λ q, q <| pendingWaiters := Arr.filter (λ k, k !== h) (pendingWaiters q) |>);
  put h (w <| w_timer := None |>).

Definition resolve h (grant : LeaseGrant) : op bool :=
  w ← mutable h;
  if isTerminal (w_state w) then mret false else
  _ ← remove h;
  w ← mutable h;
  _ ← put h (w <| w_state := w_granted |>);
  _ ← note (Resolved h grant);
  mret true.
Definition reject h (e : WaitError) : op bool :=
  w ← mutable h;
  if isTerminal (w_state w) then mret false else
  _ ← remove h;
  w ← mutable h;
  _ ← put h (w <| w_state := w_rejected |>);
  _ ← note (Rejected h e);
  mret true.

(** Rejects for the deadline and tells the observer of timeouts. *)
Definition time_out h : op unit :=
  w ← mutable h;
  rejected ← reject h (QueueTimeoutError (w_id w));
  if rejected : bool then note (TimedOut h) else mret tt.

Definition expireIfPastDeadline h : op bool :=
  w ← mutable h;
  match w_deadlineAt w with
  | None => mret false
  | Some deadline =>
      if (now <? deadline)%Z then mret false else
      _ ← time_out h;
      mret true
  end.

Definition armTimeout h : op unit :=
  w ← mutable h;
  match w_timer w, ro_timeoutMs (w_options w) with
  | None, Some timeoutMs =>
      let deadline := default (now + timeoutMs)%Z (w_deadlineAt w) in
      let remainingMs := Z.max 0 (deadline - now) in
      put h (w <| w_deadlineAt := Some deadline |> <| w_timer := Some (now + remainingMs)%Z |>)
  | _, _ => mret tt
  end.

(** The callback of a timer. *)
Definition fire h : op unit :=
  w ← mutable h;
  _ ← put h (w <| w_timer := None |>);
  if w_state w !== w_queued then mret tt else time_out h.

Definition enqueue h (reason : option WaitingReason) : op bool :=
  w ← mutable h;
  if isTerminal (w_state w) then mret false else
  expired ← expireIfPastDeadline h;
  if expired : bool then mret false else
  _ ← put h (w <| w_reason := reason |>);
  q ← get;
  _ ← (if negb (Arr.includes h (waiters q)) then
         _ ← modify (λ q, q <| waiters := waiters q ++ [h] |>);
         q ← get;
         let line := lineOf (w_request w) in
         let d := Z.of_nat (length (queue_line q line)) in
         _ ← note (DepthChanged d line);
         notifyProgress h (ProgressQueued d)
       else mret tt);
  w ← mutable h;
  _ ← put h (w <| w_state := w_queued |>);
  _ ← armTimeout h;
  mret true.

Definition markProcessing h : op bool :=
  w ← mutable h;
  if isTerminal (w_state w) then mret false else
  expired ← expireIfPastDeadline h;
  if expired : bool then mret false else
  _ ← put h (w <| w_state := w_processing |>);
  mret true.

Definition markNew h : op bool :=
  w ← mutable h;
  if isTerminal (w_state w) then mret false else
  q ← get;
  _ ← put h (w <| w_state := if Arr.includes h (waiters q) then w_queued else w_new |>);
  mret true.

Definition isQueued h : op bool :=
  _ ← mutable h; q ← get; mret (Arr.includes h (waiters q)).

(** [cancelAll] walks the pending set while it shrinks: each waiter is visited once, in order. *)
Fixpoint cancel_each (error : Waiter → WaitError) (hs : list nat) : op (list nat) :=
  match hs with
  | [] => mret []
  | h :: hs =>
      w ← mutable h;
      rejected ← reject h (error w);
      rest ← cancel_each error hs;
      mret (if rejected : bool then h :: rest else rest)
  end.
Definition cancelAll (error : Waiter → WaitError) : op (list nat) :=
  q ← get; cancel_each error (pendingWaiters q).
End queue.

(** ** Lemmas *)

(** What each operation leaves, as one state. *)

(** The queue once [h] is out of it, with its timer cancelled. *)
Definition removed (q : WaitQueue) (h : nat) (w : Waiter) (s : WaiterState) : WaitQueue :=
  let line := lineOf (w_request w) in
  let ws := spliced h (waiters q) in
  MkQueue (<[h := w <| w_timer := None |> <| w_state := s |>]> (store q)) ws
    (Arr.filter (λ k, k !== h) (pendingWaiters q)) (nextWaiter q)
    (q_log q ++ if Arr.includes h (waiters q)
                then [DepthChanged (Z.of_nat (length (Arr.filter (on_line q line) ws))) line]
                else []).
Definition settled (q : WaitQueue) (h : nat) (w : Waiter) (s : WaiterState) (e : QueueEvent)
    : WaitQueue :=
  (removed q h w s) <| q_log := q_log (removed q h w s) ++ [e] |>.

Lemma mutable_Some q h w : store q !! h = Some w → mutable h q = (q, Ok w).
Proof. intros H. unfold mutable, lift, get, mbind, action_bind. by rewrite H. Qed.
Lemma mutable_None q h : store q !! h = None → mutable h q = (q, Err ForeignWaiterError).
Proof. intros H. unfold mutable, lift, get, mbind, action_bind. by rewrite H. Qed.

Lemma bind_eval {S E A B} (m : action S E A) (f : A → action S E B) s s' a :
  m s = (s', Ok a) → (m ≫= f) s = f a s'.
Proof. unfold mbind, action_bind. by intros ->. Qed.

Lemma spliced_absent h l : h ∉ l → spliced h l = l.
Proof.
  intros Hh. unfold spliced. destruct (Arr.findIndex _ l) as [i|] eqn:E; [|done].
  apply afindIndex_Some in E as (k & Hi & ->%bool_decide_eq_true & _).
  by destruct Hh; eapply list_elem_of_lookup_2.
Qed.

Lemma remove_eval q h w : store q !! h = Some w →
  remove h q = (removed q h w (w_state w), Ok tt).
Proof.
  intros Hw. unfold remove.
  rewrite (bind_eval _ _ q q q) by done. rewrite (bind_eval _ _ q q w) by (by apply mutable_Some).
  unfold removed, Arr.includes. destruct w as [i rq ro re st ti de]. case_bool_decide as Hin; cbn.
  - unfold note, put, modify, mbind, action_bind, get, mret, action_ret. cbn.
    unfold queue_line. cbn. done.
  - unfold put, modify, mbind, action_bind, mret, action_ret. cbn.
    rewrite spliced_absent, app_nil_r by done. done.
Qed.

(** Resolving and rejecting differ in the state and the event only. *)
Lemma settle_eval q h w (s : WaiterState) (e : QueueEvent) : store q !! h = Some w →
  (_ ← remove h; w ← mutable h; _ ← put h (w <| w_state := s |>); _ ← note e; mret true)%stdpp q
  = (settled q h w s e, Ok true).
Proof.
  intros Hw. rewrite (bind_eval _ _ _ _ _ (remove_eval q h w Hw)).
  rewrite (bind_eval _ _ _ _ _ (mutable_Some (removed q h w (w_state w)) h
    (w <| w_timer := None |> <| w_state := w_state w |>) (lookup_insert_eq _ _ _))).
  unfold put, note, modify, mbind, action_bind, mret, action_ret. cbn.
  unfold settled, removed. cbn. by rewrite insert_insert_eq.
Qed.

Lemma reject_eval q h e : reject h e q =
  match store q !! h with
  | None => (q, Err ForeignWaiterError)
  | Some w => if isTerminal (w_state w) then (q, Ok false)
              else (settled q h w w_rejected (Rejected h e), Ok true)
  end.
Proof.
  unfold reject. destruct (store q !! h) as [w|] eqn:Hw.
  - rewrite (bind_eval _ _ _ _ _ (mutable_Some q h w Hw)). destruct (isTerminal _); [done|].
    by apply settle_eval.
  - unfold mbind at 1, action_bind at 1. by rewrite (mutable_None q h Hw).
Qed.
Lemma resolve_eval q h g : resolve h g q =
  match store q !! h with
  | None => (q, Err ForeignWaiterError)
  | Some w => if isTerminal (w_state w) then (q, Ok false)
              else (settled q h w w_granted (Resolved h g), Ok true)
  end.
Proof.
  unfold resolve. destruct (store q !! h) as [w|] eqn:Hw.
  - rewrite (bind_eval _ _ _ _ _ (mutable_Some q h w Hw)). destruct (isTerminal _); [done|].
    by apply settle_eval.
  - unfold mbind at 1, action_bind at 1. by rewrite (mutable_None q h Hw).
Qed.

(** The queue after a waiter's time ran out. *)
Definition timed_out (q : WaitQueue) (h : nat) (w : Waiter) : WaitQueue :=
  let q' := settled q h w w_rejected (Rejected h (QueueTimeoutError (w_id w))) in
  q' <| q_log := q_log q' ++ [TimedOut h] |>.

Lemma time_out_eval q h w : store q !! h = Some w → isTerminal (w_state w) = false →
  time_out h q = (timed_out q h w, Ok tt).
Proof.
  intros Hw Ht. unfold time_out. rewrite (bind_eval _ _ _ _ _ (mutable_Some q h w Hw)).
  assert (reject h (QueueTimeoutError (w_id w)) q
    = (settled q h w w_rejected (Rejected h (QueueTimeoutError (w_id w))), Ok true)) as Hr.
  { by rewrite reject_eval, Hw, Ht. }
  by rewrite (bind_eval _ _ _ _ _ Hr).
Qed.

(** Whether a waiter's deadline has passed. *)
Definition past_deadline (now : Z) (w : Waiter) : bool :=
  match w_deadlineAt w with Some d => (d <=? now)%Z | None => false end.

Lemma expire_eval now q h w : store q !! h = Some w → isTerminal (w_state w) = false →
  expireIfPastDeadline now h q
  = if past_deadline now w then (timed_out q h w, Ok true) else (q, Ok false).
Proof.
  intros Hw Ht. unfold expireIfPastDeadline, past_deadline.
  rewrite (bind_eval _ _ _ _ _ (mutable_Some q h w Hw)).
  destruct (w_deadlineAt w) as [d|]; [|done].
  destruct (Z.ltb_spec now d), (Z.leb_spec d now); try lia; [done|].
  by rewrite (bind_eval _ _ _ _ _ (time_out_eval q h w Hw Ht)).
Qed.

(** The timer and the deadline a waiter is queued with. *)
Definition armed (now : Z) (w : Waiter) : Waiter :=
  match w_timer w, ro_timeoutMs (w_options w) with
  | None, Some timeoutMs =>
      let deadline := default (now + timeoutMs)%Z (w_deadlineAt w) in
      w <| w_deadlineAt := Some deadline |> <| w_timer := Some (Z.max now deadline) |>
  | _, _ => w
  end.

Definition enqueued (now : Z) (q : WaitQueue) (h : nat) (w : Waiter) (reason : option WaitingReason)
    : WaitQueue :=
  let w' := armed now (w <| w_reason := reason |> <| w_state := w_queued |>) in
  let line := lineOf (w_request w) in
  let d := Z.of_nat (length (Arr.filter (on_line q line) (waiters q ++ [h]))) in
  if Arr.includes h (waiters q) then q <| store := <[h := w']> (store q) |>
  else MkQueue (<[h := w']> (store q)) (waiters q ++ [h]) (pendingWaiters q) (nextWaiter q)
         (q_log q ++ [DepthChanged d line; Progressed h (ProgressQueued d)]).

Lemma on_line_insert q h w w' line k : store q !! h = Some w → w_request w' = w_request w →
  on_line (q <| store := <[h := w']> (store q) |>) line k = on_line q line k.
Proof.
  intros Hw Hr. unfold on_line. cbn. destruct (decide (k = h)) as [->|Hne].
  - by rewrite lookup_insert_eq, Hw, Hr.
  - by rewrite lookup_insert_ne.
Qed.

Lemma armTimeout_eval now q h w : store q !! h = Some w →
  armTimeout now h q = (q <| store := <[h := armed now w]> (store q) |>, Ok tt).
Proof.
  intros Hw. unfold armTimeout. rewrite (bind_eval _ _ _ _ _ (mutable_Some q h w Hw)).
  assert (q <| store := <[h := w]> (store q) |> = q) as Hsame
    by (destruct q; cbn in *; by rewrite insert_id).
  unfold armed. destruct (w_timer w), (ro_timeoutMs (w_options w)); try (by rewrite Hsame).
  cbv zeta. set (d := default _ (w_deadlineAt w)).
  by replace (now + Z.max 0 (d - now))%Z with (Z.max now d) by lia.
Qed.

Lemma enqueue_eval now q h reason : enqueue now h reason q =
  match store q !! h with
  | None => (q, Err ForeignWaiterError)
  | Some w => if isTerminal (w_state w) then (q, Ok false)
              else if past_deadline now w then (timed_out q h w, Ok false)
              else (enqueued now q h w reason, Ok true)
  end.
Proof.
  unfold enqueue. destruct (store q !! h) as [w|] eqn:Hw.
  2:{ unfold mbind at 1, action_bind at 1. by rewrite (mutable_None q h Hw). }
  rewrite (bind_eval _ _ _ _ _ (mutable_Some q h w Hw)).
  destruct (isTerminal (w_state w)) eqn:Ht; [done|].
  pose proof (expire_eval now q h w Hw Ht) as He. destruct (past_deadline now w).
  { by rewrite (bind_eval _ _ _ _ _ He). }
  rewrite (bind_eval _ _ _ _ _ He). unfold enqueued.
  set (w1 := w <| w_reason := reason |>).
  set (q1 := q <| store := <[h := w1]> (store q) |>).
  rewrite (bind_eval (put h w1) _ q q1 tt) by done.
  rewrite (bind_eval get _ q1 q1 q1) by done. change (waiters q1) with (waiters q).
  unfold Arr.includes. case_bool_decide as Hin; cbn [negb].
  - rewrite (bind_eval (mret tt) _ q1 q1 tt) by done.
    rewrite (bind_eval (mutable h) _ q1 q1 w1) by (apply mutable_Some; apply lookup_insert_eq).
    set (w2 := w1 <| w_state := w_queued |>).
    set (q2 := q1 <| store := <[h := w2]> (store q1) |>).
    rewrite (bind_eval (put h w2) _ q1 q2 tt) by done.
    rewrite (bind_eval _ _ _ _ _ (armTimeout_eval now q2 h w2 (lookup_insert_eq _ _ _))).
    unfold mret, action_ret, q2, q1, update_field. cbn. by rewrite !insert_insert_eq.
  - set (q2 := q1 <| waiters := waiters q ++ [h] |>).
    set (d := Z.of_nat (length (Arr.filter (on_line q (lineOf (w_request w))) (waiters q ++ [h])))).
    set (q3 := q2 <| q_log := q_log q ++ [DepthChanged d (lineOf (w_request w));
                                          Progressed h (ProgressQueued d)] |>).
    assert (Z.of_nat (length (queue_line q2 (lineOf (w_request w)))) = d) as Hd.
    { unfold d, queue_line. do 2 f_equal. change (waiters q2) with (waiters q ++ [h]).
      unfold Arr.filter. apply filter_ext. intros k.
      apply (on_line_insert q h w w1 (lineOf (w_request w)) k Hw eq_refl). }
    match goal with |- (?m ≫= ?f) q1 = _ => assert (m q1 = (q3, Ok tt)) as Hm end.
    { rewrite (bind_eval _ _ q1 q2 tt) by done. rewrite (bind_eval get _ q2 q2 q2) by done.
      cbv zeta. rewrite Hd. set (q2' := q2 <| q_log := q_log q ++ [DepthChanged d (lineOf (w_request w))] |>).
      rewrite (bind_eval _ _ q2 q2' tt) by done. unfold notifyProgress.
      rewrite (bind_eval (mutable h) _ q2' q2' w1) by (apply mutable_Some; apply lookup_insert_eq).
      change (w_state w1) with (w_state w). rewrite Ht. unfold note, modify, q3, q2', update_field. cbn.
      by rewrite <- app_assoc. }
    rewrite (bind_eval _ _ _ _ _ Hm).
    rewrite (bind_eval (mutable h) _ q3 q3 w1) by (apply mutable_Some; apply lookup_insert_eq).
    set (w2 := w1 <| w_state := w_queued |>).
    set (q4 := q3 <| store := <[h := w2]> (store q3) |>).
    rewrite (bind_eval (put h w2) _ q3 q4 tt) by done.
    rewrite (bind_eval _ _ _ _ _ (armTimeout_eval now q4 h w2 (lookup_insert_eq _ _ _))).
    unfold mret, action_ret, q4, q3, q2, q1, update_field. cbn. by rewrite !insert_insert_eq.
Qed.

Lemma markProcessing_eval now q h : markProcessing now h q =
  match store q !! h with
  | None => (q, Err ForeignWaiterError)
  | Some w => if isTerminal (w_state w) then (q, Ok false)
              else if past_deadline now w then (timed_out q h w, Ok false)
              else (q <| store := <[h := w <| w_state := w_processing |>]> (store q) |>, Ok true)
  end.
Proof.
  unfold markProcessing. destruct (store q !! h) as [w|] eqn:Hw.
  2:{ unfold mbind at 1, action_bind at 1. by rewrite (mutable_None q h Hw). }
  rewrite (bind_eval _ _ _ _ _ (mutable_Some q h w Hw)).
  destruct (isTerminal (w_state w)) eqn:Ht; [done|].
  pose proof (expire_eval now q h w Hw Ht) as He.
  destruct (past_deadline now w); by rewrite (bind_eval _ _ _ _ _ He).
Qed.
Lemma markNew_eval q h : markNew h q =
  match store q !! h with
  | None => (q, Err ForeignWaiterError)
  | Some w =>
      if isTerminal (w_state w) then (q, Ok false)
      else (q <| store := <[h := w <| w_state :=
                 if Arr.includes h (waiters q) then w_queued else w_new |>]> (store q) |>, Ok true)
  end.
Proof.
  unfold markNew. destruct (store q !! h) as [w|] eqn:Hw.
  2:{ unfold mbind at 1, action_bind at 1. by rewrite (mutable_None q h Hw). }
  rewrite (bind_eval _ _ _ _ _ (mutable_Some q h w Hw)). by destruct (isTerminal (w_state w)).
Qed.
Lemma fire_eval q h : fire h q =
  match store q !! h with
  | None => (q, Err ForeignWaiterError)
  | Some w =>
      let w' := w <| w_timer := None |> in
      let q' := q <| store := <[h := w']> (store q) |> in
      if w_state w === w_queued then (timed_out q' h w', Ok tt) else (q', Ok tt)
  end.
Proof.
  unfold fire. destruct (store q !! h) as [w|] eqn:Hw.
  2:{ unfold mbind at 1, action_bind at 1. by rewrite (mutable_None q h Hw). }
  rewrite (bind_eval _ _ _ _ _ (mutable_Some q h w Hw)). cbv zeta.
  set (w' := w <| w_timer := None |>). set (q' := q <| store := <[h := w']> (store q) |>).
  rewrite (bind_eval (put h w') _ q q' tt) by done. case_bool_decide as Hs; [|done].
  apply time_out_eval; [apply lookup_insert_eq|]. cbn. by rewrite Hs.
Qed.

(** *** The invariant *)

Definition settles (h : nat) (e : QueueEvent) : bool :=
  match e with Resolved k _ | Rejected k _ => k === h | _ => false end.
Definition settlements (h : nat) (log : list QueueEvent) : nat := length (Arr.filter (settles h) log).

#[local] Arguments settlements : simpl never.

Lemma settlements_app h l k : settlements h (l ++ k) = settlements h l + settlements h k.
Proof. unfold settlements, Arr.filter. by rewrite List.filter_app, length_app. Qed.
Lemma settlements_one h k e : settles h e = bool_decide (k = h) →
  settlements h [e] = if bool_decide (k = h) then 1 else 0.
Proof. unfold settlements. cbn. intros ->. by case_bool_decide. Qed.
Lemma settlements_none h l : (∀ e, e ∈ l → settles h e = false) → settlements h l = 0.
Proof.
  unfold settlements, Arr.filter. induction l as [|e l IH]; intros Hl; cbn; [done|].
  rewrite (Hl e) by (by left). apply IH. intros x Hx. apply Hl. by right.
Qed.

Definition waiter_ok (ws : list nat) (h : nat) (w : Waiter) : Prop :=
  (w_state w = w_queued → h ∈ ws) ∧ (w_state w = w_new → h ∉ ws)
  ∧ ∀ t, w_timer w = Some t →
      isTerminal (w_state w) = false ∧ ∃ d, w_deadlineAt w = Some d ∧ (d ≤ t)%Z.

Record queue_ok (q : WaitQueue) : Prop := {
  qo_fresh h w : store q !! h = Some w → h < nextWaiter q;
  qo_pending_nd : NoDup (pendingWaiters q);
  qo_pending h : h ∈ pendingWaiters q ↔
    ∃ w, store q !! h = Some w ∧ isTerminal (w_state w) = false;
  qo_waiters_nd : NoDup (waiters q);
  qo_waiters h : h ∈ waiters q → h ∈ pendingWaiters q;
  qo_waiter h w : store q !! h = Some w → waiter_ok (waiters q) h w;
  qo_log h : settlements h (q_log q)
    = match store q !! h with Some w => if isTerminal (w_state w) then 1 else 0 | None => 0 end }.

(** A live waiter may change as long as it stays live and sound. *)
Lemma queue_ok_put q h w w' : queue_ok q → store q !! h = Some w → isTerminal (w_state w) = false →
  isTerminal (w_state w') = false → waiter_ok (waiters q) h w' →
  queue_ok (q <| store := <[h := w']> (store q) |>).
Proof.
  intros [Hf Hpn Hp Hwn Hw Hok Hl] Hh Ht Ht' Hok'. split; cbn; try done.
  - intros k x. rewrite lookup_insert_Some. intros [[<- _]|[_ Hk]]; eauto.
  - intros k. rewrite Hp. setoid_rewrite lookup_insert_Some. split.
    + intros (x & Hx & Hxt). destruct (decide (k = h)) as [->|Hne]; [exists w'|exists x]; auto.
    + intros (x & [[<- <-]|[_ Hx]] & Hxt); eauto.
  - intros k x. rewrite lookup_insert_Some. intros [[<- <-]|[_ Hk]]; [done|by apply Hok].
  - intros k. rewrite Hl. destruct (decide (k = h)) as [->|Hne].
    + by rewrite Hh, lookup_insert_eq, Ht, Ht'.
    + by rewrite lookup_insert_ne.
Qed.

Lemma queue_ok_log q es : queue_ok q → (∀ h e, e ∈ es → settles h e = false) →
  queue_ok (q <| q_log := q_log q ++ es |>).
Proof.
  intros [Hf Hpn Hp Hwn Hw Hok Hl] He. split; cbn; try done.
  intros h. rewrite settlements_app, Hl, (settlements_none h es), Nat.add_0_r by auto. done.
Qed.

Lemma spliced_spec h l : NoDup l → NoDup (spliced h l) ∧ ∀ k, k ∈ spliced h l ↔ k ∈ l ∧ k ≠ h.
Proof.
  intros Hn. unfold spliced. destruct (Arr.findIndex _ l) as [i|] eqn:E.
  - apply afindIndex_Some in E as (k & Hi & ->%bool_decide_eq_true & _). unfold Arr.removeAt.
    pose proof (delete_Permutation l i h Hi) as Hp. rewrite Hp in Hn.
    apply NoDup_cons in Hn as [Hh Hn]. split; [done|]. intros k.
    assert (k ∈ l ↔ k = h ∨ k ∈ delete i l) as Hl by (by rewrite Hp at 1; rewrite elem_of_cons).
    rewrite Hl. split; [|tauto]. intros Hk. split; [by right|]. by intros ->.
  - rewrite afindIndex_None in E. split; [done|]. intros k. split; [|tauto]. intros Hk. split; [done|].
    intros ->. specialize (E h Hk). cbn in E. by rewrite bool_decide_eq_true_2 in E.
Qed.

Lemma terminal_live s : isTerminal s = true → s ≠ w_queued ∧ s ≠ w_new.
Proof. by destruct s. Qed.

Lemma queue_ok_settled q h w s e : queue_ok q → store q !! h = Some w →
  isTerminal (w_state w) = false → isTerminal s = true → (∀ k, settles k e = bool_decide (h = k)) →
  queue_ok (settled q h w s e).
Proof.
  intros [Hf Hpn Hp Hwn Hw Hok Hl] Hh Ht Hs He.
  destruct (spliced_spec h (waiters q) Hwn) as [Hsn Hsp].
  assert (∀ k, k ∈ Arr.filter (λ k, k !== h) (pendingWaiters q) ↔ k ∈ pendingWaiters q ∧ k ≠ h) as Hpf.
  { intros k. by rewrite elem_of_afilter, negb_true_iff, bool_decide_eq_false. }
  unfold settled, removed. split; cbn; try done.
  - intros k x. rewrite lookup_insert_Some. intros [[<- _]|[_ Hk]]; eauto.
  - eapply sublist_NoDup; [exact Hpn|]. apply sublist_filter_b.
  - intros k. rewrite Hpf, Hp. setoid_rewrite lookup_insert_Some. split.
    + intros [(x & Hx & Hxt) Hne]. exists x. auto.
    + intros (x & [[<- <-]|[Hne Hx]] & Hxt); [cbn in Hxt; congruence|]. split; [by exists x|done].
  - intros k [Hk Hne]%Hsp. apply Hpf. auto.
  - intros k x. rewrite lookup_insert_Some. intros [[<- <-]|[Hne Hk]].
    + destruct (terminal_live s Hs). by split_and!.
    + destruct (Hok k x Hk) as (H1 & H2 & H3). split_and!; [| |done].
      * intros Hx. apply Hsp. auto.
      * intros Hx [Hin _]%Hsp. by apply (H2 Hx).
  - intros k. rewrite !settlements_app, Hl, (settlements_one k h e (He k)).
    match goal with |- context [settlements k (if ?b then ?l else [])] =>
      rewrite (settlements_none k (if b then l else []))
        by (destruct b; [by intros x ->%list_elem_of_singleton|by intros x ?%elem_of_nil]) end.
    destruct (decide (h = k)) as [->|Hne].
    + rewrite Hh, Ht, lookup_insert_eq, bool_decide_eq_true_2 by done. cbn. by rewrite Hs.
    + rewrite lookup_insert_ne by done. rewrite bool_decide_eq_false_2 by done. lia.
Qed.

Lemma queue_ok_timed_out q h w : queue_ok q → store q !! h = Some w →
  isTerminal (w_state w) = false → queue_ok (timed_out q h w).
Proof.
  intros Hq Hh Ht. unfold timed_out. apply queue_ok_log.
  - by apply queue_ok_settled.
  - by intros k e ->%list_elem_of_singleton.
Qed.

Lemma queue_ok_enqueued now q h w reason : queue_ok q → store q !! h = Some w →
  isTerminal (w_state w) = false → queue_ok (enqueued now q h w reason).
Proof.
  intros Hq Hh Ht. unfold enqueued.
  set (w' := armed now (w <| w_reason := reason |> <| w_state := w_queued |>)).
  assert (w_state w' = w_queued) as Hs.
  { unfold w', armed. by repeat case_match. }
  assert (∀ t, w_timer w' = Some t → ∃ d, w_deadlineAt w' = Some d ∧ (d ≤ t)%Z) as Htimer.
  { intros t. unfold w', armed. cbn. destruct (w_timer w) as [t0|] eqn:E.
    - intros E'. cbn in E'. assert (t = t0) as -> by congruence. cbn.
      by apply (qo_waiter q Hq h w Hh).
    - destruct (ro_timeoutMs (w_options w)); cbn; [|by rewrite E]. intros [= <-]. eexists. split; [done|lia]. }
  assert (∀ ws, h ∈ ws → waiter_ok ws h w') as Hok.
  { intros ws Hin. split_and!; [done|by rewrite Hs|]. intros t Hw'. rewrite Hs. auto. }
  unfold Arr.includes. case_bool_decide as Hin.
  { eapply queue_ok_put; [done..| |by apply Hok]. by rewrite Hs. }
  destruct Hq as [Hf Hpn Hp Hwn Hw Hwok Hl]. split; cbn; try done.
  - intros k x. rewrite lookup_insert_Some. intros [[<- _]|[_ Hk]]; eauto.
  - intros k. rewrite Hp. setoid_rewrite lookup_insert_Some. split.
    + intros (x & Hx & Hxt). destruct (decide (k = h)) as [->|Hne];
        [exists w'; rewrite Hs; auto|exists x; auto].
    + intros (x & [[<- <-]|[_ Hx]] & Hxt); eauto.
  - apply NoDup_app. split_and!; [done| |apply NoDup_singleton].
    intros k Hk ->%list_elem_of_singleton. done.
  - intros k [Hk| ->%list_elem_of_singleton]%elem_of_app; [by apply Hw|]. apply Hp. eauto.
  - intros k x. rewrite lookup_insert_Some. intros [[<- <-]|[Hne Hk]].
    + apply Hok, elem_of_app. right. by left.
    + destruct (Hwok k x Hk) as (H1 & H2 & H3). split_and!; [| |done].
      * intros Hx. apply elem_of_app. auto.
      * intros Hx [Hi| ->%list_elem_of_singleton]%elem_of_app; [by apply (H2 Hx)|done].
  - intros k. rewrite settlements_app, Hl, (settlements_none k [_; _]), Nat.add_0_r.
    2:{ intros e [->|[->|?%elem_of_nil]%elem_of_cons]%elem_of_cons; done. }
    destruct (decide (k = h)) as [->|Hne].
    + by rewrite Hh, lookup_insert_eq, Ht, Hs.
    + by rewrite lookup_insert_ne.
Qed.

Definition new_waiter (g : string) (rq : DeviceRequest) (opt : LeaseRequestOptions)
    (i : option string) : Waiter :=
  MkWaiter (default ("req_" +:+ g) i) rq opt None w_new None None.
Lemma create_eval g rq opt i q : create g rq opt i q =
  (MkQueue (<[nextWaiter q := new_waiter g rq opt i]> (store q)) (waiters q)
     (pendingWaiters q ++ [nextWaiter q]) (S (nextWaiter q)) (q_log q), Ok (nextWaiter q)).
Proof. done. Qed.

Lemma queue_ok_create g rq opt i q : queue_ok q → queue_ok (create g rq opt i q).1.
Proof.
  intros [Hf Hpn Hp Hwn Hw Hok Hl].
  assert (store q !! nextWaiter q = None) as Hnone.
  { destruct (store q !! nextWaiter q) as [w|] eqn:E; [|done]. apply Hf in E. lia. }
  assert (nextWaiter q ∉ pendingWaiters q) as Hnp.
  { rewrite Hp. intros (w & Hw' & _). congruence. }
  rewrite create_eval. split; cbn.
  - intros k x. rewrite lookup_insert_Some. intros [[<- _]|[_ Hk%Hf]]; lia.
  - apply NoDup_app. split_and!; [done| |apply NoDup_singleton].
    intros k Hk ->%list_elem_of_singleton. done.
  - intros k. rewrite elem_of_app, list_elem_of_singleton, Hp. setoid_rewrite lookup_insert_Some.
    split.
    + intros [(x & Hx & Hxt)| ->]; [|eauto]. exists x. split; [|done]. right. split; [|done].
      intros <-. congruence.
    + intros (x & [[<- <-]|[_ Hx]] & Hxt); eauto.
  - done.
  - intros k Hk. apply elem_of_app. left. by apply Hw.
  - intros k x. rewrite lookup_insert_Some. intros [[<- <-]|[_ Hk]]; [|by apply Hok].
    split_and!; [done| |done]. intros _ Hin%Hw. done.
  - intros k. rewrite Hl. destruct (decide (k = nextWaiter q)) as [->|Hne].
    + by rewrite Hnone, lookup_insert_eq.
    + by rewrite lookup_insert_ne.
Qed.

(** Cancelling a set of live waiters rejects each of them and nothing else. *)
Lemma cancel_each_spec error hs q : queue_ok q → NoDup hs → (∀ h, h ∈ hs → h ∈ pendingWaiters q) →
  ∃ q', cancel_each error hs q = (q', Ok hs) ∧ queue_ok q'
    ∧ sublist (waiters q') (waiters q)
    ∧ (∀ h, h ∈ pendingWaiters q' ↔ h ∈ pendingWaiters q ∧ h ∉ hs)
    ∧ (∀ h, h ∈ hs → ∃ w, store q' !! h = Some w ∧ w_state w = w_rejected)
    ∧ (∀ h, h ∉ hs → store q' !! h = store q !! h)
    ∧ (∀ h w, store q !! h = Some w → ∃ w', store q' !! h = Some w'
         ∧ w_deadlineAt w' = w_deadlineAt w).
Proof.
  revert q. induction hs as [|h hs IH]; intros q Hq Hn Hp; cbn.
  { exists q. split_and!; try done; [set_solver|by intros h ?%elem_of_nil|eauto]. }
  apply NoDup_cons in Hn as [Hh Hn].
  destruct (proj1 (qo_pending q Hq h) (Hp h (list_elem_of_here _ _))) as (w & Hw & Ht).
  set (q1 := settled q h w w_rejected (Rejected h (error w))).
  assert (queue_ok q1) as Hq1 by (by apply queue_ok_settled).
  assert (∀ k, k ∈ pendingWaiters q1 ↔ k ∈ pendingWaiters q ∧ k ≠ h) as Hp1.
  { intros k. unfold q1, settled, removed. cbn.
    by rewrite elem_of_afilter, negb_true_iff, bool_decide_eq_false. }
  destruct (IH q1 Hq1 Hn) as (q' & Hrun & Hq' & Hsub & Hpend & Hrej & Hoth & Hdl).
  { intros k Hk. apply Hp1. split; [apply Hp; by right|]. by intros ->. }
  exists q'. split_and!; try done.
  - rewrite (bind_eval _ _ _ _ _ (mutable_Some q h w Hw)).
    assert (reject h (error w) q = (q1, Ok true)) as Hr by (by rewrite reject_eval, Hw, Ht).
    rewrite (bind_eval _ _ _ _ _ Hr). by rewrite (bind_eval _ _ _ _ _ Hrun).
  - etrans; [exact Hsub|]. unfold q1, settled, removed, spliced. cbn.
    destruct (Arr.findIndex _ _); [apply sublist_delete|done].
  - intros k. rewrite Hpend, Hp1, not_elem_of_cons. tauto.
  - intros k [->|Hk]%elem_of_cons; [|by apply Hrej]. rewrite (Hoth h Hh). unfold q1, settled, removed.
    cbn. rewrite lookup_insert_eq. eauto.
  - intros k [Hne Hk]%not_elem_of_cons. rewrite (Hoth k Hk). unfold q1, settled, removed. cbn.
    by rewrite lookup_insert_ne.
  - intros k x Hx. destruct (decide (k = h)) as [->|Hne].
    + destruct (Hdl h (w <| w_timer := None |> <| w_state := w_rejected |>)) as (w' & ? & Hd).
      { apply lookup_insert_eq. }
      simplify_eq. eauto.
    + apply Hdl. unfold q1, settled, removed. cbn. by rewrite lookup_insert_ne.
Qed.

(** One operation on the queue, or the firing of a pending timer. *)
Inductive queue_step (now : Z) (q : WaitQueue) : WaitQueue → Prop :=
| step_create g rq opt i : queue_step now q (create g rq opt i q).1
| step_enqueue h reason : queue_step now q (enqueue now h reason q).1
| step_markProcessing h : queue_step now q (markProcessing now h q).1
| step_markNew h : queue_step now q (markNew h q).1
| step_notify h p : queue_step now q (notifyProgress h p q).1
| step_resolve h g : queue_step now q (resolve h g q).1
| step_reject h e : queue_step now q (reject h e q).1
| step_cancelAll error : queue_step now q (cancelAll error q).1
| step_fire h w t : store q !! h = Some w → w_timer w = Some t → queue_step now q (fire h q).1.

Inductive queue_reachable : WaitQueue → Prop :=
| queue_start : queue_reachable empty_queue
| queue_next q now q' : queue_reachable q → queue_step now q q' → queue_reachable q'.

(** What any step does to the waiters there were: the deadline stays, a settled state stays, and
    the line keeps its order, gaining at most one newcomer at its end. *)
Record step_keeps (q q' : WaitQueue) : Prop := {
  sk_deadline h w d : store q !! h = Some w → w_deadlineAt w = Some d →
    ∃ w', store q' !! h = Some w' ∧ w_deadlineAt w' = Some d;
  sk_terminal h w : store q !! h = Some w → isTerminal (w_state w) = true →
    ∃ w', store q' !! h = Some w' ∧ w_state w' = w_state w;
  sk_line : sublist (waiters q') (waiters q)
    ∨ ∃ h, (h ∉ waiters q) ∧ waiters q' = waiters q ++ [h] }.

Lemma step_keeps_refl q : step_keeps q q.
Proof. split; eauto. Qed.

(** A change of one live waiter that keeps its deadline. *)
Lemma step_keeps_put q q' h w w' : store q !! h = Some w → isTerminal (w_state w) = false →
  (∀ d, w_deadlineAt w = Some d → w_deadlineAt w' = Some d) → store q' = <[h := w']> (store q) →
  (sublist (waiters q') (waiters q) ∨ ∃ h, (h ∉ waiters q) ∧ waiters q' = waiters q ++ [h]) →
  step_keeps q q'.
Proof.
  intros Hw Ht Hd Hst Hl. split; [| |done]; intros k x; rewrite Hst.
  - intros d Hk Hdx. destruct (decide (k = h)) as [->|Hne].
    + rewrite lookup_insert_eq. simplify_eq. eauto.
    + rewrite lookup_insert_ne by done. eauto.
  - intros Hk Htx. destruct (decide (k = h)) as [->|Hne]; [congruence|].
    rewrite lookup_insert_ne by done. eauto.
Qed.

Lemma sublist_spliced h l : sublist (spliced h l) l.
Proof. unfold spliced. destruct (Arr.findIndex _ _); [apply sublist_delete|done]. Qed.

Lemma step_keeps_settled q h w s e : store q !! h = Some w → isTerminal (w_state w) = false →
  step_keeps q (settled q h w s e).
Proof.
  intros Hw Ht. eapply step_keeps_put; [done..| |done|]; [done|]. left. apply sublist_spliced.
Qed.
Lemma step_keeps_timed_out q h w : store q !! h = Some w → isTerminal (w_state w) = false →
  step_keeps q (timed_out q h w).
Proof.
  intros Hw Ht. eapply step_keeps_put; [done..| |done|]; [done|]. left. apply sublist_spliced.
Qed.
Lemma step_keeps_enqueued now q h w reason : store q !! h = Some w → isTerminal (w_state w) = false →
  step_keeps q (enqueued now q h w reason).
Proof.
  intros Hw Ht.
  assert (∀ x d, w_deadlineAt x = Some d → w_deadlineAt (armed now x) = Some d) as Harm.
  { intros x d Hd. unfold armed. repeat case_match; [done..|by rewrite Hd|done]. }
  unfold enqueued, Arr.includes. case_bool_decide as Hin.
  - eapply step_keeps_put; [done..| |done|by left]. intros d Hd. by apply Harm.
  - eapply step_keeps_put; [done..| |done|right; eauto]. intros d Hd. by apply Harm.
Qed.

Lemma queue_step_spec now q q' : queue_ok q → queue_step now q q' → queue_ok q' ∧ step_keeps q q'.
Proof.
  intros Hq. destruct 1 as [g rq opt i|h reason|h|h|h p|h g|h e|error|h w t Hw Htimer].
  - split; [by apply queue_ok_create|]. rewrite create_eval.
    assert (store q !! nextWaiter q = None) as Hnone.
    { destruct (store q !! nextWaiter q) as [x|] eqn:E; [|done]. apply (qo_fresh q Hq) in E. lia. }
    split; cbn; [| |by left]; intros h w; intros; (exists w; rewrite lookup_insert_ne by congruence; auto).
  - rewrite enqueue_eval. destruct (store q !! h) as [w|] eqn:Hw; [|by auto using step_keeps_refl].
    destruct (isTerminal (w_state w)) eqn:Ht; [by auto using step_keeps_refl|].
    destruct (past_deadline now w); cbn [fst].
    + auto using queue_ok_timed_out, step_keeps_timed_out.
    + auto using queue_ok_enqueued, step_keeps_enqueued.
  - rewrite markProcessing_eval. destruct (store q !! h) as [w|] eqn:Hw; [|by auto using step_keeps_refl].
    destruct (isTerminal (w_state w)) eqn:Ht; [by auto using step_keeps_refl|].
    destruct (past_deadline now w); cbn [fst].
    { auto using queue_ok_timed_out, step_keeps_timed_out. }
    split; [|by eapply (step_keeps_put q _ h w); [done|done| |reflexivity|by left]].
    eapply queue_ok_put; [done..|]. destruct (qo_waiter q Hq h w Hw) as (_ & _ & Htm).
    split_and!; [done..|]. intros t Ht'. split; [done|]. by apply Htm.
  - rewrite markNew_eval. destruct (store q !! h) as [w|] eqn:Hw; [|by auto using step_keeps_refl].
    destruct (isTerminal (w_state w)) eqn:Ht; [by auto using step_keeps_refl|]. cbn [fst].
    split; [|by eapply (step_keeps_put q _ h w); [done|done| |reflexivity|by left]].
    destruct (qo_waiter q Hq h w Hw) as (_ & _ & Htm). unfold Arr.includes.
    eapply queue_ok_put; [done..| |]; case_bool_decide; try done;
      (split_and!; [done..|]; intros t Ht'; split; [done|]; by apply Htm).
  - unfold notifyProgress. destruct (store q !! h) as [w|] eqn:Hw.
    + rewrite (bind_eval _ _ _ _ _ (mutable_Some q h w Hw)).
      destruct (isTerminal (w_state w)); [by auto using step_keeps_refl|]. cbn [fst note modify].
      split; [apply queue_ok_log; [done|by intros k e ->%list_elem_of_singleton]|]. split; eauto.
    + unfold mbind, action_bind. rewrite (mutable_None q h Hw). by auto using step_keeps_refl.
  - rewrite resolve_eval. destruct (store q !! h) as [w|] eqn:Hw; [|by auto using step_keeps_refl].
    destruct (isTerminal (w_state w)) eqn:Ht; [by auto using step_keeps_refl|]. cbn [fst].
    split; [by apply queue_ok_settled|by apply step_keeps_settled].
  - rewrite reject_eval. destruct (store q !! h) as [w|] eqn:Hw; [|by auto using step_keeps_refl].
    destruct (isTerminal (w_state w)) eqn:Ht; [by auto using step_keeps_refl|]. cbn [fst].
    split; [by apply queue_ok_settled|by apply step_keeps_settled].
  - destruct (cancel_each_spec error (pendingWaiters q) q Hq (qo_pending_nd q Hq))
      as (q' & Hrun & Hq' & Hsub & Hpend & Hrej & Hoth & Hdl); [done|].
    unfold cancelAll. rewrite (bind_eval get _ q q q) by done. rewrite Hrun. cbn [fst].
    split; [done|]. split; [| |by left].
    + intros h w d Hw Hd. destruct (Hdl h w Hw) as (w' & ? & ?). exists w'. split; [done|congruence].
    + intros h w Hw Ht. exists w. split; [|done]. rewrite Hoth; [done|]. rewrite (qo_pending q Hq).
      intros (x & Hx & Hxt). congruence.
  - rewrite fire_eval, Hw. cbv zeta. set (w' := w <| w_timer := None |>).
    destruct (qo_waiter q Hq h w Hw) as (H1 & H2 & Htm). destruct (Htm t Htimer) as [Ht _].
    assert (queue_ok (q <| store := <[h := w']> (store q) |>)) as Hq'.
    { eapply queue_ok_put; [done..|]. by split_and!. }
    case_bool_decide as Hs; cbn [fst].
    + split; [apply queue_ok_timed_out; [done|apply lookup_insert_eq|done]|].
      eapply (step_keeps_put q _ h w); [done..| | |].
      2:{ unfold timed_out, settled, removed. cbn. by rewrite insert_insert_eq. }
      * done.
      * left. apply sublist_spliced.
    + split; [done|]. by eapply (step_keeps_put q _ h w); [done|done| |reflexivity|by left].
Qed.

Lemma empty_queue_ok : queue_ok empty_queue.
Proof.
  split; cbn; try (by intros h w; rewrite lookup_empty); try apply NoDup_nil_2.
  - intros h. setoid_rewrite lookup_empty. split; [by intros ?%elem_of_nil|naive_solver].
  - by intros h ?%elem_of_nil.
  - intros h. by rewrite lookup_empty.
Qed.
Lemma queue_reachable_ok q : queue_reachable q → queue_ok q.
Proof.
  induction 1 as [|q now q' _ IH Hs]; [apply empty_queue_ok|]. by eapply queue_step_spec.
Qed.

(** ** Properties *)

Lemma earliest_fold l acc : match foldl earlier acc l with
  | None => acc = None ∧ l = []
  | Some e => (Some e = acc ∨ e ∈ l) ∧ (∀ a, acc = Some a → (h_grantedAt e ≤ h_grantedAt a)%Z)
      ∧ ∀ x, x ∈ l → (h_grantedAt e ≤ h_grantedAt x)%Z
  end.
Proof.
  revert acc. induction l as [|y l IH]; intros acc; cbn.
  { destruct acc as [a|]; [|done]. split_and!; [by left| |by intros x ?%elem_of_nil].
    intros ? [= <-]. lia. }
  specialize (IH (earlier acc y)). destruct (foldl earlier _ l) as [e|].
  - destruct IH as (Hin & Hacc & Hl). unfold earlier in Hin, Hacc. destruct acc as [a|].
    + destruct (Z.ltb_spec (h_grantedAt y) (h_grantedAt a)).
      * specialize (Hacc y eq_refl). split_and!.
        -- right. destruct Hin as [[= ->]|]; [by left|by right].
        -- intros ? [= <-]. lia.
        -- intros x [->|Hx]%elem_of_cons; [done|by apply Hl].
      * specialize (Hacc a eq_refl). split_and!.
        -- destruct Hin as [->|]; [by left|right; by right].
        -- by intros ? [= <-].
        -- intros x [->|Hx]%elem_of_cons; [lia|by apply Hl].
    + specialize (Hacc y eq_refl). split_and!; [|done|].
      * right. destruct Hin as [[= ->]|]; [by left|by right].
      * intros x [->|Hx]%elem_of_cons; [done|by apply Hl].
  - destruct IH as [H _]. unfold earlier in H. destruct acc; [by destruct (_ <? _)%Z|done].
Qed.

(** A requester is admitted exactly while it is under its limit. With one number (1 when none
    is configured) a request is admitted if no request of the platform waits and, unless it is a
    probe, leases and waiting requests together are below it; with a number per platform, if none
    of the platform waits and, unless it is a probe, the leases of that platform (and of no known
    one) are below it. A refusal names the limit, the count and the lease granted first among those
    counted. *)
Theorem requester_limit_spec input :
  let p := li_platform input in
  let free := p ∉ li_waiting input in
  let counted :=
    match li_maxPerRequester input with
    | None | Some (MaxNumber _) => li_held input
    | Some (MaxByPlatform _ _) =>
        Arr.filter (λ l, (h_platform l === None) || (h_platform l === Some p)) (li_held input)
    end in
  let limit :=
    match li_maxPerRequester input with
    | None => 1%Z
    | Some (MaxNumber n) => n
    | Some (MaxByPlatform a b) => default 1%Z (max_for a b p)
    end in
  let taken :=
    match li_maxPerRequester input with
    | None | Some (MaxNumber _) => length counted + length (li_waiting input)
    | Some (MaxByPlatform _ _) => length counted
    end in
  match requesterLimitDecision input with
  | None => free ∧ (li_probe input = true ∨ (Z.of_nat taken < limit)%Z)
  | Some e => ¬ (free ∧ (li_probe input = true ∨ (Z.of_nat taken < limit)%Z))
      ∧ lc_limit (al_context e) = limit ∧ lc_held (al_context e) = Z.of_nat (length counted)
      ∧ match al_existingLeaseId e with
        | None => counted = []
        | Some i => ∃ l, l ∈ counted ∧ h_id l = i
            ∧ ∀ x, x ∈ counted → (h_grantedAt l ≤ h_grantedAt x)%Z
        end
  end.
Proof.
  intros p free counted limit taken.
  assert (∀ counted : list HeldLease, match h_id <$> earliestGranted counted with
    | None => counted = []
    | Some i => ∃ l, l ∈ counted ∧ h_id l = i ∧ ∀ x, x ∈ counted → (h_grantedAt l ≤ h_grantedAt x)%Z
    end) as Hearly.
  { clear. intros l. pose proof (earliest_fold l None) as H. unfold earliestGranted.
    destruct (foldl earlier None l) as [e|]; cbn; [|by destruct H].
    destruct H as ([?|He] & _ & Hmin); [done|]. eauto. }
  unfold requesterLimitDecision, Arr.includes.
  destruct (li_maxPerRequester input) as [[n|a b]|]; cbn [from_option Datatypes.id];
    unfold free, taken, counted, limit, p; clear free taken counted limit;
    (case_bool_decide as Hw; cbn [negb andb];
      [split_and!; [tauto|done|done|apply Hearly]|]);
    destruct (li_probe input); cbn [negb andb]; try (by auto);
    match goal with |- context [(?a <=? ?b)%Z] => destruct (Z.leb_spec a b) as [Hle|Hgt] end;
    cbn [negb];
    try (split; [done|]; right; lia);
    (split_and!; [|done|done|apply Hearly]; intros [_ [?|?]]; [done|lia]).
Qed.

(** C16. Every promise is settled once, and the books agree. In any run of the queue (with timers
    firing late or early): the pending waiters are exactly those not yet granted or rejected, each
    once; the waiters in line are among them; each waiter's promise was settled exactly once if its
    state is final and not at all otherwise; a final state never changes again; and no timer is
    left armed for a settled waiter. *)
Theorem wait_queue_settles_once q now q' : queue_reachable q → queue_step now q q' →
  (NoDup (pendingWaiters q) ∧ NoDup (waiters q))
  ∧ (∀ h, h ∈ pendingWaiters q ↔ ∃ w, store q !! h = Some w ∧ isTerminal (w_state w) = false)
  ∧ (∀ h, h ∈ waiters q → h ∈ pendingWaiters q)
  ∧ (∀ h w, store q !! h = Some w →
       settlements h (q_log q) = (if isTerminal (w_state w) then 1 else 0)
       ∧ (isTerminal (w_state w) = true → w_timer w = None
          ∧ ∃ w', store q' !! h = Some w' ∧ w_state w' = w_state w)).
Proof.
  intros Hre Hs. pose proof (queue_reachable_ok q Hre) as Hq.
  destruct (queue_step_spec now q q' Hq Hs) as [_ [_ Hterm _]].
  destruct Hq as [_ Hpn Hp Hwn Hw Hok Hl]. split; [done|]. split_and!; [done..|].
  intros h w Hh. rewrite Hl, Hh. split; [done|]. intros Ht. split; [|by eapply Hterm].
  destruct (w_timer w) as [t|] eqn:E; [|done]. destruct (Hok h w Hh) as (_ & _ & Htm).
  destruct (Htm t E). congruence.
Qed.

Definition sample_wait (timeout : option Z) : LeaseRequestOptions :=
  MkRequestOptions "agent" "owner" timeout false None None None None None.
Definition sample_rq : DeviceRequest := MkRequest ios None None None None None None None None.
(** One waiter, created and queued at time 5. *)
Definition sample_queue : WaitQueue :=
  (enqueue 5 0 None (create "1" sample_rq (sample_wait (Some 100%Z)) None empty_queue).1).1.
Lemma sample_queue_reachable : queue_reachable sample_queue.
Proof.
  eapply queue_next; [|apply (step_enqueue 5)]. eapply queue_next; [apply queue_start|].
  apply (step_create 0).
Qed.

Lemma wait_queue_settles_once_witness :
  waiters sample_queue = [0] ∧ ∀ h, h ∈ waiters sample_queue → h ∈ pendingWaiters sample_queue.
Proof.
  split; [vm_compute; reflexivity|].
  apply (wait_queue_settles_once sample_queue 105 (fire 0 sample_queue).1 sample_queue_reachable).
  eapply (step_fire _ _ 0); vm_compute; reflexivity.
Defined.

(** No overtaking: whatever happens to the queue, the waiters that stay in line keep their
    order, and at most one newcomer joins, at the end; queueing again a waiter that is already in
    line leaves the line exactly as it was. *)
Theorem wait_queue_fifo q now q' : queue_reachable q → queue_step now q q' →
  (sublist (waiters q') (waiters q) ∨ ∃ h, (h ∉ waiters q) ∧ waiters q' = waiters q ++ [h])
  ∧ ∀ h w reason, store q !! h = Some w → past_deadline now w = false → h ∈ waiters q →
      waiters (enqueue now h reason q).1 = waiters q.
Proof.
  intros Hre Hs. pose proof (queue_reachable_ok q Hre) as Hq.
  destruct (queue_step_spec now q q' Hq Hs) as [_ [_ _ Hline]]. split; [done|].
  intros h w reason Hw Hp Hin. rewrite enqueue_eval, Hw, Hp.
  destruct (isTerminal (w_state w)); [done|]. cbn [fst]. unfold enqueued, Arr.includes.
  by rewrite bool_decide_eq_true_2.
Qed.

Lemma wait_queue_fifo_witness :
  waiters (enqueue 6 0 None sample_queue).1 = waiters sample_queue.
Proof.
  apply (proj2 (wait_queue_fifo sample_queue 6 (enqueue 6 0 None sample_queue).1
    sample_queue_reachable (step_enqueue 6 sample_queue 0 None)) 0
    (MkWaiter "req_1" sample_rq (sample_wait (Some 100%Z)) None w_queued (Some 105%Z) (Some 105%Z))).
  - vm_compute. reflexivity.
  - vm_compute. reflexivity.
  - apply list_elem_of_here.
Defined.

(** The deadline is fixed once and ends the wait. Queueing a live waiter for the first time with
    a budget sets its deadline to that budget from now, with a timer for it; no step ever moves it;
    from the deadline on, neither queueing nor processing takes the waiter any further: it is
    rejected with a timeout, reported once; and its timer ends the wait of a waiter in line but not
    an attempt in progress. *)
Theorem wait_deadline_fixed q now h w : queue_reachable q → store q !! h = Some w →
  isTerminal (w_state w) = false →
  (∀ ms reason, ro_timeoutMs (w_options w) = Some ms → w_deadlineAt w = None →
     ∃ w', store (enqueue now h reason q).1 !! h = Some w'
       ∧ w_deadlineAt w' = Some (now + ms)%Z ∧ w_timer w' = Some (Z.max now (now + ms)))
  ∧ (∀ d q', w_deadlineAt w = Some d → queue_step now q q' →
       ∃ w', store q' !! h = Some w' ∧ w_deadlineAt w' = Some d)
  ∧ (∀ d reason, w_deadlineAt w = Some d → (d ≤ now)%Z →
       enqueue now h reason q = (timed_out q h w, Ok false)
       ∧ markProcessing now h q = (timed_out q h w, Ok false))
  ∧ (∀ t, w_timer w = Some t →
       match w_state w with
       | w_queued => ∃ w', store (fire h q).1 !! h = Some w' ∧ w_state w' = w_rejected
       | s => ∃ w', store (fire h q).1 !! h = Some w' ∧ w_state w' = s ∧ w_timer w' = None
       end).
Proof.
  intros Hre Hw Ht. pose proof (queue_reachable_ok q Hre) as Hq. split_and!.
  - intros ms reason Hms Hd. rewrite enqueue_eval, Hw, Ht. unfold past_deadline. rewrite Hd. cbn [fst].
    exists (armed now (w <| w_reason := reason |> <| w_state := w_queued |>)). split.
    + unfold enqueued. destruct (Arr.includes _ _); apply lookup_insert_eq.
    + unfold armed. cbn. rewrite Hms, Hd. destruct (w_timer w) as [t|] eqn:E; [|done].
      destruct (qo_waiter q Hq h w Hw) as (_ & _ & Htm). destruct (Htm t E) as (_ & d & ? & _).
      congruence.
  - intros d q' Hd Hs. destruct (queue_step_spec now q q' Hq Hs) as [_ [Hdl _ _]]. by eapply Hdl.
  - intros d reason Hd Hle. rewrite enqueue_eval, markProcessing_eval, Hw, Ht.
    unfold past_deadline. rewrite Hd, (proj2 (Z.leb_le d now) Hle). done.
  - intros t Htm. rewrite fire_eval, Hw. cbv zeta. destruct (w_state w) eqn:Es; try done; js_eval; cbn.
    + eexists. rewrite lookup_insert_eq. split; [done|]. cbn. done.
    + eexists. rewrite lookup_insert_eq. done.
    + eexists. rewrite lookup_insert_eq. split; [done|]. cbn. done.
Qed.

Lemma wait_deadline_fixed_witness :
  enqueue 105 0 None sample_queue = (timed_out sample_queue 0
    (MkWaiter "req_1" sample_rq (sample_wait (Some 100%Z)) None w_queued (Some 105%Z) (Some 105%Z)),
    Ok false).
Proof.
  apply (wait_deadline_fixed sample_queue 105 0
    (MkWaiter "req_1" sample_rq (sample_wait (Some 100%Z)) None w_queued (Some 105%Z) (Some 105%Z))
    sample_queue_reachable) with (d := 105%Z).
  - vm_compute. reflexivity.
  - vm_compute. reflexivity.
  - exact None.
  - reflexivity.
  - lia.
Defined.

(** Cancelling everything leaves nobody waiting: [cancelAll] answers every pending waiter, in the
    order they were created, each is rejected, the line and the pending set are empty afterwards,
    and waiters that were settled before are not touched. *)
Theorem cancel_all_rejects_everyone q error : queue_reachable q →
  let '(q', answer) := cancelAll error q in
  answer = Ok (pendingWaiters q) ∧ waiters q' = [] ∧ pendingWaiters q' = []
  ∧ (∀ h, h ∈ pendingWaiters q → ∃ w, store q' !! h = Some w ∧ w_state w = w_rejected)
  ∧ (∀ h, h ∉ pendingWaiters q → store q' !! h = store q !! h).
Proof.
  intros Hre. pose proof (queue_reachable_ok q Hre) as Hq.
  destruct (cancel_each_spec error (pendingWaiters q) q Hq (qo_pending_nd q Hq))
    as (q' & Hrun & Hq' & _ & Hpend & Hrej & Hoth & _); [done|].
  unfold cancelAll. rewrite (bind_eval get _ q q q) by done. rewrite Hrun.
  assert (pendingWaiters q' = []) as Hnil.
  { destruct (pendingWaiters q') as [|h l] eqn:E; [done|]. exfalso.
    destruct (proj1 (Hpend h)) as [? []]; [|done]. by left. }
  split_and!; try done. destruct (waiters q') as [|h l] eqn:E; [done|].
  pose proof (qo_waiters q' Hq' h) as Hin. rewrite E, Hnil in Hin.
  by destruct (proj1 (elem_of_nil h)); apply Hin; left.
Qed.

Lemma cancel_all_rejects_everyone_witness :
  let '(q', answer) := cancelAll (λ w, RequestCancelledError (w_id w)) sample_queue in
  answer = Ok (pendingWaiters sample_queue) ∧ waiters q' = [] ∧ pendingWaiters q' = []
  ∧ (∀ h, h ∈ pendingWaiters sample_queue →
       ∃ w, store q' !! h = Some w ∧ w_state w = w_rejected)
  ∧ (∀ h, h ∉ pendingWaiters sample_queue → store q' !! h = store sample_queue !! h).
Proof. apply (cancel_all_rejects_everyone sample_queue _ sample_queue_reachable). Defined.
