(* ===== verification/Renewal.v ===== *)
(** * Lease renewal by a holder: [src/lease-policy/index.ts]

    The loop that keeps a lease alive from the client side. It is asynchronous: a timer starts an
    attempt, the attempt races the daemon's answer against a timer of its own, an abandoned request
    may still answer later, and the holder may stop the loop at any moment, also from inside a
    callback. The closure's variables are the record [Renewal]; each stretch of code that runs
    without giving way is one function on it, and [renewal_step] interleaves them. *)
From stdpp Require Import base strings pretty list option numbers gmap sorting.
From S2P Require Import Prelude.

(** ** Data *)

Definition RENEW_DIVISOR : Z := 3.
Definition MINIMUM_RENEW_DELAY_MS : Z := 250.
Definition MAXIMUM_RENEW_DELAY_MS : Z := 2147483647.

Record RenewedLease := MkRenewed { rl_ttlMs : option Z; rl_ttlDeadline : Z }.
Inductive LeaseGoneReason := renew_rejected | renew_failed.
Inductive RenewError := SimlockError (code : string) | PlainError (message : string).

Definition isLeaseGone (error : RenewError) : bool :=
  match error with
  | SimlockError code => (code === "UNKNOWN_LEASE") || (code === "FORBIDDEN")
  | PlainError _ => false
  end.

Definition renewDelayMs (remainingMs : Z) (ttlMs : option Z) : Z :=
  let fromWidth := match ttlMs with None => remainingMs | Some t => Z.min t remainingMs end in
  let delay := Z.max MINIMUM_RENEW_DELAY_MS (fromWidth / RENEW_DIVISOR) in
  Z.min MAXIMUM_RENEW_DELAY_MS delay.

(** What an attempt ends in: [ok], or the error it failed with. *)
Abbreviation Attempt := (result RenewError RenewedLease).

(** The promise of one request: not sent yet, sent, or settled. *)
Inductive Request := Unsent | Sent | Answered (answer : Attempt).

Inductive RenewalTimer := WaitTimer | AttemptTimer.

(** The calls the loop makes, in order: [renew] and the holder's callbacks. *)
Inductive RenewalCall :=
| Renew (attemptId : nat)
| OnRenewed (attemptId : nat) (renewed : RenewedLease)
| OnError (error : RenewError)
| OnLeaseGone (reason : LeaseGoneReason) (error : RenewError).

(** [tick] is the attempt the loop is waiting on and what its race has ended in, if it has. *)
Record Renewal := MkRenewal {
  deadline : Z; width : option Z; timer : option (RenewalTimer * Z); stopped : bool;
  attempts : nat; newestAnswered : nat;
  requests : gmap nat Request; tick : option (nat * option Attempt); calls : list RenewalCall }.
#[global] Instance Renewal_eta : Eta Renewal := λ s,
  MkRenewal (deadline s) (width s) (timer s) (stopped s) (attempts s) (newestAnswered s)
    (requests s) (tick s) (calls s).

(** A callback given in the options, told by the calls so far whether it calls [stop]. *)
Abbreviation Callback := (list RenewalCall → bool).
Record LeaseRenewalOptions := MkRenewalOptions {
  rn_leaseId : string; rn_ttlDeadline : Z; rn_ttlMs : option Z;
  rn_onRenewed : option Callback; rn_onError : option Callback; rn_onLeaseGone : option Callback }.

(** ** Operations *)

Section renewal.
Variable options : LeaseRenewalOptions.
Implicit Types (s : Renewal) (now : Z).

Definition cancelTimer s : Renewal := s <| timer := None |>.

Definition stop s : Renewal := cancelTimer (s <| stopped := true |>).

(** Calls a callback that may be missing; it may stop the loop, and what it throws is swallowed. *)
Definition call (callback : option Callback) (c : RenewalCall) s : Renewal :=
  match callback with
  | None => s
  | Some stops =>
      let s := s <| calls := calls s ++ [c] |> in
      if stops (calls s) then stop s else s
  end.

Definition report (error : RenewError) s : Renewal := call (rn_onError options) (OnError error) s.

Definition giveUp (reason : LeaseGoneReason) (error : RenewError) s : Renewal :=
  if stopped s then s
  else call (rn_onLeaseGone options) (OnLeaseGone reason error) (cancelTimer (s <| stopped := true |>)).

Definition adoptDeadline (attemptId : nat) (renewed : RenewedLease) s : Renewal :=
  call (rn_onRenewed options) (OnRenewed attemptId renewed)
    (s <| deadline := rl_ttlDeadline renewed |> <| width := rl_ttlMs renewed |>).

Definition schedule now s : Renewal :=
  if stopped s then s
  else s <| timer := Some (WaitTimer, now + renewDelayMs (deadline s - now) (width s))%Z |>.

(** [attemptRenew] up to its first wait: the request is made and its bound is armed. *)
Definition attemptRenew now s : Renewal :=
  let attemptId := S (attempts s) in
  s <| attempts := attemptId |>
    <| requests := <[attemptId := Unsent]> (requests s) |>
    <| tick := Some (attemptId, None) |>
    <| timer := Some (AttemptTimer, now + renewDelayMs (deadline s - now) (width s))%Z |>.

(** The timer of [schedule] fires: [tick] runs up to its [await]. *)
Definition wait_over now s : Renewal :=
  let s := cancelTimer s in if stopped s then s else attemptRenew now s.

(** The first to settle wins the race of the current attempt. *)
Definition race (attemptId : nat) (a : Attempt) s : Renewal :=
  match tick s with
  | Some (current, None) =>
      if current === attemptId then s <| tick := Some (current, Some a) |> else s
  | _ => s
  end.

(** The request's promise settles: an answer is adopted when it is the newest, and races. *)
Definition request_settled (attemptId : nat) (a : Attempt) s : Renewal :=
  let s := s <| requests := <[attemptId := Answered a]> (requests s) |> in
  let s := match a with
    | Ok renewed =>
        if stopped s || (attemptId <=? newestAnswered s) then s
        else adoptDeadline attemptId renewed (s <| newestAnswered := attemptId |>)
    | Err _ => s
    end in
  race attemptId a s.

(** The request goes out, unless the loop was stopped in between. *)
Definition send (attemptId : nat) s : Renewal :=
  if stopped s then
    request_settled attemptId (Err (PlainError
      ("Renewal of lease " +:+ rn_leaseId options +:+ " was stopped before it was sent"))) s
  else s <| requests := <[attemptId := Sent]> (requests s) |>
         <| calls := calls s ++ [Renew attemptId] |>.

(** The bound of the attempt fires. *)
Definition attempt_timed_out (attemptId : nat) s : Renewal :=
  race attemptId (Err (PlainError ("Timed out renewing lease " +:+ rn_leaseId options)))
    (cancelTimer s).

(** [tick] from its [await] on. *)
Definition tick_resumed now (attemptId : nat) (attempt : Attempt) s : Renewal :=
  let s := cancelTimer (s <| tick := None |>) in
  if stopped s then s else
  match attempt with
  | Err error =>
      if isLeaseGone error then giveUp renew_rejected error s
      else
        let s := report error s in
        if (deadline s <=? now)%Z then
          giveUp renew_failed (PlainError
            ("Gave up renewing lease " +:+ rn_leaseId options +:+ ": its deadline has passed")) s
        else schedule now s
  | Ok renewed =>
      let s := if newestAnswered s <? attemptId
               then adoptDeadline attemptId renewed (s <| newestAnswered := attemptId |>) else s in
      if (rl_ttlDeadline renewed <=? now)%Z then
        giveUp renew_failed (PlainError
          ("Lease " +:+ rn_leaseId options +:+ " was renewed to a deadline that has already passed")) s
      else schedule now s
  end.

Definition startLeaseRenewal now : Renewal :=
  schedule now (MkRenewal (rn_ttlDeadline options) (rn_ttlMs options) None false 0 0 ∅ None []).

(** One uninterrupted stretch. Timers may fire late or early, requests answer in any order or
    never, and the holder may stop at any point. *)
Inductive renewal_step now s : Renewal → Prop :=
| step_wait_over at_ : timer s = Some (WaitTimer, at_) → renewal_step now s (wait_over now s)
| step_send i : requests s !! i = Some Unsent → renewal_step now s (send i s)
| step_answer i a : requests s !! i = Some Sent → renewal_step now s (request_settled i a s)
| step_timed_out at_ i o : timer s = Some (AttemptTimer, at_) → tick s = Some (i, o) →
    renewal_step now s (attempt_timed_out i s)
| step_resume i a : tick s = Some (i, Some a) → renewal_step now s (tick_resumed now i a s)
| step_stop : renewal_step now s (stop s).

(** Runs begun at [start] in which the wait between attempts is never cut short. *)
Inductive renewal_on_time (start : Z) : Z → Renewal → Prop :=
| on_time_start : renewal_on_time start start (startLeaseRenewal start)
| on_time_next now now' s s' : renewal_on_time start now s → (now ≤ now')%Z → renewal_step now' s s' →
    (∀ at_, timer s = Some (WaitTimer, at_) → attempts s' ≠ attempts s → (at_ ≤ now')%Z) →
    renewal_on_time start now' s'.

Inductive renewal_reachable : Z → Renewal → Prop :=
| renewal_start now : renewal_reachable now (startLeaseRenewal now)
| renewal_next now now' s s' : renewal_reachable now s → (now ≤ now')%Z → renewal_step now' s s' →
    renewal_reachable now' s'.
End renewal.

(** ** Invariant *)

(** The attempts whose answers were reported, in order. *)
Definition reported (cs : list RenewalCall) : list nat :=
  omap (λ c, match c with OnRenewed i _ => Some i | _ => None end) cs.
Definition is_gone (c : RenewalCall) : bool := match c with OnLeaseGone _ _ => true | _ => false end.

(** What the loop believes is the newest answer, or what it started with. *)
Definition believes (options : LeaseRenewalOptions) (s : Renewal) : Prop :=
  (∀ i r, requests s !! i = Some (Answered (Ok r)) → i ≤ newestAnswered s)
  ∧ match newestAnswered s with
    | 0 => deadline s = rn_ttlDeadline options ∧ width s = rn_ttlMs options
    | n => ∃ r, requests s !! n = Some (Answered (Ok r))
        ∧ deadline s = rl_ttlDeadline r ∧ width s = rl_ttlMs r
    end.

(** Why the loop gave up. *)
Definition justified (now : Z) (s : Renewal) (c : RenewalCall) : Prop :=
  match c with
  | OnLeaseGone renew_failed _ => (deadline s ≤ now)%Z
  | OnLeaseGone renew_rejected e =>
      isLeaseGone e = true ∧ ∃ i, requests s !! i = Some (Answered (Err e))
  | _ => True
  end.

Definition armed_at (now : Z) (at_ : Z) : Prop :=
  ∃ t, (t ≤ now)%Z ∧ (t + MINIMUM_RENEW_DELAY_MS ≤ at_ ≤ t + MAXIMUM_RENEW_DELAY_MS)%Z.

(** The state of an attempt's race against its request. *)
Definition race_agrees (rqs : gmap nat Request) (i : nat) (o : option Attempt) : Prop :=
  match o with
  | None => rqs !! i = Some Unsent ∨ rqs !! i = Some Sent
  | Some (Ok r) => rqs !! i = Some (Answered (Ok r))
  | Some (Err e) => isLeaseGone e = true → rqs !! i = Some (Answered (Err e))
  end.

Record renewal_ok (options : LeaseRenewalOptions) (now : Z) (s : Renewal) : Prop := {
  rn_quiet : stopped s = true → timer s = None;
  rn_requests i r : requests s !! i = Some r → 0 < i ≤ attempts s;
  rn_believes : stopped s = false → believes options s;
  rn_tick i o : tick s = Some (i, o) → i = attempts s
    ∧ race_agrees (requests s) i o;
  rn_timer k at_ : timer s = Some (k, at_) → armed_at now at_
    ∧ (k = WaitTimer → tick s = None) ∧ (k = AttemptTimer → tick s ≠ None);
  rn_gone i c : calls s !! i = Some c → is_gone c = true → stopped s = true ∧ S i = length (calls s);
  rn_justified c : c ∈ calls s → justified now s c;
  rn_reported : StronglySorted lt (reported (calls s))
    ∧ Forall (λ i, i ≤ newestAnswered s) (reported (calls s)) }.

(** Something will wake the loop: a timer, or the end of a race. *)
Definition awake (s : Renewal) : Prop :=
  stopped s = true ∨ timer s ≠ None ∨ ∃ i a, tick s = Some (i, Some a).

(** ** Lemmas *)

Lemma renewDelayMs_bounds remaining w :
  (MINIMUM_RENEW_DELAY_MS ≤ renewDelayMs remaining w ≤ MAXIMUM_RENEW_DELAY_MS)%Z.
Proof. unfold renewDelayMs, MINIMUM_RENEW_DELAY_MS, MAXIMUM_RENEW_DELAY_MS. lia. Qed.

Lemma renewDelayMs_third remaining w : (750 ≤ remaining)%Z → (3 * renewDelayMs remaining w ≤ remaining)%Z.
Proof.
  intros Hrem. unfold renewDelayMs, MINIMUM_RENEW_DELAY_MS, MAXIMUM_RENEW_DELAY_MS, RENEW_DIVISOR.
  set (x := match w with None => _ | Some _ => _ end).
  assert (x ≤ remaining)%Z by (unfold x; destruct w; lia). pose proof (Z.mul_div_le x 3). lia.
Qed.
Lemma armed_now now remaining w : armed_at now (now + renewDelayMs remaining w).
Proof. pose proof (renewDelayMs_bounds remaining w). exists now. lia. Qed.

Lemma reported_snoc cs c : reported (cs ++ [c]) =
  reported cs ++ match c with OnRenewed i _ => [i] | _ => [] end.
Proof. unfold reported. rewrite omap_app. cbn. by destruct c. Qed.

Lemma StronglySorted_snoc l (n : nat) : StronglySorted lt l → Forall (λ i, i < n) l →
  StronglySorted lt (l ++ [n]).
Proof.
  induction 1 as [|x l Hs IH Hx]; cbn; [repeat constructor|]. intros [Hxn Hln]%Forall_cons.
  constructor; [by apply IH|]. apply Forall_app. split; [done|by constructor].
Qed.

Section invariant.
Context (options : LeaseRenewalOptions).
Implicit Types (s : Renewal) (now : Z).
Abbreviation ok := (renewal_ok options).

Lemma ok_later now now' s : ok now s → (now ≤ now')%Z → ok now' s.
Proof.
  intros [Hq Hr Hb Ht Htm Hg Hj Hrep] Hle. split; try done.
  - intros k at_ E. destruct (Htm k at_ E) as [(t & ? & ?) ?]. split; [|done]. exists t. lia.
  - intros c Hc. specialize (Hj c Hc). destruct c as [| | |[] e]; cbn in *; try done. lia.
Qed.

Lemma ok_stop now s : ok now s → ok now (stop s).
Proof.
  intros [Hq Hr Hb Ht Htm Hg Hj Hrep]. split; try done.
  intros i c Hi Hc. by destruct (Hg i c Hi Hc).
Qed.

(** A call made while the loop runs, allowed for a callback that does not end it. *)
Lemma ok_call now cb c s : ok now s → stopped s = false → is_gone c = false →
  match c with OnRenewed i _ => Forall (λ j, j < i) (reported (calls s)) ∧ i ≤ newestAnswered s
  | _ => True end → ok now (call cb c s).
Proof.
  intros Hs Hrun Hc Hi. assert (ok now (s <| calls := calls s ++ [c] |>)) as Hs'.
  { destruct Hs as [Hq Hr Hb Ht Htm Hg Hj [Hrep Hle]]. split; try done.
    - cbn. intros j d [Hj'|[-> <-]]%lookup_snoc_Some Hd; [|congruence].
      destruct (Hg j d (proj2 Hj') Hd). congruence.
    - cbn. intros d [Hd| ->%list_elem_of_singleton]%elem_of_app; [by apply Hj|].
      by destruct c as [| | |[]].
    - cbn. rewrite reported_snoc. destruct c as [|i r| |]; rewrite ?app_nil_r; try done.
      destruct Hi as [Hlt Hle']. split; [by apply StronglySorted_snoc|].
      apply Forall_app. split; [done|]. by constructor. }
  unfold call. destruct cb as [stops|]; [|done]. cbv zeta. destruct (stops _); [by apply ok_stop|done].
Qed.

(** What a callback leaves alone. *)
Lemma call_fields cb c s : deadline (call cb c s) = deadline s ∧ tick (call cb c s) = tick s
  ∧ (stopped (call cb c s) = true → stopped s = true ∨ timer (call cb c s) = None)
  ∧ (stopped (call cb c s) = false → stopped s = false).
Proof. unfold call. destruct cb as [stops|]; [|tauto]. cbv zeta. destruct (stops _); cbn; intuition congruence. Qed.

Lemma race_call i a cb c s : race i a (call cb c s) = call cb c (race i a s).
Proof.
  unfold race. destruct (call_fields cb c s) as (_ & -> & _). destruct s as [d w tm st at_ n rq tk cs].
  unfold call. cbn. destruct tk as [[j [o|]]|]; try done. case_bool_decide; [|done].
  destruct cb as [stops|]; [|done]. cbv zeta. cbn. by destruct (stops _).
Qed.

(** A request that has not answered yet settles, with the belief it leads to. *)
Definition answered (i : nat) (a : Attempt) (n : nat) (d : Z) (w : option Z) s : Renewal :=
  s <| requests := <[i := Answered a]> (requests s) |>
    <| newestAnswered := n |> <| deadline := d |> <| width := w |>.

Lemma answered_agrees i a rqs j o : rqs !! i = Some Unsent ∨ rqs !! i = Some Sent →
  race_agrees rqs j o → (o = None → j ≠ i) → race_agrees (<[i := Answered a]> rqs) j o.
Proof.
  intros Hopen Ho Hj. assert (∀ x, rqs !! j = Some (Answered x) →
    <[i := Answered a]> rqs !! j = Some (Answered x)) as Hx.
  { intros x E. rewrite lookup_insert_ne; [done|]. intros ->. destruct Hopen; congruence. }
  destruct o as [[r|e]|]; cbn in *; auto. rewrite lookup_insert_ne; [done|]. intros ->. by apply Hj.
Qed.

Lemma ok_answered_tick now i a n d w tk s :
  ok now s → requests s !! i = Some Unsent ∨ requests s !! i = Some Sent →
  newestAnswered s ≤ n → (stopped s = true → d = deadline s) →
  (stopped s = false → believes options (answered i a n d w s)) →
  (∀ j o, tk = Some (j, o) → j = attempts s ∧ race_agrees (<[i := Answered a]> (requests s)) j o) →
  (tk = None ↔ tick s = None) → ok now ((answered i a n d w s) <| tick := tk |>).
Proof.
  intros [Hq Hr Hb Ht Htm Hg Hj [Hrep Hle]] Hopen Hn Hd Hb' Htk Htn. split; try done.
  - intros j r. cbn. destruct (decide (j = i)) as [->|?]; [|rewrite lookup_insert_ne by done; apply Hr].
    intros _. destruct Hopen as [E|E]; by apply Hr in E.
  - intros k at_ E. destruct (Htm k at_ E) as (? & ? & ?). cbn. by rewrite Htn.
  - intros c Hc. specialize (Hj c Hc). destruct c as [| | |[] e]; cbn in *; try done.
    + destruct Hj as [? [j Hj]]. split; [done|]. exists j. rewrite lookup_insert_ne; [done|].
      intros ->. destruct Hopen; congruence.
    + assert (stopped s = true) as Hst; [|by rewrite (Hd Hst)].
      apply list_elem_of_lookup in Hc as [j Hc]. by apply (Hg j _ Hc).
  - cbn. split; [done|]. eapply list.Forall_impl; [done|]. cbn. lia.
Qed.

Lemma ok_answered now i a n d w s :
  ok now s → requests s !! i = Some Unsent ∨ requests s !! i = Some Sent →
  newestAnswered s ≤ n → (stopped s = true → d = deadline s) →
  (stopped s = false → believes options (answered i a n d w s)) →
  ok now (race i a (answered i a n d w s)).
Proof.
  intros Hs Hopen Hn Hd Hb. pose proof (rn_tick _ _ _ Hs) as Ht. unfold race.
  assert (∀ j o, tick s = Some (j, o) → (o = None → j ≠ i) → ok now (answered i a n d w s)) as Hkeep.
  { intros j o E Hj. change (ok now ((answered i a n d w s) <| tick := tick s |>)).
    apply ok_answered_tick; try done. intros j' o' E'. destruct (Ht _ _ E') as [? Ho].
    split; [done|]. simplify_eq. by apply answered_agrees. }
  change (tick (answered i a n d w s)) with (tick s). destruct (tick s) as [[j o]|] eqn:E.
  - destruct o as [x|]; [by eapply Hkeep|]. case_bool_decide as Ej; [|by eapply Hkeep].
    apply ok_answered_tick; try done; [|by rewrite E]. intros ? ? [= <- <-].
    split; [by destruct (Ht j None eq_refl)|]. rewrite Ej. destruct a; cbn; by rewrite ?lookup_insert_eq.
  - change (ok now ((answered i a n d w s) <| tick := tick s |>)).
    apply ok_answered_tick; try done. by rewrite E.
Qed.

(** An answer that is not adopted leaves the belief as it is. *)
Lemma believes_kept i a s : believes options s → requests s !! i = Some Unsent ∨ requests s !! i = Some Sent →
  (∀ r, a = Ok r → i ≤ newestAnswered s) →
  believes options (answered i a (newestAnswered s) (deadline s) (width s) s).
Proof.
  intros [Hle Hn] Hopen Ha. split.
  - intros j r. cbn. destruct (decide (j = i)) as [->|?].
    + rewrite lookup_insert_eq. intros [= E]. by eapply Ha.
    + rewrite lookup_insert_ne by done. apply Hle.
  - cbn. destruct (newestAnswered s) as [|n]; [done|]. destruct Hn as (r & E & ?). exists r.
    split; [|done]. rewrite lookup_insert_ne; [done|]. intros ->. destruct Hopen; congruence.
Qed.

Lemma ok_request_settled now i a s :
  ok now s → requests s !! i = Some Unsent ∨ requests s !! i = Some Sent →
  ok now (request_settled options i a s).
Proof.
  intros Hs Hopen. unfold request_settled. cbv zeta.
  assert ((∀ r, a = Ok r → stopped s = false → i ≤ newestAnswered s) →
    ok now (race i a (s <| requests := <[i := Answered a]> (requests s) |>))) as Hplain.
  { intros Ha. change (ok now (race i a
      (answered i a (newestAnswered s) (deadline s) (width s) s))). apply ok_answered; try done.
    intros Hst. apply believes_kept; [by apply Hs|done|]. intros r Hr. by eapply Ha. }
  destruct a as [r|e]; [|by apply Hplain]. cbn [stopped].
  change (stopped (s <| requests := _ |>)) with (stopped s).
  change (newestAnswered (s <| requests := _ |>)) with (newestAnswered s).
  destruct (stopped s) eqn:Hst; [by apply Hplain|]. destruct (Nat.leb_spec i (newestAnswered s)) as [Hle|Hlt].
  { by apply Hplain. }
  cbn [orb]. unfold adoptDeadline. rewrite race_call.
  change (ok now (call (rn_onRenewed options) (OnRenewed i r)
    (race i (Ok r) (answered i (Ok r) i (rl_ttlDeadline r) (rl_ttlMs r) s)))).
  assert (∀ x, stopped (race i (Ok r) x) = stopped x ∧ newestAnswered (race i (Ok r) x) = newestAnswered x
    ∧ calls (race i (Ok r) x) = calls x) as Hrace.
  { intros x. unfold race. destruct (tick x) as [[? []]|]; try done. by case_bool_decide. }
  destruct (Hrace (answered i (Ok r) i (rl_ttlDeadline r) (rl_ttlMs r) s)) as (E1 & E2 & E3).
  destruct (rn_reported _ _ _ Hs) as [_ Hrep]. apply ok_call; [|by rewrite E1|done|].
  - apply ok_answered; [done|done|lia|congruence|]. intros _. split.
    + intros j r'. cbn. destruct (decide (j = i)) as [->|?]; [done|].
      rewrite lookup_insert_ne by done. intros E. apply (rn_believes _ _ _ Hs Hst) in E. lia.
    + cbn. destruct i as [|i]; [lia|]. exists r. by rewrite lookup_insert_eq.
  - rewrite E2, E3. split; [|done]. eapply list.Forall_impl; [done|]. cbn. lia.
Qed.

Lemma ok_cancelTimer now s : ok now s → ok now (cancelTimer s).
Proof. by intros [Hq Hr Hb Ht Htm Hg Hj Hrep]; split. Qed.

Lemma ok_untick now s : ok now s → ok now (cancelTimer (s <| tick := None |>)).
Proof. by intros [Hq Hr Hb Ht Htm Hg Hj Hrep]; split. Qed.

Lemma ok_schedule now s : ok now s → tick s = None → ok now (schedule now s).
Proof.
  intros Hs Htk. unfold schedule. destruct (stopped s) eqn:Hst; [done|].
  destruct Hs as [Hq Hr Hb Ht Htm Hg Hj Hrep]. split; try done; [cbn; congruence|].
  intros k at_ [= <- <-]. split; [apply armed_now|done].
Qed.

Lemma ok_giveUp now reason e s : ok now s → justified now s (OnLeaseGone reason e) →
  ok now (giveUp options reason e s).
Proof.
  intros Hs Hjust. unfold giveUp. destruct (stopped s) eqn:Hst; [done|].
  assert (ok now (stop s)) as Hstop by by apply ok_stop.
  unfold call. destruct (rn_onLeaseGone options) as [stops|]; [|done].
  assert (ok now ((stop s) <| calls := calls (stop s) ++ [OnLeaseGone reason e] |>)) as Hcall.
  { destruct Hstop as [Hq Hr Hb Ht Htm Hg Hj Hrep]. split; try done.
    - cbn. intros i c [[_ Hi]|[-> _]]%lookup_snoc_Some Hc.
      + destruct Hs as [_ _ _ _ _ Hg' _ _]. destruct (Hg' i c Hi Hc). congruence.
      + rewrite length_app. cbn. split; [done|lia].
    - cbn. intros c [Hc| ->%list_elem_of_singleton]%elem_of_app; [by apply Hj|done].
    - cbn. by rewrite reported_snoc, app_nil_r. }
  cbv zeta. destruct (stops _); [by apply ok_stop|done].
Qed.

Lemma ok_attempt now s : ok now s → stopped s = false → ok now (attemptRenew now s).
Proof.
  intros [Hq Hr Hb Ht Htm Hg Hj Hrep] Hst.
  assert (requests s !! S (attempts s) = None) as Hfresh.
  { destruct (requests s !! S (attempts s)) as [r|] eqn:E; [|done]. apply Hr in E. lia. }
  split; try done.
  - cbn. congruence.
  - cbn. intros i r. destruct (decide (i = S (attempts s))) as [->|?]; [lia|].
    rewrite lookup_insert_ne by done. intros E%Hr. lia.
  - intros _. destruct (Hb Hst) as [Hle Hn]. split.
    + intros i r. cbn. destruct (decide (i = S (attempts s))) as [->|?]; [by rewrite lookup_insert_eq|].
      rewrite lookup_insert_ne by done. apply Hle.
    + cbn. destruct (newestAnswered s) as [|n]; [done|]. destruct Hn as (r & E & ?). exists r.
      split; [|done]. rewrite lookup_insert_ne; [done|]. intros En. rewrite En in Hfresh. congruence.
  - cbn. intros i o [= <- <-]. split; [done|]. left. apply lookup_insert_eq.
  - cbn. intros k at_ [= <- <-]. split; [apply armed_now|done].
  - intros c Hc. specialize (Hj c Hc). destruct c as [| | |[] e]; cbn in *; try done.
    destruct Hj as [? [i Hi]]. split; [done|]. exists i. rewrite lookup_insert_ne; [done|].
    intros En. rewrite En in Hfresh. congruence.
Qed.

Lemma ok_send now i s : ok now s → requests s !! i = Some Unsent → ok now (send options i s).
Proof.
  intros Hs Hi. unfold send. destruct (stopped s) eqn:Hst; [apply ok_request_settled; auto|].
  assert (ok now (s <| requests := <[i := Sent]> (requests s) |>)) as Hs'.
  { destruct Hs as [Hq Hr Hb Ht Htm Hg Hj Hrep].
    assert (∀ j a, requests s !! j = Some (Answered a) →
      <[i := Sent]> (requests s) !! j = Some (Answered a)) as Hans.
    { intros j a E. rewrite lookup_insert_ne; [done|]. intros ->. congruence. }
    split; try done.
    - cbn. intros j r. destruct (decide (j = i)) as [->|?]; [by intros _; eapply Hr|].
      rewrite lookup_insert_ne by done. apply Hr.
    - intros _. destruct (Hb Hst) as [Hle Hn]. split.
      + cbn. intros j r. destruct (decide (j = i)) as [->|?]; [by rewrite lookup_insert_eq|].
        rewrite lookup_insert_ne by done. apply Hle.
      + cbn. destruct (newestAnswered s) as [|n]; [done|]. destruct Hn as (r & E & ?). eauto.
    - cbn. intros j o E. destruct (Ht j o E) as [? Ho]. split; [done|].
      destruct o as [[r|e]|]; cbn in *; auto. destruct (decide (j = i)) as [->|?].
      + rewrite lookup_insert_eq. by right.
      + by rewrite lookup_insert_ne.
    - intros c Hc. specialize (Hj c Hc). destruct c as [| | |[] e]; cbn in *; try done.
      destruct Hj as [? [j ?]]. eauto. }
  exact (ok_call now (Some (λ _, false)) (Renew i) _ Hs' Hst eq_refl I).
Qed.

Lemma ok_tick_resumed now i a s : ok now s → tick s = Some (i, Some a) →
  ok now (tick_resumed options now i a s).
Proof.
  intros Hs Htk. destruct (rn_tick _ _ _ Hs i _ Htk) as [Hi Hrace].
  pose proof (ok_untick now s Hs) as Hs1. unfold tick_resumed. cbv zeta.
  destruct (stopped _) eqn:Hst; [done|]. destruct a as [r|e].
  - destruct (rn_believes _ _ _ Hs Hst) as [Hle Hn]. pose proof (Hle _ _ Hrace) as Hin.
    assert (newestAnswered s = i) as Hnew.
    { destruct (newestAnswered s) as [|n]; [lia|]. destruct Hn as (r' & E & _).
      apply (rn_requests _ _ _ Hs) in E. lia. }
    assert (deadline s = rl_ttlDeadline r) as Hd.
    { rewrite Hnew in Hn. destruct i as [|i]; [by apply (rn_requests _ _ _ Hs) in Hrace; lia|].
      destruct Hn as (r' & E & ? & _). congruence. }
    change (newestAnswered (cancelTimer _)) with (newestAnswered s). rewrite Hnew, Nat.ltb_irrefl.
    destruct (Z.leb_spec (rl_ttlDeadline r) now); [|by apply ok_schedule].
    apply ok_giveUp; [done|]. cbn. lia.
  - destruct (isLeaseGone e) eqn:He; [apply ok_giveUp; [done|]; cbn; eauto|].
    assert (ok now (report options e (cancelTimer (s <| tick := None |>)))) as Hs2.
    { by apply ok_call. }
    destruct (Z.leb_spec (deadline (report options e (cancelTimer (s <| tick := None |>)))) now).
    + by apply ok_giveUp.
    + apply ok_schedule; [done|]. unfold report. by destruct (call_fields (rn_onError options) (OnError e)
        (cancelTimer (s <| tick := None |>))) as (_ & -> & _).
Qed.

Lemma ok_step now s s' : ok now s → renewal_step options now s s' → ok now s'.
Proof.
  intros Hs [at_ Htm|i Hi|i a Hi|at_ i o Htm Htk|i a Htk|].
  - unfold wait_over. cbv zeta. destruct (stopped _) eqn:Hst; [by apply ok_cancelTimer|].
    apply ok_attempt; [by apply ok_cancelTimer|done].
  - by apply ok_send.
  - apply ok_request_settled; auto.
  - unfold attempt_timed_out, race. change (tick (cancelTimer s)) with (tick s). rewrite Htk.
    pose proof (ok_cancelTimer now s Hs) as Hs'. destruct o as [a|]; [done|]. case_bool_decide; [|done].
    destruct Hs' as [Hq Hr Hb Ht Htm' Hg Hj Hrep]. split; try done. cbn. intros j o [= <- <-].
    split; [|done]. by apply (Ht i None).
  - by apply ok_tick_resumed.
  - by apply ok_stop.
Qed.

Lemma renewal_reachable_ok now s : renewal_reachable options now s → ok now s.
Proof.
  induction 1 as [now|now now' s s' _ IH Hle Hs].
  - apply ok_schedule; [|done]. split; try done.
    + by intros c ?%elem_of_nil.
    + split; constructor.
  - eapply ok_step; [|done]. by eapply ok_later.
Qed.

(** Nothing happens to a loop that has stopped. *)
Lemma race_fields i a s : stopped (race i a s) = stopped s ∧ timer (race i a s) = timer s
  ∧ calls (race i a s) = calls s ∧ deadline (race i a s) = deadline s.
Proof. unfold race. destruct (tick s) as [[? []]|]; try done. by case_bool_decide. Qed.

Lemma stopped_settled i a s : stopped s = true →
  request_settled options i a s = race i a (s <| requests := <[i := Answered a]> (requests s) |>).
Proof. intros Hst. unfold request_settled. cbn. rewrite Hst. by destruct a. Qed.

Lemma stopped_step now s s' : stopped s = true → timer s = None → renewal_step options now s s' →
  stopped s' = true ∧ timer s' = None ∧ calls s' = calls s ∧ deadline s' = deadline s.
Proof.
  intros Hst Htm.
  assert (∀ i a, let s' := request_settled options i a s in
    stopped s' = true ∧ timer s' = None ∧ calls s' = calls s ∧ deadline s' = deadline s) as Hsettled.
  { intros i a. cbv zeta. rewrite stopped_settled by done.
    by destruct (race_fields i a (s <| requests := <[i := Answered a]> (requests s) |>))
      as (-> & -> & -> & ->). }
  intros [at_ Htm'|i Hi|i a Hi|at_ i o Htm' Htk|i a Htk|]; try congruence.
  - unfold send. rewrite Hst. apply Hsettled.
  - apply Hsettled.
  - unfold tick_resumed. cbv zeta. change (stopped (cancelTimer _)) with (stopped s). by rewrite Hst.
  - done.
Qed.

Lemma awake_call cb c s : awake s → awake (call cb c s).
Proof.
  unfold call. destruct cb as [stops|]; [|done]. cbv zeta. by destruct (stops _); [left|].
Qed.
Lemma awake_race i a s : awake s → awake (race i a s).
Proof.
  intros Hs. unfold race. destruct (tick s) as [[j [o|]]|]; try done. case_bool_decide; [|done].
  right; right. by eexists _, _.
Qed.
Lemma awake_request_settled i a s : awake s → awake (request_settled options i a s).
Proof.
  intros Hs. apply awake_race. destruct a as [r|e]; [|done]. case_match; [done|]. by apply awake_call.
Qed.
Lemma awake_schedule now s : awake (schedule now s).
Proof. unfold schedule. destruct (stopped s) eqn:E; [by left|right; by left]. Qed.
Lemma awake_giveUp reason e s : awake (giveUp options reason e s).
Proof. unfold giveUp. destruct (stopped s) eqn:E; [by left|]. apply awake_call. by left. Qed.

Lemma awake_step now s s' : awake s → renewal_step options now s s' → awake s'.
Proof.
  intros Hs [at_ Htm|i Hi|i a Hi|at_ i o Htm Htk|i a Htk|].
  - unfold wait_over. cbv zeta. destruct (stopped _) eqn:Hst; [by left|]. right. by left.
  - unfold send. destruct (stopped s) eqn:Hst; [by apply awake_request_settled|done].
  - by apply awake_request_settled.
  - right; right. unfold attempt_timed_out, race. change (tick (cancelTimer s)) with (tick s).
    rewrite Htk. destruct o as [a|]; [by eexists _, _|]. rewrite bool_decide_eq_true_2 by done.
    by eexists _, _.
  - unfold tick_resumed. cbv zeta. destruct (stopped _) eqn:Hst; [by left|].
    destruct a as [r|e].
    + case_match; [apply awake_giveUp|apply awake_schedule].
    + case_match; [apply awake_giveUp|]. case_match; [apply awake_giveUp|apply awake_schedule].
  - by left.
Qed.

(** What a section may do to the timer and to the count of attempts, at time [now]. *)
Definition delay_of now s : Z := renewDelayMs (deadline s - now) (width s).
Definition arms now s s' : Prop :=
  (attempts s' = attempts s ∧ (timer s' = timer s ∨ timer s' = None))
  ∨ (attempts s' = attempts s ∧ timer s' = Some (WaitTimer, now + delay_of now s')%Z)
  ∨ ((∃ at_, timer s = Some (WaitTimer, at_)) ∧ attempts s' = S (attempts s)
     ∧ timer s' = Some (AttemptTimer, now + delay_of now s')%Z).

Lemma attempts_call cb c s : attempts (call cb c s) = attempts s
  ∧ (timer (call cb c s) = timer s ∨ timer (call cb c s) = None).
Proof. unfold call. destruct cb as [stops|]; [|by auto]. cbv zeta. destruct (stops _); cbn; auto. Qed.
Lemma attempts_race i a s : attempts (race i a s) = attempts s ∧ timer (race i a s) = timer s.
Proof. unfold race. destruct (tick s) as [[j [o|]]|]; try done. by case_bool_decide. Qed.
Lemma attempts_settled i a s : attempts (request_settled options i a s) = attempts s
  ∧ (timer (request_settled options i a s) = timer s ∨ timer (request_settled options i a s) = None).
Proof.
  unfold request_settled. cbv zeta. match goal with |- attempts (race i a ?x) = _ ∧ _ => destruct (attempts_race i a x) as [-> ->] end.
  destruct a as [r|e]; [|by auto]. case_match; [by auto|]. unfold adoptDeadline.
  match goal with |- attempts (call ?cb ?c ?x) = _ ∧ _ => exact (attempts_call cb c x) end.
Qed.
Lemma attempts_giveUp reason e s : timer s = None →
  attempts (giveUp options reason e s) = attempts s ∧ timer (giveUp options reason e s) = None.
Proof.
  intros Ht. unfold giveUp. destruct (stopped s); [done|].
  destruct (attempts_call (rn_onLeaseGone options) (OnLeaseGone reason e) (cancelTimer (s <| stopped := true |>))) as [-> [->| ->]]; done.
Qed.
Lemma schedule_arms now s s0 : attempts s = attempts s0 → timer s = None → arms now s0 (schedule now s).
Proof.
  intros Ha Ht. unfold schedule. destruct (stopped s); [left; auto|]. right; left. by split.
Qed.
Lemma giveUp_arms now reason e s s0 : attempts s = attempts s0 → timer s = None → arms now s0 (giveUp options reason e s).
Proof. intros Ha Ht. destruct (attempts_giveUp reason e s Ht) as [E1 E2]. left. rewrite E1, E2. auto. Qed.

Lemma step_arms now s s' : renewal_step options now s s' → arms now s s'.
Proof.
  intros [at_ Htm|i Hi|i a Hi|at_ i o Htm Htk|i a Htk|].
  - unfold wait_over. cbv zeta. destruct (stopped _); [left; auto|]. right; right. by split_and!; eauto.
  - left. unfold send. destruct (stopped s); [apply attempts_settled|by auto].
  - left. apply attempts_settled.
  - left. unfold attempt_timed_out. destruct (attempts_race i (Err (PlainError
      ("Timed out renewing lease " +:+ rn_leaseId options))) (cancelTimer s)) as [-> ->]. auto.
  - unfold tick_resumed. cbv zeta. destruct (stopped _); [left; auto|]. destruct a as [r|e].
    + match goal with |- arms _ _ (if _ then giveUp _ _ _ ?x else _) =>
        set (s1 := x); assert (attempts s1 = attempts s ∧ timer s1 = None) as [Ha Ht] end.
      { unfold s1. case_match; [|done]. unfold adoptDeadline.
        match goal with |- attempts (call ?cb ?c ?x) = _ ∧ _ => destruct (attempts_call cb c x) as [-> [->| ->]] end; done. }
      case_match; [by apply giveUp_arms|by apply schedule_arms].
    + case_match; [by apply giveUp_arms|]. unfold report.
      match goal with |- context [call ?cb ?c ?x] => assert (attempts (call cb c x) = attempts s ∧ timer (call cb c x) = None) as [Ha Ht] end.
      { match goal with |- attempts (call ?cb ?c ?x) = _ ∧ _ => destruct (attempts_call cb c x) as [-> [->| ->]] end; done. }
      case_match; [by apply giveUp_arms|by apply schedule_arms].
  - left. auto.
Qed.

(** Attempts come 250 ms apart at least. *)
Lemma on_time_paced start now s : renewal_on_time options start now s →
  (MINIMUM_RENEW_DELAY_MS * Z.of_nat (attempts s) ≤ now - start
   ∧ ∀ at_, timer s = Some (WaitTimer, at_) → MINIMUM_RENEW_DELAY_MS * Z.of_nat (S (attempts s)) ≤ at_ - start)%Z.
Proof.
  induction 1 as [|now now' s s' _ [IH1 IH2] Hle Hs Hwait].
  - split; [cbn; lia|]. unfold startLeaseRenewal, schedule. cbn. intros at_ [= <-].
    pose proof (renewDelayMs_bounds (rn_ttlDeadline options - start) (rn_ttlMs options)). unfold MINIMUM_RENEW_DELAY_MS in *. lia.
  - pose proof (renewDelayMs_bounds (deadline s' - now') (width s')) as Hb. fold (delay_of now' s') in Hb.
    unfold MINIMUM_RENEW_DELAY_MS in *.
    destruct (step_arms _ _ _ Hs) as [[-> Ht]|[[-> Ht]|((at_ & Hat) & Ha & Ht)]].
    + split; [lia|]. intros at_ Hat. destruct Ht as [Ht|Ht]; [|congruence]. apply IH2. congruence.
    + split; [lia|]. intros at_. rewrite Ht. intros [= <-]. lia.
    + split; [|congruence]. rewrite Ha. specialize (IH2 _ Hat). specialize (Hwait _ Hat). lia.
Qed.

Lemma renewal_reachable_awake now s : renewal_reachable options now s → awake s.
Proof. induction 1 as [now|? ? ? ? _ IH _ Hs]; [apply awake_schedule|by eapply awake_step]. Qed.
End invariant.

(** ** Properties *)

(** A loop that ended stays silent, and it ends for a reason. Once stopped, whatever timer or
    answer was under way, nothing is armed and no step calls [renew] or a callback again; the lease
    is reported gone at most once and as the last call, as rejected only on an answer that says so,
    and as failed only when the deadline the loop went by has passed. *)
Theorem renewal_ends_once options now now' s s' : renewal_reachable options now s → (now ≤ now')%Z →
  renewal_step options now' s s' →
  (stopped s = true → timer s = None
     ∧ stopped s' = true ∧ timer s' = None ∧ calls s' = calls s ∧ deadline s' = deadline s)
  ∧ (∀ k reason e, calls s !! k = Some (OnLeaseGone reason e) →
       stopped s = true ∧ S k = length (calls s)
       ∧ match reason with
         | renew_rejected => isLeaseGone e = true ∧ ∃ i, requests s !! i = Some (Answered (Err e))
         | renew_failed => (deadline s ≤ now)%Z
         end).
Proof.
  intros Hre Hle Hs. pose proof (renewal_reachable_ok _ _ _ Hre) as Hok. split.
  - intros Hst. pose proof (rn_quiet _ _ _ Hok Hst) as Htm. split; [done|].
    by eapply stopped_step.
  - intros k reason e Hk. destruct (rn_gone _ _ _ Hok k _ Hk eq_refl). split_and!; try done.
    apply list_elem_of_lookup_2, (rn_justified _ _ _ Hok) in Hk. by destruct reason.
Qed.

(** The loop goes by the newest answer. While it runs, the deadline and width it schedules by are
    those of the answer to the latest attempt that was answered with a lease, however late or out of
    order the answers came, and those of the grant before the first; and the answers it reports are
    of later and later attempts. *)
Theorem renewal_follows_newest_answer options now s : renewal_reachable options now s →
  stopped s = false →
  (∀ i r, requests s !! i = Some (Answered (Ok r)) → i ≤ newestAnswered s)
  ∧ match newestAnswered s with
    | 0 => deadline s = rn_ttlDeadline options ∧ width s = rn_ttlMs options
    | n => ∃ r, requests s !! n = Some (Answered (Ok r))
        ∧ deadline s = rl_ttlDeadline r ∧ width s = rl_ttlMs r
    end
  ∧ StronglySorted lt (reported (calls s)).
Proof.
  intros Hre Hst. pose proof (renewal_reachable_ok _ _ _ Hre) as Hok.
  destruct (rn_believes _ _ _ Hok Hst) as [? ?]. split_and!; [done..|]. apply Hok.
Qed.

(** C25. The loop never stalls and never spins. While it runs, a timer is armed or an attempt has ended
    and is being acted on. Whatever step arms a timer sets it at least 250 ms and at most the longest
    timer the runtime has after the moment of the step, and no later than a third of what is left of
    the lease when that is 750 ms or more; so does the start. And in a run in which the wait between
    attempts is never cut short, there was at most one attempt for every 250 ms. *)
Theorem renewal_never_stalls options now s : renewal_reachable options now s → stopped s = false →
  ((∃ k at_, timer s = Some (k, at_)) ∨ ∃ i a, tick s = Some (i, Some a))
  ∧ (let armed_for now s' := ∀ k at_, timer s' = Some (k, at_) →
       (now + 250 ≤ at_ ≤ now + 2147483647)%Z
       ∧ (750 ≤ deadline s' - now → 3 * (at_ - now) ≤ deadline s' - now)%Z in
     armed_for now (startLeaseRenewal options now)
     ∧ ∀ now' s', renewal_step options now' s s' → timer s' ≠ timer s → armed_for now' s')
  ∧ ∀ start, renewal_on_time options start now s → (250 * Z.of_nat (attempts s) ≤ now - start)%Z.
Proof.
  intros Hre Hst. split; [|split].
  - destruct (renewal_reachable_awake _ _ _ Hre) as [?|[Htm|?]]; [congruence| |by right]. left.
    destruct (timer s) as [[k at_]|] eqn:E; [by eauto|done].
  - intros armed_for.
    assert (∀ now s' k at_, timer s' = Some (k, at_) → at_ = (now + delay_of now s')%Z → (now + 250 ≤ at_ ≤ now + 2147483647)%Z
      ∧ (750 ≤ deadline s' - now → 3 * (at_ - now) ≤ deadline s' - now)%Z) as Hdelay.
    { intros t s' k at_ _ ->. pose proof (renewDelayMs_bounds (deadline s' - t) (width s')) as Hb. fold (delay_of t s') in Hb.
      unfold MINIMUM_RENEW_DELAY_MS, MAXIMUM_RENEW_DELAY_MS in Hb. split; [lia|]. intros Hleft.
      pose proof (renewDelayMs_third (deadline s' - t) (width s') Hleft) as H3. fold (delay_of t s') in H3. lia. }
    split.
    + intros k at_ Ht. apply (Hdelay now _ k at_ Ht). by injection Ht as _ <-.
    + intros now' s' Hs Hne k at_ Ht. apply (Hdelay now' _ k at_ Ht).
      destruct (step_arms _ _ _ _ Hs) as [[_ [?|?]]|[[_ Ha]|(_ & _ & Ha)]]; congruence.
  - intros start Hon. apply (on_time_paced _ _ _ _ Hon).
Qed.

(** A loop at time 0 over a lease of nine seconds, and its first attempt: sent, then answered. *)
Definition sample_renewal : LeaseRenewalOptions :=
  MkRenewalOptions "lse_1" 9000 (Some 9000%Z) (Some (λ _, false)) (Some (λ _, false)) (Some (λ _, false)).
Definition sample_attempt : Renewal :=
  send sample_renewal 1 (wait_over 3000 (startLeaseRenewal sample_renewal 0)).
Definition sample_renewed : Renewal :=
  request_settled sample_renewal 1 (Ok (MkRenewed (Some 9000%Z) 12005)) sample_attempt.
Lemma sample_attempt_reachable : renewal_reachable sample_renewal 3000 sample_attempt.
Proof.
  eapply (renewal_next _ 3000); [|done|by apply step_send].
  eapply (renewal_next _ 0); [apply renewal_start|done|by eapply step_wait_over].
Qed.
Lemma sample_renewed_reachable : renewal_reachable sample_renewal 3005 sample_renewed.
Proof. eapply renewal_next; [apply sample_attempt_reachable|done|by apply step_answer]. Qed.

(** The same attempt answered with the lease gone. *)
Definition sample_gone : Renewal :=
  tick_resumed sample_renewal 3006 1 (Err (SimlockError "UNKNOWN_LEASE"))
    (request_settled sample_renewal 1 (Err (SimlockError "UNKNOWN_LEASE")) sample_attempt).
Lemma sample_gone_reachable : renewal_reachable sample_renewal 3006 sample_gone.
Proof.
  eapply (renewal_next _ 3005); [|done|by apply step_resume].
  eapply (renewal_next _ 3000); [apply sample_attempt_reachable|done|by apply step_answer].
Qed.

Lemma renewal_ends_once_witness :
  calls sample_gone = [Renew 1; OnLeaseGone renew_rejected (SimlockError "UNKNOWN_LEASE")]
  ∧ calls (stop sample_gone) = calls sample_gone.
Proof.
  split; [reflexivity|].
  apply (renewal_ends_once sample_renewal 3006 3007 sample_gone (stop sample_gone)
    sample_gone_reachable).
  - discriminate.
  - apply step_stop.
  - reflexivity.
Defined.

Lemma renewal_follows_newest_answer_witness :
  newestAnswered sample_renewed = 1
  ∧ ∃ r, requests sample_renewed !! 1 = Some (Answered (Ok r))
      ∧ deadline sample_renewed = rl_ttlDeadline r ∧ width sample_renewed = rl_ttlMs r.
Proof.
  split; [reflexivity|].
  apply (renewal_follows_newest_answer sample_renewal 3005 sample_renewed sample_renewed_reachable).
  reflexivity.
Defined.

(** The first attempt comes in time, and the wait for it was armed as the loop began. *)
Lemma sample_attempt_on_time : renewal_on_time sample_renewal 0 3000 sample_attempt.
Proof.
  eapply (on_time_next _ _ 3000); [|done|by apply step_send|].
  - eapply (on_time_next _ _ 0); [apply on_time_start|done|by eapply step_wait_over|]. intros at_ [= <-] _. by vm_compute.
  - by intros at_ [=].
Qed.
Lemma renewal_never_stalls_witness :
  (250 * Z.of_nat (attempts sample_attempt) ≤ 3000 - 0)%Z
  ∧ ∃ k at_, timer sample_attempt = Some (k, at_).
Proof.
  destruct (renewal_never_stalls sample_renewal 3000 sample_attempt sample_attempt_reachable eq_refl) as (Hawake & _ & Hpace).
  split; [exact (Hpace 0%Z sample_attempt_on_time)|]. destruct Hawake as [H|(i & a & H)]; [exact H|]. discriminate H.
Defined.
