(* ===== verification/RequestBook.v ===== *)
(** * The lease request book: [src/leasing/lease-request-book.ts]

    Admission, replay and settlement of lease requests, the same on a daemon and on a gateway. The
    book is written against [LeaseRequestStore]; its two stores, the gateway's in-memory one and
    the registry, are the instances below. A promise is a number its owner hands out, a callback
    the number of a listener, and [b_log] what listeners were told. The entries of the source's
    [#open] map are objects its closures keep after they leave the map: they stay in [b_entries],
    and [e_listed] says whether the map has them. *)
From stdpp Require Import base strings list option numbers gmap sets.
From S2P Require Import Prelude JsString OsRange Domain RequestStore Capacity Claims Cleanup Planner.
From S2P Require Import Registry RegistryInv WaitQueue.

(** ** The stores *)

Record InMemoryLeaseRequestStore (G : Type) := MkMemory { m_records : list (LeaseRequestRecord G) }.
Arguments MkMemory {G}. Arguments m_records {G}.

Section memory.
Context {G : Type} (limits : LeaseRequestLimits).

Definition memory_leaseRequests (now : Z) (s : InMemoryLeaseRequestStore G)
    : list (LeaseRequestRecord G) :=
  retainedLeaseRequests (m_records s) now (retentionMs limits).
Definition memory_createLeaseRequest (now : Z) (generated : string) (input : NewLeaseRequest)
    (s : InMemoryLeaseRequestStore G) : InMemoryLeaseRequestStore G * LeaseRequestRecord G :=
  let record := newLeaseRequestRecord (default (newLeaseRequestId generated) (n_id input)) input now in
  (MkMemory (withNewLeaseRequest (m_records s) record now limits), record).
Definition memory_settleLeaseRequest (now : Z) (rid : string) (outcome : LeaseRequestOutcome G)
    (s : InMemoryLeaseRequestStore G) : InMemoryLeaseRequestStore G * option (LeaseRequestRecord G) :=
  let '(records, settled) := withSettledLeaseRequest (m_records s) rid outcome now in
  (MkMemory records, settled).

Definition memory_store : LeaseRequestStore (InMemoryLeaseRequestStore G) G :=
  {| store_leaseRequests := memory_leaseRequests;
     store_createLeaseRequest := memory_createLeaseRequest;
     store_settleLeaseRequest := memory_settleLeaseRequest |}.

#[refine] Definition memory_laws : @LeaseRequestStoreLaws (InMemoryLeaseRequestStore G) G memory_store :=
  {| store_records := m_records; store_retention := retentionMs limits |}.
Proof.
  - intros now s. exists (λ x, x). by rewrite list_fmap_id.
  - intros now g input s. split; [done|]. apply withNew_law.
  - intros now i o s. cbn. unfold memory_settleLeaseRequest.
    by destruct (withSettledLeaseRequest (m_records s) i o now).
Defined.
End memory.

(** The registry as a store. Its writes do not throw in this model. *)
Section registry_store.
Context (options : RegistryOptions).

Definition registry_create (now : Z) (generated : string) (input : NewLeaseRequest) (r : Registry)
    : Registry * LeaseRequestRecord LeaseGrant :=
  ((createLeaseRequest options now generated input r).1,
   newLeaseRequestRecord (default (newLeaseRequestId generated) (n_id input)) input now).
Definition registry_settle (now : Z) (rid : string) (outcome : LeaseRequestOutcome LeaseGrant)
    (r : Registry) : Registry * option (LeaseRequestRecord LeaseGrant) :=
  match settleLeaseRequest options now rid outcome r with
  | (r', Ok settled) => (r', settled)
  | (r', Err _) => (r', None)
  end.
Definition registry_store : LeaseRequestStore Registry LeaseGrant :=
  {| store_leaseRequests := registry_leaseRequests options;
     store_createLeaseRequest := registry_create;
     store_settleLeaseRequest := registry_settle |}.

Lemma registry_create_answer now g input r :
  (createLeaseRequest options now g input r).2 = Ok (registry_create now g input r).2.
Proof. done. Qed.
Lemma registry_settle_answers now i o r : ∃ settled, (settleLeaseRequest options now i o r).2 = Ok settled.
Proof.
  unfold settleLeaseRequest, mbind, action_bind, get. destruct (withSettledLeaseRequest _ _ _ _) as [rs [x|]];
    by eexists.
Qed.

(** A commit of the same devices keeps every open request. *)
Lemma committed_requests_open now ds qs x : x ∈ qs → isSettled x = false →
  x ∈ committed_requests options now ds qs.
Proof. intros Hx Ho. unfold committed_requests. case_match; [by apply open_retained|done]. Qed.

#[refine] Definition registry_laws : @LeaseRequestStoreLaws Registry LeaseGrant registry_store :=
  {| store_records := leaseRequests; store_retention := retentionMs (leaseRequestLimits options) |}.
Proof.
  - intros now r. exists (withCurrentDevice r). split; [|done]. intros x. unfold withCurrentDevice.
    destruct (q_grant x) as [g|] eqn:E; [|by split]. destruct (Arr.find _ _); [|by split].
    split; [done|]. cbn. by rewrite E.
  - intros now g input r. split; [done|].
    set (record := newLeaseRequestRecord (default (newLeaseRequestId g) (n_id input)) input now).
    enough (∃ kept, committed_requests options now (devices r)
        (withNewLeaseRequest (leaseRequests r) record now (leaseRequestLimits options)) = kept ++ [record]
      ∧ sublist kept (leaseRequests r)
      ∧ (∀ x, x ∈ kept → retained now (retentionMs (leaseRequestLimits options)) x = true)
      ∧ ∀ x, x ∈ leaseRequests r → isSettled x = false → x ∈ kept) as H by exact H.
    destruct (withNew_law (leaseRequests r) record now (leaseRequestLimits options))
      as (kept & -> & Hsub & Hret & Hopen).
    assert (committed_requests options now (devices r) (kept ++ [record]) = kept ++ [record]) as ->;
      [|eauto].
    unfold committed_requests. case_match; [|done]. apply afilter_all.
    intros x [Hx| ->%list_elem_of_singleton]%elem_of_app; [by apply Hret|done].
  - intros now i o r. cbn. unfold registry_settle, settleLeaseRequest, mbind, action_bind, get.
    destruct (withSettled_cases (leaseRequests r) i o now) as [(j & x & _ & _ & _ & _ & ->)|[_ ->]]; [|done].
    cbn. split; [apply committed_requests_sub|]. intros y Hy Ho. by apply committed_requests_open.
Defined.
End registry_store.

(** ** The book *)

Inductive RequestPhase := phase_open | phase_settling | phase_settled.
#[global] Instance RequestPhase_eq_dec : EqDecision RequestPhase.
Proof. solve_decision. Defined.

Record OpenRequest (G : Type) := MkOpen {
  e_listed : bool; e_requesterId : string; e_promise : option nat; e_progress : option LeaseProgress;
  e_callers : list nat; e_watchers : list nat;
  e_outcome : option (LeaseRequestOutcome G); e_phase : RequestPhase }.
Arguments MkOpen {G}. Arguments e_listed {G}. Arguments e_requesterId {G}. Arguments e_promise {G}.
Arguments e_progress {G}. Arguments e_callers {G}. Arguments e_watchers {G}. Arguments e_outcome {G}.
Arguments e_phase {G}.
#[export] Instance OpenRequest_eta {G} : Eta (OpenRequest G) := λ e,
  MkOpen (e_listed e) (e_requesterId e) (e_promise e) (e_progress e) (e_callers e) (e_watchers e)
    (e_outcome e) (e_phase e).

(** The request options the book reads, with the caller's progress callback. *)
Record BookOptions := MkBookOptions { bo_options : LeaseRequestOptions; bo_onProgress : option nat }.

Inductive BookCall :=
| Told (caller : nat) (progress : LeaseProgress)
| Notified (watcher : nat)
| OnAdmitted (id : string) (replayed : bool).

Record Book (S G : Type) := MkBook {
  b_store : S; b_entries : gmap string (OpenRequest G); b_log : list BookCall }.
Arguments MkBook {S G}. Arguments b_store {S G}. Arguments b_entries {S G}. Arguments b_log {S G}.
#[export] Instance Book_eta {S G} : Eta (Book S G) := λ b, MkBook (b_store b) (b_entries b) (b_log b).

Inductive BookError :=
| IdempotencyConflictError (requesterId idempotencyKey : string)
| LeaseRequestForbiddenError (requestId : string)
| UndrivenError (requestId : string)
| StartError (error : WaitError).
Inductive ReplayError :=
| ReplayedCancellation (requestId : string)
| ReplayedLeaseRequestError (code message : string).

(** The promise a replay hands back: the live one, or one settled with the stored result. *)
Inductive ReplayAnswer (G : Type) :=
| Joined (promise : nat)
| StoredResult (r : result ReplayError G).
Arguments Joined {G}. Arguments StoredResult {G}.

Definition sameDeviceRequest (left right : DeviceRequest) : bool :=
  (rq_platform left === rq_platform right) && (rq_model left === rq_model right)
  && (rq_class left === rq_class right) && (rq_osVersion left === rq_osVersion right)
  && (rq_mode left === rq_mode right) && (rq_imageTag left === rq_imageTag right)
  && (rq_baseline left === rq_baseline right)
  && (join "," (default [] (rq_except left)) === join "," (default [] (rq_except right)))
  && Bool.eqb (rq_physical left === Some true) (rq_physical right === Some true).

Definition storedResult {G} (record : LeaseRequestRecord G) : result ReplayError G :=
  match q_state record, q_grant record with
  | granted, Some grant => Ok grant
  | cancelled, _ => Err (ReplayedCancellation (q_id record))
  | _, _ =>
      let failure := default (MkFailure "INTERNAL" "Lease request failed") (q_failure record) in
      Err (ReplayedLeaseRequestError (f_code failure) (f_message failure))
  end.

(** [stage] is queued exactly when there is a position. *)
Record WaitingRequest := MkWaiting {
  wr_id : string; wr_requesterId : string; wr_spec : DeviceRequest; wr_createdAt : Z;
  wr_queuePosition : option Z; wr_reason : option WaitingReason }.
Definition waitingRequest {G} (record : LeaseRequestRecord G) (place : QueuePlace) : WaitingRequest :=
  let '(_, queuePosition, reason) := place in
  let request := q_request record in
  MkWaiting (q_id record) (q_requesterId record)
    (MkRequest (rq_platform request) (rq_model request) (rq_osVersion request) (rq_mode request)
       (rq_imageTag request) (rq_except request) (rq_baseline request) (rq_class request)
       (if rq_physical request === Some true then Some true else None))
    (q_createdAt record) queuePosition
    (match queuePosition with None => None | Some _ => reason end).

(** [Set.add]. *)
Definition set_add (x : nat) (l : list nat) : list nat := if Arr.includes x l then l else l ++ [x].

Section book.
Context {S G : Type} `{LeaseRequestStore S G}.
Context (leaseIdOf : G → string) (describeFailure : WaitError → LeaseRequestFailure) (now : Z).
Local Abbreviation book := (Book S G).
Local Abbreviation op A := (action book BookError A).

Definition note (c : BookCall) : op unit := modify (λ b, b <| b_log := b_log b ++ [c] |>).
Definition put (i : string) (e : OpenRequest G) : op unit :=
  modify (λ b, b <| b_entries := <[i := e]> (b_entries b) |>).
(** [this.#open.get(id)]. *)
Definition open_entry (i : string) (b : book) : option (OpenRequest G) :=
  e ← b_entries b !! i; if e_listed e then Some e else None.

(** The record stored under the request's key, once the repeat is proven to be the same. *)
Definition stored (request : DeviceRequest) (options : LeaseRequestOptions) (b : book)
    : result BookError (option (LeaseRequestRecord G)) :=
  match ro_idempotencyKey options with
  | None => Ok None
  | Some key =>
      match Arr.find (λ c, (q_requesterId c === ro_requesterId options)
               && (q_idempotencyKey c === Some key)) (store_leaseRequests now (b_store b)) with
      | None => Ok None
      | Some record =>
          if q_ownerId record !== ro_ownerId options then Err (LeaseRequestForbiddenError (q_id record))
          else if negb (sameDeviceRequest (q_request record) request)
                  || (q_leaseId record !== ro_leaseId options)
          then Err (IdempotencyConflictError (ro_requesterId options) key)
          else Ok (Some record)
      end
  end.

(** Progress told to every caller, then every watcher notified. *)
Definition tell_all (callers : list nat) (p : LeaseProgress) (watchers : list nat) : op unit :=
  modify (λ b, b <| b_log := b_log b ++ ((λ c, Told c p) <$> callers) ++ (Notified <$> watchers) |>).

Definition attach (i : string) (e : OpenRequest G) (onProgress : option nat) : op unit :=
  match onProgress with
  | None => mret tt
  | Some caller =>
      if e_phase e !== phase_open then mret tt else
      _ ← put i (e <| e_callers := set_add caller (e_callers e) |>);
      match e_progress e with None => mret tt | Some p => note (Told caller p) end
  end.

Definition replay (request : DeviceRequest) (options : BookOptions) : op (option (ReplayAnswer G)) :=
  b ← get;
  found ← lift (stored request (bo_options options) b);
  match found with
  | None => mret None
  | Some record =>
      match open_entry (q_id record) b, open_entry (q_id record) b ≫= e_promise with
      | Some e, Some promise =>
          _ ← note (OnAdmitted (q_id record) true);
          _ ← attach (q_id record) e (bo_onProgress options);
          mret (Some (Joined promise))
      | _, _ =>
          _ ← guard_or (isSettled record) (UndrivenError (q_id record));
          _ ← note (OnAdmitted (q_id record) true);
          mret (Some (StoredResult (storedResult record)))
      end
  end.

(** [start] hands out the promise of the wait it starts; when it throws, the promise is the one
    made to be rejected with the same error. What the wait reports comes after, as [report]. *)
Definition admit_request (generated : string) (rid : option string) (request : DeviceRequest)
    (options : BookOptions) (start : string → nat * option WaitError) : op string :=
  let o := bo_options options in
  b ← get;
  let '(s, record) := store_createLeaseRequest now generated
        (MkNewRequest rid (ro_requesterId o) (ro_ownerId o) (ro_idempotencyKey o) (ro_leaseId o)
           (ro_fleetRequestId o) request) (b_store b) in
  _ ← modify (λ b : book, b <| b_store := s |>);
  let '(promise, thrown) := start (q_id record) in
  _ ← put (q_id record) (MkOpen true (ro_requesterId o) (Some promise) None
        (match bo_onProgress options with None => [] | Some c => [c] end) [] None phase_open);
  match thrown with
  | Some error => throw (StartError error)
  | None => _ ← note (OnAdmitted (q_id record) false); mret (q_id record)
  end.

Definition report (i : string) (progress : LeaseProgress) : op unit :=
  b ← get;
  match b_entries b !! i with
  | None => mret tt
  | Some e =>
      if e_phase e !== phase_open then mret tt else
      _ ← put i (e <| e_progress := Some progress |>);
      tell_all (e_callers e) progress (e_watchers e)
  end.

Definition outcomeOf (settlement : result WaitError G) : LeaseRequestOutcome G :=
  match settlement with
  | Ok grant => OutcomeGranted grant
  | Err (RequestCancelledError _) => OutcomeCancelled
  | Err error => OutcomeFailed (describeFailure error)
  end.

(** [#settle] up to its write. *)
Definition settling (i : string) (settlement : result WaitError G) : op unit :=
  b ← get;
  match b_entries b !! i with
  | None => mret tt
  | Some e => put i (e <| e_phase := phase_settling |> <| e_outcome := Some (outcomeOf settlement) |>)
  end.
(** [#settle] from its write on; [written] is false when the write fails. *)
Definition settled_ (i : string) (written : bool) : op unit :=
  b ← get;
  match b_entries b !! i with
  | Some e =>
      match e_outcome e with
      | None => mret tt
      | Some outcome =>
          _ ← (if written then
                 modify (λ b : book, b <| b_store := (store_settleLeaseRequest now i outcome (b_store b)).1 |>)
               else mret tt);
          _ ← put i (e <| e_listed := e_listed e && negb written |> <| e_phase := phase_settled |>
                       <| e_watchers := [] |>);
          modify (λ b : book, b <| b_log := b_log b ++ (Notified <$> e_watchers e) |>)
      end
  | None => mret tt
  end.

Definition watch (i : string) (listener : nat) : op bool :=
  b ← get;
  match open_entry i b with
  | None => mret false
  | Some e =>
      if e_phase e === phase_settled then mret false else
      _ ← put i (e <| e_watchers := set_add listener (e_watchers e) |>); mret true
  end.
(** The function [watch] returned, called. *)
Definition unwatch (i : string) (listener : nat) : op unit :=
  b ← get;
  match b_entries b !! i with
  | None => mret tt
  | Some e => put i (e <| e_watchers := Arr.filter (λ w, w !== listener) (e_watchers e) |>)
  end.

(** ** Reads *)

Definition get_request (i : string) (b : book) : option (LeaseRequestRecord G * option LeaseProgress) :=
  match Arr.find (λ c, q_id c === i) (store_leaseRequests now (b_store b)) with
  | None => None
  | Some record =>
      match open_entry i b ≫= e_outcome with
      | Some outcome =>
          if negb (isSettled record) then Some (with_outcome record outcome, None)
          else Some (record, open_entry i b ≫= e_progress)
      | None => Some (record, open_entry i b ≫= e_progress)
      end
  end.

Definition waiting (places : list QueuePlace) (b : book) : list WaitingRequest :=
  Arr.flatMap (λ record,
      match Arr.find (λ p, p.1.1 === q_id record) (reverse places) with
      | None => []
      | Some place => [waitingRequest record place]
      end) (store_leaseRequests now (b_store b)).

Definition holdsLeaseId (leaseId : string) (b : book) : bool :=
  Arr.some (λ r, (q_leaseId r === Some leaseId) && negb (isSettled r))
    (store_leaseRequests now (b_store b)).

Definition requestIdForLease (leaseId : string) (b : book) : option string :=
  q_id <$> Arr.find (λ r, match q_grant r with Some g => leaseIdOf g === leaseId | None => false end)
             (store_leaseRequests now (b_store b)).
End book.

(** ** Runs *)

(** A record that is the same, or the same request with a result it did not have. *)
Definition continues {G} (x y : LeaseRequestRecord G) : Prop :=
  x = y ∨ isSettled x = false ∧ isSettled y = true ∧ q_id x = q_id y
    ∧ q_requesterId x = q_requesterId y ∧ q_idempotencyKey x = q_idempotencyKey y.
(** What others may do to the stored list meanwhile: settle records and drop them. *)
Definition evolves {G} (rs rs' : list (LeaseRequestRecord G)) : Prop :=
  sublist (q_id <$> rs') (q_id <$> rs) ∧ ∀ y, y ∈ rs' → ∃ x, x ∈ rs ∧ continues x y.

Section runs.
Context {S G : Type} `{LeaseRequestStoreLaws S G} (describeFailure : WaitError → LeaseRequestFailure).

(** One uninterrupted piece of work at [now]. Admission follows a replay that found nothing, in
    the owner's serialized section, under a new id; a wait's promise settles once. *)
Inductive book_step (now : Z) (b : Book S G) : Book S G → Prop :=
| step_replay request options : book_step now b (replay now request options b).1
| step_admit g rid request options start :
    (replay now request options b).2 = Ok None →
    default (newLeaseRequestId g) rid ∉ q_id <$> store_records (b_store b) →
    b_entries b !! default (newLeaseRequestId g) rid = None →
    book_step now b (admit_request now g rid request options start b).1
| step_report i p : book_step now b (report i p b).1
| step_settling i e settlement : b_entries b !! i = Some e → e_phase e = phase_open →
    book_step now b (settling describeFailure i settlement b).1
| step_settled i e written : b_entries b !! i = Some e → e_phase e = phase_settling →
    book_step now b (settled_ now i written b).1
| step_watch i l : book_step now b (watch i l b).1
| step_unwatch i l : book_step now b (unwatch i l b).1
| step_others s' : evolves (store_records (b_store b)) (store_records s') →
    book_step now b (b <| b_store := s' |>).

(** A book starts on a store whose requests are all settled (a restarted daemon fails the open
    ones first), each with its own id and key. *)
Definition stored_once (rs : list (LeaseRequestRecord G)) : Prop :=
  NoDup (q_id <$> rs)
  ∧ ∀ x y k, x ∈ rs → y ∈ rs → q_requesterId x = q_requesterId y →
      q_idempotencyKey x = Some k → q_idempotencyKey y = Some k → q_id x = q_id y.
Inductive book_reachable : Z → Book S G → Prop :=
| book_start now s : stored_once (store_records s) → (∀ x, x ∈ store_records s → isSettled x = true) →
    book_reachable now (MkBook s ∅ [])
| book_next now now' b b' : book_reachable now b → (now ≤ now')%Z → book_step now' b b' →
    book_reachable now' b'.

(** Every open request is driven: its entry is in the map, with the promise of its wait. *)
Definition driven (b : Book S G) (x : LeaseRequestRecord G) : Prop :=
  ∃ e p, b_entries b !! q_id x = Some e ∧ e_listed e = true ∧ e_promise e = Some p.
Record book_ok (b : Book S G) : Prop := {
  bk_once : stored_once (store_records (b_store b));
  bk_driven x : x ∈ store_records (b_store b) → isSettled x = false → driven b x;
  bk_promise i e : b_entries b !! i = Some e → e_promise e ≠ None }.

(** ** Lemmas *)

Lemma continues_id (x y : LeaseRequestRecord G) : continues x y → q_id x = q_id y
  ∧ q_requesterId x = q_requesterId y ∧ q_idempotencyKey x = q_idempotencyKey y
  ∧ (isSettled y = false → x = y).
Proof. intros [->|(? & ? & ? & ? & ?)]; [done|]. split_and!; try done. congruence. Qed.

Lemma evolves_once (rs rs' : list (LeaseRequestRecord G)) : evolves rs rs' → stored_once rs → stored_once rs'.
Proof.
  intros (Hsub & Hfrom) [Hn Hk]. split; [by eapply sublist_NoDup|].
  intros x y k Hx Hy Hr Hkx Hky. destruct (Hfrom x Hx) as (x0 & Hx0 & (<- & Ex & Ekx & _)%continues_id).
  destruct (Hfrom y Hy) as (y0 & Hy0 & (<- & Ey & Eky & _)%continues_id). apply (Hk x0 y0 k); congruence.
Qed.

Lemma evolves_settle (rs rs' : list (LeaseRequestRecord G)) i o now :
  sublist rs' (withSettledLeaseRequest rs i o now).1 → evolves rs rs'.
Proof.
  destruct (withSettled_cases rs i o now) as [(j & r & Hj & Hid & Hopen & _ & ->)|[_ ->]]; cbn [fst];
    intros Hsub.
  2:{ split; [by apply fmap_sublist|].
      intros y Hy. exists y. split; [by eapply sublist_elem_of|by left]. }
  set (r' := (with_outcome r o) <| q_settledAt := Some now |>) in *.
  assert (continues r r') as Hc. { right. by destruct o. }
  split.
  - etrans; [by apply fmap_sublist|]. rewrite list_fmap_insert, list_insert_id; [done|].
    rewrite list_lookup_fmap, Hj. cbn. by destruct o.
  - intros y Hy. assert (y ∈ <[j := r']> rs) as [k Hk]%list_elem_of_lookup by (by eapply sublist_elem_of).
    destruct (decide (k = j)) as [->|Hne].
    + rewrite list_lookup_insert_eq in Hk by (by eapply lookup_lt_Some). simplify_eq.
      exists r. split; [by eapply list_elem_of_lookup_2|done].
    + rewrite list_lookup_insert_ne in Hk by done. exists y. split; [by eapply list_elem_of_lookup_2|by left].
Qed.

(** After a settlement the request is not open any more. *)
Lemma settle_closes (rs : list (LeaseRequestRecord G)) i o now x : NoDup (q_id <$> rs) →
  x ∈ (withSettledLeaseRequest rs i o now).1 → q_id x = i → isSettled x = true.
Proof.
  intros Hn Hx Hi. destruct (withSettled_cases rs i o now) as [(j & r & Hj & Hid & _ & _ & E)|[Hall E]];
    rewrite E in Hx; cbn [fst] in Hx.
  - apply list_elem_of_lookup in Hx as [k Hk]. destruct (decide (k = j)) as [->|Hne].
    + rewrite list_lookup_insert_eq in Hk by (by eapply lookup_lt_Some). simplify_eq. by destruct o.
    + rewrite list_lookup_insert_ne in Hk by done. exfalso. apply Hne.
      eapply (NoDup_lookup (q_id <$> rs)); [done|rewrite list_lookup_fmap, Hk; done|].
      rewrite list_lookup_fmap, Hj. cbn. by rewrite Hid, Hi.
  - apply list_elem_of_lookup in Hx as [k Hk]. apply (Hall k x Hk Hi). intros l y Hl Hlt Hy.
    assert (l = k); [|lia]. eapply (NoDup_lookup (q_id <$> rs)); [done|rewrite list_lookup_fmap, Hl; done|].
    rewrite list_lookup_fmap, Hk. cbn. congruence.
Qed.

(** The record a read shows is a stored one, with at most its grant refreshed. *)
Lemma read_stored now s x : x ∈ store_leaseRequests now s →
  ∃ y, y ∈ store_records s ∧ retained now store_retention y = true ∧ same_request x y.
Proof.
  destruct (law_leaseRequests now s) as (refresh & Hf & ->).
  intros (y & -> & [Hy Hr]%elem_of_retained)%list_elem_of_fmap. eauto.
Qed.
Lemma stored_read now s y : y ∈ store_records s → retained now store_retention y = true →
  ∃ x, x ∈ store_leaseRequests now s ∧ same_request x y.
Proof.
  intros Hy Hr. destruct (law_leaseRequests now s) as (refresh & Hf & ->). exists (refresh y).
  split; [|done]. apply list_elem_of_fmap_2. by apply elem_of_retained.
Qed.
Lemma same_request_fields (x y : LeaseRequestRecord G) : same_request x y →
  q_id x = q_id y ∧ q_requesterId x = q_requesterId y ∧ q_ownerId x = q_ownerId y
  ∧ q_idempotencyKey x = q_idempotencyKey y ∧ q_leaseId x = q_leaseId y ∧ q_request x = q_request y
  ∧ isSettled x = isSettled y.
Proof. intros [E _]. destruct x, y. unfold isSettled. cbn in *. by simplify_eq. Qed.

(** What each operation leaves of a book whose store and entries it may change. *)
Lemma book_ok_store b s' : book_ok b → evolves (store_records (b_store b)) (store_records s') →
  book_ok (b <| b_store := s' |>).
Proof.
  intros [Ho Hd Hp] He. split; [by eapply evolves_once| |done]. cbn. intros y Hy Hopen.
  destruct He as [_ Hfrom]. destruct (Hfrom y Hy) as (x & Hx & (_ & _ & _ & E)%continues_id).
  rewrite (E Hopen) in Hx. by destruct (Hd y Hx Hopen) as (e & p & ?); exists e, p.
Qed.

(** An entry may change as long as it keeps its promise and its place in the map. *)
Lemma book_ok_put b i e e' : book_ok b → b_entries b !! i = Some e →
  e_listed e' = e_listed e → e_promise e' = e_promise e →
  book_ok (b <| b_entries := <[i := e']> (b_entries b) |>).
Proof.
  intros [Ho Hd Hp] Hi Hl Hpr. split; [done|..]; cbn.
  - intros x Hx Hopen. destruct (Hd x Hx Hopen) as (f & p & Hf & Hfl & Hfp). unfold driven. cbn.
    destruct (decide (q_id x = i)) as [Ei|Hne].
    + rewrite Ei in *. exists e', p. rewrite lookup_insert_eq. split_and!; congruence.
    + exists f, p. by rewrite lookup_insert_ne.
  - intros j f. destruct (decide (j = i)) as [->|Hne].
    + rewrite lookup_insert_eq. intros [= <-]. rewrite Hpr. by eapply Hp.
    + rewrite lookup_insert_ne by done. apply Hp.
Qed.
Lemma book_ok_log b l : book_ok b → book_ok (b <| b_log := l |>).
Proof. intros [? ? ?]. by split. Qed.

Definition keeps {A} (m : action (Book S G) BookError A) (b : Book S G) : Prop :=
  runs m b (λ _ b', book_ok b') (λ _ b', book_ok b').
Lemma keeps_fst {A} (m : action (Book S G) BookError A) b : keeps m b → book_ok (m b).1.
Proof. unfold keeps, runs. by destruct (m b) as [b' []]. Qed.

Lemma open_entry_Some i (b : Book S G) e : open_entry i b = Some e ↔
  b_entries b !! i = Some e ∧ e_listed e = true.
Proof.
  unfold open_entry. rewrite bind_Some. split.
  - intros (f & Hf & E). destruct (e_listed f) eqn:El; [|done]. by simplify_eq.
  - intros [Hi Hl]. exists e. by rewrite Hl.
Qed.

Lemma attach_keeps b i e caller : book_ok b → b_entries b !! i = Some e →
  runs (attach i e caller) b (λ _ b', book_ok b' ∧ b_store b' = b_store b) (λ _ _, False).
Proof.
  intros Hb Hi. unfold attach, put, note. destruct caller as [c|]; [|by apply runs_ret].
  destruct (negb _); [by apply runs_ret|]. run_action.
  set (e' := e <| e_callers := set_add c (e_callers e) |>).
  assert (book_ok (b <| b_entries := <[i := e']> (b_entries b) |>)) as Hb' by by eapply book_ok_put.
  destruct (e_progress e); run_action; (split; [|done]); [by apply book_ok_log|done].
Qed.

Lemma replay_keeps now request options b : book_ok b → keeps (replay now request options) b.
Proof.
  intros Hb. unfold keeps, replay, note. run_action; [|done]. rename a into found.
  destruct found as [record|]; [|by apply runs_ret].
  destruct (open_entry (q_id record) b) as [e|] eqn:E; cbn [option_bind mbind];
    [destruct (e_promise e) as [p|]|]; run_action; try done; try (by apply book_ok_log).
  apply open_entry_Some in E as [E _].
  eapply runs_mono; [by apply (attach_keeps (b <| b_log := _ |>) _ e); [apply book_ok_log|]|..]; [|done].
  intros [] b' [Hb' _]. by apply runs_ret.
Qed.

(** What a replay answers. *)
Lemma replay_answer now request options b :
  (replay now request options b).2 =
  match stored now request (bo_options options) b with
  | Err e => Err e
  | Ok None => Ok None
  | Ok (Some record) =>
      match open_entry (q_id record) b ≫= e_promise with
      | Some p => Ok (Some (Joined p))
      | None => if isSettled record then Ok (Some (StoredResult (storedResult record)))
                else Err (UndrivenError (q_id record))
      end
  end.
Proof.
  unfold replay, get, lift, guard_or, note.
  rewrite (bind_eval (λ s, (s, Ok s)) _ b b b) by done.
  destruct (stored now request (bo_options options) b) as [[record|]|e]; try done.
  rewrite (bind_eval (λ s, (s, Ok (Some record))) _ b b (Some record)) by done.
  destruct (open_entry (q_id record) b) as [e|]; cbn [mbind option_bind]; [destruct (e_promise e) as [p|]|];
    unfold mbind, action_bind; cbn.
  - unfold attach, put. destruct (bo_onProgress options) as [c|]; [|done].
    destruct (negb _); [done|]. cbn. unfold mbind, action_bind. cbn. by destruct (e_progress e).
  - by destruct (isSettled record).
  - by destruct (isSettled record).
Qed.

Lemma stored_spec now request options b : 
  match stored now request options b with
  | Ok None => ∀ k x, ro_idempotencyKey options = Some k → x ∈ store_leaseRequests now (b_store b) →
      q_requesterId x = ro_requesterId options → q_idempotencyKey x ≠ Some k
  | Ok (Some x) => x ∈ store_leaseRequests now (b_store b) ∧ q_requesterId x = ro_requesterId options
      ∧ (∃ k, ro_idempotencyKey options = Some k ∧ q_idempotencyKey x = Some k)
      ∧ q_ownerId x = ro_ownerId options ∧ sameDeviceRequest (q_request x) request = true
      ∧ q_leaseId x = ro_leaseId options
  | Err e => ∃ k x, ro_idempotencyKey options = Some k ∧ x ∈ store_leaseRequests now (b_store b)
      ∧ q_requesterId x = ro_requesterId options ∧ q_idempotencyKey x = Some k
      ∧ (q_ownerId x ≠ ro_ownerId options ∧ e = LeaseRequestForbiddenError (q_id x)
         ∨ q_ownerId x = ro_ownerId options
           ∧ (sameDeviceRequest (q_request x) request = false ∨ q_leaseId x ≠ ro_leaseId options)
           ∧ e = IdempotencyConflictError (ro_requesterId options) k)
  end.
Proof.
  unfold stored. destruct (ro_idempotencyKey options) as [k|]; [|done].
  destruct (Arr.find _ _) as [x|] eqn:E.
  - apply afind_Some in E as [Hx [Hr%bool_decide_eq_true Hk%bool_decide_eq_true]%andb_prop].
    case_bool_decide as Ho; cbn [negb]; [|exists k, x; split_and!; auto].
    destruct (sameDeviceRequest (q_request x) request) eqn:Es; cbn [negb orb];
      [|exists k, x; split_and!; auto].
    case_bool_decide as El; cbn [negb]; [split_and!; eauto|exists k, x; split_and!; auto].
  - intros k' x [= <-] Hx Hr Hk. pose proof (proj1 (afind_None _ _) E x Hx) as Hn. cbn in Hn.
    by rewrite !bool_decide_eq_true_2 in Hn.
Qed.

Lemma admit_keeps now g rid request options start b : book_ok b →
  (replay now request options b).2 = Ok None →
  default (newLeaseRequestId g) rid ∉ q_id <$> store_records (b_store b) →
  b_entries b !! default (newLeaseRequestId g) rid = None →
  keeps (admit_request now g rid request options start) b.
Proof.
  intros [[Hn Hk] Hd Hp] Hre Hid Hfresh. unfold keeps, admit_request, put, note. run_action.
  set (input := MkNewRequest _ _ _ _ _ _ _). pose proof (law_create now g input (b_store b)) as Hlaw.
  destruct (store_createLeaseRequest now g input (b_store b)) as [s r].
  destruct Hlaw as [-> (kept & Hrs & Hsub & Hret & _)].
  set (r := newLeaseRequestRecord (default (newLeaseRequestId g) (n_id input)) input now) in *.
  assert (∀ x k, x ∈ kept → q_requesterId x = q_requesterId r → q_idempotencyKey x = Some k →
    q_idempotencyKey r ≠ Some k) as Hnew.
  { intros x k Hx Hr Hkx Hkr. rewrite replay_answer in Hre.
    pose proof (stored_spec now request (bo_options options) b) as Hst.
    destruct (stored now request (bo_options options) b) as [[y|]|e].
    - destruct (_ ≫= e_promise); [done|]. by destruct (isSettled y).
    - destruct (stored_read now (b_store b) x) as (x' & Hx' & Hsame);
        [by eapply sublist_elem_of|by apply Hret|].
      apply same_request_fields in Hsame as (_ & Er & _ & Ek & _).
      apply (Hst k x' Hkr Hx'); [by rewrite Er|by rewrite Ek].
    - done. }
  assert (stored_once (store_records s)) as Honce.
  { rewrite Hrs. split.
    - rewrite fmap_app. apply NoDup_app. split_and!; [|..|apply NoDup_singleton].
      + eapply sublist_NoDup; [exact Hn|]. by apply fmap_sublist.
      + intros i Hi ->%list_elem_of_singleton. apply Hid. eapply sublist_elem_of; [|exact Hi].
        by apply fmap_sublist.
    - intros x y k [Hx| ->%list_elem_of_singleton]%elem_of_app [Hy| ->%list_elem_of_singleton]%elem_of_app Hr Hkx Hky.
      + eapply (Hk x y k); [by eapply sublist_elem_of..|done|done|done].
      + by destruct (Hnew x k Hx Hr Hkx).
      + by destruct (Hnew y k Hy (eq_sym Hr) Hky).
      + done. }
  destruct (start (q_id r)) as [promise thrown].
  set (e := MkOpen true _ (Some promise) None _ [] None phase_open).
  assert (book_ok (b <| b_store := s |> <| b_entries := <[q_id r := e]> (b_entries b) |>)) as Hok.
  { split; [done|..]; cbn.
    - rewrite Hrs. intros x [Hx| ->%list_elem_of_singleton]%elem_of_app Ho; unfold driven; cbn.
      + destruct (Hd x) as (f & p & Hf & ? & ?); [by eapply sublist_elem_of|done|]. exists f, p.
        rewrite lookup_insert_ne; [done|]. intros E. rewrite <- E in Hf. cbn in Hf. congruence.
      + exists e, promise. by rewrite lookup_insert_eq.
    - intros i f. destruct (decide (i = q_id r)) as [->|Hne].
      + rewrite lookup_insert_eq. by intros [= <-].
      + rewrite lookup_insert_ne by done. apply Hp. }
  run_action. destruct thrown; run_action; [done|]. by apply book_ok_log.
Qed.

(** What admission leaves: the new record, open, and its entry with the promise of [start]. *)
Lemma admit_leaves now g rid request options start b k :
  let i := default (newLeaseRequestId g) rid in let o := bo_options options in
  let b' := (admit_request now g rid request options start b).1 in
  ro_idempotencyKey o = Some k →
  ∃ r e, r ∈ store_records (b_store b') ∧ q_id r = i ∧ b_entries b' !! i = Some e
    ∧ e_listed e = true ∧ e_promise e = Some (start i).1 ∧ isSettled r = false
    ∧ q_requesterId r = ro_requesterId o ∧ q_idempotencyKey r = Some k
    ∧ q_ownerId r = ro_ownerId o ∧ q_request r = request ∧ q_leaseId r = ro_leaseId o.
Proof.
  intros i o b' Hk. unfold b', admit_request. rewrite (bind_eval get _ b b b) by done.
  set (input := MkNewRequest _ _ _ _ _ _ _). pose proof (law_create now g input (b_store b)) as Hlaw.
  destruct (store_createLeaseRequest now g input (b_store b)) as [s r].
  destruct Hlaw as [-> (kept & Hrs & _)].
  set (r := newLeaseRequestRecord (default (newLeaseRequestId g) (n_id input)) input now) in *.
  change (q_id r) with i. destruct (start i) as [promise thrown]. cbv zeta.
  set (e := MkOpen true _ (Some promise) None _ [] None phase_open).
  set (b1 := b <| b_store := s |> <| b_entries := <[i := e]> (b_entries b) |>).
  exists r, e. match goal with |- context [b_store ?x] => assert (∃ l, x = b1 <| b_log := l |>) as [l ->] end.
  { destruct thrown; [by exists (b_log b)|by eexists]. }
  cbn. rewrite Hrs, lookup_insert_eq. split_and!; try done. apply elem_of_app. right. by left.
Qed.

Lemma settled_keeps now i e written b : book_ok b → b_entries b !! i = Some e →
  keeps (settled_ now i written) b.
Proof.
  intros Hb Hi. unfold keeps, settled_, put. run_action. rewrite Hi.
  destruct (e_outcome e) as [o|]; [|by apply runs_ret].
  set (e' := e <| e_listed := e_listed e && negb written |> <| e_phase := phase_settled |>
               <| e_watchers := [] |>). run_action.
  destruct written; run_action; apply book_ok_log; cbn in e'.
  2:{ eapply book_ok_put; [done..| |done]. cbn. apply andb_true_r. }
  pose proof (law_settle now i o (b_store b)) as [Hsub _].
  set (s' := (store_settleLeaseRequest now i o (b_store b)).1) in *.
  pose proof (book_ok_store b s' Hb (evolves_settle _ _ _ _ _ Hsub)) as Hb'.
  destruct Hb' as [Honce Hd Hp]. split; [done|..]; cbn.
  - intros x Hx Ho. destruct (Hd x Hx Ho) as (f & p & Hf & ? & ?). exists f, p. cbn in *.
    rewrite lookup_insert_ne; [done|]. intros Ei. enough (isSettled x = true) by congruence.
    eapply settle_closes; [apply (bk_once b Hb)|by eapply sublist_elem_of|done].
  - intros j f. destruct (decide (j = i)) as [->|Hne].
    + rewrite lookup_insert_eq. intros [= <-]. by apply (bk_promise b Hb i e).
    + rewrite lookup_insert_ne by done. apply Hp.
Qed.

Lemma book_step_ok now b b' : book_ok b → book_step now b b' → book_ok b'.
Proof.
  intros Hb [request options|g rid request options start Hre Hid Hf|i p|i e x Hi Hph|i e w Hi Hph|i l|i l|s' He].
  - by apply keeps_fst, replay_keeps.
  - by apply keeps_fst, admit_keeps.
  - apply keeps_fst. unfold keeps, report, put, tell_all. run_action.
    destruct (b_entries b !! i) as [e|] eqn:Hi; [|by apply runs_ret].
    destruct (negb _); run_action; [done|]. apply book_ok_log. by eapply book_ok_put.
  - apply keeps_fst. unfold keeps, settling, put. run_action. rewrite Hi. run_action.
    by eapply book_ok_put.
  - apply keeps_fst. by eapply settled_keeps.
  - apply keeps_fst. unfold keeps, watch, put. run_action.
    destruct (open_entry i b) as [e|] eqn:Hi; [|by apply runs_ret]. apply open_entry_Some in Hi as [Hi _].
    destruct (bool_decide _); run_action; [done|]. by eapply book_ok_put.
  - apply keeps_fst. unfold keeps, unwatch, put. run_action.
    destruct (b_entries b !! i) as [e|] eqn:Hi; [|by apply runs_ret]. run_action. by eapply book_ok_put.
  - by apply book_ok_store.
Qed.

Lemma book_reachable_ok now b : book_reachable now b → book_ok b.
Proof.
  induction 1 as [now s Ho Hs|now now' b b' _ IH _ Hs]; [|by eapply book_step_ok]. split; [done|..]; cbn.
  - intros x Hx Hopen. rewrite (Hs x Hx) in Hopen. done.
  - intros i e Hi. by apply lookup_empty_Some in Hi.
Qed.

Lemma sameDeviceRequest_refl r : sameDeviceRequest r r = true.
Proof. unfold sameDeviceRequest. rewrite !bool_decide_eq_true_2 by done. by rewrite Bool.eqb_reflx. Qed.

Lemma replay_store now request options b : b_store (replay now request options b).1 = b_store b.
Proof.
  enough (runs (replay now request options) b (λ _ b', b_store b' = b_store b)
    (λ _ b', b_store b' = b_store b)) as Hr.
  { unfold runs in Hr. by destruct (replay now request options b) as [b' []]. }
  unfold replay, note. run_action; [|done]. rename a into found.
  destruct found as [record|]; [|by apply runs_ret].
  destruct (open_entry (q_id record) b) as [e|]; cbn [option_bind mbind];
    [destruct (e_promise e) as [p|]|]; run_action; try done.
  unfold attach, put, note. destruct (bo_onProgress options); run_action; [|done].
  destruct (negb _); run_action; [done|]. destruct (e_progress e); run_action; done.
Qed.

(** The stored record a request would be answered from, when it is this one. *)
Lemma stored_finds now request options k b y : book_ok b →
  ro_idempotencyKey options = Some k → y ∈ store_records (b_store b) →
  retained now store_retention y = true → q_requesterId y = ro_requesterId options →
  q_idempotencyKey y = Some k → q_ownerId y = ro_ownerId options → q_request y = request →
  q_leaseId y = ro_leaseId options →
  ∃ x, stored now request options b = Ok (Some x) ∧ q_id x = q_id y.
Proof.
  intros Hb Hk Hy Hret Hr Hky Ho Hreq Hl. pose proof (stored_spec now request options b) as Hst.
  destruct (stored_read now (b_store b) y Hy Hret) as (y' & Hy' & (Eid & Er & _ & Ek & _)%same_request_fields).
  assert (∀ x, x ∈ store_leaseRequests now (b_store b) → q_requesterId x = ro_requesterId options →
    q_idempotencyKey x = Some k → ∃ x0, same_request x x0 ∧ x0 = y) as Hone.
  { intros x Hx Hxr Hxk. destruct (read_stored now _ x Hx) as (x0 & Hx0 & _ & Hs). exists x0. split; [done|].
    pose proof (same_request_fields x x0 Hs) as (_ & Exr & _ & Exk & _).
    destruct (bk_once b Hb) as [Hn Hkeys]. eapply (NoDup_fmap_inj_on q_id); [done..|].
    apply (Hkeys x0 y k); congruence. }
  destruct (stored now request options b) as [[x|]|e].
  - destruct Hst as (Hx & Hxr & (k' & Hk' & Hxk) & _). exists x. split; [done|].
    destruct (Hone x Hx Hxr) as (x0 & Hs & ->); [congruence|]. by apply same_request_fields in Hs as [? _].
  - exfalso. apply (Hst k y' Hk Hy'); congruence.
  - exfalso. destruct Hst as (k' & x & Hk' & Hx & Hxr & Hxk & Herr).
    destruct (Hone x Hx Hxr) as (x0 & Hs & ->); [congruence|].
    apply same_request_fields in Hs as (_ & _ & Eo & _ & El & Erq & _).
    destruct Herr as [[? _]|(_ & [Hf|?] & _)]; [congruence| |congruence].
    rewrite Erq, Hreq, sameDeviceRequest_refl in Hf. done.
Qed.
End runs.

(** ** Properties *)

(** C23. A repeat is answered from the record of the first request. In any reachable book, over any
    store that keeps the interface's laws, a request with an idempotency key that some stored request
    of the requester has is refused as another principal's, refused as a conflict when it names
    another device or lease id, or else given the promise of the wait that is still open, or the
    stored result once there is one; a request is new only when no stored request has its key. It is
    never left without either, and asking changes nothing that is stored. *)
Theorem replay_answers {S G} `{LeaseRequestStoreLaws S G} describeFailure t (b : Book S G) now
    request options : book_reachable describeFailure t b →
  let o := bo_options options in
  b_store (replay now request options b).1 = b_store b
  ∧ match (replay now request options b).2 with
    | Ok None => ∀ k x, ro_idempotencyKey o = Some k → x ∈ store_leaseRequests now (b_store b) →
        q_requesterId x = ro_requesterId o → q_idempotencyKey x ≠ Some k
    | Ok (Some answer) => ∃ x k, x ∈ store_leaseRequests now (b_store b)
        ∧ ro_idempotencyKey o = Some k ∧ q_idempotencyKey x = Some k
        ∧ q_requesterId x = ro_requesterId o ∧ q_ownerId x = ro_ownerId o
        ∧ sameDeviceRequest (q_request x) request = true ∧ q_leaseId x = ro_leaseId o
        ∧ match answer with
          | Joined p => ∃ e, b_entries b !! q_id x = Some e ∧ e_listed e = true ∧ e_promise e = Some p
          | StoredResult r => isSettled x = true ∧ r = storedResult x
          end
    | Err e => ∃ k x, ro_idempotencyKey o = Some k ∧ x ∈ store_leaseRequests now (b_store b)
        ∧ q_requesterId x = ro_requesterId o ∧ q_idempotencyKey x = Some k
        ∧ (q_ownerId x ≠ ro_ownerId o ∧ e = LeaseRequestForbiddenError (q_id x)
           ∨ q_ownerId x = ro_ownerId o
             ∧ (sameDeviceRequest (q_request x) request = false ∨ q_leaseId x ≠ ro_leaseId o)
             ∧ e = IdempotencyConflictError (ro_requesterId o) k)
    end.
Proof.
  intros Hre o. pose proof (book_reachable_ok _ _ _ Hre) as Hb. split; [apply replay_store|].
  rewrite replay_answer. pose proof (stored_spec now request o b) as Hst. unfold o in *.
  destruct (stored now request (bo_options options) b) as [[x|]|e]; [|done..].
  destruct Hst as (Hx & Hr & (k & Hk & Hxk) & Ho & Hs & Hl).
  destruct (open_entry (q_id x) b ≫= e_promise) as [p|] eqn:E.
  - apply bind_Some in E as (e & [He Hle]%open_entry_Some & Hp). exists x, k. split_and!; eauto.
  - destruct (isSettled x) eqn:Es; [exists x, k; split_and!; eauto|].
    destruct (read_stored now _ x Hx) as (y & Hy & _ & (Ei & _ & _ & _ & _ & _ & Ey)%same_request_fields).
    destruct (bk_driven b Hb y Hy) as (e & p & He & Hle & Hp); [congruence|].
    rewrite <- Ei in He. assert (open_entry (q_id x) b = Some e) as Hoe by by apply open_entry_Some.
    rewrite Hoe in E. cbn in E. congruence.
Qed.

(** C24. One wait per key. In any reachable book two stored requests never share an id, nor a requester
    and key; every request without a result has an entry with the promise of its wait; and a repeat
    of a request just admitted, at any time while nothing else happened, joins the very wait
    that admission started. *)
Theorem one_wait_per_key {S G} `{LeaseRequestStoreLaws S G} describeFailure t (b : Book S G) now :
  book_reachable describeFailure t b →
  let rs := store_records (b_store b) in
  NoDup (q_id <$> rs)
  ∧ (∀ x y k, x ∈ rs → y ∈ rs → q_requesterId x = q_requesterId y →
       q_idempotencyKey x = Some k → q_idempotencyKey y = Some k → x = y)
  ∧ (∀ x, x ∈ rs → isSettled x = false →
       ∃ e p, b_entries b !! q_id x = Some e ∧ e_listed e = true ∧ e_promise e = Some p)
  ∧ ∀ g rid request options start k now',
      let i := default (newLeaseRequestId g) rid in
      (replay now request options b).2 = Ok None → i ∉ q_id <$> rs → b_entries b !! i = None →
      ro_idempotencyKey (bo_options options) = Some k →
      (replay now' request options (admit_request now g rid request options start b).1).2
      = Ok (Some (Joined (start i).1)).
Proof.
  intros Hre rs. pose proof (book_reachable_ok _ _ _ Hre) as Hb. destruct (bk_once b Hb) as [Hn Hk].
  split; [done|]. split; [|split; [by apply Hb|]].
  { intros x y k Hx Hy Hr Hkx Hky. eapply (NoDup_fmap_inj_on q_id); [done..|]. by eapply Hk. }
  intros g rid request options start k now' i Hnone Hfresh Hent Hkey.
  pose proof (keeps_fst _ _ (admit_keeps now g rid request options start b Hb Hnone Hfresh Hent)) as Hb'.
  set (b' := (admit_request now g rid request options start b).1) in *.
  destruct (admit_leaves now g rid request options start b k Hkey)
    as (r & e & Hr & Hi & He & Hl & Hp & Hopen & Hrr & Hrk & Hro & Hrq & Hrl). fold b' in Hr, He.
  destruct (stored_finds now' request (bo_options options) k b' r Hb' Hkey Hr) as (x & Hx & Hxi);
    [unfold retained; by rewrite Hopen|done..|].
  assert (open_entry (q_id x) b' = Some e) as Hoe by (apply open_entry_Some; by rewrite Hxi, Hi).
  rewrite replay_answer, Hx, Hoe. cbn. by rewrite Hp.
Qed.

(** A gateway's book with one keyed request, admitted at time 3; its wait is promise 7. *)
Definition sample_limits : LeaseRequestLimits := MkLimits 1000 10.
#[local] Instance sample_store : LeaseRequestStore (InMemoryLeaseRequestStore nat) nat :=
  memory_store sample_limits.
#[local] Instance sample_laws : LeaseRequestStoreLaws (InMemoryLeaseRequestStore nat) nat :=
  memory_laws sample_limits.
Definition sample_describe (e : WaitError) : LeaseRequestFailure := MkFailure "INTERNAL" "failed".
Definition sample_book_options : BookOptions :=
  MkBookOptions (MkRequestOptions "agent" "owner" None false None (Some "key") None None None) None.
Definition sample_start (i : string) : nat * option WaitError := (7, None).
Definition sample_empty_book : Book (InMemoryLeaseRequestStore nat) nat := MkBook (MkMemory []) ∅ [].
Definition sample_book : Book (InMemoryLeaseRequestStore nat) nat :=
  (admit_request 3 "1" None sample_rq sample_book_options sample_start sample_empty_book).1.
Lemma sample_empty_book_reachable : book_reachable sample_describe 0 sample_empty_book.
Proof.
  apply book_start; [split; [apply NoDup_nil_2|]|]; by intros x; intros ** ; cbn in *; set_solver.
Qed.
Lemma sample_book_reachable : book_reachable sample_describe 3 sample_book.
Proof.
  eapply book_next; [apply sample_empty_book_reachable|done|]. apply step_admit; [done| |done].
  cbn. set_solver.
Qed.

Lemma replay_answers_witness :
  (replay 5 sample_rq sample_book_options sample_book).2 = Ok (Some (Joined 7))
  ∧ b_store (replay 5 sample_rq sample_book_options sample_book).1 = b_store sample_book.
Proof.
  split; [reflexivity|].
  apply (replay_answers sample_describe 3 sample_book 5 sample_rq sample_book_options
    sample_book_reachable).
Defined.

Lemma one_wait_per_key_witness :
  (replay 9 sample_rq sample_book_options
    (admit_request 3 "1" None sample_rq sample_book_options sample_start sample_empty_book).1).2
  = Ok (Some (Joined 7)).
Proof.
  apply (one_wait_per_key sample_describe 0 sample_empty_book 3 sample_empty_book_reachable)
    with (start := sample_start) (k := "key").
  - reflexivity.
  - cbn. intros Hin. inversion Hin.
  - reflexivity.
  - reflexivity.
Defined.
