(* ===== verification/Lifecycle.v ===== *)
(** * Lease lifecycle and expiry: [src/leasing/lease-lifecycle.ts],
    [src/leasing/lease-expiry-scheduler.ts], [src/leasing/lease-reconciler.ts], and the decisions of
    [src/leasing/lease-release-coordinator.ts]

    Leases on top of the registry: granting, renewing and ending them, the timers that expire them,
    and the check of every lease against the host at startup. The scheduler's timers are kept by
    lease id with the deadline they are for; an expiry it has delivered waits in [lg_due] until the
    release coordinator decides it in its serialized section. Reclaiming, which comes after the
    decision, is not modelled. *)
From stdpp Require Import base strings list option numbers gmap sorting.
From S2P Require Import Prelude JsString OsRange Domain RequestStore Registry RegistryInv.

(** ** Data *)

Inductive LeaseEndReason := end_explicit | end_killed | end_expired | end_device_lost.
#[global] Instance LeaseEndReason_eq_dec : EqDecision LeaseEndReason.
Proof. solve_decision. Defined.
Inductive GrantSource := src_warm | src_booted | src_provisioned.

Inductive LeaseEvent :=
| LeaseGranted (deviceId leaseId requester requestId : string) (source : GrantSource)
    (platform : Platform) (baseline : option BaselineRef) (fleetRequestId : option string)
| LeaseRenewed (leaseId : string) (newDeadline : Z)
| LeaseExpired (deviceId leaseId ownerId : string)
| LeaseReleased (deviceId leaseId ownerId : string) (reason : LeaseEndReason).

Record Leasing := MkLeasing {
  lg_registry : Registry;
  lg_timers : gmap string Z;
  lg_disposed : bool;
  lg_due : list (string * Z);
  lg_events : list LeaseEvent }.
#[export] Instance Leasing_eta : Eta Leasing := λ s,
  MkLeasing (lg_registry s) (lg_timers s) (lg_disposed s) (lg_due s) (lg_events s).

Inductive LifecycleError :=
| FromRegistry (e : RegistryError)
| DeviceDisappeared (deviceId : string).

Record GrantInput := MkGrantInput {
  gi_deviceId : string; gi_ownerId : string; gi_requesterId : string; gi_requestId : string;
  gi_environment : list (string * string); gi_timing : LeaseTiming; gi_source : GrantSource;
  gi_ttlMs : option Z; gi_leaseId : option string; gi_except : option (list string);
  gi_fleetRequestId : option string }.

(** What a start read of each platform: none when the platform could not be read. *)
Inductive ObservedRunState := run_running | run_stopped | run_transitioning.
#[global] Instance ObservedRunState_eq_dec : EqDecision ObservedRunState.
Proof. solve_decision. Defined.
Record ObservedDevice := MkObserved { ob_deviceId : string; ob_runState : ObservedRunState }.
Abbreviation StartupRead := (Platform → option (list ObservedDevice)).

Inductive StartupDeviceOutcome := startup_reclaim | startup_wait | startup_missing.
Record StartupEnding := MkEnding { se_device : StartupDeviceOutcome; se_reason : LeaseEndReason }.

(** ** Operations *)

Section lifecycle.
(** [hasParticipants]: whether a participant of lease ends is registered. *)
Context `{LocaleCompare} (options : RegistryOptions) (defaultMs : Z) (hasParticipants : bool) (now : Z).
Local Abbreviation op A := (action Leasing LifecycleError A).

Definition on_registry {A} (m : action Registry RegistryError A) : op A := λ s,
  match m (lg_registry s) with
  | (r, Ok a) => (s <| lg_registry := r |>, Ok a)
  | (r, Err e) => (s <| lg_registry := r |>, Err (FromRegistry e))
  end.
Definition emit_lease (e : LeaseEvent) : op unit :=
  modify (λ s, s <| lg_events := lg_events s ++ [e] |>).

(** *** The scheduler *)

Definition cancel (leaseId : string) : op unit :=
  modify (λ s, s <| lg_timers := delete leaseId (lg_timers s) |>).
(** [#deliverExpiry]: handed to the release coordinator, unless disposed. *)
Definition deliverExpiry (leaseId : string) (deadline : Z) : op unit :=
  modify (λ s, if lg_disposed s then s else s <| lg_due := lg_due s ++ [(leaseId, deadline)] |>).
Definition arm (lease : LeaseRecord) : op unit :=
  s ← get;
  if lg_disposed s then mret tt else
  _ ← cancel (l_id lease);
  if (l_ttlDeadline lease <=? now)%Z then deliverExpiry (l_id lease) (l_ttlDeadline lease)
  else modify (λ s, s <| lg_timers := <[l_id lease := l_ttlDeadline lease]> (lg_timers s) |>).
(** The timer of a lease fires. *)
Definition timer_fired (leaseId : string) : op unit :=
  s ← get;
  match lg_timers s !! leaseId with
  | None => mret tt
  | Some deadline => _ ← cancel leaseId; deliverExpiry leaseId deadline
  end.
Definition dispose : op unit := modify (λ s, s <| lg_timers := ∅ |> <| lg_disposed := true |>).
Definition compareLeaseDeadlines : LeaseRecord → LeaseRecord → Z := compare_key_id l_ttlDeadline l_id.

(** *** The lifecycle *)

Definition announceEnd (released : ReleasedLease) (reason : LeaseEndReason) : op unit :=
  let lease := rl_lease released in
  _ ← cancel (l_id lease);
  emit_lease (if reason === end_expired then LeaseExpired (l_deviceId lease) (l_id lease) (l_ownerId lease)
              else LeaseReleased (l_deviceId lease) (l_id lease) (l_ownerId lease) reason).

Definition grant (generated : string) (input : GrantInput) : op LeaseGrant :=
  let effectiveTtlMs := default defaultMs (gi_ttlMs input) in
  lease ← on_registry (createLease options now generated
    (MkCreateLease (gi_deviceId input) (gi_requesterId input) (gi_ownerId input) effectiveTtlMs
       (now + effectiveTtlMs) (gi_leaseId input) (gi_except input)
       (Some (MkRequestRef (gi_requestId input) (gi_environment input) (gi_timing input)))));
  s ← get;
  match Arr.find (λ d, dev_id d === l_deviceId lease) (devices (lg_registry s)) with
  | None => throw (DeviceDisappeared (l_deviceId lease))
  | Some device =>
      _ ← emit_lease (LeaseGranted (l_deviceId lease) (l_id lease) (l_requesterId lease)
            (gi_requestId input) (gi_source input) (spec_platform (dev_spec device))
            (spec_baseline (dev_spec device)) (gi_fleetRequestId input));
      _ ← arm lease;
      mret (MkGrant device (gi_environment input) lease (gi_timing input))
  end.

Definition renew (leaseId : string) (ttlMs : option Z) : op LeaseRecord :=
  s ← get;
  let current := Arr.find (λ l, l_id l === leaseId) (leases (lg_registry s)) in
  let effectiveTtlMs := default (default defaultMs (l_ttlMs <$> current)) ttlMs in
  renewed ← on_registry (renewLease options now leaseId (now + effectiveTtlMs) effectiveTtlMs);
  _ ← emit_lease (LeaseRenewed (l_id renewed) (l_ttlDeadline renewed));
  _ ← arm renewed;
  mret renewed.

Definition lifecycle_beginRelease (leaseId : string) (reason : LeaseEndReason) (deferReclaim : bool)
    : op ReleasedLease :=
  released ← on_registry (beginRelease options now leaseId deferReclaim);
  _ ← announceEnd released reason;
  mret released.
Definition endForMissingDevice (leaseId : string) (reason : LeaseEndReason) : op ReleasedLease :=
  ended ← on_registry (endLeaseAndMarkDeviceMissing options now leaseId "doctor");
  _ ← announceEnd ended reason;
  mret ended.
Definition endForAbsentDevice (leaseId : string) (absentReason : AbsentReason) : op ReleasedLease :=
  ended ← on_registry (endLeaseAndMarkDeviceAbsent options now leaseId absentReason);
  _ ← announceEnd ended end_device_lost;
  mret ended.

(** *** The release coordinator's decisions *)

Definition release (leaseId : string) (reason : LeaseEndReason) (expectedDeadline : option Z)
    (deferReclaim : bool) : op (option ReleasedLease) :=
  s ← get;
  let current := Arr.find (λ l, l_id l === leaseId) (leases (lg_registry s)) in
  if (expectedDeadline !== None) && ((l_ttlDeadline <$> current) !== expectedDeadline) then mret None
  else released ← lifecycle_beginRelease leaseId reason deferReclaim; mret (Some released).
Definition expire (leaseId : string) (expectedDeadline : Z) : op unit :=
  _ ← release leaseId end_expired (Some expectedDeadline) hasParticipants; mret tt.
Definition endAtStartup (leaseId : string) (ending : StartupEnding) : op unit :=
  match se_device ending with
  | startup_missing => _ ← endForMissingDevice leaseId (se_reason ending); mret tt
  | startup_reclaim => _ ← release leaseId (se_reason ending) None hasParticipants; mret tt
  | startup_wait => _ ← release leaseId (se_reason ending) None true; mret tt
  end.

(** *** Startup *)

Fixpoint restore_each (ls : list LeaseRecord) : op unit :=
  match ls with
  | [] => mret tt
  | lease :: ls =>
      _ ← cancel (l_id lease);
      _ ← (if (l_ttlDeadline lease <=? now)%Z then
             s ← get; if lg_disposed s then mret tt else expire (l_id lease) (l_ttlDeadline lease)
           else arm lease);
      restore_each ls
  end.
Definition restoreExpiryTimers : op unit :=
  s ← get;
  if lg_disposed s then mret tt
  else restore_each (sort_by compareLeaseDeadlines (leases (lg_registry s))).

Definition deviceOutcome (device : DeviceRecord) (read : StartupRead) : option StartupDeviceOutcome :=
  match read (spec_platform (dev_spec device)) with
  | None => Some startup_wait
  | Some reality =>
      match Arr.find (λ c, ob_deviceId c === driverDeviceId (dev_fields device)) reality with
      | None => Some startup_missing
      | Some observed => if ob_runState observed === run_running then None else Some startup_reclaim
      end
  end.
(** What the reconciler decides for a lease, from the devices it found at the start. *)
Definition lease_outcome (ds : list DeviceRecord) (read : StartupRead) (lease : LeaseRecord)
    : option StartupDeviceOutcome :=
  match Arr.find (λ d, dev_id d === l_deviceId lease) ds with
  | None => None
  | Some device => if dev_physical device then None else deviceOutcome device read
  end.
Fixpoint reconcile_each (ds : list DeviceRecord) (read : StartupRead) (ls : list LeaseRecord) : op unit :=
  match ls with
  | [] => mret tt
  | lease :: ls =>
      _ ← match lease_outcome ds read lease with
          | None => mret tt
          | Some outcome => endAtStartup (l_id lease) (MkEnding outcome
              (if (l_ttlDeadline lease <=? now)%Z then end_expired else end_device_lost))
          end;
      reconcile_each ds read ls
  end.
Definition reconcile (read : StartupRead) : op unit :=
  s ← get;
  reconcile_each (devices (lg_registry s)) read
    (sort_by compareLeaseDeadlines (leases (lg_registry s))).
End lifecycle.

(** ** Runs *)

Section runs.
Context `{LocaleCompare} (options : RegistryOptions) (defaultMs : Z) (hasParticipants : bool).

(** The coordinator takes up the [k]-th expiry that was delivered. *)
Definition decide_due (now : Z) (k : nat) (s : Leasing) : Leasing :=
  match lg_due s !! k with
  | None => s
  | Some (i, d) => (expire options hasParticipants now i d (s <| lg_due := Arr.removeAt k (lg_due s) |>)).1
  end.

(** One decision at [now]. A granted lease gets an id no lease has; registry operations on devices,
    requests and components may come in between, and leave the leases alone. *)
Inductive leasing_step (now : Z) (s : Leasing) : Leasing → Prop :=
| step_grant g input : default ("lse_" +:+ g) (gi_leaseId input) ∉ l_id <$> leases (lg_registry s) →
    leasing_step now s (grant options defaultMs now g input s).1
| step_renew i ttlMs : leasing_step now s (renew options defaultMs now i ttlMs s).1
| step_release i reason defer : leasing_step now s (release options now i reason None defer s).1
| step_missing i reason : leasing_step now s (endForMissingDevice options now i reason s).1
| step_absent i reason : leasing_step now s (endForAbsentDevice options now i reason s).1
| step_timer i : leasing_step now s (timer_fired i s).1
| step_decide k : leasing_step now s (decide_due now k s)
| step_dispose : leasing_step now s (dispose s).1
| step_registry c : admissible (lg_registry s) c →
    leases (perform options now c (lg_registry s)).1 = leases (lg_registry s) →
    leasing_step now s (s <| lg_registry := (perform options now c (lg_registry s)).1 |>).

(** A daemon starts on a registry, reconciles its leases with the host and restores the timers. *)
Inductive leasing_reachable : Z → Leasing → Prop :=
| leasing_start t now r read : registry_reachable options r t → (t ≤ now)%Z →
    leasing_reachable now
      (restoreExpiryTimers options hasParticipants now
        (reconcile options hasParticipants now read (MkLeasing r ∅ false [] [])).1).1
| leasing_next now now' s s' : leasing_reachable now s → (now ≤ now')%Z → leasing_step now' s s' →
    leasing_reachable now' s'.

(** ** Invariant *)

Definition timer_right (s : Leasing) (i : string) : Prop :=
  ∀ d, lg_timers s !! i = Some d → ∃ l, l ∈ leases (lg_registry s) ∧ l_id l = i ∧ l_ttlDeadline l = d.
(** A lease will be expired: its timer is set for its deadline, or that expiry was delivered. *)
Definition covered (s : Leasing) (l : LeaseRecord) : Prop :=
  lg_timers s !! l_id l = Some (l_ttlDeadline l) ∨ (l_id l, l_ttlDeadline l) ∈ lg_due s.

(** Everything holds but for the leases in [pending], which are being worked on. *)
Record leasing_but (now : Z) (pending : list string) (s : Leasing) : Prop := {
  ls_registry : registry_ok now (lg_registry s);
  ls_timers i : i ∉ pending → timer_right s i;
  ls_covered l : lg_disposed s = false → l ∈ leases (lg_registry s) → l_id l ∉ pending → covered s l;
  ls_disposed : lg_disposed s = true → lg_timers s = ∅ }.
Local Abbreviation ok now := (leasing_but now []).
End runs.

(** ** Lemmas *)

Lemma runs_on_registry {A} (m : action Registry RegistryError A) s Q R :
  runs m (lg_registry s) (λ a r, Q a (s <| lg_registry := r |>))
    (λ e r, R (FromRegistry e) (s <| lg_registry := r |>)) → runs (on_registry m) s Q R.
Proof. unfold runs, on_registry. by destruct (m (lg_registry s)) as [? []]. Qed.

(** *** What the registry's lease operations do to the leases *)

Section registry_leases.
Context (options : RegistryOptions) (now : Z).

Lemma runs_require_any k r (Q : DeviceRecord * nat → Registry → Prop) (R : RegistryError → Registry → Prop) :
  (∀ d i, devices r !! i = Some d → dev_id d = k → Q (d, i) r) → (∀ e, R e r) →
  runs (requireDeviceRecord k) r Q R.
Proof. intros HQ HR. apply runs_requireDeviceRecord; auto. Qed.
Lemma runs_committed_any k r (Q : DeviceRecord → Registry → Prop) (R : RegistryError → Registry → Prop) :
  (∀ d, Q d r) → (∀ e, R e r) → runs (committed k) r Q R.
Proof. intros HQ HR. apply runs_bind, runs_require_any; [|done]. intros d i _ _. apply runs_ret, HQ. Qed.

(** The lease that ended and what is left: the other leases, and the devices they are on. *)
Definition ended_lease (k : string) (r : Registry) (ended : ReleasedLease) (r' : Registry) : Prop :=
  rl_lease ended ∈ leases r ∧ l_id (rl_lease ended) = k ∧ leases r' = without_lease k (leases r)
  ∧ ∀ d, d ∈ devices r → dev_id d ≠ l_deviceId (rl_lease ended) → dev_state d = leased →
      deletedAt (dev_fields d) = None → settle_device now d ∈ devices r'.

Lemma committed_leased ds d : d ∈ ds → dev_state d = leased → deletedAt (dev_fields d) = None →
  settle_device now d ∈ committed_devices options now ds.
Proof.
  intros Hd Hs Hn. apply elem_of_committed. exists d. split_and!; [done..|].
  destruct (settle_device_spec now d) as (_ & _ & _ & Hdel & _). unfold isExpired.
  by rewrite Hdel, Hs, Hn.
Qed.
(** A list of devices changed at one place only. *)
Lemma changed_at (i : nat) (d d' : DeviceRecord) (ds : list DeviceRecord) x : ds !! i = Some d → x ∈ ds → dev_id x ≠ dev_id d →
  x ∈ <[i := d']> ds.
Proof.
  intros Hi [j Hj]%list_elem_of_lookup Hne. apply list_elem_of_lookup. exists j.
  rewrite list_lookup_insert_ne; [done|]. intros ->. by simplify_eq.
Qed.

Lemma beginRelease_leases k defer r :
  runs (beginRelease options now k defer) r (ended_lease k r) (λ _ _, True).
Proof.
  unfold beginRelease. apply runs_bind, runs_find_lease; [|done]. intros l Hl Hk.
  apply runs_bind, runs_require_any; [|done]. intros d i Hi Hid. cbv beta iota.
  apply runs_bind, runs_lift; [|done]. intros x _. apply runs_bind, runs_get, runs_bind.
  unfold commit_devices. apply runs_bind, runs_get, runs_modify, runs_ret. split_and!; [done..|].
  intros y Hy Hne Hs Hn. cbn. apply committed_leased; [|done..]. eapply changed_at; [done..|]. by rewrite Hid.
Qed.
Lemma endMissing_leases k who r :
  runs (endLeaseAndMarkDeviceMissing options now k who) r (ended_lease k r) (λ _ _, True).
Proof.
  unfold endLeaseAndMarkDeviceMissing. apply runs_bind, runs_find_lease; [|done]. intros l Hl Hk.
  apply runs_bind, runs_require_any; [|done]. intros d i Hi Hid. cbv beta iota.
  apply runs_bind, runs_get, runs_bind. unfold commitMissing. destruct d as [v|p]; [|by apply runs_throw].
  apply runs_bind, runs_get, runs_bind. unfold commit_devices. apply runs_bind, runs_get, runs_modify.
  apply runs_committed_any; [|done]. intros gone. apply runs_bind, runs_modify, runs_bind, runs_modify, runs_ret.
  split_and!; [done..|]. intros y Hy Hne Hs Hn. cbn. apply committed_leased; [|done..].
  apply list_elem_of_fmap. exists y. split; [|done]. rewrite bool_decide_eq_false_2; [done|].
  intros E. apply Hne. by etrans.
Qed.
Lemma endAbsent_leases k why r :
  runs (endLeaseAndMarkDeviceAbsent options now k why) r (ended_lease k r) (λ _ _, True).
Proof.
  unfold endLeaseAndMarkDeviceAbsent. apply runs_bind, runs_find_lease; [|done]. intros l Hl Hk.
  apply runs_bind, runs_require_any; [|done]. intros d i Hi Hid. cbv beta iota.
  apply runs_bind, runs_lift; [|done]. intros x _. apply runs_bind, runs_get, runs_bind.
  unfold commit_devices. apply runs_bind, runs_get, runs_modify, runs_bind, runs_modify, runs_bind,
    runs_modify, runs_ret. split_and!; [done..|].
  intros y Hy Hne Hs Hn. cbn. apply committed_leased; [|done..]. eapply changed_at; [done..|]. by rewrite Hid.
Qed.
Lemma renewLease_leases k deadline ttl r :
  runs (renewLease options now k deadline ttl) r
    (λ l r', l_id l = k ∧ l_ttlDeadline l = deadline
       ∧ ∃ i x, leases r !! i = Some x ∧ l_id x = k ∧ leases r' = <[i := l]> (leases r)) (λ _ _, True).
Proof.
  unfold renewLease. apply runs_bind, runs_get. destruct (Arr.findIndex _ _) as [i|] eqn:E; [|by apply runs_throw].
  apply afindIndex_Some in E as (x & Hx & Hk%bool_decide_eq_true & _).
  apply runs_bind, runs_lift; [|done]. intros y Hy%of_option_Ok. rewrite Hx in Hy. simplify_eq.
  apply runs_bind. unfold commit_devices. apply runs_bind, runs_get, runs_modify, runs_ret.
  split_and!; [done..|]. by exists i, y.
Qed.
Lemma createLease_leases g input r :
  runs (createLease options now g input) r
    (λ l r', l_id l = default ("lse_" +:+ g) (cl_leaseId input) ∧ l_ttlDeadline l = cl_ttlDeadline input
       ∧ leases r' = leases r ++ [l]) (λ _ _, True).
Proof. apply createLease_runs; [|done]. intros d i x l _ _ _ _ d' Hid _ _ Hd. by split_and!. Qed.
End registry_leases.

(** *** Preservation *)

Section preservation.
Context `{LocaleCompare} (options : RegistryOptions) (defaultMs : Z) (hasParticipants : bool) (now : Z).
Context (Hret : retention_ok options).
Implicit Types (s : Leasing) (p : list string).
Local Abbreviation but := (leasing_but now).

(** The registry moves on and only the leases named [k] change. *)
Lemma but_registry p k s r' : but p s → registry_ok now r' →
  (∀ x, l_id x ≠ k → x ∈ leases r' ↔ x ∈ leases (lg_registry s)) →
  but (k :: p) (s <| lg_registry := r' |>).
Proof.
  intros [Hr Ht Hc Hd] Hr' Hl. split; [done|..|done]; cbn.
  - intros i [Hk Hp]%not_elem_of_cons d E. destruct (Ht i Hp d E) as (l & Hin & Hid & ?). exists l.
    split_and!; [|done..]. apply Hl; [congruence|done].
  - intros l Hdis Hin [Hk Hp]%not_elem_of_cons. apply Hc; [done| |done]. by apply Hl.
Qed.
Lemma but_events p s es : but p s → but p (s <| lg_events := es |>).
Proof. by intros [? ? ? ?]; split. Qed.

Lemma arm_runs p s l : but (l_id l :: p) s → l ∈ leases (lg_registry s) →
  runs (arm now l) s (λ _ s', but p s' ∧ lg_registry s' = lg_registry s
    ∧ lg_disposed s' = lg_disposed s) (λ _ _, False).
Proof.
  intros [Hr Ht Hc Hd] Hl. unfold arm, cancel, deliverExpiry. apply runs_bind, runs_get.
  destruct (lg_disposed s) eqn:Hdis.
  { apply runs_ret. split; [|done]. split; [done| |intros; congruence|auto].
    intros i _ d E. rewrite Hd in E by done. by apply lookup_empty_Some in E. }
  apply runs_bind, runs_modify.
  assert (∀ i d, i ∉ p → i ≠ l_id l → lg_timers s !! i = Some d →
    ∃ x, x ∈ leases (lg_registry s) ∧ l_id x = i ∧ l_ttlDeadline x = d) as Htm.
  { intros i d Hi Hne. apply Ht. by apply not_elem_of_cons. }
  assert (∀ x, x ∈ leases (lg_registry s) → l_id x ∉ p → x = l ∨ l_id x ≠ l_id l ∧ covered s x) as Hcv.
  { intros x Hx Hp. destruct (decide (l_id x = l_id l)) as [E|Hne].
    - left. eapply (NoDup_fmap_inj_on l_id); [apply (ro_data _ _ Hr)|done..].
    - right. split; [done|]. apply Hc; [done|done|]. by apply not_elem_of_cons. }
  destruct (Z.leb_spec (l_ttlDeadline l) now); apply runs_modify; cbn; rewrite ?Hdis; cbn; (split; [|done]);
    (split; [done|..|intros E; cbn in E; congruence]); cbn.
  - intros i Hi d. cbn. rewrite lookup_delete_Some. intros [Hne E]. by apply Htm.
  - intros x _ Hx Hp. destruct (Hcv x Hx Hp) as [->|[Hne [E|E]]]; unfold covered; cbn.
    + right. apply elem_of_app. right. by left.
    + left. by rewrite lookup_delete_ne.
    + right. apply elem_of_app. by left.
  - intros i Hi d. cbn. destruct (decide (i = l_id l)) as [->|Hne].
    + rewrite lookup_insert_eq. intros [= <-]. by exists l.
    + rewrite lookup_insert_ne, lookup_delete_ne by done. by apply Htm.
  - intros x _ Hx Hp. destruct (Hcv x Hx Hp) as [->|[Hne [E|E]]]; unfold covered; cbn.
    + left. apply lookup_insert_eq.
    + left. by rewrite lookup_insert_ne, lookup_delete_ne.
    + by right.
Qed.

(** The event of an ended lease. *)
Definition end_event (l : LeaseRecord) (reason : LeaseEndReason) : LeaseEvent :=
  if reason === end_expired then LeaseExpired (l_deviceId l) (l_id l) (l_ownerId l)
  else LeaseReleased (l_deviceId l) (l_id l) (l_ownerId l) reason.

(** A state in which the lease named [k] has just ended. *)
Definition ended_state p k reason s (ended : ReleasedLease) (s' : Leasing) : Prop :=
  but p s' ∧ ended_lease now k (lg_registry s) ended (lg_registry s')
  ∧ lg_disposed s' = lg_disposed s ∧ lg_timers s' = delete k (lg_timers s) ∧ lg_due s' = lg_due s
  ∧ lg_events s' = lg_events s ++ [end_event (rl_lease ended) reason].

Lemma announce_runs p s ended reason : but (l_id (rl_lease ended) :: p) s →
  (∀ l, l ∈ leases (lg_registry s) → l_id l ≠ l_id (rl_lease ended)) →
  runs (announceEnd ended reason) s
    (λ _ s', but p s' ∧ lg_registry s' = lg_registry s ∧ lg_disposed s' = lg_disposed s
       ∧ lg_timers s' = delete (l_id (rl_lease ended)) (lg_timers s) ∧ lg_due s' = lg_due s
       ∧ lg_events s' = lg_events s ++ [end_event (rl_lease ended) reason]) (λ _ _, False).
Proof.
  intros [Hr Ht Hc Hd] Hgone. unfold announceEnd, cancel, emit_lease.
  apply runs_bind, runs_modify, runs_modify. split_and!; try done. split; [done|..]; cbn.
  - intros i Hi d. cbn. rewrite lookup_delete_Some. intros [Hne E]. apply Ht; [|done].
    by apply not_elem_of_cons.
  - intros x Hdis Hx Hp. pose proof (Hgone x Hx) as Hne.
    destruct (Hc x Hdis Hx) as [E|E]; [by apply not_elem_of_cons|left|by right]. cbn.
    by rewrite lookup_delete_ne.
  - intros Hdis. rewrite Hd by done. apply delete_empty.
Qed.

(** Any of the ways a lease ends. *)
Lemma end_runs p k reason (m : action Registry RegistryError ReleasedLease) s : but p s →
  runs m (lg_registry s) (λ _, registry_ok now) (λ _ r', r' = lg_registry s) →
  runs m (lg_registry s) (ended_lease now k (lg_registry s)) (λ _ _, True) →
  runs (ended ← on_registry m; _ ← announceEnd ended reason; mret ended) s
    (ended_state p k reason s) (λ _ s', s' = s).
Proof.
  intros Hs Hok Hend. apply runs_bind, runs_on_registry. eapply runs_mono; [by apply (runs_and _ _ _ _ _ _ Hok Hend)|..].
  - intros ended r' [Hr' (Hin & Hk & Hl & Hother)]. apply runs_bind. subst k.
    eapply runs_mono; [apply (announce_runs p)| |done].
    + apply but_registry; [done..|]. intros x Hne. rewrite Hl. unfold without_lease. rewrite elem_of_afilter.
      split; [by intros [? _]|]. intros ?. split; [done|]. by rewrite bool_decide_eq_false_2.
    + cbn. rewrite Hl. intros l [_ Hne]%elem_of_afilter E. by rewrite bool_decide_eq_true_2 in Hne.
    + intros [] s' (Hb & Hreg & Hd & Ht & Hdue & He). apply runs_ret. split_and!; try done.
      rewrite Hreg. by split_and!.
  - intros e r' [-> _]. by destruct s.
Qed.

Lemma beginRelease_but p k reason defer s : but p s →
  runs (lifecycle_beginRelease options now k reason defer) s
    (ended_state p k reason s) (λ _ s', s' = s).
Proof.
  intros Hs. apply end_runs; [done| |apply beginRelease_leases].
  apply beginRelease_kept; [apply Hret..|apply Hs].
Qed.
Lemma endForMissing_but p k reason s : but p s →
  runs (endForMissingDevice options now k reason) s
    (ended_state p k reason s) (λ _ s', s' = s).
Proof.
  intros Hs. apply end_runs; [done| |apply endMissing_leases].
  apply endLeaseAndMarkDeviceMissing_kept; [apply Hret..|apply Hs].
Qed.
Lemma endForAbsent_but p k why s : but p s →
  runs (endForAbsentDevice options now k why) s (λ _ s', but p s') (λ _ s', s' = s).
Proof.
  intros Hs. eapply runs_mono; [apply end_runs; [done| |apply endAbsent_leases]|..].
  - apply endLeaseAndMarkDeviceAbsent_kept; [apply Hret..|apply Hs].
  - by intros ? ? [? _].
  - done.
Qed.

Lemma release_but p k reason expected defer s : but p s →
  runs (release options now k reason expected defer) s (λ _ s', but p s') (λ _ s', s' = s).
Proof.
  intros Hs. unfold release. apply runs_bind, runs_get. destruct (_ && _); [by apply runs_ret|].
  apply runs_bind. eapply runs_mono; [by apply beginRelease_but|..|done].
  intros ? s' [? _]. by apply runs_ret.
Qed.
Lemma expire_but p k d s : but p s → but p (expire options hasParticipants now k d s).1.
Proof.
  intros Hs. enough (runs (expire options hasParticipants now k d) s (λ _ s', but p s') (λ _ s', s' = s)) as Hr.
  { unfold runs in Hr. destruct (expire _ _ _ _ _ s) as [s' []]; [done|by subst]. }
  apply runs_bind. eapply runs_mono; [by apply release_but|..|done]. intros ? s' ?. by apply runs_ret.
Qed.

Lemma grant_ok_step g input s : but [] s →
  default ("lse_" +:+ g) (gi_leaseId input) ∉ l_id <$> leases (lg_registry s) →
  runs (grant options defaultMs now g input) s (λ _ s', but [] s') (λ _ s', s' = s).
Proof.
  intros Hs Hf. unfold grant. apply runs_bind, runs_on_registry.
  set (create := MkCreateLease _ _ _ _ _ _ _ _).
  eapply runs_mono; [apply (runs_and _ _ _ _ _ _
    (createLease_kept options now (ret_requests _ Hret) (ret_deleted _ Hret) (lg_registry s) g create
       (ls_registry _ _ _ Hs) Hf)
    (createLease_leases options now g create (lg_registry s)))|..].
  - intros l r' [Hr' (Hid & Hd & Hl)]. apply runs_bind, runs_get. cbn [lg_registry].
    assert (l ∈ leases r') as Hin by (rewrite Hl; apply elem_of_app; right; by left).
    destruct (Arr.find _ _) as [device|] eqn:E.
    2:{ exfalso. rewrite afind_None in E.
        assert (l_deviceId l ∈ l_deviceId <$> leases r') as (d' & Hd' & Hdid & _)%(do_leased _ _ _ _ _ (ro_data _ _ Hr'))
          by (by apply list_elem_of_fmap_2).
        specialize (E d' Hd'). cbn in E. by rewrite bool_decide_eq_true_2 in E. }
    unfold emit_lease. apply runs_bind, runs_modify, runs_bind.
    eapply runs_mono; [apply (arm_runs []); [|done]| |done].
    + apply but_events, but_registry; [done..|]. intros x Hne. rewrite Hl, elem_of_app.
      split; [|by left]. intros [?|?%list_elem_of_singleton]; [done|congruence].
    + intros [] s' [? _]. by apply runs_ret.
  - intros e r' [-> _]. by destruct s.
Qed.

Lemma renew_ok_step k ttlMs s : but [] s →
  runs (renew options defaultMs now k ttlMs) s (λ _ s', but [] s') (λ _ s', s' = s).
Proof.
  intros Hs. unfold renew. apply runs_bind, runs_get. cbv zeta. apply runs_bind, runs_on_registry.
  set (ttl := default _ ttlMs).
  eapply runs_mono; [apply (runs_and _ _ _ _ _ _
    (renewLease_kept options now (ret_requests _ Hret) (ret_deleted _ Hret) (lg_registry s) k (now + ttl)%Z ttl
       (ls_registry _ _ _ Hs))
    (renewLease_leases options now k (now + ttl)%Z ttl (lg_registry s)))|..].
  - intros l r' [Hr' (Hid & Hd & i & x & Hi & Hx & Hl)]. unfold emit_lease. apply runs_bind, runs_modify, runs_bind.
    assert (l ∈ leases r') as Hin.
    { rewrite Hl. apply list_elem_of_lookup. exists i. apply list_lookup_insert_eq. by eapply lookup_lt_Some. }
    eapply runs_mono; [apply (arm_runs []); [|done]| |done].
    + apply but_events, but_registry; [done..|]. intros y Hne. rewrite Hl, !list_elem_of_lookup.
      split; intros [j Hj]; exists j.
      * destruct (decide (j = i)) as [->|Hji]; [|by rewrite list_lookup_insert_ne in Hj].
        rewrite list_lookup_insert_eq in Hj by (by eapply lookup_lt_Some). congruence.
      * destruct (decide (j = i)) as [->|Hji]; [congruence|by rewrite list_lookup_insert_ne].
    + intros [] s' [? _]. by apply runs_ret.
  - intros e r' [-> _]. by destruct s.
Qed.

Lemma timer_ok_step k s : but [] s → runs (timer_fired k) s (λ _ s', but [] s') (λ _ _, False).
Proof.
  intros Hs. unfold timer_fired, cancel, deliverExpiry. apply runs_bind, runs_get.
  destruct (lg_timers s !! k) as [d|] eqn:E; [|by apply runs_ret]. apply runs_bind, runs_modify, runs_modify.
  destruct Hs as [Hr Ht Hc Hd]. destruct (lg_disposed s) eqn:Hdis; cbn; rewrite Hdis; cbn.
  { rewrite Hd in E by done. by apply lookup_empty_Some in E. }
  split; [done|..|intros E'; cbn in E'; congruence]; cbn.
  - intros i _ d'. cbn. rewrite lookup_delete_Some. intros [_ E']. by apply Ht; [apply not_elem_of_nil|].
  - intros x _ Hx Hp. destruct (Hc x eq_refl Hx Hp) as [E'|E']; unfold covered; cbn.
    + destruct (decide (l_id x = k)) as [<-|Hne]; [|left; by rewrite lookup_delete_ne].
      right. apply elem_of_app. right. rewrite E in E'. simplify_eq. by left.
    + right. apply elem_of_app. by left.
Qed.

Lemma runs_fst {A} (m : action Leasing LifecycleError A) s (P : Leasing → Prop) :
  runs m s (λ _ s', P s') (λ _ s', P s') → P (m s).1.
Proof. unfold runs. by destruct (m s) as [? []]. Qed.
Lemma runs_fst_kept {A} (m : action Leasing LifecycleError A) s (P : Leasing → Prop) : P s →
  runs m s (λ _ s', P s') (λ _ s', s' = s) → P (m s).1.
Proof. intros Hs Hr. apply runs_fst. eapply runs_mono; [done..|]. by intros ? ? ->. Qed.

Lemma removeAt_other {A} k (l : list A) x y : l !! k = Some x → y ∈ l → y ≠ x → y ∈ Arr.removeAt k l.
Proof. intros Hk Hy Hne. unfold Arr.removeAt. rewrite (delete_Permutation l k x Hk) in Hy. set_solver. Qed.

(** *** A live lease can always be ended *)

Lemma find_live s l : registry_ok now (lg_registry s) → l ∈ leases (lg_registry s) →
  Arr.find (λ x, l_id x === l_id l) (leases (lg_registry s)) = Some l.
Proof.
  intros Hr Hl. destruct (Arr.find _ _) as [x|] eqn:E.
  - apply afind_Some in E as [Hx Hid%bool_decide_eq_true]. f_equal.
    by eapply (NoDup_fmap_inj_on l_id); [apply (ro_data _ _ Hr)|..].
  - rewrite afind_None in E. specialize (E l Hl). cbn in E. by rewrite bool_decide_eq_true_2 in E.
Qed.

Lemma ended_lease_live l s ended r' : registry_ok now (lg_registry s) → l ∈ leases (lg_registry s) →
  ended_lease now (l_id l) (lg_registry s) ended r' → rl_lease ended = l.
Proof.
  intros Hr Hl (Hin & Hid & _). by eapply (NoDup_fmap_inj_on l_id); [apply (ro_data _ _ Hr)|..].
Qed.

(** An ending whose registry write cannot throw does not throw. *)
Lemma end_live p l reason (m : action Registry RegistryError ReleasedLease) s :
  but p s → l ∈ leases (lg_registry s) →
  runs (ended ← on_registry m; _ ← announceEnd ended reason; mret ended) s
    (ended_state p (l_id l) reason s) (λ _ s', s' = s) →
  runs m (lg_registry s) (λ _ _, True) (λ _ _, False) →
  runs (ended ← on_registry m; _ ← announceEnd ended reason; mret ended) s
    (λ ended s', ended_state p (l_id l) reason s ended s' ∧ rl_lease ended = l) (λ _ _, False).
Proof.
  intros Hs Hl Hrun Hno. eapply runs_mono; [apply (runs_and _ _ _ (λ _ _, True) _ (λ _ _, False) Hrun)|..].
  - apply runs_bind, runs_on_registry. eapply runs_mono; [done| |done]. intros ended r' _.
    unfold announceEnd, cancel, emit_lease. by apply runs_bind, runs_bind, runs_modify, runs_modify, runs_ret.
  - intros ended s' [He _]. split; [done|]. destruct He as (_ & He & _).
    eapply ended_lease_live; [apply Hs|done|exact He].
  - by intros ? ? [_ ?].
Qed.

Lemma release_live p l reason expected defer s : but p s → l ∈ leases (lg_registry s) →
  expected = None ∨ expected = Some (l_ttlDeadline l) →
  runs (release options now (l_id l) reason expected defer) s
    (λ o s', ∃ ended, o = Some ended ∧ ended_state p (l_id l) reason s ended s' ∧ rl_lease ended = l)
    (λ _ _, False).
Proof.
  intros Hs Hl He. unfold release. apply runs_bind, runs_get. rewrite (find_live s l) by (done || apply Hs).
  assert ((expected !== None) && ((l_ttlDeadline <$> Some l) !== expected) = false) as ->.
  { destruct He as [->| ->]; [done|]. cbn. by rewrite (bool_decide_eq_true_2 (Some (l_ttlDeadline l) = _)). }
  apply runs_bind. eapply runs_mono; [eapply (end_live p l reason)| |done].
  - done.
  - done.
  - by apply beginRelease_but.
  - eapply runs_mono; [eapply beginRelease_runs; [apply Hs|done]|done|done].
  - intros ended s' [? ?]. apply runs_ret. eauto.
Qed.

(** The device of a lease is not physical. *)
Definition on_virtual (r : Registry) (l : LeaseRecord) : Prop :=
  ∀ d, d ∈ devices r → dev_id d = l_deviceId l → dev_physical d = false.

Lemma endMissing_live r l who : registry_ok now r → l ∈ leases r → on_virtual r l →
  runs (endLeaseAndMarkDeviceMissing options now (l_id l) who) r (λ _ _, True) (λ _ _, False).
Proof.
  intros Hr Hl Hv. unfold endLeaseAndMarkDeviceMissing. eapply runs_live; [done..|].
  intros d i Hi Hid Hs. cbv beta iota. apply runs_bind, runs_get, runs_bind.
  eapply runs_commitMissing; [apply Hret..|done|done| | |apply without_lease_extends| |].
  - by rewrite Hs.
  - intros v gone -> Hg S. eapply data_release; [apply Hr|done..| |done|done]. by rewrite Hg.
  - intros x r' _ _. by apply runs_bind, runs_modify, runs_bind, runs_modify, runs_ret.
  - intros Hp. rewrite Hv in Hp; [done|by eapply list_elem_of_lookup_2|done].
Qed.

Lemma endAtStartup_live p l ending s : but p s → l ∈ leases (lg_registry s) →
  on_virtual (lg_registry s) l →
  runs (endAtStartup options hasParticipants now (l_id l) ending) s
    (λ _ s', ∃ ended, ended_state p (l_id l) (se_reason ending) s ended s' ∧ rl_lease ended = l)
    (λ _ _, False).
Proof.
  intros Hs Hl Hv. unfold endAtStartup. destruct (se_device ending); apply runs_bind.
  - eapply runs_mono; [by apply (release_live p l); auto|..|done]. intros ? s' (ended & _ & ? & ?).
    apply runs_ret. eauto.
  - eapply runs_mono; [by apply (release_live p l); auto|..|done]. intros ? s' (ended & _ & ? & ?).
    apply runs_ret. eauto.
  - eapply runs_mono; [eapply (end_live p l (se_reason ending)); [done|done|by apply endForMissing_but|]|..|done].
    + apply endMissing_live; [apply Hs|done..].
    + intros ended s' [? ?]. apply runs_ret. eauto.
Qed.

(** Ending one lease leaves the others on the devices they were on. *)
Lemma on_virtual_kept l l' ended s s' : registry_ok now (lg_registry s) → registry_ok now (lg_registry s') →
  l ∈ leases (lg_registry s) → l' ∈ leases (lg_registry s) → l_id l' ≠ l_id l →
  ended_lease now (l_id l) (lg_registry s) ended (lg_registry s') → rl_lease ended = l →
  l' ∈ leases (lg_registry s') ∧ (on_virtual (lg_registry s) l' → on_virtual (lg_registry s') l').
Proof.
  intros Hr Hr' Hl Hl' Hne (_ & _ & Hleases & Hother) <-. split.
  { rewrite Hleases. unfold without_lease. apply elem_of_afilter. split; [done|].
    by rewrite bool_decide_eq_false_2. }
  pose proof (ro_data _ _ Hr) as Hd. intros Hv d Hdin Hdid.
  assert (l_deviceId l' ∈ l_deviceId <$> leases (lg_registry s)) as (y & Hy & Hyid & Hys)%(do_leased _ _ _ _ _ Hd)
    by (by apply list_elem_of_fmap_2).
  assert (settle_device now y ∈ devices (lg_registry s')) as Hin.
  { apply Hother; [done| |done|].
    - intros E. apply Hne. f_equal. eapply (NoDup_fmap_inj_on l_deviceId); [apply Hd|done..|congruence].
    - destruct (deletedAt (dev_fields y)) eqn:Ed; [|done].
      rewrite (do_deleted _ _ _ _ _ Hd y Hy) in Hys; [done|by rewrite Ed]. }
  destruct (settle_device_spec now y) as (Hsid & _).
  assert (d = settle_device now y) as ->.
  { eapply (NoDup_fmap_inj_on dev_id); [apply (ro_data _ _ Hr')|done..|]. congruence. }
  assert (dev_physical (settle_device now y) = dev_physical y) as ->; [|by apply Hv].
  unfold settle_device, stamp_deleted, withoutCauseUnlessQuarantined.
  repeat case_match; rewrite ?set_fields_physical; done.
Qed.

(** *** Startup *)

(** Whether the reconciler ends a lease, and for which reason. *)
Definition ends (ds : list DeviceRecord) (read : StartupRead) (l : LeaseRecord) : bool :=
  lease_outcome ds read l !== None.
Definition startup_reason (l : LeaseRecord) : LeaseEndReason :=
  if (l_ttlDeadline l <=? now)%Z then end_expired else end_device_lost.

Lemma reconcile_each_runs p ds read ls s : but p s → NoDup (l_id <$> ls) →
  (∀ l, l ∈ ls → l ∈ leases (lg_registry s)) →
  (∀ l, l ∈ ls → ends ds read l = true → on_virtual (lg_registry s) l) →
  runs (reconcile_each options hasParticipants now ds read ls) s
    (λ _ s', but p s' ∧ lg_disposed s' = lg_disposed s ∧ lg_due s' = lg_due s
       ∧ (lg_timers s = ∅ → lg_timers s' = ∅)
       ∧ leases (lg_registry s') = Arr.filter (λ x, negb (Arr.some (λ l, (l_id l === l_id x) && ends ds read l) ls))
           (leases (lg_registry s))
       ∧ lg_events s' = lg_events s
           ++ ((λ l, end_event l (startup_reason l)) <$> Arr.filter (ends ds read) ls)) (λ _ _, False).
Proof.
  revert s. induction ls as [|l ls IH]; intros s Hs Hn Hin Hv; cbn [reconcile_each].
  { apply runs_ret. split_and!; try done; [|cbn; by rewrite app_nil_r]. symmetry. by apply afilter_all. }
  apply NoDup_cons in Hn as [Hl Hn]. assert (l ∈ leases (lg_registry s)) as Hlin by (apply Hin; by left).
  apply runs_bind. destruct (lease_outcome ds read l) as [outcome|] eqn:E.
  2:{ apply runs_ret. assert (ends ds read l = false) as He by (unfold ends; by rewrite E).
      eapply runs_mono; [apply IH; [done|done|..]| |done].
      - intros x Hx. apply Hin. by right.
      - intros x Hx. apply Hv. by right.
      - intros _ s' (? & ? & ? & ? & Hls & Hev). split_and!; try done.
        + rewrite Hls. unfold Arr.filter. apply List.filter_ext. intros x. cbn. by rewrite He, andb_false_r.
        + rewrite Hev. unfold Arr.filter. cbn. by rewrite He. }
  assert (ends ds read l = true) as He by (unfold ends; by rewrite E).
  eapply runs_mono; [apply (endAtStartup_live p l); [done|done|apply Hv; [by left|done]]| |done].
  intros _ s1 (ended & (Hs1 & Hend & Hd1 & Ht1 & Hdue1 & He1) & Hle).
  assert (∀ x, x ∈ ls → x ∈ leases (lg_registry s1)
    ∧ (on_virtual (lg_registry s) x → on_virtual (lg_registry s1) x)) as Hkeep.
  { intros x Hx. eapply (on_virtual_kept l x ended s s1); [apply Hs|apply Hs1|done|apply Hin; by right| |done|done].
    intros Ex. apply Hl. rewrite <- Ex. by apply list_elem_of_fmap_2. }
  eapply runs_mono; [apply IH; [done|done|..]| |done].
  - intros x Hx. by apply Hkeep.
  - intros x Hx Hex. apply Hkeep; [done|]. apply Hv; [by right|done].
  - intros _ s' (? & Hd2 & Hdue2 & Ht2 & Hls & Hev). split_and!; [done|congruence|congruence|..].
    + intros Hemp. apply Ht2. rewrite Ht1, Hemp. apply delete_empty.
    + rewrite Hls. destruct Hend as (_ & _ & -> & _). unfold without_lease, Arr.filter.
      rewrite filter_filter_b. apply List.filter_ext. intros x. cbn. rewrite He, andb_true_r.
      rewrite (bool_decide_ext (l_id x = l_id l) (l_id l = l_id x)) by done. by destruct (bool_decide _).
    + rewrite Hev, He1, Hle. unfold Arr.filter. cbn. rewrite He. cbn. by rewrite <- app_assoc.
Qed.

Lemma restore_each_runs ls s : lg_disposed s = false → but (l_id <$> ls) s → NoDup (l_id <$> ls) →
  (∀ l, l ∈ ls → l ∈ leases (lg_registry s)) →
  runs (restore_each options hasParticipants now ls) s (λ _ s', but [] s') (λ _ _, False).
Proof.
  revert s. induction ls as [|l ls IH]; intros s Hdis Hs Hn Hin; cbn [restore_each]; [by apply runs_ret|].
  apply NoDup_cons in Hn as [Hl Hn]. assert (l ∈ leases (lg_registry s)) as Hlin by (apply Hin; by left).
  unfold cancel. apply runs_bind, runs_modify. cbn [fmap list_fmap] in Hs.
  set (s1 := s <| lg_timers := delete (l_id l) (lg_timers s) |>).
  assert (but (l_id l :: (l_id <$> ls)) s1) as Hs1.
  { destruct Hs as [Hr Ht Hc Hd]. split; [done|..]; cbn.
    - intros i Hi d. cbn. rewrite lookup_delete_Some. intros [_ ?]. by apply Ht.
    - intros x _ Hx Hp. destruct (Hc x Hdis Hx Hp) as [?|?]; [left|by right]. cbn.
      rewrite lookup_delete_ne; [done|]. intros Ex. apply Hp. rewrite Ex. by left.
    - intros ?. rewrite Hd by done. apply delete_empty. }
  apply runs_bind. destruct (Z.leb_spec (l_ttlDeadline l) now) as [Hle|Hgt].
  - apply runs_bind, runs_get. change (lg_disposed s1) with (lg_disposed s). rewrite Hdis. unfold expire.
    apply runs_bind. eapply runs_mono; [apply (release_live (l_id l :: (l_id <$> ls)) l); [exact Hs1|done|by right]| |done].
    intros ? s2 (ended & _ & (Hs2 & Hend & Hd2 & Ht2 & _) & Hel). apply runs_ret. apply IH; [|..|done|].
    + rewrite Hd2. exact Hdis.
    + pose proof Hend as (_ & _ & Hls & _). destruct Hs2 as [Hr Ht Hc Hd]. split; [done|..|done].
      * intros i Hi d E. rewrite Ht2 in E. apply lookup_delete_Some in E as [Hne E].
        apply Ht; [apply not_elem_of_cons; by split|]. by rewrite Ht2, lookup_delete_ne.
      * intros x Hxd Hx Hp. apply Hc; [done|done|]. apply not_elem_of_cons. split; [|done]. intros Ex.
        rewrite Hls in Hx. apply elem_of_afilter in Hx as [_ Hx]. by rewrite bool_decide_eq_true_2 in Hx.
    + intros x Hx. eapply (on_virtual_kept l x ended s1 s2); [apply Hs1|apply Hs2|done|apply Hin; by right| |done|done].
      intros Ex. apply Hl. rewrite <- Ex. by apply list_elem_of_fmap_2.
  - eapply runs_mono; [apply (arm_runs (l_id <$> ls)); [exact Hs1|done]| |done].
    intros [] s2 (Hs2 & Hreg & Hd2). apply IH; [|done|done|].
    + rewrite Hd2. exact Hdis.
    + intros x Hx. rewrite Hreg. apply Hin. by right.
Qed.

(** *** Steps *)

Lemma but_gone p k s : but (k :: p) s → lg_timers s !! k = None →
  (∀ l, l ∈ leases (lg_registry s) → l_id l ≠ k) → but p s.
Proof.
  intros [Hr Ht Hc Hd] Hk Hl. split; [done|..|done].
  - intros i Hi d E. apply Ht; [|done]. apply not_elem_of_cons. split; [congruence|done].
  - intros x Hdis Hx Hp. apply Hc; [done..|]. apply not_elem_of_cons. split; [by apply Hl|done].
Qed.

(** A stale expiry, one for a deadline the lease does not have, changes nothing. *)
Lemma expire_stale k d s : (∀ l, l ∈ leases (lg_registry s) → l_id l = k → l_ttlDeadline l ≠ d) →
  expire options hasParticipants now k d s = (s, Ok tt).
Proof.
  intros Hno. unfold expire, release. unfold mbind, action_bind, get. cbn [fst snd].
  assert (((l_ttlDeadline <$> Arr.find (λ l, l_id l === k) (leases (lg_registry s))) !== Some d) = true) as E.
  { destruct (Arr.find _ _) as [x|] eqn:E; [|done]. apply afind_Some in E as [Hx Hid%bool_decide_eq_true].
    cbn. rewrite bool_decide_eq_false_2; [done|]. intros [= Ed]. by apply (Hno x). }
  rewrite E. js_eval. done.
Qed.

Lemma expire_runs p l s : but p s → l ∈ leases (lg_registry s) →
  runs (expire options hasParticipants now (l_id l) (l_ttlDeadline l)) s
    (λ _ s', ∃ ended, ended_state p (l_id l) end_expired s ended s' ∧ rl_lease ended = l) (λ _ _, False).
Proof.
  intros Hs Hl. apply runs_bind. eapply runs_mono; [apply (release_live p l); [done|done|by right]| |done].
  intros ? s' (ended & _ & ? & ?). apply runs_ret. eauto.
Qed.

Lemma ended_gone p k reason s ended s' : ended_state (k :: p) k reason s ended s' → but p s'.
Proof.
  intros (Hs' & (_ & _ & Hl & _) & _ & Ht & _). eapply but_gone; [done|by rewrite Ht, lookup_delete_eq|].
  rewrite Hl. intros l [_ Hx]%elem_of_afilter E. by rewrite bool_decide_eq_true_2 in Hx.
Qed.

Lemma decide_ok_step k s : but [] s → but [] (decide_due options hasParticipants now k s).
Proof.
  intros Hs. unfold decide_due. destruct (lg_due s !! k) as [[i d]|] eqn:Ek; [|done].
  set (s1 := s <| lg_due := Arr.removeAt k (lg_due s) |>).
  assert (∀ p, (∀ l, l ∈ leases (lg_registry s) → l_id l ∉ p → (l_id l, l_ttlDeadline l) ≠ (i, d)) → but p s1)
    as Hbut.
  { intros p Hp. destruct Hs as [Hr Ht Hc Hd]. split; [done|..|done].
    - intros j _. apply Ht. by apply not_elem_of_nil.
    - intros x Hdis Hx Hxp. destruct (Hc x Hdis Hx) as [?|Hin]; [by apply not_elem_of_nil|by left|right].
      eapply removeAt_other; [done|done|]. by apply Hp. }
  destruct (decide (Exists (λ l, l_id l = i ∧ l_ttlDeadline l = d) (leases (lg_registry s)))) as [Hl|Hno].
  - apply list.Exists_exists in Hl as (l & Hl & <- & <-).
    assert (but [l_id l] s1) as Hs1.
    { apply Hbut. intros x Hx Hne [= E _]. apply Hne. rewrite E. by left. }
    apply runs_fst. eapply runs_mono; [by apply (expire_runs [l_id l] l)| |done].
    intros ? s' (ended & He & _). by eapply ended_gone.
  - rewrite expire_stale; cbn [fst].
    + apply Hbut. intros x Hx _ [= E1 E2]. apply Hno, list.Exists_exists. by exists x.
    + intros x Hx E1 E2. apply Hno, list.Exists_exists. by exists x.
Qed.

Lemma leasing_step_ok s s' : but [] s → leasing_step options defaultMs hasParticipants now s s' → but [] s'.
Proof.
  intros Hs [g input Hf|i ttlMs|i reason defer|i reason|i why|i|k| |c Hadm Hl].
  - apply runs_fst_kept; [done|]. by apply grant_ok_step.
  - apply runs_fst_kept; [done|]. by apply renew_ok_step.
  - apply runs_fst_kept; [done|]. by apply release_but.
  - apply runs_fst_kept; [done|]. eapply runs_mono; [by apply (endForMissing_but [])|by intros ? ? [? _]|done].
  - apply runs_fst_kept; [done|]. by apply endForAbsent_but.
  - apply runs_fst. eapply runs_mono; [by apply timer_ok_step|done|done].
  - by apply decide_ok_step.
  - destruct Hs as [Hr Ht Hc Hd]. split; [done|..|done]; cbn; [|done].
    intros i _ d E. cbn in E. by apply lookup_empty_Some in E.
  - destruct Hs as [Hr Ht Hc Hd]. split; cbn.
    + pose proof (perform_kept options now (lg_registry s) c Hret Hr Hadm) as Hk. unfold runs in Hk.
      destruct (perform options now c (lg_registry s)) as [r' []]; [done|by subst].
    + intros i Hi d E. cbn in *. rewrite Hl. by apply Ht.
    + intros x Hdis Hx Hp. rewrite Hl in Hx. by apply (Hc x).
    + done.
Qed.
End preservation.

Lemma leasing_but_later p t now s : leasing_but t p s → (t ≤ now)%Z → leasing_but now p s.
Proof. intros [Hr ? ? ?] Ht. split; [by eapply registry_ok_later|done..]. Qed.

(** What the reconciler's test comes to for a lease and its device. *)
Lemma ends_false ds read l d : NoDup (dev_id <$> ds) → d ∈ ds → dev_id d = l_deviceId l →
  ends ds read l = false ↔ dev_physical d = true
    ∨ ∃ reality o, read (spec_platform (dev_spec d)) = Some reality
        ∧ Arr.find (λ c, ob_deviceId c === driverDeviceId (dev_fields d)) reality = Some o
        ∧ ob_runState o = run_running.
Proof.
  intros Hn Hd Hid. unfold ends, lease_outcome.
  assert (Arr.find (λ x, dev_id x === l_deviceId l) ds = Some d) as ->.
  { destruct (Arr.find _ _) as [x|] eqn:E.
    - apply afind_Some in E as [Hx Hxid%bool_decide_eq_true]. f_equal.
      eapply (NoDup_fmap_inj_on dev_id); [done..|congruence].
    - rewrite afind_None in E. specialize (E d Hd). cbn in E. by rewrite bool_decide_eq_true_2 in E. }
  rewrite negb_false_iff, bool_decide_eq_true. destruct (dev_physical d); [tauto|]. unfold deviceOutcome.
  destruct (read _) as [reality|]; [|split; [done|intros [?|(? & ? & ? & _)]; congruence]].
  destruct (Arr.find _ reality) as [o|] eqn:E; [|split; [done|intros [?|(? & ? & ? & ? & _)]; congruence]].
  case_bool_decide; [split; [eauto 10|done]|split; [done|]].
  intros [?|(? & ? & ? & ? & ?)]; congruence.
Qed.

Section startup.
Context `{LocaleCompare} (options : RegistryOptions) (hasParticipants : bool) (now : Z).
Context (Hret : retention_ok options).

Lemma sorted_leases ls : NoDup (l_id <$> ls) →
  NoDup (l_id <$> sort_by compareLeaseDeadlines ls)
  ∧ ∀ l, l ∈ sort_by compareLeaseDeadlines ls ↔ l ∈ ls.
Proof. intros Hn. split; [by rewrite sort_by_perm|]. intros l. apply elem_of_sort_by. Qed.

Lemma reconcile_runs r read : registry_ok now r →
  let s := MkLeasing r ∅ false [] [] in
  runs (reconcile options hasParticipants now read) s
    (λ _ s', registry_ok now (lg_registry s') ∧ lg_disposed s' = false ∧ lg_timers s' = ∅ ∧ lg_due s' = []
       ∧ leases (lg_registry s') = Arr.filter (λ l, negb (ends (devices r) read l)) (leases r)
       ∧ lg_events s' = (λ l, end_event l (startup_reason now l))
           <$> Arr.filter (ends (devices r) read) (sort_by compareLeaseDeadlines (leases r))) (λ _ _, False).
Proof.
  intros Hr s. pose proof (ro_data _ _ Hr) as Hd. destruct (sorted_leases _ (do_lease_ids _ _ _ _ _ Hd)) as [Hn Hel].
  assert (leasing_but now (l_id <$> leases r) s) as Hs.
  { split; [done|..|done]; cbn.
    - intros i _ d E. cbn in E. by apply lookup_empty_Some in E.
    - intros l _ Hl Hp. destruct Hp. by apply list_elem_of_fmap_2. }
  unfold reconcile. apply runs_bind, runs_get.
  eapply runs_mono; [apply (reconcile_each_runs options hasParticipants now Hret _ _ _ _ _ Hs Hn)| |done].
  - intros l. by rewrite Hel.
  - intros l Hl He d Hdin Hdid. destruct (dev_physical d) eqn:Hp; [|done].
    assert (ends (devices r) read l = false); [|cbn in He; congruence].
    apply (ends_false _ _ _ d); [apply Hd|done|done|by left].
  - intros _ s' (Hs' & Hd' & Hdue & Ht & Hl & He). split_and!; try done; [apply Hs'|by apply Ht|].
    rewrite Hl. unfold Arr.filter. apply List.filter_ext_in. intros x Hx%list_elem_of_In. f_equal.
    apply eq_bool_prop_intro. rewrite !Is_true_true. rewrite asome_true. split.
    + intros (l & Hlin & [Hid%bool_decide_eq_true Hle]%andb_prop). rewrite Hel in Hlin.
      assert (l = x) as <-; [|done]. eapply (NoDup_fmap_inj_on l_id); [apply Hd|done..].
    + intros Hex. exists x. rewrite Hel. split; [done|]. by rewrite bool_decide_eq_true_2.
Qed.

Lemma startup_ok r read : registry_ok now r →
  leasing_but now [] (restoreExpiryTimers options hasParticipants now
    (reconcile options hasParticipants now read (MkLeasing r ∅ false [] [])).1).1.
Proof.
  intros Hr. pose proof (reconcile_runs r read Hr) as Hrec. cbn in Hrec. unfold runs in Hrec.
  destruct (reconcile _ _ _ read _) as [s [[]|e]]; [|done]. cbn [fst].
  destruct Hrec as (Hrs & Hdis & Ht & _). destruct (sorted_leases _ (do_lease_ids _ _ _ _ _ (ro_data _ _ Hrs))) as [Hn Hel].
  apply runs_fst. unfold restoreExpiryTimers. apply runs_bind, runs_get. rewrite Hdis.
  eapply runs_mono; [apply (restore_each_runs options hasParticipants now Hret); [done| |done|]|done|done].
  - split; [done|..|done].
    + intros i _ d E. rewrite Ht in E. by apply lookup_empty_Some in E.
    + intros l _ Hl Hp. destruct Hp. apply list_elem_of_fmap_2. by rewrite Hel.
  - intros l. by rewrite Hel.
Qed.
End startup.

Lemma leasing_reachable_ok `{LocaleCompare} options defaultMs hasParticipants now s : retention_ok options →
  leasing_reachable options defaultMs hasParticipants now s → leasing_but now [] s.
Proof.
  intros Hret. induction 1 as [t now r read Hr Ht|now now' s s' _ IH Hle Hs].
  - apply startup_ok; [done|]. eapply registry_ok_later; [done|]. by eapply registry_reachable_ok.
  - eapply leasing_step_ok; [done| |done]. by eapply leasing_but_later.
Qed.

(** ** Properties *)

(** C7. Every lease has a timer for its own deadline and runs out by no other. In any run from a start on, a timer
    exists only for a live lease and is set for the deadline the lease has now, and until the
    scheduler is disposed every live lease has that timer or has had that very expiry delivered. An
    expiry that is decided ends its lease, with its timer, as expired, when the deadline it was set
    for is still the lease's; after a renewal it changes nothing. *)
Theorem leases_expire_on_time `{LocaleCompare} options defaultMs hasParticipants now s :
  retention_ok options → leasing_reachable options defaultMs hasParticipants now s →
  (∀ i d, lg_timers s !! i = Some d →
     ∃ l, l ∈ leases (lg_registry s) ∧ l_id l = i ∧ l_ttlDeadline l = d)
  ∧ (lg_disposed s = false → ∀ l, l ∈ leases (lg_registry s) →
       lg_timers s !! l_id l = Some (l_ttlDeadline l) ∨ (l_id l, l_ttlDeadline l) ∈ lg_due s)
  ∧ (∀ now' i d, (now ≤ now')%Z →
       let s' := (expire options hasParticipants now' i d s).1 in
       (∀ l, l ∈ leases (lg_registry s) → l_id l = i → l_ttlDeadline l = d →
          leases (lg_registry s') = without_lease i (leases (lg_registry s))
          ∧ lg_timers s' = delete i (lg_timers s)
          ∧ lg_events s' = lg_events s ++ [LeaseExpired (l_deviceId l) i (l_ownerId l)])
       ∧ ((∀ l, l ∈ leases (lg_registry s) → l_id l = i → l_ttlDeadline l ≠ d) → s' = s)).
Proof.
  intros Hret Hre. pose proof (leasing_reachable_ok _ _ _ _ _ Hret Hre) as Hs. split_and!.
  - intros i. apply (ls_timers _ _ _ Hs). by apply not_elem_of_nil.
  - intros Hdis l Hl. apply (ls_covered _ _ _ Hs); [done..|]. by apply not_elem_of_nil.
  - intros now' i d Hle s'. split; [|intros Hno; unfold s'; by rewrite expire_stale].
    intros l Hl <- <-. pose proof (leasing_but_later _ _ now' _ Hs Hle) as Hs'.
    pose proof (expire_runs options hasParticipants now' Hret [] l s Hs' Hl) as Hrun. unfold runs in Hrun.
    unfold s'. destruct (expire _ _ _ _ _ s) as [s1 [[]|e]]; [|done]. cbn [fst].
    destruct Hrun as (ended & (_ & (_ & _ & Hls & _) & _ & Ht & _ & He) & Hel). by rewrite Hls, Ht, He, Hel.
Qed.

(** C8. A start ends exactly the leases whose device is not running. The reconciler never fails; it
    keeps a lease exactly when its device is physical or was seen running under its driver id, in
    the order they were in; it ends every other one, by deadline, once, as expired when its deadline
    has passed and as lost otherwise. *)
Theorem startup_ends_lost_leases `{LocaleCompare} options hasParticipants r t now read :
  retention_ok options → registry_reachable options r t → (t ≤ now)%Z →
  let '(s', answer) := reconcile options hasParticipants now read (MkLeasing r ∅ false [] []) in
  answer = Ok tt
  ∧ leases (lg_registry s') = Arr.filter (λ l, negb (ends (devices r) read l)) (leases r)
  ∧ lg_events s' = (λ l, end_event l (if (l_ttlDeadline l <=? now)%Z then end_expired else end_device_lost))
      <$> Arr.filter (ends (devices r) read) (sort_by compareLeaseDeadlines (leases r))
  ∧ ∀ l, l ∈ leases r → ∃ d, d ∈ devices r ∧ dev_id d = l_deviceId l ∧
      (ends (devices r) read l = false ↔ dev_physical d = true
         ∨ ∃ reality o, read (spec_platform (dev_spec d)) = Some reality
             ∧ Arr.find (λ c, ob_deviceId c === driverDeviceId (dev_fields d)) reality = Some o
             ∧ ob_runState o = run_running).
Proof.
  intros Hret Hre Ht. pose proof (registry_ok_later _ _ _ Ht (registry_reachable_ok _ _ _ Hret Hre)) as Hr.
  pose proof (reconcile_runs options hasParticipants now Hret r read Hr) as Hrec. cbn in Hrec. unfold runs in Hrec.
  destruct (reconcile _ _ _ read _) as [s' [[]|e]]; [|done].
  destruct Hrec as (_ & _ & _ & _ & Hl & He). split_and!; [done..|].
  intros l Hlin. pose proof (ro_data _ _ Hr) as Hd.
  assert (l_deviceId l ∈ l_deviceId <$> leases r) as (d & Hdin & Hid & _)%(do_leased _ _ _ _ _ Hd)
    by (by apply list_elem_of_fmap_2).
  exists d. split_and!; [done..|]. apply ends_false; [apply Hd|done..].
Qed.

(** A daemon that starts at time 9 on a registry with one lease, whose device it sees running or not. *)
Definition sample_read (running : bool) : StartupRead := λ _,
  Some (if running then [MkObserved "udid-1" run_running] else []).
Definition sample_leasing (running : bool) : Leasing :=
  (@restoreExpiryTimers Codepoint.compare sample_options false 9
    (@reconcile Codepoint.compare sample_options false 9 (sample_read running)
       (MkLeasing sample_registry ∅ false [] [])).1).1.
Lemma sample_leasing_reachable running :
  @leasing_reachable Codepoint.compare sample_options 100 false 9 (sample_leasing running).
Proof. eapply leasing_start; [apply sample_reachable|done]. Qed.

Lemma leases_expire_on_time_witness :
  lg_timers (sample_leasing true) !! "lse_1" = Some 104%Z
  ∧ leases (lg_registry (expire sample_options false 104 "lse_1" 104 (sample_leasing true)).1) = [].
Proof.
  split; [vm_compute; reflexivity|].
  destruct (@leases_expire_on_time Codepoint.compare sample_options 100 false 9 (sample_leasing true)
    sample_retention (sample_leasing_reachable true)) as (Htimers & _ & Hexpire).
  destruct (Htimers "lse_1" 104%Z) as (l & Hl & Hid & Hd); [vm_compute; reflexivity|].
  destruct (proj1 (Hexpire 104%Z "lse_1" 104%Z ltac:(discriminate)) l Hl Hid Hd) as [E _].
  rewrite E. vm_compute. reflexivity.
Defined.

Lemma startup_ends_lost_leases_witness :
  leases (lg_registry (@reconcile Codepoint.compare sample_options false 9 (sample_read false)
    (MkLeasing sample_registry ∅ false [] [])).1) = [].
Proof.
  pose proof (@startup_ends_lost_leases Codepoint.compare sample_options false sample_registry 4 9
    (sample_read false) sample_retention sample_reachable ltac:(discriminate)) as E.
  destruct (@reconcile Codepoint.compare sample_options false 9 (sample_read false)
    (MkLeasing sample_registry ∅ false [] [])) as [s answer].
  destruct E as (_ & E & _). cbn [fst]. rewrite E. vm_compute. reflexivity.
Defined.
