(* ===== verification/AcquisitionState.v ===== *)
(** * What the acquisition coordinator keeps: [src/leasing/lease-acquisition-coordinator.ts]

    The state of the coordinator and of the two components only it and the release coordinator
    write, the wait queue and the expiry scheduler; and the events a refused request is reported
    with ([src/leasing/lease-refusal.ts]). The operations are in [Acquisition], over the state the
    daemon's flows share. *)
From stdpp Require Import base strings list option numbers gmap.
From S2P Require Import Prelude JsString OsRange Domain Capacity Claims Planner WaitQueue RequestBook Lifecycle.

(** What the coordinator adds to a waiter ([AcquisitionWaiter]). *)
Record AcquisitionWaiter := MkAcquisitionWaiter {
  aw_failures : Z;
  aw_classOf : option (string → option DeviceClass);
  aw_requirement : option DeviceRequirement;
  aw_spec : option VirtualSpec;
  aw_timing : LeaseTiming }.
#[export] Instance AcquisitionWaiter_eta : Eta AcquisitionWaiter := λ w,
  MkAcquisitionWaiter (aw_failures w) (aw_classOf w) (aw_requirement w) (aw_spec w) (aw_timing w).
Definition noTiming : LeaseTiming := MkTiming 0 0 0 0.
(** [#newWaiter]'s own fields. *)
Definition new_waiter : AcquisitionWaiter := MkAcquisitionWaiter 0 None None None noTiming.

(** The reasons of [lease.rejected]. *)
Inductive RefusalReason :=
| refused_timeout | refused_no_wait | refused_unresolvable | refused_already_leased
| refused_boot_timeout | refused_killed | refused_cancelled | refused_updating
| refused_lease_id_taken.

Record LeaseRefusal := MkRefusal {
  rf_requestId : string; rf_requester : string; rf_requestSpec : DeviceRequest;
  rf_reason : RefusalReason; rf_fleetRequestId : option string }.

Inductive AcquisitionEvent :=
| EvLeaseRejected (requestId requester : string) (spec : DeviceRequest) (reason : RefusalReason)
| EvLeaseDeclined (requestId requester : string) (spec : DeviceRequest) (reason : RefusalReason)
    (fleetRequestId : string)
| EvLeaseRequested (requestId requester : string) (spec : DeviceRequest) (noWait : bool)
    (fleetRequestId : option string)
| EvLeaseQueued (queuePosition : Z) (requestId : string).

(** A request carrying a fleet's id is only declined: the gateway owns its outcome. *)
Definition emitLeaseRefusal (refusal : LeaseRefusal) : AcquisitionEvent :=
  match rf_fleetRequestId refusal with
  | None => EvLeaseRejected (rf_requestId refusal) (rf_requester refusal) (rf_requestSpec refusal)
              (rf_reason refusal)
  | Some fleet => EvLeaseDeclined (rf_requestId refusal) (rf_requester refusal)
              (rf_requestSpec refusal) (rf_reason refusal) fleet
  end.

(** The expiry scheduler's part of [Lifecycle.Leasing], which has the registry besides. *)
Record Expiry := MkExpiry {
  ex_timers : gmap string Z; ex_disposed : bool; ex_due : list (string * Z); ex_events : list LeaseEvent }.

(** Waiters are named by their handles in the queue. [aq_wakes] counts the wakes of the queue that
    have been asked for and have not run; [aq_pressure] is what the host's memory pressure is at;
    [aq_open] and [aq_calls] are the request book's, whose store is the registry. *)
Record Acquiring := MkAcquiring {
  aq_queue : WaitQueue;
  aq_waiters : gmap nat AcquisitionWaiter;
  aq_driving : gset nat;
  aq_planAgain : gset nat;
  aq_admissionClosed : bool;
  aq_updateHold : bool;
  aq_stopPlanning : bool;
  aq_maintenanceDepth : Z;
  aq_wakes : nat;
  aq_pressure : option PressureStep;
  aq_expiry : Expiry;
  aq_open : gmap string (OpenRequest LeaseGrant);
  aq_calls : list BookCall;
  aq_events : list AcquisitionEvent }.
#[export] Instance Acquiring_eta : Eta Acquiring := λ a,
  MkAcquiring (aq_queue a) (aq_waiters a) (aq_driving a) (aq_planAgain a) (aq_admissionClosed a)
    (aq_updateHold a) (aq_stopPlanning a) (aq_maintenanceDepth a) (aq_wakes a) (aq_pressure a)
    (aq_expiry a) (aq_open a) (aq_calls a) (aq_events a).
Definition nothing_acquired : Acquiring :=
  MkAcquiring empty_queue ∅ ∅ ∅ false false false 0 0 None (MkExpiry ∅ false [] []) ∅ [] [].
