(* ===== verification/Devices.v ===== *)
(** * Device operations: [src/core/managed-device-lifecycle.ts]

    Booting, rebooting, recovering, shutting down and destroying a device of the registry. Each
    operation is a flow: it claims the device in a section that checks it, calls the driver outside
    the gate, and commits in a section that checks the device again. The theorems hold under any
    interference of the rest of the program that leaves a claimed device to its claimer. *)
From stdpp Require Import base strings list option numbers gmap pretty.
From S2P Require Import Prelude JsString OsRange AcquisitionState Domain RequestStore Capacity Claims Registry RegistryInv Resolve Flow.

(** ** Data *)

(** What a driver is handed, and what it hands back of a device it made ready. *)
Record DriverDevice := MkDriverDevice {
  dd_deviceId : string; dd_driverData : opaque; dd_address : string; dd_mode : option DeviceMode;
  dd_enrolledApps : option (list string) }.
Definition toDriverDevice (d : DeviceRecord) : DriverDevice :=
  MkDriverDevice (driverDeviceId (dev_fields d)) (driverData (dev_fields d))
    (default "" (address (dev_fields d))) None
    match d with Physical p => Some (p_enrolledApps p) | Virtual _ => None end.

Definition readyTransitionUpdate (readyDevice : DriverDevice) : DeviceTransitionUpdate :=
  no_update <| u_address := Some (dd_address readyDevice) |>
    <| u_driverData := Some (dd_driverData readyDevice) |>
    <| u_mode := Some (default full (dd_mode readyDevice)) |>.

Inductive ReadyPurpose := purpose_prepare | purpose_recover.
Inductive ReclaimStrategy := strategy_erase | strategy_snapshot | strategy_wipe | strategy_uninstall.
Record ReclaimResult := MkReclaimResult {
  rc_state : DeviceState; rc_strategy : ReclaimStrategy; rc_missingApps : option (list string) }.
(** The copy of a device a driver keeps as a baseline's source. *)
Record SavedSource := MkSaved {
  sv_sourceId : string; sv_sizeBytes : option Z; sv_imageTag : option string }.
Record PresentPhysical := MkPresent {
  pp_driverDeviceId : string; pp_present : bool; pp_osVersion : option string;
  pp_reason : option AbsentReason }.

(** The driver calls of the flows, with the record they are made for. *)
Inductive DriverCall :=
| CallMakeReady (device : VirtualDevice) (purpose : ReadyPurpose) (mode : DeviceMode)
    (except : option (list string))
| CallShutdown (device : VirtualDevice)
| CallDestroy (device : VirtualDevice)
| CallReclaim (device : DeviceRecord)
| CallSaveSource (device : VirtualDevice)
| CallProvision (spec : VirtualSpec) (source : option string)
| CallListPresent (platform : Platform) (ids : list string).

(** What a call answers: each caller reads the part that is its call's result. *)
Record DriverAnswer := MkAnswer {
  an_device : DriverDevice; an_reclaim : ReclaimResult; an_present : list PresentPhysical;
  an_saved : SavedSource }.

(** Errors by the class the source throws; a driver's own error is its name and message. *)
Inductive DeviceError :=
| DriverThrew (name message : string)
| BootTimeout (deviceId : string) (reason : option string)
| NoDriverError (platform : Platform)
| RegistryThrew (e : RegistryError)
| NotVirtual (deviceId : string)
| UnknownBaselineError (name : string)
| ComponentBeingRemovedError (platform : Platform) (version : string)
| PlainError (message : string).

(** The name and the message of each. *)
Definition registry_error_name (e : RegistryError) : string :=
  match e with
  | UnknownDeviceError _ => "UnknownDeviceError"
  | UnknownLeaseError _ => "UnknownLeaseError"
  | RegistryEventError _ => "RegistryEventError"
  | IllegalTransitionError _ => "IllegalTransition"
  end.
Definition registry_error_message (e : RegistryError) : string :=
  match e with
  | UnknownDeviceError i => "Unknown device: " +:+ i
  | UnknownLeaseError i => "Unknown lease: " +:+ i
  | RegistryEventError message => message
  | IllegalTransitionError e =>
      "Cannot transition device from " +:+ state_text (it_from e) +:+ " to " +:+ state_text (it_to e)
  end.
Definition device_error_name (e : DeviceError) : string :=
  match e with
  | DriverThrew name _ => name
  | BootTimeout _ _ => "BootTimeoutError"
  | NoDriverError _ => "NoDriverError"
  | RegistryThrew e => registry_error_name e
  | UnknownBaselineError _ => "UnknownBaselineError"
  | ComponentBeingRemovedError _ _ => "ComponentBeingRemovedError"
  | NotVirtual _ | PlainError _ => "Error"
  end.
Definition device_error_message (e : DeviceError) : string :=
  match e with
  | DriverThrew _ message => message
  | BootTimeout i None => "Timed out waiting for device to boot: " +:+ i
  | BootTimeout i (Some reason) => "Device failed to boot: " +:+ i +:+ ": " +:+ reason
  | NoDriverError p => "No driver registered for platform: " +:+ platform_text p
  | RegistryThrew e => registry_error_message e
  | NotVirtual i => "Device " +:+ i +:+ " is physical; only a virtual device may be acted on here"
  | UnknownBaselineError name => "no baseline named " +:+ quote +:+ name +:+ quote +:+ " on this worker"
  | ComponentBeingRemovedError p version =>
      platform_text p +:+ " " +:+ version +:+ " is being removed; no new device is created on it"
  | PlainError message => message
  end.
(** [stableError] of [src/core/stable-error.ts]: the class of an error and its message. *)
Definition stableError (e : DeviceError) : string :=
  device_error_name e +:+ ": " +:+ device_error_message e.

(** What a reclaim tried when it failed: a driver's strategy, or the deletion of a spent device. *)
Inductive AttemptedStrategy := tried_delete | tried_strategy (strategy : ReclaimStrategy).

(** What the coordinators tell the rest of the program, besides the registry's own events. *)
Inductive CoordinatorEvent :=
| EvAvailability
| EvPhysicalReady (deviceId : string)
| EvShutdown (deviceId initiator : string)
| EvPurgeFailed (strategy : AttemptedStrategy) (deviceId : string) (duration : Z) (error leaseId : string)
| EvQuarantined (deviceId : string) (maxRetries nextRetryAt : Z) (platform : Platform) (cause : QuarantineCause)
| EvQuarantineRecovered (attempts : Z) (deviceId : string) (result : ReclaimResult) (platform : Platform)
| EvQuarantineStranded (attempts : Z) (deviceId error : string) (platform : Platform)
| EvQuarantineAbandoned (attempts : Z) (deviceId : string) (platform : Platform).

(** What the last presence read said of a physical device. *)
Inductive LatestPresence := latest_present | latest_absent (reason : AbsentReason).

(** The state the flows share, with the clock: the registry and the claims; the capacity
    reservations; the component installer's claims of provisions (one entry each) and the versions
    being removed; the baselines' rows and the holds on their versions; the quarantine's timers by
    device, with the moment each is due, and whether it is disposed; and the last presence read of
    each physical device. [sh_emitted] is what was told, in order, and [sh_acquiring] the wait queue
    with what the acquisition coordinator keeps. *)
Record Shared := MkShared {
  sh_registry : Registry;
  sh_claims : DeviceOperationClaims;
  sh_now : Z;
  sh_capacity : Coordinator;
  sh_provisioning : list (Platform * string);
  sh_removing : list (Platform * string);
  sh_baselines : list CurrentBaseline;
  sh_holds : list (string * Z);
  sh_timers : gmap string Z;
  sh_disposed : bool;
  sh_presence : gmap string LatestPresence;
  sh_emitted : list CoordinatorEvent;
  sh_acquiring : Acquiring }.
#[export] Instance Shared_eta : Eta Shared := λ s,
  MkShared (sh_registry s) (sh_claims s) (sh_now s) (sh_capacity s) (sh_provisioning s) (sh_removing s)
    (sh_baselines s) (sh_holds s) (sh_timers s) (sh_disposed s) (sh_presence s) (sh_emitted s)
    (sh_acquiring s).

Definition v_id (v : VirtualDevice) : string := id (v_fields v).
Definition virtualDevices (r : Registry) : list VirtualDevice := omap dev_virtual (devices r).

(** ** The operations *)

Module ManagedDevice.
Section lifecycle.
(** The registry's options and the platforms the driver catalog has a driver for. *)
Context (options : RegistryOptions) (hasDriver : Platform → bool).
Local Abbreviation flow_of R := (flow Shared DriverCall DriverAnswer DeviceError R).
Local Abbreviation op A := (action Shared DeviceError A).

Definition on_registry {A} (m : Z → action Registry RegistryError A) : op A := λ s,
  match m (sh_now s) (sh_registry s) with
  | (r, Ok a) => (s <| sh_registry := r |>, Ok a)
  | (r, Err e) => (s <| sh_registry := r |>, Err (RegistryThrew e))
  end.
Definition as_virtual (d : DeviceRecord) : op VirtualDevice :=
  lift match assertVirtual d with Ok v => Ok v | Err i => Err (NotVirtual i) end.
Definition drop_claim (k : DeviceOperationClaim) (s : Shared) : Shared :=
  s <| sh_claims := releaseClaim (sh_claims s) k |>.
(** [this.clock.now()] *)
Definition read_now : flow_of Z := gate (λ s, (s, Ok (sh_now s))).
(** [this.catalog.get(platform)] *)
Definition get_driver (platform : Platform) : flow_of unit :=
  if hasDriver platform then mret tt else fail (NoDriverError platform).

Definition registeredTarget (r : Registry) (target : VirtualDevice) (expectedStates : list DeviceState)
    : option VirtualDevice :=
  match Arr.find (λ candidate, v_id candidate === v_id target) (virtualDevices r) with
  | None => None
  | Some device =>
      if (driverDeviceId (v_fields device) !== driverDeviceId (v_fields target))
         || negb (Arr.includes (v_state device) expectedStates)
         || Arr.some (on_device (v_id device)) (leases r)
      then None else Some device
  end.

Definition leasedTarget (r : Registry) (target : VirtualDevice) (leaseId : string)
    : option VirtualDevice :=
  match Arr.find (λ candidate, v_id candidate === v_id target) (virtualDevices r) with
  | None => None
  | Some device =>
      if driverDeviceId (v_fields device) !== driverDeviceId (v_fields target) then None
      else if v_state device !== leased then None
      else match Arr.find (λ lease, l_id lease === leaseId) (leases r) with
           | None => None
           | Some lease => if l_deviceId lease !== v_id device then None else Some device
           end
  end.

Definition claim (target : VirtualDevice) (expectedStates : list DeviceState)
    (operation : DeviceOperation) (existingClaim : option DeviceOperationClaim)
    : flow_of (option (DeviceOperationClaim * VirtualDevice)) :=
  gate (λ s,
    match registeredTarget (sh_registry s) target expectedStates with
    | None => (s, Ok None)
    | Some device =>
        match existingClaim with
        | Some k =>
            if (k_deviceId k !== v_id device) || (k_operation k !== operation)
               || negb (isActive (sh_claims s) k)
            then (s, Ok None) else (s, Ok (Some (k, device)))
        | None =>
            match tryClaim (sh_claims s) (v_id device) operation None with
            | None => (s, Ok None)
            | Some (t, k) => (s <| sh_claims := t |>, Ok (Some (k, device)))
            end
        end
    end).

Definition claimLeased (target : VirtualDevice) (leaseId : string)
    : flow_of (option (DeviceOperationClaim * VirtualDevice)) :=
  gate (λ s,
    match leasedTarget (sh_registry s) target leaseId with
    | None => (s, Ok None)
    | Some device =>
        match tryClaim (sh_claims s) (v_id device) op_recovery None with
        | None => (s, Ok None)
        | Some (t, k) => (s <| sh_claims := t |>, Ok (Some (k, device)))
        end
    end).

Definition release (k : DeviceOperationClaim) : flow_of unit := gate (modify (drop_claim k)).

(** The transition of the device the claim is for, if it is still that device. *)
Definition commit_section (device : VirtualDevice) (expectedStates : list DeviceState)
    (to : DeviceState) (event : RegistryDeviceEvent) (u : DeviceTransitionUpdate)
    : op (option VirtualDevice) :=
  s ← get;
  match registeredTarget (sh_registry s) device expectedStates with
  | None => mret None
  | Some current =>
      d ← on_registry (λ now, transitionDevice options now (v_id current) to (Some event) u);
      v ← as_virtual d;
      mret (Some v)
  end.

Definition commitWithoutRelease (device : VirtualDevice) (expectedStates : list DeviceState)
    (to : DeviceState) (event : RegistryDeviceEvent) (u : DeviceTransitionUpdate)
    : flow_of (option VirtualDevice) :=
  gate (commit_section device expectedStates to event u).

(** The claim ends in the section of the commit, returned or thrown. *)
Definition commit (k : DeviceOperationClaim) (device : VirtualDevice)
    (expectedStates : list DeviceState) (to : DeviceState) (event : RegistryDeviceEvent)
    : flow_of (option VirtualDevice) :=
  gate (λ s, let '(s, r) := commit_section device expectedStates to event no_update s in
    (drop_claim k s, r)).

(** A failure after the claim: the claim ends, and the error is thrown on. *)
Definition releasing {A} (k : DeviceOperationClaim) (f : flow_of A) : flow_of A :=
  try_catch f (λ e, _ ← release k; fail e).

Definition shutdown_event (device : VirtualDevice) (initiator : string) : RegistryDeviceEvent :=
  MkDeviceEvent ev_shutdown (v_id device) (Opaque initiator).
Definition deleted_event (device : VirtualDevice) (initiator : string) : RegistryDeviceEvent :=
  MkDeviceEvent ev_deleted (v_id device) (Opaque initiator).
Definition ready_event (device : VirtualDevice) (bootDuration : Z) : RegistryDeviceEvent :=
  MkDeviceEvent ev_ready (v_id device) (Opaque (pretty bootDuration)).

Definition drive (device : VirtualDevice) (c : DriverCall) : flow_of DriverAnswer :=
  _ ← get_driver (vs_platform (v_spec device)); call c.

Definition shutdown (target : VirtualDevice) (initiator : string) (operation : DeviceOperation)
    (existingClaim : option DeviceOperationClaim) : flow_of (option VirtualDevice) :=
  claimed ← claim target [ready] operation existingClaim;
  match claimed with
  | None => mret None
  | Some (k, device) =>
      _ ← releasing k (drive device (CallShutdown device));
      commit k device [ready] Domain.shutdown (shutdown_event device initiator)
  end.

Definition destroy (target : VirtualDevice) (initiator : string) (operation : DeviceOperation)
    (existingClaim : option DeviceOperationClaim) : flow_of (option VirtualDevice) :=
  claimed ← claim target [provisioning; Domain.shutdown] operation existingClaim;
  match claimed with
  | None => mret None
  | Some (k, device) =>
      _ ← releasing k (drive device (CallDestroy device));
      commit k device [provisioning; Domain.shutdown] deleted (deleted_event device initiator)
  end.

(** Shuts a ready device down first; both driver calls run under one claim. *)
Definition dispose (target : VirtualDevice) (initiator : string) (operation : DeviceOperation)
    (existingClaim : option DeviceOperationClaim) : flow_of (option VirtualDevice) :=
  claimed ← claim target [ready; Domain.shutdown] operation existingClaim;
  match claimed with
  | None => mret None
  | Some (k, device) =>
      stopped ← releasing k (
        if v_state device === ready then
          _ ← drive device (CallShutdown device);
          stopped ← commitWithoutRelease device [ready] Domain.shutdown
            (shutdown_event device initiator) no_update;
          match stopped with
          | None => _ ← release k; mret None
          | Some current => _ ← drive current (CallDestroy current); mret (Some current)
          end
        else _ ← drive device (CallDestroy device); mret (Some device));
      match stopped with
      | None => mret None
      | Some current => commit k device [Domain.shutdown] deleted (deleted_event current initiator)
      end
  end.

(** A ready device handed over with the claim it is still under. *)
Definition ReadyDeviceHandoff : Type := DeviceOperationClaim * VirtualDevice.

Definition makeReadyForLease (target : VirtualDevice) (expectedState : DeviceState)
    (existingClaim : option DeviceOperationClaim) (except : option (list string))
    : flow_of (option ReadyDeviceHandoff) :=
  claimed ← claim target [expectedState] op_boot existingClaim;
  match claimed with
  | None => mret None
  | Some (k, device) =>
      startedAt ← read_now;
      answer ← releasing k (drive device
        (CallMakeReady device purpose_prepare (specMode (VSpec (v_spec device))) except));
      releasing k (
        now ← read_now;
        made ← commitWithoutRelease device [expectedState] ready
          (ready_event device (now - startedAt)) (readyTransitionUpdate (an_device answer));
        match made with
        | None => _ ← release k; mret None
        | Some device => mret (Some (k, device))
        end)
  end.

Definition bootForLease (target : VirtualDevice) (k : DeviceOperationClaim)
    (except : option (list string)) : flow_of (option ReadyDeviceHandoff) :=
  makeReadyForLease target Domain.shutdown (Some k) except.

Definition readyProvisionedForLease (target : VirtualDevice) (k : option DeviceOperationClaim)
    (except : option (list string)) : flow_of (option ReadyDeviceHandoff) :=
  makeReadyForLease target provisioning k except.

Definition bootWarm (target : VirtualDevice) (k : DeviceOperationClaim) : flow_of (option VirtualDevice) :=
  handoff ← makeReadyForLease target Domain.shutdown (Some k) None;
  match handoff with
  | None => mret None
  | Some (_, device) => _ ← release k; mret (Some device)
  end.

(** A failed reboot records the device as shut down, and ends the claim either way. *)
Definition rebootForLease (target : VirtualDevice) (existing : DeviceOperationClaim)
    (except : list string) : flow_of (option ReadyDeviceHandoff) :=
  claimed ← claim target [ready] op_boot (Some existing);
  match claimed with
  | None => mret None
  | Some (k, device) =>
      _ ← get_driver (vs_platform (v_spec device));
      answer ← try_catch
        (_ ← call (CallShutdown device);
         call (CallMakeReady device purpose_prepare (specMode (VSpec (v_spec device))) (Some except)))
        (λ e, _ ← finally (_ ← commitWithoutRelease device [ready] Domain.shutdown
                             (shutdown_event device "lease-engine") no_update; mret tt)
                    (release k);
              fail e);
      rebooted ← releasing k (gate (
        s ← get;
        match registeredTarget (sh_registry s) device [ready] with
        | None => mret None
        | Some current =>
            let made := an_device answer in
            d ← on_registry (λ now, recordRebootedDevice options now (v_id current)
              (MkReboot (dd_address made) (dd_driverData made) (default full (dd_mode made))));
            v ← as_virtual d;
            mret (Some v)
        end));
      match rebooted with
      | None => _ ← release k; mret None
      | Some device => mret (Some (k, device))
      end
  end.

(** The exception to "never touch a leased device": the device stays [leased], nothing is
    committed, and the lease is checked again once the driver is done. *)
Definition recoverLeased (target : VirtualDevice) (leaseId : string) : flow_of (option VirtualDevice) :=
  claimed ← claimLeased target leaseId;
  match claimed with
  | None => mret None
  | Some (k, device) =>
      _ ← releasing k (drive device
        (CallMakeReady device purpose_recover (specMode (VSpec (v_spec device))) None));
      gate (λ s, (drop_claim k s, Ok (leasedTarget (sh_registry s) device leaseId)))
  end.
End lifecycle.
End ManagedDevice.

(** ** What the registry's commits do to its devices *)

Definition find_virtual (r : Registry) (i : string) : option VirtualDevice :=
  Arr.find (λ candidate, v_id candidate === i) (virtualDevices r).
Definition unleased (r : Registry) (i : string) : bool := negb (Arr.some (on_device i) (leases r)).

Lemma elem_of_virtualDevices r v : v ∈ virtualDevices r ↔ Virtual v ∈ devices r.
Proof.
  unfold virtualDevices. rewrite list_elem_of_omap. split.
  - intros ([w|p] & Hin & E); by simplify_eq/=.
  - intros H. by exists (Virtual v).
Qed.

Lemma find_virtual_Some t r v i : registry_ok t r →
  find_virtual r i = Some v ↔ Virtual v ∈ devices r ∧ v_id v = i.
Proof.
  intros Hr. unfold find_virtual. split.
  - intros [Hin Hid%bool_decide_eq_true]%afind_Some. by rewrite <- elem_of_virtualDevices.
  - intros [Hin <-]. destruct (Arr.find _ _) as [w|] eqn:E.
    + apply afind_Some in E as [Hw Hid%bool_decide_eq_true]. rewrite elem_of_virtualDevices in Hw.
      pose proof (NoDup_fmap_inj_on dev_id (devices r) (Virtual w) (Virtual v)
        (do_ids _ _ _ _ _ (ro_data _ _ Hr)) Hw Hin Hid) as [= ->]. done.
    + rewrite afind_None in E. specialize (E v). rewrite elem_of_virtualDevices in E.
      specialize (E Hin). cbn in E. by rewrite bool_decide_eq_true_2 in E.
Qed.

Section effects.
Context (options : RegistryOptions) (Hret : retention_ok options).

Lemma settle_settled t now r x : registry_ok t r → x ∈ devices r → settle_device now x = x.
Proof.
  intros Hr Hx. unfold settle_device, withoutCauseUnlessQuarantined, stamp_deleted.
  assert ((dev_state x === quarantined) || (quarantineCause (dev_fields x) === None) = true) as ->.
  { rewrite orb_true_iff, !bool_decide_eq_true. destruct (quarantineCause (dev_fields x)) eqn:E; [left|by right].
    apply (ro_cause _ _ Hr); [done|by rewrite E]. }
  case_bool_decide as Hs; [|done]. cbn. rewrite bool_decide_eq_false_2; [done|].
  by apply (ro_stamped _ _ Hr).
Qed.

(** A device that is not deleted survives the replacement of another. *)
Lemma replace_keeps t now r (i : nat) d d' x : registry_ok t r → devices r !! i = Some d →
  x ∈ devices r → dev_id x ≠ dev_id d → dev_state x ≠ deleted →
  x ∈ devices (replace_device options now i d' r).1.
Proof.
  intros Hr Hi Hx Hne Hs. cbn. apply elem_of_committed. exists x. split; [|split].
  - apply (elem_of_replace (devices r) i d d'); [apply Hr|done|]. by right.
  - symmetry. by eapply settle_settled.
  - unfold isExpired. destruct (deletedAt (dev_fields x)) eqn:E; [|done]. destruct Hs.
    apply (do_deleted _ _ _ _ _ (ro_data _ _ Hr)); [done|]. by rewrite E.
Qed.

Lemma replace_puts now r (i : nat) d d' : devices r !! i = Some d → deletedAt (dev_fields d') = None →
  settle_device now d' ∈ devices (replace_device options now i d' r).1.
Proof using Hret.
  intros Hi Hdel. cbn. apply elem_of_committed. exists d'. split; [|split; [done|]].
  - apply list_elem_of_lookup. exists i. apply list_lookup_insert_eq. by eapply lookup_lt_Some.
  - unfold isExpired. destruct (settle_device_spec now d') as (_ & _ & _ & -> & _). rewrite Hdel.
    destruct Hret. destruct (_ && _); [apply Z.ltb_ge; lia|done].
Qed.

Lemma requireDeviceRecord_found t r v : registry_ok t r → Virtual v ∈ devices r →
  ∃ i, devices r !! i = Some (Virtual v) ∧ requireDeviceRecord (v_id v) r = (r, Ok (Virtual v, i)).
Proof.
  intros Hr Hin. unfold requireDeviceRecord, get, mbind, action_bind. cbv beta iota.
  destruct (Arr.findIndex (λ d, dev_id d === v_id v) (devices r)) as [i|] eqn:E.
  - apply afindIndex_Some in E as (d & Hi & Hid%bool_decide_eq_true & _).
    assert (d = Virtual v) as ->.
    { eapply (NoDup_fmap_inj_on dev_id); [apply Hr|by eapply list_elem_of_lookup_2|done..]. }
    exists i. split; [done|]. by rewrite Hi.
  - rewrite afindIndex_None in E. specialize (E _ Hin). cbn in E. by rewrite bool_decide_eq_true_2 in E.
Qed.

(** A virtual device after a transition, and what is left of the others. *)
Record moved (r : Registry) (v : VirtualDevice) (to : DeviceState) (d : DeviceRecord) (r' : Registry) : Prop := {
  mv_leases : leases r' = leases r;
  mv_record : ∃ w, d = Virtual w ∧ Virtual w ∈ devices r' ∧ v_state w = to ∧ v_id w = v_id v
    ∧ driverDeviceId (v_fields w) = driverDeviceId (v_fields v) ∧ v_spec w = v_spec v;
  mv_others x : x ∈ devices r → dev_id x ≠ v_id v → dev_state x ≠ deleted → x ∈ devices r' }.

(** The replacement of [v] by [w], followed by the emitted event and the lookup of the record. *)
Lemma replaced_moved now r r' (i : nat) v w : registry_ok now r → registry_ok now r' →
  devices r !! i = Some (Virtual v) → deletedAt (v_fields w) = None → v_id w = v_id v →
  driverDeviceId (v_fields w) = driverDeviceId (v_fields v) → v_spec w = v_spec v →
  devices r' = devices (replace_device options now i (Virtual w) r).1 → leases r' = leases r →
  runs (committed (v_id v)) r' (moved r v (v_state w)) (λ _ _, False).
Proof using Hret.
  intros Hr Hr' Hi Hdel Hid Hdd Hsp Hds Hls.
  pose proof (replace_puts now r i _ (Virtual w) Hi Hdel) as Hput. rewrite <- Hds in Hput.
  destruct (settle_device now (Virtual w)) as [w'|p'] eqn:E.
  2:{ unfold settle_device, withoutCauseUnlessQuarantined, stamp_deleted in E. cbn in E.
      repeat case_bool_decide; cbn in E; repeat case_bool_decide; by simplify_eq/=. }
  assert (v_id w' = v_id w ∧ v_state w' = v_state w ∧ driverDeviceId (v_fields w') = driverDeviceId (v_fields w)
    ∧ v_spec w' = v_spec w) as (Hid' & Hst' & Hdd' & Hsp').
  { unfold settle_device, withoutCauseUnlessQuarantined, stamp_deleted in E. cbn in E.
    repeat case_bool_decide; cbn in E; repeat case_bool_decide; by simplify_eq/=. }
  unfold committed. apply runs_bind. rewrite <- Hid, <- Hid'.
  destruct (requireDeviceRecord_found _ _ _ Hr' Hput) as (j & Hj & Hreq). unfold runs at 1. rewrite Hreq.
  apply runs_ret. split; [done| |].
  - exists w'. split_and!; try done; congruence.
  - intros x Hx Hne Hs. rewrite Hds. eapply replace_keeps; [done|exact Hi|done..].
Qed.

Lemma transitionDevice_moved r now v to ev u : registry_ok now r → Virtual v ∈ devices r →
  v_state v ≠ leased → to ≠ leased → legal_edge false (v_state v) to = true → unleased r (v_id v) = true →
  eventForTransition (v_state v) to = Some (de_event ev) → de_deviceId ev = v_id v →
  runs (transitionDevice options now (v_id v) to (Some ev) u) r
    (λ d r', registry_ok now r' ∧ moved r v to d r') (λ _ _, False).
Proof using Hret.
  intros Hr Hin Hs Hto Hedge Hun Hev Hevid.
  assert (runs (transitionDevice options now (v_id v) to (Some ev) u) r (λ _, registry_ok now) (λ _ r', r' = r))
    as Hkept.
  { apply transitionDevice_kept; [apply Hret|apply Hret|done|exact Hto|]. intros d Hd Hid.
    assert (d = Virtual v) as ->; [|done]. eapply (NoDup_fmap_inj_on dev_id); [apply Hr|done..]. }
  eapply runs_mono; [apply (runs_and _ _ _ (moved r v to) _ (λ _ _, False) Hkept)|done|by intros ?? [_ []]].
  destruct (requireDeviceRecord_found _ _ _ Hr Hin) as (i & Hi & Hreq).
  unfold transitionDevice. apply runs_bind. unfold runs at 1. rewrite Hreq. cbv beta iota.
  apply runs_bind, runs_get, runs_bind, runs_guard.
  2:{ intros Hf%negb_false_iff. apply andb_true_iff in Hf as [_ Hf]. unfold unleased in Hun.
      by rewrite Hf in Hun. }
  intros _. apply runs_bind. unfold assertTransitionEvent. cbn [dev_state]. rewrite Hev.
  rewrite (bool_decide_eq_true_2 (de_event <$> Some ev = _)) by done. cbn [negb].
  apply runs_guard; [intros _|by rewrite Hevid, bool_decide_eq_true_2].
  apply runs_bind, runs_lift.
  2:{ intros e He. exfalso. unfold transitioned in He. destruct (transition _ _ _) as [|e'] eqn:E; [done|].
      apply transition_Err in E as [E _]. exact (eq_true_false_abs _ Hedge E). }
  intros d' Hd'.
  assert (registry_ok now (replace_device options now i d' r).1) as Hr1.
  { pose proof (kept_move_plain options now (ret_requests _ Hret) (ret_deleted _ Hret) r i (Virtual v) to u d'
      (λ _ r', registry_ok now r') (λ _ _, True) Hr Hi Hd' Hs Hto) as Hm. unfold runs in Hm.
    destruct (replace_device _ _ _ _ _) as [r1 [[]|]] eqn:E; [by apply Hm|done]. }
  destruct (ok_device now r i _ Hr Hi) as (_ & Hwf & Hdeleted).
  pose proof (transitioned_successor now _ to u d' Hd' Hwf Hdeleted) as ([_ _ Hdel _] & _ & Hnd%legal_edge_not_deleted).
  assert (deletedAt (dev_fields d') = None) as Hdel'.
  { rewrite Hdel. destruct (deletedAt _); [|done]. by destruct Hnd; apply Hdeleted. }
  clear Hdel. unfold transitioned in Hd'. destruct (transition _ _ _) as [x|] eqn:Ex; [|done].
  injection Hd' as ->. cbn [transition] in Ex. unfold transitionVirtual in Ex.
  destruct (_ || _); [done|]. cbn in Ex. injection Ex as <-.
  match type of Hr1 with context [Virtual ?x] => set (w := x) in * end.
  apply runs_bind. unfold runs at 1.
  change (replace_device options now i (Virtual w) r) with ((replace_device options now i (Virtual w) r).1, @Ok RegistryError unit tt).
  cbv beta iota. apply runs_bind, runs_modify.
  apply (replaced_moved now r _ i v w); try done.
  - by apply registry_ok_noted.
  - unfold w, v_id. cbn. by destruct (to === Domain.shutdown).
  - unfold w. cbn. by destruct (to === Domain.shutdown).
Qed.

Lemma recordRebootedDevice_moved r now v u : registry_ok now r → Virtual v ∈ devices r → v_state v = ready →
  runs (recordRebootedDevice options now (v_id v) u) r
    (λ d r', registry_ok now r' ∧ moved r v ready d r') (λ _ _, False).
Proof using Hret.
  intros Hr Hin Hs.
  eapply runs_mono; [apply (runs_and _ _ _ (moved r v ready) _ (λ _ _, False)
    (recordRebootedDevice_kept options now (ret_requests _ Hret) (ret_deleted _ Hret) r (v_id v) u Hr))
    |done|by intros ?? [_ []]].
  destruct (requireDeviceRecord_found _ _ _ Hr Hin) as (i & Hi & Hreq).
  destruct (ok_device now r i _ Hr Hi) as (_ & Hwf & Hdeleted).
  assert (deletedAt (v_fields v) = None) as Hdel.
  { destruct (deletedAt (v_fields v)) eqn:E; [|done]. cbn in Hdeleted. rewrite E, Hs in Hdeleted. by discriminate Hdeleted. }
  unfold recordRebootedDevice. apply runs_bind. unfold runs at 1. rewrite Hreq. cbv beta iota.
  apply runs_bind, runs_guard; [intros _|by rewrite Hs, bool_decide_eq_true_2].
  match goal with |- runs (replace_device _ _ _ (Virtual ?x) ≫= _) _ _ _ => set (w := x) end.
  assert (registry_ok now (replace_device options now i (Virtual w) r).1) as Hr1.
  { pose proof (runs_replace options now (ret_requests _ Hret) (ret_deleted _ Hret) r i (Virtual v) (Virtual w)
      (λ _ r', registry_ok now r') (λ _ _, True) Hr Hi) as Hm. unfold runs in Hm.
    destruct (replace_device _ _ _ _ _) as [r1 [[]|]] eqn:E; [|done]. apply Hm; [|done|done]. by split. }
  apply runs_bind. unfold runs at 1.
  change (replace_device options now i (Virtual w) r) with ((replace_device options now i (Virtual w) r).1, @Ok RegistryError unit tt).
  cbv beta iota. rewrite <- Hs at 1. change (v_state v) with (v_state w).
  by apply (replaced_moved now r _ i v w).
Qed.
End effects.

(** ** Ownership of claims, rely and guarantee *)

Record claims_ok (t : DeviceOperationClaims) : Prop := {
  co_held i k : claims t !! i = Some k →
    k_deviceId k = i ∧ k_number k < nextClaim t ∧ k_number k ∉ releasedClaims t;
  co_released n : n ∈ releasedClaims t → n < nextClaim t;
  co_numbers i j k k' : claims t !! i = Some k → claims t !! j = Some k' → k_number k = k_number k' → k = k' }.
Definition held (t : DeviceOperationClaims) (k : DeviceOperationClaim) : Prop :=
  claims t !! k_deviceId k = Some k.
(** Numbers are handed out once, and a released claim stays released. *)
Definition claims_grow (t t' : DeviceOperationClaims) : Prop :=
  nextClaim t ≤ nextClaim t' ∧ releasedClaims t ⊆ releasedClaims t'.

Lemma claims_grow_refl t : claims_grow t t.
Proof. split; [lia|done]. Qed.

Lemma held_active t k : held t k → isActive t k = true.
Proof. unfold held, isActive, holds. intros ->. by apply bool_decide_eq_true_2. Qed.

Lemma tryClaim_only t i o w t' k k' : tryClaim t i o w = Some (t', k) → held t' k' → held t k' ∨ k' = k.
Proof.
  intros (_ & Hk & ->)%tryClaim_Some. unfold held. cbn. rewrite lookup_insert_Some. intros [[_ <-]|[_ Hk']]; [by right|by left].
Qed.
Lemma releaseClaim_only t k k' : held (releaseClaim t k) k' → held t k'.
Proof.
  unfold releaseClaim. destruct (Arr.includes _ _); [done|]. unfold held. destruct (holds _ _); cbn; [|done].
  by intros [_ ?]%lookup_delete_Some.
Qed.
Lemma tryClaim_ok t i o w t' k : claims_ok t → tryClaim t i o w = Some (t', k) →
  claims_ok t' ∧ held t' k ∧ k_deviceId k = i ∧ k_operation k = o ∧ k_number k = nextClaim t
  ∧ claims_grow t t' ∧ ∀ k', held t k' → held t' k'.
Proof.
  intros [Hh Hr Hn] (Hnone & -> & ->)%tryClaim_Some. split_and!; try done.
  - split; cbn.
    + intros j k'. rewrite lookup_insert_Some. intros [[<- <-]|[Hne Hk]].
      * split_and!; cbn; [done|lia|]. intros Hin%Hr. lia.
      * destruct (Hh _ _ Hk) as (? & ? & ?). split_and!; [done|lia|done].
    + intros n Hin%Hr. lia.
    + intros j j' k1 k2. rewrite !lookup_insert_Some. intros [[_ <-]|[_ H1]] [[_ <-]|[_ H2]] Heq; [done|..].
      * destruct (Hh _ _ H2) as (_ & Hlt & _). cbn in Heq. lia.
      * destruct (Hh _ _ H1) as (_ & Hlt & _). cbn in Heq. lia.
      * by eapply Hn.
  - unfold held. cbn. by rewrite lookup_insert_eq.
  - split; cbn; [lia|done].
  - intros k' Hk'. unfold held in *. cbn. rewrite lookup_insert_ne; [done|]. intros ->. congruence.
Qed.

Lemma releaseClaim_ok t k : claims_ok t → held t k →
  claims_ok (releaseClaim t k) ∧ claims_grow t (releaseClaim t k)
  ∧ k_number k ∈ releasedClaims (releaseClaim t k) ∧ ∀ k', held t k' → k' ≠ k → held (releaseClaim t k) k'.
Proof.
  intros [Hh Hr Hn] Hk. destruct (Hh _ _ Hk) as (_ & Hlt & Hnr).
  unfold releaseClaim, Arr.includes. rewrite bool_decide_eq_false_2 by done.
  replace (holds _ k) with true
    by (symmetry; unfold holds; cbn; rewrite Hk; by apply bool_decide_eq_true_2).
  split_and!; cbn.
  - split; cbn.
    + intros i k' [Hne Hi]%lookup_delete_Some. destruct (Hh _ _ Hi) as (Hd & ? & ?). split_and!; try done.
      rewrite not_elem_of_cons. split; [|done]. intros Heq. destruct Hne.
      by rewrite (Hn _ _ _ _ Hk Hi (eq_sym Heq)).
    + intros n [->|Hin]%elem_of_cons; [done|by apply Hr].
    + intros i j k1 k2 [_ H1]%lookup_delete_Some [_ H2]%lookup_delete_Some. by eapply Hn.
  - split; cbn; [done|set_solver].
  - by left.
  - intros k' Hk' Hne. unfold held. cbn. apply lookup_delete_Some. split; [|done]. intros Heq.
    unfold held in Hk, Hk'. rewrite Heq, Hk' in Hk. congruence.
Qed.


Definition good (s : Shared) : Prop := registry_ok (sh_now s) (sh_registry s) ∧ claims_ok (sh_claims s).

(** The same device in the same state, whatever else of the record changed. *)
Record same_device (x x' : DeviceRecord) : Prop := {
  sd_id : dev_id x' = dev_id x;
  sd_physical : dev_physical x' = dev_physical x;
  sd_driver : driverDeviceId (dev_fields x') = driverDeviceId (dev_fields x);
  sd_state : dev_state x' = dev_state x;
  sd_platform : spec_platform (dev_spec x') = spec_platform (dev_spec x) }.
Lemma same_device_refl x : same_device x x.
Proof. by split. Qed.
Lemma same_device_trans x y z : same_device x y → same_device y z → same_device x z.
Proof. intros [] []. split; congruence. Qed.

(** A device under a claim, left alone by everyone but its claimer: the claim stays active, and,
    unless the claim is the recovery of a leased device, the record keeps its state and identity
    and nobody leases it. *)
Definition left_alone (k : DeviceOperationClaim) (s s' : Shared) : Prop :=
  held (sh_claims s') k
  ∧ (k_operation k ≠ op_recovery → ∀ x, x ∈ devices (sh_registry s) → dev_id x = k_deviceId k →
       dev_state x ≠ deleted → unleased (sh_registry s) (k_deviceId k) = true →
       ∃ x', x' ∈ devices (sh_registry s') ∧ same_device x x'
         ∧ unleased (sh_registry s') (k_deviceId k) = true).

Definition rely (o : option DeviceOperationClaim) (s s' : Shared) : Prop :=
  good s → good s' ∧ (sh_now s ≤ sh_now s')%Z ∧ claims_grow (sh_claims s) (sh_claims s')
    ∧ ∀ k, o = Some k → held (sh_claims s) k → left_alone k s s'.

Definition guar (o : option DeviceOperationClaim) (s : Shared) (o' : option DeviceOperationClaim)
    (s' : Shared) : Prop :=
  good s → (∀ k, o = Some k → held (sh_claims s) k) →
  good s' ∧ sh_now s' = sh_now s ∧ claims_grow (sh_claims s) (sh_claims s')
  ∧ leases (sh_registry s') = leases (sh_registry s)
  ∧ (∀ x, x ∈ devices (sh_registry s) → dev_state x = leased → x ∈ devices (sh_registry s'))
  ∧ (∀ k, held (sh_claims s) k → o ≠ Some k → left_alone k s s')
  ∧ (∀ k, o' = Some k → held (sh_claims s') k ∧ (o = Some k ∨ nextClaim (sh_claims s) ≤ k_number k))
  ∧ (∀ k, o = Some k → o' = Some k ∨ k_number k ∈ releasedClaims (sh_claims s'))
  ∧ (∀ k, held (sh_claims s') k → held (sh_claims s) k ∨ o' = Some k).

Definition call_device (c : DriverCall) : option string :=
  match c with
  | CallMakeReady d _ _ _ | CallShutdown d | CallDestroy d | CallSaveSource d => Some (v_id d)
  | CallReclaim d => Some (dev_id d)
  | CallProvision _ _ | CallListPresent _ _ => None
  end.
(** Driver work on a device is done under an active claim on it, and on a leased device only to
    recover it. *)
Definition may_call (c : DriverCall) (o : option DeviceOperationClaim) (s : Shared) : Prop :=
  ∀ i, call_device c = Some i → ∃ k, o = Some k ∧ held (sh_claims s) k ∧ k_deviceId k = i
    ∧ (k_operation k = op_recovery → ∃ d m, c = CallMakeReady d purpose_recover m None)
    ∧ (k_operation k ≠ op_recovery → unleased (sh_registry s) i = true).

Lemma rely_refl o s : rely o s s.
Proof.
  intros Hg. split; [done|]. split; [lia|]. split; [apply claims_grow_refl|]. intros k _ Hk. split; [done|]. intros _ x Hx _ _ Hu. exists x. split_and!; [done|apply same_device_refl|done].
Qed.
Lemma rely_trans o s1 s2 s3 : rely o s1 s2 → rely o s2 s3 → rely o s1 s3.
Proof.
  intros H1 H2 Hg. destruct (H1 Hg) as (Hg2 & Ht & [Hn Hr] & Hk). destruct (H2 Hg2) as (Hg3 & Ht' & [Hn' Hr'] & Hk').
  split; [done|]. split; [lia|]. split; [split; [lia|set_solver]|]. intros k Ho Hh. destruct (Hk k Ho Hh) as [Hh2 Hd].
  destruct (Hk' k Ho Hh2) as [Hh3 Hd']. split; [done|]. intros Hop x Hx Hid Hs Hu.
  destruct (Hd Hop x Hx Hid Hs Hu) as (y & Hy & Hxy & Hu').
  destruct (Hd' Hop y Hy) as (z & Hz & Hyz & Hu''); [destruct Hxy; congruence..|done|].
  exists z. split_and!; [done|by eapply same_device_trans|done].
Qed.

(** A good state in which the claim [k] is ours and its device is [device], in state [st] and not
    leased. *)
Record ours (k : DeviceOperationClaim) (device : VirtualDevice) (st : DeviceState) (s : Shared) : Prop := {
  us_good : good s;
  us_held : held (sh_claims s) k;
  us_id : v_id device = k_deviceId k;
  us_operation : k_operation k ≠ op_recovery;
  us_state : st ≠ deleted ∧ st ≠ leased;
  us_device : ∃ d, find_virtual (sh_registry s) (k_deviceId k) = Some d
    ∧ driverDeviceId (v_fields d) = driverDeviceId (v_fields device) ∧ v_state d = st
    ∧ vs_platform (v_spec d) = vs_platform (v_spec device);
  us_unleased : unleased (sh_registry s) (k_deviceId k) = true }.

Lemma ours_rely k device st s s' : ours k device st s → rely (Some k) s s' → ours k device st s'.
Proof.
  intros [Hg Hh Hid Hop Hst (d & Hf & Hdd & Hs & Hp) Hu] Hr. destruct (Hr Hg) as (Hg' & _ & _ & Hk).
  destruct (Hk k eq_refl Hh) as [Hh' Hd]. destruct Hst as [Hst Hst'].
  apply (find_virtual_Some _ _ _ _ (proj1 Hg)) in Hf as [Hin Hdid].
  destruct (Hd Hop (Virtual d) Hin Hdid) as (x & Hx & [Xid Xph Xdd Xst Xp] & Hu'); [cbn; congruence|done|].
  destruct x as [d'|]; [|done]. cbn in *. split; try done. exists d'. split_and!; [|congruence..].
  apply (find_virtual_Some _ _ _ _ (proj1 Hg')). split; [done|]. transitivity (v_id d); done.
Qed.

Lemma ours_target k device st s expected : ours k device st s → st ∈ expected →
  ∃ d, ManagedDevice.registeredTarget (sh_registry s) device expected = Some d ∧ v_state d = st
    ∧ v_id d = k_deviceId k ∧ Virtual d ∈ devices (sh_registry s)
    ∧ driverDeviceId (v_fields d) = driverDeviceId (v_fields device)
    ∧ vs_platform (v_spec d) = vs_platform (v_spec device).
Proof.
  intros [[Hg _] Hh Hid Hop Hst (d & Hf & Hdd & Hs & Hp) Hu] Hin.
  pose proof (proj1 (find_virtual_Some _ _ _ _ Hg) Hf) as [Hd Hdid].
  exists d. unfold ManagedDevice.registeredTarget. rewrite Hid. unfold find_virtual in Hf. rewrite Hf.
  unfold unleased in Hu. rewrite Hdid. rewrite negb_true_iff in Hu. rewrite Hu, Hdd, bool_decide_eq_true_2 by done.
  unfold Arr.includes. rewrite Hs, bool_decide_eq_true_2 by done. done.
Qed.

Lemma target_found r target expected d : ManagedDevice.registeredTarget r target expected = Some d →
  find_virtual r (v_id target) = Some d ∧ v_id d = v_id target
  ∧ driverDeviceId (v_fields d) = driverDeviceId (v_fields target) ∧ v_state d ∈ expected
  ∧ unleased r (v_id target) = true.
Proof.
  unfold ManagedDevice.registeredTarget, find_virtual, unleased. destruct (Arr.find _ _) as [v|] eqn:E; [|done].
  pose proof (proj2 (afind_Some _ _ _ E)) as Hid%bool_decide_eq_true.
  destruct (driverDeviceId (v_fields v) !== _) eqn:E1; [done|]. cbn.
  destruct (negb (Arr.includes _ _)) eqn:E2; [done|]. cbn.
  destruct (Arr.some _ _) eqn:E3; [done|]. intros [= <-].
  apply negb_false_iff in E1, E2. apply bool_decide_eq_true in E1, E2. rewrite <- Hid, E3. done.
Qed.

(** Sections that touch only the claimed device, or only the claims. *)
Lemma guar_same o s : guar o s o s.
Proof.
  intros Hg Ho. split; [done|]. split; [done|]. split; [apply claims_grow_refl|]. split_and!; try done.
  - intros k Hk _. split; [done|]. intros _ x Hx _ _ Hu. exists x. split_and!; [done|apply same_device_refl|done].
  - intros k Hk. split; [by apply Ho|by left].
  - intros k Hk. by left.
  - intros k Hk. by left.
Qed.

Lemma left_alone_claims k s t' : held t' k → left_alone k s (s <| sh_claims := t' |>).
Proof.
  intros Hk. split; [done|]. intros _ x Hx _ _ Hu. exists x. split_and!; [done|apply same_device_refl|done].
Qed.

Lemma guar_claims o s o' t' : claims_ok t' → claims_grow (sh_claims s) t' →
  (∀ k, held (sh_claims s) k → o ≠ Some k → held t' k) →
  (∀ k, o' = Some k → held t' k ∧ (o = Some k ∨ nextClaim (sh_claims s) ≤ k_number k)) →
  (∀ k, o = Some k → o' = Some k ∨ k_number k ∈ releasedClaims t') →
  (∀ k, held t' k → held (sh_claims s) k ∨ o' = Some k) →
  guar o s o' (s <| sh_claims := t' |>).
Proof.
  intros Ht Hgr Hk Ho' Ho Hn [Hr Hc] Hh. split; [by split|]. split; [done|]. split; [done|]. split_and!; try done.
  intros k Hheld Hne. apply left_alone_claims. by apply Hk.
Qed.

Lemma guar_moved k s v to d r' : good s → held (sh_claims s) k → v_id v = k_deviceId k →
  v_state v ≠ leased → Virtual v ∈ devices (sh_registry s) →
  registry_ok (sh_now s) r' → moved (sh_registry s) v to d r' →
  guar (Some k) s (Some k) (s <| sh_registry := r' |>).
Proof.
  intros [Hr Hc] Hk Hv Hs Hin Hr' [Hls _ Hoth] _ _. split; [by split|]. split; [done|].
  split; [apply claims_grow_refl|]. split_and!; try done.
  - intros x Hx Hl. apply Hoth; [done| |by rewrite Hl]. intros Hid.
    assert (x = Virtual v) as ->; [|done].
    eapply (NoDup_fmap_inj_on dev_id); [apply Hr|done..].
  - intros k' Hk' Hne. split; [done|]. intros _ x Hx Hxid Hnd Hu.
    exists x. split_and!; [|apply same_device_refl|].
    + apply Hoth; [done| |done]. rewrite Hxid, Hv. intros Heq.
      unfold held in Hk, Hk'. rewrite Heq, Hk in Hk'. congruence.
    + unfold unleased. cbn. by rewrite Hls.
  - intros k' [= <-]. split; [done|by left].
  - intros k' [= <-]. by left.
  - intros k' Hk'. by left.
Qed.

Lemma guar_drop k s : good s → held (sh_claims s) k → guar (Some k) s None (ManagedDevice.drop_claim k s).
Proof.
  intros Hg Hk. destruct (releaseClaim_ok _ _ (proj2 Hg) Hk) as (Hok & Hgr & Hrel & Hoth).
  apply guar_claims; try done.
  - intros k' Hk' Hne. apply Hoth; [done|]. congruence.
  - intros k' [= <-]. by right.
  - intros k' Hk'. left. by apply (releaseClaim_only _ k).
Qed.
(** A claim taken for oneself. *)
Lemma guar_claimed s i operation owner t k : good s → tryClaim (sh_claims s) i operation owner = Some (t, k) →
  guar None s (Some k) (s <| sh_claims := t |>).
Proof.
  intros [_ Hc] Ht. destruct (tryClaim_ok _ _ _ _ _ _ Hc Ht) as (Hok & Hh & _ & _ & Hn & Hgr & Hkeep). apply guar_claims; try done; [auto|..].
  - intros k' [= <-]. split; [done|]. right. by rewrite Hn.
  - intros k' Hk'. by destruct (tryClaim_only _ _ _ _ _ _ _ Ht Hk') as [| ->]; [left|right].
Qed.

(** ** The steps of an operation under interference *)

Section steps.
Context (options : RegistryOptions) (Hret : retention_ok options) (hasDriver : Platform → bool).
Import ManagedDevice.
Local Abbreviation history := (list (DriverCall * result DeviceError DriverAnswer)).
Local Abbreviation safely f o h s Q := (safe rely guar may_call f o h s Q).
Implicit Types (k : DeviceOperationClaim) (device : VirtualDevice) (h : history) (s : Shared).

(** What is known when an operation that may have been lent a claim starts. *)
Definition lent (existing : option DeviceOperationClaim) s : Prop :=
  good s ∧ ∀ k, existing = Some k → held (sh_claims s) k.
Lemma lent_rely existing s s' : lent existing s → rely existing s s' → lent existing s'.
Proof.
  intros [Hg Hk] Hr. destruct (Hr Hg) as (Hg' & _ & _ & Hk'). split; [done|]. intros k Hex.
  by apply (Hk' k Hex), Hk.
Qed.

(** The claim an operation was lent is on its target, for the operation, in a state it expects: the
    operation will take the device. *)
Definition lent_for (existing : option DeviceOperationClaim) (target : VirtualDevice)
    (expected : list DeviceState) (operation : DeviceOperation) s : Prop :=
  ∃ k st, existing = Some k ∧ k_operation k = operation ∧ st ∈ expected ∧ ours k target st s.

Lemma safe_claim target expected operation existing h s Q :
  lent existing s → operation ≠ op_recovery → deleted ∉ expected → leased ∉ expected →
  (∀ s', lent existing s' → ¬ lent_for existing target expected operation s → Q (Ok None) existing h s') →
  (∀ k d s', ours k d (v_state d) s' → v_state d ∈ expected → v_id d = v_id target →
     driverDeviceId (v_fields d) = driverDeviceId (v_fields target) → k_operation k = operation →
     (existing = None ∨ existing = Some k) →
     (lent_for existing target expected operation s → vs_platform (v_spec d) = vs_platform (v_spec target)) →
     Q (Ok (Some (k, d))) (Some k) h s') →
  safely (claim target expected operation existing) existing h s Q.
Proof.
  intros Hl Hop Hdel Hlea HN HS. apply safe_gate. intros s1 Hr1.
  assert (∀ k st, existing = Some k → k_operation k = operation → st ∈ expected → ours k target st s →
    ∃ d, registeredTarget (sh_registry s1) target expected = Some d ∧ v_id d = k_deviceId k
      ∧ vs_platform (v_spec d) = vs_platform (v_spec target)) as Hsure.
  { intros k st -> _ Hst Ho. apply (ours_rely _ _ _ _ _ Ho) in Hr1.
    destruct (ours_target _ _ _ _ expected Hr1 Hst) as (d & Ht & _ & Hd & _ & _ & Hp). eauto. }
  apply (lent_rely _ _ _ Hl) in Hr1. clear Hl. destruct Hr1 as [[Hr Hc] Hk].
  destruct (registeredTarget _ _ _) as [d|] eqn:E.
  2:{ exists existing. split; [apply guar_same|]. apply HN; [by split|].
      intros (k & st & Hex & Hop' & Hst & Ho). by destruct (Hsure k st) as (? & ? & _). }
  assert (∀ k st, existing = Some k → k_operation k = operation → st ∈ expected → ours k target st s →
    v_id d = k_deviceId k ∧ vs_platform (v_spec d) = vs_platform (v_spec target)) as Hsure'.
  { intros k st H1 H2 H3 H4. by destruct (Hsure k st H1 H2 H3 H4) as (? & [= <-] & ?). }
  assert (lent_for existing target expected operation s → vs_platform (v_spec d) = vs_platform (v_spec target)) as Hpl.
  { intros (k & st & H1 & H2 & H3 & H4). by apply (Hsure' k st). }
  clear Hsure.
  apply target_found in E as (Hf & Hid & Hdd & Hst & Hu).
  assert (∀ k s', good s' → held (sh_claims s') k → k_deviceId k = v_id d → k_operation k = operation →
    sh_registry s' = sh_registry s1 → ours k d (v_state d) s') as Hours.
  { intros k s' Hg' Hk' Hkd Hko Hreg. split; try done; rewrite ?Hreg, ?Hkd; [congruence| |exists d|]; rewrite ?Hid; try done.
    split; intros Heq; rewrite Heq in Hst; done. }
  destruct existing as [k|].
  - destruct (_ || _ || _) eqn:Eb.
    + exists (Some k). split; [apply guar_same|]. apply HN; [by split|].
      intros (k' & st & [= <-] & Hop' & Hst' & Ho). destruct (Hsure' k st eq_refl Hop' Hst' Ho) as [Hsure'' _].
      rewrite !orb_true_iff, !negb_true_iff, !bool_decide_eq_false in Eb.
      destruct Eb as [[Eb|Eb]|Eb]; [congruence..|]. by rewrite (held_active _ _ (Hk k eq_refl)) in Eb.
    + rewrite !orb_false_iff, !negb_false_iff, !bool_decide_eq_true in Eb. destruct Eb as [[Hkd Hko] _].
      exists (Some k). split; [apply guar_same|]. apply HS; try done; [|by right].
      apply Hours; try done. by apply Hk.
  - destruct (tryClaim _ _ _ _) as [[t k]|] eqn:Et.
    + destruct (tryClaim_ok _ _ _ _ _ _ Hc Et) as (Hok & Hh & Hkd & Hko & Hn & Hgr & Hoth).
      exists (Some k). split.
      * by eapply guar_claimed.
      * apply HS; try done; [|by left]. by apply Hours.
    + exists None. split; [apply guar_same|]. apply HN; [by split|]. by intros (? & ? & [=] & _).
Qed.

Lemma safe_release k device st h s Q : ours k device st s →
  (∀ s', lent None s' → k_number k ∈ releasedClaims (sh_claims s') → Q (Ok tt) None h s') →
  safely (release k) (Some k) h s Q.
Proof.
  intros Ho HQ. apply safe_gate. intros s' Hr. apply (ours_rely _ _ _ _ _ Ho) in Hr as [Hg Hh _ _ _ _ _].
  exists None. split; [by apply guar_drop|]. destruct (releaseClaim_ok _ _ (proj2 Hg) Hh) as (Hok & _ & Hrel & _).
  apply HQ; [|done]. split; [|done]. split; [apply Hg|done].
Qed.

Lemma safe_read_now k device st h s Q : ours k device st s →
  (∀ now s', ours k device st s' → Q (Ok now) (Some k) h s') →
  safely read_now (Some k) h s Q.
Proof.
  intros Ho HQ. apply safe_gate. intros s' Hr. apply (ours_rely _ _ _ _ _ Ho) in Hr.
  exists (Some k). split; [apply guar_same|]. by apply HQ.
Qed.

Definition prepares (c : DriverCall) : Prop :=
  match c with CallMakeReady _ purpose_recover _ _ => False | _ => True end.

Lemma safe_call_ours k device st c h s Q : ours k device st s → call_device c = Some (v_id device) →
  (∀ a s', ours k device st s' → Q a (Some k) (h ++ [(c, a)]) s') →
  safely (call c) (Some k) h s Q.
Proof.
  intros Ho Hc HQ. apply safe_call. intros s' Hr. apply (ours_rely _ _ _ _ _ Ho) in Hr.
  split; [|intros a; by apply HQ]. intros i Hi. destruct Hr as [Hg Hh Hid Hop _ _ Hu].
  exists k. split_and!; try done; congruence.
Qed.

(** A driver call on our device: refused when the platform has no driver, or answered. *)
Lemma safe_drive k device st device' c h s Q : ours k device st s → call_device c = Some (v_id device) →
  (hasDriver (vs_platform (v_spec device')) = false →
     Q (Err (NoDriverError (vs_platform (v_spec device')))) (Some k) h s) →
  (hasDriver (vs_platform (v_spec device')) = true →
     ∀ a s', ours k device st s' → Q a (Some k) (h ++ [(c, a)]) s') →
  safely (drive hasDriver device' c) (Some k) h s Q.
Proof.
  intros Ho Hc HN HS. unfold drive, get_driver. destruct (hasDriver _); [|by apply HN].
  apply (safe_call_ours k device st); auto.
Qed.

(** The failure branch every operation shares. *)
Lemma safe_releasing {A} k (f : flow Shared DriverCall DriverAnswer DeviceError A) h s Q : 
  safely f (Some k) h s (λ r o h s, match r with
    | Ok a => Q (Ok a) o h s
    | Err e => o = Some k ∧ (∃ device st, ours k device st s)
        ∧ ∀ s', lent None s' → k_number k ∈ releasedClaims (sh_claims s') → Q (Err e) None h s'
    end) →
  safely (releasing k f) (Some k) h s Q.
Proof.
  intros Hf. apply safe_after. eapply safe_mono; [exact Hf|]. intros [a|e] o h' s'; [done|].
  intros (-> & (device & st & Ho) & HQ). apply safe_after. by apply (safe_release k device st).
Qed.

(** The commit of our device: it is still the device that was claimed, so it moves. *)
Record made (device v : VirtualDevice) (to : DeviceState) : Prop := {
  md_state : v_state v = to;
  md_id : v_id v = v_id device;
  md_driver : driverDeviceId (v_fields v) = driverDeviceId (v_fields device);
  md_platform : vs_platform (v_spec v) = vs_platform (v_spec device) }.

Definition moves (st to : DeviceState) (ev : RegistryDeviceEvent) (device : VirtualDevice) : Prop :=
  legal_edge false st to = true ∧ to ≠ leased ∧ eventForTransition st to = Some (de_event ev)
  ∧ de_deviceId ev = v_id device.

Lemma moved_section k device st s d to x r' : ours k device st s →
  find_virtual (sh_registry s) (k_deviceId k) = Some d → driverDeviceId (v_fields d) = driverDeviceId (v_fields device) →
  registry_ok (sh_now s) r' → moved (sh_registry s) d to x r' →
  ∃ v, x = Virtual v ∧ made device v to ∧ find_virtual r' (v_id device) = Some v
    ∧ unleased r' (v_id device) = true ∧ guar (Some k) s (Some k) (s <| sh_registry := r' |>)
    ∧ (to ≠ deleted → to ≠ leased → ours k device to (s <| sh_registry := r' |>)).
Proof.
  intros [Hg Hh Hid Hop Hst (d0 & Hf0 & Hdd0 & Hs0 & Hp0) Hu] Hf Hdd Hr' Hmv. rewrite Hf in Hf0. injection Hf0 as <-.
  pose proof (proj1 (find_virtual_Some _ _ _ _ (proj1 Hg)) Hf) as [Hin Hdid].
  assert (guar (Some k) s (Some k) (s <| sh_registry := r' |>)) as Hgu.
  { eapply guar_moved; try done. rewrite Hs0. apply Hst. }
  destruct Hmv as [Hls (w & -> & Hw & Hws & Hwi & Hwd & Hwp) _].
  assert (find_virtual r' (v_id device) = Some w) as Hfw.
  { apply (find_virtual_Some _ _ _ _ Hr'). split; [done|congruence]. }
  assert (unleased r' (v_id device) = true) as Huw by (unfold unleased; rewrite Hls, Hid; exact Hu).
  exists w. split_and!; try done; [by split; congruence|]. intros Hnd Hnl. rewrite Hid in Hfw, Huw.
  split; [split; [done|apply Hg]|done|done|done|done| |done]. exists w. split_and!; [done|congruence|done|congruence].
Qed.

Lemma commit_section_run k device st s expected to ev u : ours k device st s → st ∈ expected →
  moves st to ev device →
  ∃ v r', commit_section options device expected to ev u s = (s <| sh_registry := r' |>, Ok (Some v))
    ∧ made device v to ∧ find_virtual r' (v_id device) = Some v ∧ unleased r' (v_id device) = true
    ∧ guar (Some k) s (Some k) (s <| sh_registry := r' |>)
    ∧ (to ≠ deleted → to ≠ leased → ours k device to (s <| sh_registry := r' |>)).
Proof using Hret.
  intros Ho Hin (Hedge & Hto & Hev & Hevid).
  destruct (ours_target _ _ _ _ _ Ho Hin) as (d & Ht & Hs & Hd & Hdin & Hdd & _).
  unfold commit_section, get, mbind, action_bind. cbv beta iota. rewrite Ht.
  unfold on_registry, as_virtual. cbv beta iota.
  pose proof (transitionDevice_moved options Hret (sh_registry s) (sh_now s) d to ev u) as HM.
  pose proof Ho as [Hg Hh Hid Hop Hst Hdev Hu]. rewrite Hs, Hd in HM.
  specialize (HM (proj1 Hg) Hdin (proj2 Hst) Hto Hedge Hu Hev (eq_trans Hevid Hid)).
  unfold runs in HM. rewrite Hd. destruct (transitionDevice _ _ _ _ _ _ _) as [r' [x|e]]; [|done].
  destruct HM as [Hr' Hmv].
  destruct (moved_section k device st s d to x r') as (v & -> & Hmade & Hf & Hul & Hgu & Hours); try done.
  { by apply (find_virtual_Some _ _ _ _ (proj1 Hg)). }
  exists v, r'. done.
Qed.

Lemma safe_commitWithoutRelease k device st expected to ev u h s Q : ours k device st s → st ∈ expected →
  moves st to ev device → to ≠ deleted →
  (∀ v s', ours k device to s' → made device v to → Q (Ok (Some v)) (Some k) h s') →
  safely (commitWithoutRelease options device expected to ev u) (Some k) h s Q.
Proof using Hret.
  intros Ho Hin Hmv Hnd HQ. apply safe_gate. intros s' Hr. apply (ours_rely _ _ _ _ _ Ho) in Hr.
  destruct (commit_section_run k device st s' expected to ev u Hr Hin Hmv) as (v & r' & -> & Hmade & _ & _ & Hgu & Hours).
  exists (Some k). split; [done|]. apply HQ; [|done]. by apply Hours; [|apply Hmv].
Qed.

Lemma safe_commit k device st expected to ev h s Q : ours k device st s → st ∈ expected →
  moves st to ev device →
  (∀ v s', lent None s' → k_number k ∈ releasedClaims (sh_claims s') → made device v to →
     find_virtual (sh_registry s') (v_id device) = Some v → Q (Ok (Some v)) None h s') →
  safely (commit options k device expected to ev) (Some k) h s Q.
Proof using Hret.
  intros Ho Hin Hmv HQ. apply safe_gate. intros s' Hr. apply (ours_rely _ _ _ _ _ Ho) in Hr.
  destruct (commit_section_run k device st s' expected to ev no_update Hr Hin Hmv)
    as (v & r' & -> & Hmade & Hf & _ & Hgu & _).
  destruct Hr as [Hg Hh _ _ _ _ _].
  destruct (Hgu Hg) as (Hg1 & Hn1 & Hgr1 & Hl1 & Hd1 & Ho1 & _ & _); [by intros k' [= <-]|].
  set (s1 := s' <| sh_registry := r' |>) in *. exists None.
  pose proof (guar_drop k s1 Hg1 Hh) as Hgd.
  destruct (Hgd Hg1) as (Hg2 & Hn2 & Hgr2 & Hl2 & Hd2 & Ho2 & Hn' & Hrel & Honly); [by intros k' [= <-]|].
  split.
  - intros _ _. split; [done|]. split; [done|]. split; [exact Hgr2|]. split; [exact (eq_trans Hl2 Hl1)|].
    split; [intros x Hx Hl; apply Hd2; [by apply Hd1|done]|]. split; [|split; [done|split; [done|exact Honly]]].
    intros k' Hk' Hne. destruct (Ho1 k' Hk' Hne) as [Hh1 Hdev]. split; [|exact Hdev].
    by destruct (Ho2 k' Hh1 Hne).
  - apply HQ; try done. by destruct (Hrel k eq_refl).
Qed.
End steps.

(** ** The operations under interference *)

Section outcomes.
Context (options : RegistryOptions) (Hret : retention_ok options) (hasDriver : Platform → bool).
Import ManagedDevice.
Local Abbreviation history := (list (DriverCall * result DeviceError DriverAnswer)).
Local Abbreviation safely f o h s Q := (safe rely guar may_call f o h s Q).
Implicit Types (k : DeviceOperationClaim) (device target d v : VirtualDevice) (h : history) (s : Shared).

(** The error is the driver's last answer, or there is no driver to ask. *)
Definition driver_failed (h : history) (e : DeviceError) : Prop :=
  (∃ h' c, h = h' ++ [(c, Err e)]) ∨ ∃ p, e = NoDriverError p.
Definition took (existing : option DeviceOperationClaim) k : Prop := existing = None ∨ existing = Some k.
Definition ended k s : Prop := k_number k ∈ releasedClaims (sh_claims s).

(** How an operation that keeps nothing ends: it found no device it may touch, which does not happen
    when [sure], called no driver and left a claim it was lent as it was; or it took a claim, ended it, and failed with the driver's
    error or finished as [final] says. *)
Definition ends_released (existing : option DeviceOperationClaim) target (sure : Prop)
    (final : VirtualDevice → history → VirtualDevice → Shared → Prop)
    (r : result DeviceError (option VirtualDevice)) (o : option DeviceOperationClaim) h s : Prop :=
  (r = Ok None ∧ h = [] ∧ o = existing ∧ ¬ sure)
  ∨ ∃ k d, took existing k ∧ v_id d = v_id target ∧ o = None ∧ ended k s
      ∧ ((∃ e, r = Err e ∧ driver_failed h e) ∨ ∃ v, r = Ok (Some v) ∧ final d h v s).

(** How an operation that hands a ready device over ends: as above, or with the claim still held
    and the device recorded as ready. *)
Definition ends_handed_over (existing : option DeviceOperationClaim) target (sure : Prop)
    (final : VirtualDevice → history → Prop)
    (r : result DeviceError (option ReadyDeviceHandoff)) (o : option DeviceOperationClaim) h s : Prop :=
  (r = Ok None ∧ h = [] ∧ o = existing ∧ ¬ sure)
  ∨ ∃ k d, took existing k ∧ v_id d = v_id target
      ∧ ((∃ e, r = Err e ∧ driver_failed h e ∧ o = None ∧ ended k s)
         ∨ ∃ v, r = Ok (Some (k, v)) ∧ made d v ready ∧ o = Some k ∧ ours k d ready s ∧ final d h).

Lemma safe_bind {A B} (f : flow Shared DriverCall DriverAnswer DeviceError A)
    (g : A → flow Shared DriverCall DriverAnswer DeviceError B) o h s Q :
  safely f o h s (λ r o h s, match r with Ok a => safely (g a) o h s Q | Err e => Q (Err e) o h s end) →
  safely (f ≫= g) o h s Q.
Proof. intros Hf. apply safe_after. eapply safe_mono; [exact Hf|]. by intros [a|e]. Qed.

Ltac not_in := rewrite ?elem_of_cons, ?elem_of_nil; intuition congruence.

Lemma driver_failed_answer h c e : driver_failed (h ++ [(c, Err e)]) e.
Proof. left. by eexists _, _. Qed.
Lemma driver_failed_none h p : driver_failed h (NoDriverError p).
Proof. right. by eexists. Qed.
#[local] Hint Resolve driver_failed_answer driver_failed_none : core.

(** After a failure the claim is ended, in whatever state the others have left things by then. *)
Lemma failed_released existing target sure final k d d' st h e s :
  took existing k → v_id d = v_id target → ours k d' st s → driver_failed h e →
  Some k = Some k ∧ (∃ device st, ours k device st s)
  ∧ ∀ s', lent None s' → k_number k ∈ releasedClaims (sh_claims s') →
      ends_released existing target sure final (Err e) None h s'.
Proof.
  intros Ht Hid Ho Hf. split; [done|]. split; [eauto|]. intros s' _ Hrel. right. exists k, d.
  split_and!; try done. left. eauto.
Qed.
Lemma failed_handover existing target sure final k d d' st h e s :
  took existing k → v_id d = v_id target → ours k d' st s → driver_failed h e →
  Some k = Some k ∧ (∃ device st, ours k device st s)
  ∧ ∀ s', lent None s' → k_number k ∈ releasedClaims (sh_claims s') →
      ends_handed_over existing target sure final (Err e) None h s'.
Proof.
  intros Ht Hid Ho Hf. split; [done|]. split; [eauto|]. intros s' _ Hrel. right. exists k, d.
  split_and!; try done. left. eauto.
Qed.

Lemma safe_shutdown target initiator operation existing s : lent existing s → operation ≠ op_recovery →
  safely (shutdown options hasDriver target initiator operation existing) existing [] s
    (ends_released existing target (lent_for existing target [ready] operation s) (λ d h v s,
       (∃ a, h = [(CallShutdown d, Ok a)]) ∧ made d v Domain.shutdown
       ∧ find_virtual (sh_registry s) (v_id target) = Some v)).
Proof using Hret.
  intros Hl Hop. apply safe_bind, safe_claim; try done; [not_in|not_in|by left|].
  intros k d s1 Ho Hst Hid Hdd Hko Hex Hpl. apply list_elem_of_singleton in Hst. rewrite Hst in Ho.
  apply safe_bind, safe_releasing, (safe_drive _ k d ready); [done|done|..].
  - intros _. by eapply failed_released; auto.
  - intros _ [a|e] s2 Ho2; [|by eapply failed_released; auto].
    eapply (safe_commit options Hret k d ready); [done|by left|done|].
    intros v s3 _ Hrel Hm Hf. right. exists k, d. split_and!; try done. right. exists v. split; [done|].
    rewrite <- Hid. eauto.
Qed.

Lemma safe_destroy target initiator operation existing s : lent existing s → operation ≠ op_recovery →
  safely (destroy options hasDriver target initiator operation existing) existing [] s
    (ends_released existing target (lent_for existing target [provisioning; Domain.shutdown] operation s) (λ d h v s,
       (∃ a, h = [(CallDestroy d, Ok a)]) ∧ made d v deleted
       ∧ find_virtual (sh_registry s) (v_id target) = Some v)).
Proof using Hret.
  intros Hl Hop. apply safe_bind, safe_claim; try done; [not_in|not_in|by left|].
  intros k d s1 Ho Hst Hid Hdd Hko Hex Hpl. set (st := v_state d) in *.
  apply safe_bind, safe_releasing, (safe_drive _ k d st); [done|done|..].
  - intros _. by eapply failed_released; auto.
  - intros _ [a|e] s2 Ho2; [|by eapply failed_released; auto].
    eapply (safe_commit options Hret k d st); [done|done| |].
    { clearbody st. rewrite !elem_of_cons, elem_of_nil in Hst. by destruct Hst as [->|[->|[]]]. }
    intros v s3 _ Hrel Hm Hf. right. exists k, d. split_and!; try done. right. exists v. split; [done|].
    rewrite <- Hid. eauto.
Qed.

Lemma ours_made k d v to s : ours k d to s → made d v to → ours k v to s.
Proof.
  intros [Hg Hh Hid Hop Hst (x & Hf & Hdd & Hs & Hp) Hu] [Hvs Hvi Hvd Hvp]. split; try done; [congruence|].
  exists x. split_and!; try done; congruence.
Qed.

Lemma safe_dispose target initiator operation existing s : lent existing s → operation ≠ op_recovery →
  safely (dispose options hasDriver target initiator operation existing) existing [] s
    (ends_released existing target (lent_for existing target [ready; Domain.shutdown] operation s) (λ d h v s,
       (if v_state d === ready
        then ∃ a b w, h = [(CallShutdown d, Ok a); (CallDestroy w, Ok b)] ∧ made d w Domain.shutdown
        else ∃ a, h = [(CallDestroy d, Ok a)])
       ∧ made d v deleted ∧ find_virtual (sh_registry s) (v_id target) = Some v)).
Proof using Hret.
  intros Hl Hop. apply safe_bind, safe_claim; try done; [not_in|not_in|by left|].
  intros k d s1 Ho Hst Hid Hdd Hko Hex Hpl. apply safe_bind.
  rewrite !elem_of_cons, elem_of_nil in Hst. destruct Hst as [Hst|[Hst|[]]]; rewrite Hst in Ho |- *.
  - apply safe_releasing. rewrite bool_decide_eq_true_2 by done.
    apply safe_bind, (safe_drive _ k d ready); [done|done|by intros _; eapply failed_released; auto|].
    intros _ [a|e] s2 Ho2; [|by eapply failed_released; auto].
    apply safe_bind. eapply (safe_commitWithoutRelease options Hret k d ready); [done|by left|done|done|].
    intros w s3 Ho3 Hm3.
    apply safe_bind, (safe_drive _ k d Domain.shutdown); [done|by destruct Hm3 as [_ Hmid _ _]; cbn; rewrite Hmid|..].
    { intros _. eapply failed_released; eauto. }
    intros _ [b|e] s4 Ho4; [|by eapply failed_released; auto].
    eapply (safe_commit options Hret k d Domain.shutdown); [done|by left| |].
    { destruct Hm3 as [_ Hmid _ _]. done. }
    intros v s5 _ Hrel Hm Hf. right. exists k, d. split_and!; try done. right. exists v.
    split; [done|]. rewrite <- Hid, Hst, bool_decide_eq_true_2 by done. split; [|done]. by exists a, b, w.
  - apply safe_releasing. rewrite bool_decide_eq_false_2 by done.
    apply safe_bind, (safe_drive _ k d Domain.shutdown); [done|done|by intros _; eapply failed_released; auto|].
    intros _ [a|e] s2 Ho2; [|by eapply failed_released; auto].
    eapply (safe_commit options Hret k d Domain.shutdown); [done|by left|done|].
    intros v s3 _ Hrel Hm Hf. right. exists k, d. split_and!; try done. right. exists v.
    split; [done|]. rewrite <- Hid, Hst, bool_decide_eq_false_2 by done. eauto.
Qed.

Lemma safe_makeReadyForLease target expected existing except s : lent existing s →
  expected = provisioning ∨ expected = Domain.shutdown →
  safely (makeReadyForLease options hasDriver target expected existing except) existing [] s
    (ends_handed_over existing target (lent_for existing target [expected] op_boot s) (λ d h, ∃ a,
       h = [(CallMakeReady d purpose_prepare (specMode (VSpec (v_spec d))) except, Ok a)])).
Proof using Hret.
  intros Hl Hexp. apply safe_bind, safe_claim; try done;
    [by destruct Hexp as [->| ->]; not_in..|by left|].
  intros k d s1 Ho Hst Hid Hdd Hko Hex Hpl. apply list_elem_of_singleton in Hst. rewrite Hst in Ho.
  apply safe_bind, (safe_read_now k d expected); [done|]. intros startedAt s2 Ho2.
  apply safe_bind, safe_releasing, (safe_drive _ k d expected); [done|done|..].
  { intros _. by eapply failed_handover; auto. }
  intros _ [a|e] s3 Ho3; [|by eapply failed_handover; auto].
  apply safe_releasing, safe_bind, (safe_read_now k d expected); [done|]. intros now s4 Ho4.
  apply safe_bind. eapply (safe_commitWithoutRelease options Hret k d expected); [done|by left| |done|].
  { by destruct Hexp as [->| ->]. }
  intros v s5 Ho5 Hm. right. exists k, d. split_and!; try done. right. exists v. split_and!; try done. by exists a.
Qed.

(** The boot of the warm pool keeps nothing: the claim it was lent ends once the device is ready. *)
Lemma safe_bootWarm target k s : lent (Some k) s →
  safely (bootWarm options hasDriver target k) (Some k) [] s
    (ends_released (Some k) target (lent_for (Some k) target [Domain.shutdown] op_boot s) (λ d h v s, made d v ready ∧ ∃ a,
       h = [(CallMakeReady d purpose_prepare (specMode (VSpec (v_spec d))) None, Ok a)])).
Proof using Hret.
  intros Hl. apply safe_bind. eapply safe_mono; [apply safe_makeReadyForLease; [done|by right]|].
  intros r o h s' [(-> & -> & -> & Hsure)|(k' & d & Ht & Hid & [(e & -> & Hf & -> & Hrel)|(v & -> & Hm & -> & Ho & Hh)])].
  - by left.
  - right. exists k', d. split_and!; try done. left. eauto.
  - destruct Ht as [|[= <-]]; [done|]. apply safe_bind, (safe_release k d ready); [done|].
    intros s2 _ Hrel. right. exists k, d. split_and!; try done; [by right|]. right. eauto.
Qed.

(** A reboot that fails is recorded as a shutdown before its claim ends. *)
Definition ends_rebooted k target (sure : Prop) except (r : result DeviceError (option ReadyDeviceHandoff))
    (o : option DeviceOperationClaim) h s : Prop :=
  (r = Ok None ∧ h = [] ∧ o = Some k ∧ ¬ sure)
  ∨ ∃ d, v_id d = v_id target
      ∧ let made_ready := CallMakeReady d purpose_prepare (specMode (VSpec (v_spec d))) (Some except) in
        (∃ p, r = Err (NoDriverError p) ∧ h = [] ∧ o = Some k ∧ hasDriver p = false
           ∧ (sure → p = vs_platform (v_spec target)))
        ∨ (∃ e, r = Err e ∧ o = None ∧ ended k s
             ∧ (h = [(CallShutdown d, Err e)] ∨ ∃ a, h = [(CallShutdown d, Ok a); (made_ready, Err e)]))
        ∨ (∃ v a b, r = Ok (Some (k, v)) ∧ made d v ready ∧ o = Some k ∧ ours k d ready s
             ∧ h = [(CallShutdown d, Ok a); (made_ready, Ok b)]).

Lemma safe_recorded k d e target sure except h s : ours k d ready s → v_id d = v_id target →
  (h = [(CallShutdown d, Err e)]
   ∨ ∃ a, h = [(CallShutdown d, Ok a);
             (CallMakeReady d purpose_prepare (specMode (VSpec (v_spec d))) (Some except), Err e)]) →
  safely (finally (_ ← commitWithoutRelease options d [ready] Domain.shutdown
            (shutdown_event d "lease-engine") no_update; mret tt) (release k) ≫= λ _, fail (R := DriverAnswer) e)
    (Some k) h s (λ r o h s, r = Err e ∧ ends_rebooted k target sure except (Err e) o h s).
Proof using Hret.
  intros Ho Hid Hh. apply safe_bind, safe_after, safe_bind.
  eapply (safe_commitWithoutRelease options Hret k d ready); [done|by left|done|done|].
  intros v s2 Ho2 _. apply safe_after, (safe_release k d Domain.shutdown); [done|].
  intros s3 _ Hrel. split; [done|]. right. exists d. split; [done|]. right; left.
  exists e. by split_and!.
Qed.

Lemma safe_rebootForLease target k except s : lent (Some k) s →
  safely (rebootForLease options hasDriver target k except) (Some k) [] s
    (ends_rebooted k target (lent_for (Some k) target [ready] op_boot s) except).
Proof using Hret.
  intros Hl. apply safe_bind, safe_claim; try done; [not_in|not_in|by left|].
  intros k' d s1 Ho Hst Hid Hdd Hko [[=]|[= <-]] Hpl. apply list_elem_of_singleton in Hst. rewrite Hst in Ho.
  apply safe_bind. unfold get_driver. destruct (hasDriver _) eqn:Edr.
  2:{ right. exists d. split; [done|]. left. eexists. by split_and!. }
  apply safe_bind, safe_after, safe_bind, (safe_call_ours k d ready); [done|done|].
  intros [a|e] s2 Ho2.
  2:{ eapply safe_mono; [apply (safe_recorded k d)|]; [done..|by left|]. by intros ? o h s' [-> ?]. }
  apply (safe_call_ours k d ready); [done|done|]. intros [b|e] s3 Ho3.
  2:{ eapply safe_mono; [apply (safe_recorded k d)|]; [done..|by right; eauto|]. by intros ? o h s' [-> ?]. }
  apply safe_bind, safe_releasing, safe_gate. intros s4 Hr4. apply (ours_rely _ _ _ _ _ Ho3) in Hr4.
  destruct (ours_target _ _ _ _ [ready] Hr4) as (x & Ht & Hxs & Hxi & Hxin & Hxd & _); [by left|].
  unfold get, mbind, action_bind. cbv beta iota. rewrite Ht. unfold on_registry, as_virtual. cbv beta iota.
  pose proof (recordRebootedDevice_moved options Hret (sh_registry s4) (sh_now s4) x
    (MkReboot (dd_address (an_device b)) (dd_driverData (an_device b)) (default full (dd_mode (an_device b))))
    (proj1 (us_good _ _ _ _ Hr4)) Hxin Hxs) as HM.
  unfold runs in HM. destruct (recordRebootedDevice _ _ _ _ _) as [r' [y|e]]; [|done]. destruct HM as [Hr' Hmv].
  destruct (moved_section k d ready s4 x ready y r') as (v & -> & Hmade & _ & _ & Hgu & Hours); try done.
  { apply (find_virtual_Some _ _ _ _ (proj1 (us_good _ _ _ _ Hr4))). done. }
  exists (Some k). split; [done|]. right. exists d. split; [done|]. right; right. exists v, a, b.
  split_and!; try done. by apply Hours.
Qed.

(** Recovery: nothing is committed, the claim ends, and the device is answered only while the lease
    is still on it. *)
Definition ends_recovered target leaseId (r : result DeviceError (option VirtualDevice))
    (o : option DeviceOperationClaim) h s : Prop :=
  o = None ∧ ((r = Ok None ∧ h = []) ∨ ∃ d, v_id d = v_id target
    ∧ ((∃ e, r = Err e ∧ driver_failed h e)
       ∨ ∃ a, r = Ok (leasedTarget (sh_registry s) d leaseId)
           ∧ h = [(CallMakeReady d purpose_recover (specMode (VSpec (v_spec d))) None, Ok a)])).

Lemma leasedTarget_id r target leaseId d : leasedTarget r target leaseId = Some d → v_id d = v_id target.
Proof.
  unfold leasedTarget. destruct (Arr.find _ (virtualDevices r)) as [x|] eqn:Ef; [|done].
  apply afind_Some in Ef as [_ Hx%bool_decide_eq_true]. destruct (driverDeviceId _ !== _); [done|].
  destruct (v_state x !== leased); [done|]. destruct (Arr.find _ (leases r)); [|done].
  destruct (l_deviceId _ !== _); [done|]. by intros [= <-].
Qed.

Lemma lent_drop k s : lent (Some k) s → guar (Some k) s None (drop_claim k s) ∧ lent None (drop_claim k s).
Proof.
  intros [Hg Hk]. specialize (Hk k eq_refl). split; [by apply guar_drop|]. split; [|done].
  destruct (releaseClaim_ok _ _ (proj2 Hg) Hk) as [? _]. split; [apply Hg|done].
Qed.

Lemma safe_recoverLeased target leaseId s : lent None s →
  safely (recoverLeased hasDriver target leaseId) None [] s (ends_recovered target leaseId).
Proof.
  intros Hl. apply safe_bind, safe_gate. intros s1 Hr1. apply (lent_rely _ _ _ Hl) in Hr1. clear s Hl.
  destruct Hr1 as [[Hr Hc] _]. destruct (leasedTarget _ _ _) as [d|] eqn:E.
  2:{ exists None. split; [apply guar_same|]. split; [done|]. by left. }
  apply leasedTarget_id in E. destruct (tryClaim _ _ _ _) as [[t k]|] eqn:Et.
  2:{ exists None. split; [apply guar_same|]. split; [done|]. by left. }
  destruct (tryClaim_ok _ _ _ _ _ _ Hc Et) as (Hok & Hh & Hkd & Hko & Hn & Hgr & Hoth).
  exists (Some k). split.
  { by eapply guar_claimed. }
  set (s2 := s1 <| sh_claims := t |>). assert (lent (Some k) s2) as Hl2.
  { split; [by split|]. by intros k' [= <-]. }
  clearbody s2. clear s1 Hr Hc Et Hok Hh Hn Hgr Hoth.
  assert (∀ e h s, lent (Some k) s → driver_failed h e →
    safely (release k ≫= λ _, fail (R := DriverAnswer) e) (Some k) h s
      (λ r o h s, r = Err e ∧ ends_recovered target leaseId (Err e) o h s)) as Hfail.
  { intros e h s Hls Hf. apply safe_bind, safe_gate. intros s' Hs'. apply (lent_rely _ _ _ Hls) in Hs'.
    exists None. split; [by apply lent_drop|]. split; [done|]. split; [done|]. right. eauto 6. }
  apply safe_bind, safe_after. unfold drive, get_driver. destruct (hasDriver _).
  2:{ match goal with |- safe _ _ _ _ _ _ _ ?Q => change (Q (Err (NoDriverError (vs_platform (v_spec d)))) (Some k) [] s2) end.
      eapply safe_mono; [apply Hfail; auto|]. by intros ? o h s' [-> ?]. }
  apply safe_call. intros s3 Hs3. apply (lent_rely _ _ _ Hl2) in Hs3. split.
  - intros i [= <-]. exists k. destruct Hs3 as [_ Hk3]. split_and!; eauto; congruence.
  - intros [a|e]; [|eapply safe_mono; [apply Hfail; auto|]; by intros ? o h s' [-> ?]].
    apply safe_gate. intros s4 Hs4. apply (lent_rely _ _ _ Hs3) in Hs4. exists None.
    split; [by apply lent_drop|]. split; [done|]. right. exists d. split; [done|]. right. by exists a.
Qed.
End outcomes.
