(* ===== verification/DevicePool.v ===== *)
(** * Device operations side by side: [src/core/managed-device-lifecycle.ts]

    Any number of the operations of [Devices], interleaved with each other and with the rest of the
    program. The rest of the program may do anything that leaves a device claimed by a running
    operation to that operation; it lends claims of its own to operations it starts, and gets back
    what they end with. The theorem is the promise the claims are for: no two driver calls on one
    device are ever outstanding at once, and none is outstanding on a leased device but the one
    that recovers it. *)
From stdpp Require Import base strings list option numbers gmap.
From S2P Require Import Prelude JsString OsRange AcquisitionState Domain RequestStore Capacity Claims Registry RegistryInv Resolve Flow Devices.

(** ** Operations and the pool *)

Inductive DeviceTask :=
| TaskShutdown (target : VirtualDevice) (initiator : string) (operation : DeviceOperation)
    (existing : option DeviceOperationClaim)
| TaskDestroy (target : VirtualDevice) (initiator : string) (operation : DeviceOperation)
    (existing : option DeviceOperationClaim)
| TaskDispose (target : VirtualDevice) (initiator : string) (operation : DeviceOperation)
    (existing : option DeviceOperationClaim)
| TaskBootForLease (target : VirtualDevice) (k : DeviceOperationClaim) (except : option (list string))
| TaskReadyProvisioned (target : VirtualDevice) (existing : option DeviceOperationClaim)
    (except : option (list string))
| TaskBootWarm (target : VirtualDevice) (k : DeviceOperationClaim)
| TaskReboot (target : VirtualDevice) (k : DeviceOperationClaim) (except : list string)
| TaskRecover (target : VirtualDevice) (leaseId : string).

(** The claim an operation is lent; only [recoverLeased] claims a recovery. *)
Definition task_claim (t : DeviceTask) : option DeviceOperationClaim :=
  match t with
  | TaskShutdown _ _ _ e | TaskDestroy _ _ _ e | TaskDispose _ _ _ e | TaskReadyProvisioned _ e _ => e
  | TaskBootForLease _ k _ | TaskBootWarm _ k | TaskReboot _ k _ => Some k
  | TaskRecover _ _ => None
  end.
Definition task_ok (t : DeviceTask) : bool :=
  match t with
  | TaskShutdown _ _ o _ | TaskDestroy _ _ o _ | TaskDispose _ _ o _ => o !== op_recovery
  | _ => true
  end.

Section pool.
Context (options : RegistryOptions) (Hret : retention_ok options) (hasDriver : Platform → bool).
Import ManagedDevice.

(** An operation, and the claim it hands over with its answer. *)
Local Abbreviation running := (flow Shared DriverCall DriverAnswer DeviceError (option DeviceOperationClaim)).
Definition keeping_nothing (f : flow Shared DriverCall DriverAnswer DeviceError (option VirtualDevice)) : running :=
  _ ← f; mret None.
Definition handing_over (f : flow Shared DriverCall DriverAnswer DeviceError (option (DeviceOperationClaim * VirtualDevice))) : running :=
  handoff ← f; mret match handoff with Some (k, _) => Some k | None => None end.
Definition task_flow (t : DeviceTask) : running :=
  match t with
  | TaskShutdown d i o e => keeping_nothing (shutdown options hasDriver d i o e)
  | TaskDestroy d i o e => keeping_nothing (destroy options hasDriver d i o e)
  | TaskDispose d i o e => keeping_nothing (dispose options hasDriver d i o e)
  | TaskBootForLease d k ex => handing_over (bootForLease options hasDriver d k ex)
  | TaskReadyProvisioned d e ex => handing_over (readyProvisionedForLease options hasDriver d e ex)
  | TaskBootWarm d k => keeping_nothing (bootWarm options hasDriver d k)
  | TaskReboot d k ex => handing_over (rebootForLease options hasDriver d k ex)
  | TaskRecover d l => keeping_nothing (recoverLeased hasDriver d l)
  end.

(** The running operations, each with the number of the claim it was lent, and the numbers of the
    claims the rest of the program holds. *)
Record Pool := MkPool {
  po_state : Shared;
  po_tasks : list (running * option nat);
  po_others : list nat }.

(** What the rest of the program may do. *)
Definition others_may (others : list nat) (s : Shared) (others' : list nat) (s' : Shared) : Prop :=
  good s → good s' ∧ (sh_now s ≤ sh_now s')%Z ∧ claims_grow (sh_claims s) (sh_claims s')
    ∧ (∀ k, held (sh_claims s) k → k_number k ∉ others → left_alone k s s')
    ∧ ∀ n, n ∈ others' → n < nextClaim (sh_claims s') ∧ (n ∈ others ∨ nextClaim (sh_claims s) ≤ n).

Inductive pool_step : Pool → Pool → Prop :=
| step_start t s ts others :
    task_ok t = true →
    (∀ k, task_claim t = Some k → held (sh_claims s) k ∧ k_number k ∈ others) →
    pool_step (MkPool s ts others)
      (MkPool s (ts ++ [(task_flow t, k_number <$> task_claim t)])
         (Arr.filter (λ n, Some n !== (k_number <$> task_claim t)) others))
| step_section s ts others i sec next l :
    ts !! i = Some (Gate sec next, l) →
    pool_step (MkPool s ts others) (MkPool (sec s) (<[i := (next s, l)]> ts) others)
| step_answer s ts others i c next l a :
    ts !! i = Some (Call c next, l) →
    pool_step (MkPool s ts others) (MkPool s (<[i := (next a, l)]> ts) others)
| step_finish s ts others i r l :
    ts !! i = Some (Done r, l) →
    pool_step (MkPool s ts others)
      (MkPool s (<[i := (Done (Ok None), None)]> ts)
         (option_list l ++ match r with Ok (Some k) => [k_number k] | _ => [] end ++ others))
| step_others s ts others s' others' :
    others_may others s others' s' → pool_step (MkPool s ts others) (MkPool s' ts others').

Inductive pool_reachable : Pool → Prop :=
| pool_start s others : good s → (∀ n, n ∈ others → n < nextClaim (sh_claims s)) →
    pool_reachable (MkPool s [] others)
| pool_next p p' : pool_reachable p → pool_step p p' → pool_reachable p'.

(** ** The invariant *)

Local Abbreviation safely f o h s Q := (safe rely guar may_call f o h s Q).
(** A finished operation hands over only what it still owns. *)
Definition hands_own (r : result DeviceError (option DeviceOperationClaim)) (o : option DeviceOperationClaim) : Prop :=
  ∀ k, r = Ok (Some k) → o = Some k.

Record owned (s : Shared) (ts : list (running * option nat)) (others : list nat)
    (owners : list (option DeviceOperationClaim)) : Prop := {
  ow_length : length owners = length ts;
  ow_held i k : owners !! i = Some (Some k) → held (sh_claims s) k ∧ k_number k ∉ others;
  ow_apart i j k : owners !! i = Some (Some k) → owners !! j = Some (Some k) → i = j;
  ow_lent i f n o : ts !! i = Some (f, Some n) → owners !! i = Some o →
    k_number <$> o = Some n ∨ n ∈ releasedClaims (sh_claims s);
  ow_safe i f l o : ts !! i = Some (f, l) → owners !! i = Some o →
    ∃ h, safely f o h s (λ r o _ _, hands_own r o) }.

Definition pool_ok (p : Pool) : Prop :=
  good (po_state p) ∧ (∀ n, n ∈ po_others p → n < nextClaim (sh_claims (po_state p)))
  ∧ ∃ owners, owned (po_state p) (po_tasks p) (po_others p) owners.

Lemma task_safe t s : task_ok t = true → lent (task_claim t) s →
  safely (task_flow t) (task_claim t) [] s (λ r o _ _, hands_own r o).
Proof using Hret.
  intros Hok Hl. destruct t; cbn in Hok, Hl; unfold task_flow, task_claim, keeping_nothing, handing_over;
    try (apply negb_true_iff, bool_decide_eq_false in Hok); apply safe_bind.
  - eapply safe_mono; [by apply safe_shutdown|]. by intros [v|e] o h s' _.
  - eapply safe_mono; [by apply safe_destroy|]. by intros [v|e] o h s' _.
  - eapply safe_mono; [by apply safe_dispose|]. by intros [v|e] o h s' _.
  - eapply safe_mono; [apply safe_makeReadyForLease; [done..|by right]|]. intros r o h s' Hr.
    destruct Hr as [(-> & _)|(k' & d & _ & _ & [(e & -> & _)|(v & -> & _ & -> & _)])]; by intros ? [= <-].
  - eapply safe_mono; [apply safe_makeReadyForLease; [done..|by left]|]. intros r o h s' Hr.
    destruct Hr as [(-> & _)|(k' & d & _ & _ & [(e & -> & _)|(v & -> & _ & -> & _)])]; by intros ? [= <-].
  - eapply safe_mono; [by apply safe_bootWarm|]. by intros [v|e] o h s' _.
  - eapply safe_mono; [by apply safe_rebootForLease|]. intros r o h s' Hr.
    destruct Hr as [(-> & _)|(d & _ & [(p & -> & _)|[(e & -> & _)|(v & a & b & -> & _ & -> & _)]])]; by intros ? [= <-].
  - eapply safe_mono; [by apply safe_recoverLeased|]. by intros [v|e] o h s' _.
Qed.

(** The others go on from a later state as long as what they own is left alone. *)
Lemma safe_later (f : running) o h s s' : rely o s s' →
  safely f o h s (λ r o _ _, hands_own r o) → safely f o h s' (λ r o _ _, hands_own r o).
Proof.
  intros Hr Hs. destruct (is_done f) eqn:E; [by destruct f|].
  eapply safe_stable; [apply rely_trans|done..].
Qed.

Lemma step_section_ok s ts others i sec next l : pool_ok (MkPool s ts others) →
  ts !! i = Some (Gate sec next, l) → pool_ok (MkPool (sec s) (<[i := (next s, l)]> ts) others).
Proof.
  intros (Hg & Hoth & owners & [Hlen Hheld Hapart Hlent Hsafe]) Hi. cbn in *.
  destruct (lookup_lt_is_Some_2 owners i) as [o Ho]; [rewrite Hlen; by eapply lookup_lt_Some|].
  destruct (Hsafe _ _ _ _ Hi Ho) as (h & Hs). destruct (Hs s (rely_refl o s)) as (o' & Hgu & Hs').
  destruct Hgu as (Hg' & Hnow & Hgr & _ & _ & Hleft & Hnew & Hold & _); [done|by intros k ->; eapply Hheld|].
  assert (∀ j k, owners !! j = Some (Some k) → j ≠ i → left_alone k s (sec s)) as Hothers.
  { intros j k Hj Hne. apply Hleft; [by eapply Hheld|]. intros ->. by destruct Hne; eapply Hapart. }
  split; [done|]. split; [intros n Hn; specialize (Hoth n Hn); cbn; destruct Hgr; lia|].
  exists (<[i := o']> owners). split; cbn.
  - by rewrite !length_insert.
  - intros j k Hj. apply list_lookup_insert_Some in Hj as [(<- & -> & _)|[Hne Hj]].
    + destruct (Hnew k eq_refl) as [Hk [->|Hfresh]]; (split; [done|]); [by apply (Hheld i)|].
      intros Hin%Hoth. lia.
    + split; [by destruct (Hothers j k Hj)|by eapply Hheld].
  - assert (∀ j k, owners !! j = Some (Some k) → j ≠ i → o' ≠ Some k) as Hno.
    { intros j k Hj Hne ->. destruct (Hnew k eq_refl) as [_ [->|Hfresh]].
      - by destruct Hne; eapply Hapart.
      - destruct (Hheld _ _ Hj) as [Hk _]. apply (co_held _ (proj2 Hg)) in Hk as (_ & Hlt & _). lia. }
    intros j j' k Hj Hj'.
    apply list_lookup_insert_Some in Hj as [(<- & -> & _)|[Hne Hj]];
      apply list_lookup_insert_Some in Hj' as [(<- & E & _)|[Hne' Hj']]; try done.
    + by destruct (Hno j' k Hj' (not_eq_sym Hne')).
    + destruct (Hno j k Hj (not_eq_sym Hne)). done.
    + by eapply Hapart.
  - intros j f n o1 Hj Hj'. apply list_lookup_insert_Some in Hj as [(<- & [= <- ->] & _)|[Hne Hj]].
    + rewrite list_lookup_insert_eq in Hj' by (by eapply lookup_lt_Some). injection Hj' as <-.
      destruct (Hlent _ _ _ _ Hi Ho) as [Hn|Hn]; [|right; by apply Hgr].
      destruct o as [k|]; [|done]. injection Hn as <-. destruct (Hold k eq_refl) as [->|?]; [by left|by right].
    + rewrite list_lookup_insert_ne in Hj' by done.
      destruct (Hlent _ _ _ _ Hj Hj') as [|Hn]; [by left|right; by apply Hgr].
  - intros j f l' o1 Hj Hj'. apply list_lookup_insert_Some in Hj as [(<- & [= <- <-] & _)|[Hne Hj]].
    + rewrite list_lookup_insert_eq in Hj' by (by eapply lookup_lt_Some). injection Hj' as <-. by exists h.
    + rewrite list_lookup_insert_ne in Hj' by done.
      destruct (Hsafe _ _ _ _ Hj Hj') as (h' & Hs1). exists h'. eapply safe_later; [|done].
      intros _. split; [done|]. split; [rewrite Hnow; lia|]. split; [done|]. intros k -> _. by eapply Hothers.
Qed.

Lemma step_answer_ok s ts others i c next l a : pool_ok (MkPool s ts others) →
  ts !! i = Some (Call c next, l) → pool_ok (MkPool s (<[i := (next a, l)]> ts) others).
Proof.
  intros (Hg & Hoth & owners & [Hlen Hheld Hapart Hlent Hsafe]) Hi. cbn in *.
  split; [done|]. split; [done|]. exists owners. split; cbn; try done.
  - by rewrite length_insert.
  - intros j f n o Hj Ho. apply list_lookup_insert_Some in Hj as [(<- & [= <- ->] & _)|[_ Hj]]; by eapply Hlent.
  - intros j f l' o Hj Ho. apply list_lookup_insert_Some in Hj as [(<- & [= <- <-] & _)|[_ Hj]]; [|by eapply Hsafe].
    destruct (Hsafe _ _ _ _ Hi Ho) as (h & Hs). destruct (Hs s (rely_refl o s)) as [_ Ha].
    exists (h ++ [(c, a)]). apply Ha.
Qed.

Lemma step_others_ok s ts others s' others' : pool_ok (MkPool s ts others) →
  others_may others s others' s' → pool_ok (MkPool s' ts others').
Proof.
  intros (Hg & Hoth & owners & [Hlen Hheld Hapart Hlent Hsafe]) Hm. cbn in *.
  destruct (Hm Hg) as (Hg' & Hnow & Hgr & Hleft & Hoth').
  split; [done|]. split; [intros n Hn; by apply Hoth'|]. exists owners. split; cbn; try done.
  - intros i k Hi. destruct (Hheld i k Hi) as [Hk Hn]. split; [by destruct (Hleft k Hk Hn)|].
    intros [_ [Hin|Hle]]%Hoth'; [done|]. apply (co_held _ (proj2 Hg)) in Hk as (_ & Hlt & _). lia.
  - intros i f n o Hi Ho. destruct (Hlent _ _ _ _ Hi Ho); [by left|right; by apply Hgr].
  - intros i f l o Hi Ho. destruct (Hsafe _ _ _ _ Hi Ho) as (h & Hs). exists h.
    eapply safe_later; [|done]. intros _. split; [done|]. split; [done|]. split; [done|].
    intros k -> Hk. apply Hleft; [done|]. by eapply Hheld.
Qed.

Lemma step_start_ok s ts others t : pool_ok (MkPool s ts others) → task_ok t = true →
  (∀ k, task_claim t = Some k → held (sh_claims s) k ∧ k_number k ∈ others) →
  pool_ok (MkPool s (ts ++ [(task_flow t, k_number <$> task_claim t)])
     (Arr.filter (λ n, Some n !== (k_number <$> task_claim t)) others)).
Proof using Hret.
  intros (Hg & Hoth & owners & [Hlen Hheld Hapart Hlent Hsafe]) Hok Hcl. cbn in *.
  split; [done|]. split; [by intros n [Hn _]%elem_of_afilter; apply Hoth|].
  exists (owners ++ [task_claim t]).
  assert (∀ k, task_claim t = Some k → ∀ i, owners !! i ≠ Some (Some k)) as Hnew.
  { intros k Hk i Hi. destruct (Hcl k Hk) as [_ Hin]. by destruct (Hheld i k Hi). }
  split; cbn.
  - by rewrite !length_app, Hlen.
  - intros i k [Hi|[_ Hi]]%lookup_app_Some.
    + destruct (Hheld i k Hi) as [Hk Hn]. split; [done|]. by intros [Hin _]%elem_of_afilter.
    + apply list_lookup_singleton_Some in Hi as [_ Hk]. split; [by apply Hcl|].
      intros [_ Hne]%elem_of_afilter. rewrite Hk in Hne. cbn in Hne. by rewrite bool_decide_eq_true_2 in Hne.
  - intros i j k [Hi|[Hle Hi]]%lookup_app_Some [Hj|[Hle' Hj]]%lookup_app_Some; [by eapply Hapart|..].
    + apply list_lookup_singleton_Some in Hj as [_ Hk]. by destruct (Hnew k Hk i).
    + apply list_lookup_singleton_Some in Hi as [_ Hk]. by destruct (Hnew k Hk j).
    + apply list_lookup_singleton_Some in Hi as [? _], Hj as [? _]. lia.
  - intros i f n o [Hi|[Hle Hi]]%lookup_app_Some Ho.
    + rewrite lookup_app_l in Ho by (rewrite Hlen; by eapply lookup_lt_Some). by eapply Hlent.
    + apply list_lookup_singleton_Some in Hi as [Hz [= <- Hn]].
      rewrite lookup_app_r, Hlen, Hz in Ho by (rewrite Hlen; lia). injection Ho as <-. by left.
  - intros i f l o [Hi|[Hle Hi]]%lookup_app_Some Ho.
    + rewrite lookup_app_l in Ho by (rewrite Hlen; by eapply lookup_lt_Some). by eapply Hsafe.
    + apply list_lookup_singleton_Some in Hi as [Hz [= <- Hn]].
      rewrite lookup_app_r, Hlen, Hz in Ho by (rewrite Hlen; lia). injection Ho as <-. exists [].
      apply task_safe; [done|]. split; [done|]. intros k Hk. by apply Hcl.
Qed.

Lemma step_finish_ok s ts others i r l : pool_ok (MkPool s ts others) → ts !! i = Some (Done r, l) →
  pool_ok (MkPool s (<[i := (Done (Ok None), None)]> ts)
    (option_list l ++ match r with Ok (Some k) => [k_number k] | _ => [] end ++ others)).
Proof.
  intros (Hg & Hoth & owners & [Hlen Hheld Hapart Hlent Hsafe]) Hi. cbn in *.
  destruct (lookup_lt_is_Some_2 owners i) as [o Ho]; [rewrite Hlen; by eapply lookup_lt_Some|].
  destruct (Hsafe _ _ _ _ Hi Ho) as (h & Hown). cbn in Hown.
  assert (∀ n, n ∈ option_list l ++ match r with Ok (Some k) => [k_number k] | _ => [] end →
    k_number <$> o = Some n ∨ n ∈ releasedClaims (sh_claims s)) as Hback.
  { intros n [Hn|Hn]%elem_of_app.
    - destruct l as [n'|]; [|by apply elem_of_nil in Hn]. apply list_elem_of_singleton in Hn as ->. by eapply Hlent.
    - destruct r as [[k|]|]; try (by apply elem_of_nil in Hn). apply list_elem_of_singleton in Hn as ->.
      left. by rewrite (Hown k eq_refl). }
  split; [done|]. rewrite (assoc_L app). split.
  { intros n [Hn|Hn]%elem_of_app; [|by apply Hoth]. destruct (Hback n Hn) as [Ho'|Hrel].
    - destruct o as [k|]; [|done]. injection Ho' as <-. destruct (Hheld i k Ho) as [Hk _].
      by apply (co_held _ (proj2 Hg)) in Hk as (_ & Hlt & _).
    - by apply (co_released _ (proj2 Hg)). }
  exists (<[i := None]> owners). split; cbn.
  - by rewrite !length_insert.
  - intros j k Hj. apply list_lookup_insert_Some in Hj as [(_ & [=] & _)|[Hne Hj]].
    destruct (Hheld j k Hj) as [Hk Hn]. split; [done|]. intros [Hin|Hin]%elem_of_app; [|done].
    pose proof (co_held _ (proj2 Hg) _ _ Hk) as (_ & _ & Hnr).
    destruct (Hback _ Hin) as [Ho'|Hrel]; [|done]. destruct o as [k'|]; [|done]. injection Ho' as Heq.
    destruct (Hheld i k' Ho) as [Hk' _]. rewrite (co_numbers _ (proj2 Hg) _ _ _ _ Hk' Hk Heq) in Ho.
    by destruct Hne; eapply Hapart.
  - intros j j' k Hj Hj'. apply list_lookup_insert_Some in Hj as [(_ & [=] & _)|[_ Hj]].
    apply list_lookup_insert_Some in Hj' as [(_ & [=] & _)|[_ Hj']]. by eapply Hapart.
  - intros j f n o1 Hj Hj'. apply list_lookup_insert_Some in Hj as [(_ & [=] & _)|[Hne Hj]].
    rewrite list_lookup_insert_ne in Hj' by done. by eapply Hlent.
  - intros j f l' o1 Hj Hj'. apply list_lookup_insert_Some in Hj as [(<- & [= <- <-] & _)|[Hne Hj]].
    + exists []. by intros k [=].
    + rewrite list_lookup_insert_ne in Hj' by done. by eapply Hsafe.
Qed.

Lemma pool_reachable_ok p : pool_reachable p → pool_ok p.
Proof using Hret.
  induction 1 as [s others Hg Hoth|p p' _ IH Hstep].
  - split; [done|]. split; [done|]. exists []. by split.
  - destruct Hstep.
    + by apply step_start_ok.
    + by apply step_section_ok.
    + by eapply step_answer_ok.
    + by apply step_finish_ok.
    + by eapply step_others_ok.
Qed.

(** C34. Driver work on a device is exclusive. However the device operations are interleaved, with
    each other and with anything the rest of the program does to devices that are not theirs, and
    whatever the drivers answer: while a driver call on a device is outstanding, the device is
    claimed, no other operation has a call on it outstanding, and the device is not leased, unless
    the call is the boot that recovers a leased device. *)
Theorem driver_work_is_exclusive p : pool_reachable p →
  ∀ i c next l x, po_tasks p !! i = Some (Call c next, l) → call_device c = Some x →
    isClaimed (sh_claims (po_state p)) x = true
    ∧ (unleased (sh_registry (po_state p)) x = true ∨ ∃ d m, c = CallMakeReady d purpose_recover m None)
    ∧ ∀ j c' next' l', po_tasks p !! j = Some (Call c' next', l') → call_device c' = Some x → j = i.
Proof using Hret.
  intros (Hg & Hoth & owners & [Hlen Hheld Hapart Hlent Hsafe])%pool_reachable_ok.
  assert (∀ i c next l x, po_tasks p !! i = Some (Call c next, l) → call_device c = Some x →
    ∃ k, owners !! i = Some (Some k) ∧ held (sh_claims (po_state p)) k ∧ k_deviceId k = x
      ∧ (k_operation k = op_recovery → ∃ d m, c = CallMakeReady d purpose_recover m None)
      ∧ (k_operation k ≠ op_recovery → unleased (sh_registry (po_state p)) x = true)) as Hcall.
  { intros i c next l x Hi Hc.
    destruct (lookup_lt_is_Some_2 owners i) as [o Ho]; [rewrite Hlen; by eapply lookup_lt_Some|].
    destruct (Hsafe _ _ _ _ Hi Ho) as (h & Hs). destruct (Hs _ (rely_refl o _)) as [Hmay _].
    destruct (Hmay x Hc) as (k & -> & Hk). eauto. }
  intros i c next l x Hi Hc. destruct (Hcall _ _ _ _ _ Hi Hc) as (k & Ho & Hk & <- & Hrec & Hun).
  split; [by apply bool_decide_eq_true_2; rewrite Hk|]. split.
  { destruct (decide (k_operation k = op_recovery)); auto. }
  intros j c' next' l' Hj Hc'. destruct (Hcall _ _ _ _ _ Hj Hc') as (k' & Ho' & Hk' & Hd & _).
  unfold held in Hk, Hk'. rewrite Hd, Hk in Hk'. injection Hk' as <-. by eapply Hapart.
Qed.

(** C35. No device operation touches a lease or a leased device (safety rule 2): in every reachable
    pool, the next section of any running operation leaves the leases as they are and every leased
    device's record unchanged. *)
Theorem device_operations_spare_leases s ts others i sec next l :
  pool_reachable (MkPool s ts others) → ts !! i = Some (Gate sec next, l) →
  leases (sh_registry (sec s)) = leases (sh_registry s)
  ∧ ∀ x, x ∈ devices (sh_registry s) → dev_state x = leased → x ∈ devices (sh_registry (sec s)).
Proof using Hret.
  intros (Hg & _ & owners & [Hlen Hheld _ _ Hsafe])%pool_reachable_ok Hi. cbn in *.
  destruct (lookup_lt_is_Some_2 owners i) as [o Ho]; [rewrite Hlen; by eapply lookup_lt_Some|].
  destruct (Hsafe _ _ _ _ Hi Ho) as (h & Hs). destruct (Hs s (rely_refl o s)) as (o' & Hgu & _).
  destruct Hgu as (_ & _ & _ & Hls & Hds & _); [done|by intros k ->; eapply Hheld|]. done.
Qed.

(** Retiring a device: [shutdown], [destroy] and [dispose], whatever the others do meanwhile.
    Each either finds no device it may touch, calls no driver and leaves a claim it was lent
    alone; or it takes the claim, calls the driver for exactly the device it claimed, in order
    (a ready device is shut down before it is destroyed), and ends with the claim released: with
    the driver's error, or with the device recorded as shut down or deleted. It never ends
    without an answer because the device moved under its claim. *)
Theorem retiring_releases_its_claim target initiator operation existing s :
  lent existing s → operation ≠ op_recovery →
  safely (shutdown options hasDriver target initiator operation existing) existing [] s
    (ends_released existing target (lent_for existing target [ready] operation s) (λ d h v s,
       (∃ a, h = [(CallShutdown d, Ok a)]) ∧ made d v Domain.shutdown
       ∧ find_virtual (sh_registry s) (v_id target) = Some v))
  ∧ safely (destroy options hasDriver target initiator operation existing) existing [] s
      (ends_released existing target (lent_for existing target [provisioning; Domain.shutdown] operation s) (λ d h v s,
         (∃ a, h = [(CallDestroy d, Ok a)]) ∧ made d v deleted
         ∧ find_virtual (sh_registry s) (v_id target) = Some v))
  ∧ safely (dispose options hasDriver target initiator operation existing) existing [] s
      (ends_released existing target (lent_for existing target [ready; Domain.shutdown] operation s) (λ d h v s,
         (if v_state d === ready
          then ∃ a b w, h = [(CallShutdown d, Ok a); (CallDestroy w, Ok b)] ∧ made d w Domain.shutdown
          else ∃ a, h = [(CallDestroy d, Ok a)])
         ∧ made d v deleted ∧ find_virtual (sh_registry s) (v_id target) = Some v)).
Proof using Hret. intros. by split_and!; [apply safe_shutdown|apply safe_destroy|apply safe_dispose]. Qed.

(** Booting a device for a lease or for the warm pool, whatever the others do meanwhile: a
    device that is shut down or just provisioned is handed over ready with its claim still held
    exactly when the driver made it ready; a failed boot releases the claim and throws the
    driver's error; the warm pool's boot always ends with the claim released; and a reboot calls
    the driver to shut the device down and make it ready again, and when either fails throws that
    error with the claim released. *)
Theorem booting_hands_over_or_releases target k except excepts s : lent (Some k) s →
  safely (bootForLease options hasDriver target k except) (Some k) [] s
    (ends_handed_over (Some k) target (lent_for (Some k) target [Domain.shutdown] op_boot s) (λ d h, ∃ a,
       h = [(CallMakeReady d purpose_prepare (specMode (VSpec (v_spec d))) except, Ok a)]))
  ∧ safely (readyProvisionedForLease options hasDriver target (Some k) except) (Some k) [] s
      (ends_handed_over (Some k) target (lent_for (Some k) target [provisioning] op_boot s) (λ d h, ∃ a,
         h = [(CallMakeReady d purpose_prepare (specMode (VSpec (v_spec d))) except, Ok a)]))
  ∧ safely (bootWarm options hasDriver target k) (Some k) [] s
      (ends_released (Some k) target (lent_for (Some k) target [Domain.shutdown] op_boot s) (λ d h v s, made d v ready ∧ ∃ a,
         h = [(CallMakeReady d purpose_prepare (specMode (VSpec (v_spec d))) None, Ok a)]))
  ∧ safely (rebootForLease options hasDriver target k excepts) (Some k) [] s (ends_rebooted hasDriver k target (lent_for (Some k) target [ready] op_boot s) excepts).
Proof using Hret.
  intros. split_and!; [apply safe_makeReadyForLease; [done..|by right]|
    apply safe_makeReadyForLease; [done..|by left]|by apply safe_bootWarm|by apply safe_rebootForLease].
Qed.
End pool.

(** ** A pool on a registry with one ready device *)

Definition sample_shared : Shared :=
  MkShared sample_ready no_claims 3 empty_coordinator [] [] [] [] ∅ false ∅ [] nothing_acquired.
Definition sample_target : VirtualDevice := default (sample_virtual "dev_1" ready) (find_virtual sample_ready "dev_1").
Lemma sample_good : good sample_shared.
Proof.
  split; [apply (registry_reachable_ok _ _ _ sample_retention sample_ready_reachable)|].
  split; cbn; intros; [by rewrite lookup_empty in *|by apply elem_of_nil in H|by rewrite lookup_empty in *].
Qed.

Definition shutdown_task : DeviceTask := TaskShutdown sample_target "reaper" op_cleanup None.
Definition claimed_shared : Shared :=
  sample_shared <| sh_claims := MkClaims {["dev_1" := MkClaim 0 "dev_1" op_cleanup None]} 1 [] |>.

(** An operation after its first section. *)
Definition first_section {R} (f : flow Shared DriverCall DriverAnswer DeviceError R) (s : Shared) :=
  match f with Gate sec next => (sec s, next s) | f => (s, f) end.
Lemma shutdown_waits options s target initiator operation d t' k :
  ManagedDevice.registeredTarget (sh_registry s) target [ready] = Some d →
  tryClaim (sh_claims s) (v_id d) operation None = Some (t', k) →
  ∃ next, first_section (task_flow options (λ _, true) (TaskShutdown target initiator operation None))
    s = (s <| sh_claims := t' |>, Call (CallShutdown d) next).
Proof.
  intros Ht Hc. eexists. cbn -[ManagedDevice.registeredTarget tryClaim]. rewrite Ht, Hc. reflexivity.
Qed.

(** The pool whose one operation has claimed the device and waits for the driver's shutdown. *)
Definition waiting_pool : Pool :=
  let '(s, f) := first_section (task_flow sample_options (λ _, true) shutdown_task) sample_shared in
  MkPool s [(f, None)] [].
Lemma waiting_pool_reachable : pool_reachable sample_options (λ _, true) waiting_pool.
Proof.
  eapply (pool_next _ _ (MkPool sample_shared [(task_flow sample_options (λ _, true) shutdown_task, None)] [])).
  - eapply pool_next; [apply (pool_start _ _ sample_shared []); [apply sample_good|by intros n ?%elem_of_nil]|].
    apply (step_start _ _ shutdown_task sample_shared [] []); [reflexivity|]. by intros k [=].
  - by eapply (step_section _ _ sample_shared [_] [] 0).
Qed.
Lemma waiting_call : ∃ next, waiting_pool
  = MkPool claimed_shared [(Call (CallShutdown sample_target) next, None)] [].
Proof.
  destruct (shutdown_waits sample_options sample_shared sample_target "reaper" op_cleanup sample_target
    (sh_claims claimed_shared) (MkClaim 0 "dev_1" op_cleanup None)) as [next E]; [vm_compute; reflexivity..|].
  exists next. unfold waiting_pool, shutdown_task. by rewrite E.
Qed.

Lemma driver_work_is_exclusive_witness : isClaimed (sh_claims (po_state waiting_pool)) "dev_1" = true.
Proof.
  destruct waiting_call as [next E].
  apply (driver_work_is_exclusive sample_options sample_retention (λ _, true) waiting_pool
    waiting_pool_reachable 0 (CallShutdown sample_target) next None "dev_1").
  - by rewrite E.
  - vm_compute. reflexivity.
Defined.

Lemma device_operations_spare_leases_witness :
  ∃ sec next, task_flow sample_options (λ _, true) shutdown_task = Gate sec next
    ∧ leases (sh_registry (sec sample_shared)) = leases sample_ready.
Proof.
  destruct (task_flow sample_options (λ _, true) shutdown_task) as [r|sec next|c next] eqn:E;
    [discriminate| |discriminate].
  exists sec, next. split; [reflexivity|].
  apply (device_operations_spare_leases sample_options sample_retention (λ _, true) sample_shared
    [(Gate sec next, None)] [] 0 sec next None); [|reflexivity].
  rewrite <- E.
  eapply pool_next; [apply (pool_start _ _ sample_shared []); [apply sample_good|by intros n ?%elem_of_nil]|].
  apply (step_start _ _ shutdown_task sample_shared [] []); [reflexivity|]. by intros k [=].
Defined.

Lemma retiring_releases_its_claim_witness :
  safe rely guar may_call (ManagedDevice.shutdown sample_options (λ _, true) sample_target "reaper" op_cleanup None)
    None [] sample_shared (ends_released None sample_target
      (lent_for None sample_target [ready] op_cleanup sample_shared) (λ d h v s,
       (∃ a, h = [(CallShutdown d, Ok a)]) ∧ made d v shutdown
       ∧ find_virtual (sh_registry s) (v_id sample_target) = Some v)).
Proof.
  apply (retiring_releases_its_claim sample_options sample_retention (λ _, true) sample_target "reaper" op_cleanup None
    sample_shared); [split; [apply sample_good|by intros k [=]]|discriminate].
Defined.

Lemma booting_hands_over_or_releases_witness :
  let k := MkClaim 0 "dev_1" op_boot None in
  let s := sample_shared <| sh_claims := MkClaims {["dev_1" := k]} 1 [] |> in
  safe rely guar may_call (ManagedDevice.rebootForLease sample_options (λ _, true) sample_target k ["wallpaper"])
    (Some k) [] s (ends_rebooted (λ _, true) k sample_target
      (lent_for (Some k) sample_target [ready] op_boot s) ["wallpaper"]).
Proof.
  intros k s.
  apply (booting_hands_over_or_releases sample_options sample_retention (λ _, true) sample_target k None ["wallpaper"] s).
  assert (tryClaim no_claims "dev_1" op_boot None = Some (sh_claims s, k)) as E by reflexivity.
  destruct (tryClaim_ok _ _ _ _ _ _ (proj2 sample_good) E) as (Hok & Hh & _).
  split; [split; [apply sample_good|exact Hok]|]. intros k' [= <-]. exact Hh.
Defined.
