(* ===== verification/Effects.v ===== *)
(** * What the registry's operations do to one device

    Each operation that changes a device of either kind, run on a sound registry that has the
    device in a state it accepts: it answers, and the record, the leases and the other devices are
    as described. The flows on devices are proved with these. *)
From stdpp Require Import base strings list option numbers gmap.
From S2P Require Import Prelude JsString OsRange Domain RequestStore Capacity Claims Registry RegistryInv Resolve Flow Devices.

Definition device_of (r : Registry) (i : string) : option DeviceRecord :=
  Arr.find (λ d, dev_id d === i) (devices r).

Lemma device_of_Some t r x i : registry_ok t r → device_of r i = Some x ↔ x ∈ devices r ∧ dev_id x = i.
Proof.
  intros Hr. unfold device_of. split.
  - by intros [Hin Hid%bool_decide_eq_true]%afind_Some.
  - intros [Hin <-]. destruct (Arr.find _ _) as [w|] eqn:E.
    + apply afind_Some in E as [Hw Hid%bool_decide_eq_true].
      f_equal. by eapply (NoDup_fmap_inj_on dev_id); [apply Hr|..].
    + rewrite afind_None in E. specialize (E _ Hin). cbn in E. by rewrite bool_decide_eq_true_2 in E.
Qed.
Lemma device_of_None r i : device_of r i = None ↔ i ∉ dev_id <$> devices r.
Proof.
  unfold device_of. rewrite afind_None, list_elem_of_fmap. split.
  - intros H (x & -> & Hx). specialize (H x Hx). cbn in H. by rewrite bool_decide_eq_true_2 in H.
  - intros H x Hx. apply bool_decide_eq_false. intros <-. apply H. by exists x.
Qed.

(** The record [x] became [x'], and nothing else that is not deleted changed. *)
Record changed (r : Registry) (x x' : DeviceRecord) (r' : Registry) : Prop := {
  ch_leases : leases r' = leases r;
  ch_record : x' ∈ devices r';
  ch_id : dev_id x' = dev_id x;
  ch_physical : dev_physical x' = dev_physical x;
  ch_driver : driverDeviceId (dev_fields x') = driverDeviceId (dev_fields x);
  ch_others y : y ∈ devices r → dev_id y ≠ dev_id x → dev_state y ≠ deleted → y ∈ devices r' }.

Lemma settle_device_same now d : dev_physical (settle_device now d) = dev_physical d
  ∧ driverDeviceId (dev_fields (settle_device now d)) = driverDeviceId (dev_fields d).
Proof.
  unfold settle_device, stamp_deleted, withoutCauseUnlessQuarantined.
  destruct d; cbn; repeat case_bool_decide; cbn; repeat case_bool_decide; done.
Qed.
Lemma settle_quarantined now d : dev_state d = quarantined → settle_device now d = d.
Proof.
  intros Hs. unfold settle_device, withoutCauseUnlessQuarantined, stamp_deleted.
  rewrite (bool_decide_eq_true_2 _ Hs). cbn [orb]. by rewrite Hs.
Qed.

Section effects.
Context (options : RegistryOptions) (Hret : retention_ok options).
Implicit Types (r : Registry) (x y d : DeviceRecord) (now : Z).

Lemma require_any t r x : registry_ok t r → x ∈ devices r →
  ∃ i, devices r !! i = Some x ∧ requireDeviceRecord (dev_id x) r = (r, Ok (x, i)).
Proof.
  intros Hr Hin. unfold requireDeviceRecord, get, mbind, action_bind. cbv beta iota.
  destruct (Arr.findIndex (λ d, dev_id d === dev_id x) (devices r)) as [i|] eqn:E.
  - apply afindIndex_Some in E as (d & Hi & Hid%bool_decide_eq_true & _).
    assert (d = x) as ->.
    { eapply (NoDup_fmap_inj_on dev_id); [apply Hr|by eapply list_elem_of_lookup_2|done..]. }
    exists i. split; [done|]. by rewrite Hi.
  - rewrite afindIndex_None in E. specialize (E _ Hin). cbn in E. by rewrite bool_decide_eq_true_2 in E.
Qed.

Lemma replaced now r (i : nat) x d : registry_ok now r → devices r !! i = Some x →
  dev_id d = dev_id x → dev_physical d = dev_physical x →
  driverDeviceId (dev_fields d) = driverDeviceId (dev_fields x) → deletedAt (dev_fields d) = None →
  changed r x (settle_device now d) (replace_device options now i d r).1.
Proof using Hret.
  intros Hr Hi Hid Hph Hdd Hdel. destruct (settle_device_spec now d) as (Sid & _).
  destruct (settle_device_same now d) as [Sph Sdd].
  split; [done|by eapply replace_puts|congruence..|]. intros y Hy Hne Hs. by eapply replace_keeps.
Qed.

Lemma not_deleted_unstamped t r x : registry_ok t r → x ∈ devices r → dev_state x ≠ deleted →
  deletedAt (dev_fields x) = None.
Proof.
  intros Hr Hx Hs. destruct (deletedAt (dev_fields x)) eqn:E; [|done]. destruct Hs.
  eapply (do_deleted _ _ _ _ _ (ro_data _ _ Hr)); [done|]. by rewrite E.
Qed.

(** The result of an operation whose outcome is known. *)
Lemma kept_ok {A} (m : action Registry RegistryError A) now r r' a :
  runs m r (λ _, registry_ok now) (λ _ r', r' = r) → m r = (r', Ok a) → registry_ok now r'.
Proof. unfold runs. by intros H E; rewrite E in H. Qed.

(** A move along the tables, with the fields [f] rewrites on top. *)
Lemma transitioned_legal now x to u : legal_edge (dev_physical x) (dev_state x) to = true →
  ∃ d, transitioned now x to u = Ok d.
Proof.
  intros Hl. destruct (transitioned now x to u) as [d|e] eqn:E; [by exists d|]. exfalso.
  unfold transitioned in E. destruct (transition _ _ _) as [|e'] eqn:E'; [done|].
  apply transition_Err in E' as [E' _]. exact (eq_true_false_abs _ Hl E').
Qed.
Lemma transitioned_driver now x to u d : transitioned now x to u = Ok d →
  driverDeviceId (dev_fields d) = driverDeviceId (dev_fields x).
Proof.
  unfold transitioned. destruct (transition _ _ _) as [y|] eqn:E; [|done]. intros [= <-].
  destruct x as [v|p]; cbn in E; unfold transitionVirtual, transitionPhysical in E;
    (destruct (_ || _); [done|]); injection E as <-; cbn; [by destruct (to === _)|done].
Qed.

Lemma moved_replaced now r (i : nat) x to u f d : registry_ok now r → devices r !! i = Some x →
  transitioned now x to u = Ok d → (∀ g, id (f g) = id g) → (∀ g, deletedAt (f g) = deletedAt g) →
  (∀ g, driverDeviceId (f g) = driverDeviceId g) →
  let d' := settle_device now (set_fields f d) in
  changed r x d' (replace_device options now i (set_fields f d) r).1 ∧ dev_state d' = to.
Proof using Hret.
  intros Hr Hi Ht Hfi Hfd Hfr d'. destruct (ok_device now r i x Hr Hi) as (Hx & Hwf & Hdel).
  destruct (transitioned_successor now x to u d Ht Hwf Hdel) as ([Sid _ Sdel _] & Hst & Hl).
  pose proof (transitioned_Ok _ _ _ _ _ Ht) as (_ & _ & Hph & _).
  pose proof (transitioned_driver _ _ _ _ _ Ht) as Hdd.
  pose proof (not_deleted_unstamped _ _ _ Hr Hx (legal_edge_not_deleted _ _ _ Hl)) as Hun.
  split; [apply replaced; try done|].
  - by rewrite set_fields_id.
  - by rewrite set_fields_physical.
  - by rewrite set_fields_fields, Hfr.
  - rewrite set_fields_fields, Hfd. congruence.
  - unfold d'. destruct (settle_device_spec now (set_fields f d)) as (_ & -> & _). by rewrite set_fields_state.
Qed.

Lemma committed_found t r x : registry_ok t r → x ∈ devices r → committed (dev_id x) r = (r, Ok x).
Proof.
  intros Hr Hx. destruct (require_any _ _ _ Hr Hx) as (i & _ & E).
  unfold committed, mbind, action_bind. by rewrite E.
Qed.

(** *** Quarantine *)

Lemma edited now r (i : nat) x f : registry_ok now r → devices r !! i = Some x → dev_state x = quarantined →
  (∀ g, id (f g) = id g) → (∀ g, deletedAt (f g) = deletedAt g) →
  (∀ g, driverDeviceId (f g) = driverDeviceId g) →
  changed r x (set_fields f x) (replace_device options now i (set_fields f x) r).1.
Proof using Hret.
  intros Hr Hi Hs Hfi Hfd Hfr. pose proof (replaced now r i x (set_fields f x) Hr Hi) as Hch.
  rewrite settle_quarantined in Hch by (by rewrite set_fields_state). apply Hch.
  - by rewrite set_fields_id.
  - by rewrite set_fields_physical.
  - by rewrite set_fields_fields.
  - rewrite set_fields_fields, Hfd. eapply not_deleted_unstamped; [done|by eapply list_elem_of_lookup_2|].
    by rewrite Hs.
Qed.

Lemma retry_failure_run now r x attempts nextRetryAt : registry_ok now r → x ∈ devices r →
  dev_state x = quarantined →
  let x' := set_fields (λ f, f <| quarantineAttempts := Some attempts |>
                               <| quarantineNextRetryAt := Some nextRetryAt |>) x in
  ∃ r', recordQuarantineRetryFailure options now (dev_id x) attempts nextRetryAt r = (r', Ok x')
    ∧ registry_ok now r' ∧ changed r x x' r'.
Proof using Hret.
  intros Hr Hx Hs x'. destruct (require_any _ _ _ Hr Hx) as (i & Hi & Hreq).
  assert (recordQuarantineRetryFailure options now (dev_id x) attempts nextRetryAt r
    = ((replace_device options now i x' r).1, Ok x')) as E.
  { unfold recordQuarantineRetryFailure, require_quarantined, mbind, action_bind. rewrite Hreq. cbv beta iota. rewrite Hs. js_eval. reflexivity. }
  exists (replace_device options now i x' r).1. split; [exact E|]. split; [eapply kept_ok; [|exact E]|].
  - by apply recordQuarantineRetryFailure_kept; [apply Hret..|].
  - by apply edited.
Qed.

Lemma strand_run now r x attempts : registry_ok now r → x ∈ devices r → dev_state x = quarantined →
  let x' := set_fields (λ f, f <| quarantineNextRetryAt := None |>
                               <| quarantineAttempts := Some attempts |>) x in
  ∃ r', strandQuarantine options now (dev_id x) attempts r = (r', Ok x')
    ∧ registry_ok now r' ∧ changed r x x' r'.
Proof using Hret.
  intros Hr Hx Hs x'. destruct (require_any _ _ _ Hr Hx) as (i & Hi & Hreq).
  assert (strandQuarantine options now (dev_id x) attempts r
    = ((replace_device options now i x' r).1, Ok x')) as E.
  { unfold strandQuarantine, require_quarantined, mbind, action_bind. rewrite Hreq. cbv beta iota. rewrite Hs. js_eval. reflexivity. }
  exists (replace_device options now i x' r).1. split; [exact E|]. split; [eapply kept_ok; [|exact E]|].
  - by apply strandQuarantine_kept; [apply Hret..|].
  - by apply edited.
Qed.

Lemma quarantine_edge physical to : to = ready ∨ to = deleted →
  legal_edge physical quarantined to = true.
Proof. by intros [->| ->]; destruct physical. Qed.

(** A move of a device along its table, with the fields [f] rewrites, up to the commit. *)
Lemma move_run now r x to u f : registry_ok now r → x ∈ devices r → dev_state x ≠ leased → to ≠ leased →
  legal_edge (dev_physical x) (dev_state x) to = true →
  (∀ g, id (f g) = id g) → (∀ g, deletedAt (f g) = deletedAt g) → (∀ g, driverDeviceId (f g) = driverDeviceId g) →
  ∃ i d, requireDeviceRecord (dev_id x) r = (r, Ok (x, i)) ∧ transitioned now x to u = Ok d
    ∧ let x' := settle_device now (set_fields f d) in
      let r' := (replace_device options now i (set_fields f d) r).1 in
      changed r x x' r' ∧ dev_state x' = to ∧ registry_ok now r'.
Proof using Hret.
  intros Hr Hx Hs Hto Hl Hfi Hfd Hfr. destruct (require_any _ _ _ Hr Hx) as (i & Hi & Hreq).
  destruct (transitioned_legal now x to u Hl) as [d Hd].
  destruct (moved_replaced now r i x to u f d Hr Hi Hd) as [Hch Hst]; [done..|].
  exists i, d. split; [done|]. split; [done|]. cbv zeta. split; [done|]. split; [done|].
  pose proof (kept_move options now (ret_requests _ Hret) (ret_deleted _ Hret) f r i x to
    u d (λ _ r', registry_ok now r') (λ _ _, True) Hr Hi Hd) as Hm.
  unfold runs in Hm. destruct (replace_device _ _ _ _ _) as [r1 [[]|]] eqn:E; [|done]. by apply Hm.
Qed.
Lemma leave_quarantine_run now r x to : registry_ok now r → x ∈ devices r → dev_state x = quarantined →
  to ≠ leased → legal_edge (dev_physical x) quarantined to = true →
  ∃ i d, requireDeviceRecord (dev_id x) r = (r, Ok (x, i)) ∧ transitioned now x to no_update = Ok d
    ∧ let x' := settle_device now (set_fields without_quarantine d) in
      let r' := (replace_device options now i (set_fields without_quarantine d) r).1 in
      changed r x x' r' ∧ dev_state x' = to ∧ registry_ok now r'.
Proof using Hret. intros Hr Hx Hs Hto Hl. by apply move_run; rewrite ?Hs. Qed.

Lemma changed_log r x x' r' l : changed r x x' r' → changed r x x' (r' <| log := l |>).
Proof. intros [? ? ? ? ? ?]. by split. Qed.

Lemma delete_quarantined_run now r x initiator : registry_ok now r → x ∈ devices r →
  dev_state x = quarantined →
  ∃ r' x', deleteQuarantined options now (dev_id x) initiator r = (r', Ok x')
    ∧ registry_ok now r' ∧ changed r x x' r' ∧ dev_state x' = deleted.
Proof using Hret.
  intros Hr Hx Hs.
  destruct (leave_quarantine_run now r x deleted Hr Hx Hs) as (i & d & Hreq & Hd & Hch & Hst & Hok);
    [done|by apply quarantine_edge; right|].
  set (r1 := (replace_device options now i (set_fields without_quarantine d) r).1) in *.
  set (x' := settle_device now (set_fields without_quarantine d)) in *.
  set (r2 := r1 <| log := log r1 ++ [LogEmit (EmitDeleted (dev_id x) initiator (dev_physical x))] |>).
  exists r2, x'. split; [|split; [by apply registry_ok_noted|split; [by apply changed_log|done]]].
  transitivity (committed (dev_id x) r2).
  - unfold deleteQuarantined, require_quarantined, mbind, action_bind. rewrite Hreq. cbv beta iota.
    rewrite Hs. js_eval. rewrite Hd. reflexivity.
  - rewrite <- (ch_id _ _ _ _ Hch). apply (committed_found now); [by apply registry_ok_noted|]. apply Hch.
Qed.

Lemma recover_quarantined_run now r x to : registry_ok now r → x ∈ devices r →
  dev_state x = quarantined → to ≠ leased → legal_edge (dev_physical x) quarantined to = true →
  ∃ r' x', recoverFromQuarantine options now (dev_id x) to r = (r', Ok x')
    ∧ registry_ok now r' ∧ changed r x x' r' ∧ dev_state x' = to.
Proof using Hret.
  intros Hr Hx Hs Hto Hl.
  destruct (leave_quarantine_run now r x to Hr Hx Hs Hto Hl) as (i & d & Hreq & Hd & Hch & Hst & Hok).
  set (r1 := (replace_device options now i (set_fields without_quarantine d) r).1) in *.
  set (x' := settle_device now (set_fields without_quarantine d)) in *.
  exists r1, x'. split; [|done]. transitivity (committed (dev_id x) r1).
  - unfold recoverFromQuarantine, require_quarantined, mbind, action_bind. rewrite Hreq. cbv beta iota.
    rewrite Hs. js_eval. rewrite Hd. reflexivity.
  - rewrite <- (ch_id _ _ _ _ Hch). by apply (committed_found now); [|apply Hch].
Qed.

(** *** Transitions, the end of a reclaim, and entering quarantine *)

Lemma transition_run now r x to ev u : registry_ok now r → x ∈ devices r → dev_state x ≠ leased →
  to ≠ leased → legal_edge (dev_physical x) (dev_state x) to = true → unleased r (dev_id x) = true →
  eventForTransition (dev_state x) to = Some (de_event ev) → de_deviceId ev = dev_id x →
  ∃ r' x', transitionDevice options now (dev_id x) to (Some ev) u r = (r', Ok x')
    ∧ registry_ok now r' ∧ changed r x x' r' ∧ dev_state x' = to.
Proof using Hret.
  intros Hr Hx Hs Hto Hl Hun Hev Hid.
  destruct (move_run now r x to u (λ g, g) Hr Hx Hs Hto Hl) as (i & d & Hreq & Hd & Hch & Hst & Hok); [done..|].
  rewrite set_fields_same in Hch, Hst, Hok.
  set (r1 := (replace_device options now i d r).1) in *. set (x' := settle_device now d) in *.
  set (r2 := r1 <| log := log r1 ++ [LogEmit match de_event ev with
    | ev_ready => EmitReady ev (spec_platform (dev_spec d))
    | ev_deleted => EmitGivenDeleted ev (dev_physical d)
    | _ => EmitAsGiven ev end] |>).
  exists r2, x'. split; [|split; [by apply registry_ok_noted|split; [by apply changed_log|done]]].
  transitivity (committed (dev_id x) r2).
  - unfold transitionDevice, assertTransitionEvent, mbind, action_bind. rewrite Hreq. cbv beta iota. unfold get.
    unfold unleased in Hun. apply negb_true_iff in Hun. rewrite Hun, andb_false_r. js_eval.
    rewrite Hev, Hid, Hd. rewrite !bool_decide_eq_true_2 by done. js_eval. reflexivity.
  - rewrite <- (ch_id _ _ _ _ Hch). apply (committed_found now); [by apply registry_ok_noted|]. apply Hch.
Qed.

Lemma complete_reclaim_run now r x : registry_ok now r → x ∈ devices r → dev_state x = reclaiming →
  dev_physical x = false →
  ∃ r' x', completeReclaimWithoutPurge options now (dev_id x) r = (r', Ok x')
    ∧ registry_ok now r' ∧ changed r x (settle_device now x') r' ∧ dev_state x' = shutdown ∧ dev_physical x' = false
    ∧ dev_id x' = dev_id x ∧ driverDeviceId (dev_fields x') = driverDeviceId (dev_fields x) ∧ dev_spec x' = dev_spec x.
Proof using Hret.
  intros Hr Hx Hs Hph.
  destruct (move_run now r x shutdown no_update (λ g, g) Hr Hx) as (i & d & Hreq & Hd & Hch & Hst & Hok);
    try (by rewrite ?Hs, ?Hph). rewrite set_fields_same in Hch, Hst, Hok.
  exists (replace_device options now i d r).1, d. split; [|split; [done|split; [done|]]].
  - unfold completeReclaimWithoutPurge, mbind, action_bind. rewrite Hreq. cbv beta iota. rewrite Hs. js_eval.
    rewrite Hd. reflexivity.
  - destruct Hch as [_ _ Hid Hphx Hdd _]. destruct (settle_device_same now d) as [Sp Sd].
    destruct (settle_device_spec now d) as (Si & Ss & _). split_and!; try congruence.
    unfold transitioned in Hd. destruct x as [v|p]; [|done]. cbn in Hd. destruct (transitionVirtual _ _ _) as [w|] eqn:E; [|done].
    injection Hd as <-. unfold transitionVirtual in E. destruct (_ || _); [done|]. by injection E as <-.
Qed.

Lemma enter_quarantine_run now r x nextRetryAt cause : registry_ok now r → x ∈ devices r →
  dev_state x = reclaiming ∨ (dev_physical x = false ∧ (dev_state x = provisioning ∨ dev_state x = shutdown)) →
  ∃ r' x', enterQuarantine options now (dev_id x) nextRetryAt cause r = (r', Ok x')
    ∧ registry_ok now r' ∧ changed r x x' r' ∧ dev_state x' = quarantined
    ∧ quarantineAttempts (dev_fields x') = Some 0%Z ∧ quarantineNextRetryAt (dev_fields x') = Some nextRetryAt
    ∧ quarantineCause (dev_fields x') = Some cause.
Proof using Hret.
  intros Hr Hx Hs.
  set (F := λ f, f <| quarantineAttempts := Some 0%Z |> <| quarantineNextRetryAt := Some nextRetryAt |>
      <| quarantinedAt := Some now |> <| quarantineCause := Some cause |>).
  destruct (move_run now r x quarantined no_update F Hr Hx) as (i & d & Hreq & Hd & Hch & Hst & Hok);
    try done; [by destruct Hs as [->|[_ [->| ->]]]|by destruct Hs as [->|[-> [->| ->]]]; destruct (dev_physical x)|].
  destruct (settle_device_spec now (set_fields F d)) as (_ & Hss & _). rewrite Hss in Hst.
  rewrite settle_quarantined in Hch by done.
  exists (replace_device options now i (set_fields F d) r).1, (set_fields F d).
  split; [|rewrite set_fields_fields; done].
  assert ((dev_state x === reclaiming) || (dev_state x === provisioning) || (dev_state x === shutdown) = true) as Hg
    by (by destruct Hs as [->|[_ [->| ->]]]).
  unfold enterQuarantine, mbind, action_bind. rewrite Hreq. cbv beta iota. rewrite Hg, Hd. reflexivity.
Qed.

(** A new device is provisioning, and no other device that is not deleted changes. *)
Lemma register_device_run now r g input : registry_ok now r → "dev_" +:+ g ∉ dev_id <$> devices r →
  ∃ r' v, registerDevice options now g input r = (r', Ok (Virtual v)) ∧ registry_ok now r' ∧ leases r' = leases r
    ∧ Virtual v ∈ devices r' ∧ v_id v = "dev_" +:+ g ∧ v_state v = provisioning ∧ v_spec v = rd_spec input
    ∧ ∀ y, y ∈ devices r → dev_state y ≠ deleted → y ∈ devices r'.
Proof using Hret.
  intros Hr Hf.
  pose proof (registerDevice_kept options now (ret_requests _ Hret) (ret_deleted _ Hret) r g input Hr Hf) as Hkept.
  unfold runs in Hkept. destruct (registerDevice options now g input r) as [r' [d|e]] eqn:E; [|done].
  unfold registerDevice, commit_devices, commit, emit, modify, get, mret, action_ret, mbind, action_bind in E.
  cbv beta iota zeta in E. injection E as <- <-. eexists _, _. split; [reflexivity|]. split; [done|]. split; [done|].
  split; [|split_and!; try done].
  - apply elem_of_committed. eexists. split; [apply elem_of_app; right; by left|]. by split.
  - intros y Hy Hnd. apply elem_of_committed. exists y. split; [apply elem_of_app; by left|].
    split; [symmetry; by apply (settle_settled now now r)|]. unfold isExpired. by rewrite (not_deleted_unstamped now r y).
Qed.

(** A ready device is leased, and no other device that is not deleted changes. *)
Lemma create_lease_run now r g input x : registry_ok now r →
  default ("lse_" +:+ g) (cl_leaseId input) ∉ l_id <$> leases r →
  x ∈ devices r → dev_id x = cl_deviceId input → dev_state x = ready →
  ∃ r' l x', createLease options now g input r = (r', Ok l) ∧ registry_ok now r' ∧ leases r' = leases r ++ [l]
    ∧ l_id l = default ("lse_" +:+ g) (cl_leaseId input) ∧ l_deviceId l = dev_id x
    ∧ x' ∈ devices r' ∧ dev_id x' = dev_id x
    ∧ ∀ y, y ∈ devices r → dev_id y ≠ dev_id x → dev_state y ≠ deleted → y ∈ devices r'.
Proof using Hret.
  intros Hr Hf Hx Hid Hs.
  pose proof (createLease_kept options now (ret_requests _ Hret) (ret_deleted _ Hret) r g input Hr Hf) as Hkept.
  assert (runs (createLease options now g input) r
    (λ l r', leases r' = leases r ++ [l] ∧ l_id l = default ("lse_" +:+ g) (cl_leaseId input)
       ∧ l_deviceId l = dev_id x
       ∧ ∀ y, y ∈ devices r → dev_id y ≠ dev_id x → dev_state y ≠ deleted → y ∈ devices r') (λ _ _, False)) as Hrun.
  { apply createLease_runs.
    - intros d i x' l Hi Hdid _ _ d' Hlid Hldev _ _. split_and!; [done|done|congruence|].
      intros y Hy Hne Hnd. unfold commit, modify. cbn [fst devices]. apply elem_of_committed. exists y. split; [|split].
      + apply (elem_of_replace (devices r) i d d'); [apply Hr|done|]. right. split; [done|congruence].
      + symmetry. by eapply settle_settled.
      + unfold isExpired. by rewrite (not_deleted_unstamped now r y).
    - intros e He. by eapply (ready_can_be_leased now r now). }
  unfold runs in Hrun, Hkept. destruct (createLease options now g input r) as [r' [l|e]]; [|done].
  destruct Hrun as (Hls & Hlid & Hldev & Hoth).
  assert (l_deviceId l ∈ l_deviceId <$> leases r') as (y & Hy & Hyid & Hys)%(do_leased _ _ _ _ _ (ro_data _ _ Hkept)).
  { rewrite Hls, fmap_app, elem_of_app. right. by left. }
  exists r', l, y. split_and!; try done. congruence.
Qed.

(** An operation on a quarantined device refuses one that is not. *)
Lemma quarantine_refused {A} now r i (k : DeviceRecord → nat → action Registry RegistryError A) : registry_ok now r →
  (∀ x, x ∈ devices r → dev_id x = i → dev_state x ≠ quarantined) →
  ∃ e, ('(device, index) ← requireDeviceRecord i; _ ← require_quarantined i device; k device index) r
       = (r, Err e).
Proof.
  intros Hr Hno. unfold mbind, action_bind. destruct (device_of r i) as [x|] eqn:E.
  - apply (device_of_Some now) in E as [Hx <-]; [|done]. destruct (require_any _ _ _ Hr Hx) as (j & Hj & ->).
    cbv beta iota. unfold require_quarantined. rewrite bool_decide_eq_false_2 by auto. eexists. reflexivity.
  - apply device_of_None in E. unfold requireDeviceRecord, get, mbind, action_bind. cbv beta iota.
    destruct (Arr.findIndex _ _) as [j|] eqn:Ej; [|by eexists].
    apply afindIndex_Some in Ej as (d & Hj & Hd%bool_decide_eq_true & _). destruct E.
    apply list_elem_of_fmap. exists d. split; [done|]. by eapply list_elem_of_lookup_2.
Qed.
End effects.
