(* ===== verification/Quarantine.v ===== *)
(** * Quarantine: [src/core/quarantine-coordinator.ts] and [src/core/physical-presence.ts]

    A device whose purge, shutdown or delete failed is quarantined and retried on a timer: a virtual
    device is deleted, a physical one is reclaimed when it is there. Retries back off and run out:
    then a virtual device is deleted or stranded, and a physical one is unenrolled and never
    destroyed. Each retry works under a claim of its own, which ends on every path.

    The backoff multiplier is an integer. The cause's message is Unicode text and an argument here;
    [Text] models how it is written. *)
From stdpp Require Import base strings list option numbers gmap.
From S2P Require Import Prelude JsString OsRange AcquisitionState Domain RequestStore Capacity Claims Registry RegistryInv Resolve Flow Devices Effects.

(** ** Presence reads *)

Module PhysicalPresence.
Inductive PhysicalRead := ReadPresent (osVersion : option string) | ReadAbsent (reason : AbsentReason).

Definition read_of (entry : PresentPhysical) : PhysicalRead :=
  if pp_present entry then ReadPresent (pp_osVersion entry)
  else ReadAbsent (default not_present (pp_reason entry)).

(** Every device asked about has an answer; an entry about another device is dropped, and a later
    entry about a device replaces an earlier one. *)
Definition reads (ids : list string) (entries : list PresentPhysical) : gmap string PhysicalRead :=
  foldl (λ answer entry,
    match answer !! pp_driverDeviceId entry with
    | None => answer
    | Some _ => <[pp_driverDeviceId entry := read_of entry]> answer
    end)
    (foldl (λ answer i, <[i := ReadAbsent not_present]> answer) ∅ ids) entries.

Definition latest_of (read : PhysicalRead) : LatestPresence :=
  match read with ReadPresent _ => latest_present | ReadAbsent reason => latest_absent reason end.
Definition remember (answer : gmap string PhysicalRead) (s : Shared) : Shared :=
  s <| sh_presence := (latest_of <$> answer) ∪ sh_presence s |>.
Definition latestPresence (s : Shared) (driverDeviceId : string) : option LatestPresence :=
  sh_presence s !! driverDeviceId.

Definition is_present (read : PhysicalRead) : bool :=
  match read with ReadPresent _ => true | ReadAbsent _ => false end.

Local Abbreviation flow_of R := (flow Shared DriverCall DriverAnswer DeviceError R).
Definition readPhysicalPresenceDetail (platform : Platform) (ids : list string)
    : flow_of (gmap string PhysicalRead) :=
  a ← call (CallListPresent platform ids);
  let answer := reads ids (an_present a) in
  gate (_ ← modify (remember answer); mret answer).
Definition readPhysicalPresence (platform : Platform) (ids : list string)
    : flow_of (gmap string bool) :=
  mbind (M:=flow Shared DriverCall DriverAnswer DeviceError) (A:=gmap string PhysicalRead)
    (λ answer, mret (is_present <$> answer)) (readPhysicalPresenceDetail platform ids).
End PhysicalPresence.

(** ** The coordinator *)

Record QuarantinePurgeFailure := MkPurgeFailure {
  pf_deviceId : string;
  pf_leaseId : option string;
  pf_kind : CauseKind;
  pf_attemptedStrategy : AttemptedStrategy;
  pf_duration : Z;
  pf_error : string }.
Record QuarantineRetryConfig := MkRetryConfig {
  maxRetries : Z;
  retryBackoffMs : Z;
  retryBackoffMultiplier : Z;
  maxRetryBackoffMs : Z }.

Definition backoffDelay (config : QuarantineRetryConfig) (attemptsSoFar : Z) : Z :=
  Z.min (retryBackoffMs config * retryBackoffMultiplier config ^ attemptsSoFar)
    (maxRetryBackoffMs config).

Definition dev_platform (d : DeviceRecord) : Platform := spec_platform (dev_spec d).
Definition attempts_of (d : DeviceRecord) : Z := default 0%Z (quarantineAttempts (dev_fields d)).

Module Quarantine.
Import ManagedDevice.
Section quarantine.
(** The registry's options, the platforms with a driver, the retry configuration, the interval at
    which a device that is not there is looked for again, and the text of a cause. *)
Context (options : RegistryOptions) (hasDriver : Platform → bool) (config : QuarantineRetryConfig)
  (probeIntervalMs : option Z) (quarantineCauseMessage : string → option string).
Local Abbreviation flow_of R := (flow Shared DriverCall DriverAnswer DeviceError R).
Local Abbreviation op A := (action Shared DeviceError A).

Definition tell (e : CoordinatorEvent) : op unit :=
  modify (λ s, s <| sh_emitted := sh_emitted s ++ [e] |>).

(** A timer for a device replaces the one before it. It is due at [nextRetryAt], or at once. *)
Definition arm (deviceId : string) (nextRetryAt : Z) : op unit :=
  modify (λ s, if sh_disposed s then s
               else s <| sh_timers := <[deviceId := Z.max nextRetryAt (sh_now s)]> (sh_timers s) |>).

Definition on_release (k : DeviceOperationClaim) : op unit := modify (drop_claim k).

Definition enter (failure : QuarantinePurgeFailure) : flow_of unit :=
  now ← read_now;
  let nextRetryAt := (now + retryBackoffMs config)%Z in
  let cause := MkCause (pf_kind failure) None (quarantineCauseMessage (pf_error failure)) in
  _ ← gate (
    entered ← on_registry (λ now, enterQuarantine options now (pf_deviceId failure) nextRetryAt cause);
    _ ← match pf_leaseId failure with
        | Some leaseId => tell (EvPurgeFailed (pf_attemptedStrategy failure) (pf_deviceId failure)
            (pf_duration failure) (pf_error failure) leaseId)
        | None => mret tt
        end;
    tell (EvQuarantined (pf_deviceId failure) (maxRetries config) nextRetryAt (dev_platform entered) cause));
  gate (arm (pf_deviceId failure) nextRetryAt).

(** [try { ... } finally { claim.release(); }] inside one section. *)
Definition releasing_section {A} (k : DeviceOperationClaim) (m : op A) : op A := λ s,
  let '(s', r) := m s in (drop_claim k s', r).

Definition enterFromStalledTransition (deviceId : string) (findingState : DeviceState) : flow_of bool :=
  now ← read_now;
  let nextRetryAt := (now + retryBackoffMs config)%Z in
  entered ← gate (
    s ← get;
    let current := Arr.find (λ d, dev_id d === deviceId) (devices (sh_registry s)) in
    if (dev_state <$> current) !== Some findingState then mret false else
    match tryClaim (sh_claims s) deviceId op_reclaim None with
    | None => mret false
    | Some (t, claim) =>
        _ ← modify (λ s, s <| sh_claims := t |>);
        let cause :=
          if (findingState === provisioning) || (findingState === reclaiming)
          then MkCause stalled (Some findingState) None else MkCause delete_failed None None in
        entered ← releasing_section claim
          (on_registry (λ now, enterQuarantine options now deviceId nextRetryAt cause));
        _ ← tell (EvQuarantined deviceId (maxRetries config) nextRetryAt (dev_platform entered) cause);
        mret true
    end);
  if entered : bool then _ ← gate (arm deviceId nextRetryAt); mret true else mret false.

Definition restore (include : DeviceRecord → bool) : op unit := λ s,
  (foldl (λ s d, if negb (dev_state d === quarantined) || negb (include d) then s
                 else (arm (dev_id d) (default (sh_now s) (quarantineNextRetryAt (dev_fields d))) s).1)
     s (devices (sh_registry s)), Ok tt).

Definition dispose_timers : op unit :=
  modify (λ s, s <| sh_disposed := true |> <| sh_timers := ∅ |>).

(** *** A retry *)

Definition presentForRetry (device : DeviceRecord) : flow_of bool :=
  try_catch
    (_ ← get_driver hasDriver (dev_platform device);
     presence ← PhysicalPresence.readPhysicalPresence (dev_platform device)
       [driverDeviceId (dev_fields device)];
     mret (presence !! driverDeviceId (dev_fields device) === Some true))
    (λ _, mret false).

Definition waitForPresence (device : DeviceRecord) : flow_of unit :=
  now ← read_now;
  let nextRetryAt := (now + default (retryBackoffMs config) probeIntervalMs)%Z in
  _ ← gate (on_registry (λ now,
        recordQuarantineRetryFailure options now (dev_id device) (attempts_of device) nextRetryAt));
  gate (arm (dev_id device) nextRetryAt).

Definition abandoned (device : DeviceRecord) (attempts : Z) (claim : DeviceOperationClaim) : op unit :=
  _ ← on_release claim;
  _ ← tell (EvQuarantineAbandoned attempts (dev_id device) (dev_platform device));
  tell EvAvailability.

Definition unenroll (device : DeviceRecord) (attempts : Z) (claim : DeviceOperationClaim) : flow_of unit :=
  _ ← gate (on_registry (λ now, deleteQuarantined options now (dev_id device) "quarantine"));
  gate (abandoned device attempts claim).

Definition giveUp (device : DeviceRecord) (attempts : Z) (claim : DeviceOperationClaim) : flow_of unit :=
  match device with
  | Physical _ => unenroll device attempts claim
  | Virtual v =>
      _ ← get_driver hasDriver (dev_platform device);
      after (call (CallDestroy v)) (λ answer,
        match answer with
        | Err error =>
            _ ← gate (on_registry (λ now, strandQuarantine options now (dev_id device) attempts));
            gate (_ ← on_release claim;
                  tell (EvQuarantineStranded attempts (dev_id device) (stableError error) (dev_platform device)))
        | Ok _ =>
            _ ← gate (on_registry (λ now,
                  deleteQuarantined options now (dev_id device) "quarantine-coordinator"));
            gate (abandoned device attempts claim)
        end)
  end.

Definition retryFailed (device : DeviceRecord) (attempts : Z) (claim : DeviceOperationClaim) : flow_of unit :=
  if (maxRetries config <=? attempts)%Z then giveUp device attempts claim else
  now ← read_now;
  let nextRetryAt := (now + backoffDelay config attempts)%Z in
  _ ← gate (on_registry (λ now,
        recordQuarantineRetryFailure options now (dev_id device) attempts nextRetryAt));
  gate (arm (dev_id device) nextRetryAt).

Definition retryDelete (device : VirtualDevice) (attempts : Z) (claim : DeviceOperationClaim) : flow_of unit :=
  after (call (CallDestroy device)) (λ answer,
    match answer with
    | Err _ => retryFailed (Virtual device) attempts claim
    | Ok _ =>
        _ ← gate (on_registry (λ now, deleteQuarantined options now (v_id device)
              (if lastLeaseEndedAt (v_fields device) === None then "lease-engine" else "lease-end")));
        gate (_ ← on_release claim; tell EvAvailability)
    end).

Definition recovered (device : DeviceRecord) (result : ReclaimResult) (attempts : Z)
    (claim : DeviceOperationClaim) : flow_of unit :=
  _ ← gate (on_registry (λ now, recoverFromQuarantine options now (dev_id device) (rc_state result)));
  gate (_ ← on_release claim;
        _ ← if dev_physical device then tell (EvPhysicalReady (dev_id device)) else mret tt;
        _ ← tell (EvQuarantineRecovered attempts (dev_id device) result (dev_platform device));
        tell EvAvailability).

Definition retryClaimed (device : DeviceRecord) (claim : DeviceOperationClaim) : flow_of unit :=
  present ← (if dev_physical device then presentForRetry device else mret true);
  if negb present then waitForPresence device else
  let attempts := (attempts_of device + 1)%Z in
  _ ← get_driver hasDriver (dev_platform device);
  match device with
  | Virtual v => retryDelete v attempts claim
  | Physical _ =>
      after (call (CallReclaim device)) (λ answer,
        match answer with
        | Err _ => retryFailed device attempts claim
        | Ok a => recovered device (an_reclaim a) attempts claim
        end)
  end.

(** The claim is taken outside the gate, once the section that found the device has ended. *)
Definition retry (deviceId : string) : flow_of unit :=
  disposed ← gate (λ s, (s, Ok (sh_disposed s)));
  if disposed : bool then mret tt else
  found ← gate (λ s, (s, Ok (Arr.find (λ d, (dev_id d === deviceId) && (dev_state d === quarantined))
                              (devices (sh_registry s)))));
  match found with
  | None => mret tt
  | Some device =>
      taken ← gate (λ s,
        match tryClaim (sh_claims s) deviceId op_reclaim None with
        | Some (t, claim) => (s <| sh_claims := t |>, Ok (Some claim))
        | None => let '(s', _) := arm deviceId (sh_now s + retryBackoffMs config)%Z s in (s', Ok None)
        end);
      match taken with
      | None => mret tt
      | Some claim => finally (retryClaimed device claim) (gate (on_release claim))
      end
  end.

(** A timer that fires: it is forgotten, and a retry that throws is only logged. *)
Definition fired (deviceId : string) : flow_of unit :=
  _ ← gate (modify (λ s, s <| sh_timers := delete deviceId (sh_timers s) |>));
  try_catch (retry deviceId) (λ _, mret tt).
End quarantine.
End Quarantine.

(** ** A retry as a step of an abstract quarantine *)

(** Where a device stands: quarantined after so many failed attempts, with the moment its timer is
    due, or none; or out of quarantine in a state. *)
Inductive Standing := Held (attempts : Z) (due : option Z) | Freed (state : DeviceState).

Definition standing (s : Shared) (i : string) : option Standing :=
  (λ d, if dev_state d === quarantined then Held (attempts_of d) (sh_timers s !! i)
        else Freed (dev_state d)) <$> device_of (sh_registry s) i.

(** What one retry of a device that was tried [attempts] times does, from the driver's answers. *)
Definition retry_again (config : QuarantineRetryConfig) (now attempts delay : Z) : Standing :=
  Held attempts (Some (Z.max (now + delay) now)).
Definition spec_delete (config : QuarantineRetryConfig) (now attempts : Z)
    (first second : result DeviceError DriverAnswer) : Standing :=
  match first with
  | Ok _ => Freed deleted
  | Err _ =>
      if (maxRetries config <=? attempts + 1)%Z
      then match second with Ok _ => Freed deleted | Err _ => Held (attempts + 1) None end
      else retry_again config now (attempts + 1) (backoffDelay config (attempts + 1))
  end.
Definition spec_reclaim (config : QuarantineRetryConfig) (probe : option Z) (now attempts : Z)
    (present : bool) (reclaimed : result DeviceError DriverAnswer) : Standing :=
  if negb present then retry_again config now attempts (default (retryBackoffMs config) probe)
  else match reclaimed with
       | Ok a => Freed (rc_state (an_reclaim a))
       | Err _ =>
           if (maxRetries config <=? attempts + 1)%Z then Freed deleted
           else retry_again config now (attempts + 1) (backoffDelay config (attempts + 1))
       end.

Section runs.
Context (options : RegistryOptions) (Hret : retention_ok options) (hasDriver : Platform → bool)
  (config : QuarantineRetryConfig) (probeIntervalMs : option Z).
Import ManagedDevice Quarantine.
Local Abbreviation history := (list (DriverCall * result DeviceError DriverAnswer)).
Context (answer : history → DriverCall → result DeviceError DriverAnswer).
Implicit Types (s : Shared) (x : DeviceRecord) (k : DeviceOperationClaim) (h : history).

(** How a piece of a retry ends: the registry is sound, the device stands as [st] says, and the
    claim is as it was or released. *)
Record ends k x s (st : Standing) s' : Prop := {
  en_ok : registry_ok (sh_now s') (sh_registry s');
  en_now : sh_now s' = sh_now s;
  en_disposed : sh_disposed s' = sh_disposed s;
  en_claims : sh_claims s' = sh_claims s ∨ sh_claims s' = releaseClaim (sh_claims s) k;
  en_standing : standing s' (dev_id x) = Some st;
  en_timer state : st = Freed state → sh_timers s' !! dev_id x = sh_timers s !! dev_id x;
  en_held attempts at_ : st = Held attempts at_ → ∃ f, device_of (sh_registry s') (dev_id x) = Some (set_fields f x) }.
Definition runs_to {A} (f : flow Shared DriverCall DriverAnswer DeviceError A) h s (Q : history → Shared → Prop) : Prop :=
  ∃ a h' s', execute answer f h s = (Ok a, h', s') ∧ Q h' s'.

Lemma execute_registry {A} (m : Z → action Registry RegistryError A) h s r' a :
  m (sh_now s) (sh_registry s) = (r', Ok a) →
  execute answer (gate (on_registry m)) h s = (Ok a, h, s <| sh_registry := r' |>).
Proof. intros E. rewrite execute_gate. unfold on_registry. by rewrite E. Qed.

Lemma execute_read_now h s : execute answer read_now h s = (Ok (sh_now s), h, s).
Proof. done. Qed.
Lemma execute_call c h s : execute answer (call c) h s = (answer h c, h ++ [(c, answer h c)], s).
Proof. done. Qed.

(** A quarantined record in a sound registry. *)
Record tried x s : Prop := {
  tr_ok : registry_ok (sh_now s) (sh_registry s);
  tr_in : x ∈ devices (sh_registry s);
  tr_state : dev_state x = quarantined }.

Lemma standing_changed s s' x x' : registry_ok (sh_now s') (sh_registry s') → dev_id x' = dev_id x →
  x' ∈ devices (sh_registry s') →
  standing s' (dev_id x) = Some (if dev_state x' === quarantined
    then Held (attempts_of x') (sh_timers s' !! dev_id x) else Freed (dev_state x')).
Proof.
  intros Hok Hid Hin. unfold standing.
  by rewrite (proj2 (device_of_Some _ _ x' (dev_id x) Hok) (conj Hin Hid)).
Qed.

Lemma freed_ends k x s x' r' s' : dev_state x' ≠ quarantined → registry_ok (sh_now s) r' →
  changed (sh_registry s) x x' r' → sh_registry s' = r' → sh_now s' = sh_now s →
  sh_disposed s' = sh_disposed s → sh_timers s' = sh_timers s → sh_claims s' = releaseClaim (sh_claims s) k →
  ends k x s (Freed (dev_state x')) s'.
Proof.
  intros Hs Hr [_ Hin Hid _ _ _] Hreg Hnow Hdis Htm Hcl. split; try done; [by rewrite Hreg, Hnow|by right| |by rewrite Htm].
  rewrite (standing_changed s s' x x'); [|by rewrite Hreg, Hnow|done|by rewrite Hreg].
  by rewrite bool_decide_eq_false_2.
Qed.

(** The record stays quarantined, with new attempts and a new timer. *)
Lemma held_run x k h s attempts delay : tried x s → sh_disposed s = false →
  runs_to (now ← read_now;
    _ ← gate (on_registry (λ t, recordQuarantineRetryFailure options t (dev_id x) attempts (now + delay)%Z));
    gate (arm (dev_id x) (now + delay)%Z)) h s
    (λ h' s', h' = h ∧ ends k x s (retry_again config (sh_now s) attempts delay) s').
Proof using Hret.
  intros [Hr Hin Hs] Hdis.
  destruct (retry_failure_run options Hret (sh_now s) (sh_registry s) x attempts (sh_now s + delay)%Z Hr Hin Hs)
    as (r' & E & Hr' & [_ Hin' Hid' _ _ _]).
  eexists _, _, _. split.
  - rewrite (execute_bind _ _ _ _ _ _ _ _ (execute_read_now h s)).
    rewrite (execute_bind _ _ _ _ _ _ _ _ (execute_registry _ h s _ _ E)).
    rewrite execute_gate. reflexivity.
  - split; [done|]. cbn [fst snd]. unfold arm, modify. cbn -[dev_id set_fields]. rewrite Hdis.
    set (x' := set_fields _ x) in *. split; cbn -[dev_id]; [done|done|done|by left| |done|
      by eexists; apply (device_of_Some _ _ _ _ Hr')].
    rewrite (standing_changed s _ x x'); [|done..].
    rewrite bool_decide_eq_true_2 by (unfold x'; by rewrite set_fields_state).
    unfold retry_again. f_equal. f_equal; [by unfold x', attempts_of; rewrite set_fields_fields|].
    cbn -[dev_id]. by rewrite lookup_insert_eq.
Qed.

Lemma execute_driver platform h s : hasDriver platform = true →
  execute answer (get_driver hasDriver platform) h s = (Ok tt, h, s).
Proof. intros E. unfold get_driver. by rewrite E. Qed.

(** A delete that is recorded, after which [done_] releases the claim and tells. *)
Lemma deleted_run x k h s initiator (m : action Shared DeviceError unit) : tried x s →
  (∀ s, (m s).2 = Ok tt ∧ sh_registry (m s).1 = sh_registry s ∧ sh_now (m s).1 = sh_now s
        ∧ sh_disposed (m s).1 = sh_disposed s ∧ sh_timers (m s).1 = sh_timers s ∧ sh_claims (m s).1 = releaseClaim (sh_claims s) k) →
  runs_to (_ ← gate (on_registry (λ t, deleteQuarantined options t (dev_id x) initiator)); gate m) h s
    (λ h' s', h' = h ∧ ends k x s (Freed deleted) s').
Proof using Hret.
  intros [Hr Hin Hs] Hm.
  destruct (delete_quarantined_run options Hret (sh_now s) (sh_registry s) x initiator Hr Hin Hs)
    as (r' & x' & E & Hr' & Hch & Hst).
  destruct (Hm (s <| sh_registry := r' |>)) as (M1 & M2 & M3 & M4 & M5 & M6).
  eexists _, _, _. split.
  - rewrite (execute_bind _ _ _ _ _ _ _ _ (execute_registry _ h s _ _ E)), execute_gate, M1. reflexivity.
  - split; [done|]. rewrite <- Hst. eapply (freed_ends k x s x' r'); try done. by rewrite Hst.
Qed.

Lemma giveUp_virtual_run v k h s attempts : tried (Virtual v) s → sh_timers s !! v_id v = None →
  hasDriver (vs_platform (v_spec v)) = true →
  let a := answer h (CallDestroy v) in
  runs_to (giveUp options hasDriver (Virtual v) attempts k) h s
    (λ h' s', h' = h ++ [(CallDestroy v, a)]
      ∧ ends k (Virtual v) s (match a with Ok _ => Freed deleted | Err _ => Held attempts None end) s').
Proof using Hret.
  intros Ht Htm Hdr a. unfold runs_to, giveUp.
  rewrite (execute_bind _ _ _ _ _ _ _ _ (execute_driver _ h s Hdr)), execute_after, execute_call.
  fold a. destruct a as [a|e].
  - by apply (deleted_run (Virtual v)).
  - pose proof Ht as [Hr Hin Hs].
    destruct (strand_run options Hret (sh_now s) (sh_registry s) (Virtual v) attempts Hr Hin Hs)
      as (r' & E & Hr' & [_ Hin' Hid' _ _ _]).
    eexists _, _, _. split.
    + rewrite (execute_bind _ _ _ _ _ _ _ _ (execute_registry _ _ s _ _ E)), execute_gate. reflexivity.
    + split; [done|]. set (x' := set_fields _ _) in *. split; cbn -[dev_id]; [done|done|done|by right| |done|
        by eexists; apply (device_of_Some _ _ _ _ Hr')].
      change (v_id v) with (dev_id (Virtual v)). rewrite (standing_changed s _ (Virtual v) x'); [|done..].
      rewrite bool_decide_eq_true_2 by (unfold x'; by rewrite set_fields_state).
      unfold attempts_of, x'. rewrite set_fields_fields. do 2 f_equal. exact Htm.
Qed.

Lemma retryFailed_virtual_run v k h s attempts : tried (Virtual v) s → sh_timers s !! v_id v = None →
  sh_disposed s = false → hasDriver (vs_platform (v_spec v)) = true →
  let a := answer h (CallDestroy v) in
  runs_to (retryFailed options hasDriver config (Virtual v) attempts k) h s
    (λ h' s', if (maxRetries config <=? attempts)%Z
      then h' = h ++ [(CallDestroy v, a)]
        ∧ ends k (Virtual v) s (match a with Ok _ => Freed deleted | Err _ => Held attempts None end) s'
      else h' = h ∧ ends k (Virtual v) s (retry_again config (sh_now s) attempts (backoffDelay config attempts)) s').
Proof using Hret.
  intros Ht Htm Hdis Hdr a. unfold retryFailed. destruct (_ <=? _)%Z.
  - by apply giveUp_virtual_run.
  - by apply (held_run (Virtual v)).
Qed.

Lemma retryFailed_physical_run p k h s attempts : tried (Physical p) s → sh_disposed s = false →
  runs_to (retryFailed options hasDriver config (Physical p) attempts k) h s
    (λ h' s', h' = h ∧ ends k (Physical p) s
      (if (maxRetries config <=? attempts)%Z then Freed deleted
       else retry_again config (sh_now s) attempts (backoffDelay config attempts)) s').
Proof using Hret.
  intros Ht Hdis. unfold retryFailed. destruct (_ <=? _)%Z.
  - by apply (deleted_run (Physical p)).
  - by apply (held_run (Physical p)).
Qed.

Definition first_answer v := answer [] (CallDestroy v).
Definition second_answer v := answer [(CallDestroy v, first_answer v)] (CallDestroy v).

Lemma retryClaimed_virtual_run v k s : tried (Virtual v) s → sh_timers s !! v_id v = None →
  sh_disposed s = false → hasDriver (vs_platform (v_spec v)) = true →
  runs_to (retryClaimed options hasDriver config probeIntervalMs (Virtual v) k) [] s
    (λ h s', length h ≤ 2 ∧ Forall (λ c, c.1 = CallDestroy v) h ∧ ends k (Virtual v) s
      (spec_delete config (sh_now s) (attempts_of (Virtual v)) (first_answer v) (second_answer v)) s').
Proof using Hret.
  intros Ht Htm Hdis Hdr. unfold runs_to, retryClaimed. cbn [dev_physical].
  rewrite (execute_bind _ (mret true) _ [] s true [] s) by done. cbn [negb].
  rewrite (execute_bind _ _ _ _ _ _ _ _ (execute_driver _ [] s Hdr)).
  unfold retryDelete. rewrite execute_after, execute_call. fold (first_answer v). unfold spec_delete.
  destruct (first_answer v) as [a|e] eqn:E1.
  - destruct (deleted_run (Virtual v) k ([] ++ [(CallDestroy v, Ok a)]) s
      (if lastLeaseEndedAt (v_fields v) === None then "lease-engine" else "lease-end")
      (_ ← on_release k; tell EvAvailability) Ht) as ([] & h' & s' & Hp & -> & He); [done|].
    eexists _, _, _. split; [exact Hp|]. split_and!; [cbn; lia|by repeat constructor|done].
  - destruct (retryFailed_virtual_run v k ([] ++ [(CallDestroy v, Err e)]) s
      (attempts_of (Virtual v) + 1) Ht Htm Hdis Hdr) as ([] & h' & s' & Hp & He).
    eexists _, _, _. split; [exact Hp|]. unfold second_answer. rewrite E1. destruct (_ <=? _)%Z; destruct He as [-> He].
    + split_and!; [cbn; lia|by repeat constructor|done].
    + split_and!; [cbn; lia|by repeat constructor|done].
Qed.

(** *** A physical device *)

Definition listed p := CallListPresent (ps_platform (p_spec p)) [driverDeviceId (p_fields p)].
Definition present_answer p : bool :=
  match answer [] (listed p) with
  | Ok a => (PhysicalPresence.is_present
      <$> PhysicalPresence.reads [driverDeviceId (p_fields p)] (an_present a) !! driverDeviceId (p_fields p))
      === Some true
  | Err _ => false
  end.
Definition reclaim_answer p := answer [(listed p, answer [] (listed p))] (CallReclaim (Physical p)).

Lemma presentForRetry_run p s : hasDriver (ps_platform (p_spec p)) = true →
  ∃ l, execute answer (presentForRetry hasDriver (Physical p)) [] s
    = (Ok (present_answer p), [(listed p, answer [] (listed p))], s <| sh_presence := l |>).
Proof.
  intros Hdr. unfold presentForRetry. rewrite execute_catch.
  unfold PhysicalPresence.readPhysicalPresence, PhysicalPresence.readPhysicalPresenceDetail.
  rewrite (execute_bind _ _ _ _ _ _ _ _ (execute_driver _ [] s Hdr)).
  unfold mbind, flow_bind. rewrite !execute_after, execute_call. fold (listed p).
  change (CallListPresent _ _) with (listed p). unfold present_answer.
  destruct (answer [] (listed p)) as [a|e].
  - eexists. rewrite execute_gate. cbn -[PhysicalPresence.reads bool_decide lookup fmap listed PhysicalPresence.remember].
    rewrite lookup_fmap. reflexivity.
  - exists (sh_presence s). by destruct s.
Qed.

Lemma ends_presence k x s l st s' : ends k x (s <| sh_presence := l |>) st s' → ends k x s st s'.
Proof. by intros []. Qed.

Lemma recovered_run p k h s result attempts : tried (Physical p) s → rc_state result = ready →
  runs_to (recovered options (Physical p) result attempts k) h s
    (λ h' s', h' = h ∧ ends k (Physical p) s (Freed ready) s').
Proof using Hret.
  intros [Hr Hin Hs] Hres.
  destruct (recover_quarantined_run options Hret (sh_now s) (sh_registry s) (Physical p) ready Hr Hin Hs)
    as (r' & x' & E & Hr' & Hch & Hst); [done..|].
  eexists _, _, _. split.
  - unfold recovered. rewrite Hres.
    rewrite (execute_bind _ _ _ _ _ _ _ _ (execute_registry _ h s _ _ E)), execute_gate. reflexivity.
  - split; [done|]. rewrite <- Hst. change (id (p_fields p)) with (dev_id (Physical p)).
    apply (freed_ends k (Physical p) s x' r'); try done. by rewrite Hst.
Qed.

Definition reclaims_ready p : Prop :=
  ∀ a, reclaim_answer p = Ok a → rc_state (an_reclaim a) = ready.

Lemma retryClaimed_physical_run p k s : tried (Physical p) s → sh_disposed s = false →
  hasDriver (ps_platform (p_spec p)) = true → reclaims_ready p →
  runs_to (retryClaimed options hasDriver config probeIntervalMs (Physical p) k) [] s
    (λ h s', Forall (λ c, c.1 = listed p ∨ c.1 = CallReclaim (Physical p)) h ∧ ends k (Physical p) s
      (spec_reclaim config probeIntervalMs (sh_now s) (attempts_of (Physical p)) (present_answer p)
         (reclaim_answer p)) s').
Proof using Hret.
  intros Ht Hdis Hdr Hready. unfold runs_to, retryClaimed. cbn [dev_physical].
  destruct (presentForRetry_run p s Hdr) as [l Hp].
  rewrite (execute_bind _ _ _ _ _ _ _ _ Hp). set (s1 := s <| sh_presence := l |>).
  assert (tried (Physical p) s1) as Ht1 by (by destruct Ht). unfold spec_reclaim.
  assert (Forall (λ c : DriverCall * result DeviceError DriverAnswer, c.1 = listed p ∨ c.1 = CallReclaim (Physical p))
    [(listed p, answer [] (listed p))]) as Hl by (constructor; [by left|done]).
  destruct (present_answer p); cbn [negb].
  2:{ destruct (held_run (Physical p) k [(listed p, answer [] (listed p))] s1 (attempts_of (Physical p))
        (default (retryBackoffMs config) probeIntervalMs) Ht1 Hdis) as ([] & h' & s' & E & -> & He).
      eexists _, _, _. split; [exact E|]. split; [done|]. by eapply ends_presence. }
  rewrite (execute_bind _ _ _ _ _ _ _ _ (execute_driver _ _ s1 Hdr)), execute_after, execute_call.
  fold (reclaim_answer p). destruct (reclaim_answer p) as [a|e] eqn:Er.
  - destruct (recovered_run p k ([(listed p, answer [] (listed p))] ++ [(CallReclaim (Physical p), Ok a)]) s1
      (an_reclaim a) (attempts_of (Physical p) + 1) Ht1 (Hready a Er)) as ([] & h' & s' & E & -> & He).
    eexists _, _, _. split; [exact E|]. split; [apply Forall_app; split; [done|constructor; [by right|done]]|].
    rewrite (Hready a Er). by eapply ends_presence.
  - destruct (retryFailed_physical_run p k ([(listed p, answer [] (listed p))] ++ [(CallReclaim (Physical p), Err e)])
      s1 (attempts_of (Physical p) + 1) Ht1 Hdis) as ([] & h' & s' & E & -> & He).
    eexists _, _, _. split; [exact E|]. split; [apply Forall_app; split; [done|constructor; [by right|done]]|].
    by eapply ends_presence.
Qed.

(** *** The whole retry *)

(** A quarantined device whose timer has just fired, held by nobody. *)
Record due x s : Prop := {
  du_good : good s;
  du_in : x ∈ devices (sh_registry s);
  du_state : dev_state x = quarantined;
  du_free : claims (sh_claims s) !! dev_id x = None;
  du_timer : sh_timers s !! dev_id x = None;
  du_running : sh_disposed s = false;
  du_driver : hasDriver (dev_platform x) = true }.

Definition spec_retry x (now : Z) : Standing :=
  match x with
  | Virtual v => spec_delete config now (attempts_of x) (first_answer v) (second_answer v)
  | Physical p => spec_reclaim config probeIntervalMs now (attempts_of x) (present_answer p) (reclaim_answer p)
  end.
Definition allowed_call x (c : DriverCall) : Prop :=
  match x with
  | Virtual v => c = CallDestroy v
  | Physical p => c = listed p ∨ c = CallReclaim (Physical p)
  end.

Lemma retryClaimed_run x k s : tried x s → sh_timers s !! dev_id x = None → sh_disposed s = false →
  hasDriver (dev_platform x) = true → (∀ p, x = Physical p → reclaims_ready p) →
  runs_to (retryClaimed options hasDriver config probeIntervalMs x k) [] s
    (λ h s', Forall (λ c, allowed_call x c.1) h ∧ ends k x s (spec_retry x (sh_now s)) s').
Proof using Hret.
  intros Ht Htm Hdis Hdr Hp. destruct x as [v|p].
  - destruct (retryClaimed_virtual_run v k s Ht Htm Hdis Hdr) as (a & h & s' & E & _ & Hc & He).
    by exists a, h, s'.
  - destruct (retryClaimed_physical_run p k s Ht Hdis Hdr (Hp p eq_refl)) as (a & h & s' & E & Hc & He).
    by exists a, h, s'.
Qed.

Lemma find_due x s : due x s →
  Arr.find (λ d, (dev_id d === dev_id x) && (dev_state d === quarantined)) (devices (sh_registry s)) = Some x.
Proof.
  intros [[Hr _] Hin Hs _ _ _ _]. destruct (Arr.find _ _) as [y|] eqn:E.
  - apply afind_Some in E as [Hy [Hid%bool_decide_eq_true _]%andb_true_iff]. f_equal.
    by eapply (NoDup_fmap_inj_on dev_id); [apply Hr|..].
  - rewrite afind_None in E. specialize (E _ Hin). cbn in E. by rewrite !bool_decide_eq_true_2 in E.
Qed.

Lemma claim_taken_and_released t i o t' k : claims_ok t → tryClaim t i o None = Some (t', k) →
  ∀ t'', t'' = t' ∨ t'' = releaseClaim t' k →
  claims_ok (releaseClaim t'' k) ∧ claims (releaseClaim t'' k) !! i = None.
Proof.
  intros Hok Ht. destruct (tryClaim_ok _ _ _ _ _ _ Hok Ht) as (Hok' & Hh & Hkd & _).
  destruct (releaseClaim_ok _ _ Hok' Hh) as (Hok'' & _ & Hrel & _).
  assert (claims (releaseClaim t' k) !! i = None) as Hnone.
  { unfold releaseClaim, Arr.includes. destruct (co_held _ Hok' _ _ Hh) as (_ & _ & Hnr).
    rewrite bool_decide_eq_false_2 by done. unfold holds. cbn. unfold held in Hh. rewrite Hh.
    rewrite bool_decide_eq_true_2 by done. cbn. rewrite <- Hkd. apply lookup_delete_eq. }
  intros t'' [->| ->]; [done|]. unfold releaseClaim at 1 3, Arr.includes. by rewrite bool_decide_eq_true_2.
Qed.

(** A state in which the retry is over: nobody holds the device, and it stands as [st] says. *)
Record retried x (st : Standing) s : Prop := {
  rt_good : good s;
  rt_free : claims (sh_claims s) !! dev_id x = None;
  rt_running : sh_disposed s = false;
  rt_standing : standing s (dev_id x) = Some st;
  rt_timer state : st = Freed state → sh_timers s !! dev_id x = None;
  rt_held attempts at_ : st = Held attempts at_ → ∃ f, device_of (sh_registry s) (dev_id x) = Some (set_fields f x) }.

Lemma retry_run x s : due x s → (∀ p, x = Physical p → reclaims_ready p) →
  runs_to (retry options hasDriver config probeIntervalMs (dev_id x)) [] s
    (λ h s', Forall (λ c, allowed_call x c.1) h ∧ sh_now s' = sh_now s ∧ retried x (spec_retry x (sh_now s)) s').
Proof using Hret.
  intros Hd Hp. pose proof (find_due x s Hd) as Hf. destruct Hd as [[Hr Hc] Hin Hs Hfree Htm Hrun Hdr].
  unfold runs_to, retry.
  rewrite (execute_bind _ _ _ [] s false [] s) by (rewrite execute_gate; cbn; by rewrite Hrun).
  rewrite (execute_bind _ _ _ [] s (Some x) [] s) by (rewrite execute_gate; cbn -[dev_id dev_state]; by rewrite Hf).
  destruct (tryClaim (sh_claims s) (dev_id x) op_reclaim None) as [[t k]|] eqn:Et.
  2:{ unfold tryClaim in Et. by rewrite Hfree in Et. }
  set (s1 := s <| sh_claims := t |>).
  rewrite (execute_bind _ _ _ [] s (Some k) [] s1) by (rewrite execute_gate; cbn -[dev_id tryClaim]; by rewrite Et).
  rewrite execute_finally by done.
  destruct (retryClaimed_run x k s1) as (a & h & s2 & E & Hcalls & [Eok Enow Edis Ecl Est Etm Eheld]); try done.
  rewrite E. exists a, h, (drop_claim k s2). split; [done|].
  destruct (claim_taken_and_released _ _ _ _ _ Hc Et (sh_claims s2) Ecl) as [Hc' Hfree'].
  split; [done|]. split; [done|].
  split; [by split|done|exact (eq_trans Edis Hrun)|done| |done].
  intros state Hst. cbn. rewrite (Etm state Hst). done.
Qed.

(** One retry of a quarantined device, run to its end, is one step of the abstract quarantine,
    whatever the driver answers. A virtual device is destroyed: a success ends it, a failure counts
    and backs off, and when the retries are used up it is destroyed once more, deleted if that
    works and stranded with no timer if not. A physical device that is not there is only looked for
    again later; one that is there is reclaimed, and is ready again, backs off, or is unenrolled
    when the retries are used up. A physical device is never destroyed and a virtual one never
    reclaimed, and the claim the retry took is released at the end of every path. *)
Theorem quarantine_retry_refines x s : due x s → (∀ p, x = Physical p → reclaims_ready p) →
  ∃ h s', execute answer (retry options hasDriver config probeIntervalMs (dev_id x)) [] s = (Ok tt, h, s')
    ∧ Forall (λ c, allowed_call x c.1) h
    ∧ claims (sh_claims s') !! dev_id x = None
    ∧ standing s' (dev_id x) = Some (spec_retry x (sh_now s)).
Proof using Hret.
  intros Hd Hp. destruct (retry_run x s Hd Hp) as ([] & h & s' & E & Hc & _ & [_ Hf _ Hs _ _]). eauto 8.
Qed.

(** *** Until it is over *)

(** The timer of the device fires when it is due, with nothing else going on. *)
Definition wake (i : string) s : Shared :=
  match sh_timers s !! i with
  | None => s
  | Some at_ =>
      (execute answer (fired options hasDriver config probeIntervalMs i) []
         (s <| sh_now := Z.max at_ (sh_now s) |>)).2
  end.

(** A quarantined device whose timer is running. *)
Record waiting_retry x s : Prop := {
  wr_good : good s;
  wr_in : x ∈ devices (sh_registry s);
  wr_state : dev_state x = quarantined;
  wr_free : claims (sh_claims s) !! dev_id x = None;
  wr_timer : is_Some (sh_timers s !! dev_id x);
  wr_running : sh_disposed s = false;
  wr_driver : hasDriver (dev_platform x) = true }.

Definition is_over x s : Prop :=
  sh_timers s !! dev_id x = None ∧ claims (sh_claims s) !! dev_id x = None
  ∧ (standing s (dev_id x) = Some (Freed deleted)
     ∨ (dev_physical x = true ∧ standing s (dev_id x) = Some (Freed ready))
     ∨ (dev_physical x = false ∧ ∃ attempts, standing s (dev_id x) = Some (Held attempts None)
        ∧ (maxRetries config ≤ attempts)%Z)).

Lemma wake_retried x s : waiting_retry x s → (∀ p, x = Physical p → reclaims_ready p) →
  ∃ now, retried x (spec_retry x now) (wake (dev_id x) s).
Proof using Hret.
  intros [[Hr Hc] Hin Hs Hfree [at_ Ht] Hrun Hdr] Hp. unfold wake. rewrite Ht.
  set (s0 := s <| sh_now := Z.max at_ (sh_now s) |>).
  set (s1 := s0 <| sh_timers := delete (dev_id x) (sh_timers s0) |>).
  destruct (retry_run x s1) as (a & h & s2 & E & _ & _ & Hret'); [|done|].
  { split; try done; [split; [|done]|]; cbn -[dev_id].
    - eapply registry_ok_later; [|exact Hr]. lia.
    - apply lookup_delete_eq. }
  exists (sh_now s1). unfold fired. rewrite (execute_bind _ _ _ [] s0 tt [] s1) by done.
  by rewrite execute_catch, E.
Qed.

(** What a wake leaves: the device waits again with one attempt more, or it is over. *)
Lemma wake_progress x s : waiting_retry x s →
  (∀ p, x = Physical p → present_answer p = true ∧ reclaims_ready p) →
  is_over x (wake (dev_id x) s)
  ∨ ∃ x', waiting_retry x' (wake (dev_id x) s) ∧ dev_id x' = dev_id x ∧ dev_physical x' = dev_physical x
      ∧ attempts_of x' = (attempts_of x + 1)%Z ∧ (attempts_of x' < maxRetries config)%Z.
Proof using Hret.
  intros Hw Hp. destruct (wake_retried x s Hw) as (now & Hr); [intros p Hx; by apply Hp|].
  assert (∀ a at_, spec_retry x now = Held a (Some at_) → ∃ x', waiting_retry x' (wake (dev_id x) s)
    ∧ dev_id x' = dev_id x ∧ dev_physical x' = dev_physical x ∧ attempts_of x' = a) as Hagain.
  { intros a at_ Hst. destruct Hr as [Hg Hf Hrun Hstand _ Hheld].
    destruct (Hheld _ _ Hst) as [f Hx']. rewrite Hst in Hstand. unfold standing in Hstand.
    rewrite Hx' in Hstand. cbn -[attempts_of dev_id set_fields] in Hstand.
    case_bool_decide as Hq; [|done]. injection Hstand as Ha Htm.
    apply (device_of_Some _ _ _ _ (proj1 Hg)) in Hx' as [Hin Hid].
    exists (set_fields f x). rewrite Hid, set_fields_physical. split_and!; try done.
    split; rewrite ?Hid; try done.
    destruct Hw. by destruct x. }
  assert (∀ state, spec_retry x now = Freed state → state = deleted ∨ (dev_physical x = true ∧ state = ready) →
    is_over x (wake (dev_id x) s)) as Hfreed.
  { intros state Hst Hor. destruct Hr as [Hg Hf Hrun Hstand Htm _]. split; [by eapply Htm|]. split; [done|].
    rewrite Hstand, Hst. destruct Hor as [->|[Hph ->]]; [by left|by right; left]. }
  unfold spec_retry, spec_delete, spec_reclaim, retry_again in *. destruct x as [v|p].
  - destruct (first_answer v); [left; eapply Hfreed; [done|by left]|].
    destruct (maxRetries config <=? _)%Z eqn:Em.
    + destruct (second_answer v) as [a|e2]; [left; eapply Hfreed; [done|by left]|].
      left. destruct Hr as [Hg Hf Hrun Hstand Htm Hheld]. apply Z.leb_le in Em.
      destruct (Hheld _ _ eq_refl) as [f Hx']. pose proof Hstand as Hstand'. unfold standing in Hstand'.
      rewrite Hx' in Hstand'. cbn -[attempts_of dev_id set_fields] in Hstand'.
      case_bool_decide; [|done]. injection Hstand' as _ Htm'. split; [done|]. split; [done|].
      right; right. split; [done|]. eauto.
    + apply Z.leb_gt in Em. destruct (Hagain _ _ eq_refl) as (x' & ? & ? & ? & Ha). right. exists x'.
      rewrite Ha. done.
  - destruct (Hp p eq_refl) as [Hpr Hready]. rewrite Hpr in *. cbn [negb] in *.
    destruct (reclaim_answer p) as [a|e] eqn:Er.
    + left. eapply Hfreed; [done|]. right. split; [done|]. by apply Hready.
    + destruct (maxRetries config <=? _)%Z eqn:Em; [left; eapply Hfreed; [done|by left]|].
      apply Z.leb_gt in Em. destruct (Hagain _ _ eq_refl) as (x' & ? & ? & ? & Ha). right. exists x'.
      rewrite Ha. done.
Qed.
End runs.

Section ends.
Context (options : RegistryOptions) (Hret : retention_ok options) (hasDriver : Platform → bool)
  (config : QuarantineRetryConfig) (probeIntervalMs : option Z).
Local Abbreviation driver := (list (DriverCall * result DeviceError DriverAnswer) → DriverCall → result DeviceError DriverAnswer).

(** The timer fires once for each of [answers], the driver's behaviour at that time. *)
Fixpoint wakes (answers : list driver) (i : string) (s : Shared) : Shared :=
  match answers with
  | [] => s
  | answer :: answers => wakes answers i (wake options hasDriver config probeIntervalMs answer i s)
  end.
Lemma wakes_over answers i s : sh_timers s !! i = None → wakes answers i s = s.
Proof.
  intros Ht. revert s Ht. induction answers as [|a l IH]; intros s Ht; cbn; [done|].
  unfold wake at 1. rewrite Ht. auto.
Qed.

(** A physical device is there whenever it is looked for, and a reclaim that works leaves it ready. *)
Definition within_reach (answer : driver) : Prop :=
  ∀ p, present_answer answer p = true ∧ reclaims_ready answer p.

(** C36. Quarantine ends. However the driver answers, a quarantined device is retried at most as
    often as retries are left of the configured number, and at least once: after that many firings
    of its timer a virtual device is deleted, or stays quarantined with no timer for an operator
    to see to, and a physical device that is there each time is ready again or unenrolled. No
    timer is left, nobody holds the device, and further time changes nothing. *)
Theorem quarantine_ends answers x s : waiting_retry hasDriver x s →
  (dev_physical x = true → Forall within_reach answers) →
  (Z.max 1 (maxRetries config - attempts_of x) ≤ Z.of_nat (length answers))%Z →
  is_over config x (wakes answers (dev_id x) s).
Proof using Hret.
  revert x s. induction answers as [|answer answers IH]; intros x s Hw Hph Hlen; cbn -[dev_id] in *; [lia|].
  destruct (wake_progress options Hret hasDriver config probeIntervalMs answer x s Hw)
    as [Hover|(x' & Hw' & Hid & Hp' & Ha & Hlt)].
  - intros p ->. by apply (Forall_inv (Hph eq_refl)).
  - rewrite wakes_over; [done|apply Hover].
  - rewrite <- Hid. assert (is_over config x' (wakes answers (dev_id x')
      (wake options hasDriver config probeIntervalMs answer (dev_id x') s))) as Ho.
    { apply IH; [by rewrite Hid|..].
      - rewrite Hp'. intros H. by eapply Forall_inv_tail, Hph.
      - lia. }
    unfold is_over in *. by rewrite Hid, Hp' in *.
Qed.
End ends.

(** ** A device that failed to boot, quarantined with three retries *)

Definition sample_config : QuarantineRetryConfig := MkRetryConfig 3 10 2 100.
Definition sample_quarantined : Registry := run_commands sample_options
  [(1%Z, CRegister "1" sample_input_device);
   (2%Z, CEnterQuarantine "dev_1" 12 (MkCause delete_failed None None))] empty_registry.
Lemma sample_quarantined_reachable : registry_reachable sample_options sample_quarantined 2.
Proof.
  apply (registry_command _ _ 1 2); [|lia|by vm_compute].
  apply (registry_command _ _ 0 1); [apply registry_start|lia|]. cbn. apply not_elem_of_nil.
Qed.
Definition sample_waiting : Shared :=
  MkShared sample_quarantined no_claims 2 empty_coordinator [] [] [] [] {["dev_1" := 12%Z]} false ∅ [] nothing_acquired.
Definition sample_held : DeviceRecord :=
  default (Virtual (sample_virtual "dev_1" quarantined)) (device_of sample_quarantined "dev_1").
Lemma empty_claims_ok : claims_ok no_claims.
Proof. split; cbn; [intros ??; by rewrite lookup_empty|by intros ? ?%elem_of_nil|intros ????; by rewrite lookup_empty]. Qed.
Lemma sample_waiting_retry : waiting_retry (λ _, true) sample_held sample_waiting.
Proof.
  assert (registry_ok 2 sample_quarantined) as Hr
    by (apply (registry_reachable_ok _ _ _ sample_retention sample_quarantined_reachable)).
  split; [split; [done|apply empty_claims_ok]| |reflexivity|reflexivity|by eexists|reflexivity|reflexivity].
  apply (device_of_Some _ _ _ "dev_1" Hr). by vm_compute.
Qed.

(** A driver that fails every call. *)
Definition broken (_ : list (DriverCall * result DeviceError DriverAnswer)) (_ : DriverCall)
  : result DeviceError DriverAnswer := Err (DriverThrew "Error" "no answer").

Lemma quarantine_ends_witness :
  is_over sample_config sample_held
    (wakes sample_options (λ _, true) sample_config None [broken; broken; broken] "dev_1" sample_waiting).
Proof.
  apply (quarantine_ends sample_options sample_retention (λ _, true) sample_config None
    [broken; broken; broken] sample_held sample_waiting).
  - apply sample_waiting_retry.
  - discriminate.
  - vm_compute. discriminate.
Defined.
Example stranded_in_the_end :
  standing (wakes sample_options (λ _, true) sample_config None [broken; broken; broken] "dev_1" sample_waiting)
    "dev_1" = Some (Held 3 None).
Proof. vm_compute. reflexivity. Qed.

Lemma quarantine_retry_refines_witness :
  let s := sample_waiting <| sh_timers := ∅ |> in
  ∃ h s', execute broken (Quarantine.retry sample_options (λ _, true) sample_config None "dev_1") [] s
      = (Ok tt, h, s') ∧ standing s' "dev_1" = Some (Held 1 (Some 22%Z)).
Proof.
  intros s. destruct (quarantine_retry_refines sample_options sample_retention (λ _, true) sample_config None broken
    sample_held s) as (h & s' & E & _ & _ & Hs).
  - destruct sample_waiting_retry as [Hg Hin Hst Hf _ Hrun Hdr]. by split.
  - discriminate.
  - exists h, s'. split; [exact E|exact Hs].
Defined.
