(* ===== verification/Reclaim.v ===== *)
(** * Reclaim: [src/core/reclaim-coordinator.ts]

    What happens to a device when its lease ends. A virtual device is spent: it is shut down and
    deleted. A physical device is purged and becomes ready again; one that is gone when its purge
    fails is recorded as absent. Every other failure hands the device to quarantine, so that a
    device that was not cleaned is never leased again.

    A wipe that runs in the background is answered as the description of the flow that was started,
    which [wipeInBackground] is. *)
From stdpp Require Import base strings list option numbers gmap pretty.
From S2P Require Import Prelude JsString OsRange AcquisitionState Domain RequestStore Capacity Claims Registry RegistryInv Resolve Flow Devices Effects Quarantine.

Definition strategy_text (s : ReclaimStrategy) : string :=
  match s with
  | strategy_erase => "erase" | strategy_snapshot => "snapshot" | strategy_wipe => "wipe"
  | strategy_uninstall => "uninstall"
  end.

(** A wipe started in the background: the device, the claim it holds and the lease it is for. *)
Record Wipe := MkWipe {
  wi_device : DeviceRecord; wi_claim : DeviceOperationClaim; wi_leaseId : option string }.

Module Reclaim.
Import ManagedDevice.
Section reclaim.
Context (options : RegistryOptions) (hasDriver : Platform → bool) (config : QuarantineRetryConfig)
  (quarantineCauseMessage : string → option string).
(** [Driver.reclaimStrategy], which only says what a reclaim would do. *)
Context (reclaimStrategy : DeviceRecord → ReclaimStrategy).
Local Abbreviation flow_of R := (flow Shared DriverCall DriverAnswer DeviceError R).
Local Abbreviation op A := (action Shared DeviceError A).
Local Abbreviation tell := Quarantine.tell.

Definition recoverPurgeFailure (deviceId : string) (leaseId : option string) (startedAt : Z)
    (attemptedStrategy : AttemptedStrategy) (kind : CauseKind) (error : DeviceError) : flow_of unit :=
  now ← read_now;
  Quarantine.enter options config quarantineCauseMessage
    (MkPurgeFailure deviceId leaseId kind attemptedStrategy (now - startedAt)%Z (stableError error)).

Definition reclaimed_event (device : DeviceRecord) (duration : Z) (result : ReclaimResult)
    : RegistryDeviceEvent :=
  MkDeviceEvent ev_reclaimed (dev_id device)
    (Opaque (pretty duration +:+ " " +:+ strategy_text (rc_strategy result)
             +:+ " " +:+ join "," (default [] (rc_missingApps result)))).
Definition absence_event (device : DeviceRecord) : RegistryDeviceEvent :=
  MkDeviceEvent ev_absence_detected (dev_id device) (Opaque "reclaiming").

(** The reason a device whose reclaim failed is absent, or none when it is there. *)
Definition absence_after (device : PhysicalDevice) : flow_of (option AbsentReason) :=
  try_catch
    (_ ← get_driver hasDriver (ps_platform (p_spec device));
     reads ← PhysicalPresence.readPhysicalPresenceDetail (ps_platform (p_spec device))
       [driverDeviceId (p_fields device)];
     mret match reads !! driverDeviceId (p_fields device) with
          | Some (PhysicalPresence.ReadPresent _) => None
          | Some (PhysicalPresence.ReadAbsent reason) => Some reason
          | None => Some not_present
          end)
    (λ _, mret (Some not_present)).
Definition absentAfterFailure (device : PhysicalDevice) : flow_of bool :=
  absentReason ← absence_after device;
  match absentReason with
  | None => mret false
  | Some reason =>
      _ ← gate (on_registry (λ now, transitionDevice options now (id (p_fields device)) absent
            (Some (absence_event (Physical device))) (no_update <| u_absentReason := Some reason |>)));
      mret true
  end.

Definition purge (device : DeviceRecord) (leaseId : option string) : flow_of unit :=
  _ ← get_driver hasDriver (dev_platform device);
  startedAt ← read_now;
  let attemptedStrategy := tried_strategy (reclaimStrategy device) in
  after (call (CallReclaim device)) (λ answer,
    match answer with
    | Err error =>
        gone ← match device with Physical p => absentAfterFailure p | Virtual _ => mret false end;
        if gone : bool then mret tt
        else recoverPurgeFailure (dev_id device) leaseId startedAt attemptedStrategy purge_failed error
    | Ok a =>
        let result := an_reclaim a in
        _ ← gate (λ s, on_registry (λ now, transitionDevice options now (dev_id device) (rc_state result)
              (Some (reclaimed_event device (sh_now s - startedAt) result)) no_update) s);
        gate (_ ← if dev_physical device && (rc_state result === ready)
                  then tell (EvPhysicalReady (dev_id device)) else mret tt;
              tell EvAvailability)
    end).

Definition unleasedDevice (r : Registry) (deviceId : string) (state : DeviceState) : option VirtualDevice :=
  match Arr.find (λ candidate, v_id candidate === deviceId) (virtualDevices r) with
  | None => None
  | Some current =>
      if (v_state current !== state) || Arr.some (on_device deviceId) (leases r) then None
      else Some current
  end.

Definition deleteSpentDevice (device : VirtualDevice) (initiator : string) : flow_of bool :=
  _ ← get_driver hasDriver (vs_platform (v_spec device));
  _ ← call (CallDestroy device);
  removed ← gate (
    s ← get;
    match unleasedDevice (sh_registry s) (v_id device) Domain.shutdown with
    | None => mret false
    | Some _ =>
        _ ← on_registry (λ now, transitionDevice options now (v_id device) deleted
              (Some (deleted_event device initiator)) no_update);
        mret true
    end);
  if removed : bool then _ ← gate (tell EvAvailability); mret true else mret false.

Definition retireSpent (device : VirtualDevice) (lease : LeaseRecord) : flow_of unit :=
  _ ← get_driver hasDriver (vs_platform (v_spec device));
  startedAt ← read_now;
  let failed kind error :=
    recoverPurgeFailure (v_id device) (Some (l_id lease)) startedAt tried_delete kind error in
  after (call (CallShutdown device)) (λ answer,
    match answer with
    | Err error => failed shutdown_failed error
    | Ok _ =>
        stopped ← gate (d ← on_registry (λ now, completeReclaimWithoutPurge options now (v_id device));
                        as_virtual d);
        _ ← gate (tell EvAvailability);
        try_catch (_ ← deleteSpentDevice stopped "lease-end"; mret tt) (failed delete_failed)
    end).

Definition reclaim (released : ReleasedLease) : flow_of unit :=
  match rl_device released with
  | Physical p => purge (Physical p) (Some (l_id (rl_lease released)))
  | Virtual v => retireSpent v (rl_lease released)
  end.

(** The spent path with the driver's copy in place of the shutdown; [afterSave] commits the
    baseline before the device is destroyed. *)
Definition retireSaved (device : VirtualDevice) (lease : LeaseRecord)
    (afterSave : SavedSource → flow_of unit) : flow_of SavedSource :=
  _ ← get_driver hasDriver (vs_platform (v_spec device));
  startedAt ← read_now;
  let failed kind error :=
    recoverPurgeFailure (v_id device) (Some (l_id lease)) startedAt tried_delete kind error in
  saved ← after (call (CallSaveSource device)) (λ answer,
    match answer with
    | Err error => _ ← failed shutdown_failed error; fail error
    | Ok a => mret (an_saved a)
    end);
  stopped ← gate (d ← on_registry (λ now, completeReclaimWithoutPurge options now (v_id device));
                  as_virtual d);
  _ ← gate (tell EvAvailability);
  _ ← afterSave saved;
  _ ← try_catch (_ ← deleteSpentDevice stopped "baseline-save"; mret tt) (failed delete_failed);
  mret saved.

Definition deleteSpent (deviceId : string) : flow_of bool :=
  device ← gate (
    s ← get;
    mret match unleasedDevice (sh_registry s) deviceId Domain.shutdown with
         | Some current => if mayBeGranted (Virtual current) then None else Some current
         | None => None
         end);
  match device with None => mret false | Some device => deleteSpentDevice device "lease-end" end.

(** *** Background wipes *)

Definition wipeInBackground (w : Wipe) : flow_of unit :=
  after (purge (wi_device w) (wi_leaseId w)) (λ _,
    gate (_ ← Quarantine.on_release (wi_claim w); tell EvAvailability)).

Definition physicalDevice (r : Registry) (i : string) : option PhysicalDevice :=
  match Arr.find (λ d, dev_physical d && ((dev_id d === i) || (driverDeviceId (dev_fields d) === i)))
          (devices r) with
  | Some (Physical p) => Some p
  | _ => None
  end.

Definition beginReturned (deviceId : string) (osVersion : option string) (proceed : Shared → bool)
    : op (option PhysicalDevice) :=
  s ← get;
  match physicalDevice (sh_registry s) deviceId with
  | None => mret None
  | Some current =>
      if negb (proceed s) then mret None else
      let i := id (p_fields current) in
      match osVersion with
      | None =>
          mret (if (p_state current === reclaiming) && negb (Arr.some (on_device i) (leases (sh_registry s)))
                then Some current else None)
      | Some version =>
          if p_state current !== absent then mret None else
          returned ← on_registry (λ now, transitionDevice options now i reclaiming
            (Some (MkDeviceEvent ev_returned i (Opaque version)))
            (no_update <| u_osVersion := Some version |>));
          mret match returned with Physical p => Some p | Virtual _ => None end
      end
  end.

Definition reclaimReturned (deviceId : string) (osVersion : option string) (proceed : Shared → bool)
    : flow_of (option Wipe) :=
  known ← gate (λ s,
    match physicalDevice (sh_registry s) deviceId with
    | None => (s, Ok None)
    | Some p =>
        match tryClaim (sh_claims s) (id (p_fields p)) op_reclaim None with
        | None => (s, Ok None)
        | Some (t, claim) => (s <| sh_claims := t |>, Ok (Some (p, claim)))
        end
    end);
  match known with
  | None => mret None
  | Some (p, claim) =>
      after (gate (beginReturned (id (p_fields p)) osVersion proceed)) (λ r,
        match r with
        | Ok (Some device) => mret (Some (MkWipe (Physical device) claim None))
        | Ok None => _ ← gate (Quarantine.on_release claim); mret None
        | Err e => _ ← gate (Quarantine.on_release claim); fail e
        end)
  end.

(** A virtual device left in [reclaiming] by a stop: its wipe starts, or it is shut down. *)
Definition interrupted (r : Registry) (deviceId : string) : option VirtualDevice :=
  unleasedDevice r deviceId reclaiming.
Definition recoverInterrupted (deviceId : string) : flow_of (bool * option Wipe) :=
  found ← gate (s ← get; mret (interrupted (sh_registry s) deviceId));
  match found with
  | None => mret (false, None)
  | Some device =>
      match deferredReclaimLeaseId (v_fields device), mayBeGranted (Virtual device) with
      | Some leaseId, true =>
          taken ← gate (λ s,
            match tryClaim (sh_claims s) (v_id device) op_reclaim None with
            | None => (s, Ok None)
            | Some (t, claim) => (s <| sh_claims := t |>, Ok (Some claim))
            end);
          mret match taken with
               | None => (false, None)
               | Some claim => (true, Some (MkWipe (Virtual device) claim (Some leaseId)))
               end
      | _, _ =>
          _ ← get_driver hasDriver (vs_platform (v_spec device));
          _ ← call (CallShutdown device);
          recovered ← gate (
            s ← get;
            match interrupted (sh_registry s) deviceId with
            | None => mret false
            | Some _ =>
                _ ← on_registry (λ now, completeReclaimWithoutPurge options now deviceId);
                _ ← tell (EvShutdown deviceId "startup-interrupted-reclaim");
                mret true
            end);
          if recovered : bool then _ ← gate (tell EvAvailability); mret (true, None)
          else mret (false, None)
      end
  end.
End reclaim.
End Reclaim.

(** ** How a reclaim ends *)

(** The state a reclaim leaves a device in, and the cause when it is quarantined. *)
Definition spec_retire (stopped destroyed : result DeviceError DriverAnswer) : DeviceState * option CauseKind :=
  match stopped, destroyed with
  | Err _, _ => (quarantined, Some shutdown_failed)
  | Ok _, Err _ => (quarantined, Some delete_failed)
  | Ok _, Ok _ => (deleted, None)
  end.
Definition spec_purge (reclaimed : result DeviceError DriverAnswer) (absence : option AbsentReason)
    : DeviceState * option CauseKind :=
  match reclaimed, absence with
  | Ok _, _ => (ready, None)
  | Err _, Some _ => (absent, None)
  | Err _, None => (quarantined, Some purge_failed)
  end.

Ltac not_in_calls := unfold listed; rewrite ?elem_of_cons, ?elem_of_nil; intuition congruence.

Section runs.
Context (options : RegistryOptions) (Hret : retention_ok options) (hasDriver : Platform → bool)
  (config : QuarantineRetryConfig) (quarantineCauseMessage : string → option string)
  (reclaimStrategy : DeviceRecord → ReclaimStrategy).
Import ManagedDevice Reclaim.
Local Abbreviation history := (list (DriverCall * result DeviceError DriverAnswer)).
Context (answer : history → DriverCall → result DeviceError DriverAnswer).
Implicit Types (s : Shared) (x : DeviceRecord) (h : history).

(** A device whose reclaim is to run: recorded as such, and nobody's. *)
Record being_reclaimed x s : Prop := {
  br_good : good s;
  br_in : x ∈ devices (sh_registry s);
  br_state : dev_state x = reclaiming;
  br_running : sh_disposed s = false;
  br_driver : hasDriver (dev_platform x) = true }.

(** The device is left in a state, with the cause and a timer when it is quarantined; the claims
    are as they were. *)
Record settles x (outcome : DeviceState * option CauseKind) s s' : Prop := {
  se_good : good s';
  se_claims : sh_claims s' = sh_claims s;
  se_record : ∃ x', device_of (sh_registry s') (dev_id x) = Some x' ∧ dev_state x' = outcome.1
    ∧ (outcome.2 ≠ None → qc_kind <$> quarantineCause (dev_fields x') = outcome.2 ∧ attempts_of x' = 0%Z
       ∧ sh_timers s' !! dev_id x = Some (Z.max (sh_now s + retryBackoffMs config) (sh_now s))) }.

Lemma unleased_reclaiming t r x : registry_ok t r → x ∈ devices r → dev_state x ≠ leased →
  unleased r (dev_id x) = true.
Proof.
  intros Hr Hx Hs. unfold unleased. apply negb_true_iff. destruct (Arr.some _ _) eqn:E; [|done]. exfalso. apply Hs.
  apply asome_true in E as (l & Hl & Hon%bool_decide_eq_true).
  assert (dev_id x ∈ l_deviceId <$> leases r) as Hin by (apply list_elem_of_fmap; by exists l).
  apply (do_leased _ _ _ _ _ (ro_data _ _ Hr)) in Hin as (y & Hy & Hid & Hys).
  assert (y = x) as ->; [|done]. by eapply (NoDup_fmap_inj_on dev_id); [apply Hr|..].
Qed.

Lemma enter_run failure x h s : pf_deviceId failure = dev_id x → good s → x ∈ devices (sh_registry s) →
  dev_state x = reclaiming ∨ (dev_physical x = false ∧ (dev_state x = provisioning ∨ dev_state x = Domain.shutdown)) →
  sh_disposed s = false →
  ∃ s', execute answer (Quarantine.enter options config quarantineCauseMessage failure) h s = (Ok tt, h, s')
    ∧ sh_now s' = sh_now s ∧ settles x (quarantined, Some (pf_kind failure)) s s'.
Proof using Hret.
  intros Hid [Hr Hc] Hin Hst Hdis.
  set (cause := MkCause (pf_kind failure) None (quarantineCauseMessage (pf_error failure))).
  destruct (enter_quarantine_run options Hret (sh_now s) (sh_registry s) x (sh_now s + retryBackoffMs config) cause Hr Hin Hst)
    as (r' & x' & E & Hr' & Hch & Hst' & Ha & _ & Hcause).
  assert (∃ l, execute answer (Quarantine.enter options config quarantineCauseMessage failure) h s
    = (Ok tt, h, (Quarantine.arm (dev_id x) (sh_now s + retryBackoffMs config)
         (s <| sh_registry := r' |> <| sh_emitted := l |>)).1)) as [l Hrun].
  { unfold Quarantine.enter. rewrite (execute_bind _ _ _ _ _ _ _ _ (execute_read_now _ h s)).
    fold cause. rewrite Hid.
    destruct (pf_leaseId failure) as [leaseId|]; eexists;
      (erewrite execute_bind;
        [rewrite execute_gate; reflexivity|rewrite execute_gate; unfold mbind, action_bind, on_registry; rewrite E; reflexivity]). }
  eexists. split; [exact Hrun|].
  cbn -[dev_id]. rewrite Hdis. split; [done|]. split; cbn -[dev_id]; [by split|done|].
    destruct Hch as [_ Hin' Hid' _ _ _]. exists x'. split; [by apply (device_of_Some _ _ _ _ Hr')|].
    split; [done|]. intros _. rewrite Hcause. split; [done|]. split; [unfold attempts_of; by rewrite Ha|].
    apply lookup_insert_eq.
Qed.

(** A settlement seen from an earlier state with the same clock and claims. *)
Lemma settles_from x y outcome s1 s s' : settles x outcome s1 s' → dev_id y = dev_id x → sh_now s1 = sh_now s →
  sh_claims s1 = sh_claims s → settles y outcome s s'.
Proof. intros [Hg Hc Hrec] Hid Hn Hcl. split; [done|congruence|]. rewrite Hid. by rewrite <- Hn. Qed.

Lemma failed_run x y h s leaseId startedAt strategy kind error : dev_id y = dev_id x → good s →
  y ∈ devices (sh_registry s) →
  dev_state y = reclaiming ∨ (dev_physical y = false ∧ (dev_state y = provisioning ∨ dev_state y = Domain.shutdown)) →
  sh_disposed s = false →
  ∃ s', execute answer (recoverPurgeFailure options config quarantineCauseMessage (dev_id x) leaseId startedAt
      strategy kind error) h s = (Ok tt, h, s') ∧ settles x (quarantined, Some kind) s s'.
Proof using Hret.
  intros Hid Hg Hin Hst Hdis. unfold recoverPurgeFailure.
  rewrite (execute_bind _ _ _ _ _ _ _ _ (execute_read_now _ h s)).
  destruct (enter_run (MkPurgeFailure (dev_id x) leaseId kind strategy (sh_now s - startedAt)%Z (stableError error)) y h s)
    as (s' & E & _ & Hs); try done. exists s'. split; [exact E|]. by eapply settles_from.
Qed.

(** The delete of a spent device that is recorded as shut down; [y] is its record. *)
Lemma deleteSpentDevice_run w y x h s : good s → Virtual y ∈ devices (sh_registry s) → v_state y = Domain.shutdown →
  v_id y = v_id w → hasDriver (vs_platform (v_spec w)) = true → dev_id x = v_id w →
  let a := answer h (CallDestroy w) in
  ∃ s', execute answer (deleteSpentDevice options hasDriver w "lease-end") h s
      = (match a with Ok _ => Ok true | Err e => Err e end, h ++ [(CallDestroy w, a)], s')
    ∧ match a with Ok _ => settles x (deleted, None) s s' | Err _ => s' = s end.
Proof using Hret.
  intros [Hr Hc] Hin Hst Hy Hdr Hid a. unfold deleteSpentDevice.
  rewrite (execute_bind _ _ _ _ _ _ _ _ (execute_driver _ _ _ h s Hdr)).
  destruct a as [b|e] eqn:Ea; unfold a in Ea.
  2:{ exists s. split; [|done]. apply execute_bind_Err. by rewrite execute_call, Ea. }
  assert (unleased (sh_registry s) (v_id y) = true) as Hun
    by (apply (unleased_reclaiming _ _ (Virtual y) Hr Hin); cbn; by rewrite Hst).
  destruct (transition_run options Hret (sh_now s) (sh_registry s) (Virtual y) deleted
    (deleted_event w "lease-end") no_update Hr Hin) as (r' & x' & E & Hr' & [_ Hin' Hid' _ _ _] & Hst');
    try (by cbn; rewrite ?Hst).
  assert (unleasedDevice (sh_registry s) (v_id w) Domain.shutdown = Some y) as Hu.
  { unfold unleasedDevice. pose proof (proj2 (find_virtual_Some _ _ y (v_id w) Hr) (conj Hin Hy)) as Hf.
    unfold find_virtual in Hf. rewrite Hf, Hst. unfold unleased in Hun. apply negb_true_iff in Hun.
    rewrite Hy in Hun. by rewrite Hun. }
  set (s1 := s <| sh_registry := r' |>).
  rewrite (execute_bind _ _ _ h s b (h ++ [(CallDestroy w, Ok b)]) s) by (by rewrite execute_call, Ea).
  rewrite (execute_bind _ _ _ _ s true (h ++ [(CallDestroy w, Ok b)]) s1).
  2:{ rewrite execute_gate. unfold mbind, action_bind, get. cbv beta iota. rewrite Hu. unfold on_registry.
      rewrite <- Hy. change (v_id y) with (dev_id (Virtual y)). rewrite E. reflexivity. }
  eexists. split; [reflexivity|]. split; [by split|done|]. exists x'. cbn -[dev_id].
  split; [|by split]. apply (device_of_Some _ _ _ _ Hr'). split; [done|]. rewrite Hid', Hid. done.
Qed.

Lemma retireSpent_run v lease s : being_reclaimed (Virtual v) s →
  let stopped := answer [] (CallShutdown v) in
  ∃ w h s', execute answer (retireSpent options hasDriver config quarantineCauseMessage v lease) [] s = (Ok tt, h, s')
    ∧ v_id w = v_id v ∧ driverDeviceId (v_fields w) = driverDeviceId (v_fields v)
    ∧ let destroyed := answer [(CallShutdown v, stopped)] (CallDestroy w) in
      settles (Virtual v) (spec_retire stopped destroyed) s s'
      ∧ h = (CallShutdown v, stopped) :: match stopped with Ok _ => [(CallDestroy w, destroyed)] | Err _ => [] end.
Proof using Hret.
  intros [[Hr Hc] Hin Hst Hdis Hdr] stopped. unfold retireSpent.
  rewrite (execute_bind _ _ _ _ _ _ _ _ (execute_driver _ _ _ [] s Hdr)).
  rewrite (execute_bind _ _ _ _ _ _ _ _ (execute_read_now _ [] s)), execute_after, execute_call.
  fold stopped. destruct stopped as [a|e].
  2:{ destruct (failed_run (Virtual v) (Virtual v) ([] ++ [(CallShutdown v, Err e)]) s (Some (l_id lease)) (sh_now s) tried_delete
        shutdown_failed e) as (s' & E & Hs); try done; [by left|].
      exists v, [(CallShutdown v, Err e)], s'. split; [exact E|]. by split_and!. }
  destruct (complete_reclaim_run options Hret (sh_now s) (sh_registry s) (Virtual v) Hr Hin Hst eq_refl)
    as (r' & x' & E & Hr' & [_ Hin' Hid' Hph' _ _] & Hst' & Hph & Hid & Hdd & Hsp).
  destruct x' as [w|p]; [|done]. destruct (settle_device_spec (sh_now s) (Virtual w)) as (_ & Sst & _).
  destruct (settle_device (sh_now s) (Virtual w)) as [y|]; [|done].
  set (s1 := s <| sh_registry := r' |> ). set (s2 := s1 <| sh_emitted := sh_emitted s1 ++ [EvAvailability] |>).
  rewrite (execute_bind _ _ _ _ s w ([] ++ [(CallShutdown v, Ok a)]) s1).
  2:{ rewrite execute_gate. unfold mbind, action_bind, on_registry. change (v_id v) with (dev_id (Virtual v)).
      rewrite E. reflexivity. }
  rewrite (execute_bind _ _ _ _ s1 tt ([] ++ [(CallShutdown v, Ok a)]) s2) by done.
  destruct (deleteSpentDevice_run w y (Virtual v) ([] ++ [(CallShutdown v, Ok a)]) s2) as (s3 & E3 & Hs3); try done.
  { cbn in Sst, Hst'. congruence. } { unfold dev_id, v_id in *. cbn in *. congruence. }
  { injection Hsp as ->. exact Hdr. }
  rewrite execute_catch. unfold mbind, flow_bind. rewrite execute_after, E3. fold s2.
  exists w. cbn [app] in *. set (destroyed := answer [(CallShutdown v, Ok a)] (CallDestroy w)) in *.
  destruct destroyed as [b|e].
  - eexists _, _. split; [reflexivity|]. split_and!; try done. by eapply settles_from.
  - rewrite Hs3. destruct (failed_run (Virtual v) (Virtual y) [(CallShutdown v, Ok a); (CallDestroy w, Err e)] s2
      (Some (l_id lease)) (sh_now s) tried_delete delete_failed e) as (s4 & E4 & Hs4); try done.
    { right. split; [done|]. right. cbn in Sst, Hst'. cbn. congruence. }
    eexists _, _. split; [exact E4|]. split_and!; try done. by eapply settles_from.
Qed.

(** What a presence read says of a device after the calls [h]. *)
Definition absence_read h p : option AbsentReason :=
  match answer h (listed p) with
  | Ok a =>
      match PhysicalPresence.reads [driverDeviceId (p_fields p)] (an_present a) !! driverDeviceId (p_fields p) with
      | Some (PhysicalPresence.ReadPresent _) => None
      | Some (PhysicalPresence.ReadAbsent reason) => Some reason
      | None => Some not_present
      end
  | Err _ => Some not_present
  end.

Lemma absence_after_run p h s : hasDriver (ps_platform (p_spec p)) = true →
  ∃ l, execute answer (absence_after hasDriver p) h s
    = (Ok (absence_read h p), h ++ [(listed p, answer h (listed p))], s <| sh_presence := l |>).
Proof.
  intros Hdr. unfold absence_after, PhysicalPresence.readPhysicalPresenceDetail. rewrite execute_catch.
  rewrite (execute_bind _ _ _ _ _ _ _ _ (execute_driver _ _ _ h s Hdr)).
  unfold mbind, flow_bind. rewrite !execute_after, execute_call.
  change (CallListPresent _ _) with (listed p). unfold absence_read.
  destruct (answer h (listed p)) as [a|e].
  - eexists. rewrite execute_gate. cbn -[PhysicalPresence.reads lookup listed PhysicalPresence.remember].
    destruct (_ !! _) as [[]|]; reflexivity.
  - exists (sh_presence s). by destruct s.
Qed.

Definition purges_ready p : Prop :=
  ∀ a, answer [] (CallReclaim (Physical p)) = Ok a → rc_state (an_reclaim a) = ready.

Lemma purge_run p leaseId s : being_reclaimed (Physical p) s → purges_ready p →
  let reclaimed := answer [] (CallReclaim (Physical p)) in
  let h := [(CallReclaim (Physical p), reclaimed)] in
  ∃ h' s', execute answer (purge options hasDriver config quarantineCauseMessage reclaimStrategy (Physical p) leaseId) [] s
      = (Ok tt, h', s')
    ∧ settles (Physical p) (spec_purge reclaimed (absence_read h p)) s s'
    ∧ h' = h ++ match reclaimed with Ok _ => [] | Err _ => [(listed p, answer h (listed p))] end.
Proof using Hret.
  intros [[Hr Hc] Hin Hst Hdis Hdr] Hready reclaimed h. unfold purge. cbn -[dev_id] in Hst.
  rewrite (execute_bind _ _ _ _ _ _ _ _ (execute_driver _ _ _ [] s Hdr)).
  rewrite (execute_bind _ _ _ _ _ _ _ _ (execute_read_now _ [] s)), execute_after, execute_call.
  assert (unleased (sh_registry s) (dev_id (Physical p)) = true) as Hun
    by (apply (unleased_reclaiming _ _ (Physical p) Hr Hin); cbn; by rewrite Hst).
  fold reclaimed. unfold purges_ready in Hready. fold reclaimed in Hready. destruct reclaimed as [a|e]; cbn [app].
  - specialize (Hready a eq_refl).
    destruct (transition_run options Hret (sh_now s) (sh_registry s) (Physical p) ready
      (reclaimed_event (Physical p) (sh_now s - sh_now s) (an_reclaim a)) no_update Hr Hin)
      as (r' & x' & E & Hr' & [_ Hin' Hid' _ _ _] & Hst'); try (by cbn; rewrite ?Hst).
    set (s1 := s <| sh_registry := r' |>).
    rewrite (execute_bind _ _ _ _ s x' [(CallReclaim (Physical p), Ok a)] s1).
    2:{ rewrite execute_gate, Hready. unfold on_registry. rewrite E. reflexivity. }
    rewrite execute_gate, Hready. eexists _, _. split; [reflexivity|]. split; [|done].
    split; [by split|done|]. exists x'. split; [by apply (device_of_Some _ _ _ _ Hr')|by split].
  - unfold absentAfterFailure. destruct (absence_after_run p h s Hdr) as [l Habs].
    set (s1 := s <| sh_presence := l |>) in *.
    destruct (absence_read h p) as [reason|].
    + destruct (transition_run options Hret (sh_now s) (sh_registry s) (Physical p) absent
        (absence_event (Physical p)) (no_update <| u_absentReason := Some reason |>) Hr Hin)
        as (r' & x' & E & Hr' & [_ Hin' Hid' _ _ _] & Hst'); try (by cbn; rewrite ?Hst).
      set (s2 := s1 <| sh_registry := r' |>).
      rewrite (execute_bind _ _ _ _ s true (h ++ [(listed p, answer h (listed p))]) s2).
      2:{ rewrite (execute_bind _ _ _ _ _ _ _ _ Habs).
          rewrite (execute_bind _ _ _ _ s1 x' (h ++ [(listed p, answer h (listed p))]) s2); [done|].
          rewrite execute_gate. unfold on_registry. change (id (p_fields p)) with (dev_id (Physical p)).
          change (sh_registry s1) with (sh_registry s). change (sh_now s1) with (sh_now s). rewrite E. reflexivity. }
      eexists _, _. split; [reflexivity|]. split; [|done].
      split; [by split|done|]. exists x'. split; [by apply (device_of_Some _ _ _ _ Hr')|by split].
    + rewrite (execute_bind _ _ _ _ s false (h ++ [(listed p, answer h (listed p))]) s1).
      2:{ rewrite (execute_bind _ _ _ _ _ _ _ _ Habs). done. }
      destruct (failed_run (Physical p) (Physical p) (h ++ [(listed p, answer h (listed p))]) s1 leaseId (sh_now s)
        (tried_strategy (reclaimStrategy (Physical p))) purge_failed e) as (s' & E & Hs); try done; [by left|].
      eexists _, _. split; [exact E|]. split; [|done]. by eapply settles_from.
Qed.

(** C37. The reclaim of a device whose lease ended settles it, whatever the driver answers. A virtual
    device is shut down and then destroyed, and ends deleted exactly when both worked. A physical
    device ends ready exactly when its reclaim worked; when it failed and the device is gone it
    ends absent. In every other case the device ends quarantined, with the cause that names the
    step that failed, no attempt counted and a retry scheduled after the configured delay. A
    device that was not cleaned is never left where a lease could be granted on it. *)
Theorem reclaim_settles released s : being_reclaimed (rl_device released) s →
  (∀ p, rl_device released = Physical p → purges_ready p) →
  ∃ h s', execute answer (reclaim options hasDriver config quarantineCauseMessage reclaimStrategy released) [] s
      = (Ok tt, h, s')
    ∧ match rl_device released with
      | Virtual v => ∃ w, v_id w = v_id v ∧ driverDeviceId (v_fields w) = driverDeviceId (v_fields v)
          ∧ let stopped := answer [] (CallShutdown v) in
            let destroyed := answer [(CallShutdown v, stopped)] (CallDestroy w) in
            settles (Virtual v) (spec_retire stopped destroyed) s s'
            ∧ h = (CallShutdown v, stopped) :: match stopped with Ok _ => [(CallDestroy w, destroyed)] | Err _ => [] end
      | Physical p =>
          let reclaimed := answer [] (CallReclaim (Physical p)) in
          settles (Physical p) (spec_purge reclaimed (absence_read [(CallReclaim (Physical p), reclaimed)] p)) s s'
          ∧ ∀ d, (CallDestroy d) ∉ h.*1
      end.
Proof using Hret.
  intros Hb Hp. unfold reclaim. destruct released as [[v|p] lease]; cbn [rl_device rl_lease] in *.
  - destruct (retireSpent_run v lease s Hb) as (w & h & s' & E & Hid & Hdd & Hs & Hh). exists h, s'. eauto 8.
  - destruct (purge_run p (Some (l_id lease)) s Hb (Hp p eq_refl)) as (h & s' & E & Hs & ->).
    eexists _, s'. split; [exact E|]. split; [done|]. intros d.
    destruct (answer [] (CallReclaim (Physical p))); cbn; not_in_calls.
Qed.
End runs.

(** ** A device whose lease was released, and a driver that cannot shut it down *)

Definition sample_released : Registry :=
  (perform sample_options 9 (CBeginRelease "lse_1" false) sample_registry).1.
Lemma sample_released_ok : registry_ok 9 sample_released.
Proof.
  apply (registry_reachable_ok sample_options _ _ sample_retention).
  apply (registry_command _ _ 4 9); [apply sample_reachable|lia|by vm_compute].
Qed.
Definition released_shared : Shared :=
  MkShared sample_released no_claims 9 empty_coordinator [] [] [] [] ∅ false ∅ [] nothing_acquired.
Definition released_device : DeviceRecord :=
  default (Virtual (sample_virtual "dev_1" reclaiming)) (device_of sample_released "dev_1").
Definition sample_lease : LeaseRecord := MkLease "lse_1" "dev_1" "agent" "owner" 4 100 104 4 false.

Lemma released_is_virtual : ∃ v, released_device = Virtual v.
Proof. eexists. by vm_compute. Qed.
Lemma released_being_reclaimed : being_reclaimed (λ _, true) released_device released_shared.
Proof.
  split; [split; [apply sample_released_ok|apply empty_claims_ok]| |by vm_compute|reflexivity..].
  apply (device_of_Some _ _ _ "dev_1" sample_released_ok). by vm_compute.
Qed.

Lemma reclaim_settles_witness :
  ∃ h s', execute broken (Reclaim.reclaim sample_options (λ _, true) sample_config Some (λ _, strategy_erase)
      (MkReleased released_device sample_lease)) [] released_shared = (Ok tt, h, s')
    ∧ settles sample_config released_device (quarantined, Some shutdown_failed) released_shared s'.
Proof.
  pose proof released_being_reclaimed as Hb. destruct released_is_virtual as [v Ev]. rewrite Ev in Hb |- *.
  generalize released_shared, Hb. intros s Hs0.
  destruct (reclaim_settles sample_options sample_retention (λ _, true) sample_config Some (λ _, strategy_erase) broken
    (MkReleased (Virtual v) sample_lease) s Hs0) as (h & s' & E & w & _ & _ & Hs & _).
  - discriminate.
  - exists h, s'. split; [exact E|exact Hs].
Defined.
