(* ===== verification/Provision.v ===== *)
(** * Provisioning: [src/core/device-provisioner.ts]

    A new device from a request's spec to a ready device handed over: the claim on the component it
    is made from and the hold on the baseline version it copies, the driver's work, the record with
    its boot claim, and the boot, with the capacity reservation it was lent. The claims of the
    component installer and the holds of the baselines ([src/core/component-installer.ts],
    [src/core/baselines.ts]) are counts by key, kept as lists with one entry for each count. *)
From stdpp Require Import base strings list option numbers gmap pretty.
From S2P Require Import Prelude JsString OsRange AcquisitionState Domain RequestStore Capacity Claims WaitQueue Registry RegistryInv Resolve Flow Devices.

(** ** Counts *)

(** One count of a key less; nothing when there is none. *)
Definition remove_one {A} `{EqDecision A} (x : A) (l : list A) : list A :=
  match Arr.findIndex (λ y, y === x) l with Some i => Arr.removeAt i l | None => l end.

(** [SELECT * FROM baselines WHERE name = ? ORDER BY version DESC LIMIT 1] *)
Definition current_baseline (rows : list CurrentBaseline) (name : string) : option CurrentBaseline :=
  head (sort_by (λ a b, cb_version b - cb_version a)%Z (Arr.filter (λ b, cb_name b === name) rows)).

(** A timeout stays a plain timeout; any other failure carries its message. *)
Definition BootTimeoutError_from (deviceId : string) (e : DeviceError) : DeviceError :=
  BootTimeout deviceId match e with BootTimeout _ _ => None | e => Some (device_error_message e) end.

Module Provisioner.
Section provisioner.
(** [generate] is the id generator; [estimate] a driver's estimate of an operation on a spec. *)
Context (options : RegistryOptions) (hasDriver : Platform → bool)
  (estimate : Platform → EstimateOperation → DeviceSpec → Z) (generate : Shared → string).
Local Abbreviation flow_of R := (flow Shared DriverCall DriverAnswer DeviceError R).
Local Abbreviation op A := (action Shared DeviceError A).
Import ManagedDevice.

(** [claimProvision] of the component installer, and the release it answers, which the provisioner
    calls once. *)
Definition component_of (spec : VirtualSpec) : Platform * string := (vs_platform spec, vs_osVersion spec).
Definition claimProvision (spec : VirtualSpec) : op unit :=
  s ← get;
  if Arr.includes (component_of spec) (sh_removing s)
  then throw (ComponentBeingRemovedError (vs_platform spec) (vs_osVersion spec))
  else modify (λ s, s <| sh_provisioning := component_of spec :: sh_provisioning s |>).
Definition release_component (spec : VirtualSpec) : op unit :=
  modify (λ s, s <| sh_provisioning := remove_one (component_of spec) (sh_provisioning s) |>).

(** [hold] of the baselines, and the release it answers. *)
Definition hold (key : string * Z) : op unit :=
  modify (λ s, s <| sh_holds := key :: sh_holds s |>).
Definition drop_hold (key : option (string * Z)) : op unit :=
  match key with
  | None => mret tt
  | Some key => modify (λ s, s <| sh_holds := remove_one key (sh_holds s) |>)
  end.

Definition free (r : CapacityReservation) : op unit :=
  modify (λ s, s <| sh_capacity := Capacity.release r (sh_capacity s) |>).

(** The spec to make, the source to copy and the version held for it. *)
Record Made := MkMade { md_spec : VirtualSpec; md_source : option string; md_hold : option (string * Z) }.

Definition claim_made (requested : VirtualSpec) : op Made :=
  _ ← claimProvision requested;
  match vs_baseline requested with
  | None => mret (MkMade requested None None)
  | Some baseline =>
      s ← get;
      match current_baseline (sh_baselines s) (bl_name baseline) with
      | None =>
          _ ← release_component requested;
          throw (UnknownBaselineError (bl_name baseline))
      | Some current =>
          let version := (cb_name current, cb_version current) in
          _ ← hold version;
          mret (MkMade (requested <| vs_baseline := Some (MkBaseline (cb_name current) (cb_version current)) |>)
                  (Some (cb_sourceId current)) (Some version))
      end
  end.

(** The [claim] of [ProvisionDeviceOptions]: whether a boot claim is taken, and whose. *)
Abbreviation BootClaim := (option (option string)).

Definition register_device (made : DriverDevice) (spec : VirtualSpec) (startedAt : Z) (claim : BootClaim)
    : op (VirtualDevice * option DeviceOperationClaim) :=
  s ← get;
  d ← on_registry (λ now, registerDevice options now (generate s)
        (MkRegister (dd_deviceId made) spec (dd_driverData made) (now - startedAt)));
  device ← as_virtual d;
  match claim with
  | None => mret (device, None)
  | Some owner =>
      s ← get;
      match tryClaim (sh_claims s) (v_id device) op_boot owner with
      | None => mret (device, None)
      | Some (t, k) => _ ← modify (λ s, s <| sh_claims := t |>); mret (device, Some k)
      end
  end.
(** The section's [finally]: the component's claim and the hold end, returned or thrown. *)
Definition register (device : DriverDevice) (requested : VirtualSpec) (made : Made) (startedAt : Z)
    (claim : BootClaim) : op (VirtualDevice * option DeviceOperationClaim) := λ s,
  let '(s, r) := register_device device (md_spec made) startedAt claim s in
  (((_ ← release_component requested; drop_hold (md_hold made)) s).1, r).

(** [onProgress] is the caller's; it reads and changes what the caller keeps. *)
Context (onProgress : LeaseProgress → op unit).

(** A device that cannot be made ready is destroyed, and the reservation ends on every path. *)
Definition makeReady (device : VirtualDevice) (bootClaim : option DeviceOperationClaim) (bootEstimate : Z)
    (except : option (list string)) (reservation : CapacityReservation) : flow_of ReadyDeviceHandoff :=
  finally
    (try_catch
      (_ ← gate (onProgress (ProgressBooting bootEstimate));
       ready ← readyProvisionedForLease options hasDriver device bootClaim except;
       match ready with
       | None => fail (PlainError ("Registered device could not be made ready: " +:+ v_id device))
       | Some handoff => mret handoff
       end)
      (λ e,
        _ ← try_catch (_ ← destroy options hasDriver device "lease-engine" op_cleanup None; mret tt)
              (λ _, mret tt);
        fail (BootTimeoutError_from (v_id device) e)))
    (gate (free reservation)).

Definition provision (requested : VirtualSpec) (claim : BootClaim) (except : option (list string))
    (reservation : CapacityReservation) : flow_of ReadyDeviceHandoff :=
  _ ← get_driver hasDriver (vs_platform requested);
  made ← try_catch (gate (claim_made requested)) (λ e, _ ← gate (free reservation); fail e);
  let spec := md_spec made in
  startedAt ← read_now;
  answer ← try_catch
    (_ ← gate (onProgress (ProgressProvisioning (estimate (vs_platform requested) est_provision (VSpec spec))));
     call (CallProvision spec (md_source made)))
    (λ e, _ ← gate (_ ← release_component requested; _ ← drop_hold (md_hold made); free reservation);
          fail e);
  registered ← try_catch (gate (register (an_device answer) requested made startedAt claim))
    (λ e, _ ← gate (free reservation); fail e);
  let '(device, bootClaim) := registered in
  makeReady device bootClaim (estimate (vs_platform requested) est_boot (VSpec spec)) except reservation.
End provisioner.
End Provisioner.
