(* ===== verification/WarmPool.v ===== *)
(** * The warm pool's policy: [src/core/warm-pool/policy.ts]

    Which idle devices the pool shuts down, which stopped ones it boots back and which it creates,
    decided in one pure pass over a view of the worker. The source mutates a table of free running
    slots and a plan as it goes; here both are passed along. Devices and deliveries the source keeps
    in a set by identity ([matched]) are named by their position in the list they come from. *)
From stdpp Require Import base strings list option numbers sets relations sorting.
From S2P Require Import Prelude JsString OsRange Domain Capacity Cleanup.

(** ** Data *)

Inductive ShutdownReason :=
| over_budget | pool_disabled | displaced_for_kind | never_leased_idle | shed_memory_pressure.
Inductive StartReason := for_waiting_request | for_target.
#[global] Instance ShutdownReason_eq_dec : EqDecision ShutdownReason.
Proof. solve_decision. Defined.
#[global] Instance StartReason_eq_dec : EqDecision StartReason.
Proof. solve_decision. Defined.

(** A boot for a target carries the target's spec; a creation always carries the spec it is for. *)
Inductive WarmProposal :=
| ProposeShutdown (deviceId : string) (reason : ShutdownReason)
| ProposeBoot (deviceId : string) (reason : StartReason) (target : option VirtualSpec)
| ProposeProvision (spec : VirtualSpec) (reason : StartReason) (target : VirtualSpec).

Record ResolvedTarget := MkTarget { rt_spec : VirtualSpec; rt_count : Z }.
#[export] Instance ResolvedTarget_eta : Eta ResolvedTarget := λ r, MkTarget (rt_spec r) (rt_count r).

Record LearnedKind := MkLearned { lk_spec : VirtualSpec; lk_count : Z; lk_lastLeasedAt : Z }.

(** Why a target is short; the causes of a target that did not resolve are not the policy's. *)
Inductive TargetShort :=
| short_boot_failed | short_running_limit | short_device_limit | short_ram_budget | short_reserve
| short_memory_pressure.
#[global] Instance TargetShort_eq_dec : EqDecision TargetShort.
Proof. solve_decision. Defined.

Inductive KindOrigin := origin_configured | origin_learned.
#[global] Instance KindOrigin_eq_dec : EqDecision KindOrigin.
Proof. solve_decision. Defined.

Record TargetKind := MkKind {
  tk_mode : DeviceMode; tk_model : string; tk_platform : Platform; tk_osVersion : string }.

Record TargetReport := MkReport {
  tr_target : string;
  tr_kind : TargetKind;
  tr_spec : VirtualSpec;
  tr_origin : KindOrigin;
  tr_count : Z;
  tr_configuredCount : Z;
  tr_ready : Z;
  tr_booting : Z;
  tr_short : option TargetShort }.

Record WarmPlan := MkWarmPlan { wp_proposals : list WarmProposal; wp_targets : list TargetReport }.

(** A request with no device yet ([WaitingDemand] of the domain). *)
Record WaitingDemand := MkDemand {
  wd_inFlight : bool;
  wd_platform : Platform;
  wd_requirement : DeviceRequirement;
  wd_mode : DeviceMode;
  wd_spec : VirtualSpec;
  wd_classOf : string → option DeviceClass }.

Record OnItsWay := MkOnItsWay { ow_spec : VirtualSpec; ow_deviceId : option string }.

Record WarmPolicyView := MkWarmView {
  wv_devices : list VirtualDevice;
  wv_leases : list LeaseRecord;
  wv_waiting : list WaitingDemand;
  wv_capacity : RunningCapacity;
  wv_isClaimed : string → bool;
  wv_enabled : bool;
  wv_reserve_ios : Z;
  wv_reserve_android : Z;
  wv_shutdownAfterMs : Z;
  wv_maxConcurrentBoots : Z;
  wv_now : Z;
  wv_targets : list ResolvedTarget;
  wv_spared : list ResolvedTarget;
  wv_learned : list LearnedKind;
  wv_unplanned : list VirtualSpec;
  wv_inFlight : list VirtualSpec;
  wv_onItsWay : list OnItsWay;
  wv_mayAttempt : VirtualSpec → Z → bool;
  (** [admit]: the devices the plan has shut down are the second argument, when it is given. *)
  wv_admit_create : VirtualSpec → option (list string) → option CapacityRefusalReason;
  wv_admit_boot : VirtualDevice → option (list string) → option CapacityRefusalReason;
  wv_handoffInFlight : bool;
  wv_resetDevices : list string;
  wv_pressure : PressureStep;
  wv_mayShed : bool;
  wv_shedFailed : list string }.

(** ** Slots *)

Record Slots := MkSlots { sl_global : Z; sl_ios : Z; sl_android : Z }.
#[export] Instance Slots_eta : Eta Slots := λ r, MkSlots (sl_global r) (sl_ios r) (sl_android r).
Definition slot (room : Slots) (p : Platform) : Z :=
  match p with ios => sl_ios room | android => sl_android room end.

Definition add_slot (n : Z) (room : Slots) (p : Platform) : Slots :=
  let room := room <| sl_global := (sl_global room + n)%Z |> in
  match p with
  | ios => room <| sl_ios := (sl_ios room + n)%Z |>
  | android => room <| sl_android := (sl_android room + n)%Z |>
  end.
Definition release_slot (room : Slots) (device : VirtualDevice) : Slots :=
  add_slot 1 room (vs_platform (v_spec device)).
Definition claim_slot (room : Slots) (device : VirtualDevice) : Slots :=
  add_slot (-1) room (vs_platform (v_spec device)).
Definition holdSlot (room : Slots) (p : Platform) : Slots := add_slot (-1) room p.
Definition hasRoom (room : Slots) (device : VirtualDevice) : bool :=
  (1 <=? sl_global room)%Z && (1 <=? slot room (vs_platform (v_spec device)))%Z.

Definition roomOf (capacity : RunningCapacity) : Slots :=
  let room e := (maxRunning e - running e - reserved e)%Z in
  MkSlots (room (rc_global capacity)) (room (rc_ios capacity)) (room (rc_android capacity)).

Definition reservedRunning (view : WarmPolicyView) (p : Platform) : Z :=
  match p with
  | ios => Z.min (wv_reserve_ios view) (maxRunning (rc_ios (wv_capacity view)))
  | android => Z.min (wv_reserve_android view) (maxRunning (rc_android (wv_capacity view)))
  end.
Definition reservedOf (view : WarmPolicyView) : Slots :=
  MkSlots (reservedRunning view ios + reservedRunning view android)
    (reservedRunning view ios) (reservedRunning view android).

(** ** Kinds and what they keep *)

Definition same_kind (a b : VirtualSpec) : bool := sameSpec (VSpec a) (VSpec b).
Definition grantable (device : VirtualDevice) : bool := mayBeGranted (Virtual device).

Definition servesSpec (spec : VirtualSpec) (demand : WaitingDemand) : bool :=
  (specMode (VSpec spec) === wd_mode demand)
  && fits (wd_requirement demand) (fittable (VSpec spec)) (wd_classOf demand).
Definition serves (device : VirtualDevice) (demand : WaitingDemand) : bool :=
  grantable device && servesSpec (v_spec device) demand.
(** Whether a waiting request, not one in flight, would be granted the device. *)
Definition awaited (waiting : list WaitingDemand) (device : VirtualDevice) : bool :=
  Arr.some (λ demand, negb (wd_inFlight demand) && serves device demand) waiting.

Definition idlePredicate (leases : list LeaseRecord) (isClaimed : string → bool)
    (device : VirtualDevice) : bool :=
  negb (Arr.includes (v_id device) (l_deviceId <$> leases)) && negb (isClaimed (v_id device)).

Record PlannedKind := MkPlannedKind {
  pk_spec : VirtualSpec;
  pk_configuredCount : Z;
  pk_learnedCount : Z;
  pk_origin : KindOrigin }.
#[export] Instance PlannedKind_eta : Eta PlannedKind := λ r,
  MkPlannedKind (pk_spec r) (pk_configuredCount r) (pk_learnedCount r) (pk_origin r).

Definition plan_learned (kinds : list PlannedKind) (kind : LearnedKind) : list PlannedKind :=
  match Arr.findIndex (λ entry, same_kind (pk_spec entry) (lk_spec kind)) kinds with
  | Some index => alter (λ existing, existing <| pk_learnedCount := lk_count kind |>) index kinds
  | None => kinds ++ [MkPlannedKind (lk_spec kind) 0 (lk_count kind) origin_learned]
  end.
Definition plannedKinds (targets : list ResolvedTarget) (learned : list LearnedKind)
    : list PlannedKind :=
  foldl plan_learned
    ((λ target, MkPlannedKind (rt_spec target) (rt_count target) 0 origin_configured) <$> targets)
    learned.

Definition merge_target (merged : list ResolvedTarget) (target : ResolvedTarget)
    : list ResolvedTarget :=
  match Arr.findIndex (λ entry, same_kind (rt_spec entry) (rt_spec target)) merged with
  | Some index =>
      alter (λ existing, existing <| rt_count := (rt_count existing + rt_count target)%Z |>) index merged
  | None => merged ++ [target]
  end.
Definition mergeTargets (targets : list ResolvedTarget) : list ResolvedTarget :=
  foldl merge_target [] targets.

Definition compareCreated (left right : VirtualDevice) : Z :=
  (createdAt (v_fields left) - createdAt (v_fields right))%Z.
Definition readyOfKind (devices : list VirtualDevice) (isIdle : VirtualDevice → bool)
    (spec : VirtualSpec) : list VirtualDevice :=
  sort_by compareCreated
    (Arr.filter (λ d, (v_state d === ready) && isIdle d && grantable d && same_kind (v_spec d) spec)
       devices).
Definition readyCount (devices : list VirtualDevice) (leases : list LeaseRecord)
    (isClaimed : string → bool) (spec : VirtualSpec) : Z :=
  Z.of_nat (length (readyOfKind devices (idlePredicate leases isClaimed) spec)).

Definition leasedOfKind (view : WarmPolicyView) (spec : VirtualSpec) : Z :=
  let ofKind d :=
    match vs_baseline spec with
    | Some baseline => (bl_name <$> vs_baseline (v_spec d)) === Some (bl_name baseline)
    | None => same_kind (v_spec d) spec
    end in
  count (λ d, ofKind d && Arr.includes (v_id d) (l_deviceId <$> wv_leases view)) (wv_devices view).

(** [slice(0, n)] for a count [n] that may be negative, which counts from the end. *)
Definition slice_to {A} (n : Z) (l : list A) : list A :=
  take (Z.to_nat (if (n <? 0)%Z then Z.of_nat (length l) + n else n)) l.

Definition targetedDevices (view : WarmPolicyView) (targets : list ResolvedTarget)
    (learned : list LearnedKind) (waiting : list WaitingDemand) : list string :=
  let isIdle := idlePredicate (wv_leases view) (wv_isClaimed view) in
  Arr.flatMap (λ kind,
      v_id <$> slice_to (Z.max (pk_configuredCount kind) (pk_learnedCount kind))
                 (readyOfKind (wv_devices view) isIdle (pk_spec kind)))
    (plannedKinds (mergeTargets targets) learned)
  ++ (v_id <$> Arr.filter (λ d, (v_state d === ready) && isIdle d && awaited waiting d)
                 (wv_devices view)).

(** ** Shutdowns *)

(** [nextVictim]: the position of the next device to shut down among the candidates. *)
Definition nextVictim (held room : Slots) (candidates : list VirtualDevice) : option nat :=
  match Arr.findIndex (λ d, let p := vs_platform (v_spec d) in (slot room p - slot held p <? 0)%Z)
          candidates with
  | Some i => Some i
  | None => if (sl_global room - sl_global held <? 0)%Z
            then match candidates with [] => None | _ :: _ => Some 0 end
            else None
  end.
(** Each pass takes a candidate, so as many passes as there are candidates are enough. *)
Fixpoint over_budget_loop (fuel : nat) (held room : Slots) (candidates : list VirtualDevice)
    : list VirtualDevice * Slots :=
  match fuel with
  | 0 => ([], room)
  | S fuel =>
      match nextVictim held room candidates ≫= λ i, (λ victim, (i, victim)) <$> candidates !! i with
      | None => ([], room)
      | Some (i, victim) =>
          let '(victims, room) :=
            over_budget_loop fuel held (release_slot room victim) (Arr.removeAt i candidates) in
          (victim :: victims, room)
      end
  end.
Definition shut (reason : ShutdownReason) (d : VirtualDevice) : WarmProposal :=
  ProposeShutdown (v_id d) reason.
Definition overBudget (view : WarmPolicyView) (running : list VirtualDevice) (room held : Slots)
    : list VirtualDevice * Slots :=
  let candidates := Arr.filter (λ d, negb (awaited (wv_waiting view) d)) running in
  over_budget_loop (length candidates) held room candidates.

Definition neverLeasedIdle (view : WarmPolicyView) (running proposed : list VirtualDevice)
    (room : Slots) : list VirtualDevice * Slots :=
  let kept := targetedDevices view (wv_targets view ++ wv_spared view) (wv_learned view)
                (wv_waiting view) in
  let already := v_id <$> proposed in
  let unneeded := Arr.filter (λ d,
    negb ((lastLeaseEndedAt (v_fields d) !== None) || Arr.includes (v_id d) kept
          || Arr.includes (v_id d) already
          || (wv_now view - readySince (Virtual d) <=? wv_shutdownAfterMs view)%Z)) running in
  (unneeded, foldl release_slot room unneeded).

Definition shedForPressure (view : WarmPolicyView) (running : list VirtualDevice)
    (proposed : list string) : option VirtualDevice :=
  if (wv_pressure view === pressure_none) || negb (wv_mayShed view) then None else
  let kept := targetedDevices view (wv_targets view ++ wv_spared view) [] [] in
  let candidates := Arr.filter (λ d,
    negb (Arr.includes (v_id d) proposed) && negb (Arr.includes (v_id d) (wv_shedFailed view))
    && negb (awaited (wv_waiting view) d)) running in
  match Arr.find (λ d, negb (Arr.includes (v_id d) kept)) candidates with
  | Some victim => Some victim
  | None => head candidates
  end.

(** ** The queue's boots and creations *)

Record QueueState := MkQueueState {
  qs_room : Slots;
  qs_proposals : list WarmProposal;
  qs_taken : list string;
  qs_stuck : list Platform;
  qs_started : Z;
  qs_matched : list nat;
  qs_matchedWay : list nat;
  qs_atHead : bool }.
#[export] Instance QueueState_eta : Eta QueueState := λ r,
  MkQueueState (qs_room r) (qs_proposals r) (qs_taken r) (qs_stuck r) (qs_started r)
    (qs_matched r) (qs_matchedWay r) (qs_atHead r).

(** The first position, not among those matched, whose element passes. *)
Definition find_unmatched {A} (matched : list nat) (f : A → bool) (l : list A) : option nat :=
  fst <$> Arr.find (λ ix, negb (Arr.includes ix.1 matched) && f ix.2) (imap pair l).

Section queue_pass.
Context (view : WarmPolicyView) (running bootable : list VirtualDevice).

Definition bootsOpen (state : QueueState) : bool :=
  (qs_started state <? wv_maxConcurrentBoots view)%Z.

Definition may_boot_for (state : QueueState) (demand : WaitingDemand) (candidate : VirtualDevice)
    : bool :=
  negb (Arr.includes (v_id candidate) (qs_taken state))
  && hasRoom (qs_room state) candidate
  && serves candidate demand
  && wv_mayAttempt view (v_spec candidate) (wv_now view)
  && (wv_admit_boot view candidate None === None).
(** [None] when there is nothing to boot. *)
Definition bootForWaiter (state : QueueState) (demand : WaitingDemand) : option QueueState :=
  if negb (bootsOpen state) then None else
  device ← Arr.find (may_boot_for state demand) bootable;
  Some (state <| qs_taken := v_id device :: qs_taken state |>
              <| qs_room := claim_slot (qs_room state) device |>
              <| qs_started := (qs_started state + 1)%Z |>
              <| qs_proposals :=
                   qs_proposals state ++ [ProposeBoot (v_id device) for_waiting_request None] |>).

Definition creatable (state : QueueState) (demand : WaitingDemand) : bool :=
  (wv_admit_create view (wd_spec demand) None === None)
  && (1 <=? sl_global (qs_room state))%Z
  && (1 <=? slot (qs_room state) (vs_platform (wd_spec demand)))%Z.
Definition createForWaiter (state : QueueState) (demand : WaitingDemand) (head : bool) : QueueState :=
  if head && creatable state demand then state <| qs_started := (qs_started state + 1)%Z |>
  else if negb head && creatable state demand && bootsOpen state
          && wv_mayAttempt view (wd_spec demand) (wv_now view)
  then state <| qs_started := (qs_started state + 1)%Z |>
             <| qs_proposals := qs_proposals state
                  ++ [ProposeProvision (wd_spec demand) for_waiting_request (wd_spec demand)] |>
  else state <| qs_stuck := wd_platform demand :: qs_stuck state |>.

Definition hold (platform : Platform) (state : QueueState) : QueueState :=
  state <| qs_room := holdSlot (qs_room state) platform |>.

Definition serve_demand (state : QueueState) (demand : WaitingDemand) : QueueState :=
  let head := qs_atHead state in
  let state := state <| qs_atHead := false |> in
  if wd_inFlight demand then hold (wd_platform demand) state else
  match find_unmatched (qs_matched state) (λ d, serves d demand) running with
  | Some i => state <| qs_matched := i :: qs_matched state |> <| qs_atHead := head |>
  | None =>
      match find_unmatched (qs_matchedWay state) (λ e, servesSpec (ow_spec e) demand)
              (wv_onItsWay view) with
      | Some i => state <| qs_matchedWay := i :: qs_matchedWay state |>
      | None =>
          match bootForWaiter state demand with
          | Some state => state
          | None => hold (wd_platform demand) (createForWaiter state demand head)
          end
      end
  end.

Definition started_before : Z :=
  (Z.of_nat (length (wv_inFlight view)) + count wd_inFlight (wv_waiting view))%Z.
Definition boots (room : Slots) : QueueState :=
  foldl serve_demand (MkQueueState room [] [] [] started_before [] [] true) (wv_waiting view).
End queue_pass.

(** At a pressure step the queue's pass does nothing. *)
Definition queue_pass (view : WarmPolicyView) (running bootable : list VirtualDevice) (room : Slots)
    : QueueState :=
  if wv_pressure view === pressure_none then boots view running bootable room
  else MkQueueState room [] [] [] 0 [] [] true.

(** ** Targets *)

Definition slotShort (room held : Slots) (p : Platform) : option TargetShort :=
  if (sl_global room <? 1)%Z || (slot room p <? 1)%Z then Some short_running_limit
  else if (sl_global room - sl_global held <? 1)%Z || (slot room p - slot held p <? 1)%Z
  then Some short_reserve else None.

Definition shortOf (refusal : option CapacityRefusalReason) : option TargetShort :=
  match refusal with
  | None => None
  | Some device_limit => Some short_device_limit
  | Some ram_budget => Some short_ram_budget
  | Some memory_pressure => Some short_memory_pressure
  | Some (global_running_limit | platform_running_limit) => Some short_running_limit
  end.

(** What [planTargets] changes as it goes; the rest of the source's plan is the section's context. *)
Record TargetPlan := MkTargetPlan {
  tp_room : Slots;
  tp_taken : list string;
  tp_proposals : list WarmProposal;
  tp_victims : list VirtualDevice;
  tp_displaced : list string;
  tp_started : Z }.
#[export] Instance TargetPlan_eta : Eta TargetPlan := λ r,
  MkTargetPlan (tp_room r) (tp_taken r) (tp_proposals r) (tp_victims r) (tp_displaced r)
    (tp_started r).

Section targets.
Context (view : WarmPolicyView) (kinds : list PlannedKind) (bootable : list VirtualDevice).
Context (stuck : list Platform) (held : Slots) (isIdleDevice : VirtualDevice → bool).
Implicit Types (plan : TargetPlan) (spec : VirtualSpec) (per : KindOrigin).

Definition plan_isIdle plan (d : VirtualDevice) : bool :=
  isIdleDevice d && negb (Arr.includes (v_id d) (tp_displaced plan)).

Definition bootCandidate plan spec : option VirtualDevice :=
  Arr.find (λ d, negb (Arr.includes (v_id d) (tp_taken plan))
                 && negb (Arr.includes (v_id d) (wv_resetDevices view))
                 && same_kind (v_spec d) spec) bootable.

Definition admitted_short plan spec (down : list string) : option TargetShort :=
  shortOf (match bootCandidate plan spec with
           | None => wv_admit_create view spec (Some down)
           | Some shutDown => wv_admit_boot view shutDown (Some down)
           end).

(** The order a user reads: device limit, running limit, reserve, then RAM budget. *)
Definition refusedOne plan spec : option TargetShort :=
  let capacity := admitted_short plan spec (tp_displaced plan) in
  match capacity with
  | Some short_device_limit => capacity
  | _ => match slotShort (tp_room plan) held (vs_platform spec) with
         | Some short => Some short
         | None => capacity
         end
  end.
Definition addOne plan spec : TargetPlan * option TargetShort :=
  match refusedOne plan spec with
  | Some short => (plan, Some short)
  | None =>
      let started := plan <| tp_room := add_slot (-1) (tp_room plan) (vs_platform spec) |>
                          <| tp_started := (tp_started plan + 1)%Z |> in
      (match bootCandidate plan spec with
       | None => started <| tp_proposals := tp_proposals plan ++ [ProposeProvision spec for_target spec] |>
       | Some shutDown =>
           started <| tp_taken := v_id shutDown :: tp_taken plan |>
                   <| tp_proposals := tp_proposals plan
                        ++ [ProposeBoot (v_id shutDown) for_target (Some spec)] |>
       end, None)
  end.

Definition kind_index spec : option nat :=
  Arr.findIndex (λ entry, same_kind (pk_spec entry) spec) kinds.
(** The victims are answered as positions in [tp_victims]. *)
Definition learnedVictim plan spec : option nat :=
  match kind_index spec with
  | None => None
  | Some index =>
      if (pk_origin <$> kinds !! index) !== Some origin_learned then None else
      Arr.findIndex (λ d,
        match kind_index (v_spec d) with
        | None => false
        | Some entry => (index <? entry) && (vs_platform (v_spec d) === vs_platform spec)
        end) (tp_victims plan)
  end.
Definition configuredVictim plan spec : option nat :=
  Arr.findIndex (λ d,
    if (vs_platform (v_spec d) !== vs_platform spec) || same_kind (v_spec d) spec then false else
    let kept := default 0%Z (pk_configuredCount <$>
                  Arr.find (λ entry, same_kind (pk_spec entry) (v_spec d)) kinds) in
    (kept <? Z.of_nat (length (readyOfKind (wv_devices view) (plan_isIdle plan) (v_spec d))))%Z)
    (tp_victims plan).

Definition victim_for plan spec per : option nat :=
  match per with
  | origin_configured => configuredVictim plan spec
  | origin_learned => learnedVictim plan spec
  end.
(** [None] when nothing is displaced. *)
Definition displaceFor plan spec per : option TargetPlan :=
  i ← victim_for plan spec per;
  victim ← tp_victims plan !! i;
  if admitted_short plan spec (tp_displaced plan ++ [v_id victim]) !== None then None else
  Some (plan <| tp_victims := Arr.removeAt i (tp_victims plan) |>
             <| tp_displaced := tp_displaced plan ++ [v_id victim] |>
             <| tp_room := release_slot (tp_room plan) victim |>
             <| tp_proposals := tp_proposals plan ++ [shut displaced_for_kind victim] |>).

Definition slot_refusal per (refused : option TargetShort) : bool :=
  (refused === Some short_running_limit)
  || ((per === origin_configured) && (refused === Some short_reserve)).
(** Each pass displaces one of the victims, so as many passes as there are victims are enough. *)
Fixpoint displace_loop (fuel : nat) plan spec per (refused : option TargetShort)
    : TargetPlan * option TargetShort :=
  match fuel with
  | 0 => (plan, refused)
  | S fuel =>
      if negb (slot_refusal per refused) then (plan, refused) else
      match displaceFor plan spec per with
      | None => (plan, refused)
      | Some plan => let '(plan, refused) := addOne plan spec in
                     displace_loop fuel plan spec per refused
      end
  end.
Definition addDisplacing plan spec per : TargetPlan * option TargetShort :=
  let '(plan, refused) := addOne plan spec in
  displace_loop (length (tp_victims plan)) plan spec per refused.

Definition heldByPressure (filling : bool) : option TargetShort :=
  if filling then None else Some short_memory_pressure.
(** [None] when the target may add; [Some short] when it adds nothing, [short] saying why. *)
Definition holdFill spec (filling : bool) : option (option TargetShort) :=
  if wv_pressure view !== pressure_none then Some (heldByPressure filling)
  else if Arr.includes (vs_platform spec) stuck then Some None
  else if wv_mayAttempt view spec (wv_now view) then None
  else Some (if filling then None else Some short_boot_failed).

Fixpoint fill_loop (left_ : nat) plan spec (filling : bool) per (added : Z)
    : TargetPlan * (Z * option TargetShort) :=
  match left_ with
  | 0 => (plan, (added, None))
  | S left_ =>
      if negb (tp_started plan <? wv_maxConcurrentBoots view)%Z then (plan, (added, None)) else
      let '(plan, refused) := addDisplacing plan spec per in
      match refused with
      | Some short => (plan, (added, if (0 <? added)%Z || filling then None else Some short))
      | None => fill_loop left_ plan spec filling per (added + 1)%Z
      end
  end.
Definition fillTarget plan spec (missing : Z) (filling : bool) per
    : TargetPlan * (Z * option TargetShort) :=
  match holdFill spec filling with
  | Some short => (plan, (0%Z, short))
  | None => fill_loop (Z.to_nat missing) plan spec filling per 0
  end.

Context (queued : list WarmProposal).

Definition pending spec : Z :=
  (count (λ flying, same_kind flying spec) (wv_inFlight view)
   + count (λ proposal, match proposal with
       | ProposeProvision s _ _ => same_kind s spec
       | ProposeBoot deviceId _ _ =>
           Arr.some (λ d, (v_id d === deviceId) && same_kind (v_spec d) spec) (wv_devices view)
       | ProposeShutdown _ _ => false
       end) queued)%Z.
Definition ready_now plan spec : Z :=
  Z.of_nat (length (readyOfKind (wv_devices view) (plan_isIdle plan) spec)).

Definition fill_configured plan (kind : PlannedKind) : TargetPlan * (Z * option TargetShort) :=
  let spec := pk_spec kind in
  let filling := pending spec in
  let missing := (pk_configuredCount kind - ready_now plan spec - filling)%Z in
  if (0 <? missing)%Z then fillTarget plan spec missing (0 <? filling)%Z origin_configured
  else (plan, (0%Z, None)).

Definition describeTarget (spec : VirtualSpec) : string :=
  let platform := match vs_platform spec with ios => "ios" | android => "android" end in
  platform +:+ " " +:+ vs_model spec +:+ " " +:+ vs_osVersion spec
    +:+ (if vs_slim spec then " slim" else "").
Definition kindOf (spec : VirtualSpec) : TargetKind :=
  MkKind (specMode (VSpec spec)) (vs_model spec) (vs_platform spec) (vs_osVersion spec).

Definition report_target plan (kind : PlannedKind) (configured : Z * option TargetShort)
    : TargetPlan * TargetReport :=
  let spec := pk_spec kind in
  let ready := ready_now plan spec in
  let filling := pending spec in
  let missing := (Z.max (pk_configuredCount kind - ready)
                        (Z.max (pk_learnedCount kind - leasedOfKind view spec) 1 - ready)
                  - filling - configured.1)%Z in
  let '(plan, learned) :=
    if (configured.2 === None) && (0 <? missing)%Z
    then fillTarget plan spec missing (0 <? filling + configured.1)%Z origin_learned
    else (plan, (0%Z, None)) in
  (plan, MkReport (describeTarget spec) (kindOf spec) spec (pk_origin kind)
           (Z.max (pk_configuredCount kind) (pk_learnedCount kind)) (pk_configuredCount kind) ready
           (filling + configured.1 + learned.1)%Z
           (match configured.2 with Some short => Some short | None => learned.2 end)).

Fixpoint first_fills plan (ks : list PlannedKind) : TargetPlan * list (Z * option TargetShort) :=
  match ks with
  | [] => (plan, [])
  | kind :: ks =>
      let '(plan, filled) := fill_configured plan kind in
      let '(plan, rest) := first_fills plan ks in
      (plan, filled :: rest)
  end.
Fixpoint target_reports plan (ks : list PlannedKind) (first : list (Z * option TargetShort))
    : TargetPlan * list TargetReport :=
  match ks with
  | [] => (plan, [])
  | kind :: ks =>
      let '(plan, report) := report_target plan kind (default (0%Z, None) (head first)) in
      let '(plan, rest) := target_reports plan ks (tail first) in
      (plan, report :: rest)
  end.
Definition planTargets plan : TargetPlan * list TargetReport :=
  let '(plan, first) := first_fills plan kinds in
  target_reports plan kinds first.
End targets.

(** ** The pass *)

Definition boot_ids (proposals : list WarmProposal) : list string :=
  Arr.flatMap (λ p, match p with ProposeBoot deviceId _ _ => [deviceId] | _ => [] end) proposals.

Definition planned_learned (view : WarmPolicyView) : list LearnedKind :=
  Arr.filter (λ kind, negb (Arr.some (λ spec, same_kind spec (lk_spec kind)) (wv_unplanned view)))
    (wv_learned view).

Section evaluate.
Context `{LocaleCompare} (view : WarmPolicyView).

Definition idle_now : VirtualDevice → bool := idlePredicate (wv_leases view) (wv_isClaimed view).
Definition running_idle : list VirtualDevice :=
  sort_by compareLeastRecentlyUsed
    (Arr.filter (λ d, (v_state d === ready) && idle_now d) (wv_devices view)).
Definition bootable_idle : list VirtualDevice :=
  Arr.filter (λ d, (v_state d === shutdown) && grantable d && idle_now d) (wv_devices view).
Definition planned_kinds : list PlannedKind :=
  plannedKinds (mergeTargets (wv_targets view)) (planned_learned view).

(** The parts of the pass, in the order the source computes them, each with the slots it leaves. *)
Definition budget_pass : list VirtualDevice * Slots :=
  let room := roomOf (wv_capacity view) in
  if wv_handoffInFlight view then ([], room) else overBudget view running_idle room (reservedOf view).
Definition queued_pass : QueueState := queue_pass view running_idle bootable_idle budget_pass.2.
Definition idle_pass : list VirtualDevice * Slots :=
  neverLeasedIdle view running_idle budget_pass.1 (qs_room queued_pass).
Definition shed_pass : list VirtualDevice :=
  option_list (shedForPressure view running_idle (v_id <$> budget_pass.1 ++ idle_pass.1)).
Definition displaceable : list VirtualDevice :=
  let proposed := v_id <$> (budget_pass.1 ++ idle_pass.1) ++ shed_pass in
  let sparedDevices := targetedDevices view (wv_spared view) [] (wv_waiting view) in
  if wv_handoffInFlight view then []
  else Arr.filter (λ d, negb (Arr.includes (v_id d) proposed)
                        && negb (Arr.includes (v_id d) sparedDevices)) running_idle.
Definition target_pass : TargetPlan * list TargetReport :=
  planTargets view planned_kinds bootable_idle (qs_stuck queued_pass) (reservedOf view) idle_now
    (qs_proposals queued_pass)
    (MkTargetPlan idle_pass.2 (boot_ids (qs_proposals queued_pass)) [] displaceable []
       (qs_started queued_pass)).

Definition evaluate : WarmPlan :=
  if negb (wv_enabled view) then MkWarmPlan (shut pool_disabled <$> running_idle) [] else
  MkWarmPlan ((shut over_budget <$> budget_pass.1) ++ qs_proposals queued_pass
              ++ (shut never_leased_idle <$> idle_pass.1) ++ (shut shed_memory_pressure <$> shed_pass)
              ++ tp_proposals target_pass.1) target_pass.2.
End evaluate.

(** ** What a list of proposals does to the slots *)

Definition is_start (p : WarmProposal) : bool :=
  match p with ProposeShutdown _ _ => false | _ => true end.
Definition is_target_start (p : WarmProposal) : bool :=
  match p with
  | ProposeShutdown _ _ => false
  | ProposeBoot _ reason _ | ProposeProvision _ reason _ => reason === for_target
  end.
Definition proposal_device (p : WarmProposal) : list string :=
  match p with ProposeShutdown i _ | ProposeBoot i _ _ => [i] | ProposeProvision _ _ _ => [] end.
Definition displaced_ids (ps : list WarmProposal) : list string :=
  Arr.flatMap (λ p, match p with
    | ProposeShutdown i displaced_for_kind => [i] | _ => [] end) ps.
Definition started_specs (ps : list WarmProposal) : nat := length (Arr.filter is_start ps).

Definition platform_of (view : WarmPolicyView) (deviceId : string) : option Platform :=
  (λ d, vs_platform (v_spec d)) <$> Arr.find (λ d, v_id d === deviceId) (wv_devices view).
Definition proposal_platform (view : WarmPolicyView) (p : WarmProposal) : option Platform :=
  match p with
  | ProposeShutdown i _ | ProposeBoot i _ _ => platform_of view i
  | ProposeProvision spec _ _ => Some (vs_platform spec)
  end.

(** A scope is the whole worker or one platform. *)
Definition slot_in (room : Slots) (scope : option Platform) : Z :=
  match scope with None => sl_global room | Some p => slot room p end.
Definition in_scope_of (scope p : option Platform) : bool :=
  match scope with None => true | Some _ => p === scope end.
Definition starts_in (view : WarmPolicyView) (scope : option Platform) (ps : list WarmProposal) : Z :=
  count (λ p, is_start p && in_scope_of scope (proposal_platform view p)) ps.
Definition target_starts_in (view : WarmPolicyView) (scope : option Platform)
    (ps : list WarmProposal) : Z :=
  count (λ p, is_target_start p && in_scope_of scope (proposal_platform view p)) ps.
Definition stops_in (view : WarmPolicyView) (scope : option Platform) (ps : list WarmProposal) : Z :=
  count (λ p, negb (is_start p) && in_scope_of scope (proposal_platform view p)) ps.

Lemma count_pos {A} (f : A → bool) l : (0 ≤ count f l)%Z.
Proof. unfold count. lia. Qed.
Lemma count_zero {A} (f : A → bool) l : count f l = 0%Z ↔ ∀ x, x ∈ l → f x = false.
Proof.
  unfold count. split.
  - intros Hc x Hx. destruct (f x) eqn:E; [|done].
    assert (x ∈ Arr.filter f l) as Hin by by apply elem_of_afilter.
    destruct (Arr.filter f l); [by apply elem_of_nil in Hin|cbn in Hc; lia].
  - intros Hf. destruct (Arr.filter f l) as [|x k] eqn:E; [done|].
    assert (x ∈ Arr.filter f l) as Hx by (rewrite E; by left).
    apply elem_of_afilter in Hx as [Hx Hfx]. rewrite Hf in Hfx by done. done.
Qed.

Lemma slot_in_add n room p scope : slot_in (add_slot n room p) scope
  = (slot_in room scope + if in_scope_of scope (Some p) then n else 0)%Z.
Proof. destruct scope as [[]|], p; cbn; js_eval; cbn; lia. Qed.

(** The books of a pass: [room] never promises a slot that is not there, whatever was started so
    far fits the slots there were and those given back, and once a target has started something
    the operator's reserve is still free. *)
Record ledger (view : WarmPolicyView) (room0 held : Slots) (ps : list WarmProposal) (room : Slots)
    : Prop := {
  lg_room scope :
    (slot_in room scope ≤ slot_in room0 scope + stops_in view scope ps - starts_in view scope ps)%Z;
  lg_limit scope : starts_in view scope ps = 0%Z
    ∨ (starts_in view scope ps ≤ slot_in room0 scope + stops_in view scope ps)%Z;
  lg_reserve scope : target_starts_in view scope ps = 0%Z
    ∨ (starts_in view scope ps + slot_in held scope ≤ slot_in room0 scope + stops_in view scope ps)%Z }.

Section ledger.
Context (view : WarmPolicyView) (room0 held : Slots).
Context (Hids : NoDup (v_id <$> wv_devices view)).
Implicit Types (ps : list WarmProposal) (room : Slots) (d : VirtualDevice).

Lemma platform_of_device d : d ∈ wv_devices view → platform_of view (v_id d) = Some (vs_platform (v_spec d)).
Proof.
  intros Hd. unfold platform_of. destruct (Arr.find _ _) as [e|] eqn:E.
  - apply afind_Some in E as [He Hv]. apply bool_decide_eq_true in Hv.
    by rewrite (NoDup_fmap_inj_on v_id _ _ _ Hids He Hd Hv).
  - rewrite afind_None in E. specialize (E d Hd). by rewrite bool_decide_eq_false in E.
Qed.

Lemma ledger_nil : ledger view room0 held [] room0.
Proof. split; intros scope; unfold starts_in, stops_in, target_starts_in, count; cbn; lia. Qed.

Lemma ledger_hold ps room p : ledger view room0 held ps room →
  ledger view room0 held ps (holdSlot room p).
Proof.
  intros [Hr Hl Hv]. split; [|done..]. intros scope. unfold holdSlot. rewrite slot_in_add.
  specialize (Hr scope). destruct (in_scope_of _ _); lia.
Qed.

(** A shutdown gives its slot back in [room], or does not: the memory shed is not booked. *)
Lemma ledger_stop ps room d reason (booked : bool) : d ∈ wv_devices view →
  ledger view room0 held ps room →
  ledger view room0 held (ps ++ [shut reason d]) (if booked then release_slot room d else room).
Proof.
  intros Hd [Hr Hl Hv].
  split; intros scope; specialize (Hr scope); specialize (Hl scope); specialize (Hv scope);
    unfold starts_in, stops_in, target_starts_in in *; rewrite !count_app, !count_singleton; cbn -[slot_in];
    rewrite ?platform_of_device by done.
  - destruct booked; [unfold release_slot; rewrite slot_in_add|]; destruct (in_scope_of _ _); lia.
  - destruct (in_scope_of _ _); lia.
  - destruct (in_scope_of _ _); lia.
Qed.
Lemma ledger_stops ps room ds reason : (∀ d, d ∈ ds → d ∈ wv_devices view) →
  ledger view room0 held ps room →
  ledger view room0 held (ps ++ (shut reason <$> ds)) (foldl release_slot room ds).
Proof.
  revert ps room. induction ds as [|d ds IH]; intros ps room Hds Hl; cbn; [by rewrite app_nil_r|].
  change (shut reason d :: (shut reason <$> ds)) with ([shut reason d] ++ (shut reason <$> ds)).
  rewrite (assoc_L (++)). apply IH; [intros; apply Hds; by right|].
  apply (ledger_stop ps room d reason true); [apply Hds; by left|done].
Qed.

(** A start on a platform with a free slot; a target's also leaves the reserve free. *)
Lemma ledger_start ps room pr p : is_start pr = true → proposal_platform view pr = Some p →
  (1 ≤ sl_global room)%Z → (1 ≤ slot room p)%Z →
  (if is_target_start pr
   then (1 ≤ sl_global room - sl_global held ∧ 1 ≤ slot room p - slot held p)%Z
   else ∀ q, q ∈ ps → is_target_start q = false) →
  ledger view room0 held ps room → ledger view room0 held (ps ++ [pr]) (add_slot (-1) room p).
Proof.
  intros Hs Hp Hg Hsl Ht [Hr Hl Hv].
  assert (∀ scope, in_scope_of scope (Some p) = true → (1 ≤ slot_in room scope)%Z) as Hfree.
  { intros [q|]; cbn; [|done]. intros [= ->]%bool_decide_eq_true. done. }
  split; intros scope; specialize (Hr scope); specialize (Hl scope); specialize (Hv scope);
    specialize (Hfree scope); unfold starts_in, stops_in, target_starts_in in *;
    rewrite !count_app, !count_singleton, Hs, Hp; cbn [andb negb].
  - rewrite slot_in_add. destruct (in_scope_of _ _); lia.
  - destruct (in_scope_of _ _); [right|]; [specialize (Hfree eq_refl)|]; lia.
  - destruct (is_target_start pr); cbn [andb].
    + destruct (in_scope_of scope (Some p)) eqn:E; [right|lia].
      assert (1 ≤ slot_in room scope - slot_in held scope)%Z; [|lia].
      destruct scope as [q|]; cbn in *; [|lia]. apply bool_decide_eq_true in E as [= ->]. lia.
    + left. rewrite Z.add_0_r. apply count_zero. intros q Hq. by rewrite Ht.
Qed.
End ledger.

(** ** The budget *)

Definition deficit_in (held room : Slots) (scope : option Platform) : Z :=
  Z.max 0 (slot_in held scope - slot_in room scope).
Definition deficit (held room : Slots) : Z :=
  (deficit_in held room None + deficit_in held room (Some ios)
   + deficit_in held room (Some android))%Z.

Lemma nextVictim_Some held room cs i : nextVictim held room cs = Some i →
  ∃ d, cs !! i = Some d ∧ (deficit held (release_slot room d) + 1 ≤ deficit held room)%Z
    ∧ ∀ e, e ∈ take i cs → vs_platform (v_spec e) ≠ vs_platform (v_spec d).
Proof.
  assert (∀ d, (slot room (vs_platform (v_spec d)) - slot held (vs_platform (v_spec d)) < 0
      ∨ sl_global room - sl_global held < 0)%Z →
      (deficit held (release_slot room d) + 1 ≤ deficit held room)%Z) as Hdef.
  { intros d. unfold release_slot. destruct (vs_platform (v_spec d));
      unfold deficit, deficit_in; cbn; lia. }
  unfold nextVictim. destruct (Arr.findIndex _ _) as [j|] eqn:E.
  - intros [= ->]. apply afindIndex_Some in E as (d & Hd & Hover & Hfirst).
    exists d. apply Z.ltb_lt in Hover. split_and!; [done|auto|].
    intros e (k & Hk & Hlt)%elem_of_take Hp. specialize (Hfirst k e Hk Hlt). cbv zeta in Hfirst.
    rewrite Hp in Hfirst. apply Z.ltb_ge in Hfirst. lia.
  - destruct (Z.ltb_spec (sl_global room - sl_global held) 0) as [Hg|]; [|done].
    destruct cs as [|d cs]; [done|]. intros [= <-]. exists d. split_and!; [done|auto|].
    by intros e ?%elem_of_nil.
Qed.
Lemma nextVictim_None held room cs : nextVictim held room cs = None →
  ∀ d, d ∈ cs → (deficit_in held room None = 0
    ∧ deficit_in held room (Some (vs_platform (v_spec d))) = 0)%Z.
Proof.
  unfold nextVictim. destruct (Arr.findIndex _ _) as [j|] eqn:E; [done|].
  rewrite afindIndex_None in E.
  destruct (Z.ltb_spec (sl_global room - sl_global held) 0) as [|Hg].
  - destruct cs; [|done]. by intros _ d ?%elem_of_nil.
  - intros _ d Hd. specialize (E d Hd). cbv zeta in E. apply Z.ltb_ge in E.
    unfold deficit_in. cbn. lia.
Qed.

Lemma over_budget_loop_spec fuel held room cs (R : VirtualDevice → VirtualDevice → Prop) :
  length cs ≤ fuel → StronglySorted R cs →
  let '(victims, room') := over_budget_loop fuel held room cs in
  room' = foldl release_slot room victims
  ∧ (Z.of_nat (length victims) + deficit held room' ≤ deficit held room)%Z
  ∧ ∃ rest, cs ≡ₚ victims ++ rest ∧ nextVictim held room' rest = None
    ∧ ∀ d e, d ∈ victims → e ∈ rest → vs_platform (v_spec d) = vs_platform (v_spec e) → R d e.
Proof.
  revert room cs. induction fuel as [|fuel IH]; intros room cs Hlen Hsort.
  { destruct cs; [|cbn in Hlen; lia]. cbn. split_and!; [done|lia|]. exists []. split_and!; [done| |].
    - unfold nextVictim. cbn. by destruct (_ <? _)%Z.
    - by intros d e ?%elem_of_nil. }
  cbn [over_budget_loop]. destruct (nextVictim held room cs) as [i|] eqn:E; cbn -[over_budget_loop].
  - destruct (nextVictim_Some _ _ _ _ E) as (d & Hd & Hdef & Hfirst). rewrite Hd. cbn -[over_budget_loop].
    unfold Arr.removeAt. rewrite delete_take_drop. rewrite <- (take_drop_middle cs i d Hd) in Hlen, Hsort |- *.
    set (l := take i cs) in *. set (k := drop (S i) cs) in *.
    replace (take i (l ++ d :: k)) with l; [replace (drop (S i) (l ++ d :: k)) with k|].
    2:{ unfold l, k. by rewrite (take_drop_middle cs i d Hd). }
    2:{ unfold l, k. by rewrite (take_drop_middle cs i d Hd). }
    rewrite length_app in Hlen. cbn in Hlen.
    apply StronglySorted_app in Hsort as (Hlk & Hl & [Hk Hdk]%StronglySorted_inv).
    assert (StronglySorted R (l ++ k)) as Hsort'.
    { apply StronglySorted_app_2; [|done..]. intros x y Hx Hy. apply Hlk; [done|]. by right. }
    specialize (IH (release_slot room d) (l ++ k) ltac:(rewrite length_app; lia) Hsort').
    destruct (over_budget_loop _ _ _ _) as [victims room'].
    destruct IH as (-> & Hv & rest & Hp & Hn & HR). cbn [length foldl].
    split_and!; [done|lia|]. exists rest. split_and!; [|done|].
    + rewrite <- Permutation_middle. cbn. by f_equiv.
    + intros x e [->|Hx]%elem_of_cons He Hpl; [|by apply HR].
      assert (e ∈ l ++ k) as [Hel|Hek]%elem_of_app by (rewrite Hp; by apply elem_of_app; right).
      * by destruct (Hfirst e Hel).
      * rewrite Forall_forall in Hdk. by apply Hdk.
  - split_and!; [done|cbn; lia|]. exists cs. split_and!; [done..|]. by intros d e ?%elem_of_nil.
Qed.

(** ** What every proposal of a pass keeps to *)

(** [ps] is the plan the proposal is part of. *)
Definition proposal_ok (view : WarmPolicyView) (ps : list WarmProposal) (p : WarmProposal) : Prop :=
  let admitted (admits : option (list string) → option CapacityRefusalReason) :=
    ∃ down, admits down = None ∧ default [] down ⊆ displaced_ids ps in
  match p with
  | ProposeShutdown i reason =>
      ∃ d, d ∈ wv_devices view ∧ v_id d = i ∧ v_state d = ready ∧ idle_now view d = true
        ∧ (reason ≠ pool_disabled → awaited (wv_waiting view) d = false)
  | ProposeBoot i reason target =>
      wv_pressure view = pressure_none
      ∧ ∃ d, d ∈ wv_devices view ∧ v_id d = i ∧ v_state d = shutdown
        ∧ grantable d = true ∧ idle_now view d = true
        ∧ wv_mayAttempt view (v_spec d) (wv_now view) = true
        ∧ admitted (wv_admit_boot view d)
        ∧ match reason with
          | for_waiting_request => target = None ∧ awaited (wv_waiting view) d = true
          | for_target => target = Some (v_spec d) ∧ i ∉ wv_resetDevices view
          end
  | ProposeProvision spec reason target =>
      wv_pressure view = pressure_none ∧ target = spec
      ∧ wv_mayAttempt view spec (wv_now view) = true
      ∧ admitted (wv_admit_create view spec)
      ∧ match reason with
        | for_waiting_request => ∃ demand, demand ∈ wv_waiting view ∧ wd_inFlight demand = false
            ∧ wd_spec demand = spec
        | for_target => ∀ d, d ∈ bootable_idle view → v_spec d = spec →
            v_id d ∈ wv_resetDevices view ∨ v_id d ∈ boot_ids ps
        end
  end.

Lemma boot_ids_app ps qs : boot_ids (ps ++ qs) = boot_ids ps ++ boot_ids qs.
Proof. apply bind_app. Qed.
Lemma displaced_ids_app ps qs : displaced_ids (ps ++ qs) = displaced_ids ps ++ displaced_ids qs.
Proof. apply bind_app. Qed.

Lemma proposal_ok_mono view ps qs p : proposal_ok view ps p → proposal_ok view (ps ++ qs) p.
Proof.
  assert (∀ admits : option (list string) → option CapacityRefusalReason,
    (∃ down, admits down = None ∧ default [] down ⊆ displaced_ids ps) →
    ∃ down, admits down = None ∧ default [] down ⊆ displaced_ids (ps ++ qs)) as Hmono.
  { intros admits (down & Ha & Hd). exists down. split; [done|]. rewrite displaced_ids_app. set_solver. }
  destruct p as [i r|i r t|s r t]; cbn; [done| |].
  - intros (Hp & d & Hd). split; [done|]. exists d. naive_solver.
  - intros (Hp & Ht & Hm & Had & Hr). split_and!; [done..|by apply Hmono|].
    destruct r; [done|]. intros d Hb Hs. rewrite boot_ids_app, elem_of_app. naive_solver.
Qed.

Lemma elem_of_running `{LocaleCompare} view d : d ∈ running_idle view ↔
  d ∈ wv_devices view ∧ v_state d = ready ∧ idle_now view d = true.
Proof.
  unfold running_idle. rewrite elem_of_sort_by, elem_of_afilter, andb_true_iff, bool_decide_eq_true.
  naive_solver.
Qed.
Lemma elem_of_bootable view d : d ∈ bootable_idle view ↔
  d ∈ wv_devices view ∧ v_state d = shutdown ∧ grantable d = true ∧ idle_now view d = true.
Proof.
  unfold bootable_idle. rewrite elem_of_afilter, !andb_true_iff, bool_decide_eq_true. naive_solver.
Qed.
Lemma running_NoDup `{LocaleCompare} view : NoDup (v_id <$> wv_devices view) →
  NoDup (v_id <$> running_idle view).
Proof.
  intros Hn. unfold running_idle. rewrite sort_by_perm.
  eapply sublist_NoDup; [done|]. apply fmap_sublist, sublist_filter_b.
Qed.

(** The state of a pass after the proposals [ps], with [started] flights counted. *)
Record pass_ok (view : WarmPolicyView) (room0 held : Slots) (ps : list WarmProposal) (room : Slots)
    (started : Z) : Prop := {
  pa_ledger : ledger view room0 held ps room;
  pa_started : wv_pressure view = pressure_none →
    (started_before view + count is_start ps ≤ started)%Z;
  pa_cap : count is_start ps = 0%Z
    ∨ (started_before view + count is_start ps ≤ wv_maxConcurrentBoots view)%Z;
  pa_proposals p : p ∈ ps → proposal_ok view ps p;
  pa_nodup : NoDup (ps ≫= proposal_device) }.

Section pass.
Context `{LocaleCompare} (view : WarmPolicyView) (room0 held : Slots).
Context (Hids : NoDup (v_id <$> wv_devices view)).
Implicit Types (ps : list WarmProposal) (room : Slots) (d : VirtualDevice).
Local Abbreviation ok := (pass_ok view room0 held).

Lemma same_device d e : d ∈ wv_devices view → e ∈ wv_devices view → v_id d = v_id e → d = e.
Proof. apply (NoDup_fmap_inj_on v_id). done. Qed.

Lemma pass_hold ps room started p : ok ps room started → ok ps (holdSlot room p) started.
Proof. intros []. split; [by apply ledger_hold|done..]. Qed.
Lemma pass_more ps room started started' : (started ≤ started')%Z →
  ok ps room started → ok ps room started'.
Proof. intros ? [Hl Hs]. split; [done| |done..]. intros. specialize (Hs ltac:(done)). lia. Qed.

Lemma devices_snoc ps p : (ps ++ [p]) ≫= proposal_device = (ps ≫= proposal_device) ++ proposal_device p.
Proof. rewrite bind_app. cbn. by rewrite app_nil_r. Qed.

Lemma pass_snoc_ok ps p : (∀ q, q ∈ ps → proposal_ok view ps q) → proposal_ok view (ps ++ [p]) p →
  ∀ q, q ∈ ps ++ [p] → proposal_ok view (ps ++ [p]) q.
Proof.
  intros Hps Hp q [Hq| ->%list_elem_of_singleton]%elem_of_app; [|done].
  apply proposal_ok_mono. by apply Hps.
Qed.
Lemma pass_snoc_nodup ps p : NoDup (ps ≫= proposal_device) →
  (∀ i, i ∈ proposal_device p → i ∉ ps ≫= proposal_device) →
  NoDup ((ps ++ [p]) ≫= proposal_device).
Proof.
  intros Hn Hp. rewrite devices_snoc. apply NoDup_app. split_and!; [done| |].
  - intros i Hi Hip. by apply (Hp i).
  - destruct p; cbn; repeat constructor; apply not_elem_of_nil.
Qed.

Lemma pass_stop ps room started d reason (booked : bool) : reason ≠ pool_disabled →
  d ∈ running_idle view → awaited (wv_waiting view) d = false → v_id d ∉ ps ≫= proposal_device →
  ok ps room started →
  ok (ps ++ [shut reason d]) (if booked then release_slot room d else room) started.
Proof.
  intros Hr (Hd & Hs & Hi)%elem_of_running Ha Hfresh [Hl Hst Hc Hp Hn].
  split; [by apply ledger_stop| | | |].
  - intros. rewrite count_app, count_singleton. cbn. specialize (Hst ltac:(done)). lia.
  - rewrite count_app, count_singleton. cbn. by rewrite Z.add_0_r.
  - apply pass_snoc_ok; [done|]. exists d. naive_solver.
  - apply pass_snoc_nodup; [done|]. cbn. by intros i ->%list_elem_of_singleton.
Qed.

Lemma pass_start ps room started p pl : is_start p = true → proposal_platform view p = Some pl →
  (1 ≤ sl_global room)%Z → (1 ≤ slot room pl)%Z →
  (if is_target_start p
   then (1 ≤ sl_global room - sl_global held ∧ 1 ≤ slot room pl - slot held pl)%Z
   else ∀ q, q ∈ ps → is_target_start q = false) →
  (started < wv_maxConcurrentBoots view)%Z → wv_pressure view = pressure_none →
  proposal_ok view (ps ++ [p]) p → (∀ i, i ∈ proposal_device p → i ∉ ps ≫= proposal_device) →
  ok ps room started → ok (ps ++ [p]) (add_slot (-1) room pl) (started + 1).
Proof.
  intros Hst Hpl Hg Hsl Ht Hmax Hpr Hok Hfresh [Hl Hs Hc Hp Hn].
  specialize (Hs Hpr). split; [by apply ledger_start| | | |].
  - intros. rewrite count_app, count_singleton, Hst. lia.
  - rewrite count_app, count_singleton, Hst. lia.
  - by apply pass_snoc_ok.
  - by apply pass_snoc_nodup.
Qed.

(** A device of one state is not one a proposal about the other state is on. *)
Lemma fresh_boot ps d : (∀ p, p ∈ ps → proposal_ok view ps p) →
  d ∈ wv_devices view → v_state d = shutdown → v_id d ∉ boot_ids ps → v_id d ∉ ps ≫= proposal_device.
Proof.
  intros Hps Hd Hs Hb. rewrite list_elem_of_bind. intros (p & Hin & Hp). specialize (Hps p Hp).
  destruct p as [i r|i r t|sp r t]; cbn in Hin; [| |by apply elem_of_nil in Hin];
    apply list_elem_of_singleton in Hin as <-.
  - destruct Hps as (e & He & Hid & Hst & _). apply same_device in Hid; [|done..]. congruence.
  - apply Hb. apply list_elem_of_bind. eexists. split; [|exact Hp]. cbn. by left.
Qed.
Definition stop_ids ps : list string :=
  ps ≫= λ p, match p with ProposeShutdown i _ => [i] | _ => [] end.
Lemma fresh_stop ps d : (∀ p, p ∈ ps → proposal_ok view ps p) →
  d ∈ running_idle view → v_id d ∉ stop_ids ps → v_id d ∉ ps ≫= proposal_device.
Proof.
  intros Hps (Hd & Hs & _)%elem_of_running Hb. rewrite list_elem_of_bind. intros (p & Hin & Hp).
  specialize (Hps p Hp).
  destruct p as [i r|i r t|sp r t]; cbn in Hin; [| |by apply elem_of_nil in Hin];
    apply list_elem_of_singleton in Hin as <-.
  - apply Hb. apply list_elem_of_bind. eexists. split; [|exact Hp]. cbn. by left.
  - destruct Hps as (_ & e & He & Hid & Hst & _). apply same_device in Hid; [|done..]. congruence.
Qed.
Lemma stop_ids_app ps qs : stop_ids (ps ++ qs) = stop_ids ps ++ stop_ids qs.
Proof. apply bind_app. Qed.
Lemma stop_ids_shut reason ds : stop_ids (shut reason <$> ds) = v_id <$> ds.
Proof. unfold stop_ids. induction ds as [|d ds IH]; cbn; [done|]. by f_equal. Qed.

Lemma pass_stops ps room started ds reason : reason ≠ pool_disabled →
  (∀ d, d ∈ ds → d ∈ running_idle view ∧ awaited (wv_waiting view) d = false ∧ v_id d ∉ stop_ids ps) →
  NoDup (v_id <$> ds) → ok ps room started →
  ok (ps ++ (shut reason <$> ds)) (foldl release_slot room ds) started.
Proof.
  intros Hr. revert ps room. induction ds as [|d ds IH]; intros ps room Hds Hn Hok; cbn.
  { by rewrite app_nil_r. }
  change (shut reason d :: (shut reason <$> ds)) with ([shut reason d] ++ (shut reason <$> ds)).
  rewrite (assoc_L (++)). apply NoDup_cons in Hn as [Hnd Hn].
  destruct (Hds d ltac:(by left)) as (Hd & Ha & Hs).
  apply IH; [|done|].
  - intros e He. destruct (Hds e ltac:(by right)) as (He' & Hae & Hse). split_and!; [done..|].
    rewrite stop_ids_app. cbn. rewrite not_elem_of_app, list_elem_of_singleton. split; [done|].
    intros Heq. apply Hnd. rewrite <- Heq. by apply list_elem_of_fmap_2.
  - apply (pass_stop ps room started d reason true); [done..| |done].
    apply fresh_stop; [apply Hok|done..].
Qed.
End pass.

Section queue.
Context `{LocaleCompare} (view : WarmPolicyView) (room0 held : Slots) (base : list WarmProposal).
Context (Hids : NoDup (v_id <$> wv_devices view)).
Context (Hplatforms : ∀ demand, demand ∈ wv_waiting view → wd_platform demand = vs_platform (wd_spec demand)).
Context (Hpressure : wv_pressure view = pressure_none).

Record queue_ok (state : QueueState) : Prop := {
  qo_pass : pass_ok view room0 held (base ++ qs_proposals state) (qs_room state) (qs_started state);
  qo_taken : boot_ids (base ++ qs_proposals state) ⊆ qs_taken state;
  qo_starts p : p ∈ base ++ qs_proposals state → is_target_start p = false }.

Lemma bootForWaiter_ok state state' demand : demand ∈ wv_waiting view → wd_inFlight demand = false →
  bootForWaiter view (bootable_idle view) state demand = Some state' →
  queue_ok state → queue_ok state'.
Proof.
  intros Hd Hfl Hboot [Hok Htk Hst]. unfold bootForWaiter in Hboot.
  destruct (bootsOpen view state) eqn:Hopen; [cbn in Hboot|done]. apply Z.ltb_lt in Hopen.
  apply bind_Some in Hboot as (d & Hf & [= <-]).
  apply afind_Some in Hf as [Hb Hmay]. apply elem_of_bootable in Hb as (Hdev & Hs & Hg & Hi).
  unfold may_boot_for, hasRoom, Arr.includes in Hmay.
  rewrite !andb_true_iff, negb_true_iff, bool_decide_eq_false, bool_decide_eq_true, !Z.leb_le in Hmay.
  destruct Hmay as ((((Hnt & Hr1 & Hr2) & Hserve) & Hatt) & Hadm).
  split; cbn.
  - rewrite (assoc_L (++)). apply pass_start with (pl := vs_platform (v_spec d)); try done.
    + cbn. by apply platform_of_device.
    + split; [done|]. exists d. split_and!; try done.
      * exists None. split; [done|]. set_solver.
      * apply asome_true. exists demand. by rewrite Hfl.
    + cbn. intros i ->%list_elem_of_singleton. apply fresh_boot with view; try done; [apply Hok|].
      intros Hin. by apply Hnt, Htk.
  - rewrite (assoc_L (++)), boot_ids_app. cbn. set_solver.
  - rewrite (assoc_L (++)). intros p [Hp| ->%list_elem_of_singleton]%elem_of_app; [by apply Hst|done].
Qed.

Lemma createForWaiter_ok state demand head : demand ∈ wv_waiting view → wd_inFlight demand = false →
  queue_ok state → queue_ok (hold (wd_platform demand) (createForWaiter view state demand head)).
Proof.
  intros Hd Hfl [Hok Htk Hst]. unfold createForWaiter.
  destruct (head && _) eqn:Eh.
  { split; cbn; [|done..]. apply pass_hold. eapply pass_more; [|done]. lia. }
  destruct (_ && _ && _ && _) eqn:Ec; [|split; cbn; [|done..]; by apply pass_hold].
  unfold creatable in Ec.
  rewrite !andb_true_iff, bool_decide_eq_true, !Z.leb_le in Ec.
  destruct Ec as (((_ & (Hadm & Hg) & Hs) & Hopen) & Hatt). apply Z.ltb_lt in Hopen.
  split; cbn.
  - rewrite (assoc_L (++)). unfold holdSlot. rewrite Hplatforms by done.
    apply pass_start; try done.
    + cbn. split_and!; try done; [|by exists demand]. exists None. split; [done|]. set_solver.
    + cbn. by intros i ?%elem_of_nil.
  - rewrite (assoc_L (++)), boot_ids_app. cbn. by rewrite app_nil_r.
  - rewrite (assoc_L (++)). intros p [Hp| ->%list_elem_of_singleton]%elem_of_app; [by apply Hst|done].
Qed.

Lemma serve_demand_ok state demand : demand ∈ wv_waiting view → queue_ok state →
  queue_ok (serve_demand view (running_idle view) (bootable_idle view) state demand).
Proof.
  intros Hd Hq. unfold serve_demand.
  assert (queue_ok (state <| qs_atHead := false |>)) as Hq' by (by destruct Hq).
  destruct (wd_inFlight demand) eqn:Hfl.
  { destruct Hq. split; [by apply pass_hold|done..]. }
  destruct (find_unmatched _ _ (running_idle view)); [by destruct Hq|].
  destruct (find_unmatched _ _ (wv_onItsWay view)); [by destruct Hq|].
  destruct (bootForWaiter _ _ _ _) as [state'|] eqn:Eb.
  - by eapply bootForWaiter_ok.
  - by apply createForWaiter_ok.
Qed.

Lemma boots_ok room : pass_ok view room0 held base room (started_before view) →
  (∀ p, p ∈ base → is_start p = false) →
  queue_ok (boots view (running_idle view) (bootable_idle view) room).
Proof.
  intros Hok Hbase. unfold boots.
  assert (∀ ds state, (∀ d, d ∈ ds → d ∈ wv_waiting view) → queue_ok state →
    queue_ok (foldl (serve_demand view (running_idle view) (bootable_idle view)) state ds)) as Hfold.
  { induction ds as [|d ds IH]; intros state Hds Hq; [done|]. cbn.
    apply IH; [intros; apply Hds; by right|]. apply serve_demand_ok; [apply Hds; by left|done]. }
  apply Hfold; [done|]. split; cbn; rewrite app_nil_r; [done| |].
  - intros i (p & Hi & Hp)%list_elem_of_bind. specialize (Hbase p Hp). destruct p; [|done..].
    by apply elem_of_nil in Hi.
  - intros p Hp. specialize (Hbase p Hp). by destruct p.
Qed.
End queue.

(** The queue's pass shuts nothing down. *)
Lemma queue_starts view running bootable room p :
  p ∈ qs_proposals (boots view running bootable room) → is_start p = true.
Proof.
  unfold boots.
  assert (∀ ds st, (∀ p, p ∈ qs_proposals st → is_start p = true) →
    ∀ p, p ∈ qs_proposals (foldl (serve_demand view running bootable) st ds) → is_start p = true) as Hf.
  { induction ds as [|d ds IH]; intros st Hst; [done|]. cbn [foldl]. apply IH. clear IH p.
    assert (∀ q, is_start q = true → ∀ p, p ∈ qs_proposals st ++ [q] → is_start p = true) as Hsnoc.
    { intros q Hq p [Hp| ->%list_elem_of_singleton]%elem_of_app; auto. }
    unfold serve_demand. destruct (wd_inFlight d); [done|].
    destruct (find_unmatched _ _ running); [done|].
    destruct (find_unmatched _ _ (wv_onItsWay view)); [done|].
    destruct (bootForWaiter _ _ _ _) as [st'|] eqn:Eb.
    - unfold bootForWaiter in Eb. destruct (negb _); [done|].
      apply bind_Some in Eb as (e & _ & [= <-]). by apply Hsnoc.
    - unfold createForWaiter. destruct (_ && creatable _ _ _); [done|]. destruct (_ && _); [|done].
      by apply Hsnoc. }
  apply Hf. by intros q ?%elem_of_nil.
Qed.
Lemma no_displaced ps : (∀ p, p ∈ ps → is_start p = true) → displaced_ids ps = [].
Proof.
  induction ps as [|p ps IH]; intros Hs; [done|].
  change (p :: ps) with ([p] ++ ps). rewrite displaced_ids_app, IH by (intros q Hq; apply Hs; by right).
  specialize (Hs p ltac:(by left)). by destruct p.
Qed.

(** ** The targets' plan as steps: a start, or a displacement *)

Section target_steps.
Context (view : WarmPolicyView) (kinds : list PlannedKind) (bootable : list VirtualDevice).
Context (stuck : list Platform) (held : Slots) (isIdleDevice : VirtualDevice → bool).
Context (queued : list WarmProposal).
Local Abbreviation addOne := (addOne view bootable held).
Local Abbreviation displaceFor := (displaceFor view kinds bootable isIdleDevice).
Local Abbreviation displace_loop := (displace_loop view kinds bootable held isIdleDevice).
Local Abbreviation addDisplacing := (addDisplacing view kinds bootable held isIdleDevice).
Local Abbreviation fill_loop := (fill_loop view kinds bootable held isIdleDevice).
Local Abbreviation fillTarget := (fillTarget view kinds bootable stuck held isIdleDevice).
Local Abbreviation fill_configured := (fill_configured view kinds bootable stuck held isIdleDevice queued).
Local Abbreviation report_target := (report_target view kinds bootable stuck held isIdleDevice queued).

Inductive plan_step (plan : TargetPlan) : TargetPlan → Prop :=
| step_start spec plan' : wv_pressure view = pressure_none →
    wv_mayAttempt view spec (wv_now view) = true →
    (tp_started plan < wv_maxConcurrentBoots view)%Z →
    addOne plan spec = (plan', None) → plan_step plan plan'
| step_displace spec per plan' : displaceFor plan spec per = Some plan' → plan_step plan plan'.

Lemma addOne_refused plan spec plan' short : addOne plan spec = (plan', Some short) → plan' = plan.
Proof. unfold WarmPool.addOne. by destruct (refusedOne _ _ _ _ _); intros [=]. Qed.
Lemma displaceFor_frame plan spec per plan' : displaceFor plan spec per = Some plan' →
  tp_started plan' = tp_started plan ∧ length (tp_victims plan) = S (length (tp_victims plan')).
Proof.
  unfold WarmPool.displaceFor. intros (i & _ & (d & Hd & Hx)%bind_Some)%bind_Some.
  destruct (_ !== _); [done|]. injection Hx as <-. cbn. split; [done|].
  unfold Arr.removeAt. rewrite length_delete by (by eexists). pose proof (lookup_lt_Some _ _ _ Hd). lia.
Qed.

(** The loop ends because nothing more can be displaced or the refusal is not for a slot. *)
Lemma displace_loop_ends fuel plan spec per refused : length (tp_victims plan) ≤ fuel →
  let '(plan', refused') := displace_loop fuel plan spec per refused in
  slot_refusal per refused' = false ∨ displaceFor plan' spec per = None.
Proof.
  revert plan refused. induction fuel as [|fuel IH]; intros plan refused Hl; cbn.
  - right. unfold WarmPool.displaceFor. destruct (tp_victims plan) eqn:E; [|cbn in Hl; lia].
    by destruct (victim_for _ _ _ _ _ _).
  - destruct (slot_refusal per refused) eqn:Es; cbn; [|by left].
    destruct (displaceFor plan spec per) as [plan1|] eqn:Ed; [|by right].
    destruct (displaceFor_frame _ _ _ _ Ed) as [_ Hlen].
    destruct (addOne plan1 spec) as [plan2 refused2] eqn:Ea. destruct refused2 as [short|].
    + apply addOne_refused in Ea as ->. apply IH. lia.
    + assert (slot_refusal per None = false) as Hn by by destruct per.
      destruct fuel; cbn; [by left|]. rewrite Hn. by left.
Qed.

Section steps.
Context (Hpr : wv_pressure view = pressure_none).

Lemma addOne_steps plan spec : wv_mayAttempt view spec (wv_now view) = true →
  (tp_started plan < wv_maxConcurrentBoots view)%Z → rtc plan_step plan (addOne plan spec).1.
Proof.
  intros Ha Hs. destruct (addOne plan spec) as [plan' [short|]] eqn:E.
  - by apply addOne_refused in E as ->.
  - apply rtc_once. by eapply step_start.
Qed.
Lemma displace_loop_steps fuel plan spec per refused : wv_mayAttempt view spec (wv_now view) = true →
  refused = None ∨ (tp_started plan < wv_maxConcurrentBoots view)%Z →
  rtc plan_step plan (displace_loop fuel plan spec per refused).1.
Proof.
  intros Ha. revert plan refused. induction fuel as [|fuel IH]; intros plan refused Hs; cbn; [done|].
  destruct (slot_refusal per refused) eqn:Es; cbn; [|done].
  destruct Hs as [->|Hs]; [by destruct per|].
  destruct (displaceFor plan spec per) as [plan1|] eqn:Ed; [|done].
  destruct (displaceFor_frame _ _ _ _ Ed) as [Hst _].
  eapply rtc_l; [by eapply step_displace|].
  pose proof (addOne_steps plan1 spec Ha ltac:(lia)) as Hone.
  destruct (addOne plan1 spec) as [plan2 [short|]] eqn:Ea; (etrans; [exact Hone|]); apply IH.
  - right. apply addOne_refused in Ea as ->. lia.
  - by left.
Qed.
Lemma addDisplacing_steps plan spec per : wv_mayAttempt view spec (wv_now view) = true →
  (tp_started plan < wv_maxConcurrentBoots view)%Z → rtc plan_step plan (addDisplacing plan spec per).1.
Proof.
  intros Ha Hs. unfold WarmPool.addDisplacing. pose proof (addOne_steps plan spec Ha Hs) as Hone.
  destruct (addOne plan spec) as [plan' [short|]] eqn:E; (etrans; [exact Hone|]);
    apply displace_loop_steps; try done; [|by left].
  right. apply addOne_refused in E as ->. lia.
Qed.
Lemma fill_loop_steps n plan spec filling per added : wv_mayAttempt view spec (wv_now view) = true →
  rtc plan_step plan (fill_loop n plan spec filling per added).1.
Proof.
  intros Ha. revert plan added. induction n as [|n IH]; intros plan added; cbn; [done|].
  destruct (Z.ltb_spec (tp_started plan) (wv_maxConcurrentBoots view)) as [Hs|]; cbn; [|done].
  pose proof (addDisplacing_steps plan spec per Ha Hs) as Hadd.
  destruct (addDisplacing plan spec per) as [plan' [short|]]; [done|]. etrans; [done|]. apply IH.
Qed.
End steps.

Lemma fillTarget_steps plan spec missing filling per :
  rtc plan_step plan (fillTarget plan spec missing filling per).1.
Proof.
  unfold WarmPool.fillTarget. destruct (holdFill _ _ _ _) eqn:Eh; [done|]. unfold holdFill in Eh.
  destruct (wv_pressure view !== pressure_none) eqn:Ep; [done|].
  rewrite negb_false_iff, bool_decide_eq_true in Ep.
  destruct (Arr.includes _ _); [done|]. destruct (wv_mayAttempt _ _ _) eqn:Ea; [|done].
  by apply fill_loop_steps.
Qed.
Lemma fill_configured_steps plan kind : rtc plan_step plan (fill_configured plan kind).1.
Proof.
  unfold WarmPool.fill_configured. cbv zeta. destruct (0 <? _)%Z; [|done]. apply fillTarget_steps.
Qed.
Lemma report_target_steps plan kind first : rtc plan_step plan (report_target plan kind first).1.
Proof.
  unfold WarmPool.report_target. cbv zeta. destruct (_ && _); [|done].
  match goal with |- context [WarmPool.fillTarget ?a ?b ?c ?d ?e ?f plan ?g ?h ?i ?j] =>
    pose proof (fillTarget_steps plan g h i j) as Hf;
    destruct (WarmPool.fillTarget a b c d e f plan g h i j) end. done.
Qed.
Lemma first_fills_steps plan ks :
  rtc plan_step plan (first_fills view kinds bootable stuck held isIdleDevice queued plan ks).1.
Proof.
  revert plan. induction ks as [|kind ks IH]; intros plan; cbn [first_fills]; [done|].
  pose proof (fill_configured_steps plan kind) as Hf.
  destruct (fill_configured plan kind) as [plan' filled]. specialize (IH plan').
  destruct (first_fills _ _ _ _ _ _ _ plan' ks) as [plan'' rest]. cbn in *. by etrans.
Qed.
Lemma target_reports_steps plan ks first :
  rtc plan_step plan (target_reports view kinds bootable stuck held isIdleDevice queued plan ks first).1.
Proof.
  revert plan first. induction ks as [|kind ks IH]; intros plan first; cbn [target_reports]; [done|].
  pose proof (report_target_steps plan kind (default (0%Z, None) (head first))) as Hf.
  destruct (report_target plan kind _) as [plan' report]. specialize (IH plan' (tail first)).
  destruct (target_reports _ _ _ _ _ _ _ plan' ks _) as [plan'' rest]. cbn in *. by etrans.
Qed.
Lemma planTargets_steps plan :
  rtc plan_step plan (planTargets view kinds bootable stuck held isIdleDevice queued plan).1.
Proof.
  unfold planTargets. pose proof (first_fills_steps plan kinds) as Hf.
  destruct (first_fills _ _ _ _ _ _ _ plan kinds) as [plan' first]. etrans; [done|].
  apply target_reports_steps.
Qed.
End target_steps.

Lemma shortOf_None r : shortOf r = None → r = None.
Proof. by destruct r as [[]|]. Qed.
Lemma slotShort_None room held p : slotShort room held p = None →
  (1 ≤ sl_global room ∧ 1 ≤ slot room p
   ∧ 1 ≤ sl_global room - sl_global held ∧ 1 ≤ slot room p - slot held p)%Z.
Proof.
  unfold slotShort. destruct (_ || _) eqn:E; [done|].
  destruct ((_ <? 1)%Z || _) eqn:E' in |- *; [done|]. rewrite orb_false_iff, !Z.ltb_ge in E, E'. lia.
Qed.

Section target_pass.
Context `{LocaleCompare} (view : WarmPolicyView) (room0 held : Slots) (base : list WarmProposal).
Context (kinds : list PlannedKind).
Context (Hids : NoDup (v_id <$> wv_devices view)).
Local Abbreviation plan_step := (plan_step view kinds (bootable_idle view) held (idle_now view)).

Record target_ok (plan : TargetPlan) : Prop := {
  to_pass : pass_ok view room0 held (base ++ tp_proposals plan) (tp_room plan) (tp_started plan);
  to_taken i : i ∈ tp_taken plan ↔ i ∈ boot_ids (base ++ tp_proposals plan);
  to_victims d : d ∈ tp_victims plan → d ∈ running_idle view ∧ awaited (wv_waiting view) d = false
    ∧ v_id d ∉ stop_ids (base ++ tp_proposals plan);
  to_victim_ids : NoDup (v_id <$> tp_victims plan);
  to_displaced : tp_displaced plan = displaced_ids (tp_proposals plan) }.

Lemma down_displaced plan (down : list string) ps : target_ok plan → down = tp_displaced plan →
  down ⊆ displaced_ids ((base ++ tp_proposals plan) ++ ps).
Proof. intros Hok ->. rewrite to_displaced, !displaced_ids_app by done. set_solver. Qed.

Lemma addOne_ok plan spec plan' : wv_pressure view = pressure_none →
  wv_mayAttempt view spec (wv_now view) = true →
  (tp_started plan < wv_maxConcurrentBoots view)%Z →
  addOne view (bootable_idle view) held plan spec = (plan', None) → target_ok plan → target_ok plan'.
Proof.
  intros Hpr Ha Hst Hadd Hok. unfold addOne in Hadd.
  destruct (refusedOne _ _ _ _ _) eqn:Er; [done|]. unfold refusedOne in Er.
  assert (admitted_short view (bootable_idle view) plan spec (tp_displaced plan) = None
    ∧ slotShort (tp_room plan) held (vs_platform spec) = None) as [Had Hsl].
  { destruct (admitted_short _ _ _ _ _) as [[]|], (slotShort _ _ _); done. }
  clear Er. apply slotShort_None in Hsl as (Hg & Hp & Hg' & Hp').
  unfold admitted_short in Had. apply shortOf_None in Had. pose proof Hok as [Hpass Htk Hv Hvn Hdi].
  destruct (bootCandidate _ _ _ _) as [d|] eqn:Eb; injection Hadd as <-; unfold bootCandidate in Eb.
  - apply afind_Some in Eb as [(Hd & Hs & Hgr & Hi)%elem_of_bootable Hc].
    unfold Arr.includes, same_kind in Hc.
    rewrite !andb_true_iff, !negb_true_iff, !bool_decide_eq_false, sameSpec_virtual in Hc.
    destruct Hc as [[Hnt Hnr] <-]. split; cbn; rewrite ?(assoc_L (++)); [| | |done|].
    + apply pass_start; try done; cbn.
      * by apply platform_of_device.
      * split; [done|]. exists d. split_and!; try done. exists (Some (tp_displaced plan)).
        split; [done|]. by apply down_displaced.
      * intros i ->%list_elem_of_singleton. eapply fresh_boot; try done; [apply Hpass|]. by rewrite <- Htk.
    + intros i. rewrite boot_ids_app, elem_of_app, elem_of_cons, Htk. cbn.
      rewrite list_elem_of_singleton. tauto.
    + intros e He. destruct (Hv e He) as (? & ? & Hns). split_and!; [done..|].
      rewrite stop_ids_app. cbn. by rewrite app_nil_r.
    + rewrite displaced_ids_app. cbn. by rewrite app_nil_r.
  - rewrite afind_None in Eb. split; cbn; rewrite ?(assoc_L (++)); [| | |done|].
    + apply pass_start; try done; cbn; [|by intros i ?%elem_of_nil].
      split_and!; try done.
      * exists (Some (tp_displaced plan)). split; [done|]. by apply down_displaced.
      * intros d Hd Hs. specialize (Eb d Hd). unfold Arr.includes, same_kind in Eb.
        rewrite boot_ids_app, elem_of_app. rewrite <- Htk.
        assert (sameSpec (VSpec (v_spec d)) (VSpec spec) = true) as Hsame by by apply sameSpec_virtual.
        rewrite Hsame, andb_true_r, andb_false_iff, !negb_false_iff, !bool_decide_eq_true in Eb. tauto.
    + intros i. rewrite boot_ids_app, elem_of_app, Htk. cbn. rewrite elem_of_nil. tauto.
    + intros e He. destruct (Hv e He) as (? & ? & Hns). split_and!; [done..|].
      rewrite stop_ids_app. cbn. by rewrite app_nil_r.
    + rewrite displaced_ids_app. cbn. by rewrite app_nil_r.
Qed.

Lemma displaceFor_inv isIdle bootable plan spec per plan' :
  displaceFor view kinds bootable isIdle plan spec per = Some plan' →
  ∃ i d, victim_for view kinds isIdle plan spec per = Some i ∧ tp_victims plan !! i = Some d
    ∧ plan' = plan <| tp_victims := Arr.removeAt i (tp_victims plan) |>
                   <| tp_displaced := tp_displaced plan ++ [v_id d] |>
                   <| tp_room := release_slot (tp_room plan) d |>
                   <| tp_proposals := tp_proposals plan ++ [shut displaced_for_kind d] |>.
Proof.
  unfold displaceFor. intros (i & Hi & (d & Hd & Hx)%bind_Some)%bind_Some.
  destruct (_ !== _); [done|]. injection Hx as <-. by exists i, d.
Qed.

Lemma displaceFor_ok plan spec per plan' :
  displaceFor view kinds (bootable_idle view) (idle_now view) plan spec per = Some plan' →
  target_ok plan → target_ok plan'.
Proof.
  intros (i & d & _ & Hd & ->)%displaceFor_inv [Hpass Htk Hv Hvn Hdi].
  assert (d ∈ tp_victims plan) as Hin by by eapply list_elem_of_lookup_2.
  destruct (Hv d Hin) as (Hr & Ha & Hns).
  pose proof (delete_Permutation _ _ _ Hd) as Hperm.
  assert (NoDup (v_id <$> d :: Arr.removeAt i (tp_victims plan))) as Hnd
    by by rewrite <- Hperm.
  apply NoDup_cons in Hnd as [Hfresh Hnd].
  split; cbn; rewrite ?(assoc_L (++)).
  - apply (pass_stop view room0 held Hids _ _ _ _ displaced_for_kind true); try done.
    eapply fresh_stop; try done. apply Hpass.
  - intros j. rewrite boot_ids_app. cbn. rewrite app_nil_r. apply Htk.
  - intros e He. assert (e ∈ tp_victims plan) as He'.
    { rewrite Hperm. by right. }
    destruct (Hv e He') as (? & ? & Hse). split_and!; [done..|].
    rewrite stop_ids_app, not_elem_of_app. split; [done|]. cbn. rewrite list_elem_of_singleton.
    intros Heq. apply Hfresh. rewrite <- Heq. by apply list_elem_of_fmap_2.
  - done.
  - rewrite displaced_ids_app, Hdi. done.
Qed.

Lemma steps_ok plan plan' : rtc plan_step plan plan' → target_ok plan → target_ok plan'.
Proof.
  induction 1 as [|plan plan1 plan' Hstep _ IH]; [done|]. intros Hok. apply IH.
  destruct Hstep as [spec plan1 Hpr Ha Hst Hadd|spec per plan1 Hd].
  - by eapply addOne_ok.
  - by eapply displaceFor_ok.
Qed.
End target_pass.

(** ** What the reports say *)

Section reports.
Context (view : WarmPolicyView) (kinds : list PlannedKind) (bootable : list VirtualDevice).
Context (stuck : list Platform) (held : Slots) (isIdleDevice : VirtualDevice → bool).
Context (queued : list WarmProposal).
Local Abbreviation fill_loop := (fill_loop view kinds bootable held isIdleDevice).
Local Abbreviation fillTarget := (fillTarget view kinds bootable stuck held isIdleDevice).
Local Abbreviation fill_configured := (fill_configured view kinds bootable stuck held isIdleDevice queued).
Local Abbreviation report_target := (report_target view kinds bootable stuck held isIdleDevice queued).
Local Abbreviation plan_step := (plan_step view kinds bootable held isIdleDevice).
Local Abbreviation max := (wv_maxConcurrentBoots view).

Lemma steps_started plan plan' : rtc plan_step plan plan' → (tp_started plan ≤ tp_started plan')%Z.
Proof.
  induction 1 as [|plan plan1 plan' Hstep _ IH]; [lia|].
  destruct Hstep as [spec plan1 _ _ _ Hadd|spec per plan1 Hd].
  - unfold addOne in Hadd. destruct (refusedOne _ _ _ _ _); [done|].
    destruct (bootCandidate _ _ _ _); injection Hadd as <-; cbn in IH; lia.
  - destruct (displaceFor_frame _ _ _ _ _ _ _ _ Hd). lia.
Qed.

(** A fill that is refused added nothing and had nothing under way; one that adds nothing and is not
    refused met a waiter that could not be served, or the cap. *)
Definition fill_result (plan' : TargetPlan) (spec : VirtualSpec) (missing : Z) (filling : bool)
    (r : Z * option TargetShort) : Prop :=
  (0 ≤ r.1)%Z ∧ (r.2 ≠ None → r.1 = 0%Z ∧ filling = false)
  ∧ (r.2 = None → r.1 = 0%Z → (0 < missing)%Z → filling = false →
     vs_platform spec ∈ stuck ∨ (max ≤ tp_started plan')%Z).

Lemma fill_loop_result n plan spec filling per added : (0 ≤ added)%Z →
  let '(plan', r) := fill_loop n plan spec filling per added in
  (added ≤ r.1)%Z ∧ (r.2 ≠ None → r.1 = 0%Z ∧ filling = false)
  ∧ (r.2 = None → r.1 = added → 0 < n → (added = 0)%Z → filling = false → (max ≤ tp_started plan')%Z).
Proof.
  revert plan added. induction n as [|n IH]; intros plan added Ha; cbn; [split_and!; (done || lia)|].
  destruct (Z.ltb_spec (tp_started plan) max) as [Hs|Hs]; cbn; [|split_and!; (done || lia)].
  destruct (addDisplacing _ _ _ _ _ _ _ _) as [plan' [short|]].
  - cbn. destruct (Z.ltb_spec 0 added); cbn; [split_and!; (done || lia)|].
    destruct filling; cbn; split_and!; try done; lia.
  - specialize (IH plan' (added + 1)%Z ltac:(lia)).
    destruct (fill_loop n plan' spec filling per (added + 1)%Z) as [plan'' r]. destruct IH as (? & ? & _).
    split_and!; [lia|done|lia].
Qed.
Lemma fillTarget_result plan spec missing filling per :
  let '(plan', r) := fillTarget plan spec missing filling per in
  fill_result plan' spec missing filling r.
Proof.
  unfold WarmPool.fillTarget, fill_result. destruct (holdFill _ _ _ _) as [short|] eqn:Eh.
  - unfold holdFill, heldByPressure in Eh. cbn. split; [done|].
    destruct (wv_pressure view !== _); [by destruct filling; injection Eh as <-|].
    destruct (Arr.includes _ _) eqn:Es.
    + injection Eh as <-. split; [done|]. intros. left. by apply bool_decide_eq_true in Es.
    + destruct (wv_mayAttempt _ _ _); [done|]. by destruct filling; injection Eh as <-.
  - pose proof (fill_loop_result (Z.to_nat missing) plan spec filling per 0 ltac:(lia)) as Hr.
    destruct (fill_loop _ _ _ _ _ _) as [plan' r]. destruct Hr as (? & ? & Hr).
    split_and!; [done..|]. intros. right. apply Hr; (done || lia).
Qed.

Lemma pending_pos spec : (0 ≤ pending view queued spec)%Z.
Proof. unfold pending. pose proof (count_pos (λ flying, same_kind flying spec) (wv_inFlight view)).
  match goal with |- context [count ?f queued] => pose proof (count_pos f queued) end. lia. Qed.

Definition first_result (kind : PlannedKind) (r : Z * option TargetShort) : Prop :=
  (0 ≤ r.1)%Z ∧ (r.2 ≠ None → r.1 = 0%Z ∧ pending view queued (pk_spec kind) = 0%Z).
Lemma fill_configured_result plan kind : first_result kind (fill_configured plan kind).2.
Proof.
  unfold WarmPool.fill_configured, first_result. cbv zeta. destruct (0 <? _)%Z; [|by cbn].
  match goal with |- context [WarmPool.fillTarget ?a ?b ?c ?d ?e ?f plan ?g ?h ?i ?j] =>
    pose proof (fillTarget_result plan g h i j) as Hr;
    destruct (WarmPool.fillTarget a b c d e f plan g h i j) as [plan' r] end.
  destruct Hr as (? & Hr & _). split; [done|]. cbn. intros Hn. destruct (Hr Hn) as [? Hf].
  apply Z.ltb_ge in Hf. pose proof (pending_pos (pk_spec kind)). split; [done|lia].
Qed.

(** How many of its kind a target wants ready. *)
Definition wanted (kind : PlannedKind) : Z :=
  Z.max (pk_configuredCount kind) (Z.max (pk_learnedCount kind - leasedOfKind view (pk_spec kind)) 1).
Definition report_ok (started : Z) (kind : PlannedKind) (r : TargetReport) : Prop :=
  tr_spec r = pk_spec kind ∧ tr_configuredCount r = pk_configuredCount kind
  ∧ (0 ≤ tr_booting r)%Z
  ∧ (tr_short r ≠ None → tr_booting r = 0%Z)
  ∧ (tr_short r = None → tr_booting r = 0%Z →
     (wanted kind ≤ tr_ready r)%Z ∨ vs_platform (pk_spec kind) ∈ stuck ∨ (max ≤ started)%Z).

Lemma report_target_ok plan kind first : first_result kind first →
  let '(plan', r) := report_target plan kind first in report_ok (tp_started plan') kind r.
Proof.
  intros [Hf Hfs]. unfold WarmPool.report_target, report_ok, wanted. cbv zeta.
  set (n := ready_now _ _ _ _). set (w := Z.max (pk_learnedCount kind - _) 1).
  pose proof (pending_pos (pk_spec kind)) as Hpos. set (f := pending _ _ _) in *.
  destruct first as [a s]. cbn [fst snd] in *. destruct s as [short|].
  { destruct (Hfs ltac:(done)) as [-> ->]. cbn. split_and!; (done || lia). }
  destruct (Z.ltb_spec 0 (Z.max (pk_configuredCount kind - n) (w - n) - f - a)) as [Hm|Hm]; cbn [andb].
  - js_eval. set (missing := (_ - f - a)%Z) in *.
    pose proof (fillTarget_result plan (pk_spec kind) missing (0 <? f + a)%Z origin_learned) as Hr.
    destruct (fillTarget plan (pk_spec kind) missing _ origin_learned) as [plan' [b t]].
    destruct Hr as (Hb & Hbs & Hbn). cbn in *. split_and!; [done..|lia| |].
    + intros Ht. destruct (Hbs Ht) as [-> Hz%Z.ltb_ge]. lia.
    + intros Ht Hz. right. apply Hbn; [done|lia|done|]. apply Z.ltb_ge. lia.
  - js_eval. cbn. split_and!; [done..|lia|done|]. intros _ Hz. left. unfold w in *. lia.
Qed.

Lemma first_fills_result plan ks :
  Forall2 first_result ks (first_fills view kinds bootable stuck held isIdleDevice queued plan ks).2.
Proof.
  revert plan. induction ks as [|kind ks IH]; intros plan; cbn [first_fills]; [constructor|].
  pose proof (fill_configured_result plan kind) as Hf.
  destruct (fill_configured plan kind) as [plan' filled]. specialize (IH plan').
  destruct (first_fills _ _ _ _ _ _ _ plan' ks) as [plan'' rest]. by constructor.
Qed.
Lemma report_ok_mono started started' kind r : (started ≤ started')%Z →
  report_ok started kind r → report_ok started' kind r.
Proof.
  intros Hs (? & ? & ? & ? & Hr). split_and!; [done..|]. intros Hn Hz.
  destruct (Hr Hn Hz) as [?|[?|?]]; [by left|by right; left|right; right; lia].
Qed.
Lemma target_reports_ok plan ks first : Forall2 first_result ks first →
  let '(plan', rs) := target_reports view kinds bootable stuck held isIdleDevice queued plan ks first in
  Forall2 (report_ok (tp_started plan')) ks rs.
Proof.
  intros Hf. revert plan. induction Hf as [|kind f ks first Hk Hf IH]; intros plan; cbn [target_reports].
  { constructor. }
  cbn [head tail default from_option Datatypes.id]. pose proof (report_target_ok plan kind f Hk) as Hr.
  destruct (report_target plan kind f) as [plan' r]. specialize (IH plan').
  pose proof (target_reports_steps view kinds bootable stuck held isIdleDevice queued plan' ks first) as Hst.
  destruct (target_reports _ _ _ _ _ _ _ plan' ks first) as [plan'' rs]. constructor; [|done].
  eapply report_ok_mono; [|done]. by apply steps_started.
Qed.
Lemma planTargets_reports plan :
  let '(plan', rs) := planTargets view kinds bootable stuck held isIdleDevice queued plan in
  Forall2 (report_ok (tp_started plan')) kinds rs.
Proof.
  unfold planTargets. pose proof (first_fills_result plan kinds) as Hf.
  destruct (first_fills _ _ _ _ _ _ _ plan kinds) as [plan' first]. by apply target_reports_ok.
Qed.
End reports.

(** ** Kinds: what the configuration asks for *)

(** How many devices of a spec the targets ask for together. *)
Definition configured (targets : list ResolvedTarget) (spec : VirtualSpec) : Z :=
  foldr (λ t n, if same_kind (rt_spec t) spec then (rt_count t + n)%Z else n) 0%Z targets.

Lemma same_kind_eq a b : same_kind a b = true ↔ a = b.
Proof. apply sameSpec_virtual. Qed.
Lemma same_kind_refl a : same_kind a a = true.
Proof. by apply same_kind_eq. Qed.

Lemma configured_app ts us spec : configured (ts ++ us) spec = (configured ts spec + configured us spec)%Z.
Proof. unfold configured. induction ts as [|t ts IH]; cbn; [done|]. destruct (same_kind _ _); lia. Qed.
Lemma configured_absent ts spec : spec ∉ rt_spec <$> ts → configured ts spec = 0%Z.
Proof.
  induction ts as [|t ts IH]; cbn; [done|]. rewrite not_elem_of_cons. intros [Hne Hn].
  destruct (same_kind _ _) eqn:E; [|by apply IH]. apply same_kind_eq in E. congruence.
Qed.
Lemma configured_at ts t i : NoDup (rt_spec <$> ts) → ts !! i = Some t →
  configured ts (rt_spec t) = rt_count t.
Proof.
  revert i. induction ts as [|u ts IH]; intros [|i] Hn Ht; [done..| |]; cbn in *;
    apply NoDup_cons in Hn as [Hu Hn].
  - injection Ht as ->. rewrite same_kind_refl. pose proof (configured_absent ts _ Hu) as Hz.
    unfold configured in Hz. lia.
  - specialize (IH i Hn Ht). destruct (same_kind (rt_spec u) (rt_spec t)) eqn:E; [|done].
    apply same_kind_eq in E. destruct Hu. rewrite E. apply list_elem_of_fmap_2.
    by eapply list_elem_of_lookup_2.
Qed.

Lemma fmap_alter_same {A B} (f : A → B) (g : A → A) i (l : list A) :
  (∀ x, f (g x) = f x) → f <$> alter g i l = f <$> l.
Proof.
  intros Hf. rewrite (list_fmap_alter f g Datatypes.id); [by apply list_alter_id|].
  by apply Forall_forall.
Qed.

Lemma merge_target_ok merged t : NoDup (rt_spec <$> merged) →
  NoDup (rt_spec <$> merge_target merged t)
  ∧ ∀ spec, configured (merge_target merged t) spec = (configured merged spec + configured [t] spec)%Z.
Proof.
  intros Hn. unfold merge_target. destruct (Arr.findIndex _ _) as [i|] eqn:E.
  - apply afindIndex_Some in E as (e & He & Hs%same_kind_eq & _).
    set (f := λ existing : ResolvedTarget, existing <| rt_count := (rt_count existing + rt_count t)%Z |>).
    split.
    + by rewrite fmap_alter_same.
    + intros spec. clear Hn. revert i He. induction merged as [|u merged IH]; intros [|i] He; [done..| |].
      * injection He as ->. cbn. rewrite Hs. destruct (same_kind _ _); lia.
      * specialize (IH i He). unfold configured in *. cbn in *. destruct (same_kind (rt_spec u) spec); lia.
  - rewrite afindIndex_None in E. rewrite fmap_app. split; [|by intros spec; apply configured_app].
    apply NoDup_app. split_and!; [done| |apply NoDup_singleton].
    intros spec (e & -> & He)%list_elem_of_fmap Hx%list_elem_of_singleton.
    specialize (E e He). by rewrite Hx, same_kind_refl in E.
Qed.
Lemma mergeTargets_ok ts : NoDup (rt_spec <$> mergeTargets ts)
  ∧ ∀ spec, configured (mergeTargets ts) spec = configured ts spec.
Proof.
  unfold mergeTargets.
  assert (∀ us, NoDup (rt_spec <$> us) → NoDup (rt_spec <$> foldl merge_target us ts)
    ∧ ∀ spec, configured (foldl merge_target us ts) spec
              = (configured us spec + configured ts spec)%Z) as Hf.
  { induction ts as [|t ts IH]; intros us Hu; cbn [foldl]; [split; [done|cbn; lia]|].
    destruct (merge_target_ok us t Hu) as [Hn Hc]. destruct (IH _ Hn) as [Hn' Hc']. split; [done|].
    intros spec. rewrite Hc', Hc. change (t :: ts) with ([t] ++ ts). rewrite configured_app. lia. }
  apply (Hf []). constructor.
Qed.

(** A planned kind as its spec, its configured count and where it comes from. *)
Definition kind_proj (k : PlannedKind) : VirtualSpec * Z * KindOrigin :=
  (pk_spec k, pk_configuredCount k, pk_origin k).

(** The kinds: the merged targets, then the learned kinds that are none of them. *)
Lemma plannedKinds_shape targets learned : ∃ extra,
  kind_proj <$> plannedKinds (mergeTargets targets) learned
    = ((λ t, (rt_spec t, rt_count t, origin_configured)) <$> mergeTargets targets)
      ++ ((λ s, (s, 0%Z, origin_learned)) <$> extra)
  ∧ NoDup (pk_spec <$> plannedKinds (mergeTargets targets) learned).
Proof.
  unfold plannedKinds. set (start := _ <$> mergeTargets targets) in |- * at 1 3.
  assert (∀ kinds, NoDup (pk_spec <$> kinds) → ∃ extra,
    kind_proj <$> foldl plan_learned kinds learned
      = (kind_proj <$> kinds) ++ ((λ s, (s, 0%Z, origin_learned)) <$> extra)
    ∧ NoDup (pk_spec <$> foldl plan_learned kinds learned)) as Hf.
  { induction learned as [|k learned IH]; intros kinds Hn; cbn [foldl].
    { exists []. by rewrite app_nil_r. }
    unfold plan_learned at 2 4. destruct (Arr.findIndex _ _) as [i|] eqn:E.
    - match goal with |- context [alter ?g i kinds] => set (kinds' := alter g i kinds) end.
      assert (kind_proj <$> kinds' = kind_proj <$> kinds) as <- by by apply fmap_alter_same.
      apply IH. unfold kinds'. by rewrite fmap_alter_same.
    - rewrite afindIndex_None in E.
      destruct (IH (kinds ++ [MkPlannedKind (lk_spec k) 0 (lk_count k) origin_learned]))
        as (extra & Hx & Hnx).
      + rewrite fmap_app. apply NoDup_app. split_and!; [done| |apply NoDup_singleton].
        intros s (e & -> & He)%list_elem_of_fmap Hs%list_elem_of_singleton. specialize (E e He).
        by rewrite Hs, same_kind_refl in E.
      + exists (lk_spec k :: extra). split; [|done]. rewrite Hx, fmap_app. cbn.
        by rewrite <- (assoc_L (++)). }
  destruct (Hf start) as (extra & Hx & Hn).
  - unfold start. rewrite <- list_fmap_compose. apply mergeTargets_ok.
  - exists extra. split; [|done]. rewrite Hx. f_equal. unfold start. by rewrite <- list_fmap_compose.
Qed.

Section kinds.
Context (targets : list ResolvedTarget) (learned : list LearnedKind).
Local Abbreviation kinds := (plannedKinds (mergeTargets targets) learned).

Lemma kind_at i k : kinds !! i = Some k →
  (pk_origin k = origin_configured ∧ pk_configuredCount k = configured targets (pk_spec k)
   ∧ i < length (mergeTargets targets))
  ∨ (pk_origin k = origin_learned ∧ pk_configuredCount k = 0%Z ∧ length (mergeTargets targets) ≤ i
     ∧ configured targets (pk_spec k) = 0%Z).
Proof.
  intros Hk. destruct (plannedKinds_shape targets learned) as (extra & Hx & Hn).
  destruct (mergeTargets_ok targets) as [Hm Hc].
  assert ((kind_proj <$> kinds) !! i = Some (kind_proj k)) as Hi by by rewrite list_lookup_fmap, Hk.
  rewrite Hx in Hi. apply lookup_app_Some in Hi as [Hi|[Hlen Hi]].
  - left. pose proof (lookup_lt_Some _ _ _ Hi) as Hlt. rewrite length_fmap in Hlt.
    apply list_lookup_fmap_Some in Hi as (t & Heq & Ht). unfold kind_proj in Heq. injection Heq as Hs Hcnt Ho.
    split_and!; [done| |done]. rewrite Hcnt, Hs, <- Hc. symmetry. by eapply configured_at.
  - right. rewrite length_fmap in Hlen, Hi.
    apply list_lookup_fmap_Some in Hi as (s & Heq & Hs). unfold kind_proj in Heq. injection Heq as Hsp Hcnt Ho.
    split_and!; [done..|]. rewrite <- Hc. apply configured_absent. rewrite Hsp.
    assert (pk_spec <$> kinds = (rt_spec <$> mergeTargets targets) ++ extra) as Hspecs.
    { transitivity ((λ x : VirtualSpec * Z * KindOrigin, x.1.1) <$> (kind_proj <$> kinds)).
      - by rewrite <- list_fmap_compose.
      - rewrite Hx, fmap_app, <- !list_fmap_compose. f_equal. apply list_fmap_id. }
    rewrite Hspecs in Hn. apply NoDup_app in Hn as (_ & Hd & _). intros Hin.
    apply (Hd _ Hin). by eapply list_elem_of_lookup_2.
Qed.

Lemma kind_kept spec :
  default 0%Z (pk_configuredCount <$> Arr.find (λ e, same_kind (pk_spec e) spec) kinds)
  = configured targets spec.
Proof.
  destruct (Arr.find _ _) as [k|] eqn:E; cbn.
  - apply afind_Some in E as [[i Hi]%list_elem_of_lookup Hs%same_kind_eq]. subst spec.
    destruct (kind_at i k Hi) as [(_ & ? & _)|(_ & ? & _ & ?)]; [done|congruence].
  - rewrite afind_None in E. destruct (mergeTargets_ok targets) as [_ <-].
    symmetry. apply configured_absent. intros (t & -> & [i Hi]%list_elem_of_lookup)%list_elem_of_fmap.
    destruct (plannedKinds_shape targets learned) as (extra & Hx & _).
    assert ((kind_proj <$> kinds) !! i = Some (rt_spec t, rt_count t, origin_configured)) as Hk.
    { rewrite Hx. apply lookup_app_l_Some. by rewrite list_lookup_fmap, Hi. }
    apply list_lookup_fmap_Some in Hk as (k & Heq & Hk). unfold kind_proj in Heq. injection Heq as Hs _ _.
    specialize (E k ltac:(by eapply list_elem_of_lookup_2)). by rewrite Hs, same_kind_refl in E.
Qed.

Lemma learned_after spec i k spec' j : kind_index kinds spec = Some i → kinds !! i = Some k →
  pk_origin k = origin_learned → kind_index kinds spec' = Some j → i < j → configured targets spec' = 0%Z.
Proof.
  intros _ Hi Ho (k' & Hj & Hs%same_kind_eq & _)%afindIndex_Some Hlt. subst spec'.
  destruct (kind_at i k Hi) as [(? & _)|(_ & _ & Hlen & _)]; [congruence|].
  destruct (kind_at j k' Hj) as [(_ & _ & ?)|(_ & _ & _ & ?)]; [lia|done].
Qed.
End kinds.

(** ** Displacement *)

Lemma filter_drop_one {A} (P Q : A → bool) (d : A) l : NoDup l →
  (∀ x, x ∈ l → P x = true → Q x = false → x = d) →
  length (Arr.filter P l) ≤ length (Arr.filter (λ x, P x && Q x) l) + (if P d then 1 else 0).
Proof.
  unfold Arr.filter. induction 1 as [|x l Hx Hn IH]; intros HQ; cbn; [lia|].
  destruct (P x) eqn:EP; cbn; [|apply IH; intros y Hy; apply HQ; by right].
  destruct (Q x) eqn:EQ; cbn.
  { specialize (IH (λ y Hy, HQ y (list_elem_of_further _ _ _ Hy))). lia. }
  assert (x = d) as <- by (apply HQ; [by left|done..]). rewrite EP.
  assert (List.filter P l = List.filter (λ y, P y && Q y) l) as ->; [|lia].
  apply List.filter_ext_in. intros y Hy%list_elem_of_In. destruct (P y) eqn:EPy; [|done].
  destruct (Q y) eqn:EQy; [done|]. assert (y = x) as -> by (apply HQ; [by right|done..]). done.
Qed.

Definition ready_kept (view : WarmPolicyView) (down : list string) (spec : VirtualSpec) : Z :=
  Z.of_nat (length (readyOfKind (wv_devices view)
    (λ d, idle_now view d && negb (Arr.includes (v_id d) down)) spec)).

Lemma ready_kept_snoc view down d spec : NoDup (v_id <$> wv_devices view) → d ∈ wv_devices view →
  (ready_kept view down spec ≤ ready_kept view (down ++ [v_id d]) spec
     + (if same_kind (v_spec d) spec then 1 else 0))%Z.
Proof.
  intros Hids Hd. unfold ready_kept, readyOfKind. rewrite !sort_by_perm.
  set (P := λ x, (v_state x === ready) && (idle_now view x && negb (Arr.includes (v_id x) down))
                 && grantable x && same_kind (v_spec x) spec).
  set (Q := λ x, v_id x !== v_id d).
  pose proof (filter_drop_one P Q d (wv_devices view) (NoDup_fmap_1 _ _ Hids)) as Hle.
  assert (Arr.filter (λ x, P x && Q x) (wv_devices view) =
    Arr.filter (λ x, (v_state x === ready)
      && (idle_now view x && negb (Arr.includes (v_id x) (down ++ [v_id d])))
      && grantable x && same_kind (v_spec x) spec) (wv_devices view)) as <-.
  { apply List.filter_ext. intros x. unfold P, Q, Arr.includes.
    rewrite (bool_decide_ext (v_id x ∈ down ++ [v_id d]) (v_id x ∈ down ∨ v_id x = v_id d))
      by (rewrite elem_of_app, list_elem_of_singleton; done).
    rewrite bool_decide_or. destruct (v_state x === ready), (idle_now view x), (bool_decide (v_id x ∈ down)),
      (bool_decide (v_id x = v_id d)), (grantable x), (same_kind _ _); done. }
  assert (∀ x, x ∈ wv_devices view → P x = true → Q x = false → x = d) as HQ.
  { intros x Hx _ Hq. unfold Q in Hq. rewrite negb_false_iff, bool_decide_eq_true in Hq.
    by apply (NoDup_fmap_inj_on v_id (wv_devices view)). }
  specialize (Hle HQ). unfold P at 3 in Hle. destruct (same_kind (v_spec d) spec).
  - destruct (_ && _ && _ && _) in Hle; lia.
  - rewrite andb_false_r in Hle. lia.
Qed.

Section displacement.
Context `{LocaleCompare} (view : WarmPolicyView) (room0 held : Slots) (base : list WarmProposal).
Context (learned : list LearnedKind).
Local Abbreviation kinds := (plannedKinds (mergeTargets (wv_targets view)) learned).
Context (Hids : NoDup (v_id <$> wv_devices view)).
Local Abbreviation plan_step := (plan_step view kinds (bootable_idle view) held (idle_now view)).

(** A device displaced for a learned count is of no configured kind; one displaced for a configured
    count leaves its own kind with its count. *)
Lemma victim_spared plan spec per i d : victim_for view kinds (idle_now view) plan spec per = Some i →
  tp_victims plan !! i = Some d →
  configured (wv_targets view) (v_spec d) = 0%Z
  ∨ (configured (wv_targets view) (v_spec d) < ready_kept view (tp_displaced plan) (v_spec d))%Z.
Proof.
  destruct per; cbn.
  - intros (e & He & Hc & _)%afindIndex_Some Hd. rewrite Hd in He. injection He as <-. right.
    destruct (_ || _); [done|]. rewrite kind_kept in Hc. by apply Z.ltb_lt in Hc.
  - unfold learnedVictim. destruct (kind_index kinds spec) as [index|] eqn:Ei; [|done].
    destruct (_ !== _) eqn:Eo; [done|]. rewrite negb_false_iff, bool_decide_eq_true in Eo.
    apply fmap_Some in Eo as (k & Hk & Ho).
    intros (e & He & Hc & _)%afindIndex_Some Hd. rewrite Hd in He. injection He as <-. left.
    destruct (kind_index kinds (v_spec d)) as [j|] eqn:Ej; [|done].
    apply andb_true_iff in Hc as [Hlt%Nat.ltb_lt _].
    by eapply (learned_after (wv_targets view) learned spec index k _ j).
Qed.

Lemma steps_spare plan plan' : rtc plan_step plan plan' → target_ok view room0 held base plan →
  (∀ spec, Z.min (ready_kept view [] spec) (configured (wv_targets view) spec)
           ≤ ready_kept view (tp_displaced plan) spec)%Z →
  ∀ spec, (Z.min (ready_kept view [] spec) (configured (wv_targets view) spec)
           ≤ ready_kept view (tp_displaced plan') spec)%Z.
Proof.
  induction 1 as [|plan plan1 plan' Hstep _ IH]; [done|]. intros Hok Hsp.
  apply IH; [by eapply steps_ok; [|apply rtc_once|]|]. clear IH.
  destruct Hstep as [spec plan1 _ _ _ Hadd|spec per plan1 Hdis].
  - unfold addOne in Hadd. destruct (refusedOne _ _ _ _ _); [done|].
    destruct (bootCandidate _ _ _ _); injection Hadd as <-; done.
  - apply displaceFor_inv in Hdis as (i & d & Hv & Hd & ->). intros s. cbn.
    destruct (to_victims _ _ _ _ _ Hok d ltac:(by eapply list_elem_of_lookup_2))
      as ((Hdev & _)%elem_of_running & _).
    pose proof (ready_kept_snoc view (tp_displaced plan) d s Hids Hdev) as Hsn. specialize (Hsp s).
    destruct (same_kind (v_spec d) s) eqn:Es; [|lia]. apply same_kind_eq in Es. subst s.
    assert (0 ≤ ready_kept view (tp_displaced plan ++ [v_id d]) (v_spec d))%Z by (unfold ready_kept; lia).
    destruct (victim_spared _ _ _ _ _ Hv Hd); lia.
Qed.
End displacement.

(** ** The pass as a whole *)

Section whole.
Context `{LocaleCompare} (view : WarmPolicyView).
Context (Hids : NoDup (v_id <$> wv_devices view)).
Context (Hplatforms : ∀ demand, demand ∈ wv_waiting view → wd_platform demand = vs_platform (wd_spec demand)).
Local Abbreviation ok := (pass_ok view (roomOf (wv_capacity view)) (reservedOf view)).

Lemma budget_pass_spec (R : VirtualDevice → VirtualDevice → Prop) :
  wv_handoffInFlight view = false → StronglySorted R (running_idle view) →
  ∃ rest, Arr.filter (λ d, negb (awaited (wv_waiting view) d)) (running_idle view)
            ≡ₚ (budget_pass view).1 ++ rest
    ∧ nextVictim (reservedOf view) (budget_pass view).2 rest = None
    ∧ (budget_pass view).2 = foldl release_slot (roomOf (wv_capacity view)) (budget_pass view).1
    ∧ (Z.of_nat (length (budget_pass view).1)
       ≤ deficit (reservedOf view) (roomOf (wv_capacity view)))%Z
    ∧ ∀ d e, d ∈ (budget_pass view).1 → e ∈ rest →
        vs_platform (v_spec d) = vs_platform (v_spec e) → R d e.
Proof.
  intros Hh Hs. unfold budget_pass, overBudget. rewrite Hh.
  match goal with |- context [over_budget_loop (length ?l) ?h ?r ?l] =>
    pose proof (over_budget_loop_spec (length l) h r l R ltac:(done)
      ltac:(by apply StronglySorted_afilter)) as Hspec;
    destruct (over_budget_loop (length l) h r l) as [victims room'] end.
  destruct Hspec as (-> & Hlen & rest & Hp & Hn & HR). exists rest. split_and!; [done..| |done].
  cbn [fst]. unfold deficit, deficit_in in *. lia.
Qed.
Lemma always_sorted : StronglySorted (λ _ _, True) (running_idle view).
Proof. induction (running_idle view); constructor; [done|]. by apply Forall_forall. Qed.

Lemma budget_victims d : d ∈ (budget_pass view).1 →
  d ∈ running_idle view ∧ awaited (wv_waiting view) d = false.
Proof.
  unfold budget_pass. destruct (wv_handoffInFlight view) eqn:Hh; [by intros ?%elem_of_nil|].
  intros Hd. destruct (budget_pass_spec (λ _ _, True) Hh always_sorted) as (rest & Hp & _). unfold budget_pass in Hp. rewrite Hh in Hp.
  assert (d ∈ Arr.filter (λ d, negb (awaited (wv_waiting view) d)) (running_idle view)) as Hin.
  { rewrite Hp, elem_of_app. by left. }
  apply elem_of_afilter in Hin as [Hr Ha]. by rewrite negb_true_iff in Ha.
Qed.
Lemma budget_NoDup : NoDup (v_id <$> (budget_pass view).1).
Proof.
  destruct (wv_handoffInFlight view) eqn:Hh.
  { unfold budget_pass. rewrite Hh. constructor. }
  destruct (budget_pass_spec (λ _ _, True) Hh always_sorted) as (rest & Hp & _).
  assert (NoDup (v_id <$> (budget_pass view).1 ++ rest)) as Hn.
  { rewrite <- Hp. eapply sublist_NoDup; [by apply running_NoDup|]. apply fmap_sublist, sublist_filter_b. }
  rewrite fmap_app in Hn. by apply NoDup_app in Hn as [Hn _].
Qed.
Lemma budget_room : (budget_pass view).2
  = foldl release_slot (roomOf (wv_capacity view)) (budget_pass view).1.
Proof.
  destruct (wv_handoffInFlight view) eqn:Hh.
  - unfold budget_pass. by rewrite Hh.
  - destruct (budget_pass_spec (λ _ _, True) Hh always_sorted) as (rest & _ & _ & Hr & _). done.
Qed.

Lemma awaited_targeted targets learned d : d ∈ running_idle view →
  v_id d ∉ targetedDevices view targets learned (wv_waiting view) → awaited (wv_waiting view) d = false.
Proof.
  intros (Hd & Hs & Hi)%elem_of_running Hk. destruct (awaited _ d) eqn:Ea; [|done]. exfalso. apply Hk.
  unfold targetedDevices. apply elem_of_app. right. apply list_elem_of_fmap_2, elem_of_afilter.
  split; [done|]. rewrite Ea. unfold idle_now in Hi. rewrite Hi, !andb_true_r. by apply bool_decide_eq_true.
Qed.

Lemma idle_victims d : d ∈ (idle_pass view).1 → d ∈ running_idle view
  ∧ awaited (wv_waiting view) d = false ∧ v_id d ∉ v_id <$> (budget_pass view).1.
Proof.
  unfold idle_pass, neverLeasedIdle. cbn [fst]. rewrite elem_of_afilter.
  unfold Arr.includes. rewrite negb_true_iff, !orb_false_iff, !bool_decide_eq_false.
  intros (Hr & ((_ & Hk) & Ha) & _). split_and!; [done| |done]. by eapply awaited_targeted.
Qed.
Lemma idle_NoDup : NoDup (v_id <$> (idle_pass view).1).
Proof.
  unfold idle_pass, neverLeasedIdle. cbn [fst].
  eapply sublist_NoDup; [by apply running_NoDup|]. apply fmap_sublist, sublist_filter_b.
Qed.
Lemma shed_victims d : d ∈ shed_pass view → d ∈ running_idle view
  ∧ awaited (wv_waiting view) d = false ∧ v_id d ∉ v_id <$> (budget_pass view).1 ++ (idle_pass view).1.
Proof.
  unfold shed_pass, shedForPressure. destruct (_ || _); [by intros ?%elem_of_nil|].
  match goal with |- context [Arr.filter ?f (running_idle view)] => set (cs := Arr.filter f (running_idle view)) end.
  assert (∀ e, e ∈ cs → e ∈ running_idle view ∧ awaited (wv_waiting view) e = false
    ∧ v_id e ∉ v_id <$> (budget_pass view).1 ++ (idle_pass view).1) as Hcs.
  { intros e (Hr & Hf)%elem_of_afilter. unfold Arr.includes in Hf.
    rewrite !andb_true_iff, !negb_true_iff, !bool_decide_eq_false in Hf. naive_solver. }
  cbv zeta. destruct (Arr.find _ cs) as [v|] eqn:Ef.
  - intros ->%list_elem_of_singleton. by apply afind_Some in Ef as [?%Hcs _].
  - destruct cs as [|e cs']; [by intros ?%elem_of_nil|]. intros ->%list_elem_of_singleton. apply Hcs. by left.
Qed.

(** What the pass has proposed before it plans for the targets. *)
Definition before_targets : list WarmProposal :=
  (((shut over_budget <$> (budget_pass view).1) ++ qs_proposals (queued_pass view))
   ++ (shut never_leased_idle <$> (idle_pass view).1)) ++ (shut shed_memory_pressure <$> shed_pass view).

Lemma shut_no_start reason (ds : list VirtualDevice) p : p ∈ shut reason <$> ds → is_start p = false.
Proof. by intros (d & -> & _)%list_elem_of_fmap. Qed.
Lemma count_no_start ps : (∀ p, p ∈ ps → is_start p = false) → count is_start ps = 0%Z.
Proof. apply count_zero. Qed.

Lemma queued_pass_ok : let st := queued_pass view in
  ok ((shut over_budget <$> (budget_pass view).1) ++ qs_proposals st) (qs_room st) (qs_started st)
  ∧ (∀ i, i ∈ stop_ids (qs_proposals st) → False)
  ∧ displaced_ids (qs_proposals st) = []
  ∧ (∀ p, p ∈ qs_proposals st → is_start p = true).
Proof.
  assert (∀ started, (started_before view ≤ started)%Z ∨ wv_pressure view ≠ pressure_none →
    ok (shut over_budget <$> (budget_pass view).1) (budget_pass view).2 started) as Hbase.
  { intros started Hs.
    assert (ok [] (roomOf (wv_capacity view)) started) as Hnil.
    { split; [apply ledger_nil|cbn; unfold count; cbn; intuition lia|by left|
        by intros p ?%elem_of_nil|constructor]. }
    rewrite budget_room. apply (pass_stops view _ _ Hids [] _ _ _ over_budget); try done;
      [|apply budget_NoDup]. intros d Hd. destruct (budget_victims d Hd). split_and!; [done..|].
    apply not_elem_of_nil. }
  intros st. unfold st, queued_pass, queue_pass. destruct (wv_pressure view === pressure_none) eqn:Ep.
  - apply bool_decide_eq_true in Ep.
    pose proof (boots_ok view (roomOf (wv_capacity view)) (reservedOf view)
      (shut over_budget <$> (budget_pass view).1) Hids Hplatforms Ep (budget_pass view).2
      (Hbase _ (or_introl (Z.le_refl _))) (shut_no_start over_budget _)) as [Hok Htk Hst].
    split; [done|].
    assert (∀ p, p ∈ qs_proposals (boots view (running_idle view) (bootable_idle view)
      (budget_pass view).2) → is_start p = true) as Hs.
    { apply queue_starts. }
    split_and!; [| |done].
    + intros i (p & Hi & Hp)%list_elem_of_bind. specialize (Hs p Hp). destruct p; [done|..];
        by apply elem_of_nil in Hi.
    + apply no_displaced. done.
  - apply bool_decide_eq_false in Ep. cbn. rewrite app_nil_r. split_and!;
      [apply Hbase; by right|by intros i ?%elem_of_nil|done|by intros p ?%elem_of_nil].
Qed.

Lemma displaced_shut reason ds : reason ≠ displaced_for_kind → displaced_ids (shut reason <$> ds) = [].
Proof.
  intros Hr. induction ds as [|d ds IH]; [done|]. cbn [fmap list_fmap].
  change (shut reason d :: (shut reason <$> ds)) with ([shut reason d] ++ (shut reason <$> ds)).
  rewrite displaced_ids_app, IH. by destruct reason.
Qed.
Lemma boot_ids_shut reason ds : boot_ids (shut reason <$> ds) = [].
Proof. induction ds as [|d ds IH]; [done|]. apply IH. Qed.

Lemma before_targets_ok : ok before_targets (idle_pass view).2 (qs_started (queued_pass view)).
Proof.
  destruct queued_pass_ok as (Hq & Hstop & _).
  assert (ok (((shut over_budget <$> (budget_pass view).1) ++ qs_proposals (queued_pass view))
    ++ (shut never_leased_idle <$> (idle_pass view).1)) (idle_pass view).2
    (qs_started (queued_pass view))) as Hi.
  { apply pass_stops; try done; [|apply idle_NoDup]. intros d Hd.
    destruct (idle_victims d Hd) as (? & ? & Hn). split_and!; [done..|].
    rewrite stop_ids_app, not_elem_of_app, stop_ids_shut. split; [done|]. intros ?%Hstop. done. }
  unfold before_targets. destruct (shed_pass view) as [|d l] eqn:Es; [by rewrite app_nil_r|].
  assert (l = []) as ->.
  { unfold shed_pass in Es. destruct (shedForPressure _ _ _); cbn in Es; congruence. }
  destruct (shed_victims d) as (Hd & Ha & Hn); [rewrite Es; by left|].
  apply (pass_stop view _ _ Hids _ _ _ d shed_memory_pressure false); try done.
  eapply fresh_stop; try done; [apply Hi|].
  rewrite !stop_ids_app, !stop_ids_shut, !not_elem_of_app. rewrite fmap_app, not_elem_of_app in Hn.
  split_and!; try apply Hn. intros ?%Hstop. done.
Qed.

Lemma initial_ok : target_ok view (roomOf (wv_capacity view)) (reservedOf view) before_targets
  (MkTargetPlan (idle_pass view).2 (boot_ids (qs_proposals (queued_pass view))) [] (displaceable view)
     [] (qs_started (queued_pass view))).
Proof.
  destruct queued_pass_ok as (_ & Hstop & _ & _).
  split; cbn [tp_proposals tp_room tp_started tp_taken tp_victims tp_displaced]; rewrite ?app_nil_r.
  - apply before_targets_ok.
  - intros i. unfold before_targets. rewrite !boot_ids_app, !boot_ids_shut, !app_nil_r. done.
  - intros d. unfold displaceable. destruct (wv_handoffInFlight view); [by intros ?%elem_of_nil|].
    unfold Arr.includes. rewrite elem_of_afilter, andb_true_iff, !negb_true_iff, !bool_decide_eq_false.
    intros (Hd & Hn & Hsp). split_and!; [done|by eapply awaited_targeted|].
    unfold before_targets. rewrite !stop_ids_app, !stop_ids_shut, !not_elem_of_app.
    rewrite !fmap_app, !not_elem_of_app in Hn. split_and!; try apply Hn. intros ?%Hstop. done.
  - unfold displaceable. destruct (wv_handoffInFlight view); [constructor|].
    eapply sublist_NoDup; [by apply running_NoDup|]. apply fmap_sublist, sublist_filter_b.
  - done.
Qed.

Lemma target_pass_ok : target_ok view (roomOf (wv_capacity view)) (reservedOf view) before_targets
  (target_pass view).1.
Proof. unfold target_pass. eapply steps_ok; [done|apply planTargets_steps|apply initial_ok]. Qed.

Lemma evaluate_proposals : wv_enabled view = true →
  wp_proposals (evaluate view) = before_targets ++ tp_proposals (target_pass view).1.
Proof.
  intros He. unfold evaluate. rewrite He. cbn [negb wp_proposals]. unfold before_targets.
  by rewrite <- !(assoc_L (++)).
Qed.

Lemma evaluate_ok : wv_enabled view = true → ∃ room started,
  ok (wp_proposals (evaluate view)) room started.
Proof. intros He. rewrite evaluate_proposals by done. eexists _, _. apply target_pass_ok. Qed.

Lemma evaluate_disabled : wv_enabled view = false →
  wp_proposals (evaluate view) = shut pool_disabled <$> running_idle view.
Proof. intros He. unfold evaluate. by rewrite He. Qed.

(** ** The shutdowns for the budget, read off the plan *)

Definition over_budget_stop (p : WarmProposal) : bool :=
  match p with ProposeShutdown _ over_budget => true | _ => false end.
Definition over_stops_in (scope : option Platform) (ps : list WarmProposal) : Z :=
  count (λ p, over_budget_stop p && in_scope_of scope (proposal_platform view p)) ps.

Lemma steps_not_over kinds bootable held isIdle plan plan' :
  rtc (plan_step view kinds bootable held isIdle) plan plan' →
  (∀ p, p ∈ tp_proposals plan → over_budget_stop p = false) →
  ∀ p, p ∈ tp_proposals plan' → over_budget_stop p = false.
Proof.
  induction 1 as [|plan plan1 plan' Hstep _ IH]; [done|]. intros Hplan. apply IH. clear IH.
  assert (∀ q, over_budget_stop q = false →
    ∀ p, p ∈ tp_proposals plan ++ [q] → over_budget_stop p = false) as Hsnoc.
  { intros q Hq p [Hp| ->%list_elem_of_singleton]%elem_of_app; auto. }
  destruct Hstep as [spec plan1 _ _ _ Hadd|spec per plan1 Hd].
  - unfold addOne in Hadd. destruct (refusedOne _ _ _ _ _); [done|].
    destruct (bootCandidate _ _ _ _); injection Hadd as <-; by apply Hsnoc.
  - apply displaceFor_inv in Hd as (i & d & _ & _ & ->). by apply Hsnoc.
Qed.
Lemma target_proposals_not_over p : p ∈ tp_proposals (target_pass view).1 → over_budget_stop p = false.
Proof.
  revert p. unfold target_pass. eapply steps_not_over; [apply planTargets_steps|].
  by intros p ?%elem_of_nil.
Qed.

Lemma not_over_count scope ps : (∀ p, p ∈ ps → over_budget_stop p = false) → over_stops_in scope ps = 0%Z.
Proof. intros Hps. apply count_zero. intros p Hp. by rewrite Hps. Qed.

(** Everything after the budget's own part is something else. *)
Lemma evaluate_over : wv_enabled view = true → ∃ rest,
  wp_proposals (evaluate view) = (shut over_budget <$> (budget_pass view).1) ++ rest
  ∧ ∀ p, p ∈ rest → over_budget_stop p = false.
Proof.
  intros He. rewrite evaluate_proposals by done. unfold before_targets. rewrite <- !(assoc_L (++)).
  eexists. split; [done|]. intros p. rewrite !elem_of_app, !list_elem_of_fmap.
  intros [Hq|[(d & -> & _)|[(d & -> & _)|Ht]]]; [|done..|by apply target_proposals_not_over].
  destruct queued_pass_ok as (_ & _ & _ & Hs). specialize (Hs p Hq). by destruct p.
Qed.

Lemma over_stop_in d : wv_enabled view = true → d ∈ wv_devices view →
  ProposeShutdown (v_id d) over_budget ∈ wp_proposals (evaluate view) ↔ d ∈ (budget_pass view).1.
Proof.
  intros He Hd. destruct (evaluate_over He) as (rest & -> & Hrest). rewrite elem_of_app. split.
  - intros [(e & Heq & Hin)%list_elem_of_fmap|Hr]; [|by specialize (Hrest _ Hr)].
    injection Heq as Heq. destruct (budget_victims e Hin) as [(Hed & _)%elem_of_running _].
    by rewrite (same_device view Hids d e).
  - intros Hin. left. by apply (list_elem_of_fmap_2 (shut over_budget)).
Qed.

Lemma slot_in_releases room ds scope : (∀ d, d ∈ ds → d ∈ wv_devices view) →
  slot_in (foldl release_slot room ds) scope
  = (slot_in room scope + over_stops_in scope (shut over_budget <$> ds))%Z.
Proof.
  revert room. induction ds as [|d ds IH]; intros room Hds; cbn [foldl].
  { unfold over_stops_in, count. cbn. lia. }
  rewrite IH by (intros e He; apply Hds; by right). rewrite fmap_cons.
  change (shut over_budget d :: (shut over_budget <$> ds))
    with ([shut over_budget d] ++ (shut over_budget <$> ds)).
  unfold over_stops_in. rewrite count_app, count_singleton. cbn [over_budget_stop shut proposal_platform andb].
  rewrite platform_of_device by (try apply Hds; (done || by left)).
  unfold release_slot. rewrite slot_in_add. destruct (in_scope_of _ _); lia.
Qed.
Lemma over_stops_all scope : wv_enabled view = true →
  over_stops_in scope (wp_proposals (evaluate view))
  = over_stops_in scope (shut over_budget <$> (budget_pass view).1).
Proof.
  intros He. destruct (evaluate_over He) as (rest & -> & Hrest). unfold over_stops_in.
  rewrite count_app. pose proof (not_over_count scope rest Hrest) as Hz. unfold over_stops_in in Hz. lia.
Qed.
End whole.

(** ** The promises of a pass *)

(** What the converger gives the policy: the registry's devices, whose ids are distinct, and
    requests resolved to a spec of the platform they name. *)
Record view_ok (view : WarmPolicyView) : Prop := {
  vo_ids : NoDup (v_id <$> wv_devices view);
  vo_platforms demand : demand ∈ wv_waiting view → wd_platform demand = vs_platform (wd_spec demand) }.

Definition capacity_in (view : WarmPolicyView) (scope : option Platform) : RunningCapacityEntry :=
  match scope with None => rc_global (wv_capacity view) | Some p => rc_platform (wv_capacity view) p end.
Lemma slot_in_roomOf view scope : slot_in (roomOf (wv_capacity view)) scope
  = (maxRunning (capacity_in view scope) - running (capacity_in view scope)
     - reserved (capacity_in view scope))%Z.
Proof. by destruct scope as [[]|]. Qed.

(** C27. A pass proposes only what may be done. No two proposals are on one device. A shutdown is
    of a ready device with no lease and no operation on it, never (unless the pool is off) one
    a waiting request would be granted. A boot is of a stopped device that has served no lease and
    has none and no operation on it, for a waiting request it serves or a target whose spec is its
    own, and then never one an operator reset. A creation for a target happens only when every
    stopped device of the kind that is idle and has served no lease is booted in the same plan or was
    reset. Nothing is started under
    memory pressure, against the retry schedule, or against the capacity strategy's answer given
    the devices the plan displaces. With the pool off, exactly the ready idle devices are shut
    down. *)
Theorem warm_plan_safe `{LocaleCompare} view : view_ok view →
  let ps := wp_proposals (evaluate view) in
  (∀ p, p ∈ ps → proposal_ok view ps p)
  ∧ NoDup (ps ≫= proposal_device)
  ∧ (wv_enabled view = false → (∀ p, p ∈ ps → is_start p = false)
     ∧ ∀ d, d ∈ wv_devices view →
         v_id d ∈ ps ≫= proposal_device ↔ v_state d = ready ∧ idle_now view d = true).
Proof.
  intros [Hids Hpl] ps. unfold ps. destruct (wv_enabled view) eqn:He.
  - destruct (evaluate_ok view Hids Hpl He) as (room & started & [_ _ _ Hp Hn]). done.
  - rewrite evaluate_disabled by done.
    assert ((shut pool_disabled <$> running_idle view) ≫= proposal_device = v_id <$> running_idle view) as ->.
    { induction (running_idle view) as [|d l IH]; [done|]. cbn. by f_equal. }
    split_and!; [|by apply running_NoDup|].
    + intros p (d & -> & (Hd & Hs & Hi)%elem_of_running)%list_elem_of_fmap. exists d. naive_solver.
    + intros _. split; [by apply shut_no_start|]. intros d Hd. rewrite list_elem_of_fmap. split.
      * intros (e & Heq & (He' & Hs & Hi)%elem_of_running).
        by rewrite (same_device view Hids d e).
      * intros [Hs Hi]. exists d. by rewrite elem_of_running.
Qed.

(** C28. A pass stays within every limit. On the worker and on each platform, either nothing is
    started or what runs, what is reserved and what is started, less what is shut down, is within
    the running limit, and within it less the operator's reserve as soon as a target started
    something there. What the pool has in flight, the requests in flight and what is started are
    within the cap on boots at once, unless nothing is started. Under memory pressure nothing is
    started, and the pass that sheds names at most one device, and only on a new reading. *)
Theorem warm_plan_within_limits `{LocaleCompare} view : view_ok view → wv_enabled view = true →
  let ps := wp_proposals (evaluate view) in
  (∀ scope, let e := capacity_in view scope in
     let used := (running e + reserved e + starts_in view scope ps - stops_in view scope ps)%Z in
     (starts_in view scope ps = 0 ∨ used ≤ maxRunning e)%Z
     ∧ (target_starts_in view scope ps = 0
        ∨ used + slot_in (reservedOf view) scope ≤ maxRunning e)%Z)
  ∧ (count is_start ps = 0
     ∨ started_before view + count is_start ps ≤ wv_maxConcurrentBoots view)%Z
  ∧ (wv_pressure view ≠ pressure_none → ∀ p, p ∈ ps → is_start p = false)
  ∧ (length (shed_pass view) ≤ 1
     ∧ (shed_pass view ≠ [] → wv_pressure view ≠ pressure_none ∧ wv_mayShed view = true)).
Proof.
  intros [Hids Hpl] He ps. unfold ps.
  destruct (evaluate_ok view Hids Hpl He) as (room & started & [[_ Hl Hr] _ Hc Hp _]).
  split_and!; [|done| | |].
  - intros scope. specialize (Hl scope). specialize (Hr scope). rewrite slot_in_roomOf in Hl, Hr. lia.
  - intros Hpr p Hin. specialize (Hp p Hin). destruct p; cbn in *; [done|naive_solver..].
  - unfold shed_pass. destruct (shedForPressure _ _ _); cbn; lia.
  - unfold shed_pass, shedForPressure. destruct (_ || _) eqn:E; [done|].
    rewrite orb_false_iff, bool_decide_eq_false, negb_false_iff in E. done.
Qed.

(** The pool gives way to its budget. With no hand-off in flight, on the worker and on each
    platform, either the shutdowns for the budget bring what runs and is reserved under the limit
    less the operator's reserve, or every ready idle device there is shut down for it or is awaited
    by a request; there are no more of them than the limits are over, so none when nothing is
    over; and on a platform the least recently used go first. *)
Theorem warm_budget_restored `{LocaleCompareLaws} view : view_ok view → wv_enabled view = true →
  wv_handoffInFlight view = false →
  let ps := wp_proposals (evaluate view) in
  let over d := ProposeShutdown (v_id d) over_budget ∈ ps in
  let idle d := d ∈ wv_devices view ∧ v_state d = ready ∧ idle_now view d = true in
  (∀ scope, let e := capacity_in view scope in
     (running e + reserved e + slot_in (reservedOf view) scope
        ≤ maxRunning e + over_stops_in view scope ps)%Z
     ∨ ∀ d, idle d → in_scope_of scope (Some (vs_platform (v_spec d))) = true →
         over d ∨ awaited (wv_waiting view) d = true)
  ∧ (over_stops_in view None ps ≤ deficit (reservedOf view) (roomOf (wv_capacity view)))%Z
  ∧ (∀ d d', idle d → idle d' → vs_platform (v_spec d) = vs_platform (v_spec d') →
       over d → ¬ over d' → awaited (wv_waiting view) d' = false →
       (compareLeastRecentlyUsed d d' ≤ 0)%Z).
Proof.
  intros [Hids Hpl] He Hh ps over idle. unfold over, idle, ps.
  destruct (budget_pass_spec view (λ a b, compareLeastRecentlyUsed a b ≤ 0)%Z Hh
    (sort_by_sorted _ _)) as (rest & Hp & Hn & Hroom & Hlen & HR).
  assert (∀ d, d ∈ running_idle view → awaited (wv_waiting view) d = false →
    d ∉ (budget_pass view).1 → d ∈ rest) as Hrest.
  { intros d Hd Ha Hnb.
    assert (d ∈ (budget_pass view).1 ++ rest) as [?|?]%elem_of_app; [|done..].
    rewrite <- Hp. apply elem_of_afilter. by rewrite Ha. }
  assert (∀ d, d ∈ (budget_pass view).1 → d ∈ wv_devices view) as Hdev.
  { intros d Hd. by destruct (budget_victims view d Hd) as [(? & _)%elem_of_running _]. }
  split_and!.
  - intros scope. cbv zeta.
    destruct (decide (deficit_in (reservedOf view) (budget_pass view).2 scope = 0%Z)) as [Hz|Hz].
    + left. unfold deficit_in in Hz. rewrite Hroom, (slot_in_releases view), slot_in_roomOf in Hz by done.
      rewrite over_stops_all by done. lia.
    + right. intros d (Hd & Hs & Hi) Hsc. rewrite over_stop_in by done.
      destruct (awaited _ d) eqn:Ha; [by right|left].
      destruct (decide (d ∈ (budget_pass view).1)) as [|Hnb]; [done|]. exfalso.
      destruct (nextVictim_None _ _ _ Hn d) as [Hg Hpd]; [by apply Hrest; [apply elem_of_running|..]|].
      apply Hz. destruct scope as [q|]; [|done]. cbn in Hsc. apply bool_decide_eq_true in Hsc. by rewrite <- Hsc.
  - rewrite over_stops_all by done. unfold over_stops_in, count, Arr.filter.
    pose proof (filter_length_le (λ p, over_budget_stop p && in_scope_of None (proposal_platform view p))
      (shut over_budget <$> (budget_pass view).1)) as Hle. rewrite length_fmap in Hle. lia.
  - intros d d' (Hd & _) (Hd' & Hs & Hi) Hpd. rewrite !over_stop_in by done. intros Ho Hno Ha.
    apply HR; [done| |done]. apply Hrest; [by apply elem_of_running|done..].
Qed.

(** A report explains what a target lacks. The reports are those of the planned kinds, in
    order. A target reported short has nothing booting; a target that is not, and has nothing
    booting, has as many ready as it wants (its configured count, its learned peak less what is
    leased, and always one), unless a waiter of its platform could not be served or the cap on boots
    at once is used up. *)
Theorem warm_reports_explain `{LocaleCompare} view : wv_enabled view = true →
  Forall2 (report_ok view (qs_stuck (queued_pass view)) (tp_started (target_pass view).1))
    (planned_kinds view) (wp_targets (evaluate view)).
Proof.
  intros He. unfold evaluate. rewrite He. cbn [negb wp_targets]. unfold target_pass.
  match goal with |- context [planTargets ?v ?k ?b ?s ?h ?i ?q ?plan] =>
    pose proof (planTargets_reports v k b s h i q plan) as Hr;
    destruct (planTargets v k b s h i q plan) as [plan' rs] end. done.
Qed.

(** Making room for one kind never costs another its configured devices. For every spec, the
    ready devices of it that are left when everything the plan displaces is gone are at least as
    many as the targets configure for it, or all there were. *)
Theorem displacement_spares_targets `{LocaleCompare} view : view_ok view → wv_enabled view = true →
  ∀ spec, let down := displaced_ids (wp_proposals (evaluate view)) in
  (Z.min (readyCount (wv_devices view) (wv_leases view) (wv_isClaimed view) spec)
         (configured (wv_targets view) spec) ≤ ready_kept view down spec)%Z.
Proof.
  intros [Hids Hpl] He spec. cbv zeta.
  pose proof (target_pass_ok view Hids Hpl) as Hok. rewrite evaluate_proposals by done.
  rewrite displaced_ids_app, <- (to_displaced _ _ _ _ _ Hok).
  assert (displaced_ids (before_targets view) = []) as ->.
  { destruct (queued_pass_ok view Hids Hpl) as (_ & _ & Hd & _). unfold before_targets.
    by rewrite !displaced_ids_app, !displaced_shut, Hd. }
  assert (ready_kept view [] spec
    = readyCount (wv_devices view) (wv_leases view) (wv_isClaimed view) spec) as <-.
  { unfold ready_kept, readyCount, readyOfKind. rewrite !sort_by_perm. do 2 f_equal.
    apply List.filter_ext. intros d. unfold Arr.includes.
    rewrite (bool_decide_eq_false_2 (v_id d ∈ [])) by apply not_elem_of_nil. by rewrite andb_true_r. }
  revert spec. unfold target_pass. eapply steps_spare; [done|apply planTargets_steps|by apply initial_ok|].
  intros s. cbn. lia.
Qed.

(** ** A worker to look at *)

Definition pool_spec (model : string) : VirtualSpec := sample_spec <| vs_model := model |>.
Definition pool_device (i model : string) (state : DeviceState) : VirtualDevice :=
  (sample_virtual i state) <| v_spec := pool_spec model |>.
(** Three slots, two of them used: one by a device of a learned kind, one by a device nothing
    keeps. One request waits, and two targets ask for one device each, of which one is stopped. *)
Definition pool_view : WarmPolicyView :=
  let entry := MkEntry 2 3 0 false in
  MkWarmView
    [pool_device "dev_1" "iPhone A" ready; pool_device "dev_2" "iPhone C" shutdown;
     pool_device "dev_3" "iPhone X" ready] []
    [MkDemand false ios (exactRequirement (pool_spec "iPhone W")) full (pool_spec "iPhone W") (λ _, None)]
    (MkRunning entry entry (MkEntry 0 3 0 false)) (λ _, false) true 0 0 1000 5 1000000
    [MkTarget (pool_spec "iPhone C") 1; MkTarget (pool_spec "iPhone D") 1] []
    [MkLearned (pool_spec "iPhone A") 1 0] [] [] [] (λ _ _, true) (λ _ _, None) (λ _ _, None) false []
    pressure_none true [].

Example pool_view_plan :
  wp_proposals (@evaluate Codepoint.compare pool_view) =
    [ProposeShutdown "dev_3" never_leased_idle;
     ProposeBoot "dev_2" for_target (Some (pool_spec "iPhone C"));
     ProposeShutdown "dev_1" displaced_for_kind;
     ProposeProvision (pool_spec "iPhone D") for_target (pool_spec "iPhone D")]
  ∧ (tr_short <$> wp_targets (@evaluate Codepoint.compare pool_view))
    = [None; None; Some short_running_limit].
Proof. by vm_compute. Qed.

Lemma pool_view_ok : view_ok pool_view.
Proof.
  split.
  - apply (bool_decide_unpack (NoDup _)). by vm_compute.
  - by intros demand ->%list_elem_of_singleton.
Qed.
Lemma warm_plan_safe_witness :
  NoDup (wp_proposals (@evaluate Codepoint.compare pool_view) ≫= proposal_device).
Proof. apply (@warm_plan_safe Codepoint.compare pool_view pool_view_ok). Defined.
Lemma warm_plan_within_limits_witness :
  count is_start (wp_proposals (@evaluate Codepoint.compare pool_view)) = 2%Z
  ∧ (count is_start (wp_proposals (@evaluate Codepoint.compare pool_view)) = 0
     ∨ started_before pool_view + count is_start (wp_proposals (@evaluate Codepoint.compare pool_view))
       ≤ wv_maxConcurrentBoots pool_view)%Z.
Proof.
  split; [by vm_compute|].
  apply (@warm_plan_within_limits Codepoint.compare pool_view pool_view_ok eq_refl).
Defined.
(** With the limit lowered to one, the older of the two idle devices goes. *)
Definition crowded_view : WarmPolicyView :=
  let entry := MkEntry 2 1 0 true in
  MkWarmView (wv_devices pool_view) [] [] (MkRunning entry entry entry) (λ _, false) true 0 0 1000 5 0
    [] [] [] [] [] [] (λ _ _, true) (λ _ _, None) (λ _ _, None) false [] pressure_none true [].
Lemma warm_budget_restored_witness :
  wp_proposals (@evaluate Codepoint.compare crowded_view) = [ProposeShutdown "dev_1" over_budget]
  ∧ (over_stops_in crowded_view None (wp_proposals (@evaluate Codepoint.compare crowded_view)) ≤ 3)%Z.
Proof.
  split; [by vm_compute|].
  assert (view_ok crowded_view) as Hok by (split; [apply pool_view_ok|by intros d ?%elem_of_nil]).
  apply (@warm_budget_restored Codepoint.compare Codepoint.laws crowded_view Hok eq_refl eq_refl).
Defined.
Lemma warm_reports_explain_witness :
  length (wp_targets (@evaluate Codepoint.compare pool_view)) = 3.
Proof.
  rewrite <- (Forall2_length _ _ _ (@warm_reports_explain Codepoint.compare pool_view eq_refl)).
  by vm_compute.
Defined.
Lemma displacement_spares_targets_witness :
  displaced_ids (wp_proposals (@evaluate Codepoint.compare pool_view)) = ["dev_1"]
  ∧ (0 ≤ ready_kept pool_view ["dev_1"] (pool_spec "iPhone A"))%Z.
Proof.
  split; [by vm_compute|].
  exact (@displacement_spares_targets Codepoint.compare pool_view pool_view_ok eq_refl
    (pool_spec "iPhone A")).
Defined.
