(* ===== verification/Acquisition.v ===== *)
(** * Acquiring a device: [src/leasing/lease-acquisition-coordinator.ts]

    The coordinator takes a request in, plans for it in one section of the decision gate, and
    carries the plan out: a grant, a boot, a reboot, a new device, or an eviction after which it
    plans again. Its methods are flows over the state the daemon's flows share; a device is booted,
    stopped and destroyed by the operations of [Devices], made by [Provision], quarantined by
    [Quarantine], and granted by [Lifecycle]. Resolving a request to a spec is [Resolve]. Log lines
    are left out. *)
From stdpp Require Import base strings list option numbers gmap pretty.
From S2P Require Import Prelude JsString OsRange WaitQueue RequestBook Lifecycle AcquisitionState Domain RequestStore Capacity Claims Planner Registry RegistryInv Resolve Flow Devices Effects Quarantine Provision WarmPool.

(** What the next step of a drive is: another plan to carry out, or the whole drive again; or the drive ends because another drive of the waiter is running. *)
Inductive NextStep := Finished | DrivenElsewhere | NextPlan (plan : AcquisitionPlan) | DriveAgain.

Inductive GrantingPlanKind :=
  kind_grant_ready | kind_grant_physical | kind_boot_shutdown | kind_reboot_ready | kind_provision.
Definition GRANT_SOURCE (kind : GrantingPlanKind) : GrantSource :=
  match kind with
  | kind_boot_shutdown | kind_reboot_ready => src_booted
  | kind_grant_physical | kind_grant_ready => src_warm
  | kind_provision => src_provisioned
  end.

Definition blockedReason (plan : AcquisitionPlan) : WaitingReason :=
  match plan with
  | EvictRunning _ _ reason | EvictManaged _ _ reason | Wait reason | NoCapacity reason => reason
  | _ => no_free_physical
  end.
Definition operationPlan (plan : AcquisitionPlan) : option AcquisitionPlan :=
  match plan with
  | GrantReady _ | GrantPhysical _ _ | Wait _ | NoCapacity _ => None
  | plan => Some plan
  end.

(** Refusals of a request at admission. *)
Inductive RequestError :=
| BookRefused (e : BookError)
| RefusedUpdating
| RefusedNuke
| RefusedLimit (e : RequesterAlreadyLeasedError)
| LeaseIdTakenError (leaseId : string)
| RefusedOther (e : DeviceError).

Module Acquisition.
Import ManagedDevice.
Section coordinator.
(** The capacity strategy, the registry's options, the drivers with what they say of a device's
    environment, the id generator, the default lease time, the quarantine's configuration and the
    requester limit. *)
Context `{LocaleCompare} {S : Type} `{CapacityStrategy S} (strategy : S) (options : RegistryOptions)
  {Host : Type} (drivers : Platform → option (Driver (Host := Host)))
  (leaseEnvironment : Platform → DriverDevice → list (string * string))
  (generate : Shared → string) (defaultMs : Z) (retry_config : QuarantineRetryConfig)
  (maxPerRequester : option MaxPerRequester).
Local Abbreviation flow_of R := (flow Shared DriverCall DriverAnswer DeviceError R).
Local Abbreviation op A := (action Shared DeviceError A).
Implicit Types (h : nat) (plan : AcquisitionPlan).

Definition hasDriver (platform : Platform) : bool := bool_decide (is_Some (drivers platform)).
Definition estimate (platform : Platform) (operation : EstimateOperation) (spec : DeviceSpec) : Z :=
  match drivers platform with Some d => dr_estimate d operation spec | None => 0 end.

(** ** The parts of the state *)

Definition change (f : Acquiring → Acquiring) : op unit :=
  modify (λ s, s <| sh_acquiring := f (sh_acquiring s) |>).
Definition emit_event (e : AcquisitionEvent) : op unit :=
  change (λ a, a <| aq_events := aq_events a ++ [e] |>).
Definition on_queue {A} (m : Z → action WaitQueue QueueError A) : op A := λ s,
  match m (sh_now s) (aq_queue (sh_acquiring s)) with
  | (q, r) => (s <| sh_acquiring := (sh_acquiring s) <| aq_queue := q |> |>,
               match r with Ok a => Ok a | Err ForeignWaiterError => Err (PlainError "Waiter belongs to another queue") end)
  end.
(** The waiter object of a handle, and the fields the coordinator adds. *)
Definition waiter h : op Waiter := on_queue (λ _, mutable h).
Definition extra h : op AcquisitionWaiter :=
  s ← get; mret (default new_waiter (aq_waiters (sh_acquiring s) !! h)).
Definition set_extra h (f : AcquisitionWaiter → AcquisitionWaiter) : op unit :=
  change (λ a, a <| aq_waiters := <[h := f (default new_waiter (aq_waiters a !! h))]> (aq_waiters a) |>).
Definition leasing_of (s : Shared) : Leasing :=
  let e := aq_expiry (sh_acquiring s) in
  MkLeasing (sh_registry s) (ex_timers e) (ex_disposed e) (ex_due e) (ex_events e).
Definition on_leasing {A} (m : Z → action Leasing LifecycleError A) : op A := λ s,
  match m (sh_now s) (leasing_of s) with
  | (l, r) =>
      (s <| sh_registry := lg_registry l |>
         <| sh_acquiring := (sh_acquiring s) <| aq_expiry :=
              MkExpiry (lg_timers l) (lg_disposed l) (lg_due l) (lg_events l) |> |>,
       match r with
       | Ok a => Ok a
       | Err (FromRegistry e) => Err (RegistryThrew e)
       | Err (DeviceDisappeared i) => Err (PlainError ("Granted device disappeared from registry: " +:+ i))
       end)
  end.
Definition catch_op {A} (m : op A) (k : DeviceError → op A) : op A := λ s,
  match m s with (s', Ok a) => (s', Ok a) | (s', Err e) => k e s' end.
(** [this.options.drivers.get(platform)] *)
Definition driver_for (platform : Platform) : op (Driver (Host := Host)) :=
  lift match drivers platform with Some d => Ok d | None => Err (NoDriverError platform) end.

(** ** Helpers *)

(** [exceptOption]: a request's [except] counts only when the resolved spec is slim. *)
Definition exceptOption (w : Waiter) (x : AcquisitionWaiter) : option (list string) :=
  match rq_except (w_request w), aw_spec x with
  | Some except, Some spec => if vs_slim spec then Some except else None
  | _, _ => None
  end.

Definition releasePlanResources plan : op unit :=
  match plan with
  | Provision r => Provisioner.free r
  | BootShutdown r k _ => _ ← Provisioner.free r; modify (drop_claim k)
  | RebootReady k _ | GrantPhysical k _ | EvictRunning k _ _ | EvictManaged k _ _ => modify (drop_claim k)
  | GrantReady _ | Wait _ | NoCapacity _ => mret tt
  end.

Definition refusal_of (w : Waiter) (reason : RefusalReason) : LeaseRefusal :=
  MkRefusal (w_id w) (ro_requesterId (w_options w)) (w_request w) reason (ro_fleetRequestId (w_options w)).

Definition reject_waiter h (error : WaitError) (reason : RefusalReason) : op unit :=
  w ← waiter h;
  rejected ← on_queue (λ _, reject h error);
  if rejected : bool then emit_event (emitLeaseRefusal (refusal_of w reason)) else mret tt.

Definition enqueue_waiter h (reason : WaitingReason) : op unit :=
  w ← waiter h;
  alreadyQueued ← on_queue (λ _, isQueued h);
  queued ← on_queue (λ now, enqueue now h (Some reason));
  if queued && negb alreadyQueued then
    s ← get;
    let q := aq_queue (sh_acquiring s) in
    emit_event (EvLeaseQueued (if lineOf (w_request w) === line_physical then physicalDepth q else depth q)
                  (w_id w))
  else mret tt.

(** A waiter whose spec matches a device being reclaimed is told so. *)
Definition notifyReclaimWait h : op unit :=
  x ← extra h;
  match aw_spec x with
  | None => mret tt
  | Some spec =>
      s ← get;
      if Arr.some (λ d, (dev_state d === reclaiming) && sameSpec (dev_spec d) (VSpec spec)) (devices (sh_registry s))
      then
        driver ← driver_for (vs_platform spec);
        on_queue (λ _, notifyProgress h (ProgressReclaiming (releaseReclaimEstimateMs driver (VSpec spec))))
      else mret tt
  end.

Definition defer h (reason : WaitingReason) : op unit :=
  w ← waiter h;
  if ro_noWait (w_options w) then reject_waiter h (NoCapacityError reason) refused_no_wait
  else _ ← enqueue_waiter h reason; notifyReclaimWait h.

(** The queue will be woken in a section of its own. *)
Definition wakeQueue : op unit := change (λ a, a <| aq_wakes := Datatypes.S (aq_wakes a) |>).

(** ** Granting *)

Definition grant h (device : DeviceRecord) (kind : GrantingPlanKind) : op unit :=
  w ← waiter h;
  x ← extra h;
  s ← get;
  _ ← driver_for (spec_platform (dev_spec device));
  let o := w_options w in
  let input := {|
    gi_deviceId := dev_id device;
    gi_ownerId := ro_ownerId o;
    gi_requesterId := ro_requesterId o;
    gi_requestId := w_id w;
    gi_environment := leaseEnvironment (spec_platform (dev_spec device)) (toDriverDevice device);
    gi_timing := aw_timing x;
    gi_source := GRANT_SOURCE kind;
    gi_ttlMs := ro_ttlMs o;
    gi_leaseId := ro_leaseId o;
    gi_except := match device with
                 | Virtual v => if v_mode v === slim then exceptOption w x else None
                 | Physical _ => None
                 end;
    gi_fleetRequestId := ro_fleetRequestId o |} in
  granted ← on_leasing (λ now, Lifecycle.grant options defaultMs now (generate s) input);
  _ ← on_queue (λ _, WaitQueue.resolve h granted);
  mret tt.

(** ** Deciding *)

Definition refuseForUpdate h : op unit :=
  w ← waiter h;
  rejected ← on_queue (λ _, reject h DaemonUpdatingError);
  if rejected : bool then emit_event (emitLeaseRefusal (refusal_of w refused_updating)) else mret tt.
Definition refuseUnderHold h : op bool :=
  s ← get;
  if negb (aq_updateHold (sh_acquiring s)) then mret false else _ ← refuseForUpdate h; mret true.

(** A save between two decisions makes the newest version the one a waiting request gets. *)
Definition followBaseline h : op unit :=
  x ← extra h;
  match aw_spec x ≫= vs_baseline with
  | None => mret tt
  | Some named =>
      s ← get;
      match current_baseline (sh_baselines s) (bl_name named) with
      | None => mret tt
      | Some current =>
          if cb_version current === bl_version named then mret tt
          else
            let spec := baselineSpec current in
            set_extra h (λ x, x <| aw_spec := Some spec |> <| aw_requirement := Some (exactRequirement spec) |>)
      end
  end.

Definition snapshot_of (s : Shared) : AcquisitionPlannerSnapshot :=
  MkSnapshot (devices (sh_registry s)) (leases (sh_registry s)).
Definition on_planner (m : PlannerState → PlannerState * AcquisitionPlan) : op AcquisitionPlan := λ s,
  let '(st, plan) := m (MkPlannerState (sh_capacity s) (sh_claims s)) in
  (s <| sh_capacity := st_capacity st |> <| sh_claims := st_claims st |>, Ok plan).

Definition nextPlan h : op (option AcquisitionPlan) :=
  w ← waiter h;
  x ← extra h;
  match aw_spec x with
  | None => mret None
  | Some _ =>
      if (w_state w === w_rejected) || (w_state w === w_granted) then mret None else
      refused ← refuseUnderHold h;
      if refused : bool then mret None else
      _ ← followBaseline h;
      s ← get;
      let head := queue_head (aq_queue (sh_acquiring s)) in
      if (head !== None) && (head !== Some h) then mret (Some (blocked (ro_noWait (w_options w)) behind_earlier_request))
      else
        x ← extra h;
        match aw_spec x with
        | None => mret None
        | Some spec =>
            plan ← on_planner (λ st, Planner.plan strategy (aq_pressure (sh_acquiring s)) st {|
              in_noWait := ro_noWait (w_options w);
              in_owner := Some (w_id w);
              in_snapshot := snapshot_of s;
              in_spec := spec;
              in_requirement := aw_requirement x;
              in_rebootReady := Some (bool_decide (exceptOption w x ≠ None));
              in_classOf := aw_classOf x |});
            mret (Some plan)
        end
  end.

Definition decideGrantReady h (device : DeviceRecord) : op unit :=
  driver ← driver_for (spec_platform (dev_spec device));
  _ ← set_extra h (λ x, x <| aw_timing := grantReadyTiming driver (dev_spec device) |>);
  marked ← on_queue (λ now, markProcessing now h);
  if negb marked then mret tt else
  catch_op (_ ← grant h device kind_grant_ready; wakeQueue) (λ _, defer h waiting_for_device).

Definition decide h : op (option AcquisitionPlan) :=
  s ← get;
  w ← waiter h;
  if aq_admissionClosed (sh_acquiring s) && (w_state w !== w_rejected) then
    _ ← reject_waiter h NukeCancelledError refused_killed; mret None
  else if aq_stopPlanning (sh_acquiring s) then mret None
  else
    planned ← nextPlan h;
    match planned with
    | None => mret None
    | Some (GrantReady device) => _ ← decideGrantReady h device; mret None
    | Some plan =>
        match operationPlan plan with
        | None => _ ← defer h (blockedReason plan); mret None
        | Some operation =>
            marked ← on_queue (λ now, markProcessing now h);
            if marked : bool then mret (Some operation)
            else _ ← releasePlanResources operation; mret None
        end
    end.

(** ** Carrying a plan out *)

(** One count for provisions, boots and reboots: the first failure plans again, the second
    rejects. *)
Definition countFailure h (e : DeviceError) : flow_of NextStep :=
  retried ← gate (
    w ← waiter h;
    if w_state w === w_rejected then mret false else
    _ ← set_extra h (λ x, x <| aw_failures := (aw_failures x + 1)%Z |>);
    x ← extra h;
    if aw_failures x === 1%Z then _ ← on_queue (λ _, markNew h); mret true
    else
      _ ← reject_waiter h (ProvisionFailedError (device_error_message e))
            match ro_fleetRequestId (w_options w) with None => refused_unresolvable | Some _ => refused_no_wait end;
      mret false);
  if retried : bool then mret DriveAgain else _ ← gate wakeQueue; mret Finished.

(** A device that could not be destroyed may still be running: it is quarantined. *)
Definition destroyFailedBoot (device : VirtualDevice) (state : DeviceState) : flow_of unit :=
  destroyed ← try_catch
    (_ ← destroy options hasDriver device "lease-engine" op_cleanup None; mret true) (λ _, mret false);
  if destroyed : bool then mret tt
  else try_catch (_ ← Quarantine.enterFromStalledTransition options retry_config (v_id device) state; mret tt)
         (λ _, mret tt).

(** A copy of a version a save replaced while it was being made. *)
Definition isSuperseded (s : Shared) (device : VirtualDevice) : bool :=
  match vs_baseline (v_spec device) with
  | None => false
  | Some made => (cb_version <$> current_baseline (sh_baselines s) (bl_name made)) !== Some (bl_version made)
  end.

Definition discardSuperseded h (device : VirtualDevice) : flow_of unit :=
  _ ← try_catch (_ ← dispose options hasDriver device "baseline-replaced" op_cleanup None; mret tt)
        (λ _, mret tt);
  _ ← gate (defer h waiting_for_device);
  gate (change (λ a, a <| aq_planAgain := {[h]} ∪ aq_planAgain a |>)).

(** The section's [finally]: the reservation and the claim end, returned or thrown. *)
Definition handoff_section h (handoff : ReadyDeviceHandoff) (kind : GrantingPlanKind)
    (capacityReservation : option CapacityReservation) : op bool := λ s,
  let '(s, r) := catch_op
    (w ← waiter h;
     if w_state w === w_rejected then mret false else
     s ← get;
     if isSuperseded s handoff.2 then mret true else
     _ ← grant h (Virtual handoff.2) kind; mret false)
    (λ _, _ ← defer h waiting_for_device; mret false) s in
  (((_ ← match capacityReservation with Some reservation => Provisioner.free reservation | None => mret tt end;
     modify (drop_claim handoff.1)) s).1, r).
Definition grantHandoff h (handoff : ReadyDeviceHandoff) (kind : GrantingPlanKind)
    (capacityReservation : option CapacityReservation) : flow_of unit :=
  superseded ← gate (handoff_section h handoff kind capacityReservation);
  _ ← (if superseded : bool then discardSuperseded h handoff.2 else mret tt);
  gate wakeQueue.

Definition notify_progress h (p : LeaseProgress) : op unit := on_queue (λ _, notifyProgress h p).
Definition set_timing h (timing : LeaseTiming) : op unit := set_extra h (λ x, x <| aw_timing := timing |>).

(** Rejects the waiter unless it is rejected already, and wakes the queue. *)
Definition end_attempt h (e : WaitError) (reason : RefusalReason) (first : op unit) : flow_of NextStep :=
  _ ← gate (
    _ ← first;
    w ← waiter h;
    if w_state w === w_rejected then mret tt else reject_waiter h e reason);
  _ ← gate wakeQueue;
  mret Finished.

Definition provision_for h (reservation : CapacityReservation) : flow_of NextStep :=
  found ← gate (w ← waiter h; x ← extra h; mret (w, x));
  let '(w, x) := found in
  match aw_spec x with
  | None => _ ← gate (Provisioner.free reservation); mret Finished
  | Some spec =>
      made ← after (Provisioner.provision options hasDriver estimate generate (notify_progress h) spec
                      (Some (Some (w_id w))) (exceptOption w x) reservation)
               (λ r, mret r);
      match made with
      | Ok handoff => _ ← grantHandoff h handoff kind_provision None; mret Finished
      | Err e =>
          x ← gate (extra h);
          match e with
          | BootTimeout _ _ =>
              if exceptOption w x === None then end_attempt h (WaitQueue.OtherError (stableError e)) refused_boot_timeout (mret tt)
              else countFailure h e
          | ComponentBeingRemovedError _ _ | UnknownBaselineError _ =>
              end_attempt h (WaitQueue.OtherError (stableError e)) refused_unresolvable (mret tt)
          | _ => countFailure h e
          end
      end
  end.

Definition bootShutdown h (device : VirtualDevice) (reservation : CapacityReservation)
    (k : DeviceOperationClaim) : flow_of NextStep :=
  booted ← after
    (found ← gate (w ← waiter h; x ← extra h; _ ← notify_progress h (ProgressBooting (estimatedBootMs (aw_timing x)));
                   mret (exceptOption w x));
     ready ← bootForLease options hasDriver device k found;
     match ready with
     | None => fail (PlainError ("Boot target is no longer safe: " +:+ v_id device))
     | Some handoff => mret handoff
     end) (λ r, mret r);
  match booted with
  | Ok handoff => _ ← grantHandoff h handoff kind_boot_shutdown (Some reservation); mret Finished
  | Err e =>
      _ ← destroyFailedBoot device (v_state device);
      except ← gate (w ← waiter h; x ← extra h; mret (exceptOption w x));
      match except with
      | Some _ => _ ← gate (Provisioner.free reservation); countFailure h e
      | None => end_attempt h (WaitQueue.OtherError (stableError (BootTimeoutError_from (v_id device) e)))
                  refused_boot_timeout (Provisioner.free reservation)
      end
  end.

Definition rebootReady h (device : VirtualDevice) (k : DeviceOperationClaim) : flow_of NextStep :=
  rebooted ← after
    (except ← gate (w ← waiter h; x ← extra h; _ ← notify_progress h (ProgressBooting (estimatedBootMs (aw_timing x)));
                    mret (default [] (exceptOption w x)));
     ready ← rebootForLease options hasDriver device k except;
     match ready with
     | None => fail (PlainError ("Reboot target is no longer safe: " +:+ v_id device))
     | Some handoff => mret handoff
     end) (λ r, mret r);
  match rebooted with
  | Ok handoff => _ ← grantHandoff h handoff kind_reboot_ready None; mret Finished
  | Err e => _ ← destroyFailedBoot device Domain.shutdown; countFailure h e
  end.

Definition continueAfterEviction h (k : DeviceOperationClaim) : flow_of NextStep :=
  next ← gate (_ ← modify (drop_claim k); _ ← on_queue (λ _, markNew h); decide h);
  mret match next with Some plan => NextPlan plan | None => Finished end.

(** [#evictRunning] shuts the device down, [#evictManaged] disposes of it. *)
Definition evict h (device : VirtualDevice) (k : DeviceOperationClaim) (reason : WaitingReason)
    (retire : flow_of (option VirtualDevice)) : flow_of NextStep :=
  evicted ← after
    (retired ← retire;
     match retired with
     | None => fail (PlainError ("Eviction target is no longer safe: " +:+ v_id device))
     | Some _ => mret tt
     end) (λ r, mret r);
  match evicted with
  | Ok _ => continueAfterEviction h k
  | Err _ => _ ← gate (_ ← modify (drop_claim k); defer h reason); mret Finished
  end.
Definition evictRunning h (device : VirtualDevice) (k : DeviceOperationClaim) (reason : WaitingReason)
    : flow_of NextStep :=
  evict h device k reason (shutdown options hasDriver device "warm-pool-active-demand" op_eviction (Some k)).
Definition evictManaged h (device : VirtualDevice) (k : DeviceOperationClaim) (reason : WaitingReason)
    : flow_of NextStep :=
  evict h device k reason (dispose options hasDriver device "warm-pool-active-demand" op_eviction (Some k)).

Definition perform_plan h plan : flow_of NextStep :=
  match plan with
  | Provision reservation =>
      x ← gate (extra h);
      match aw_spec x with
      | None => _ ← gate (Provisioner.free reservation); mret Finished
      | Some spec =>
          _ ← gate (driver ← driver_for (vs_platform spec); set_timing h (estimatedTiming driver (VSpec spec)));
          provision_for h reservation
      end
  | BootShutdown reservation k device =>
      _ ← gate (driver ← driver_for (vs_platform (v_spec device));
                set_timing h (estimatedBootTiming driver (Virtual device)));
      bootShutdown h device reservation k
  | RebootReady k device =>
      _ ← gate (driver ← driver_for (vs_platform (v_spec device));
                set_timing h (estimatedBootTiming driver (Virtual device)));
      rebootReady h device k
  | EvictRunning k device reason => evictRunning h device k reason
  | EvictManaged k device reason => evictManaged h device k reason
  | GrantReady _ | GrantPhysical _ _ | Wait _ | NoCapacity _ => mret Finished
  end.

(** ** Physical devices *)

Definition older_physical (s : Shared) h : list PhysicalRequest :=
  let q := aq_queue (sh_acquiring s) in
  omap (λ k, w ← store q !! k;
             if (lineOf (w_request w) === line_physical) && (w_state w === w_queued)
             then Some (physicalRequestOf (w_request w)) else None)
    (take (default (length (pendingWaiters q)) (Arr.findIndex (λ k, k === h) (pendingWaiters q)))
       (pendingWaiters q)).
Definition heldByOlder (s : Shared) h (device : PhysicalDevice) : bool :=
  Arr.some (fitsPhysical (fittable_physical device)) (older_physical s h).

Definition decidePhysical h (absent : list string) : op (option (DeviceOperationClaim * PhysicalDevice)) :=
  s ← get;
  w ← waiter h;
  let request := physicalRequestOf (w_request w) in
  if negb (Arr.some (λ d, match d with
                          | Physical p => (p_state p !== deleted) && fitsPhysical (fittable_physical p) request
                          | Virtual _ => false
                          end) (devices (sh_registry s)))
  then _ ← reject_waiter h (PhysicalUnknownModelError request) refused_unresolvable; mret None
  else
    plan ← on_planner (λ st, planPhysical st {|
      ph_request := request;
      ph_noWait := ro_noWait (w_options w);
      ph_owner := w_id w;
      ph_snapshot := snapshot_of s;
      ph_absent := absent;
      ph_heldByOlder := heldByOlder s h |});
    match plan with
    | GrantPhysical k device =>
        marked ← on_queue (λ now, markProcessing now h);
        if marked : bool then mret (Some (k, device)) else _ ← modify (drop_claim k); mret None
    | plan => _ ← defer h (blockedReason plan); mret None
    end.

(** The section in which a device read as present, or not, is granted or set aside; the claim ends
    either way. *)
Definition physical_section h (k : DeviceOperationClaim) (device : PhysicalDevice) (present : bool) : op bool := λ s,
  let '(s, r) := catch_op
    (marked ← on_queue (λ now, markProcessing now h);
     if negb marked then mret false else
     s ← get;
     match Arr.find (λ c, dev_id c === id (p_fields device)) (devices (sh_registry s)) with
     | Some current =>
         if negb present || negb (isActive (sh_claims s) k) || (dev_state current !== ready) then mret true
         else _ ← grant h current kind_grant_physical; mret false
     | None => mret true
     end)
    (λ _, _ ← defer h no_free_physical; mret false) s in
  (drop_claim k s, r).
Definition grantPhysical h (k : DeviceOperationClaim) (device : PhysicalDevice) : flow_of bool :=
  present ← try_catch
    (_ ← get_driver hasDriver (ps_platform (p_spec device));
     reads ← PhysicalPresence.readPhysicalPresence (ps_platform (p_spec device)) [driverDeviceId (p_fields device)];
     mret (reads !! driverDeviceId (p_fields device) === Some true))
    (λ _, mret false);
  replan ← gate (physical_section h k device present);
  _ ← (if replan : bool then mret tt else gate wakeQueue);
  mret replan.

(** At most [n] devices are tried: the answer is whether the drive ended. *)
Fixpoint drivePhysical (n : nat) h (absent : list string) : flow_of bool :=
  match n with
  | 0 => mret false
  | Datatypes.S n =>
      planned ← gate (decidePhysical h absent);
      match planned with
      | None => mret true
      | Some (k, device) =>
          replan ← grantPhysical h k device;
          if replan : bool then drivePhysical n h (id (p_fields device) :: absent) else mret true
      end
  end.

(** ** Driving a waiter *)

(** Only one drive of a waiter at a time: whether another has marked it. *)
Definition begin_drive h : op bool :=
  s ← get;
  if bool_decide (h ∈ aq_driving (sh_acquiring s)) then mret true
  else _ ← change (λ a, a <| aq_driving := {[h]} ∪ aq_driving a |>); mret false.
(** The [finally] of a drive; a copy discarded meanwhile makes the queue look again. *)
Definition end_drive h : op unit :=
  s ← get;
  _ ← change (λ a, a <| aq_driving := aq_driving a ∖ {[h]} |>);
  if bool_decide (h ∈ aq_planAgain (sh_acquiring s))
  then _ ← change (λ a, a <| aq_planAgain := aq_planAgain a ∖ {[h]} |>); wakeQueue
  else mret tt.
Definition drive_alone h (body : flow_of NextStep) : flow_of NextStep :=
  busy ← gate (begin_drive h);
  if busy : bool then mret DrivenElsewhere else finally body (gate (end_drive h)).

Definition step_of (planned : option AcquisitionPlan) : NextStep :=
  match planned with Some plan => NextPlan plan | None => Finished end.

(** At most [n] steps: what is left to do when they are used up is the answer. To drive again, the
    mark is removed and the drive begun in one go, so it is marked anew; the drive has its own
    [finally]. *)
Fixpoint carry_out (n : nat) h (next : NextStep) : flow_of NextStep :=
  match n with
  | 0 => mret next
  | Datatypes.S n =>
      match next with
      | Finished => mret Finished
      | DrivenElsewhere => mret DrivenElsewhere
      | NextPlan plan => next ← perform_plan h plan; carry_out n h next
      | DriveAgain =>
          _ ← gate (change (λ a, a <| aq_driving := {[h]} ∪ (aq_driving a ∖ {[h]}) |>));
          finally (planned ← gate (decide h); carry_out n h (step_of planned)) (gate (end_drive h))
      end
  end.
Definition drive (n : nat) h : flow_of NextStep :=
  drive_alone h (
    w ← gate (waiter h);
    if rq_physical (w_request w) === Some true
    then ended ← drivePhysical n h []; mret (if ended : bool then Finished else DriveAgain)
    else planned ← gate (decide h); carry_out n h (step_of planned)).

(** A wake: the head of the line if it waits, and every physical request. *)
Definition woken (s : Shared) : list nat :=
  let q := aq_queue (sh_acquiring s) in
  match queue_head q with
  | Some h => if (w_state <$> store q !! h) === Some w_queued then [h] else []
  | None => []
  end
  ++ Arr.filter (on_line q line_physical) (pendingWaiters q).
Definition wake : op (list nat) :=
  s ← get;
  _ ← change (λ a, a <| aq_wakes := pred (aq_wakes a) |>);
  mret (woken s).

(** ** Waiting requests *)

Definition pendingRequestOwner (s : Shared) (requesterId : string) (platform : option Platform) : option string :=
  let q := aq_queue (sh_acquiring s) in
  h ← findPendingWaiter q requesterId platform; w ← store q !! h; Some (ro_ownerId (w_options w)).

Inductive CancelAnswer := cancelled | not_found | not_cancellable.
(** A waiter in the middle of a presence read holds a claim, whose end wakes the queue. *)
Definition cancelPending (requesterId : string) (platform : option Platform) : op CancelAnswer :=
  s ← get;
  match findPendingWaiter (aq_queue (sh_acquiring s)) requesterId platform with
  | None => mret not_found
  | Some h =>
      w ← waiter h;
      if (w_state w !== w_queued) && (rq_physical (w_request w) !== Some true) then mret not_cancellable
      else
        _ ← reject_waiter h (RequestCancelledError (w_id w)) refused_cancelled;
        _ ← (if w_state w === w_processing then mret tt else wakeQueue);
        mret cancelled
  end.

(** What the warm pool is told of the requests that wait. *)
Definition waitingDemand (s : Shared) : list WaitingDemand :=
  let a := sh_acquiring s in
  omap (λ h,
    w ← store (aq_queue a) !! h;
    let x := default new_waiter (aq_waiters a !! h) in
    spec ← aw_spec x;
    Some (MkDemand (w_state w === w_processing) (vs_platform spec)
            (default (exactRequirement spec) (aw_requirement x)) (specMode (VSpec spec)) spec
            (default (λ _, None) (aw_classOf x))))
    (pendingWaiters (aq_queue a)).

(** ** Admission *)

Local Abbreviation request_op A := (action Shared RequestError A).
Definition in_request {A} (m : op A) : request_op A := λ s,
  match m s with (s', Ok a) => (s', Ok a) | (s', Err e) => (s', Err (RefusedOther e)) end.
Definition book_of (s : Shared) : Book Registry LeaseGrant :=
  MkBook (sh_registry s) (aq_open (sh_acquiring s)) (aq_calls (sh_acquiring s)).
Definition on_book {A} (m : Z → action (Book Registry LeaseGrant) BookError A) : request_op A := λ s,
  match m (sh_now s) (book_of s) with
  | (b, r) =>
      (s <| sh_registry := b_store b |>
         <| sh_acquiring := (sh_acquiring s) <| aq_open := b_entries b |> <| aq_calls := b_log b |> |>,
       match r with Ok a => Ok a | Err e => Err (BookRefused e) end)
  end.

Definition refuse_request (requestId : string) (request : DeviceRequest) (o : LeaseRequestOptions)
    (reason : RefusalReason) {A} (e : RequestError) : request_op A :=
  _ ← in_request (emit_event (emitLeaseRefusal
        (MkRefusal requestId (ro_requesterId o) request reason (ro_fleetRequestId o))));
  throw e.

Definition held_leases (r : Registry) (requesterId : string) : list HeldLease :=
  (λ l, MkHeld (l_id l) (l_grantedAt l)
          (spec_platform ∘ dev_spec <$> Arr.find (λ d, dev_id d === l_deviceId l) (devices r)))
    <$> Arr.filter (λ l, l_requesterId l === requesterId) (leases r).
Definition refuseIfRequesterAtLimit (request : DeviceRequest) (o : LeaseRequestOptions) (requestId : string)
    : request_op unit :=
  s ← get;
  match requesterLimitDecision (MkLimitInput (ro_requesterId o) (rq_platform request) maxPerRequester
          (held_leases (sh_registry s) (ro_requesterId o))
          (pendingPlatforms (aq_queue (sh_acquiring s)) (ro_requesterId o))
          (ro_fleetRequestId o !== None)) with
  | None => mret tt
  | Some refusal => refuse_request requestId request o refused_already_leased (RefusedLimit refusal)
  end.

Definition refuseIfLeaseIdTaken (request : DeviceRequest) (o : LeaseRequestOptions) (requestId : string)
    : request_op unit :=
  match ro_leaseId o with
  | None => mret tt
  | Some leaseId =>
      s ← get;
      if negb (Arr.some (λ l, l_id l === leaseId) (leases (sh_registry s)))
         && negb (holdsLeaseId (H := registry_store options) (sh_now s) leaseId (book_of s))
      then mret tt
      else refuse_request requestId request o refused_lease_id_taken (LeaseIdTakenError leaseId)
  end.

(** What admission answers: the promise of an earlier request under the same key, or the handle of
    the new waiter, which is then resolved and driven. *)
Inductive Admission := AdmittedReplay (answer : ReplayAnswer LeaseGrant) | AdmittedWaiter (h : nat).

Definition request_section (request : DeviceRequest) (o : BookOptions) : request_op Admission :=
  let ro := bo_options o in
  replayed ← on_book (λ now, replay (H := registry_store options) now request o);
  match replayed with
  | Some answer => mret (AdmittedReplay answer)
  | None =>
      s ← get;
      let requestId := newLeaseRequestId (generate s) in
      if aq_updateHold (sh_acquiring s) then refuse_request requestId request ro refused_updating RefusedUpdating
      else if aq_admissionClosed (sh_acquiring s) then refuse_request requestId request ro refused_killed RefusedNuke
      else
        _ ← refuseIfRequesterAtLimit request ro requestId;
        _ ← refuseIfLeaseIdTaken request ro requestId;
        s ← get;
        let h := nextWaiter (aq_queue (sh_acquiring s)) in
        i ← on_book (λ now, admit_request (H := registry_store options) now (generate s) (Some requestId)
              request o (λ _, (h, None)));
        _ ← in_request (_ ← on_queue (λ _, create (generate s) request ro (Some i));
                        set_extra h (λ _, new_waiter));
        _ ← in_request (emit_event (EvLeaseRequested i (ro_requesterId ro) request (ro_noWait ro)
              (ro_fleetRequestId ro)));
        mret (AdmittedWaiter h)
  end.

(** [#resolveAndDrive], given what [Resolve.resolveSpec] answered. *)
Definition resolveAndDrive (n : nat) h (request : DeviceRequest) (resolved : result ResolveError Resolution)
    : flow_of NextStep :=
  if negb (hasDriver (rq_platform request)) then
    _ ← gate (reject_waiter h (WaitQueue.OtherError (stableError (NoDriverError (rq_platform request)))) refused_unresolvable);
    mret Finished
  else if rq_physical request === Some true then drive n h
  else
    match resolved with
    | Ok r =>
        _ ← gate (set_extra h (λ x, x <| aw_spec := Some (rn_spec r) |> <| aw_requirement := Some (rn_requirement r) |>
                     <| aw_classOf := rn_classOf r |>));
        drive n h
    | Err e => _ ← gate (reject_waiter h (WaitQueue.OtherError (error_message e)) refused_unresolvable); mret Finished
    end.

(** ** Maintenance and updates *)

Definition refuse_each (reason : RefusalReason) (hs : list nat) : op unit :=
  foldr (λ h rest, w ← waiter h; _ ← emit_event (emitLeaseRefusal (refusal_of w reason)); rest) (mret tt) hs.
Definition beginMaintenance : op unit :=
  _ ← change (λ a, a <| aq_maintenanceDepth := (aq_maintenanceDepth a + 1)%Z |> <| aq_admissionClosed := true |>);
  cancelled ← on_queue (λ _, cancelAll (λ _, NukeCancelledError));
  refuse_each refused_killed cancelled.
Definition endMaintenance : op unit :=
  change (λ a, let d := Z.max 0 (aq_maintenanceDepth a - 1) in
               a <| aq_maintenanceDepth := d |> <| aq_admissionClosed := (0 <? d)%Z |>).
Definition stop_planning : op unit := change (λ a, a <| aq_stopPlanning := true |>).

(** [holdForUpdate] refuses the waiters that are not being provisioned for yet. *)
Definition hold_each (hs : list nat) : op unit :=
  foldr (λ h rest,
    w ← waiter h;
    _ ← (if (w_state w === w_queued) || (w_state w === w_new) then refuseForUpdate h else mret tt);
    rest) (mret tt) hs.
Definition holdForUpdate : op unit :=
  _ ← change (λ a, a <| aq_updateHold := true |>);
  s ← get;
  hold_each (pendingWaiters (aq_queue (sh_acquiring s))).
Definition releaseUpdateHold : op unit := change (λ a, a <| aq_updateHold := false |>).
End coordinator.
End Acquisition.
