(* ===== verification/Ownership.v ===== *)
(** * What a drive of the acquisition coordinator owns

    While it works for a waiter, the coordinator holds a claim on a device, a capacity reservation,
    a claim on the component a new device is made from and a hold on the baseline version it copies.
    This file says what owning them means beside other code, for any of its sections; [Drives]
    then proves what the drives promise. *)
From stdpp Require Import base strings list option numbers gmap pretty.
From S2P Require Import Prelude JsString OsRange WaitQueue RequestBook Lifecycle AcquisitionState Domain RequestStore Capacity Claims Planner Registry RegistryInv Resolve Flow Devices Effects Quarantine Provision Acquisition.

Record Holding := MkHolding {
  hd_claim : option DeviceOperationClaim;
  hd_reservation : option CapacityReservation;
  hd_component : option (Platform * string);
  hd_version : option (string * Z) }.
#[export] Instance Holding_eta : Eta Holding := λ o,
  MkHolding (hd_claim o) (hd_reservation o) (hd_component o) (hd_version o).
Definition nothing : Holding := MkHolding None None None None.

(** The entries a reservation is written in, and whether it is out or has been given back. *)
Definition entries_of (r : CapacityReservation) : list (EntryList * nat) :=
  match r with
  | ProvisioningReservation n => [(ProvisioningList, n)]
  | BootReservation n m => [(RunningList, n); (BootList, m)]
  | RewarmReservation m => [(BootList, m)]
  end.
Definition owned_entries (o : Holding) : list (EntryList * nat) := option_list (hd_reservation o) ≫= entries_of.
(** All the entries in the coordinator's lists. *)
Definition booked (c : Coordinator) : list (EntryList * nat) :=
  (pair ProvisioningList <$> (provisioningReservations c).*1) ++ (pair RunningList <$> (runningReservations c).*1)
  ++ (pair BootList <$> (bootReservations c).*1).
Definition outstanding (c : Coordinator) (r : CapacityReservation) : Prop :=
  ∀ e, e ∈ entries_of r → (e ∉ releasedEntries c) ∧ e.2 < nextEntry c.
Definition returned (c : Coordinator) (r : CapacityReservation) : Prop :=
  ∀ e, e ∈ entries_of r → e ∈ releasedEntries c.
Definition capacity_grows (c c' : Coordinator) : Prop :=
  nextEntry c ≤ nextEntry c' ∧ releasedEntries c ⊆ releasedEntries c'.

(** ** The books *)

Definition entries_bounded (c : Coordinator) : Prop := ∀ e, e ∈ releasedEntries c → e.2 < nextEntry c.

(** What happens to the books, [r] being a reservation taken meanwhile and still out. *)
Record books_move (c c' : Coordinator) (r : option CapacityReservation) : Prop := {
  bm_grow : capacity_grows c c';
  bm_bounded : entries_bounded c';
  bm_others r' : outstanding c r' → outstanding c' r';
  bm_taken r' : r = Some r' → outstanding c' r' ∧ ∀ e, e ∈ entries_of r' → nextEntry c ≤ e.2;
  bm_booked : booked c' ≡ₚ (option_list r ≫= entries_of) ++ booked c }.

Lemma books_same c : entries_bounded c → books_move c c None.
Proof. intros Hb. by split. Qed.

Lemma reserve_booked {S} `{CapacityStrategy S} (st : S) pressure c c' r : reserve_step st pressure c c' r →
  booked c' ≡ₚ entries_of r ++ booked c.
Proof.
  intros Hs. pose proof (reserve_step_shape _ _ _ _ _ Hs) as (_ & _ & Hsh). unfold booked.
  destruct Hsh as [(d & -> & _ & -> & -> & ->)|[(p & i & -> & _ & -> & -> & ->)|(i & -> & _ & -> & -> & ->)]];
    rewrite ?fmap_app; cbn; solve_Permutation.
Qed.
Lemma reserve_moves {S} `{CapacityStrategy S} (st : S) pressure c c' r :
  entries_bounded c → reserve_step st pressure c c' r → books_move c c' (Some r).
Proof.
  intros Hb Hs. pose proof (reserve_step_shape _ _ _ _ _ Hs) as (Hrel & Hle & Hsh). unfold entries_bounded in *.
  split; rewrite ?Hrel.
  - split; [done|]. by rewrite Hrel.
  - intros e He. rewrite Hrel in He. specialize (Hb e He). lia.
  - intros r' Hr' e He. destruct (Hr' e He). rewrite Hrel. split; [done|lia].
  - intros r' [= <-].
    assert (∀ e, e ∈ entries_of r → nextEntry c ≤ e.2 ∧ e.2 < nextEntry c') as Hn.
    { intros e He. destruct Hsh as [(d & -> & ? & _)|[(p & i & -> & ? & _)|(i & -> & ? & _)]]; cbn in He;
        repeat (apply elem_of_cons in He as [->|He]; [cbn; lia|]); by apply elem_of_nil in He. }
    split; [|intros e He; by apply Hn]. intros e He. destruct (Hn e He). split; [|done].
    rewrite Hrel. intros Hin%Hb. lia.
  - cbn. rewrite app_nil_r. by eapply reserve_booked.
Qed.

Lemma release_entry_facts l n f c : (∀ c, releasedEntries (f c) = releasedEntries c ∧ nextEntry (f c) = nextEntry c) →
  nextEntry (release_entry l n f c) = nextEntry c
  ∧ ∀ e, e ∈ releasedEntries (release_entry l n f c) ↔ e = (l, n) ∨ e ∈ releasedEntries c.
Proof.
  intros Hf. unfold release_entry, Arr.includes. case_bool_decide as Hin.
  - split; [done|]. intros e. split; [by right|]. by intros [->|].
  - destruct (Hf (c <| releasedEntries := (l, n) :: releasedEntries c |>)) as [E1 E2]. cbn in E1, E2 |- *.
    rewrite E1, E2. split; [done|]. intros e. by rewrite elem_of_cons.
Qed.
Lemma release_facts r c :
  nextEntry (Capacity.release r c) = nextEntry c
  ∧ ∀ e, e ∈ releasedEntries (Capacity.release r c) ↔ e ∈ entries_of r ∨ e ∈ releasedEntries c.
Proof.
  destruct r as [n|n m|m]; cbn [Capacity.release entries_of].
  - destruct (release_entry_facts ProvisioningList n (λ c, c <| provisioningReservations :=
      without_entry n (provisioningReservations c) |>) c) as [H1 H2]; [done|].
    split; [exact H1|]. intros e. rewrite list_elem_of_singleton. apply H2.
  - destruct (release_entry_facts RunningList n (λ c, c <| runningReservations :=
      without_entry n (runningReservations c) |>) c) as [H1 H2]; [done|].
    destruct (release_entry_facts BootList m (λ c, c <| bootReservations :=
      without_entry m (bootReservations c) |>) (release_running n c)) as [H3 H4]; [done|].
    split; [unfold release_boot; rewrite H3; exact H1|]. intros e. unfold release_boot. rewrite H4.
    unfold release_running. rewrite H2, !elem_of_cons, elem_of_nil. tauto.
  - destruct (release_entry_facts BootList m (λ c, c <| bootReservations :=
      without_entry m (bootReservations c) |>) c) as [H1 H2]; [done|].
    split; [exact H1|]. intros e. rewrite list_elem_of_singleton. apply H2.
Qed.
(** A reservation that is out is taken from the lists. *)
Lemma without_entry_perm {A} n (l : list (nat * A)) : n ∈ l.*1 → l.*1 ≡ₚ n :: (without_entry n l).*1.
Proof.
  intros ([k x] & Hk & Hin)%list_elem_of_fmap. cbn in Hk. subst k. unfold without_entry. destruct (Arr.findIndex _ l) as [i|] eqn:Ei.
  - apply afindIndex_Some in Ei as ([k y] & Hi & Hk%bool_decide_eq_true & _). cbn in Hk. subst k.
    exact (fmap_Permutation fst _ _ (delete_Permutation l i _ Hi)).
  - rewrite afindIndex_None in Ei. specialize (Ei _ Hin). cbn in Ei. by rewrite bool_decide_eq_true_2 in Ei.
Qed.
Lemma booked_in c k n : (k, n) ∈ booked c →
  n ∈ match k with ProvisioningList => (provisioningReservations c).*1 | RunningList => (runningReservations c).*1
      | BootList => (bootReservations c).*1 end.
Proof.
  unfold booked. rewrite !elem_of_app, !list_elem_of_fmap. intros [(m & [= -> ->] & Hm)|[(m & [= -> ->] & Hm)|(m & [= -> ->] & Hm)]];
    apply list_elem_of_fmap; apply list_elem_of_fmap in Hm; exact Hm.
Qed.
Lemma release_provisioning_booked n c : (ProvisioningList, n) ∉ releasedEntries c → (ProvisioningList, n) ∈ booked c →
  booked c ≡ₚ (ProvisioningList, n) :: booked (release_provisioning n c).
Proof.
  intros Hr Hb%booked_in. unfold release_provisioning, release_entry, Arr.includes. rewrite bool_decide_eq_false_2 by done. unfold booked. cbn.
  by rewrite (without_entry_perm n _ Hb) at 1.
Qed.
Lemma release_running_booked n c : (RunningList, n) ∉ releasedEntries c → (RunningList, n) ∈ booked c →
  booked c ≡ₚ (RunningList, n) :: booked (release_running n c).
Proof.
  intros Hr Hb%booked_in. unfold release_running, release_entry, Arr.includes. rewrite bool_decide_eq_false_2 by done. unfold booked. cbn.
  rewrite (without_entry_perm n _ Hb) at 1. cbn. solve_Permutation.
Qed.
Lemma release_boot_booked n c : (BootList, n) ∉ releasedEntries c → (BootList, n) ∈ booked c →
  booked c ≡ₚ (BootList, n) :: booked (release_boot n c).
Proof.
  intros Hr Hb%booked_in. unfold release_boot, release_entry, Arr.includes. rewrite bool_decide_eq_false_2 by done. unfold booked. cbn.
  rewrite (without_entry_perm n _ Hb) at 1. cbn. solve_Permutation.
Qed.
Lemma release_booked r c : outstanding c r → entries_of r ⊆+ booked c → booked c ≡ₚ entries_of r ++ booked (Capacity.release r c).
Proof.
  intros Ho Hs. assert (∀ e, e ∈ entries_of r → (e ∉ releasedEntries c) ∧ e ∈ booked c) as Hin.
  { intros e He. split; [by apply Ho|]. by eapply elem_of_submseteq. }
  destruct r as [n|n m|m]; cbn [Capacity.release entries_of app] in *.
  - destruct (Hin (ProvisioningList, n)); [by left|]. by apply release_provisioning_booked.
  - destruct (Hin (RunningList, n)) as [H1 H2]; [by left|]. destruct (Hin (BootList, m)) as [H3 H4]; [by right; left|].
    rewrite (release_running_booked n c H1 H2). f_equiv. apply release_boot_booked.
    + destruct (release_entry_facts RunningList n (λ c, c <| runningReservations :=
        without_entry n (runningReservations c) |>) c) as [_ Hr]; [done|]. rewrite Hr. by intros [[=]|].
    + assert ((BootList, m) ∈ (RunningList, n) :: booked (release_running n c)) as Hb by (by rewrite <- (release_running_booked n c H1 H2)).
      by apply elem_of_cons in Hb as [[=]|].
  - destruct (Hin (BootList, m)); [by left|]. by apply release_boot_booked.
Qed.
Lemma release_returns r c : entries_bounded c → outstanding c r →
  capacity_grows c (Capacity.release r c) ∧ entries_bounded (Capacity.release r c)
  ∧ returned (Capacity.release r c) r
  ∧ ∀ r', outstanding c r' → entries_of r' ## entries_of r → outstanding (Capacity.release r c) r'.
Proof.
  intros Hb Ho. destruct (release_facts r c) as [Hn Hr]. split; [|split; [|split]].
  - split; [lia|]. intros e He. apply Hr. by right.
  - intros e He. rewrite Hn. apply Hr in He as [He|He]; [by destruct (Ho e He)|by apply Hb].
  - intros e He. apply Hr. by left.
  - intros r' Hr' Hd e He. destruct (Hr' e He). rewrite Hn. split; [|done]. intros [Hin|Hin]%Hr; [|done].
    by apply (Hd e).
Qed.
Lemma reserve_release_moves {S} `{CapacityStrategy S} (st : S) pressure c c' r :
  entries_bounded c → reserve_step st pressure c c' r → books_move c (Capacity.release r c') None.
Proof.
  intros Hb Hs. destruct (reserve_moves st pressure c c' r Hb Hs) as [[Hle Hsub] Hb' Hoth Htk _].
  destruct (Htk r eq_refl) as [Hout Hnew]. destruct (release_returns r c' Hb' Hout) as ([Hle' Hsub'] & Hb'' & _ & Hkeep).
  split; [split; [lia|set_solver]|done| |done|].
  - intros r' Hr'. apply Hkeep; [by apply Hoth|]. intros e He He'. destruct (Hr' e He). specialize (Hnew e He'). lia.
  - pose proof (reserve_booked st pressure c c' r Hs) as Hbk. apply (inj (app (entries_of r))). cbn. rewrite <- Hbk. symmetry.
    apply release_booked; [done|]. rewrite Hbk. by apply submseteq_inserts_r.
Qed.

(** ** What a plan takes *)

(** The device a plan is about, as the snapshot has it. *)
Definition plan_device (st : PlannerState) (input : AcquisitionPlannerInput) (p : AcquisitionPlan) : Prop :=
  match p with
  | GrantReady d => d ∈ sn_devices (in_snapshot input) ∧ dev_state d = ready ∧ servesRequest st input d = true
  | RebootReady k d => Virtual d ∈ sn_devices (in_snapshot input) ∧ v_state d = ready
      ∧ servesRequest st input (Virtual d) = true ∧ k_deviceId k = v_id d ∧ k_operation k = op_boot
  | BootShutdown _ k d => Virtual d ∈ sn_devices (in_snapshot input) ∧ v_state d = shutdown
      ∧ servesRequest st input (Virtual d) = true ∧ k_deviceId k = v_id d ∧ k_operation k = op_boot
  | EvictRunning k d _ | EvictManaged k d _ => k_operation k = op_eviction
  | GrantPhysical _ _ => False
  | Provision _ | Wait _ | NoCapacity _ => True
  end.
Record plan_takes (st : PlannerState) (input : AcquisitionPlannerInput) (a : PlannerState * AcquisitionPlan) : Prop := {
  pt_books : books_move (st_capacity st) (st_capacity a.1) (plan_reservation a.2);
  pt_claims : match plan_claim a.2 with
              | None => st_claims a.1 = st_claims st
              | Some k => ∃ i o w, tryClaim (st_claims st) i o w = Some (st_claims a.1, k)
              end;
  pt_device : plan_device st input a.2 }.

Lemma blocked_takes st input noWait reason c : books_move (st_capacity st) c None →
  plan_takes st input (MkPlannerState c (st_claims st), blocked noWait reason).
Proof. intros Hb. unfold blocked. by destruct noWait; split. Qed.
Lemma same_takes st input noWait reason : entries_bounded (st_capacity st) →
  plan_takes st input (st, blocked noWait reason).
Proof. intros Hb. unfold blocked. by destruct noWait; split; try done; apply books_same. Qed.

Lemma claimEviction_takes st input d noWait reason : entries_bounded (st_capacity st) →
  plan_takes st input (claimEviction st d noWait reason).
Proof.
  intros Hb. unfold claimEviction. destruct (tryClaim _ _ _ _) as [[t k]|] eqn:E; [|by apply same_takes].
  split; [by apply books_same|by cbn; eauto|]. by apply tryClaim_Some in E as (_ & -> & _).
Qed.
Lemma claimManagedEviction_takes st input d noWait reason : entries_bounded (st_capacity st) →
  plan_takes st input (claimManagedEviction st d noWait reason).
Proof.
  intros Hb. unfold claimManagedEviction. destruct (tryClaim _ _ _ _) as [[t k]|] eqn:E; [|by apply same_takes].
  split; [by apply books_same|by cbn; eauto|]. by apply tryClaim_Some in E as (_ & -> & _).
Qed.

Lemma virtual_of snapshot d : d ∈ sn_virtualDevices snapshot → Virtual d ∈ sn_devices snapshot.
Proof. unfold sn_virtualDevices. intros ([v|p] & Hin & E)%list_elem_of_omap; by simplify_eq/=. Qed.

Lemma plan_takes_all `{LocaleCompare} {S} `{CapacityStrategy S} (strategy : S) pressure st input :
  entries_bounded (st_capacity st) → plan_takes st input (plan strategy pressure st input).
Proof.
  intros Hb. unfold plan. destruct (Arr.find _ (sn_devices _)) as [d|] eqn:Ef.
  - apply afind_Some in Ef as [Hin [Hst%bool_decide_eq_true Hsv]%andb_true_iff]. unfold planReady.
    destruct d as [v|p]; [|by split; [apply books_same|..]].
    destruct (_ !== _); [by split; [apply books_same|..]|]. destruct (newDevicesPaused _); [by apply same_takes|].
    destruct (tryClaim _ _ _ _) as [[t k]|] eqn:E; [|by apply same_takes].
    split; [by apply books_same|by cbn; eauto|]. apply tryClaim_Some in E as (_ & -> & _). by split_and!.
  - destruct (_ && _). { apply (same_takes st input false). done. }
    destruct (Arr.find _ (sn_virtualDevices _)) as [d|] eqn:Ev.
    + apply afind_Some in Ev as [Hin%virtual_of [Hst%bool_decide_eq_true Hsv]%andb_true_iff]. unfold planShutdownBoot.
      destruct (tryReserveBoot _ _ _ _ _ _) as [[c r]|refusal] eqn:Er.
      * pose proof (reserve_boot strategy pressure _ _ _ _ _ _ Er) as Hs.
        destruct (tryClaim _ _ _ _) as [[t k]|] eqn:E.
        -- split; [by eapply reserve_moves|by cbn; eauto|]. apply tryClaim_Some in E as (_ & -> & _). by split_and!.
        -- apply blocked_takes. by eapply reserve_release_moves.
      * destruct (runningVictim _ _ _ _ _); [by apply claimEviction_takes|by apply same_takes].
    + unfold planProvision. destruct (tryReserveProvisioning _ _ _ _ _) as [[c r]|refusal] eqn:Er.
      * split; [|done|done]. eapply reserve_moves; [done|by eapply reserve_provisioning].
      * cbv zeta. match goal with |- context [match (if ?b then ?x else None) with _ => _ end] => destruct (if b then x else None) end;
        [by apply claimManagedEviction_takes|].
        destruct (runningVictim _ _ _ _ _); [by apply claimEviction_takes|by apply same_takes].
Qed.

Section owned.
(** The platforms with a driver, and the waiter that is driven. *)
Context (served : Platform → Prop) (h : nat).
Implicit Types (s : Shared) (o : Holding) (w : Waiter) (x : AcquisitionWaiter).

Definition queue_of s : WaitQueue := aq_queue (sh_acquiring s).
Definition record_of s : option Waiter := store (queue_of s) !! h.
Definition extra_of s : AcquisitionWaiter := default new_waiter (aq_waiters (sh_acquiring s) !! h).

(** A state in which the waiter can be driven: it is in the queue, its spec and what it accepts are
    of a platform with a driver, a virtual request has a spec, and the lease id it was given, if
    any, is not taken while it waits. *)
Record tended s : Prop := {
  td_good : good s;
  td_entries e : e ∈ releasedEntries (sh_capacity s) → e.2 < nextEntry (sh_capacity s);
  td_baselines b : b ∈ sh_baselines s → served (cb_platform b);
  td_spec spec : aw_spec (extra_of s) = Some spec → served (vs_platform spec);
  td_requirement r : aw_requirement (extra_of s) = Some r → served (rr_platform r);
  td_waiter : ∃ w, record_of s = Some w
    ∧ (lineOf (w_request w) = line_virtual → aw_spec (extra_of s) ≠ None)
    ∧ (isTerminal (w_state w) = false →
       ∀ l, ro_leaseId (w_options w) = Some l → l ∉ l_id <$> leases (sh_registry s)) }.

Record owns o s : Prop := {
  own_claim k : hd_claim o = Some k → held (sh_claims s) k;
  own_reservation r : hd_reservation o = Some r → outstanding (sh_capacity s) r;
  own_booked : owned_entries o ⊆+ booked (sh_capacity s);
  own_component : option_list (hd_component o) ⊆+ sh_provisioning s;
  own_version : option_list (hd_version o) ⊆+ sh_holds s }.

Definition inside o s : Prop := tended s ∧ owns o s.

(** The same waiter; [P] is what its state may have become. *)
Definition same_waiter w w' : Prop :=
  w_id w' = w_id w ∧ w_request w' = w_request w ∧ w_options w' = w_options w.
Record waiter_kept s s' : Prop := {
  wk_waiter w : record_of s = Some w → ∃ w', record_of s' = Some w' ∧ same_waiter w w'
    ∧ (w_state w' = w_state w ∨ w_state w' = w_rejected);
  wk_extra : extra_of s' = extra_of s;
  wk_stop : aq_stopPlanning (sh_acquiring s) = true → aq_stopPlanning (sh_acquiring s') = true }.

(** What the others may do meanwhile: they leave what is owned alone, and of the waiter they change
    only that it may be rejected. *)
Definition others_do o s s' : Prop :=
  inside o s → inside o s' ∧ rely (hd_claim o) s s' ∧ waiter_kept s s'.

(** What a section does, passing from owning [o] to [o']. *)
Record section_does o s o' s' : Prop := {
  sd_now : sh_now s' = sh_now s;
  sd_claims : claims_grow (sh_claims s) (sh_claims s');
  sd_capacity : capacity_grows (sh_capacity s) (sh_capacity s');
  sd_others k : held (sh_claims s) k → hd_claim o ≠ Some k → left_alone k s s';
  sd_held k : held (sh_claims s') k → held (sh_claims s) k ∨ hd_claim o' = Some k;
  sd_claim_new k : hd_claim o' = Some k → hd_claim o = Some k ∨ nextClaim (sh_claims s) ≤ k_number k;
  sd_claim_old k : hd_claim o = Some k → hd_claim o' = Some k ∨ k_number k ∈ releasedClaims (sh_claims s');
  sd_reserved r : outstanding (sh_capacity s) r →
    (∀ r0, hd_reservation o = Some r0 → entries_of r ## entries_of r0) → outstanding (sh_capacity s') r;
  sd_reservation_new r : hd_reservation o' = Some r →
    hd_reservation o = Some r ∨ ∀ e, e ∈ entries_of r → nextEntry (sh_capacity s) ≤ e.2;
  sd_reservation_old r : hd_reservation o = Some r → hd_reservation o' = Some r ∨ returned (sh_capacity s') r;
  sd_booked : ∃ l, booked (sh_capacity s) ≡ₚ owned_entries o ++ l ∧ booked (sh_capacity s') ≡ₚ owned_entries o' ++ l;
  sd_component : ∃ l, sh_provisioning s ≡ₚ option_list (hd_component o) ++ l
    ∧ sh_provisioning s' ≡ₚ option_list (hd_component o') ++ l;
  sd_version : ∃ l, sh_holds s ≡ₚ option_list (hd_version o) ++ l
    ∧ sh_holds s' ≡ₚ option_list (hd_version o') ++ l;
  sd_waiters h' : h' ≠ h → store (queue_of s') !! h' = store (queue_of s) !! h'
    ∧ aq_waiters (sh_acquiring s') !! h' = aq_waiters (sh_acquiring s) !! h';
  sd_stop : aq_stopPlanning (sh_acquiring s) = true → aq_stopPlanning (sh_acquiring s') = true }.
Definition step o s o' s' : Prop := inside o s → inside o' s' ∧ section_does o s o' s'.

Definition may_do (c : DriverCall) o s : Prop := may_call c (hd_claim o) s.

(** ** Steps compose *)

Lemma step_refl o s : step o s o s.
Proof.
  intros [Ht [Hc Hr Hbk Hcm Hv]]. split; [by split|]. split; try done; eauto.
  - intros k Hk _. split; [done|]. intros _ y Hy _ _ Hu. exists y. split; [done|]. split; [apply same_device_refl|done].
  - apply submseteq_Permutation in Hbk as [l Hl]. eauto.
  - apply submseteq_Permutation in Hcm as [l Hl]. eauto.
  - apply submseteq_Permutation in Hv as [l Hl]. eauto.
Qed.

Lemma left_alone_trans k s1 s2 s3 : left_alone k s1 s2 → left_alone k s2 s3 → left_alone k s1 s3.
Proof.
  intros [_ H1] [Hk H2]. split; [done|]. intros Hop y Hy Hid Hs Hu.
  destruct (H1 Hop y Hy Hid Hs Hu) as (y2 & Hy2 & [Hi Hp Hd Hst Hpl] & Hu2).
  destruct (H2 Hop y2 Hy2) as (y3 & Hy3 & Hsame & Hu3); [congruence..|done|].
  exists y3. split; [done|]. split; [|done]. by eapply same_device_trans.
Qed.

Lemma counts_trans {A} (l1 l2 l3 o1 o2 o3 : list A) :
  (∃ l, l1 ≡ₚ o1 ++ l ∧ l2 ≡ₚ o2 ++ l) → (∃ l, l2 ≡ₚ o2 ++ l ∧ l3 ≡ₚ o3 ++ l) →
  ∃ l, l1 ≡ₚ o1 ++ l ∧ l3 ≡ₚ o3 ++ l.
Proof.
  intros (l & H1 & H2) (l' & H3 & H4). exists l. split; [done|]. rewrite H4. f_equiv.
  apply (inj (app o2)). by rewrite <- H2, <- H3.
Qed.

Lemma step_trans o1 s1 o2 s2 o3 s3 : step o1 s1 o2 s2 → step o2 s2 o3 s3 → step o1 s1 o3 s3.
Proof.
  intros H1 H2 Hin. destruct (H1 Hin) as [Hin2 S1]. destruct (H2 Hin2) as [Hin3 S2]. split; [done|].
  destruct Hin as [Ht _]. destruct S1, S2. split.
  - congruence.
  - destruct sd_claims0, sd_claims1. split; [lia|set_solver].
  - destruct sd_capacity0, sd_capacity1. split; [lia|set_solver].
  - intros k Hk Hne. pose proof (sd_others0 k Hk Hne) as L1. eapply left_alone_trans; [exact L1|].
    apply sd_others1; [by destruct L1|]. intros Heq. destruct (sd_claim_new0 k Heq) as [|Hge]; [done|].
    apply (co_held _ (proj2 (td_good _ Ht))) in Hk as (_ & Hlt & _). lia.
  - intros k Hk. destruct (sd_held1 k Hk) as [Hk2|]; [|by right]. destruct (sd_held0 k Hk2) as [|Ho2]; [by left|].
    destruct (sd_claim_old1 k Ho2) as [|Hrel]; [by right|exfalso]. destruct Hin3 as [Ht3 _].
    by destruct (co_held _ (proj2 (td_good _ Ht3)) _ _ Hk) as (_ & _ & []).
  - intros k Hk. destruct (sd_claim_new1 k Hk) as [Hk2|]; [by apply sd_claim_new0|]. destruct sd_claims0. right. lia.
  - intros k Hk. destruct (sd_claim_old0 k Hk) as [Hk2|Hrel]; [by apply sd_claim_old1|].
    destruct sd_claims1. right. set_solver.
  - intros r Hr Hd. apply sd_reserved1; [by apply sd_reserved0|]. intros r0 H0 e He He0.
    destruct (sd_reservation_new0 r0 H0) as [Heq|Hge]; [by apply (Hd r0 Heq e)|].
    destruct (Hr e He). specialize (Hge e He0). lia.
  - intros r Hr. destruct (sd_reservation_new1 r Hr) as [Hr2|Hge]; [by apply sd_reservation_new0|].
    right. intros e He. specialize (Hge e He). destruct sd_capacity0. lia.
  - intros r Hr. destruct (sd_reservation_old0 r Hr) as [Hr2|Hret]; [by apply sd_reservation_old1|].
    right. intros e He. destruct sd_capacity1 as [_ Hsub]. apply Hsub, Hret, He.
  - by eapply counts_trans.
  - by eapply counts_trans.
  - by eapply counts_trans.
  - intros h' Hne. destruct (sd_waiters0 h' Hne), (sd_waiters1 h' Hne). split; congruence.
  - auto.
Qed.

(** ** Sections as chains of steps *)

Local Abbreviation op A := (action Shared DeviceError A).

(** What a section ends in, what it then owns, and its answer. *)
Definition sec {A} (m : op A) o s (Q : result DeviceError A → Holding → Shared → Prop) : Prop :=
  inside o s → ∃ o', inside o' (m s).1 ∧ section_does o s o' (m s).1 ∧ Q (m s).2 o' (m s).1.

Lemma sec_mono {A} (m : op A) o s (Q Q' : result DeviceError A → Holding → Shared → Prop) :
  sec m o s Q → (∀ r o' s', inside o' s' → Q r o' s' → Q' r o' s') → sec m o s Q'.
Proof. intros Hm HQ Hin. destruct (Hm Hin) as (o' & Hi & Hs & Hq). exists o'. split_and!; auto. Qed.

Lemma sec_step {A} (m : op A) o s o' (Q : result DeviceError A → Holding → Shared → Prop) :
  step o s o' (m s).1 → (inside o' (m s).1 → Q (m s).2 o' (m s).1) → sec m o s Q.
Proof. intros Hs HQ Hin. destruct (Hs Hin) as [Hi Hd]. exists o'. split_and!; auto. Qed.

Lemma sec_same {A} (m : op A) o s (Q : result DeviceError A → Holding → Shared → Prop) :
  (m s).1 = s → (inside o s → Q (m s).2 o s) → sec m o s Q.
Proof. intros Hs HQ. apply (sec_step _ _ _ o); [rewrite Hs; apply step_refl|]. by rewrite Hs. Qed.

(** A section whose first part is [m]. *)
Lemma sec_after {A B} (m : op A) (f : op B) (k : result DeviceError A → op B) o s
    (Q : result DeviceError B → Holding → Shared → Prop) :
  (f s = k (m s).2 (m s).1) → sec m o s (λ r o' s', sec (k r) o' s' Q) → sec f o s Q.
Proof.
  intros Hf Hm Hin. destruct (Hm Hin) as (o1 & Hi1 & Hs1 & Hk). destruct (Hk Hi1) as (o2 & Hi2 & Hs2 & HQ).
  rewrite Hf. exists o2. split; [done|]. split; [|done].
  by apply (step_trans o s o1 (m s).1 o2); [intros _|intros _|].
Qed.
Lemma sec_bind {A B} (m : op A) (k : A → op B) o s (Q : result DeviceError B → Holding → Shared → Prop) :
  sec m o s (λ r o' s', match r with Ok a => sec (k a) o' s' Q | Err e => Q (Err e) o' s' end) →
  sec (m ≫= k) o s Q.
Proof.
  intros Hm. apply (sec_after m _ (λ r, match r with Ok a => k a | Err e => lift (Err e) end)).
  - unfold mbind, action_bind. by destruct (m s) as [s' [a|e]].
  - eapply sec_mono; [exact Hm|]. intros [a|e] o' s' Hin HQ; [done|]. by apply sec_same.
Qed.
Lemma sec_ret {A} (a : A) o s (Q : result DeviceError A → Holding → Shared → Prop) :
  (inside o s → Q (Ok a) o s) → sec (mret a) o s Q.
Proof. intros HQ. by apply sec_same. Qed.
Lemma sec_get {A} (k : Shared → op A) o s (Q : result DeviceError A → Holding → Shared → Prop) :
  sec (k s) o s Q → sec (get ≫= k) o s Q.
Proof. intros Hk. apply sec_bind, sec_same; done. Qed.
Lemma sec_catch {A} (m : op A) (k : DeviceError → op A) o s (Q : result DeviceError A → Holding → Shared → Prop) :
  sec m o s (λ r o' s', match r with Ok a => Q (Ok a) o' s' | Err e => sec (k e) o' s' Q end) →
  sec (Acquisition.catch_op m k) o s Q.
Proof.
  intros Hm. apply (sec_after m _ (λ r, match r with Ok a => mret a | Err e => k e end)).
  - unfold Acquisition.catch_op. by destruct (m s) as [s' [a|e]].
  - eapply sec_mono; [exact Hm|]. intros [a|e] o' s' Hin HQ; [|done]. by apply sec_ret.
Qed.
(** A section's [finally], which cannot throw. *)
Lemma sec_finally {A} (m : op A) (c : op unit) (f : op A) o s (Q : result DeviceError A → Holding → Shared → Prop) :
  (f s = let '(s', r) := m s in ((c s').1, r)) →
  sec m o s (λ r o' s', sec c o' s' (λ _ o'' s'', Q r o'' s'')) → sec f o s Q.
Proof.
  intros Hf Hm. apply (sec_after m _ (λ r s', ((c s').1, r))).
  - rewrite Hf. by destruct (m s) as [s' r].
  - eapply sec_mono; [exact Hm|]. intros r o' s' Hin Hc Hin'. destruct (Hc Hin') as (o2 & ? & ? & ?). eauto.
Qed.

(** ** Sections in flows *)

Local Abbreviation history := (list (DriverCall * result DeviceError DriverAnswer)).
Local Abbreviation safely f o c s Q := (safe others_do step may_do f o c s Q).

Lemma others_refl o s : others_do o s s.
Proof.
  intros Hin. split; [done|]. split; [apply rely_refl|]. split; [|done..].
  intros w Hw. exists w. split; [done|]. split; [by split_and!|by left].
Qed.

Lemma safe_sec {A} (m : op A) o c s (Q : result DeviceError A → Holding → history → Shared → Prop) :
  inside o s →
  (∀ s', rely (hd_claim o) s s' → waiter_kept s s' → inside o s' → sec m o s' (λ r o' s', Q r o' c s')) →
  safely (gate m) o c s Q.
Proof.
  intros Hin Hm. apply safe_gate. intros s' Hr. destruct (Hr Hin) as (Hin' & Hre & Hwk).
  destruct (Hm s' Hre Hwk Hin' Hin') as (o' & Hi & Hs & HQ). exists o'. split; [by intros _|done].
Qed.
Lemma safe_then {A B} (f : flow Shared DriverCall DriverAnswer DeviceError A)
    (g : A → flow Shared DriverCall DriverAnswer DeviceError B) o c s Q :
  safely f o c s (λ r o c s, match r with Ok a => safely (g a) o c s Q | Err e => Q (Err e) o c s end) →
  safely (f ≫= g) o c s Q.
Proof. intros Hf. apply safe_after. eapply safe_mono; [exact Hf|]. by intros [a|e]. Qed.

(** ** Sections that change only what the coordinator keeps *)

(** Nothing but the coordinator's state changed, and of that neither what it added to waiters nor
    whether it plans. *)
Definition quiet s s' : Prop := ∃ a,
  s' = s <| sh_acquiring := a |> ∧ aq_waiters a = aq_waiters (sh_acquiring s)
  ∧ aq_stopPlanning a = aq_stopPlanning (sh_acquiring s).
Lemma quiet_refl s : quiet s s.
Proof. exists (sh_acquiring s). by destruct s. Qed.
Lemma quiet_trans s1 s2 s3 : quiet s1 s2 → quiet s2 s3 → quiet s1 s3.
Proof. intros (a & -> & Hw & Hs) (b & -> & Hw' & Hs'). exists b. cbn in *.
  split; [done|]. split; congruence. Qed.
Lemma quiet_extra s s' : quiet s s' → extra_of s' = extra_of s.
Proof. intros (a & -> & Hw & _). unfold extra_of. cbn. by rewrite Hw. Qed.

Lemma tended_acquiring s a w w' : tended s → record_of s = Some w → store (aq_queue a) !! h = Some w' →
  same_waiter w w' → (isTerminal (w_state w') = false → isTerminal (w_state w) = false) →
  (∀ spec, aw_spec (default new_waiter (aq_waiters a !! h)) = Some spec → served (vs_platform spec)) →
  (∀ r, aw_requirement (default new_waiter (aq_waiters a !! h)) = Some r → served (rr_platform r)) →
  (aw_spec (extra_of s) ≠ None → aw_spec (default new_waiter (aq_waiters a !! h)) ≠ None) →
  tended (s <| sh_acquiring := a |>).
Proof.
  intros [Hg He Hb Hsp Hrq (w0 & Hw0 & Hl & Hid)] Hw Hw' (Hi & Hq & Ho) Ht H1 H2 H3.
  rewrite Hw in Hw0. injection Hw0 as <-. split; try done. exists w'. split; [done|]. split.
  - rewrite Hq. intros Hv. by apply H3, Hl.
  - intros Hnt l. rewrite Ho. by apply Hid, Ht.
Qed.
Lemma step_acquiring o s a w w' : record_of s = Some w → store (aq_queue a) !! h = Some w' →
  same_waiter w w' → (isTerminal (w_state w') = false → isTerminal (w_state w) = false) →
  (∀ h', h' ≠ h → store (aq_queue a) !! h' = store (queue_of s) !! h'
     ∧ aq_waiters a !! h' = aq_waiters (sh_acquiring s) !! h') →
  aq_stopPlanning a = aq_stopPlanning (sh_acquiring s) →
  (tended s → (∀ spec, aw_spec (default new_waiter (aq_waiters a !! h)) = Some spec → served (vs_platform spec))
    ∧ (∀ r, aw_requirement (default new_waiter (aq_waiters a !! h)) = Some r → served (rr_platform r))
    ∧ (aw_spec (extra_of s) ≠ None → aw_spec (default new_waiter (aq_waiters a !! h)) ≠ None)) →
  step o s o (s <| sh_acquiring := a |>).
Proof.
  intros Hw Hw' Hsame Ht Hoth Hstop Hx Hin. destruct (step_refl o s Hin) as [_ S]. destruct Hin as [Htd [? ? ? ?]].
  destruct (Hx Htd) as (? & ? & ?). split.
  - split; [by eapply tended_acquiring|]. by split.
  - destruct S. split; try done. cbn. by rewrite Hstop.
Qed.

(** What is known of the waiter after a section: its record, and that the rest is quiet. *)
Definition waiter_now (P : WaiterState → Prop) w s : Prop :=
  ∃ w', record_of s = Some w' ∧ same_waiter w w' ∧ P (w_state w').
Lemma same_waiter_refl w : same_waiter w w.
Proof. by split_and!. Qed.
Lemma same_waiter_trans w1 w2 w3 : same_waiter w1 w2 → same_waiter w2 w3 → same_waiter w1 w3.
Proof. intros (? & ? & ?) (? & ? & ?). split_and!; congruence. Qed.

Lemma sec_quiet {A} (m : op A) o s w a r w' (Q : result DeviceError A → Holding → Shared → Prop) :
  record_of s = Some w →
  m s = (s <| sh_acquiring := a |>, r) → aq_waiters a = aq_waiters (sh_acquiring s) →
  aq_stopPlanning a = aq_stopPlanning (sh_acquiring s) →
  store (aq_queue a) !! h = Some w' → same_waiter w w' →
  (isTerminal (w_state w') = false → isTerminal (w_state w) = false) →
  (∀ h', h' ≠ h → store (aq_queue a) !! h' = store (queue_of s) !! h') →
  (∀ s', inside o s' → quiet s s' → record_of s' = Some w' → Q r o s') →
  sec m o s Q.
Proof.
  intros Hw Hm Hwt Hst Hw' Hsame Ht Hoth HQ. apply (sec_step _ _ _ o); rewrite Hm.
  - eapply step_acquiring; try done; rewrite Hwt; [by split; [apply Hoth|]|]. intros [_ _ _ ? ? _]. by split_and!.
  - intros Hin. apply HQ; [done| |done]. exists a. by split_and!.
Qed.

Lemma sec_queue {A} (m : Z → action WaitQueue QueueError A) o s w q a w'
    (Q : result DeviceError A → Holding → Shared → Prop) :
  record_of s = Some w → m (sh_now s) (queue_of s) = (q, Ok a) →
  store q !! h = Some w' → same_waiter w w' →
  (isTerminal (w_state w') = false → isTerminal (w_state w) = false) →
  (∀ h', h' ≠ h → store q !! h' = store (queue_of s) !! h') →
  (∀ s', inside o s' → quiet s s' → record_of s' = Some w' → Q (Ok a) o s') →
  sec (Acquisition.on_queue m) o s Q.
Proof.
  intros Hw Hm Hw' Hsame Ht Hoth HQ.
  apply (sec_quiet _ _ _ w ((sh_acquiring s) <| aq_queue := q |>) (Ok a) w'); try done.
  unfold Acquisition.on_queue. fold (queue_of s). by rewrite Hm.
Qed.

(** The sections of the coordinator's parts that keep the queue and what it added to waiters. *)
Lemma sec_change (f : Acquiring → Acquiring) o s w (Q : result DeviceError unit → Holding → Shared → Prop) :
  record_of s = Some w →
  (∀ a, aq_queue (f a) = aq_queue a ∧ aq_waiters (f a) = aq_waiters a ∧ aq_stopPlanning (f a) = aq_stopPlanning a) →
  (∀ s', inside o s' → quiet s s' → record_of s' = Some w → Q (Ok tt) o s') →
  sec (Acquisition.change f) o s Q.
Proof.
  intros Hw Hf HQ. destruct (Hf (sh_acquiring s)) as (Hq & Hwt & Hst).
  apply (sec_quiet _ _ _ w (f (sh_acquiring s)) (Ok tt) w); try done.
  - by rewrite Hq.
  - intros h' _. by rewrite Hq.
Qed.

(** *** The waiter *)

Lemma settled_store q w st e : store q !! h = Some w →
  store (settled q h w st e) !! h = Some (w <| w_timer := None |> <| w_state := st |>)
  ∧ ∀ h', h' ≠ h → store (settled q h w st e) !! h' = store q !! h'.
Proof.
  intros Hw. unfold settled, removed. cbn. split; [by rewrite lookup_insert_eq|]. intros. by rewrite lookup_insert_ne.
Qed.

Lemma sec_waiter o s w (Q : result DeviceError Waiter → Holding → Shared → Prop) :
  record_of s = Some w → (inside o s → Q (Ok w) o s) → sec (Acquisition.waiter h) o s Q.
Proof.
  intros Hw HQ. apply sec_same; unfold Acquisition.waiter, Acquisition.on_queue; rewrite (mutable_Some _ _ w); try done.
  by destruct s as [? ? ? ? ? ? ? ? ? ? ? ? []].
Qed.

Lemma sec_reject e o s w (Q : result DeviceError bool → Holding → Shared → Prop) :
  record_of s = Some w →
  (∀ b s', inside o s' → quiet s s' → waiter_now (λ st, isTerminal st = true) w s' → Q (Ok b) o s') →
  sec (Acquisition.on_queue (λ _, reject h e)) o s Q.
Proof.
  intros Hw HQ. change (store (queue_of s) !! h = Some w) in Hw. destruct (isTerminal (w_state w)) eqn:Ht.
  - apply (sec_queue _ _ _ w (queue_of s) false w); try done.
    + by rewrite reject_eval, Hw, Ht.
    + intros s' ? ? ?. apply HQ; try done. exists w. split_and!; try done.
  - destruct (settled_store (queue_of s) w w_rejected (Rejected h e) Hw) as [H1 H2].
    eapply (sec_queue _ _ _ w _ true); try done; [by rewrite reject_eval, Hw, Ht|].
    intros s' ? ? Hs'. apply HQ; try done. eexists. split; [exact Hs'|]. by split_and!.
Qed.

Lemma sec_enqueue reason o s w (Q : result DeviceError bool → Holding → Shared → Prop) :
  record_of s = Some w →
  (∀ b s', inside o s' → quiet s s' →
     waiter_now (λ st, st = w_queued ∨ isTerminal st = true) w s' → Q (Ok b) o s') →
  sec (Acquisition.on_queue (λ now, enqueue now h reason)) o s Q.
Proof.
  intros Hw HQ. change (store (queue_of s) !! h = Some w) in Hw. pose proof (enqueue_eval (sh_now s) (queue_of s) h reason) as E. rewrite Hw in E.
  destruct (isTerminal (w_state w)) eqn:Ht.
  { apply (sec_queue _ _ _ w (queue_of s) false w); try done.
    intros s' ? ? ?. apply HQ; try done. exists w. split_and!; try done. by right. }
  destruct (past_deadline _ w).
  { destruct (settled_store (queue_of s) w w_rejected (Rejected h (QueueTimeoutError (w_id w))) Hw) as [H1 H2].
    eapply (sec_queue _ _ _ w _ false); try done.
    intros s' ? ? Hs'. apply HQ; try done. eexists. split; [exact Hs'|]. split_and!; try done. by right. }
  set (w' := armed (sh_now s) (w <| w_reason := reason |> <| w_state := w_queued |>)).
  assert (same_waiter w w' ∧ w_state w' = w_queued) as [Hsame Hst].
  { unfold w', armed. cbn. destruct (w_timer w), (ro_timeoutMs (w_options w)); by split_and!. }
  eapply (sec_queue _ _ _ w _ true w'); try done.
  - unfold enqueued. destruct (Arr.includes _ _); cbn; by rewrite lookup_insert_eq.
  - intros h' Hne. unfold enqueued. destruct (Arr.includes _ _); cbn; by rewrite lookup_insert_ne.
  - intros s' ? ? Hs'. apply HQ; try done. exists w'. split_and!; try done. by left.
Qed.

Lemma sec_markProcessing o s w (Q : result DeviceError bool → Holding → Shared → Prop) :
  record_of s = Some w →
  (∀ b s', inside o s' → quiet s s' →
     waiter_now (λ st, if b : bool then st = w_processing else isTerminal st = true) w s' → Q (Ok b) o s') →
  sec (Acquisition.on_queue (λ now, markProcessing now h)) o s Q.
Proof.
  intros Hw HQ. change (store (queue_of s) !! h = Some w) in Hw. pose proof (markProcessing_eval (sh_now s) (queue_of s) h) as E. rewrite Hw in E.
  destruct (isTerminal (w_state w)) eqn:Ht.
  { apply (sec_queue _ _ _ w (queue_of s) false w); try done.
    intros s' ? ? ?. apply HQ; try done. exists w. by split_and!. }
  destruct (past_deadline _ w).
  { destruct (settled_store (queue_of s) w w_rejected (Rejected h (QueueTimeoutError (w_id w))) Hw) as [H1 H2].
    eapply (sec_queue _ _ _ w _ false); try done.
    intros s' ? ? Hs'. apply HQ; try done. eexists. split; [exact Hs'|]. by split_and!. }
  eapply (sec_queue _ _ _ w _ true (w <| w_state := w_processing |>)); try done.
  - cbn. by rewrite lookup_insert_eq.
  - intros h' Hne. cbn. by rewrite lookup_insert_ne.
  - intros s' ? ? Hs'. apply HQ; try done. eexists. split; [exact Hs'|]. by split_and!.
Qed.

Lemma sec_markNew o s w (Q : result DeviceError bool → Holding → Shared → Prop) :
  record_of s = Some w →
  (∀ b s', inside o s' → quiet s s' → waiter_now (λ st, st = w_granted → w_state w = w_granted) w s' → Q (Ok b) o s') →
  sec (Acquisition.on_queue (λ _, markNew h)) o s Q.
Proof.
  intros Hw HQ. change (store (queue_of s) !! h = Some w) in Hw. pose proof (markNew_eval (queue_of s) h) as E. rewrite Hw in E.
  destruct (isTerminal (w_state w)) eqn:Ht.
  { apply (sec_queue _ _ _ w (queue_of s) false w); try done.
    intros s' ? ? ?. apply HQ; try done. exists w. by split_and!. }
  eapply (sec_queue _ _ _ w _ true (w <| w_state := if Arr.includes h (waiters (queue_of s)) then w_queued else w_new |>));
    try done.
  - cbn. by rewrite lookup_insert_eq.
  - intros h' Hne. cbn. by rewrite lookup_insert_ne.
  - intros s' ? ? Hs'. apply HQ; try done. eexists. split; [exact Hs'|]. split; [by split_and!|]. cbn. by destruct (Arr.includes _ _).
Qed.

Lemma sec_progress p o s w (Q : result DeviceError unit → Holding → Shared → Prop) :
  record_of s = Some w →
  (∀ s', inside o s' → quiet s s' → record_of s' = Some w → Q (Ok tt) o s') →
  sec (Acquisition.on_queue (λ _, notifyProgress h p)) o s Q.
Proof.
  intros Hw HQ. change (store (queue_of s) !! h = Some w) in Hw. destruct (isTerminal (w_state w)) eqn:Ht.
  - apply (sec_queue _ _ _ w (queue_of s) tt w); try done. unfold notifyProgress.
    rewrite (bind_eval _ _ _ _ _ (mutable_Some _ _ w Hw)). by rewrite Ht.
  - apply (sec_queue _ _ _ w ((queue_of s) <| q_log := q_log (queue_of s) ++ [Progressed h p] |>) tt w); try done.
    unfold notifyProgress.
    rewrite (bind_eval _ _ _ _ _ (mutable_Some _ _ w Hw)). by rewrite Ht.
Qed.

(** ** The coordinator's own steps *)

Lemma waiter_now_trans P w w1 s : same_waiter w w1 → waiter_now P w1 s → waiter_now P w s.
Proof. intros H (w2 & Hr & Hs & HP). exists w2. split_and!; try done. by eapply same_waiter_trans. Qed.
Lemma inside_waiter o s : inside o s → ∃ w, record_of s = Some w.
Proof. intros [[_ _ _ _ _ (w & Hw & _)] _]. eauto. Qed.

Lemma sec_emit e o s w (Q : result DeviceError unit → Holding → Shared → Prop) :
  record_of s = Some w →
  (∀ s', inside o s' → quiet s s' → record_of s' = Some w → Q (Ok tt) o s') →
  sec (Acquisition.emit_event e) o s Q.
Proof. intros Hw HQ. by apply (sec_change _ _ _ w). Qed.
Lemma sec_wake o s w (Q : result DeviceError unit → Holding → Shared → Prop) :
  record_of s = Some w →
  (∀ s', inside o s' → quiet s s' → record_of s' = Some w → Q (Ok tt) o s') →
  sec Acquisition.wakeQueue o s Q.
Proof. intros Hw HQ. by apply (sec_change _ _ _ w). Qed.

Lemma sec_reject_waiter e reason o s w (Q : result DeviceError unit → Holding → Shared → Prop) :
  record_of s = Some w →
  (∀ s', inside o s' → quiet s s' → waiter_now (λ st, isTerminal st = true) w s' → Q (Ok tt) o s') →
  sec (Acquisition.reject_waiter h e reason) o s Q.
Proof.
  intros Hw HQ. apply sec_bind, (sec_waiter _ _ w); [done|]. intros _.
  apply sec_bind, (sec_reject _ _ _ w); [done|]. intros b s1 Hin1 Hq1 (w1 & Hw1 & Hs1 & Ht1).
  destruct b; [|apply sec_ret; intros _; apply HQ; try done; by exists w1].
  apply (sec_emit _ _ _ w1); [done|]. intros s2 Hin2 Hq2 Hw2.
  apply HQ; [done|by eapply quiet_trans|]. by exists w1.
Qed.

(** A waiter that is settled or in line. *)
Definition resting (st : WaiterState) : Prop := st = w_queued ∨ isTerminal st = true.

Lemma sec_isQueued o s w (Q : result DeviceError bool → Holding → Shared → Prop) :
  record_of s = Some w → (∀ b, inside o s → Q (Ok b) o s) →
  sec (Acquisition.on_queue (λ _, isQueued h)) o s Q.
Proof.
  intros Hw HQ. change (store (queue_of s) !! h = Some w) in Hw.
  assert (isQueued h (queue_of s) = (queue_of s, Ok (Arr.includes h (waiters (queue_of s))))) as E.
  { unfold isQueued. by rewrite (bind_eval _ _ _ _ _ (mutable_Some _ _ w Hw)). }
  apply sec_same; unfold Acquisition.on_queue; fold (queue_of s); rewrite E; [|intros; by apply HQ].
  by destruct s as [? ? ? ? ? ? ? ? ? ? ? ? []].
Qed.

Lemma sec_enqueue_waiter reason o s w (Q : result DeviceError unit → Holding → Shared → Prop) :
  record_of s = Some w →
  (∀ s', inside o s' → quiet s s' → waiter_now resting w s' → Q (Ok tt) o s') →
  sec (Acquisition.enqueue_waiter h reason) o s Q.
Proof.
  intros Hw HQ. apply sec_bind, (sec_waiter _ _ w); [done|]. intros _.
  apply sec_bind, (sec_isQueued _ _ w); [done|]. intros already _.
  apply sec_bind, (sec_enqueue _ _ _ w); [done|]. intros b s1 Hin1 Hq1 (w1 & Hw1 & Hs1 & Ht1).
  destruct (b && negb already); [|apply sec_ret; intros _; apply HQ; try done; by exists w1].
  apply sec_get, (sec_emit _ _ _ w1); [done|]. intros s2 Hin2 Hq2 Hw2.
  apply HQ; [done|by eapply quiet_trans|]. by exists w1.
Qed.

(** ** Steps of the device operations *)

(** Everything but the registry and the claims is as it was. *)
Definition rest_same s s' : Prop :=
  sh_capacity s' = sh_capacity s ∧ sh_provisioning s' = sh_provisioning s ∧ sh_holds s' = sh_holds s
  ∧ sh_baselines s' = sh_baselines s ∧ sh_acquiring s' = sh_acquiring s.

Lemma step_guar o s k' s' : guar (hd_claim o) s k' s' → rest_same s s' → step o s (o <| hd_claim := k' |>) s'.
Proof.
  intros Hg (Hcap & Hpr & Hho & Hba & Hac) Hin. pose proof Hin as [Htd [Hk Hr Hbk Hc Hv]].
  destruct (Hg (td_good _ Htd) Hk) as (Hgood & Hnow & Hgr & Hls & _ & Hoth & Hnew & Hold & Honly).
  destruct Htd as [_ He Hb Hsp Hrq (w & Hw & Hl & Hid)]. split.
  - split; split; cbn; rewrite ?Hcap, ?Hpr, ?Hho, ?Hba; try done.
    + unfold extra_of. by rewrite Hac.
    + unfold extra_of. by rewrite Hac.
    + exists w. unfold record_of, queue_of, extra_of. rewrite Hac, Hls. by split_and!.
    + intros k Hk'. by apply Hnew.
  - destruct (step_refl o s Hin) as [_ S]. destruct S. unfold queue_of in *.
    split; cbn; rewrite ?Hcap, ?Hpr, ?Hho, ?Hac; try done.
    + intros k Hk'. by apply Hnew.
    + intros h' _. unfold queue_of. by rewrite Hac.
Qed.

Lemma waiter_kept_refl s : waiter_kept s s.
Proof.
  split; [|done..]. intros w Hw. exists w. split; [done|]. split; [apply same_waiter_refl|by left].
Qed.
Lemma waiter_kept_trans s1 s2 s3 : waiter_kept s1 s2 → waiter_kept s2 s3 → waiter_kept s1 s3.
Proof.
  intros [H1 E1 S1] [H2 E2 S2]. split; [|congruence|auto]. intros w Hw.
  destruct (H1 w Hw) as (w2 & Hw2 & Hs2 & Hst2). destruct (H2 w2 Hw2) as (w3 & Hw3 & Hs3 & Hst3).
  exists w3. split; [done|]. split; [by eapply same_waiter_trans|].
  destruct Hst3 as [->|]; [done|by right].
Qed.
Lemma waiter_kept_same s s' : sh_acquiring s' = sh_acquiring s → waiter_kept s s'.
Proof.
  intros Hac. destruct (waiter_kept_refl s). split; unfold record_of, queue_of, extra_of in *; by rewrite Hac.
Qed.

(** A device operation run by a drive that owns [o], its claim among it. *)
Lemma safe_operation {R} (f : flow Shared DriverCall DriverAnswer DeviceError R) o c s Q :
  inside o s → sections rest_same f → safe rely guar may_call f (hd_claim o) [] s Q →
  safely f o c s (λ r o' c' s', ∃ k hist, o' = o <| hd_claim := k |> ∧ c' = c ++ hist ∧ inside o' s'
    ∧ waiter_kept s s' ∧ Q r k hist s').
Proof.
  intros Hin Hsec Hf. apply (safe_history _ _ _ _ _ c) in Hf. rewrite app_nil_r in Hf.
  pose proof (safe_frame rely guar may_call others_do step may_do (λ k, o <| hd_claim := k |>) rest_same
    (λ k s, inside (o <| hd_claim := k |>) s) (waiter_kept s) f (hd_claim o) c s
    (λ r k h' s, ∃ hist, h' = c ++ hist ∧ Q r k hist s)) as H.
  destruct o as [k r cm v]. cbn in *. eapply safe_mono; [eapply H; clear H; try exact Hf; try done|].
  - intros k' s1 s2 Hi Ho. destruct (Ho Hi) as (Hi' & Hr & _). by split.
  - intros k1 s1 k2 s2 Hi Hg HP.
    pose proof (step_guar (MkHolding k1 r cm v) s1 k2 s2 Hg HP) as Hst. split; [exact Hst|]. by destruct (Hst Hi).
  - intros k1 s1 s2 HJ Hi Ho. destruct (Ho Hi) as (_ & _ & Hwk). by eapply waiter_kept_trans.
  - intros s1 s2 HJ (_ & _ & _ & _ & Hac). eapply waiter_kept_trans; [done|]. by apply waiter_kept_same.
  - apply waiter_kept_refl.
  - cbn. intros r' o' c' s' (k' & -> & Hi & HJ & hist & -> & HQ). exists k', hist. by split_and!.
Qed.

(** The claim is given back; a claim that has ended stays ended. *)
Lemma sec_drop k o s (Q : result DeviceError unit → Holding → Shared → Prop) :
  hd_claim o = Some k →
  (∀ s', inside (o <| hd_claim := None |>) s' → s' = ManagedDevice.drop_claim k s →
     Q (Ok tt) (o <| hd_claim := None |>) s') →
  sec (modify (ManagedDevice.drop_claim k)) o s Q.
Proof.
  intros Hk HQ Hin. assert (sec (modify (ManagedDevice.drop_claim k)) o s Q) as Hs; [|by apply Hs].
  apply (sec_step _ _ _ (o <| hd_claim := None |>)).
  - apply step_guar; [|by split_and!]. rewrite Hk. destruct Hin as [Htd Ho].
    apply guar_drop; [apply Htd|by apply Ho].
  - intros Hin'. by apply HQ.
Qed.
Lemma sec_drop_ended k o s (Q : result DeviceError unit → Holding → Shared → Prop) :
  k_number k ∈ releasedClaims (sh_claims s) → (inside o s → Q (Ok tt) o s) →
  sec (modify (ManagedDevice.drop_claim k)) o s Q.
Proof.
  intros Hk HQ. assert (ManagedDevice.drop_claim k s = s) as E.
  { unfold ManagedDevice.drop_claim, releaseClaim, Arr.includes. rewrite bool_decide_eq_true_2 by done. by destruct s. }
  by apply sec_same.
Qed.

(** The reservation is given back. *)
Lemma step_books o s c r : books_move (sh_capacity s) c r → hd_reservation o = None →
  step o s (o <| hd_reservation := r |>) (s <| sh_capacity := c |>).
Proof.
  intros [Hgr Hb Hoth Htk Hbk] Hr0 Hin. destruct (step_refl o s Hin) as [_ S]. destruct Hin as [Htd [Hk Hr _ Hc Hv]]. split.
  - split; [by destruct Htd; split|]. split; cbn; try done; [intros r' ->; by apply Htk|]. rewrite Hbk. by apply submseteq_inserts_r.
  - destruct S. split; cbn; try done; [by intros r' Hr' _; apply Hoth| |congruence|].
    + intros r' ->. right. by apply Htk.
    + exists (booked (sh_capacity s)). split; [|exact Hbk]. unfold owned_entries. by rewrite Hr0.
Qed.
Lemma step_free o s r : hd_reservation o = Some r →
  step o s (o <| hd_reservation := None |>) (s <| sh_capacity := Capacity.release r (sh_capacity s) |>).
Proof.
  intros Hr0 Hin. destruct (step_refl o s Hin) as [_ S]. destruct Hin as [Htd [Hk Hr Hbk Hc Hv]].
  destruct (release_returns r (sh_capacity s) (td_entries _ Htd) (Hr r Hr0)) as (Hgr & Hb & Hret & Hoth).
  assert (owned_entries o = entries_of r) as Ho by (unfold owned_entries; rewrite Hr0; apply app_nil_r). rewrite Ho in Hbk. split.
  - split; [by destruct Htd; split|]. split; try done. apply submseteq_nil_l.
  - destruct S. split; cbn; try done.
    + intros r' Hr' Hd. apply Hoth; [done|]. by apply Hd.
    + intros r'. rewrite Hr0. intros [= <-]. by right.
    + eexists. rewrite Ho. split; [|done]. apply release_booked; [by apply Hr|done].
Qed.
Definition rest_but_capacity s s' : Prop := ∃ c, s' = s <| sh_capacity := c |>.
Lemma sec_free r o s (Q : result DeviceError unit → Holding → Shared → Prop) :
  hd_reservation o = Some r →
  (∀ s', inside (o <| hd_reservation := None |>) s' → rest_but_capacity s s' →
     Q (Ok tt) (o <| hd_reservation := None |>) s') →
  sec (Provisioner.free r) o s Q.
Proof.
  intros Hr HQ. apply (sec_step _ _ _ (o <| hd_reservation := None |>)); [by apply step_free|].
  intros Hin. apply HQ; [done|]. by eexists.
Qed.
End owned.

(** ** Drives beside each other *)

(** What two drives own is apart. *)
Record apart o1 o2 (s : Shared) : Prop := {
  ap_claim k : hd_claim o1 = Some k → hd_claim o2 ≠ Some k;
  ap_reservation r1 r2 : hd_reservation o1 = Some r1 → hd_reservation o2 = Some r2 → entries_of r1 ## entries_of r2;
  ap_booked : owned_entries o1 ++ owned_entries o2 ⊆+ booked (sh_capacity s);
  ap_component : option_list (hd_component o1) ++ option_list (hd_component o2) ⊆+ sh_provisioning s;
  ap_version : option_list (hd_version o1) ++ option_list (hd_version o2) ⊆+ sh_holds s }.
(** The lease id a waiter was given is not taken while it waits. *)
Definition lease_id_free h s : Prop := ∀ w l, record_of h s = Some w → isTerminal (w_state w) = false →
  ro_leaseId (w_options w) = Some l → l ∉ l_id <$> leases (sh_registry s).

Lemma counts_apart {A} (l1 l2 o1 o1' o2 : list A) :
  (∃ l, l1 ≡ₚ o1 ++ l ∧ l2 ≡ₚ o1' ++ l) → o1 ++ o2 ⊆+ l1 → o1' ++ o2 ⊆+ l2.
Proof.
  intros (l & H1 & H2). rewrite H1, H2. intros Hs. apply submseteq_app; [done|]. by eapply submseteq_app_inv_l.
Qed.
Lemma counts_mine {A} (l o1 o2 : list A) : o1 ++ o2 ⊆+ l → o2 ⊆+ l.
Proof. intros H. etransitivity; [|exact H]. by apply submseteq_inserts_l. Qed.

Lemma apart_after served h1 h2 o1 o1' o2 s s' : section_does h1 o1 s o1' s' → inside served h2 o2 s →
  apart o1 o2 s → apart o1' o2 s'.
Proof.
  intros [] [Htd Hown] []. split; [| |by eapply counts_apart..].
  - intros k Hk Hk2. destruct (sd_claim_new0 k Hk) as [Hk1|Hge]; [by apply (ap_claim0 k)|].
    pose proof (own_claim _ _ Hown k Hk2) as Hh. apply (co_held _ (proj2 (td_good _ _ _ Htd))) in Hh as (_ & Hlt & _). lia.
  - intros r1 r2 H1 H2. destruct (sd_reservation_new0 r1 H1) as [Hr|Hge]; [by apply ap_reservation0|].
    intros e He1 He2. specialize (Hge e He1). destruct (own_reservation _ _ Hown r2 H2 e He2). lia.
Qed.

Lemma others_of_step served h1 h2 o1 o1' o2 s s' : h1 ≠ h2 → inside served h1 o1 s → step served h1 o1 s o1' s' →
  apart o1 o2 s → lease_id_free h2 s' → others_do served h2 o2 s s'.
Proof.
  intros Hne Hin1 Hstep Hap Hfree Hin2. destruct (Hstep Hin1) as [[Htd1 _] Sd].
  destruct (sd_waiters _ _ _ _ _ Sd h2 (not_eq_sym Hne)) as [Hrec Hext].
  pose proof (apart_after served h1 h2 _ _ _ _ _ Sd Hin2 Hap) as Hap'.
  pose proof Hin2 as [[_ _ _ Hsp Hrq (w & Hw & Hl & _)] Hown].
  assert (extra_of h2 s' = extra_of h2 s) as Hx by (unfold extra_of; by rewrite Hext).
  assert (record_of h2 s' = record_of h2 s) as Hr by exact Hrec. destruct Sd.
  assert (∀ k, hd_claim o2 = Some k → held (sh_claims s) k → left_alone k s s') as Halone.
  { intros k Hk Hh. apply sd_others0; [done|]. intros Hk1. by apply (ap_claim _ _ _ Hap k). }
  split; [split; split|split].
  - apply Htd1.
  - apply Htd1.
  - apply Htd1.
  - by rewrite Hx.
  - by rewrite Hx.
  - exists w. rewrite Hr, Hx. split; [done|]. split; [done|]. intros Hnt l Hlid. apply (Hfree w l); [by rewrite Hr|done..].
  - intros k Hk. by destruct (Halone k Hk (own_claim _ _ Hown k Hk)).
  - intros r Hr2. apply sd_reserved0; [by apply Hown|]. intros r0 Hr0 e He He0.
    by apply (ap_reservation _ _ _ Hap r0 r Hr0 Hr2 e).
  - eapply counts_mine, Hap'.
  - eapply counts_mine, Hap'.
  - eapply counts_mine, Hap'.
  - intros _. split; [apply Htd1|]. split; [by rewrite sd_now0|]. done.
  - split; [|done|done]. intros w' Hw'. exists w'. rewrite Hr. split; [done|]. split; [apply same_waiter_refl|by left].
Qed.

Section coordinator.
Context `{LocaleCompare} {S : Type} `{CapacityStrategy S} (strategy : S) (options : RegistryOptions)
  (Hret : retention_ok options) {Host : Type} (drivers : Platform → option (Driver (Host := Host)))
  (leaseEnvironment : Platform → DriverDevice → list (string * string))
  (generate : Shared → string) (defaultMs : Z) (retry_config : QuarantineRetryConfig) (h : nat).
(** The id generator hands out ids nobody has. *)
Context (fresh_device : ∀ s, "dev_" +:+ generate s ∉ dev_id <$> devices (sh_registry s))
  (fresh_lease : ∀ s, "lse_" +:+ generate s ∉ l_id <$> leases (sh_registry s)).
Local Abbreviation served := (λ p, is_Some (drivers p)).
Local Abbreviation inside := (inside served h).
Local Abbreviation tended := (tended served h).
Local Abbreviation sec := (sec served h).
Local Abbreviation op A := (action Shared DeviceError A).
Local Abbreviation record_of := (record_of h).
Local Abbreviation extra_of := (extra_of h).
Implicit Types (o : Holding) (s : Shared) (w : Waiter).

Lemma sec_driver_for p o s (Q : result DeviceError Driver → Holding → Shared → Prop) :
  served p → (∀ d, drivers p = Some d → inside o s → Q (Ok d) o s) →
  sec (Acquisition.driver_for drivers p) o s Q.
Proof.
  intros [d Hd] HQ. unfold Acquisition.driver_for. rewrite Hd. apply sec_same; [done|]. intros. by apply (HQ d).
Qed.
Lemma sec_extra o s (Q : result DeviceError AcquisitionWaiter → Holding → Shared → Prop) :
  (inside o s → Q (Ok (extra_of s)) o s) → sec (Acquisition.extra h) o s Q.
Proof. intros HQ. by apply sec_same. Qed.

Lemma sec_notifyReclaimWait o s w (Q : result DeviceError unit → Holding → Shared → Prop) :
  record_of s = Some w →
  (∀ s', inside o s' → quiet s s' → record_of s' = Some w → Q (Ok tt) o s') →
  sec (Acquisition.notifyReclaimWait drivers h) o s Q.
Proof.
  intros Hw HQ. apply sec_bind, sec_extra. intros Hin.
  assert (∀ (Hin : inside o s), Q (Ok tt) o s) as Hsame by (intros; apply HQ; [done|apply quiet_refl|done]).
  destruct (aw_spec (extra_of s)) as [spec|] eqn:Esp; [|by apply sec_ret].
  apply sec_get. destruct (Arr.some _ _); [|by apply sec_ret].
  apply sec_bind, sec_driver_for; [by apply (td_spec _ _ _ (proj1 Hin))|]. intros d _ _.
  by apply (sec_progress _ _ _ _ _ w).
Qed.

Lemma sec_defer reason o s w (Q : result DeviceError unit → Holding → Shared → Prop) :
  record_of s = Some w →
  (∀ s', inside o s' → quiet s s' → waiter_now h resting w s' → Q (Ok tt) o s') →
  sec (Acquisition.defer drivers h reason) o s Q.
Proof.
  intros Hw HQ. apply sec_bind, (sec_waiter _ _ _ _ w); [done|]. intros _.
  destruct (ro_noWait (w_options w)).
  - apply (sec_reject_waiter _ _ _ _ _ _ w); [done|]. intros s' Hin Hq (w' & ? & ? & ?). apply HQ; try done.
    exists w'. split_and!; try done. by right.
  - apply sec_bind, (sec_enqueue_waiter _ _ _ _ _ w); [done|]. intros s1 Hin1 Hq1 (w1 & Hw1 & Hs1 & Hr1).
    apply (sec_notifyReclaimWait _ _ w1); [done|]. intros s2 Hin2 Hq2 Hw2.
    apply HQ; [done|by eapply quiet_trans|]. by exists w1.
Qed.

(** ** Granting *)

(** Only the coordinator's state changed, and it plans as before. *)
Definition coordinator_only s s' : Prop := ∃ a,
  s' = s <| sh_acquiring := a |> ∧ aq_stopPlanning a = aq_stopPlanning (sh_acquiring s).
Lemma quiet_coordinator s s' : quiet s s' → coordinator_only s s'.
Proof. intros (a & -> & _ & Hs). by exists a. Qed.
Lemma coordinator_only_trans s1 s2 s3 : coordinator_only s1 s2 → coordinator_only s2 s3 → coordinator_only s1 s3.
Proof. intros (a & -> & Ha) (b & -> & Hb). exists b. cbn in *. split; [done|congruence]. Qed.

(** A grant beside the others: a ready device nobody else has claimed becomes leased, and the waiter
    granted. *)
Lemma step_granted o s w w' x r' l a :
  record_of s = Some w → isTerminal (w_state w) = false →
  x ∈ devices (sh_registry s) → dev_state x = ready →
  (∀ k, held (sh_claims s) k → k_deviceId k = dev_id x → hd_claim o = Some k) →
  registry_ok (sh_now s) r' → leases r' = leases (sh_registry s) ++ [l] → l_deviceId l = dev_id x →
  (∀ y, y ∈ devices (sh_registry s) → dev_id y ≠ dev_id x → dev_state y ≠ deleted → y ∈ devices r') →
  aq_waiters a = aq_waiters (sh_acquiring s) → store (aq_queue a) !! h = Some w' → same_waiter w w' →
  isTerminal (w_state w') = true →
  (∀ h', h' ≠ h → store (aq_queue a) !! h' = store (queue_of s) !! h') →
  aq_stopPlanning a = aq_stopPlanning (sh_acquiring s) →
  step served h o s o (s <| sh_registry := r' |> <| sh_acquiring := a |>).
Proof.
  intros Hw Hnt Hx Hxs Hun Hr' Hls Hld Hoth Hwt Hw' (Hi & Hq & Ho) Ht' Hstore Hstop Hin.
  destruct (step_refl served h o s Hin) as [_ Sd]. destruct Hin as [[Hg He Hb Hsp Hrq (w0 & Hw0 & Hl & Hid)] [? ? ? ?]].
  rewrite Hw in Hw0. injection Hw0 as <-. split.
  - split; [|by split]. split; unfold Ownership.extra_of; cbn; rewrite ?Hwt; try done; [by split; [|apply Hg]|].
    exists w'. split; [done|]. split; [by rewrite Hq|]. by rewrite Ht'.
  - destruct Sd. split; try done; [|by intros h' Hne; split; [apply Hstore|cbn; by rewrite Hwt]|by cbn; rewrite Hstop].
    intros k Hk Hne. split; [done|]. intros _ y Hy Hyid Hnd Hu.
    assert (dev_id y ≠ dev_id x) as Hyx. { intros Heq. apply Hne, Hun; [done|congruence]. }
    exists y. split; [by apply Hoth|]. split; [apply same_device_refl|]. cbn. unfold unleased in *.
    rewrite Hls. rewrite negb_true_iff in *. unfold Arr.some in *. rewrite existsb_app, Hu. cbn.
    rewrite orb_false_r. apply bool_decide_eq_false. rewrite Hld. congruence.
Qed.

(** What the lifecycle does once the lease is written cannot fail. *)
Lemma lifecycle_grant_run now g input lg r' l x :
  createLease options now g (MkCreateLease (gi_deviceId input) (gi_requesterId input) (gi_ownerId input)
    (default defaultMs (gi_ttlMs input)) (now + default defaultMs (gi_ttlMs input)) (gi_leaseId input)
    (gi_except input) (Some (MkRequestRef (gi_requestId input) (gi_environment input) (gi_timing input))))
    (lg_registry lg) = (r', Ok l) →
  x ∈ devices r' → dev_id x = l_deviceId l →
  ∃ lg' granted, Lifecycle.grant options defaultMs now g input lg = (lg', Ok granted) ∧ lg_registry lg' = r'.
Proof.
  intros Hrun Hx Hxid. unfold Lifecycle.grant, Lifecycle.on_registry, mbind, action_bind. rewrite Hrun.
  unfold get. cbv beta iota. cbn [lg_registry update_field Leasing_eta].
  destruct (Arr.find (λ d, dev_id d === l_deviceId l) _) as [y|] eqn:Ef.
  - unfold Lifecycle.arm, Lifecycle.emit_lease, Lifecycle.cancel, Lifecycle.deliverExpiry, modify, mret, action_ret,
      get, mbind, action_bind. cbn.
    destruct (lg_disposed lg) eqn:Ed; cbn; [eexists _, _; split; reflexivity|].
    destruct (l_ttlDeadline l <=? now)%Z; cbn; rewrite ?Ed; eexists _, _; split; reflexivity.
  - exfalso. rewrite afind_None in Ef. specialize (Ef x Hx). cbn in Ef. by rewrite bool_decide_eq_true_2 in Ef.
Qed.

Lemma sec_grant x y kind o s w (Q : result DeviceError unit → Holding → Shared → Prop) :
  record_of s = Some w → isTerminal (w_state w) = false →
  y ∈ devices (sh_registry s) → dev_id y = dev_id x → dev_state y = ready →
  (∀ k, held (sh_claims s) k → k_deviceId k = dev_id x → hd_claim o = Some k) →
  (∀ e, inside o s → Q (Err e) o s) →
  (∀ s', inside o s' → sh_claims s' = sh_claims s → aq_stopPlanning (sh_acquiring s') = aq_stopPlanning (sh_acquiring s) →
     waiter_now h (λ st, isTerminal st = true) w s' → Q (Ok tt) o s') →
  sec (Acquisition.grant options drivers leaseEnvironment generate defaultMs h x kind) o s Q.
Proof using Hret fresh_lease.
  intros Hw Hnt Hy Hyx Hys Hun HE HQ. apply sec_bind, (sec_waiter _ _ _ _ w); [done|]. intros _.
  apply sec_bind, sec_extra. intros _. apply sec_get, sec_bind.
  unfold Acquisition.driver_for at 1. destruct (drivers (spec_platform (dev_spec x))) as [d|].
  2:{ apply sec_same; [done|]. intros Hin. by apply HE. }
  apply sec_same; [done|]. intros Hin. change (lift (Ok d) s).2 with (@Ok DeviceError _ d). cbv beta iota zeta.
  match goal with |- context [MkGrantInput ?a ?b ?c ?d ?e ?f ?g ?i ?j ?k ?l] =>
    set (input := MkGrantInput a b c d e f g i j k l) end.
  pose proof Hin as [[[Hreg _] _ _ _ _ (w0 & Hw0 & _ & Hid)] _].
  rewrite Hw in Hw0. injection Hw0 as <-.
  set (create := MkCreateLease (gi_deviceId input) (gi_requesterId input) (gi_ownerId input)
    (default defaultMs (gi_ttlMs input)) (sh_now s + default defaultMs (gi_ttlMs input)) (gi_leaseId input)
    (gi_except input) (Some (MkRequestRef (gi_requestId input) (gi_environment input) (gi_timing input)))).
  destruct (create_lease_run options Hret (sh_now s) (sh_registry s) (generate s) create y)
    as (r' & l & x' & Hrun & Hr' & Hls & _ & Hld & Hx' & Hxid & Hoth); try done.
  { cbn. destruct (ro_leaseId (w_options w)) as [i|] eqn:E; cbn; [by apply Hid|apply fresh_lease]. }
  destruct (lifecycle_grant_run (sh_now s) (generate s) input (Acquisition.leasing_of s) r' l x')
    as (lg & g & Hlg & Hlr); [exact Hrun|done|congruence|].
  set (e := MkExpiry (lg_timers lg) (lg_disposed lg) (lg_due lg) (lg_events lg)).
  assert (Acquisition.on_leasing (λ now, Lifecycle.grant options defaultMs now (generate s) input) s
    = (s <| sh_registry := r' |> <| sh_acquiring := (sh_acquiring s) <| aq_expiry := e |> |>, Ok g)) as Hgr.
  { unfold Acquisition.on_leasing. rewrite Hlg, Hlr. reflexivity. }
  set (s1 := s <| sh_registry := r' |> <| sh_acquiring := (sh_acquiring s) <| aq_expiry := e |> |>) in *.
  pose proof (resolve_eval (queue_of s) h g) as Hres. change (store (queue_of s) !! h) with (record_of s) in Hres.
  rewrite Hw, Hnt in Hres. set (q := settled (queue_of s) h w w_granted (Resolved h g)) in *.
  destruct (settled_store h (queue_of s) w w_granted (Resolved h g) Hw) as [Hq1 Hq2].
  set (a := (sh_acquiring s) <| aq_expiry := e |> <| aq_queue := q |>).
  match goal with |- sec ?m _ _ _ => set (M := m) end.
  assert (M s = (s <| sh_registry := r' |> <| sh_acquiring := a |>, Ok tt)) as HM.
  { unfold M, mbind, action_bind. rewrite Hgr. unfold Acquisition.on_queue. cbv beta iota.
    change (aq_queue (sh_acquiring s1)) with (queue_of s). rewrite Hres. reflexivity. }
  assert (sec M o s Q) as Hsec; [|by apply Hsec].
  apply (sec_step _ _ _ _ _ o); rewrite HM.
  - eapply (step_granted o s w _ y r' l a); try done. by rewrite Hyx.
  - intros Hin'. apply HQ; try done. eexists. split; [exact Hq1|]. by split_and!.
Qed.

(** ** Deciding *)

(** The waiter of a virtual request, not granted. *)
Definition active s : Prop :=
  ∃ w, record_of s = Some w ∧ lineOf (w_request w) = line_virtual ∧ w_state w ≠ w_granted.
Lemma active_kept s s' : active s → waiter_kept h s s' → active s'.
Proof.
  intros (w & Hw & Hl & Hg) [Hk _ _]. destruct (Hk w Hw) as (w' & Hw' & (_ & Hq & _) & Hst). exists w'.
  split; [done|]. split; [by rewrite Hq|]. by destruct Hst as [->| ->].
Qed.

(** The waiter is settled or in line, or the daemon has stopped planning. *)
Definition at_rest s : Prop :=
  (∃ w, record_of s = Some w ∧ resting (w_state w)) ∨ aq_stopPlanning (sh_acquiring s) = true.
Lemma at_rest_kept s s' : at_rest s → waiter_kept h s s' → at_rest s'.
Proof.
  intros [(w & Hw & Hr)|Hs] [Hk _ Hst]; [|right; auto]. left. destruct (Hk w Hw) as (w' & Hw' & _ & Hstate).
  exists w'. split; [done|]. destruct Hstate as [->| ->]; [done|by right].
Qed.
Lemma waiter_now_rest w s : waiter_now h resting w s → at_rest s.
Proof. intros (w' & Hw' & _ & Hr). left. eauto. Qed.
Lemma waiter_now_settled w s : waiter_now h (λ st, isTerminal st = true) w s → at_rest s.
Proof. intros (w' & Hw' & _ & Hr). left. exists w'. split; [done|by right]. Qed.

Lemma sec_set_extra f o s w (Q : result DeviceError unit → Holding → Shared → Prop) :
  record_of s = Some w →
  (inside o s → (∀ spec, aw_spec (f (extra_of s)) = Some spec → served (vs_platform spec))
    ∧ (∀ r, aw_requirement (f (extra_of s)) = Some r → served (rr_platform r))
    ∧ (aw_spec (extra_of s) ≠ None → aw_spec (f (extra_of s)) ≠ None)) →
  (∀ s', inside o s' → coordinator_only s s' → record_of s' = Some w → extra_of s' = f (extra_of s) → Q (Ok tt) o s') →
  sec (Acquisition.set_extra h f) o s Q.
Proof.
  intros Hw Hf HQ Hin. destruct (Hf Hin) as (H1 & H2 & H3).
  assert (sec (Acquisition.set_extra h f) o s Q) as Hs; [|by apply Hs].
  unfold Acquisition.set_extra, Acquisition.change.
  set (a := (sh_acquiring s) <| aq_waiters := <[h := f (extra_of s)]> (aq_waiters (sh_acquiring s)) |>).
  assert (default new_waiter (aq_waiters a !! h) = f (extra_of s)) as Ha by (unfold a; cbn; by rewrite lookup_insert_eq).
  apply (sec_step _ _ _ _ _ o).
  - change (step served h o s o (s <| sh_acquiring := a |>)).
    apply (step_acquiring _ _ _ _ _ w w); try done.
    + intros h' Hne. split; [done|]. unfold a. cbn. by rewrite lookup_insert_ne.
    + intros _. rewrite Ha. by split_and!.
  - intros Hin'. apply HQ; try done. by exists a.
Qed.

Lemma sec_set_timing timing o s w (Q : result DeviceError unit → Holding → Shared → Prop) :
  record_of s = Some w →
  (∀ s', inside o s' → coordinator_only s s' → record_of s' = Some w → Q (Ok tt) o s') →
  sec (Acquisition.set_extra h (λ x, x <| aw_timing := timing |>)) o s Q.
Proof.
  intros Hw HQ. apply (sec_set_extra _ _ _ w); [done| |auto].
  intros [[_ _ _ Hs Hr _] _]. cbn. by split_and!.
Qed.

Lemma sec_refuseForUpdate o s w (Q : result DeviceError unit → Holding → Shared → Prop) :
  record_of s = Some w →
  (∀ s', inside o s' → quiet s s' → waiter_now h (λ st, isTerminal st = true) w s' → Q (Ok tt) o s') →
  sec (Acquisition.refuseForUpdate h) o s Q.
Proof. intros Hw HQ. by apply (sec_reject_waiter _ _ _ _ _ _ w). Qed.

Lemma current_baseline_elem rows name b : current_baseline rows name = Some b → b ∈ rows.
Proof.
  unfold current_baseline. intros Hh.
  assert (b ∈ sort_by (λ a b, cb_version b - cb_version a)%Z (Arr.filter (λ b, cb_name b === name) rows)) as Hin.
  { destruct (sort_by _ _); [done|]. injection Hh as ->. by left. }
  rewrite sort_by_perm in Hin. by apply elem_of_afilter in Hin as [? _].
Qed.

Lemma sec_followBaseline o s w (Q : result DeviceError unit → Holding → Shared → Prop) :
  record_of s = Some w →
  (∀ s', inside o s' → coordinator_only s s' → record_of s' = Some w →
     (aw_spec (extra_of s) ≠ None → aw_spec (extra_of s') ≠ None) → Q (Ok tt) o s') →
  sec (Acquisition.followBaseline h) o s Q.
Proof.
  intros Hw HQ. apply sec_bind, sec_extra. intros Hin.
  assert (inside o s → Q (Ok tt) o s) as Hsame.
  { intros. apply HQ; try done. exists (sh_acquiring s). by destruct s. }
  destruct (aw_spec (extra_of s) ≫= vs_baseline) as [named|] eqn:E; [|by apply sec_ret].
  apply sec_get. destruct (current_baseline _ _) as [current|] eqn:Ec; [|by apply sec_ret].
  destruct (_ === _); [by apply sec_ret|].
  assert (served (cb_platform current)) as Hsv.
  { apply (td_baselines _ _ _ (proj1 Hin)). by eapply current_baseline_elem. }
  apply (sec_set_extra _ _ _ w); [done| |].
  - intros _. cbn. split_and!; [by intros spec [= <-]|by intros r [= <-]|done].
  - intros s' Hin' Hc Hw' He'. apply HQ; try done. by rewrite He'.
Qed.

(** What a plan leaves its bearer with. *)
Definition plan_holding o (p : AcquisitionPlan) : Holding :=
  o <| hd_claim := plan_claim p |> <| hd_reservation := plan_reservation p |>.
Definition plan_ready (p : AcquisitionPlan) s : Prop :=
  match p with
  | GrantReady d => d ∈ devices (sh_registry s) ∧ dev_state d = ready ∧ served (spec_platform (dev_spec d))
      ∧ isClaimed (sh_claims s) (dev_id d) = false
  | RebootReady k d => ours k d ready s ∧ k_operation k = op_boot ∧ served (vs_platform (v_spec d))
  | BootShutdown _ k d => ours k d shutdown s ∧ k_operation k = op_boot ∧ v_state d = shutdown
      ∧ served (vs_platform (v_spec d))
  | EvictRunning k _ _ | EvictManaged k _ _ => k_operation k = op_eviction
  | GrantPhysical _ _ => False
  | Provision _ | Wait _ | NoCapacity _ => True
  end.
Definition empty_handed o : Prop := hd_claim o = None ∧ hd_reservation o = None.

Lemma step_taken o s st p input : empty_handed o →
  plan_takes (MkPlannerState (sh_capacity s) (sh_claims s)) input (st, p) →
  step served h o s (plan_holding o p) (s <| sh_capacity := st_capacity st |> <| sh_claims := st_claims st |>).
Proof.
  intros [Hk Hr] [Hb Hc _] Hin. cbn in Hb, Hc.
  pose proof (step_books served h o s _ _ Hb Hr) as Hs1. set (s1 := s <| sh_capacity := st_capacity st |>) in *.
  destruct (Hs1 Hin) as [Hin1 _]. eapply step_trans; [exact Hs1| |exact Hin].
  change (s <| sh_capacity := st_capacity st |> <| sh_claims := st_claims st |>) with (s1 <| sh_claims := st_claims st |>).
  unfold plan_holding.
  replace (o <| hd_claim := plan_claim p |> <| hd_reservation := plan_reservation p |>)
    with ((o <| hd_reservation := plan_reservation p |>) <| hd_claim := plan_claim p |>) by (by destruct o).
  apply step_guar; [|by split_and!]. cbn. rewrite Hk. destruct (plan_claim p) as [k|].
  - destruct Hc as (i & op & ow & Ht). destruct Hin1 as [Htd _].
    destruct (tryClaim_ok (sh_claims s1) _ _ _ _ _ (proj2 (td_good _ _ _ Htd)) Ht) as (Hok & Hh & _ & _ & Hn & Hgr & Hoth).
    by eapply guar_claimed; [apply Htd|].
  - rewrite Hc. replace (s1 <| sh_claims := sh_claims s |>) with s1 by (by destruct s). apply guar_same.
Qed.

Lemma unleased_state t r x : registry_ok t r → x ∈ devices r → dev_state x ≠ leased → unleased r (dev_id x) = true.
Proof.
  intros Hr Hx Hs. unfold unleased. rewrite negb_true_iff. destruct (Arr.some _ _) eqn:E; [|done].
  apply asome_true in E as (l & Hl & Hd%bool_decide_eq_true). destruct Hs.
  assert (dev_id x ∈ l_deviceId <$> leases r) as (y & Hy & Hyid & <-)%(do_leased _ _ _ _ _ (ro_data _ _ Hr)).
  { rewrite <- Hd. by apply list_elem_of_fmap_2. }
  f_equal. eapply (NoDup_fmap_inj_on dev_id); [apply Hr|done..].
Qed.

Lemma serves_platform input x : Planner.serves input x = true →
  spec_platform (dev_spec x) = rr_platform (default (exactRequirement (in_spec input)) (in_requirement input)).
Proof.
  unfold Planner.serves. intros [_ Hf]%andb_true_iff. unfold fits in Hf.
  destruct (fs_physical _) eqn:Ep; [done|]. destruct (rr_platform _ !== _) eqn:E; [done|].
  apply negb_false_iff, bool_decide_eq_true in E. rewrite E. by destruct (dev_spec x).
Qed.

Lemma plan_ready_taken o s st p input :
  inside o s → sn_devices (in_snapshot input) = devices (sh_registry s) → aw_spec (extra_of s) = Some (in_spec input) →
  in_requirement input = aw_requirement (extra_of s) →
  plan_takes (MkPlannerState (sh_capacity s) (sh_claims s)) input (st, p) →
  plan_ready p (s <| sh_capacity := st_capacity st |> <| sh_claims := st_claims st |>).
Proof.
  intros [Htd _] Hsn Hsp Hrq [_ Hc Hd]. cbn in Hc, Hd.
  assert (∀ x, servesRequest (MkPlannerState (sh_capacity s) (sh_claims s)) input x = true →
    served (spec_platform (dev_spec x)) ∧ isClaimed (sh_claims s) (dev_id x) = false) as Hserved.
  { intros x [Hcl%negb_true_iff Hx%serves_platform]%andb_true_iff. split; [|done]. rewrite Hx, Hrq.
    destruct (aw_requirement (extra_of s)) as [rq|] eqn:E; [by apply (td_requirement _ _ _ Htd)|].
    by apply (td_spec _ _ _ Htd). }
  assert (∀ k v st', Virtual v ∈ devices (sh_registry s) → v_state v = st' → st' ≠ deleted → st' ≠ leased →
    k_deviceId k = v_id v → k_operation k = op_boot →
    (∃ i op ow, tryClaim (sh_claims s) i op ow = Some (st_claims st, k)) →
    ours k v st' (s <| sh_capacity := st_capacity st |> <| sh_claims := st_claims st |>)) as Hours.
  { intros k v st' Hv Hst Hnd Hnl Hkd Hko (i & op & ow & Ht). destruct (td_good _ _ _ Htd) as [Hreg Hcl].
    destruct (tryClaim_ok _ _ _ _ _ _ Hcl Ht) as (Hok & Hh & _). split; cbn; try done; [congruence| |].
    - exists v. split; [|done]. apply (find_virtual_Some _ _ _ _ Hreg). done.
    - rewrite Hkd. apply (unleased_state _ _ (Virtual v) Hreg); [done|]. cbn. congruence. }
  destruct p; cbn in Hc, Hd |- *; try done; rewrite Hsn in Hd.
  - destruct Hd as (Hx & Hs & [Hsv Hcl]%Hserved). rewrite Hc. by split_and!.
  - destruct Hd as (Hx & Hs & [Hsv _]%Hserved & Hkd & Hko). split_and!; try done. by apply Hours.
  - destruct Hd as (Hx & Hs & [Hsv _]%Hserved & Hkd & Hko). split_and!; try done. by apply Hours.
Qed.

Lemma plan_ready_only p s s' : plan_ready p s → coordinator_only s s' → plan_ready p s'.
Proof.
  intros Hp (a & -> & _). destruct p; try done.
  - destruct Hp as ([] & ? & ?). by split; [split|].
  - destruct Hp as ([] & ? & ?). by split; [split|].
Qed.

Lemma sec_nextPlan o s w (Q : result DeviceError (option AcquisitionPlan) → Holding → Shared → Prop) :
  record_of s = Some w → lineOf (w_request w) = line_virtual → empty_handed o →
  (∀ s', inside o s' → waiter_now h (λ st, isTerminal st = true) w s' → Q (Ok None) o s') →
  (∀ p s', inside (plan_holding o p) s' → record_of s' = Some w → isTerminal (w_state w) = false → plan_ready p s' →
     aq_stopPlanning (sh_acquiring s') = aq_stopPlanning (sh_acquiring s) → Q (Ok (Some p)) (plan_holding o p) s') →
  sec (Acquisition.nextPlan strategy h) o s Q.
Proof.
  intros Hw Hline He HN HS. apply sec_bind, (sec_waiter _ _ _ _ w); [done|]. intros _.
  apply sec_bind, sec_extra. intros Hin.
  pose proof Hin as [[_ _ _ _ _ (w0 & Hw0 & Hspec & _)] _]. rewrite Hw in Hw0. injection Hw0 as <-.
  specialize (Hspec Hline). destruct (aw_spec (extra_of s)) as [spec0|] eqn:Esp; [|done].
  assert (((w_state w === w_rejected) || (w_state w === w_granted)) = isTerminal (w_state w)) as ->
    by (unfold isTerminal; by rewrite orb_comm).
  destruct (isTerminal (w_state w)) eqn:Et.
  { apply sec_ret. intros _. apply HN; [done|]. exists w. by split_and!. }
  apply sec_bind. unfold Acquisition.refuseUnderHold. apply sec_get. destruct (negb _).
  2:{ apply sec_bind, (sec_refuseForUpdate _ _ w); [done|]. intros s1 Hin1 _ Hw1. apply sec_ret. intros _.
      apply sec_ret. intros _. by apply HN. }
  apply sec_ret. intros _. apply sec_bind, (sec_followBaseline _ _ w); [done|].
  intros s1 Hin1 (a1 & Es1 & Hst1) Hw1 Hsp1. apply sec_get.
  destruct (_ && _).
  { apply sec_ret. intros _. unfold blocked. specialize (HS (if ro_noWait (w_options w) then NoCapacity behind_earlier_request
      else Wait behind_earlier_request) s1).
    assert (plan_holding o (if ro_noWait (w_options w) then NoCapacity behind_earlier_request
      else Wait behind_earlier_request) = o) as Ho.
    { destruct He, o; cbn in *; subst. by destruct (ro_noWait _). }
    rewrite Ho in HS. apply HS; try done; [by destruct (ro_noWait _)|]. by rewrite Es1. }
  apply sec_bind, sec_extra. intros _. destruct (aw_spec (extra_of s1)) as [spec|] eqn:Esp1.
  2:{ exfalso. rewrite Esp in Hsp1. by apply Hsp1. }
  apply sec_bind. unfold Acquisition.on_planner.
  match goal with |- context [plan strategy ?pr _ ?i] => set (input := i); set (pressure := pr) end.
  pose proof (plan_takes_all strategy pressure (MkPlannerState (sh_capacity s1) (sh_claims s1)) input
    (td_entries _ _ _ (proj1 Hin1))) as Htakes.
  destruct (plan strategy pressure _ input) as [st p] eqn:Ep.
  eapply (sec_step _ _ _ _ _ (plan_holding o p)).
  - cbv beta. rewrite Ep. by eapply step_taken.
  - cbv beta. rewrite Ep. intros Hin2. apply sec_ret. intros _. apply HS; try done.
    + by eapply (plan_ready_taken o s1 st p input).
    + by rewrite Es1.
Qed.

Lemma sec_decideGrantReady x o s w (Q : result DeviceError unit → Holding → Shared → Prop) :
  record_of s = Some w → plan_ready (GrantReady x) s →
  (∀ s', inside o s' → at_rest s' → Q (Ok tt) o s') →
  sec (Acquisition.decideGrantReady options drivers leaseEnvironment generate defaultMs h x) o s Q.
Proof using Hret fresh_lease.
  intros Hw (Hx & Hxs & Hsv & Hcl) HQ. apply sec_bind, sec_driver_for; [done|]. intros d _ _.
  apply sec_bind, (sec_set_timing _ _ _ w); [done|]. intros s1 Hin1 (a1 & -> & _) Hw1.
  apply sec_bind, (sec_markProcessing _ _ _ _ w); [done|]. intros marked s2 Hin2 (a2 & -> & _) Hnow.
  destruct marked; cbn [negb].
  2:{ apply sec_ret. intros _. apply HQ; [done|]. by eapply waiter_now_settled. }
  destruct Hnow as (w2 & Hw2 & Hsame2 & Hst2).
  assert (∀ s, record_of s = Some w2 → inside o s →
    sec (Acquisition.defer drivers h waiting_for_device) o s Q) as Hdefer.
  { intros s3 Hw3 Hin3. apply (sec_defer _ _ _ w2); [done|]. intros s4 Hin4 _ Hw4. apply HQ; [done|].
    by eapply waiter_now_rest. }
  apply sec_catch, sec_bind, (sec_grant _ x _ _ _ w2); try done; [by rewrite Hst2|..].
  - cbn. intros k Hk Hkd. unfold isClaimed in Hcl. rewrite bool_decide_eq_false in Hcl. destruct Hcl.
    unfold held in Hk. cbn in Hk. rewrite <- Hkd, Hk. by eexists.
  - intros e Hin3. by apply Hdefer.
  - intros s3 Hin3 _ _ Hw3. pose proof (waiter_now_settled _ _ Hw3) as Hrest. destruct Hw3 as (w3 & Hw3 & _ & Ht3).
    apply (sec_wake _ _ _ _ w3); [done|]. intros s4 Hin4 _ Hw4. apply HQ; [done|]. left. exists w3. split; [done|by right].
Qed.

Lemma sec_releasePlanResources p o s (Q : result DeviceError unit → Holding → Shared → Prop) :
  empty_handed o →
  (∀ s', inside o s' → sh_acquiring s' = sh_acquiring s → Q (Ok tt) o s') →
  sec (Acquisition.releasePlanResources p) (plan_holding o p) s Q.
Proof.
  intros [Hk Hr] HQ. destruct o as [k0 r0 cm v]. cbn in Hk, Hr. subst k0 r0.
  assert (∀ k s1, sh_acquiring s1 = sh_acquiring s →
    sec (modify (ManagedDevice.drop_claim k)) (MkHolding (Some k) None cm v) s1 Q) as Hdrop.
  { intros k s1 Hac. apply (sec_drop _ _ k); [done|]. intros s' Hin ->. by apply HQ. }
  destruct p; unfold plan_holding; cbn; try (by apply Hdrop); try (by apply sec_ret; intros; apply HQ).
  - apply sec_bind, (sec_free _ _ r); [done|]. intros s1 Hin1 (c & ->). by apply Hdrop.
  - apply (sec_free _ _ r); [done|]. intros s1 Hin1 (c & ->). by apply HQ.
Qed.

Lemma sec_decide o s w (Q : result DeviceError (option AcquisitionPlan) → Holding → Shared → Prop) :
  record_of s = Some w → lineOf (w_request w) = line_virtual → empty_handed o →
  (∀ s', inside o s' → at_rest s' → Q (Ok None) o s') →
  (∀ p s', inside (plan_holding o p) s' → plan_ready p s' → active s' → operationPlan p = Some p →
     Q (Ok (Some p)) (plan_holding o p) s') →
  sec (Acquisition.decide strategy options drivers leaseEnvironment generate defaultMs h) o s Q.
Proof using Hret fresh_lease.
  intros Hw Hline He HN HS. apply sec_get, sec_bind, (sec_waiter _ _ _ _ w); [done|]. intros Hin.
  destruct (_ && _).
  { apply sec_bind, (sec_reject_waiter _ _ _ _ _ _ w); [done|]. intros s1 Hin1 _ Hw1. apply sec_ret. intros _.
    apply HN; [done|]. by eapply waiter_now_settled. }
  destruct (aq_stopPlanning (sh_acquiring s)) eqn:Estop.
  { apply sec_ret. intros _. apply HN; [done|]. by right. }
  apply sec_bind, (sec_nextPlan _ _ w); [done|done|done| |].
  { intros s1 Hin1 Hw1. apply sec_ret. intros _. apply HN; [done|]. by eapply waiter_now_settled. }
  intros p s1 Hin1 Hw1 Hnt Hready _.
  assert (plan_claim p = None → plan_reservation p = None → plan_holding o p = o) as Hnone.
  { intros H1 H2. unfold plan_holding. rewrite H1, H2. destruct He, o; cbn in *; by subst. }
  assert (∀ operation, operationPlan p = Some operation →
    sec (marked ← Acquisition.on_queue (λ now, markProcessing now h);
         if marked : bool then mret (Some operation)
         else _ ← Acquisition.releasePlanResources operation; mret None) (plan_holding o p) s1 Q) as Hop.
  { intros operation Hp. assert (operation = p) as -> by (destruct p; simplify_eq/=; done).
    apply sec_bind, (sec_markProcessing _ _ _ _ w); [done|]. intros marked s2 Hin2 Hq2 Hw2. destruct marked.
    - apply sec_ret. intros _. apply HS; try done; [eapply plan_ready_only; [done|by apply quiet_coordinator]|].
      destruct Hw2 as (w2 & Hw2 & (_ & Hq & _) & Hst). exists w2. rewrite Hq, Hst. by split_and!.
    - apply sec_bind, sec_releasePlanResources; [done|]. intros s3 Hin3 Hac. apply sec_ret. intros _. apply HN; [done|].
      apply (at_rest_kept s2); [by eapply waiter_now_settled|by apply waiter_kept_same]. }
  assert (∀ reason, plan_holding o p = o →
    sec (_ ← Acquisition.defer drivers h reason; mret None) (plan_holding o p) s1 Q) as Hdefer.
  { intros reason Ho. rewrite Ho. rewrite Ho in Hin1. apply sec_bind, (sec_defer _ _ _ w); [done|].
    intros s2 Hin2 _ Hw2. apply sec_ret. intros _. apply HN; [done|]. by eapply waiter_now_rest. }
  destruct p; try (by apply Hop); try (by apply Hdefer, Hnone); try done.
  rewrite Hnone by done. apply sec_bind, (sec_decideGrantReady _ _ _ w); [done..|].
  intros s2 Hin2 Hrest. apply sec_ret. intros _. by apply HN.
Qed.
End coordinator.
