(* ===== verification/Drives.v ===== *)
(** * The drives of the acquisition coordinator beside other code

    What [Acquisition] carries out for a waiter, proved safe for what [Ownership] says it owns: each
    way a plan can go ends with everything it took given back, whatever the drivers answer and
    whatever the rest of the daemon does meanwhile. *)
From stdpp Require Import base strings list option numbers gmap pretty.
From S2P Require Import Prelude JsString OsRange WaitQueue RequestBook Lifecycle AcquisitionState Domain RequestStore Capacity Claims Planner Registry RegistryInv Resolve Flow Devices Effects Quarantine Provision Acquisition Ownership.

(** ** The sections of the device operations *)

Section operations.
Context (options : RegistryOptions) (hasDriver : Platform → bool).
Import ManagedDevice.

Lemma rest_same_refl s : rest_same s s.
Proof. by split_and!. Qed.
Lemma rest_same_registry {A} (m : Z → action Registry RegistryError A) s : rest_same s (on_registry m s).1.
Proof. unfold on_registry. by destruct (m _ _) as [r [a|e]]. Qed.
Lemma rest_same_as_virtual d s : rest_same s (as_virtual d s).1.
Proof. apply rest_same_refl. Qed.
Lemma rest_same_bind {A B} (m : action Shared DeviceError A) (k : A → action Shared DeviceError B) s :
  rest_same s (m s).1 → (∀ a s, rest_same s (k a s).1) → rest_same s ((m ≫= k) s).1.
Proof.
  intros Hm Hk. unfold mbind, action_bind. destruct (m s) as [s' [a|e]]; [|done]. cbn in Hm.
  destruct (Hk a s') as (?&?&?&?&?), Hm as (?&?&?&?&?). split_and!; congruence.
Qed.
Lemma rest_same_drop k s s' : rest_same s s' → rest_same s (drop_claim k s').
Proof. done. Qed.

(** Splits the section of a device operation into its branches. *)
Ltac section_cases :=
  repeat (cbn; intros; match goal with
  | |- rest_same ?s ?s => apply rest_same_refl
  | |- rest_same _ ((_ ≫= _) _).1 => apply rest_same_bind
  | |- rest_same _ (on_registry _ _).1 => apply rest_same_registry
  | |- rest_same _ (as_virtual _ _).1 => apply rest_same_as_virtual
  | |- context [match ?x with _ => _ end] => destruct x
  end); try done.

Lemma sections_claim target expected operation existing : sections rest_same (claim target expected operation existing).
Proof. apply sections_gate. intros s. section_cases. Qed.
Lemma sections_release k : sections rest_same (release k).
Proof. by apply sections_gate. Qed.
Lemma commit_section_same device expected to ev u s : rest_same s (commit_section options device expected to ev u s).1.
Proof. unfold commit_section. section_cases. Qed.
Lemma sections_commitWithoutRelease device expected to ev u :
  sections rest_same (commitWithoutRelease options device expected to ev u).
Proof. apply sections_gate. intros. apply commit_section_same. Qed.
Lemma sections_commit k device expected to ev : sections rest_same (commit options k device expected to ev).
Proof.
  apply sections_gate. intros s. pose proof (commit_section_same device expected to ev no_update s).
  by destruct (commit_section _ _ _ _ _ _ _).
Qed.
Lemma sections_releasing {A} k (f : flow Shared DriverCall DriverAnswer DeviceError A) :
  sections rest_same f → sections rest_same (releasing k f).
Proof. intros Hf. apply sections_catch; [done|]. intros e. by apply sections_bind; [apply sections_release|]. Qed.
Lemma sections_drive device c : sections rest_same (drive hasDriver device c).
Proof. unfold drive, get_driver. by destruct (hasDriver _). Qed.
Lemma sections_read_now : sections rest_same read_now.
Proof. by apply sections_gate. Qed.

#[local] Hint Resolve sections_claim sections_release sections_commitWithoutRelease sections_commit
  sections_drive sections_read_now : core.
(** The flow of a device operation is made of these. *)
Ltac section_parts :=
  repeat (intros; cbn beta; match goal with
  | |- sections _ (releasing _ _) => apply sections_releasing
  | |- sections _ (_ ≫= _) => apply sections_bind
  | |- sections _ (try_catch _ _) => apply sections_catch
  | |- sections _ (finally _ _) => apply sections_finally
  | |- sections _ (if _ then _ else _) => case_match
  | |- sections _ (match ?x with _ => _ end) => destruct x
  end); auto.

Lemma sections_shutdown target initiator operation existing :
  sections rest_same (shutdown options hasDriver target initiator operation existing).
Proof. unfold shutdown. section_parts; done. Qed.
Lemma sections_destroy target initiator operation existing :
  sections rest_same (destroy options hasDriver target initiator operation existing).
Proof. unfold destroy. section_parts; done. Qed.
Lemma sections_dispose target initiator operation existing :
  sections rest_same (dispose options hasDriver target initiator operation existing).
Proof. unfold dispose. section_parts; done. Qed.
Lemma sections_makeReadyForLease target expected existing except :
  sections rest_same (makeReadyForLease options hasDriver target expected existing except).
Proof. unfold makeReadyForLease. section_parts; done. Qed.
Lemma sections_rebootForLease target k except :
  sections rest_same (rebootForLease options hasDriver target k except).
Proof.
  unfold rebootForLease, get_driver. section_parts; try done. apply sections_gate. intros s. section_cases.
Qed.
End operations.

(** ** Quarantining a device that could not be destroyed *)

Section stalled.
Context (options : RegistryOptions) (Hret : retention_ok options) (retry_config : QuarantineRetryConfig).
Import ManagedDevice.
Local Abbreviation op A := (action Shared DeviceError A).
Implicit Types (s : Shared) (k : DeviceOperationClaim).

(** A section that claims a device nobody had claimed, changes it unless it is leased, and ends the claim. *)
Lemma guar_brief s s' i operation t k (r' : Registry) : good s → tryClaim (sh_claims s) i operation None = Some (t, k) →
  sh_registry s' = r' → sh_claims s' = releaseClaim t k → sh_now s' = sh_now s →
  registry_ok (sh_now s) r' → leases r' = leases (sh_registry s) →
  (∀ x, x ∈ devices (sh_registry s) → dev_id x ≠ i ∨ dev_state x = leased → dev_state x ≠ deleted → x ∈ devices r') →
  guar None s None s'.
Proof.
  intros [Hr Hc] Ht Hreg Hcl Hnow Hr' Hls Hoth _ _.
  destruct (tryClaim_ok _ _ _ _ _ _ Hc Ht) as (Hok & Hh & Hkd & _ & Hn & [Hg1 Hg2] & Hkeep).
  destruct (releaseClaim_ok _ _ Hok Hh) as (Hok' & [Hg3 Hg4] & _ & Hkeep').
  assert (∀ k', held (releaseClaim t k) k' → held (sh_claims s) k') as Honly.
  { intros k' Hk'. destruct (tryClaim_only _ _ _ _ _ _ k' Ht) as [| ->]; [by eapply releaseClaim_only|done|].
    destruct (releaseClaim_ok _ _ Hok Hh) as (_ & _ & Hrel & _). by destruct (co_held _ Hok' _ _ Hk') as (_ & _ & []). }
  apply tryClaim_Some in Ht as [Hnone _]. unfold good. rewrite Hreg, Hcl, Hnow. split; [done|]. split; [done|].
  split; [split; [lia|set_solver]|]. split; [done|]. split; [|split; [|split; [done|split; [done|]]]].
  - intros x Hx Hl. apply Hoth; [done|by right|by rewrite Hl].
  - intros k' Hk' _. split.
    { rewrite Hcl. apply Hkeep'; [by apply Hkeep|]. intros ->. unfold held in Hk'. congruence. }
    intros _ x Hx Hid Hnd Hu. exists x. split; [|split; [apply same_device_refl|]].
    + rewrite Hreg. apply Hoth; [done| |done]. left. rewrite Hid. intros Heq. unfold held in Hk'. congruence.
    + unfold unleased. by rewrite Hreg, Hls.
  - intros k' Hk'. left. by apply Honly.
Qed.

(** Quarantining a device shut down: it changes that device or nothing. *)
Lemma enterQuarantine_shutdown now i at_ cause reg x : registry_ok now reg →
  Arr.find (λ d, dev_id d === i) (devices reg) = Some x → dev_state x = Domain.shutdown →
  ∃ (r' : Registry) a, enterQuarantine options now i at_ cause reg = (r', a) ∧ registry_ok now r' ∧ leases r' = leases reg
    ∧ ∀ y, y ∈ devices reg → dev_id y ≠ i ∨ dev_state y = leased → dev_state y ≠ deleted → y ∈ devices r'.
Proof using Hret.
  intros Hr Hf Hs. pose proof Hf as [Hx Hid%bool_decide_eq_true]%afind_Some. subst i.
  destruct (dev_physical x) eqn:Ep.
  - destruct (require_any _ _ _ Hr Hx) as (j & Hj & Hreq). unfold enterQuarantine, mbind, action_bind.
    rewrite Hreq. cbv beta iota. rewrite Hs. cbn [guard_or].
    assert (∃ e, transitioned now x quarantined no_update = Err e) as [e ->].
    { destruct x as [|p]; [done|]. unfold transitioned. destruct (transition _ _ _) as [d|e] eqn:E; [|by eexists].
      exfalso. cbn in E, Hs. unfold transitionPhysical in E. by rewrite Hs in E. }
    by eexists _, _.
  - destruct (enter_quarantine_run options Hret now reg x at_ cause Hr Hx) as (r' & x' & -> & Hr' & [Hl _ _ _ _ Ho] & _).
    { right. split; [done|by right]. }
    exists r', (Ok x'). split_and!; try done. intros y Hy [Hne|Hl'] Hnd; [by apply Ho|].
    apply Ho; [done| |done]. intros Heq. assert (y = x) as -> by (by eapply (NoDup_fmap_inj_on dev_id); [apply Hr|..]).
    congruence.
Qed.

Definition stalled_section (i : string) (st : DeviceState) (at_ : Z) : op bool :=
  s ← get;
  let current := Arr.find (λ d, dev_id d === i) (devices (sh_registry s)) in
  if (dev_state <$> current) !== Some st then mret false else
  match tryClaim (sh_claims s) i op_reclaim None with
  | None => mret false
  | Some (t, claim) =>
      _ ← modify (λ s, s <| sh_claims := t |>);
      let cause := if (st === provisioning) || (st === reclaiming) then MkCause stalled (Some st) None
                   else MkCause delete_failed None None in
      entered ← Quarantine.releasing_section claim (on_registry (λ now, enterQuarantine options now i at_ cause));
      _ ← Quarantine.tell (EvQuarantined i (maxRetries retry_config) at_ (dev_platform entered) cause);
      mret true
  end.

Lemma stalled_guar i at_ s : good s → guar None s None (stalled_section i Domain.shutdown at_ s).1.
Proof using Hret.
  intros Hg. unfold stalled_section, get, mbind, action_bind. cbv beta iota.
  destruct (_ !== _) eqn:Es; [apply guar_same|]. apply negb_false_iff, bool_decide_eq_true in Es.
  destruct (Arr.find _ _) as [x|] eqn:Ef; [|done]. injection Es as Es.
  destruct (tryClaim _ _ _ _) as [[t k]|] eqn:Et; [|apply guar_same].
  destruct (enterQuarantine_shutdown (sh_now s) i at_ (MkCause delete_failed None None) (sh_registry s) x)
    as (r' & a & Hrun & Hr' & Hl & Hoth); [apply Hg|done..|].
  unfold modify, Quarantine.releasing_section, on_registry. cbv beta iota zeta. cbn [sh_now sh_registry update_field Shared_eta].
  change ((Domain.shutdown === provisioning) || (Domain.shutdown === reclaiming)) with false. cbv iota.
  match goal with |- context [enterQuarantine ?a ?b ?c ?d ?e ?f] => change (enterQuarantine a b c d e f) with
    (enterQuarantine options (sh_now s) i at_ (MkCause delete_failed None None) (sh_registry s)) end.
  rewrite Hrun. destruct a as [x'|e]; by eapply (guar_brief s _ i op_reclaim t k r').
Qed.
Lemma stalled_rest i st at_ s : rest_same s (stalled_section i st at_ s).1.
Proof.
  unfold stalled_section, get, mbind, action_bind. cbv beta iota. destruct (_ !== _); [done|].
  destruct (tryClaim _ _ _ _) as [[t k]|]; [|done].
  unfold modify, Quarantine.releasing_section, on_registry. cbv beta iota zeta.
  by destruct (enterQuarantine _ _ _ _ _ _) as [r' [x'|e]].
Qed.
End stalled.

Section drives.
Context `{LocaleCompare} {S : Type} `{CapacityStrategy S} (strategy : S) (options : RegistryOptions)
  (Hret : retention_ok options) {Host : Type} (drivers : Platform → option (Driver (Host := Host)))
  (leaseEnvironment : Platform → DriverDevice → list (string * string))
  (generate : Shared → string) (defaultMs : Z) (retry_config : QuarantineRetryConfig) (h : nat).
Context (fresh_device : ∀ s, "dev_" +:+ generate s ∉ dev_id <$> devices (sh_registry s))
  (fresh_lease : ∀ s, "lse_" +:+ generate s ∉ l_id <$> leases (sh_registry s)).
Import ManagedDevice.
Local Abbreviation served := (λ p, is_Some (drivers p)).
Local Abbreviation inside := (inside served h).
Local Abbreviation sec := (sec served h).
Local Abbreviation op A := (action Shared DeviceError A).
Local Abbreviation flow_of R := (flow Shared DriverCall DriverAnswer DeviceError R).
Local Abbreviation record_of := (record_of h).
Local Abbreviation extra_of := (extra_of h).
Local Abbreviation active := (active h).
Local Abbreviation at_rest := (at_rest h).
Local Abbreviation waiter_kept := (waiter_kept h).
Local Abbreviation hasDriver := (Acquisition.hasDriver drivers).
Local Abbreviation plan_ready := (plan_ready drivers).
Local Abbreviation history := (list (DriverCall * result DeviceError DriverAnswer)).
Local Abbreviation safely f o c s Q := (safe (others_do served h) (step served h) may_do f o c s Q).
Local Abbreviation Post A := (result DeviceError A → Holding → history → Shared → Prop).
Implicit Types (o : Holding) (s : Shared) (c : history) (k : DeviceOperationClaim) (w : Waiter)
  (r : CapacityReservation).

(** ** What lasts while others run *)

Definition lasting o (P : Shared → Prop) : Prop :=
  ∀ s s', inside o s → P s → rely (hd_claim o) s s' → waiter_kept s s' → P s'.

Lemma lasting_and o (P P' : Shared → Prop) : lasting o P → lasting o P' → lasting o (λ s, P s ∧ P' s).
Proof. intros H1 H2 s s' Hin [? ?] Hr Hw. split; eauto. Qed.
Lemma lasting_active o : lasting o active.
Proof. intros s s' _ Ha _ Hw. by eapply active_kept. Qed.
Lemma lasting_rest o : lasting o at_rest.
Proof. intros s s' _ Ha _ Hw. by eapply at_rest_kept. Qed.
Lemma lasting_ours o k d st : hd_claim o = Some k → lasting o (ours k d st).
Proof. intros Hk s s' _ Ho Hr _. rewrite Hk in Hr. by eapply ours_rely. Qed.
Lemma lasting_ended o k : lasting o (ended k).
Proof.
  intros s s' [Htd _] He Hr _. destruct (Hr (td_good _ _ _ Htd)) as (_ & _ & [_ Hsub] & _). by apply Hsub.
Qed.
Lemma lasting_true o (P : Prop) : lasting o (λ _, P).
Proof. by intros s s' _ HP. Qed.
#[local] Hint Resolve lasting_and lasting_active lasting_rest lasting_ours lasting_ended lasting_true : core.

Lemma safe_section {A} P (m : op A) o c s (Q : Post A) :
  lasting o P → inside o s → P s →
  (∀ s', inside o s' → P s' → sec m o s' (λ a o' s', Q a o' c s')) →
  safely (gate m) o c s Q.
Proof.
  intros Hlast Hin HP Hm. apply safe_sec; [done|]. intros s' Hr Hw Hin'. apply Hm; [done|]. by apply (Hlast s).
Qed.
Lemma safe_try {A} (f : flow_of A) (k : DeviceError → flow_of A) o c s (Q : Post A) :
  safely f o c s (λ a o' c' s', match a with Ok a => Q (Ok a) o' c' s' | Err e => safely (k e) o' c' s' Q end) →
  safely (try_catch f k) o c s Q.
Proof. intros Hf. apply safe_after. eapply safe_mono; [exact Hf|]. by intros [a|e]. Qed.
Lemma safe_outcome {A} (f : flow_of A) o c s (Q : Post (result DeviceError A)) :
  safely f o c s (λ a o' c' s', Q (Ok a) o' c' s') → safely (after f (λ a, mret a)) o c s Q.
Proof. intros Hf. by apply safe_after. Qed.

Lemma inside_lent o s : inside o s → lent (hd_claim o) s.
Proof. intros [[Hg _ _ _ _ _] [Hk _ _ _]]. by split. Qed.
Lemma hasDriver_served p : is_Some (drivers p) → hasDriver p = true.
Proof. intros Hp. by apply bool_decide_eq_true_2. Qed.

Lemma rest_quiet s s' w : at_rest s → record_of s = Some w → quiet s s' → record_of s' = Some w → at_rest s'.
Proof.
  intros [(w0 & Hw0 & Hr)|Hst] Hw (a & -> & _ & Hs) Hw'; [|by right; cbn; rewrite Hs].
  rewrite Hw in Hw0. injection Hw0 as <-. left. eauto.
Qed.
Lemma active_same s s' w w' : active s → record_of s = Some w → record_of s' = Some w' → same_waiter w w' →
  w_state w' ≠ w_granted → active s'.
Proof.
  intros (w0 & Hw0 & Hl & Hg) Hw Hw' (_ & Hq & _) Hst. rewrite Hw in Hw0. injection Hw0 as <-. exists w'.
  by rewrite Hq.
Qed.

(** Sections after which a waiter at rest is still at rest, an active one still active. *)
Lemma safe_rest (f : Acquiring → Acquiring) o c s (Q : Post unit) :
  (∀ a, aq_queue (f a) = aq_queue a ∧ aq_waiters (f a) = aq_waiters a ∧ aq_stopPlanning (f a) = aq_stopPlanning a) →
  inside o s → at_rest s → (∀ s', inside o s' → at_rest s' → Q (Ok tt) o c s') →
  safely (gate (Acquisition.change f)) o c s Q.
Proof.
  intros Hf Hin Hr HQ. apply (safe_section at_rest); auto. intros s1 Hin1 Hr1.
  destruct (inside_waiter _ _ _ _ Hin1) as [w Hw]. apply (sec_change _ _ _ _ _ w); [done|done|].
  intros s2 Hin2 Hq Hw2. apply HQ; [done|]. by eapply rest_quiet.
Qed.
Lemma safe_wake o c s (Q : Post unit) :
  inside o s → at_rest s → (∀ s', inside o s' → at_rest s' → Q (Ok tt) o c s') →
  safely (gate Acquisition.wakeQueue) o c s Q.
Proof. intros. by apply safe_rest. Qed.
Lemma safe_defer reason o c s (Q : Post unit) :
  inside o s → (∀ s', inside o s' → at_rest s' → Q (Ok tt) o c s') →
  safely (gate (Acquisition.defer drivers h reason)) o c s Q.
Proof.
  intros Hin HQ. apply (safe_section (λ _, True)); auto. intros s1 Hin1 _.
  destruct (inside_waiter _ _ _ _ Hin1) as [w Hw]. apply (sec_defer _ _ _ _ _ w); [done|].
  intros s2 Hin2 _ Hw2. apply HQ; [done|]. by eapply waiter_now_rest.
Qed.

(** ** Granting what was made ready *)

(** Only the capacity or the claims changed: the waiter is as it was. *)
Lemma sec_hand_back k (reservation : option CapacityReservation) s (Q : result DeviceError unit → Holding → Shared → Prop) :
  (∀ s', inside nothing s' → sh_acquiring s' = sh_acquiring s → Q (Ok tt) nothing s') →
  sec (_ ← match reservation with Some r => Provisioner.free r | None => mret tt end; modify (drop_claim k))
    (MkHolding (Some k) reservation None None) s Q.
Proof.
  intros HQ. apply sec_bind.
  assert (∀ s1, sh_acquiring s1 = sh_acquiring s → sec (modify (drop_claim k)) (MkHolding (Some k) None None None) s1 Q) as Hd.
  { intros s1 Hac. apply (sec_drop _ _ k); [done|]. intros s2 Hin2 ->. by apply HQ. }
  destruct reservation as [r|]; [|by apply sec_ret; intros _; apply Hd].
  apply (sec_free _ _ r); [done|]. intros s1 Hin1 (cap & ->). by apply Hd.
Qed.

Lemma ours_only_claim k d st o s k' : ours k d st s → hd_claim o = Some k → held (sh_claims s) k' →
  k_deviceId k' = v_id d → hd_claim o = Some k'.
Proof. intros [_ Hh Hid _ _ _ _] Hk Hk' Hd. unfold held in *. rewrite Hd, Hid, Hh in Hk'. congruence. Qed.

Lemma sec_handoff k d v kind reservation s (Q : result DeviceError bool → Holding → Shared → Prop) :
  active s → ours k d ready s → made d v ready →
  (∀ b s', inside nothing s' → (if b : bool then active s' else at_rest s') → Q (Ok b) nothing s') →
  sec (Acquisition.handoff_section options drivers leaseEnvironment generate defaultMs h (k, v) kind reservation)
    (MkHolding (Some k) reservation None None) s Q.
Proof using Hret fresh_lease.
  intros Ha Ho [Hvs Hvi Hvd _] HQ.
  eapply sec_finally; [unfold Acquisition.handoff_section; cbn [fst snd]; reflexivity|]. cbn [fst snd].
  set (o := MkHolding (Some k) reservation None None).
  assert (∀ (b : bool) s1, inside o s1 → (if b then active s1 else at_rest s1) →
    sec (_ ← match reservation with Some r => Provisioner.free r | None => mret tt end; modify (drop_claim k)) o s1
      (λ _ o' s', Q (Ok b) o' s')) as Hback.
  { intros b s1 Hin1 Hb. apply sec_hand_back. intros s2 Hin2 Hac. apply HQ; [done|].
    destruct b; [eapply active_kept|eapply at_rest_kept]; [done|by apply waiter_kept_same|done|by apply waiter_kept_same]. }
  assert (∀ s1 w, inside o s1 → record_of s1 = Some w →
    sec (_ ← Acquisition.defer drivers h waiting_for_device; mret false) o s1 (λ a o' s',
      sec (_ ← match reservation with Some r => Provisioner.free r | None => mret tt end; modify (drop_claim k)) o' s'
        (λ _ o'' s'', Q a o'' s''))) as Hdefer.
  { intros s1 w Hin1 Hw1. apply sec_bind, (sec_defer _ _ _ _ _ w); [done|]. intros s2 Hin2 _ Hw2. apply sec_ret.
    intros _. apply Hback; [done|]. by eapply waiter_now_rest. }
  pose proof Ha as (w & Hw & Hl & Hg). apply sec_catch, sec_bind, (sec_waiter _ _ _ _ w); [done|]. intros Hin.
  destruct (w_state w === w_rejected) eqn:Er.
  { apply sec_ret. intros _. apply Hback; [done|]. left. exists w. split; [done|]. right.
    apply bool_decide_eq_true in Er. by rewrite Er. }
  apply sec_get. destruct (Acquisition.isSuperseded _ _).
  { apply sec_ret. intros _. by apply Hback. }
  pose proof Ho as [[Hreg _] _ Hid _ _ (d0 & Hf & _ & Hs & _) _].
  apply (find_virtual_Some _ _ _ _ Hreg) in Hf as [Hd0 Hd0id].
  apply sec_bind. eapply (sec_grant _ Hret _ _ _ _ _ fresh_lease (Virtual v) (Virtual d0) _ _ _ w); try done.
  - apply bool_decide_eq_false in Er. by destruct (w_state w).
  - change (v_id d0 = v_id v). congruence.
  - intros k' Hk' Hkd. eapply (ours_only_claim k d); [done..|]. etransitivity; [exact Hkd|]. exact Hvi.
  - intros e Hin1. by eapply Hdefer.
  - intros s1 Hin1 _ _ Hw1. apply sec_ret. intros _. apply Hback; [done|]. by eapply waiter_now_settled.
Qed.

Lemma safe_discard v c s (Q : Post unit) : inside nothing s →
  (∀ c' s', inside nothing s' → at_rest s' → Q (Ok tt) nothing c' s') →
  safely (Acquisition.discardSuperseded options drivers h v) nothing c s Q.
Proof using Hret.
  intros Hin HQ. apply safe_then, safe_try, safe_then.
  eapply safe_mono; [apply safe_operation; [done|apply sections_dispose|apply safe_dispose; [done|by apply inside_lent|done]]|].
  intros a o' c' s' (k & hist & -> & _ & Hin' & _ & Hend).
  assert (k = None) as -> by (destruct Hend as [(_ & _ & -> & _)|(? & ? & _ & _ & -> & _)]; done).
  assert (safely (_ ← gate (Acquisition.defer drivers h waiting_for_device);
    gate (Acquisition.change (λ a, a <| aq_planAgain := {[h]} ∪ aq_planAgain a |>))) nothing c' s' Q) as Hrest.
  { apply safe_then, safe_defer; [done|]. intros s1 Hin1 Hr1. apply safe_rest; auto. }
  by destruct a as [[|]|e].
Qed.

(** A device handed over is granted, or set aside for a newer version of its baseline; the claim and the
    reservation end either way, and the waiter comes to rest. *)
Lemma safe_grantHandoff k d v kind reservation c s (Q : Post unit) :
  inside (MkHolding (Some k) reservation None None) s → active s → ours k d ready s → made d v ready →
  (∀ c' s', inside nothing s' → at_rest s' → Q (Ok tt) nothing c' s') →
  safely (Acquisition.grantHandoff options drivers leaseEnvironment generate defaultMs h (k, v) kind reservation)
    (MkHolding (Some k) reservation None None) c s Q.
Proof using Hret fresh_lease.
  intros Hin Ha Ho Hm HQ. apply safe_then, (safe_section (λ s, active s ∧ ours k d ready s)); auto.
  intros s1 Hin1 [Ha1 Ho1]. eapply sec_handoff; [done..|]. intros b s2 Hin2 Hb.
  apply safe_then. destruct b.
  - apply safe_discard; [done|]. intros c' s3 Hin3 Hr3. apply safe_wake; auto.
  - apply safe_wake; auto.
Qed.

(** ** A device that failed to boot *)

Lemma safe_stalled i c s o (Q : Post bool) : hd_claim o = None → inside o s →
  (∀ a c' s', inside o s' → waiter_kept s s' → Q a o c' s') →
  safely (Quarantine.enterFromStalledTransition options retry_config i Domain.shutdown) o c s Q.
Proof using Hret.
  intros Ho Hin HQ.
  eapply safe_mono; [apply (safe_operation _ _ _ o _ _ (λ _ mine _ _, mine = None)); [done|..]|].
  - apply sections_bind; [apply sections_read_now|]. intros now. apply sections_bind.
    + apply sections_gate. intros. apply (stalled_rest options retry_config i Domain.shutdown).
    + intros []; [|done]. apply sections_bind; [|done]. apply sections_gate. intros s'. cbn. by destruct (sh_disposed s').
  - rewrite Ho. apply inside_lent in Hin as Hl. rewrite Ho in Hl.
    apply safe_bind, safe_gate. intros s1 Hr1. apply (lent_rely _ _ _ Hl) in Hr1. exists None. split; [apply guar_same|].
    apply safe_bind, safe_gate. intros s2 Hr2. apply (lent_rely _ _ _ Hr1) in Hr2. exists None.
    pose proof (stalled_guar options Hret retry_config i (sh_now s1 + retryBackoffMs retry_config) s2 (proj1 Hr2)) as Hgu.
    split; [exact Hgu|].
    match goal with |- match ?a with _ => _ end => destruct a as [[]|e] end; [|done|done].
    apply safe_bind, safe_gate. intros s3 _. exists None. split; [|done]. unfold Quarantine.arm, modify. cbn.
    destruct (sh_disposed s3); [apply guar_same|]. intros Hg3 Hk3. destruct (guar_same None s3 Hg3 Hk3) as (?&?&?&?&?&Hla&?&?&?).
    split_and!; try done.
  - intros a o' c' s' (k' & hist & -> & -> & Hin' & Hw & ->). destruct o. cbn in Ho. subst. by apply HQ.
Qed.

Lemma safe_destroyFailedBoot v o c s (Q : Post unit) : hd_claim o = None → inside o s →
  (∀ c' s', inside o s' → waiter_kept s s' → Q (Ok tt) o c' s') →
  safely (Acquisition.destroyFailedBoot options drivers retry_config v Domain.shutdown) o c s Q.
Proof using Hret.
  intros Ho Hin HQ. apply safe_then, safe_try, safe_then.
  eapply safe_mono; [apply safe_operation; [done|apply sections_destroy|]|].
  { rewrite Ho. apply safe_destroy; [done| |done]. apply inside_lent in Hin. by rewrite Ho in Hin. }
  intros a o' c' s' (k & hist & -> & _ & Hin' & Hw' & Hend).
  assert (k = None) as -> by (destruct Hend as [(_ & _ & -> & _)|(? & ? & _ & _ & -> & _)]; done).
  assert (o <| hd_claim := None |> = o) as Eo by (destruct o; cbn in *; by subst). rewrite Eo in *.
  destruct a as [x|e]; [by apply HQ|].
  apply safe_try, safe_then, safe_stalled; [done..|].
  intros a c2 s2 Hin2 Hw2. destruct a; apply HQ; try done; by eapply waiter_kept_trans.
Qed.

(** ** How a step of a drive ends *)

Definition stepped : Post NextStep := λ a o c s, inside o s ∧ ∃ next, a = Ok next ∧
  match next with
  | Finished => o = nothing ∧ at_rest s
  | DrivenElsewhere => o = nothing
  | NextPlan p => o = plan_holding nothing p ∧ plan_ready p s ∧ active s ∧ operationPlan p = Some p
  | DriveAgain => o = nothing ∧ active s
  end.

Lemma stepped_finished c s : inside nothing s → at_rest s → stepped (Ok Finished) nothing c s.
Proof. intros. split; [done|]. by exists Finished. Qed.

Lemma safe_woken c s : inside nothing s → at_rest s →
  safely (_ ← gate Acquisition.wakeQueue; mret Finished) nothing c s stepped.
Proof. intros. apply safe_then, safe_wake; [done..|]. intros. by apply stepped_finished. Qed.

(** The first failure plans again, the second rejects the waiter. *)
Lemma safe_countFailure e c s : inside nothing s → active s →
  safely (Acquisition.countFailure h e) nothing c s stepped.
Proof.
  intros Hin Ha. apply safe_then, (safe_section active); auto. clear s Hin Ha. intros s Hin Ha.
  pose proof Ha as (w & Hw & Hl & Hg). apply sec_bind, (sec_waiter _ _ _ _ w); [done|]. intros _.
  destruct (w_state w === w_rejected) eqn:Er.
  { apply bool_decide_eq_true in Er. apply sec_ret. intros _. apply safe_woken; [done|]. left. exists w.
    rewrite Er. split; [done|by right]. }
  apply sec_bind, (sec_set_extra _ _ _ _ _ w); [done| |].
  { intros [[_ _ _ Hs Hr _] _]. cbn. by split_and!. }
  intros s1 Hin1 _ Hw1 _. apply sec_bind, sec_extra. intros _. clear Er. case_bool_decide.
  - apply sec_bind, (sec_markNew _ _ _ _ w); [done|]. intros b s2 Hin2 _ (w2 & Hw2 & Hs2 & Hst2).
    apply sec_ret. intros _. split; [done|]. exists DriveAgain. split; [done|]. split; [done|].
    eapply (active_same s); try done. intros E. by apply Hg, Hst2.
  - apply sec_bind, (sec_reject_waiter _ _ _ _ _ _ w); [done|]. intros s2 Hin2 _ Hw2. apply sec_ret. intros _.
    apply safe_woken; [done|]. by eapply waiter_now_settled.
Qed.

(** The attempt ends with the waiter rejected, whoever rejected it. *)
Lemma safe_end_attempt e reason (first : op unit) o c s : inside o s →
  (∀ s (Q : result DeviceError unit → Holding → Shared → Prop), inside o s →
     (∀ s', inside nothing s' → sh_acquiring s' = sh_acquiring s → Q (Ok tt) nothing s') → sec first o s Q) →
  safely (Acquisition.end_attempt h e reason first) o c s stepped.
Proof.
  intros Hin Hf. apply safe_then, (safe_section (λ _, True)); auto. clear s Hin. intros s Hin _.
  apply sec_bind, Hf; [done|]. intros s1 Hin1 Hac. destruct (inside_waiter _ _ _ _ Hin1) as [w Hw].
  apply sec_bind, (sec_waiter _ _ _ _ w); [done|]. intros _. destruct (w_state w === w_rejected) eqn:Er.
  - apply bool_decide_eq_true in Er. apply sec_ret. intros _. apply safe_woken; [done|]. left. exists w.
    rewrite Er. split; [done|by right].
  - apply (sec_reject_waiter _ _ _ _ _ _ w); [done|]. intros s2 Hin2 _ Hw2. apply safe_woken; [done|].
    by eapply waiter_now_settled.
Qed.

(** ** Evictions *)

Lemma sec_decided s w c : record_of s = Some w → lineOf (w_request w) = line_virtual →
  sec (Acquisition.decide strategy options drivers leaseEnvironment generate defaultMs h) nothing s
    (λ a o' s', match a with
       | Ok next => stepped (Ok (Acquisition.step_of next)) o' c s'
       | Err _ => False
       end).
Proof using Hret fresh_lease.
  intros Hw Hl. eapply (sec_decide _ _ Hret _ _ _ _ _ fresh_lease _ _ w); try done.
  - intros s1 Hin1 Hr1. by apply stepped_finished.
  - intros p s1 Hin1 Hp Ha Hop. split; [done|]. exists (NextPlan p). by split_and!.
Qed.

Lemma safe_continueAfterEviction k c s : inside nothing s → active s → ended k s →
  safely (Acquisition.continueAfterEviction strategy options drivers leaseEnvironment generate defaultMs h k)
    nothing c s stepped.
Proof using Hret fresh_lease.
  intros Hin Ha He. apply safe_then, (safe_section (λ s, active s ∧ ended k s)); auto.
  intros s1 Hin1 [(w & Hw & Hl & Hg) He1]. apply sec_bind, sec_drop_ended; [done|]. intros _.
  apply sec_bind, (sec_markNew _ _ _ _ w); [done|]. intros b s2 Hin2 _ (w2 & Hw2 & (_ & Hq & _) & _).
  eapply sec_mono; [apply (sec_decided _ w2 c); [done|by rewrite Hq]|]. by intros [next|e] o' s' _ Hn.
Qed.

Lemma safe_evict v k reason retire sure final c s :
  inside (MkHolding (Some k) None None None) s → active s → sections rest_same retire →
  (∀ s, lent (Some k) s → safe rely guar may_call retire (Some k) [] s (ends_released (Some k) v (sure s) final)) →
  safely (Acquisition.evict strategy options drivers leaseEnvironment generate defaultMs h v k reason retire)
    (MkHolding (Some k) None None None) c s stepped.
Proof using Hret fresh_lease.
  intros Hin Ha Hsec Hop. apply safe_then, safe_outcome, safe_then.
  eapply safe_mono; [apply safe_operation; [done|done|]; cbn; apply Hop, (inside_lent _ _ Hin)|].
  intros a o' c' s' (k' & hist & -> & _ & Hin' & Hw' & Hend). cbn in Hin'. pose proof (active_kept h _ _ Ha Hw') as Ha'.
  assert (∀ mine, inside (MkHolding mine None None None) s' → (mine = Some k ∨ mine = None ∧ ended k s') →
    safely (_ ← gate (_ ← modify (drop_claim k); Acquisition.defer drivers h reason); mret Finished)
      (MkHolding mine None None None) c' s' stepped) as Hfail.
  { intros mine Hin1 Hm. apply safe_then, (safe_section (λ s, mine = Some k ∨ mine = None ∧ ended k s)); auto.
    { intros s1 s2 Hi [->|[-> He]] Hr Hwk; [by left|]. right. split; [done|]. by eapply (lasting_ended nothing). }
    clear Hin1 Hm. intros s1 Hin1 Hm. apply sec_bind.
    assert (∀ s2, inside nothing s2 → sec (Acquisition.defer drivers h reason) nothing s2
      (λ a o' s', match a with Ok _ => safely (mret Finished) o' c' s' stepped | Err e => stepped (Err e) o' c' s' end))
      as Hd.
    { intros s2 Hin2. destruct (inside_waiter _ _ _ _ Hin2) as [w Hw]. apply (sec_defer _ _ _ _ _ w); [done|].
      intros s3 Hin3 _ Hw3. apply stepped_finished; [done|]. by eapply waiter_now_rest. }
    destruct Hm as [->|[-> He]].
    - apply (sec_drop _ _ k); [done|]. intros s2 Hin2 _. by apply Hd.
    - apply sec_drop_ended; [done|]. intros _. by apply Hd. }
  destruct Hend as [(-> & _ & -> & _)|(k0 & d & [|[= <-]] & _ & -> & He & [(e & -> & _)|(x & -> & _)])]; [|done|done|..].
  - exact (Hfail (Some k) Hin' (or_introl eq_refl)).
  - exact (Hfail None Hin' (or_intror (conj eq_refl He))).
  - by apply safe_continueAfterEviction.
Qed.

(** ** Boots and reboots *)

Lemma ours_quiet k d st s s' : ours k d st s → quiet s s' → ours k d st s'.
Proof. intros [] (a & -> & _). by split. Qed.

(** The progress a waiter is told before a boot. *)
Lemma safe_announce {B} (ms : AcquisitionWaiter → Z) (g : Waiter → AcquisitionWaiter → B) k d st o c s (Q : Post B) :
  hd_claim o = Some k → inside o s → active s → ours k d st s →
  (∀ b s', inside o s' → active s' → ours k d st s' → Q (Ok b) o c s') →
  safely (gate (w ← Acquisition.waiter h; x ← Acquisition.extra h;
                _ ← Acquisition.notify_progress h (ProgressBooting (ms x)); mret (g w x))) o c s Q.
Proof.
  intros Hk Hin Ha Ho HQ. apply (safe_section (λ s, active s ∧ ours k d st s)); auto.
  intros s1 Hin1 [Ha1 Ho1]. pose proof Ha1 as (w & Hw & _ & Hg). apply sec_bind, (sec_waiter _ _ _ _ w); [done|]. intros _.
  apply sec_bind, sec_extra. intros _. apply sec_bind, (sec_progress _ _ _ _ _ w); [done|].
  intros s2 Hin2 Hq Hw2. apply sec_ret. intros _. apply HQ; [done| |by eapply ours_quiet].
  by eapply (active_same s1).
Qed.

Lemma sec_free_all r s (Q : result DeviceError unit → Holding → Shared → Prop) :
  (∀ s', inside nothing s' → sh_acquiring s' = sh_acquiring s → Q (Ok tt) nothing s') →
  sec (Provisioner.free r) (MkHolding None (Some r) None None) s Q.
Proof. intros HQ. apply (sec_free _ _ r); [done|]. intros s1 Hin1 (cap & ->). by apply HQ. Qed.

(** A failed boot: the device is destroyed or quarantined, the reservation freed, the waiter rejected or
    planned for again. *)
Lemma safe_boot_failed r e v c s : inside (MkHolding None (Some r) None None) s → active s → v_state v = Domain.shutdown →
  safely (_ ← Acquisition.destroyFailedBoot options drivers retry_config v (v_state v);
          except ← gate (w ← Acquisition.waiter h; x ← Acquisition.extra h; mret (Acquisition.exceptOption w x));
          match except with
          | Some _ => _ ← gate (Provisioner.free r); Acquisition.countFailure h e
          | None => Acquisition.end_attempt h (WaitQueue.OtherError (stableError (BootTimeoutError_from (v_id v) e)))
                      refused_boot_timeout (Provisioner.free r)
          end) (MkHolding None (Some r) None None) c s stepped.
Proof using Hret.
  intros Hin Ha ->. apply safe_then, safe_destroyFailedBoot; [done..|]. intros c1 s1 Hin1 Hw1.
  pose proof (active_kept h _ _ Ha Hw1) as Ha1. apply safe_then, (safe_section active); auto.
  clear s Hin Ha s1 Hin1 Hw1 Ha1. intros s Hin Ha. pose proof Ha as (w & Hw & _).
  apply sec_bind, (sec_waiter _ _ _ _ w); [done|]. intros _. apply sec_bind, sec_extra. intros _. apply sec_ret. intros _.
  destruct (Acquisition.exceptOption _ _).
  - apply safe_then, (safe_section active); auto. intros s1 Hin1 Ha1. apply sec_free_all. intros s2 Hin2 Hac.
    apply safe_countFailure; [done|]. eapply active_kept; [exact Ha1|by apply waiter_kept_same].
  - apply safe_end_attempt; [done|]. intros s1 Q Hin1 HQ. by apply sec_free_all.
Qed.

Lemma safe_bootShutdown v r k c s : inside (MkHolding (Some k) (Some r) None None) s → active s →
  plan_ready (BootShutdown r k v) s →
  safely (Acquisition.bootShutdown options drivers leaseEnvironment generate defaultMs retry_config h v r k)
    (MkHolding (Some k) (Some r) None None) c s stepped.
Proof using Hret fresh_lease.
  intros Hin Ha (Ho & Hop & Hst & Hsv). apply safe_then, safe_outcome, safe_then.
  apply (safe_announce _ _ k v Domain.shutdown); [done..|]. clear s Hin Ha Ho. intros except s Hin Ha Ho.
  apply safe_then. eapply safe_mono; [apply safe_operation; [done|apply sections_makeReadyForLease|cbn [hd_claim];
    apply safe_makeReadyForLease; [done|by apply (inside_lent _ _ Hin)|by right]]|].
  intros a o' c' s' (k' & hist & -> & _ & Hin' & Hw' & Hend). cbn in Hin'. pose proof (active_kept h _ _ Ha Hw') as Ha'.
  destruct Hend as [(_ & _ & _ & Hno)|(k0 & d & Ht & _ & [(e & -> & _ & -> & _)|(x & -> & Hm & -> & Ho' & _)])].
  - destruct Hno. exists k, Domain.shutdown. split_and!; try done. by left.
  - exact (safe_boot_failed r e v c' s' Hin' Ha' Hst).
  - apply safe_then, (safe_grantHandoff _ d); [done..|]. intros c2 s2 Hin2 Hr2. by apply stepped_finished.
Qed.

Lemma safe_rebootReady v k c s : inside (MkHolding (Some k) None None None) s → active s →
  plan_ready (RebootReady k v) s →
  safely (Acquisition.rebootReady options drivers leaseEnvironment generate defaultMs retry_config h v k)
    (MkHolding (Some k) None None None) c s stepped.
Proof using Hret fresh_lease.
  intros Hin Ha (Ho & Hop & Hsv). apply safe_then, safe_outcome, safe_then.
  apply (safe_announce _ _ k v ready); [done..|]. clear s Hin Ha Ho. intros except s Hin Ha Ho.
  apply safe_then. eapply safe_mono; [apply safe_operation; [done|apply sections_rebootForLease|cbn [hd_claim];
    apply safe_rebootForLease; [done|by apply (inside_lent _ _ Hin)]]|].
  intros a o' c' s' (k' & hist & -> & _ & Hin' & Hw' & Hend). cbn in Hin'. pose proof (active_kept h _ _ Ha Hw') as Ha'.
  destruct Hend as [(_ & _ & _ & Hno)|(d & _ & [(p & _ & _ & _ & Hnd & Hp)|[(e & -> & -> & _)|(x & a1 & a2 & -> & Hm & -> & Ho' & _)]])].
  - destruct Hno. exists k, ready. split_and!; try done. by left.
  - rewrite Hp, hasDriver_served in Hnd; [done|done|]. exists k, ready. split_and!; try done. by left.
  - apply safe_then, safe_destroyFailedBoot; [done..|]. intros c2 s2 Hin2 Hw2. apply safe_countFailure; [done|].
    by eapply active_kept.
  - apply safe_then, (safe_grantHandoff _ d); [done..|]. intros c2 s2 Hin2 Hr2. by apply stepped_finished.
Qed.

(** ** Components and baseline versions *)

Definition counts_only s s' : Prop := ∃ p v, s' = s <| sh_provisioning := p |> <| sh_holds := v |>.
Lemma counts_refl s : counts_only s s.
Proof. exists (sh_provisioning s), (sh_holds s). by destruct s. Qed.
Lemma counts_trans_only s1 s2 s3 : counts_only s1 s2 → counts_only s2 s3 → counts_only s1 s3.
Proof. intros (p & v & ->) (p' & v' & ->). by exists p', v'. Qed.
Lemma counts_acquiring s s' : counts_only s s' → sh_acquiring s' = sh_acquiring s.
Proof. by intros (p & v & ->). Qed.

Lemma remove_one_perm {A} `{EqDecision A} (x : A) l : x ∈ l → l ≡ₚ x :: remove_one x l.
Proof.
  intros Hx. unfold remove_one. destruct (Arr.findIndex _ l) as [i|] eqn:E.
  - apply afindIndex_Some in E as (y & Hy & Hyx%bool_decide_eq_true & _). subst y. by apply delete_Permutation.
  - rewrite afindIndex_None in E. specialize (E x Hx). cbn in E. by rewrite bool_decide_eq_true_2 in E.
Qed.
Lemma remove_one_owned {A} `{EqDecision A} (x : A) l : [x] ⊆+ l → l ≡ₚ x :: remove_one x l.
Proof. intros Hx. apply remove_one_perm. apply (elem_of_submseteq [x]); [by left|done]. Qed.

Lemma step_counts o s cm v p' l : sh_provisioning s ≡ₚ option_list (hd_component o) ++ l → p' ≡ₚ option_list cm ++ l →
  v = hd_version o →
  step served h o s (MkHolding (hd_claim o) (hd_reservation o) cm v) (s <| sh_provisioning := p' |>).
Proof.
  intros Hp Hp' -> Hin. destruct (step_refl served h o s Hin) as [_ Sd]. destruct Hin as [Htd [Hk Hr Hbk Hcm Hv]]. split.
  - split; [by destruct Htd; split|]. split; cbn; try done. rewrite Hp'. by apply submseteq_inserts_r.
  - destruct Sd. split; cbn; try done. by exists l.
Qed.
Lemma step_holds o s cm v p' l : sh_holds s ≡ₚ option_list (hd_version o) ++ l → p' ≡ₚ option_list v ++ l →
  cm = hd_component o →
  step served h o s (MkHolding (hd_claim o) (hd_reservation o) cm v) (s <| sh_holds := p' |>).
Proof.
  intros Hp Hp' -> Hin. destruct (step_refl served h o s Hin) as [_ Sd]. destruct Hin as [Htd [Hk Hr Hbk Hcm Hv]]. split.
  - split; [by destruct Htd; split|]. split; cbn; try done. rewrite Hp'. by apply submseteq_inserts_r.
  - destruct Sd. split; cbn; try done. by exists l.
Qed.

(** The sections change the counts, the rest of the state is as it was. *)
Lemma sec_claim_component kc rs v spec s (Q : result DeviceError unit → Holding → Shared → Prop) :
  (∀ e, inside (MkHolding kc rs None v) s → Q (Err e) (MkHolding kc rs None v) s) →
  (∀ s', inside (MkHolding kc rs (Some (Provisioner.component_of spec)) v) s' → counts_only s s' →
     Q (Ok tt) (MkHolding kc rs (Some (Provisioner.component_of spec)) v) s') →
  sec (Provisioner.claimProvision spec) (MkHolding kc rs None v) s Q.
Proof.
  intros HE HQ. apply sec_get. destruct (Arr.includes _ _); [apply sec_same; [done|intros; by apply HE]|].
  apply (sec_step _ _ _ _ _ (MkHolding kc rs (Some (Provisioner.component_of spec)) v)).
  - by apply (step_counts (MkHolding kc rs None v) _ _ _ _ (sh_provisioning s)).
  - intros Hin. apply HQ; [done|]. by eexists _, _.
Qed.
Lemma sec_release_component kc rs v spec s (Q : result DeviceError unit → Holding → Shared → Prop) :
  (∀ s', inside (MkHolding kc rs None v) s' → counts_only s s' → Q (Ok tt) (MkHolding kc rs None v) s') →
  sec (Provisioner.release_component spec) (MkHolding kc rs (Some (Provisioner.component_of spec)) v) s Q.
Proof.
  intros HQ Hin. assert (sec (Provisioner.release_component spec) (MkHolding kc rs (Some (Provisioner.component_of spec)) v) s Q)
    as Hs; [|by apply Hs]. pose proof (remove_one_owned _ _ (own_component _ _ (proj2 Hin))) as Hp.
  apply (sec_step _ _ _ _ _ (MkHolding kc rs None v)).
  - by apply (step_counts (MkHolding kc rs (Some (Provisioner.component_of spec)) v) _ _ _ _ _ Hp).
  - intros Hin'. apply HQ; [done|]. by eexists _, _.
Qed.
Lemma sec_hold kc rs cm key s (Q : result DeviceError unit → Holding → Shared → Prop) :
  (∀ s', inside (MkHolding kc rs cm (Some key)) s' → counts_only s s' → Q (Ok tt) (MkHolding kc rs cm (Some key)) s') →
  sec (Provisioner.hold key) (MkHolding kc rs cm None) s Q.
Proof.
  intros HQ. apply (sec_step _ _ _ _ _ (MkHolding kc rs cm (Some key))).
  - by apply (step_holds (MkHolding kc rs cm None) _ _ _ _ (sh_holds s)).
  - intros Hin. apply HQ; [done|]. by eexists _, _.
Qed.
Lemma sec_drop_hold kc rs cm key s (Q : result DeviceError unit → Holding → Shared → Prop) :
  (∀ s', inside (MkHolding kc rs cm None) s' → counts_only s s' → Q (Ok tt) (MkHolding kc rs cm None) s') →
  sec (Provisioner.drop_hold key) (MkHolding kc rs cm key) s Q.
Proof.
  intros HQ. destruct key as [key|]; [|by apply sec_ret; intros; apply HQ, counts_refl].
  intros Hin. assert (sec (Provisioner.drop_hold (Some key)) (MkHolding kc rs cm (Some key)) s Q)
    as Hs; [|by apply Hs]. pose proof (remove_one_owned _ _ (own_version _ _ (proj2 Hin))) as Hp.
  apply (sec_step _ _ _ _ _ (MkHolding kc rs cm None)).
  - by apply (step_holds (MkHolding kc rs cm (Some key)) _ _ _ _ _ Hp).
  - intros Hin'. apply HQ; [done|]. by eexists _, _.
Qed.

(** ** Making a device *)

Lemma sec_claim_made r spec s (Q : result DeviceError Provisioner.Made → Holding → Shared → Prop) :
  (∀ e s', inside (MkHolding None (Some r) None None) s' → sh_acquiring s' = sh_acquiring s →
     Q (Err e) (MkHolding None (Some r) None None) s') →
  (∀ m s', inside (MkHolding None (Some r) (Some (Provisioner.component_of spec)) (Provisioner.md_hold m)) s' →
     sh_acquiring s' = sh_acquiring s →
     Q (Ok m) (MkHolding None (Some r) (Some (Provisioner.component_of spec)) (Provisioner.md_hold m)) s') →
  sec (Provisioner.claim_made spec) (MkHolding None (Some r) None None) s Q.
Proof.
  intros HE HQ. apply sec_bind, sec_claim_component; [intros e Hin; by apply HE|]. intros s1 Hin1 (p & v & ->).
  destruct (vs_baseline spec) as [b|]; [|apply sec_ret; intros _; by apply (HQ (Provisioner.MkMade _ _ None))].
  apply sec_get. destruct (current_baseline _ _) as [current|].
  - apply sec_bind, sec_hold. intros s2 Hin2 (p' & v' & ->). apply sec_ret. intros _.
    by apply (HQ (Provisioner.MkMade _ _ (Some _))).
  - apply sec_bind, sec_release_component. intros s2 Hin2 (p' & v' & ->). apply sec_same; [done|]. intros _. by apply HE.
Qed.

Lemma guar_registered s (reg : Registry) : good s → registry_ok (sh_now s) reg → leases reg = leases (sh_registry s) →
  (∀ x, x ∈ devices (sh_registry s) → dev_state x ≠ deleted → x ∈ devices reg) →
  guar None s None (s <| sh_registry := reg |>).
Proof.
  intros [Hr Hc] Hr' Hls Hoth _ _. split; [by split|]. split; [done|]. split; [apply claims_grow_refl|]. split; [done|].
  split; [|split; [|split; [done|split; [done|by left]]]].
  - intros x Hx Hl. apply Hoth; [done|by rewrite Hl].
  - intros k' Hk' _. split; [done|]. intros _ x Hx Hid Hnd Hu. exists x. split; [by apply Hoth|].
    split; [apply same_device_refl|]. unfold unleased. cbn. by rewrite Hls.
Qed.

Definition registered (v : VirtualDevice) (mine : option DeviceOperationClaim) s : Prop :=
  ∀ k, mine = Some k → ours k v provisioning s ∧ k_operation k = op_boot.

Lemma sec_register_device made_device spec startedAt claim o s
    (Q : result DeviceError (VirtualDevice * option DeviceOperationClaim) → Holding → Shared → Prop) :
  hd_claim o = None →
  (∀ v mine s', inside (o <| hd_claim := mine |>) s' → registered v mine s' → sh_acquiring s' = sh_acquiring s →
     Q (Ok (v, mine)) (o <| hd_claim := mine |>) s') →
  sec (Provisioner.register_device options generate made_device spec startedAt claim) o s Q.
Proof using Hret fresh_device.
  intros Ho HQ Hin. pose proof Hin as [Htd _]. destruct (td_good _ _ _ Htd) as [Hr Hc].
  destruct (register_device_run options Hret (sh_now s) (sh_registry s) (generate s)
    (MkRegister (dd_deviceId made_device) spec (dd_driverData made_device) (sh_now s - startedAt)) Hr (fresh_device s))
    as (reg & v & Hrun & Hr' & Hls & Hv & Hid & Hst & Hsp & Hoth).
  assert (sec (Provisioner.register_device options generate made_device spec startedAt claim) o s Q) as Hs; [|by apply Hs].
  clear Hin. apply sec_get, sec_bind. set (s1 := s <| sh_registry := reg |>).
  assert (∀ m, m = (λ now, registerDevice options now (generate s)
    (MkRegister (dd_deviceId made_device) spec (dd_driverData made_device) (now - startedAt))) →
    on_registry m s = (s1, Ok (Virtual v))) as Hreg.
  { intros m ->. unfold on_registry. by rewrite Hrun. }
  apply (sec_step _ _ _ _ _ o); rewrite (Hreg _ eq_refl); cbn [fst snd].
  { replace o with (o <| hd_claim := None |>) at 2 by (destruct o; cbn in Ho; by subst).
    apply step_guar; [|by split_and!]. rewrite Ho. by apply guar_registered. }
  intros Hin1. apply sec_bind, sec_same; [done|]. intros _. change (as_virtual (Virtual v) s1).2 with (@Ok DeviceError _ v).
  cbv beta iota. assert (o <| hd_claim := None |> = o) as Eo by (destruct o; cbn in Ho; by subst).
  assert (Q (Ok (v, None)) o s1) as Hnone. { rewrite <- Eo. apply HQ; [by rewrite Eo|done|done]. }
  destruct claim as [owner|]; [|by apply sec_ret]. apply sec_get.
  destruct (tryClaim (sh_claims s1) (v_id v) op_boot owner) as [[t k]|] eqn:Et; [|by apply sec_ret].
  destruct (tryClaim_ok _ _ _ _ _ _ (proj2 (td_good _ _ _ (proj1 Hin1))) Et) as (Hok & Hh & Hkd & Hko & Hn & Hgr & Hkeep).
  apply sec_bind, (sec_step _ _ _ _ _ (o <| hd_claim := Some k |>)).
  { apply step_guar; [|by split_and!]. rewrite Ho. by eapply guar_claimed; [apply (proj1 Hin1)|]. }
  intros Hin2. apply sec_ret. intros _. apply HQ; [done| |done]. intros k' [= <-]. split; [|done].
  pose proof (td_good _ _ _ (proj1 Hin2)) as Hg2. split; try done; [by rewrite Hko|..].
  - exists v. rewrite Hkd. split; [|done]. by apply (find_virtual_Some _ _ _ _ (proj1 Hg2)).
  - rewrite Hkd. apply (unleased_state (sh_now s) reg (Virtual v)); [done|done|]. cbn. by rewrite Hst.
Qed.

Lemma sec_register made_device requested m startedAt claim r s
    (Q : result DeviceError (VirtualDevice * option DeviceOperationClaim) → Holding → Shared → Prop) :
  (∀ v mine s', inside (MkHolding mine (Some r) None None) s' → registered v mine s' →
     sh_acquiring s' = sh_acquiring s → Q (Ok (v, mine)) (MkHolding mine (Some r) None None) s') →
  sec (Provisioner.register options generate made_device requested m startedAt claim)
    (MkHolding None (Some r) (Some (Provisioner.component_of requested)) (Provisioner.md_hold m)) s Q.
Proof using Hret fresh_device.
  intros HQ. eapply sec_finally; [unfold Provisioner.register; reflexivity|].
  apply sec_register_device; [done|]. intros v mine s1 Hin1 Hreg Hac. cbn in Hin1 |- *.
  apply sec_bind, sec_release_component. intros s2 Hin2 (p & hs & ->).
  apply sec_drop_hold. intros s3 Hin3 (p' & hs' & ->). apply HQ; [done| |done].
  intros k Hk. destruct (Hreg k Hk) as [[] ?]. split; [by split|done].
Qed.

Lemma safe_finally {A} (f : flow_of A) (clean : flow_of unit) o c s (Q : Post A) :
  safely f o c s (λ a o' c' s', safely clean o' c' s' (λ b o'' c'' s'',
    match b with Ok _ => Q a o'' c'' s'' | Err e => Q (Err e) o'' c'' s'' end)) →
  safely (finally f clean) o c s Q.
Proof.
  intros Hf. apply safe_after. eapply safe_mono; [exact Hf|]. intros a o' c' s' Hc. apply safe_after.
  eapply safe_mono; [exact Hc|]. by intros [[]|e].
Qed.

(** A device handed over, or nothing but the reservation left. *)
Definition handed (rs : option CapacityReservation) : Post ReadyDeviceHandoff := λ a o c s,
  inside o s ∧ active s ∧ match a with
  | Ok (k, x) => o = MkHolding (Some k) rs None None ∧ ∃ d, ours k d ready s ∧ made d x ready
  | Err _ => o = MkHolding None rs None None
  end.

Lemma safe_destroyed v r e c s : inside (MkHolding None (Some r) None None) s → active s →
  safely (_ ← try_catch (_ ← destroy options hasDriver v "lease-engine" op_cleanup None; mret tt) (λ _, mret tt);
          fail (R := ReadyDeviceHandoff) (BootTimeoutError_from (v_id v) e))
    (MkHolding None (Some r) None None) c s (handed (Some r)).
Proof using Hret.
  intros Hin Ha. apply safe_then, safe_try, safe_then.
  eapply safe_mono; [apply safe_operation; [done|apply sections_destroy|]; cbn [hd_claim]; apply safe_destroy;
    [done|apply (inside_lent _ _ Hin)|done]|].
  intros a o' c' s' (k & hist & -> & _ & Hin' & Hw' & Hend).
  assert (k = None) as -> by (destruct Hend as [(_ & _ & -> & _)|(? & ? & _ & _ & -> & _)]; done).
  pose proof (active_kept h _ _ Ha Hw') as Ha'. by destruct a as [x|e'].
Qed.

Lemma lasting_registered v mine rs cm hv : lasting (MkHolding mine rs cm hv) (registered v mine).
Proof.
  intros s s' Hin Hreg Hr Hw k ->. destruct (Hreg k eq_refl) as [Ho Hop]. split; [|done]. by eapply ours_rely.
Qed.

Lemma safe_makeReady v mine ms except r c s : inside (MkHolding mine (Some r) None None) s → active s →
  registered v mine s →
  safely (Provisioner.makeReady options hasDriver (Acquisition.notify_progress h) v mine ms except r)
    (MkHolding mine (Some r) None None) c s (handed None).
Proof using Hret.
  intros Hin Ha Hreg. apply safe_finally. eapply safe_mono with (handed (Some r)).
  - apply safe_try, safe_then, (safe_section (λ s, active s ∧ registered v mine s)); auto using lasting_registered.
    clear s Hin Ha Hreg. intros s [Hin Ha] [Ha' Hreg]. pose proof Ha' as (w & Hw & _ & Hg).
    apply (sec_progress _ _ _ _ _ w); [done|]. intros s1 Hin1 Hq Hw1.
    assert (active s1) as Ha1 by (by eapply (active_same s)).
    assert (registered v mine s1) as Hreg1.
    { intros k Hk. destruct (Hreg k Hk) as [Ho Hop]. split; [by eapply ours_quiet|done]. }
    apply safe_then. eapply safe_mono; [apply safe_operation; [done|apply sections_makeReadyForLease|cbn [hd_claim];
      apply safe_makeReadyForLease; [done|by apply (inside_lent _ _ Hin1)|by left]]|].
    intros a o' c' s' (k' & hist & -> & _ & Hin' & Hw' & Hend). cbn in Hin'. pose proof (active_kept h _ _ Ha1 Hw') as Ha2.
    destruct Hend as [(-> & _ & -> & Hno)|(k0 & d & Ht & _ & [(e & -> & _ & -> & _)|(x & -> & Hm & -> & Ho' & _)])].
    + destruct mine as [k|]; [|by apply safe_destroyed]. destruct Hno. exists k, provisioning.
      destruct (Hreg1 k eq_refl). split_and!; try done. by left.
    + by apply safe_destroyed.
    + split; [done|]. split; [done|]. split; [done|]. by exists d.
  - clear s Hin Ha Hreg. intros a o' c' s (Hin & Ha & Ho).
    destruct a as [[k x]|e]; [destruct Ho as (-> & d & Ho & Hm)|subst o'].
    + apply (safe_section (λ s, active s ∧ ours k d ready s)); auto. intros s1 Hin1 [Ha1 Ho1].
      apply (sec_free _ _ r); [done|]. intros s2 Hin2 (cap & ->). split; [done|]. split.
      { by eapply active_kept; [|apply waiter_kept_same]. }
      split; [done|]. exists d. split; [|done]. by destruct Ho1; split.
    + apply (safe_section active); auto. intros s1 Hin1 Ha1.
      apply (sec_free _ _ r); [done|]. intros s2 Hin2 (cap & ->). split; [done|]. split; [|done].
      by eapply active_kept; [|apply waiter_kept_same].
Qed.

Lemma active_acquiring s s' : active s → sh_acquiring s' = sh_acquiring s → active s'.
Proof. intros Ha Hac. by eapply active_kept; [|apply waiter_kept_same]. Qed.

(** Any failure before the device is registered leaves nothing. *)
Lemma safe_freed {A} r e c s (Q : Post A) : inside (MkHolding None (Some r) None None) s → active s →
  (∀ s', inside nothing s' → active s' → Q (Err e) nothing c s') →
  safely (_ ← gate (Provisioner.free r); fail e) (MkHolding None (Some r) None None) c s Q.
Proof.
  intros Hin Ha HQ. apply safe_then, (safe_section active); auto. intros s1 Hin1 Ha1. apply sec_free_all.
  intros s2 Hin2 Hac. apply HQ; [done|]. by eapply active_acquiring.
Qed.

(** Making a device: everything taken for it is given back by the time it is handed over, or fails. *)
Lemma safe_provision spec owner except r c s : is_Some (drivers (vs_platform spec)) →
  inside (MkHolding None (Some r) None None) s → active s →
  safely (Provisioner.provision options hasDriver (Acquisition.estimate drivers) generate
            (Acquisition.notify_progress h) spec (Some owner) except r)
    (MkHolding None (Some r) None None) c s (handed None).
Proof using Hret fresh_device.
  intros Hsv Hin Ha. apply safe_then. unfold get_driver. rewrite hasDriver_served by done.
  apply safe_then, safe_try, (safe_section active); auto. clear s Hin Ha. intros s Hin Ha.
  apply sec_claim_made.
  { intros e s1 Hin1 Hac. apply (safe_freed (A := Provisioner.Made)); [done|by eapply active_acquiring|].
    intros s2 Hin2 Ha2. by split. }
  intros m s1 Hin1 Hac. pose proof (active_acquiring _ _ Ha Hac) as Ha1. clear s Hin Ha Hac.
  set (o1 := MkHolding None (Some r) (Some (Provisioner.component_of spec)) (Provisioner.md_hold m)) in *.
  apply safe_then, (safe_section active); auto. intros s2 Hin2 Ha2. apply sec_same; [done|]. intros _.
  cbn [snd]. generalize (sh_now s2). intros startedAt.
  apply safe_then, safe_try, safe_then, (safe_section active); auto. clear s1 s2 Hin1 Ha1 Hin2 Ha2. intros s Hin Ha.
  pose proof Ha as (w & Hw & _ & Hg). apply (sec_progress _ _ _ _ _ w); [done|]. intros s1 Hin1 _ Hw1.
  assert (active s1) as Ha1 by (by eapply (active_same s)). clear s Hin Ha w Hw Hg Hw1.
  apply safe_call. intros s2 Hr2. destruct (Hr2 Hin1) as (Hin2 & _ & Hw2). split; [by intros i|].
  pose proof (active_kept h _ _ Ha1 Hw2) as Ha2. clear s1 Hin1 Ha1 Hr2 Hw2. intros [answer|e].
  - apply safe_then, safe_try, (safe_section active); auto. intros s3 Hin3 Ha3. apply sec_register.
    intros v mine s4 Hin4 Hreg Hac. apply safe_makeReady; [done|by eapply active_acquiring|done].
  - apply safe_then, (safe_section active); auto. intros s3 Hin3 Ha3.
    apply sec_bind, sec_release_component. intros s4 Hin4 (p & hs & ->).
    apply sec_bind, sec_drop_hold. intros s5 Hin5 (p' & hs' & ->). apply sec_free_all. intros s6 Hin6 Hac.
    split; [done|]. split; [by eapply active_acquiring|done].
Qed.

(** ** Carrying out a plan *)

(** A virtual waiter has a spec, of a platform with a driver. *)
Lemma active_spec o s : inside o s → active s →
  ∃ spec, aw_spec (extra_of s) = Some spec ∧ is_Some (drivers (vs_platform spec)).
Proof.
  intros [[_ _ _ Hsp _ (w & Hw & Hl & _)] _] (w' & Hw' & Hv & _). rewrite Hw in Hw'. injection Hw' as <-.
  specialize (Hl Hv). destruct (aw_spec (extra_of s)) as [spec|] eqn:E; [|done]. exists spec. split; [done|]. by apply Hsp.
Qed.

Lemma safe_provision_for r c s : inside (MkHolding None (Some r) None None) s → active s →
  safely (Acquisition.provision_for options drivers leaseEnvironment generate defaultMs h r)
    (MkHolding None (Some r) None None) c s stepped.
Proof using Hret fresh_device fresh_lease.
  intros Hin Ha. apply safe_then, (safe_section active); auto. clear s Hin Ha. intros s Hin Ha.
  destruct (active_spec _ _ Hin Ha) as (spec & Hsp & Hsv). pose proof Ha as (w & Hw & _).
  apply sec_bind, (sec_waiter _ _ _ _ w); [done|]. intros _. apply sec_bind, sec_extra. intros _. apply sec_ret. intros _.
  cbv iota. rewrite Hsp. apply safe_then, safe_outcome.
  eapply safe_mono; [apply safe_provision; [done..]|]. intros a o' c' s' (Hin' & Ha' & Ho).
  destruct a as [[k x]|e]; [destruct Ho as (-> & d & Ho & Hm)|subst o'].
  - apply safe_then, (safe_grantHandoff _ d); [done..|]. intros. by apply stepped_finished.
  - assert (∀ e reason s1, inside nothing s1 →
      safely (Acquisition.end_attempt h e reason (mret tt)) nothing c' s1 stepped) as Hend.
    { intros e' reason s1 Hin1. apply safe_end_attempt; [done|]. intros s2 Q Hin2 HQ. apply sec_ret. intros _. by apply HQ. }
    apply safe_then, (safe_section active); auto. clear s' Hin' Ha'. intros s1 Hin1 Ha1. apply sec_extra. intros _.
    destruct e; try (by apply safe_countFailure); try (by apply Hend).
    case_bool_decide; [by apply Hend|by apply safe_countFailure].
Qed.

Lemma lasting_plan p : operationPlan p = Some p → lasting (plan_holding nothing p) (plan_ready p).
Proof.
  intros Hop s s' Hin Hp Hr Hw. destruct p; try done.
  - destruct Hp as (Ho & ? & ?). split; [|done]. by eapply ours_rely.
  - destruct Hp as (Ho & ? & ?). split; [|done]. by eapply ours_rely.
Qed.

(** The timing a waiter is told, for the device of its plan. *)
Lemma safe_timing p platform (timing : Driver (Host := Host) → LeaseTiming) c s (Q : Post unit) :
  is_Some (drivers platform) → inside (plan_holding nothing p) s → active s → plan_ready p s → operationPlan p = Some p →
  (∀ s', inside (plan_holding nothing p) s' → active s' → plan_ready p s' → Q (Ok tt) (plan_holding nothing p) c s') →
  safely (gate (driver ← Acquisition.driver_for drivers platform; Acquisition.set_timing h (timing driver)))
    (plan_holding nothing p) c s Q.
Proof.
  intros Hsv Hin Ha Hp Hop HQ. apply (safe_section (λ s, active s ∧ plan_ready p s)); auto using lasting_plan.
  clear s Hin Ha Hp. intros s Hin [Ha Hp]. apply sec_bind, sec_driver_for; [done|]. intros d _ _.
  pose proof Ha as (w & Hw & _ & Hg). apply (sec_set_timing _ _ _ _ _ w); [done|]. intros s1 Hin1 Hco Hw1.
  apply HQ; [done|by eapply (active_same s)|by eapply plan_ready_only].
Qed.

Lemma safe_perform_plan p c s : inside (plan_holding nothing p) s → active s → plan_ready p s → operationPlan p = Some p →
  safely (Acquisition.perform_plan strategy options drivers leaseEnvironment generate defaultMs retry_config h p)
    (plan_holding nothing p) c s stepped.
Proof using Hret fresh_device fresh_lease.
  intros Hin Ha Hp Hop. destruct p; try done.
  - apply safe_then. pose proof Hp as (_ & _ & Hsv). eapply (safe_timing (RebootReady _ _)); [done..|].
    intros s1 Hin1 Ha1 Hp1. by apply safe_rebootReady.
  - apply safe_then. pose proof Hp as (_ & _ & _ & Hsv). eapply (safe_timing (BootShutdown _ _ _)); [done..|].
    intros s1 Hin1 Ha1 Hp1. by apply safe_bootShutdown.
  - apply safe_then, (safe_section active); auto. intros s1 Hin1 Ha1. apply sec_extra. intros _.
    destruct (active_spec _ _ Hin1 Ha1) as (spec & -> & Hsv).
    apply safe_then, (safe_timing (Provision _)); [done..|]. intros s2 Hin2 Ha2 _. by apply safe_provision_for.
  - eapply safe_evict; [done|done|apply sections_shutdown|]. intros s1 Hl1. apply safe_shutdown; [done|done|done].
  - eapply safe_evict; [done|done|apply sections_dispose|]. intros s1 Hl1. apply safe_dispose; [done|done|done].
Qed.

(** ** Driving a waiter *)

(** What a step leaves lasts, whatever the others and the bookkeeping of the drives do. *)
Definition left_by (next : NextStep) s : Prop :=
  match next with
  | Finished => at_rest s
  | DrivenElsewhere => True
  | NextPlan p => plan_ready p s ∧ active s ∧ operationPlan p = Some p
  | DriveAgain => active s
  end.
Definition left_holding (next : NextStep) : Holding :=
  match next with NextPlan p => plan_holding nothing p | _ => nothing end.
Lemma stepped_iff a o c s : stepped a o c s ↔ ∃ next, a = Ok next ∧ o = left_holding next ∧ inside o s ∧ left_by next s.
Proof.
  unfold stepped. split.
  - intros (Hin & next & -> & Hn). exists next. destruct next; cbn in *; intuition.
  - intros (next & -> & -> & Hin & Hn). split; [done|]. exists next. destruct next; cbn in *; intuition.
Qed.
Lemma lasting_left next : lasting (left_holding next) (left_by next).
Proof.
  destruct next as [| |p|]; [apply lasting_rest|done| |apply lasting_active].
  intros s s' Hin (Hp & Ha & Hop) Hr Hw.
  split; [by eapply (lasting_plan _ Hop)|]. split; [by eapply active_kept|done].
Qed.
Lemma left_by_quiet next s s' w : left_by next s → record_of s = Some w → quiet s s' → record_of s' = Some w → left_by next s'.
Proof.
  intros Hl Hw Hq Hw'.
  assert (active s → active s') as Ha. { intros Ha. pose proof Ha as (w0 & Hw0 & _ & Hg). rewrite Hw in Hw0.
    injection Hw0 as <-. by eapply (active_same s). }
  destruct next; cbn in *; auto; [by eapply rest_quiet|].
  destruct Hl as (Hp & Hac & Hop). split; [|auto]. eapply plan_ready_only; [done|by apply quiet_coordinator].
Qed.

(** One drive of a waiter at a time: [L] is what the body leaves, besides what is held for the next
    step. *)
Definition ended_with (L : NextStep → Shared → Prop) : Post NextStep := λ a o c s,
  ∃ next, a = Ok next ∧ o = left_holding next ∧ inside o s ∧ L next s.
Definition quiet_keeps (P : Shared → Prop) : Prop :=
  ∀ s s' w, P s → record_of s = Some w → quiet s s' → record_of s' = Some w → P s'.

Definition keeps_left (L : NextStep → Shared → Prop) : Prop :=
  ∀ next, lasting (left_holding next) (L next) ∧ quiet_keeps (L next).
Lemma safe_drive_ended L (body : flow_of NextStep) o c s : keeps_left L → safely body o c s (ended_with L) →
  safely (finally body (gate (Acquisition.end_drive h))) o c s (ended_with L).
Proof.
  intros HL Hbody. apply safe_finally. eapply safe_mono; [exact Hbody|].
  clear - HL. intros a o c s (next & -> & -> & Hin & Hl). destruct (HL next) as [Hlast Hkeep].
  apply (safe_section (L next)); auto. clear s Hin Hl. intros s Hin Hl. apply sec_get.
  destruct (inside_waiter _ _ _ _ Hin) as [w Hw].
  apply sec_bind, (sec_change _ _ _ _ _ w); [done|done|]. intros s2 Hin2 Hq Hw2.
  pose proof (Hkeep _ _ _ Hl Hw Hq Hw2) as Hl2.
  case_bool_decide; [|by apply sec_ret; intros _; exists next].
  apply sec_bind, (sec_change _ _ _ _ _ w); [done|done|]. intros s3 Hin3 Hq3 Hw3.
  apply (sec_wake _ _ _ _ w); [done|]. intros s4 Hin4 Hq4 Hw4. exists next. split_and!; try done.
  eapply Hkeep; [|exact Hw3|done|done]. by eapply Hkeep.
Qed.

Lemma safe_drive_alone L P (body : flow_of NextStep) c s : keeps_left L → (∀ s, L DrivenElsewhere s) →
  lasting nothing P → quiet_keeps P → inside nothing s → P s →
  (∀ c s, inside nothing s → P s → safely body nothing c s (ended_with L)) →
  safely (Acquisition.drive_alone h body) nothing c s (ended_with L).
Proof.
  intros HL HE HP HPq Hin Hs Hbody. apply safe_then, (safe_section P); auto. intros s1 Hin1 Hs1. apply sec_get.
  case_bool_decide.
  { apply sec_ret. intros _. by exists DrivenElsewhere. }
  destruct (inside_waiter _ _ _ _ Hin1) as [w Hw].
  apply sec_bind, (sec_change _ _ _ _ _ w); [done|done|]. intros s2 Hin2 Hq Hw2. apply sec_ret. intros _.
  apply safe_drive_ended; [done|]. apply Hbody; [done|by eapply HPq].
Qed.
Lemma left_by_kept : keeps_left left_by.
Proof. intros next. split; [apply lasting_left|]. intros s s' w. apply left_by_quiet. Qed.

Lemma quiet_active s s' w : active s → record_of s = Some w → quiet s s' → record_of s' = Some w → active s'.
Proof. intros. by eapply (left_by_quiet DriveAgain). Qed.

Lemma safe_decided c s : inside nothing s → active s → ∀ (f : NextStep → flow_of NextStep),
  (∀ next o c s, stepped (Ok next) o c s → safely (f next) o c s stepped) →
  safely (planned ← gate (Acquisition.decide strategy options drivers leaseEnvironment generate defaultMs h);
          f (Acquisition.step_of planned)) nothing c s stepped.
Proof using Hret fresh_lease.
  intros Hin Ha f Hf. apply safe_then, (safe_section active); auto. intros s1 Hin1 (w & Hw & Hl & _).
  eapply sec_mono; [by apply (sec_decided _ w c)|]. intros [planned|e] o' s' _ Hn; [|done]. by apply Hf.
Qed.

Lemma safe_carry_out n next o c s : stepped (Ok next) o c s →
  safely (Acquisition.carry_out strategy options drivers leaseEnvironment generate defaultMs retry_config n h next)
    o c s stepped.
Proof using Hret fresh_device fresh_lease.
  revert next o c s. induction n as [|n IH]; intros next o c s Hst; [done|].
  pose proof Hst as (next' & [= <-] & -> & Hin & Hl)%stepped_iff. destruct next as [| |p|]; try done.
  - destruct Hl as (Hp & Ha & Hop). apply safe_then. eapply safe_mono; [by apply safe_perform_plan|].
    intros a o' c' s' (next' & -> & Hn)%stepped_iff. apply IH, stepped_iff. eauto.
  - cbn in Hin, Hl. apply safe_then, (safe_section active); auto. intros s1 Hin1 Ha1.
    destruct (inside_waiter _ _ _ _ Hin1) as [w Hw].
    apply (sec_change _ _ _ _ _ w); [done|done|]. intros s2 Hin2 Hq2 Hw2.
    eapply safe_mono; [apply (safe_drive_ended left_by); [exact left_by_kept|]|intros; by apply stepped_iff].
    eapply safe_mono; [apply safe_decided; [done|by eapply quiet_active|done]|]. intros ? ? ? ? Hn%stepped_iff. exact Hn.
Qed.

(** ** Physical devices *)

(** What a plan for a physical request takes: a claim on a device of the registry, or nothing. *)
Lemma physical_takes st input : let '(st', p) := planPhysical st input in
  (∃ reason, p = blocked (ph_noWait input) reason ∧ st' = st)
  ∨ ∃ k d owner, p = GrantPhysical k d ∧ k_deviceId k = id (p_fields d) ∧ k_operation k = op_grant
      ∧ st_capacity st' = st_capacity st ∧ tryClaim (st_claims st) (id (p_fields d)) op_grant owner = Some (st_claims st', k).
Proof.
  unfold planPhysical. generalize false. induction (sn_devices _) as [|[v|p] l IH]; intros held; cbn; [left; eauto|apply IH|].
  destruct (_ !== _); [apply IH|]. destruct (Arr.includes _ _); [apply IH|]. destruct (negb _); [apply IH|].
  destruct (ph_heldByOlder _ _); [apply IH|]. destruct (tryClaim _ _ _ _) as [[t k]|] eqn:E; [|apply IH].
  right. exists k, p, (Some (ph_owner input)). pose proof E as (_ & -> & _)%tryClaim_Some. done.
Qed.

(** The waiter of a physical request, not granted. *)
Definition wants_physical s : Prop :=
  ∃ w, record_of s = Some w ∧ lineOf (w_request w) = line_physical ∧ w_state w ≠ w_granted.
Lemma lasting_wants o : lasting o wants_physical.
Proof.
  intros s s' _ (w & Hw & Hl & Hg) _ [Hk _ _]. destruct (Hk w Hw) as (w' & Hw' & (_ & Hq & _) & Hst). exists w'.
  split; [done|]. split; [by rewrite Hq|]. by destruct Hst as [->| ->].
Qed.
#[local] Hint Resolve lasting_wants : core.
Lemma wants_same s s' w w' : wants_physical s → record_of s = Some w → record_of s' = Some w' → same_waiter w w' →
  w_state w' ≠ w_granted → wants_physical s'.
Proof.
  intros (w0 & Hw0 & Hl & Hg) Hw Hw' (_ & Hq & _) Hst. rewrite Hw in Hw0. injection Hw0 as <-. exists w'.
  by rewrite Hq.
Qed.

Definition claiming k : Holding := MkHolding (Some k) None None None.

Lemma sec_decidePhysical absent s (Q : result DeviceError (option (DeviceOperationClaim * PhysicalDevice)) → Holding → Shared → Prop) :
  wants_physical s →
  (∀ s', inside nothing s' → at_rest s' → Q (Ok None) nothing s') →
  (∀ k d s', inside (claiming k) s' → wants_physical s' → k_deviceId k = id (p_fields d) →
     Q (Ok (Some (k, d))) (claiming k) s') →
  sec (Acquisition.decidePhysical drivers h absent) nothing s Q.
Proof.
  intros Hwant HN HS. pose proof Hwant as (w & Hw & Hl & Hg). apply sec_get, sec_bind, (sec_waiter _ _ _ _ w); [done|]. intros Hin.
  cbv beta iota zeta. destruct (negb _).
  { apply sec_bind, (sec_reject_waiter _ _ _ _ _ _ w); [done|]. intros s1 Hin1 _ Hw1. apply sec_ret. intros _.
    apply HN; [done|]. by eapply waiter_now_settled. }
  apply sec_bind. unfold Acquisition.on_planner.
  match goal with |- context [planPhysical _ ?i] => set (input := i) end.
  pose proof (physical_takes (MkPlannerState (sh_capacity s) (sh_claims s)) input) as Ht.
  destruct (planPhysical _ input) as [st p] eqn:Ep.
  destruct Ht as [(reason & -> & ->)|(k & d & owner & -> & Hkd & Hko & Hcap & Ht)].
  - apply sec_same; cbv beta; rewrite Ep; [by destruct s|]. intros _. cbn [snd].
    assert (∀ reason, sec (_ ← Acquisition.defer drivers h reason; mret None) nothing s Q) as Hd.
    { intros r'. apply sec_bind, (sec_defer _ _ _ _ _ w); [done|]. intros s1 Hin1 _ Hw1. apply sec_ret. intros _.
      apply HN; [done|]. by eapply waiter_now_rest. }
    unfold blocked. destruct (ph_noWait input); apply Hd.
  - cbn in Ht, Hcap. eapply (sec_step _ _ _ _ _ (claiming k)); cbv beta; rewrite Ep; cbn [fst snd].
    { rewrite Hcap. replace (s <| sh_capacity := sh_capacity s |>) with s by (by destruct s).
      apply (step_guar served h nothing s (Some k)); [|by split_and!].
      exact (guar_claimed _ _ _ _ _ _ (td_good _ _ _ (proj1 Hin)) Ht). }
    intros Hin1. set (s1 := s <| sh_capacity := st_capacity st |> <| sh_claims := st_claims st |>) in *.
    apply sec_bind, (sec_markProcessing _ _ _ _ w); [done|]. intros marked s2 Hin2 Hq2 Hw2. destruct marked.
    + apply sec_ret. intros _. apply HS; [done| |done]. destruct Hw2 as (w2 & Hw2 & Hsame & Hst).
      eapply (wants_same s); try done. by rewrite Hst.
    + apply sec_bind, (sec_drop _ _ k); [done|]. intros s3 Hin3 ->. apply sec_ret. intros _. apply HN; [done|].
      eapply at_rest_kept; [by eapply waiter_now_settled|by apply waiter_kept_same].
Qed.

Lemma sec_physical k d present s (Q : result DeviceError bool → Holding → Shared → Prop) :
  wants_physical s → k_deviceId k = id (p_fields d) →
  (∀ b s', inside nothing s' → (if b : bool then wants_physical s' else at_rest s') → Q (Ok b) nothing s') →
  sec (Acquisition.physical_section options drivers leaseEnvironment generate defaultMs h k d present) (claiming k) s Q.
Proof using Hret fresh_lease.
  intros Hwant Hkd HQ. eapply (sec_finally _ _ _ (modify (drop_claim k))); [reflexivity|].
  assert (∀ (b : bool) s1, inside (claiming k) s1 → (if b then wants_physical s1 else at_rest s1) →
    sec (modify (drop_claim k)) (claiming k) s1 (λ _ o' s', Q (Ok b) o' s')) as Hback.
  { intros b s1 Hin1 Hb. apply (sec_drop _ _ k); [done|]. intros s2 Hin2 ->. apply HQ; [done|].
    destruct b; [exact Hb|]. by eapply at_rest_kept; [|apply waiter_kept_same]. }
  pose proof Hwant as (w & Hw & Hl & Hg).
  apply sec_catch, sec_bind, (sec_markProcessing _ _ _ _ w); [done|]. intros marked s1 Hin1 Hq1 Hnow.
  destruct marked; cbn [negb]; [|by apply sec_ret; intros _; apply Hback; [|eapply waiter_now_settled]].
  destruct Hnow as (w1 & Hw1 & Hsame & Hst). assert (wants_physical s1) as Hwant1.
  { eapply (wants_same s); try done. by rewrite Hst. }
  apply sec_get. destruct (Arr.find _ _) as [x|] eqn:Ef; [|by apply sec_ret; intros _; apply Hback].
  destruct (negb present || negb (isActive (sh_claims s1) k) || (dev_state x !== ready)) eqn:Eb;
    [by apply sec_ret; intros _; apply Hback|].
  apply orb_false_iff in Eb as [_ Hx%negb_false_iff%bool_decide_eq_true].
  apply afind_Some in Ef as [Hxin Hxid%bool_decide_eq_true].
  apply sec_bind. eapply (sec_grant _ Hret _ _ _ _ _ fresh_lease x x _ _ _ w1); try done.
  - by rewrite Hst.
  - intros k' Hk' Hkd'. pose proof (own_claim _ _ (proj2 Hin1) k eq_refl) as Hk. unfold held in Hk, Hk'. cbn.
    rewrite Hkd', Hxid, <- Hkd, Hk in Hk'. done.
  - intros e Hin2. apply sec_bind, (sec_defer _ _ _ _ _ w1); [done|]. intros s2 Hin2' _ Hw2. apply sec_ret. intros _.
    apply Hback; [done|]. by eapply waiter_now_rest.
  - intros s2 Hin2 _ _ Hw2. apply sec_ret. intros _. apply Hback; [done|]. by eapply waiter_now_settled.
Qed.

(** Reading whether the device is there takes and changes nothing. *)
Lemma safe_presence d k c s (Q : Post bool) : inside (claiming k) s → wants_physical s →
  (∀ b c' s', inside (claiming k) s' → wants_physical s' → Q (Ok b) (claiming k) c' s') →
  safely (try_catch
    (_ ← get_driver hasDriver (ps_platform (p_spec d));
     reads ← PhysicalPresence.readPhysicalPresence (ps_platform (p_spec d)) [driverDeviceId (p_fields d)];
     mret (reads !! driverDeviceId (p_fields d) === Some true))
    (λ _, mret false)) (claiming k) c s Q.
Proof.
  intros Hin Hw HQ. apply safe_try, safe_then. unfold get_driver. destruct (hasDriver _); [|by apply HQ].
  apply safe_then, safe_then, safe_then, safe_call. intros s1 Hr1. destruct (Hr1 Hin) as (Hin1 & Hre & Hwk). split; [by intros i|].
  pose proof (lasting_wants _ _ _ Hin Hw Hre Hwk) as Hw1. clear s Hin Hw Hr1 Hre Hwk. intros [a|e]; [|by apply HQ].
  apply (safe_section wants_physical); auto. intros s2 Hin2 Hw2. apply sec_bind.
  apply (sec_step _ _ _ _ _ (claiming k)).
  { replace (claiming k) with ((claiming k) <| hd_claim := Some k |>) at 2 by done. apply step_guar; [|by split_and!].
    intros Hg Hk. destruct (guar_same (Some k) s2 Hg Hk) as (?&?&?&?&?&?&?&?&?). split_and!; try done. }
  intros Hin3. apply sec_ret. intros _. by apply HQ.
Qed.

Lemma safe_grantPhysical k d c s (Q : Post bool) : inside (claiming k) s → wants_physical s → k_deviceId k = id (p_fields d) →
  (∀ b c' s', inside nothing s' → (if b : bool then wants_physical s' else at_rest s') → Q (Ok b) nothing c' s') →
  safely (Acquisition.grantPhysical options drivers leaseEnvironment generate defaultMs h k d) (claiming k) c s Q.
Proof using Hret fresh_lease.
  intros Hin Hw Hkd HQ. apply safe_then, safe_presence; [done..|]. intros present c1 s1 Hin1 Hw1.
  apply safe_then, (safe_section wants_physical); auto. intros s2 Hin2 Hw2. apply sec_physical; [done..|].
  intros b s3 Hin3 Hb. apply safe_then. destruct b; [by apply HQ|]. apply safe_wake; [done..|]. intros. by apply HQ.
Qed.

Lemma safe_drivePhysical n absent c s (Q : Post bool) : inside nothing s → wants_physical s →
  (∀ (b : bool) c' s', inside nothing s' → (b = true → at_rest s') → Q (Ok b) nothing c' s') →
  safely (Acquisition.drivePhysical options drivers leaseEnvironment generate defaultMs n h absent) nothing c s Q.
Proof using Hret fresh_lease.
  intros Hin Hw HQ. revert absent c s Hin Hw. induction n as [|n IH]; intros absent c s Hin Hw; [by apply HQ|].
  cbn [Acquisition.drivePhysical]. apply safe_then, (safe_section wants_physical); auto.
  intros s1 Hin1 Hw1. apply sec_decidePhysical; [done|by intros; apply HQ|]. intros k d s2 Hin2 Hw2 Hkd.
  apply safe_then, safe_grantPhysical; [done..|]. intros b c' s3 Hin3 Hb. destruct b; [by apply IH|by apply HQ].
Qed.

(** A waiter as admission leaves it, and as a wake finds it. *)
Definition drivable s : Prop := ∃ w, record_of s = Some w ∧ w_state w ≠ w_granted.

(** What is left of a drive: the waiter at rest when it finished, and nothing held but what the next plan
    has taken. *)
Definition drive_left (next : NextStep) s : Prop :=
  match next with
  | Finished => at_rest s
  | NextPlan p => plan_ready p s ∧ operationPlan p = Some p
  | DrivenElsewhere | DriveAgain => True
  end.
Lemma drive_left_kept next : lasting (left_holding next) (drive_left next) ∧ quiet_keeps (drive_left next).
Proof.
  destruct next as [| |p|].
  - split; [apply lasting_rest|]. intros s s' w. apply rest_quiet.
  - done.
  - split.
    + intros s s' Hin [Hp Hop] Hr Hw. split; [by eapply (lasting_plan _ Hop)|done].
    + intros s s' w [Hp Hop] _ Hq _. split; [|done]. eapply plan_ready_only; [done|by apply quiet_coordinator].
  - done.
Qed.

Lemma safe_drive_waiter n c s : inside nothing s → drivable s →
  safely (Acquisition.drive strategy options drivers leaseEnvironment generate defaultMs retry_config n h)
    nothing c s (ended_with drive_left).
Proof using Hret fresh_device fresh_lease.
  intros Hin Hd.
  assert (lasting nothing drivable) as Hlast.
  { intros s1 s2 _ (w & Hw & Hg) _ [Hk _ _]. destruct (Hk w Hw) as (w' & Hw' & _ & Hst). exists w'. split; [done|].
    by destruct Hst as [->| ->]. }
  assert (quiet_keeps drivable) as Hquiet.
  { intros s1 s2 w (w0 & Hw0 & Hg) Hw _ Hw2. rewrite Hw in Hw0. injection Hw0 as <-. by exists w. }
  apply (safe_drive_alone drive_left drivable); try done.
  - exact drive_left_kept.
  - clear s Hin Hd c. intros c s Hin Hd. apply safe_then, (safe_section drivable); auto. intros s1 Hin1 (w & Hw & Hg).
    apply (sec_waiter _ _ _ _ w); [done|]. intros _. destruct (rq_physical (w_request w) === Some true) eqn:El.
    + apply safe_then, safe_drivePhysical; [done| |].
      { exists w. split; [done|]. split; [|done]. unfold lineOf. by rewrite El. }
      intros b c' s' Hin' Hb. destruct b; [|by exists DriveAgain].
      exists Finished. split_and!; try done. by apply Hb.
    + eapply safe_mono; [apply safe_decided; [done| |]|].
      * exists w. split; [done|]. split; [|done]. unfold lineOf. by rewrite El.
      * intros next o' c' s'. apply safe_carry_out.
      * intros a o' c' s' (next & -> & -> & Hin' & Hl)%stepped_iff. exists next. split_and!; try done.
        destruct next; cbn in *; try done. by destruct Hl as (? & _ & ?).
Qed.
End drives.
