(* ===== verification/Together.v ===== *)
(** * Drives of the acquisition coordinator run together

    Any number of drives, each for a waiter of its own, with their sections and driver calls
    interleaved in any order, while the clock runs and waiters are rejected elsewhere. The rely of
    each drive is what the guarantee of every other one gives, so the promises of [Drives] hold of
    the whole; and no two drives ever work on the same device. *)
From stdpp Require Import base strings list option numbers gmap pretty relations.
From S2P Require Import Prelude JsString OsRange WaitQueue RequestBook Lifecycle AcquisitionState Domain RequestStore Capacity Claims Planner Registry RegistryInv Resolve Flow Devices Effects Quarantine Provision Acquisition Ownership Drives.

(** ** What all the drives own *)

Definition all_of {A} (f : Holding → list A) (os : list Holding) : list A := os ≫= f.

Lemma all_of_at {A} (f : Holding → list A) os (i : nat) o : os !! i = Some o →
  ∃ rest, all_of f os ≡ₚ f o ++ rest ∧ ∀ o', all_of f (<[i := o']> os) ≡ₚ f o' ++ rest.
Proof.
  intros Hi. exists (all_of f (take i os) ++ all_of f (drop (S i) os)).
  assert (∀ l1 l2 x, all_of f (l1 ++ x :: l2) ≡ₚ f x ++ all_of f l1 ++ all_of f l2) as Hsplit.
  { intros l1 l2 x. unfold all_of. rewrite bind_app, bind_cons. solve_Permutation. }
  split.
  - rewrite <- (take_drop_middle os i o Hi) at 1. apply Hsplit.
  - intros o'. rewrite insert_take_drop by (by eapply lookup_lt_Some). apply Hsplit.
Qed.
Lemma all_of_elem {A} (f : Holding → list A) os o : o ∈ os → f o ⊆+ all_of f os.
Proof.
  intros [i Hi]%list_elem_of_lookup. destruct (all_of_at f os i o Hi) as (rest & -> & _). by apply submseteq_inserts_r.
Qed.
Lemma all_of_nothing {A} (f : Holding → list A) os : f nothing = [] → (∀ o, o ∈ os → o = nothing) → all_of f os = [].
Proof.
  intros Hf Ho. unfold all_of. induction os as [|o os IH]; [done|]. rewrite bind_cons, (Ho o) by (by left). rewrite Hf.
  apply IH. intros o' Ho'. apply Ho. by right.
Qed.
Lemma all_of_two {A} (f : Holding → list A) os (i j : nat) oi oj : i ≠ j → os !! i = Some oi → os !! j = Some oj →
  f oi ++ f oj ⊆+ all_of f os.
Proof.
  intros Hne Hi Hj.
  assert (os ≡ₚ oi :: delete i os) as Hp by (by apply delete_Permutation).
  assert (oj ∈ delete i os) as Hin.
  { apply list_elem_of_lookup. destruct (decide (j < i)) as [Hlt|Hge].
    - exists j. by rewrite list_lookup_delete_lt.
    - exists (j - 1). rewrite list_lookup_delete_ge by lia. by replace (S (j - 1)) with j by lia. }
  unfold all_of. rewrite Hp. cbn. apply submseteq_app; [done|]. by apply all_of_elem.
Qed.

Lemma others_trans served h o s1 s2 s3 : others_do served h o s1 s2 → others_do served h o s2 s3 → others_do served h o s1 s3.
Proof.
  intros H1 H2 Hin. destruct (H1 Hin) as (Hin2 & Hr1 & Hw1). destruct (H2 Hin2) as (Hin3 & Hr2 & Hw2).
  split; [done|]. split; [by eapply rely_trans|by eapply waiter_kept_trans].
Qed.

Section together.
(** The state the drives begin in is [s0]. *)
Context (served : Platform → Prop) (hs : list nat) (Hhs : NoDup hs) (s0 : Shared).
Local Abbreviation component_of := (λ o, option_list (hd_component o)).
Local Abbreviation version_of := (λ o, option_list (hd_version o)).
Implicit Types (s : Shared) (o : Holding) (os : list Holding) (i j h : nat).

(** The rest of the daemon beside the drives: time passes, and the coordinator's state changes so
    that a driven waiter is at most rejected. *)
Definition elsewhere s s' : Prop := ∃ t a,
  (sh_now s ≤ t)%Z ∧ s' = s <| sh_now := t |> <| sh_acquiring := a |>
  ∧ (aq_stopPlanning (sh_acquiring s) = true → aq_stopPlanning a = true)
  ∧ ∀ h, h ∈ hs → aq_waiters a !! h = aq_waiters (sh_acquiring s) !! h
      ∧ ∀ w, store (queue_of s) !! h = Some w → ∃ w', store (aq_queue a) !! h = Some w' ∧ same_waiter w w'
          ∧ (w_state w' = w_state w ∨ w_state w' = w_rejected).
(** No lease takes the id another waiter was given. *)
Definition lease_ids_free s : Prop := ∀ h, h ∈ hs → lease_id_free h s.

Definition rely_at i o s s' : Prop := ∀ h, hs !! i = Some h → others_do served h o s s'.
Definition guar_at i o s o' s' : Prop := ∀ h, hs !! i = Some h → step served h o s o' s'.

Record joint os s : Prop := {
  jt_length : length os = length hs;
  jt_inside i h o : hs !! i = Some h → os !! i = Some o → inside served h o s;
  jt_claims i j oi oj k : i ≠ j → os !! i = Some oi → os !! j = Some oj → hd_claim oi = Some k → hd_claim oj ≠ Some k;
  jt_reservations i j oi oj r1 r2 : i ≠ j → os !! i = Some oi → os !! j = Some oj →
    hd_reservation oi = Some r1 → hd_reservation oj = Some r2 → entries_of r1 ## entries_of r2;
  jt_foreign o k : o ∈ os → hd_claim o = Some k → ¬ held (sh_claims s0) k;
  jt_first k : held (sh_claims s0) k → held (sh_claims s) k;
  jt_held k : held (sh_claims s) k → held (sh_claims s0) k ∨ ∃ o, o ∈ os ∧ hd_claim o = Some k;
  jt_booked : booked (sh_capacity s) ≡ₚ all_of owned_entries os ++ booked (sh_capacity s0);
  jt_components : sh_provisioning s ≡ₚ all_of component_of os ++ sh_provisioning s0;
  jt_versions : sh_holds s ≡ₚ all_of version_of os ++ sh_holds s0 }.

Lemma joint_apart os s i j oi oj : joint os s → i ≠ j → os !! i = Some oi → os !! j = Some oj → apart oi oj s.
Proof.
  intros [_ _ Hk Hr _ _ _ Hb Hc Hv] Hne Hi Hj. split; [by eauto..| | |].
  - rewrite Hb. apply submseteq_inserts_r. by eapply all_of_two.
  - rewrite Hc. apply submseteq_inserts_r. by eapply (all_of_two component_of).
  - rewrite Hv. apply submseteq_inserts_r. by eapply (all_of_two version_of).
Qed.

(** What all own of a count, after the section of one. *)
Lemma count_step {A} (f : Holding → list A) os i o o' (l l' rest : list A) : os !! i = Some o →
  l ≡ₚ all_of f os ++ rest → (∃ l0, l ≡ₚ f o ++ l0 ∧ l' ≡ₚ f o' ++ l0) →
  l' ≡ₚ all_of f (<[i := o']> os) ++ rest.
Proof.
  intros Hi Hl (l0 & H1 & H2). destruct (all_of_at f os i o Hi) as (more & Hm & Hm').
  rewrite H2, (Hm' o'), <- (assoc (++)). f_equiv. apply (inj (app (f o))).
  by rewrite <- H1, Hl, Hm, <- (assoc (++)).
Qed.

Lemma joint_step os s i o o' s' : joint os s → os !! i = Some o → guar_at i o s o' s' → lease_ids_free s' →
  joint (<[i := o']> os) s' ∧ ∀ j o2, j ≠ i → os !! j = Some o2 → rely_at j o2 s s'.
Proof using Hhs.
  intros HJ Hi Hg Hfree. pose proof HJ as [Hlen Hin Hk Hr Hf H0 Hh0 Hb Hc Hv].
  destruct (lookup_lt_is_Some_2 hs i) as [h Hh]; [rewrite <- Hlen; by eapply lookup_lt_Some|].
  pose proof (Hin i h o Hh Hi) as Hin1. destruct (Hg h Hh Hin1) as [Hin' Sd].
  assert (∀ j o2, j ≠ i → os !! j = Some o2 → rely_at j o2 s s') as Hrely.
  { intros j o2 Hne Hj h2 Hh2. apply (others_of_step served h h2 o o'); [|done|by apply Hg|by apply (joint_apart os s i j)|].
    - intros <-. apply Hne. by eapply NoDup_lookup.
    - apply Hfree. by eapply list_elem_of_lookup_2. }
  split; [|done].
  assert (∀ j o2, j ≠ i → os !! j = Some o2 → apart o' o2 s') as Hap.
  { intros j o2 Hne Hj. destruct (lookup_lt_is_Some_2 hs j) as [h2 Hh2]; [rewrite <- Hlen; by eapply lookup_lt_Some|].
    eapply (apart_after served h h2 o); [done|by apply (Hin j)|by apply (joint_apart os s i j)]. }
  assert (∀ j oj, <[i := o']> os !! j = Some oj → (j = i ∧ oj = o') ∨ (j ≠ i ∧ os !! j = Some oj)) as Hat.
  { intros j oj. destruct (decide (j = i)) as [->|Hne]; [|by rewrite list_lookup_insert_ne; auto].
    rewrite list_lookup_insert_eq by (by eapply lookup_lt_Some). intros [= <-]. by left. }
  split.
  - by rewrite length_insert.
  - intros j h2 oj Hj [[-> ->]|[Hne Hoj]]%Hat; [congruence|]. by apply (Hrely j oj Hne Hoj h2 Hj), Hin with j.
  - intros j j' oj oj' k Hne [[-> ->]|[H1 H2]]%Hat [[-> ->]|[H3 H4]]%Hat; [done|..|by apply (Hk j j' oj oj' k)].
    + by apply (ap_claim _ _ _ (Hap j' oj' H3 H4)).
    + intros Hkj Hk'. by apply (ap_claim _ _ _ (Hap j oj H1 H2) k).
  - intros j j' oj oj' r1 r2 Hne [[-> ->]|[H1 H2]]%Hat [[-> ->]|[H3 H4]]%Hat; [done|..|by apply (Hr j j' oj oj' r1 r2)].
    + by apply (ap_reservation _ _ _ (Hap j' oj' H3 H4)).
    + intros Hr1 Hr2 e He1 He2. by apply (ap_reservation _ _ _ (Hap j oj H1 H2) r2 r1 Hr2 Hr1 e).
  - intros oj k [j Hj]%list_elem_of_lookup Hkj. apply Hat in Hj as [[-> ->]|[Hne Hoj]]; [|by eapply Hf; [by eapply list_elem_of_lookup_2|]].
    destruct (sd_claim_new _ _ _ _ _ Sd k Hkj) as [Hko|Hge]; [by eapply Hf; [by eapply list_elem_of_lookup_2|]|]. intros Hk0%H0.
    apply (co_held _ (proj2 (td_good _ _ _ (proj1 Hin1)))) in Hk0 as (_ & Hlt & _). lia.
  - intros k Hk0. apply (sd_others _ _ _ _ _ Sd k); [by apply H0|]. intros Hko. by apply (Hf o k); [eapply list_elem_of_lookup_2|..].
  - intros k Hks. destruct (sd_held _ _ _ _ _ Sd k Hks) as [Hk1|Hko].
    + destruct (Hh0 k Hk1) as [|(oj & [j Hj]%list_elem_of_lookup & Hkj)]; [by left|]. right. destruct (decide (j = i)) as [->|Hne].
      * exists o'. split; [apply list_elem_of_lookup_2 with i; rewrite list_lookup_insert_eq; [done|by eapply lookup_lt_Some]|].
        rewrite Hi in Hj. injection Hj as <-. destruct (sd_claim_old _ _ _ _ _ Sd k Hkj) as [|Hrel]; [done|exfalso].
        by destruct (co_held _ (proj2 (td_good _ _ _ (proj1 Hin'))) _ _ Hks) as (_ & _ & []).
      * exists oj. split; [|done]. apply list_elem_of_lookup_2 with j. by rewrite list_lookup_insert_ne.
    + right. exists o'. split; [|done]. apply list_elem_of_lookup_2 with i. rewrite list_lookup_insert_eq; [done|by eapply lookup_lt_Some].
  - eapply count_step; [done..|]. apply (sd_booked _ _ _ _ _ Sd).
  - eapply (count_step component_of); [done..|]. apply (sd_component _ _ _ _ _ Sd).
  - eapply (count_step version_of); [done..|]. apply (sd_version _ _ _ _ _ Sd).
Qed.

Lemma elsewhere_others h o s s' : h ∈ hs → elsewhere s s' → lease_id_free h s' → others_do served h o s s'.
Proof.
  intros Hh (t & a & Ht & -> & Hstop & Hkeep) Hfree [[Hg He Hb Hsp Hrq (w & Hw & Hl & Hid)] [Hk Hr Hbk Hc Hv]].
  destruct (Hkeep h Hh) as [Hext Hrec]. destruct (Hrec w Hw) as (w' & Hw' & (Hi & Hq & Ho) & Hst).
  assert (extra_of h (s <| sh_now := t |> <| sh_acquiring := a |>) = extra_of h s) as Hx
    by (unfold extra_of; cbn; by rewrite Hext).
  assert (good (s <| sh_now := t |> <| sh_acquiring := a |>)) as Hg'.
  { split; [|apply Hg]. eapply registry_ok_later; [exact Ht|apply Hg]. }
  split; [split; split; try done; rewrite ?Hx; try done|split].
  - exists w'. split; [done|]. split; [by rewrite Hq|]. intros Hnt l Hlid. by apply (Hfree w' l).
  - intros _. split; [done|]. split; [done|]. split; [apply claims_grow_refl|]. intros k _ Hheld. split; [done|].
    intros _ x Hx' _ _ Hu. exists x. split; [done|]. split; [apply same_device_refl|done].
  - split; [|by rewrite Hx|done]. intros w0 Hw0. destruct (Hrec w0 Hw0) as (w1 & ? & ? & ?). by exists w1.
Qed.

Lemma joint_elsewhere os s s' : joint os s → elsewhere s s' → lease_ids_free s' →
  joint os s' ∧ ∀ i o, os !! i = Some o → rely_at i o s s'.
Proof.
  intros HJ He Hfree.
  assert (∀ i o, os !! i = Some o → rely_at i o s s') as Hrely.
  { intros i o Hi h Hh. apply list_elem_of_lookup_2 in Hh. by apply elsewhere_others; [|..|apply Hfree]. }
  split; [|done]. destruct HJ as [Hlen Hin Hk Hr Hf H0 Hh0 Hb Hc Hv]. pose proof He as (t & a & _ & -> & _).
  split; try done. intros i h o Hh Ho. by apply (Hrely i o Ho h Hh), Hin with i.
Qed.
End together.

(** ** The drives *)

Section drives.
Context `{LocaleCompare} {S : Type} `{CapacityStrategy S} (strategy : S) (options : RegistryOptions)
  (Hret : retention_ok options) {Host : Type} (drivers : Platform → option (Driver (Host := Host)))
  (leaseEnvironment : Platform → DriverDevice → list (string * string))
  (generate : Shared → string) (defaultMs : Z) (retry_config : QuarantineRetryConfig).
Context (fresh_device : ∀ s, "dev_" +:+ generate s ∉ dev_id <$> devices (sh_registry s))
  (fresh_lease : ∀ s, "lse_" +:+ generate s ∉ l_id <$> leases (sh_registry s)).
Local Abbreviation served := (λ p, is_Some (drivers p)).
Local Abbreviation drive :=
  (Acquisition.drive strategy options drivers leaseEnvironment generate defaultMs retry_config).
Implicit Types (s : Shared) (hs : list nat).

Definition drive_outcome hs (i : nat) (a : result DeviceError NextStep) (o : Holding)
    (c : list (DriverCall * result DeviceError DriverAnswer)) s : Prop :=
  ∀ h, hs !! i = Some h → ended_with drivers h (drive_left drivers h) a o c s.

Definition driven hs fs s : Prop := pool_ok (rely_at served hs) (guar_at served hs) (λ _, may_do) (drive_outcome hs)
    (joint served hs s) fs s.

Lemma safe_at hs i h (f : flow Shared DriverCall DriverAnswer DeviceError NextStep) o c s Q : NoDup hs → hs !! i = Some h →
  safe (others_do served h) (step served h) may_do f o c s Q →
  safe (rely_at served hs i) (guar_at served hs i) may_do f o c s Q.
Proof.
  intros Hhs Hi. revert o c s. induction f as [a|sec next IH|call next IH]; intros o c s Hs; cbn in *; [done|..].
  - intros s' Hr. destruct (Hs s' (Hr h Hi)) as (o' & Hg & Hn). exists o'. split; [|by apply IH].
    intros h' Hh'. rewrite Hi in Hh'. by injection Hh' as <-.
  - intros s' Hr. destruct (Hs s' (Hr h Hi)) as [Hm Hn]. split; [done|]. intros a. by apply IH.
Qed.

Lemma drives_start n hs s : NoDup hs → (∀ h, h ∈ hs → inside served h nothing s ∧ drivable h s) →
  driven hs (drive n <$> hs) s.
Proof using Hret fresh_device fresh_lease.
  intros Hhs Hstart. exists (replicate (length hs) nothing).
  assert (∀ i o, replicate (length hs) nothing !! i = Some o → o = nothing) as Hnone.
  { intros i o Ho. by apply lookup_replicate in Ho as [-> _]. }
  assert (∀ A (f : Holding → list A), f nothing = [] → all_of f (replicate (length hs) nothing) = []) as Hall.
  { intros A f Hf. apply all_of_nothing; [done|]. by intros o [i Hi%Hnone]%list_elem_of_lookup. }
  split.
  - split.
    + by rewrite length_replicate.
    + intros i h o Hh ->%Hnone. apply Hstart. by eapply list_elem_of_lookup_2.
    + by intros i j oi oj k _ ->%Hnone ->%Hnone.
    + by intros i j oi oj r1 r2 _ ->%Hnone ->%Hnone.
    + by intros o k [i ->%Hnone]%list_elem_of_lookup.
    + done.
    + by left.
    + by rewrite Hall.
    + by rewrite Hall.
    + by rewrite Hall.
  - intros i f Hf. rewrite list_lookup_fmap in Hf. destruct (hs !! i) as [h|] eqn:Hi; [|done]. injection Hf as <-.
    exists nothing, []. split; [apply lookup_replicate; split; [done|by eapply lookup_lt_Some]|].
    apply thread_ok_safe; [by intros ? ? ? h' _; apply others_refl|].
    destruct (Hstart h) as [Hin Hd]; [by eapply list_elem_of_lookup_2|].
    apply (safe_at hs i h); [done..|]. eapply safe_mono; [by apply safe_drive_waiter|]. intros a o c s' Hend h' Hh'.
    rewrite Hi in Hh'. by injection Hh' as <-.
Qed.

Lemma drives_run n hs s fs s' : NoDup hs → (∀ h, h ∈ hs → inside served h nothing s ∧ drivable h s) →
  rtc (pool_step (elsewhere hs) (lease_ids_free hs)) (drive n <$> hs, s) (fs, s') →
  pool_ok (rely_at served hs) (guar_at served hs) (λ _, may_do) (drive_outcome hs)
    (joint served hs s) fs s'.
Proof using Hret fresh_device fresh_lease.
  intros Hhs Hstart Hrun. eapply pool_steps_ok; [..|by apply drives_start|exact Hrun].
  - intros i o s1 h _. apply others_refl.
  - intros i o s1 s2 s3 H1 H2 h Hh. eapply others_trans; [by apply H1|by apply H2].
  - intros os s1 i o o' s2 HJ Ho Hg Hf. by eapply joint_step.
  - intros os s1 s2 HJ He Hf. by eapply joint_elsewhere.
Qed.

(** C9. Any number of drives of different waiters, their sections and driver calls interleaved in any
    order, the drivers answering anything, while the clock runs, waiters are rejected elsewhere and no
    lease takes the id a waiter in line was promised: two driver calls outstanding at once are never for
    the same device, and a device with a call outstanding is not leased, unless the call recovers a
    leased device; a drive never throws, and one that finished has left its waiter granted, rejected or
    in line, or found that planning has stopped; and once all have finished, the claims on components
    and the holds on baseline versions are those there were before. *)
Theorem drives_keep_apart n hs s fs s' : NoDup hs → (∀ h, h ∈ hs → inside served h nothing s ∧ drivable h s) →
  rtc (pool_step (elsewhere hs) (lease_ids_free hs)) (drive n <$> hs, s) (fs, s') →
  (∀ i j ci cj ki kj x, i ≠ j → fs !! i = Some (Call ci ki) → fs !! j = Some (Call cj kj) →
     call_device ci = Some x → call_device cj ≠ Some x)
  ∧ (∀ i c k x, fs !! i = Some (Call c k) → call_device c = Some x →
       (∃ d m, c = CallMakeReady d purpose_recover m None) ∨ unleased (sh_registry s') x = true)
  ∧ (∀ i h a, hs !! i = Some h → fs !! i = Some (Done a) →
       ∃ next, a = Ok next ∧ (next = Finished → at_rest h s'))
  ∧ ((∀ f, f ∈ fs → f = Done (Ok Finished)) → length fs = length hs →
       sh_provisioning s' ≡ₚ sh_provisioning s ∧ sh_holds s' ≡ₚ sh_holds s).
Proof using Hret fresh_device fresh_lease.
  intros Hhs Hstart Hrun. pose proof (drives_run n hs s fs s' Hhs Hstart Hrun) as (os & HJ & Hfs).
  assert (∀ i c k x, fs !! i = Some (Call c k) → call_device c = Some x → ∃ o q, os !! i = Some o ∧ hd_claim o = Some q
    ∧ held (sh_claims s') q ∧ k_deviceId q = x
    ∧ ((∃ d m, c = CallMakeReady d purpose_recover m None) ∨ unleased (sh_registry s') x = true)) as Hcall.
  { intros i c k x Hi Hx. destruct (Hfs i _ Hi) as (o & hist & Ho & Hsafe).
    destruct (Hsafe s') as [Hm _]; [by intros h _; apply others_refl|].
    destruct (Hm x Hx) as (q & Hq & Hh & Hid & Hrec & Hun). exists o, q. split_and!; try done.
    destruct (decide (k_operation q = op_recovery)); auto. }
  split_and!.
  - intros i j ci cj ki kj x Hne Hi Hj Hx Hx'.
    destruct (Hcall i ci ki x Hi Hx) as (oi & qi & Hoi & Hqi & Hhi & Hdi & _).
    destruct (Hcall j cj kj x Hj Hx') as (oj & qj & Hoj & Hqj & Hhj & Hdj & _).
    apply (jt_claims _ _ _ _ _ HJ i j oi oj qi Hne Hoi Hoj Hqi). unfold held in *. congruence.
  - intros i c k x Hi Hx. by destruct (Hcall i c k x Hi Hx) as (o & q & _ & _ & _ & _ & ?).
  - intros i h a Hh Hi. destruct (Hfs i _ Hi) as (o & hist & Ho & s0 & HQ & Hr).
    destruct (HQ h Hh) as (next & -> & -> & Hin & Hl). exists next. split; [done|]. intros ->.
    destruct (Hr h Hh Hin) as (_ & _ & Hw). by eapply at_rest_kept.
  - intros Hall Hlen.
    assert (∀ A (f : Holding → list A), f nothing = [] → all_of f os = []) as Hnone.
    { intros A f Hf. apply all_of_nothing; [done|]. intros o [i Hi]%list_elem_of_lookup.
      destruct (lookup_lt_is_Some_2 fs i) as [g Hg].
      { rewrite Hlen, <- (jt_length _ _ _ _ _ HJ). by eapply lookup_lt_Some. }
      destruct (lookup_lt_is_Some_2 hs i) as [h Hh]; [rewrite <- Hlen; by eapply lookup_lt_Some|].
      destruct (Hfs i g Hg) as (o' & hist & Ho' & Hok). rewrite (Hall g) in Hok by (by eapply list_elem_of_lookup_2).
      destruct Hok as (s0 & HQ & _). destruct (HQ h Hh) as (next & [= <-] & -> & _).
      rewrite Hi in Ho'. by injection Ho' as ->. }
    rewrite (jt_components _ _ _ _ _ HJ), (jt_versions _ _ _ _ _ HJ), !Hnone by done. done.
Qed.

(** What a drive holds by how far it has come: one that ended what it was left with, none having thrown,
    and one with a call at a driver a claim on the device the call is for. *)
Definition holds_now (f : flow Shared DriverCall DriverAnswer DeviceError NextStep) (o : Holding) : Prop :=
  match f with
  | Done (Ok next) => o = left_holding next
  | Done (Err _) => False
  | Call c _ => ∀ x, call_device c = Some x → ∃ k, hd_claim o = Some k ∧ k_deviceId k = x
  | Gate _ _ => True
  end.
Lemma pool_length n hs s fs s' :
  rtc (pool_step (elsewhere hs) (lease_ids_free hs)) (drive n <$> hs, s) (fs, s') → length fs = length hs.
Proof.
  intros Hrun. rewrite <- (length_fmap (drive n) hs). remember (drive n <$> hs, s) as x eqn:Ex. remember (fs, s') as y eqn:Ey.
  assert (length y.1 = length x.1) as Hl; [|by subst]. clear Ex Ey. induction Hrun as [|x y z Hst _ IH]; [done|]. rewrite IH.
  destruct Hst; cbn; by rewrite ?length_insert.
Qed.
Lemma drives_held n hs s fs s' : NoDup hs → (∀ h, h ∈ hs → inside served h nothing s ∧ drivable h s) →
  rtc (pool_step (elsewhere hs) (lease_ids_free hs)) (drive n <$> hs, s) (fs, s') →
  ∃ os, Forall2 holds_now fs os ∧ joint served hs s os s'.
Proof using Hret fresh_device fresh_lease.
  intros Hhs Hstart Hrun. pose proof (pool_length _ _ _ _ _ Hrun) as Hlen.
  destruct (drives_run n hs s fs s' Hhs Hstart Hrun) as (os & HJ & Hfs). exists os. split; [|done].
  apply Forall2_same_length_lookup. split; [by rewrite Hlen, (jt_length _ _ _ _ _ HJ)|]. intros i f o Hf Ho.
  destruct (Hfs i f Hf) as (o' & hist & Ho' & Hok). rewrite Ho in Ho'. injection Ho' as <-. destruct f as [a|sec next|c next]; cbn; [|done|].
  - destruct Hok as (s1 & HQ & _). destruct (lookup_lt_is_Some_2 hs i) as [h Hh]; [rewrite <- Hlen; by eapply lookup_lt_Some|].
    by destruct (HQ h Hh) as (next & -> & -> & _).
  - intros x Hx. destruct (Hok s') as [Hm _]; [by intros h _; apply others_refl|]. destruct (Hm x Hx) as (q & Hq & _ & Hid & _). by exists q.
Qed.

(** C10. Drives give back what they take. Any number of drives of different waiters, their sections and
    driver calls interleaved in any order, the drivers answering anything, while the clock runs, waiters
    are rejected elsewhere and no lease takes the id a waiter in line was promised: at any moment the
    device claims that are active are those that were before the drives and at most one for each drive, the entries in the capacity coordinator's lists are those there were before
    and those of at most one reservation for each drive, and in the same way the claims on components and
    the holds on baseline versions; a drive that finished, or that another drive of its waiter precludes,
    has none of these, one cut short after some steps has the claim and reservation of the next plan and
    nothing else, and one with a call at a driver has a claim on the device the call is for. So once all
    have finished, claims, reservations, components and versions are those there were before. *)
Theorem drives_give_back n hs s fs s' : NoDup hs → (∀ h, h ∈ hs → inside served h nothing s ∧ drivable h s) →
  rtc (pool_step (elsewhere hs) (lease_ids_free hs)) (drive n <$> hs, s) (fs, s') →
  (∃ os, Forall2 holds_now fs os
    ∧ (∀ k, held (sh_claims s') k ↔ held (sh_claims s) k ∨ Some k ∈ (hd_claim <$> os))
    ∧ booked (sh_capacity s') ≡ₚ (os ≫= owned_entries) ++ booked (sh_capacity s)
    ∧ sh_provisioning s' ≡ₚ (os ≫= λ o, option_list (hd_component o)) ++ sh_provisioning s
    ∧ sh_holds s' ≡ₚ (os ≫= λ o, option_list (hd_version o)) ++ sh_holds s)
  ∧ ((∀ f, f ∈ fs → f = Done (Ok Finished)) →
     (∀ k, held (sh_claims s') k ↔ held (sh_claims s) k)
     ∧ booked (sh_capacity s') ≡ₚ booked (sh_capacity s)
     ∧ sh_provisioning s' ≡ₚ sh_provisioning s ∧ sh_holds s' ≡ₚ sh_holds s).
Proof using Hret fresh_device fresh_lease.
  intros Hhs Hstart Hrun. destruct (drives_held n hs s fs s' Hhs Hstart Hrun) as (os & Hfs & HJ).
  assert (∀ k, held (sh_claims s') k ↔ held (sh_claims s) k ∨ Some k ∈ (hd_claim <$> os)) as Hclaims.
  { intros k. rewrite list_elem_of_fmap. split.
    - intros [|(o & Ho & Hk)]%(jt_held _ _ _ _ _ HJ); [by left|]. right. by exists o.
    - intros [Hk|(o & Hk & [i Ho]%list_elem_of_lookup)]; [by apply (jt_first _ _ _ _ _ HJ)|].
      destruct (lookup_lt_is_Some_2 hs i) as [h Hh]; [rewrite <- (jt_length _ _ _ _ _ HJ); by eapply lookup_lt_Some|].
      apply (own_claim _ _ (proj2 (jt_inside _ _ _ _ _ HJ i h o Hh Ho)) k). by symmetry. }
  split; [exists os; split_and!; [done|done|apply HJ..]|]. intros Hall.
  assert (∀ o, o ∈ os → o = nothing) as Hno.
  { intros o [i Ho]%list_elem_of_lookup. destruct (Forall2_lookup_r _ _ _ _ _ Hfs Ho) as (f & Hf & Hn).
    by rewrite (Hall f) in Hn by (by eapply list_elem_of_lookup_2). }
  split_and!.
  - intros k. rewrite Hclaims. split; [|by left]. intros [|(o & Hk & ->%Hno)%list_elem_of_fmap]; done.
  - by rewrite (jt_booked _ _ _ _ _ HJ), all_of_nothing.
  - by rewrite (jt_components _ _ _ _ _ HJ), all_of_nothing.
  - by rewrite (jt_versions _ _ _ _ _ HJ), all_of_nothing.
Qed.
End drives.

(** ** The mark of a drive begun again *)

(** A drive that begins again after a failure has a [finally] inside the [finally] of the drive it
    began in. A third drive, begun between the two, loses its mark to the outer one, so that a
    fourth can begin while it runs. *)
Example outer_end_unmarks (h : nat) s : h ∉ aq_planAgain (sh_acquiring s) →
  ∃ s1 s2, Acquisition.begin_drive h (Acquisition.end_drive h s).1 = (s1, Ok false)
    ∧ Acquisition.begin_drive h (Acquisition.end_drive h s1).1 = (s2, Ok false).
Proof.
  intros Hp. unfold Acquisition.end_drive, Acquisition.begin_drive, Acquisition.change, get, modify, mret, action_ret,
    mbind, action_bind. cbv beta iota.
  rewrite (bool_decide_eq_false_2 (h ∈ aq_planAgain (sh_acquiring s))) by done. cbn.
  rewrite bool_decide_eq_false_2 by set_solver. eexists _, _. split; [reflexivity|]. cbn.
  rewrite (bool_decide_eq_false_2 (h ∈ aq_planAgain (sh_acquiring s))) by done. cbn.
  rewrite bool_decide_eq_false_2 by set_solver. reflexivity.
Qed.

(** ** Two requests for the device that is ready *)

(** An id longer than any there is. *)
Definition long_id (s : Shared) : string :=
  String.concat "" ((dev_id <$> devices (sh_registry s)) ++ (l_id <$> leases (sh_registry s))).
Lemma concat_longer l i : i ∈ l → String.length i ≤ String.length (String.concat "" l).
Proof.
  induction l as [|x l IH]; [by intros ?%elem_of_nil|]. intros Hi. cbn. destruct l as [|y l].
  - apply list_elem_of_singleton in Hi. by subst.
  - rewrite !str_length_app. apply elem_of_cons in Hi as [->|Hi%IH]; lia.
Qed.
Lemma long_id_fresh s prefix : prefix ≠ "" →
  (prefix +:+ long_id s ∉ dev_id <$> devices (sh_registry s))
  ∧ (prefix +:+ long_id s ∉ l_id <$> leases (sh_registry s)).
Proof.
  intros Hp. assert (1 ≤ String.length prefix) by (destruct prefix; cbn; [done|lia]).
  assert (∀ i, i ∈ (dev_id <$> devices (sh_registry s)) ++ (l_id <$> leases (sh_registry s)) →
    i ≠ prefix +:+ long_id s) as Hne.
  { intros i Hi%concat_longer ->. unfold long_id in Hi. rewrite str_length_app in Hi. lia. }
  split; intros Hin; apply (Hne (prefix +:+ long_id s)); try done; apply elem_of_app; auto.
Qed.

(** Two waiters for the spec of the device that is ready. *)
Definition two_queued : WaitQueue :=
  (create "2" sample_rq (sample_wait None) None (create "1" sample_rq (sample_wait None) None empty_queue).1).1.
Definition spec_waiter : AcquisitionWaiter := new_waiter <| aw_spec := Some sample_spec |>.
Definition two_waiting : Shared :=
  MkShared sample_ready no_claims 3 empty_coordinator [] [] [] [] ∅ false ∅ []
    (nothing_acquired <| aq_queue := two_queued |> <| aq_waiters := {[ 0 := spec_waiter; 1 := spec_waiter ]} |>).
Definition ios_only (p : Platform) : option (Driver (Host := list string)) :=
  if p === ios then Some Samples.driver else None.
Definition sample_drive (n h : nat) : flow Shared DriverCall DriverAnswer DeviceError NextStep :=
  @Acquisition.drive Codepoint.compare _ _ (fixed_create fixed_defaults) sample_options _ ios_only (λ _ _, []) long_id 60
    sample_config n h.

Lemma sample_ready_ok : registry_ok 3 sample_ready.
Proof. by eapply registry_reachable_ok; [apply sample_retention|apply sample_ready_reachable]. Qed.
Lemma long_device s : "dev_" +:+ long_id s ∉ dev_id <$> devices (sh_registry s).
Proof. by apply long_id_fresh. Qed.
Lemma long_lease s : "lse_" +:+ long_id s ∉ l_id <$> leases (sh_registry s).
Proof. by apply long_id_fresh. Qed.

Lemma two_waiting_start h : h ∈ [0; 1] →
  inside (λ p, is_Some (ios_only p)) h nothing two_waiting ∧ drivable h two_waiting.
Proof.
  rewrite !elem_of_cons, elem_of_nil. intros Hh.
  assert (∃ w, record_of h two_waiting = Some w ∧ w_state w = w_new ∧ ro_leaseId (w_options w) = None
    ∧ extra_of h two_waiting = spec_waiter) as (w & Hw & Hs & Hl & Hx)
    by (destruct Hh as [->|[->|[]]]; eexists; by split_and!).
  split; [split; split|].
  - split; [apply sample_ready_ok|apply empty_claims_ok].
  - by intros e ?%elem_of_nil.
  - by intros b ?%elem_of_nil.
  - rewrite Hx. intros spec [= <-]. by eexists.
  - by rewrite Hx.
  - exists w. rewrite Hx, Hl. by split_and!.
  - done.
  - done.
  - apply submseteq_nil_l.
  - apply submseteq_nil_l.
  - apply submseteq_nil_l.
  - exists w. by rewrite Hs.
Qed.

(** The first section of the first drive: it marks its waiter as driven. *)
Definition marked : Shared :=
  two_waiting <| sh_acquiring := (sh_acquiring two_waiting) <| aq_driving := {[0]} ∪ ∅ |> |>.
Lemma lease_ids_marked : lease_ids_free [0; 1] marked.
Proof.
  intros h Hh w l Hw _ Hl. rewrite !elem_of_cons, elem_of_nil in Hh.
  destruct Hh as [->|[->|[]]]; (injection Hw as <-; discriminate Hl).
Qed.

Lemma two_handles : NoDup [0; 1].
Proof. repeat constructor; rewrite ?elem_of_cons, ?elem_of_nil; lia. Qed.

(** The run of [two_waiting] in which the first drive has marked its waiter. *)
Lemma marked_run : ∃ f0 f1,
  rtc (pool_step (elsewhere [0; 1]) (lease_ids_free [0; 1])) (sample_drive 4 <$> [0; 1], two_waiting) ([f0; f1], marked).
Proof.
  assert (∃ section next, sample_drive 4 0 = Gate section next ∧ section two_waiting = marked) as (section & next & Ed & Em)
    by (eexists _, _; split; reflexivity).
  exists (next two_waiting), (sample_drive 4 1). apply rtc_once.
  pose proof (pool_section (elsewhere [0; 1]) (lease_ids_free [0; 1]) (sample_drive 4 <$> [0; 1]) 0 section next two_waiting) as Hp.
  rewrite Em in Hp. apply Hp; [|exact lease_ids_marked]. cbn [fmap list_fmap lookup list_lookup]. by rewrite Ed.
Qed.

Lemma drives_keep_apart_witness : ∃ f0 f1,
  rtc (pool_step (elsewhere [0; 1]) (lease_ids_free [0; 1])) (sample_drive 4 <$> [0; 1], two_waiting) ([f0; f1], marked)
  ∧ ∀ a, f0 = Done a → ∃ next, a = Ok next ∧ (next = Finished → at_rest 0 marked).
Proof.
  destruct marked_run as (f0 & f1 & Hrun). exists f0, f1. split; [exact Hrun|].
  intros a ->.
  apply (proj1 (proj2 (proj2 (@drives_keep_apart Codepoint.compare _ _ (fixed_create fixed_defaults) sample_options
    sample_retention _ ios_only (λ _ _, []) long_id 60 sample_config long_device long_lease 4 [0; 1] two_waiting
    [Done a; f1] marked two_handles two_waiting_start Hrun))) 0 0 a); reflexivity.
Defined.

(** In the same run, where neither drive has claimed the device. *)
Lemma drives_give_back_witness : ∃ f0 f1,
  rtc (pool_step (elsewhere [0; 1]) (lease_ids_free [0; 1])) (sample_drive 4 <$> [0; 1], two_waiting) ([f0; f1], marked)
  ∧ ∃ o0 o1, holds_now f0 o0 ∧ holds_now f1 o1
    ∧ ∀ k, held (sh_claims marked) k ↔ held (sh_claims two_waiting) k ∨ Some k ∈ [hd_claim o0; hd_claim o1].
Proof.
  destruct marked_run as (f0 & f1 & Hrun). exists f0, f1. split; [exact Hrun|].
  destruct (@drives_give_back Codepoint.compare _ _ (fixed_create fixed_defaults) sample_options
    sample_retention _ ios_only (λ _ _, []) long_id 60 sample_config long_device long_lease 4 [0; 1] two_waiting
    [f0; f1] marked two_handles two_waiting_start Hrun) as [(os & Hfs & Hk & _) _].
  pose proof (Forall2_length _ _ _ Hfs) as Hl. destruct os as [|o0 [|o1 [|o2 os]]]; try discriminate Hl.
  apply Forall2_cons in Hfs as [H0 [H1 _]%Forall2_cons]. exists o0, o1. split; [exact H0|]. split; [exact H1|exact Hk].
Defined.
