(* ===== verification/WarmLearned.v ===== *)
(** * What the warm pool remembers: [src/core/warm-pool/learned.ts], [src/core/warm-pool/retry.ts]

    The kinds a worker granted leases of, with the leases that make up each kind's peak, and the
    schedule that holds a spec back after its boots failed. The two tables of the state database are
    lists of rows; a statement is the function on them its text says, and a transaction is one
    function, so that it happens as a whole. A row's text columns that encode an absent value as the
    empty string keep that encoding. *)
From stdpp Require Import base strings list option numbers sets relations sorting.
From S2P Require Import Prelude JsString OsRange Domain Capacity Cleanup WarmPool.

(** ** The retry schedule *)

Definition RETRY_FIRST_MS : Z := 60000.
Definition RETRY_MAX_MS : Z := 600000.

Record Failure := MkRetryFailure { fa_spec : VirtualSpec; fa_count : Z; fa_retryAt : Z }.

Section retry.
Implicit Types (fs : list Failure) (spec : VirtualSpec).

Definition failureOf fs spec : option Failure := Arr.find (λ f, same_kind (fa_spec f) spec) fs.
Definition mayAttempt fs spec (now : Z) : bool :=
  match failureOf fs spec with None => true | Some f => (fa_retryAt f <=? now)%Z end.
Definition failures fs spec : Z := default 0%Z (fa_count <$> failureOf fs spec).
Definition succeeded fs spec : list Failure := Arr.filter (λ f, negb (same_kind (fa_spec f) spec)) fs.
Definition retry_delay (count : Z) : Z := Z.min (RETRY_FIRST_MS * 2 ^ (count - 1)) RETRY_MAX_MS.
Definition failed fs spec (now : Z) : list Failure :=
  let count := (failures fs spec + 1)%Z in
  succeeded fs spec ++ [MkRetryFailure spec count (now + retry_delay count)].
Definition nextAttemptAt fs (now : Z) : option Z :=
  foldl (λ earliest f,
    if (now <? fa_retryAt f)%Z
       && match earliest with None => true | Some e => (fa_retryAt f <? e)%Z end
    then Some (fa_retryAt f) else earliest) None fs.
End retry.

(** ** The learned kinds *)

Definition WARM_POOL_LEARNED_KINDS_MAX : nat := 32.
Definition LEARNED_WINDOW_MS : Z := 24 * 60 * 60 * 1000.

Record KindRow := MkKindRow {
  kr_id : Z;
  kr_platform : Platform;
  kr_model : string;
  kr_osVersion : string;
  kr_mode : DeviceMode;
  kr_imageTag : string;
  kr_baseline : string;
  kr_lastLeasedAt : Z;
  kr_learned : bool }.
#[export] Instance KindRow_eta : Eta KindRow := λ r,
  MkKindRow (kr_id r) (kr_platform r) (kr_model r) (kr_osVersion r) (kr_mode r) (kr_imageTag r)
    (kr_baseline r) (kr_lastLeasedAt r) (kr_learned r).
Record LeaseRow := MkLeaseRow {
  lr_leaseId : string; lr_kindId : Z; lr_grantedAt : Z; lr_endedAt : option Z }.
#[export] Instance LeaseRow_eta : Eta LeaseRow := λ r,
  MkLeaseRow (lr_leaseId r) (lr_kindId r) (lr_grantedAt r) (lr_endedAt r).
Record LearnedDb := MkLearnedDb { warm_kinds : list KindRow; warm_kind_leases : list LeaseRow }.
#[export] Instance LearnedDb_eta : Eta LearnedDb := λ r,
  MkLearnedDb (warm_kinds r) (warm_kind_leases r).

(** The columns of a spec: [mode ?? "full"], [imageTag ?? ""], [baseline?.name ?? ""]. *)
Definition spec_key (spec : VirtualSpec) : Platform * string * string * DeviceMode * string * string :=
  (vs_platform spec, vs_model spec, vs_osVersion spec, specMode (VSpec spec),
   default "" (vs_imageTag spec), default "" (bl_name <$> vs_baseline spec)).
Definition row_key (r : KindRow) : Platform * string * string * DeviceMode * string * string :=
  (kr_platform r, kr_model r, kr_osVersion r, kr_mode r, kr_imageTag r, kr_baseline r).

Section learned.
Implicit Types (db : LearnedDb) (spec : VirtualSpec).

(** An [INTEGER PRIMARY KEY] left out takes the largest in use and one. *)
Definition next_id db : Z := (foldr (λ r n, Z.max (kr_id r) n) 0 (warm_kinds db) + 1)%Z.
Definition new_kind_row db spec (at_ : Z) (learned : bool) : KindRow :=
  MkKindRow (next_id db) (vs_platform spec) (vs_model spec) (vs_osVersion spec) (specMode (VSpec spec))
    (default "" (vs_imageTag spec)) (default "" (bl_name <$> vs_baseline spec)) at_ learned.

(** [INSERT ... ON CONFLICT (...) DO UPDATE ... RETURNING id]. *)
Definition upsert db (conflicts : KindRow → bool) (update : KindRow → KindRow) (row : KindRow)
    : LearnedDb * Z :=
  match Arr.findIndex conflicts (warm_kinds db) with
  | Some i => (db <| warm_kinds := alter update i (warm_kinds db) |>,
               default 0%Z (kr_id <$> warm_kinds db !! i))
  | None => (db <| warm_kinds := warm_kinds db ++ [row] |>, kr_id row)
  end.
Definition upsert_plain db spec (at_ : Z) : LearnedDb * Z :=
  upsert db (λ r, row_key r === spec_key spec) (λ r, r <| kr_lastLeasedAt := at_ |>)
    (new_kind_row db spec at_ true).
Definition upsert_baseline db spec (at_ : Z) : LearnedDb * Z :=
  let row := new_kind_row db spec at_ false in
  upsert db (λ r, (kr_baseline r !== "") && (kr_baseline r === kr_baseline row))
    (λ r, MkKindRow (kr_id r) (kr_platform row) (kr_model row) (kr_osVersion row) (kr_mode row)
            (kr_imageTag row) (kr_baseline r) at_ (kr_learned r)) row.

Definition put_lease db (leaseId : string) (kindId at_ : Z) : LearnedDb :=
  db <| warm_kind_leases :=
       Arr.filter (λ l, lr_leaseId l !== leaseId) (warm_kind_leases db)
       ++ [MkLeaseRow leaseId kindId at_ None] |>.
Definition learnWhenLeasedEnough db (kindId at_ learnAfter : Z) : LearnedDb :=
  let grants := count (λ l, (lr_kindId l === kindId) && (at_ - LEARNED_WINDOW_MS <? lr_grantedAt l)%Z)
                  (warm_kind_leases db) in
  if (learnAfter <=? grants)%Z
  then db <| warm_kinds := (λ r, if kr_id r === kindId then r <| kr_learned := true |> else r)
                             <$> warm_kinds db |>
  else db.
Definition prune_ended db (at_ : Z) : LearnedDb :=
  db <| warm_kind_leases := Arr.filter (λ l,
       negb (match lr_endedAt l with None => false | Some e => (e <? at_ - LEARNED_WINDOW_MS)%Z end))
       (warm_kind_leases db) |>.

(** [ORDER BY last_leased_at DESC, id DESC]. *)
Definition compareNewest (a b : KindRow) : Z :=
  num_or (kr_lastLeasedAt b - kr_lastLeasedAt a) (kr_id b - kr_id a).
(** The leases of the kinds go before the kinds they refer to. *)
Definition delete_kinds db (gone : KindRow → bool) : LearnedDb :=
  let ids := kr_id <$> Arr.filter gone (warm_kinds db) in
  MkLearnedDb (Arr.filter (λ r, negb (gone r)) (warm_kinds db))
    (Arr.filter (λ l, negb (Arr.includes (lr_kindId l) ids)) (warm_kind_leases db)).
Definition surplus db (platform : Platform) : list KindRow :=
  drop WARM_POOL_LEARNED_KINDS_MAX
    (sort_by compareNewest (Arr.filter (λ r, kr_platform r === platform) (warm_kinds db))).
Definition dropSurplus db (platform : Platform) : LearnedDb :=
  foldl (λ db i, delete_kinds db (λ r, kr_id r === i)) db (kr_id <$> surplus db platform).

Definition learn db spec (leaseId : string) (at_ learnAfter : Z) : LearnedDb :=
  let '(db, kindId) :=
    match vs_baseline spec with None => upsert_plain db spec at_ | Some _ => upsert_baseline db spec at_ end in
  let db := put_lease db leaseId kindId at_ in
  let db := match vs_baseline spec with
            | None => db | Some _ => learnWhenLeasedEnough db kindId at_ learnAfter end in
  dropSurplus (prune_ended db at_) (vs_platform spec).

Definition ended db (leaseId : string) (at_ : Z) : LearnedDb :=
  db <| warm_kind_leases := (λ l,
       if (lr_leaseId l === leaseId) && (lr_endedAt l === None) then l <| lr_endedAt := Some at_ |> else l)
       <$> warm_kind_leases db |>.
Definition closeOpen db (heldLeaseIds : list string) (at_ : Z) : LearnedDb :=
  foldl (λ db leaseId, if Arr.includes leaseId heldLeaseIds then db else ended db leaseId at_) db
    (lr_leaseId <$> Arr.filter (λ l, lr_endedAt l === None) (warm_kind_leases db)).

Definition delete_spec db spec : LearnedDb :=
  match vs_baseline spec with
  | None => delete_kinds db (λ r, row_key r === spec_key spec)
  | Some baseline => delete_kinds db (λ r, kr_baseline r === bl_name baseline)
  end.
Definition forget db spec : LearnedDb := delete_spec db spec.

(** [version] is 0: the converger reads the baseline's current one at each pass. *)
Definition specOf (r : KindRow) : VirtualSpec :=
  MkVirtualSpec (kr_platform r) (kr_model r) (kr_osVersion r) (kr_mode r === slim)
    (if kr_imageTag r === "" then None else Some (kr_imageTag r))
    (if kr_baseline r === "" then None else Some (MkBaseline (kr_baseline r) 0)).

Record LearnedKindMatch := MkKindMatch {
  km_platform : Platform;
  km_model : string;
  km_osVersion : option string;
  km_mode : option DeviceMode;
  km_imageTag : option string }.
Definition matches_field {A} `{EqDecision A} (wanted : option A) (stored : A) : bool :=
  match wanted with None => true | Some v => stored === v end.
Definition matches spec (m : LearnedKindMatch) : bool :=
  (vs_platform spec === km_platform m) && (vs_model spec === km_model m)
  && matches_field (km_osVersion m) (vs_osVersion spec)
  && matches_field (km_mode m) (specMode (VSpec spec))
  && matches_field (km_imageTag m) (default "" (vs_imageTag spec)).

Definition learned_rows db : list KindRow :=
  sort_by compareNewest (Arr.filter kr_learned (warm_kinds db)).
Definition forgetMatching db (m : LearnedKindMatch) (view : VirtualSpec → VirtualSpec)
    : LearnedDb * list VirtualSpec :=
  let forgotten := Arr.filter (λ s, matches s m) ((λ r, view (specOf r)) <$> learned_rows db) in
  (foldl delete_spec db forgotten, forgotten).

Definition clear : LearnedDb := MkLearnedDb [] [].

(** ** The peak *)

Record Interval := MkInterval { iv_start : Z; iv_end : option Z }.
Record Edge := MkEdge { ed_at : Z; ed_delta : Z }.
Definition compareEdges (a b : Edge) : Z := num_or (ed_at a - ed_at b) (ed_delta a - ed_delta b).
Definition after_floor (floor : Z) (i : Interval) : bool :=
  match iv_end i with None => true | Some e => (floor <? e)%Z end.
Definition edges (i : Interval) : list Edge :=
  MkEdge (iv_start i) 1 :: match iv_end i with None => [] | Some e => [MkEdge e (-1)] end.
Definition sweep (op : Z * Z) (edge : Edge) : Z * Z :=
  let open_ := (op.1 + ed_delta edge)%Z in (open_, Z.max op.2 open_).
Definition peakOverlap (intervals : list Interval) (floor : Z) : Z :=
  (foldl sweep (0, 0)%Z
     (sort_by compareEdges (Arr.flatMap edges (Arr.filter (after_floor floor) intervals)))).2.

Definition lease_interval (windowStart : Z) (l : LeaseRow) : Interval :=
  MkInterval (Z.max (lr_grantedAt l) windowStart) (lr_endedAt l).
Definition kinds db (now : Z) : list LearnedKind :=
  let windowStart := (now - LEARNED_WINDOW_MS)%Z in
  (λ r, MkLearned (specOf r)
     (Z.max 1 (peakOverlap (lease_interval windowStart
                 <$> Arr.filter (λ l, lr_kindId l === kr_id r) (warm_kind_leases db)) windowStart))
     (kr_lastLeasedAt r)) <$> learned_rows db.
End learned.

(** ** The retry schedule follows the failures in a row *)

Inductive RetryEvent := RetryFailed (spec : VirtualSpec) (at_ : Z) | RetrySucceeded (spec : VirtualSpec).
Definition retry_apply (fs : list Failure) (e : RetryEvent) : list Failure :=
  match e with RetryFailed s t => failed fs s t | RetrySucceeded s => succeeded fs s end.
Definition retry_run (evs : list RetryEvent) : list Failure := foldl retry_apply [] evs.

(** The specification: how many failures in a row a spec has had, and when the last one was. *)
Definition streak_step (spec : VirtualSpec) (h : Z * Z) (e : RetryEvent) : Z * Z :=
  match e with
  | RetryFailed s t => if decide (s = spec) then ((h.1 + 1)%Z, t) else h
  | RetrySucceeded s => if decide (s = spec) then (0%Z, h.2) else h
  end.
Definition streak (spec : VirtualSpec) (evs : list RetryEvent) : Z * Z :=
  foldl (streak_step spec) (0, 0)%Z evs.

Lemma same_kind_decide a b : same_kind a b = bool_decide (a = b).
Proof. apply Bool.eq_iff_eq_true. by rewrite same_kind_eq, bool_decide_eq_true. Qed.

Lemma failureOf_succeeded fs s spec :
  failureOf (succeeded fs s) spec = if decide (s = spec) then None else failureOf fs spec.
Proof.
  unfold failureOf, succeeded, Arr.find, Arr.filter. induction fs as [|f fs IH]; cbn.
  { by destruct (decide _). }
  rewrite !same_kind_decide. case_bool_decide as Hf; cbn.
  - rewrite IH. case_bool_decide; destruct (decide (s = spec)); (done || congruence).
  - rewrite same_kind_decide, IH. case_bool_decide; destruct (decide (s = spec)); (done || congruence).
Qed.
Lemma failureOf_failed fs s t spec : failureOf (failed fs s t) spec
  = if decide (s = spec)
    then Some (MkRetryFailure s (failures fs s + 1) (t + retry_delay (failures fs s + 1)))
    else failureOf fs spec.
Proof.
  unfold failed. set (new := MkRetryFailure s _ _).
  assert (failureOf (succeeded fs s ++ [new]) spec
    = match failureOf (succeeded fs s) spec with
      | Some f => Some f
      | None => if decide (s = spec) then Some new else None
      end) as ->.
  { unfold failureOf, Arr.find. induction (succeeded fs s) as [|f l IH]; cbn.
    - rewrite same_kind_decide. case_bool_decide; destruct (decide (s = spec)); done.
    - by destruct (same_kind _ _). }
  rewrite failureOf_succeeded. destruct (decide (s = spec)); [done|]. by destruct (failureOf fs spec).
Qed.

Lemma retry_follows_streak evs spec : let h := streak spec evs in
  (0 ≤ h.1)%Z ∧ failureOf (retry_run evs) spec
    = if decide (h.1 = 0%Z) then None else Some (MkRetryFailure spec h.1 (h.2 + retry_delay h.1)).
Proof.
  unfold retry_run, streak. induction evs as [|e evs [Hp IH]] using rev_ind; [done|].
  rewrite !foldl_app. cbn [foldl]. destruct (foldl (streak_step spec) _ _) as [k t]. cbn [fst snd] in *.
  destruct e as [s u|s]; cbn [retry_apply streak_step].
  - rewrite failureOf_failed. destruct (decide (s = spec)) as [->|Hne]; [|done]. cbn [fst snd].
    assert (failures (foldl retry_apply [] evs) spec = k) as ->.
    { unfold failures. rewrite IH. by destruct (decide (k = 0%Z)). }
    split; [lia|]. by destruct (decide ((k + 1)%Z = 0%Z)); [lia|].
  - rewrite failureOf_succeeded. destruct (decide (s = spec)); [|done]. done.
Qed.

Lemma retry_delay_bounds k : (1 ≤ k → RETRY_FIRST_MS ≤ retry_delay k ≤ RETRY_MAX_MS
  ∧ retry_delay k ≤ retry_delay (k + 1))%Z.
Proof.
  intros Hk. unfold retry_delay, RETRY_FIRST_MS, RETRY_MAX_MS.
  pose proof (Z.pow_pos_nonneg 2 (k - 1) ltac:(lia) ltac:(lia)).
  assert (2 ^ (k + 1 - 1) = 2 * 2 ^ (k - 1))%Z as ->.
  { rewrite <- Z.pow_succ_r by lia. f_equal. lia. }
  lia.
Qed.

Lemma next_attempt_fold fs now (e : option Z) : (∀ x, e = Some x → (now < x)%Z) →
  let r := foldl (λ earliest f,
    if (now <? fa_retryAt f)%Z
       && match earliest with None => true | Some e => (fa_retryAt f <? e)%Z end
    then Some (fa_retryAt f) else earliest) e fs in
  match r with
  | None => e = None ∧ ∀ f, f ∈ fs → (fa_retryAt f ≤ now)%Z
  | Some x => (now < x)%Z ∧ (e = Some x ∨ ∃ f, f ∈ fs ∧ fa_retryAt f = x)
      ∧ (∀ y, e = Some y → (x ≤ y)%Z) ∧ ∀ f, f ∈ fs → (now < fa_retryAt f → x ≤ fa_retryAt f)%Z
  end.
Proof.
  revert e. induction fs as [|f fs IH]; intros e He; cbn [foldl].
  { destruct e as [x|]; cbn.
    - split_and!; [by apply He|by left|by intros y [= ->]|by intros f ?%elem_of_nil].
    - split; [done|by intros f ?%elem_of_nil]. }
  set (e' := if (now <? fa_retryAt f)%Z && match e with None => true | Some x => (fa_retryAt f <? x)%Z end
             then Some (fa_retryAt f) else e).
  assert (∀ x : Z, e' = Some x → (now < x)%Z) as He'.
  { unfold e'. intros x. destruct (Z.ltb_spec now (fa_retryAt f)); cbn; [|apply He].
    destruct e as [y|]; [destruct (Z.ltb_spec (fa_retryAt f) y)|]; cbn;
      [intros [= <-]; done|apply He|intros [= <-]; done]. }
  assert ((e' = e ∧ ((now < fa_retryAt f)%Z → ∃ y, e = Some y ∧ (y ≤ fa_retryAt f)%Z))
    ∨ (e' = Some (fa_retryAt f) ∧ ∀ y, e = Some y → (fa_retryAt f ≤ y)%Z)) as Hcase.
  { unfold e'. destruct (Z.ltb_spec now (fa_retryAt f)); cbn; [|left; split; [done|lia]].
    destruct e as [y|]; [|by right]. destruct (Z.ltb_spec (fa_retryAt f) y).
    - right. split; [done|]. intros z [= <-]. lia.
    - left. split; [done|]. intros _. by exists y. }
  specialize (IH e' He'). clearbody e'. cbv zeta in *.
  destruct (foldl _ e' fs) as [x|].
  - destruct IH as (Hx & Ho & Hy & Hf). split_and!; [done| | |].
    + destruct Ho as [Ho|(g & Hg & Hgx)]; [|right; exists g; split; [by right|done]].
      destruct Hcase as [[-> _]|[-> _]]; [by left|]. injection Ho as <-. right. exists f. split; [by left|done].
    + intros y ->. destruct Hcase as [[-> _]|[-> Hle]]; [by apply Hy|].
      specialize (Hle y eq_refl). specialize (Hy _ eq_refl). lia.
    + intros g [->|Hg]%elem_of_cons Hn; [|by apply Hf].
      destruct Hcase as [[-> Hc]|[-> _]]; [|by apply Hy].
      destruct (Hc Hn) as (y & -> & Hle). specialize (Hy y eq_refl). lia.
  - destruct IH as [-> Hf]. destruct Hcase as [[<- Hc]|[? _]]; [|done]. split; [done|].
    intros g [->|Hg]%elem_of_cons; [|by apply Hf].
    destruct (Z.le_gt_cases (fa_retryAt f) now) as [|Hlt]; [done|]. destruct (Hc Hlt) as (y & ? & _). done.
Qed.

Lemma retry_specs_distinct evs : NoDup (fa_spec <$> retry_run evs).
Proof.
  unfold retry_run. induction evs as [|e evs IH] using rev_ind; [constructor|]. rewrite foldl_app. cbn.
  assert (∀ s, NoDup (fa_spec <$> succeeded (foldl retry_apply [] evs) s)) as Hs.
  { intros s. eapply sublist_NoDup; [done|]. apply fmap_sublist, sublist_filter_b. }
  destruct e as [s u|s]; [|apply Hs]. cbn. unfold failed. rewrite fmap_app. apply NoDup_app.
  split_and!; [apply Hs| |apply NoDup_singleton].
  intros x (f & -> & [_ Hf]%elem_of_afilter)%list_elem_of_fmap Hx%list_elem_of_singleton.
  cbn in Hx. by rewrite Hx, same_kind_refl in Hf.
Qed.
Lemma failureOf_elem evs f : f ∈ retry_run evs → failureOf (retry_run evs) (fa_spec f) = Some f.
Proof.
  intros Hf. unfold failureOf. destruct (Arr.find _ _) as [g|] eqn:E.
  - apply afind_Some in E as [Hg Hs%same_kind_eq]. f_equal.
    by eapply (NoDup_fmap_inj_on fa_spec _ _ _ (retry_specs_distinct evs)).
  - rewrite afind_None in E. specialize (E f Hf). by rewrite same_kind_refl in E.
Qed.

(** A spec that fails is held back longer each time, and no longer than that. In any run of
    failures and successes, a spec with no failure since its last success may be tried at any
    moment; after k failures in a row it may be tried again exactly from a delay after the last
    one on, which is one minute at first, doubles, and never passes ten; what happens to
    other specs does not matter. The moment to look again is the first at which a spec that is held
    back now may be tried, and there is none only when no spec is. *)
Theorem retry_backs_off evs spec now : let fs := retry_run evs in let h := streak spec evs in
  failures fs spec = h.1
  ∧ (mayAttempt fs spec now = true ↔ h.1 = 0%Z ∨ (h.2 + retry_delay h.1 ≤ now)%Z)
  ∧ (h.1 ≠ 0%Z → (RETRY_FIRST_MS ≤ retry_delay h.1 ≤ RETRY_MAX_MS
                  ∧ retry_delay h.1 ≤ retry_delay (h.1 + 1))%Z)
  ∧ (nextAttemptAt fs now = None → mayAttempt fs spec now = true)
  ∧ (∀ at_, nextAttemptAt fs now = Some at_ →
       (mayAttempt fs spec now = false → ∀ u, mayAttempt fs spec u = true → (at_ ≤ u)%Z)
       ∧ ∃ s, mayAttempt fs s now = false ∧ mayAttempt fs s at_ = true).
Proof.
  intros fs h. unfold fs, h. destruct (retry_follows_streak evs spec) as [Hpos Hf]. cbv zeta in *.
  pose proof (next_attempt_fold (retry_run evs) now None ltac:(done)) as Hnext. cbv zeta in Hnext.
  fold (nextAttemptAt (retry_run evs) now) in Hnext.
  assert (∀ f, failureOf (retry_run evs) spec = Some f → f ∈ retry_run evs) as Hin.
  { by intros f [? _]%afind_Some. }
  split_and!.
  - unfold failures. rewrite Hf. by destruct (decide _).
  - unfold mayAttempt. rewrite Hf. destruct (decide _) as [|Hne]; [naive_solver|].
    rewrite Z.leb_le. cbn. naive_solver.
  - intros Hne. apply retry_delay_bounds. lia.
  - intros Hn. rewrite Hn in Hnext. destruct Hnext as [_ Hall]. unfold mayAttempt.
    destruct (failureOf _ spec) as [f|]; [|done]. by apply Z.leb_le, Hall, Hin.
  - intros at_ Hn. rewrite Hn in Hnext. destruct Hnext as (Hlt & Ho & _ & Hall). split.
    + unfold mayAttempt. destruct (failureOf _ spec) as [f|]; [|done].
      intros Hheld%Z.leb_gt u Hu%Z.leb_le. specialize (Hall f (Hin f eq_refl)). lia.
    + destruct Ho as [?|(f & Hfin & <-)]; [done|]. exists (fa_spec f). unfold mayAttempt.
      rewrite (failureOf_elem evs f Hfin). split; [by apply Z.leb_gt|by apply Z.leb_le].
Qed.

(** ** The sweep finds the peak *)

Definition sum_delta (es : list Edge) : Z := foldr (λ e n, (ed_delta e + n)%Z) 0%Z es.
Definition upto (t : Z) (es : list Edge) : list Edge := Arr.filter (λ e, (ed_at e <=? t)%Z) es.
Local Abbreviation edge_le := (λ a b, (compareEdges a b ≤ 0)%Z).

#[global] Instance compareEdges_comparator : Comparator compareEdges.
Proof.
  split; unfold compareEdges, num_or; intros a b.
  - destruct (Z.eqb_spec (ed_at a - ed_at b) 0), (Z.eqb_spec (ed_at b - ed_at a) 0); lia.
  - intros c. destruct (Z.eqb_spec (ed_at a - ed_at b) 0), (Z.eqb_spec (ed_at b - ed_at c) 0),
      (Z.eqb_spec (ed_at a - ed_at c) 0); lia.
Qed.

Lemma sum_delta_app l k : sum_delta (l ++ k) = (sum_delta l + sum_delta k)%Z.
Proof. unfold sum_delta. induction l as [|e l IH]; cbn; lia. Qed.
#[global] Instance sum_delta_perm : Proper ((≡ₚ) ==> (=)) sum_delta.
Proof. induction 1; unfold sum_delta in *; cbn; lia. Qed.
#[global] Instance upto_perm t : Proper ((≡ₚ) ==> (≡ₚ)) (upto t).
Proof. apply afilter_perm. Qed.
Lemma upto_cons t e es : upto t (e :: es) = if (ed_at e <=? t)%Z then e :: upto t es else upto t es.
Proof. done. Qed.
Lemma upto_app t l k : upto t (l ++ k) = upto t l ++ upto t k.
Proof. apply List.filter_app. Qed.

Lemma sweep_spec es op : let r := foldl sweep op es in
  (op.2 ≤ r.2)%Z ∧ (∀ l k, es = l ++ k → l ≠ [] → (op.1 + sum_delta l ≤ r.2)%Z)
  ∧ (r.2 = op.2 ∨ ∃ l k, es = l ++ k ∧ r.2 = (op.1 + sum_delta l)%Z).
Proof.
  revert op. induction es as [|e es IH]; intros op; cbn [foldl].
  { split_and!; [done| |by left]. intros [|] k Heq; [done|]. by destruct k. }
  destruct (IH (sweep op e)) as (Hle & Hall & Hex). set (r := (foldl sweep (sweep op e) es).2) in *.
  assert ((sweep op e).1 = (op.1 + ed_delta e)%Z) as H1 by done.
  assert ((sweep op e).2 = Z.max op.2 (op.1 + ed_delta e)%Z) as H2 by done.
  rewrite H1 in Hall, Hex. rewrite H2 in Hle, Hex. split_and!; [lia| |].
  - intros [|x l] k Heq Hne; [done|]. injection Heq as <- ->. unfold sum_delta. cbn.
    destruct l as [|y l]; [cbn; lia|]. specialize (Hall (y :: l) k eq_refl ltac:(done)).
    unfold sum_delta in Hall. cbn in *. lia.
  - destruct Hex as [Hr|(l & k & -> & Hr)].
    + destruct (Z.max_spec op.2 (op.1 + ed_delta e)) as [[_ Hm]|[_ Hm]]; rewrite Hm in Hr; [right|by left].
      exists [e], es. split; [done|]. unfold sum_delta. cbn. lia.
    + right. exists (e :: l), k. split; [done|]. unfold sum_delta in *. cbn. lia.
Qed.

Lemma upto_prefix t es : StronglySorted edge_le es → ∃ k, es = upto t es ++ k.
Proof.
  induction 1 as [|e es Hs IH He]; [by exists []|]. rewrite upto_cons.
  destruct (Z.leb_spec (ed_at e) t) as [Hle|Hgt].
  - destruct IH as [k Hk]. exists k. cbn. by f_equal.
  - assert (upto t es = []) as Hnil.
    { unfold upto. destruct (Arr.filter _ es) as [|x l] eqn:E; [done|].
      assert (x ∈ Arr.filter (λ e, (ed_at e <=? t)%Z) es) as Hx by (rewrite E; by left).
      apply elem_of_afilter in Hx as [Hx Hxt%Z.leb_le]. rewrite Forall_forall in He. specialize (He x Hx).
      cbn in He. unfold compareEdges, num_or in He. destruct (Z.eqb_spec (ed_at e - ed_at x) 0); lia. }
    rewrite Hnil. by exists (e :: es).
Qed.

(** A sum the sweep passes through is reached, or exceeded, at an instant. *)
Lemma prefix_reached l k : StronglySorted edge_le (l ++ k) →
  (∀ e, e ∈ l ++ k → (ed_delta e = 1 ∨ ed_delta e = -1)%Z) →
  (sum_delta l ≤ 0)%Z
  ∨ ∃ e, e ∈ l ∧ (sum_delta l ≤ sum_delta (upto (ed_at e) (l ++ k)))%Z.
Proof.
  revert k. induction l as [|e l IH] using rev_ind; intros k Hs Hd; [by left|].
  rewrite <- (assoc_L (++)) in Hs, Hd |- *. cbn [app] in *.
  rewrite sum_delta_app. unfold sum_delta at 2 4. cbn [foldr].
  destruct (Hd e) as [He|He]; [apply elem_of_app; right; by left| |].
  - right. exists e. split; [apply elem_of_app; right; by left|].
    apply StronglySorted_app in Hs as (Hle & _ & [_ Hk]%StronglySorted_inv).
    change (e :: k) with ([e] ++ k). rewrite !upto_app, !sum_delta_app.
    assert (upto (ed_at e) l = l) as ->.
    { apply afilter_all. intros x Hx. apply Z.leb_le. specialize (Hle x e Hx ltac:(by left)). cbn in Hle.
      unfold compareEdges, num_or in Hle. destruct (Z.eqb_spec (ed_at x - ed_at e) 0); lia. }
    rewrite upto_cons, Z.leb_refl. change (upto (ed_at e) []) with (@nil Edge).
    unfold sum_delta at 3. cbn [foldr].
    assert (0 ≤ sum_delta (upto (ed_at e) k))%Z; [|lia].
    assert (∀ x, x ∈ upto (ed_at e) k → ed_delta x = 1%Z) as Hone.
    { intros x (Hx & Hxt%Z.leb_le)%elem_of_afilter. rewrite Forall_forall in Hk. specialize (Hk x Hx).
      cbn in Hk. unfold compareEdges, num_or in Hk.
      destruct (Hd x ltac:(apply elem_of_app; right; by right)) as [|Hx1]; [done|].
      destruct (Z.eqb_spec (ed_at e - ed_at x) 0); lia. }
    clear -Hone. induction (upto (ed_at e) k) as [|x m IHm]; [done|]. unfold sum_delta in *. cbn.
    rewrite (Hone x) by (by left). specialize (IHm ltac:(intros; apply Hone; by right)). lia.
  - destruct (IH (e :: k) Hs Hd) as [Hz|(x & Hx & Hle)]; [left; lia|].
    right. exists x. split; [apply elem_of_app; by left|lia].
Qed.

(** How many of the intervals an instant is in. *)
Definition open_at (t : Z) (i : Interval) : bool :=
  (iv_start i <=? t)%Z && match iv_end i with None => true | Some e => (t <? e)%Z end.

Lemma edges_open t is_ : (∀ i e, i ∈ is_ → iv_end i = Some e → (iv_start i ≤ e)%Z) →
  sum_delta (upto t (Arr.flatMap edges is_)) = count (open_at t) is_.
Proof.
  unfold Arr.flatMap. induction is_ as [|i is_ IH]; intros Hw; [done|].
  change (i :: is_) with ([i] ++ is_). rewrite bind_app, upto_app, sum_delta_app, count_app, count_singleton.
  rewrite IH by (intros; eapply Hw; [by right|done]). f_equal. specialize (Hw i).
  unfold open_at, upto. cbn. unfold edges. destruct (iv_end i) as [e|]; cbn.
  - specialize (Hw e ltac:(by left) eq_refl).
    destruct (Z.leb_spec (iv_start i) t), (Z.leb_spec e t), (Z.ltb_spec t e); cbn; lia.
  - by destruct (Z.leb_spec (iv_start i) t).
Qed.

(** The peak is the largest number of intervals, of those not over by the floor, that share an
    instant. *)
Lemma peakOverlap_spec is_ floor : let counted := Arr.filter (after_floor floor) is_ in
  (∀ i e, i ∈ counted → iv_end i = Some e → (iv_start i ≤ e)%Z) →
  (∀ t, (count (open_at t) counted ≤ peakOverlap is_ floor)%Z)
  ∧ (peakOverlap is_ floor = 0%Z
     ∨ ∃ t i, i ∈ counted ∧ (t = iv_start i ∨ iv_end i = Some t)
         ∧ count (open_at t) counted = peakOverlap is_ floor).
Proof.
  intros counted Hw. unfold peakOverlap. fold counted.
  set (es := sort_by compareEdges (Arr.flatMap edges counted)).
  assert (es ≡ₚ Arr.flatMap edges counted) as Hperm by apply sort_by_perm.
  pose proof (sort_by_sorted compareEdges (Arr.flatMap edges counted)) as Hsort. fold es in Hsort.
  destruct (sweep_spec es (0, 0)%Z) as (H0 & Hall & Hex). cbv zeta in *. cbn [fst snd] in *.
  set (peak := (foldl sweep (0, 0)%Z es).2) in *.
  assert (∀ t, sum_delta (upto t es) = count (open_at t) counted) as Hsum.
  { intros t. rewrite Hperm. by apply edges_open. }
  assert (∀ t, (count (open_at t) counted ≤ peak)%Z) as Hup.
  { intros t. rewrite <- Hsum. destruct (upto_prefix t es Hsort) as [k Hk].
    destruct (decide (upto t es = [])) as [Hn|Hn]; [rewrite Hn; unfold sum_delta; cbn; lia|].
    specialize (Hall _ _ Hk Hn). lia. }
  split; [done|]. destruct Hex as [Hz|(l & k & Hes & Hp)]; [by left|].
  assert (∀ e, e ∈ es → ∃ i, i ∈ counted ∧ e ∈ edges i) as Hedge.
  { intros e. rewrite Hperm. intros (i & He & Hi)%list_elem_of_bind. by exists i. }
  assert (∀ e, e ∈ es → (ed_delta e = 1 ∨ ed_delta e = -1)%Z) as Hd.
  { intros e (i & _ & He)%Hedge. unfold edges in He. destruct (iv_end i);
      repeat (apply elem_of_cons in He as [->|He]; [cbn; lia|]); by apply elem_of_nil in He. }
  rewrite Hes in Hsort, Hd. destruct (prefix_reached l k Hsort Hd) as [Hz|(e & He & Hle)]; [left; lia|].
  right. rewrite <- Hes, Hsum in Hle. destruct (Hedge e) as (i & Hi & Hei).
  { rewrite Hes. apply elem_of_app. by left. }
  exists (ed_at e), i. split_and!; [done| |specialize (Hup (ed_at e)); lia].
  unfold edges in Hei. apply elem_of_cons in Hei as [->|Hei]; [by left|].
  destruct (iv_end i); [|by apply elem_of_nil in Hei].
  apply list_elem_of_singleton in Hei as ->. by right.
Qed.

(** ** What the tables keep to *)

(** A plain kind is named by its columns, a kind with a baseline by the baseline alone. *)
Definition kind_name (r : KindRow) : (Platform * string * string * DeviceMode * string * string) + string :=
  if kr_baseline r === "" then inl (row_key r) else inr (kr_baseline r).

Record db_ok (clock : Z) (db : LearnedDb) : Prop := {
  do_ids : NoDup (kr_id <$> warm_kinds db);
  do_names : NoDup (kind_name <$> warm_kinds db);
  do_leases : NoDup (lr_leaseId <$> warm_kind_leases db);
  do_kinds l : l ∈ warm_kind_leases db → lr_kindId l ∈ kr_id <$> warm_kinds db;
  do_times l : l ∈ warm_kind_leases db →
    (lr_grantedAt l ≤ clock)%Z ∧ ∀ e, lr_endedAt l = Some e → (lr_grantedAt l ≤ e)%Z }.
Definition kinds_on (db : LearnedDb) (p : Platform) : list KindRow :=
  Arr.filter (λ r, kr_platform r === p) (warm_kinds db).
Definition bounded_on (db : LearnedDb) (p : Platform) : Prop :=
  length (kinds_on db p) ≤ WARM_POOL_LEARNED_KINDS_MAX.

Lemma fmap_alter_at {A B} (f : A → B) (g : A → A) i (l : list A) :
  (∀ x, l !! i = Some x → f (g x) = f x) → f <$> alter g i l = f <$> l.
Proof.
  revert i. induction l as [|x l IH]; intros [|i] Hg; cbn; [done..| |].
  - f_equal. by apply Hg.
  - f_equal. by apply IH.
Qed.
Lemma filter_alter_le {A} (f : A → bool) (g : A → A) i (l : list A) :
  (∀ x, l !! i = Some x → f (g x) = true → f x = true) →
  length (Arr.filter f (alter g i l)) ≤ length (Arr.filter f l).
Proof.
  unfold Arr.filter. revert i. induction l as [|x l IH]; intros [|i] Hg; [done..| |].
  - change (alter g 0 (x :: l)) with (g x :: l). specialize (Hg x eq_refl). cbn [List.filter].
    destruct (f (g x)); [by rewrite Hg by done|]. destruct (f x); cbn; lia.
  - change (alter g (S i) (x :: l)) with (x :: alter g i l). specialize (IH i Hg). cbn [List.filter].
    destruct (f x); cbn; lia.
Qed.

Lemma next_id_fresh db : next_id db ∉ kr_id <$> warm_kinds db.
Proof.
  assert (∀ r, r ∈ warm_kinds db → (kr_id r < next_id db)%Z) as Hlt.
  { unfold next_id. induction (warm_kinds db) as [|x l IH]; intros r; [by intros ?%elem_of_nil|].
    cbn. intros [->|Hr]%elem_of_cons; [lia|]. specialize (IH r Hr). lia. }
  intros (r & Heq & Hr)%list_elem_of_fmap. specialize (Hlt r Hr). lia.
Qed.

Section tables.
Context (clock : Z).
Implicit Types (db : LearnedDb) (spec : VirtualSpec).
Local Abbreviation ok := (db_ok clock).

Lemma ok_at_later db clock' : (clock ≤ clock')%Z → ok db → db_ok clock' db.
Proof. intros Hle []. split; [done..|]. intros l Hl. destruct (do_times0 l Hl). split; [lia|done]. Qed.

(** Changes to the kinds that keep ids and names. *)
Lemma ok_kinds db ks : kr_id <$> ks = kr_id <$> warm_kinds db →
  kind_name <$> ks = kind_name <$> warm_kinds db → ok db → ok (db <| warm_kinds := ks |>).
Proof. intros Hi Hn []. split; cbn; rewrite ?Hi, ?Hn; done. Qed.
(** Some of the leases. *)
Lemma ok_leases db f : ok db → ok (db <| warm_kind_leases := Arr.filter f (warm_kind_leases db) |>).
Proof.
  intros []. split; cbn; [done..| | |].
  - eapply sublist_NoDup; [done|]. apply fmap_sublist, sublist_filter_b.
  - intros l [Hl _]%elem_of_afilter. auto.
  - intros l [Hl _]%elem_of_afilter. auto.
Qed.
Lemma ok_delete db gone : ok db → ok (delete_kinds db gone).
Proof.
  intros []. unfold delete_kinds. split; cbn.
  - eapply sublist_NoDup; [done|]. apply fmap_sublist, sublist_filter_b.
  - eapply sublist_NoDup; [exact do_names0|]. apply fmap_sublist, sublist_filter_b.
  - eapply sublist_NoDup; [done|]. apply fmap_sublist, sublist_filter_b.
  - intros l (Hl & Hk)%elem_of_afilter. unfold Arr.includes in Hk.
    rewrite negb_true_iff, bool_decide_eq_false in Hk.
    pose proof (do_kinds0 l Hl) as (r & Hid & Hr)%list_elem_of_fmap. rewrite Hid in *.
    apply list_elem_of_fmap_2, elem_of_afilter. split; [done|].
    destruct (gone r) eqn:Hg; [|done]. destruct Hk. apply list_elem_of_fmap_2, elem_of_afilter. done.
  - intros l [Hl _]%elem_of_afilter. auto.
Qed.
Lemma delete_kinds_on db gone p : length (kinds_on (delete_kinds db gone) p) ≤ length (kinds_on db p).
Proof.
  unfold kinds_on, delete_kinds, Arr.filter. cbn. rewrite filter_filter_b.
  induction (warm_kinds db) as [|r l IH]; cbn; [lia|].
  destruct (gone r), (kr_platform r === p); cbn; lia.
Qed.

Lemma upsert_ok db conflicts update row : ok db → kr_id row = next_id db →
  ((∀ r, r ∈ warm_kinds db → conflicts r = false) → kind_name row ∉ kind_name <$> warm_kinds db) →
  (∀ r, conflicts r = true → kr_id (update r) = kr_id r ∧ kind_name (update r) = kind_name r) →
  let '(db', kindId) := upsert db conflicts update row in
  ok db' ∧ kindId ∈ kr_id <$> warm_kinds db' ∧ warm_kind_leases db' = warm_kind_leases db.
Proof.
  intros Hok Hid Hfresh Hupd. unfold upsert. destruct (Arr.findIndex _ _) as [i|] eqn:E.
  - apply afindIndex_Some in E as (r & Hr & Hc & _). destruct (Hupd r Hc) as [Hu Hn].
    assert (kr_id <$> alter update i (warm_kinds db) = kr_id <$> warm_kinds db) as Hids.
    { apply fmap_alter_at. intros x Hx. rewrite Hr in Hx. by injection Hx as <-. }
    assert (kr_id r ∈ kr_id <$> warm_kinds db) as Hin.
    { apply list_elem_of_fmap_2. by eapply list_elem_of_lookup_2. }
    split_and!; [|cbn; by rewrite Hids, Hr|done].
    apply ok_kinds; [done| |done]. apply fmap_alter_at. intros x Hx. rewrite Hr in Hx. by injection Hx as <-.
  - rewrite afindIndex_None in E. destruct Hok.
    assert (∀ {B} (f : KindRow → B), NoDup (f <$> warm_kinds db) → f row ∉ f <$> warm_kinds db →
      NoDup (f <$> warm_kinds db ++ [row])) as Hsnoc.
    { intros B f Hn Hf. rewrite fmap_app. apply NoDup_app. split_and!; [done| |apply NoDup_singleton].
      by intros x Hx ->%list_elem_of_singleton. }
    split_and!; [split; cbn|cbn; rewrite fmap_app, elem_of_app; right; by left|done].
    + apply Hsnoc; [done|]. rewrite Hid. apply next_id_fresh.
    + apply Hsnoc; [done|]. by apply Hfresh.
    + done.
    + intros l Hl. rewrite fmap_app, elem_of_app. auto.
    + done.
Qed.

Lemma upsert_spec_ok db spec : (∀ b, vs_baseline spec = Some b → bl_name b ≠ "") → ok db →
  let '(db', kindId) :=
    match vs_baseline spec with
    | None => upsert_plain db spec clock | Some _ => upsert_baseline db spec clock end in
  ok db' ∧ kindId ∈ kr_id <$> warm_kinds db' ∧ warm_kind_leases db' = warm_kind_leases db.
Proof.
  intros Hname Hok. destruct (vs_baseline spec) as [b|] eqn:Eb.
  - specialize (Hname b eq_refl). apply upsert_ok; [done..| |].
    + intros Hnone (r & Heq & Hr)%list_elem_of_fmap. specialize (Hnone r Hr). revert Heq Hnone.
      unfold kind_name, new_kind_row. cbn. rewrite Eb. cbn.
      rewrite (bool_decide_eq_false_2 (bl_name b = "")) by done.
      case_bool_decide; [done|]. intros [= ->]. by rewrite bool_decide_eq_true_2.
    + intros r Hc. apply andb_true_iff in Hc as [Hne _]. rewrite negb_true_iff in Hne.
      split; [done|]. unfold kind_name. cbn. by rewrite Hne.
  - apply upsert_ok; [done..| |].
    + intros Hnone (r & Heq & Hr)%list_elem_of_fmap. specialize (Hnone r Hr). revert Heq Hnone.
      unfold kind_name, new_kind_row. cbn. rewrite Eb. cbn. js_eval.
      case_bool_decide; [|done]. intros [= Heq]. rewrite bool_decide_eq_true_2; [done|].
      unfold row_key, spec_key in *. rewrite Eb. cbn. congruence.
    + done.
Qed.
End tables.

#[global] Instance compareNewest_comparator : Comparator compareNewest.
Proof.
  split; unfold compareNewest, num_or; intros a b.
  - destruct (Z.eqb_spec (kr_lastLeasedAt b - kr_lastLeasedAt a) 0),
      (Z.eqb_spec (kr_lastLeasedAt a - kr_lastLeasedAt b) 0); lia.
  - intros c. destruct (Z.eqb_spec (kr_lastLeasedAt b - kr_lastLeasedAt a) 0),
      (Z.eqb_spec (kr_lastLeasedAt c - kr_lastLeasedAt b) 0),
      (Z.eqb_spec (kr_lastLeasedAt c - kr_lastLeasedAt a) 0); lia.
Qed.

Section tables_ops.
Context (clock : Z).
Implicit Types (db : LearnedDb) (spec : VirtualSpec).
Local Abbreviation ok := (db_ok clock).

Lemma put_lease_ok db leaseId kindId : kindId ∈ kr_id <$> warm_kinds db → ok db →
  ok (put_lease db leaseId kindId clock).
Proof.
  intros Hk Hok. apply (ok_leases clock db (λ l, lr_leaseId l !== leaseId)) in Hok. destruct Hok.
  split; cbn in *; [done..| | |].
  - rewrite fmap_app. apply NoDup_app. split_and!; [done| |apply NoDup_singleton].
    intros x (l & -> & [_ Hl]%elem_of_afilter)%list_elem_of_fmap Hx%list_elem_of_singleton.
    cbn in Hx. by rewrite Hx, bool_decide_eq_true_2 in Hl.
  - intros l [Hl| ->%list_elem_of_singleton]%elem_of_app; [auto|done].
  - intros l [Hl| ->%list_elem_of_singleton]%elem_of_app; [auto|]. cbn. split; [lia|done].
Qed.
Lemma learnWhenLeasedEnough_ok db kindId learnAfter : ok db →
  ok (learnWhenLeasedEnough db kindId clock learnAfter).
Proof.
  intros Hok. unfold learnWhenLeasedEnough. destruct (_ <=? _)%Z; [|done].
  apply ok_kinds; [..|done]; rewrite <- list_fmap_compose; apply list_fmap_ext; intros i r _; cbn;
    by case_bool_decide.
Qed.

Lemma fold_delete_kinds (ids : list Z) db :
  let db' := foldl (λ db i, delete_kinds db (λ r, kr_id r === i)) db ids in
  (ok db → ok db') ∧ warm_kinds db' = Arr.filter (λ r, negb (Arr.includes (kr_id r) ids)) (warm_kinds db).
Proof.
  revert db. induction ids as [|i ids IH]; intros db; cbn [foldl].
  - split; [done|]. symmetry. apply afilter_all. intros r _. unfold Arr.includes.
    by rewrite bool_decide_eq_false_2 by apply not_elem_of_nil.
  - destruct (IH (delete_kinds db (λ r, kr_id r === i))) as [Hok Hk]. split.
    + intros Hdb. by apply Hok, ok_delete.
    + rewrite Hk. unfold delete_kinds, Arr.filter. cbn. rewrite filter_filter_b. apply List.filter_ext.
      intros r. unfold Arr.includes.
      rewrite (bool_decide_ext (kr_id r ∈ i :: ids) (kr_id r = i ∨ kr_id r ∈ ids)) by apply elem_of_cons.
      by rewrite bool_decide_or, negb_orb.
Qed.

(** What [dropSurplus] leaves of a platform is its newest kinds, no more than the cap. *)
Lemma dropSurplus_spec db p :
  (ok db → ok (dropSurplus db p)) ∧ bounded_on (dropSurplus db p) p
  ∧ (∀ q, length (kinds_on (dropSurplus db p) q) ≤ length (kinds_on db q))
  ∧ (∀ r r', ok db → r ∈ kinds_on db p → r ∉ warm_kinds (dropSurplus db p) →
       r' ∈ kinds_on (dropSurplus db p) p → (compareNewest r' r ≤ 0)%Z).
Proof.
  unfold dropSurplus. destruct (fold_delete_kinds (kr_id <$> surplus db p) db) as [Hok Hk].
  cbv zeta in *. set (db' := foldl _ db _) in *.
  set (sorted := sort_by compareNewest (kinds_on db p)).
  set (kept := λ r, negb (Arr.includes (kr_id r) (kr_id <$> surplus db p))) in *.
  assert (∀ q, kinds_on db' q = Arr.filter kept (kinds_on db q)) as Hon.
  { intros q. unfold kinds_on, Arr.filter. rewrite Hk. unfold Arr.filter. rewrite !filter_filter_b.
    apply List.filter_ext. intros r. apply andb_comm. }
  assert (∀ r, r ∈ surplus db p → kept r = false) as Hgone.
  { intros r Hr. unfold kept, Arr.includes. rewrite bool_decide_eq_true_2; [done|].
    by apply list_elem_of_fmap_2. }
  assert (sorted = take WARM_POOL_LEARNED_KINDS_MAX sorted ++ surplus db p) as Hsplit.
  { symmetry. apply take_drop. }
  split_and!; [done| | |].
  - unfold bounded_on. rewrite Hon.
    assert (Arr.filter kept (kinds_on db p) ≡ₚ Arr.filter kept sorted) as Hperm.
    { f_equiv. symmetry. apply sort_by_perm. }
    rewrite Hperm, Hsplit. unfold Arr.filter. rewrite List.filter_app, length_app.
    pose proof (afilter_none kept (surplus db p) Hgone) as Hnil. unfold Arr.filter in Hnil. rewrite Hnil.
    pose proof (filter_length_le kept (take WARM_POOL_LEARNED_KINDS_MAX sorted)) as Hle.
    rewrite length_take in Hle. cbn [length]. lia.
  - intros q. rewrite Hon. apply afilter_length_le.
  - intros r r' Hdb Hr Hdrop Hr'. rewrite Hon, elem_of_afilter in Hr'. destruct Hr' as [Hr' Hkept].
    assert (r ∈ sorted ∧ r' ∈ sorted) as [Hs Hs'] by (unfold sorted; by rewrite !elem_of_sort_by).
    rewrite Hsplit, elem_of_app in Hs, Hs'.
    destruct Hs' as [Hs'|Hs']; [|apply Hgone in Hs'; congruence].
    pose proof (sort_by_sorted compareNewest (kinds_on db p)) as Hsort. fold sorted in Hsort.
    rewrite Hsplit in Hsort. apply StronglySorted_app in Hsort as (Hle & _ & _).
    destruct Hs as [Hs|Hs]; [|by apply Hle].
    apply elem_of_afilter in Hr as [Hr _]. destruct (kept r) eqn:Ek.
    { destruct Hdrop. by rewrite Hk, elem_of_afilter. }
    unfold kept, Arr.includes in Ek. rewrite negb_false_iff, bool_decide_eq_true in Ek.
    apply list_elem_of_fmap in Ek as (s & Hid & Hsur). assert (r = s) as ->; [|by apply Hle].
    apply (NoDup_fmap_inj_on kr_id (warm_kinds db)); [apply Hdb|done| |done].
    assert (s ∈ sorted) as Hss by (rewrite Hsplit; by apply elem_of_app; right).
    unfold sorted in Hss. rewrite elem_of_sort_by in Hss. by apply elem_of_afilter in Hss as [? _].
Qed.

Lemma upsert_bounded db spec q : q ≠ vs_platform spec → bounded_on db q →
  bounded_on (match vs_baseline spec with
              | None => upsert_plain db spec clock | Some _ => upsert_baseline db spec clock end).1 q.
Proof.
  intros Hq Hb. unfold bounded_on, kinds_on in *.
  assert (∀ conflicts update row, kr_platform row = vs_platform spec →
    (∀ r, conflicts r = true → kr_platform (update r) = vs_platform spec) →
    length (Arr.filter (λ r, kr_platform r === q) (warm_kinds (upsert db conflicts update row).1))
    ≤ WARM_POOL_LEARNED_KINDS_MAX) as Hup.
  { intros conflicts update row Hrow Hupd. unfold upsert.
    destruct (Arr.findIndex _ _) as [i|] eqn:E; cbn.
    - apply afindIndex_Some in E as (r & Hr & Hc & _). etrans; [|exact Hb]. apply filter_alter_le.
      intros x Hx. rewrite Hr in Hx. injection Hx as <-. rewrite (Hupd r Hc), bool_decide_eq_true. congruence.
    - unfold Arr.filter in *. rewrite List.filter_app. cbn.
      rewrite Hrow, (bool_decide_eq_false_2 (vs_platform spec = q)) by done. by rewrite app_nil_r. }
  destruct (vs_baseline spec); apply Hup; [done..|].
  intros r Hr%bool_decide_eq_true. unfold row_key, spec_key in Hr. by injection Hr.
Qed.

Lemma learn_ok db spec leaseId learnAfter : (∀ b, vs_baseline spec = Some b → bl_name b ≠ "") →
  ok db → (∀ p, bounded_on db p) →
  ok (learn db spec leaseId clock learnAfter)
  ∧ ∀ p, bounded_on (learn db spec leaseId clock learnAfter) p.
Proof.
  intros Hname Hok Hb. unfold learn.
  pose proof (upsert_spec_ok clock db spec Hname Hok) as Hup.
  pose proof (λ q Hq, upsert_bounded db spec q Hq (Hb q)) as Hub.
  destruct (match vs_baseline spec with None => _ | Some _ => _ end) as [db1 kindId].
  destruct Hup as (Hok1 & Hk & _). cbn [fst] in Hub.
  set (db2 := match vs_baseline spec with None => put_lease db1 leaseId kindId clock | Some _ => _ end).
  assert (ok (prune_ended db2 clock) ∧ ∀ q, q ≠ vs_platform spec →
    bounded_on (prune_ended db2 clock) q) as [Hok2 Hub2].
  { split.
    - apply ok_leases. unfold db2. destruct (vs_baseline spec);
        [apply learnWhenLeasedEnough_ok|]; by apply put_lease_ok.
    - intros q Hq. unfold db2. destruct (vs_baseline spec); [|by apply Hub].
      unfold learnWhenLeasedEnough. destruct (_ <=? _)%Z; [|by apply Hub].
      specialize (Hub q Hq). unfold bounded_on, kinds_on in *. cbn. rewrite filter_fmap_length; [done|].
      intros r. by destruct (kr_id r === kindId). }
  destruct (dropSurplus_spec (prune_ended db2 clock) (vs_platform spec)) as (Hd & Hp & Hle & _).
  split; [by apply Hd|]. intros q. destruct (decide (q = vs_platform spec)) as [->|Hne]; [done|].
  unfold bounded_on. etrans; [apply Hle|]. by apply Hub2.
Qed.

Lemma ended_ok db leaseId : ok db → ok (ended db leaseId clock).
Proof.
  intros []. unfold ended. 
  set (f := λ l : LeaseRow, if (lr_leaseId l === leaseId) && (lr_endedAt l === None)
                            then l <| lr_endedAt := Some clock |> else l).
  assert (∀ l, lr_leaseId (f l) = lr_leaseId l ∧ lr_kindId (f l) = lr_kindId l
    ∧ lr_grantedAt (f l) = lr_grantedAt l
    ∧ (lr_endedAt (f l) = lr_endedAt l ∨ lr_endedAt (f l) = Some clock)) as Hf.
  { intros l. unfold f. destruct (_ && _); cbn; auto. }
  split; cbn; [done..| | |].
  - rewrite <- list_fmap_compose. rewrite (list_fmap_ext _ lr_leaseId); [done|]. intros i l _. apply Hf.
  - intros l' (l & -> & Hl)%list_elem_of_fmap. destruct (Hf l) as (_ & -> & _). auto.
  - intros l' (l & -> & Hl)%list_elem_of_fmap. destruct (Hf l) as (_ & _ & -> & Hend).
    destruct (do_times0 l Hl) as [Hg He]. split; [done|]. intros e. destruct Hend as [->| ->]; [auto|].
    intros [= <-]. done.
Qed.
Lemma closeOpen_ok db held : ok db →
  ok (closeOpen db held clock) ∧ warm_kinds (closeOpen db held clock) = warm_kinds db.
Proof.
  unfold closeOpen. generalize (lr_leaseId <$> Arr.filter (λ l, lr_endedAt l === None) (warm_kind_leases db)).
  intros ids. revert db. induction ids as [|i ids IH]; intros db Hok; [done|]. cbn [foldl].
  destruct (Arr.includes i held); [by apply IH|]. destruct (IH (ended db i clock)) as [? ->]; [|done].
  by apply ended_ok.
Qed.
Lemma delete_spec_ok db spec : ok db → ok (delete_spec db spec)
  ∧ ∀ p, length (kinds_on (delete_spec db spec) p) ≤ length (kinds_on db p).
Proof.
  intros Hok. unfold delete_spec.
  destruct (vs_baseline spec); (split; [by apply ok_delete|intros p; apply delete_kinds_on]).
Qed.
Lemma delete_specs_ok (specs : list VirtualSpec) db : ok db → ok (foldl delete_spec db specs)
  ∧ ∀ p, length (kinds_on (foldl delete_spec db specs) p) ≤ length (kinds_on db p).
Proof.
  revert db. induction specs as [|s specs IH]; intros db Hok; cbn [foldl]; [by split|].
  destruct (delete_spec_ok db s Hok) as [Hs Hl]. destruct (IH _ Hs) as [Hs' Hl']. split; [done|].
  intros p. etrans; [apply Hl'|apply Hl].
Qed.
End tables_ops.

(** ** Runs *)

(** One operation at the moment [now]. Baseline names are not empty: the contract refuses one. *)
Inductive learned_step (now : Z) (db : LearnedDb) : LearnedDb → Prop :=
| learned_learn spec leaseId learnAfter : (∀ b, vs_baseline spec = Some b → bl_name b ≠ "") →
    learned_step now db (learn db spec leaseId now learnAfter)
| learned_ended leaseId : learned_step now db (ended db leaseId now)
| learned_closeOpen held : learned_step now db (closeOpen db held now)
| learned_forget spec : learned_step now db (forget db spec)
| learned_forgetMatching m view : learned_step now db (forgetMatching db m view).1
| learned_clear : learned_step now db clear.
(** The clock does not go back. *)
Inductive learned_reach : Z → LearnedDb → Prop :=
| reach_empty now : learned_reach now clear
| reach_step clock now db db' : learned_reach clock db → (clock ≤ now)%Z → learned_step now db db' →
    learned_reach now db'.

Lemma clear_ok now : db_ok now clear ∧ ∀ p, bounded_on clear p.
Proof.
  split; [|intros p; apply Nat.le_0_l].
  split; [constructor..| |]; by intros l ?%elem_of_nil.
Qed.
Lemma learned_reach_ok now db : learned_reach now db → db_ok now db ∧ ∀ p, bounded_on db p.
Proof.
  induction 1 as [now|clock now db db' _ [Hok Hb] Hle Hstep]; [apply clear_ok|].
  apply (ok_at_later clock db now Hle) in Hok.
  destruct Hstep as [spec leaseId learnAfter Hn|leaseId|held|spec|m view|].
  - by apply learn_ok.
  - split; [by apply ended_ok|]. apply Hb.
  - destruct (closeOpen_ok now db held Hok) as [? Hk]. split; [done|]. intros p.
    unfold bounded_on, kinds_on. rewrite Hk. apply Hb.
  - destruct (delete_spec_ok now db spec Hok) as [? Hl]. split; [done|]. intros p.
    unfold bounded_on. etrans; [apply Hl|apply Hb].
  - unfold forgetMatching. cbn [fst].
    match goal with |- context [foldl delete_spec db ?l] =>
      destruct (delete_specs_ok now l db Hok) as [? Hl] end.
    split; [done|]. intros p. unfold bounded_on. etrans; [apply Hl|apply Hb].
  - apply clear_ok.
Qed.

(** The record of learned kinds stays sound and small. In any run of leases granted, ended,
    closed at startup and forgotten, on a clock that does not go back: a plain kind has one row per
    model, OS, mode and tag, a kind with a baseline one row per name; a lease has one row, of a kind
    that is there; no lease ends before it was granted; and no platform has more than 32 kinds, of
    which dropping the surplus keeps the ones leased last. *)
Theorem learned_tables_sound now db : learned_reach now db →
  NoDup (kind_name <$> warm_kinds db) ∧ NoDup (kr_id <$> warm_kinds db)
  ∧ NoDup (lr_leaseId <$> warm_kind_leases db)
  ∧ (∀ l, l ∈ warm_kind_leases db → lr_kindId l ∈ kr_id <$> warm_kinds db
       ∧ ∀ e, lr_endedAt l = Some e → (lr_grantedAt l ≤ e)%Z)
  ∧ (∀ p, length (kinds_on db p) ≤ 32)
  ∧ (∀ p r r', r ∈ kinds_on db p → r ∉ warm_kinds (dropSurplus db p) →
       r' ∈ kinds_on (dropSurplus db p) p → (compareNewest r' r ≤ 0)%Z).
Proof.
  intros [Hok Hb]%learned_reach_ok. split_and!; try apply Hok; [|apply Hb|].
  - intros l Hl. split; [by apply (do_kinds _ _ Hok)|by apply (do_times _ _ Hok)].
  - intros p r r' Hr Hd Hr'. destruct (dropSurplus_spec now db p) as (_ & _ & _ & H). by apply H.
Qed.

(** How many of a kind's recorded leases are held at an instant. *)
Definition held_at (db : LearnedDb) (r : KindRow) (t : Z) : Z :=
  count (λ l, (lr_kindId l === kr_id r) && (lr_grantedAt l <=? t)%Z
              && match lr_endedAt l with None => true | Some e => (t <? e)%Z end) (warm_kind_leases db).

Lemma held_at_intervals db r ws t : (ws ≤ t)%Z →
  count (open_at t) (Arr.filter (after_floor ws) (lease_interval ws
    <$> Arr.filter (λ l, lr_kindId l === kr_id r) (warm_kind_leases db))) = held_at db r t.
Proof.
  intros Ht. unfold held_at, count, Arr.filter.
  induction (warm_kind_leases db) as [|l ls IH]; cbn; [done|].
  destruct (lr_kindId l === kr_id r); cbn [andb]; [|done]. rewrite fmap_cons. cbn [List.filter].
  assert (after_floor ws (lease_interval ws l)
    = match lr_endedAt l with None => true | Some e => (ws <? e)%Z end) as -> by done.
  assert ((Z.max (lr_grantedAt l) ws <=? t)%Z = (lr_grantedAt l <=? t)%Z) as Hmax.
  { destruct (Z.leb_spec (Z.max (lr_grantedAt l) ws) t), (Z.leb_spec (lr_grantedAt l) t); lia. }
  assert (open_at t (lease_interval ws l) = (lr_grantedAt l <=? t)%Z
    && match lr_endedAt l with None => true | Some e => (t <? e)%Z end) as Hopen.
  { unfold open_at. cbn. by rewrite Hmax. }
  destruct (lr_endedAt l) as [e|]; [destruct (Z.ltb_spec ws e) as [|Hle]|]; cbn [List.filter].
  - rewrite Hopen. destruct (_ && _); cbn [length]; lia.
  - assert ((t <? e)%Z = false) as -> by (apply Z.ltb_ge; lia). by rewrite andb_false_r.
  - rewrite Hopen. destruct (_ && _); cbn [length]; lia.
Qed.

(** C31. A learned kind's count is the most of it held at once. For every kind the pool plans for,
    newest first, the count is never below the number of its recorded leases held at any one
    instant of the last 24 hours, and it is reached at some instant, unless it is the one device
    every kind gets. The record is any the pool's operations leave on a clock that does not go back. *)
Theorem learned_count_is_peak now db : learned_reach now db →
  Forall2 (λ r k,
      lk_spec k = specOf r ∧ lk_lastLeasedAt k = kr_lastLeasedAt r
      ∧ (∀ t, (now - LEARNED_WINDOW_MS ≤ t → held_at db r t ≤ lk_count k)%Z)
      ∧ (lk_count k = 1%Z ∨ ∃ t, (now - LEARNED_WINDOW_MS ≤ t)%Z ∧ held_at db r t = lk_count k))
    (learned_rows db) (kinds db now).
Proof.
  intros [Hok _]%learned_reach_ok. unfold kinds. apply Forall2_fmap_r, Forall_Forall2_diag, Forall_forall.
  intros r _. unfold compose. cbv beta zeta. cbn [lk_spec lk_lastLeasedAt lk_count]. set (ws := (now - LEARNED_WINDOW_MS)%Z).
  set (is_ := lease_interval ws <$> Arr.filter (λ l, lr_kindId l === kr_id r) (warm_kind_leases db)).
  assert (∀ i, i ∈ Arr.filter (after_floor ws) is_ → (ws ≤ iv_start i)%Z
    ∧ ∀ e, iv_end i = Some e → (iv_start i ≤ e)%Z) as Hw.
  { intros i ((l & -> & Hl)%list_elem_of_fmap & Hf)%elem_of_afilter. cbn. split; [lia|]. intros e He.
    apply elem_of_afilter in Hl as [Hl _]. destruct (do_times _ _ Hok l Hl) as [_ Hle].
    specialize (Hle e He). unfold after_floor in Hf. cbn in Hf. rewrite He in Hf. apply Z.ltb_lt in Hf. lia. }
  destruct (peakOverlap_spec is_ ws) as [Hup Hex]. { intros i e Hi. by apply Hw. }
  split_and!; [done..| |].
  - intros t Ht. rewrite <- (held_at_intervals db r ws t Ht). fold is_. etrans; [apply Hup|]. apply Z.le_max_r.
  - destruct Hex as [Hz|(t & i & Hi & Ht & Hc)]; [left; by rewrite Hz|].
    destruct (Z.max_spec 1 (peakOverlap is_ ws)) as [[_ Hm]|[? Hm]]; rewrite Hm; [right|by left].
    destruct (Hw i Hi) as [Hs He]. assert (ws ≤ t)%Z as Hws.
    { destruct Ht as [->|Ht]; [done|]. specialize (He t Ht). lia. }
    exists t. split; [done|]. rewrite <- Hc. symmetry. by apply held_at_intervals.
Qed.

(** ** A record to look at: two leases of one kind that overlap, and one that is over. *)
Definition learned_day : LearnedDb :=
  let db := learn clear sample_spec "lse_1" 0 3 in
  let db := learn db sample_spec "lse_2" 5 3 in
  let db := ended db "lse_1" 9 in
  learn db sample_spec "lse_3" 9 3.
Lemma learned_day_reach : learned_reach 9 learned_day.
Proof.
  unfold learned_day.
  repeat (eapply reach_step; [| |first [apply learned_learn; by intros b ?|apply learned_ended]]);
    [apply (reach_empty 0)|lia..].
Qed.
Example learned_day_kinds : kinds learned_day 10 = [MkLearned sample_spec 2 9].
Proof. by vm_compute. Qed.
Lemma retry_example :
  nextAttemptAt (retry_run [RetryFailed sample_spec 0; RetryFailed sample_spec 60000]) 70000
    = Some 180000%Z.
Proof. by vm_compute. Qed.
Lemma learned_tables_sound_witness : NoDup (kr_id <$> warm_kinds learned_day).
Proof. apply (learned_tables_sound 9 learned_day learned_day_reach). Defined.
Lemma learned_count_is_peak_witness : length (learned_rows learned_day) = length (kinds learned_day 9).
Proof. exact (Forall2_length _ _ _ (learned_count_is_peak 9 learned_day learned_day_reach)). Defined.
