(* ===== verification/WarmConverge.v ===== *)
(** * The warm pool at work: [src/core/warm-pool/converger.ts], [src/core/warm-pool/catalog-check.ts]

    The pool runs one pass at a time: it resolves the operator's targets, reads a view of the worker,
    asks the policy of [WarmPool] what to stop, boot and create, and does each through the device
    operations and the provisioner. A boot or creation is a flight that runs beside the pass; its end
    asks for the next one. What a section starts (a pass, a flight) begins at any later moment.

    The resolution of a request is the port the pool is written against: a call the environment
    answers, one answer for each target. The record of the learned kinds is [WarmLearned]'s, and the
    database it is in may fail at any time ([wm_recordFails]). The bus is left out: what its
    subscriptions call are steps of their own. Log lines are left out, and [settle] only waits. *)
From stdpp Require Import base strings list option numbers gmap relations.
From S2P Require Import Prelude JsString OsRange Domain RequestStore Capacity Claims Registry RegistryInv WaitQueue Lifecycle AcquisitionState Resolve Flow Crew Devices DevicePool Provision Cleanup WarmPool WarmLearned Acquisition.

(** ** Data *)

Definition LEARNED_FAILURES_LIMIT : Z := 3.
Definition WARM_POOL_TICK_MS : Z := 30000.
Definition CATALOG_READ_LIMIT_MS : Z := 30000.
Definition DEFAULT_BASELINE_LEARN_AFTER : Z := 3.

Record WarmTarget := MkWarmTarget {
  wt_platform : Platform; wt_model : string; wt_osVersion : option string; wt_mode : option DeviceMode;
  wt_count : Z }.
#[global] Instance WarmTarget_eq_dec : EqDecision WarmTarget.
Proof. solve_decision. Defined.
Record WarmPoolConfig := MkWarmConfig {
  wc_enabled : bool;
  wc_reserve_ios : Z;
  wc_reserve_android : Z;
  wc_targets : list WarmTarget;
  wc_learn : option bool;
  wc_baselineLearnAfter : option Z;
  wc_maxConcurrentBoots : Z }.
(** [Math.floor(cpus / 4)] is the division of integers. *)
Definition defaultWarmPoolConfig (cpuCount : Z) : WarmPoolConfig :=
  MkWarmConfig true 0 0 [] (Some true) (Some DEFAULT_BASELINE_LEARN_AFTER) (Z.max 1 (cpuCount / 4)).

(** The reasons the pool adds to the policy's. *)
Inductive PoolShort := ShortPlanned (short : TargetShort) | ShortRefused (refusal : TargetRefusal) | ShortDisabled.
Record PoolKind := MkPoolKind {
  pk_mode : DeviceMode; pk_model : string; pk_platform : Platform; pk_osVersion : option string }.
(** A report as the pool keeps it. [#covers], which is by identity, holds the reports of the refused
    targets, each with its own position: here [pr_index]. *)
Record PoolReport := MkPoolReport {
  pr_target : string;
  pr_kind : PoolKind;
  pr_spec : option VirtualSpec;
  pr_origin : KindOrigin;
  pr_count : Z;
  pr_configuredCount : Z;
  pr_ready : Z;
  pr_booting : Z;
  pr_short : option PoolShort;
  pr_message : option string;
  pr_index : option nat }.
#[export] Instance PoolReport_eta : Eta PoolReport := λ r,
  MkPoolReport (pr_target r) (pr_kind r) (pr_spec r) (pr_origin r) (pr_count r) (pr_configuredCount r) (pr_ready r)
    (pr_booting r) (pr_short r) (pr_message r) (pr_index r).
Record WarmTargetFigures := MkTargetFigures {
  tf_kind : PoolKind;
  tf_booting : Z;
  tf_count : Z;
  tf_origin : KindOrigin;
  tf_ready : Z;
  tf_imageTag : option string;
  tf_baseline : option string;
  tf_short : option PoolShort }.
Record WarmPoolFigures := MkPoolFigures {
  pf_enabled : bool; pf_reserve_ios : Z; pf_reserve_android : Z; pf_targets : list WarmTargetFigures }.

(** A flight, by its number. *)
Record Flight := MkFlight { fg_number : nat; fg_creation : bool; fg_spec : VirtualSpec }.
Inductive FlightWork := BootDevice (deviceId : string) | CreateDevice (spec : VirtualSpec).
(** What a section started: a round of the passes, or a flight with the spec it is held back by. *)
Inductive WarmWork := WorkRound | WorkFlight (flight : Flight) (work : FlightWork).

(** What the pool did, in order: it began a flight or a shutdown, under a reset or not; planned a
    shed for a reading; told of a target missed, for the positions it stands for; saw targets met;
    was closed. *)
Inductive WarmEntry :=
| WarmLaunched (flight : Flight) (work : FlightWork) (maintenance : bool)
| WarmStopping (deviceId : string) (reason : ShutdownReason) (maintenance : bool)
| WarmShed (readingAt : Z)
| EvTargetMissed (report : PoolReport) (covered : list nat)
| TargetsMet (covered : list nat)
| WarmClosed
| WarmKick.

(** The catalog check: the platforms with a read pending, their answers, and the reads neither
    finished nor abandoned, each with the moment it is abandoned. *)
Record CatalogCheck := MkCatalogCheck {
  ck_answers : list (Platform * PlatformCatalog);
  ck_pending : list Platform;
  ck_reads : list (nat * Platform * Z);
  ck_next : nat }.
#[export] Instance CatalogCheck_eta : Eta CatalogCheck := λ c,
  MkCatalogCheck (ck_answers c) (ck_pending c) (ck_reads c) (ck_next c).

(** [wm_shared] has what other components own; the memory reading is [aq_pressure], taken at
    [wm_readingAt]. [wm_begun] is what was started and has not begun; [wm_tick] and [wm_retryTimer]
    are timers by the moment they are due. *)
Record Warming := MkWarming {
  wm_shared : Shared;
  wm_readingAt : Z;
  wm_recordFails : bool;
  wm_learned : LearnedDb;
  wm_catalog : CatalogCheck;
  wm_retryAfter : gmap string Z;
  wm_schedule : list Failure;
  wm_flights : list Flight;
  wm_nextFlight : nat;
  wm_openClosed : bool;
  wm_again : bool;
  wm_disposed : bool;
  wm_draining : bool;
  wm_started : bool;
  wm_shedAt : option Z;
  wm_reset : list string;
  wm_resolved : list WarmPool.ResolvedTarget;
  wm_spared : list WarmPool.ResolvedTarget;
  wm_hasResolved : bool;
  wm_lastSpecs : list (WarmTarget * VirtualSpec);
  wm_reports : list PoolReport;
  wm_figured : list PoolReport;
  wm_passed : bool;
  wm_missed : list nat;
  wm_owners : list (nat * VirtualSpec);
  wm_retryTimer : option Z;
  wm_tick : option Z;
  wm_running : bool;
  wm_begun : list WarmWork;
  wm_log : list WarmEntry }.
#[export] Instance Warming_eta : Eta Warming := λ s,
  MkWarming (wm_shared s) (wm_readingAt s) (wm_recordFails s) (wm_learned s) (wm_catalog s) (wm_retryAfter s)
    (wm_schedule s) (wm_flights s) (wm_nextFlight s) (wm_openClosed s) (wm_again s) (wm_disposed s) (wm_draining s)
    (wm_started s) (wm_shedAt s) (wm_reset s) (wm_resolved s) (wm_spared s) (wm_hasResolved s) (wm_lastSpecs s)
    (wm_reports s) (wm_figured s) (wm_passed s) (wm_missed s) (wm_owners s) (wm_retryTimer s) (wm_tick s)
    (wm_running s) (wm_begun s) (wm_log s).
Definition new_pool (shared : Shared) : Warming :=
  MkWarming shared 0 false clear (MkCatalogCheck [] [] [] 0) ∅ [] [] 0 false false false false false None [] [] [] false []
    [] [] false [] [] None None false [] [].

(** The resolutions are answered at once, by the position of the target. *)
Inductive WarmCall := WarmDriver (c : DriverCall) | ResolveTargets (requests : list DeviceRequest).
Record WarmAnswer := MkWarmAnswer { wr_driver : DriverAnswer; wr_resolution : nat → TargetResolution }.

Definition isShed (proposal : WarmProposal) : bool :=
  match proposal with ProposeShutdown _ reason => reason === shed_memory_pressure | _ => false end.
Definition shutDownIn (devices : list VirtualDevice) (down : list string) : list VirtualDevice :=
  (λ d, if Arr.includes (v_id d) down then d <| v_state := Domain.shutdown |> else d) <$> devices.
Definition configured_report (report : PoolReport) : PoolReport :=
  if pr_count report === pr_configuredCount report then report
  else
    let merged := report <| pr_count := pr_configuredCount report |> <| pr_index := None |> in
    if (pr_configuredCount report <=? pr_ready report)%Z then merged <| pr_short := None |> else merged.
Definition configuredOnly (reports : list PoolReport) : list PoolReport :=
  configured_report <$> Arr.filter (λ r, pr_origin r === origin_configured) reports.
Definition figureOf (report : PoolReport) : WarmTargetFigures :=
  MkTargetFigures (pr_kind report) (pr_booting report) (pr_count report) (pr_origin report) (pr_ready report)
    (pr_spec report ≫= vs_imageTag) (bl_name <$> (pr_spec report ≫= vs_baseline)) (pr_short report).
Definition requestFor (target : WarmTarget) : DeviceRequest :=
  MkRequest (wt_platform target) (Some (wt_model target)) (wt_osVersion target) (wt_mode target) None None None None None.
Definition target_text (target : WarmTarget) : string :=
  join " " (platform_text (wt_platform target) :: wt_model target
            :: option_list (wt_osVersion target) ++ option_list (mode_text <$> wt_mode target)).
Definition planned_report (r : TargetReport) : PoolReport :=
  MkPoolReport (tr_target r)
    (MkPoolKind (tk_mode (tr_kind r)) (tk_model (tr_kind r)) (tk_platform (tr_kind r)) (Some (tk_osVersion (tr_kind r))))
    (Some (tr_spec r)) (tr_origin r) (tr_count r) (tr_configuredCount r) (tr_ready r) (tr_booting r)
    (ShortPlanned <$> tr_short r) None None.

(** ** The catalog check *)

Module Catalog.
Section catalog.
Context (hasDriver : Platform → bool).
Implicit Types (c : CatalogCheck).

Definition answer_of c (platform : Platform) : option PlatformCatalog :=
  snd <$> Arr.find (λ a, a.1 === platform) (ck_answers c).
Definition drop_answer (platform : Platform) c : CatalogCheck :=
  c <| ck_answers := Arr.filter (λ a, a.1 !== platform) (ck_answers c) |>.
Definition lists (catalog : PlatformCatalog) (spec : VirtualSpec) : bool :=
  let entry := pc_entry catalog in
  if negb (Arr.includes (vs_model spec) (ce_models entry)) then false
  else if negb (Arr.includes (vs_osVersion spec) (default [] (ce_modelRuntimes entry !! vs_model spec))) then false
  else match vs_imageTag spec with
       | None => true
       | Some tag => Arr.some (λ image, (im_runtime image === vs_osVersion spec) && (im_tag image === tag))
                       (default [] (ce_images entry))
       end.

Definition read (now : Z) (platform : Platform) c : CatalogCheck :=
  c <| ck_pending := platform :: ck_pending c |>
    <| ck_reads := ck_reads c ++ [(ck_next c, platform, (now + CATALOG_READ_LIMIT_MS)%Z)] |>
    <| ck_next := S (ck_next c) |>.
Definition start (now : Z) (platforms : list Platform) c : CatalogCheck :=
  foldl (λ c platform, if Arr.includes platform (ck_pending c) || negb (hasDriver platform) then c else read now platform c)
    c platforms.
Definition gone (current : string → option CurrentBaseline) (kinds : list LearnedKind) c : list LearnedKind :=
  Arr.filter (λ kind,
    let spec := lk_spec kind in
    if match vs_baseline spec with
       | None => false
       | Some baseline => match current (bl_name baseline) with None => true | Some b => cb_staleReason b !== None end
       end then true
    else if negb (hasDriver (vs_platform spec)) then true
    else match answer_of c (vs_platform spec) with None => false | Some answer => negb (lists answer spec) end) kinds.
Definition unanswered (kinds : list LearnedKind) c : list LearnedKind :=
  Arr.filter (λ kind, hasDriver (vs_platform (lk_spec kind)) && (answer_of c (vs_platform (lk_spec kind)) === None)) kinds.

(** A read ends, or is abandoned: nothing, when it was before. *)
Definition finish (n : nat) c : option (Platform * CatalogCheck) :=
  match Arr.find (λ r, r.1.1 === n) (ck_reads c) with
  | None => None
  | Some (_, platform, _) =>
      Some (platform, c <| ck_reads := Arr.filter (λ r, r.1.1 !== n) (ck_reads c) |>
                        <| ck_pending := Arr.filter (λ p, p !== platform) (ck_pending c) |>)
  end.
(** The timer and a read that throws leave the platform with no answer. *)
Definition read_failed (n : nat) c : CatalogCheck :=
  match finish n c with None => c | Some (platform, c) => drop_answer platform c end.
(** Whether it is the platform's first answer, which asks for a pass. *)
Definition read_answered (n : nat) (entries : list PlatformCatalog) c : CatalogCheck * bool :=
  match finish n c with
  | None => (c, false)
  | Some (platform, c) =>
      match Arr.find (λ e, pc_platform e === platform) entries with
      | None => (drop_answer platform c, false)
      | Some entry =>
          ((drop_answer platform c) <| ck_answers := (platform, entry) :: ck_answers (drop_answer platform c) |>,
           answer_of c platform === None)
      end
  end.
End catalog.
End Catalog.

(** ** The pool *)

Module Pool.
Section pool.
(** The capacity strategy, the registry's options, the drivers, the provisioner's estimates and id
    generator, how long an idle device may run, the mode a request that names none plans, and the
    pool's configuration. *)
Context `{LocaleCompare} {S : Type} `{CapacityStrategy S} (strategy : S) (options : RegistryOptions)
  (hasDriver : Platform → bool) (estimate : Platform → EstimateOperation → DeviceSpec → Z)
  (generate : Shared → string) (shutdownAfterMs : Z) (defaultMode : Platform → DeviceMode) (config : WarmPoolConfig).
Local Abbreviation flow_of R := (flow Warming WarmCall WarmAnswer DeviceError R).
Local Abbreviation op A := (action Warming DeviceError A).
Implicit Types (s : Warming) (spec : VirtualSpec) (report : PoolReport).

Definition within {R} (f : flow Shared DriverCall DriverAnswer DeviceError R) : flow_of R :=
  embed wm_shared (λ h s, s <| wm_shared := h |>) WarmDriver wr_driver f.
Definition note (e : WarmEntry) : op unit := modify (λ s, s <| wm_log := wm_log s ++ [e] |>).
Definition kick : op unit := note WarmKick.
Definition start_work (w : WarmWork) : op unit := modify (λ s, s <| wm_begun := wm_begun s ++ [w] |>).

Definition now_of s : Z := sh_now (wm_shared s).
Definition maintenanceActive s : bool := aq_admissionClosed (sh_acquiring (wm_shared s)).
Definition pressure_of s : option PressureStep := aq_pressure (sh_acquiring (wm_shared s)).
Definition current_reading s : option (Z * PressureStep) := (λ step, (wm_readingAt s, step)) <$> pressure_of s.
Definition devices_of s : list VirtualDevice := virtualDevices (sh_registry (wm_shared s)).
Definition leases_of s : list LeaseRecord := leases (sh_registry (wm_shared s)).
Definition claimed_in s (deviceId : string) : bool := isClaimed (sh_claims (wm_shared s)) deviceId.
Definition baseline_of s (name : string) : option CurrentBaseline := current_baseline (sh_baselines (wm_shared s)) name.
Definition waiting_of s : list WaitingDemand := Acquisition.waitingDemand (wm_shared s).

(** ** What was learned *)

Definition on_record (f : LearnedDb → LearnedDb) : op unit :=
  s ← get;
  if wm_recordFails s then throw (PlainError "the record failed") else modify (λ s, s <| wm_learned := f (wm_learned s) |>).
(** A failure costs what would be recorded. *)
Definition recording (work : op unit) : op unit := λ s, match work s with (s, Ok a) => (s, Ok a) | (s, Err _) => (s, Ok tt) end.
Definition newestVersion s spec : VirtualSpec :=
  match vs_baseline spec with
  | None => spec
  | Some named =>
      match baseline_of s (bl_name named) with
      | None => spec
      | Some current =>
          MkVirtualSpec (cb_platform current) (cb_model current) (cb_osVersion current) (cb_mode current === slim)
            (cb_imageTag current) (Some (MkBaseline (bl_name named) (cb_version current)))
      end
  end.
Definition learnedKinds s : list LearnedKind :=
  if wc_learn config === Some false then []
  else if wm_recordFails s then []
  else (λ k, MkLearned (newestVersion s (lk_spec k)) (lk_count k) (lk_lastLeasedAt k)) <$> kinds (wm_learned s) (now_of s).
Definition closeOpenRows : op unit :=
  s ← get;
  if wm_openClosed s || negb (wm_started s) then mret tt
  else recording (
    _ ← on_record (λ db, closeOpen db (l_id <$> leases_of s) (now_of s));
    modify (λ s, s <| wm_openClosed := true |>)).
Definition lease_granted (deviceId leaseId : string) : op unit :=
  if negb (wc_enabled config) then mret tt
  else
    s ← get;
    match Arr.find (λ d, v_id d === deviceId) (devices_of s) with
    | None => mret tt
    | Some device =>
        recording (on_record (λ db, learn db (v_spec device) leaseId (now_of s)
          (default DEFAULT_BASELINE_LEARN_AFTER (wc_baselineLearnAfter config))))
    end.
Definition lease_ended (leaseId : string) : op unit := s ← get; recording (on_record (λ db, ended db leaseId (now_of s))).
Definition forget_all : op unit := on_record (λ _, clear).

(** ** Passes are asked for *)

Definition pass : op unit :=
  s ← get;
  if wm_running s then modify (λ s, s <| wm_again := true |>)
  else _ ← modify (λ s, s <| wm_running := true |>); start_work WorkRound.
Definition trigger : op unit :=
  s ← get;
  if wm_disposed s || wm_draining s then mret tt else pass.
Definition armTick : op unit := modify (λ s, s <| wm_tick := Some (now_of s + WARM_POOL_TICK_MS)%Z |>).
Definition tick_fires : op unit := _ ← trigger; armTick.
Definition armRetry : op unit :=
  _ ← modify (λ s, s <| wm_retryTimer := None |>);
  s ← get;
  if wm_disposed s || wm_draining s then mret tt
  else modify (λ s, s <| wm_retryTimer := nextAttemptAt (wm_schedule s) (now_of s) |>).
Definition retry_fires : op unit := _ ← modify (λ s, s <| wm_retryTimer := None |>); trigger.
Definition start : op unit :=
  s ← get;
  if wm_started s then mret tt
  else _ ← modify (λ s, s <| wm_started := true |>); _ ← closeOpenRows; armTick.
Definition reading_taken : op unit :=
  s ← get;
  match pressure_of s with None | Some pressure_none => mret tt | Some _ => trigger end.
Definition dispose : op unit :=
  modify (λ s, s <| wm_disposed := true |> <| wm_tick := None |> <| wm_retryTimer := None |>).
Definition close : op unit := _ ← modify (λ s, s <| wm_draining := true |>); note WarmClosed.
Definition catalog_answers (n : nat) (entries : list PlatformCatalog) : op unit :=
  s ← get;
  let '(c, first) := Catalog.read_answered n entries (wm_catalog s) in
  _ ← modify (λ s, s <| wm_catalog := c |>);
  if first : bool then trigger else mret tt.
Definition catalog_fails (n : nat) : op unit := modify (λ s, s <| wm_catalog := Catalog.read_failed n (wm_catalog s) |>).

Definition forgetKinds (m : LearnedKindMatch) : op (list VirtualSpec) :=
  s ← get;
  if wm_recordFails s then throw (PlainError "the record failed")
  else
    let '(db, forgotten) := forgetMatching (wm_learned s) m (newestVersion s) in
    _ ← modify (λ s, s <| wm_learned := db |>
          <| wm_schedule := foldl (λ sch spec,
               if Arr.some (λ t, same_kind (WarmPool.rt_spec t) spec) (wm_resolved s) then sch else succeeded sch spec)
               (wm_schedule s) forgotten |>);
    _ ← match forgotten with [] => mret tt | _ :: _ => trigger end;
    mret forgotten.

(** ** Targets *)

Definition kindOfTarget (target : WarmTarget) : PoolKind :=
  MkPoolKind (default (defaultMode (wt_platform target)) (wt_mode target)) (wt_model target) (wt_platform target)
    (wt_osVersion target).
Record Resolving := MkResolving {
  rv_resolved : list WarmPool.ResolvedTarget; rv_spared : list WarmPool.ResolvedTarget; rv_refused : list PoolReport;
  rv_owners : list (nat * VirtualSpec); rv_lastSpecs : list (WarmTarget * VirtualSpec) }.
Definition last_spec (target : WarmTarget) (l : list (WarmTarget * VirtualSpec)) : option VirtualSpec :=
  snd <$> Arr.find (λ e, e.1 === target) l.
Definition drop_spec (target : WarmTarget) (l : list (WarmTarget * VirtualSpec)) : list (WarmTarget * VirtualSpec) :=
  Arr.filter (λ e, e.1 !== target) l.
Definition refused_report s (index : nat) (target : WarmTarget) (last : option VirtualSpec) (refusal : TargetRefusal)
    (message : string) : PoolReport :=
  MkPoolReport (target_text target) (kindOfTarget target) None origin_configured (wt_count target) (wt_count target)
    match last with None => 0%Z | Some last => readyCount (devices_of s) (leases_of s) (claimed_in s) last end
    match last with None => 0%Z | Some last => count (λ flight, same_kind (fg_spec flight) last) (wm_flights s) end
    (Some (ShortRefused refusal)) (Some message) (Some index).
(** One answer of the resolutions. *)
Definition take_answer s (r : Resolving) (answer : nat * WarmTarget * TargetResolution) : Resolving :=
  let '(index, target, resolution) := answer in
  match resolution with
  | Resolves spec =>
      MkResolving (rv_resolved r ++ [WarmPool.MkTarget spec (wt_count target)]) (rv_spared r) (rv_refused r)
        (rv_owners r ++ [(index, spec)]) ((target, spec) :: drop_spec target (rv_lastSpecs r))
  | Refused refusal message =>
      let last := match refusal with refusal_unresolvable => last_spec target (rv_lastSpecs r) | _ => None end in
      MkResolving (rv_resolved r)
        (rv_spared r ++ match last with None => [] | Some last => [WarmPool.MkTarget last (wt_count target)] end)
        (rv_refused r ++ [refused_report s index target last refusal message]) (rv_owners r)
        (match last with None => drop_spec target (rv_lastSpecs r) | Some _ => rv_lastSpecs r end)
  end.
Definition take_answers (answers : nat → TargetResolution) : op (list PoolReport) :=
  s ← get;
  let r := foldl (take_answer s) (MkResolving [] [] [] [] (wm_lastSpecs s))
             (imap (λ i t, (i, t, answers i)) (wc_targets config)) in
  _ ← modify (λ s, s <| wm_owners := rv_owners r |> <| wm_resolved := rv_resolved r |> <| wm_spared := rv_spared r |>
                     <| wm_lastSpecs := rv_lastSpecs r |> <| wm_hasResolved := true |>);
  mret (rv_refused r).
Definition resolveTargets : flow_of (list PoolReport) :=
  answer ← call (ResolveTargets (requestFor <$> wc_targets config));
  gate (take_answers (wr_resolution answer)).
Definition checkCatalog : op unit :=
  s ← get;
  let ks := learnedKinds s in
  _ ← foldl (λ m kind, _ ← m; recording (on_record (λ db, forget db (lk_spec kind)))) (mret tt)
        (Catalog.gone hasDriver (baseline_of s) ks (wm_catalog s));
  modify (λ s, s <| wm_catalog := Catalog.start hasDriver (now_of s) ((λ k, vs_platform (lk_spec k)) <$> ks) (wm_catalog s) |>).
Definition resolveEnabled : flow_of (list PoolReport) :=
  if negb (wc_enabled config) then mret []
  else refused ← resolveTargets; _ ← gate checkCatalog; mret refused.
(** Of the view, [targetedDevices] reads the devices, the leases and the claims. *)
Definition counts_view s : WarmPolicyView :=
  MkWarmView (devices_of s) (leases_of s) [] (coordinator_runningCapacity strategy (sh_capacity (wm_shared s)) [])
    (claimed_in s) true 0 0 0 0 0 [] [] [] [] [] [] (λ _ _, true) (λ _ _, None) (λ _ _, None) false [] pressure_none
    false [].
Definition targeted : flow_of (list string) :=
  if negb (wc_enabled config) then mret []
  else
    resolved ← gate (s ← get; mret (wm_hasResolved s));
    _ ← (if resolved : bool then mret tt else _ ← resolveTargets; mret tt);
    gate (
      s ← get;
      mret (targetedDevices (counts_view s) (wm_resolved s ++ wm_spared s) (learnedKinds s) (waiting_of s))).

Definition disabled_report (target : WarmTarget) : PoolReport :=
  MkPoolReport (target_text target) (kindOfTarget target) None origin_configured (wt_count target) (wt_count target) 0 0
    (if wc_enabled config then None else Some ShortDisabled) None None.
Definition figures s : WarmPoolFigures :=
  MkPoolFigures (wc_enabled config) (wc_reserve_ios config) (wc_reserve_android config)
    (figureOf <$> (if wc_enabled config && wm_passed s then wm_figured s else disabled_report <$> wc_targets config)).
Definition targets s : list PoolReport := wm_reports s.

Definition coveredBy s report : list nat :=
  match pr_index report with
  | Some index => [index]
  | None => fst <$> Arr.filter (λ owner, match pr_spec report with None => false | Some spec => same_kind owner.2 spec end)
                      (wm_owners s)
  end.
(** One report of a pass: a target met again, or missed anew. *)
Definition announce report : op unit :=
  s ← get;
  let covered := coveredBy s report in
  if (pr_count report <=? pr_ready report)%Z then
    _ ← modify (λ s, s <| wm_missed := Arr.filter (λ i, negb (Arr.includes i covered)) (wm_missed s) |>);
    note (TargetsMet covered)
  else match pr_short report with
  | None => mret tt
  | Some _ =>
      let fresh := Arr.filter (λ i, negb (Arr.includes i (wm_missed s))) covered in
      _ ← modify (λ s, s <| wm_missed := wm_missed s ++ fresh |>);
      match fresh with [] => mret tt | _ :: _ => note (EvTargetMissed report covered) end
  end.
Fixpoint announceMissed (reports : list PoolReport) : op unit :=
  match reports with [] => mret tt | report :: reports => _ ← announce report; announceMissed reports end.

(** ** What a pass sees *)

Definition recentShutdownFailures s : list string :=
  (map_to_list (wm_retryAfter s)) ≫= λ e, if (now_of s <? e.2)%Z then [e.1] else [].
Definition coming s (devices : list VirtualDevice) : list OnItsWay :=
  omap (λ d,
    if ((v_state d === provisioning) || (v_state d === Domain.shutdown))
       && (claim_of (sh_claims (wm_shared s)) (v_id d) === Some (op_boot, None))
    then Some (MkOnItsWay (v_spec d) (Some (v_id d))) else None) devices.
(** A creation in flight counts when it is beyond the devices of its spec that are registered. *)
Definition add_creation (devices : list VirtualDevice) (earlier : list Flight) (entries : list OnItsWay) (flight : Flight)
    : list OnItsWay :=
  let before := Arr.filter (λ other, same_kind (fg_spec other) (fg_spec flight)) earlier in
  let registered := Arr.filter (λ e, same_kind (ow_spec e) (fg_spec flight)
        && Arr.some (λ d, (Some (v_id d) === ow_deviceId e) && (v_state d === provisioning)) devices) entries in
  if length registered <=? length before then entries ++ [MkOnItsWay (fg_spec flight) None] else entries.
Fixpoint add_creations (devices : list VirtualDevice) (earlier rest : list Flight) (entries : list OnItsWay) : list OnItsWay :=
  match rest with
  | [] => entries
  | flight :: rest => add_creations devices (earlier ++ [flight]) rest (add_creation devices earlier entries flight)
  end.
Definition onItsWay s (devices : list VirtualDevice) : list OnItsWay :=
  add_creations devices [] (Arr.filter fg_creation (wm_flights s)) (coming s devices).

Definition refusal_of {A} (r : result CapacityRefusalReason A) : option CapacityRefusalReason :=
  match r with Ok _ => None | Err reason => Some reason end.
(** The reset marks of the devices that left [shutdown] since. *)
Definition still_reset s : list string :=
  Arr.filter (λ i, (v_state <$> Arr.find (λ d, v_id d === i) (devices_of s)) === Some Domain.shutdown) (wm_reset s).
Definition view s (reading : option (Z * PressureStep)) : WarmPolicyView :=
  let all := devices_of s in
  let devices := Arr.filter (λ d, hasDriver (vs_platform (v_spec d))) all in
  let c := sh_capacity (wm_shared s) in
  let with_down (down : option (list string)) :=
    capacityDevices (match down with None => all | Some down => shutDownIn all down end) in
  let learned := learnedKinds s in
  MkWarmView devices (leases_of s) (waiting_of s) (coordinator_runningCapacity strategy c (capacityDevices all))
    (claimed_in s) (wc_enabled config) (wc_reserve_ios config) (wc_reserve_android config) shutdownAfterMs
    (wc_maxConcurrentBoots config) (now_of s) (wm_resolved s) (wm_spared s) learned
    (lk_spec <$> Catalog.unanswered hasDriver learned (wm_catalog s)) (fg_spec <$> wm_flights s) (onItsWay s devices)
    (mayAttempt (wm_schedule s))
    (λ spec down, refusal_of (coordinator_canProvision strategy c (plannedCapacityDevice spec) (with_down down)))
    (λ device down, refusal_of (coordinator_canBoot strategy c (capacityDevice device) (with_down down)))
    (Arr.some (λ d, (v_state d === ready) && (operationFor (sh_claims (wm_shared s)) (v_id d) === Some op_boot)) devices)
    (still_reset s) (default pressure_none (snd <$> reading))
    (match reading with None => false | Some (at_, _) => match wm_shedAt s with None => true | Some shed => (shed <? at_)%Z end end)
    (recentShutdownFailures s).
Definition make_plan (reading : option (Z * PressureStep)) : op WarmPlan :=
  _ ← modify (λ s, s <| wm_reset := still_reset s |>);
  s ← get;
  mret (evaluate (view s reading)).

(** ** What a pass does *)

Definition unleased s (deviceId : string) (state : DeviceState) : option VirtualDevice :=
  match Arr.find (λ d, v_id d === deviceId) (devices_of s) with
  | None => None
  | Some device =>
      if (v_state device !== state) || Arr.some (on_device deviceId) (leases_of s) || claimed_in s deviceId
      then None else Some device
  end.
Definition shutdown (deviceId : string) : flow_of unit :=
  device ← gate (s ← get; mret (unleased s deviceId ready));
  match device with
  | None => mret tt
  | Some device =>
      done ← try_catch
        (done ← within (ManagedDevice.shutdown options hasDriver device "warm-pool" op_cleanup None);
         mret (bool_decide (is_Some done)))
        (λ _, _ ← gate (modify (λ s, s <| wm_retryAfter := <[v_id device := (now_of s + WARM_POOL_TICK_MS)%Z]> (wm_retryAfter s) |>));
              mret true);
      if done : bool then gate kick else mret tt
  end.

Definition failed_launch spec : op unit :=
  _ ← modify (λ s, s <| wm_schedule := failed (wm_schedule s) spec (now_of s) |>);
  s ← get;
  if (failures (wm_schedule s) spec <? LEARNED_FAILURES_LIMIT)%Z then mret tt
  else if Arr.some (λ t, same_kind (WarmPool.rt_spec t) spec) (wm_resolved s) then mret tt
  else if negb (Arr.some (λ k, same_kind (lk_spec k) spec) (learnedKinds s)) then mret tt
  else
    _ ← recording (on_record (λ db, forget db spec));
    modify (λ s, s <| wm_schedule := succeeded (wm_schedule s) spec |>).
Definition attempt_succeeded spec : op unit := modify (λ s, s <| wm_schedule := succeeded (wm_schedule s) spec |>).

Definition hold_boot (deviceId : string) : op (option (DeviceOperationClaim * VirtualDevice * CapacityReservation)) :=
  s ← get;
  match unleased s deviceId Domain.shutdown with
  | None => mret None
  | Some device =>
      let h := wm_shared s in
      match tryReserveBoot strategy (pressure_of s) (sh_capacity h) (v_id device) (capacityDevice device)
              (capacityDevices (devices_of s)) with
      | Err _ => mret None
      | Ok (c, reservation) =>
          match tryClaim (sh_claims h) (v_id device) op_boot None with
          | None => _ ← modify (λ s, s <| wm_shared := h <| sh_capacity := Capacity.release reservation c |> |>); mret None
          | Some (t, k) =>
              _ ← modify (λ s, s <| wm_shared := h <| sh_capacity := c |> <| sh_claims := t |> |>);
              mret (Some (k, device, reservation))
          end
      end
  end.
Definition let_go (k : DeviceOperationClaim) (reservation : CapacityReservation) : op unit :=
  modify (λ s, s <| wm_shared := (ManagedDevice.drop_claim k (wm_shared s))
                      <| sh_capacity := Capacity.release reservation (sh_capacity (wm_shared s)) |> |>).
(** Whether a boot was attempted. *)
Definition boot (deviceId : string) (target : VirtualSpec) : flow_of bool :=
  held ← gate (hold_boot deviceId);
  match held with
  | None => mret false
  | Some (k, device, reservation) =>
      attempted ← finally
        (try_catch
          (done ← within (ManagedDevice.bootWarm options hasDriver device k);
           match done with None => mret false | Some _ => _ ← gate (attempt_succeeded target); mret true end)
          (λ _, _ ← gate (failed_launch target); mret true))
        (gate (let_go k reservation));
      if attempted : bool then _ ← gate kick; mret true else mret false
  end.
Definition provision spec (target : VirtualSpec) : flow_of bool :=
  reservation ← gate (
    s ← get;
    match tryReserveProvisioning strategy (pressure_of s) (sh_capacity (wm_shared s)) (plannedCapacityDevice spec)
            (capacityDevices (devices_of s)) with
    | Err _ => mret None
    | Ok (c, reservation) =>
        _ ← modify (λ s, s <| wm_shared := (wm_shared s) <| sh_capacity := c |> |>); mret (Some reservation)
    end);
  match reservation with
  | None => mret false
  | Some reservation =>
      _ ← try_catch
        (handoff ← within (Provisioner.provision options hasDriver estimate generate (λ _, mret tt) spec (Some None) None
           reservation);
         _ ← gate (modify (λ s, s <| wm_shared := ManagedDevice.drop_claim handoff.1 (wm_shared s) |>));
         gate (attempt_succeeded target))
        (λ _, gate (failed_launch target));
      _ ← gate kick;
      mret true
  end.

Definition launch spec (creation : bool) (work : FlightWork) : op unit :=
  s ← get;
  let flight := MkFlight (wm_nextFlight s) creation spec in
  _ ← modify (λ s, s <| wm_flights := wm_flights s ++ [flight] |> <| wm_nextFlight := Datatypes.S (wm_nextFlight s) |>);
  _ ← note (WarmLaunched flight work (maintenanceActive s));
  start_work (WorkFlight flight work).
Definition end_flight (flight : Flight) (attempted : bool) : op unit :=
  _ ← modify (λ s, s <| wm_flights := Arr.filter (λ f, fg_number f !== fg_number flight) (wm_flights s) |>);
  if attempted then trigger else mret tt.
Definition run_work (flight : Flight) (work : FlightWork) : flow_of bool :=
  match work with
  | BootDevice deviceId => boot deviceId (fg_spec flight)
  | CreateDevice spec => provision spec (fg_spec flight)
  end.
Definition fly (flight : Flight) (work : FlightWork) : flow_of unit :=
  attempted ← try_catch (run_work flight work) (λ _, _ ← gate (failed_launch (fg_spec flight)); mret true);
  gate (end_flight flight attempted).

Definition specOf_device s (deviceId : string) : option VirtualSpec :=
  v_spec <$> Arr.find (λ d, v_id d === deviceId) (devices_of s).
Definition ownerOf s (deviceId : string) (reason : StartReason) (target : option VirtualSpec) : option VirtualSpec :=
  match reason with for_waiting_request => specOf_device s deviceId | for_target => target end.
(** The stretch of an action before it waits; a shutdown goes on. *)
Inductive NextAct := ActNothing | ActShutdown (deviceId : string) | ActStop.
Definition act (proposal : WarmProposal) : op NextAct :=
  s ← get;
  if wm_draining s then mret ActStop
  else if maintenanceActive s then mret ActNothing
  else match proposal with
  | ProposeProvision spec _ target => _ ← launch target true (CreateDevice spec); mret ActNothing
  | ProposeShutdown deviceId reason =>
      if (now_of s <? default 0 (wm_retryAfter s !! deviceId))%Z then mret ActNothing
      else _ ← note (WarmStopping deviceId reason (maintenanceActive s)); mret (ActShutdown deviceId)
  | ProposeBoot deviceId reason target =>
      match ownerOf s deviceId reason target with
      | None => mret ActNothing
      | Some owner => _ ← launch owner false (BootDevice deviceId); mret ActNothing
      end
  end.
Fixpoint act_each (proposals : list WarmProposal) : flow_of unit :=
  match proposals with
  | [] => mret tt
  | proposal :: rest =>
      next ← gate (act proposal);
      match next with
      | ActStop => mret tt
      | ActNothing => act_each rest
      | ActShutdown deviceId => _ ← shutdown deviceId; act_each rest
      end
  end.

(** What a pass keeps of its plan: the reading it shed for, and the reports. *)
Definition keep_plan (reading : option (Z * PressureStep)) (refused : list PoolReport) (plan : WarmPlan) : op (list PoolReport) :=
  _ ← match reading with
      | Some (at_, _) =>
          if Arr.some isShed (wp_proposals plan)
          then _ ← modify (λ s, s <| wm_shedAt := Some at_ |>); note (WarmShed at_)
          else mret tt
      | None => mret tt
      end;
  let everyReport := refused ++ (planned_report <$> wp_targets plan) in
  let reports := configuredOnly everyReport in
  _ ← modify (λ s, s <| wm_figured := everyReport |> <| wm_reports := reports |> <| wm_passed := true |>);
  mret reports.
Definition markReset : op unit :=
  modify (λ s, s <| wm_reset := wm_reset s ++ Arr.filter (λ i, negb (Arr.includes i (wm_reset s)))
                     (v_id <$> Arr.filter (λ d, v_state d === Domain.shutdown) (devices_of s)) |>).
(** Whether the pass goes on. *)
Definition open_pass : op bool :=
  s ← get;
  if wm_draining s then mret false
  else if maintenanceActive s then _ ← markReset; mret false
  else _ ← closeOpenRows; mret true.
Definition once : flow_of unit :=
  go_on ← gate open_pass;
  if negb go_on then mret tt
  else try_catch
    (refused ← resolveEnabled;
     reading ← gate (s ← get; mret (current_reading s));
     plan ← gate (make_plan reading);
     reports ← gate (keep_plan reading refused plan);
     _ ← act_each (wp_proposals plan);
     gate (_ ← announceMissed reports; armRetry))
    (λ _, mret tt).
(** One round of [#drain]'s loop. The check that ends it and the [finally] that says so are two
    stretches; what another stretch asks for between them is asked of a loop that has ended. *)
Definition round : flow_of unit :=
  _ ← gate (modify (λ s, s <| wm_again := false |>));
  after once (λ r,
    match r with
    | Ok _ =>
        more ← gate (s ← get; if wm_again s then _ ← start_work WorkRound; mret true else mret false);
        if more : bool then mret tt else gate (modify (λ s, s <| wm_running := false |>))
    | Err e => _ ← gate (modify (λ s, s <| wm_running := false |>)); fail e
    end).
End pool.
End Pool.
