(* ===== verification/WarmConvergeInv.v ===== *)
(** * The warm pool stays within its bounds

    The passes and flights of [WarmConverge] beside the rest of the daemon: one pass at a time, no
    more boots and creations out than are allowed, one shed for a reading, nothing begun once the
    pool is closed or while a reset is on, and a missed target told of once. *)
From stdpp Require Import base strings list option numbers gmap relations.
From S2P Require Import Prelude JsString OsRange Domain RequestStore Capacity Claims Registry RegistryInv WaitQueue Lifecycle AcquisitionState Resolve Flow Crew Devices DevicePool Provision Cleanup WarmPool WarmLearned Acquisition WarmConverge.

(** ** What a plan starts and sheds, of any view *)

Section plan.
Context `{LocaleCompare} (view : WarmPolicyView).
Local Abbreviation max := (wv_maxConcurrentBoots view).
(** Proposals of a plan, none of which sheds, with a count of what is started that is at least theirs. *)
Record capped (ps : list WarmProposal) (started : Z) : Prop := {
  cp_shed p : p ∈ ps → isShed p = false;
  cp_started : wv_pressure view = pressure_none → (started_before view + count is_start ps ≤ started)%Z;
  cp_cap : count is_start ps = 0%Z ∨ (started_before view + count is_start ps ≤ max)%Z }.
Lemma capped_more ps started started' : (started ≤ started')%Z → capped ps started → capped ps started'.
Proof. intros Hle [H1 H2 H3]. split; [done| |done]. intros Hp. specialize (H2 Hp). lia. Qed.
Lemma capped_start ps started p : isShed p = false → wv_pressure view = pressure_none → (started < max)%Z →
  capped ps started → capped (ps ++ [p]) (started + 1).
Proof.
  intros Hs Hp Hlt [H1 H2 H3]. specialize (H2 Hp). split.
  - intros q [Hq| ->%list_elem_of_singleton]%elem_of_app; auto.
  - intros _. rewrite count_app, count_singleton. destruct (is_start p); lia.
  - rewrite count_app, count_singleton. destruct (is_start p); lia.
Qed.
Lemma capped_stop ps started i reason : reason ≠ shed_memory_pressure → capped ps started →
  capped (ps ++ [ProposeShutdown i reason]) started.
Proof.
  intros Hr [H1 H2 H3]. split.
  - intros q [Hq| ->%list_elem_of_singleton]%elem_of_app; [auto|]. cbn. by apply bool_decide_eq_false_2.
  - intros Hp. specialize (H2 Hp). rewrite count_app, count_singleton. cbn. lia.
  - rewrite count_app, count_singleton. cbn. lia.
Qed.

Lemma serve_capped running bootable state demand : wv_pressure view = pressure_none →
  capped (qs_proposals state) (qs_started state) →
  let state' := serve_demand view running bootable state demand in capped (qs_proposals state') (qs_started state').
Proof.
  intros Hp Hc. unfold serve_demand. destruct (wd_inFlight demand); [done|].
  destruct (find_unmatched _ _ running); [done|]. destruct (find_unmatched _ _ (wv_onItsWay view)); [done|].
  destruct (bootForWaiter _ _ _ demand) as [state'|] eqn:Eb.
  - unfold bootForWaiter in Eb. destruct (bootsOpen view _) eqn:Eo; [|done]. cbn in Eb.
    apply bind_Some in Eb as (d & _ & [= <-]). cbn. unfold bootsOpen in Eo. apply Z.ltb_lt in Eo. by apply capped_start.
  - unfold createForWaiter. set (head := qs_atHead state).
    destruct (head && creatable _ _ _); [cbn; by eapply capped_more; [|exact Hc]; lia|].
    destruct (negb head && _ && bootsOpen view _ && _) eqn:Ec; [|done].
    rewrite !andb_true_iff in Ec. destruct Ec as [[_ Ho%Z.ltb_lt] _]. cbn. by apply capped_start.
Qed.
Lemma boots_capped running bootable room : wv_pressure view = pressure_none →
  capped (qs_proposals (boots view running bootable room)) (qs_started (boots view running bootable room)).
Proof.
  intros Hp. unfold boots. set (state := MkQueueState _ _ _ _ _ _ _ _).
  assert (capped (qs_proposals state) (qs_started state)) as Hc.
  { split; [by intros p ?%elem_of_nil|cbn; unfold count; cbn; lia|by left]. }
  clearbody state. revert state Hc. induction (wv_waiting view) as [|demand l IH]; intros state Hc; [done|].
  cbn [foldl]. apply IH. by apply serve_capped.
Qed.
Lemma queue_capped running bootable room :
  capped (qs_proposals (queue_pass view running bootable room)) (qs_started (queue_pass view running bootable room)).
Proof.
  unfold queue_pass. case_bool_decide as Hp; [by apply boots_capped|]. split; [by intros p ?%elem_of_nil|done|by left].
Qed.
Lemma plan_steps_capped kinds bootable held isIdle queued plan plan' :
  rtc (plan_step view kinds bootable held isIdle) plan plan' →
  capped (queued ++ tp_proposals plan) (tp_started plan) → capped (queued ++ tp_proposals plan') (tp_started plan').
Proof.
  induction 1 as [|plan plan1 plan' Hstep _ IH]; [done|]. intros Hc. apply IH. destruct Hstep as [spec plan1 Hp _ Hlt Hadd|spec per plan1 Hd].
  - unfold addOne in Hadd. destruct (refusedOne _ _ _ _ _); [done|].
    destruct (bootCandidate _ _ _ _); injection Hadd as <-; cbn; rewrite (assoc_L (++)); by apply capped_start.
  - unfold displaceFor in Hd. apply bind_Some in Hd as (i & _ & (victim & _ & Hd)%bind_Some). destruct (_ !== _); [done|].
    injection Hd as <-. cbn. rewrite (assoc_L (++)). by apply capped_stop.
Qed.

Lemma queued_capped : capped (qs_proposals (queued_pass view)) (qs_started (queued_pass view)).
Proof. apply queue_capped. Qed.
Lemma targets_capped :
  capped (qs_proposals (queued_pass view) ++ tp_proposals (target_pass view).1) (tp_started (target_pass view).1).
Proof. eapply plan_steps_capped; [apply planTargets_steps|]. cbn. rewrite app_nil_r. apply queued_capped. Qed.

Lemma stops_start ds reason : count is_start (shut reason <$> ds) = 0%Z.
Proof. apply count_zero. by intros p (d & -> & _)%list_elem_of_fmap. Qed.
(** What a pass starts, with all that is under way, is within the cap; it sheds only if it may. *)
Lemma plan_bounded : count is_start (wp_proposals (evaluate view)) = 0%Z
  ∨ (started_before view + count is_start (wp_proposals (evaluate view)) ≤ max)%Z.
Proof.
  unfold evaluate. destruct (wv_enabled view); cbn [negb wp_proposals]; [|left; apply stops_start].
  rewrite !count_app, !stops_start. pose proof (cp_cap _ _ targets_capped) as Hc. rewrite count_app in Hc. lia.
Qed.
Lemma plan_sheds : Arr.some isShed (wp_proposals (evaluate view)) = true → wv_mayShed view = true.
Proof.
  unfold evaluate. destruct (wv_enabled view); cbn [negb wp_proposals]; cycle 1.
  { intros (p & (d & -> & _)%list_elem_of_fmap & Hs)%asome_true. done. }
  intros (p & Hin & Hs)%asome_true. rewrite !elem_of_app in Hin.
  destruct Hin as [(d & -> & _)%list_elem_of_fmap|[Hin|[(d & -> & _)%list_elem_of_fmap|[Hin|Hin]]]]; try done.
  - by rewrite (cp_shed _ _ queued_capped p Hin) in Hs.
  - unfold shed_pass, shedForPressure in Hin. destruct ((_ === _) || negb (wv_mayShed view)) eqn:E; [by apply elem_of_nil in Hin|].
    rewrite orb_false_iff, negb_false_iff in E. by destruct E.
  - rewrite (cp_shed _ _ targets_capped p) in Hs; [done|]. apply elem_of_app. by right.
Qed.
End plan.

(** ** What was done, and why *)

Definition missed_step (i : nat) (b : bool) (e : WarmEntry) : bool :=
  match e with
  | EvTargetMissed _ covered => b || Arr.includes i covered
  | TargetsMet covered => if Arr.includes i covered then false else b
  | _ => b
  end.
(** Whether a configured target, by its position, was told of as missed and not met since. *)
Definition missed_in (i : nat) (l : list WarmEntry) : bool := foldl (missed_step i) false l.
Definition warm_justified (l : list WarmEntry) (e : WarmEntry) : Prop :=
  match e with
  | WarmLaunched _ _ maintenance | WarmStopping _ _ maintenance => maintenance = false ∧ (WarmClosed ∉ l)
  | WarmShed at_ => ∀ at', WarmShed at' ∈ l → (at' < at_)%Z
  | EvTargetMissed _ covered => ∃ i, i ∈ covered ∧ missed_in i l = false
  | _ => True
  end.
Definition all_warm_justified : list WarmEntry → Prop := each_justified warm_justified.
Lemma missed_in_snoc i l e : missed_in i (l ++ [e]) = missed_step i (missed_in i l) e.
Proof. unfold missed_in. by rewrite foldl_app. Qed.

(** What a flow is: a round of the passes, with the starts its plan has left and the reading it sheds
    for; a round that shuts a device down; a round past its last check; a flight; or neither. *)
Inductive Role :=
| Idle | Round (left_ : nat) (shed : option Z) | Stopping (left_ : nat) (deviceId : string) | Ending
| Flying (flight : Flight) (work : FlightWork).
Definition round_of (o : Role) : list unit := match o with Round _ _ | Stopping _ _ | Ending => [tt] | _ => [] end.
Definition flying_of (o : Role) : list nat := match o with Flying f _ => [fg_number f] | _ => [] end.
Definition left_of (o : Role) : list unit := match o with Round n _ | Stopping n _ => replicate n tt | _ => [] end.
(** What a flow's role has its reason for in the log. *)
Definition role_caused (l : list WarmEntry) (o : Role) : Prop :=
  match o with
  | Stopping _ deviceId => ∃ reason, WarmStopping deviceId reason false ∈ l
  | Flying f w => WarmLaunched f w false ∈ l
  | _ => True
  end.
Definition work_caused (l : list WarmEntry) (w : WarmWork) : Prop :=
  match w with WorkFlight f w => WarmLaunched f w false ∈ l | WorkRound => True end.
(** A call a flight's work makes: the boot of its device, or what a creation takes. *)
Definition work_call (w : FlightWork) (c : DriverCall) : Prop :=
  match w, c with
  | BootDevice deviceId, CallMakeReady d _ _ _ => v_id d = deviceId
  | CreateDevice _, (CallMakeReady _ _ _ _ | CallProvision _ _ | CallDestroy _) => True
  | _, _ => False
  end.
Definition stop_call (deviceId : string) (c : DriverCall) : Prop :=
  match c with CallShutdown d => v_id d = deviceId | _ => False end.
Definition begun_round (w : WarmWork) : list unit := match w with WorkRound => [tt] | _ => [] end.
Definition begun_flight (w : WarmWork) : list nat := match w with WorkFlight f _ => [fg_number f] | _ => [] end.

Section inv.
Context (maxBoots : Z).
Implicit Types (s : Warming) (o : Role) (os : list Role).

(** The books, and what leaves them alone. *)
Definition warm_quiet s s' : Prop :=
  wm_flights s' = wm_flights s ∧ wm_begun s' = wm_begun s ∧ wm_running s' = wm_running s ∧ wm_log s' = wm_log s
  ∧ wm_draining s' = wm_draining s ∧ wm_shedAt s' = wm_shedAt s ∧ wm_missed s' = wm_missed s ∧ wm_nextFlight s' = wm_nextFlight s.
Definition may_shed s (at_ : Z) : Prop := ∀ shed, wm_shedAt s = Some shed → (shed < at_)%Z.

Inductive warm_move : Role * Warming → Role * Warming → Prop :=
| mv_quiet o s s' : warm_quiet s s' → warm_move (o, s) (o, s')
| mv_begin o s : wm_running s = false →
    warm_move (o, s) (o, s <| wm_running := true |> <| wm_begun := wm_begun s ++ [WorkRound] |>)
| mv_plan s (n : nat) shed : (n = 0 ∨ (Z.of_nat (length (wm_flights s)) + Z.of_nat n ≤ maxBoots)%Z) →
    (∀ at_, shed = Some at_ → may_shed s at_) → warm_move (Round 0 None, s) (Round n shed, s)
| mv_shed s n at_ : warm_move (Round n (Some at_), s)
    (Round n None, s <| wm_shedAt := Some at_ |> <| wm_log := wm_log s ++ [WarmShed at_] |>)
| mv_launch s n shed creation spec work : wm_draining s = false →
    let f := MkFlight (wm_nextFlight s) creation spec in
    warm_move (Round (S n) shed, s)
      (Round n shed, s <| wm_flights := wm_flights s ++ [f] |> <| wm_nextFlight := S (wm_nextFlight s) |>
        <| wm_log := wm_log s ++ [WarmLaunched f work false] |> <| wm_begun := wm_begun s ++ [WorkFlight f work] |>)
| mv_stopping s n deviceId reason : wm_draining s = false →
    warm_move (Round n None, s) (Stopping n deviceId, s <| wm_log := wm_log s ++ [WarmStopping deviceId reason false] |>)
| mv_stopped s n deviceId : warm_move (Stopping n deviceId, s) (Round n None, s)
| mv_missed o s report covered i : i ∈ covered → i ∉ wm_missed s →
    warm_move (o, s) (o, s <| wm_missed := wm_missed s ++ Arr.filter (λ i, negb (Arr.includes i (wm_missed s))) covered |>
                           <| wm_log := wm_log s ++ [EvTargetMissed report covered] |>)
| mv_met o s covered :
    warm_move (o, s) (o, s <| wm_missed := Arr.filter (λ i, negb (Arr.includes i covered)) (wm_missed s) |>
                           <| wm_log := wm_log s ++ [TargetsMet covered] |>)
| mv_kick o s : warm_move (o, s) (o, s <| wm_log := wm_log s ++ [WarmKick] |>)
| mv_close o s : warm_move (o, s) (o, s <| wm_draining := true |> <| wm_log := wm_log s ++ [WarmClosed] |>)
| mv_again s n shed : warm_move (Round n shed, s) (Idle, s <| wm_begun := wm_begun s ++ [WorkRound] |>)
| mv_ending s n shed : warm_move (Round n shed, s) (Ending, s)
| mv_over s : warm_move (Ending, s) (Idle, s <| wm_running := false |>)
| mv_landed s f w : warm_move (Flying f w, s)
    (Idle, s <| wm_flights := Arr.filter (λ g, fg_number g !== fg_number f) (wm_flights s) |>).
Definition warm_moves o s o' s' : Prop := rtc warm_move (o, s) (o', s').
Definition warm_may_ask (c : WarmCall) o : Prop :=
  match c with
  | ResolveTargets _ => True
  | WarmDriver c => (∃ n deviceId, o = Stopping n deviceId ∧ stop_call deviceId c) ∨ (∃ f w, o = Flying f w ∧ work_call w c)
  end.

Record warm_sound s : Prop := {
  wd_log : all_warm_justified (wm_log s);
  wd_open : wm_draining s = false → WarmClosed ∉ wm_log s;
  wd_shed at_ : WarmShed at_ ∈ wm_log s → ∃ shed, wm_shedAt s = Some shed ∧ (at_ ≤ shed)%Z;
  wd_missed i : i ∈ wm_missed s ↔ missed_in i (wm_log s) = true }.
Record warm_joint os s : Prop := {
  wj_sound : warm_sound s;
  wj_rounds : length (os ≫= round_of) + length (wm_begun s ≫= begun_round) = if wm_running s then 1 else 0;
  wj_flights : fg_number <$> wm_flights s ≡ₚ (os ≫= flying_of) ++ (wm_begun s ≫= begun_flight);
  wj_numbers : NoDup (fg_number <$> wm_flights s);
  wj_next f : f ∈ wm_flights s → fg_number f < wm_nextFlight s;
  wj_room : (Z.of_nat (length (wm_flights s)) + Z.of_nat (length (os ≫= left_of)) ≤ Z.max 0 maxBoots)%Z;
  wj_fresh n at_ : Round n (Some at_) ∈ os → may_shed s at_ }.
(** Every flow, and all that was started, has its reason in the log. *)
Definition warm_caused os s : Prop := Forall (role_caused (wm_log s)) os ∧ Forall (work_caused (wm_log s)) (wm_begun s).
Definition warm_joined os s : Prop := warm_joint os s ∧ warm_caused os s.

(** ** What the moves keep *)

(** An entry that is about no reading, no target and not the close. *)
Lemma warm_sound_noted s s' e : warm_sound s → warm_justified (wm_log s) e →
  match e with WarmLaunched _ _ _ | WarmStopping _ _ _ | WarmKick => True | _ => False end →
  wm_log s' = wm_log s ++ [e] → wm_draining s' = wm_draining s → wm_shedAt s' = wm_shedAt s → wm_missed s' = wm_missed s →
  warm_sound s'.
Proof.
  intros [H1 H2 H3 H4] Hj He Hl Hd Hs Hm. split; rewrite Hl, ?Hd, ?Hs, ?Hm.
  - by apply each_justified_snoc.
  - intros Ho [Hin| <-%list_elem_of_singleton]%elem_of_app; [by apply H2|done].
  - intros at_ [Hin| <-%list_elem_of_singleton]%elem_of_app; [by apply H3|done].
  - intros i. rewrite missed_in_snoc, H4. by destruct e.
Qed.
Lemma sound_shed s at_ : warm_sound s → may_shed s at_ →
  warm_sound (s <| wm_shedAt := Some at_ |> <| wm_log := wm_log s ++ [WarmShed at_] |>).
Proof.
  intros [H1 H2 H3 H4] Hm. split; cbn -[missed_in].
  - apply each_justified_snoc; [done|]. intros at' (shed & Hs & Hle)%H3. specialize (Hm _ Hs). lia.
  - intros Ho [Hin|[=]%list_elem_of_singleton]%elem_of_app. by apply H2.
  - intros at' [(shed & Hs & Hle)%H3|[= ->]%list_elem_of_singleton]%elem_of_app; eexists; (split; [done|]); [specialize (Hm _ Hs)|]; lia.
  - intros i. by rewrite missed_in_snoc, H4.
Qed.
Lemma sound_missed s report covered i : warm_sound s → i ∈ covered → i ∉ wm_missed s →
  warm_sound (s <| wm_missed := wm_missed s ++ Arr.filter (λ i, negb (Arr.includes i (wm_missed s))) covered |>
                <| wm_log := wm_log s ++ [EvTargetMissed report covered] |>).
Proof.
  intros [H1 H2 H3 H4] Hi Hn. split; cbn -[missed_in].
  - apply each_justified_snoc; [done|]. exists i. split; [done|]. rewrite H4 in Hn. by destruct (missed_in i _).
  - intros Ho [Hin|[=]%list_elem_of_singleton]%elem_of_app. by apply H2.
  - intros at' [Hin|[=]%list_elem_of_singleton]%elem_of_app. by apply H3.
  - intros j. rewrite missed_in_snoc. cbn [missed_step]. unfold Arr.includes.
    rewrite elem_of_app, elem_of_afilter, negb_true_iff, bool_decide_eq_false, orb_true_iff, bool_decide_eq_true, H4.
    destruct (decide (j ∈ covered)), (missed_in j (wm_log s)); naive_solver.
Qed.
Lemma sound_met s covered : warm_sound s →
  warm_sound (s <| wm_missed := Arr.filter (λ i, negb (Arr.includes i covered)) (wm_missed s) |>
                <| wm_log := wm_log s ++ [TargetsMet covered] |>).
Proof.
  intros [H1 H2 H3 H4]. split; cbn -[missed_in].
  - by apply each_justified_snoc.
  - intros Ho [Hin|[=]%list_elem_of_singleton]%elem_of_app. by apply H2.
  - intros at' [Hin|[=]%list_elem_of_singleton]%elem_of_app. by apply H3.
  - intros j. rewrite missed_in_snoc. cbn [missed_step]. unfold Arr.includes. rewrite elem_of_afilter, negb_true_iff, bool_decide_eq_false, H4.
    case_bool_decide; naive_solver.
Qed.
Lemma sound_close s : warm_sound s → warm_sound (s <| wm_draining := true |> <| wm_log := wm_log s ++ [WarmClosed] |>).
Proof.
  intros [H1 H2 H3 H4]. split; cbn -[missed_in]; [by apply each_justified_snoc|done|..].
  - intros at' [Hin|[=]%list_elem_of_singleton]%elem_of_app. by apply H3.
  - intros j. by rewrite missed_in_snoc, H4.
Qed.
Lemma warm_sound_quiet s s' : warm_quiet s s' → warm_sound s → warm_sound s'.
Proof.
  intros (_ & _ & _ & El & Ed & Es & Em & _) [H1 H2 H3 H4]. split; rewrite ?El, ?Ed, ?Es, ?Em; done.
Qed.
Lemma may_shed_quiet s s' at_ : warm_quiet s s' → may_shed s at_ → may_shed s' at_.
Proof. intros (_ & _ & _ & _ & _ & Es & _) Hm. unfold may_shed. by rewrite Es. Qed.

Lemma only_round os n shed : length ((Round n shed :: os) ≫= round_of) ≤ 1 → ∀ n' shed', Round n' shed' ∉ os.
Proof.
  intros Hle n' shed' (l1 & l2 & ->)%list_elem_of_split. cbn in Hle. rewrite bind_app, length_app in Hle. cbn in Hle. lia.
Qed.
Lemma joint_rounds_le os s : warm_joint os s → length (os ≫= round_of) ≤ 1.
Proof. intros [_ Hr _ _ _ _ _]. destruct (wm_running s); lia. Qed.
Lemma landed_numbers (fl : list Flight) (n : nat) rest : fg_number <$> fl ≡ₚ n :: rest → NoDup (fg_number <$> fl) →
  fg_number <$> Arr.filter (λ g, fg_number g !== n) fl ≡ₚ rest.
Proof.
  intros Hp Hn. assert (fg_number <$> Arr.filter (λ g, fg_number g !== n) fl = Arr.filter (λ m, m !== n) (fg_number <$> fl)) as ->.
  { clear. induction fl as [|f fl IH]; [done|]. unfold Arr.filter in *. cbn. destruct (fg_number f !== n); cbn; by rewrite ?IH. }
  rewrite Hp in Hn. apply NoDup_cons in Hn as [Hnin Hn]. rewrite Hp. unfold Arr.filter. cbn [List.filter].
  rewrite bool_decide_eq_true_2 by done. cbn [negb]. change (Arr.filter (λ m, m !== n) rest ≡ₚ rest).
  rewrite afilter_all; [done|]. intros m Hm. rewrite bool_decide_eq_false_2; [done|]. by intros ->.
Qed.

Lemma joint_quiet os s s' : warm_joint os s → warm_quiet s s' → warm_joint os s'.
Proof.
  intros [Hs Hr Hf Hn Hx Hm Hfr] Hq. pose proof Hq as (E1 & E2 & E3 & _ & _ & _ & _ & E8).
  split; rewrite ?E1, ?E2, ?E3, ?E8; try done; [by eapply warm_sound_quiet|]. intros n at_ Hin. eapply may_shed_quiet; [done|by eapply Hfr].
Qed.
(** A move that keeps the role and the books of the flights and rounds. *)
Lemma joint_sound os s s' : warm_joint os s → warm_sound s' → wm_flights s' = wm_flights s → wm_begun s' = wm_begun s →
  wm_running s' = wm_running s → wm_nextFlight s' = wm_nextFlight s → wm_shedAt s' = wm_shedAt s → warm_joint os s'.
Proof.
  intros [_ Hr Hf Hn Hx Hm Hfr] Hs E1 E2 E3 E8 Es. split; rewrite ?E1, ?E2, ?E3, ?E8; try done.
  intros n at_ Hin. unfold may_shed. rewrite Es. by eapply Hfr.
Qed.
Lemma joint_launch os s n shed creation spec work : wm_draining s = false → warm_joint (Round (S n) shed :: os) s →
  let f := MkFlight (wm_nextFlight s) creation spec in
  warm_joint (Round n shed :: os) (s <| wm_flights := wm_flights s ++ [f] |> <| wm_nextFlight := S (wm_nextFlight s) |>
    <| wm_log := wm_log s ++ [WarmLaunched f work false] |> <| wm_begun := wm_begun s ++ [WorkFlight f work] |>).
Proof.
  intros Hd [Hs Hr Hf Hn Hx Hm Hfr] f. split.
  - eapply (warm_sound_noted s _ (WarmLaunched f work false)); try done. split; [done|by apply Hs].
  - change (length ((Round n shed :: os) ≫= round_of) + length ((wm_begun s ++ [WorkFlight f work]) ≫= begun_round)
      = if wm_running s then 1 else 0). rewrite bind_app. cbn. rewrite app_nil_r. exact Hr.
  - change (fg_number <$> wm_flights s ++ [f] ≡ₚ ((Round n shed :: os) ≫= flying_of) ++ ((wm_begun s ++ [WorkFlight f work]) ≫= begun_flight)).
    rewrite fmap_app, bind_app, Hf. cbn. by rewrite (assoc_L (++)).
  - change (NoDup (fg_number <$> wm_flights s ++ [f])). rewrite fmap_app. apply NoDup_app. split; [done|]. split; [|apply NoDup_singleton].
    intros m (g & -> & Hg)%list_elem_of_fmap He%list_elem_of_singleton. specialize (Hx g Hg). cbn in He. lia.
  - intros g [Hg%Hx|Hg%list_elem_of_singleton]%elem_of_app; [cbn; lia|]. subst g. cbn. lia.
  - change (Z.of_nat (length (wm_flights s ++ [f])) + Z.of_nat (length ((Round n shed :: os) ≫= left_of)) ≤ Z.max 0 maxBoots)%Z.
    rewrite length_app. cbn in *. lia.
  - intros m at_ [[= -> <-]|Hin]%elem_of_cons; [apply (Hfr (S n)); by left|]. eapply Hfr. by right.
Qed.
Lemma joint_landed os s f w : warm_joint (Flying f w :: os) s →
  warm_joint (Idle :: os) (s <| wm_flights := Arr.filter (λ g, fg_number g !== fg_number f) (wm_flights s) |>).
Proof.
  intros [[S1 S2 S3 S4] Hr Hf Hn Hx Hm Hfr]. split.
  - by split.
  - exact Hr.
  - by apply (landed_numbers (wm_flights s) (fg_number f)).
  - eapply sublist_NoDup; [exact Hn|]. apply fmap_sublist, sublist_filter_b.
  - by intros g [Hg _]%elem_of_afilter; apply Hx.
  - pose proof (afilter_length_le (λ g, fg_number g !== fg_number f) (wm_flights s)) as Hle.
    change (Z.of_nat (length (Arr.filter (λ g, fg_number g !== fg_number f) (wm_flights s)))
      + Z.of_nat (length ((Idle :: os) ≫= left_of)) ≤ Z.max 0 maxBoots)%Z. cbn in Hm. cbn [mbind list_bind left_of app]. lia.
  - intros m at_ [[=]|Hin]%elem_of_cons. eapply Hfr. by right.
Qed.
(** The role changes, and what else does is none of the flights. *)
Lemma joint_role os s o o' s' : warm_joint (o :: os) s → warm_sound s' →
  length (round_of o') + length (wm_begun s' ≫= begun_round) + (if wm_running s then 1 else 0)
    = length (round_of o) + length (wm_begun s ≫= begun_round) + (if wm_running s' then 1 else 0) →
  flying_of o' = flying_of o → wm_begun s' ≫= begun_flight = wm_begun s ≫= begun_flight →
  wm_flights s' = wm_flights s → wm_nextFlight s' = wm_nextFlight s →
  (length (left_of o') ≤ length (left_of o) ∨ (Z.of_nat (length (wm_flights s)) + Z.of_nat (length (left_of o')) ≤ maxBoots)%Z
     ∧ length (round_of o) = 1) →
  (∀ n at_, o' = Round n (Some at_) → may_shed s' at_) →
  (wm_shedAt s' = wm_shedAt s ∨ length (round_of o) = 1) → warm_joint (o' :: os) s'.
Proof.
  intros [Hs Hr Hf Hn Hx Hm Hfr] Hs' Er Efl Eb E1 E8 Hleft Hfresh Hsh. rewrite bind_cons, length_app in Hr, Hm. rewrite bind_cons in Hf.
  assert (length (round_of o) = 1 → os ≫= left_of = [] ∧ ∀ n at_, Round n at_ ∉ os) as Hone.
  { intros H1. assert (length (os ≫= round_of) = 0) as H0 by (destruct (wm_running s); lia). clear -H0.
    induction os as [|p os IH]; [split; [done|by intros ? ? ?%elem_of_nil]|].
    rewrite bind_cons, length_app in H0. destruct p; cbn in H0; try lia; (destruct IH as [IH1 IH2]; [lia|]);
      (split; [done|]); by intros n at_ [[=]|?%IH2]%elem_of_cons. }
  split; rewrite ?bind_cons, ?length_app, ?E1, ?E8, ?Efl, ?Eb; try done.
  - lia.
  - destruct Hleft as [Hle|[Hle H1]]; [lia|]. destruct (Hone H1) as [-> _]. cbn. lia.
  - intros n at_ [Heq|Hin]%elem_of_cons; [by apply (Hfresh n)|]. destruct Hsh as [Es|H1]; [|by destruct (proj2 (Hone H1) n (Some at_))].
    unfold may_shed. rewrite Es. eapply Hfr. by right.
Qed.
Lemma joint_move o os s o' s' : warm_joint (o :: os) s → warm_move (o, s) (o', s') → warm_joint (o' :: os) s'.
Proof.
  intros Hj Hm. pose proof (wj_sound _ _ Hj) as Hs. inversion Hm as [? ? ? Hq|? ? Hrun|? n shed Hn Hsh|? n at_|? n shed creation spec work Hd|
    ? n deviceId reason Hd|? n deviceId|? ? report covered i Hi Hni|? ? covered| | |? n shed|? n shed| |]; subst.
  - by eapply joint_quiet.
  - destruct Hs as [S1 S2 S3 S4]. apply (joint_role os s o'); try done.
    + cbn. rewrite bind_app, length_app, Hrun. cbn. lia.
    + cbn. rewrite bind_app. cbn. by rewrite app_nil_r.
    + by left.
    + intros n at_ ->. eapply (wj_fresh _ _ Hj n). by left.
    + by left.
  - apply (joint_role os s' (Round 0 None)); try done.
    + cbn. rewrite length_replicate. destruct Hn as [->|Hn]; [by left|]. by right.
    + intros n' at_ [= _ ->]. by apply Hsh.
    + by left.
  - apply (joint_role os s (Round n (Some at_))); try done; [|by left|by right]. apply sound_shed; [done|].
    eapply (wj_fresh _ _ Hj n). by left.
  - by apply joint_launch.
  - apply (joint_role os s (Round n None)); try done; [|by left|by left].
    eapply (warm_sound_noted s _ (WarmStopping deviceId reason false)); try done. split; [done|by apply Hs].
  - apply (joint_role os s' (Stopping n deviceId)); try done; by left.
  - eapply joint_sound; try done. by eapply sound_missed.
  - eapply joint_sound; try done. by apply sound_met.
  - eapply joint_sound; try done. by eapply (warm_sound_noted s _ WarmKick).
  - eapply joint_sound; try done. by apply sound_close.
  - destruct Hs as [S1 S2 S3 S4]. apply (joint_role os s (Round n shed)); try done.
    + cbn. rewrite bind_app, length_app. cbn. lia.
    + cbn. rewrite bind_app. cbn. by rewrite app_nil_r.
    + left. cbn. lia.
    + by left.
  - apply (joint_role os s' (Round n shed)); try done; [left; cbn; lia|by left].
  - destruct Hs as [S1 S2 S3 S4]. pose proof (wj_rounds _ _ Hj) as Hr. cbn in Hr.
    apply (joint_role os s Ending); try done; [|by left..]. cbn. destruct (wm_running s); lia.
  - by eapply joint_landed.
Qed.
(** A move adds to the log at its end, and what it starts has its reason there. *)
Lemma caused_grows l e o : role_caused l o → role_caused (l ++ e) o.
Proof. destruct o; cbn; [done..| |done|]; [intros [reason Hin]; exists reason|intros Hin]; apply elem_of_app; by left. Qed.
Lemma work_grows l e w : work_caused l w → work_caused (l ++ e) w.
Proof. destruct w; cbn; [done|]. intros Hin. apply elem_of_app. by left. Qed.
Lemma caused_more os s s' e : warm_caused os s → wm_log s' = wm_log s ++ e → wm_begun s' = wm_begun s → warm_caused os s'.
Proof.
  intros [Ho Hb] El Eb. unfold warm_caused. rewrite El, Eb. split; eapply Forall_impl; [exact Ho| |exact Hb|]; intros; [by apply caused_grows|by apply work_grows].
Qed.
Lemma caused_role o o' os s : warm_caused (o :: os) s → role_caused (wm_log s) o' → warm_caused (o' :: os) s.
Proof. intros [[_ Ho]%Forall_cons Hb] Ho'. split; [by constructor|done]. Qed.
Lemma caused_begins os s w : warm_caused os s → work_caused (wm_log s) w → warm_caused os (s <| wm_begun := wm_begun s ++ [w] |>).
Proof. intros [Ho Hb] Hw. split; [done|]. apply Forall_app. split; [done|by constructor]. Qed.
Lemma caused_move o os s o' s' : warm_caused (o :: os) s → warm_move (o, s) (o', s') → warm_caused (o' :: os) s'.
Proof.
  intros Hc Hm. inversion Hm as [? ? ? (_ & Eb & _ & El & _)|? ? Hrun|? n shed Hn Hsh|? n at_|? n shed creation spec work Hd|
    ? n deviceId reason Hd|? n deviceId|? ? report covered i Hi Hni|? ? covered| | |? n shed|? n shed| |]; subst.
  - apply (caused_more _ s _ []); rewrite ?app_nil_r; done.
  - exact (caused_begins _ s WorkRound Hc I).
  - by eapply caused_role.
  - eapply caused_role; [by eapply (caused_more _ s)|done].
  - match goal with |- warm_caused _ (?s1 <| wm_begun := _ |>) => apply (caused_begins _ s1 (WorkFlight _ work)) end.
    + eapply caused_role; [by eapply (caused_more _ s)|done].
    + cbn. apply elem_of_app. right. by left.
  - eapply caused_role; [by eapply (caused_more _ s)|]. exists reason. cbn. apply elem_of_app. right. by left.
  - by eapply caused_role.
  - by eapply (caused_more _ s).
  - by eapply (caused_more _ s).
  - by eapply (caused_more _ s).
  - by eapply (caused_more _ s).
  - apply caused_begins; [by eapply caused_role|done].
  - by eapply caused_role.
  - eapply caused_role; [by eapply (caused_more _ s _ []); rewrite ?app_nil_r|done].
  - eapply caused_role; [by eapply (caused_more _ s _ []); rewrite ?app_nil_r|done].
Qed.
Lemma warm_joined_moves o os s o' s' : warm_joined (o :: os) s → warm_moves o s o' s' → warm_joined (o' :: os) s'.
Proof.
  intros Hj Hm. unfold warm_moves in Hm. remember (o, s) as x eqn:Ex. remember (o', s') as y eqn:Ey. revert o s Ex Hj.
  induction Hm as [x|x [o1 s1] y Hstep _ IH]; intros o s -> [Hj Hc]; [by simplify_eq|]. eapply IH; [done|done|].
  split; [by eapply joint_move|by eapply caused_move].
Qed.
Lemma warm_joint_perm os os' s : os ≡ₚ os' → warm_joint os s → warm_joint os' s.
Proof.
  intros Hp [Hs Hr Hf Hn Hx Hm Hfr]. split; rewrite <- ?Hp; try done. intros n at_. rewrite <- Hp. apply Hfr.
Qed.
Lemma warm_joined_perm os os' s : os ≡ₚ os' → warm_joined os s → warm_joined os' s.
Proof. intros Hp [Hj [Ho Hb]]. split; [by eapply warm_joint_perm|]. split; [by rewrite <- Hp|done]. Qed.
Lemma warm_joined_quiet os s s' : warm_joined os s → warm_quiet s s' → warm_joined os s'.
Proof.
  intros [Hj Hc] Hq. split; [by eapply joint_quiet|]. destruct Hq as (_ & Eb & _ & El & _).
  apply (caused_more _ s _ []); rewrite ?app_nil_r; done.
Qed.
End inv.

Section flows.
Context `{LocaleCompare} {S : Type} `{CapacityStrategy S} (strategy : S) (options : RegistryOptions)
  (hasDriver : Platform → bool) (estimate : Platform → EstimateOperation → DeviceSpec → Z)
  (generate : Shared → string) (shutdownAfterMs : Z) (defaultMode : Platform → DeviceMode) (config : WarmPoolConfig).
Local Abbreviation flow_of R := (flow Warming WarmCall WarmAnswer DeviceError R).
Local Abbreviation op A := (action Warming DeviceError A).
Local Abbreviation moves := (warm_moves (wc_maxConcurrentBoots config)).
Local Abbreviation move := (warm_move (wc_maxConcurrentBoots config)).
Local Abbreviation does := (Crew.does (D := WarmAnswer) (E := DeviceError) moves warm_may_ask).
Local Abbreviation keeps := (Crew.keeps (D := WarmAnswer) (E := DeviceError) moves warm_may_ask).
Local Abbreviation calm := (Crew.calm warm_quiet).
Implicit Types (s : Warming) (o : Role).

#[local] Instance warm_quiet_preorder : PreOrder warm_quiet.
Proof.
  split; [intros s; by split_and!|]. intros s1 s2 s3 (A1 & A2 & A3 & A4 & A5 & A6 & A7 & A8) (B1 & B2 & B3 & B4 & B5 & B6 & B7 & B8).
  split_and!; congruence.
Qed.
#[local] Instance warm_quiet_moves : QuietMoves moves warm_quiet.
Proof. intros o s s' Hq. by apply rtc_once, mv_quiet. Qed.
Lemma moves_one o s o' s' : move (o, s) (o', s') → moves o s o' s'.
Proof. apply rtc_once. Qed.
Lemma moves_trans o1 s1 o2 s2 o3 s3 : moves o1 s1 o2 s2 → moves o2 s2 o3 s3 → moves o1 s1 o3 s3.
Proof. unfold warm_moves. by etrans. Qed.
Lemma moves_quiet o s s' : warm_quiet s s' → moves o s o s'.
Proof. apply quiet_moves. Qed.
Lemma keeps_moving {A} o (m : op A) : (∀ s, moves o s o (m s).1) → keeps o (gate m).
Proof. intros Hm. apply does_gate. intros s. exists o. by split. Qed.

Lemma keeps_kick o : keeps o (gate Pool.kick).
Proof. apply keeps_moving. intros s. apply moves_one, mv_kick. Qed.
Lemma pass_moves o s : moves o s o (Pool.pass s).1.
Proof.
  unfold Pool.pass, get, mbind, action_bind. cbv beta iota. destruct (wm_running s) eqn:E; [by apply moves_quiet|]. by apply moves_one, mv_begin.
Qed.
Lemma trigger_moves o s : moves o s o (Pool.trigger s).1.
Proof.
  unfold Pool.trigger, get, mbind, action_bind. cbv beta iota. destruct (_ || _); [by apply moves_quiet|]. apply pass_moves.
Qed.

(** ** The sections that leave the books alone *)

Lemma calm_on_record f : calm (Pool.on_record f).
Proof. unfold Pool.on_record. keep. Qed.
Lemma calm_recording work : calm work → calm (Pool.recording work).
Proof. intros Hw s. unfold Pool.recording. specialize (Hw s). by destruct (work s) as [s' [a|e]]. Qed.
#[local] Hint Resolve calm_on_record calm_recording keeps_kick : calm.
#[local] Hint Extern 0 (warm_may_ask _ _) => done : calm.
Lemma calm_closeOpenRows : calm Pool.closeOpenRows.
Proof. unfold Pool.closeOpenRows. keep. apply calm_recording. keep. Qed.
Lemma calm_failed spec : calm (Pool.failed_launch config spec).
Proof. unfold Pool.failed_launch. keep. Qed.
Lemma calm_hold deviceId : calm (Pool.hold_boot strategy deviceId).
Proof. unfold Pool.hold_boot. keep. Qed.
Lemma calm_forgets (ks : list LearnedKind) (m : op unit) : calm m →
  calm (foldl (λ m kind, _ ← m; Pool.recording (Pool.on_record (λ db, forget db (lk_spec kind)))) m ks).
Proof. revert m. induction ks as [|k ks IH]; intros m Hm; cbn [foldl]; [done|]. apply IH. keep. Qed.
Lemma calm_checkCatalog : calm (Pool.checkCatalog hasDriver config).
Proof. unfold Pool.checkCatalog. keep. apply calm_forgets. keep. Qed.
Lemma calm_armRetry : calm Pool.armRetry.
Proof. unfold Pool.armRetry. keep. Qed.
#[local] Hint Resolve calm_closeOpenRows calm_failed calm_hold calm_checkCatalog calm_armRetry : calm.
Lemma keeps_resolveTargets o : keeps o (Pool.resolveTargets defaultMode config).
Proof. unfold Pool.resolveTargets, Pool.take_answers. keep. Qed.
#[local] Hint Resolve keeps_resolveTargets : calm.
Lemma keeps_resolveEnabled o : keeps o (Pool.resolveEnabled hasDriver defaultMode config).
Proof. unfold Pool.resolveEnabled. keep. Qed.
Lemma keeps_targeted o : keeps o (Pool.targeted strategy defaultMode config).
Proof. unfold Pool.targeted. keep. Qed.
Lemma calm_open_pass : calm Pool.open_pass.
Proof. unfold Pool.open_pass, Pool.markReset. keep. Qed.
#[local] Hint Resolve keeps_resolveEnabled keeps_targeted calm_open_pass : calm.

(** ** What the device operations ask of the drivers *)

Lemma target_same r target states d : ManagedDevice.registeredTarget r target states = Some d → v_id d = v_id target.
Proof.
  unfold ManagedDevice.registeredTarget. destruct (Arr.find _ _) as [d'|] eqn:Ef; [|done]. destruct (_ || _); [done|]. intros [= ->].
  apply afind_Some in Ef as [_ He]. by apply bool_decide_eq_true in He.
Qed.
Lemma asks_claim {R} (P : DriverCall → Prop) target states operation k (f : option (DeviceOperationClaim * VirtualDevice) → flow Shared DriverCall DriverAnswer DeviceError R) :
  asks P (f None) → (∀ k d, v_id d = v_id target → asks P (f (Some (k, d)))) → asks P (ManagedDevice.claim target states operation k ≫= f).
Proof.
  intros Hn Hs. apply asks_section. intros s a. destruct (ManagedDevice.registeredTarget _ _ _) as [d|] eqn:Et; [|by intros [= <-]].
  apply target_same in Et. destruct k as [k|].
  - destruct (_ || _); intros [= <-]; [done|by apply Hs].
  - destruct (tryClaim _ _ _ _) as [[t k]|]; intros [= <-]; [by apply Hs|done].
Qed.
Lemma asks_shutdown device initiator operation k :
  asks (stop_call (v_id device)) (ManagedDevice.shutdown options hasDriver device initiator operation k).
Proof.
  unfold ManagedDevice.shutdown. apply asks_claim; [ask|]. intros k' d Hd.
  unfold ManagedDevice.releasing, ManagedDevice.drive, ManagedDevice.get_driver. ask.
Qed.
Lemma asks_destroy spec device initiator operation k :
  asks (work_call (CreateDevice spec)) (ManagedDevice.destroy options hasDriver device initiator operation k).
Proof. unfold ManagedDevice.destroy, ManagedDevice.claim, ManagedDevice.releasing, ManagedDevice.drive, ManagedDevice.get_driver. ask. Qed.
Definition ready_call (deviceId : string) (c : DriverCall) : Prop :=
  match c with CallMakeReady d _ _ _ => v_id d = deviceId | _ => False end.
Lemma asks_makeReady device state k except :
  asks (ready_call (v_id device)) (ManagedDevice.makeReadyForLease options hasDriver device state k except).
Proof.
  unfold ManagedDevice.makeReadyForLease. apply asks_claim; [ask|]. intros k' d Hd.
  unfold ManagedDevice.releasing, ManagedDevice.drive, ManagedDevice.get_driver,
    ManagedDevice.read_now, ManagedDevice.commitWithoutRelease, ManagedDevice.release. ask.
Qed.
Lemma asks_bootWarm device k : asks (work_call (BootDevice (v_id device))) (ManagedDevice.bootWarm options hasDriver device k).
Proof.
  unfold ManagedDevice.bootWarm. apply asks_bind; [|unfold ManagedDevice.release; ask].
  eapply asks_weaken; [|apply asks_makeReady]. by intros [].
Qed.
Lemma asks_provision spec progress spec' claim except reservation :
  asks (work_call (CreateDevice spec)) (Provisioner.provision options hasDriver estimate generate progress spec' claim except reservation).
Proof.
  assert (∀ device state k except, asks (work_call (CreateDevice spec)) (ManagedDevice.makeReadyForLease options hasDriver device state k except)).
  { intros. eapply asks_weaken; [|apply asks_makeReady]. by intros []. }
  unfold Provisioner.provision, Provisioner.makeReady, ManagedDevice.get_driver, ManagedDevice.read_now, ManagedDevice.readyProvisionedForLease.
  repeat (intros; cbv beta zeta; first [done|apply asks_destroy|ask_step]).
Qed.
Lemma keeps_boots {R} (f : flow Shared DriverCall DriverAnswer DeviceError R) flight w : asks (work_call w) f →
  keeps (Flying flight w) (Pool.within f).
Proof.
  intros Hf. apply (keeps_embed_asks _ _ warm_quiet _ _ _ _ _ (work_call w)); [done| |done]. intros c Hc. right. by exists flight, w.
Qed.
Lemma keeps_stops {R} (f : flow Shared DriverCall DriverAnswer DeviceError R) n deviceId : asks (stop_call deviceId) f →
  keeps (Stopping n deviceId) (Pool.within f).
Proof.
  intros Hf. apply (keeps_embed_asks _ _ warm_quiet _ _ _ _ _ (stop_call deviceId)); [done| |done]. intros c Hc. left. by exists n, deviceId.
Qed.
#[local] Hint Resolve keeps_boots keeps_stops asks_shutdown asks_bootWarm asks_provision : calm.

(** ** A flight *)

(** A section's answer is known to what a flow does after it. *)
Lemma keeps_section {A B} o (m : op A) (k : A → flow_of B) : calm m → (∀ s a, (m s).2 = Ok a → keeps o (k a)) → keeps o (gate m ≫= k).
Proof.
  intros Hm Hk. apply does_bind, does_gate. intros s. exists o. split; [apply moves_quiet, Hm|].
  destruct (m s).2 as [a|e] eqn:E; [by apply (Hk s)|done].
Qed.
Lemma unleased_same s deviceId state d : Pool.unleased s deviceId state = Some d → v_id d = deviceId.
Proof.
  unfold Pool.unleased. destruct (Arr.find _ _) as [d'|] eqn:Ef; [|done]. destruct (_ || _); [done|]. intros [= ->].
  apply afind_Some in Ef as [_ He]. by apply bool_decide_eq_true in He.
Qed.
Lemma hold_boot_same s deviceId k d reservation : (Pool.hold_boot strategy deviceId s).2 = Ok (Some (k, d, reservation)) → v_id d = deviceId.
Proof.
  unfold Pool.hold_boot, get, mbind, action_bind. cbv beta iota. destruct (Pool.unleased _ _ _) as [d'|] eqn:Eu; [|done]. apply unleased_same in Eu.
  cbv zeta. destruct (tryReserveBoot _ _ _ _ _ _) as [[c r]|e]; [|done]. destruct (tryClaim _ _ _ _) as [[t k']|]; [|done].
  by intros [= <- <- <-].
Qed.
Lemma keeps_boot flight deviceId : keeps (Flying flight (BootDevice deviceId)) (Pool.boot strategy options hasDriver config deviceId (fg_spec flight)).
Proof.
  unfold Pool.boot. apply keeps_section; [keep|]. intros s [[[k d] reservation]|] Hh; [|keep]. apply hold_boot_same in Hh as <-.
  unfold Pool.let_go, Pool.attempt_succeeded. keep.
Qed.
Lemma keeps_work flight work : keeps (Flying flight work) (Pool.run_work strategy options hasDriver estimate generate config flight work).
Proof.
  destruct work as [deviceId|spec]; cbn [Pool.run_work]; [apply keeps_boot|]. unfold Pool.provision, Pool.attempt_succeeded. keep.
Qed.
Lemma end_flight_moves flight work attempted s : moves (Flying flight work) s Idle (Pool.end_flight flight attempted s).1.
Proof.
  unfold Pool.end_flight, mbind, action_bind. cbv beta iota. eapply moves_trans; [apply moves_one, mv_landed|]. cbn.
  destruct attempted; [apply trigger_moves|by apply moves_quiet].
Qed.
Lemma recording_ok work s : (Pool.recording work s).2 = Ok tt.
Proof. unfold Pool.recording. by destruct (work s) as [s' [[]|e]]. Qed.
Lemma failed_launch_ok spec s : (Pool.failed_launch config spec s).2 = Ok tt.
Proof.
  unfold Pool.failed_launch, get, mbind, action_bind. cbv beta iota zeta. cbn [modify]. destruct (_ <? _)%Z; [done|]. destruct (Arr.some _ _); [done|].
  destruct (negb _); [done|]. match goal with |- context [Pool.recording ?w ?s] => pose proof (recording_ok w s); destruct (Pool.recording w s) as [s' [[]|e]] end; done.
Qed.
Definition warm_final (r : result DeviceError unit) (o : Role) : Prop := o = Idle.
Lemma does_fly flight work : does (Flying flight work) (Pool.fly strategy options hasDriver estimate generate config flight work) warm_final.
Proof.
  unfold Pool.fly. apply does_bind, does_try.
  assert (∀ attempted, does (Flying flight work) (gate (Pool.end_flight flight attempted)) warm_final) as Hend.
  { intros attempted. apply does_gate. intros s. exists Idle. split; [apply end_flight_moves|done]. }
  apply does_keeps; [apply keeps_work|]. intros [attempted|e]; [apply Hend|]. apply does_bind, does_gate. intros s. exists (Flying flight work).
  split; [apply moves_quiet, calm_failed|]. rewrite failed_launch_ok. by apply does_done.
Qed.

(** ** A round *)

(** At a round, or done with a shutdown of one. *)
Definition at_round {R} (_ : result DeviceError R) (o : Role) : Prop := ∃ n shed, ∀ s, moves o s (Round n shed) s.
Lemma round_at {R} (r : result DeviceError R) n shed : at_round r (Round n shed).
Proof. exists n, shed. intros s. by apply moves_quiet. Qed.
Definition working (n : nat) (o : Role) : Prop := ∀ s, moves o s (Round n None) s.
Lemma working_at {R} (r : result DeviceError R) n o : working n o → at_round r o.
Proof. intros Hw. by exists n, None. Qed.
Lemma working_round n : working n (Round n None).
Proof. intros s. by apply moves_quiet. Qed.
Lemma working_stopping n deviceId : working n (Stopping n deviceId).
Proof. intros s. apply moves_one, mv_stopped. Qed.
#[local] Hint Resolve round_at working_at working_round working_stopping : core.
Lemma launch_moves n shed spec creation work s : wm_draining s = false → Pool.maintenanceActive s = false →
  moves (Round (Datatypes.S n) shed) s (Round n shed) (Pool.launch spec creation work s).1.
Proof.
  intros Hd Hm. unfold Pool.launch, Pool.note, Pool.start_work, get, mbind, action_bind. cbv beta iota zeta. rewrite Hm. apply moves_one.
  by apply (mv_launch _ s n shed creation spec work).
Qed.
(** An action leaves the starts of the rest of the plan; a shutdown is begun for its device. *)
Lemma act_moves n proposal s (rest : nat) : (if is_start proposal then 1 else 0) + rest ≤ n →
  ∃ n' o a, rest ≤ n' ∧ moves (Round n None) s o (Pool.act proposal s).1 ∧ (Pool.act proposal s).2 = Ok a
    ∧ o = match a with Pool.ActShutdown deviceId => Stopping n' deviceId | _ => Round n' None end.
Proof.
  intros Hn. unfold Pool.act, get, mbind, action_bind. cbv beta iota. destruct (wm_draining s) eqn:Ed.
  { eexists n, _, _. split; [destruct (is_start _); lia|]. split_and!; [|done..]. by apply moves_quiet. }
  destruct (Pool.maintenanceActive s) eqn:Em.
  { eexists n, _, _. split; [destruct (is_start _); lia|]. split_and!; [|done..]. by apply moves_quiet. }
  destruct proposal as [i reason|i reason target|spec reason target]; cbn [is_start] in Hn.
  - destruct (_ <? _)%Z; eexists n, _, _; (split; [lia|]); (split_and!; [|done..]); [by apply moves_quiet|]. apply moves_one. by apply mv_stopping.
  - destruct n as [|n]; [lia|]. destruct (Pool.ownerOf s i reason target) as [owner|].
    + eexists n, _, _. split; [lia|]. split_and!; [|done..]. exact (launch_moves n None owner false (BootDevice i) s Ed Em).
    + eexists (Datatypes.S n), _, _. split; [lia|]. split_and!; [|done..]. by apply moves_quiet.
  - destruct n as [|n]; [lia|]. eexists n, _, _. split; [lia|]. split_and!; [|done..].
    exact (launch_moves n None target true (CreateDevice spec) s Ed Em).
Qed.
Lemma keeps_shutdown n deviceId : keeps (Stopping n deviceId) (Pool.shutdown options hasDriver deviceId).
Proof.
  unfold Pool.shutdown. apply keeps_section; [keep|]. intros s device Hu.
  change (Ok (E := DeviceError) (Pool.unleased s deviceId ready) = Ok device) in Hu. injection Hu as Hu. destruct device as [device|]; [|keep]. apply unleased_same in Hu as <-. keep.
Qed.
Definition starts (ps : list WarmProposal) : nat := length (Arr.filter is_start ps).
Lemma does_act_each ps n o : working n o → starts ps ≤ n → does o (Pool.act_each options hasDriver ps) at_round.
Proof.
  revert n o. induction ps as [|p ps IH]; intros n o Ho Hn; cbn [Pool.act_each]; [apply does_done; eauto|].
  assert ((if is_start p then 1 else 0) + starts ps ≤ n) as Hn' by (unfold starts, Arr.filter in *; cbn in Hn; destruct (is_start p); cbn in Hn; lia).
  apply does_bind, does_gate. intros s. destruct (act_moves n p s (starts ps) Hn') as (n' & o' & a & Hle & Hm & Ha & ->).
  eexists. split; [eapply moves_trans; [apply Ho|exact Hm]|]. rewrite Ha.
  destruct a; [by eapply IH| |apply does_done; eauto].
  apply does_bind, does_keeps; [apply keeps_shutdown|]. intros [[]|e]; [by eapply IH|eauto].
Qed.

Definition shed_of (reading : option (Z * PressureStep)) (plan : WarmPlan) : option Z :=
  if Arr.some isShed (wp_proposals plan) then fst <$> reading else None.
Lemma does_make_plan reading : does (Round 0 None)
  (gate (Pool.make_plan strategy hasDriver shutdownAfterMs config reading))
  (λ r o, ∃ plan, r = Ok plan ∧ o = Round (starts (wp_proposals plan)) (shed_of reading plan)).
Proof.
  apply does_gate. intros s. unfold Pool.make_plan, get, mbind, action_bind. cbv beta iota. cbn [modify].
  set (s1 := s <| wm_reset := _ |>). set (plan := evaluate _). exists (Round (starts (wp_proposals plan)) (shed_of reading plan)).
  split; [|by exists plan]. eapply moves_trans; [apply moves_quiet; by instantiate (1 := s1)|]. apply moves_one, mv_plan.
  - pose proof (plan_bounded (Pool.view strategy hasDriver shutdownAfterMs config s1 reading)) as Hb. fold plan in Hb.
    unfold started_before, count in Hb. fold (starts (wp_proposals plan)) in Hb. cbn -[starts] in Hb. rewrite length_fmap in Hb.
    match goal with |- context [length (wm_flights ?x)] => change (wm_flights x) with (wm_flights s) end. lia.
  - unfold shed_of. destruct (Arr.some isShed _) eqn:Es; [|done]. intros at_ Hat. apply plan_sheds in Es. cbn in Es.
    destruct reading as [[at' step]|]; [|done]. injection Hat as ->. intros shed Hshed. change (wm_shedAt s = Some shed) in Hshed.
    rewrite Hshed in Es. by apply Z.ltb_lt in Es.
Qed.
Lemma does_keep_plan reading refused plan n : does (Round n (shed_of reading plan)) (gate (Pool.keep_plan reading refused plan))
  (λ r o, ∃ reports, r = Ok reports ∧ o = Round n None).
Proof.
  apply does_gate. intros s. unfold Pool.keep_plan, shed_of, mbind, action_bind. cbv beta iota. destruct reading as [[at_ step]|].
  - destruct (Arr.some _ _); cbn [fmap option_fmap option_map fst].
    + exists (Round n None). split; [|by eauto]. eapply moves_trans; [apply moves_one, mv_shed|]. by apply moves_quiet.
    + exists (Round n None). split; [by apply moves_quiet|by eauto].
  - destruct (Arr.some _ _); cbn [fmap option_fmap option_map]; (exists (Round n None); split; [by apply moves_quiet|by eauto]).
Qed.

Lemma announce_moves o report s : moves o s o (Pool.announce report s).1 ∧ (Pool.announce report s).2 = Ok tt.
Proof.
  unfold Pool.announce, get, mbind, action_bind. cbv beta iota zeta. set (covered := Pool.coveredBy s report).
  destruct (_ <=? _)%Z; [split; [exact (moves_one _ _ _ _ (mv_met _ o s covered))|done]|]. destruct (pr_short report); [|split; [by apply moves_quiet|done]].
  destruct (Arr.filter _ covered) as [|i fresh] eqn:Ef; cbn [modify].
  - split; [|done]. apply moves_quiet. rewrite app_nil_r. by split_and!.
  - split; [|done]. assert (i ∈ Arr.filter (λ i, negb (Arr.includes i (wm_missed s))) covered) as Hi by (rewrite Ef; by left).
    apply elem_of_afilter in Hi as [Hi Hn]. unfold Arr.includes in Hn. rewrite negb_true_iff, bool_decide_eq_false in Hn.
    rewrite <- Ef. apply moves_one. by apply (mv_missed _ o s report covered i).
Qed.
Lemma announceMissed_moves o reports s : moves o s o (Pool.announceMissed reports s).1.
Proof.
  revert s. induction reports as [|r reports IH]; intros s; cbn [Pool.announceMissed]; [by apply moves_quiet|].
  unfold mbind, action_bind. destruct (announce_moves o r s) as [Hm Ha]. destruct (Pool.announce r s) as [s1 x]. cbn in Hm, Ha. subst x.
  eapply moves_trans; [exact Hm|apply IH].
Qed.
Lemma end_pass_moves o reports s : moves o s o ((_ ← Pool.announceMissed reports; Pool.armRetry) s).1.
Proof.
  unfold mbind, action_bind. pose proof (announceMissed_moves o reports s) as Hm. destruct (Pool.announceMissed reports s) as [s1 [[]|e]]; [|done].
  eapply moves_trans; [exact Hm|]. apply moves_quiet, calm_armRetry.
Qed.
Lemma does_once : does (Round 0 None) (Pool.once strategy options hasDriver shutdownAfterMs defaultMode config) at_round.
Proof.
  unfold Pool.once. apply does_bind, does_keeps; [keep|]. intros [[]|e]; cbn [negb]; [|apply does_done; eauto|eauto].
  apply does_try. eapply (does_mono _ _ _ _ at_round); cycle 1.
  { intros [[]|e] o Ho; [exact Ho|by apply does_done]. }
  apply does_bind, does_keeps; [keep|]. intros [refused|e]; [|eauto].
  apply does_bind, does_keeps; [keep|]. intros [reading|e]; [|eauto].
  apply does_bind. eapply does_mono; [apply does_make_plan|]. intros r o (plan & -> & ->).
  apply does_bind. eapply does_mono; [apply does_keep_plan|]. intros r o (reports & -> & ->).
  apply does_bind. eapply does_mono; [by eapply does_act_each|]. intros [[]|e] o Ho; [|exact Ho].
  apply does_keeps; [|intros r; exact Ho]. apply keeps_moving. intros s. apply end_pass_moves.
Qed.
Lemma does_over : does Ending (gate (modify (λ s, s <| wm_running := false |>))) warm_final.
Proof. apply does_gate. intros s. exists Idle. split; [apply moves_one, mv_over|done]. Qed.
Lemma does_round : does (Round 0 None) (Pool.round strategy options hasDriver shutdownAfterMs defaultMode config) warm_final.
Proof.
  unfold Pool.round. apply does_bind, (does_section _ _ _ (Round 0 None) _ tt); [intros s; by apply moves_quiet|done|].
  apply does_after. eapply does_mono; [apply does_once|]. intros [[]|e] o (n & shed & Ho).
  - apply does_bind, does_gate. intros s. unfold get, mbind, action_bind. cbv beta iota. destruct (wm_again s).
    + exists Idle. split; [eapply moves_trans; [apply Ho|apply moves_one, mv_again]|by apply does_done].
    + exists Ending. split; [eapply moves_trans; [apply Ho|apply moves_one, mv_ending]|apply does_over].
  - apply does_bind, does_gate. intros s. exists Idle. split; [|by apply does_done].
    eapply moves_trans; [apply Ho|]. eapply moves_trans; apply moves_one; [apply mv_ending|apply mv_over].
Qed.

(** ** The pool at work *)

(** What the rest of the daemon calls, the bus's subscriptions and the timers included. *)
Inductive PoolCommand :=
| CmdStart | CmdPass | CmdTrigger | CmdTick | CmdRetry | CmdReading | CmdDispose | CmdClose | CmdForget
| CmdLeaseGranted (deviceId leaseId : string)
| CmdLeaseEnded (leaseId : string)
| CmdForgetKinds (m : LearnedKindMatch)
| CmdCatalogAnswers (n : nat) (entries : list PlatformCatalog)
| CmdCatalogFails (n : nat).
Definition pool_command (c : PoolCommand) : op unit :=
  match c with
  | CmdStart => Pool.start
  | CmdPass => Pool.pass
  | CmdTrigger => Pool.trigger
  | CmdTick => Pool.tick_fires
  | CmdRetry => Pool.retry_fires
  | CmdReading => Pool.reading_taken
  | CmdDispose => Pool.dispose
  | CmdClose => Pool.close
  | CmdForget => Pool.forget_all
  | CmdLeaseGranted deviceId leaseId => Pool.lease_granted config deviceId leaseId
  | CmdLeaseEnded leaseId => Pool.lease_ended leaseId
  | CmdForgetKinds m => _ ← Pool.forgetKinds m; mret tt
  | CmdCatalogAnswers n entries => Pool.catalog_answers n entries
  | CmdCatalogFails n => Pool.catalog_fails n
  end.
(** A timer's command runs when the timer is due. *)
Definition timer_due (c : PoolCommand) s : bool :=
  match c with
  | CmdTick => match wm_tick s with Some due => (due <=? Pool.now_of s)%Z | None => false end
  | CmdRetry => match wm_retryTimer s with Some due => (due <=? Pool.now_of s)%Z | None => false end
  | _ => true
  end.
Definition work_flow (w : WarmWork) : flow_of unit :=
  match w with
  | WorkRound => Pool.round strategy options hasDriver shutdownAfterMs defaultMode config
  | WorkFlight flight work => Pool.fly strategy options hasDriver estimate generate config flight work
  end.
Inductive warm_step : list (flow_of unit) * Warming → list (flow_of unit) * Warming → Prop :=
| warm_begins fs s l1 w l2 : wm_begun s = l1 ++ w :: l2 → warm_step (fs, s) (fs ++ [work_flow w], s <| wm_begun := l1 ++ l2 |>)
| warm_targeted fs s : warm_step (fs, s) (fs ++ [_ ← Pool.targeted strategy defaultMode config; mret tt], s)
| warm_section fs s (i : nat) section next : fs !! i = Some (Gate section next) → warm_step (fs, s) (<[i := next s]> fs, section s)
| warm_answer fs s (i : nat) c next a : fs !! i = Some (Call c next) → warm_step (fs, s) (<[i := next a]> fs, s)
| warm_command fs s c : timer_due c s = true → warm_step (fs, s) (fs, (pool_command c s).1)
| warm_elsewhere fs s h at_ fails :
    warm_step (fs, s) (fs, s <| wm_shared := h |> <| wm_readingAt := at_ |> <| wm_recordFails := fails |>).
Definition warm_reachable (fs : list (flow_of unit)) s : Prop := ∃ shared, rtc warm_step ([], new_pool shared) (fs, s).
Local Abbreviation joint := (warm_joined (wc_maxConcurrentBoots config)).
Definition warm_ok : list (flow_of unit) → Warming → Prop := crew_ok moves warm_may_ask warm_final joint.

Lemma moves_then {A B} o (m : op A) (k : A → op B) s : moves o s o (m s).1 → (∀ a s, moves o s o (k a s).1) → moves o s o ((m ≫= k) s).1.
Proof. intros Hm Hk. unfold mbind, action_bind. destruct (m s) as [s1 [a|e]]; [|done]. eapply moves_trans; [exact Hm|apply Hk]. Qed.
Lemma command_moves c s : moves Idle s Idle (pool_command c s).1.
Proof.
  destruct c; cbn [pool_command].
  - apply moves_quiet. change (warm_quiet s (Pool.start s).1). revert s. change (calm Pool.start). unfold Pool.start, Pool.armTick. keep.
  - apply pass_moves.
  - apply trigger_moves.
  - apply moves_then; [apply trigger_moves|]. intros [] s'. by apply moves_quiet.
  - apply moves_then; [by apply moves_quiet|]. intros [] s'. apply trigger_moves.
  - unfold Pool.reading_taken, get, mbind, action_bind. cbv beta iota. destruct (Pool.pressure_of s) as [[]|]; try by apply moves_quiet.
    all: apply trigger_moves.
  - by apply moves_quiet.
  - exact (moves_one _ _ _ _ (mv_close _ Idle s)).
  - apply moves_quiet, calm_on_record.
  - apply moves_quiet. unfold Pool.lease_granted. destruct (negb _); [done|]. unfold get, mbind, action_bind. cbv beta iota.
    destruct (Arr.find _ _); [|done]. apply calm_recording, calm_on_record.
  - apply moves_quiet. apply (calm_recording _ (calm_on_record _)).
  - apply moves_then; [|intros; by apply moves_quiet]. unfold Pool.forgetKinds, get. unfold mbind at 1, action_bind at 1. cbv beta iota.
    destruct (wm_recordFails s); [by apply moves_quiet|]. destruct (forgetMatching _ _ _) as [db forgotten].
    apply moves_then; [by apply moves_quiet|]. intros _ s'. apply moves_then; [|intros; by apply moves_quiet].
    destruct forgotten; [by apply moves_quiet|apply trigger_moves].
  - unfold Pool.catalog_answers, get. unfold mbind at 1, action_bind at 1. cbv beta iota. destruct (Catalog.read_answered _ _ _) as [ck first].
    apply moves_then; [by apply moves_quiet|]. intros _ s'. destruct first; [apply trigger_moves|by apply moves_quiet].
  - by apply moves_quiet.
Qed.
Lemma joint_idle os s : joint (Idle :: os) s ↔ joint os s.
Proof.
  split; intros [[H1 H2 H3 H4 H5 H6 H7] [Ho Hb]].
  - apply Forall_cons in Ho as [_ Ho]. split; [|by split]. split; [done..|]. intros n at_ Hin. eapply H7. by right.
  - split; [|split; [by constructor|done]]. split; [done..|]. intros n at_ Hin. eapply H7. by apply elem_of_cons in Hin as [[=]|Hin].
Qed.
Lemma joint_commands os s c : joint os s → joint os (pool_command c s).1.
Proof. intros Hj%joint_idle. apply joint_idle. eapply warm_joined_moves; [exact Hj|apply command_moves]. Qed.
Lemma joint_begins os s l1 w l2 : wm_begun s = l1 ++ w :: l2 → joint os s →
  joint (match w with WorkRound => Round 0 None | WorkFlight f work => Flying f work end :: os) (s <| wm_begun := l1 ++ l2 |>).
Proof.
  intros Hb [[[S1 S2 S3 S4] Hr Hf Hn Hx Hm Hfr] [Ho Hbs]]. split; cycle 1.
  { rewrite Hb in Hbs. apply Forall_app in Hbs as [H1 [Hw H2]%Forall_cons]. split; [|by apply Forall_app].
    constructor; [|done]. by destruct w. }
  split; [by split| | |done|done| |].
  - change (wm_begun (s <| wm_begun := l1 ++ l2 |>)) with (l1 ++ l2). rewrite Hb in Hr. rewrite bind_app, length_app in *. cbn in *.
    rewrite length_app in Hr. cbn. destruct w; cbn in *; lia.
  - change (wm_begun (s <| wm_begun := l1 ++ l2 |>)) with (l1 ++ l2). change (wm_flights (s <| wm_begun := l1 ++ l2 |>)) with (wm_flights s).
    rewrite Hf, Hb, !bind_app, bind_cons. destruct w; cbn; [done|]. by rewrite <- !Permutation_middle.
  - destruct w; cbn in *; done.
  - intros n at_ [Heq|Hin]%elem_of_cons; [by destruct w|]. by eapply Hfr.
Qed.

Lemma work_thread w : thread moves warm_may_ask warm_final (work_flow w)
  (match w with WorkRound => Round 0 None | WorkFlight f work => Flying f work end).
Proof. apply thread_does. destruct w; [apply does_round|apply does_fly]. Qed.
Lemma warm_step_ok fs s fs' s' : warm_ok fs s → warm_step (fs, s) (fs', s') → warm_ok fs' s'.
Proof.
  intros Hok Hstep. inversion Hstep as [? ? l1 w l2 Hb| |? ? i section next Hi|? ? i c next a Hi|? ? c _|? ? h at_ fails]; subst.
  - destruct Hok as (os & Hfs & Hj). eapply (crew_joins _ _ _ _ (warm_joined_perm _)); [exact Hfs|apply work_thread|by apply joint_begins].
  - destruct Hok as (os & Hfs & Hj). apply (crew_joins _ _ _ _ (warm_joined_perm _) _ os _ Idle); [done| |by apply joint_idle].
    apply thread_does. apply does_keeps; [|done]. apply keeps_bind; [apply keeps_targeted|]. keep.
  - by apply (crew_section _ _ _ _ (warm_joined_perm _) (warm_joined_moves _)).
  - by eapply crew_answer.
  - eapply crew_elsewhere; [done|]. intros os. apply joint_commands.
  - eapply crew_elsewhere; [done|]. intros os Hj. by eapply warm_joined_quiet.
Qed.
Lemma warm_steps_ok x y : rtc warm_step x y → warm_ok x.1 x.2 → warm_ok y.1 y.2.
Proof. induction 1 as [|[f1 s1] [f2 s2] z Hst _ IH]; [done|]. intros Hok. apply IH. by eapply warm_step_ok. Qed.
Lemma warm_reachable_ok fs s : warm_reachable fs s → warm_ok fs s.
Proof.
  intros (shared & Hsteps). apply (warm_steps_ok _ _ Hsteps). exists []. split; [constructor|]. cbn [fst snd].
  split; [|by split]. split; [split|..]; cbn; try done; try lia.
  - apply each_justified_nil.
  - by intros _ ?%elem_of_nil.
  - by intros at_ ?%elem_of_nil.
  - intros i. split; [by intros ?%elem_of_nil|done].
  - apply NoDup_nil_2.
  - by intros f ?%elem_of_nil.
Qed.

(** ** What the pool promises *)

Definition boots_out : flow_of unit → bool :=
  asking (λ c, match c with WarmDriver (CallMakeReady _ _ _ _ | CallProvision _ _ | CallDestroy _) => true | _ => false end).
Definition stops_out : flow_of unit → bool := asking (λ c, match c with WarmDriver (CallShutdown _) => true | _ => false end).

(** C29. The pool stays within its bounds. However its passes and flights interleave with each other,
    with the reaper's question and with the rest of the daemon: the boots and creations at a driver
    are at most its flights, which are all different and at most as many as the operator allows at
    once; and no two passes run together, so at most one shutdown of the pool is at a driver. *)
Theorem warm_pool_within_bounds fs s : warm_reachable fs s →
  length (Arr.filter boots_out fs) ≤ length (wm_flights s)
  ∧ NoDup (fg_number <$> wm_flights s)
  ∧ (Z.of_nat (length (wm_flights s)) ≤ Z.max 0 (wc_maxConcurrentBoots config))%Z
  ∧ length (Arr.filter stops_out fs) ≤ (if wm_running s then 1 else 0).
Proof.
  intros (os & Hfs & [[Hs Hr Hf Hn Hx Hm Hfr] _])%warm_reachable_ok. split_and!; [|done|lia|].
  - rewrite <- (length_fmap fg_number), Hf, length_app. enough (length (Arr.filter boots_out fs) ≤ length (os ≫= flying_of)) by lia.
    apply (crew_counts _ _ _ _ _ _ _ s Hfs). intros [c|] o HP Hmay; [|done].
    destruct Hmay as [(n & i & -> & Hc)|(f & w & -> & Hc)]; [by destruct c|done].
  - enough (length (Arr.filter stops_out fs) ≤ length (os ≫= round_of)) by lia.
    apply (crew_counts _ _ _ _ _ _ _ s Hfs). intros [c|] o HP Hmay; [|done].
    destruct Hmay as [(n & i & -> & Hc)|(f & w & -> & Hc)]; [done|by destruct w, c].
Qed.

(** The reason of a call at a driver: a flight of the pool that was launched for it and is not over, or
    a shutdown that was begun. *)
Definition call_caused s (c : DriverCall) : Prop :=
  match c with
  | CallShutdown d => ∃ reason, WarmStopping (v_id d) reason false ∈ wm_log s
  | _ => ∃ f w, WarmLaunched f w false ∈ wm_log s ∧ fg_number f ∈ (fg_number <$> wm_flights s) ∧ work_call w c
  end.

(** C30. The pool begins nothing it may not, does nothing it did not begin, and tells of a miss once.
    However its passes and flights interleave with each other, with the reaper's question and with the
    rest of the daemon: a flight or a shutdown is begun only with the pool not closed and no operator's
    reset on at that moment; every call of the pool at a driver is the shutdown of a device whose shutdown was
    so begun, or is made by a flight that was so launched and is still counted, to boot the device it
    was launched for or to create one (so what was begun before the close or the reset may reach a driver after it, and
    nothing else may); a memory reading sheds at most one plan's worth of devices however many passes
    run on it, and an older reading none after it; and a target is told of as missed only if one of the
    configured targets it stands for was not told of before, or was met since. *)
Theorem warm_pool_acts_for_cause fs s : warm_reachable fs s →
  all_warm_justified (wm_log s)
  ∧ ∀ (i : nat) c next, fs !! i = Some (Call (WarmDriver c) next) → call_caused s c.
Proof.
  intros (os & Hfs & Hj)%warm_reachable_ok. split; [apply Hj|]. intros i c next Hi.
  destruct (crew_call _ _ _ _ _ _ _ _ _ _ Hfs Hj Hi) as (o & Ho%list_elem_of_lookup_2 & Hmay). destruct Hj as [Hj [Hos _]].
  pose proof (proj1 (Forall_forall _ _) Hos o Ho) as Hc. destruct Hmay as [(n & deviceId & -> & Hstop)|(f & w & -> & Hw)].
  - by destruct c; cbn in Hstop |- *; subst.
  - assert (call_caused s c ↔ ∃ f w, WarmLaunched f w false ∈ wm_log s ∧ fg_number f ∈ (fg_number <$> wm_flights s) ∧ work_call w c) as ->
      by (by destruct w, c).
    exists f, w. split_and!; [done| |done]. rewrite (wj_flights _ _ _ Hj). apply elem_of_app. left. apply list_elem_of_bind. eexists. split; [|exact Ho]. by left.
Qed.
End flows.

(** ** Runs on a registry with one shut-down device and a target of its kind *)

Inductive WarmTurn :=
| WarmGive (c : PoolCommand) | WarmBegin | WarmSection (i : nat) | WarmAnswers (i : nat) (a : WarmAnswer)
| WarmBecomes (h : Shared) (at_ : Z).
Section schedule.
Context `{LocaleCompare} {S : Type} `{CapacityStrategy S} (strategy : S) (options : RegistryOptions)
  (hasDriver : Platform → bool) (estimate : Platform → EstimateOperation → DeviceSpec → Z)
  (generate : Shared → string) (shutdownAfterMs : Z) (defaultMode : Platform → DeviceMode) (config : WarmPoolConfig).
Local Abbreviation flow_of R := (flow Warming WarmCall WarmAnswer DeviceError R).
Definition warm_turn (t : WarmTurn) (x : list (flow_of unit) * Warming) : option (list (flow_of unit) * Warming) :=
  let '(fs, s) := x in
  match t with
  | WarmGive c => if timer_due c s then Some (fs, (pool_command config c s).1) else None
  | WarmBegin =>
      match wm_begun s with
      | w :: l => Some (fs ++ [work_flow strategy options hasDriver estimate generate shutdownAfterMs defaultMode config w],
                        s <| wm_begun := l |>)
      | [] => None
      end
  | WarmSection i => match fs !! i with Some (Gate section next) => Some (<[i := next s]> fs, section s) | _ => None end
  | WarmAnswers i a => match fs !! i with Some (Call _ next) => Some (<[i := next (Ok a)]> fs, s) | _ => None end
  | WarmBecomes h at_ => Some (fs, s <| wm_shared := h |> <| wm_readingAt := at_ |> <| wm_recordFails := wm_recordFails s |>)
  end.
Lemma warm_turn_step t x y : warm_turn t x = Some y →
  warm_step strategy options hasDriver estimate generate shutdownAfterMs defaultMode config x y.
Proof.
  destruct x as [fs s], t as [c| |i|i a|h at_]; cbn -[pool_command].
  - destruct (timer_due c s) eqn:E; [|done]. intros [= <-]. by constructor.
  - destruct (wm_begun s) as [|w l] eqn:E; [done|]. intros [= <-]. apply (warm_begins _ _ _ _ _ _ _ _ fs s [] w l E).
  - destruct (fs !! i) as [[r|sec next|c next]|] eqn:E; try done. intros [= <-]. by constructor.
  - destruct (fs !! i) as [[r|sec next|c next]|] eqn:E; try done. intros [= <-]. by eapply warm_answer.
  - intros [= <-]. apply warm_elsewhere.
Qed.
End schedule.

Definition stopped_registry : Registry := run_commands sample_options
  [(1%Z, CRegister "1" sample_input_device);
   (2%Z, CTransition "dev_1" ready (Some (MkDeviceEvent ev_ready "dev_1" (Opaque ""))) no_update);
   (3%Z, CTransition "dev_1" shutdown (Some (MkDeviceEvent ev_shutdown "dev_1" (Opaque ""))) no_update)] empty_registry.
Definition stopped_shared : Shared :=
  MkShared stopped_registry no_claims 4 empty_coordinator [] [] [] [] ∅ false ∅ [] nothing_acquired.
Definition warm_config : WarmPoolConfig :=
  MkWarmConfig true 0 0 [MkWarmTarget ios "iPhone 16" (Some "26.5") None 1] (Some true) None 2.
Definition sample_warm_play (ts : list WarmTurn) :=
  play (@warm_turn Codepoint.compare _ _ (fixed_create fixed_defaults) sample_options (λ _, true) (λ _ _ _, 0%Z) (λ _, "new") 60000 (λ _, full)
    warm_config) ts ([], new_pool stopped_shared).
Definition resolved_answer : WarmAnswer :=
  MkWarmAnswer (MkAnswer (MkDriverDevice "udid-1" (Opaque "{}") "" None None) (MkReclaimResult ready strategy_erase None) []
    (MkSaved "src_1" None None)) (λ _, Resolves sample_spec).
(** A pass that resolves the target and launches the boot of its device. *)
Definition to_launch : list WarmTurn :=
  [WarmGive CmdStart; WarmGive CmdTrigger; WarmBegin] ++ replicate 2 (WarmSection 0) ++ [WarmAnswers 0 resolved_answer]
  ++ replicate 6 (WarmSection 0).
Definition to_boot : list WarmTurn := to_launch ++ [WarmBegin] ++ replicate 3 (WarmSection 1).
Local Abbreviation sample_reachable := (@warm_reachable Codepoint.compare _ _ (fixed_create fixed_defaults) sample_options (λ _, true)
  (λ _ _ _, 0%Z) (λ _, "new") 60000 (λ _, full) warm_config).
Lemma sample_warm_reach ts fs s : sample_warm_play ts = Some (fs, s) → sample_reachable fs s.
Proof. intros Hp. exists stopped_shared. by eapply (play_steps _ _ (warm_turn_step _ _ _ _ _ _ _ _)). Qed.

(** The device's boot is at the driver. *)
Lemma warm_pool_within_bounds_witness : ∃ fs s, sample_warm_play to_boot = Some (fs, s)
  ∧ length (Arr.filter boots_out fs) = 1 ∧ 1 ≤ length (wm_flights s) ∧ (Z.of_nat (length (wm_flights s)) ≤ 2)%Z.
Proof.
  assert ((λ x, length (Arr.filter boots_out x.1)) <$> sample_warm_play to_boot = Some 1) as Hc by (by vm_compute).
  destruct (fmap_Some_1 _ _ _ Hc) as ([fs s] & Hp & Hb). exists fs, s. split; [done|].
  destruct (@warm_pool_within_bounds Codepoint.compare _ _ (fixed_create fixed_defaults) sample_options (λ _, true) (λ _ _ _, 0%Z)
    (λ _, "new") 60000%Z (λ _, full) warm_config fs s (sample_warm_reach _ _ _ Hp)) as (H1 & _ & H2 & _).
  split; [by symmetry|]. split; [|exact H2]. etransitivity; [|exact H1]. by rewrite Hb.
Defined.
(** The device's boot, launched with the pool open and no reset on, is at the driver after the pool was
    closed. *)
Lemma warm_pool_acts_for_cause_witness : ∃ fs s c next,
  sample_warm_play (to_boot ++ [WarmGive CmdClose]) = Some (fs, s) ∧ fs !! 1 = Some (Call (WarmDriver c) next)
  ∧ call_caused s c ∧ wm_draining s = true.
Proof.
  assert ((λ x, (match call_at (Some x) 1 with Some (WarmDriver _) => true | _ => false end, wm_draining x.2))
    <$> sample_warm_play (to_boot ++ [WarmGive CmdClose]) = Some (true, true)) as Hx by (by vm_compute).
  destruct (fmap_Some_1 _ _ _ Hx) as ([fs s] & Hp & [= Hc Hd]). unfold call_at in Hc.
  destruct (fs !! 1) as [[r|sec next|[c|requests] next]|] eqn:Hi; try discriminate Hc. exists fs, s, c, next. split; [exact Hp|]. split; [exact Hi|]. split; [|done].
  exact (proj2 (@warm_pool_acts_for_cause Codepoint.compare _ _ (fixed_create fixed_defaults) sample_options (λ _, true) (λ _ _ _, 0%Z)
    (λ _, "new") 60000%Z (λ _, full) warm_config fs s (sample_warm_reach _ _ _ Hp)) _ _ _ Hi).
Defined.
(** A trigger that comes after a round's last check and before its [finally] is not answered: the pool
    ends with a pass asked for, none running and none begun, until the next trigger or tick. *)
Lemma trigger_lost_at_the_end :
  (λ x, (wm_again x.2, wm_running x.2, wm_begun x.2 ≫= begun_round))
    <$> sample_warm_play (to_launch ++ replicate 2 (WarmSection 0) ++ [WarmGive CmdTrigger; WarmSection 0])
  = Some (true, false, []).
Proof. by vm_compute. Qed.
