(* ===== verification/Release.v ===== *)
(** * Ending leases beside maintenance: [src/leasing/lease-release-coordinator.ts] and the reset of
    [src/core/nuke-service.ts]

    Every ending of a lease is a workflow of the release coordinator: it is let in unless an
    operator's reset is on, commits in the decision gate, and leaves the device's reclaim to run in
    the background. A reset closes admission, waits until every workflow and every reclaim has
    ended, ends the leases itself and walks the devices. [Alone] runs workflows, reclaims and resets
    beside each other.

    What JavaScript starts without awaiting it (a background reclaim, the endings under one
    [Promise.all]) is put on a list from which it runs as a flow of its own. A loop that waits takes
    the number of times it may look again, and its flow answers [None] when it still waits; the
    theorems hold for every number. Log lines are left out. *)
From stdpp Require Import base strings list option numbers gmap pretty relations.
From S2P Require Import Prelude JsString OsRange Domain RequestStore Capacity Claims Registry RegistryInv WaitQueue Lifecycle AcquisitionState Resolve Flow Crew Devices Effects Quarantine Reclaim Acquisition WarmLearned.

(** ** The coordinator's state *)

(** [EndedLease] of [lease-ports.ts], as a participant is told it. *)
Record EndedLease := MkEndedLease {
  en_leaseId : string; en_ownerId : string; en_deviceId : string; en_platform : Platform; en_grantedAt : Z;
  en_reason : LeaseEndReason }.
Inductive ReclaimMode := mode_await | mode_background | mode_none.

(** Who asks a driver for something: a workflow or a background reclaim; the reclaim of a lease a
    reset ends; the reset's walk over the devices. *)
Inductive Doer := by_release | by_reset | by_walk.

(** What was started and not awaited: a reclaim in the background, with the claim it got and the
    participants' calls it waits for; the wipe of a device that returned; one of the endings of a
    [releaseAll]. *)
Inductive Started :=
| StartedReclaim (claim : option DeviceOperationClaim) (calls : option nat) (released : ReleasedLease)
| StartedWipe (wipe : Wipe)
| StartedEnding (who : Doer) (leaseId : string) (reason : LeaseEndReason) (mode : ReclaimMode).

(** [#activeWorkflows], [#backgroundReclaims] and [#participantCalls] are sets of promises, which
    have numbers; [rs_waiting] is [#maintenanceWaiters], by workflow. [rs_started] is what was started
    and has not run, [rs_ended] how the endings of a [releaseAll] came out, and [rs_told] what the
    participants were told, with whether their signal was aborted before the call. [rs_resets] are
    the resets whose turn is not over and [rs_tail] the last that asked for one; [rs_learned] is the
    warm pool's record and [rs_removed] the [baseline.removed] events. *)
Record Releasing := MkReleasing {
  rs_shared : Shared;
  rs_depth : Z;
  rs_active : list nat;
  rs_background : list nat;
  rs_waiting : list nat;
  rs_calls : list nat;
  rs_stopping : bool;
  rs_disposed : bool;
  rs_next : nat;
  rs_started : list (nat * Started);
  rs_ended : list (nat * result DeviceError unit);
  rs_told : list (EndedLease * bool);
  rs_resets : list nat;
  rs_tail : option nat;
  rs_learned : LearnedDb;
  rs_removed : list (string * Z) }.
#[export] Instance Releasing_eta : Eta Releasing := λ s,
  MkReleasing (rs_shared s) (rs_depth s) (rs_active s) (rs_background s) (rs_waiting s) (rs_calls s) (rs_stopping s)
    (rs_disposed s) (rs_next s) (rs_started s) (rs_ended s) (rs_told s) (rs_resets s) (rs_tail s) (rs_learned s)
    (rs_removed s).

(** [DriverSource], as far as a reset reads it. *)
Record DriverSource := MkSource { so_id : string; so_seed : bool; so_orphan : bool }.
Inductive ReleaseCall :=
| DriverDoes (who : Doer) (c : DriverCall)
| ListSources (platform : Platform)
| DestroySource (platform : Platform) (sourceId : string)
| AwaitOpen (workflow : nat)
| AwaitParticipants (calls : nat)
| AwaitSettled (workflows reclaims : list nat)
| AwaitAll (endings : list nat)
| AwaitReset (reset : nat)
| AwaitAcquisitions.
(** What a call answers: each caller reads the part that is its call's result. *)
Record ReleaseAnswer := MkReleaseAnswer { ra_driver : DriverAnswer; ra_sources : list DriverSource }.

Module Release.
Section release.
Context (options : RegistryOptions) (hasDriver : Platform → bool) (config : QuarantineRetryConfig)
  (quarantineCauseMessage : string → option string) (reclaimStrategy : DeviceRecord → ReclaimStrategy)
  (defaultMs : Z) (hasParticipants : bool) (platforms : list Platform).
Local Abbreviation flow_of R := (flow Releasing ReleaseCall ReleaseAnswer DeviceError R).
Local Abbreviation op A := (action Releasing DeviceError A).
Local Abbreviation shared_flow R := (flow Shared DriverCall DriverAnswer DeviceError R).

(** A flow of the rest of the daemon, run by a workflow. *)
Definition within {R} (who : Doer) (f : shared_flow R) : flow_of R :=
  embed rs_shared (λ h s, s <| rs_shared := h |>) (DriverDoes who) ra_driver f.
Definition on_shared {A} (m : action Shared DeviceError A) : op A := λ s,
  let '(h, r) := m (rs_shared s) in (s <| rs_shared := h |>, r).
Definition await (c : ReleaseCall) : flow_of unit := Call c (λ _, Done (Ok tt)).

(** A new promise. *)
Definition fresh : op nat := s ← get; _ ← modify (λ s, s <| rs_next := S (rs_next s) |>); mret (rs_next s).

(** ** Participants *)

Definition cutShortWaits : op unit := modify (λ s, s <| rs_calls := [] |>).

(** Tells every participant; [Some n] is what to wait for. *)
Definition callParticipants (released : ReleasedLease) (reason : LeaseEndReason) (waitable : bool) : op (option nat) :=
  if negb hasParticipants then mret None
  else
    s ← get;
    let lease := rl_lease released in
    let ended := MkEndedLease (l_id lease) (l_ownerId lease) (dev_id (rl_device released))
                   (spec_platform (dev_spec (rl_device released))) (l_grantedAt lease) reason in
    let aborted := (0 <? rs_depth s)%Z || rs_stopping s || rs_disposed s in
    _ ← modify (λ s, s <| rs_told := rs_told s ++ [(ended, aborted)] |>);
    if aborted then mret None
    else
      n ← fresh;
      _ ← modify (λ s, s <| rs_calls := rs_calls s ++ [n] |>);
      mret (if waitable then Some n else None).
(** The participants have all answered, or passed the wait ceiling. *)
Definition participants_settled (n : nat) : op unit := modify (λ s, s <| rs_calls := Arr.filter (λ k, k !== n) (rs_calls s) |>).

(** ** Admission *)

Fixpoint awaitAdmission (n : nat) (completion : nat) : flow_of bool :=
  match n with
  | 0 => mret false
  | S n =>
      admitted ← gate (
        s ← get;
        if (rs_depth s =? 0)%Z then _ ← modify (λ s, s <| rs_active := rs_active s ++ [completion] |>); mret true
        else _ ← modify (λ s, s <| rs_waiting := rs_waiting s ++ [completion] |>); mret false);
      if admitted : bool then mret true else _ ← await (AwaitOpen completion); awaitAdmission n completion
  end.
Definition complete (completion : nat) : op unit :=
  modify (λ s, s <| rs_active := Arr.filter (λ k, k !== completion) (rs_active s) |>).
(** [#runNormal]; [None] while it waits for admission. *)
Definition runNormal {R} (n : nat) (workflow : flow_of R) : flow_of (option R) :=
  completion ← gate fresh;
  admitted ← awaitAdmission n completion;
  if admitted : bool then finally (r ← workflow; mret (Some r)) (gate (complete completion)) else mret None.

(** ** Endings *)

Definition notifyAvailability : op unit := on_shared (Quarantine.tell EvAvailability).
Definition release_claim (claim : option DeviceOperationClaim) : op unit :=
  match claim with None => mret tt | Some k => on_shared (Quarantine.on_release k) end.
Definition try_reclaim_claim (deviceId : string) : op (option DeviceOperationClaim) := λ s,
  match tryClaim (sh_claims (rs_shared s)) deviceId op_reclaim None with
  | None => (s, Ok None)
  | Some (t, k) => (s <| rs_shared := (rs_shared s) <| sh_claims := t |> |>, Ok (Some k))
  end.

Definition start_reclaim (started : Started) : op unit :=
  b ← fresh;
  modify (λ s, s <| rs_background := rs_background s ++ [b] |> <| rs_started := rs_started s ++ [(b, started)] |>).
Definition reclaimInBackground (released : ReleasedLease) (reason : LeaseEndReason) : op unit :=
  claim ← try_reclaim_claim (dev_id (rl_device released));
  calls ← callParticipants released reason true;
  start_reclaim (StartedReclaim claim calls released).
(** The reclaim's own stretch, from its start to [#backgroundReclaims.delete]. *)
Definition reclaim_ended (b : nat) : op unit :=
  modify (λ s, s <| rs_background := Arr.filter (λ k, k !== b) (rs_background s) |>).
Definition run_reclaim (claim : option DeviceOperationClaim) (released : ReleasedLease) : flow_of unit :=
  after (within by_release (Reclaim.reclaim options hasDriver config quarantineCauseMessage reclaimStrategy released))
    (λ _, gate (_ ← release_claim claim; notifyAvailability)).
(** [#release] in the section of its commit. *)
Definition release_section (leaseId : string) (reason : LeaseEndReason) (expectedDeadline : option Z) (mode : ReclaimMode)
    : op (option ReleasedLease) :=
  let defer := match mode with mode_none => true | mode_background => hasParticipants | mode_await => false end in
  on_shared (Acquisition.on_leasing (λ now, Lifecycle.release options now leaseId reason expectedDeadline defer)).
Definition release_ (who : Doer) (leaseId : string) (reason : LeaseEndReason) (expectedDeadline : option Z) (mode : ReclaimMode)
    : flow_of unit :=
  released ← gate (release_section leaseId reason expectedDeadline mode);
  match released with
  | None => mret tt
  | Some released =>
      match mode with
      | mode_none => gate (_ ← callParticipants released reason false; mret tt)
      | mode_background => gate (reclaimInBackground released reason)
      | mode_await =>
          _ ← gate (callParticipants released reason false);
          within who (Reclaim.reclaim options hasDriver config quarantineCauseMessage reclaimStrategy released)
      end
  end.

(** A flow that was started and not awaited, to its end. *)
Definition background (b : nat) (started : Started) : flow_of unit :=
  after
    match started with
    | StartedReclaim claim calls released =>
        match calls with
        | None => run_reclaim claim released
        | Some n =>
            _ ← await (AwaitParticipants n);
            over ← gate (s ← get; if rs_disposed s then _ ← release_claim claim; mret true else mret false);
            if over : bool then mret tt else run_reclaim claim released
        end
    | StartedWipe wipe => within by_release (Reclaim.wipeInBackground options hasDriver config quarantineCauseMessage reclaimStrategy wipe)
    | StartedEnding who leaseId reason mode => release_ who leaseId reason None mode
    end
    (λ r, gate match started with
               | StartedEnding _ _ _ _ => modify (λ s, s <| rs_ended := rs_ended s ++ [(b, r)] |>)
               | _ => reclaim_ended b
               end).

Definition release (n : nat) (leaseId : string) (reason : LeaseEndReason) : flow_of (option unit) :=
  runNormal n (release_ by_release leaseId reason None mode_background).
Definition releaseDeviceLost (n : nat) (leaseId : string) : flow_of (option unit) :=
  runNormal n (release_ by_release leaseId end_device_lost None mode_background).
Definition expire (n : nat) (leaseId : string) (expectedDeadline : option Z) : flow_of (option unit) :=
  runNormal n (release_ by_release leaseId end_expired expectedDeadline mode_background).

(** Ends the lease and runs [save] in the reclaim's place, under the same claim. *)
Definition releaseToSave {R} (n : nat) (leaseId : string) (save : ReleasedLease → shared_flow R) : flow_of (option R) :=
  runNormal n (
    released ← gate (on_shared (Acquisition.on_leasing (λ now,
      lifecycle_beginRelease options now leaseId end_explicit hasParticipants)));
    held ← gate (
      claim ← try_reclaim_claim (dev_id (rl_device released));
      calls ← callParticipants released end_explicit true;
      mret (claim, calls));
    finally (_ ← match held.2 with None => mret tt | Some c => await (AwaitParticipants c) end;
             within by_release (save released))
      (gate (_ ← release_claim held.1; notifyAvailability))).

(** [Promise.all]: it rejects with the first ending that fails, while the others go on. *)
Fixpoint start_endings (who : Doer) (reason : LeaseEndReason) (mode : ReclaimMode) (ids : list string) : op (list nat) :=
  match ids with
  | [] => mret []
  | leaseId :: ids =>
      c ← fresh;
      _ ← modify (λ s, s <| rs_started := rs_started s ++ [(c, StartedEnding who leaseId reason mode)] |>);
      cs ← start_endings who reason mode ids;
      mret (c :: cs)
  end.
Definition releaseAll_ (who : Doer) (reason : LeaseEndReason) (mode : ReclaimMode) : flow_of (list string) :=
  started ← gate (
    s ← get;
    let leaseIds := l_id <$> leases (sh_registry (rs_shared s)) in
    cs ← start_endings who reason mode leaseIds;
    mret (leaseIds, cs));
  _ ← call (AwaitAll started.2);
  mret started.1.
Definition releaseAll (n : nat) (reason : LeaseEndReason) : flow_of (option (list string)) :=
  runNormal n (releaseAll_ by_release reason mode_background).

Definition endAtStartup (n : nat) (leaseId : string) (ending : StartupEnding) : flow_of (option unit) :=
  runNormal n
    match se_device ending with
    | startup_missing =>
        released ← gate (on_shared (Acquisition.on_leasing (λ now, Lifecycle.endForMissingDevice options now leaseId (se_reason ending))));
        gate (_ ← callParticipants released (se_reason ending) false; mret tt)
    | startup_reclaim => release_ by_release leaseId (se_reason ending) None mode_background
    | startup_wait => release_ by_release leaseId (se_reason ending) None mode_none
    end.

Definition endForAbsentDevice (n : nat) (leaseId : string) (absentReason : AbsentReason) (proceed : Shared → bool)
    : flow_of (option bool) :=
  runNormal n (
    ended ← gate (
      s ← get;
      if negb (proceed (rs_shared s)) || negb (Arr.some (λ l, l_id l === leaseId) (leases (sh_registry (rs_shared s))))
      then mret None
      else r ← on_shared (Acquisition.on_leasing (λ now, Lifecycle.endForAbsentDevice options now leaseId absentReason));
           mret (Some r));
    match ended with
    | None => mret false
    | Some r => _ ← gate (callParticipants r end_device_lost false); mret true
    end).

(** [admit]. *)
Definition run_admitted {R} (n : nat) (work : shared_flow R) : flow_of (option R) := runNormal n (within by_release work).
Definition reclaimReturned (n : nat) (deviceId : string) (osVersion : option string) (proceed : Shared → bool)
    : flow_of (option bool) :=
  runNormal n (
    started ← within by_release (Reclaim.reclaimReturned options deviceId osVersion proceed);
    match started with
    | None => mret false
    | Some wipe => _ ← gate (start_reclaim (StartedWipe wipe)); mret true
    end).
Definition renew (n : nat) (leaseId : string) (ttlMs : option Z) : flow_of (option LeaseRecord) :=
  runNormal n (gate (on_shared (Acquisition.on_leasing (λ now, Lifecycle.renew options defaultMs now leaseId ttlMs)))).

(** ** Stopping and maintenance *)

(** Waits until nothing is left of what [left] lists; [false] while something is. *)
Fixpoint wait_until_settled (n : nat) (left : Releasing → list nat * list nat) : flow_of bool :=
  match n with
  | 0 => mret false
  | S n =>
      remaining ← gate (s ← get; mret (left s));
      match remaining with
      | ([], []) => mret true
      | (workflows, reclaims) => _ ← await (AwaitSettled workflows reclaims); wait_until_settled n left
      end
  end.
Definition settleBackgroundReclaims (n : nat) : flow_of bool :=
  _ ← gate (_ ← modify (λ s, s <| rs_stopping := true |>); cutShortWaits);
  wait_until_settled n (λ s, ([], rs_background s)).
Definition dispose : flow_of unit := gate (_ ← modify (λ s, s <| rs_disposed := true |>); cutShortWaits).

Definition beginMaintenance (n : nat) : flow_of bool :=
  _ ← gate (modify (λ s, s <| rs_depth := (rs_depth s + 1)%Z |>));
  _ ← gate cutShortWaits;
  wait_until_settled n (λ s, (rs_active s, rs_background s)).
Definition endMaintenance : flow_of unit :=
  gate (
    _ ← modify (λ s, s <| rs_depth := Z.max 0 (rs_depth s - 1) |>);
    modify (λ s, if (rs_depth s =? 0)%Z then s <| rs_waiting := [] |> else s)).
Definition releaseAllDuringMaintenance : flow_of (list string) :=
  _ ← gate (s ← get; if (rs_depth s =? 0)%Z then throw (PlainError "Maintenance-authorized release requires active maintenance") else mret tt);
  releaseAll_ by_reset end_killed mode_await.

(** ** The operator's reset: [nuke-service.ts] *)

Definition canOperate (r : Registry) (deviceId : string) (expectedState : DeviceState) : bool :=
  ((v_state <$> Arr.find (λ d, v_id d === deviceId) (virtualDevices r)) === Some expectedState)
  && negb (Arr.some (on_device deviceId) (leases r)).
Definition shutdownIfReady (device : VirtualDevice) : flow_of (option VirtualDevice) :=
  may ← gate (s ← get; mret ((v_state device === ready) && canOperate (sh_registry (rs_shared s)) (v_id device) ready));
  if may : bool then within by_walk (ManagedDevice.shutdown options hasDriver device "nuke" op_nuke None) else mret None.
Definition currentShutdown (r : Registry) (deviceId : string) : option VirtualDevice :=
  match Arr.find (λ d, v_id d === deviceId) (virtualDevices r) with
  | Some current =>
      if (v_state current !== Domain.shutdown) || negb (canOperate r (v_id current) Domain.shutdown) then None else Some current
  | None => None
  end.
Definition resetDevice (deleteDevices : bool) (device : VirtualDevice) : flow_of unit :=
  if v_state device === deleted then mret tt
  else
    shutdown ← shutdownIfReady device;
    if negb deleteDevices || ((v_state device === ready) && (shutdown === None)) then mret tt
    else
      current ← gate (s ← get; mret (currentShutdown (sh_registry (rs_shared s)) (v_id device)));
      match current with
      | None => mret tt
      | Some current => _ ← within by_walk (ManagedDevice.destroy options hasDriver current "nuke" op_nuke None); mret tt
      end.
(** A loop that logs what one turn of it throws. *)
Fixpoint each {A} (work : A → flow_of unit) (l : list A) : flow_of unit :=
  match l with
  | [] => mret tt
  | x :: l => _ ← try_catch (work x) (λ _, mret tt); each work l
  end.

Definition destroySeeds : flow_of unit :=
  each (λ platform,
    answer ← call (ListSources platform);
    each (λ source,
      if negb (so_seed source) || so_orphan source then mret tt
      else _ ← call (DestroySource platform (so_id source)); mret tt) (ra_sources answer)) platforms.

(** [removeAll] of [baselines.ts]; its failure is only logged. *)
Definition by_name_version (a b : CurrentBaseline) : Z :=
  num_or (codepoint_compare (cb_name a) (cb_name b)) (cb_version a - cb_version b).
Definition names_of (rows : list CurrentBaseline) : list string :=
  foldl (λ names row, if Arr.includes (cb_name row) names then names else names ++ [cb_name row]) [] rows.
Definition removeAll : flow_of (list string) :=
  rows ← gate (
    s ← get;
    _ ← modify (λ s, s <| rs_shared := (rs_shared s) <| sh_baselines := [] |> |>);
    mret (sort_by by_name_version (sh_baselines (rs_shared s))));
  _ ← each (λ row,
    _ ← gate (modify (λ s, s <| rs_removed := rs_removed s ++ [(cb_name row, cb_version row)] |>));
    if hasDriver (cb_platform row) then _ ← call (DestroySource (cb_platform row) (cb_sourceId row)); mret tt
    else fail (NoDriverError (cb_platform row))) rows;
  mret (names_of rows).

Record NukeReport := MkNukeReport { nr_releasedLeaseIds : list string; nr_removedBaselines : list string }.
Definition reset (deleteDevices : bool) : flow_of NukeReport :=
  releasedLeaseIds ← releaseAllDuringMaintenance;
  _ ← gate (modify (λ s, s <| rs_learned := WarmLearned.clear |>));
  found ← gate (s ← get; mret (virtualDevices (sh_registry (rs_shared s))));
  _ ← each (resetDevice deleteDevices) found;
  _ ← (if deleteDevices then destroySeeds else mret tt);
  removedBaselines ← (if deleteDevices then removeAll else mret []);
  mret (MkNukeReport releasedLeaseIds removedBaselines).
Definition runNuke (n : nat) (deleteDevices : bool) : flow_of (option NukeReport) :=
  _ ← gate (on_shared Acquisition.beginMaintenance);
  _ ← await AwaitAcquisitions;
  drained ← beginMaintenance n;
  if negb drained then mret None
  else
    finally (finally (report ← reset deleteDevices; mret (Some report)) endMaintenance)
      (gate (on_shared Acquisition.endMaintenance)).
(** Resets take turns; [None] while one waits inside its turn. *)
Definition take_turn : op (nat * option nat) :=
  me ← fresh;
  s ← get;
  _ ← modify (λ s, s <| rs_resets := rs_resets s ++ [me] |> <| rs_tail := Some me |>);
  mret (me, rs_tail s).
Definition end_turn (me : nat) : op unit := modify (λ s, s <| rs_resets := Arr.filter (λ k, k !== me) (rs_resets s) |>).
Definition nuke (n : nat) (deleteDevices : bool) : flow_of (option NukeReport) :=
  turn ← gate take_turn;
  _ ← match turn.2 with None => mret tt | Some previous => await (AwaitReset previous) end;
  after (runNuke n deleteDevices) (λ r,
    match r with
    | Ok None => Done (Ok None)
    | r => _ ← gate (end_turn turn.1); Done r
    end).
End release.
End Release.
