(* ===== verification/Alone.v ===== *)
(** * Workflows, reclaims and resets beside each other

    The flows of [Release] in a pool: any number of commands are given at any time, their sections
    and their calls interleave in any order, what they start runs as flows of its own, and the rest
    of the daemon changes the shared state meanwhile. A workflow a reset kept out is let in when the last
    reset ends; that a reset which walks the devices is alone with them is in [Turns]. *)
From stdpp Require Import base strings list option numbers gmap relations.
From S2P Require Import Prelude JsString OsRange Domain RequestStore Capacity Claims Registry RegistryInv WaitQueue Lifecycle AcquisitionState Resolve Flow Crew Devices Effects Quarantine Reclaim Acquisition WarmLearned DevicePool Release.

(** ** Commands *)

Local Abbreviation shared_flow R := (flow Shared DriverCall DriverAnswer DeviceError R).
Local Abbreviation flow_of R := (flow Releasing ReleaseCall ReleaseAnswer DeviceError R).

(** What the rest of the daemon asks of the release coordinator and of the reset. *)
Inductive Command :=
| CmdRelease (leaseId : string) (reason : LeaseEndReason)
| CmdDeviceLost (leaseId : string)
| CmdExpire (leaseId : string) (expectedDeadline : option Z)
| CmdSave (leaseId : string) (save : ReleasedLease → shared_flow unit)
| CmdReleaseAll (reason : LeaseEndReason)
| CmdAtStartup (leaseId : string) (ending : StartupEnding)
| CmdAbsent (leaseId : string) (reason : AbsentReason) (proceed : Shared → bool)
| CmdAdmission (work : shared_flow unit)
| CmdReturned (deviceId : string) (osVersion : option string) (proceed : Shared → bool)
| CmdRenew (leaseId : string) (ttlMs : option Z)
| CmdSettle
| CmdDispose
| CmdNuke (deleteDevices : bool).
Definition is_release_all (c : Command) : bool := match c with CmdReleaseAll _ => true | _ => false end.

(** Whether a command came to its end, rather than still waiting. *)
Definition ended {R} (f : flow_of (option R)) : flow_of bool :=
  after f (λ r, Done (Ok match r with Ok None => false | _ => true end)).

Section alone.
Context (options : RegistryOptions) (hasDriver : Platform → bool) (config : QuarantineRetryConfig)
  (quarantineCauseMessage : string → option string) (reclaimStrategy : DeviceRecord → ReclaimStrategy)
  (defaultMs : Z) (hasParticipants : bool) (platforms : list Platform).

Definition command_flow (n : nat) (c : Command) : flow_of bool :=
  match c with
  | CmdRelease leaseId reason => ended (Release.release options hasDriver config quarantineCauseMessage reclaimStrategy hasParticipants n leaseId reason)
  | CmdDeviceLost leaseId => ended (Release.releaseDeviceLost options hasDriver config quarantineCauseMessage reclaimStrategy hasParticipants n leaseId)
  | CmdExpire leaseId deadline => ended (Release.expire options hasDriver config quarantineCauseMessage reclaimStrategy hasParticipants n leaseId deadline)
  | CmdSave leaseId save => ended (Release.releaseToSave options hasParticipants n leaseId save)
  | CmdReleaseAll reason => ended (Release.releaseAll n reason)
  | CmdAtStartup leaseId ending => ended (Release.endAtStartup options hasDriver config quarantineCauseMessage reclaimStrategy hasParticipants n leaseId ending)
  | CmdAbsent leaseId reason proceed => ended (Release.endForAbsentDevice options hasParticipants n leaseId reason proceed)
  | CmdAdmission work => ended (Release.run_admitted n work)
  | CmdReturned deviceId osVersion proceed => ended (Release.reclaimReturned options n deviceId osVersion proceed)
  | CmdRenew leaseId ttlMs => ended (Release.renew options defaultMs n leaseId ttlMs)
  | CmdSettle => Release.settleBackgroundReclaims n
  | CmdDispose => ended (r ← Release.dispose; mret (Some r))
  | CmdNuke deleteDevices => ended (Release.nuke options hasDriver platforms n deleteDevices)
  end.

(** ** The pool *)

(** When a call may be answered, and how: a driver in any way at any time, a wait when what it waits
    for has come. *)
Definition answers (c : ReleaseCall) (a : result DeviceError ReleaseAnswer) (s : Releasing) : Prop :=
  match c with
  | AwaitOpen w => w ∉ rs_waiting s
  | AwaitParticipants n => n ∉ rs_calls s
  | AwaitSettled workflows reclaims => workflows ## rs_active s ∧ reclaims ## rs_background s
  | AwaitAll endings =>
      match a with
      | Ok _ => ∀ c, c ∈ endings → (c, Ok tt) ∈ rs_ended s
      | Err e => ∃ c, c ∈ endings ∧ (c, Err e) ∈ rs_ended s
      end
  | AwaitReset r => r ∉ rs_resets s
  | _ => True
  end.

(** [allowed] are the commands that may be given. *)
Context (allowed : Command → bool).
Inductive release_step : list (flow_of bool) * Releasing → list (flow_of bool) * Releasing → Prop :=
| step_command fs s n c : allowed c = true → release_step (fs, s) (fs ++ [command_flow n c], s)
| step_started fs s l1 b started l2 : rs_started s = l1 ++ (b, started) :: l2 →
    release_step (fs, s)
      (fs ++ [ended (r ← Release.background options hasDriver config quarantineCauseMessage reclaimStrategy hasParticipants b started;
                     mret (Some r))],
       s <| rs_started := l1 ++ l2 |>)
| step_section fs s (i : nat) section next : fs !! i = Some (Gate section next) →
    release_step (fs, s) (<[i := next s]> fs, section s)
| step_answer fs s (i : nat) c next a : fs !! i = Some (Call c next) → answers c a s →
    release_step (fs, s) (<[i := next a]> fs, s)
| step_participants fs s n : release_step (fs, s) (fs, (Release.participants_settled n s).1)
| step_elsewhere fs s h : release_step (fs, s) (fs, s <| rs_shared := h |>).

(** No workflow, reclaim or reset is on; and so the daemon starts, with no ending recorded. *)
Definition at_rest (s : Releasing) : Prop :=
  rs_depth s = 0%Z ∧ rs_active s = [] ∧ rs_background s = [] ∧ rs_waiting s = [] ∧ rs_started s = [].
Definition at_start (s : Releasing) : Prop := at_rest s ∧ rs_resets s = [] ∧ rs_tail s = None ∧ rs_ended s = [].
Definition release_reachable (fs : list (flow_of bool)) (s : Releasing) : Prop :=
  ∃ s0, at_start s0 ∧ rtc release_step ([], s0) (fs, s).

(** ** Schedules *)

(** One turn of a pool: a command is given, what was started first begins, a flow runs its next
    section, a flow's call is answered. *)
Inductive Turn := Give (n : nat) (c : Command) | Begin | Section_of (i : nat) | Answer_of (i : nat).
Definition rejection (endings : list nat) (l : list (nat * result DeviceError unit)) : option DeviceError :=
  head (omap (λ e, match e.2 with Err x => if Arr.includes e.1 endings then Some x else None | Ok _ => None end) l).
Definition settled_well (l : list (nat * result DeviceError unit)) (c : nat) : bool :=
  Arr.some (λ e, (e.1 === c) && match e.2 with Ok _ => true | Err _ => false end) l.
Definition answer_to (good : ReleaseAnswer) (c : ReleaseCall) (s : Releasing) : option (result DeviceError ReleaseAnswer) :=
  let once (b : bool) := if b then Some (Ok good) else None in
  match c with
  | AwaitOpen w => once (negb (Arr.includes w (rs_waiting s)))
  | AwaitParticipants n => once (negb (Arr.includes n (rs_calls s)))
  | AwaitSettled workflows reclaims =>
      once (Arr.every (λ w, negb (Arr.includes w (rs_active s))) workflows
            && Arr.every (λ b, negb (Arr.includes b (rs_background s))) reclaims)
  | AwaitAll endings =>
      match rejection endings (rs_ended s) with
      | Some e => Some (Err e)
      | None => once (Arr.every (settled_well (rs_ended s)) endings)
      end
  | AwaitReset r => once (negb (Arr.includes r (rs_resets s)))
  | _ => once true
  end.
Definition play_turn (good : ReleaseAnswer) (t : Turn) (x : list (flow_of bool) * Releasing) : option (list (flow_of bool) * Releasing) :=
  let '(fs, s) := x in
  match t with
  | Give n c => if allowed c then Some (fs ++ [command_flow n c], s) else None
  | Begin =>
      match rs_started s with
      | [] => None
      | (b, started) :: l =>
          Some (fs ++ [ended (r ← Release.background options hasDriver config quarantineCauseMessage reclaimStrategy hasParticipants b started;
                              mret (Some r))], s <| rs_started := l |>)
      end
  | Section_of i => match fs !! i with Some (Gate section next) => Some (<[i := next s]> fs, section s) | _ => None end
  | Answer_of i =>
      match fs !! i with
      | Some (Call c next) => (λ a, (<[i := next a]> fs, s)) <$> answer_to good c s
      | _ => None
      end
  end.

Lemma answer_to_answers good c s a : answer_to good c s = Some a → answers c a s.
Proof.
  assert (∀ (x : nat) l, negb (Arr.includes x l) = true → x ∉ l) as Hnot.
  { intros x l. unfold Arr.includes. by case_bool_decide. }
  destruct c; cbn; try done; try (case_match eqn:E; [|done]; intros _; by apply Hnot).
  - destruct (_ && _) eqn:E; [|done]. intros _. apply andb_true_iff in E as [H1 H2]. unfold Arr.every in H1, H2.
    rewrite forallb_forall in H1, H2. split; intros x Hx; apply Hnot; [apply H1|apply H2]; by apply list_elem_of_In.
  - destruct (rejection _ _) as [e|] eqn:E.
    + intros [= <-]. unfold rejection in E. apply head_Some_elem_of, list_elem_of_omap in E as ([k [[]|x]] & Hin & Hx); [done|].
      unfold Arr.includes in Hx. cbn in Hx. case_bool_decide; [|done]. injection Hx as ->. by exists k.
    + destruct (Arr.every _ _) eqn:Hall; [|done]. intros [= <-] k Hk. unfold Arr.every in Hall. rewrite forallb_forall in Hall.
      specialize (Hall k (proj1 (list_elem_of_In _ _) Hk)). apply existsb_exists in Hall as ([k' [[]|e]] & Hin & Hx); cbn in Hx.
      * rewrite andb_true_r, bool_decide_eq_true in Hx. subst k'. by apply list_elem_of_In.
      * by rewrite andb_false_r in Hx.
Qed.
Lemma play_turn_step good t x y : play_turn good t x = Some y → release_step x y.
Proof.
  destruct x as [fs s], t as [n c| |i|i]; cbn.
  - destruct (allowed c) eqn:Hc; [|done]. intros [= <-]. by constructor.
  - destruct (rs_started s) as [|[b st] l] eqn:E; [done|]. intros [= <-]. apply (step_started fs s [] b st l E).
  - destruct (fs !! i) as [[r|sec next|c next]|] eqn:E; try done. intros [= <-]. by constructor.
  - destruct (fs !! i) as [[r|sec next|c next]|] eqn:E; try done. destruct (answer_to good c s) as [a|] eqn:Ha; [|done].
    intros [= <-]. econstructor; [done|]. by eapply answer_to_answers.
Qed.

(** ** What each flow owns of the coordinator *)

Inductive Owns := Nothing | Numbered (i : nat) | Working (i : nat) | Reclaiming (b : nat) | Draining | Drained.

Definition book (s : Releasing) : Z * list nat * list nat * list nat * list (nat * Started) :=
  (rs_depth s, rs_active s, rs_background s, rs_waiting s, rs_started s).
Definition quiet (s s' : Releasing) : Prop := book s' = book s ∧ rs_next s ≤ rs_next s'.
Definition is_reclaim (st : Started) : bool := match st with StartedEnding _ _ _ _ => false | _ => true end.
(** An ending a reset waits for. *)
Definition of_reset (e : nat * Started) : Prop := ∃ leaseId reason, e.2 = StartedEnding by_reset leaseId reason mode_await.

(** What one section of a flow may do to the coordinator's books. *)
Inductive moves : Owns → Releasing → Owns → Releasing → Prop :=
| mv_quiet o s s' : quiet s s' → moves o s o s'
| mv_number i s s' : book s' = book s → rs_next s ≤ i < rs_next s' → moves Nothing s (Numbered i) s'
| mv_enter i s s' : rs_depth s = 0%Z → rs_next s ≤ rs_next s' →
    book s' = (rs_depth s, rs_active s ++ [i], rs_background s, rs_waiting s, rs_started s) → moves (Numbered i) s (Working i) s'
| mv_park i s s' : rs_depth s ≠ 0%Z → rs_next s ≤ rs_next s' →
    book s' = (rs_depth s, rs_active s, rs_background s, rs_waiting s ++ [i], rs_started s) → moves (Numbered i) s (Numbered i) s'
| mv_start i b st s s' : is_reclaim st = true → rs_next s ≤ b < rs_next s' →
    book s' = (rs_depth s, rs_active s, rs_background s ++ [b], rs_waiting s, rs_started s ++ [(b, st)]) →
    moves (Working i) s (Working i) s'
| mv_endings o l s s' : (∀ e, e ∈ l → of_reset e) → rs_next s ≤ rs_next s' →
    book s' = (rs_depth s, rs_active s, rs_background s, rs_waiting s, rs_started s ++ l) → moves o s o s'
| mv_complete i s s' : rs_next s ≤ rs_next s' →
    book s' = (rs_depth s, Arr.filter (λ k, k !== i) (rs_active s), rs_background s, rs_waiting s, rs_started s) →
    moves (Working i) s Nothing s'
| mv_reclaimed b s s' : rs_next s ≤ rs_next s' →
    book s' = (rs_depth s, rs_active s, Arr.filter (λ k, k !== b) (rs_background s), rs_waiting s, rs_started s) →
    moves (Reclaiming b) s Nothing s'
| mv_begin s s' : rs_next s ≤ rs_next s' →
    book s' = ((rs_depth s + 1)%Z, rs_active s, rs_background s, rs_waiting s, rs_started s) → moves Nothing s Draining s'
| mv_drained s s' : quiet s s' → rs_active s = [] → rs_background s = [] → moves Draining s Drained s'
| mv_end s s' : rs_next s ≤ rs_next s' →
    (let d := Z.max 0 (rs_depth s - 1) in
     book s' = (d, rs_active s, rs_background s, if (d =? 0)%Z then [] else rs_waiting s, rs_started s)) →
    moves Drained s Nothing s'.

(** What must be owned while a call is out. *)
Definition may_ask (c : ReleaseCall) (o : Owns) : Prop :=
  match c with
  | DriverDoes by_release _ => match o with Working _ | Reclaiming _ => True | _ => False end
  | DriverDoes by_walk _ | ListSources _ | DestroySource _ _ => o = Drained
  | _ => True
  end.

(** ** The books add up *)

Definition working_of (o : Owns) : list nat := match o with Working i => [i] | _ => [] end.
Definition reclaiming_of (o : Owns) : list nat := match o with Reclaiming b => [b] | _ => [] end.
Definition number_of (o : Owns) : list nat := match o with Numbered i | Working i | Reclaiming i => [i] | _ => [] end.
Definition reset_of (o : Owns) : list unit := match o with Draining | Drained => [tt] | _ => [] end.
Definition started_of (e : nat * Started) : list nat := if is_reclaim e.2 then [e.1] else [].

Record accounted (os : list Owns) (s : Releasing) : Prop := {
  ac_active : rs_active s ≡ₚ os ≫= working_of;
  ac_background : rs_background s ≡ₚ (os ≫= reclaiming_of) ++ (rs_started s ≫= started_of);
  ac_numbers : NoDup ((os ≫= number_of) ++ (rs_started s ≫= started_of));
  ac_below i : i ∈ (os ≫= number_of) ++ (rs_started s ≫= started_of) → i < rs_next s;
  ac_depth : rs_depth s = Z.of_nat (length (os ≫= reset_of));
  ac_drained : Drained ∈ os → rs_active s = [] ∧ rs_background s = [];
  ac_waiting : rs_depth s = 0%Z → rs_waiting s = [];
  ac_started e : e ∈ rs_started s → is_reclaim e.2 = true ∨ of_reset e }.

Lemma accounted_perm os os' s : os ≡ₚ os' → accounted os s → accounted os' s.
Proof.
  intros Hp [Ha Hb Hn Hl Hd Hr Hw Hs]. split; try done.
  - by rewrite <- Hp.
  - by rewrite <- Hp.
  - by rewrite <- Hp.
  - intros i. rewrite <- Hp. apply Hl.
  - by rewrite <- Hp.
  - rewrite <- Hp. apply Hr.
Qed.
Lemma without_perm (i : nat) l r : l ≡ₚ i :: r → i ∉ r → Arr.filter (λ k, k !== i) l ≡ₚ r.
Proof.
  intros -> Hi. unfold Arr.filter. cbn [List.filter]. rewrite bool_decide_eq_true_2 by done. cbn [negb].
  change (List.filter ?f ?l) with (Arr.filter f l). rewrite afilter_all; [done|].
  intros x Hx. rewrite bool_decide_eq_false_2; [done|]. by intros ->.
Qed.
Lemma part_of_numbers os i : i ∈ os ≫= working_of ∨ i ∈ os ≫= reclaiming_of → i ∈ os ≫= number_of.
Proof.
  rewrite !list_elem_of_bind. intros [(o & Hi & Ho)|(o & Hi & Ho)]; exists o; (split; [|done]); destruct o; set_solver.
Qed.

Lemma drained_counts os : Drained ∈ os → 0 < length (os ≫= reset_of).
Proof. intros (l1 & l2 & ->)%list_elem_of_split. rewrite bind_app, length_app, bind_cons. cbn. lia. Qed.
Lemma endings_no_reclaim l : (∀ e, e ∈ l → of_reset e) → l ≫= started_of = [].
Proof.
  induction l as [|e l IH]; [done|]. intros He. rewrite bind_cons, IH by (intros; apply He; by right).
  destruct (He e) as (k & r & Hk); [by left|]. unfold started_of. by rewrite Hk.
Qed.

(** A section of the flow at the head of the list. *)
Lemma accounted_moves o os s o' s' : accounted (o :: os) s → moves o s o' s' → accounted (o' :: os) s'.
Proof.
  intros [Ha Hb Hn Hl Hd Hr Hw Hs] Hm.
  assert (Drained ∈ os → (0 < rs_depth s)%Z ∧ rs_active s = [] ∧ rs_background s = []) as Hr'.
  { intros Hin. split; [|apply Hr; by right]. rewrite Hd, bind_cons, length_app. pose proof (drained_counts os Hin). lia. }
  inversion Hm as [? ? ? [Hbk Hnx]|i ? ? Hbk Hnx|i ? ? Hz Hnx Hbk|i ? ? Hz Hnx Hbk|i b st ? ? Hst Hnx Hbk|? l ? ? Hof Hnx Hbk
    |i ? ? Hnx Hbk|b ? ? Hnx Hbk|? ? Hnx Hbk|? ? [Hbk Hnx] Hza Hzb|? ? Hnx Hbk]; subst;
    cbn zeta in Hbk; injection Hbk as Ed Ea Eb Ew Es; cbn in *; split; rewrite ?Ed, ?Ea, ?Eb, ?Ew, ?Es; try done; cbn.
  all: try (by intros j Hj%Hl; lia).
  all: try (intros [[=]|Hin%Hr']%elem_of_cons; destruct Hin as (Hpos & Hza & Hzb); try done; exfalso;
    rewrite ?Hza in Ha; rewrite ?Hzb in Hb; first [by apply Permutation_nil_l in Ha|by apply Permutation_nil_l in Hb|lia]).
  all: rewrite ?bind_app, ?(endings_no_reclaim l Hof), ?app_nil_r; try done.
  all: try (by intros j Hj%Hl; lia).
  all: try (apply NoDup_cons in Hn as [Hi Hn]; try done).
  all: try (by intros j Hj; assert (j < rs_next s) by (apply Hl; by right); lia).
  all: try lia.
  - (* a number *) constructor; [|done]. intros Hi%Hl. lia.
  - intros j [->|Hj%Hl]%elem_of_cons; lia.
  - (* admitted *) by rewrite Ha, (comm (++)).
  - (* a reclaim started *) rewrite Hb, bind_cons. unfold started_of at 3. cbn. by rewrite Hst, <- (assoc_L (++)).
  - rewrite bind_cons. unfold started_of at 2. cbn. rewrite Hst, (assoc_L (++)).
    change (NoDup ((i :: (os ≫= number_of) ++ (rs_started s ≫= started_of)) ++ [b])). apply NoDup_app.
    split; [by constructor|]. split; [|apply NoDup_singleton].
    intros j Hj%Hl ->%list_elem_of_singleton. lia.
  - rewrite bind_cons. unfold started_of at 2. cbn. rewrite Hst, (assoc_L (++)). intros j.
    change (j ∈ (i :: (os ≫= number_of) ++ (rs_started s ≫= started_of)) ++ [b] → j < rs_next s').
    intros [Hj%Hl| ->%list_elem_of_singleton]%elem_of_app; lia.
  - intros e [He| ->%list_elem_of_singleton]%elem_of_app; [by apply Hs|by left].
  - (* endings started *) intros e [He|He]%elem_of_app; [by apply Hs|right; by apply Hof].
  - (* completed *) apply without_perm; [done|]. intros Hi'. apply Hi, elem_of_app. left. apply part_of_numbers. by left.
  - (* reclaimed *) apply without_perm; [done|]. intros [Hi'|Hi']%elem_of_app; apply Hi, elem_of_app; [left|by right].
    apply part_of_numbers. by right.
  - (* the last reset ends *) intros Hz. by rewrite Hz.
Qed.
Lemma accounted_quiet os s s' : accounted os s → quiet s s' → accounted os s'.
Proof.
  intros [Ha Hb Hn Hl Hd Hr Hw Hs] [Hbk Hnx]. injection Hbk as Ed Ea Eb Ew Es.
  split; rewrite ?Ed, ?Ea, ?Eb, ?Ew, ?Es; try done. intros i Hi%Hl. lia.
Qed.
Lemma accounted_nothing os s : accounted os s → accounted (Nothing :: os) s.
Proof.
  intros [Ha Hb Hn Hl Hd Hr Hw Hs]. split; try done. intros [[=]|Hin]%elem_of_cons. by apply Hr.
Qed.
(** What was started begins to run. *)
Definition runs_as (b : nat) (st : Started) : Owns := if is_reclaim st then Reclaiming b else Nothing.
Lemma accounted_started os s l1 b st l2 : accounted os s → rs_started s = l1 ++ (b, st) :: l2 →
  accounted (runs_as b st :: os) (s <| rs_started := l1 ++ l2 |>).
Proof.
  intros [Ha Hb Hn Hl Hd Hr Hw Hs] Hl12.
  assert (rs_started s ≫= started_of ≡ₚ started_of (b, st) ++ ((l1 ++ l2) ≫= started_of)) as Hp.
  { rewrite Hl12, <- Permutation_middle. done. }
  assert (reclaiming_of (runs_as b st) = started_of (b, st) ∧ number_of (runs_as b st) = started_of (b, st)
    ∧ working_of (runs_as b st) = [] ∧ reset_of (runs_as b st) = []) as (E1 & E2 & E3 & E4)
    by (unfold runs_as, started_of; cbn; by destruct (is_reclaim st)).
  assert (∀ f : Owns → list nat, f (runs_as b st) = started_of (b, st) →
    ((runs_as b st :: os) ≫= f) ++ ((l1 ++ l2) ≫= started_of) ≡ₚ (os ≫= f) ++ (rs_started s ≫= started_of)) as Hsame.
  { intros f Hf. rewrite Hp, bind_cons, Hf, <- (assoc (++)). by rewrite Permutation_app_swap_app. }
  split; cbn -[mbind].
  - rewrite bind_cons, E3. done.
  - by rewrite (Hsame reclaiming_of E1).
  - by rewrite (Hsame number_of E2).
  - intros i. rewrite (Hsame number_of E2). apply Hl.
  - rewrite bind_cons, E4. done.
  - intros [Heq|Hin]%elem_of_cons; [|by apply Hr]. unfold runs_as in Heq. by destruct (is_reclaim st).
  - done.
  - intros e He. apply Hs. rewrite Hl12. set_solver.
Qed.

(** ** What a flow does to what it owns *)

Local Abbreviation does := (Crew.does (D := ReleaseAnswer) (E := DeviceError) moves may_ask).
Local Abbreviation keeps := (Crew.keeps (D := ReleaseAnswer) (E := DeviceError) moves may_ask).
Local Abbreviation calm := (Crew.calm quiet).
Lemma keeps_await o c : may_ask c o → keeps o (Release.await c).
Proof. intros Hc h s s' _. by split. Qed.

#[local] Instance quiet_preorder : PreOrder quiet.
Proof. split; [by split|]. intros s1 s2 s3 [H1 L1] [H2 L2]. split; [congruence|lia]. Qed.
#[local] Instance quiet_is_move : QuietMoves moves quiet := mv_quiet.
Lemma calm_on_shared {A} (m : action Shared DeviceError A) : calm (Release.on_shared m).
Proof. intros s. unfold Release.on_shared. by destruct (m _). Qed.
Lemma calm_fresh : calm Release.fresh.
Proof. intros s. unfold Release.fresh, mbind, action_bind. split; [done|]. cbn. lia. Qed.
Lemma keeps_within {R} o who (f : shared_flow R) : (∀ c, may_ask (DriverDoes who c) o) → keeps o (Release.within who f).
Proof. intros Hw. by apply (keeps_embed _ _ quiet). Qed.
#[local] Hint Resolve calm_on_shared calm_fresh keeps_await keeps_within : calm.
#[local] Hint Extern 0 (∀ _, may_ask _ _) => done : calm.
#[local] Hint Extern 0 (may_ask _ _) => done : calm.
Lemma calm_participants released reason waitable : calm (Release.callParticipants hasParticipants released reason waitable).
Proof. unfold Release.callParticipants. keep. Qed.
Lemma calm_claim i : calm (Release.try_reclaim_claim i).
Proof. intros s. unfold Release.try_reclaim_claim. by destruct (tryClaim _ _ _ _) as [[? ?]|]. Qed.
Lemma calm_release_claim k : calm (Release.release_claim k).
Proof. unfold Release.release_claim. keep. Qed.

(** Actions that start a reclaim for a workflow. *)
Definition starts {A} (i : nat) (m : action Releasing DeviceError A) : Prop := ∀ s, moves (Working i) s (Working i) (m s).1.
Lemma moves_after_quiet i s1 s2 s3 : quiet s1 s2 → moves (Working i) s2 (Working i) s3 → moves (Working i) s1 (Working i) s3.
Proof.
  intros [Hq Hn] Hm. injection Hq as Ed Ea Eb Ew Es.
  inversion Hm as [? ? ? Hq2| | | |? b st ? ? Hst Hnx Hbk|? l ? ? Hof Hnx Hbk| | | | |]; subst.
  - apply mv_quiet. etrans; [|exact Hq2]. split; [|done]. unfold book. congruence.
  - eapply (mv_start _ b st); [done|lia|]. rewrite Hbk. congruence.
  - eapply (mv_endings _ l); [done|lia|]. rewrite Hbk. congruence.
Qed.
Lemma starts_bind {A B} i (m : action Releasing DeviceError A) (k : A → action Releasing DeviceError B) :
  calm m → (∀ a, starts i (k a)) → starts i (m ≫= k).
Proof.
  intros Hm Hk s. specialize (Hm s). unfold mbind, action_bind. destruct (m s) as [s' [a|e]]; [|by apply mv_quiet].
  eapply moves_after_quiet; [exact Hm|apply Hk].
Qed.
Lemma starts_reclaim i st : is_reclaim st = true → starts i (Release.start_reclaim st).
Proof. intros Hst s. eapply (mv_start _ (rs_next s) st); [done| |done]. unfold Release.start_reclaim, Release.fresh, mbind, action_bind. cbn. lia. Qed.
Lemma keeps_starts {A} i (m : action Releasing DeviceError A) : starts i m → keeps (Working i) (gate m).
Proof. intros Hm. apply does_gate. intros s. by exists (Working i). Qed.

(** The endings a reset starts. *)
Lemma starts_endings reason ids s : ∃ l, (∀ e, e ∈ l → of_reset e)
  ∧ rs_next s ≤ rs_next (Release.start_endings by_reset reason mode_await ids s).1
  ∧ book (Release.start_endings by_reset reason mode_await ids s).1
    = (rs_depth s, rs_active s, rs_background s, rs_waiting s, rs_started s ++ l).
Proof.
  revert s. induction ids as [|k ids IH]; intros s.
  { exists []. split; [by intros e ?%elem_of_nil|]. split; [done|]. cbn. by rewrite app_nil_r. }
  cbn [Release.start_endings]. unfold mbind, action_bind, Release.fresh, modify, get, mret, action_ret, mbind, action_bind.
  cbv beta iota. match goal with |- context [Release.start_endings _ _ _ ids ?s1] => destruct (IH s1) as (l & Hl & Hn & Hb) end.
  destruct (Release.start_endings _ _ _ _ _) as [s2 [cs|e]]; cbn in *.
  all: exists ((rs_next s, StartedEnding by_reset k reason mode_await) :: l);
    (split; [intros e' [->|?]%elem_of_cons; [by eexists _, _|auto]|]); (split; [lia|]); by rewrite Hb, <- (assoc_L (++)).
Qed.

(** ** The workflows *)

Lemma calm_notify : calm Release.notifyAvailability.
Proof. apply calm_on_shared. Qed.
Lemma calm_release_section leaseId reason deadline mode : calm (Release.release_section options hasParticipants leaseId reason deadline mode).
Proof. apply calm_on_shared. Qed.
Lemma keeps_start i st : is_reclaim st = true → keeps (Working i) (gate (Release.start_reclaim st)).
Proof. intros Hst. by apply keeps_starts, starts_reclaim. Qed.
Lemma keeps_background i released reason : keeps (Working i) (gate (Release.reclaimInBackground hasParticipants released reason)).
Proof.
  apply keeps_starts, starts_bind; [apply calm_claim|]. intros claim.
  apply starts_bind; [apply calm_participants|]. intros calls. by apply starts_reclaim.
Qed.
#[local] Hint Resolve keeps_start keeps_background calm_participants calm_claim calm_release_claim calm_notify
  calm_release_section : calm.

Lemma keeps_release i leaseId reason deadline mode :
  keeps (Working i) (Release.release_ options hasDriver config quarantineCauseMessage reclaimStrategy hasParticipants
    by_release leaseId reason deadline mode).
Proof. unfold Release.release_. keep. Qed.
Lemma keeps_reset_release leaseId reason :
  keeps Nothing (Release.release_ options hasDriver config quarantineCauseMessage reclaimStrategy hasParticipants
    by_reset leaseId reason None mode_await).
Proof. unfold Release.release_. keep. Qed.

Lemma does_await o c (Q : result DeviceError unit → Owns → Prop) : may_ask c o → Q (Ok tt) o → does o (Release.await c) Q.
Proof. intros Hc HQ h s s' _. by split. Qed.
Lemma does_admission n i : does (Numbered i) (Release.awaitAdmission n i) (λ r o,
  (r = Ok true ∧ o = Working i) ∨ (r = Ok false ∧ o = Numbered i)).
Proof.
  induction n as [|n IH]; cbn [Release.awaitAdmission]; [apply does_done; by right|].
  apply does_bind, does_gate. intros s. unfold get, mbind, action_bind. cbv beta iota.
  destruct (Z.eqb_spec (rs_depth s) 0) as [Hz|Hz].
  - exists (Working i). split; [by apply mv_enter|]. apply does_done. by left.
  - exists (Numbered i). split; [by apply mv_park|]. apply does_bind. by apply does_await.
Qed.

(** A command ends owning nothing, unless it still waits. *)
Definition gives_back (r : result DeviceError bool) (o : Owns) : Prop := r = Ok true → o = Nothing.
Lemma does_ended {R} (f : flow_of (option R)) o : does o f (λ r o, r ≠ Ok None → o = Nothing) → does o (ended f) gives_back.
Proof.
  intros Hf. apply does_after. eapply does_mono; [exact Hf|]. intros r o' Ho. apply does_done. intros Hr. apply Ho. by intros ->.
Qed.
Lemma does_normal {R} n (f : flow_of R) : (∀ i, keeps (Working i) f) → does Nothing (ended (Release.runNormal n f)) gives_back.
Proof.
  intros Hf. apply does_ended. unfold Release.runNormal. apply does_bind, does_gate. intros s. exists (Numbered (rs_next s)).
  split; [apply mv_number; [done|]; unfold Release.fresh, mbind, action_bind; cbn; lia|]. cbn [Release.fresh].
  apply does_bind. eapply does_mono; [apply does_admission|]. intros r o [[-> ->]|[-> ->]]; [|by apply does_done].
  apply does_after. apply does_keeps; [apply keeps_bind; [apply Hf|intros; apply keeps_ret]|]. intros r.
  apply does_after, does_gate. intros s'. exists Nothing. split; [by apply mv_complete|]. by apply does_done.
Qed.

(** ** The reset *)

Lemma does_settled n : does Draining (Release.wait_until_settled n (λ s, (rs_active s, rs_background s))) (λ r o,
  (r = Ok true ∧ o = Drained) ∨ (r = Ok false ∧ o = Draining)).
Proof.
  induction n as [|n IH]; cbn [Release.wait_until_settled]; [apply does_done; by right|].
  apply does_bind, does_gate. intros s. unfold get, mbind, action_bind, mret, action_ret. cbv beta iota.
  destruct (rs_active s) as [|w ws] eqn:Ea; [destruct (rs_background s) as [|b bs] eqn:Eb|].
  - exists Drained. split; [by apply mv_drained|]. apply does_done. by left.
  - exists Draining. split; [by apply mv_quiet|]. apply does_bind. by apply does_await.
  - exists Draining. split; [by apply mv_quiet|]. apply does_bind. by apply does_await.
Qed.
Lemma does_beginMaintenance n : does Nothing (Release.beginMaintenance n) (λ r o,
  (r = Ok true ∧ o = Drained) ∨ (r = Ok false ∧ o = Draining)).
Proof.
  apply does_bind, does_gate. intros s. exists Draining. split; [by apply mv_begin|]. apply does_bind, does_gate.
  intros s'. exists Draining. split; [by apply mv_quiet|]. apply does_settled.
Qed.
Lemma keeps_each {A} o (work : A → flow_of unit) l : (∀ x, keeps o (work x)) → keeps o (Release.each work l).
Proof. intros Hw. induction l as [|x l IH]; cbn [Release.each]; keep. Qed.
Lemma keeps_endings_started : keeps Drained (Release.releaseAll_ by_reset end_killed mode_await).
Proof.
  unfold Release.releaseAll_. apply keeps_bind; [|keep]. apply does_gate. intros s. exists Drained. split; [|done].
  unfold get, mbind, action_bind. cbv beta iota zeta. set (ids := l_id <$> _).
  destruct (starts_endings end_killed ids s) as (l & Hl & Hn & Hb).
  destruct (Release.start_endings _ _ _ _ _) as [s2 [cs|e]]; by apply (mv_endings _ l).
Qed.
Lemma keeps_reset_device deleteDevices device : keeps Drained (Release.resetDevice options hasDriver deleteDevices device).
Proof. unfold Release.resetDevice, Release.shutdownIfReady. keep. Qed.
Lemma keeps_seeds : keeps Drained (Release.destroySeeds platforms).
Proof. apply keeps_each. intros p. apply keeps_bind; [by apply keeps_call|]. intros a. apply keeps_each. intros x. keep. Qed.
Lemma keeps_baselines : keeps Drained (Release.removeAll hasDriver).
Proof. unfold Release.removeAll. keep. apply keeps_each. intros x. keep. Qed.
#[local] Hint Resolve keeps_reset_device keeps_seeds keeps_baselines keeps_endings_started keeps_each : calm.
Lemma keeps_reset deleteDevices : keeps Drained (Release.reset options hasDriver platforms deleteDevices).
Proof. unfold Release.reset, Release.releaseAllDuringMaintenance. keep. Qed.

Lemma does_endMaintenance : does Drained Release.endMaintenance (λ r o, r = Ok tt ∧ o = Nothing).
Proof.
  apply does_gate. intros s. exists Nothing. split; [|done]. unfold mbind, action_bind, modify. cbn -[Z.sub Z.eqb].
  apply mv_end; destruct (_ =? _)%Z eqn:Hz; cbn zeta; rewrite ?Hz; done.
Qed.
Lemma does_runNuke n deleteDevices : does Nothing (Release.runNuke options hasDriver platforms n deleteDevices)
  (λ r o, r ≠ Ok None → o = Nothing).
Proof.
  unfold Release.runNuke. apply does_bind, does_keeps; [keep|]. intros [[]|e]; [|done].
  apply does_bind, does_await; [done|]. apply does_bind. eapply does_mono; [apply does_beginMaintenance|].
  intros r o [[-> ->]|[-> ->]]; cbn [negb]; [|by apply does_done].
  apply does_after, does_after. apply does_keeps; [apply keeps_bind; [apply keeps_reset|keep]|]. intros r.
  apply does_after. eapply does_mono; [apply does_endMaintenance|]. intros r' o [-> ->]. apply does_done, does_after.
  apply does_keeps; [keep|]. intros [[]|e]; by apply does_done.
Qed.
Lemma does_nuke n deleteDevices : does Nothing (ended (Release.nuke options hasDriver platforms n deleteDevices)) gives_back.
Proof.
  apply does_ended. unfold Release.nuke. apply does_bind, does_keeps; [unfold Release.take_turn; keep|].
  intros [[me previous]|e]; [|done]. apply does_bind, does_keeps; [keep|]. intros [[]|e]; [|done]. apply does_after.
  eapply does_mono; [apply does_runNuke|]. intros r o Ho.
  destruct r as [[report|]|e]; [|by apply does_done|]; (rewrite (Ho ltac:(done)); apply does_bind, does_keeps;
    [unfold Release.end_turn; keep|by intros [[]|e']; [apply does_done|]]).
Qed.

(** ** What was started *)

Lemma does_started b st : is_reclaim st = true ∨ of_reset (b, st) →
  does (runs_as b st)
    (ended (r ← Release.background options hasDriver config quarantineCauseMessage reclaimStrategy hasParticipants b st; mret (Some r)))
    gives_back.
Proof.
  intros Hst. apply does_ended, does_bind. unfold Release.background. apply does_after.
  destruct st as [claim calls released|wipe|who k reason mode]; unfold runs_as; cbn [is_reclaim].
  - apply does_keeps; [unfold Release.run_reclaim; keep|]. intros r. apply does_gate. intros s. exists Nothing.
    split; [by apply mv_reclaimed|]. by apply does_done.
  - apply does_keeps; [keep|]. intros r. apply does_gate. intros s. exists Nothing. split; [by apply mv_reclaimed|]. by apply does_done.
  - destruct Hst as [[=]|(k' & reason' & [= -> -> -> ->])]. apply does_keeps; [apply keeps_reset_release|]. intros r.
    apply does_gate. intros s. exists Nothing. split; [by apply mv_quiet|]. by apply does_done.
Qed.

(** ** Every command, and the pool *)

Lemma keeps_wait o n left : keeps o (Release.wait_until_settled n left).
Proof. induction n as [|n IH]; cbn [Release.wait_until_settled]; keep. Qed.
#[local] Hint Resolve keeps_release keeps_wait : calm.

Lemma does_command n c : is_release_all c = false → does Nothing (command_flow n c) gives_back.
Proof.
  intros Hc. destruct c; cbn [command_flow]; try (apply does_normal; intros i); try done.
  all: try (keep; done).
  - unfold Release.settleBackgroundReclaims. apply does_keeps; [unfold Release.cutShortWaits; keep|done].
  - apply does_ended, does_keeps; [unfold Release.dispose, Release.cutShortWaits; keep|done].
  - apply does_nuke.
Qed.

Definition release_ok : list (flow_of bool) → Releasing → Prop := crew_ok moves may_ask gives_back accounted.

Context (no_release_all : ∀ c, allowed c = true → is_release_all c = false).
Lemma release_step_ok fs s fs' s' : release_ok fs s → release_step (fs, s) (fs', s') → release_ok fs' s'.
Proof using no_release_all.
  intros Hok Hstep.
  inversion Hstep as [? ? n c Hc|? ? l1 b st l2 Hl|? ? i section next Hi|? ? i c next a Hi Ha| |]; subst.
  - destruct Hok as (os & Hfs & Hac). apply (crew_joins _ _ _ _ accounted_perm _ os _ Nothing); [done| |by apply accounted_nothing].
    apply thread_does, does_command. auto.
  - destruct Hok as (os & Hfs & Hac). apply (crew_joins _ _ _ _ accounted_perm _ os _ (runs_as b st)); [done| |by apply accounted_started].
    apply thread_does, does_started. apply (ac_started _ _ Hac (b, st)). rewrite Hl. set_solver.
  - by apply (crew_section _ _ _ _ accounted_perm accounted_moves).
  - by eapply crew_answer.
  - eapply crew_elsewhere; [done|]. intros os Hac. by eapply accounted_quiet.
  - eapply crew_elsewhere; [done|]. intros os Hac. by eapply accounted_quiet.
Qed.
Lemma release_steps_ok x y : rtc release_step x y → release_ok x.1 x.2 → release_ok y.1 y.2.
Proof using no_release_all.
  induction 1 as [|[f1 s1] [f2 s2] z Hst _ IH]; [done|]. intros Hok. apply IH. by eapply release_step_ok.
Qed.
Lemma release_reachable_ok fs s : release_reachable fs s → release_ok fs s.
Proof using no_release_all.
  intros (s0 & ((Hd & Ha & Hb & Hw & Hs) & _) & Hsteps). apply (release_steps_ok _ _ Hsteps).
  exists []. cbn [fst snd]. split; [constructor|]. split; rewrite ?Hd, ?Ha, ?Hb, ?Hw, ?Hs; cbn; try done; first [by apply NoDup_nil_2|by intros ? ?%elem_of_nil].
Qed.

(** ** The reset is alone, and nobody is kept out for good *)

(** The call of a workflow or of a background reclaim, and one of a reset that walks the devices. *)
Definition of_workflow (c : ReleaseCall) : bool := match c with DriverDoes by_release _ => true | _ => false end.
Definition of_walk (c : ReleaseCall) : bool :=
  match c with DriverDoes by_walk _ | ListSources _ | DestroySource _ _ => true | _ => false end.

(** While a reset walks, admission is closed, and no workflow or background reclaim is on or at a driver. *)
Lemma walk_drains fs s (i : nat) c next : release_reachable fs s →
  fs !! i = Some (Call c next) → of_walk c = true →
  (0 < rs_depth s)%Z ∧ rs_active s = [] ∧ rs_background s = []
  ∧ (∀ e, e ∈ rs_started s → of_reset e)
  ∧ ∀ (j : nat) c' next', fs !! j = Some (Call c' next') → of_workflow c' = false.
Proof using no_release_all.
  intros (os & Hfs & Hac)%release_reachable_ok Hi Hwalk.
  destruct (crew_call _ _ _ _ _ _ _ _ _ _ Hfs Hac Hi) as (o & Ho & Hmay). assert (o = Drained) as -> by (by destruct c as [[]| | | | | | | |]).
  pose proof (list_elem_of_lookup_2 _ _ _ Ho) as Hin. destruct (ac_drained _ _ Hac Hin) as [Ha Hb].
  split; [rewrite (ac_depth _ _ Hac); pose proof (drained_counts _ Hin); lia|]. split; [done|]. split; [done|]. split.
  { intros e He. destruct (ac_started _ _ Hac e He) as [Hre|]; [exfalso|done].
    assert (e.1 ∈ rs_background s) as Hb'.
    { rewrite (ac_background _ _ Hac). apply elem_of_app. right. apply list_elem_of_bind. exists e. split; [|done].
      unfold started_of. rewrite Hre. by left. }
    rewrite Hb in Hb'. by apply elem_of_nil in Hb'. }
  intros j c' next' Hj. destruct (of_workflow c') eqn:Hc'; [exfalso|done].
  destruct (crew_call _ _ _ _ _ _ _ _ _ _ Hfs Hac Hj) as (o' & Ho' & Hmay'). apply list_elem_of_lookup_2 in Ho'.
  destruct c' as [[]| | | | | | | |]; try done. destruct o' as [| |w|b| |]; try done.
  - assert (w ∈ rs_active s) as Hw by (rewrite (ac_active _ _ Hac); apply list_elem_of_bind; exists (Working w); set_solver).
    rewrite Ha in Hw. by apply elem_of_nil in Hw.
  - assert (b ∈ rs_background s) as Hw.
    { rewrite (ac_background _ _ Hac). apply elem_of_app. left. apply list_elem_of_bind. exists (Reclaiming b). set_solver. }
    rewrite Hb in Hw. by apply elem_of_nil in Hw.
Qed.

(** C12. Nobody is kept out for good, in a run in which no [releaseAll] is given: when no reset is on,
    no workflow is asleep before the closed admission, so the call of one that went to sleep is
    answered and it is let in at its next look; and once every command that was given has come to its
    end, and what they started has too, the coordinator is at rest again, with admission open. The
    commands are all the others of [Command], the reset included, in any order. *)
Theorem kept_out_are_let_in fs s : release_reachable fs s →
  (rs_depth s = 0%Z → ∀ (i : nat) w next a, fs !! i = Some (Call (AwaitOpen w) next) → answers (AwaitOpen w) a s)
  ∧ ((∀ f, f ∈ fs → f = Done (Ok true)) → rs_started s = [] → at_rest s).
Proof using no_release_all.
  intros (os & Hfs & Hac)%release_reachable_ok. split.
  - intros Hz i w next a _. cbn. rewrite (ac_waiting _ _ Hac Hz). apply not_elem_of_nil.
  - intros Hdone Hst. assert (∀ o, o ∈ os → o = Nothing) as Hno.
    { intros o [i Hi]%list_elem_of_lookup. destruct (Forall2_lookup_r _ _ _ _ _ Hfs Hi) as (f & Hf & h & Hs).
      rewrite (Hdone f) in Hs by (by eapply list_elem_of_lookup_2). by apply (Hs s). }
    assert (∀ A (g : Owns → list A), g Nothing = [] → os ≫= g = []) as Hnil.
    { intros A g Hg. clear -Hno Hg. induction os as [|o os IH]; [done|]. rewrite bind_cons, (Hno o) by (by left).
      rewrite Hg, IH; [done|]. intros o' Ho'. apply Hno. by right. }
    assert (rs_depth s = 0%Z) as Hz by (by rewrite (ac_depth _ _ Hac), Hnil).
    split; [done|]. split; [apply Permutation_nil_r; by rewrite (ac_active _ _ Hac), Hnil|].
    split; [apply Permutation_nil_r; by rewrite (ac_background _ _ Hac), Hst, Hnil|]. by split; [apply (ac_waiting _ _ Hac)|].
Qed.
End alone.

(** ** Runs on a registry with one ready device *)

Definition good_answer : ReleaseAnswer :=
  MkReleaseAnswer (MkAnswer (MkDriverDevice "udid-1" (Opaque "{}") "" None None) (MkReclaimResult ready strategy_erase None) []
    (MkSaved "src_1" None None)) [].
Definition sample_config : QuarantineRetryConfig := MkRetryConfig 3 1000 2 60000.
Definition resting (shared : Shared) : Releasing :=
  MkReleasing shared 0 [] [] [] [] false false 0 [] [] [] [] None WarmLearned.clear [].
Definition but_release_all (c : Command) : bool := negb (is_release_all c).
Definition sample_play (allowed : Command → bool) (shared : Shared) (ts : list Turn) :=
  play (play_turn sample_options (λ _, true) sample_config (λ _, None) (λ _, strategy_erase) 1000 false [ios] allowed good_answer) ts
    ([], resting shared).
Definition sample_reach (allowed : Command → bool) : list (flow_of bool) → Releasing → Prop :=
  release_reachable sample_options (λ _, true) sample_config (λ _, None) (λ _, strategy_erase) 1000 false [ios] allowed.
Lemma but_release_all_holds c : but_release_all c = true → is_release_all c = false.
Proof. unfold but_release_all. by destruct (is_release_all c). Qed.
Lemma sample_play_reach allowed shared ts fs s : sample_play allowed shared ts = Some (fs, s) → sample_reach allowed fs s.
Proof. intros Hp. exists (resting shared). split; [done|]. by eapply (play_steps _ _ (play_turn_step _ _ _ _ _ _ _ _ _ _)). Qed.

(** The result of a flow that ended. *)
Definition outcome (f : flow_of bool) : option bool := match f with Done (Ok b) => Some b | _ => None end.
Lemma outcomes_done (fs : list (flow_of bool)) : (∀ b, b ∈ (outcome <$> fs) → b = Some true) → ∀ f, f ∈ fs → f = Done (Ok true).
Proof.
  intros Hb f Hf. specialize (Hb _ (list_elem_of_fmap_2 outcome _ _ Hf)). destruct f as [[b|e]|sec next|c next]; try done.
  by injection Hb as ->.
Qed.

(** The reset of a daemon with one ready device, up to the device's shutdown. *)
Definition to_walk : list Turn :=
  [Give 3 (CmdNuke false); Section_of 0; Section_of 0; Answer_of 0; Section_of 0; Section_of 0; Section_of 0; Section_of 0;
   Section_of 0; Answer_of 0; Section_of 0; Section_of 0; Section_of 0; Section_of 0].
(** A release that comes then and goes to sleep, the end of the reset, and the release. *)
Definition to_rest : list Turn :=
  [Give 3 (CmdRelease "lse_1" end_explicit); Section_of 1; Section_of 1; Answer_of 0; Section_of 0; Section_of 0; Section_of 0;
   Section_of 0; Answer_of 1; Section_of 1; Section_of 1; Section_of 1].

Definition outcomes (x : option (list (flow_of bool) * Releasing)) : option (list (option bool) * nat) :=
  match x with Some (fs, s) => Some (outcome <$> fs, length (rs_started s)) | None => None end.
(** [kept_out_are_let_in] on both. *)
Lemma kept_out_are_let_in_witness :
  ∃ fs s, sample_play but_release_all sample_shared (to_walk ++ to_rest) = Some (fs, s) ∧ length fs = 2 ∧ at_rest s.
Proof.
  assert (outcomes (sample_play but_release_all sample_shared (to_walk ++ to_rest)) = Some ([Some true; Some true], 0)) as Ho
    by (by vm_compute).
  destruct (sample_play _ _ _) as [[fs s]|] eqn:Hp; [|done]. cbn in Ho. injection Ho as Hfs Hst.
  exists fs, s. split; [done|]. split; [by rewrite <- (length_fmap outcome), Hfs|].
  apply (kept_out_are_let_in sample_options (λ _, true) sample_config (λ _, None) (λ _, strategy_erase) 1000 false [ios]
    but_release_all but_release_all_holds fs s (sample_play_reach _ _ _ _ _ Hp)).
  - apply outcomes_done. rewrite Hfs. by intros b [->|[->|Hb%elem_of_nil]%elem_of_cons]%elem_of_cons.
  - by apply nil_length_inv.
Defined.

(** ** What [releaseAll] leaves behind *)

(** A leased phone, a leased simulator and a ready one. *)
Definition busy_registry : Registry := run_commands sample_options
  [(1%Z, CEnroll "1" (MkEnroll ios "udid-9" "iPhone 16" "26.5" physical_phone []));
   (1%Z, CRegister "2" sample_input_device);
   (1%Z, CRegister "3" (MkRegister "udid-3" sample_spec (Opaque "{}") 10));
   (2%Z, CTransition "dev_2" ready (Some (MkDeviceEvent ev_ready "dev_2" (Opaque ""))) no_update);
   (2%Z, CTransition "dev_3" ready (Some (MkDeviceEvent ev_ready "dev_3" (Opaque ""))) no_update);
   (3%Z, CCreateLease "1" (MkCreateLease "dev_1" "agent" "owner" 100 103 None None None));
   (3%Z, CCreateLease "2" (MkCreateLease "dev_2" "agent" "owner" 100 103 None None None))] empty_registry.
Definition busy_shared : Shared :=
  MkShared busy_registry no_claims 4 empty_coordinator [] [] [] [] ∅ false ∅ [] nothing_acquired.
Definition overtaken : list Turn :=
  [Give 3 (CmdAbsent "lse_1" not_present (λ _, true)); Give 3 (CmdReleaseAll end_killed); Give 3 (CmdNuke false);
   Section_of 0; Section_of 0; Section_of 1; Section_of 2; Section_of 2; Answer_of 2;
   Section_of 1; Section_of 1; Section_of 0; Section_of 2; Section_of 2; Section_of 2; Section_of 0; Section_of 0;
   Begin; Begin; Section_of 3; Section_of 3; Answer_of 1; Section_of 1; Answer_of 2; Section_of 2;
   Section_of 4; Section_of 4; Section_of 4; Begin; Section_of 5;
   Section_of 2; Section_of 2; Answer_of 2; Section_of 2; Section_of 2; Section_of 2; Section_of 2; Section_of 2].
Definition workflows_and_reclaims (x : option (list (flow_of bool) * Releasing)) : option (list nat * list nat) :=
  match x with Some (_, s) => Some (rs_active s, rs_background s) | None => None end.

(** A [releaseAll] breaks it: [Promise.all] rejects with the first ending that fails, the
    workflow counts as ended while the endings behind it are still to commit, and a reset that
    waited for it goes on. A phone is unplugged during a [release --all] before a [nuke]: the
    phone's ending fails, and the reset shuts one simulator down while the reclaim of another, which
    it should have waited for and skips, is at the driver. *)
Example release_all_overtaken : ∃ fs s (i j : nat) c c' next next',
  sample_reach (λ _, true) fs s ∧ fs !! i = Some (Call c next) ∧ of_walk c = true
  ∧ fs !! j = Some (Call c' next') ∧ of_workflow c' = true ∧ rs_active s = [] ∧ rs_background s ≠ [].
Proof.
  assert (∃ c, call_at (sample_play (λ _, true) busy_shared overtaken) 2 = Some c ∧ of_walk c = true) as (c & Hc & Hw)
    by (eexists; split; [by vm_compute|reflexivity]).
  assert (∃ c, call_at (sample_play (λ _, true) busy_shared overtaken) 5 = Some c ∧ of_workflow c = true) as (c' & Hc' & Hw')
    by (eexists; split; [by vm_compute|reflexivity]).
  assert (workflows_and_reclaims (sample_play (λ _, true) busy_shared overtaken) = Some ([], [5])) as Hl by (by vm_compute).
  destruct (call_at_Some _ _ _ Hc) as (fs & s & next & Hp & Hi). rewrite Hp in Hc', Hl. cbn in Hl. injection Hl as Ha Hb.
  destruct (call_at_Some _ _ _ Hc') as (fs' & s' & next' & [= <- <-] & Hj).
  exists fs, s, 2, 5, c, c', next, next'. rewrite Hb. by split_and!; [eapply sample_play_reach|..].
Qed.
