(* ===== verification/Turns.v ===== *)
(** * Resets take turns, and wait for their own endings

    The resets of [Release] among all the other flows of [Alone]: [nuke] queues them behind each
    other ([#tail] of [nuke-service.ts]), and each waits for the endings it started before it walks
    the devices. So a reset that walks has the drivers to itself. *)
From stdpp Require Import base strings list option numbers gmap relations.
From S2P Require Import Prelude JsString OsRange Domain RequestStore Capacity Claims Registry RegistryInv WaitQueue Lifecycle AcquisitionState Resolve Flow Crew Devices Effects Quarantine Reclaim Acquisition WarmLearned DevicePool Release Alone.

Local Abbreviation shared_flow R := (flow Shared DriverCall DriverAnswer DeviceError R).
Local Abbreviation flow_of R := (flow Releasing ReleaseCall ReleaseAnswer DeviceError R).
#[global] Instance Releasing_inhabited : Inhabited Releasing := populate (resting sample_shared).

(** ** What each flow is to the resets *)

(** None of it; a reset that waits behind another; one in its turn with no ending to wait for; one
    that waits for its endings; one of those endings, not recorded yet. *)
Inductive Part := Other | Queued (me previous : nat) | Front (me : nat) | Awaiting (me : nat) (cs : list nat) | Ending_ (c : nat).
Definition turn_of (o : Part) : list nat :=
  match o with Queued me _ | Front me | Awaiting me _ => [me] | _ => [] end.
Definition front_of (o : Part) : list nat := match o with Front me | Awaiting me _ => [me] | _ => [] end.
Definition ending_of (o : Part) : list nat := match o with Ending_ c => [c] | _ => [] end.
Definition begins (e : nat * Started) : list nat := match e.2 with StartedEnding _ _ _ _ => [e.1] | _ => [] end.
(** The endings that were started and have not begun. *)
Definition to_begin (s : Releasing) : list nat := rs_started s ≫= begins.

Definition turn_book (s : Releasing) : list nat * option nat * list (nat * result DeviceError unit) * list nat :=
  (rs_resets s, rs_tail s, rs_ended s, to_begin s).
Definition unturned (s s' : Releasing) : Prop := turn_book s' = turn_book s ∧ rs_next s ≤ rs_next s'.

Inductive turns : Part → Releasing → Part → Releasing → Prop :=
| tn_quiet o s s' : unturned s s' → turns o s o s'
| tn_take s s' : rs_next s < rs_next s' →
    turn_book s' = (rs_resets s ++ [rs_next s], Some (rs_next s), rs_ended s, to_begin s) →
    turns Other s (match rs_tail s with None => Front (rs_next s) | Some p => Queued (rs_next s) p end) s'
| tn_start me cs s s' : (∀ c, c ∈ cs → rs_next s ≤ c < rs_next s') → NoDup cs → rs_next s ≤ rs_next s' →
    turn_book s' = (rs_resets s, rs_tail s, rs_ended s, to_begin s ++ cs) → turns (Front me) s (Awaiting me cs) s'
| tn_record c r s s' : rs_next s ≤ rs_next s' →
    turn_book s' = (rs_resets s, rs_tail s, rs_ended s ++ [(c, r)], to_begin s) → turns (Ending_ c) s Other s'
| tn_end me s s' : rs_next s ≤ rs_next s' →
    turn_book s' = (Arr.filter (λ k, k !== me) (rs_resets s), rs_tail s, rs_ended s, to_begin s) → turns (Front me) s Other s'.
(** What an answer tells: the reset before is over; the endings are, or one failed. *)
Inductive hears : ReleaseCall → result DeviceError ReleaseAnswer → Part → Part → Prop :=
| hr_nothing c a o : hears c a o o
| hr_turn p a me : hears (AwaitReset p) a (Queued me p) (Front me)
| hr_endings cs a me : hears (AwaitAll cs) a (Awaiting me cs) (Front me).
Definition may_turn (c : ReleaseCall) (o : Part) : Prop :=
  match c with
  | DriverDoes by_reset _ => ∃ n, o = Ending_ n
  | DriverDoes by_walk _ | ListSources _ | DestroySource _ _ => ∃ me, o = Front me
  | _ => True
  end.

(** ** The turns and the endings add up *)

(** The endings not recorded. *)
Definition open_endings (os : list Part) (s : Releasing) : list nat := (os ≫= ending_of) ++ to_begin s.
Definition ending_failed (s : Releasing) : Prop := ∃ c e, (c, Err e) ∈ rs_ended s.
Record turns_kept (os : list Part) (s : Releasing) : Prop := {
  tk_turns : rs_resets s ≡ₚ os ≫= turn_of;
  tk_once : NoDup (rs_resets s);
  tk_below r : r ∈ rs_resets s → r < rs_next s;
  tk_tail : match rs_tail s with
            | None => rs_resets s = []
            | Some p => p < rs_next s ∧ (∀ r, r ∈ rs_resets s → r ≤ p) ∧ (p ∉ rs_resets s → rs_resets s = [])
            end;
  tk_queued me p : Queued me p ∈ os →
    p < me ∧ (∀ r, r ∈ rs_resets s → r < me → r ≤ p) ∧ (p ∉ rs_resets s → ∀ r, r ∈ rs_resets s → me ≤ r);
  tk_front me : me ∈ os ≫= front_of → ∀ r, r ∈ rs_resets s → me ≤ r;
  tk_open : NoDup (open_endings os s);
  tk_fresh c : c ∈ open_endings os s → c < rs_next s;
  tk_ended c r : (c, r) ∈ rs_ended s → c < rs_next s ∧ c ∉ open_endings os s;
  tk_awaited : ending_failed s ∨ ∀ c, c ∈ open_endings os s → ∃ me cs, Awaiting me cs ∈ os ∧ c ∈ cs }.

Lemma kept_perm os os' s : os ≡ₚ os' → turns_kept os s → turns_kept os' s.
Proof.
  intros Hp [H1 H2 H3 H4 H5 H6 H7 H8 H9 H10].
  assert (∀ c, c ∈ open_endings os' s ↔ c ∈ open_endings os s) as Ho by (intros c; unfold open_endings; by rewrite Hp).
  split; try done.
  - by rewrite <- Hp.
  - intros me p. rewrite <- Hp. apply H5.
  - intros me. rewrite <- Hp. apply H6.
  - unfold open_endings. by rewrite <- Hp.
  - intros c. rewrite Ho. apply H8.
  - intros c r Hr. rewrite Ho. by eapply H9.
  - destruct H10 as [|H10]; [by left|]. right. intros c Hc. apply Ho, H10 in Hc as (me & cs & Hin & Hc). exists me, cs. split; [by rewrite <- Hp|done].
Qed.
Lemma front_turn os me : me ∈ os ≫= front_of → me ∈ os ≫= turn_of.
Proof. rewrite !list_elem_of_bind. intros (o & Hm & Ho). exists o. split; [|done]. destruct o; set_solver. Qed.
Lemma kept_unturned os s s' : turns_kept os s → unturned s s' → turns_kept os s'.
Proof.
  intros [H1 H2 H3 H4 H5 H6 H7 H8 H9 H10] [[= E1 E2 E3 E4] Hn].
  assert (open_endings os s' = open_endings os s) as E5 by (unfold open_endings; by rewrite E4).
  split; rewrite ?E1, ?E2, ?E5; try done.
  - intros r Hr%H3. lia.
  - destruct (rs_tail s) as [p|]; [|done]. destruct H4 as (Hp & H4). split; [lia|done].
  - intros c Hc%H8. lia.
  - rewrite E3. intros c r [Hc Hr]%H9. split; [lia|done].
  - unfold ending_failed. by rewrite E3.
Qed.
Lemma kept_other os s : turns_kept os s → turns_kept (Other :: os) s.
Proof.
  intros [H1 H2 H3 H4 H5 H6 H7 H8 H9 H10]. split; try done.
  - intros me p [[=]|Hin]%elem_of_cons. by apply H5.
  - destruct H10 as [|H10]; [by left|]. right. intros c (me & cs & Hin & Hc)%H10. exists me, cs. split; [by right|done].
Qed.

(** A new reset queues. *)
Lemma kept_take os s s' : turns_kept (Other :: os) s → rs_next s < rs_next s' →
  turn_book s' = (rs_resets s ++ [rs_next s], Some (rs_next s), rs_ended s, to_begin s) →
  turns_kept (match rs_tail s with None => Front (rs_next s) | Some p => Queued (rs_next s) p end :: os) s'.
Proof.
  intros [H1 H2 H3 H4 H5 H6 H7 H8 H9 H10] Hn [= E1 E2 E3 E4]. set (me := rs_next s) in *. set (o := match rs_tail s with None => _ | Some p => _ end).
  assert (turn_of o = [me] ∧ ending_of o = []) as [Et Ee] by (unfold o; by destruct (rs_tail s)).
  assert (open_endings (o :: os) s' = open_endings (Other :: os) s) as E5 by (unfold open_endings; rewrite !bind_cons, Ee, E4; done).
  assert (∀ r, r ∈ rs_resets s ++ [me] → r ≤ me) as Hle by (intros r [Hr%H3| ->%list_elem_of_singleton]%elem_of_app; lia).
  split; rewrite ?E5, ?E1, ?E2; try done.
  - rewrite bind_cons, Et, H1. cbn. by rewrite Permutation_app_comm.
  - apply NoDup_app. split; [done|]. split; [|apply NoDup_singleton]. intros r Hr%H3 ->%list_elem_of_singleton. lia.
  - intros r Hr%Hle. lia.
  - split; [done|]. split; [done|]. intros Hnot. destruct Hnot. apply elem_of_app. right. by left.
  - intros me' p [Heq|Hin]%elem_of_cons.
    + unfold o in Heq. destruct (rs_tail s) as [p'|]; [|done]. injection Heq as -> ->. destruct H4 as (Hp & Hall & Hnil). split; [done|]. split.
      * intros r [Hr%Hall| ->%list_elem_of_singleton]%elem_of_app ?; lia.
      * intros [Hnot _]%not_elem_of_app r. rewrite (Hnil Hnot). by intros ->%list_elem_of_singleton.
    + destruct (H5 me' p) as (Hp & Hall & Hnil); [by right|].
      assert (me' < me) as Hlt. { apply H3. rewrite H1, bind_cons. apply elem_of_app. right. apply list_elem_of_bind. exists (Queued me' p). split; [by left|done]. }
      split; [done|]. split.
      * intros r [Hr| ->%list_elem_of_singleton]%elem_of_app ?; [by apply Hall|lia].
      * intros [Hnot _]%not_elem_of_app r [Hr| ->%list_elem_of_singleton]%elem_of_app; [by apply (Hnil Hnot)|lia].
  - rewrite bind_cons. intros me' [Hme|Hme]%elem_of_app r Hr.
    + unfold o in Hme. destruct (rs_tail s); [by apply elem_of_nil in Hme|]. apply list_elem_of_singleton in Hme as ->.
      rewrite H4 in Hr. by apply list_elem_of_singleton in Hr as ->.
    + assert (me' < me) by (apply H3; rewrite H1; by apply front_turn). apply elem_of_app in Hr as [Hr| ->%list_elem_of_singleton]; [by apply H6|lia].
  - intros c Hc%H8. lia.
  - rewrite E3. intros c r [Hc Hr]%H9. split; [lia|done].
  - unfold ending_failed. rewrite E3. destruct H10 as [|H10]; [by left|]. right. intros c (me' & cs & [[=]|Hin]%elem_of_cons & Hc)%H10.
    exists me', cs. split; [by right|done].
Qed.
(** A reset starts its endings. *)
Lemma kept_start os s s' me cs : turns_kept (Front me :: os) s → (∀ c, c ∈ cs → rs_next s ≤ c < rs_next s') → NoDup cs →
  rs_next s ≤ rs_next s' → turn_book s' = (rs_resets s, rs_tail s, rs_ended s, to_begin s ++ cs) → turns_kept (Awaiting me cs :: os) s'.
Proof.
  intros [H1 H2 H3 H4 H5 H6 H7 H8 H9 H10] Hcs Hnd Hn [= E1 E2 E3 E4].
  assert (open_endings (Awaiting me cs :: os) s' = open_endings (Front me :: os) s ++ cs) as E5
    by (unfold open_endings; rewrite E4; cbn; by rewrite (assoc_L (++))).
  split; rewrite ?E5, ?E1, ?E2; try done.
  - intros r Hr%H3. lia.
  - destruct (rs_tail s) as [p|]; [|done]. destruct H4 as (Hp & H4). split; [lia|done].
  - intros me' p [[=]|Hin]%elem_of_cons. apply H5. by right.
  - apply NoDup_app. split; [done|]. split; [|done]. intros c Hc%H8 Hc'%Hcs. lia.
  - intros c [Hc%H8|Hc%Hcs]%elem_of_app; lia.
  - rewrite E3. intros c r [Hc Hr]%H9. split; [lia|]. intros [?|Hc'%Hcs]%elem_of_app; [done|lia].
  - unfold ending_failed. rewrite E3. destruct H10 as [|H10]; [by left|]. right.
    intros c [(me' & cs' & [[=]|Hin]%elem_of_cons & Hc)%H10|Hc]%elem_of_app; [exists me', cs'; split; [by right|done]|].
    exists me, cs. split; [by left|done].
Qed.
(** An ending is over. *)
Lemma kept_record os s s' c r : turns_kept (Ending_ c :: os) s → rs_next s ≤ rs_next s' →
  turn_book s' = (rs_resets s, rs_tail s, rs_ended s ++ [(c, r)], to_begin s) → turns_kept (Other :: os) s'.
Proof.
  intros [H1 H2 H3 H4 H5 H6 H7 H8 H9 H10] Hn [= E1 E2 E3 E4].
  assert (open_endings (Ending_ c :: os) s = c :: open_endings (Other :: os) s') as E5 by (unfold open_endings; by rewrite E4).
  rewrite E5 in H7. apply NoDup_cons in H7 as [Hc H7]. assert (∀ k, k ∈ open_endings (Other :: os) s' → k ∈ open_endings (Ending_ c :: os) s) as Hsub
    by (intros k Hk; rewrite E5; by right).
  split; rewrite ?E1, ?E2; try done.
  - intros k Hk%H3. lia.
  - destruct (rs_tail s) as [p|]; [|done]. destruct H4 as (Hp & H4). split; [lia|done].
  - intros me p [[=]|Hin]%elem_of_cons. apply H5. by right.
  - intros k Hk%Hsub%H8. lia.
  - rewrite E3. intros k r' [Hk|[= -> ->]%list_elem_of_singleton]%elem_of_app.
    + destruct (H9 k r' Hk) as [Hlt Hnot]. split; [lia|]. by intros ?%Hsub.
    + split; [|done]. assert (c < rs_next s); [|lia]. apply H8. rewrite E5. by left.
  - destruct H10 as [(k & e & Hk)|H10].
    + left. exists k, e. rewrite E3. apply elem_of_app. by left.
    + right. intros k (me & cs & [[=]|Hin]%elem_of_cons & Hk)%Hsub%H10. exists me, cs. split; [by right|done].
Qed.
(** A reset's turn ends. *)
Lemma kept_end os s s' me : turns_kept (Front me :: os) s → rs_next s ≤ rs_next s' →
  turn_book s' = (Arr.filter (λ k, k !== me) (rs_resets s), rs_tail s, rs_ended s, to_begin s) → turns_kept (Other :: os) s'.
Proof.
  intros [H1 H2 H3 H4 H5 H6 H7 H8 H9 H10] Hn [= E1 E2 E3 E4].
  assert (open_endings (Other :: os) s' = open_endings (Front me :: os) s) as E5 by (unfold open_endings; by rewrite E4).
  assert (∀ r, r ∈ rs_resets s' ↔ r ∈ rs_resets s ∧ r ≠ me) as Hin'.
  { intros r. rewrite E1, elem_of_afilter, negb_true_iff, bool_decide_eq_false. done. }
  assert (∀ r, r ∈ rs_resets s → me ≤ r) as Hmin by (apply H6; rewrite bind_cons; by left).
  assert (me ∉ os ≫= turn_of) as Hnot by (rewrite H1 in H2; by apply NoDup_cons in H2 as [? _]).
  split; rewrite ?E5; try done.
  - rewrite E1. by apply without_perm.
  - rewrite E1. eapply sublist_NoDup; [exact H2|apply sublist_filter_b].
  - intros r [Hr%H3 _]%Hin'. lia.
  - rewrite E2. destruct (rs_tail s) as [p|]; [|rewrite E1, H4; done]. destruct H4 as (Hp & Hall & Hnil). split; [lia|]. split; [intros r [Hr _]%Hin'; by apply Hall|].
    intros Hno. apply elem_of_nil_inv. intros r [Hr Hne]%Hin'. destruct (decide (p ∈ rs_resets s)) as [Hps|Hps]; [|by rewrite (Hnil Hps) in Hr; apply elem_of_nil in Hr].
    destruct (decide (p = me)) as [->|Hpm]; [|by apply Hno, Hin']. specialize (Hmin r Hr). specialize (Hall r Hr). lia.
  - intros me' p [[=]|Hin]%elem_of_cons. destruct (H5 me' p) as (Hp & Hall & Hnil); [by right|]. split; [done|].
    split; [intros r [Hr _]%Hin'; by apply Hall|]. intros Hno r [Hr Hne]%Hin'. destruct (decide (p ∈ rs_resets s)) as [Hps|Hps]; [|by apply Hnil].
    destruct (decide (p = me)) as [->|Hpm]; [|by destruct Hno; apply Hin']. destruct (decide (me' ≤ r)) as [|Hlt]; [done|].
    specialize (Hmin r Hr). specialize (Hall r Hr ltac:(lia)). lia.
  - intros me' Hme r [Hr _]%Hin'. apply H6; [|done]. rewrite bind_cons. by right.
  - intros c Hc%H8. lia.
  - rewrite E3. intros c r [Hc Hr]%H9. split; [lia|done].
  - unfold ending_failed. rewrite E3. destruct H10 as [|H10]; [by left|]. right. intros c (me' & cs & [[=]|Hin]%elem_of_cons & Hc)%H10.
    exists me', cs. split; [by right|done].
Qed.
Lemma kept_turns o os s o' s' : turns_kept (o :: os) s → turns o s o' s' → turns_kept (o' :: os) s'.
Proof.
  intros Hk Ht. inversion Ht; subst; [by eapply kept_unturned|by apply kept_take|by eapply kept_start|by eapply kept_record|by eapply kept_end].
Qed.
(** The reset before is over. *)
Lemma kept_next os s me p : turns_kept (Queued me p :: os) s → p ∉ rs_resets s → turns_kept (Front me :: os) s.
Proof.
  intros [H1 H2 H3 H4 H5 H6 H7 H8 H9 H10] Hp. destruct (H5 me p) as (_ & _ & Hmin); [by left|]. split; try done.
  - intros me' p' [[=]|Hin]%elem_of_cons. apply H5. by right.
  - rewrite bind_cons. intros me' [->%list_elem_of_singleton|Hme]%elem_of_app; [by apply Hmin|by apply H6].
  - destruct H10 as [|H10]; [by left|]. right. intros c (me' & cs & [[=]|Hin]%elem_of_cons & Hc)%H10. exists me', cs. split; [by right|done].
Qed.
(** The endings are all over, or one of them failed. *)
Lemma kept_awaited os s me cs a : turns_kept (Awaiting me cs :: os) s → answers (AwaitAll cs) a s → turns_kept (Front me :: os) s.
Proof.
  intros [H1 H2 H3 H4 H5 H6 H7 H8 H9 H10] Ha. split; try done.
  - intros me' p' [[=]|Hin]%elem_of_cons. apply H5. by right.
  - destruct H10 as [|H10]; [by left|]. destruct a as [a|e]; [|left; destruct Ha as (c & _ & Hc); by exists c, e].
    right. intros c Hc. destruct (H10 c Hc) as (me' & cs' & [[= -> ->]|Hin]%elem_of_cons & Hcs); [|exists me', cs'; split; [by right|done]].
    by destruct (H9 c (Ok tt) (Ha c Hcs)) as [_ []].
Qed.
Lemma kept_hears c a o os s o' : turns_kept (o :: os) s → answers c a s → hears c a o o' → turns_kept (o' :: os) s.
Proof. intros Hk Ha Hh. destruct Hh; [done|by eapply kept_next|by eapply kept_awaited]. Qed.
(** What was started begins to run. *)
Definition begins_as (b : nat) (st : Started) : Part := match st with StartedEnding _ _ _ _ => Ending_ b | _ => Other end.
Lemma kept_begins os s l1 b st l2 : turns_kept os s → rs_started s = l1 ++ (b, st) :: l2 →
  turns_kept (begins_as b st :: os) (s <| rs_started := l1 ++ l2 |>).
Proof.
  intros [H1 H2 H3 H4 H5 H6 H7 H8 H9 H10] Hl. set (s' := s <| rs_started := l1 ++ l2 |>).
  assert (turn_of (begins_as b st) = [] ∧ front_of (begins_as b st) = []) as [Et Ef] by (by destruct st).
  assert (open_endings (begins_as b st :: os) s' ≡ₚ open_endings os s) as E5.
  { unfold open_endings, to_begin. rewrite Hl. change (rs_started s') with (l1 ++ l2). rewrite bind_cons, !bind_app, bind_cons.
    assert (ending_of (begins_as b st) = begins (b, st)) as -> by (by destruct st).
    rewrite <- (assoc (++)), Permutation_app_swap_app. f_equiv. by rewrite Permutation_app_swap_app. }
  assert (∀ c, c ∈ open_endings (begins_as b st :: os) s' ↔ c ∈ open_endings os s) as Hopen by (intros c; by rewrite E5).
  split; try done.
  - by rewrite bind_cons, Et.
  - intros me p [Heq|Hin]%elem_of_cons; [by destruct st|by apply H5].
  - rewrite bind_cons, Ef. apply H6.
  - by rewrite E5.
  - intros c Hc%Hopen. by apply H8.
  - intros c r Hc. destruct (H9 c r Hc) as [Hlt Hno]. split; [done|]. by intros ?%Hopen.
  - destruct H10 as [|H10]; [by left|]. right. intros c Hc. apply Hopen, H10 in Hc as (me & cs & Hin & Hc). exists me, cs. split; [by right|done].
Qed.

(** Only one reset is in its turn, and while it has no ending to wait for, none is open. *)
Lemma turn_alone os s (i j : nat) me o : turns_kept os s → os !! i = Some (Front me) → os !! j = Some o → front_of o ≠ [] → j = i.
Proof.
  intros Hk Hi Hj Ho. destruct (decide (j = i)) as [|Hne]; [done|exfalso]. destruct (front_of o) as [|me' l] eqn:Ef; [done|].
  assert (me ∈ os ≫= front_of) as Hme by (apply list_elem_of_bind; exists (Front me); split; [by left|by eapply list_elem_of_lookup_2]).
  assert (me' ∈ os ≫= front_of) as Hme' by (apply list_elem_of_bind; exists o; split; [rewrite Ef; by left|by eapply list_elem_of_lookup_2]).
  assert (∀ k, k ∈ os ≫= front_of → k ∈ rs_resets s) as Hin by (intros k Hf%front_turn; by rewrite (tk_turns _ _ Hk)).
  assert (me' = me) as -> by (pose proof (tk_front _ _ Hk me Hme me' (Hin _ Hme')); pose proof (tk_front _ _ Hk me' Hme' me (Hin _ Hme)); lia).
  destruct (insert_perm os i _ Hi) as (rest & Hp & Hp'). pose proof (tk_once _ _ Hk) as Hnd. rewrite (tk_turns _ _ Hk), Hp in Hnd.
  rewrite bind_cons in Hnd. apply NoDup_cons in Hnd as [Hno _]. apply Hno. apply front_turn, list_elem_of_bind. exists o. split; [rewrite Ef; by left|].
  assert (o ∈ Other :: rest) as [->|Hr]%elem_of_cons; [|done..].
  rewrite <- (Hp' Other). apply list_elem_of_lookup_2 with j. by rewrite list_lookup_insert_ne.
Qed.
Lemma front_closes os s (i : nat) me : turns_kept os s → os !! i = Some (Front me) → ¬ ending_failed s → open_endings os s = [].
Proof.
  intros Hk Hi Hf. destruct (tk_awaited _ _ Hk) as [|Haw]; [done|]. apply elem_of_nil_inv. intros c (me' & cs & [j Hj]%list_elem_of_lookup & _)%Haw.
  pose proof (turn_alone os s i j me (Awaiting me' cs) Hk Hi Hj ltac:(done)) as ->. by rewrite Hi in Hj.
Qed.

(** ** What a flow is to the resets as it runs *)

Section turns.
Context (options : RegistryOptions) (hasDriver : Platform → bool) (config : QuarantineRetryConfig)
  (quarantineCauseMessage : string → option string) (reclaimStrategy : DeviceRecord → ReclaimStrategy)
  (defaultMs : Z) (hasParticipants : bool) (platforms : list Platform).
Local Abbreviation keeps := (Crew.keeps (D := ReleaseAnswer) (E := DeviceError) turns may_turn).
Local Abbreviation told := (Crew.told turns may_turn hears).
Local Abbreviation calm := (Crew.calm unturned).
#[local] Instance unturned_preorder : PreOrder unturned.
Proof. split; [by split|]. intros s1 s2 s3 [H1 L1] [H2 L2]. split; [congruence|lia]. Qed.
#[local] Instance unturned_moves : QuietMoves turns unturned := tn_quiet.
Lemma calm_shared {A} (m : action Shared DeviceError A) : calm (Release.on_shared m).
Proof. intros s. unfold Release.on_shared. by destruct (m _). Qed.
Lemma calm_number : calm Release.fresh.
Proof. intros s. unfold Release.fresh, mbind, action_bind. split; [done|]. cbn. lia. Qed.
Lemma keeps_runs {R} o who (f : shared_flow R) : (∀ c, may_turn (DriverDoes who c) o) → keeps o (Release.within who f).
Proof. intros Hw. by apply (keeps_embed _ _ unturned). Qed.
Lemma keeps_waits o c : may_turn c o → keeps o (Release.await c).
Proof. intros Hc h s s' _. by split. Qed.
#[local] Hint Resolve calm_shared calm_number keeps_runs keeps_waits : calm.
#[local] Hint Extern 0 (∀ _, may_turn _ _) => first [done|by eexists] : calm.
#[local] Hint Extern 0 (may_turn _ _) => first [done|by eexists] : calm.
Lemma calm_tells released reason waitable : calm (Release.callParticipants hasParticipants released reason waitable).
Proof. unfold Release.callParticipants. keep. Qed.
Lemma calm_reclaim_claim i : calm (Release.try_reclaim_claim i).
Proof. intros s. unfold Release.try_reclaim_claim. by destruct (tryClaim _ _ _ _) as [[? ?]|]. Qed.
Lemma calm_drops_claim k : calm (Release.release_claim k).
Proof. unfold Release.release_claim. keep. Qed.
Lemma calm_starts st : is_reclaim st = true → calm (Release.start_reclaim st).
Proof.
  intros Hst. unfold Release.start_reclaim. apply (calm_bind unturned); [keep|]. intros b s. split; [|done]. unfold turn_book, to_begin. cbn.
  rewrite bind_app. cbn. destruct st; [..|done]; by rewrite app_nil_r.
Qed.
Lemma calm_background released reason : calm (Release.reclaimInBackground hasParticipants released reason).
Proof.
  unfold Release.reclaimInBackground. apply (calm_bind unturned); [apply calm_reclaim_claim|]. intros claim.
  apply (calm_bind unturned); [apply calm_tells|]. intros calls. by apply calm_starts.
Qed.
Lemma calm_ends leaseId reason deadline mode : calm (Release.release_section options hasParticipants leaseId reason deadline mode).
Proof. apply calm_shared. Qed.
Lemma calm_available : calm Release.notifyAvailability.
Proof. apply calm_shared. Qed.
#[local] Hint Resolve calm_available calm_tells calm_reclaim_claim calm_drops_claim calm_starts calm_background calm_ends : calm.

(** ** The workflows and what was started *)

Lemma keeps_lease_ending o who leaseId reason deadline mode : (∀ c, may_turn (DriverDoes who c) o) →
  keeps o (Release.release_ options hasDriver config quarantineCauseMessage reclaimStrategy hasParticipants who leaseId reason deadline mode).
Proof. intros Hw. unfold Release.release_. keep. Qed.
Lemma keeps_admission n i : keeps Other (Release.awaitAdmission n i).
Proof. induction n as [|n IH]; cbn [Release.awaitAdmission]; keep. Qed.
Lemma keeps_settles n left : keeps Other (Release.wait_until_settled n left).
Proof. induction n as [|n IH]; cbn [Release.wait_until_settled]; keep. Qed.
#[local] Hint Resolve keeps_admission keeps_settles keeps_lease_ending : calm.
Lemma keeps_normal {R} n (f : flow_of R) : keeps Other f → keeps Other (Release.runNormal n f).
Proof. intros Hf. unfold Release.runNormal, Release.complete. keep. Qed.
Lemma keeps_ended {R} o (f : flow_of (option R)) : keeps o f → keeps o (ended f).
Proof. intros Hf. unfold ended. apply keeps_after; [done|]. intros r. apply keeps_done. Qed.
#[local] Hint Resolve keeps_normal keeps_ended : calm.
Lemma keeps_command n c : is_release_all c = false → match c with CmdNuke _ => False | _ => True end →
  keeps Other (command_flow options hasDriver config quarantineCauseMessage reclaimStrategy defaultMs hasParticipants platforms n c).
Proof.
  intros Hc Hn. destruct c; try done; cbn [command_flow]; try (apply keeps_ended).
  1-9: apply keeps_normal; keep.
  - unfold Release.settleBackgroundReclaims, Release.cutShortWaits. keep.
  - unfold Release.dispose, Release.cutShortWaits. keep.
Qed.
Lemma told_quiet {R} o (f : flow_of R) Q : keeps o f → (∀ r, Q r o) → told o f Q.
Proof. exact (told_keeps turns may_turn hears hr_nothing o f Q). Qed.
Lemma told_background b st : is_reclaim st = true ∨ of_reset (b, st) →
  told (begins_as b st) (ended (r ← Release.background options hasDriver config quarantineCauseMessage reclaimStrategy hasParticipants b st; mret (Some r)))
    (λ _ _, True).
Proof.
  intros Hst. destruct st as [claim calls released|wipe|who k reason mode]; cbn [begins_as].
  - apply told_quiet; [|done]. apply keeps_ended. unfold Release.background, Release.run_reclaim, Release.reclaim_ended. keep.
  - apply told_quiet; [|done]. apply keeps_ended. unfold Release.background, Release.reclaim_ended. keep.
  - destruct Hst as [[=]|(k' & reason' & [= -> -> -> ->])]. apply told_after, told_bind. unfold Release.background. apply told_after.
    apply told_quiet; [keep|]. intros r. apply told_gate. intros s. exists Other. split; [by eapply tn_record|done].
Qed.

(** ** A reset *)

Lemma keeps_every {A} o (work : A → flow_of unit) l : (∀ x, keeps o (work x)) → keeps o (Release.each work l).
Proof. intros Hw. induction l as [|x l IH]; cbn [Release.each]; keep. Qed.
Lemma keeps_device me deleteDevices device : keeps (Front me) (Release.resetDevice options hasDriver deleteDevices device).
Proof. unfold Release.resetDevice, Release.shutdownIfReady. keep. Qed.
Lemma keeps_sources me : keeps (Front me) (Release.destroySeeds platforms).
Proof. apply keeps_every. intros p. apply keeps_bind; [keep|]. intros a. apply keeps_every. intros x. keep. Qed.
Lemma keeps_removes me : keeps (Front me) (Release.removeAll hasDriver).
Proof. unfold Release.removeAll. keep. apply keeps_every. intros x. keep. Qed.
#[local] Hint Resolve keeps_device keeps_sources keeps_removes keeps_every : calm.
Lemma keeps_drains me n : keeps (Front me) (Release.beginMaintenance n).
Proof.
  unfold Release.beginMaintenance, Release.cutShortWaits. apply keeps_bind; [keep|]. intros _. apply keeps_bind; [keep|]. intros _.
  induction n as [|n IH]; cbn [Release.wait_until_settled]; keep.
Qed.
Lemma endings_begin reason ids s : ∃ cs,
  (Release.start_endings by_reset reason mode_await ids s).2 = Ok cs
  ∧ (∀ c, c ∈ cs → rs_next s ≤ c < rs_next (Release.start_endings by_reset reason mode_await ids s).1) ∧ NoDup cs
  ∧ rs_next s ≤ rs_next (Release.start_endings by_reset reason mode_await ids s).1
  ∧ turn_book (Release.start_endings by_reset reason mode_await ids s).1 = (rs_resets s, rs_tail s, rs_ended s, to_begin s ++ cs).
Proof.
  revert s. induction ids as [|k ids IH]; intros s.
  { exists []. split; [done|]. split; [by intros c ?%elem_of_nil|]. split; [apply NoDup_nil_2|]. split; [done|]. cbn. by rewrite app_nil_r. }
  cbn [Release.start_endings]. unfold mbind, action_bind, Release.fresh, modify, get, mret, action_ret, mbind, action_bind. cbv beta iota.
  match goal with |- context [Release.start_endings _ _ _ ids ?s1] => destruct (IH s1) as (cs & Hok & Hcs & Hnd & Hn & Hb) end.
  destruct (Release.start_endings _ _ _ _ _) as [s2 r]. cbn in Hok. subst r. cbn [fst snd] in *. cbn in Hcs, Hn.
  exists (rs_next s :: cs). split; [done|]. split; [|split_and!].
  - intros c [->|Hc%Hcs]%elem_of_cons; cbn in *; lia.
  - constructor; [|done]. intros Hc%Hcs. lia.
  - lia.
  - rewrite Hb. unfold to_begin. cbn. rewrite bind_app. cbn. by rewrite <- (assoc_L (++)).
Qed.
(** The endings of a reset are over when it goes on. *)
Lemma told_endings me : told (Front me) Release.releaseAllDuringMaintenance (λ _ o, o = Front me).
Proof.
  unfold Release.releaseAllDuringMaintenance, Release.releaseAll_. apply told_bind, told_quiet; [keep|]. intros [[]|e]; [|done].
  apply told_bind, told_gate. intros s. unfold get, mbind, action_bind. cbv beta iota zeta. set (ids := l_id <$> _).
  destruct (endings_begin end_killed ids s) as (cs & Hok & Hcs & Hnd & Hn & Hb). destruct (Release.start_endings _ _ _ _ _) as [s2 r]. cbn in Hok. subst r.
  exists (Awaiting me cs). split; [by apply tn_start|]. apply told_bind, told_call; [done|]. intros a. exists (Front me).
  split; [apply hr_endings|]. by destruct a.
Qed.
Lemma told_reset me deleteDevices : told (Front me) (Release.reset options hasDriver platforms deleteDevices) (λ _ o, o = Front me).
Proof.
  unfold Release.reset. apply told_bind. eapply told_mono; [apply told_endings|]. intros [ids|e] o ->; [|done].
  apply told_quiet; [|done]. keep.
Qed.
Lemma told_finally {R} o (f : flow_of R) k : told o f (λ _ o', o' = o) → keeps o k → told o (finally f k) (λ _ o', o' = o).
Proof.
  intros Hf Hk. apply told_after. eapply told_mono; [exact Hf|]. intros r o' ->. apply told_after, told_quiet; [done|]. by intros [[]|e].
Qed.
Lemma told_runNuke me n deleteDevices : told (Front me) (Release.runNuke options hasDriver platforms n deleteDevices) (λ _ o, o = Front me).
Proof.
  unfold Release.runNuke. apply told_bind, told_quiet; [keep|]. intros [[]|e]; [|done].
  apply told_bind, told_quiet; [keep|]. intros [[]|e]; [|done].
  apply told_bind, told_quiet; [apply keeps_drains|]. intros [[]|e]; [|done..]. cbn [negb].
  apply told_finally; [|keep]. apply told_finally.
  - apply told_bind. eapply told_mono; [apply told_reset|]. by intros [report|e] o ->.
  - unfold Release.endMaintenance. apply (keeps_gate turns may_turn unturned), (calm_bind unturned); [keep|]. intros _ s.
    change (unturned s (if (rs_depth s =? 0)%Z then s <| rs_waiting := [] |> else s)). by destruct (_ =? _)%Z.
Qed.
Lemma taken s : (Release.take_turn s).2 = Ok (rs_next s, rs_tail s)
  ∧ rs_next s < rs_next (Release.take_turn s).1
  ∧ turn_book (Release.take_turn s).1 = (rs_resets s ++ [rs_next s], Some (rs_next s), rs_ended s, to_begin s).
Proof. split_and!; [done| |done]. apply Nat.lt_succ_diag_r. Qed.
Lemma told_turn me n deleteDevices : told (Front me)
  (after (Release.runNuke options hasDriver platforms n deleteDevices) (λ r,
    match r with Ok None => Done (Ok None) | r => _ ← gate (Release.end_turn me); Done r end)) (λ _ _, True).
Proof.
  apply told_after. eapply told_mono; [apply told_runNuke|]. intros r o ->.
  assert (∀ r : result DeviceError (option Release.NukeReport), told (Front me) (_ ← gate (Release.end_turn me); Done r) (λ _ _, True)) as Hend.
  { intros r'. apply told_bind, told_gate. intros s. exists Other. split; [by apply (tn_end me)|done]. }
  destruct r as [[report|]|e]; [apply Hend|done|apply Hend].
Qed.
Lemma told_nuke n deleteDevices : told Other (ended (Release.nuke options hasDriver platforms n deleteDevices)) (λ _ _, True).
Proof.
  apply told_after. eapply (told_mono _ _ _ _ _ (λ _ _, True)); [|done]. unfold Release.nuke. apply told_bind, told_gate. intros s.
  destruct (taken s) as (-> & Hn & Hb). eexists. split; [by apply tn_take|]. cbn [fst snd]. apply told_bind.
  destruct (rs_tail s) as [p|]; [|apply told_turn]. split; [done|]. intros a. exists (Front (rs_next s)). split; [apply hr_turn|apply told_turn].
Qed.

(** ** The pool *)

Context (allowed : Command → bool) (no_release_all : ∀ c, allowed c = true → is_release_all c = false).
Local Abbreviation step := (release_step options hasDriver config quarantineCauseMessage reclaimStrategy defaultMs hasParticipants platforms allowed).
Local Abbreviation reachable := (release_reachable options hasDriver config quarantineCauseMessage reclaimStrategy defaultMs hasParticipants platforms allowed).
(** What was started is a reclaim, or an ending a reset waits for. *)
Definition proper_started (s : Releasing) : Prop := ∀ e, e ∈ rs_started s → is_reclaim e.2 = true ∨ of_reset e.
Definition turns_ok : list (flow_of bool) → Releasing → Prop := taught_ok turns may_turn hears (λ _ _, True) turns_kept.
Lemma told_command n c : allowed c = true →
  told Other (command_flow options hasDriver config quarantineCauseMessage reclaimStrategy defaultMs hasParticipants platforms n c) (λ _ _, True).
Proof using no_release_all.
  intros Hc%no_release_all. destruct c; try (apply told_quiet; [by apply keeps_command|done]). apply told_nuke.
Qed.
Lemma turns_step_ok fs s fs' s' : turns_ok fs s → proper_started s → step (fs, s) (fs', s') → turns_ok fs' s'.
Proof using no_release_all.
  intros Hok Hst Hstep.
  inversion Hstep as [? ? n c Hc|? ? l1 b st l2 Hl|? ? i section next Hi|? ? i c next a Hi Ha| |]; subst.
  - destruct Hok as (os & Hfs & Hk). eapply (taught_joins _ _ _ _ _ kept_perm); [exact Hfs|by apply told_command|by apply kept_other].
  - destruct Hok as (os & Hfs & Hk). eapply (taught_joins _ _ _ _ _ kept_perm); [exact Hfs| |by apply kept_begins].
    apply told_background. apply (Hst (b, st)). rewrite Hl. set_solver.
  - by apply (taught_section _ _ _ _ _ kept_perm kept_turns).
  - by apply (taught_answer _ _ _ _ _ _ kept_perm kept_hears _ _ _ _ _ _ Hok Hi Ha).
  - eapply taught_elsewhere; [done|]. intros os Hk. by eapply kept_unturned.
  - eapply taught_elsewhere; [done|]. intros os Hk. by eapply kept_unturned.
Qed.
Lemma reachable_proper fs s : reachable fs s → proper_started s.
Proof using no_release_all. intros (os & _ & Hac)%release_reachable_ok; [|done]. exact (ac_started _ _ Hac). Qed.
Lemma start_turns s : at_start s → turns_ok [] s.
Proof.
  intros ((_ & _ & _ & _ & Hs) & Hr & Ht & He). exists []. split; [constructor|].
  assert (open_endings [] s = []) as Ho by (unfold open_endings, to_begin; by rewrite Hs).
  split; rewrite ?Ho, ?Hr, ?Ht, ?He; try done; try apply NoDup_nil_2; try (by intros ? ?%elem_of_nil).
  - by intros ? ? ?%elem_of_nil.
  - by intros ? ? ?%elem_of_nil.
  - right. by intros c ?%elem_of_nil.
Qed.
Lemma turns_steps_ok x y : rtc step x y → reachable x.1 x.2 → turns_ok x.1 x.2 → turns_ok y.1 y.2.
Proof using no_release_all.
  induction 1 as [|[fs1 s1] [fs2 s2] z Hstep _ IH]; [done|]. intros Hre Hok. apply IH.
  - destruct Hre as (s' & Hs' & Hst). exists s'. split; [done|]. by eapply rtc_r.
  - eapply turns_step_ok; [exact Hok| |exact Hstep]. by eapply reachable_proper.
Qed.
Lemma reachable_turns fs s : reachable fs s → turns_ok fs s.
Proof using no_release_all.
  intros (s0 & Hs0 & Hsteps). apply (turns_steps_ok _ _ Hsteps); [|by apply start_turns]. by exists s0.
Qed.

(** ** The reset is alone *)

(** A call that is at a driver. *)
Definition at_driver (c : ReleaseCall) : bool :=
  match c with DriverDoes _ _ | ListSources _ | DestroySource _ _ => true | _ => false end.

(** C11. While a reset walks the devices, or deletes the sources behind them, admission is closed, no
    workflow is on, no reclaim is left in the background, and no call of these, or of another reset's
    walk, is at a driver. And if no ending that a reset started has failed, none of its own endings is
    open either: all that was started has run, and the reset's call is the only one of the release
    coordinator and the resets that is at a driver at all. (When one failed, the reset that waited for
    it gave up while its other endings went on, and a later reset can meet those.) Whatever order the
    commands came in, and however the drivers answered, as long as no [releaseAll] was among them. *)
Theorem reset_walks_alone fs s (i : nat) c next : reachable fs s →
  fs !! i = Some (Call c next) → of_walk c = true →
  (0 < rs_depth s)%Z ∧ rs_active s = [] ∧ rs_background s = []
  ∧ (∀ (j : nat) c' next', fs !! j = Some (Call c' next') → j ≠ i → of_workflow c' = false ∧ of_walk c' = false)
  ∧ ((∀ e, e ∈ rs_ended s → e.2 = Ok tt) →
     rs_started s = [] ∧ ∀ (j : nat) c' next', fs !! j = Some (Call c' next') → j ≠ i → at_driver c' = false).
Proof using no_release_all.
  intros Hre Hi Hwalk. destruct (walk_drains _ _ _ _ _ _ _ _ _ no_release_all _ _ _ _ _ Hre Hi Hwalk) as (Hd & Ha & Hb & Hst & Hwork).
  destruct (reachable_turns _ _ Hre) as (os & Hfs & Hk). destruct (taught_call _ _ _ _ _ _ _ _ _ Hfs Hi) as (o & Ho & Hmay).
  assert (∃ me, o = Front me) as [me ->] by (by destruct c as [[]| | | | | | | |]).
  assert (∀ (j : nat) c' next', fs !! j = Some (Call c' next') → j ≠ i → of_walk c' = false) as Hother.
  { intros j c' next' Hj Hne. destruct (of_walk c') eqn:Hw; [|done]. destruct (taught_call _ _ _ _ _ _ _ _ _ Hfs Hj) as (o' & Ho' & Hmay').
    assert (∃ me', o' = Front me') as [me' ->] by (by destruct c' as [[]| | | | | | | |]). destruct Hne. by apply (turn_alone os s i j me (Front me')). }
  split_and!; [done..| |].
  - intros j c' next' Hj Hne. split; [by eapply Hwork|by eapply Hother].
  - intros Hgood. assert (open_endings os s = []) as Hopen.
    { apply (front_closes os s i me); [done..|]. intros (k & e & He%Hgood). done. }
    unfold open_endings in Hopen. apply app_nil in Hopen as [Hflying Hbegin]. split.
    + apply elem_of_nil_inv. intros e He. destruct (Hst e He) as (k & reason & Hr). assert (e.1 ∈ to_begin s) as Hin.
      { apply list_elem_of_bind. exists e. split; [|done]. unfold begins. rewrite Hr. by left. }
      rewrite Hbegin in Hin. by apply elem_of_nil in Hin.
    + intros j c' next' Hj Hne. pose proof (Hwork _ _ _ Hj) as H1. pose proof (Hother _ _ _ Hj Hne) as H2.
      destruct c' as [[]| | | | | | | |]; try done. exfalso. destruct (taught_call _ _ _ _ _ _ _ _ _ Hfs Hj) as (o' & Ho' & n & ->).
      assert (n ∈ os ≫= ending_of) as Hin by (apply list_elem_of_bind; exists (Ending_ n); split; [by left|by eapply list_elem_of_lookup_2]).
      rewrite Hflying in Hin. by apply elem_of_nil in Hin.
Qed.
End turns.

(** A reset on a phone and a simulator that are leased and a simulator that is not: it ends both
    leases, whose reclaims run at their drivers, and walks on to a simulator's shutdown. *)
Definition to_busy_walk : list Turn :=
  [Give 3 (CmdNuke false); Section_of 0; Section_of 0; Answer_of 0] ++ replicate 5 (Section_of 0) ++ [Begin; Begin]
  ++ replicate 3 (Section_of 1) ++ replicate 3 (Section_of 2) ++ [Answer_of 1; Answer_of 2]
  ++ replicate 3 (Section_of 1) ++ replicate 2 (Section_of 2) ++ [Answer_of 2] ++ replicate 3 (Section_of 2)
  ++ [Answer_of 0] ++ replicate 4 (Section_of 0).
Definition walks_well (x : list (flow_of bool) * Releasing) : bool * nat :=
  (match call_at (Some x) 0 with Some c => of_walk c | None => false end
     && Arr.every (λ e, match e.2 with Ok _ => true | Err _ => false end) (rs_ended x.2), length (rs_ended x.2)).
Lemma reset_walks_alone_witness :
  ∃ fs s c next, sample_play but_release_all busy_shared to_busy_walk = Some (fs, s)
    ∧ fs !! 0 = Some (Call c next) ∧ of_walk c = true ∧ length (rs_ended s) = 2 ∧ rs_active s = [] ∧ rs_started s = [].
Proof.
  assert (walks_well <$> sample_play but_release_all busy_shared to_busy_walk = Some (true, 2)) as Hx by (by vm_compute).
  destruct (fmap_Some_1 _ _ _ Hx) as ([fs s] & Hp & [= Hw Hl]). symmetry in Hw, Hl. apply andb_true_iff in Hw as [Hw Hgood].
  unfold call_at in Hw. destruct (fs !! 0) as [[r|sec next|c next]|] eqn:Hi; try discriminate Hw.
  destruct (reset_walks_alone sample_options (λ _, true) sample_config (λ _, None) (λ _, strategy_erase) 1000 false [ios]
    but_release_all but_release_all_holds fs s 0 c next (sample_play_reach _ _ _ _ _ Hp) Hi Hw) as (_ & Ha & _ & _ & Halone).
  exists fs, s, c, next. split; [exact Hp|]. split; [exact Hi|]. split; [exact Hw|]. split; [exact Hl|]. split; [exact Ha|].
  apply Halone. intros [k [[]|e]] He; [reflexivity|]. by pose proof (proj1 (aevery_true _ _) Hgood _ He).
Defined.
