(* ===== verification/Health.v ===== *)
(** * Watching the leased devices: [src/leasing/lease-health-monitor.ts]

    The health monitor asks each platform's driver, tick after tick, how the leased virtual devices
    are. A device seen stopped several times in a row is rebooted under its lease, a few at a time and
    each more patiently than before; one that is gone, that lost its mark, or that failed too often
    is given up: the lease ends as lost. The monitor's tick and its recoveries run beside each other
    and beside the rest of the daemon.

    The release coordinator is the port the monitor is written against ([DeviceLostReleaser]): a call
    the environment answers. [start] is called once, so one timer is enough. Log lines are left out
    but for the one of a failed reboot, and [settle] only waits. *)
From stdpp Require Import base strings list option numbers gmap relations.
From S2P Require Import Prelude JsString OsRange Domain RequestStore Capacity Claims Registry RegistryInv WaitQueue Lifecycle AcquisitionState Resolve Flow Crew Devices DevicePool.

(** ** Data *)

Record HealthConfig := MkHealthConfig {
  hc_enabled : bool;
  hc_probeIntervalMs : Z;
  hc_stableObservations : Z;
  hc_maxRecoveryAttempts : Z;
  hc_recoveryBackoffMs : Z;
  hc_maxConcurrentRecoveries : Z }.

(** [ObservedMark], and an [ObservedDevice] of [listManaged] as far as the monitor reads it. *)
Record ObservedMark := MkMark { mk_durable : option string; mk_erasable : option string; mk_erasableReadable : bool }.
Record ManagedObservation := MkManaged {
  mo_deviceId : string; mo_runState : ObservedRunState; mo_mark : option ObservedMark }.
Inductive ProvenanceDrift := durable_mark_missing | erased | mark_mismatch.
Definition drift_text (d : ProvenanceDrift) : string :=
  match d with durable_mark_missing => "durable-mark-missing" | erased => "erased" | mark_mismatch => "mark-mismatch" end.
Definition provenanceDrift (mark : ObservedMark) : option ProvenanceDrift :=
  match mk_durable mark with
  | None => Some durable_mark_missing
  | Some durable =>
      if negb (mk_erasableReadable mark) then None
      else match mk_erasable mark with
           | None => Some erased
           | Some erasable => if erasable === durable then None else Some mark_mismatch
           end
  end.

Inductive GiveUpReason := attempts_exhausted | device_missing | provenance_drift.
Record CrashCounters := MkCounters { cc_missing : Z; cc_stopped : Z }.

(** What the monitor saw and did, in order: the registry as a tick read it and what a driver answered
    the tick, an observation it classified, a recovery it dispatched, an attempt it counted, with the
    registry as it was and the number it was given, a reboot that failed, its end, and the events it
    emitted. *)
Inductive HealthEntry :=
| TickRead (registry : Registry)
| Polled (platform : Platform) (reality : list ManagedObservation)
| Classified (device : VirtualDevice) (observed : option ManagedObservation)
| Dispatched (device : VirtualDevice) (lease : LeaseRecord)
| Counted (registry : Registry) (deviceId : string) (attempt : Z)
| RebootFailed (attempt : Z) (deviceId : string)
| Disposed
| EvCrashDetected (deviceId leaseId : string) (platform : Platform)
| EvRecovered (attempts : Z) (deviceId : string) (duration : Z) (leaseId : string) (platform : Platform)
| EvRecoveryFailed (attempts : Z) (deviceId error leaseId : string) (platform : Platform) (reason : GiveUpReason).

(** [hs_tick] is the tick's timer, by the moment it is due, and [hs_backoffs] the backoff waits by
    their timers; [hs_started] are the recoveries dispatched whose first section has not run. *)
Record Health := MkHealth {
  hs_shared : Shared;
  hs_counters : gmap string CrashCounters;
  hs_inFlight : list string;
  hs_started : list (VirtualDevice * LeaseRecord);
  hs_tick : option Z;
  hs_backoffs : gmap nat Z;
  hs_nextTimer : nat;
  hs_disposed : bool;
  hs_log : list HealthEntry }.
#[export] Instance Health_eta : Eta Health := λ s,
  MkHealth (hs_shared s) (hs_counters s) (hs_inFlight s) (hs_started s) (hs_tick s) (hs_backoffs s) (hs_nextTimer s)
    (hs_disposed s) (hs_log s).

Inductive HealthCall :=
| HealthDriver (c : DriverCall)
| ListManaged (platform : Platform)
| ReleaseDeviceLost (leaseId : string)
| AwaitBackoff (timer : nat).
Record HealthAnswer := MkHealthAnswer { ha_driver : DriverAnswer; ha_reality : list ManagedObservation }.

Module Monitor.
Section monitor.
Context (options : RegistryOptions) (hasDriver : Platform → bool) (config : HealthConfig).
Local Abbreviation flow_of R := (flow Health HealthCall HealthAnswer DeviceError R).
Local Abbreviation op A := (action Health DeviceError A).

Definition within {R} (f : flow Shared DriverCall DriverAnswer DeviceError R) : flow_of R :=
  embed hs_shared (λ h s, s <| hs_shared := h |>) HealthDriver ha_driver f.
Definition on_shared {A} (m : action Shared DeviceError A) : op A := λ s,
  let '(h, r) := m (hs_shared s) in (s <| hs_shared := h |>, r).
Definition note (e : HealthEntry) : op unit := modify (λ s, s <| hs_log := hs_log s ++ [e] |>).

(** ** Counters *)

Definition counters_of (s : Health) (deviceId : string) : CrashCounters :=
  default (MkCounters 0 0) (hs_counters s !! deviceId).
Definition set_counters (deviceId : string) (c : CrashCounters) : op unit :=
  modify (λ s, s <| hs_counters := <[deviceId := c]> (hs_counters s) |>).
Definition drop_counters (deviceId : string) : op unit :=
  modify (λ s, s <| hs_counters := delete deviceId (hs_counters s) |>).
Definition dropStaleCounters (leased : list VirtualDevice) : op unit :=
  modify (λ s, s <| hs_counters := filter (λ e, e.1 ∈ v_id <$> leased) (hs_counters s) |>).

(** ** Giving up *)

Definition giveUp (device : VirtualDevice) (lease : LeaseRecord) (reason : GiveUpReason) (attempts : Z)
    (error : option string) : flow_of unit :=
  _ ← gate (note (EvRecoveryFailed attempts (v_id device) (default "" error) (l_id lease) (vs_platform (v_spec device)) reason));
  _ ← try_catch (_ ← call (ReleaseDeviceLost (l_id lease)); mret tt) (λ _, mret tt);
  gate (drop_counters (v_id device)).

(** ** Classifying what was observed *)

Definition attempts_of (device : VirtualDevice) : Z := default 0%Z (recoveryAttempts (v_fields device)).
Definition classifyMissing (device : VirtualDevice) (lease : LeaseRecord) : flow_of bool :=
  missing ← gate (
    s ← get;
    let missing := (cc_missing (counters_of s (v_id device)) + 1)%Z in
    _ ← note (Classified device None);
    _ ← set_counters (v_id device) (MkCounters missing 0);
    mret missing);
  _ ← (if (hc_stableObservations config <=? missing)%Z
       then giveUp device lease device_missing (attempts_of device) None else mret tt);
  mret false.
Definition classifyRunning (device : VirtualDevice) (lease : LeaseRecord) (observed : ManagedObservation) : flow_of bool :=
  _ ← gate (_ ← note (Classified device (Some observed)); set_counters (v_id device) (MkCounters 0 0));
  _ ← (if (recoveringSince (v_fields device) !== None) || (recoveryAttempts (v_fields device) !== None)
       then _ ← gate (on_shared (ManagedDevice.on_registry (λ now, clearRecovery options now (v_id device)))); mret tt
       else mret tt);
  _ ← match mo_mark observed ≫= provenanceDrift with
      | None => mret tt
      | Some drift => giveUp device lease provenance_drift (attempts_of device) (Some (drift_text drift))
      end;
  mret false.
Definition classifyStopped (device : VirtualDevice) (observed : ManagedObservation) : flow_of bool :=
  gate (
    s ← get;
    let stopped := (cc_stopped (counters_of s (v_id device)) + 1)%Z in
    _ ← note (Classified device (Some observed));
    _ ← set_counters (v_id device) (MkCounters 0 stopped);
    mret (hc_stableObservations config <=? stopped)%Z).
(** Inconclusive: the counters stay as they are. *)
Definition classifyTransitioning (device : VirtualDevice) (observed : ManagedObservation) : flow_of bool :=
  gate (
    s ← get;
    _ ← note (Classified device (Some observed));
    _ ← set_counters (v_id device) (counters_of s (v_id device));
    mret false).
Definition classify (device : VirtualDevice) (lease : LeaseRecord) (observed : option ManagedObservation) : flow_of bool :=
  match observed with
  | None => classifyMissing device lease
  | Some o =>
      match mo_runState o with
      | run_running => classifyRunning device lease o
      | run_transitioning => classifyTransitioning device o
      | run_stopped => classifyStopped device o
      end
  end.

Definition dispatchRecovery (device : VirtualDevice) (lease : LeaseRecord) : op unit :=
  s ← get;
  if hs_disposed s || (hc_maxConcurrentRecoveries config <=? Z.of_nat (length (hs_inFlight s)))%Z then mret tt
  else
    _ ← note (Dispatched device lease);
    modify (λ s, s <| hs_inFlight := if Arr.includes (v_id device) (hs_inFlight s) then hs_inFlight s
                                     else hs_inFlight s ++ [v_id device] |>
                   <| hs_started := hs_started s ++ [(device, lease)] |>).

(** ** One tick *)

Fixpoint pollDrivers (platforms : list Platform) : flow_of (list (Platform * list ManagedObservation)) :=
  match platforms with
  | [] => mret []
  | p :: ps =>
      here ← try_catch
        (if hasDriver p then a ← call (ListManaged p); _ ← gate (note (Polled p (ha_reality a))); mret [(p, ha_reality a)]
         else fail (NoDriverError p))
        (λ _, mret []);
      rest ← pollDrivers ps;
      mret (here ++ rest)
  end.
(** [new Set(...)], in the order of the devices. *)
Definition platforms_of (leased : list VirtualDevice) : list Platform :=
  foldl (λ ps d, if Arr.includes (vs_platform (v_spec d)) ps then ps else ps ++ [vs_platform (v_spec d)]) [] leased.
Definition observed_at (observed : list (Platform * list ManagedObservation)) (p : Platform) : option (list ManagedObservation) :=
  snd <$> Arr.find (λ e, e.1 === p) observed.

(** Whether a device is looked at: not while it is recovered; with its lease, which a release may
    have taken. *)
Definition look_at (ls : list LeaseRecord) (device : VirtualDevice) : op (option LeaseRecord) :=
  s ← get;
  if Arr.includes (v_id device) (hs_inFlight s) then mret None
  else
    match Arr.find (on_device (v_id device)) ls with
    | None => _ ← drop_counters (v_id device); mret None
    | Some lease => mret (Some lease)
    end.
Definition visit (observed : list (Platform * list ManagedObservation)) (ls : list LeaseRecord) (device : VirtualDevice)
    : flow_of unit :=
  lease ← gate (look_at ls device);
  match lease, observed_at observed (vs_platform (v_spec device)) with
  | Some lease, Some there =>
      try_catch
        (shouldRecover ← classify device lease (Arr.find (λ o, mo_deviceId o === driverDeviceId (v_fields device)) there);
         if shouldRecover : bool then gate (dispatchRecovery device lease) else mret tt)
        (λ _, mret tt)
  | _, _ => mret tt
  end.
Fixpoint visit_each (observed : list (Platform * list ManagedObservation)) (ls : list LeaseRecord) (leased : list VirtualDevice)
    : flow_of unit :=
  match leased with
  | [] => mret tt
  | device :: rest => _ ← visit observed ls device; visit_each observed ls rest
  end.
Definition runTick : flow_of unit :=
  snapshot ← gate (
    s ← get;
    let leased_ := Arr.filter (λ d, v_state d === leased) (virtualDevices (sh_registry (hs_shared s))) in
    _ ← note (TickRead (sh_registry (hs_shared s)));
    _ ← dropStaleCounters leased_;
    mret (leased_, leases (sh_registry (hs_shared s))));
  observed ← pollDrivers (platforms_of snapshot.1);
  visit_each observed snapshot.2 snapshot.1.

(** ** One recovery *)

(** A wait the monitor's end cuts short. *)
Definition wait (ms : Z) : flow_of unit :=
  timer ← gate (
    s ← get;
    _ ← modify (λ s, s <| hs_backoffs := <[hs_nextTimer s := (sh_now (hs_shared s) + ms)%Z]> (hs_backoffs s) |>
                       <| hs_nextTimer := S (hs_nextTimer s) |>);
    mret (hs_nextTimer s));
  Call (AwaitBackoff timer) (λ _, Done (Ok tt)).
Definition now_ : flow_of Z := gate (λ s, (s, Ok (sh_now (hs_shared s)))).
Definition attemptReboot (device : VirtualDevice) (lease : LeaseRecord) (attempt : Z) : flow_of unit :=
  startedAt ← now_;
  after (within (ManagedDevice.recoverLeased hasDriver device (l_id lease))) (λ recovered,
    match recovered with
    | Err error =>
        _ ← gate (note (RebootFailed attempt (v_id device)));
        if (hc_maxRecoveryAttempts config <=? attempt)%Z
        then giveUp device lease attempts_exhausted attempt (Some (device_error_message error)) else mret tt
    | Ok None => gate (drop_counters (v_id device))
    | Ok (Some _) =>
        _ ← gate (on_shared (ManagedDevice.on_registry (λ now, clearRecovery options now (v_id device))));
        gate (
          _ ← drop_counters (v_id device);
          s ← get;
          note (EvRecovered attempt (v_id device) (sh_now (hs_shared s) - startedAt) (l_id lease) (vs_platform (v_spec device))))
    end).
Definition recover (device : VirtualDevice) (lease : LeaseRecord) : flow_of unit :=
  let attemptsSoFar := attempts_of device in
  if (hc_maxRecoveryAttempts config <=? attemptsSoFar)%Z
  then giveUp device lease attempts_exhausted attemptsSoFar None
  else
    recorded ← gate (
      s ← get;
      recorded ← on_shared (ManagedDevice.on_registry (λ now, markRecoveryAttempt options now (v_id device) now));
      _ ← note (Counted (sh_registry (hs_shared s)) (v_id device) (default 0%Z (recoveryAttempts (dev_fields recorded))));
      mret recorded);
    let attempt := default (attemptsSoFar + 1)%Z (recoveryAttempts (dev_fields recorded)) in
    if (attempt =? 1)%Z then
      _ ← gate (note (EvCrashDetected (v_id device) (l_id lease) (vs_platform (v_spec device))));
      attemptReboot device lease attempt
    else
      _ ← wait (hc_recoveryBackoffMs config * 2 ^ (attempt - 2));
      over ← gate (s ← get; mret (hs_disposed s));
      if over : bool then mret tt else attemptReboot device lease attempt.
(** The recovery as it was dispatched, with what is done when it ends. *)
Definition recovery (device : VirtualDevice) (lease : LeaseRecord) : flow_of unit :=
  after (recover device lease) (λ _,
    gate (modify (λ s, s <| hs_inFlight := Arr.filter (λ i, i !== v_id device) (hs_inFlight s) |>))).

(** ** The timers *)

Definition armTick : op unit :=
  s ← get;
  if hs_disposed s then mret tt
  else modify (λ s, s <| hs_tick := Some (sh_now (hs_shared s) + hc_probeIntervalMs config)%Z |>).
Definition start : op unit :=
  s ← get; if hs_disposed s || negb (hc_enabled config) then mret tt else armTick.
Definition dispose : op unit :=
  s ← get;
  if hs_disposed s then mret tt
  else _ ← note Disposed; modify (λ s, s <| hs_disposed := true |> <| hs_tick := None |> <| hs_backoffs := ∅ |>).
(** The tick's timer fires, and arms the next when the tick has ended or failed. *)
Definition tick : flow_of unit := after runTick (λ _, gate armTick).
Definition tick_fired (s : Health) : Health := s <| hs_tick := None |>.
Definition backoff_fired (timer : nat) (s : Health) : Health := s <| hs_backoffs := delete timer (hs_backoffs s) |>.
End monitor.
End Monitor.
