(* ===== verification/HealthInv.v ===== *)
(** * The health monitor gives up for cause only, and recovers within its limits

    The flows of [Health] as a crew: one tick at a time, any number of recoveries, and the rest of the
    daemon beside them. What the monitor did, in its log, is justified by what it read in the registry
    and by what the drivers answered before. *)
From stdpp Require Import base strings list option numbers gmap relations.
From S2P Require Import Prelude JsString OsRange Domain RequestStore Capacity Claims Registry RegistryInv WaitQueue Lifecycle AcquisitionState Resolve Flow Crew Devices DevicePool Health.

(** ** What was seen, in a row *)

(** How often a device was missing, or stopped, when it was looked at last, without being seen any
    other way in between; a device seen on its way between two states does not count. *)
Definition miss_step (d : string) (n : Z) (e : HealthEntry) : Z :=
  match e with
  | Classified x o =>
      if v_id x === d then match o with
                           | None => n + 1
                           | Some o => match mo_runState o with run_transitioning => n | _ => 0 end
                           end
      else n
  | _ => n
  end.
Definition missed_in_row (d : string) (l : list HealthEntry) : Z := foldl (miss_step d) 0%Z l.
Definition stop_step (d : string) (n : Z) (e : HealthEntry) : Z :=
  match e with
  | Classified x o =>
      if v_id x === d then match o with
                           | None => 0
                           | Some o => match mo_runState o with run_transitioning => n | run_stopped => n + 1 | run_running => 0 end
                           end
      else n
  | _ => n
  end.
Definition stopped_in_row (d : string) (l : list HealthEntry) : Z := foldl (stop_step d) 0%Z l.
(** The last time a device was looked at. *)
Definition seen_step (d : string) (x : option (option ManagedObservation)) (e : HealthEntry) : option (option ManagedObservation) :=
  match e with Classified y o => if v_id y === d then Some o else x | _ => x end.
Definition last_seen (d : string) (l : list HealthEntry) : option (option ManagedObservation) := foldl (seen_step d) None l.
Definition seen_running_drifted (d : string) (l : list HealthEntry) : bool :=
  match last_seen d l with
  | Some (Some o) => (mo_runState o === run_running) && match mo_mark o ≫= provenanceDrift with Some _ => true | None => false end
  | _ => false
  end.

(** What the last tick read in the registry, and the drivers' answers it got. *)
Definition View : Type := option Registry * list (Platform * list ManagedObservation).
Definition view_step (v : View) (e : HealthEntry) : View :=
  match e with
  | TickRead r => (Some r, [])
  | Polled p reality => (v.1, v.2 ++ [(p, reality)])
  | _ => v
  end.
Definition view_of (l : list HealthEntry) : View := foldl view_step (None, []) l.

(** A leased device of the registry the tick read; a lease of that registry on the device; and what a
    driver's answer says of the device. *)
Definition device_read (v : View) (x : VirtualDevice) : Prop := ∃ r, v.1 = Some r ∧ x ∈ virtualDevices r ∧ v_state x = leased.
Definition lease_read (v : View) (d leaseId : string) : Prop :=
  ∃ r lease, v.1 = Some r ∧ lease ∈ leases r ∧ l_id lease = leaseId ∧ l_deviceId lease = d.
Definition reading (v : View) (x : VirtualDevice) (o : option ManagedObservation) : Prop :=
  ∃ reality, (vs_platform (v_spec x), reality) ∈ v.2
    ∧ match o with
      | Some o => o ∈ reality ∧ mo_deviceId o = driverDeviceId (v_fields x)
      | None => ∀ o, o ∈ reality → mo_deviceId o ≠ driverDeviceId (v_fields x)
      end.
(** The recovery an entry belongs to. *)
Definition dispatched (l : list HealthEntry) (d leaseId : string) (x : VirtualDevice) : Prop :=
  ∃ lease, Dispatched x lease ∈ l ∧ v_id x = d ∧ l_id lease = leaseId.
Definition counted (l : list HealthEntry) (d : string) (attempt : Z) : Prop := ∃ r, Counted r d attempt ∈ l.

(** What justifies an entry, in what came before it. *)
Definition justified (config : HealthConfig) (l : list HealthEntry) (e : HealthEntry) : Prop :=
  match e with
  | Classified x o => device_read (view_of l) x ∧ reading (view_of l) x o
  | Dispatched x lease =>
      device_read (view_of l) x ∧ lease_read (view_of l) (v_id x) (l_id lease)
      ∧ (hc_stableObservations config ≤ stopped_in_row (v_id x) l)%Z ∧ Disposed ∉ l
  | Counted r d attempt => ∃ x, x ∈ devices r ∧ dev_id x = d ∧ attempt = (default 0 (recoveryAttempts (dev_fields x)) + 1)%Z
  | RebootFailed attempt d => counted l d attempt
  | EvRecoveryFailed _ d _ leaseId _ device_missing =>
      lease_read (view_of l) d leaseId ∧ (hc_stableObservations config ≤ missed_in_row d l)%Z
  | EvRecoveryFailed _ d _ leaseId _ provenance_drift =>
      lease_read (view_of l) d leaseId ∧ seen_running_drifted d l = true
  | EvRecoveryFailed attempts d _ leaseId _ attempts_exhausted =>
      (hc_maxRecoveryAttempts config ≤ attempts)%Z
      ∧ ∃ x, dispatched l d leaseId x ∧ (attempts = Monitor.attempts_of x ∨ RebootFailed attempts d ∈ l)
  | EvCrashDetected d leaseId _ => (∃ x, dispatched l d leaseId x) ∧ counted l d 1
  | EvRecovered attempts d _ leaseId _ => (∃ x, dispatched l d leaseId x) ∧ counted l d attempts
  | _ => True
  end.
Definition all_justified (config : HealthConfig) : list HealthEntry → Prop := each_justified (justified config).

(** An entry that is no observation leaves the rows and the view as they are. *)
Definition is_observation (e : HealthEntry) : bool :=
  match e with TickRead _ | Polled _ _ | Classified _ _ => true | _ => false end.
Lemma rows_unchanged d l new : (∀ e, e ∈ new → is_observation e = false) →
  missed_in_row d (l ++ new) = missed_in_row d l ∧ stopped_in_row d (l ++ new) = stopped_in_row d l
  ∧ last_seen d (l ++ new) = last_seen d l.
Proof.
  unfold missed_in_row, stopped_in_row, last_seen. rewrite !foldl_app. intros Hnew.
  generalize (foldl (miss_step d) 0%Z l) as x, (foldl (stop_step d) 0%Z l) as y, (foldl (seen_step d) None l) as z.
  induction new as [|e new IH]; intros x y z; [done|]. cbn.
  pose proof (Hnew e ltac:(by left)) as He. destruct e; try done; cbn; apply IH; intros; apply Hnew; by right.
Qed.
Lemma view_unchanged l new : (∀ e, e ∈ new → is_observation e = false) → view_of (l ++ new) = view_of l.
Proof.
  unfold view_of. rewrite foldl_app. intros Hnew. generalize (foldl view_step (None, []) l) as v.
  induction new as [|e new IH]; intros v; [done|]. cbn.
  pose proof (Hnew e ltac:(by left)) as He. destruct e; try done; cbn; apply IH; intros; apply Hnew; by right.
Qed.
Lemma missed_snoc d l e : missed_in_row d (l ++ [e]) = miss_step d (missed_in_row d l) e.
Proof. unfold missed_in_row. by rewrite foldl_app. Qed.
Lemma stopped_snoc d l e : stopped_in_row d (l ++ [e]) = stop_step d (stopped_in_row d l) e.
Proof. unfold stopped_in_row. by rewrite foldl_app. Qed.
Lemma view_snoc l e : view_of (l ++ [e]) = view_step (view_of l) e.
Proof. unfold view_of. by rewrite foldl_app. Qed.
Lemma rows_nonneg d l : (0 ≤ missed_in_row d l)%Z ∧ (0 ≤ stopped_in_row d l)%Z.
Proof.
  induction l as [|e l [IH1 IH2]] using rev_ind; [done|]. rewrite missed_snoc, stopped_snoc.
  destruct e as [| |d' [o|]| | | | | | |]; cbn; try done; case_bool_decide; try destruct (mo_runState o); lia.
Qed.

(** The count an attempt is given is one more than the record's. *)
Lemma markRecoveryAttempt_counts options now d at_ r r' x : markRecoveryAttempt options now d at_ r = (r', Ok x) →
  ∃ y, y ∈ devices r ∧ dev_id y = d ∧ recoveryAttempts (dev_fields x) = Some (default 0 (recoveryAttempts (dev_fields y)) + 1)%Z.
Proof.
  unfold markRecoveryAttempt, requireDeviceRecord, mbind, action_bind, get. cbv beta iota.
  destruct (Arr.findIndex _ _) as [i|] eqn:Ei; [|done]. destruct (devices r !! i) as [y|] eqn:Ey; [|done].
  cbn -[replace_device set_fields]. destruct (replace_device _ _ _ _ _) as [r1 [[]|e]]; [|done]. intros [= _ <-].
  exists y. split; [by eapply list_elem_of_lookup_2|]. split; [|by destruct y].
  apply afindIndex_Some in Ei as (y' & Hy' & Hid & _). rewrite Ey in Hy'. injection Hy' as <-. by apply bool_decide_eq_true in Hid.
Qed.

Section inv.
Context (options : RegistryOptions) (hasDriver : Platform → bool) (config : HealthConfig).
Local Abbreviation flow_of R := (flow Health HealthCall HealthAnswer DeviceError R).
Implicit Types (s : Health) (device : VirtualDevice) (lease : LeaseRecord) (v : View).

(** ** The monitor's books are sound *)

Definition counter_sound (l : list HealthEntry) (d : string) (c : CrashCounters) : Prop :=
  (cc_missing c ≤ missed_in_row d l)%Z ∧ (cc_stopped c ≤ stopped_in_row d l)%Z.
Record sound s : Prop := {
  so_log : all_justified config (hs_log s);
  so_counters d c : hs_counters s !! d = Some c → counter_sound (hs_log s) d c;
  so_room : (Z.of_nat (length (hs_inFlight s)) ≤ hc_maxConcurrentRecoveries config)%Z;
  so_distinct : NoDup (hs_inFlight s);
  so_disposed : Disposed ∈ hs_log s → hs_disposed s = true }.

(** What a flow of the monitor is for, with what it goes by, and what it knows. *)
Inductive Role := no_role | ticking (v : View) | recovering (device : VirtualDevice) (lease : LeaseRecord).
Inductive Known :=
| nothing_known | not_recovered (deviceId : string) | found_missing (deviceId : string) | found_drifted (deviceId : string)
| found_stopped (deviceId : string) | has_counted (attempt : Z) | has_failed (attempt : Z) | reported (leaseId : string).
Record Part := MkPart { pt_role : Role; pt_known : Known }.
Definition ticks_now (r : Role) : bool := match r with ticking _ => true | _ => false end.
Definition role_fact (r : Role) s : Prop :=
  match r with
  | no_role => True
  | ticking v => view_of (hs_log s) = v
  | recovering device lease => Dispatched device lease ∈ hs_log s
  end.
Definition known_fact (r : Role) (k : Known) s : Prop :=
  match k with
  | nothing_known => True
  | not_recovered d => ticks_now r = true ∧ d ∉ hs_inFlight s
  | found_missing d => ticks_now r = true ∧ (hc_stableObservations config ≤ missed_in_row d (hs_log s))%Z
  | found_drifted d => ticks_now r = true ∧ seen_running_drifted d (hs_log s) = true
  | found_stopped d => ticks_now r = true ∧ (d ∉ hs_inFlight s) ∧ (hc_stableObservations config ≤ stopped_in_row d (hs_log s))%Z
  | has_counted attempt => match r with recovering device _ => counted (hs_log s) (v_id device) attempt | _ => False end
  | has_failed attempt => match r with recovering device _ => RebootFailed attempt (v_id device) ∈ hs_log s | _ => False end
  | reported leaseId => ∃ attempts d error platform reason, EvRecoveryFailed attempts d error leaseId platform reason ∈ hs_log s
  end.
Definition fact (o : Part) s : Prop := role_fact (pt_role o) s ∧ known_fact (pt_role o) (pt_known o) s.

(** What others may count on when a flow in a role runs a section. *)
Definition logs (r : Role) s s' : Prop :=
  ∃ new, hs_log s' = hs_log s ++ new ∧ (ticks_now r = false → ∀ e, e ∈ new → is_observation e = false).
Definition rest_of s : list string * list (VirtualDevice * LeaseRecord) := (hs_inFlight s, hs_started s).
Definition role_recovers (r : Role) : list string := match r with recovering device _ => [v_id device] | _ => [] end.
Definition role_ticks (r : Role) : list unit := match r with ticking _ => [tt] | _ => [] end.
Inductive shift : Role → Health → Role → Health → Prop :=
| sh_stay r r' s s' : role_recovers r' = role_recovers r → role_ticks r' = role_ticks r →
    rest_of s' = rest_of s → hs_tick s' = hs_tick s → shift r s r' s'
| sh_dispatch v device lease s s' : v_id device ∉ hs_inFlight s → hs_tick s' = hs_tick s → Dispatched device lease ∈ hs_log s' →
    rest_of s' = (hs_inFlight s ++ [v_id device], hs_started s ++ [(device, lease)]) → shift (ticking v) s (ticking v) s'
| sh_recovered device lease s s' : rest_of s' = (Arr.filter (λ i, i !== v_id device) (hs_inFlight s), hs_started s) → hs_tick s' = hs_tick s →
    shift (recovering device lease) s no_role s'
| sh_ticked v s s' : rest_of s' = rest_of s → shift (ticking v) s no_role s'.
Definition moves (o : Part) s (o' : Part) s' : Prop :=
  sound s → fact o s → sound s' ∧ fact o' s' ∧ logs (pt_role o) s s' ∧ shift (pt_role o) s (pt_role o') s'.

Definition may_ask (c : HealthCall) (o : Part) : Prop :=
  match c with
  | HealthDriver c => match pt_role o with recovering device _ => call_device c = Some (v_id device) | _ => False end
  | ReleaseDeviceLost leaseId => pt_known o = reported leaseId
  | ListManaged _ => ticks_now (pt_role o) = true
  | AwaitBackoff _ => True
  end.

Definition quiet s s' : Prop :=
  hs_log s' = hs_log s ∧ hs_counters s' = hs_counters s ∧ rest_of s' = rest_of s ∧ hs_tick s' = hs_tick s
  ∧ hs_disposed s' = hs_disposed s.
#[local] Instance quiet_health_preorder : PreOrder quiet.
Proof.
  split; [intros s; by split_and!|]. intros s1 s2 s3 (H1 & H2 & H3 & H4 & H5) (K1 & K2 & K3 & K4 & K5). split_and!; congruence.
Qed.
Lemma sound_quiet s s' : quiet s s' → sound s → sound s'.
Proof.
  intros (El & Ec & Er & _ & Ed) [H1 H2 H3 H4 H5]. injection Er as Ei _.
  split; rewrite ?El, ?Ec, ?Ei, ?Ed; done.
Qed.
Lemma fact_quiet o s s' : quiet s s' → fact o s → fact o s'.
Proof.
  intros (El & _ & Er & _) [Hr Hk]. injection Er as Ei _.
  split; [by unfold role_fact in *; rewrite El|by unfold known_fact in *; rewrite El, Ei].
Qed.
#[local] Instance quiet_health_moves : QuietMoves moves quiet.
Proof.
  intros o s s' Hq Hs Hf. split; [by eapply sound_quiet|]. split; [by eapply fact_quiet|]. destruct Hq as (El & _ & Er & Et & _).
  split; [|by apply sh_stay]. exists []. rewrite El, app_nil_r. split; [done|]. intros _ e ?%elem_of_nil. done.
Qed.

(** ** The crew adds up *)

Definition recovering_of (o : Part) : list string := role_recovers (pt_role o).
Definition ticking_of (o : Part) : list unit := role_ticks (pt_role o).
Definition armed s : nat := match hs_tick s with Some _ => 1 | None => 0 end.
Definition started_ids s : list string := (λ e, v_id e.1) <$> hs_started s.
Record together (os : list Part) s : Prop := {
  tg_sound : sound s;
  tg_facts o : o ∈ os → fact o s;
  tg_inFlight : hs_inFlight s ≡ₚ (os ≫= recovering_of) ++ started_ids s;
  tg_started device lease : (device, lease) ∈ hs_started s → Dispatched device lease ∈ hs_log s;
  tg_tick : length (os ≫= ticking_of) + armed s ≤ 1 }.

Lemma together_perm os os' s : os ≡ₚ os' → together os s → together os' s.
Proof. intros Hp [H1 H2 H3 H4 H5]. split; [done|..]; rewrite <- ?Hp; try done. intros o. rewrite <- Hp. apply H2. Qed.
Lemma fact_log o s s' new : fact o s → hs_log s' = hs_log s ++ new →
  (ticks_now (pt_role o) = true → ∀ e, e ∈ new → is_observation e = false) →
  (ticks_now (pt_role o) = true → ∀ d, d ∉ hs_inFlight s → d ∉ hs_inFlight s') → fact o s'.
Proof.
  intros [Hr Hk] Hl Hno Hin. destruct o as [r k]. cbn [pt_role pt_known] in *.
  assert (∀ e, e ∈ hs_log s → e ∈ hs_log s') as Hold by (intros e He; rewrite Hl; apply elem_of_app; by left). split.
  - destruct r as [|v|device lease]; cbn in *; [done| |by apply Hold]. by rewrite Hl, view_unchanged by auto.
  - cbn [pt_role pt_known]. unfold known_fact in *. destruct k as [|d|d|d|d|a|a|k]; try done.
    + destruct Hk. auto.
    + destruct Hk as [Ho Hm]. destruct (rows_unchanged d (hs_log s) new (Hno Ho)) as (E & _). by rewrite Hl, E.
    + destruct Hk as [Ho Hm]. destruct (rows_unchanged d (hs_log s) new (Hno Ho)) as (_ & _ & E).
      unfold seen_running_drifted in *. by rewrite Hl, E.
    + destruct Hk as (Ho & Hd & Hm). destruct (rows_unchanged d (hs_log s) new (Hno Ho)) as (_ & E & _). rewrite Hl, E. auto.
    + destruct r; try done. destruct Hk as [rg Hk]. exists rg. by apply Hold.
    + destruct r; try done. by apply Hold.
    + destruct Hk as (a & d & e & p & r0 & Hin0). exists a, d, e, p, r0. by apply Hold.
Qed.
Lemma fact_kept o r s r' s' : fact o s → logs r s s' → shift r s r' s' →
  (ticks_now r = true → ticks_now (pt_role o) = false) → fact o s'.
Proof.
  intros Hf (new & Hl & Hnew) Hsh Hrole. eapply fact_log; [done|exact Hl|..].
  - intros Ho. apply Hnew. destruct (ticks_now r); [|done]. by rewrite Hrole in Ho.
  - intros Ho d Hd. destruct Hsh as [r r' s s' _ _ Er Et|v device lease s s' Hn Et _ Er|device lease s s' Er Et|v s s' Er];
      injection Er as -> _; try done.
    + by rewrite Hrole in Ho.
    + intros [? _]%elem_of_afilter. done.
Qed.
Lemma removed_perm (d : string) l r : NoDup l → l ≡ₚ d :: r → Arr.filter (λ i, i !== d) l ≡ₚ r.
Proof.
  intros Hn Hp. rewrite Hp in Hn. apply NoDup_cons in Hn as [Hd _]. rewrite Hp. unfold Arr.filter. cbn [List.filter].
  rewrite bool_decide_eq_true_2 by done. cbn [negb]. change (List.filter ?f ?l) with (Arr.filter f l).
  rewrite afilter_all; [done|]. intros x Hx. rewrite bool_decide_eq_false_2; [done|]. by intros ->.
Qed.
Lemma logs_incl r s s' e : logs r s s' → e ∈ hs_log s → e ∈ hs_log s'.
Proof. intros (new & -> & _) He. apply elem_of_app. by left. Qed.
Lemma one_ticks o os : ticks_now (pt_role o) = true → o ∈ os → 0 < length (os ≫= ticking_of).
Proof.
  intros Hr Ho. apply list_elem_of_split in Ho as (l1 & l2 & ->). rewrite bind_app, length_app, bind_cons.
  unfold ticking_of at 2. destruct (pt_role o); try done. cbn. lia.
Qed.
Lemma together_moves o os s o' s' : together (o :: os) s → moves o s o' s' → together (o' :: os) s'.
Proof.
  intros [Hs Hf Hi Hst Ht] Hm. destruct (Hm Hs (Hf o ltac:(by left))) as (Hs' & Hf' & Hl & Hsh). cbn in Hi, Ht.
  split; [done|..].
  - intros o2 [->|Ho2]%elem_of_cons; [done|]. eapply fact_kept; [apply Hf; by right|done..|]. intros Hr.
    destruct (ticks_now (pt_role o2)) eqn:Hr2; [exfalso|done]. pose proof (one_ticks o2 os Hr2 Ho2).
    unfold ticking_of at 1 in Ht. destruct (pt_role o); try done. cbn in Ht. lia.
  - clear Hf Hm Ht Hf' Hst Hl. revert Hi. unfold recovering_of at 1. cbn. unfold recovering_of at 2, started_ids.
    pose proof (so_distinct _ Hs) as Hd.
    destruct Hsh as [r r' s s' Ea _ Er Et|v device lease s s' Hn Et _ Er|device lease s s' Er Et|v s s' Er]; injection Er as -> ->; cbn; intros Hi.
    + by rewrite Ea.
    + rewrite Hi, fmap_app. cbn. by rewrite (assoc_L (++)).
    + by apply removed_perm.
    + done.
  - intros device lease. destruct Hsh as [r r' s s' Ea _ Er Et|v x y s s' Hn Et Hd Er|x y s s' Er Et|v s s' Er]; injection Er as _ ->.
    1,3,4: intros Hin; eapply logs_incl; [done|by apply Hst].
    intros [Hin|[= -> ->]%list_elem_of_singleton]%elem_of_app; [|done]. eapply logs_incl; [done|by apply Hst].
  - clear Hf Hm Hi Hf' Hst Hl. revert Ht. unfold ticking_of at 1. cbn. unfold ticking_of at 2, armed.
    destruct Hsh as [r r' s s' _ Ea Er Et|v device lease s s' Hn Et _ Er|device lease s s' Er Et|v s s' Er]; rewrite ?Et, ?Ea; cbn; try done.
    destruct (hs_tick s), (hs_tick s'); lia.
Qed.

(** ** The sections *)

Lemma sound_noted s e : is_observation e = false → e ≠ Disposed → sound s → justified config (hs_log s) e →
  sound (s <| hs_log := hs_log s ++ [e] |>).
Proof.
  intros He Hd [H1 H2 H3 H4 H5] Hj. split; cbn; try done.
  - by apply each_justified_snoc.
  - intros d c Hc%H2. destruct (rows_unchanged d (hs_log s) [e]) as (E1 & E2 & _); [set_solver|].
    unfold counter_sound. by rewrite E1, E2.
  - intros [Hin|Hin]%elem_of_app; [auto|]. set_solver.
Qed.
(** What a tick reads is no look at a device yet. *)
Definition is_look (e : HealthEntry) : bool := match e with Classified _ _ => true | _ => false end.
Lemma sound_read s e : is_look e = false → is_observation e = true → sound s → sound (s <| hs_log := hs_log s ++ [e] |>).
Proof.
  intros He Ho [H1 H2 H3 H4 H5]. split; cbn; try done.
  - apply each_justified_snoc; [done|]. by destruct e.
  - intros d c Hc%H2. unfold counter_sound. rewrite missed_snoc, stopped_snoc. by destruct e.
  - intros [Hin|Hin]%elem_of_app; [auto|]. apply list_elem_of_singleton in Hin as <-. done.
Qed.
Lemma sound_observed s device o c : sound s → justified config (hs_log s) (Classified device o) →
  counter_sound (hs_log s ++ [Classified device o]) (v_id device) c →
  sound (s <| hs_log := hs_log s ++ [Classified device o] |> <| hs_counters := <[v_id device := c]> (hs_counters s) |>).
Proof.
  intros [H1 H2 H3 H4 H5] Hj Hc. split; cbn; try done.
  - by apply each_justified_snoc.
  - intros d' c'. rewrite lookup_insert_Some. intros [[<- <-]|[Hne Hc']]; [done|]. apply H2 in Hc'.
    unfold counter_sound. rewrite missed_snoc, stopped_snoc. cbn. by rewrite bool_decide_eq_false_2.
  - intros [Hin|Hin]%elem_of_app; [auto|]. set_solver.
Qed.
Lemma sound_dropped s cs : sound s → cs ⊆ hs_counters s → sound (s <| hs_counters := cs |>).
Proof. intros [H1 H2 H3 H4 H5] Hc. split; cbn; try done. intros d c Hd. apply H2. by eapply lookup_weaken. Qed.
Lemma logs_one r s e : (ticks_now r = false → is_observation e = false) → logs r s (s <| hs_log := hs_log s ++ [e] |>).
Proof. intros He. exists [e]. split; [done|]. intros Hr e' ->%list_elem_of_singleton. auto. Qed.
Lemma logs_none r s s' : hs_log s' = hs_log s → logs r s s'.
Proof. intros E. exists []. rewrite E, app_nil_r. split; [done|]. intros _ e He. by apply elem_of_nil in He. Qed.

(** An event, what is known from it, and forgetting counters. *)
Lemma role_fact_noted r s e : is_observation e = false → role_fact r s → role_fact r (s <| hs_log := hs_log s ++ [e] |>).
Proof.
  intros He. destruct r as [|v|device lease]; cbn; [done| |].
  - rewrite view_unchanged; [done|]. by intros e' ->%list_elem_of_singleton.
  - intros Hd. apply elem_of_app. by left.
Qed.
Lemma moves_event r k k' s e : is_observation e = false → e ≠ Disposed →
  (fact (MkPart r k) s → justified config (hs_log s) e) →
  (fact (MkPart r k) s → known_fact r k' (s <| hs_log := hs_log s ++ [e] |>)) →
  moves (MkPart r k) s (MkPart r k') (s <| hs_log := hs_log s ++ [e] |>).
Proof.
  intros He Hd Hj Hk Hs Hf. split; [by apply sound_noted; auto|]. split; [|split; [by apply logs_one|by apply sh_stay]].
  split; [|by apply Hk]. apply role_fact_noted; [done|apply Hf].
Qed.
Lemma moves_dropped r k s cs : cs ⊆ hs_counters s → moves (MkPart r k) s (MkPart r nothing_known) (s <| hs_counters := cs |>).
Proof.
  intros Hc Hs [Hr Hf]. split; [by apply sound_dropped|]. split; [by split|]. split; [by apply logs_none|by apply sh_stay].
Qed.
Lemma moves_forget r k s : moves (MkPart r k) s (MkPart r nothing_known) s.
Proof. intros Hs [Hr _]. split; [done|]. split; [by split|]. split; [by apply logs_none|by apply sh_stay]. Qed.

Local Abbreviation does := (Crew.does (D := HealthAnswer) (E := DeviceError) moves may_ask).
Local Abbreviation keeps := (Crew.keeps (D := HealthAnswer) (E := DeviceError) moves may_ask).
Local Abbreviation calm := (Crew.calm quiet).
Lemma does_giveUp r k device lease reason attempts error :
  (∀ s e, fact (MkPart r k) s → justified config (hs_log s)
     (EvRecoveryFailed attempts (v_id device) e (l_id lease) (vs_platform (v_spec device)) reason)) →
  does (MkPart r k) (Monitor.giveUp device lease reason attempts error) (λ _ o, o = MkPart r nothing_known).
Proof.
  intros Hj. unfold Monitor.giveUp. apply does_bind. eapply (does_section _ _ _ (MkPart r (reported (l_id lease)))); [|done|].
  { intros s. apply moves_event; [done|done|by apply Hj|]. intros _. eexists _, _, _, _, _. apply elem_of_app. right. by left. }
  apply does_bind, does_try, does_bind, does_call; [done|].
  assert (does (MkPart r (reported (l_id lease))) (gate (Monitor.drop_counters (v_id device))) (λ _ o, o = MkPart r nothing_known))
    as Hdrop.
  { eapply (does_section _ _ _ (MkPart r nothing_known)); [|done..]. intros s'. apply moves_dropped, delete_subseteq. }
  intros [a|e]; by apply does_done.
Qed.

Lemma counters_of_sound s d : sound s → counter_sound (hs_log s) d (Monitor.counters_of s d).
Proof.
  intros Hs. unfold Monitor.counters_of. destruct (hs_counters s !! d) as [c|] eqn:E; [by apply Hs|]. apply rows_nonneg.
Qed.

Local Abbreviation T v k := (MkPart (ticking v) k).
(** An observation the tick makes, with what it then knows. *)
Lemma moves_observed v k k' s device o c s' : device_read v device → reading v device o →
  s' = s <| hs_log := hs_log s ++ [Classified device o] |> <| hs_counters := <[v_id device := c]> (hs_counters s) |> →
  (sound s → counter_sound (hs_log s ++ [Classified device o]) (v_id device) c) →
  (sound s → fact (T v k) s → known_fact (ticking v) k' s') →
  moves (T v k) s (T v k') s'.
Proof.
  intros Hd Ho -> Hc Hk Hs Hf. pose proof Hf as [Hv _]. cbn in Hv.
  split; [apply sound_observed; [done|by cbn; rewrite Hv|by auto]|]. split; [|split; [|by apply sh_stay]].
  - split; [|by auto]. cbn. by rewrite view_snoc.
  - eexists. split; [reflexivity|]. done.
Qed.

Definition still_ticking v (d : string) (r : result DeviceError bool) (o : Part) : Prop :=
  pt_role o = ticking v ∧ (r = Ok true → o = T v (found_stopped d)).
Lemma calm_health_shared {A} (m : action Shared DeviceError A) : calm (Monitor.on_shared m).
Proof. intros s. unfold Monitor.on_shared. by destruct (m _). Qed.
#[local] Hint Resolve calm_health_shared : calm.
#[local] Hint Extern 0 (may_ask _ _) => done : calm.

(** *** Looking at one device *)
Section look.
Context v device lease (Hdevice : device_read v device) (Hlease : lease_read v (v_id device) (l_id lease)).

Lemma does_missing k : reading v device None →
  does (T v k) (Monitor.classifyMissing config device lease) (still_ticking v (v_id device)).
Proof using Hdevice Hlease.
  intros Hread. unfold Monitor.classifyMissing. apply does_bind, does_gate. intros s.
  set (n := (cc_missing (Monitor.counters_of s (v_id device)) + 1)%Z).
  exists (T v (if (hc_stableObservations config <=? n)%Z then found_missing (v_id device) else nothing_known)). split.
  - apply (moves_observed _ _ _ _ device None (MkCounters n 0)); [done..| |].
    + intros Hs. destruct (counters_of_sound s (v_id device) Hs) as [Hm _]. split.
      * rewrite missed_snoc. cbn. rewrite bool_decide_eq_true_2 by done. subst n. cbn. lia.
      * apply rows_nonneg.
    + intros Hs _. destruct (Z.leb_spec (hc_stableObservations config) n) as [Hle|]; [|done]. split; [done|].
      change (hc_stableObservations config ≤ missed_in_row (v_id device) (hs_log s ++ [Classified device None]))%Z.
      destruct (counters_of_sound s (v_id device) Hs) as [Hm _]. rewrite missed_snoc. cbn.
      rewrite bool_decide_eq_true_2 by done. lia.
  - cbv beta iota delta [mbind action_bind get mret action_ret Monitor.note Monitor.set_counters modify snd]. fold n.
    apply does_bind. destruct (hc_stableObservations config <=? n)%Z.
    + eapply does_mono; [apply does_giveUp|].
      * intros s' e [Hv [_ Hf]]. cbn in Hv |- *. by rewrite Hv.
      * intros [a|e] o ->; [apply does_done|]; by split.
    + apply does_done, does_done. by split.
Qed.
Lemma does_running k observed : reading v device (Some observed) → mo_runState observed = run_running →
  does (T v k) (Monitor.classifyRunning options device lease observed) (still_ticking v (v_id device)).
Proof using Hdevice Hlease.
  intros Hread Hrun. unfold Monitor.classifyRunning.
  set (known := match (mo_mark observed ≫= provenanceDrift : option ProvenanceDrift) with Some _ => found_drifted (v_id device) | None => nothing_known end).
  apply does_bind. eapply (does_section _ _ _ (T v known)); [|done|].
  { intros s. apply (moves_observed _ _ _ _ device (Some observed) (MkCounters 0 0)); [done..|intros _; apply rows_nonneg|].
    intros _ _. subst known. destruct (mo_mark observed ≫= provenanceDrift) eqn:Ed; [|done]. split; [done|].
    change (seen_running_drifted (v_id device) (hs_log s ++ [Classified device (Some observed)]) = true).
    unfold seen_running_drifted, last_seen. rewrite foldl_app. cbn. rewrite bool_decide_eq_true_2 by done.
    by rewrite bool_decide_eq_true_2, Ed. }
  apply does_bind, does_keeps; [keep|]. intros [[]|e]; [|by split]. subst known. apply does_bind.
  destruct (mo_mark observed ≫= provenanceDrift) as [drift|].
  - eapply does_mono; [apply does_giveUp|].
    + intros s e [Hv [_ Hf]]. cbn in Hv |- *. by rewrite Hv.
    + intros [a|e] o ->; [apply does_done|]; by split.
  - apply does_done, does_done. by split.
Qed.
Lemma does_stopped observed : reading v device (Some observed) → mo_runState observed = run_stopped →
  does (T v (not_recovered (v_id device))) (Monitor.classifyStopped config device observed) (still_ticking v (v_id device)).
Proof using Hdevice Hlease.
  intros Hread Hrun. apply does_gate. intros s. set (n := (cc_stopped (Monitor.counters_of s (v_id device)) + 1)%Z).
  assert (sound s → (n ≤ stopped_in_row (v_id device) (hs_log s ++ [Classified device (Some observed)]))%Z) as Hn.
  { intros Hs. destruct (counters_of_sound s (v_id device) Hs) as [_ Hm]. rewrite stopped_snoc. cbn.
    rewrite bool_decide_eq_true_2, Hrun by done. subst n. lia. }
  exists (T v (if (hc_stableObservations config <=? n)%Z then found_stopped (v_id device) else nothing_known)). split.
  - apply (moves_observed _ _ _ _ device (Some observed) (MkCounters 0 n)); [done..| |].
    + intros Hs. split; [apply rows_nonneg|by apply Hn].
    + intros Hs [_ [_ Hf]]. destruct (Z.leb_spec (hc_stableObservations config) n) as [Hle|]; [|done]. split; [done|].
      split; [done|]. exact (Z.le_trans _ _ _ Hle (Hn Hs)).
  - split; [done|]. intros Heq. injection Heq as Heq. change ((hc_stableObservations config <=? n)%Z = true) in Heq. by rewrite Heq.
Qed.
Lemma does_transitioning k observed : reading v device (Some observed) → mo_runState observed = run_transitioning →
  does (T v k) (Monitor.classifyTransitioning device observed) (still_ticking v (v_id device)).
Proof using Hdevice Hlease.
  intros Hread Hrun. apply does_gate. intros s. exists (T v nothing_known). split; [|done].
  apply (moves_observed _ _ _ _ device (Some observed) (Monitor.counters_of s (v_id device))); [done..| |done].
  intros Hs. destruct (counters_of_sound s (v_id device) Hs) as [Hm Hst]. split; rewrite ?missed_snoc, ?stopped_snoc; cbn;
    by rewrite bool_decide_eq_true_2, Hrun.
Qed.
Lemma does_classify observed : reading v device observed →
  does (T v (not_recovered (v_id device))) (Monitor.classify options config device lease observed) (still_ticking v (v_id device)).
Proof using Hdevice Hlease.
  intros Hread. destruct observed as [o|]; cbn [Monitor.classify]; [|by apply does_missing].
  destruct (mo_runState o) eqn:E; [by apply does_running|by apply does_stopped|by apply does_transitioning].
Qed.
Lemma does_dispatch :
  does (T v (found_stopped (v_id device))) (gate (Monitor.dispatchRecovery config device lease)) (λ _ o, pt_role o = ticking v).
Proof using Hdevice Hlease.
  apply does_gate. intros s. exists (T v nothing_known). split; [|done]. unfold Monitor.dispatchRecovery, get, mbind, action_bind.
  cbv beta iota. destruct (hs_disposed s) eqn:Ed; [apply moves_forget|].
  destruct (Z.leb_spec (hc_maxConcurrentRecoveries config) (Z.of_nat (length (hs_inFlight s)))) as [|Hlt]; [apply moves_forget|].
  cbn [orb]. intros Hs (Hv & _ & Hfree & Hst). cbn in Hv. unfold Arr.includes. cbn.
  rewrite bool_decide_eq_false_2 by done. split; [|split; [|split]].
  - assert (Disposed ∉ hs_log s) as Hnd by (intros Hd%(so_disposed _ Hs); congruence).
    destruct (sound_noted s (Dispatched device lease) ltac:(done) ltac:(done) Hs ltac:(cbn; by rewrite Hv)) as [H1 H2 H3 H4 H5].
    split; try done; cbn.
    + rewrite length_app. cbn. lia.
    + apply NoDup_app. split; [apply Hs|]. split; [|apply NoDup_singleton]. by intros x Hx ->%list_elem_of_singleton.
  - split; [|done]. cbn. by rewrite view_snoc.
  - by eexists.
  - apply (sh_dispatch v device lease); [done|done| |done]. cbn. apply elem_of_app. right. by left.
Qed.
End look.

(** ** The tick *)

(** What a tick does leaves it a tick, going by what it read. *)
Definition ticks {R} v (f : flow_of R) : Prop := ∀ k, does (T v k) f (λ _ o, pt_role o = ticking v).
Lemma ticks_at {R} v (f : flow_of R) o (Q : result DeviceError R → Part → Prop) : ticks v f → pt_role o = ticking v →
  (∀ r o', pt_role o' = ticking v → Q r o') → does o f Q.
Proof. destruct o as [r k]. cbn. intros Hf -> HQ. eapply does_mono; [apply Hf|]. auto. Qed.
Lemma ticks_bind {R R'} v (f : flow_of R) (g : R → flow_of R') : ticks v f → (∀ a, ticks v (g a)) → ticks v (f ≫= g).
Proof.
  intros Hf Hg k. apply does_bind. eapply does_mono; [apply Hf|]. intros [a|e] o Ho; [|done].
  by apply (ticks_at _ _ _ _ (Hg a)).
Qed.
Lemma ticks_ret {R} v (a : R) : ticks v (mret a).
Proof. intros k. by apply does_done. Qed.
Lemma reading_found observed device there r : Monitor.observed_at observed (vs_platform (v_spec device)) = Some there →
  reading (r, observed) device (Arr.find (λ o, mo_deviceId o === driverDeviceId (v_fields device)) there).
Proof.
  unfold Monitor.observed_at. intros ([p l] & [Hin Hp%bool_decide_eq_true]%afind_Some & ->)%fmap_Some_1. cbn in Hp. subst p. cbn [snd].
  exists l. split; [done|]. destruct (Arr.find _ l) as [o|] eqn:E.
  - by apply afind_Some in E as [? ?%bool_decide_eq_true].
  - intros o Ho. pose proof (proj1 (afind_None _ _) E o Ho) as Hne. by apply bool_decide_eq_false in Hne.
Qed.
Lemma ticks_visit observed r device : device_read (Some r, observed) device →
  ticks (Some r, observed) (Monitor.visit options config observed (leases r) device).
Proof.
  intros Hd k. set (v := (Some r, observed)) in *. unfold Monitor.visit. apply does_bind, does_gate. intros s.
  unfold Monitor.look_at, get, mbind, action_bind, Arr.includes.
  cbv beta iota. case_bool_decide as Hin; [exists (T v nothing_known); split; [apply moves_forget|by apply does_done]|].
  destruct (Arr.find _ (leases r)) as [lease|] eqn:El.
  - exists (T v (not_recovered (v_id device))). split.
    { intros Hs [Hv _]. split; [done|]. split; [by split|]. split; [by apply logs_none|by apply sh_stay]. }
    apply afind_Some in El as [Hlin Hlid%bool_decide_eq_true].
    assert (lease_read v (v_id device) (l_id lease)) as Hlease by (by exists r, lease).
    cbn -[Monitor.classify]. destruct (Monitor.observed_at _ _) as [there|] eqn:Et; [|by apply does_done].
    apply (reading_found _ _ _ (Some r)) in Et. apply does_try, does_bind. eapply does_mono; [by apply (does_classify v)|].
    intros [[]|e] o [Ho Hb]; [|by apply does_done|by apply does_done].
    rewrite (Hb eq_refl). eapply does_mono; [by apply does_dispatch|]. intros [a|e] o' Ho'; [done|by apply does_done].
  - exists (T v nothing_known). split; [apply moves_dropped, delete_subseteq|]. by apply does_done.
Qed.
Lemma ticks_visit_each observed r leased_ : (∀ x, x ∈ leased_ → device_read (Some r, observed) x) →
  ticks (Some r, observed) (Monitor.visit_each options config observed (leases r) leased_).
Proof.
  induction leased_ as [|d l IH]; intros Hd; cbn [Monitor.visit_each]; [apply ticks_ret|].
  apply ticks_bind; [apply ticks_visit, Hd; by left|]. intros _. apply IH. intros x Hx. apply Hd. by right.
Qed.
(** Each answer of a driver is part of the view. *)
Lemma does_poll k r before ps : does (T (r, before) k) (Monitor.pollDrivers hasDriver ps)
  (λ a o, ∃ observed, a = Ok observed ∧ pt_role o = ticking (r, before ++ observed)).
Proof.
  revert k before. induction ps as [|p ps IH]; intros k before; cbn [Monitor.pollDrivers].
  { apply does_done. exists []. by rewrite app_nil_r. }
  assert (∀ k here, does (T (r, before ++ here) k) (rest ← Monitor.pollDrivers hasDriver ps; mret (here ++ rest))
    (λ a o, ∃ observed, a = Ok observed ∧ pt_role o = ticking (r, before ++ observed))) as Hrest.
  { intros k' here. apply does_bind. eapply does_mono; [apply IH|]. intros a o (observed & -> & Ho). apply does_done.
    exists (here ++ observed). by rewrite (assoc_L (++)). }
  specialize (Hrest k []) as Hnone. rewrite app_nil_r in Hnone.
  apply does_bind, does_try. destruct (hasDriver p); [|by apply does_done, does_done].
  apply does_bind, does_call; [done|]. intros [a|e]; [|by apply does_done].
  apply does_bind. eapply (does_section _ _ _ (T (r, before ++ [(p, ha_reality a)]) nothing_known)); [|done|by apply does_done].
  intros s Hs [Hv _]. cbn in Hv. split; [by apply sound_read|]. split; [|split; [by apply logs_one|by apply sh_stay]].
  split; [|done]. cbn. by rewrite view_snoc, Hv.
Qed.
Definition ticked {R} (r : result DeviceError R) (o : Part) : Prop := ticks_now (pt_role o) = true.
Lemma does_runTick v k : does (T v k) (Monitor.runTick options hasDriver config) ticked.
Proof.
  unfold Monitor.runTick. apply does_bind, does_gate. intros s. exists (T (Some (sh_registry (hs_shared s)), []) nothing_known). split.
  - intros Hs [Hv _]. set (e := TickRead (sh_registry (hs_shared s))).
    pose proof (sound_read s e eq_refl eq_refl Hs) as Hs'.
    split; [exact (sound_dropped _ _ Hs' (map_filter_subseteq _ _))|]. split; [|split].
    + split; [|done]. change (view_of (hs_log s ++ [e]) = (Some (sh_registry (hs_shared s)), [])). by rewrite view_snoc.
    + exists [e]. by split.
    + by apply sh_stay.
  - cbv beta iota delta [mbind action_bind get mret action_ret Monitor.note Monitor.dropStaleCounters modify snd].
    apply does_bind. eapply does_mono; [apply does_poll|]. intros a [o k'] (observed & -> & Ho). cbn [pt_role] in Ho. subst o. rewrite app_nil_l.
    eapply does_mono; [apply ticks_visit_each|by intros ? o Ho; unfold ticked; rewrite Ho].
    intros x [Hx Hl%bool_decide_eq_true]%elem_of_afilter. by exists (sh_registry (hs_shared s)).
Qed.

(** A flow of the monitor is done with its role when it ends. *)
Definition retired (r : result DeviceError unit) (o : Part) : Prop := pt_role o = no_role.
Lemma does_tick v : does (T v nothing_known) (Monitor.tick options hasDriver config) retired.
Proof.
  apply does_after. eapply does_mono; [apply does_runTick|]. intros r [r' k] Ho. unfold ticked in Ho. cbn in Ho.
  destruct r' as [|v'|]; try done. apply does_gate.
  intros s. exists (MkPart no_role nothing_known). split; [|done].
  unfold Monitor.armTick, get, mbind, action_bind. cbv beta iota. destruct (hs_disposed s) eqn:Ed; cbn.
  - intros Hs _. split; [done|]. split; [done|]. split; [by apply logs_none|by apply (sh_ticked v')].
  - intros [H1 H2 H3 H4 H5] _. split; [by split|]. split; [done|]. split; [by apply logs_none|by apply (sh_ticked v')].
Qed.

(** ** A recovery *)

Section recovery.
Context device lease.
Local Abbreviation Rc := (MkPart (recovering device lease)).
Lemma recovery_dispatched k s : fact (Rc k) s → dispatched (hs_log s) (v_id device) (l_id lease) device.
Proof. intros [Hr _]. by exists lease. Qed.

(** What the recovery asks of a driver is about its device. *)
Lemma recoverLeased_asks leaseId :
  asks (λ c, call_device c = Some (v_id device)) (ManagedDevice.recoverLeased hasDriver device leaseId).
Proof.
  unfold ManagedDevice.recoverLeased, ManagedDevice.claimLeased. intros s. cbn -[ManagedDevice.releasing ManagedDevice.drive].
  destruct (ManagedDevice.leasedTarget _ _ _) as [x|] eqn:El; [|done].
  assert (v_id x = v_id device) as Hid.
  { unfold ManagedDevice.leasedTarget in El. destruct (Arr.find _ _) as [y|] eqn:Ef; [|done].
    apply afind_Some in Ef as [_ Hy%bool_decide_eq_true]. repeat (case_match; try done). by simplify_eq. }
  destruct (tryClaim _ _ _ _) as [[t k]|]; [|done]. apply asks_bind; [|by intros; apply asks_gate].
  unfold ManagedDevice.releasing, ManagedDevice.drive, ManagedDevice.get_driver. ask. cbn. by rewrite Hid.
Qed.
Lemma keeps_recoverLeased k : keeps (Rc k) (Monitor.within (ManagedDevice.recoverLeased hasDriver device (l_id lease))).
Proof.
  apply (keeps_embed_asks _ _ quiet _ _ _ _ _ (λ c, call_device c = Some (v_id device))); [by intros; split_and!|done|].
  apply recoverLeased_asks.
Qed.
Lemma keeps_backoff o ms : keeps o (Monitor.wait ms).
Proof. unfold Monitor.wait. apply keeps_bind; [keep|]. intros timer h s s' _. by split. Qed.
#[local] Hint Resolve keeps_backoff keeps_recoverLeased : calm.

Definition recovers {R} k (f : flow_of R) : Prop := does (Rc k) f (λ _ o, pt_role o = recovering device lease).
Lemma recovers_giveUp k attempts error :
  (∀ s, fact (Rc k) s → (hc_maxRecoveryAttempts config ≤ attempts)%Z
     ∧ (attempts = Monitor.attempts_of device ∨ RebootFailed attempts (v_id device) ∈ hs_log s)) →
  recovers k (Monitor.giveUp device lease attempts_exhausted attempts error).
Proof.
  intros Hk. eapply does_mono; [apply does_giveUp|by intros r o ->]. intros s e Hf. destruct (Hk s Hf). cbn. split; [done|].
  exists device. split; [by eapply recovery_dispatched|done].
Qed.
Lemma recovers_drop k : recovers k (gate (Monitor.drop_counters (v_id device))).
Proof. eapply (does_section _ _ _ (Rc nothing_known)); [|done..]. intros s. apply moves_dropped, delete_subseteq. Qed.
Lemma recovers_reboot attempt :
  recovers (has_counted attempt) (Monitor.attemptReboot options hasDriver config device lease attempt).
Proof.
  unfold Monitor.attemptReboot, Monitor.now_. apply does_bind, does_keeps;
    [apply (keeps_gate moves may_ask quiet); intros s; change (quiet s s); reflexivity|]. intros [startedAt|e]; [|done].
  apply does_after, does_keeps; [apply keeps_recoverLeased|]. intros [[x|]|e].
  - apply does_bind, does_keeps; [keep|]. intros [x'|e]; [|done]. apply does_gate. intros s. exists (Rc nothing_known). split; [|done].
    set (e := EvRecovered attempt (v_id device) (sh_now (hs_shared s) - startedAt) (l_id lease) (vs_platform (v_spec device))).
    intros Hs Hf. pose proof (sound_dropped s (delete (v_id device) (hs_counters s)) Hs (delete_subseteq _ _)) as Hs'.
    split; [|split; [|split; [|by apply sh_stay]]].
    + refine (sound_noted _ e eq_refl ltac:(discriminate) Hs' _). split; [exists device; by eapply recovery_dispatched|]. apply Hf.
    + split; [|done]. apply (role_fact_noted _ (s <| hs_counters := delete (v_id device) (hs_counters s) |>) e); [done|apply Hf].
    + eexists. split; [reflexivity|]. by intros _ e2 ->%list_elem_of_singleton.
  - apply recovers_drop.
  - apply does_bind. eapply (does_section _ _ _ (Rc (has_failed attempt))); [|done|].
    { intros s. apply moves_event; [done|done|by intros [_ Hc]|]. intros _. cbn. apply elem_of_app. right. by left. }
    destruct (Z.leb_spec (hc_maxRecoveryAttempts config) attempt); [|by apply does_done].
    apply recovers_giveUp. intros s [_ Hf]. split; [done|]. by right.
Qed.
Lemma recovers_recover : recovers nothing_known (Monitor.recover options hasDriver config device lease).
Proof.
  unfold Monitor.recover. cbv zeta. destruct (Z.leb_spec (hc_maxRecoveryAttempts config) (Monitor.attempts_of device)).
  { apply recovers_giveUp. by auto. }
  apply does_bind, does_gate. intros s.
  match goal with |- ∃ o', moves _ _ _ (?m s).1 ∧ _ => set (section := m) end.
  destruct (markRecoveryAttempt options (sh_now (hs_shared s)) (v_id device) (sh_now (hs_shared s)) (sh_registry (hs_shared s)))
    as [r' [x|e]] eqn:Em.
  2:{ exists (Rc nothing_known).
      assert (section s = (s <| hs_shared := (hs_shared s) <| sh_registry := r' |> |>, Err (RegistryThrew e))) as ->.
      { unfold section, mbind, action_bind, get, Monitor.on_shared, ManagedDevice.on_registry. by rewrite Em. }
      split; [by apply quiet_health_moves|done]. }
  pose proof (markRecoveryAttempt_counts _ _ _ _ _ _ _ Em) as (y & Hy & Hyd & Hcount).
  set (n := (default 0 (recoveryAttempts (dev_fields y)) + 1)%Z) in *.
  set (e := Counted (sh_registry (hs_shared s)) (v_id device) n).
  set (s1 := s <| hs_shared := (hs_shared s) <| sh_registry := r' |> |>).
  assert (section s = (s1 <| hs_log := hs_log s1 ++ [e] |>, Ok x)) as ->.
  { unfold section, mbind, action_bind, get, Monitor.on_shared, ManagedDevice.on_registry. rewrite Em. cbv beta iota.
    unfold Monitor.note, modify, mret, action_ret. by rewrite Hcount. }
  clearbody section. exists (Rc (has_counted n)). cbn [fst snd]. rewrite Hcount. cbn [default from_option Datatypes.id]. split.
  - intros Hs Hf. assert (quiet s s1) as Hq by (by split_and!).
    pose proof (sound_quiet _ _ Hq Hs) as Hs1. pose proof (fact_quiet _ _ _ Hq Hf) as Hf1.
    destruct (moves_event (recovering device lease) nothing_known (has_counted n) s1 e) as (H1 & H2 & (new & El & Hno) & _); try done.
    + intros _. by exists y.
    + intros _. exists (sh_registry (hs_shared s)). cbn. apply elem_of_app. right. by left.
    + split; [exact H1|]. split; [exact H2|]. split; [by exists new|by apply sh_stay].
  - destruct (Z.eqb_spec n 1) as [Hn|Hn].
    + apply does_bind. eapply (does_section _ _ _ (Rc (has_counted n))); [|done|apply recovers_reboot].
      intros s'. apply moves_event; [done|done| |].
      * intros Hf. split; [exists device; by eapply recovery_dispatched|]. destruct Hf as [_ Hf]. rewrite <- Hn. exact Hf.
      * intros [_ [rg Hf]]. exists rg. cbn. apply elem_of_app. by left.
    + apply does_bind, does_keeps; [keep|]. intros [[]|e']; [|done]. apply does_bind, does_keeps; [keep|].
      intros [[]|e']; [by apply does_done|apply recovers_reboot|done].
Qed.
Lemma does_recovery : does (Rc nothing_known) (Monitor.recovery options hasDriver config device lease) retired.
Proof.
  apply does_after. eapply does_mono; [apply recovers_recover|]. intros r [r' k] Ho. cbn in Ho. subst r'.
  eapply (does_section _ _ _ (MkPart no_role nothing_known)); [|done..].
  intros s [H1 H2 H3 H4 H5] _. split; [|split; [done|split; [by apply logs_none|by apply (sh_recovered device lease)]]]. split; try done; cbn.
  - pose proof (afilter_length_le (λ i, i !== v_id device) (hs_inFlight s)). lia.
  - by apply NoDup_ListNoDup, List.NoDup_filter, NoDup_ListNoDup.
Qed.
End recovery.

(** ** The monitor at work *)

Definition health_answers (c : HealthCall) (s : Health) : Prop :=
  match c with AwaitBackoff timer => hs_backoffs s !! timer = None | _ => True end.
Inductive health_step : list (flow_of unit) * Health → list (flow_of unit) * Health → Prop :=
| health_ticks fs s due : hs_tick s = Some due → (due ≤ sh_now (hs_shared s))%Z →
    health_step (fs, s) (fs ++ [Monitor.tick options hasDriver config], Monitor.tick_fired s)
| health_recovers fs s l1 device lease l2 : hs_started s = l1 ++ (device, lease) :: l2 →
    health_step (fs, s) (fs ++ [Monitor.recovery options hasDriver config device lease], s <| hs_started := l1 ++ l2 |>)
| health_section fs s (i : nat) section next : fs !! i = Some (Gate section next) →
    health_step (fs, s) (<[i := next s]> fs, section s)
| health_answer fs s (i : nat) c next a : fs !! i = Some (Call c next) → health_answers c s →
    health_step (fs, s) (<[i := next a]> fs, s)
| health_backoff fs s timer due : hs_backoffs s !! timer = Some due → (due ≤ sh_now (hs_shared s))%Z →
    health_step (fs, s) (fs, Monitor.backoff_fired timer s)
| health_dispose fs s : health_step (fs, s) (fs, (Monitor.dispose s).1)
| health_elsewhere fs s h : health_step (fs, s) (fs, s <| hs_shared := h |>).
Definition fresh_monitor (shared : Shared) : Health := MkHealth shared ∅ [] [] None ∅ 0 false [].
Definition health_reachable (fs : list (flow_of unit)) s : Prop :=
  ∃ shared, rtc health_step ([], (Monitor.start config (fresh_monitor shared)).1) (fs, s).

Definition health_ok : list (flow_of unit) → Health → Prop := crew_ok moves may_ask retired together.
Lemma together_quiet os s s' : together os s → quiet s s' → together os s'.
Proof.
  intros [H1 H2 H3 H4 H5] Hq. pose proof Hq as (El & _ & Er & Et & _). injection Er as Ei Es. split.
  - by eapply sound_quiet.
  - intros o Ho. by apply (fact_quiet o s), H2.
  - unfold started_ids. by rewrite Ei, Es.
  - by rewrite Es, El.
  - unfold armed. by rewrite Et.
Qed.
Lemma together_dispose os s : together os s → together os (Monitor.dispose s).1.
Proof.
  intros Hok. unfold Monitor.dispose, get, mbind, action_bind. cbv beta iota. destruct (hs_disposed s); [done|].
  destruct Hok as [[H1 H2 H3 H4 H5] Hf Hi Hst Ht]. assert (∀ e : HealthEntry, e ∈ [Disposed] → is_observation e = false) as Hno by set_solver.
  split.
  - split; try done; [by apply each_justified_snoc|]. intros d c Hc%H2. unfold counter_sound.
    destruct (rows_unchanged d (hs_log s) [Disposed] Hno) as (E1 & E2 & _). cbn -[missed_in_row stopped_in_row]. by rewrite E1, E2.
  - intros o Ho. eapply (fact_log o s _ [Disposed]); [by apply Hf|done|done|done].
  - done.
  - intros device lease Hin. cbn. apply elem_of_app. left. by apply Hst.
  - unfold armed in *. cbn. lia.
Qed.
Lemma health_step_ok fs s fs' s' : health_ok fs s → health_step (fs, s) (fs', s') → health_ok fs' s'.
Proof.
  intros Hok Hstep. inversion Hstep as [? ? due Ht Hdue|? ? l1 device lease l2 Hl|? ? i section next Hi|? ? i c next a Hi Ha| | |]; subst.
  - destruct Hok as (os & Hfs & [H1 H2 H3 Hst H4]).
    apply (crew_joins _ _ _ _ together_perm _ os _ (T (view_of (hs_log s)) nothing_known)); [done|..].
    + apply thread_does, does_tick.
    + destruct H1 as [S1 S2 S3 S4 S5]. split; [by split|..].
      * intros o [->|Ho]%elem_of_cons; [done|]. by apply H2.
      * done.
      * done.
      * unfold armed in *. rewrite Ht in H4. cbn in *. lia.
  - destruct Hok as (os & Hfs & [H1 H2 H3 Hst H4]).
    apply (crew_joins _ _ _ _ together_perm _ os _ (MkPart (recovering device lease) nothing_known));
      [done|apply thread_does, does_recovery|].
    destruct H1 as [S1 S2 S3 S4 S5]. split; [by split|..].
    + intros o [->|Ho]%elem_of_cons; [|by apply H2]. split; [|done]. apply Hst. rewrite Hl. set_solver.
    + unfold started_ids in *. rewrite Hl in H3. cbn. rewrite H3, fmap_app, fmap_cons, fmap_app. cbn.
      by rewrite <- !Permutation_middle.
    + intros x y Hin. apply Hst. rewrite Hl. cbn in Hin. set_solver.
    + done.
  - by apply (crew_section _ _ _ _ together_perm together_moves).
  - by eapply crew_answer.
  - eapply crew_elsewhere; [done|]. intros os Hac. by eapply together_quiet.
  - eapply crew_elsewhere; [done|]. intros os. apply together_dispose.
  - eapply crew_elsewhere; [done|]. intros os Hac. by eapply together_quiet.
Qed.
Lemma health_steps_ok x y : rtc health_step x y → health_ok x.1 x.2 → health_ok y.1 y.2.
Proof. induction 1 as [|[f1 s1] [f2 s2] z Hst _ IH]; [done|]. intros Hok. apply IH. by eapply health_step_ok. Qed.

Context (room : (0 ≤ hc_maxConcurrentRecoveries config)%Z).
Lemma health_reachable_ok fs s : health_reachable fs s → health_ok fs s.
Proof using room.
  intros (shared & Hsteps). apply (health_steps_ok _ _ Hsteps). exists []. split; [constructor|]. cbn [fst snd].
  assert (sound (fresh_monitor shared)) as [S1 S2 S3 S4 S5].
  { split; cbn; try done; [apply each_justified_nil|apply NoDup_nil_2|by intros ?%elem_of_nil]. }
  unfold Monitor.start, Monitor.armTick, get, mbind, action_bind. cbv beta iota. cbn.
  destruct (hc_enabled config); (split; [by split|by intros o ?%elem_of_nil|done|by intros ? ? ?%elem_of_nil|cbn; lia]).
Qed.

(** ** What the monitor promises *)


Definition at_driver : flow_of unit → bool := asking (λ c, match c with HealthDriver _ => true | _ => false end).
Definition polls : flow_of unit → bool := asking (λ c, match c with ListManaged _ => true | _ => false end).
(** C14. The monitor stays within its limits. However its ticks and recoveries interleave, the devices
    under recovery are all different and at most as many as are allowed at once, no more recoveries
    than that are at a driver, and no two ticks read the drivers at the same time. *)
Theorem recoveries_bounded fs s : health_reachable fs s →
  NoDup (hs_inFlight s)
  ∧ (Z.of_nat (length (Arr.filter at_driver fs)) ≤ Z.of_nat (length (hs_inFlight s)) ≤ hc_maxConcurrentRecoveries config)%Z
  ∧ length (Arr.filter polls fs) ≤ 1.
Proof using room.
  intros (os & Hfs & [Hs Hf Hi _ Ht])%health_reachable_ok. split; [apply Hs|]. split; [split; [|apply Hs]|].
  - apply inj_le. rewrite Hi, length_app. assert (length (Arr.filter at_driver fs) ≤ length (os ≫= recovering_of)); [|lia].
    apply (crew_counts _ _ _ _ _ _ _ s Hfs). intros c o HP Hmay. destruct c; try done. cbn in Hmay.
    unfold recovering_of. destruct (pt_role o); cbn; (done || lia).
  - assert (length (Arr.filter polls fs) ≤ length (os ≫= ticking_of)); [|lia].
    apply (crew_counts _ _ _ _ _ _ _ s Hfs). intros c o HP Hmay. destruct c; try done. cbn in Hmay.
    unfold ticking_of. destruct (pt_role o); cbn; (done || lia).
Qed.
End inv.

(** ** Runs on a registry with one leased device *)

Inductive HealthTurn := TickFires | RecoveryBegins | HealthSection (i : nat) | HealthAnswers (i : nat) (a : HealthAnswer) | TimeIs (t : Z).
Section play.
Context (options : RegistryOptions) (hasDriver : Platform → bool) (config : HealthConfig).
Local Abbreviation flow_of R := (flow Health HealthCall HealthAnswer DeviceError R).
Definition health_turn (t : HealthTurn) (x : list (flow_of unit) * Health) : option (list (flow_of unit) * Health) :=
  let '(fs, s) := x in
  match t with
  | TickFires =>
      match hs_tick s with
      | Some due => if (due <=? sh_now (hs_shared s))%Z
                    then Some (fs ++ [Monitor.tick options hasDriver config], Monitor.tick_fired s) else None
      | None => None
      end
  | RecoveryBegins =>
      match hs_started s with
      | (device, lease) :: l => Some (fs ++ [Monitor.recovery options hasDriver config device lease], s <| hs_started := l |>)
      | [] => None
      end
  | HealthSection i => match fs !! i with Some (Gate section next) => Some (<[i := next s]> fs, section s) | _ => None end
  | HealthAnswers i a =>
      match fs !! i with
      | Some (Call (AwaitBackoff timer) next) => match hs_backoffs s !! timer with Some _ => None | None => Some (<[i := next (Ok a)]> fs, s) end
      | Some (Call _ next) => Some (<[i := next (Ok a)]> fs, s)
      | _ => None
      end
  | TimeIs t => Some (fs, s <| hs_shared := (hs_shared s) <| sh_now := t |> |>)
  end.
Lemma health_turn_step t x y : health_turn t x = Some y → health_step options hasDriver config x y.
Proof.
  destruct x as [fs s], t as [| |i|i a|t]; cbn.
  - destruct (hs_tick s) as [due|] eqn:E; [|done]. destruct (Z.leb_spec due (sh_now (hs_shared s))); [|done]. intros [= <-].
    by eapply health_ticks.
  - destruct (hs_started s) as [|[d l] rest] eqn:E; [done|]. intros [= <-]. apply (health_recovers _ _ _ fs s [] d l rest E).
  - destruct (fs !! i) as [[r|sec next|c next]|] eqn:E; try done. intros [= <-]. by constructor.
  - destruct (fs !! i) as [[r|sec next|c next]|] eqn:E; try done.
    destruct c; try (intros [= <-]; by eapply health_answer).
    destruct (hs_backoffs s !! timer) eqn:Eb; [done|]. intros [= <-]. by eapply health_answer.
  - intros [= <-]. apply health_elsewhere.
Qed.
End play.

Definition sample_health : HealthConfig := MkHealthConfig true 30000 2 3 5000 1.
Definition leased_shared : Shared :=
  MkShared sample_registry no_claims 4 empty_coordinator [] [] [] [] ∅ false ∅ [] nothing_acquired.
Definition sample_health_play (ts : list HealthTurn) :=
  play (health_turn sample_options (λ _, true) sample_health) ts ([], (Monitor.start sample_health (fresh_monitor leased_shared)).1).
Definition driver_answer : DriverAnswer :=
  MkAnswer (MkDriverDevice "udid-1" (Opaque "{}") "" None None) (MkReclaimResult ready strategy_erase None) []
    (MkSaved "src_1" None None).
Definition reality (l : list ManagedObservation) : HealthAnswer := MkHealthAnswer driver_answer l.
Definition one_tick (t : Z) (i : nat) (l : list ManagedObservation) : list HealthTurn :=
  [TimeIs t; TickFires; HealthSection i; HealthAnswers i (reality l); HealthSection i; HealthSection i; HealthSection i; HealthSection i].
Definition stopped_device : list ManagedObservation := [MkManaged "udid-1" run_stopped None].
Lemma sample_health_reach ts fs s : sample_health_play ts = Some (fs, s) →
  health_reachable sample_options (λ _, true) sample_health fs s.
Proof. intros Hp. exists leased_shared. by eapply (play_steps _ _ (health_turn_step _ _ _)). Qed.

(** A device seen stopped twice, whose recovery is at the driver. *)
Definition to_recovery : list HealthTurn :=
  one_tick 30010 0 stopped_device ++ one_tick 60020 1 stopped_device
  ++ [RecoveryBegins; HealthSection 2; HealthSection 2; HealthSection 2; HealthSection 2].
Definition at_drivers (x : option (list (flow Health HealthCall HealthAnswer DeviceError unit) * Health)) : option nat :=
  match x with Some (fs, _) => Some (length (Arr.filter at_driver fs)) | None => None end.
Lemma recoveries_bounded_witness :
  ∃ fs s, sample_health_play to_recovery = Some (fs, s) ∧ length (Arr.filter at_driver fs) = 1 ∧ NoDup (hs_inFlight s)
    ∧ (Z.of_nat (length (hs_inFlight s)) ≤ 1)%Z.
Proof.
  assert (at_drivers (sample_health_play to_recovery) = Some 1) as Hc by (by vm_compute).
  destruct (sample_health_play to_recovery) as [[fs s]|] eqn:Hp; [|done]. injection Hc as Hc. exists fs, s.
  destruct (recoveries_bounded sample_options (λ _, true) sample_health ltac:(done) fs s (sample_health_reach _ _ _ Hp))
    as (Hn & [_ Hb] & _). by split_and!.
Defined.
