(* ===== verification/Watch.v ===== *)
(** * Watching the physical devices: [src/leasing/physical-device-watcher.ts]

    The watcher reads, tick after tick, which enrolled physical devices are there. A device that was
    not there several times in a row is recorded as absent, and its lease ended; one that is back is
    reclaimed and becomes ready again. A device that became ready meanwhile starts from nothing: a
    read begun before that no longer counts against it.

    The release coordinator is the port the watcher is written against ([PhysicalWatcherReleaser]):
    its methods are calls the environment answers, and [admit] is a wait before the work it lets in.
    [start] is called once. Log lines are left out, and [settle] only waits. *)
From stdpp Require Import base strings list option numbers gmap relations.
From S2P Require Import Prelude JsString OsRange Domain RequestStore Capacity Claims Registry RegistryInv WaitQueue Lifecycle AcquisitionState Resolve Flow Crew Devices DevicePool Quarantine Health.

(** ** Data *)

(** What the watcher saw and did, in order: the registry as a tick read it; a read begun, for these
    devices, and what it was answered; a device seen there; a read that counted against one; a device
    found absent; its record written; a device that became ready; and a kick of the queue. *)
Inductive WatchEntry :=
| TickSaw (registry : Registry)
| ReadBegan (ids : list string)
| WasRead (reads : gmap string PhysicalPresence.PhysicalRead)
| SawPresent (device : PhysicalDevice)
| CountedMiss (device : PhysicalDevice) (reason : AbsentReason)
| FoundAbsent (deviceId : string) (reason : AbsentReason)
| WroteAbsent (deviceId : string)
| BecameReady (deviceId : string)
| Kicked.
Record Watching := MkWatching {
  wa_shared : Shared;
  wa_counts : gmap string Z;
  wa_generations : gmap string Z;
  wa_interrupted : list string;
  wa_timer : option Z;
  wa_disposed : bool;
  wa_log : list WatchEntry }.
#[export] Instance Watching_eta : Eta Watching := λ s,
  MkWatching (wa_shared s) (wa_counts s) (wa_generations s) (wa_interrupted s) (wa_timer s) (wa_disposed s) (wa_log s).

(** A call of [endForAbsentDevice] names the device it is made for as well. *)
Inductive WatchCall :=
| WatchDriver (c : DriverCall)
| EndForAbsent (deviceId leaseId : string) (reason : AbsentReason)
| ReclaimReturned (deviceId : string) (osVersion : option string)
| Admission (deviceId : string).

Module Watcher.
Section watcher.
Context (options : RegistryOptions) (hasDriver : Platform → bool) (config : HealthConfig).
Local Abbreviation flow_of R := (flow Watching WatchCall DriverAnswer DeviceError R).
Local Abbreviation op A := (action Watching DeviceError A).

Definition within {R} (f : flow Shared DriverCall DriverAnswer DeviceError R) : flow_of R :=
  embed wa_shared (λ h s, s <| wa_shared := h |>) WatchDriver (λ a : DriverAnswer, a) f.
Definition on_shared {A} (m : action Shared DeviceError A) : op A := λ s,
  let '(h, r) := m (wa_shared s) in (s <| wa_shared := h |>, r).
Definition note (e : WatchEntry) : op unit := modify (λ s, s <| wa_log := wa_log s ++ [e] |>).

Definition generation (s : Watching) (deviceId : string) : Z := default 0%Z (wa_generations s !! deviceId).
Definition reset (deviceId : string) : op unit :=
  modify (λ s, s <| wa_counts := delete deviceId (wa_counts s) |>
                 <| wa_generations := <[deviceId := (generation s deviceId + 1)%Z]> (wa_generations s) |>
                 <| wa_log := wa_log s ++ [BecameReady deviceId] |>).
Definition enrolled (r : Registry) : list PhysicalDevice :=
  omap (λ d, match d with Physical p => if p_state p === deleted then None else Some p | Virtual _ => None end) (devices r).
Definition p_id (p : PhysicalDevice) : string := id (p_fields p).
Definition recordInterrupted : op unit :=
  modify (λ s, s <| wa_interrupted := wa_interrupted s ++
    Arr.filter (λ i, negb (Arr.includes i (wa_interrupted s)))
      (p_id <$> Arr.filter (λ d, p_state d === reclaiming) (enrolled (sh_registry (wa_shared s)))) |>).
Definition forget (devs : list PhysicalDevice) : op unit :=
  let reclaiming_ := p_id <$> Arr.filter (λ d, p_state d === reclaiming) devs in
  modify (λ s, s <| wa_interrupted := Arr.filter (λ i, Arr.includes i reclaiming_) (wa_interrupted s) |>).

Definition arm : op unit :=
  s ← get;
  if wa_disposed s then mret tt
  else modify (λ s, s <| wa_timer := Some (sh_now (wa_shared s) + hc_probeIntervalMs config)%Z |>).
Definition start : op unit := s ← get; match wa_timer s with Some _ => mret tt | None => arm end.
Definition dispose : op unit := modify (λ s, s <| wa_disposed := true |> <| wa_timer := None |>).

(** ** What a read means *)

Definition unclaimedIn (s : Shared) (deviceId : string) (state : DeviceState) : bool :=
  ((dev_state <$> Arr.find (λ d, dev_id d === deviceId) (devices (sh_registry s))) === Some state)
  && negb (isClaimed (sh_claims s) deviceId).
Definition absence_event (device : PhysicalDevice) (absentReason : AbsentReason) : RegistryDeviceEvent :=
  MkDeviceEvent ev_absence_detected (p_id device) (Opaque (absent_text absentReason +:+ " ready")).
Definition admitted (deviceId : string) (work : op unit) : flow_of unit :=
  _ ← call (Admission deviceId); gate work.
Definition markAbsent (device : PhysicalDevice) (absentReason : AbsentReason) : flow_of unit :=
  admitted (p_id device) (
    s ← get;
    if wa_disposed s || negb (unclaimedIn (wa_shared s) (p_id device) ready) then mret tt
    else
      _ ← on_shared (ManagedDevice.on_registry (λ now, transitionDevice options now (p_id device) absent
            (Some (absence_event device absentReason)) (no_update <| u_absentReason := Some absentReason |>)));
      note (WroteAbsent (p_id device))).
Definition rewriteReason (device : PhysicalDevice) (absentReason : AbsentReason) : flow_of unit :=
  admitted (p_id device) (
    s ← get;
    if wa_disposed s || negb (unclaimedIn (wa_shared s) (p_id device) absent) then mret tt
    else _ ← on_shared (ManagedDevice.on_registry (λ now, rewriteAbsentReason options now (p_id device) absentReason)); mret tt).

(** The count, if the read is current; [None] when it is not, or not yet enough. *)
Definition count_miss (device : PhysicalDevice) (reason : AbsentReason) (before : Z) : op bool :=
  s ← get;
  if negb (before =? generation s (p_id device))%Z then mret false
  else
    let count := (default 0 (wa_counts s !! p_id device) + 1)%Z in
    _ ← note (CountedMiss device reason);
    _ ← modify (λ s, s <| wa_counts := <[p_id device := count]> (wa_counts s) |>);
    if (count <? hc_stableObservations config)%Z then mret false
    else _ ← note (FoundAbsent (p_id device) reason); mret true.
Definition missed (device : PhysicalDevice) (reason : AbsentReason) (before : Z) (leaseId : option string) : flow_of unit :=
  enough ← gate (count_miss device reason before);
  if negb enough then mret tt
  else if p_state device === leased then
    match leaseId with None => mret tt | Some leaseId => _ ← call (EndForAbsent (p_id device) leaseId reason); mret tt end
  else markAbsent device reason.
Definition see_present (device : PhysicalDevice) : op bool :=
  s ← get;
  let missed := (0 <? default 0 (wa_counts s !! p_id device))%Z in
  _ ← note (SawPresent device);
  _ ← modify (λ s, s <| wa_counts := delete (p_id device) (wa_counts s) |>);
  _ ← (if (p_state device === ready) && missed then note Kicked else mret tt);
  mret (Arr.includes (p_id device) (wa_interrupted s)).
Definition present (device : PhysicalDevice) (osVersion : option string) : flow_of unit :=
  interrupted ← gate (see_present device);
  if p_state device === absent then
    _ ← call (ReclaimReturned (p_id device) (Some (default (ps_osVersion (p_spec device)) osVersion))); mret tt
  else if interrupted : bool then _ ← call (ReclaimReturned (p_id device) None); mret tt
  else mret tt.
Definition observe (device : PhysicalDevice) (read : PhysicalPresence.PhysicalRead) (before : Z) (leaseId : option string)
    : flow_of unit :=
  match read with
  | PhysicalPresence.ReadPresent osVersion => present device osVersion
  | PhysicalPresence.ReadAbsent reason =>
      if (p_state device === ready) || (p_state device === leased) then missed device reason before leaseId
      else if (p_state device === absent) && (p_absentReason device !== Some reason) then rewriteReason device reason
      else mret tt
  end.

(** ** A tick *)

Definition read_presence (platform : Platform) (group : list PhysicalDevice) : flow_of (option (gmap string PhysicalPresence.PhysicalRead)) :=
  try_catch
    (_ ← (if hasDriver platform then mret tt else fail (NoDriverError platform));
     reads ← within (PhysicalPresence.readPhysicalPresenceDetail platform ((λ d, driverDeviceId (p_fields d)) <$> group));
     _ ← gate (note (WasRead reads));
     mret (Some reads))
    (λ _, mret None).
(** The generations as the read of the group begins. *)
Definition begin_read (group : list PhysicalDevice) : op (list (PhysicalDevice * Z)) :=
  s ← get;
  _ ← note (ReadBegan (p_id <$> group));
  mret ((λ d, (d, generation s (p_id d))) <$> group).
Definition is_disposed : flow_of bool := gate (s ← get; mret (wa_disposed s)).
(** The devices of one platform; [false] when the watcher is disposed. *)
Fixpoint observe_each (leaseIds : string → option string) (reads : gmap string PhysicalPresence.PhysicalRead)
    (group : list (PhysicalDevice * Z)) : flow_of bool :=
  match group with
  | [] => mret true
  | (device, before) :: rest =>
      _ ← try_catch (observe device
            (default (PhysicalPresence.ReadAbsent not_present) (reads !! driverDeviceId (p_fields device))) before
            (leaseIds (p_id device))) (λ _, mret tt);
      over ← is_disposed;
      if over : bool then mret false else observe_each leaseIds reads rest
  end.
Fixpoint watch_platforms (leaseIds : string → option string) (devs : list PhysicalDevice) (platforms : list Platform) : flow_of unit :=
  match platforms with
  | [] => mret tt
  | platform :: rest =>
      let group := Arr.filter (λ d, ps_platform (p_spec d) === platform) devs in
      before ← gate (begin_read group);
      reads ← read_presence platform group;
      over ← is_disposed;
      if over : bool then mret tt
      else
        go_on ← match reads with None => mret true | Some reads => observe_each leaseIds reads before end;
        if go_on : bool then watch_platforms leaseIds devs rest else mret tt
  end.
Definition physical_platforms (devs : list PhysicalDevice) : list Platform :=
  foldl (λ ps d, if Arr.includes (ps_platform (p_spec d)) ps then ps else ps ++ [ps_platform (p_spec d)]) [] devs.
(** [new Map(...)]: the last lease of a device. *)
Definition lease_ids (ls : list LeaseRecord) (deviceId : string) : option string :=
  l_id <$> last (Arr.filter (on_device deviceId) ls).
Definition runTick : flow_of unit :=
  found ← gate (
    s ← get;
    let devs := enrolled (sh_registry (wa_shared s)) in
    _ ← note (TickSaw (sh_registry (wa_shared s)));
    _ ← forget devs;
    mret (devs, leases (sh_registry (wa_shared s))));
  watch_platforms (lease_ids found.2) found.1 (physical_platforms found.1).
Definition tick : flow_of unit := after runTick (λ _, gate arm).
Definition tick_fired (s : Watching) : Watching := s <| wa_timer := None |>.
End watcher.
End Watcher.
