(* ===== verification/WatchInv.v ===== *)
(** * A physical device is found absent for cause only

    The ticks of [Watch] beside the rest of the daemon, which makes devices ready at any time: every
    read that counts against a device began after it last became ready, and a device is found absent
    only by as many of them in a row as are asked for. *)
From stdpp Require Import base strings list option numbers gmap relations.
From S2P Require Import Prelude JsString OsRange Domain RequestStore Capacity Claims Registry RegistryInv WaitQueue Lifecycle AcquisitionState Resolve Flow Crew Devices DevicePool Quarantine Health Watch.

(** ** What was seen, in a row *)

Definition absent_step (d : string) (n : Z) (e : WatchEntry) : Z :=
  match e with
  | SawPresent x => if Watcher.p_id x === d then 0 else n
  | BecameReady d' => if d' === d then 0 else n
  | CountedMiss x _ => if Watcher.p_id x === d then n + 1 else n
  | _ => n
  end.
(** How many reads in a row counted against a device. *)
Definition absent_in_row (d : string) (l : list WatchEntry) : Z := foldl (absent_step d) 0%Z l.
Definition since_step (d : string) (b : bool) (e : WatchEntry) : bool :=
  match e with
  | ReadBegan ids => b || Arr.includes d ids
  | BecameReady d' => if d' === d then false else b
  | _ => b
  end.
(** Whether a read of a device has begun since it last became ready. *)
Definition read_since_ready (d : string) (l : list WatchEntry) : bool := foldl (since_step d) false l.

(** The registry as the last tick read it, and what its last read of devices was answered. *)
Definition WatchView : Type := option Registry * option (gmap string PhysicalPresence.PhysicalRead).
Definition watch_view_step (v : WatchView) (e : WatchEntry) : WatchView :=
  match e with
  | TickSaw r => (Some r, None)
  | ReadBegan _ => (v.1, None)
  | WasRead reads => (v.1, Some reads)
  | _ => v
  end.
Definition watch_view (l : list WatchEntry) : WatchView := foldl watch_view_step (None, None) l.
(** An enrolled device of that registry, a lease of it on a device, and what was read of a device: one
    that is not in the answer is not there. *)
Definition enrolled_in (v : WatchView) (x : PhysicalDevice) : Prop := ∃ r, v.1 = Some r ∧ Physical x ∈ devices r ∧ p_state x ≠ deleted.
Definition lease_in (v : WatchView) (d leaseId : string) : Prop :=
  ∃ r lease, v.1 = Some r ∧ lease ∈ leases r ∧ l_id lease = leaseId ∧ l_deviceId lease = d.
Definition read_in (v : WatchView) (x : PhysicalDevice) (read : PhysicalPresence.PhysicalRead) : Prop :=
  ∃ reads, v.2 = Some reads
    ∧ read = default (PhysicalPresence.ReadAbsent not_present) (reads !! driverDeviceId (p_fields x)).

Definition watch_justified (config : HealthConfig) (l : list WatchEntry) (e : WatchEntry) : Prop :=
  match e with
  | SawPresent x => enrolled_in (watch_view l) x ∧ ∃ v, read_in (watch_view l) x (PhysicalPresence.ReadPresent v)
  | CountedMiss x reason => enrolled_in (watch_view l) x ∧ (p_state x = ready ∨ p_state x = leased)
      ∧ read_in (watch_view l) x (PhysicalPresence.ReadAbsent reason) ∧ read_since_ready (Watcher.p_id x) l = true
  | FoundAbsent d _ => (hc_stableObservations config ≤ absent_in_row d l)%Z
  | WroteAbsent d => ∃ reason, FoundAbsent d reason ∈ l
  | _ => True
  end.
Definition all_watched (config : HealthConfig) : list WatchEntry → Prop := each_justified (watch_justified config).
Lemma absent_snoc d l e : absent_in_row d (l ++ [e]) = absent_step d (absent_in_row d l) e.
Proof. unfold absent_in_row. by rewrite foldl_app. Qed.
Lemma since_snoc d l e : read_since_ready d (l ++ [e]) = since_step d (read_since_ready d l) e.
Proof. unfold read_since_ready. by rewrite foldl_app. Qed.
Lemma watch_view_snoc l e : watch_view (l ++ [e]) = watch_view_step (watch_view l) e.
Proof. unfold watch_view. by rewrite foldl_app. Qed.
Lemma absent_nonneg d l : (0 ≤ absent_in_row d l)%Z.
Proof.
  induction l as [|e l IH] using rev_ind; [done|]. rewrite absent_snoc. destruct e; cbn; try done; case_bool_decide; lia.
Qed.

Section inv.
Context (options : RegistryOptions) (hasDriver : Platform → bool) (config : HealthConfig).
Local Abbreviation flow_of R := (flow Watching WatchCall DriverAnswer DeviceError R).
Implicit Types (s : Watching) (device : PhysicalDevice).

Record watch_sound s : Prop := {
  ws_log : all_watched config (wa_log s);
  ws_counts d c : wa_counts s !! d = Some c → (c ≤ absent_in_row d (wa_log s))%Z }.

(** Whether a flow is a tick, what it read, the devices of the read it is at with their generations as
    it began, and the device it found absent. *)
Record Watch := MkWatch {
  wk_ticks : bool; wk_view : WatchView; wk_group : list (PhysicalDevice * Z); wk_found : option (string * AbsentReason) }.
Definition read_fact s (device : PhysicalDevice) (before : Z) : Prop :=
  (before ≤ Watcher.generation s (Watcher.p_id device))%Z
  ∧ (before = Watcher.generation s (Watcher.p_id device) → read_since_ready (Watcher.p_id device) (wa_log s) = true).
Definition watch_fact (o : Watch) s : Prop :=
  (wk_ticks o = true → watch_view (wa_log s) = wk_view o)
  ∧ (∀ device before, (device, before) ∈ wk_group o → wk_ticks o = true ∧ read_fact s device before)
  ∧ ∀ d reason, wk_found o = Some (d, reason) → FoundAbsent d reason ∈ wa_log s.
Definition watch_quiet s s' : Prop :=
  wa_log s' = wa_log s ∧ wa_counts s' = wa_counts s ∧ wa_generations s' = wa_generations s ∧ wa_timer s' = wa_timer s.
Inductive watch_shift : bool → Watching → bool → Watching → Prop :=
| ws_stay b s s' : wa_timer s' = wa_timer s → watch_shift b s b s'
| ws_ticked s s' : watch_shift true s false s'.
Definition watch_moves (o : Watch) s (o' : Watch) s' : Prop :=
  watch_sound s → watch_fact o s →
  watch_sound s' ∧ watch_fact o' s' ∧ (∃ new, wa_log s' = wa_log s ++ new) ∧ (wk_ticks o = true ∨ watch_quiet s s')
  ∧ watch_shift (wk_ticks o) s (wk_ticks o') s'.
Definition watch_may_ask (c : WatchCall) (o : Watch) : Prop :=
  match c with
  | EndForAbsent d leaseId reason => wk_ticks o = true ∧ wk_found o = Some (d, reason) ∧ lease_in (wk_view o) d leaseId
  | WatchDriver _ => wk_ticks o = true
  | _ => True
  end.

#[local] Instance watch_quiet_preorder : PreOrder watch_quiet.
Proof. split; [intros s; by split_and!|]. intros s1 s2 s3 (H1 & H2 & H3 & H4) (K1 & K2 & K3 & K4). split_and!; congruence. Qed.
Lemma watch_sound_quiet s s' : watch_quiet s s' → watch_sound s → watch_sound s'.
Proof. intros (El & Ec & _) [H1 H2]. split; rewrite El, ?Ec; done. Qed.
Lemma watch_fact_quiet o s s' : watch_quiet s s' → watch_fact o s → watch_fact o s'.
Proof. intros (El & _ & Eg & _) Hf. unfold watch_fact, read_fact, Watcher.generation in *. by rewrite El, Eg. Qed.
#[local] Instance watch_quiet_moves : QuietMoves watch_moves watch_quiet.
Proof.
  intros o s s' Hq Hs Hf. split; [by eapply watch_sound_quiet|]. split; [by eapply watch_fact_quiet|].
  pose proof Hq as (El & _ & _ & Et). split; [exists []; by rewrite El, app_nil_r|]. split; [by right|by apply ws_stay].
Qed.

(** ** The crew *)

Definition watch_ticks_of (o : Watch) : list unit := if wk_ticks o then [tt] else [].
Definition watch_armed s : nat := match wa_timer s with Some _ => 1 | None => 0 end.
Record watch_joint (os : list Watch) s : Prop := {
  wj_sound : watch_sound s;
  wj_facts o : o ∈ os → watch_fact o s;
  wj_tick : length (os ≫= watch_ticks_of) + watch_armed s ≤ 1 }.
Lemma watch_joint_perm os os' s : os ≡ₚ os' → watch_joint os s → watch_joint os' s.
Proof. intros Hp [H1 H2 H3]. split; [done| |by rewrite <- Hp]. intros o. rewrite <- Hp. apply H2. Qed.
Lemma watch_joint_moves o os s o' s' : watch_joint (o :: os) s → watch_moves o s o' s' → watch_joint (o' :: os) s'.
Proof.
  intros [Hs Hf Ht] Hm. destruct (Hm Hs (Hf o ltac:(by left))) as (Hs' & Hf' & (new & Hl) & Hq & Hsh). cbn in Ht. split; [done|..].
  - intros o2 [->|Ho2]%elem_of_cons; [done|]. pose proof (Hf o2 ltac:(by right)) as Hf2.
    destruct Hq as [Htrue|Hq]; [|by eapply watch_fact_quiet]. destruct Hf2 as (_ & Hg & Hd).
    assert (wk_ticks o2 = false) as Hno.
    { apply not_true_is_false. intros Ht2. unfold watch_ticks_of at 1 in Ht. rewrite Htrue in Ht.
      cbn in Ht. assert (0 < length (os ≫= watch_ticks_of)); [|lia]. apply list_elem_of_split in Ho2 as (l1 & l2 & ->).
      rewrite bind_app, length_app, bind_cons. unfold watch_ticks_of at 2. rewrite Ht2. cbn. lia. }
    rewrite Hno in Hg. split; [by rewrite Hno|]. split.
    + intros device before Hin. by destruct (Hg _ _ Hin).
    + intros d r Hr%Hd. rewrite Hl. apply elem_of_app. by left.
  - clear Hf Hm Hf' Hl Hq. revert Ht. unfold watch_ticks_of at 1. cbn. unfold watch_ticks_of at 2, watch_armed.
    destruct Hsh as [b s s' Et|s s']; [by rewrite Et|]. cbn. destruct (wa_timer s), (wa_timer s'); lia.
Qed.

(** ** The sections of a tick *)

Local Abbreviation does := (Crew.does (D := DriverAnswer) (E := DeviceError) watch_moves watch_may_ask).
Local Abbreviation keeps := (Crew.keeps (D := DriverAnswer) (E := DeviceError) watch_moves watch_may_ask).
Local Abbreviation calm := (Crew.calm watch_quiet).
Local Abbreviation W := (MkWatch true).
Lemma watch_calm_shared {A} (m : action Shared DeviceError A) : calm (Watcher.on_shared m).
Proof. intros s. unfold Watcher.on_shared. by destruct (m _). Qed.
#[local] Hint Resolve watch_calm_shared : calm.
#[local] Hint Extern 0 (watch_may_ask _ _) => done : calm.

(** Entries a tick writes between the begin of a read and the next leave what it knows of the read. *)
Definition keeps_reads (e : WatchEntry) : bool :=
  match e with TickSaw _ | ReadBegan _ | WasRead _ | BecameReady _ => false | _ => true end.
Lemma watch_fact_noted v g fd s s' e : keeps_reads e = true → wa_log s' = wa_log s ++ [e] → wa_generations s' = wa_generations s →
  watch_fact (W v g fd) s → watch_fact (W v g fd) s'.
Proof.
  intros He Hl Hgen (Hv & Hg & Hd). split; [|split].
  - intros Ht. rewrite Hl, watch_view_snoc. specialize (Hv Ht). by destruct e.
  - intros device before Hin. destruct (Hg _ _ Hin) as [_ [Hle Hr]]. split; [done|]. unfold read_fact, Watcher.generation in *.
    rewrite Hgen, Hl, since_snoc. split; [done|]. intros Hb%Hr. by destruct e.
  - intros d r Hr%Hd. rewrite Hl. apply elem_of_app. by left.
Qed.
(** An entry that lowers no row. *)
Lemma watch_sound_noted s s' e : watch_sound s → wa_log s' = wa_log s ++ [e] → watch_justified config (wa_log s) e →
  (∀ d c, wa_counts s' !! d = Some c → (c ≤ absent_in_row d (wa_log s ++ [e]))%Z) → watch_sound s'.
Proof. intros [H1 H2] Hl Hj Hc. split; rewrite Hl; [by apply each_justified_snoc|done]. Qed.
Lemma watch_moves_trans v1 g1 f1 v2 g2 f2 v3 g3 f3 s1 s2 s3 :
  watch_moves (W v1 g1 f1) s1 (W v2 g2 f2) s2 → watch_moves (W v2 g2 f2) s2 (W v3 g3 f3) s3 →
  watch_moves (W v1 g1 f1) s1 (W v3 g3 f3) s3.
Proof.
  intros H1 H2 Hs Hf. destruct (H1 Hs Hf) as (Hs2 & Hf2 & (n1 & Hl1) & _ & Hsh1).
  destruct (H2 Hs2 Hf2) as (Hs3 & Hf3 & (n2 & Hl2) & _ & Hsh2). split; [done|]. split; [done|].
  split; [exists (n1 ++ n2); by rewrite Hl2, Hl1, (assoc_L (++))|]. split; [by left|].
  inversion Hsh1 as [? ? ? E1|]; inversion Hsh2 as [? ? ? E2|]; subst. apply ws_stay. congruence.
Qed.
Lemma watch_moves_noted v g fd fd' s s' e : keeps_reads e = true → wa_log s' = wa_log s ++ [e] →
  wa_generations s' = wa_generations s → wa_timer s' = wa_timer s →
  (watch_fact (W v g fd) s → watch_justified config (wa_log s) e) →
  (watch_sound s → ∀ d c, wa_counts s' !! d = Some c → (c ≤ absent_in_row d (wa_log s ++ [e]))%Z) →
  (fd' = fd ∨ fd' = None ∨ ∃ d r, fd' = Some (d, r) ∧ e = FoundAbsent d r) → watch_moves (W v g fd) s (W v g fd') s'.
Proof.
  intros He Hl Hgen Ht Hj Hc Hfd Hs Hf. split; [by eapply watch_sound_noted; eauto|].
  split; [|split; [by exists [e]|split; [by left|by apply ws_stay]]].
  pose proof (watch_fact_noted v g fd s s' e He Hl Hgen Hf) as (Hv & Hg & Hd). split; [exact Hv|]. split; [exact Hg|].
  cbn in *. intros d r ->.
  destruct Hfd as [<-|[[=]|(d' & r' & [= -> ->] & ->)]]; [by apply Hd|]. rewrite Hl. apply elem_of_app. right. by left.
Qed.
(** Entries that are about no count. *)
Lemma counts_kept s e : watch_sound s → (∀ d n, absent_step d n e = n) →
  ∀ d c, wa_counts s !! d = Some c → (c ≤ absent_in_row d (wa_log s ++ [e]))%Z.
Proof. intros Hs He d c Hc. rewrite absent_snoc, He. by apply Hs. Qed.

Lemma count_moves v g fd device reason before s : (device, before) ∈ g → enrolled_in v device →
  p_state device = ready ∨ p_state device = leased → read_in v device (PhysicalPresence.ReadAbsent reason) →
  let x := Watcher.count_miss config device reason before s in
  ∃ fd', watch_moves (W v g fd) s (W v g fd') x.1 ∧ (x.2 = Ok true → fd' = Some (Watcher.p_id device, reason)) ∧ ∃ b, x.2 = Ok b.
Proof.
  intros Hin Hen Hst Hread. unfold Watcher.count_miss, get, mbind, action_bind. cbv beta iota zeta.
  destruct (Z.eqb_spec before (Watcher.generation s (Watcher.p_id device))) as [Hb|Hb]; cbn [negb]; cycle 1.
  { exists fd. split; [by apply quiet_moves|]. split; [done|by exists false]. }
  set (n := (default 0 (wa_counts s !! Watcher.p_id device) + 1)%Z). set (d := Watcher.p_id device) in *.
  set (s1 := s <| wa_log := wa_log s ++ [CountedMiss device reason] |> <| wa_counts := <[d := n]> (wa_counts s) |>).
  assert (watch_sound s → (n ≤ absent_in_row d (wa_log s ++ [CountedMiss device reason]))%Z) as Hn.
  { intros [_ Hc]. rewrite absent_snoc. cbn. fold d. rewrite bool_decide_eq_true_2 by done. subst n.
    destruct (wa_counts s !! d) as [c|] eqn:E; cbn; [specialize (Hc _ _ E); lia|]. pose proof (absent_nonneg d (wa_log s)). lia. }
  assert (watch_moves (W v g fd) s (W v g fd) s1) as H1.
  { apply (watch_moves_noted _ _ _ _ _ _ (CountedMiss device reason)); try done; [..|by left].
    - intros (Hv & Hg & _). destruct (Hg _ _ Hin) as [_ [_ Hr]]. cbn. rewrite (Hv eq_refl). split_and!; try done. by apply Hr.
    - intros Hs d' c. cbn. rewrite lookup_insert_Some. intros [[<- <-]|[Hne Hc]]; [by apply Hn|].
      rewrite absent_snoc. cbn. fold d. rewrite bool_decide_eq_false_2 by done. by apply Hs. }
  cbn. fold n. fold s1. destruct (Z.ltb_spec n (hc_stableObservations config)) as [Hlt|Hge].
  { exists fd. split; [exact H1|]. split; [done|by exists false]. }
  exists (Some (d, reason)). split; [|split; [done|by exists true]].
  intros Hs Hf. assert (hc_stableObservations config ≤ absent_in_row d (wa_log s1))%Z as Hk by (exact (Z.le_trans _ _ _ Hge (Hn Hs))).
  revert Hs Hf. change (watch_moves (W v g fd) s (W v g (Some (d, reason))) (s1 <| wa_log := wa_log s1 ++ [FoundAbsent d reason] |>)).
  eapply watch_moves_trans; [exact H1|]. apply (watch_moves_noted _ _ _ _ _ _ (FoundAbsent d reason)); try done.
  - intros Hs. exact (counts_kept s1 (FoundAbsent d reason) Hs (λ _ _, eq_refl)).
  - right. right. by exists d, reason.
Qed.

(** ** The flows of a tick *)

(** It goes on as a tick that knows of the same read. *)
Definition at_read v (g : list (PhysicalDevice * Z)) {R} (_ : result DeviceError R) (o : Watch) : Prop := ∃ fd, o = W v g fd.
Definition reads_on v (g : list (PhysicalDevice * Z)) {R} (f : flow_of R) : Prop := ∀ fd, does (W v g fd) f (at_read v g).
Lemma reads_on_bind v g {R R'} (f : flow_of R) (k : R → flow_of R') : reads_on v g f → (∀ a, reads_on v g (k a)) → reads_on v g (f ≫= k).
Proof.
  intros Hf Hk fd. apply does_bind. eapply does_mono; [apply Hf|]. intros [a|e] o [fd' ->]; [apply Hk|by exists fd'].
Qed.
Lemma reads_on_try v g {R} (f : flow_of R) (k : DeviceError → flow_of R) :
  reads_on v g f → (∀ e, reads_on v g (k e)) → reads_on v g (try_catch f k).
Proof.
  intros Hf Hk fd. apply does_try. eapply does_mono; [apply Hf|]. intros [a|e] o [fd' ->]; [by exists fd'|apply Hk].
Qed.
Lemma reads_on_keeps v g {R} (f : flow_of R) : (∀ fd, keeps (W v g fd) f) → reads_on v g f.
Proof. intros Hf fd. apply does_keeps; [apply Hf|]. intros r. by exists fd. Qed.

Section device.
Context (v : WatchView) (g : list (PhysicalDevice * Z)) device (Henrolled : enrolled_in v device).
Lemma reads_on_markAbsent reason :
  does (W v g (Some (Watcher.p_id device, reason))) (Watcher.markAbsent options device reason) (at_read v g).
Proof.
  apply does_bind, does_call; [done|]. intros [a|e]; [|by eexists]. apply does_gate. intros s.
  exists (W v g (Some (Watcher.p_id device, reason))). split; [|by eexists].
  unfold get, mbind, action_bind. cbv beta iota. destruct (_ || _); [by apply quiet_moves|].
  unfold Watcher.on_shared. match goal with |- context [ManagedDevice.on_registry ?m ?h] => destruct (ManagedDevice.on_registry m h) as [h' [d|e]] end;
    cbv beta iota; [|by apply quiet_moves].
  apply (watch_moves_noted _ _ _ _ _ _ (WroteAbsent (Watcher.p_id device))); try done; [..|by left].
  - intros (_ & _ & Hd). exists reason. by apply Hd.
  - intros Hs. exact (counts_kept s (WroteAbsent _) Hs (λ _ _, eq_refl)).
Qed.
Lemma reads_on_missed reason before leaseId : (device, before) ∈ g → p_state device = ready ∨ p_state device = leased →
  read_in v device (PhysicalPresence.ReadAbsent reason) → (∀ k, leaseId = Some k → lease_in v (Watcher.p_id device) k) →
  reads_on v g (Watcher.missed options config device reason before leaseId).
Proof using Henrolled.
  intros Hin Hst Hread Hlease fd. unfold Watcher.missed. apply does_bind, does_gate. intros s.
  destruct (count_moves v g fd device reason before s Hin Henrolled Hst Hread) as (fd' & Hm & Hfd & b & Hb). exists (W v g fd'). split; [done|].
  rewrite Hb. destruct b; cbn [negb]; [|apply does_done; by exists fd']. rewrite (Hfd Hb). case_bool_decide.
  - destruct leaseId as [k|]; [|apply does_done; by eexists]. apply does_bind, does_call; [by split_and!; auto|].
    intros [a|e]; [apply does_done|]; by eexists.
  - apply reads_on_markAbsent.
Qed.
Lemma reads_on_present osVersion : read_in v device (PhysicalPresence.ReadPresent osVersion) →
  reads_on v g (Watcher.present device osVersion).
Proof using Henrolled.
  intros Hread. apply reads_on_bind.
  - intros fd. apply does_gate. intros s. exists (W v g fd). split; [|by exists fd].
    unfold Watcher.see_present, get, mbind, action_bind. cbv beta iota zeta. set (d := Watcher.p_id device).
    set (s1 := s <| wa_log := wa_log s ++ [SawPresent device] |> <| wa_counts := delete d (wa_counts s) |>).
    assert (watch_moves (W v g fd) s (W v g fd) s1) as H1.
    { apply (watch_moves_noted _ _ _ _ _ _ (SawPresent device)); try done; [..|by left].
      - intros (Hv & _). cbn. rewrite (Hv eq_refl). split; [done|]. by exists osVersion.
      - intros Hs d' c. cbn. rewrite lookup_delete_Some.
        intros [Hne Hc]. rewrite absent_snoc. cbn. fold d. rewrite bool_decide_eq_false_2 by done. by apply Hs. }
    cbn. fold d. fold s1. destruct (_ && _); [|exact H1]. eapply watch_moves_trans; [exact H1|].
    apply (watch_moves_noted _ _ _ _ _ _ Kicked); try done; [|by left]. intros Hs. exact (counts_kept s1 Kicked Hs (λ _ _, eq_refl)).
  - intros b. apply reads_on_keeps. intros fd. keep.
Qed.
Lemma reads_on_observe read before leaseId : (device, before) ∈ g → read_in v device read →
  (∀ k, leaseId = Some k → lease_in v (Watcher.p_id device) k) →
  reads_on v g (Watcher.observe options config device read before leaseId).
Proof using Henrolled.
  intros Hin Hread Hlease. destruct read as [o|reason]; cbn [Watcher.observe]; [by apply reads_on_present|].
  case_bool_decide as Hready; [by apply reads_on_missed; auto|]. cbn [orb]. case_bool_decide as Hleased; [by apply reads_on_missed; auto|].
  apply reads_on_keeps. intros fd. unfold Watcher.rewriteReason, Watcher.admitted. keep.
Qed.
End device.
Lemma watch_keeps_disposed o : keeps o Watcher.is_disposed.
Proof. unfold Watcher.is_disposed. keep. Qed.
#[local] Hint Resolve watch_keeps_disposed : calm.
Lemma reads_on_each r g leaseIds reads group (v := (r, Some reads) : WatchView) : (∀ e, e ∈ group → e ∈ g ∧ enrolled_in v e.1) →
  (∀ d k, leaseIds d = Some k → lease_in v d k) →
  reads_on v g (Watcher.observe_each options config leaseIds reads group).
Proof.
  intros Hin Hlease. induction group as [|[device before] group IH]; cbn [Watcher.observe_each]; [apply reads_on_keeps; intros; keep|].
  destruct (Hin (device, before)) as [Hg He]; [by left|].
  apply reads_on_bind.
  { apply reads_on_try; [|intros; apply reads_on_keeps; intros; keep]. apply reads_on_observe; [done|done|by exists reads|by apply Hlease]. }
  intros _. apply reads_on_bind; [apply reads_on_keeps; intros; keep|]. intros []; [apply reads_on_keeps; intros; keep|].
  apply IH. intros e Hel. apply Hin. by right.
Qed.

(** What a tick reads of the registry and of a driver. *)
Lemma watch_moves_viewed v v' g fd s s' e : (∀ d n, absent_step d n e = n) → (∀ d b, since_step d b e = b) →
  (∀ l, watch_justified config l e) → watch_view_step v e = v' → wa_log s' = wa_log s ++ [e] → wa_counts s' = wa_counts s →
  wa_generations s' = wa_generations s → wa_timer s' = wa_timer s → watch_moves (W v g fd) s (W v' g fd) s'.
Proof.
  intros Hno Hsince Hj Hstep Hl Hc Hgen Ht Hs (Hv & Hg & Hd).
  split; [eapply watch_sound_noted; [done..|]; rewrite Hc; exact (counts_kept s e Hs Hno)|].
  split; [|split; [by eexists|split; [by left|by apply ws_stay]]]. split; [|split].
  - intros _. rewrite Hl, watch_view_snoc, (Hv eq_refl). exact Hstep.
  - intros device before Hin. destruct (Hg _ _ Hin) as [_ [Hle Hr]]. split; [done|]. unfold read_fact, Watcher.generation in *.
    rewrite Hgen, Hl, since_snoc, Hsince. by split.
  - intros d r Hr%Hd. rewrite Hl. apply elem_of_app. by left.
Qed.
Lemma does_read v g fd platform group : does (W v g fd) (Watcher.read_presence hasDriver platform group)
  (λ a o, match a with Ok (Some reads) => o = W (v.1, Some reads) g fd | Ok None => o = W v g fd | Err _ => False end).
Proof.
  unfold Watcher.read_presence. apply does_try, does_bind. destruct (hasDriver platform); [apply does_done|by apply does_done, does_done].
  apply does_bind, does_keeps; [by apply (keeps_embed _ _ watch_quiet)|]. intros [reads|e]; [|by apply does_done].
  apply does_bind. eapply (does_section _ _ _ (W (v.1, Some reads) g fd)); [|done|by apply does_done].
  intros s. by apply (watch_moves_viewed _ _ _ _ _ _ (WasRead reads)).
Qed.

(** A read begins: what was known of the one before is forgotten. *)
Lemma does_begin_read v g fd group : does (W v g fd) (gate (Watcher.begin_read group))
  (λ r o, ∃ before, r = Ok before ∧ o = W (v.1, None) before None ∧ ∀ e, e ∈ before → e.1 ∈ group).
Proof.
  apply does_gate. intros s. set (before := (λ d, (d, Watcher.generation s (Watcher.p_id d))) <$> group).
  exists (W (v.1, None) before None). split; [|exists before; split_and!; [done..|]; by intros e (d & -> & Hd)%list_elem_of_fmap].
  intros Hs (Hv & _). assert (∀ d n, absent_step d n (ReadBegan (Watcher.p_id <$> group)) = n) as Hno by done.
  split; [by eapply (watch_sound_noted s _ (ReadBegan (Watcher.p_id <$> group))); [done..|]; exact (counts_kept s _ Hs Hno)|].
  split; [|split; [by eexists|split; [by left|by apply ws_stay]]]. split; [|split; [|done]].
  - intros _. change (watch_view (wa_log s ++ [ReadBegan (Watcher.p_id <$> group)]) = (v.1, None)).
    by rewrite watch_view_snoc, (Hv eq_refl).
  - intros device b [d' [[= -> ->] Hin]]%list_elem_of_fmap. split; [done|]. split; [done|]. intros _.
    change (read_since_ready (Watcher.p_id d') (wa_log s ++ [ReadBegan (Watcher.p_id <$> group)]) = true).
    rewrite since_snoc. cbn. unfold Arr.includes. rewrite bool_decide_eq_true_2; [apply orb_true_r|]. by apply list_elem_of_fmap_2.
Qed.
Definition still_watching {R} (_ : result DeviceError R) (o : Watch) : Prop := ∃ v g fd, o = W v g fd.
Lemma does_platforms r v g fd leaseIds devs ps : v.1 = r → (∀ x w, x ∈ devs → enrolled_in (r, w) x) →
  (∀ d k w, leaseIds d = Some k → lease_in (r, w) d k) →
  does (W v g fd) (Watcher.watch_platforms options hasDriver config leaseIds devs ps) still_watching.
Proof.
  intros Hv Hdevs Hlease. revert v g fd Hv. induction ps as [|p ps IH]; intros v g fd Hv; cbn [Watcher.watch_platforms].
  { apply does_done. by exists v, g, fd. }
  cbv zeta. apply does_bind. eapply does_mono; [apply does_begin_read|]. intros a o (before & -> & -> & Hbefore).
  apply does_bind. eapply does_mono; [apply does_read|]. rewrite Hv. cbn [fst].
  assert (∀ v' g' fd' go, v'.1 = r → does (W v' g' fd')
    (if go : bool then Watcher.watch_platforms options hasDriver config leaseIds devs ps else mret tt) still_watching) as Hgo.
  { intros v' g' fd' [] Hv'; [by apply IH|]. apply does_done. by exists v', g', fd'. }
  intros [[reads|]|e] o Ho; [subst o..|done]; (apply does_bind, does_keeps; [keep|]);
    (intros [[]|e]; [apply does_done; by eexists _, _, _| |by eexists _, _, _]); apply does_bind.
  - eapply does_mono; [apply reads_on_each; [|by auto]|].
    + intros e He. split; [done|]. apply Hdevs. apply Hbefore in He. by apply elem_of_afilter in He as [? _].
    + intros [go|e] o [fd' ->]; [by apply Hgo|by eexists _, _, _].
  - apply does_done. by apply (Hgo _ _ _ true).
Qed.
Definition watch_retired (r : result DeviceError unit) (o : Watch) : Prop := wk_ticks o = false.
Lemma does_arm v g fd : does (W v g fd) (gate (Watcher.arm config)) watch_retired.
Proof.
  apply does_gate. intros s. exists (MkWatch false v [] None). split; [|done].
  unfold Watcher.arm, get, mbind, action_bind. cbv beta iota.
  intros [H1 H2] _. split; [by destruct (wa_disposed s)|]. split; [split; [done|split; [by intros ? ? ?%elem_of_nil|done]]|].
  split; [exists []; rewrite app_nil_r; by destruct (wa_disposed s)|]. split; [by left|apply ws_ticked].
Qed.
Lemma elem_of_enrolled (r : Registry) x : x ∈ Watcher.enrolled r → Physical x ∈ devices r ∧ p_state x ≠ deleted.
Proof.
  unfold Watcher.enrolled. intros ([y|y] & Hy & E)%list_elem_of_omap; [done|]. case_bool_decide; [done|]. by injection E as ->.
Qed.
Lemma lease_ids_in (r : Registry) d k w : Watcher.lease_ids (leases r) d = Some k → lease_in (Some r, w) d k.
Proof.
  unfold Watcher.lease_ids. intros (lease & Hl & ->)%fmap_Some_1. apply last_Some in Hl as [l Hl].
  assert (lease ∈ Arr.filter (on_device d) (leases r)) as [Hin Hd%bool_decide_eq_true]%elem_of_afilter.
  { rewrite Hl. apply elem_of_app. right. by left. }
  by exists r, lease.
Qed.
Lemma does_watch_tick v : does (W v [] None) (Watcher.tick options hasDriver config) watch_retired.
Proof.
  apply does_after, does_bind, does_gate. intros s. exists (W (Some (sh_registry (wa_shared s)), None) [] None). split.
  { by apply (watch_moves_viewed _ _ _ _ _ _ (TickSaw (sh_registry (wa_shared s)))). }
  cbv beta iota delta [mbind action_bind get mret action_ret Watcher.note Watcher.forget modify snd fst].
  eapply does_mono; [apply (does_platforms (Some (sh_registry (wa_shared s)))); [done|..]|].
  - intros x w [Hx Hs]%elem_of_enrolled. by exists (sh_registry (wa_shared s)).
  - intros d k w. apply lease_ids_in.
  - intros r o (v' & g & fd & ->). apply does_arm.
Qed.

(** ** The watcher at work *)

Inductive watch_step : list (flow_of unit) * Watching → list (flow_of unit) * Watching → Prop :=
| watch_ticks fs s due : wa_timer s = Some due → (due ≤ sh_now (wa_shared s))%Z →
    watch_step (fs, s) (fs ++ [Watcher.tick options hasDriver config], Watcher.tick_fired s)
| watch_section fs s (i : nat) section next : fs !! i = Some (Gate section next) →
    watch_step (fs, s) (<[i := next s]> fs, section s)
| watch_answer fs s (i : nat) c next a : fs !! i = Some (Call c next) → watch_step (fs, s) (<[i := next a]> fs, s)
| watch_reset fs s d : watch_step (fs, s) (fs, (Watcher.reset d s).1)
| watch_interrupted fs s : watch_step (fs, s) (fs, (Watcher.recordInterrupted s).1)
| watch_dispose fs s : watch_step (fs, s) (fs, (Watcher.dispose s).1)
| watch_elsewhere fs s h : watch_step (fs, s) (fs, s <| wa_shared := h |>).
Definition fresh_watcher (shared : Shared) : Watching := MkWatching shared ∅ ∅ [] None false [].
Definition watch_reachable (fs : list (flow_of unit)) s : Prop :=
  ∃ shared, rtc watch_step ([], (Watcher.start config (fresh_watcher shared)).1) (fs, s).
Definition watch_ok : list (flow_of unit) → Watching → Prop := crew_ok watch_moves watch_may_ask watch_retired watch_joint.

Lemma watch_joint_quiet os s s' : watch_joint os s → watch_quiet s s' → watch_joint os s'.
Proof.
  intros [H1 H2 H3] Hq. pose proof Hq as (_ & _ & _ & Et). split; [by eapply watch_sound_quiet| |unfold watch_armed; by rewrite Et].
  intros o Ho. by apply (watch_fact_quiet o s), H2.
Qed.
(** A device that becomes ready takes what was known of a read of it away, and its generation says so. *)
Lemma watch_joint_reset os s d : watch_joint os s → watch_joint os (Watcher.reset d s).1.
Proof.
  intros [[H1 H2] Hf Ht]. split; [|..|done].
  - split; [by apply each_justified_snoc|]. intros d' c. cbn -[absent_in_row]. rewrite lookup_delete_Some, absent_snoc. cbn.
    intros [Hne Hc]. rewrite bool_decide_eq_false_2 by done. by apply H2.
  - intros o Ho. destruct (Hf o Ho) as (Hv & Hg & Hd). split; [intros Ht2; cbn -[watch_view]; by rewrite watch_view_snoc; apply Hv|].
    split; [|intros d' r Hr%Hd; apply elem_of_app; by left].
    intros device before Hin. destruct (Hg _ _ Hin) as [Ht2 [Hle Hr]]. split; [done|].
    unfold read_fact, Watcher.generation in *. cbn -[read_since_ready]. rewrite since_snoc. cbn.
    destruct (decide (d = Watcher.p_id device)) as [->|Hne].
    + rewrite lookup_insert_eq. cbn. unfold Watcher.generation. split; [lia|]. intros Heq. exfalso. lia.
    + rewrite lookup_insert_ne, bool_decide_eq_false_2 by done. by split.
Qed.
Lemma watch_step_ok fs s fs' s' : watch_ok fs s → watch_step (fs, s) (fs', s') → watch_ok fs' s'.
Proof.
  intros Hok Hstep. inversion Hstep as [? ? due Ht Hdue|? ? i section next Hi|? ? i c next a Hi| | | |]; subst.
  - destruct Hok as (os & Hfs & [[S1 S2] H2 H3]).
    apply (crew_joins _ _ _ _ watch_joint_perm _ os _ (W (watch_view (wa_log s)) [] None)); [done|..].
    + apply thread_does, does_watch_tick.
    + split; [by split|..].
      * intros o [->|Ho]%elem_of_cons; [split; [done|split; [by intros ? ? ?%elem_of_nil|done]]|]. by apply H2.
      * unfold watch_armed in *. rewrite Ht in H3. cbn in *. lia.
  - by apply (crew_section _ _ _ _ watch_joint_perm watch_joint_moves).
  - by eapply crew_answer.
  - eapply crew_elsewhere; [done|]. intros os. apply watch_joint_reset.
  - eapply crew_elsewhere; [done|]. intros os HJ. by eapply watch_joint_quiet.
  - eapply crew_elsewhere; [done|]. intros os [[S1 S2] H2 H3]. split; [by split|done|]. cbn. lia.
  - eapply crew_elsewhere; [done|]. intros os HJ. by eapply watch_joint_quiet.
Qed.
Lemma watch_steps_ok x y : rtc watch_step x y → watch_ok x.1 x.2 → watch_ok y.1 y.2.
Proof. induction 1 as [|[f1 s1] [f2 s2] z Hst _ IH]; [done|]. intros Hok. apply IH. by eapply watch_step_ok. Qed.
Lemma watch_reachable_ok fs s : watch_reachable fs s → watch_ok fs s.
Proof.
  intros (shared & Hsteps). apply (watch_steps_ok _ _ Hsteps). exists []. split; [constructor|]. cbn [fst snd].
  split; [split; [apply each_justified_nil|done]|by intros o ?%elem_of_nil|exact (le_n 1)].
Qed.

(** C15. No physical device is found absent, and no lease on one ended, without cause. In any run of
    the watcher's ticks, with devices becoming ready at any moment, every entry of its log has its
    reason in what came before: a read counts against a device only if the registry, as the tick read
    it, had the device enrolled and ready or leased, the driver's answer to that read does not have it
    there, and the read began after the device last became ready; a device counts as seen there only
    when the answer has it; a device is found absent only when as many reads as are asked for counted
    against it in a row, with none between that saw it there; and its record is written as absent only
    then. A lease is ended for an absent device only when the registry, as the tick read it, had that
    lease on that device, and the device was found absent for the reason that is given. *)
Theorem watcher_acts_for_cause fs s : watch_reachable fs s →
  all_watched config (wa_log s)
  ∧ ∀ (i : nat) d leaseId reason next, fs !! i = Some (Call (EndForAbsent d leaseId reason) next) →
      FoundAbsent d reason ∈ wa_log s ∧ lease_in (watch_view (wa_log s)) d leaseId.
Proof.
  intros (os & Hfs & HJ)%watch_reachable_ok. split; [apply HJ|]. intros i d leaseId reason next Hi.
  destruct (crew_call _ _ _ _ _ _ _ _ _ _ Hfs HJ Hi) as (o & Ho & Ht & Hfd & Hl).
  destruct (wj_facts _ _ HJ o (list_elem_of_lookup_2 _ _ _ Ho)) as (Hv & _ & Hd). split; [by apply Hd|]. by rewrite (Hv Ht).
Qed.
End inv.

(** ** A run on a registry with one leased phone *)

Inductive WatchTurn := WatchFires | WatchSection (i : nat) | WatchAnswers (i : nat) (a : DriverAnswer) | WatchTimeIs (t : Z).
Section play.
Context (options : RegistryOptions) (hasDriver : Platform → bool) (config : HealthConfig).
Local Abbreviation flow_of R := (flow Watching WatchCall DriverAnswer DeviceError R).
Definition watch_turn (t : WatchTurn) (x : list (flow_of unit) * Watching) : option (list (flow_of unit) * Watching) :=
  let '(fs, s) := x in
  match t with
  | WatchFires =>
      match wa_timer s with
      | Some due => if (due <=? sh_now (wa_shared s))%Z
                    then Some (fs ++ [Watcher.tick options hasDriver config], Watcher.tick_fired s) else None
      | None => None
      end
  | WatchSection i => match fs !! i with Some (Gate section next) => Some (<[i := next s]> fs, section s) | _ => None end
  | WatchAnswers i a => match fs !! i with Some (Call _ next) => Some (<[i := next (Ok a)]> fs, s) | _ => None end
  | WatchTimeIs t => Some (fs, s <| wa_shared := (wa_shared s) <| sh_now := t |> |>)
  end.
Lemma watch_turn_step t x y : watch_turn t x = Some y → watch_step options hasDriver config x y.
Proof.
  destruct x as [fs s], t as [|i|i a|t]; cbn.
  - destruct (wa_timer s) as [due|] eqn:E; [|done]. destruct (Z.leb_spec due (sh_now (wa_shared s))); [|done]. intros [= <-].
    by eapply watch_ticks.
  - destruct (fs !! i) as [[r|sec next|c next]|] eqn:E; try done. intros [= <-]. by constructor.
  - destruct (fs !! i) as [[r|sec next|c next]|] eqn:E; try done. intros [= <-]. by eapply watch_answer.
  - intros [= <-]. apply watch_elsewhere.
Qed.
End play.

Definition phone_registry : Registry := run_commands sample_options
  [(1%Z, CEnroll "1" (MkEnroll ios "udid-9" "iPhone 16" "26.5" physical_phone []));
   (3%Z, CCreateLease "1" (MkCreateLease "dev_1" "agent" "owner" 100 103 None None None))] empty_registry.
Definition phone_shared : Shared :=
  MkShared phone_registry no_claims 4 empty_coordinator [] [] [] [] ∅ false ∅ [] nothing_acquired.
Definition watch_config : HealthConfig := MkHealthConfig true 30000 2 3 5000 1.
Definition nothing_there : DriverAnswer :=
  MkAnswer (MkDriverDevice "" (Opaque "{}") "" None None) (MkReclaimResult ready strategy_erase None) [] (MkSaved "" None None).
Definition sample_watch_play (ts : list WatchTurn) :=
  play (watch_turn sample_options (λ _, true) watch_config) ts ([], (Watcher.start watch_config (fresh_watcher phone_shared)).1).
Definition watch_tick_at (t : Z) (i : nat) : list WatchTurn :=
  [WatchTimeIs t; WatchFires; WatchSection i; WatchSection i; WatchAnswers i nothing_there; WatchSection i; WatchSection i; WatchSection i].
Lemma sample_watch_reach ts fs s : sample_watch_play ts = Some (fs, s) →
  watch_reachable sample_options (λ _, true) watch_config fs s.
Proof. intros Hp. exists phone_shared. by eapply (play_steps _ _ (watch_turn_step _ _ _)). Qed.

(** A leased phone that two readings in a row do not find. *)
Definition two_missed : list WatchTurn :=
  watch_tick_at 30010 0 ++ [WatchSection 0; WatchSection 0; WatchSection 0] ++ watch_tick_at 60020 1 ++ [WatchSection 1].
Lemma watcher_acts_for_cause_witness :
  ∃ fs s, sample_watch_play two_missed = Some (fs, s) ∧ FoundAbsent "dev_1" not_present ∈ wa_log s.
Proof.
  assert (call_at (sample_watch_play two_missed) 1 = Some (EndForAbsent "dev_1" "lse_1" not_present)) as Hc by (by vm_compute).
  destruct (call_at_Some _ _ _ Hc) as (fs & s & next & Hp & Hi). exists fs, s. split; [done|].
  apply (proj2 (watcher_acts_for_cause sample_options (λ _, true) watch_config fs s (sample_watch_reach _ _ _ Hp))
    1 "dev_1" "lse_1" not_present next Hi).
Defined.
