(* ===== verification/Text.v ===== *)
(** * Texts the program sends: [src/contract/device-schemas.ts], [src/contract/status-schemas.ts]
    and [src/cli/csv.ts]

    Free text is a sequence of UTF-16 code units, as in the language. A text is cleaned of control
    characters, cut to what the contract's schema takes without splitting a surrogate pair, and,
    in a spreadsheet, quoted and kept from being read as a formula. *)
From stdpp Require Import base strings list option numbers sets.
From S2P Require Import Prelude JsString Domain.

Definition text := list N.
Implicit Types (t : text) (u : N).

Definition between (lo hi u : N) : bool := (lo <=? u)%N && (u <=? hi)%N.

(** [\p{Cc}], and [CONTROL_CHARACTERS] with the two line separators. *)
Definition is_Cc u : bool := (u <=? 0x1f)%N || between 0x7f 0x9f u.
Definition is_control u : bool := is_Cc u || (u =? 0x2028)%N || (u =? 0x2029)%N.
(** The white space of [trim] and of [\s]. *)
Definition is_white u : bool :=
  between 9 13 u || (u =? 0x20)%N || (u =? 0xa0)%N || (u =? 0x1680)%N || between 0x2000 0x200a u
  || (u =? 0x2028)%N || (u =? 0x2029)%N || (u =? 0x202f)%N || (u =? 0x205f)%N || (u =? 0x3000)%N
  || (u =? 0xfeff)%N.
Definition is_high u : bool := between 0xd800 0xdbff u.
Definition is_low u : bool := between 0xdc00 0xdfff u.

(** [text.replace(CONTROL_CHARACTERS, " ")] *)
Definition clean t : text := (λ u, if is_control u then 0x20%N else u) <$> t.
Fixpoint trimStart t : text :=
  match t with [] => [] | u :: rest => if is_white u then trimStart rest else t end.
Definition trim t : text := reverse (trimStart (reverse (trimStart t))).

(** [cut] without its last unit when that is the first half of a surrogate pair. *)
Definition drop_half (cut : text) : text :=
  match list.last cut with
  | Some u => if is_high u then take (length cut - 1) cut else cut
  | None => cut
  end.

Definition ellipsis : N := 0x2026.
(** Every caller's [max] is a positive constant. *)
Definition boundDriverSummary t (max : nat) : text :=
  if length t <=? max then t else drop_half (take (max - 1) t) ++ [ellipsis].

Definition QUARANTINE_MESSAGE_MAX : nat := 300.
Definition quarantineCauseMessage t : option text :=
  match trim (clean t) with
  | [] => None
  | cleaned =>
      if length cleaned <=? QUARANTINE_MESSAGE_MAX then Some cleaned
      else Some (boundDriverSummary cleaned QUARANTINE_MESSAGE_MAX)
  end.

Definition CAPABILITY_REASON_MAX : nat := 500.
Definition unknown_text : text := [117; 110; 107; 110; 111; 119; 110]%N.
Definition capabilityReason t : text :=
  match drop_half (take CAPABILITY_REASON_MAX (trim (clean t))) with
  | [] => unknown_text
  | cut => cut
  end.

(** [driverUnavailableFindings] of [src/core/doctor.ts]: a driver's summary and the remedy. *)
Definition DRIVER_DETAIL_MAX : nat := 1000.
Definition unavailable_detail (remedy : text) (summary : text) : text :=
  boundDriverSummary summary (DRIVER_DETAIL_MAX - length remedy - 2) ++ [0x2e; 0x20]%N ++ remedy.

(** [quarantineCauseSchema]. *)
Definition message_fits (max : nat) t : bool :=
  (1 <=? length t) && (length t <=? max) && forallb (λ u, negb (is_control u)) t.
Definition cause_fits (kind : CauseKind) (stalledState : option DeviceState) (message : option text) : bool :=
  match message with Some t => message_fits QUARANTINE_MESSAGE_MAX t | None => true end
  && (if kind === stalled then (stalledState !== None) && (message === None) else stalledState === None)
  && match stalledState with Some st => (st === provisioning) || (st === reclaiming) | None => true end.

(** ** Texts that are valid Unicode *)

Fixpoint well_formed t : bool :=
  match t with
  | [] => true
  | u :: rest =>
      if is_high u then match rest with v :: rest => is_low v && well_formed rest | [] => false end
      else negb (is_low u) && well_formed rest
  end.

Lemma text_ind (P : text → Prop) : P [] → (∀ u, P [u]) →
  (∀ u v t, P t → P (v :: t) → P (u :: v :: t)) → ∀ t, P t.
Proof.
  intros H0 H1 H2 t. enough (P t ∧ ∀ u, P (u :: t)) by tauto.
  induction t as [|v t [IH1 IH2]]; split; auto.
Qed.

Definition plain u : bool := negb (is_high u) && negb (is_low u).
Lemma plain_range u : plain u = true ↔ (u < 0xd800 ∨ 0xdfff < u)%N.
Proof.
  unfold plain, is_high, is_low, between. rewrite andb_true_iff, !negb_true_iff, !andb_false_iff, !N.leb_gt. lia.
Qed.
Lemma well_formed_plain u t : plain u = true → well_formed (u :: t) = well_formed t.
Proof.
  unfold plain. rewrite andb_true_iff, !negb_true_iff. intros [Hh Hl]. cbn. by rewrite Hh, Hl.
Qed.
Lemma white_plain u : is_white u = true → plain u = true.
Proof.
  rewrite plain_range. unfold is_white, between. rewrite !orb_true_iff, !andb_true_iff, !N.leb_le, !N.eqb_eq. lia.
Qed.
Lemma control_plain u : is_control u = true → plain u = true.
Proof.
  rewrite plain_range. unfold is_control, is_Cc, between. rewrite !orb_true_iff, !andb_true_iff, !N.leb_le, !N.eqb_eq. lia.
Qed.

Lemma well_formed_app t1 t2 : well_formed t1 = true → well_formed (t1 ++ t2) = well_formed t2.
Proof.
  induction t1 as [|u|u v t1 IH1 IH2] using text_ind; cbn -[well_formed] in *; [done|..].
  - cbn. destruct (is_high u); [done|]. rewrite andb_true_r. by intros ->.
  - intros Hw. cbn in Hw |- *. destruct (is_high u).
    + apply andb_true_iff in Hw as [-> Hw]. cbn. by apply IH1.
    + apply andb_true_iff in Hw as [-> Hw]. cbn [andb]. by apply IH2.
Qed.
Lemma well_formed_snoc t u : plain u = true → well_formed (t ++ [u]) = true → well_formed t = true.
Proof.
  intros Hp. induction t as [|v|v w t IH1 IH2] using text_ind; cbn -[well_formed] in *; [done|..].
  - cbn. destruct (is_high v) eqn:Ev.
    + unfold plain in Hp. apply andb_true_iff in Hp as [_ Hl%negb_true_iff]. by rewrite Hl.
    + destruct (is_low v); [done|]. done.
  - intros Hw. cbn in Hw |- *. destruct (is_high v).
    + apply andb_true_iff in Hw as [-> Hw]. by apply IH1.
    + apply andb_true_iff in Hw as [-> Hw]. by apply IH2.
Qed.

Lemma drop_half_cons u v t : drop_half (u :: v :: t) = u :: drop_half (v :: t).
Proof.
  unfold drop_half. cbn [list.last]. destruct (list.last (v :: t)) as [w|]; [destruct (is_high w)|]; [|done..].
  cbn [length]. replace (S (S (length t)) - 1) with (S (S (length t) - 1)) by lia. done.
Qed.

(** A prefix of valid text is valid, or ends in the first half of a pair and is valid without it. *)
Lemma well_formed_take n t : well_formed t = true → well_formed (drop_half (take n t)) = true.
Proof.
  revert n. induction t as [|u|u v t IH1 IH2] using text_ind; intros n Hw.
  - by rewrite take_nil.
  - destruct n as [|n]; [done|]. rewrite firstn_cons, take_nil. unfold drop_half. cbn [list.last]. cbn in Hw.
    destruct (is_high u) eqn:E; [done|]. cbn. rewrite E. done.
  - destruct n as [|n]; [done|]. rewrite firstn_cons. cbn in Hw. destruct (is_high u) eqn:Eu.
    + apply andb_true_iff in Hw as [Hv Hw]. destruct n as [|n].
      { unfold drop_half. cbn. by rewrite Eu. }
      rewrite firstn_cons, drop_half_cons. specialize (IH1 n Hw). destruct (take n t) as [|x y].
      * assert (is_high v = false) as Ev.
        { unfold is_high, is_low, between in *. rewrite andb_true_iff, !N.leb_le in Hv.
          apply andb_false_iff. rewrite !N.leb_gt. lia. }
        unfold drop_half. cbn [list.last]. rewrite Ev. cbn. by rewrite Eu, Hv.
      * rewrite drop_half_cons. cbn. rewrite Eu, Hv. exact IH1.
    + apply andb_true_iff in Hw as [Hu Hw]. specialize (IH2 n Hw).
      assert (plain u = true) as Hp by (unfold plain; by rewrite Eu, Hu).
      destruct n as [|n].
      { unfold drop_half. cbn. rewrite Eu. cbn. by rewrite Eu, Hu. }
      rewrite firstn_cons in *. by rewrite drop_half_cons, well_formed_plain.
Qed.

Lemma drop_half_length t : length (drop_half t) ≤ length t.
Proof.
  unfold drop_half. destruct (list.last t) as [u|]; [|done]. destruct (is_high u); [|done].
  rewrite length_take. lia.
Qed.
Lemma take_incl n t u : u ∈ take n t → u ∈ t.
Proof. intros H. rewrite <- (take_drop n t). set_solver. Qed.
Lemma drop_half_incl t u : u ∈ drop_half t → u ∈ t.
Proof.
  unfold drop_half. destruct (list.last t) as [w|]; [|done]. destruct (is_high w); [|done].
  apply take_incl.
Qed.

Lemma trimStart_suffix t : ∃ k, t = k ++ trimStart t ∧ Forall (λ u, is_white u = true) k.
Proof.
  induction t as [|u t (k & IH & Hk)]; [by exists []|]. cbn. destruct (is_white u) eqn:E.
  - exists (u :: k). cbn. split; [by rewrite <- IH|by constructor].
  - by exists [].
Qed.
Lemma well_formed_trimStart t : well_formed t = true → well_formed (trimStart t) = true.
Proof.
  induction t as [|u t IH]; [done|]. cbn [trimStart]. destruct (is_white u) eqn:E; [|done].
  rewrite well_formed_plain by (by apply white_plain). exact IH.
Qed.
Lemma trim_infix t : ∃ a b, t = a ++ trim t ++ b ∧ Forall (λ u, is_white u = true) b.
Proof.
  destruct (trimStart_suffix t) as (a & Ha & _). unfold trim.
  destruct (trimStart_suffix (reverse (trimStart t))) as (b & Hb & Hw).
  exists a, (reverse b). split; [|by apply Forall_reverse].
  rewrite Ha at 1. f_equal. rewrite <- (reverse_involutive (trimStart t)) at 1. rewrite Hb at 1.
  by rewrite reverse_app.
Qed.
Lemma well_formed_strip t b : Forall (λ u, is_white u = true) b → well_formed (t ++ b) = true → well_formed t = true.
Proof.
  revert t. induction b as [|u b IH]; intros t Hb; [by rewrite app_nil_r|]. inversion_clear Hb as [|?? Hu Hb'].
  rewrite (cons_middle u t b), app_assoc. intros Hw%IH; [|done]. eapply well_formed_snoc; [by apply white_plain|done].
Qed.
Lemma well_formed_trim t : well_formed t = true → well_formed (trim t) = true.
Proof.
  intros Hw%well_formed_trimStart. unfold trim.
  destruct (trimStart_suffix (reverse (trimStart t))) as (b & Hb & Hwhite).
  apply (well_formed_strip _ (reverse b)); [by apply Forall_reverse|].
  rewrite <- reverse_app, <- Hb. by rewrite reverse_involutive.
Qed.
Lemma well_formed_clean t : well_formed t = true → well_formed (clean t) = true.
Proof.
  assert (∀ u, is_high (if is_control u then 0x20%N else u) = is_high u
    ∧ is_low (if is_control u then 0x20%N else u) = is_low u) as Hsame.
  { intros u. destruct (is_control u) eqn:E; [|done]. apply control_plain in E. unfold plain in E.
    rewrite andb_true_iff, !negb_true_iff in E. destruct E as [-> ->]. done. }
  induction t as [|u|u v t IH1 IH2] using text_ind; [done|..]; cbn; destruct (Hsame u) as [-> ->]; [done|].
  destruct (is_high u).
  - destruct (Hsame v) as [_ ->]. rewrite !andb_true_iff. intros [? ?]. auto.
  - rewrite !andb_true_iff. intros [? Hw]. split; [done|]. by apply IH2.
Qed.

(** ** What is sent fits the schema *)

Lemma clean_controls t u : u ∈ clean t → is_control u = false.
Proof.
  unfold clean. intros (v & -> & _)%list_elem_of_fmap. by destruct (is_control v) eqn:E.
Qed.
Lemma trim_incl t u : u ∈ trim t → u ∈ t.
Proof. destruct (trim_infix t) as (a & b & E & _). intros H. rewrite E. set_solver. Qed.
Lemma cleaned_controls t u : u ∈ trim (clean t) → is_control u = false.
Proof. intros H%trim_incl. by eapply clean_controls. Qed.

Lemma no_controls t : (∀ u, u ∈ t → is_control u = false) → forallb (λ u, negb (is_control u)) t = true.
Proof. intros H. apply forallb_forall. intros u Hu%list_elem_of_In. by rewrite H. Qed.

Lemma bound_length t max : 1 ≤ max → length (boundDriverSummary t max) ≤ max.
Proof.
  intros Hm. unfold boundDriverSummary. destruct (_ <=? _) eqn:E; [by apply Nat.leb_le|]. apply Nat.leb_gt in E.
  rewrite length_app. pose proof (drop_half_length (take (max - 1) t)) as H. rewrite length_take in H. cbn. lia.
Qed.
Lemma bound_controls t max u : (∀ u, u ∈ t → is_control u = false) → u ∈ boundDriverSummary t max →
  is_control u = false.
Proof.
  intros Ht. unfold boundDriverSummary. destruct (_ <=? _); [apply Ht|].
  intros [Hu%drop_half_incl%take_incl| ->%list_elem_of_singleton]%elem_of_app; [by apply Ht|done].
Qed.
Lemma bound_well_formed t max : well_formed t = true → well_formed (boundDriverSummary t max) = true.
Proof.
  intros Hw. unfold boundDriverSummary. destruct (_ <=? _); [done|].
  rewrite well_formed_app by (by apply well_formed_take). done.
Qed.

Lemma message_sent t m : quarantineCauseMessage t = Some m → message_fits QUARANTINE_MESSAGE_MAX m = true.
Proof.
  unfold quarantineCauseMessage. pose proof (cleaned_controls t) as Hc. destruct (trim (clean t)) as [|u c] eqn:E; [done|].
  unfold message_fits. destruct (length (u :: c) <=? _) eqn:El; intros [= <-].
  - rewrite El, no_controls by done. done.
  - rewrite no_controls by (intros w Hw; by eapply bound_controls).
    pose proof (bound_length (u :: c) QUARANTINE_MESSAGE_MAX) as Hl. unfold QUARANTINE_MESSAGE_MAX in *.
    rewrite (proj2 (Nat.leb_le _ _)), (proj2 (Nat.leb_le _ 300)); [done|lia|].
    unfold boundDriverSummary. rewrite El, length_app. cbn. lia.
Qed.

(** A text that was cut: all of it that fits before the mark, but for half a character. *)
Definition shortened (max : nat) t t' : Prop :=
  ∃ n, max - 2 ≤ n ∧ n ≤ max - 1 ∧ n < length t ∧ t' = take n t ++ [ellipsis].
Lemma bound_shortens t max : 2 ≤ max → max < length t → shortened max t (boundDriverSummary t max).
Proof.
  intros Hmax Hlong. unfold boundDriverSummary. rewrite (proj2 (Nat.leb_gt _ _)) by done. unfold drop_half.
  destruct (list.last _) as [u|]; [destruct (is_high u)|].
  - exists (max - 2). split_and!; [lia..|]. rewrite length_take, take_take. do 2 f_equal. lia.
  - exists (max - 1). split_and!; (lia || done).
  - exists (max - 1). split_and!; (lia || done).
Qed.

(** C38. What is made of a driver's words fits the contract, whatever text they are.
    [quarantineCauseMessage] gives no message exactly when nothing but control characters and white
    space was written; a message it gives has 1 to 300 units and no control character, so it fits
    the schema of a quarantine cause of every kind that may carry one, and it is the cleaned text
    whole when that has at most 300 units, and else as much of its beginning as fits before an
    ellipsis, but for half a character. A capability's reason has 1 to 500 units and no control
    character. A driver's finding stays within the detail's limit and ends in its remedy, whole.
    And a text that is valid Unicode is never cut in the middle of a character. *)
Theorem texts_fit_schema t :
  match quarantineCauseMessage t with
  | None => trim (clean t) = []
  | Some m => trim (clean t) ≠ []
      ∧ (∀ kind, kind ≠ stalled → cause_fits kind None (Some m) = true)
      ∧ (length (trim (clean t)) ≤ QUARANTINE_MESSAGE_MAX ∧ m = trim (clean t)
         ∨ QUARANTINE_MESSAGE_MAX < length (trim (clean t)) ∧ shortened QUARANTINE_MESSAGE_MAX (trim (clean t)) m)
      ∧ (well_formed t = true → well_formed m = true)
  end
  ∧ message_fits CAPABILITY_REASON_MAX (capabilityReason t) = true
  ∧ (∀ remedy, length remedy + 4 ≤ DRIVER_DETAIL_MAX →
       length (unavailable_detail remedy t) ≤ DRIVER_DETAIL_MAX
       ∧ ∃ summary, unavailable_detail remedy t = summary ++ [0x2e; 0x20]%N ++ remedy
           ∧ (summary = t ∨ shortened (DRIVER_DETAIL_MAX - length remedy - 2) t summary))
  ∧ (well_formed t = true → well_formed (capabilityReason t) = true
       ∧ ∀ max, well_formed (boundDriverSummary t max) = true).
Proof.
  split_and!.
  - pose proof (message_sent t) as Hsent. pose proof (well_formed_trim (clean t)) as Hwf.
    unfold quarantineCauseMessage in *. destruct (trim (clean t)) as [|u c] eqn:E; [done|].
    assert (∀ m, message_fits QUARANTINE_MESSAGE_MAX m = true → ∀ kind, kind ≠ stalled → cause_fits kind None (Some m) = true) as Hfits.
    { intros m Hm kind Hk. unfold cause_fits. rewrite (bool_decide_eq_false_2 (kind = stalled)) by done. by rewrite Hm. }
    destruct (length (u :: c) <=? QUARANTINE_MESSAGE_MAX) eqn:El; (split_and!; [done|by apply Hfits, Hsent|..]).
    + left. split; [by apply Nat.leb_le|done].
    + intros Hw. by apply Hwf, well_formed_clean.
    + apply Nat.leb_gt in El. right. split; [done|]. apply bound_shortens; [unfold QUARANTINE_MESSAGE_MAX; lia|done].
    + intros Hw. by apply bound_well_formed, Hwf, well_formed_clean.
  - unfold capabilityReason. pose proof (cleaned_controls t) as Hc.
    pose proof (drop_half_length (take CAPABILITY_REASON_MAX (trim (clean t)))) as Hl. rewrite length_take in Hl.
    destruct (drop_half _) as [|u c] eqn:E; [done|]. unfold message_fits. rewrite no_controls.
    + rewrite (proj2 (Nat.leb_le _ CAPABILITY_REASON_MAX)) by lia. done.
    + intros w Hw. rewrite <- E in Hw. apply drop_half_incl, take_incl in Hw. by apply Hc.
  - intros remedy Hr. unfold unavailable_detail. rewrite !length_app. cbn [length].
    pose proof (bound_length t (DRIVER_DETAIL_MAX - length remedy - 2)). split; [lia|]. eexists. split; [done|].
    destruct (decide (length t ≤ DRIVER_DETAIL_MAX - length remedy - 2)) as [Hle|Hgt].
    + left. unfold boundDriverSummary. by rewrite (proj2 (Nat.leb_le _ _)).
    + right. apply bound_shortens; lia.
  - intros Hw0. pose proof (well_formed_trim _ (well_formed_clean _ Hw0)) as Hw. split.
    + unfold capabilityReason. pose proof (well_formed_take CAPABILITY_REASON_MAX _ Hw) as Hc. by destruct (drop_half _).
    + intros max. by apply bound_well_formed.
Qed.

(** ** The ledger as a spreadsheet: [src/cli/csv.ts] *)

Definition quote_unit : N := 34.
Definition comma : N := 44.
Definition CR : N := 13.
Definition LF : N := 10.

(** [/^[\p{Cc}\s]*[=+\-@]/u] *)
Definition is_formula u : bool := (u =? 61)%N || (u =? 43)%N || (u =? 45)%N || (u =? 64)%N.
Fixpoint starts_formula t : bool :=
  match t with
  | [] => false
  | u :: rest => is_formula u || ((is_Cc u || is_white u) && starts_formula rest)
  end.
Definition safe_text t : text := if starts_formula t then 39%N :: t else t.
(** A quote, a comma or a line break. *)
Definition is_special u : bool := (u =? quote_unit)%N || (u =? comma)%N || (u =? CR)%N || (u =? LF)%N.
Definition double_quotes t : text :=
  t ≫= λ u, if (u =? quote_unit)%N then [quote_unit; quote_unit] else [u].
Definition cell t : text :=
  let safe := safe_text t in
  if existsb is_special safe then quote_unit :: double_quotes safe ++ [quote_unit] else safe.

Fixpoint join_cells (cells : list text) : text :=
  match cells with [] => [] | [c] => c | c :: cells => c ++ comma :: join_cells cells end.
Definition csv_row (cells : list text) : text := join_cells (cell <$> cells) ++ [CR; LF].
(** The header's names need no quotes; [rows] is the text of each entry's cells. *)
Definition ledgerCsv (columns : list text) (rows : list (list text)) : text :=
  (join_cells columns ++ [CR; LF]) ++ concat (csv_row <$> rows).

(** A reader of the format (RFC 4180), one unit at a time. *)
Inductive ReaderMode := AtStart | InPlain | InQuoted | AfterQuote | AfterCR.
Record Reader := MkReader {
  rd_rows : list (list text); rd_row : list text; rd_field : text; rd_mode : ReaderMode }.
Definition end_field (r : Reader) : Reader :=
  MkReader (rd_rows r) (rd_row r ++ [rd_field r]) [] AtStart.
Definition add_unit u (m : ReaderMode) (r : Reader) : Reader :=
  MkReader (rd_rows r) (rd_row r) (rd_field r ++ [u]) m.
Definition with_mode (m : ReaderMode) (r : Reader) : Reader :=
  MkReader (rd_rows r) (rd_row r) (rd_field r) m.
Definition read_unit (r : Reader) u : Reader :=
  match rd_mode r with
  | AtStart =>
      if (u =? quote_unit)%N then with_mode InQuoted r
      else if (u =? comma)%N then end_field r
      else if (u =? CR)%N then with_mode AfterCR r
      else add_unit u InPlain r
  | InPlain =>
      if (u =? comma)%N then end_field r
      else if (u =? CR)%N then with_mode AfterCR r
      else add_unit u InPlain r
  | InQuoted => if (u =? quote_unit)%N then with_mode AfterQuote r else add_unit u InQuoted r
  | AfterQuote =>
      if (u =? quote_unit)%N then add_unit quote_unit InQuoted r
      else if (u =? comma)%N then end_field r
      else if (u =? CR)%N then with_mode AfterCR r
      else add_unit u InPlain r
  | AfterCR =>
      if (u =? LF)%N then MkReader (rd_rows r ++ [rd_row r ++ [rd_field r]]) [] [] AtStart
      else add_unit u InPlain r
  end.
Definition read_csv t : list (list text) := rd_rows (fold_left read_unit t (MkReader [] [] [] AtStart)).

(** After a cell the field is whole, and the next separator ends it. *)
Definition field_read (r : Reader) (rows : list (list text)) (row : list text) (field : text) : Prop :=
  rd_rows r = rows ∧ rd_row r = row ∧ rd_field r = field ∧ (rd_mode r = AtStart ∨ rd_mode r = InPlain ∨ rd_mode r = AfterQuote).

Lemma read_plain rows row t f m : existsb is_special t = false → m = AtStart ∨ m = InPlain →
  field_read (fold_left read_unit t (MkReader rows row f m)) rows row (f ++ t).
Proof.
  revert f m. induction t as [|u t IH]; intros f m; cbn [existsb fold_left].
  { intros _ [->| ->]; (split_and!; [done|done|by rewrite app_nil_r|cbn; auto]). }
  rewrite orb_false_iff. intros [Hu Ht] Hm. unfold is_special in Hu. rewrite !orb_false_iff in Hu.
  destruct Hu as [[[Hq Hc] Hr] _].
  assert (read_unit (MkReader rows row f m) u = MkReader rows row (f ++ [u]) InPlain) as ->.
  { unfold read_unit. destruct Hm as [->| ->]; cbn; by rewrite ?Hq, Hc, Hr. }
  rewrite (cons_middle u f t), app_assoc. apply IH; [done|by right].
Qed.
Lemma read_doubled rows row t f :
  fold_left read_unit (double_quotes t) (MkReader rows row f InQuoted) = MkReader rows row (f ++ t) InQuoted.
Proof.
  revert f. induction t as [|u t IH]; intros f; [by rewrite app_nil_r|]. unfold double_quotes. cbn [mbind list_bind].
  rewrite fold_left_app. fold (double_quotes t). rewrite (cons_middle u f t), app_assoc, <- IH. f_equal.
  destruct (u =? quote_unit)%N eqn:E; cbn; rewrite ?E; [|done]. apply N.eqb_eq in E as ->. done.
Qed.
Lemma read_cell rows row t :
  field_read (fold_left read_unit (cell t) (MkReader rows row [] AtStart)) rows row (safe_text t).
Proof.
  unfold cell. destruct (existsb is_special (safe_text t)) eqn:E.
  - cbn [fold_left]. rewrite fold_left_app. change (read_unit _ quote_unit) with (MkReader rows row [] InQuoted).
    rewrite read_doubled. cbn. split_and!; [done..|cbn; auto].
  - apply (read_plain rows row (safe_text t) []); [done|by left].
Qed.
Lemma field_comma r rows row f : field_read r rows row f → read_unit r comma = MkReader rows (row ++ [f]) [] AtStart.
Proof.
  destruct r as [rs rw fl m]. intros (Hr & Hw & Hf & Hm). cbn in Hr, Hw, Hf, Hm. subst.
  by destruct Hm as [->|[->| ->]].
Qed.
Lemma field_end r rows row f : field_read r rows row f →
  fold_left read_unit [CR; LF] r = MkReader (rows ++ [row ++ [f]]) [] [] AtStart.
Proof.
  destruct r as [rs rw fl m]. intros (Hr & Hw & Hf & Hm). cbn in Hr, Hw, Hf, Hm. subst.
  by destruct Hm as [->|[->| ->]].
Qed.

(** A row whose fields read back as [g] of what they were written from. *)
Lemma read_row (enc : text → text) (g : text → text) rows cells :
  (∀ rows row t, t ∈ cells → field_read (fold_left read_unit (enc t) (MkReader rows row [] AtStart)) rows row (g t)) →
  cells ≠ [] → ∀ row, fold_left read_unit (join_cells (enc <$> cells) ++ [CR; LF]) (MkReader rows row [] AtStart)
    = MkReader (rows ++ [row ++ (g <$> cells)]) [] [] AtStart.
Proof.
  intros Henc. induction cells as [|c [|d cells] IH]; intros Hne row; [done|..].
  - cbn [fmap list_fmap join_cells]. rewrite fold_left_app. apply field_end, Henc. by left.
  - cbn [fmap list_fmap join_cells] in *. rewrite <- app_assoc, fold_left_app. cbn [app fold_left].
    rewrite (field_comma _ rows row (g c)) by (apply Henc; by left).
    rewrite IH; [by rewrite <- app_assoc|intros; apply Henc; by right|done].
Qed.

Lemma starts_formula_safe t : starts_formula (safe_text t) = false.
Proof. unfold safe_text. destruct (starts_formula t) eqn:E; [|done]. cbn. reflexivity. Qed.

(** The ledger round-trips through a reader of the format: the header and every row read back
    cell for cell, whatever characters the cells contain, except that a text a spreadsheet would
    run as a formula comes back with an apostrophe before it; no cell read back is a formula. *)
Theorem ledger_round_trip columns rows : columns ≠ [] → Forall (λ c, existsb is_special c = false) columns →
  Forall (λ row, row ≠ []) rows →
  read_csv (ledgerCsv columns rows) = columns :: fmap (M:=list) (fmap (M:=list) safe_text) rows
  ∧ ∀ row t, row ∈ rows → t ∈ row → starts_formula (safe_text t) = false.
Proof.
  intros Hc Hp Hr. split; [|by intros; apply starts_formula_safe].
  unfold read_csv, ledgerCsv. rewrite fold_left_app.
  rewrite <- (list_fmap_id columns) at 1.
  rewrite (read_row (λ c, c) (λ c, c)); [|intros rs rw t Ht; apply (read_plain rs rw t []); [|by left]|done].
  2:{ rewrite Forall_forall in Hp. by apply Hp. }
  rewrite list_fmap_id.
  enough (∀ before, rd_rows (fold_left read_unit (concat (csv_row <$> rows)) (MkReader before [] [] AtStart))
    = before ++ fmap (M:=list) (fmap (M:=list) safe_text) rows) as H by apply (H [columns]).
  induction rows as [|row rows IH]; intros before; [by rewrite app_nil_r|]. inversion_clear Hr as [|?? Hne Hr'].
  cbn [fmap list_fmap concat]. rewrite fold_left_app. unfold csv_row at 2.
  rewrite (read_row cell safe_text); [|intros; apply read_cell|done]. cbn [app].
  rewrite IH by done. by rewrite <- app_assoc.
Qed.

Lemma ledger_round_trip_witness :
  read_csv (ledgerCsv [[97]; [98]]%N [[[61; 49]; [34; 44; 10]]]%N)
  = [[[97]; [98]]; [[39; 61; 49]; [34; 44; 10]]]%N.
Proof.
  apply (ledger_round_trip [[97]; [98]]%N [[[61; 49]; [34; 44; 10]]]%N); [done|..]; repeat constructor; done.
Defined.
