(* ===== verification/Wire.v ===== *)
(** * Small formats: [src/contract/tunnel-frames.ts], [src/contract/duration.ts] and
    [src/lease-files/range.ts]

    The frames of a tunnel, the durations a person types, and the byte ranges a client asks of a
    file. Bytes are integers from 0 to 255. *)
From Stdlib Require Import Ascii.
From stdpp Require Import base strings list option numbers.
From S2P Require Import Prelude JsString.

(** ** Tunnel frames *)

Record TunnelFrame := MkFrame { tf_tag : Z; tf_conn : Z; tf_payload : list Z }.
Definition HEADER_BYTES : nat := 5.
(** A store into a byte of a [Uint8Array], and [setUint32], keep the low bits. *)
Definition byte (n : Z) : Z := Z.land n 0xff.
Definition uint32 (n : Z) : list Z :=
  [byte (Z.shiftr n 24); byte (Z.shiftr n 16); byte (Z.shiftr n 8); byte n].
Definition getUint32 (b : list Z) : Z :=
  match b with
  | [b3; b2; b1; b0] => Z.lor (Z.shiftl b3 24) (Z.lor (Z.shiftl b2 16) (Z.lor (Z.shiftl b1 8) b0))
  | _ => 0
  end.
(** [TextEncoder.encode]: the scalar values of a string's 16-bit units, a surrogate without its other
    half being U+FFFD, in UTF-8. *)
Definition is_lead (u : Z) : bool := (0xd800 <=? u)%Z && (u <=? 0xdbff)%Z.
Definition is_trail (u : Z) : bool := (0xdc00 <=? u)%Z && (u <=? 0xdfff)%Z.
Fixpoint scalar_values (units : list Z) : list Z :=
  match units with
  | [] => []
  | u :: rest =>
      if is_lead u then
        match rest with
        | v :: rest' =>
            if is_trail v then (0x10000 + Z.lor (Z.shiftl (u - 0xd800) 10) (v - 0xdc00))%Z :: scalar_values rest'
            else 0xfffd%Z :: scalar_values rest
        | [] => [0xfffd%Z]
        end
      else (if is_trail u then 0xfffd%Z else u) :: scalar_values rest
  end.
Definition continuation (n : Z) : Z := Z.lor 0x80 (Z.land n 0x3f).
Definition utf8 (c : Z) : list Z :=
  if (c <? 0x80)%Z then [c]
  else if (c <? 0x800)%Z then [Z.lor 0xc0 (Z.shiftr c 6); continuation c]
  else if (c <? 0x10000)%Z then [Z.lor 0xe0 (Z.shiftr c 12); continuation (Z.shiftr c 6); continuation c]
  else [Z.lor 0xf0 (Z.shiftr c 18); continuation (Z.shiftr c 12); continuation (Z.shiftr c 6); continuation c].
(** A payload is bytes, or a string by its 16-bit units. *)
Inductive FramePayload := PayloadBytes (bytes : list Z) | PayloadText (units : list Z).
Definition payload_body (payload : FramePayload) : list Z :=
  match payload with PayloadBytes bytes => bytes | PayloadText units => scalar_values units ≫= utf8 end.
Definition encodeTunnelFrame (tag conn : Z) (payload : FramePayload) : list Z :=
  byte tag :: uint32 conn ++ payload_body payload.
Definition decodeTunnelFrame (bytes : list Z) : option TunnelFrame :=
  if (length bytes <? HEADER_BYTES)%nat then None
  else Some (MkFrame (default 0%Z (head bytes)) (getUint32 (take 4 (drop 1 bytes))) (drop HEADER_BYTES bytes)).

Definition is_byte (n : Z) : Prop := (0 ≤ n < 256)%Z.
Lemma byte_mod n : byte n = (n `mod` 2 ^ 8)%Z.
Proof. unfold byte. change 0xff%Z with (Z.ones 8). by rewrite Z.land_ones. Qed.
Lemma byte_range n : is_byte (byte n).
Proof. rewrite byte_mod. apply Z.mod_pos_bound. lia. Qed.
Lemma byte_id n : is_byte n → byte n = n.
Proof. intros H. rewrite byte_mod. by apply Z.mod_small. Qed.

Lemma getUint32_sum b3 b2 b1 b0 : is_byte b3 → is_byte b2 → is_byte b1 → is_byte b0 →
  getUint32 [b3; b2; b1; b0] = (b3 * 2 ^ 24 + b2 * 2 ^ 16 + b1 * 2 ^ 8 + b0)%Z.
Proof.
  unfold is_byte. intros H3 H2 H1 H0. cbn [getUint32].
  assert (∀ a b k, (0 ≤ k)%Z → (0 ≤ b < 2 ^ k)%Z → Z.lor (Z.shiftl a k) b = (a * 2 ^ k + b)%Z) as Hor.
  { intros a b k Hk Hb. rewrite Z.shiftl_mul_pow2 by done.
    destruct (Z.eq_dec b 0%Z) as [->|Hne]; [by rewrite Z.lor_0_r, Z.add_0_r|].
    assert (Z.land (a * 2 ^ k) b = 0)%Z as Hland.
    { apply Z.bits_inj'. intros i Hi. rewrite Z.land_spec, Z.bits_0.
      destruct (Z.lt_ge_cases i k); [by rewrite Z.mul_pow2_bits_low|].
      rewrite (Z.bits_above_log2 b i), andb_false_r; [done|lia|].
      apply Z.log2_lt_pow2; [lia|]. eapply Z.lt_le_trans; [apply Hb|]. apply Z.pow_le_mono_r; lia. }
    by rewrite <- Z.lxor_lor, <- Z.add_nocarry_lxor. }
  rewrite (Hor b1 b0 8%Z) by lia. rewrite (Hor b2 _ 16%Z) by lia. rewrite Hor by lia. lia.
Qed.
Lemma uint32_get conn : (0 ≤ conn < 2 ^ 32)%Z → getUint32 (uint32 conn) = conn.
Proof.
  intros H. unfold uint32. rewrite getUint32_sum by apply byte_range. rewrite !byte_mod, !Z.shiftr_div_pow2 by lia.
  pose proof (Z.div_mod conn (2 ^ 8)). pose proof (Z.div_mod (conn / 2 ^ 8) (2 ^ 8)).
  pose proof (Z.div_mod (conn / 2 ^ 16) (2 ^ 8)).
  replace (conn / 2 ^ 16)%Z with (conn / 2 ^ 8 / 2 ^ 8)%Z in * by (by rewrite Z.div_div).
  replace (conn / 2 ^ 24)%Z with (conn / 2 ^ 8 / 2 ^ 8 / 2 ^ 8)%Z in * by (by rewrite !Z.div_div).
  rewrite (Z.mod_small (conn / 2 ^ 8 / 2 ^ 8 / 2 ^ 8)); [lia|]. rewrite !Z.div_div by lia. split.
  - apply Z.div_pos; lia.
  - apply Z.div_lt_upper_bound; lia.
Qed.
Lemma get_uint32 b3 b2 b1 b0 : is_byte b3 → is_byte b2 → is_byte b1 → is_byte b0 →
  uint32 (getUint32 [b3; b2; b1; b0]) = [b3; b2; b1; b0].
Proof.
  intros H3 H2 H1 H0. rewrite getUint32_sum by done. unfold uint32, is_byte in *.
  rewrite !byte_mod, !Z.shiftr_div_pow2 by lia.
  set (n := (b3 * 2 ^ 24 + b2 * 2 ^ 16 + b1 * 2 ^ 8 + b0)%Z).
  assert (n / 2 ^ 24 = b3)%Z as -> by (symmetry; apply (Z.div_unique _ _ _ (b2 * 2 ^ 16 + b1 * 2 ^ 8 + b0)); unfold n; lia).
  assert (n / 2 ^ 16 = b3 * 2 ^ 8 + b2)%Z as -> by (symmetry; apply (Z.div_unique _ _ _ (b1 * 2 ^ 8 + b0)); unfold n; lia).
  assert (n / 2 ^ 8 = b3 * 2 ^ 16 + b2 * 2 ^ 8 + b1)%Z as -> by (symmetry; apply (Z.div_unique _ _ _ b0); unfold n; lia).
  repeat f_equal; symmetry; [apply (Z.mod_unique _ _ 0)|apply (Z.mod_unique _ _ b3)|
    apply (Z.mod_unique _ _ (b3 * 2 ^ 8 + b2))|apply (Z.mod_unique _ _ (b3 * 2 ^ 16 + b2 * 2 ^ 8 + b1))]; unfold n; lia.
Qed.

(** C39. Tunnel frames round-trip both ways: a frame with a byte for a tag and a 32-bit connection
    decodes to itself, its payload to the bytes it was given or to the UTF-8 of the text it was given,
    and a message that decodes encodes to itself; exactly the messages shorter than a header do not
    decode. *)
Theorem frames_round_trip tag conn payload bytes :
  is_byte tag → (0 ≤ conn < 2 ^ 32)%Z → Forall is_byte bytes →
  decodeTunnelFrame (encodeTunnelFrame tag conn payload) = Some (MkFrame tag conn (payload_body payload))
  ∧ match decodeTunnelFrame bytes with
    | Some f => encodeTunnelFrame (tf_tag f) (tf_conn f) (PayloadBytes (tf_payload f)) = bytes ∧ is_byte (tf_tag f)
        ∧ (0 ≤ tf_conn f < 2 ^ 32)%Z
    | None => length bytes < HEADER_BYTES
    end.
Proof.
  intros Ht Hc Hb. split.
  - unfold decodeTunnelFrame, encodeTunnelFrame. pose proof (uint32_get conn Hc) as Hg. unfold uint32 in Hg |- *.
    cbn [app length Nat.ltb Nat.leb HEADER_BYTES head default drop take].
    change (take 0 (payload_body payload)) with (@nil Z). change (drop 0 (payload_body payload)) with (payload_body payload). rewrite Hg. unfold id. by rewrite byte_id.
  - unfold decodeTunnelFrame. destruct (_ <? _)%nat eqn:E; [by apply Nat.ltb_lt|]. apply Nat.ltb_ge in E.
    unfold HEADER_BYTES in E. destruct bytes as [|t [|b3 [|b2 [|b1 [|b0 rest]]]]]; cbn in E; try lia.
    repeat match goal with H : Forall _ (_ :: _) |- _ => inversion_clear H end.
    cbn -[getUint32 uint32 byte encodeTunnelFrame Z.pow]. unfold encodeTunnelFrame. cbn [payload_body].
    rewrite get_uint32, byte_id by done. split; [done|]. split; [done|]. rewrite getUint32_sum by done.
    unfold is_byte in *. lia.
Qed.

Lemma frames_round_trip_witness :
  decodeTunnelFrame (encodeTunnelFrame 3 65537 (PayloadBytes [1; 2]%Z)) = Some (MkFrame 3 65537 [1; 2]%Z).
Proof.
  apply (frames_round_trip 3 65537 (PayloadBytes [1; 2]%Z) []); [unfold is_byte; lia|lia|constructor].
Defined.
(** One unit of one, two and three bytes, a pair of four, and half a pair. *)
Example text_payload : payload_body (PayloadText [0x61; 0xe9; 0x20ac; 0xd83d; 0xde00; 0xd83d]%Z)
  = [0x61; 0xc3; 0xa9; 0xe2; 0x82; 0xac; 0xf0; 0x9f; 0x98; 0x80; 0xef; 0xbf; 0xbd]%Z.
Proof. reflexivity. Qed.

(** ** Durations *)

Definition UNIT_MS (u : string) : option Z :=
  if (u === "") || (u === "ms") then Some 1%Z
  else if u === "s" then Some 1000%Z
  else if u === "m" then Some 60000%Z
  else if u === "h" then Some 3600000%Z
  else if u === "d" then Some 86400000%Z
  else None.
Definition MAX_SAFE_INTEGER : Z := 9007199254740991.
(** The pattern's digits are taken first, and what follows must be a unit. A product of doubles is a
    safe integer exactly when the exact product is. *)
Definition parseDurationMs (value : string) : option Z :=
  match read_digits 10 0 value with
  | (S _, amount, unit_) =>
      ms ← UNIT_MS unit_;
      let milliseconds := (amount * ms)%Z in
      if (milliseconds <=? MAX_SAFE_INTEGER)%Z then Some milliseconds else None
  | _ => None
  end.

(** ** Byte ranges *)

Inductive RangeAnswer := WholeFile | ByteRange (start end_ : Z) | Unsatisfiable.

(** [Number] of a text of digits: the double nearest to its value, ties to the even one. What is too
    large for a double becomes Infinity, which [2 ^ 1024] stands for: it compares alike. *)
Definition nearest_double (n : Z) : Z :=
  if (n <? 2 ^ 53)%Z then n
  else
    let ulp := (2 ^ (Z.log2 n - 52))%Z in
    let low := (n / ulp)%Z in
    let rest := (2 * (n mod ulp))%Z in
    let up := (ulp <? rest)%Z || ((ulp =? rest)%Z && Z.odd low) in
    Z.min ((if up then low + 1 else low) * ulp) (2 ^ 1024).
Definition number_of (s : string) : Z := nearest_double (decimal_value s).

(** [SINGLE_BYTE_RANGE]: the digits before and after the one dash. *)
Definition single_range (header : string) : option (string * string) :=
  if startsWith "bytes=" header
  then match split "-" (str_drop 6 header) with
       | [first; last] =>
           if str_all is_digit first && str_all is_digit last then Some (first, last) else None
       | _ => None
       end
  else None.

Definition parseRange (header : option string) (size : Z) : RangeAnswer :=
  match h ← header; single_range (trim h) with
  | None => WholeFile
  | Some (first, last) =>
      if (first === "") && (last === "") then WholeFile
      else if first === "" then
        let count := number_of last in
        if (count =? 0)%Z || (size =? 0)%Z then Unsatisfiable
        else ByteRange (Z.max 0 (size - count)) (size - 1)
      else
        let start := number_of first in
        if (last !== "") && (number_of last <? start)%Z then WholeFile
        else if (size <=? start)%Z then Unsatisfiable
        else ByteRange start (if last === "" then size - 1 else Z.min (number_of last) (size - 1))%Z
  end.

(** Which bytes of a file of [size] bytes the two numbers ask for. *)
Definition asks_for (first last : string) (size i : Z) : Prop :=
  if first === "" then (size - decimal_value last ≤ i)%Z
  else (decimal_value first ≤ i)%Z ∧ (last = "" ∨ (i ≤ decimal_value last)%Z).

Lemma nearest_double_spec n : (0 ≤ n)%Z →
  if (n <? 2 ^ 53)%Z then nearest_double n = n else (2 ^ 53 ≤ nearest_double n)%Z.
Proof.
  intros Hn. unfold nearest_double. destruct (Z.ltb_spec n (2 ^ 53)) as [|Hbig]; [done|]. cbv zeta.
  pose proof (Z.log2_spec n ltac:(lia)) as [Hlog _].
  assert (53 ≤ Z.log2 n)%Z as Hl by (apply Z.log2_le_pow2; lia).
  set (e := (Z.log2 n - 52)%Z). assert (1 ≤ e)%Z as He by (unfold e; lia).
  assert (2 ^ Z.log2 n = 2 ^ 52 * 2 ^ e)%Z as Hpow by (rewrite <- Z.pow_add_r by lia; f_equal; unfold e; lia).
  assert (2 ≤ 2 ^ e)%Z by (change 2%Z with (2 ^ 1)%Z at 1; by apply Z.pow_le_mono_r).
  assert (2 ^ 52 ≤ n / 2 ^ e)%Z as Hlow by (apply Z.div_le_lower_bound; lia).
  assert (2 ^ 53 ≤ 2 ^ 1024)%Z by (by vm_compute).
  generalize dependent (n / 2 ^ e)%Z. intros low Hlow.
  apply Z.min_glb; [|done]. case_match; nia.
Qed.

Lemma number_of_spec s : str_all is_digit s = true → (0 ≤ decimal_value s)%Z
  ∧ (number_of s = decimal_value s ∨ (2 ^ 53 ≤ decimal_value s ∧ 2 ^ 53 ≤ number_of s)%Z).
Proof.
  intros Hs%decimal_value_nonneg. split; [done|]. pose proof (nearest_double_spec _ Hs). unfold number_of.
  destruct (Z.ltb_spec (decimal_value s) (2 ^ 53)); [by left|by right].
Qed.

Lemma single_range_Some h first last : single_range h = Some (first, last) →
  str_all is_digit first = true ∧ str_all is_digit last = true.
Proof.
  unfold single_range. destruct (startsWith _ _); [|done]. destruct (split _ _) as [|a [|b [|]]]; try done.
  destruct (_ && _) eqn:E; [|done]. intros [= <- <-]. by apply andb_true_iff in E.
Qed.

(** A byte range never leaves the file: its start and end are bytes of it, in order. It serves
    exactly the bytes of the file the header asks for, and a range is refused exactly when it asks
    for none of them; a header that is not one range, or whose end is before its start, is
    answered with the whole file. The header's numbers may be past what a double holds exactly; the
    size of the file is one a double does. *)
Theorem ranges_within_file header size : (0 ≤ size < 2 ^ 53)%Z →
  match h ← header; single_range (trim h) with
  | None => parseRange header size = WholeFile
  | Some (first, last) =>
      match parseRange header size with
      | ByteRange start end_ => (0 ≤ start ≤ end_)%Z ∧ (end_ < size)%Z
          ∧ ∀ i, (0 ≤ i < size)%Z → (start ≤ i ≤ end_)%Z ↔ asks_for first last size i
      | Unsatisfiable => ∀ i, (0 ≤ i < size)%Z → ¬ asks_for first last size i
      | WholeFile => (first = "" ∧ last = "")
          ∨ (first ≠ "" ∧ last ≠ "" ∧ (number_of last < number_of first)%Z)
      end
  end.
Proof.
  intros Hsize. unfold parseRange. destruct (h ← header; single_range (trim h)) as [[first last]|] eqn:E; [|done].
  assert (str_all is_digit first = true ∧ str_all is_digit last = true) as [Hf Hl].
  { destruct header as [h|]; [|done]. by apply (single_range_Some (trim h)). }
  apply number_of_spec in Hf as [Hf0 Hf], Hl as [Hl0 Hl]. unfold asks_for.
  destruct (decide (first = "")) as [->|Ef], (decide (last = "")) as [->|El];
    rewrite ?(bool_decide_eq_true_2 _ (eq_refl "")), ?(bool_decide_eq_false_2 _ Ef), ?(bool_decide_eq_false_2 _ El); cbn [andb negb].
  - by left.
  - destruct (Z.eqb_spec (number_of last) 0), (Z.eqb_spec size 0); cbn [orb]; [lia..|].
    split_and!; [lia..|]. intros i Hi. split; lia.
  - destruct (Z.leb_spec size (number_of first)); [lia|]. split_and!; [lia..|]. intros i Hi. split; [|lia].
    intros. split; [lia|by left].
  - destruct (Z.ltb_spec (number_of last) (number_of first)); [by right|].
    destruct (Z.leb_spec size (number_of first)); [lia|]. split_and!; [lia..|]. intros i Hi.
    split; [intros; split; [lia|right; lia]|intros [? [?|?]]; [done|lia]].
Qed.

Lemma ranges_within_file_witness :
  parseRange (Some " bytes=2-900") 10 = ByteRange 2 9 ∧ (2 ≤ 5 ≤ 9 ↔ asks_for "2" "900" 10 5)%Z.
Proof.
  split; [by vm_compute|].
  apply (proj2 (proj2 (ranges_within_file (Some " bytes=2-900") 10 ltac:(lia)))). lia.
Defined.
