(* ===== verification/Ordered.v ===== *)
(** * Maps and sets in insertion order

    A [Map] or [Set] of the language iterates in the order its keys were first inserted: setting a
    key that is there keeps its place, and a key deleted and set again goes last. Where the source
    iterates one, it is a list here; where it only looks keys up, it is a [gmap]. *)
From stdpp Require Import base strings list option sets.
From S2P Require Import Prelude.

Module Ordered.
Section ordered.
Context {K V : Type} `{EqDecision K}.
Implicit Types (m : list (K * V)) (k : K) (v : V).

Definition get k m : option V := snd <$> Arr.find (λ e, e.1 === k) m.
Definition has k m : bool := Arr.some (λ e, e.1 === k) m.
Fixpoint set k v m : list (K * V) :=
  match m with
  | [] => [(k, v)]
  | e :: m => if e.1 === k then (k, v) :: m else e :: set k v m
  end.
Definition delete k m : list (K * V) := Arr.filter (λ e, e.1 !== k) m.
Definition values m : list V := m.*2.
Definition wf m : Prop := NoDup m.*1.

Lemma get_nil k : get k [] = None.
Proof. done. Qed.
Lemma get_cons k e m : get k (e :: m) = if e.1 === k then Some e.2 else get k m.
Proof. unfold get, Arr.find. cbn. by destruct (e.1 === k). Qed.

Lemma get_set k v m : get k (set k v m) = Some v.
Proof.
  induction m as [|e m IH]; cbn [set]; [by rewrite get_cons, bool_decide_true|].
  case_bool_decide as He; rewrite get_cons; cbn; [by rewrite bool_decide_true|].
  by rewrite bool_decide_false.
Qed.
Lemma get_set_ne k k' v m : k ≠ k' → get k' (set k v m) = get k' m.
Proof.
  intros Hne. induction m as [|e m IH]; cbn [set]; [by rewrite get_cons, bool_decide_false|].
  case_bool_decide as He; rewrite !get_cons; cbn.
  - by rewrite !bool_decide_false by congruence.
  - by rewrite IH.
Qed.
Lemma get_delete k m : get k (delete k m) = None.
Proof.
  unfold get. rewrite fmap_None. apply afind_None. intros e [_ He]%elem_of_afilter.
  by apply negb_true_iff.
Qed.
Lemma get_delete_ne k k' m : k ≠ k' → get k' (delete k m) = get k' m.
Proof.
  intros Hne. induction m as [|e m IH]; [done|].
  change (delete k (e :: m)) with (if e.1 !== k then e :: delete k m else delete k m).
  case_bool_decide as He; cbn [negb]; rewrite !get_cons, IH; [|done].
  by rewrite bool_decide_false by congruence.
Qed.
Lemma has_get k m : has k m = true ↔ is_Some (get k m).
Proof.
  unfold has, get. rewrite fmap_is_Some, asome_true. split.
  - intros (e & He & Hk). destruct (Arr.find _ m) eqn:Ef; [done|].
    apply (proj1 (afind_None _ _)) with (x := e) in Ef; [congruence|done].
  - intros [e [He Hk]%afind_Some]. eauto.
Qed.

Lemma get_Some_elem k v m : get k m = Some v → (k, v) ∈ m.
Proof.
  unfold get. rewrite fmap_Some. intros ([k' v'] & [He Hk]%afind_Some & ->).
  apply bool_decide_eq_true in Hk as <-. done.
Qed.
Lemma elem_get k v m : wf m → (k, v) ∈ m → get k m = Some v.
Proof.
  intros Hwf Hin. destruct (get k m) as [v'|] eqn:Eg.
  - apply get_Some_elem in Eg. f_equal.
    by pose proof (NoDup_fmap_inj_on fst m (k, v') (k, v) Hwf Eg Hin eq_refl) as [= ->].
  - unfold get in Eg. apply fmap_None in Eg.
    apply (proj1 (afind_None _ _)) with (x := (k, v)) in Eg; [|done].
    cbn in Eg. by rewrite bool_decide_true in Eg.
Qed.
Lemma values_spec m v : wf m → v ∈ values m ↔ ∃ k, get k m = Some v.
Proof.
  intros Hwf. unfold values. rewrite list_elem_of_fmap. split.
  - intros ([k v'] & -> & Hin). exists k. by apply elem_get.
  - intros (k & Hk%get_Some_elem). by exists (k, v).
Qed.

Lemma elem_set_keys k v m k' : k' ∈ (set k v m).*1 ↔ k' = k ∨ k' ∈ m.*1.
Proof.
  induction m as [|e m IH]; cbn; [set_solver|]. case_bool_decide as He; cbn; set_solver.
Qed.
Lemma set_wf k v m : wf m → wf (set k v m).
Proof.
  unfold wf. induction m as [|e m IH]; cbn; [intros _; apply NoDup_singleton|].
  intros [Hni Hnd]%NoDup_cons. case_bool_decide as He; cbn.
  - subst k. by constructor.
  - constructor; [|by apply IH]. rewrite elem_set_keys. naive_solver.
Qed.
Lemma delete_wf k m : wf m → wf (delete k m).
Proof.
  intros Hwf. unfold wf. eapply sublist_NoDup; [exact Hwf|].
  apply (fmap_sublist fst), sublist_filter_b.
Qed.
Lemma get_set_case k k' v m : get k' (set k v m) = if decide (k = k') then Some v else get k' m.
Proof. case_decide as Hk; [subst; apply get_set|by apply get_set_ne]. Qed.
Lemma get_delete_case k k' m : get k' (delete k m) = if decide (k = k') then None else get k' m.
Proof. case_decide as Hk; [subst; apply get_delete|by apply get_delete_ne]. Qed.
End ordered.

(** Sets, as lists without repetition. *)
Section ordered_set.
Context {A : Type} `{EqDecision A}.
Implicit Types (s : list A) (x : A).

Definition add x s : list A := if Arr.includes x s then s else s ++ [x].
Definition drop x s : list A := Arr.filter (λ y, y !== x) s.

Lemma elem_of_add x y s : y ∈ add x s ↔ y = x ∨ y ∈ s.
Proof. unfold add, Arr.includes. case_bool_decide; set_solver. Qed.
Lemma elem_of_drop x y s : y ∈ drop x s ↔ y ≠ x ∧ y ∈ s.
Proof.
  unfold drop. rewrite elem_of_afilter. split.
  - by intros [? ?%negb_true_iff%bool_decide_eq_false].
  - intros [??]. split; [done|]. by rewrite bool_decide_false.
Qed.
Lemma add_NoDup x s : NoDup s → NoDup (add x s).
Proof.
  intros Hs. unfold add, Arr.includes. case_bool_decide as Hx; [done|].
  apply NoDup_app. split_and!; [done|set_solver|apply NoDup_singleton].
Qed.
Lemma drop_NoDup x s : NoDup s → NoDup (drop x s).
Proof. intros Hs. by eapply sublist_NoDup, sublist_filter_b. Qed.
End ordered_set.
End Ordered.
