(* ===== verification/Sqlite.v ===== *)
(** * The state database's engine: [src/ports/sqlite.ts] and the schema language of the owners

    The part of SQLite the program writes its rows through: STRICT tables with typed columns,
    primary keys and foreign keys (which [node:sqlite] enforces unless it is told not to), the four
    statements the writers prepare, and the transaction around them. A table is its rows in [rowid]
    order: an insert goes last, and an update in place keeps the row where it is. A statement that
    would leave a constraint broken fails and changes nothing. *)
From stdpp Require Import base strings list option numbers.
From S2P Require Import Prelude.

(** ** Values and rows *)

(** The values the writers bind; they bind no bytes and no big integers. *)
Inductive SqliteValue := SqlNull | SqlText (s : string) | SqlNumber (n : Z).
#[global] Instance SqliteValue_eq_dec : EqDecision SqliteValue.
Proof. solve_decision. Defined.

(** A row as [all()] returns it: an object with a property per column. *)
Abbreviation Row := (list (string * SqliteValue)).
Definition row_get (row : Row) (column : string) : SqliteValue :=
  match Arr.find (λ cell, String.eqb cell.1 column) row with
  | Some cell => cell.2
  | None => SqlNull
  end.
Definition key_values (columns : list string) (row : Row) : list SqliteValue :=
  row_get row <$> columns.

(** ** Schemas *)

Inductive ColumnType := TEXT | INTEGER | REAL.
Record Column := MkColumn { c_name : string; c_type : ColumnType; c_notNull : bool }.
(** [FOREIGN KEY (columns) REFERENCES parent (parent columns)]. *)
Record Reference (T : Type) := MkReference {
  rf_columns : list string; rf_parent : T; rf_parentColumns : list string }.
Record TableSchema (T : Type) := MkTableSchema {
  ts_columns : list Column; ts_key : list string; ts_references : list (Reference T) }.
Arguments MkReference {T}. Arguments rf_columns {T}. Arguments rf_parent {T}.
Arguments rf_parentColumns {T}.
Arguments MkTableSchema {T}. Arguments ts_columns {T}. Arguments ts_key {T}.
Arguments ts_references {T}.

(** A schema names the tables and lists them. *)
Class Schema (T : Type) := { schema : T → TableSchema T; all_tables : list T }.

Inductive SqlError := DatatypeFailed | UniqueFailed | ForeignKeyFailed.

(** A STRICT column holds values of its type, and [NULL] unless it is declared otherwise. Lossless
    conversions between text and numbers are left out: no writer binds the other kind. *)
Definition value_fits (c : Column) (v : SqliteValue) : bool :=
  match v, c_type c with
  | SqlNull, _ => negb (c_notNull c)
  | SqlText _, TEXT => true
  | SqlNumber _, (INTEGER | REAL) => true
  | _, _ => false
  end.

(** ** Statements *)

Section statements.
Context {T : Type} `{EqDecision T, Schema T}.
Abbreviation Tables := (T → list Row).
Implicit Types (ts : Tables) (t : T) (row : Row).

Definition set_table t (rows : list Row) ts : Tables := λ u, if decide (u = t) then rows else ts u.

Definition row_fits t row : bool :=
  Arr.every (λ c, value_fits c (row_get row (c_name c))) (ts_columns (schema t)).
Definition same_key (columns : list string) (key : list SqliteValue) row : bool :=
  key_values columns row === key.
Definition parents_there t row ts : bool :=
  Arr.every (λ ref,
    Arr.some (same_key (rf_parentColumns ref) (key_values (rf_columns ref) row)) (ts (rf_parent ref)))
    (ts_references (schema t)).

(** [INSERT INTO t (...) VALUES (...)]. *)
Definition insert_row t row ts : result SqlError Tables :=
  let key := key_values (ts_key (schema t)) row in
  _ ← require (row_fits t row) DatatypeFailed;
  _ ← require (negb (Arr.some (same_key (ts_key (schema t)) key) (ts t))) UniqueFailed;
  _ ← require (parents_there t row ts) ForeignKeyFailed;
  Ok (set_table t (ts t ++ [row]) ts).

(** [INSERT ... ON CONFLICT (key) DO UPDATE SET] every other column: the writers list every column
    of the table, so the row that is there becomes the new one. *)
Definition upsert_row t row ts : result SqlError Tables :=
  let key := key_values (ts_key (schema t)) row in
  let there := same_key (ts_key (schema t)) key in
  _ ← require (row_fits t row) DatatypeFailed;
  _ ← require (parents_there t row ts) ForeignKeyFailed;
  Ok (set_table t
    (if Arr.some there (ts t) then (λ r, if there r then row else r) <$> ts t else ts t ++ [row]) ts).

(** [DELETE FROM t WHERE columns = key]: no row of a child table may refer to a row that goes. *)
Definition refers (ref : Reference T) (parent child : Row) : bool :=
  same_key (rf_columns ref) (key_values (rf_parentColumns ref) parent) child.
Definition children_of t ts parent : bool :=
  Arr.some (λ u, Arr.some (λ ref, (rf_parent ref === t) && Arr.some (refers ref parent) (ts u))
    (ts_references (schema u))) all_tables.
Definition delete_rows t (columns : list string) (key : list SqliteValue) ts : result SqlError Tables :=
  let goes := same_key columns key in
  _ ← require (negb (Arr.some (children_of t ts) (Arr.filter goes (ts t)))) ForeignKeyFailed;
  Ok (set_table t (Arr.filter (λ row, negb (goes row)) (ts t)) ts).
End statements.
Abbreviation Tables T := (T → list Row).

(** ** Transactions *)

(** [inTransaction]: the work commits whole or is rolled back, and its error is thrown on. *)
Definition inTransaction {D E A} (work : action D E A) : action D E A := λ db,
  match work db with
  | (db', Ok a) => (db', Ok a)
  | (_, Err e) => (db, Err e)
  end.

(** ** Ordering: [ORDER BY] compares nulls, then numbers, then text by its bytes *)

Definition value_rank (v : SqliteValue) : Z :=
  match v with SqlNull => 0 | SqlNumber _ => 1 | SqlText _ => 2 end.
Definition compare_values (a b : SqliteValue) : Z :=
  match a, b with
  | SqlNumber m, SqlNumber n => m - n
  | SqlText s, SqlText u => codepoint_compare s u
  | _, _ => value_rank a - value_rank b
  end.
Definition order_by (columns : list string) : Row → Row → Z := λ a b,
  foldr (λ c rest, num_or (compare_values (row_get a c) (row_get b c)) rest) 0%Z columns.

(** ** Lemmas *)

Section select.
Context {T : Type} `{EqDecision T, Schema T}.
Implicit Types (ts : Tables T) (t : T) (row : Row).

Lemma set_table_eq t rows ts : set_table t rows ts t = rows.
Proof. unfold set_table. by rewrite decide_True. Qed.
Lemma set_table_ne t u rows ts : u ≠ t → set_table t rows ts u = ts u.
Proof. intros. unfold set_table. by rewrite decide_False. Qed.
End select.

Lemma string_compare_refl s : String.compare s s = Eq.
Proof. pose proof (String.compare_antisym s s) as H. by destruct (String.compare s s). Qed.
Lemma compare_values_eq a b : compare_values a b = 0%Z ↔ a = b.
Proof.
  destruct a as [|s|m], b as [|u|n]; cbn; try (split; [lia|congruence]); try done.
  - unfold codepoint_compare. destruct (String.compare s u) eqn:E.
    + apply String.compare_eq_iff in E as ->. done.
    + split; [done|]. intros [= ->]. by rewrite string_compare_refl in E.
    + split; [done|]. intros [= ->]. by rewrite string_compare_refl in E.
  - split; [intros; f_equal; lia|intros [= ->]; lia].
Qed.
#[global] Instance compare_values_comparator : Comparator compare_values.
Proof.
  pose proof (locale_comparator (LocaleCompareLaws := Codepoint.laws)) as Hc. split.
  - intros [|s|m] [|u|n]; cbn; try lia. apply Hc.
  - intros [|s|m] [|u|n] [|w|k]; cbn; try lia. apply Hc.
Qed.
Lemma compare_values_antisym a b :
  (compare_values a b ≤ 0 → compare_values b a ≤ 0 → a = b)%Z.
Proof.
  destruct a as [|s|m], b as [|u|n]; cbn; try lia; try done; [|intros; f_equal; lia].
  unfold codepoint_compare. rewrite (String.compare_antisym s u).
  destruct (String.compare u s) eqn:E; cbn; try lia.
  by apply String.compare_eq_iff in E as ->.
Qed.
#[global] Instance order_by_comparator columns : Comparator (order_by columns).
Proof.
  induction columns as [|c columns [IHt IHr]]; [split; cbn; lia|].
  assert (∀ a b, order_by (c :: columns) a b
    = num_or (compare_values (row_get a c) (row_get b c)) (order_by columns a b)) as Hcons by done.
  split; [intros x y|intros x y z]; rewrite !Hcons; unfold num_or.
  - set (a := row_get x c). set (b := row_get y c).
    destruct (Z.eqb_spec (compare_values a b) 0) as [E|E], (Z.eqb_spec (compare_values b a) 0) as [E'|E'].
    + apply IHt.
    + by rewrite compare_values_eq in E; rewrite E, (proj2 (compare_values_eq _ _) eq_refl) in E'.
    + by rewrite compare_values_eq in E'; rewrite E', (proj2 (compare_values_eq _ _) eq_refl) in E.
    + apply cmp_total.
  - set (a := row_get x c). set (b := row_get y c). set (d := row_get z c).
    destruct (decide (a = b)) as [->|Hab]; [|destruct (decide (b = d)) as [<-|Hbd]].
    + rewrite (proj2 (compare_values_eq b b) eq_refl). cbn.
      destruct (_ =? 0)%Z; [apply IHr|done].
    + rewrite (proj2 (compare_values_eq b b) eq_refl). cbn. rewrite <- compare_values_eq in Hab.
      rewrite (proj2 (Z.eqb_neq _ _) Hab). done.
    + rewrite <- compare_values_eq in Hab, Hbd.
      rewrite (proj2 (Z.eqb_neq _ _) Hab), (proj2 (Z.eqb_neq _ _) Hbd). intros H1 H2.
      pose proof (cmp_trans _ _ _ H1 H2) as H3. destruct (Z.eqb_spec (compare_values a d) 0) as [E|E]; [|done].
      rewrite compare_values_eq in E. rewrite E in Hab, H1.
      rewrite compare_values_eq in Hab. destruct Hab. by apply compare_values_antisym.
Qed.
