(* ===== verification/Rows.v ===== *)
(** * The registry on disk: [src/core/registry-rows.ts], [src/core/registry-schema.ts]

    The tables of the registry, the rows each record is written as, the transaction of a commit
    ([#commit] of [src/core/registry.ts]) and the load at startup. The drivers' own tables are the
    interface [DeviceDataTable] of [src/core/driver.ts], written against its contract. *)
From stdpp Require Import base strings list option numbers gmap pretty.
From S2P Require Import Prelude JsString OsRange Domain Resolve RequestStore Registry Ordered Sqlite.

(** ** The schema *)

Inductive TableName :=
| t_devices | t_device_enrolled_apps | t_leases | t_lease_requests | t_lease_grants
| t_lease_grant_environment | t_components | t_component_receipt.
#[global] Instance TableName_eq_dec : EqDecision TableName.
Proof. solve_decision. Defined.

Definition text_column (name : string) : Column := MkColumn name TEXT false.
Definition int_column (name : string) : Column := MkColumn name INTEGER false.
Definition text_notNull (name : string) : Column := MkColumn name TEXT true.
Definition int_notNull (name : string) : Column := MkColumn name INTEGER true.
Definition real_notNull (name : string) : Column := MkColumn name REAL true.

(** The columns later migrations add. *)
Definition REGISTRY_V2_devices : list Column :=
  [text_column "baseline_name"; int_column "baseline_version"].
Definition REGISTRY_V3_requests : list Column := [text_column "baseline"].
Definition REGISTRY_V4_devices : list Column := [text_column "except_categories"].
Definition REGISTRY_V4_requests : list Column := [text_column "except_categories"].
Definition REGISTRY_V5_devices : list Column := [int_column "deleted_at"].

(** Each table with its columns of the first migration and the ones later migrations add. *)
Definition devices_schema : TableSchema TableName := MkTableSchema
  ([ text_notNull "id"; text_notNull "platform"; int_notNull "physical"; text_notNull "driver_device_id";
     text_notNull "state"; text_notNull "model"; text_notNull "os_version"; text_column "spec_mode";
     text_column "image_tag"; text_column "class"; text_column "mode"; text_column "lease_identity";
     int_notNull "created_at"; int_column "last_lease_ended_at"; int_column "ready_at";
     int_column "shutdown_at"; int_column "foreign_state_detected_at";
     int_column "foreign_provenance_detected_at"; int_column "recovering_since";
     int_column "recovery_attempts"; text_column "deferred_reclaim_lease_id";
     int_column "quarantined_at"; int_column "quarantine_attempts";
     MkColumn "quarantine_next_retry_at" REAL false; text_column "quarantine_cause_kind";
     text_column "quarantine_cause_stalled_state"; text_column "quarantine_cause_message";
     text_column "address"; int_column "reclaiming_since"; text_column "absent_reason" ]
   ++ REGISTRY_V2_devices ++ REGISTRY_V4_devices ++ REGISTRY_V5_devices)
  ["id"] [].
Definition apps_schema : TableSchema TableName := MkTableSchema
  [ text_notNull "device_id"; int_notNull "position"; text_notNull "app" ]
  ["device_id"; "position"] [MkReference ["device_id"] t_devices ["id"]].
Definition leases_schema : TableSchema TableName := MkTableSchema
  [ text_notNull "id"; text_notNull "device_id"; text_notNull "requester_id"; text_notNull "owner_id";
    int_notNull "granted_at"; real_notNull "ttl_ms"; real_notNull "ttl_deadline";
    int_notNull "last_renewed_at"; int_notNull "id_chosen_by_requester" ] ["id"] [].
Definition requests_schema : TableSchema TableName := MkTableSchema
  ([ text_notNull "id"; text_notNull "requester_id"; text_notNull "owner_id";
     text_column "idempotency_key"; text_column "lease_id"; text_column "fleet_request_id";
     text_notNull "platform"; text_column "model"; text_column "os_version"; text_column "mode";
     text_column "image_tag"; text_column "class"; int_column "physical"; int_notNull "created_at";
     text_notNull "state"; int_column "settled_at"; text_column "failure_code";
     text_column "failure_message" ]
   ++ REGISTRY_V3_requests ++ REGISTRY_V4_requests) ["id"] [].
Definition grants_schema : TableSchema TableName := MkTableSchema
  [ text_notNull "request_id"; text_notNull "device_id"; text_notNull "lease_id";
    text_notNull "requester_id"; text_notNull "owner_id"; int_notNull "granted_at";
    real_notNull "ttl_ms"; real_notNull "ttl_deadline"; int_notNull "last_renewed_at";
    int_notNull "id_chosen_by_requester"; int_notNull "estimated_provision_ms";
    int_notNull "estimated_boot_ms"; int_notNull "estimated_reclaim_ms";
    int_notNull "estimated_ready_ms" ] ["request_id"]
  [ MkReference ["request_id"] t_lease_requests ["id"]; MkReference ["device_id"] t_devices ["id"] ].
Definition environment_schema : TableSchema TableName := MkTableSchema
  [ text_notNull "request_id"; text_notNull "name"; text_notNull "value" ]
  ["request_id"; "name"] [MkReference ["request_id"] t_lease_grants ["request_id"]].
Definition components_schema : TableSchema TableName := MkTableSchema
  [ text_notNull "platform"; text_notNull "version"; int_notNull "installed_at" ]
  ["platform"; "version"] [].
Definition receipt_schema : TableSchema TableName := MkTableSchema
  [ text_notNull "platform"; text_notNull "version"; text_notNull "key"; text_notNull "value" ]
  ["platform"; "version"; "key"]
  [MkReference ["platform"; "version"] t_components ["platform"; "version"]].

Definition registry_table (t : TableName) : TableSchema TableName :=
  match t with
  | t_devices => devices_schema
  | t_device_enrolled_apps => apps_schema
  | t_leases => leases_schema
  | t_lease_requests => requests_schema
  | t_lease_grants => grants_schema
  | t_lease_grant_environment => environment_schema
  | t_components => components_schema
  | t_component_receipt => receipt_schema
  end.
#[global] Instance registryOwner : Schema TableName := {|
  schema := registry_table;
  all_tables := [t_devices; t_device_enrolled_apps; t_leases; t_lease_requests; t_lease_grants;
    t_lease_grant_environment; t_components; t_component_receipt] |}.

(** ** The names in the columns *)

Definition identity_text (i : LeaseIdentity) : string :=
  match i with reusable => "reusable" | fresh => "fresh" end.
Definition request_state_text (s : LeaseRequestState) : string :=
  match s with open => "open" | granted => "granted" | failed => "failed" | cancelled => "cancelled" end.
Definition cause_text (k : CauseKind) : string :=
  match k with
  | purge_failed => "purge-failed"
  | shutdown_failed => "shutdown-failed"
  | delete_failed => "delete-failed"
  | stalled => "stalled"
  end.
Definition physical_class_text (c : PhysicalClass) : string := class_text (class_of_physical c).

Definition PLATFORMS : list Platform := [ios; android].
Definition VIRTUAL_STATES : list DeviceState :=
  [provisioning; ready; leased; reclaiming; quarantined; shutdown; deleted].
Definition PHYSICAL_STATES : list DeviceState :=
  [ready; absent; leased; reclaiming; quarantined; deleted].
Definition ABSENT_REASONS : list AbsentReason := [locked; untrusted; not_present].
Definition PHYSICAL_CLASSES : list PhysicalClass := [physical_phone; physical_tablet].
Definition DEVICE_MODES : list DeviceMode := [slim; full].
Definition LEASE_IDENTITIES : list LeaseIdentity := [reusable; fresh].
Definition LEASE_REQUEST_STATES : list LeaseRequestState := [open; granted; failed; cancelled].
Definition QUARANTINE_KINDS : list CauseKind :=
  [purge_failed; shutdown_failed; delete_failed; stalled].
Definition STALLED_STATES : list DeviceState := [provisioning; reclaiming].
Definition DEVICE_CLASSES : list DeviceClass :=
  [phone; tablet; watch; tv; vision; auto_class; desktop].

(** ** Reading a row *)

Inductive RegistryLoadError :=
| BadValue (table key column : string)
| NoDeviceDataTable (id : string) (platform : Platform)
| NoDeviceDataRow (id name message : string)
| GrantDisagrees (id : string) (state : LeaseRequestState)
| NoGrantDevice (requestId deviceId : string).

(** [String(value)]. *)
Definition js_String (v : SqliteValue) : string :=
  match v with SqlNull => "null" | SqlText s => s | SqlNumber n => pretty n end.

Record RowReader := MkReader { rw_table : string; rw_key : string; rw_row : Row }.

Section reader.
Context (reader : RowReader).
Local Abbreviation reads A := (result RegistryLoadError A).

Definition bad {A} (column : string) : reads A := Err (BadValue (rw_table reader) (rw_key reader) column).
Definition present_value (column : string) : option SqliteValue :=
  match row_get (rw_row reader) column with SqlNull => None | v => Some v end.

Definition optText (column : string) : reads (option string) :=
  match present_value column with
  | None => Ok None
  | Some (SqlText s) => Ok (Some s)
  | Some _ => bad column
  end.
Definition text_of (column : string) : reads string :=
  value ← optText column; match value with Some s => Ok s | None => bad column end.
Definition optInt (column : string) : reads (option Z) :=
  match present_value column with
  | None => Ok None
  | Some (SqlNumber n) => Ok (Some n)
  | Some _ => bad column
  end.
Definition int_of (column : string) : reads Z :=
  value ← optInt column; match value with Some n => Ok n | None => bad column end.
Definition optFlag (column : string) : reads (option bool) :=
  match present_value column with
  | None => Ok None
  | Some v =>
      if (v !== SqlNumber 0) && (v !== SqlNumber 1) then bad column else Ok (Some (v === SqlNumber 1))
  end.
Definition flag_of (column : string) : reads bool :=
  value ← optFlag column; match value with Some b => Ok b | None => bad column end.
(** The allowed values by their names. *)
Definition optOneOf {A} (name : A → string) (column : string) (allowed : list A) : reads (option A) :=
  value ← optText column;
  match value with
  | None => Ok None
  | Some s =>
      match Arr.find (λ candidate, name candidate === s) allowed with
      | Some a => Ok (Some a)
      | None => bad column
      end
  end.
Definition oneOf {A} (name : A → string) (column : string) (allowed : list A) : reads A :=
  value ← optOneOf name column allowed; match value with Some a => Ok a | None => bad column end.

Definition exceptOf : reads (option (list string)) :=
  value ← optText "except_categories";
  Ok match value with Some s => Some (split "," s) | None => None end.
Definition baselineOf : reads (option BaselineRef) :=
  name ← optText "baseline_name";
  version ← optInt "baseline_version";
  Ok match name, version with Some n, Some v => Some (MkBaseline n v) | _, _ => None end.
Definition read_cause : reads (option QuarantineCause) :=
  kind ← optOneOf cause_text "quarantine_cause_kind" QUARANTINE_KINDS;
  match kind with
  | None => Ok None
  | Some kind =>
      state ← optOneOf state_text "quarantine_cause_stalled_state" STALLED_STATES;
      message ← optText "quarantine_cause_message";
      Ok (Some (MkCause kind state message))
  end.
End reader.

(** ** Writing a row *)

Definition optional (v : option SqliteValue) : SqliteValue := default SqlNull v.
Definition flagValue (v : option bool) : SqliteValue :=
  match v with None => SqlNull | Some true => SqlNumber 1 | Some false => SqlNumber 0 end.
Definition except_value (v : option (list string)) : SqliteValue :=
  match v with None => SqlNull | Some l => SqlText (join "," l) end.

(** A property, what reading gives it, and its column. *)
Definition DEVICE_OPTIONAL_NUMBERS : list
    ((DeviceRecordFields → option Z) * (option Z → DeviceRecordFields → DeviceRecordFields) * string) :=
  [ (lastLeaseEndedAt, λ v f, f <| lastLeaseEndedAt := v |>, "last_lease_ended_at");
    (readyAt, λ v f, f <| readyAt := v |>, "ready_at");
    (shutdownAt, λ v f, f <| shutdownAt := v |>, "shutdown_at");
    (deletedAt, λ v f, f <| deletedAt := v |>, "deleted_at");
    (foreignStateDetectedAt, λ v f, f <| foreignStateDetectedAt := v |>, "foreign_state_detected_at");
    (foreignProvenanceDetectedAt, λ v f, f <| foreignProvenanceDetectedAt := v |>,
     "foreign_provenance_detected_at");
    (recoveringSince, λ v f, f <| recoveringSince := v |>, "recovering_since");
    (recoveryAttempts, λ v f, f <| recoveryAttempts := v |>, "recovery_attempts");
    (quarantinedAt, λ v f, f <| quarantinedAt := v |>, "quarantined_at");
    (quarantineAttempts, λ v f, f <| quarantineAttempts := v |>, "quarantine_attempts");
    (quarantineNextRetryAt, λ v f, f <| quarantineNextRetryAt := v |>, "quarantine_next_retry_at") ].

Definition DEVICE_COLUMNS : list string :=
  [ "id"; "platform"; "physical"; "driver_device_id"; "state"; "model"; "os_version"; "spec_mode";
    "image_tag"; "class"; "mode"; "lease_identity"; "created_at" ]
  ++ (snd <$> DEVICE_OPTIONAL_NUMBERS)
  ++ [ "deferred_reclaim_lease_id"; "quarantine_cause_kind"; "quarantine_cause_stalled_state";
       "quarantine_cause_message"; "address"; "reclaiming_since"; "absent_reason"; "baseline_name";
       "baseline_version"; "except_categories" ].
Definition LEASE_COLUMNS : list string :=
  [ "id"; "device_id"; "requester_id"; "owner_id"; "granted_at"; "ttl_ms"; "ttl_deadline";
    "last_renewed_at"; "id_chosen_by_requester" ].
Definition REQUEST_COLUMNS : list string :=
  [ "id"; "requester_id"; "owner_id"; "idempotency_key"; "lease_id"; "fleet_request_id"; "platform";
    "model"; "os_version"; "mode"; "image_tag"; "baseline"; "except_categories"; "class"; "physical";
    "created_at"; "state"; "settled_at"; "failure_code"; "failure_message" ].
Definition GRANT_COLUMNS : list string :=
  [ "request_id"; "device_id"; "lease_id"; "requester_id"; "owner_id"; "granted_at"; "ttl_ms";
    "ttl_deadline"; "last_renewed_at"; "id_chosen_by_requester"; "estimated_provision_ms";
    "estimated_boot_ms"; "estimated_reclaim_ms"; "estimated_ready_ms" ].

Definition specColumns (d : DeviceRecord) : list SqliteValue :=
  match d with
  | Physical p => [SqlNull; SqlNull; SqlText (physical_class_text (ps_class (p_spec p)))]
  | Virtual v =>
      [ if vs_slim (v_spec v) then SqlText (mode_text slim) else SqlNull;
        optional (SqlText <$> vs_imageTag (v_spec v)); SqlNull ]
  end.
Definition causeColumns (cause : option QuarantineCause) : list SqliteValue :=
  [ optional (cause ≫= λ c, Some (SqlText (cause_text (qc_kind c))));
    optional (cause ≫= λ c, SqlText <$> (state_text <$> qc_stalledState c));
    optional (cause ≫= λ c, SqlText <$> qc_message c) ].
Definition physicalColumns (d : DeviceRecord) : list SqliteValue :=
  match d with
  | Virtual _ => [SqlNull; SqlNull]
  | Physical p =>
      [ optional (SqlNumber <$> p_reclaimingSince p);
        optional (SqlText <$> (absent_text <$> p_absentReason p)) ]
  end.
Definition baselineColumns (d : DeviceRecord) : list SqliteValue :=
  match d with
  | Physical _ => [SqlNull; SqlNull]
  | Virtual v =>
      [ optional (SqlText <$> (bl_name <$> vs_baseline (v_spec v)));
        optional (SqlNumber <$> (bl_version <$> vs_baseline (v_spec v))) ]
  end.
(** [device.mode], [device.leaseIdentity] and [device.except], undefined on a physical device. *)
Definition dev_mode (d : DeviceRecord) : option DeviceMode :=
  match d with Virtual v => Some (v_mode v) | Physical _ => None end.
Definition dev_leaseIdentity (d : DeviceRecord) : option LeaseIdentity :=
  match d with Virtual v => v_leaseIdentity v | Physical _ => None end.
Definition dev_except (d : DeviceRecord) : option (list string) :=
  match d with Virtual v => v_except v | Physical _ => None end.

Definition deviceValues (d : DeviceRecord) : list SqliteValue :=
  let f := dev_fields d in
  [ SqlText (id f); SqlText (platform_text (spec_platform (dev_spec d)));
    flagValue (Some (dev_physical d)); SqlText (driverDeviceId f); SqlText (state_text (dev_state d));
    SqlText (spec_model (dev_spec d)); SqlText (spec_osVersion (dev_spec d)) ]
  ++ specColumns d
  ++ [ optional (SqlText <$> (mode_text <$> dev_mode d));
       optional (SqlText <$> (identity_text <$> dev_leaseIdentity d)); SqlNumber (createdAt f) ]
  ++ ((λ '(property, _, _), optional (SqlNumber <$> property f)) <$> DEVICE_OPTIONAL_NUMBERS)
  ++ [ optional (SqlText <$> deferredReclaimLeaseId f) ]
  ++ causeColumns (quarantineCause f)
  ++ [ optional (SqlText <$> address f) ]
  ++ physicalColumns d
  ++ baselineColumns d
  ++ [ except_value (dev_except d) ].

Definition leaseValues (l : LeaseRecord) : list SqliteValue :=
  [ SqlText (l_id l); SqlText (l_deviceId l); SqlText (l_requesterId l); SqlText (l_ownerId l);
    SqlNumber (l_grantedAt l); SqlNumber (l_ttlMs l); SqlNumber (l_ttlDeadline l);
    SqlNumber (l_lastRenewedAt l); flagValue (Some (l_idChosenByRequester l)) ].

Definition requestValues (q : LeaseRequestRecord LeaseGrant) : list SqliteValue :=
  let request := q_request q in
  [ SqlText (q_id q); SqlText (q_requesterId q); SqlText (q_ownerId q);
    optional (SqlText <$> q_idempotencyKey q); optional (SqlText <$> q_leaseId q);
    optional (SqlText <$> q_fleetRequestId q); SqlText (platform_text (rq_platform request));
    optional (SqlText <$> rq_model request); optional (SqlText <$> rq_osVersion request);
    optional (SqlText <$> (mode_text <$> rq_mode request)); optional (SqlText <$> rq_imageTag request);
    optional (SqlText <$> rq_baseline request); except_value (rq_except request);
    optional (SqlText <$> (class_text <$> rq_class request)); flagValue (rq_physical request);
    SqlNumber (q_createdAt q); SqlText (request_state_text (q_state q));
    optional (SqlNumber <$> q_settledAt q); optional (SqlText <$> (f_code <$> q_failure q));
    optional (SqlText <$> (f_message <$> q_failure q)) ].

Definition grantValues (requestId : string) (g : LeaseGrant) : list SqliteValue :=
  let l := g_lease g in
  [ SqlText requestId; SqlText (dev_id (g_device g)); SqlText (l_id l); SqlText (l_requesterId l);
    SqlText (l_ownerId l); SqlNumber (l_grantedAt l); SqlNumber (l_ttlMs l);
    SqlNumber (l_ttlDeadline l); SqlNumber (l_lastRenewedAt l);
    flagValue (Some (l_idChosenByRequester l)); SqlNumber (estimatedProvisionMs (g_timing g));
    SqlNumber (estimatedBootMs (g_timing g)); SqlNumber (estimatedReclaimMs (g_timing g));
    SqlNumber (estimatedReadyMs (g_timing g)) ].

(** The rows of each record. *)
Definition device_row (d : DeviceRecord) : Row := zip DEVICE_COLUMNS (deviceValues d).
Definition app_row (deviceId : string) (position : nat) (app : string) : Row :=
  [("device_id", SqlText deviceId); ("position", SqlNumber (Z.of_nat position)); ("app", SqlText app)].
Definition lease_row (l : LeaseRecord) : Row := zip LEASE_COLUMNS (leaseValues l).
Definition request_row (q : LeaseRequestRecord LeaseGrant) : Row :=
  zip REQUEST_COLUMNS (requestValues q).
Definition grant_row (requestId : string) (g : LeaseGrant) : Row :=
  zip GRANT_COLUMNS (grantValues requestId g).
Definition environment_row (requestId : string) (entry : string * string) : Row :=
  [("request_id", SqlText requestId); ("name", SqlText entry.1); ("value", SqlText entry.2)].
Definition component_row (c : ComponentRecord) : Row :=
  [("platform", SqlText (platform_text (cp_platform c))); ("version", SqlText (cp_version c));
   ("installed_at", SqlNumber (cp_installedAt c))].
Definition receipt_row (c : ComponentRecord) (entry : string * string) : Row :=
  [("platform", SqlText (platform_text (cp_platform c))); ("version", SqlText (cp_version c));
   ("key", SqlText entry.1); ("value", SqlText entry.2)].

(** ** The database *)

(** A driver's table of device data, on the part [Data] of the database that is the drivers'. *)
Record DeviceDataTable (Data : Type) := MkDeviceData {
  dt_name : string;
  dt_write : string → opaque → Data → result string Data;
  dt_read : string → Data → result string opaque }.
Arguments dt_name {Data}. Arguments dt_write {Data}. Arguments dt_read {Data}.
Arguments MkDeviceData {Data}.

Record Database (Data : Type) := MkDatabase {
  tables : Tables TableName;
  device_data : Data }.
Arguments MkDatabase {Data}. Arguments tables {Data}. Arguments device_data {Data}.
#[export] Instance Database_eta {Data} : Eta (Database Data) := λ db,
  MkDatabase (tables db) (device_data db).

Inductive WriteError :=
| SqlFailed (e : SqlError)
| NoTableFor (platform : Platform)
| DataRefused (message : string).

(** [for (const x of l) f(x)]. *)
Definition for_each {S E A} (f : A → action S E unit) (l : list A) : action S E unit :=
  foldr (λ x rest, _ ← f x; rest) (mret tt) l.

Section rows.
Context {Data : Type} (deviceData : Platform → option (DeviceDataTable Data)).
Local Abbreviation Database := (Database Data).
Local Abbreviation op := (action Database WriteError unit).

Definition run_statement (statement : Tables TableName → result SqlError (Tables TableName)) : op :=
  λ db, match statement (tables db) with
        | Ok ts => (db <| tables := ts |>, Ok tt)
        | Err e => (db, Err (SqlFailed e))
        end.
Definition insert_into (t : TableName) (row : Row) : op := run_statement (insert_row t row).
Definition upsert_into (t : TableName) (row : Row) : op := run_statement (upsert_row t row).
Definition delete_from (t : TableName) (columns : list string) (key : list SqliteValue) : op :=
  run_statement (delete_rows t columns key).

(** ** Writers *)

(** [table.write(database, id, driverData)]. *)
Definition write_data (table : DeviceDataTable Data) (i : string) (data : opaque) : op := λ db,
  match dt_write table i data (device_data db) with
  | Ok d => (db <| device_data := d |>, Ok tt)
  | Err message => (db, Err (DataRefused message))
  end.

Definition writeDevice (d : DeviceRecord) : op :=
  _ ← upsert_into t_devices (device_row d);
  match d with
  | Physical p =>
      _ ← delete_from t_device_enrolled_apps ["device_id"] [SqlText (dev_id d)];
      for_each (insert_into t_device_enrolled_apps) (imap (app_row (dev_id d)) (p_enrolledApps p))
  | Virtual v =>
      match deviceData (vs_platform (v_spec v)) with
      | None => throw (NoTableFor (vs_platform (v_spec v)))
      | Some table => write_data table (dev_id d) (driverData (v_fields v))
      end
  end.
Definition deleteDevice (i : string) : op :=
  _ ← delete_from t_device_enrolled_apps ["device_id"] [SqlText i];
  delete_from t_devices ["id"] [SqlText i].
Definition writeLease (l : LeaseRecord) : op := upsert_into t_leases (lease_row l).
Definition deleteLease (i : string) : op := delete_from t_leases ["id"] [SqlText i].

Definition writeLeaseRequest (q : LeaseRequestRecord LeaseGrant) : op :=
  _ ← upsert_into t_lease_requests (request_row q);
  match q_grant q with
  | None => mret tt
  | Some g =>
      _ ← upsert_into t_lease_grants (grant_row (q_id q) g);
      _ ← delete_from t_lease_grant_environment ["request_id"] [SqlText (q_id q)];
      for_each (λ entry, insert_into t_lease_grant_environment (environment_row (q_id q) entry))
        (g_environment g)
  end.
Definition deleteLeaseRequest (i : string) : op :=
  _ ← delete_from t_lease_grant_environment ["request_id"] [SqlText i];
  _ ← delete_from t_lease_grants ["request_id"] [SqlText i];
  delete_from t_lease_requests ["id"] [SqlText i].

Definition component_key (k : Platform * string) : list SqliteValue :=
  [SqlText (platform_text k.1); SqlText k.2].
Definition deleteComponentRows (k : Platform * string) : op :=
  _ ← delete_from t_component_receipt ["platform"; "version"] (component_key k);
  delete_from t_components ["platform"; "version"] (component_key k).
Definition writeComponent (c : ComponentRecord) : op :=
  _ ← deleteComponentRows (componentKey c);
  _ ← insert_into t_components (component_row c);
  for_each (λ entry, insert_into t_component_receipt (receipt_row c entry)) (cp_receipt c).

(** The transaction of a commit that turns [before] into [after]. *)
Definition write_changes_of (before after : Contents) : op :=
  let device := changes same_record dev_id (ct_devices before) (ct_devices after) in
  let lease := changes same_record l_id (ct_leases before) (ct_leases after) in
  let request := changes same_record q_id (ct_requests before) (ct_requests after) in
  let component := changes same_record componentKey (ct_components before) (ct_components after) in
  _ ← for_each deleteLeaseRequest request.2;
  _ ← for_each deleteDevice device.2;
  _ ← for_each writeDevice device.1;
  _ ← for_each deleteLease lease.2;
  _ ← for_each writeLease lease.1;
  _ ← for_each writeLeaseRequest request.1;
  _ ← for_each deleteComponentRows component.2;
  for_each writeComponent component.1.
Definition persist (before after : Contents) : op := inTransaction (write_changes_of before after).

(** The transactions of a list of commits, each from what the one before it left. *)
Fixpoint persist_all (before : Contents) (l : list Contents) : op :=
  match l with
  | [] => mret tt
  | after :: l => _ ← persist before after; persist_all after l
  end.

(** ** Loading *)

Local Abbreviation reads A := (result RegistryLoadError A).

Fixpoint fold_rows {A} (f : A → Row → reads A) (a : A) (rows : list Row) : reads A :=
  match rows with
  | [] => Ok a
  | row :: rows => a ← f a row; fold_rows f a rows
  end.

Definition read_device_data (platform : Platform) (i : string) (data : Data) : reads opaque :=
  match deviceData platform with
  | None => Err (NoDeviceDataTable i platform)
  | Some table =>
      match dt_read table i data with
      | Ok o => Ok o
      | Err message => Err (NoDeviceDataRow i (dt_name table) message)
      end
  end.

Definition read_numbers (reader : RowReader) (f : DeviceRecordFields) : reads DeviceRecordFields :=
  foldr (λ '(_, assign, column) rest f, v ← optInt reader column; rest (assign v f))
    (λ f, Ok f) DEVICE_OPTIONAL_NUMBERS f.

(** [{}], the driver data of a physical device. *)
Definition no_driver_data : opaque := Opaque "{}".

(** The fields both kinds share. *)
Definition read_shared (reader : RowReader) (i : string) : reads DeviceRecordFields :=
  created ← int_of reader "created_at";
  driverId ← text_of reader "driver_device_id";
  f ← read_numbers reader
        (MkFields i driverId no_driver_data created None None None None None None None None None None
           None None None None);
  addr ← optText reader "address";
  deferred ← optText reader "deferred_reclaim_lease_id";
  cause ← read_cause reader;
  Ok (f <| address := addr |> <| deferredReclaimLeaseId := deferred |> <| quarantineCause := cause |>).

Definition deviceFromRow (data : Data) (appsByDevice : gmap string (list string)) (row : Row)
    : reads DeviceRecord :=
  let reader := MkReader "devices" (js_String (row_get row "id")) row in
  i ← text_of reader "id";
  platform ← oneOf reader platform_text "platform" PLATFORMS;
  physical ← flag_of reader "physical";
  shared ← read_shared reader i;
  model ← text_of reader "model";
  osVersion ← text_of reader "os_version";
  if (physical : bool) then
    since ← optInt reader "reclaiming_since";
    reason ← optOneOf reader absent_text "absent_reason" ABSENT_REASONS;
    class ← oneOf reader physical_class_text "class" PHYSICAL_CLASSES;
    state ← oneOf reader state_text "state" PHYSICAL_STATES;
    Ok (Physical (MkPhysical shared (MkPhysicalSpec platform model osVersion class) state
      (default [] (appsByDevice !! i)) since reason))
  else
    driver ← read_device_data platform i data;
    identity ← optOneOf reader identity_text "lease_identity" LEASE_IDENTITIES;
    except ← exceptOf reader;
    mode ← oneOf reader mode_text "mode" DEVICE_MODES;
    baseline ← baselineOf reader;
    tag ← optText reader "image_tag";
    specMode ← optOneOf reader mode_text "spec_mode" [slim];
    state ← oneOf reader state_text "state" VIRTUAL_STATES;
    Ok (Virtual (MkVirtual (shared <| driverData := driver |>)
      (MkVirtualSpec platform model osVersion (specMode !== None) tag baseline) state mode except
      identity)).

Definition leaseFromRow (table key : string) (row : Row) (idColumn : string) : reads LeaseRecord :=
  let reader := MkReader table key row in
  deviceId ← text_of reader "device_id";
  grantedAt ← int_of reader "granted_at";
  i ← text_of reader idColumn;
  chosen ← flag_of reader "id_chosen_by_requester";
  lastRenewedAt ← int_of reader "last_renewed_at";
  ownerId ← text_of reader "owner_id";
  requesterId ← text_of reader "requester_id";
  ttlDeadline ← int_of reader "ttl_deadline";
  ttlMs ← int_of reader "ttl_ms";
  Ok (MkLease i deviceId requesterId ownerId grantedAt ttlMs ttlDeadline lastRenewedAt chosen).

Definition requestFromRow (reader : RowReader) : reads DeviceRequest :=
  platform ← oneOf reader platform_text "platform" PLATFORMS;
  model ← optText reader "model";
  osVersion ← optText reader "os_version";
  mode ← optOneOf reader mode_text "mode" DEVICE_MODES;
  tag ← optText reader "image_tag";
  baseline ← optText reader "baseline";
  except ← exceptOf reader;
  class ← optOneOf reader class_text "class" DEVICE_CLASSES;
  physical ← optFlag reader "physical";
  Ok (MkRequest platform model osVersion mode tag except baseline class physical).

Definition grantFromRow (requestId : string) (row : Row) (devices : gmap string DeviceRecord)
    (environment : list (string * string)) : reads LeaseGrant :=
  let reader := MkReader "lease_grants" requestId row in
  deviceId ← text_of reader "device_id";
  match devices !! deviceId with
  | None => Err (NoGrantDevice requestId deviceId)
  | Some device =>
      boot ← int_of reader "estimated_boot_ms";
      provision ← int_of reader "estimated_provision_ms";
      readyMs ← int_of reader "estimated_ready_ms";
      reclaim ← int_of reader "estimated_reclaim_ms";
      lease ← leaseFromRow "lease_grants" requestId (("id", row_get row "lease_id") :: row) "id";
      Ok (MkGrant device environment lease (MkTiming provision boot reclaim readyMs))
  end.

(** Rows gathered under a key: a list to push to, and an object whose properties are set. *)
Definition gather_apps (apps : gmap string (list string)) (row : Row) : reads (gmap string (list string)) :=
  let reader := MkReader "device_enrolled_apps" (js_String (row_get row "device_id")) row in
  deviceId ← text_of reader "device_id";
  app ← text_of reader "app";
  Ok (<[deviceId := default [] (apps !! deviceId) ++ [app]]> apps).
Definition gather_environment (environments : gmap string (list (string * string))) (row : Row)
    : reads (gmap string (list (string * string))) :=
  let reader := MkReader "lease_grant_environment" (js_String (row_get row "request_id")) row in
  requestId ← text_of reader "request_id";
  name ← text_of reader "name";
  value ← text_of reader "value";
  Ok (<[requestId := Ordered.set name value (default [] (environments !! requestId))]> environments).
Definition gather_receipt (receipts : gmap (string * string) (list (string * string))) (row : Row)
    : reads (gmap (string * string) (list (string * string))) :=
  let reader := MkReader "component_receipt"
    (js_String (row_get row "platform") +:+ "/" +:+ js_String (row_get row "version")) row in
  platform ← text_of reader "platform";
  version ← text_of reader "version";
  key ← text_of reader "key";
  value ← text_of reader "value";
  Ok (<[(platform, version) := Ordered.set key value (default [] (receipts !! (platform, version)))]>
        receipts).

Definition requestRecordFromRow (devices : gmap string DeviceRecord)
    (environments : gmap string (list (string * string))) (grants : gmap string Row) (row : Row)
    : reads (LeaseRequestRecord LeaseGrant) :=
  let reader := MkReader "lease_requests" (js_String (row_get row "id")) row in
  i ← text_of reader "id";
  state ← oneOf reader request_state_text "state" LEASE_REQUEST_STATES;
  let grantRow := grants !! i in
  _ ← require ((state === granted) === bool_decide (is_Some grantRow)) (GrantDisagrees i state);
  failureCode ← optText reader "failure_code";
  created ← int_of reader "created_at";
  idempotencyKey ← optText reader "idempotency_key";
  leaseId ← optText reader "lease_id";
  fleetRequestId ← optText reader "fleet_request_id";
  ownerId ← text_of reader "owner_id";
  request ← requestFromRow reader;
  requesterId ← text_of reader "requester_id";
  settledAt ← optInt reader "settled_at";
  failure ← match failureCode with
            | None => Ok None
            | Some code => message ← text_of reader "failure_message"; Ok (Some (MkFailure code message))
            end;
  grant ← match grantRow with
          | None => Ok None
          | Some g =>
              grant ← grantFromRow i g devices (default [] (environments !! i)); Ok (Some grant)
          end;
  Ok (MkRequestRecord i requesterId ownerId idempotencyKey leaseId fleetRequestId request created state
        settledAt grant failure).

Definition loadLeaseRequests (db : Database) (devices : gmap string DeviceRecord)
    : reads (list (LeaseRequestRecord LeaseGrant)) :=
  environments ← fold_rows gather_environment ∅ (tables db t_lease_grant_environment);
  let grants : gmap string Row :=
    foldl (λ m row, <[js_String (row_get row "request_id") := row]> m) ∅ (tables db t_lease_grants) in
  mapM (requestRecordFromRow devices environments grants) (tables db t_lease_requests).

Definition componentFromRow (receipts : gmap (string * string) (list (string * string))) (row : Row)
    : reads ComponentRecord :=
  let reader := MkReader "components"
    (js_String (row_get row "platform") +:+ "/" +:+ js_String (row_get row "version")) row in
  platform ← oneOf reader platform_text "platform" PLATFORMS;
  version ← text_of reader "version";
  installedAt ← int_of reader "installed_at";
  Ok (MkComponent platform version installedAt
        (default [] (receipts !! (platform_text platform, version)))).
Definition loadComponents (db : Database) : reads (list ComponentRecord) :=
  receipts ← fold_rows gather_receipt ∅ (tables db t_component_receipt);
  mapM (componentFromRow receipts) (tables db t_components).

Definition loadRegistryRows (db : Database) : reads Contents :=
  appsByDevice ← fold_rows gather_apps ∅
    (sort_by (order_by ["device_id"; "position"]) (tables db t_device_enrolled_apps));
  devices ← mapM (deviceFromRow (device_data db) appsByDevice) (tables db t_devices);
  leases ← mapM (λ row, leaseFromRow "leases" (js_String (row_get row "id")) row "id")
             (tables db t_leases);
  let byId : gmap string DeviceRecord := foldl (λ m d, <[dev_id d := d]> m) ∅ devices in
  components ← loadComponents db;
  requests ← loadLeaseRequests db byId;
  Ok (MkContents devices leases requests components).
End rows.
