(* ===== verification/RowsRead.v ===== *)
(** * Reading the registry's rows back: [src/core/registry-rows.ts]

    What each reader of a row answers on the row its record was written as. *)
From Stdlib Require Import Ascii.
From stdpp Require Import base strings list option numbers gmap sets.
From S2P Require Import Prelude JsString OsRange Domain Resolve RequestStore Registry Ordered Sqlite Rows.

(** ** Reading a row back *)

Lemma bind_of_Ok {E A B} (f : A → result E B) (a : A) : (Ok a ≫= f) = f a.
Proof. done. Qed.

(** An except list that can be told from its names joined by commas. *)
Definition except_ok (except : option (list string)) : Prop :=
  ∀ l, except = Some l → l ≠ [] ∧ Forall (λ name, str_all (λ c, negb (c === ","%char)) name = true) l.
Definition cause_ok (cause : option QuarantineCause) : Prop :=
  ∀ c state, cause = Some c → qc_stalledState c = Some state → state ∈ STALLED_STATES.

Section reading.
Context (reader : RowReader).
Local Abbreviation got c := (row_get (rw_row reader) c).

Lemma optText_eq c v : got c = optional (SqlText <$> v) → optText reader c = Ok v.
Proof. unfold optText, present_value. intros ->. by destruct v. Qed.
Lemma text_of_eq c s : got c = SqlText s → text_of reader c = Ok s.
Proof. intros E. unfold text_of. by rewrite (optText_eq c (Some s)) by done. Qed.
Lemma optInt_eq c v : got c = optional (SqlNumber <$> v) → optInt reader c = Ok v.
Proof. unfold optInt, present_value. intros ->. by destruct v. Qed.
Lemma int_of_eq c n : got c = SqlNumber n → int_of reader c = Ok n.
Proof. intros E. unfold int_of. by rewrite (optInt_eq c (Some n)) by done. Qed.
Lemma optFlag_eq c v : got c = flagValue v → optFlag reader c = Ok v.
Proof. unfold optFlag, present_value. intros ->. by destruct v as [[]|]. Qed.
Lemma flag_of_eq c b : got c = flagValue (Some b) → flag_of reader c = Ok b.
Proof. intros E. unfold flag_of. by rewrite (optFlag_eq c (Some b)) by done. Qed.
Lemma optOneOf_eq {A} (name : A → string) c allowed v : got c = optional (SqlText <$> (name <$> v)) →
  (∀ a, v = Some a → a ∈ allowed) → (∀ a b, a ∈ allowed → b ∈ allowed → name a = name b → a = b) →
  optOneOf reader name c allowed = Ok v.
Proof.
  intros E Hin Hinj. unfold optOneOf. rewrite (optText_eq c (name <$> v)) by done.
  destruct v as [a|]; [|done]. cbn. destruct (Arr.find _ allowed) as [b|] eqn:Ef.
  - apply afind_Some in Ef as [Hb Hk%bool_decide_eq_true]. by rewrite (Hinj b a) by auto.
  - rewrite afind_None in Ef. specialize (Ef a (Hin a eq_refl)). cbn in Ef.
    by rewrite bool_decide_eq_true_2 in Ef.
Qed.
Lemma oneOf_eq {A} (name : A → string) c allowed a : got c = SqlText (name a) → a ∈ allowed →
  (∀ a b, a ∈ allowed → b ∈ allowed → name a = name b → a = b) → oneOf reader name c allowed = Ok a.
Proof.
  intros E Hin Hinj. unfold oneOf. rewrite (optOneOf_eq name c allowed (Some a)); [done|done| |done].
  by intros ? [= <-].
Qed.
Lemma exceptOf_eq v : got "except_categories" = except_value v → except_ok v → exceptOf reader = Ok v.
Proof.
  intros E Hv. unfold exceptOf. rewrite (optText_eq _ (join "," <$> v)) by (by destruct v).
  destruct v as [l|]; [|done]. cbn. destruct (Hv l eq_refl) as [Hne Hl].
  by rewrite split_join.
Qed.
Lemma read_cause_eq v :
  key_values ["quarantine_cause_kind"; "quarantine_cause_stalled_state"; "quarantine_cause_message"]
    (rw_row reader) = causeColumns v → cause_ok v → read_cause reader = Ok v.
Proof.
  intros [= Ek Es Em] Hv. unfold read_cause.
  rewrite (optOneOf_eq cause_text _ _ (qc_kind <$> v)); [|by destruct v| |by intros [] []].
  2:{ intros [] _; vm_compute; set_solver. }
  destruct v as [[kind state message]|]; [|done]. cbn in Es, Em |- *.
  rewrite (optOneOf_eq state_text _ _ state); [|done| |by intros [] []].
  2:{ intros a ->. by apply (Hv (MkCause kind (Some a) message)). }
  cbn. by rewrite (optText_eq _ message).
Qed.
Lemma baselineOf_eq (v : option BaselineRef) :
  got "baseline_name" = optional (SqlText <$> (bl_name <$> v)) →
  got "baseline_version" = optional (SqlNumber <$> (bl_version <$> v)) → baselineOf reader = Ok v.
Proof.
  intros En Ev. unfold baselineOf. rewrite (optText_eq _ _ En), (optInt_eq _ _ Ev). by destruct v as [[]|].
Qed.
Lemma read_numbers_eq f f0 : Forall (λ '(property, _, column),
    got column = optional (SqlNumber <$> property f)) DEVICE_OPTIONAL_NUMBERS →
  read_numbers reader f0 = Ok (foldl (λ g '(property, assign, _), assign (property f) g) f0
    DEVICE_OPTIONAL_NUMBERS).
Proof.
  unfold read_numbers. revert f0. induction DEVICE_OPTIONAL_NUMBERS as [|[[property assign] column] l IH];
    intros f0 Hl; [done|]. apply Forall_cons in Hl as [Hc Hl]. cbn.
  rewrite (optInt_eq _ _ Hc). cbn. by apply IH.
Qed.
End reading.

(** Names are told apart. *)
Lemma platform_text_inj a b : platform_text a = platform_text b → a = b.
Proof. by destruct a, b. Qed.
Lemma mode_text_inj a b : mode_text a = mode_text b → a = b.
Proof. by destruct a, b. Qed.
Lemma state_text_inj a b : state_text a = state_text b → a = b.
Proof. by destruct a, b. Qed.
Lemma class_text_inj a b : class_text a = class_text b → a = b.
Proof. by destruct a, b. Qed.

(** One property after the other. *)
Ltac read_with H := rewrite H; [rewrite bind_of_Ok; cbv beta|..].

(** The columns of a device's row. *)
Lemma read_shared_eq d key : cause_ok (quarantineCause (dev_fields d)) →
  read_shared (MkReader "devices" key (device_row d)) (dev_id d)
  = Ok ((dev_fields d) <| driverData := no_driver_data |>).
Proof.
  intros Hc. unfold read_shared.
  read_with (int_of_eq (MkReader "devices" key (device_row d)) "created_at" (createdAt (dev_fields d)));
    [|by destruct d].
  read_with (text_of_eq (MkReader "devices" key (device_row d)) "driver_device_id"
    (driverDeviceId (dev_fields d))); [|by destruct d].
  read_with (read_numbers_eq (MkReader "devices" key (device_row d)) (dev_fields d));
    [|by repeat constructor; destruct d].
  read_with (optText_eq (MkReader "devices" key (device_row d)) "address" (address (dev_fields d)));
    [|by destruct d].
  read_with (optText_eq (MkReader "devices" key (device_row d)) "deferred_reclaim_lease_id"
    (deferredReclaimLeaseId (dev_fields d))); [|by destruct d].
  read_with (read_cause_eq (MkReader "devices" key (device_row d)) (quarantineCause (dev_fields d)));
    [|by destruct d|done].
  done.
Qed.

Section read_records.
Context {Data : Type} (deviceData : Platform → option (DeviceDataTable Data)).

(** A device the row of which says all of it: one the drivers' table holds the data of, or a
    physical one with none. *)
Definition device_readable (data : Data) (d : DeviceRecord) : Prop :=
  cause_ok (quarantineCause (dev_fields d)) ∧ wf_device d = true ∧
  match d with
  | Virtual v =>
      except_ok (v_except v)
      ∧ read_device_data deviceData (vs_platform (v_spec v)) (dev_id d) data = Ok (driverData (v_fields v))
  | Physical p => driverData (p_fields p) = no_driver_data
  end.

Lemma virtual_states s : isVirtualState s = true → s ∈ VIRTUAL_STATES.
Proof. destruct s; try done; intros _; vm_compute; set_solver. Qed.
Lemma physical_states s : isPhysicalState s = true → s ∈ PHYSICAL_STATES.
Proof. destruct s; try done; intros _; vm_compute; set_solver. Qed.
Lemma platforms_all (p : Platform) : p ∈ PLATFORMS.
Proof. destruct p; vm_compute; set_solver. Qed.

Lemma deviceFromRow_eq data apps d : device_readable data d →
  (∀ p, d = Physical p → default [] (apps !! dev_id d) = p_enrolledApps p) →
  deviceFromRow deviceData data apps (device_row d) = Ok d.
Proof.
  intros (Hcause & Hwf & Hd) Happs. unfold deviceFromRow. cbv zeta.
  set (reader := MkReader "devices" (js_String (row_get (device_row d) "id")) (device_row d)).
  read_with (text_of_eq reader "id" (dev_id d)); [|by destruct d].
  read_with (oneOf_eq reader platform_text "platform" PLATFORMS (spec_platform (dev_spec d)));
    [|by destruct d|apply platforms_all|auto using platform_text_inj].
  read_with (flag_of_eq reader "physical" (dev_physical d)); [|by destruct d].
  read_with (read_shared_eq d _ Hcause : read_shared reader (dev_id d) = _).
  read_with (text_of_eq reader "model" (spec_model (dev_spec d))); [|by destruct d].
  read_with (text_of_eq reader "os_version" (spec_osVersion (dev_spec d))); [|by destruct d].
  destruct d as [v|p]; cbv beta iota delta [dev_physical].
  - destruct Hd as [Hex Hdata]. 
    read_with (Hdata : read_device_data deviceData (spec_platform (dev_spec (Virtual v)))
      (dev_id (Virtual v)) data = _).
    read_with (optOneOf_eq reader identity_text "lease_identity" LEASE_IDENTITIES (v_leaseIdentity v));
      [|done|by intros [] _; vm_compute; set_solver|by intros [] []].
    read_with (exceptOf_eq reader (v_except v)); [|done..].
    read_with (oneOf_eq reader mode_text "mode" DEVICE_MODES (v_mode v));
      [|done|by destruct (v_mode v); vm_compute; set_solver|auto using mode_text_inj].
    read_with (baselineOf_eq reader (vs_baseline (v_spec v))); [|done..].
    read_with (optText_eq reader "image_tag" (vs_imageTag (v_spec v))); [|done].
    read_with (optOneOf_eq reader mode_text "spec_mode" [slim]
      (if vs_slim (v_spec v) then Some slim else None));
      [|by destruct v as [? [? ? ? [] ? ?] ? ? ? ?]|by destruct (vs_slim _); set_solver|auto using mode_text_inj].
    read_with (oneOf_eq reader state_text "state" VIRTUAL_STATES (v_state v));
      [|done|by apply virtual_states|auto using state_text_inj].
    destruct v as [[] [? ? ? [] ? ?] ? ? ? ?]; done.
  - read_with (optInt_eq reader "reclaiming_since" (p_reclaimingSince p)); [|done].
    read_with (optOneOf_eq reader absent_text "absent_reason" ABSENT_REASONS (p_absentReason p));
      [|done|by intros [] _; vm_compute; set_solver|by intros [] []].
    read_with (oneOf_eq reader physical_class_text "class" PHYSICAL_CLASSES (ps_class (p_spec p)));
      [|done|by destruct (ps_class _); vm_compute; set_solver|by intros [] []].
    read_with (oneOf_eq reader state_text "state" PHYSICAL_STATES (p_state p));
      [|done|by apply physical_states|auto using state_text_inj].
    rewrite (Happs p eq_refl). destruct p as [[] [] ? ? ? ?]. cbn in *. by rewrite Hd.
Qed.

Lemma leaseFromRow_eq table key row l : key_values LEASE_COLUMNS row = leaseValues l →
  leaseFromRow table key row "id" = Ok l.
Proof.
  intros [= H1 H2 H3 H4 H5 H6 H7 H8 H9]. unfold leaseFromRow. cbv zeta.
  set (reader := MkReader table key row).
  read_with (text_of_eq reader "device_id" (l_deviceId l)); [|done].
  read_with (int_of_eq reader "granted_at" (l_grantedAt l)); [|done].
  read_with (text_of_eq reader "id" (l_id l)); [|done].
  read_with (flag_of_eq reader "id_chosen_by_requester" (l_idChosenByRequester l)); [|done].
  read_with (int_of_eq reader "last_renewed_at" (l_lastRenewedAt l)); [|done].
  read_with (text_of_eq reader "owner_id" (l_ownerId l)); [|done].
  read_with (text_of_eq reader "requester_id" (l_requesterId l)); [|done].
  read_with (int_of_eq reader "ttl_deadline" (l_ttlDeadline l)); [|done].
  read_with (int_of_eq reader "ttl_ms" (l_ttlMs l)); [|done].
  by destruct l.
Qed.

Lemma grantFromRow_eq requestId g (devices : gmap string DeviceRecord) device environment :
  devices !! dev_id (g_device g) = Some device → l_deviceId (g_lease g) = dev_id (g_device g) →
  grantFromRow requestId (grant_row requestId g) devices environment
  = Ok (MkGrant device environment (g_lease g) (g_timing g)).
Proof.
  intros Hd Hl. unfold grantFromRow. cbv zeta.
  set (reader := MkReader "lease_grants" requestId (grant_row requestId g)).
  read_with (text_of_eq reader "device_id" (dev_id (g_device g))); [|done]. rewrite Hd.
  read_with (int_of_eq reader "estimated_boot_ms" (estimatedBootMs (g_timing g))); [|done].
  read_with (int_of_eq reader "estimated_provision_ms" (estimatedProvisionMs (g_timing g))); [|done].
  read_with (int_of_eq reader "estimated_ready_ms" (estimatedReadyMs (g_timing g))); [|done].
  read_with (int_of_eq reader "estimated_reclaim_ms" (estimatedReclaimMs (g_timing g))); [|done].
  rewrite (leaseFromRow_eq _ _ _ (g_lease g)); [by destruct g as [? ? ? []]|].
  unfold leaseValues. by rewrite Hl.
Qed.

Lemma requestFromRow_eq key q : except_ok (rq_except (q_request q)) →
  requestFromRow (MkReader "lease_requests" key (request_row q)) = Ok (q_request q).
Proof.
  intros Hex. unfold requestFromRow. set (reader := MkReader "lease_requests" key (request_row q)).
  set (r := q_request q) in *.
  read_with (oneOf_eq reader platform_text "platform" PLATFORMS (rq_platform r));
    [|done|apply platforms_all|auto using platform_text_inj].
  read_with (optText_eq reader "model" (rq_model r)); [|done].
  read_with (optText_eq reader "os_version" (rq_osVersion r)); [|done].
  read_with (optOneOf_eq reader mode_text "mode" DEVICE_MODES (rq_mode r));
    [|done|by intros [] _; vm_compute; set_solver|auto using mode_text_inj].
  read_with (optText_eq reader "image_tag" (rq_imageTag r)); [|done].
  read_with (optText_eq reader "baseline" (rq_baseline r)); [|done].
  read_with (exceptOf_eq reader (rq_except r)); [|done..].
  read_with (optOneOf_eq reader class_text "class" DEVICE_CLASSES (rq_class r));
    [|done|by intros [] _; vm_compute; set_solver|auto using class_text_inj].
  read_with (optFlag_eq reader "physical" (rq_physical r)); [|done].
  by destruct r.
Qed.

(** The request with its grant as it is read: the device it names as it is now. *)
Definition current (devices : gmap string DeviceRecord) (q : LeaseRequestRecord LeaseGrant)
    : LeaseRequestRecord LeaseGrant :=
  match q_grant q with
  | None => q
  | Some g => match devices !! dev_id (g_device g) with
              | None => q
              | Some device => q <| q_grant := Some (g <| g_device := device |>) |>
              end
  end.

Lemma requestRecordFromRow_eq devices environments grants q :
  except_ok (rq_except (q_request q)) → (q_state q = granted ↔ q_grant q ≠ None) →
  grants !! q_id q = grant_row (q_id q) <$> q_grant q →
  (∀ g, q_grant q = Some g → is_Some (devices !! dev_id (g_device g))
     ∧ l_deviceId (g_lease g) = dev_id (g_device g)
     ∧ default [] (environments !! q_id q) = g_environment g) →
  requestRecordFromRow devices environments grants (request_row q) = Ok (current devices q).
Proof.
  intros Hex Hst Hgr Hg. unfold requestRecordFromRow. cbv zeta.
  set (reader := MkReader "lease_requests" (js_String (row_get (request_row q) "id")) (request_row q)).
  read_with (text_of_eq reader "id" (q_id q)); [|done].
  read_with (oneOf_eq reader request_state_text "state" LEASE_REQUEST_STATES (q_state q));
    [|done|by destruct (q_state q); vm_compute; set_solver|by intros [] []].
  rewrite Hgr.
  assert (require ((q_state q === granted) === bool_decide (is_Some (grant_row (q_id q) <$> q_grant q)))
    (GrantDisagrees (q_id q) (q_state q)) = Ok tt) as Hreq.
  { apply require_Ok, bool_decide_eq_true, bool_decide_ext. rewrite fmap_is_Some, Hst.
    by rewrite not_eq_None_Some. }
  read_with Hreq.
  read_with (optText_eq reader "failure_code" (f_code <$> q_failure q)); [|done].
  read_with (int_of_eq reader "created_at" (q_createdAt q)); [|done].
  read_with (optText_eq reader "idempotency_key" (q_idempotencyKey q)); [|done].
  read_with (optText_eq reader "lease_id" (q_leaseId q)); [|done].
  read_with (optText_eq reader "fleet_request_id" (q_fleetRequestId q)); [|done].
  read_with (text_of_eq reader "owner_id" (q_ownerId q)); [|done].
  read_with (requestFromRow_eq _ q Hex : requestFromRow reader = _).
  read_with (text_of_eq reader "requester_id" (q_requesterId q)); [|done].
  read_with (optInt_eq reader "settled_at" (q_settledAt q)); [|done].
  assert (match f_code <$> q_failure q with
          | None => Ok None
          | Some code => message ← text_of reader "failure_message"; Ok (Some (MkFailure code message))
          end = Ok (q_failure q)) as Hf.
  { destruct (q_failure q) as [[code message]|] eqn:E; [|done]. cbn [fmap option_fmap option_map f_code].
    by read_with (text_of_eq reader "failure_message" message); [|cbn; by rewrite E]. }
  read_with Hf. unfold current.
  destruct (q_grant q) as [g|] eqn:Eg; cbn [fmap option_fmap option_map].
  - destruct (Hg g eq_refl) as ([device Hd] & Hl & He). rewrite He, Hd.
    read_with (grantFromRow_eq (q_id q) g devices device (g_environment g) Hd Hl). by destruct q.
  - destruct q. cbn in *. by subst.
Qed.

Lemma componentFromRow_eq receipts c :
  default [] (receipts !! (platform_text (cp_platform c), cp_version c)) = cp_receipt c →
  componentFromRow receipts (component_row c) = Ok c.
Proof.
  intros Hr. unfold componentFromRow. cbv zeta. set (key := _ +:+ _ +:+ _).
  set (reader := MkReader "components" key (component_row c)).
  read_with (oneOf_eq reader platform_text "platform" PLATFORMS (cp_platform c));
    [|done|apply platforms_all|auto using platform_text_inj].
  read_with (text_of_eq reader "version" (cp_version c)); [|done].
  read_with (int_of_eq reader "installed_at" (cp_installedAt c)); [|done].
  rewrite Hr. by destruct c.
Qed.
End read_records.
