(* ===== verification/Keyed.v ===== *)
(** * Records under keys: [changes] of [src/core/registry.ts]

    Lists of records with distinct keys, the difference [changes] finds between two of them, and
    that dropping what is gone and putting what changed turns the one into the other, in order. *)
From stdpp Require Import base strings list option numbers gmap fin_maps sets sorting.
From S2P Require Import Prelude JsString OsRange Domain RequestStore Registry RegistryInv.

(** ** Keyed lists *)

Section keyed.
Context {K T : Type} `{Countable K, EqDecision T} (keyOf : T → K).
Implicit Types (l before after : list T) (k : K).

Definition drop_key k l : list T := Arr.filter (λ x, keyOf x !== k) l.
(** In place when the key is there, at the end when it is new. *)
Definition put (r : T) l : list T :=
  if Arr.some (λ x, keyOf x === keyOf r) l then (λ x, if keyOf x === keyOf r then r else x) <$> l
  else l ++ [r].
(** At the end in any case. *)
Definition put_last (r : T) l : list T := drop_key (keyOf r) l ++ [r].

Lemma elem_of_drop_key k l x : x ∈ drop_key k l ↔ x ∈ l ∧ keyOf x ≠ k.
Proof. unfold drop_key. by rewrite elem_of_afilter, negb_true_iff, bool_decide_eq_false. Qed.
Lemma elem_of_put r l x : x ∈ put r l ↔ x = r ∨ (x ∈ l ∧ keyOf x ≠ keyOf r).
Proof.
  unfold put. destruct (Arr.some _ l) eqn:E.
  - apply asome_true in E as (y & Hy & Hk%bool_decide_eq_true). rewrite list_elem_of_fmap. split.
    + intros (z & -> & Hz). case_bool_decide; auto.
    + intros [->|[Hx Hne]].
      * exists y. by rewrite bool_decide_eq_true_2.
      * exists x. by rewrite bool_decide_eq_false_2.
  - rewrite elem_of_app, list_elem_of_singleton. rewrite asome_false in E. split; [|tauto].
    intros [Hx| ->]; [|by left]. right. split; [done|]. specialize (E x Hx).
    by apply bool_decide_eq_false in E.
Qed.
Lemma elem_of_put_last r l x : x ∈ put_last r l ↔ x = r ∨ (x ∈ l ∧ keyOf x ≠ keyOf r).
Proof. unfold put_last. rewrite elem_of_app, elem_of_drop_key, list_elem_of_singleton. tauto. Qed.

Lemma put_keys r l : keyOf <$> put r l
  = if bool_decide (keyOf r ∈ keyOf <$> l) then keyOf <$> l else (keyOf <$> l) ++ [keyOf r].
Proof.
  unfold put. destruct (Arr.some _ l) eqn:E.
  - apply asome_true in E as (y & Hy & Hk%bool_decide_eq_true).
    rewrite bool_decide_eq_true_2 by (rewrite <- Hk; by apply list_elem_of_fmap_2).
    rewrite <- list_fmap_compose. apply list_fmap_ext. intros i x _. cbn. by case_bool_decide.
  - rewrite asome_false in E. rewrite bool_decide_eq_false_2; [by rewrite fmap_app|].
    intros (x & Hx & Hin)%list_elem_of_fmap. specialize (E x Hin).
    by rewrite bool_decide_eq_true_2 in E.
Qed.
Lemma put_NoDup r l : NoDup (keyOf <$> l) → NoDup (keyOf <$> put r l).
Proof.
  intros Hn. rewrite put_keys. case_bool_decide as Hr; [done|]. apply NoDup_app.
  split_and!; [done| |apply NoDup_singleton]. by intros k Hk ->%list_elem_of_singleton.
Qed.
Lemma drop_key_NoDup k l : NoDup (keyOf <$> l) → NoDup (keyOf <$> drop_key k l).
Proof. intros Hn. eapply sublist_NoDup; [exact Hn|]. apply fmap_sublist, sublist_filter_b. Qed.
Lemma put_last_NoDup r l : NoDup (keyOf <$> l) → NoDup (keyOf <$> put_last r l).
Proof.
  intros Hn. unfold put_last. rewrite fmap_app. apply NoDup_app.
  split_and!; [by apply drop_key_NoDup| |apply NoDup_singleton].
  intros k (x & -> & [_ Hx]%elem_of_drop_key)%list_elem_of_fmap Hk%list_elem_of_singleton. done.
Qed.

(** Many at once. *)
Lemma elem_of_drop_all ks l x : x ∈ foldl (λ l k, drop_key k l) l ks ↔ x ∈ l ∧ keyOf x ∉ ks.
Proof.
  revert l. induction ks as [|k ks IH]; intros l; cbn; [set_solver|].
  rewrite IH, elem_of_drop_key, not_elem_of_cons. tauto.
Qed.
Lemma drop_all_sub ks l : sublist (foldl (λ l k, drop_key k l) l ks) l.
Proof.
  revert l. induction ks as [|k ks IH]; intros l; cbn; [done|]. etrans; [apply IH|].
  apply sublist_filter_b.
Qed.
Lemma elem_of_put_all rs l x : x ∈ foldl (λ l r, put r l) l rs → x ∈ l ∨ x ∈ rs.
Proof.
  revert l. induction rs as [|r rs IH]; intros l; cbn; [by left|].
  intros [[->|[? _]]%elem_of_put|?]%IH; set_solver.
Qed.
Lemma put_all_NoDup rs l : NoDup (keyOf <$> l) → NoDup (keyOf <$> foldl (λ l r, put r l) l rs).
Proof. revert l. induction rs as [|r rs IH]; intros l Hn; cbn; [done|]. by apply IH, put_NoDup. Qed.
(** Among records of distinct keys, the ones put stay. *)
Lemma elem_of_put_all_iff rs l x : NoDup (keyOf <$> rs) →
  x ∈ foldl (λ l r, put r l) l rs ↔ x ∈ rs ∨ (x ∈ l ∧ keyOf x ∉ keyOf <$> rs).
Proof.
  revert l. induction rs as [|r rs IH]; intros l Hn; cbn; [set_solver|].
  apply NoDup_cons in Hn as [Hr Hn]. rewrite IH, elem_of_put, elem_of_cons, not_elem_of_cons by done.
  split; [naive_solver|]. intros [[->|?]|?]; [right|by left|right]; naive_solver.
Qed.
Lemma elem_of_put_last_all rs l x : NoDup (keyOf <$> rs) →
  x ∈ foldl (λ l r, put_last r l) l rs ↔ x ∈ rs ∨ (x ∈ l ∧ keyOf x ∉ keyOf <$> rs).
Proof.
  revert l. induction rs as [|r rs IH]; intros l Hn; cbn; [set_solver|].
  apply NoDup_cons in Hn as [Hr Hn]. rewrite IH, elem_of_put_last, elem_of_cons, not_elem_of_cons by done.
  split; [naive_solver|]. intros [[->|?]|?]; [right|by left|right]; naive_solver.
Qed.
Lemma put_last_all_NoDup rs l : NoDup (keyOf <$> l) →
  NoDup (keyOf <$> foldl (λ l r, put_last r l) l rs).
Proof. revert l. induction rs as [|r rs IH]; intros l Hn; cbn; [done|]. by apply IH, put_last_NoDup. Qed.

Lemma NoDup_of_keys l : NoDup (keyOf <$> l) → NoDup l.
Proof. apply NoDup_fmap_1. Qed.

(** The keys after putting many: the ones there, then the new ones in order. *)
Lemma put_all_keys rs l : NoDup (keyOf <$> rs) →
  keyOf <$> foldl (λ l r, put r l) l rs
  = (keyOf <$> l) ++ Arr.filter (λ k, negb (bool_decide (k ∈ keyOf <$> l))) (keyOf <$> rs).
Proof.
  revert l. induction rs as [|r rs IH]; intros l Hn; cbn; [by rewrite app_nil_r|].
  apply NoDup_cons in Hn as [Hr Hn]. rewrite IH by done. rewrite put_keys. unfold Arr.filter.
  case_bool_decide as Hin; cbn; [done|]. rewrite <- (assoc_L (++)). f_equal. cbn. f_equal.
  apply filter_ext_in. intros k Hk%list_elem_of_In. f_equal. apply bool_decide_ext.
  rewrite elem_of_app, list_elem_of_singleton. split; [|by left]. intros [?| ->]; [done|].
  by destruct Hr.
Qed.

(** Two lists with the same keys in the same order, whose records of one key are equal. *)
Lemma keyed_list_eq l l' : keyOf <$> l = keyOf <$> l' → NoDup (keyOf <$> l') → (∀ x, x ∈ l → x ∈ l') → l = l'.
Proof.
  intros Hk Hn Hsub. apply list_eq. intros i.
  destruct (l !! i) as [x|] eqn:Ex, (l' !! i) as [y|] eqn:Ey; [|exfalso..|done].
  - assert (keyOf x = keyOf y) as Hxy.
    { apply (f_equal (λ ks : list K, ks !! i)) in Hk. rewrite !list_lookup_fmap, Ex, Ey in Hk. by injection Hk. }
    f_equal. eapply (NoDup_fmap_inj_on keyOf l'); [done| | |done].
    + by apply Hsub, (list_elem_of_lookup_2 _ i).
    + by apply (list_elem_of_lookup_2 _ i).
  - apply (f_equal (λ ks : list K, ks !! i)) in Hk. by rewrite !list_lookup_fmap, Ex, Ey in Hk.
  - apply (f_equal (λ ks : list K, ks !! i)) in Hk. by rewrite !list_lookup_fmap, Ex, Ey in Hk.
Qed.

(** What [changes] finds. *)
Lemma changes_changed before after x : NoDup (keyOf <$> before) →
  x ∈ (changes same_record keyOf before after).1 ↔ x ∈ after ∧ x ∉ before.
Proof.
  intros Hn. unfold changes. cbn [fst]. rewrite elem_of_afilter.
  replace (list_to_map (reverse _)) with (table_of keyOf before).
  2:{ apply list_to_map_proper; [by rewrite <- list_fmap_compose|]. by rewrite reverse_Permutation. }
  apply and_iff_compat_l. destruct (table_of keyOf before !! keyOf x) as [c|] eqn:E.
  - apply table_of_Some in E as [Hc Hk]; [|done]. unfold same_record.
    rewrite negb_true_iff, bool_decide_eq_false. split.
    + intros Hne Hx. apply Hne. by apply (NoDup_fmap_inj_on keyOf before).
    + by intros Hx ->.
  - rewrite table_of_None in E. split; [|done]. intros _ Hx. by destruct E; apply list_elem_of_fmap_2.
Qed.
Lemma changes_keys before after : NoDup (keyOf <$> after) →
  NoDup (keyOf <$> (changes same_record keyOf before after).1).
Proof. intros Hn. eapply sublist_NoDup; [exact Hn|]. apply fmap_sublist, sublist_filter_b. Qed.
Lemma changes_removed before after k : NoDup (keyOf <$> before) →
  k ∈ (changes same_record keyOf before after).2 ↔ (k ∈ keyOf <$> before) ∧ k ∉ keyOf <$> after.
Proof.
  intros Hn. unfold changes. cbn [snd].
  replace (list_to_map (reverse _)) with (table_of keyOf before).
  2:{ apply list_to_map_proper; [by rewrite <- list_fmap_compose|]. by rewrite reverse_Permutation. }
  rewrite list_elem_of_In, filter_In, <- list_elem_of_In.
  unfold Arr.includes. rewrite negb_true_iff, bool_decide_eq_false. apply and_iff_compat_r.
  rewrite !list_elem_of_fmap. split.
  - intros ([k' x] & -> & Hin%elem_of_map_to_list). apply table_of_Some in Hin as [? <-]; [|done].
    by exists x.
  - intros (x & -> & Hx). exists (keyOf x, x). split; [done|]. apply elem_of_map_to_list.
    by apply table_of_Some.
Qed.

(** The part of a list of distinct keys that is kept, in its order. *)
Lemma filter_sub (ks kept : list K) : NoDup ks → sublist kept ks →
  Arr.filter (λ k, bool_decide (k ∈ kept)) ks = kept.
Proof.
  intros Hn Hs. induction Hs as [|k kept ks Hs IH|k kept ks Hs IH]; [done| |].
  - apply NoDup_cons in Hn as [Hk Hn]. unfold Arr.filter in *. cbn.
    rewrite bool_decide_eq_true_2 by (by left). f_equal. etransitivity; [|by apply IH].
    apply filter_ext_in. intros j Hj%list_elem_of_In. apply bool_decide_ext.
    rewrite elem_of_cons. split; [|by right]. intros [->|?]; [by destruct Hk|done].
  - apply NoDup_cons in Hn as [Hk Hn]. unfold Arr.filter in *. cbn.
    rewrite bool_decide_eq_false_2; [by apply IH|]. intros Hin. apply Hk. by eapply sublist_elem_of.
Qed.
Lemma drop_all_keys ks l : keyOf <$> foldl (λ l k, drop_key k l) l ks
  = Arr.filter (λ k, negb (bool_decide (k ∈ ks))) (keyOf <$> l).
Proof.
  revert l. induction ks as [|k ks IH]; intros l; cbn [foldl].
  { rewrite afilter_all; [done|]. intros k _. by rewrite bool_decide_eq_false_2 by apply not_elem_of_nil. }
  rewrite IH. unfold drop_key, Arr.filter. induction l as [|x l IHl]; [done|]. cbn.
  case_bool_decide as Hx; cbn.
  - rewrite IHl. by rewrite (bool_decide_eq_true_2 (keyOf x ∈ k :: ks)) by (rewrite Hx; by left).
  - rewrite IHl. case_bool_decide as Hin.
    + by rewrite bool_decide_eq_true_2 by (by right).
    + rewrite (bool_decide_eq_false_2 (keyOf x ∈ k :: ks)); [done|]. by apply not_elem_of_cons.
Qed.

(** Dropping what is gone and putting what changed gives the new list, in its order. *)
Lemma apply_changes before after : NoDup (keyOf <$> before) → NoDup (keyOf <$> after) →
  extends (keyOf <$> before) (keyOf <$> after) →
  let diff := changes same_record keyOf before after in
  foldl (λ l r, put r l) (foldl (λ l k, drop_key k l) before diff.2) diff.1 = after.
Proof.
  intros Hb Ha (kept & new & Hkn & Hsub & Hnew).
  pose proof (changes_changed before after) as Hc. pose proof (changes_removed before after) as Hr.
  pose proof (changes_keys before after Ha) as Hn.
  assert (∃ f, (changes same_record keyOf before after).1 = Arr.filter f after) as [f Hf] by (by eexists).
  destruct (changes _ _ before after) as [changed removed]. cbn in *.
  set (l1 := foldl _ before removed).
  assert (keyOf <$> l1 = kept) as Hl1.
  { unfold l1. rewrite drop_all_keys, <- (filter_sub (keyOf <$> before) kept) by done.
    apply filter_ext_in. intros k Hk%list_elem_of_In.
    apply eq_true_iff_eq. rewrite negb_true_iff, bool_decide_eq_false, bool_decide_eq_true.
    rewrite Hr, Hkn by done. rewrite elem_of_app. split; [|tauto].
    intros Hno. destruct (decide (k ∈ kept ++ new)) as [[?|Hin]%elem_of_app|Hout]; [done| |].
    - by destruct (Hnew k Hin).
    - destruct Hno. split; [done|]. by rewrite elem_of_app in Hout. }
  apply keyed_list_eq; [|done|].
  - rewrite put_all_keys, Hl1, Hkn by done. f_equal. rewrite Hf in *.
    assert (∀ k, k ∈ new → k ∉ kept) as Hdisj.
    { intros k Hk Hin. apply (Hnew k Hk). by eapply sublist_elem_of. }
    assert (∀ x, x ∈ after → keyOf x ∈ new → f x = true) as Hfx.
    { intros x Hx Hk. enough (x ∈ Arr.filter f after) as [_ ?]%elem_of_afilter by done.
      apply Hc; [done|]. split; [done|]. intros Hin. apply (Hnew _ Hk). by apply list_elem_of_fmap_2. }
    apply fmap_app_inv in Hkn as (a1 & a2 & -> & -> & ->). unfold Arr.filter.
    rewrite List.filter_app, fmap_app, List.filter_app.
    change (Arr.filter (λ k, negb (bool_decide (k ∈ keyOf <$> a1))) (keyOf <$> Arr.filter f a1)
      ++ Arr.filter (λ k, negb (bool_decide (k ∈ keyOf <$> a1))) (keyOf <$> Arr.filter f a2)
      = keyOf <$> a2).
    rewrite afilter_none, (afilter_all f a2), afilter_all; [done|..].
    + intros k Hk. rewrite negb_true_iff, bool_decide_eq_false. by apply Hdisj.
    + intros x Hx. apply Hfx; [set_solver|]. by apply list_elem_of_fmap_2.
    + intros k (x & -> & [Hx _]%elem_of_afilter)%list_elem_of_fmap.
      rewrite negb_false_iff, bool_decide_eq_true. by apply list_elem_of_fmap_2.
  - intros x [Hx|Hx]%elem_of_put_all_iff; [by apply Hc| |done].
    destruct Hx as [[Hx Hkx]%elem_of_drop_all Hch].
    destruct (decide (keyOf x ∈ keyOf <$> after)) as [(y & Hk & Hy)%list_elem_of_fmap|Hout].
    2:{ destruct Hkx. apply Hr; [done|]. split; [by apply list_elem_of_fmap_2|done]. }
    destruct (decide (y ∈ before)) as [Hyb|Hyb].
    + by rewrite (NoDup_fmap_inj_on keyOf before x y Hb Hx Hyb Hk).
    + destruct Hch. rewrite Hk. apply list_elem_of_fmap_2. by apply Hc.
Qed.
Lemma apply_changes_last before before' after : NoDup (keyOf <$> before) → NoDup (keyOf <$> after) →
  before' ≡ₚ before →
  let diff := changes same_record keyOf before after in
  foldl (λ l r, put_last r l) (foldl (λ l k, drop_key k l) before' diff.2) diff.1 ≡ₚ after.
Proof.
  intros Hb Ha Hp.
  pose proof (changes_changed before after) as Hc. pose proof (changes_removed before after) as Hr.
  pose proof (changes_keys before after Ha) as Hn.
  destruct (changes _ _ before after) as [changed removed]. cbn in *.
  assert (NoDup (keyOf <$> before')) as Hb' by (by rewrite Hp).
  apply NoDup_Permutation; [|by apply NoDup_of_keys|].
  { apply NoDup_of_keys, put_last_all_NoDup. eapply sublist_NoDup; [exact Hb'|].
    apply fmap_sublist, drop_all_sub. }
  intros x. rewrite elem_of_put_last_all, elem_of_drop_all, Hp by done. split.
  - intros [Hx|[[Hx Hkx] Hch]]; [by apply Hc|].
    destruct (decide (keyOf x ∈ keyOf <$> after)) as [(y & Hk & Hy)%list_elem_of_fmap|Hout].
    2:{ destruct Hkx. apply Hr; [done|]. split; [by apply list_elem_of_fmap_2|done]. }
    destruct (decide (y ∈ before)) as [Hyb|Hyb].
    + by rewrite (NoDup_fmap_inj_on keyOf before x y Hb Hx Hyb Hk).
    + destruct Hch. rewrite Hk. apply list_elem_of_fmap_2. by apply Hc.
  - intros Hx. destruct (decide (x ∈ before)) as [Hxb|Hxb]; [right|left; by apply Hc]. split_and!; [done|..].
    + rewrite Hr by done. intros [_ Hno]. destruct Hno. by apply list_elem_of_fmap_2.
    + intros (y & Hk & Hy)%list_elem_of_fmap. apply Hc in Hy as [Hy Hyb]; [|done].
      by rewrite (NoDup_fmap_inj_on keyOf after x y Ha Hx Hy Hk) in Hxb.
Qed.
End keyed.
