(* ===== verification/RowsWrite.v ===== *)
(** * What the writers leave in the tables: [src/core/registry-rows.ts], [src/core/registry.ts]

    The rows in the tables against the records in memory, what each writer does to them, and what
    the transaction of a commit leaves. *)
From stdpp Require Import base strings list option numbers gmap fin_maps sets sorting.
From S2P Require Import Prelude JsString OsRange Domain Resolve RequestStore Registry RegistryInv Ordered Sqlite Rows RowsRead Keyed.

(** ** Statements on typed rows *)

Section typed.
Context {Data : Type} (deviceData : Platform → option (DeviceDataTable Data)).
Implicit Types (db : Database Data) (t : TableName) (R : WriteError → Database Data → Prop).

Lemma children_inv t (ts : Tables TableName) parent : children_of t ts parent = true →
  ∃ u ref child, ref ∈ ts_references (schema u) ∧ rf_parent ref = t ∧ child ∈ ts u
    ∧ refers ref parent child = true.
Proof.
  intros (u & _ & (ref & Href & [Ht%bool_decide_eq_true (child & Hc & Hr)%asome_true]%andb_true_iff)
    %asome_true)%asome_true. by exists u, ref, child.
Qed.

(** One table of [db'] is different. *)
Record changes_table t (rows : list Row) db db' : Prop := {
  ch_rows : tables db' t = rows;
  ch_others u : u ≠ t → tables db' u = tables db u;
  ch_data : device_data db' = device_data db }.
Lemma set_changes t rows db : changes_table t rows db (db <| tables := set_table t rows (tables db) |>).
Proof. split; cbn; [apply set_table_eq|intros u; apply set_table_ne|done]. Qed.

Lemma runs_delete {A} t columns key (row : A → Row) l keep db (Q : unit → Database Data → Prop) R :
  tables db t = row <$> l → (∀ a, same_key columns key (row a) = negb (keep a)) →
  (∀ a, a ∈ l → keep a = false → children_of t (tables db) (row a) = false) →
  (∀ db', changes_table t (row <$> Arr.filter keep l) db db' → Q tt db') →
  runs (delete_from t columns key) db Q R.
Proof.
  intros Ht Hk Hc HQ. unfold runs, delete_from, run_statement, delete_rows.
  assert (∀ q, Arr.filter (λ r, q (same_key columns key r)) (row <$> l)
    = row <$> Arr.filter (λ a, q (negb (keep a))) l) as Hf.
  { intros q. rewrite afilter_fmap. f_equal. apply afilter_ext. intros a _. by rewrite Hk. }
  rewrite Ht. replace (Arr.some _ _) with false.
  2:{ symmetry. apply asome_false.
      rewrite (Hf (λ b, b) : Arr.filter (same_key columns key) (row <$> l) = _). intros x (a & -> & [Ha Hn%negb_true_iff]%elem_of_afilter)%list_elem_of_fmap.
      by apply Hc. }
  cbn [negb require mbind result_bind]. rewrite (Hf negb).
  assert (Arr.filter (λ a, negb (negb (keep a))) l = Arr.filter keep l) as ->
    by (apply afilter_ext; intros a _; apply negb_involutive).
  apply HQ, set_changes.
Qed.

Lemma runs_insert t row rows db (Q : unit → Database Data → Prop) R :
  tables db t = rows → row_fits t row = true →
  (∀ r, r ∈ rows → key_values (ts_key (schema t)) r ≠ key_values (ts_key (schema t)) row) →
  parents_there t row (tables db) = true →
  (∀ db', changes_table t (rows ++ [row]) db db' → Q tt db') →
  runs (insert_into t row) db Q R.
Proof.
  intros Ht Hf Hu Hp HQ. unfold runs, insert_into, run_statement, insert_row. rewrite Hf, Hp, Ht.
  replace (Arr.some _ rows) with false; [apply HQ, set_changes|]. symmetry. apply asome_false.
  intros r Hr. apply bool_decide_eq_false. by apply Hu.
Qed.

Lemma runs_upsert {A K} `{EqDecision K} t (row : A → Row) (keyOf : A → K) l a db
    (Q : unit → Database Data → Prop) R :
  tables db t = row <$> l → row_fits t (row a) = true →
  (∀ b, same_key (ts_key (schema t)) (key_values (ts_key (schema t)) (row a)) (row b)
        = (keyOf b === keyOf a)) →
  parents_there t (row a) (tables db) = true →
  (∀ db', changes_table t (row <$> put keyOf a l) db db' → Q tt db') →
  runs (upsert_into t (row a)) db Q R.
Proof.
  intros Ht Hf Hk Hp HQ. unfold runs, upsert_into, run_statement, upsert_row. rewrite Hf, Hp, Ht.
  cbn [require mbind result_bind]. rewrite asome_fmap.
  rewrite (asome_ext _ (λ b, keyOf b === keyOf a)) by (intros; apply Hk).
  assert ((if Arr.some (λ b, keyOf b === keyOf a) l
    then (λ r, if same_key (ts_key (schema t)) (key_values (ts_key (schema t)) (row a)) r
               then row a else r) <$> (row <$> l)
    else (row <$> l) ++ [row a]) = row <$> put keyOf a l) as ->; [|apply HQ, set_changes].
  unfold put. destruct (Arr.some _ l); [|by rewrite fmap_app].
  rewrite <- !list_fmap_compose. apply list_fmap_ext. intros i b _. cbn. rewrite Hk. by case_bool_decide.
Qed.

Lemma changes_table_trans t rows rows' db db' db'' : changes_table t rows db db' →
  changes_table t rows' db' db'' → changes_table t rows' db db''.
Proof.
  intros [? Ho Hd] [? Ho' Hd']. split; [done| |by rewrite Hd']. intros u Hu. by rewrite Ho', Ho.
Qed.
Lemma parents_there_same t row (ts ts' : Tables TableName) :
  (∀ ref, ref ∈ ts_references (schema t) → ts' (rf_parent ref) = ts (rf_parent ref)) →
  parents_there t row ts' = parents_there t row ts.
Proof.
  intros H. unfold parents_there, Arr.every. induction (ts_references (schema t)) as [|ref l IH]; [done|].
  cbn. rewrite (H ref) by (by left). f_equal. apply IH. intros r ?. apply H. by right.
Qed.
Lemma for_each_fmap {S E A B} (f : B → action S E unit) (g : A → B) (l : list A) :
  for_each f (g <$> l) = for_each (λ a, f (g a)) l.
Proof.
  induction l as [|a l IH]; [done|]. unfold for_each in *. rewrite fmap_cons. cbn [foldr].
  by rewrite IH.
Qed.
(** Rows of new keys, one after the other. *)
Lemma runs_insert_all {A} t (f : A → Row) l rows db (Q : unit → Database Data → Prop) R :
  let key a := key_values (ts_key (schema t)) (f a) in
  tables db t = rows → (∀ a, a ∈ l → row_fits t (f a) = true) → NoDup (key <$> l) →
  (∀ a r, a ∈ l → r ∈ rows → key_values (ts_key (schema t)) r ≠ key a) →
  (∀ ref, ref ∈ ts_references (schema t) → rf_parent ref ≠ t) →
  (∀ a, a ∈ l → parents_there t (f a) (tables db) = true) →
  (∀ db', changes_table t (rows ++ (f <$> l)) db db' → Q tt db') →
  runs (for_each (λ a, insert_into t (f a)) l) db Q R.
Proof.
  intros key. revert rows db. induction l as [|a l IH]; intros rows db Ht Hf Hn Hu Href Hp HQ.
  { apply runs_ret, HQ. split; [|done..]. by rewrite app_nil_r. }
  apply NoDup_cons in Hn as [Ha Hn]. apply runs_bind.
  apply (runs_insert t (f a) rows); [done|by apply Hf; left|by intros r; apply Hu; left|by apply Hp; left|].
  intros db1 H1. apply (IH (rows ++ [f a])); [apply H1|by intros b ?; apply Hf; right|done| |done|..].
  - intros b r Hb [Hr| ->%list_elem_of_singleton]%elem_of_app; [by apply Hu; [right|]|].
    intros Heq. apply Ha. change (key a ∈ key <$> l). rewrite (Heq : key a = key b).
    by apply (list_elem_of_fmap_2 key).
  - intros b Hb. rewrite (parents_there_same _ _ (tables db)); [by apply Hp; right|].
    intros ref Hr. apply (ch_others _ _ _ _ H1). by apply Href.
  - intros db2 H2. apply HQ. eapply changes_table_trans; [exact H1|].
    by rewrite <- (assoc_L (++)) in H2.
Qed.
End typed.

(** ** Every row fits its table *)

Ltac split_vars :=
  repeat (cbn; match goal with
    | |- context [match ?x with _ => _ end] => is_var x; destruct x
    | |- context [_ <$> ?x] => is_var x; destruct x
    | |- context [?x ≫= _] => is_var x; destruct x as [[]|]
    | |- context [flagValue ?x] => is_var x; destruct x
    | |- context [except_value ?x] => is_var x; destruct x
    end).
Ltac row_fits :=
  let column := fresh "column" in let Hc := fresh "Hc" in
  apply aevery_true; intros column Hc; cbn in Hc;
  repeat (apply elem_of_cons in Hc as [->|Hc]; [split_vars; done|]);
  by apply elem_of_nil in Hc.
Lemma device_row_fits d : row_fits t_devices (device_row d) = true.
Proof. destruct d as [[[] [] ? ? ? ?]|[[] [] ? ? ? ?]]; row_fits. Qed.
Lemma app_row_fits i n a : row_fits t_device_enrolled_apps (app_row i n a) = true.
Proof. row_fits. Qed.
Lemma lease_row_fits l : row_fits t_leases (lease_row l) = true.
Proof. destruct l as [? ? ? ? ? ? ? ? []]; row_fits. Qed.
Lemma request_row_fits q : row_fits t_lease_requests (request_row q) = true.
Proof. destruct q as [? ? ? ? ? ? [? ? ? ? ? ? ? ? [[]|]] ? ? ? ? ?]; row_fits. Qed.
Lemma grant_row_fits i g : row_fits t_lease_grants (grant_row i g) = true.
Proof. destruct g as [? ? [] []]; row_fits. Qed.
Lemma environment_row_fits i e : row_fits t_lease_grant_environment (environment_row i e) = true.
Proof. row_fits. Qed.
Lemma component_row_fits c : row_fits t_components (component_row c) = true.
Proof. row_fits. Qed.
Lemma receipt_row_fits c e : row_fits t_component_receipt (receipt_row c e) = true.
Proof. row_fits. Qed.

(** ** The rows against the records *)

#[export] Instance Contents_eta : Eta Contents := λ s,
  MkContents (ct_devices s) (ct_leases s) (ct_requests s) (ct_components s).

(** The rows that are part of a record and have a table of their own, as they are in the tables. *)
Record Parts := MkParts {
  x_apps : list (string * nat * string);
  x_grants : list (string * LeaseGrant);
  x_environment : list (string * (string * string));
  x_receipts : list (Platform * string * (string * string)) }.

Definition part_app (e : string * nat * string) : Row := app_row e.1.1 e.1.2 e.2.
Definition part_grant (e : string * LeaseGrant) : Row := grant_row e.1 e.2.
Definition part_environment (e : string * (string * string)) : Row := environment_row e.1 e.2.
Definition part_receipt (e : Platform * string * (string * string)) : Row :=
  receipt_row (MkComponent e.1.1 e.1.2 0 []) e.2.

Definition tables_of (s : Contents) (x : Parts) (t : TableName) : list Row :=
  match t with
  | t_devices => device_row <$> ct_devices s
  | t_device_enrolled_apps => part_app <$> x_apps x
  | t_leases => lease_row <$> ct_leases s
  | t_lease_requests => request_row <$> ct_requests s
  | t_lease_grants => part_grant <$> x_grants x
  | t_lease_grant_environment => part_environment <$> x_environment x
  | t_components => component_row <$> ct_components s
  | t_component_receipt => part_receipt <$> x_receipts x
  end.

(** What a driver's table promises, as its contract test checks it: data of the driver's shape is
    stored, it is read back as it was written, and a write touches no other device's data. *)
Class DeviceDataLaws {Data} (deviceData : Platform → option (DeviceDataTable Data))
    (accepts : Platform → opaque → Prop) : Prop := {
  data_accepted p o : accepts p o →
    ∃ table, deviceData p = Some table ∧ ∀ i d, ∃ d', dt_write table i o d = Ok d';
  data_read_back p table i o d d' :
    deviceData p = Some table → dt_write table i o d = Ok d' → dt_read table i d' = Ok o;
  data_others p table i o d d' q table' j :
    deviceData p = Some table → dt_write table i o d = Ok d' → deviceData q = Some table' →
    (q, j) ≠ (p, i) → dt_read table' j d' = dt_read table' j d }.

Lemma same_key_text column row k i : row_get row column = SqlText k →
  same_key [column] [SqlText i] row = (k === i).
Proof.
  intros E. unfold same_key, key_values. cbn. rewrite E. apply bool_decide_ext.
  split; [by intros [= ->]|by intros ->].
Qed.
Lemma same_key_pair c1 c2 row p v p' v' : row_get row c1 = SqlText (platform_text p) →
  row_get row c2 = SqlText v → same_key [c1; c2] (component_key (p', v')) row = ((p, v) === (p', v')).
Proof.
  intros E1 E2. unfold same_key, key_values. cbn. rewrite E1, E2. apply bool_decide_ext.
  split; [by intros [= ->%platform_text_inj ->]|by intros [= -> ->]].
Qed.
Lemma device_row_id d : row_get (device_row d) "id" = SqlText (dev_id d).
Proof. by destruct d. Qed.

(** Rewrites what a table holds after the statements run so far. *)
Ltac now_holds :=
  repeat match goal with
  | H : changes_table ?u _ _ ?db |- context [tables ?db ?t] =>
      first [rewrite (ch_rows _ _ _ _ H) | rewrite (ch_others _ _ _ _ H t) by done]
  end.
(** No table refers to this one. *)
Ltac no_children :=
  let u := fresh "u" in let ref := fresh "ref" in let child := fresh "child" in
  apply not_true_iff_false; intros (u & ref & child & Href & Hp & Hchild & Hrefers)%children_inv;
  destruct u; cbn in Href; decompose_list_elem_of; subst ref; try done.

(** Rows under one key, deleted and written anew. *)
Lemma runs_rewrite {Data A K} `{EqDecision K} t (row : A → Row) (keyOf : A → K) columns value k old new
    (db : Database Data) (Q : unit → Database Data → Prop) R :
  tables db t = row <$> old →
  (∀ a, same_key columns value (row a) = (keyOf a === k)) →
  (∀ a, children_of t (tables db) (row a) = false) →
  (∀ a, row_fits t (row a) = true) →
  (∀ ref, ref ∈ ts_references (schema t) → rf_parent ref ≠ t) →
  (∀ a b, key_values (ts_key (schema t)) (row a) = key_values (ts_key (schema t)) (row b) →
     keyOf a = keyOf b) →
  NoDup ((λ a, key_values (ts_key (schema t)) (row a)) <$> new) →
  (∀ a, a ∈ new → keyOf a = k ∧ parents_there t (row a) (tables db) = true) →
  (∀ db', changes_table t (row <$> (Arr.filter (λ a, keyOf a !== k) old ++ new)) db db' → Q tt db') →
  runs (_ ← delete_from t columns value; for_each (λ a, insert_into t (row a)) new) db Q R.
Proof.
  intros Ht Hk Hc Hf Href Hkey Hn Hnew HQ. apply runs_bind.
  apply (runs_delete _ _ _ row old (λ a, keyOf a !== k)); [done| |by intros; apply Hc|].
  { intros a. rewrite Hk. by rewrite negb_involutive. }
  intros db1 H1. eapply runs_insert_all; [apply H1|by intros; apply Hf|done| |done|..].
  - intros a r Ha (b & -> & [_ Hb]%elem_of_afilter)%list_elem_of_fmap Heq%Hkey.
    rewrite Heq, (proj1 (Hnew a Ha)) in Hb. by rewrite bool_decide_eq_true_2 in Hb.
  - intros a Ha. rewrite (parents_there_same _ _ (tables db)); [by apply Hnew|].
    intros ref Hr. apply (ch_others _ _ _ _ H1). by apply Href.
  - intros db2 H2. apply HQ. rewrite fmap_app. by eapply changes_table_trans.
Qed.

Section stored.
Context {Data : Type} (deviceData : Platform → option (DeviceDataTable Data)).
Context (accepts : Platform → opaque → Prop) `{!DeviceDataLaws deviceData accepts}.
Implicit Types (db : Database Data) (s : Contents) (x : Parts).

Record stored db s x : Prop := {
  sd_tables t : tables db t = tables_of s x t;
  sd_ids : NoDup (dev_id <$> ct_devices s);
  sd_request_ids : NoDup (q_id <$> ct_requests s);
  sd_component_keys : NoDup (componentKey <$> ct_components s);
  sd_apps p : Physical p ∈ ct_devices s →
    Arr.filter (λ e, e.1.1 === dev_id (Physical p)) (x_apps x)
    = imap (λ n app, (dev_id (Physical p), n, app)) (p_enrolledApps p);
  sd_grants i g : (i, g) ∈ x_grants x ↔ ∃ q, q ∈ ct_requests s ∧ q_id q = i ∧ q_grant q = Some g;
  sd_environment q g : q ∈ ct_requests s → q_grant q = Some g →
    Arr.filter (λ e, e.1 === q_id q) (x_environment x) = pair (q_id q) <$> g_environment g;
  sd_receipts c : c ∈ ct_components s →
    Arr.filter (λ e, e.1 === componentKey c) (x_receipts x) = pair (componentKey c) <$> cp_receipt c;
  sd_receipt_keys e : e ∈ x_receipts x → e.1 ∈ componentKey <$> ct_components s;
  sd_data v : Virtual v ∈ ct_devices s →
    read_device_data deviceData (vs_platform (v_spec v)) (dev_id (Virtual v)) (device_data db)
    = Ok (driverData (v_fields v)) }.
Definition holds db s : Prop := ∃ x, stored db s x.
(** A writer that does not fail, and leaves the rows of these records. *)
Local Abbreviation leaves m db s := (runs m db (λ _ db', holds db' s) (λ _ _, False)).

Lemma filter_others {A B} `{EqDecision B} (f : A → B) (i k : B) (l : list A) : k ≠ i →
  Arr.filter (λ e, f e === k) (Arr.filter (λ e, f e !== i) l) = Arr.filter (λ e, f e === k) l.
Proof.
  intros Hne. unfold Arr.filter. rewrite filter_filter_b. apply filter_ext. intros e.
  case_bool_decide as H1; case_bool_decide as H2; [congruence|done..].
Qed.

Lemma deleteLeaseRequest_leaves i db s : holds db s →
  leaves (deleteLeaseRequest i) db (s <| ct_requests := drop_key q_id i (ct_requests s) |>).
Proof.
  intros [x []]. unfold deleteLeaseRequest. apply runs_bind.
  apply (runs_delete _ _ _ part_environment (x_environment x) (λ e, e.1 !== i)); [by rewrite sd_tables0|..].
  { intros e. rewrite (same_key_text _ _ e.1) by done. by rewrite negb_involutive. }
  { intros e _ _. no_children. }
  intros db1 H1. apply runs_bind.
  apply (runs_delete _ _ _ part_grant (x_grants x) (λ e, e.1 !== i)); [now_holds; by rewrite sd_tables0|..].
  { intros e. rewrite (same_key_text _ _ e.1) by done. by rewrite negb_involutive. }
  { intros e He Hi%negb_false_iff%bool_decide_eq_true. no_children.
    revert Hchild. now_holds. intros (y & -> & [_ Hy]%elem_of_afilter)%list_elem_of_fmap.
    unfold refers in Hrefers. cbn in Hrefers. rewrite (same_key_text _ _ y.1) in Hrefers by done.
    rewrite <- Hi in Hy. by rewrite Hrefers in Hy. }
  intros db2 H2.
  apply (runs_delete _ _ _ request_row (ct_requests s) (λ q, q_id q !== i)); [now_holds; by rewrite sd_tables0|..].
  { intros q. rewrite (same_key_text _ _ (q_id q)) by done. by rewrite negb_involutive. }
  { intros q Hq Hi%negb_false_iff%bool_decide_eq_true. no_children.
    revert Hchild. now_holds. intros (y & -> & [_ Hy]%elem_of_afilter)%list_elem_of_fmap.
    unfold refers in Hrefers. cbn in Hrefers. rewrite (same_key_text _ _ y.1) in Hrefers by done.
    rewrite <- Hi in Hy. by rewrite Hrefers in Hy. }
  intros db3 H3.
  exists (MkParts (x_apps x) (Arr.filter (λ e, e.1 !== i) (x_grants x))
    (Arr.filter (λ e, e.1 !== i) (x_environment x)) (x_receipts x)).
  split; cbn; try done.
  - intros t. destruct t; now_holds; by rewrite ?sd_tables0.
  - by apply drop_key_NoDup.
  - intros j g. rewrite elem_of_afilter, sd_grants0, negb_true_iff, bool_decide_eq_false. cbn.
    setoid_rewrite elem_of_drop_key. naive_solver.
  - intros q g [Hq Hne]%elem_of_drop_key Hg. rewrite filter_others by done. by apply sd_environment0.
  - intros v Hv. rewrite (ch_data _ _ _ _ H3), (ch_data _ _ _ _ H2), (ch_data _ _ _ _ H1). by apply sd_data0.
Qed.

(** A device nothing is granted on. *)
Lemma deleteDevice_leaves i db s : holds db s →
  (∀ q g, q ∈ ct_requests s → q_grant q = Some g → dev_id (g_device g) ≠ i) →
  leaves (deleteDevice i) db (s <| ct_devices := drop_key dev_id i (ct_devices s) |>).
Proof.
  intros [x []] Hno. unfold deleteDevice. apply runs_bind.
  apply (runs_delete _ _ _ part_app (x_apps x) (λ e, e.1.1 !== i)); [by rewrite sd_tables0|..].
  { intros e. rewrite (same_key_text _ _ e.1.1) by done. by rewrite negb_involutive. }
  { intros e _ _. no_children. }
  intros db1 H1.
  apply (runs_delete _ _ _ device_row (ct_devices s) (λ d, dev_id d !== i)); [now_holds; by rewrite sd_tables0|..].
  { intros d. rewrite (same_key_text _ _ (dev_id d)) by apply device_row_id. by rewrite negb_involutive. }
  { intros d Hd Hi%negb_false_iff%bool_decide_eq_true. no_children; revert Hchild; now_holds.
    - intros (y & -> & [_ Hy]%elem_of_afilter)%list_elem_of_fmap.
      unfold refers, key_values in Hrefers. cbn [fmap list_fmap rf_parentColumns rf_columns] in Hrefers.
      rewrite device_row_id, (same_key_text _ _ y.1.1) in Hrefers by done.
      apply bool_decide_eq_true in Hrefers. by rewrite Hrefers, Hi, bool_decide_eq_true_2 in Hy.
    - rewrite sd_tables0. intros ([j g] & -> & (q & Hq & _ & Hg)%sd_grants0)%list_elem_of_fmap.
      unfold refers, key_values in Hrefers. cbn [fmap list_fmap rf_parentColumns rf_columns] in Hrefers.
      rewrite device_row_id, (same_key_text _ _ (dev_id (g_device g))) in Hrefers by done.
      apply bool_decide_eq_true in Hrefers. apply (Hno q g Hq Hg). congruence. }
  intros db2 H2.
  exists (MkParts (Arr.filter (λ e, e.1.1 !== i) (x_apps x)) (x_grants x) (x_environment x) (x_receipts x)).
  split; cbn; try done.
  - intros t. destruct t; now_holds; by rewrite ?sd_tables0.
  - by apply drop_key_NoDup.
  - intros p [Hp Hne]%elem_of_drop_key.
    rewrite (filter_others (λ e : string * nat * string, e.1.1)) by done. by apply sd_apps0.
  - intros v [Hv _]%elem_of_drop_key. rewrite (ch_data _ _ _ _ H2), (ch_data _ _ _ _ H1). by apply sd_data0.
Qed.

Lemma writeLease_leaves l db s : holds db s →
  leaves (writeLease l) db (s <| ct_leases := put l_id l (ct_leases s) |>).
Proof.
  intros [x []]. unfold writeLease.
  apply (runs_upsert _ lease_row l_id (ct_leases s)); [by rewrite sd_tables0|apply lease_row_fits| |done|].
  { intros b. by apply same_key_text. }
  intros db1 H1. exists x. split; cbn; try done.
  - intros t. destruct t; now_holds; by rewrite ?sd_tables0.
  - intros v Hv. rewrite (ch_data _ _ _ _ H1). by apply sd_data0.
Qed.
Lemma deleteLease_leaves i db s : holds db s →
  leaves (deleteLease i) db (s <| ct_leases := drop_key l_id i (ct_leases s) |>).
Proof.
  intros [x []]. unfold deleteLease.
  apply (runs_delete _ _ _ lease_row (ct_leases s) (λ l, l_id l !== i)); [by rewrite sd_tables0|..].
  { intros l. rewrite (same_key_text _ _ (l_id l)) by done. by rewrite negb_involutive. }
  { intros e _ _. no_children. }
  intros db1 H1. exists x. split; cbn; try done.
  - intros t. destruct t; now_holds; by rewrite ?sd_tables0.
  - intros v Hv. rewrite (ch_data _ _ _ _ H1). by apply sd_data0.
Qed.

(** A virtual device whose data its driver's table accepts, or a physical one. *)
Definition device_data_ok (d : DeviceRecord) : Prop :=
  match d with
  | Virtual v => accepts (vs_platform (v_spec v)) (driverData (v_fields v))
  | Physical _ => True
  end.

Lemma app_keys_NoDup i (apps : list string) :
  NoDup ((λ e, key_values (ts_key (schema t_device_enrolled_apps)) (part_app e))
    <$> imap (λ n app, (i, n, app)) apps).
Proof.
  apply NoDup_alt. intros m n k. rewrite !list_lookup_fmap, !list_lookup_imap.
  destruct (apps !! m), (apps !! n); try done. intros [= <-] [= Hmn]. lia.
Qed.
Lemma device_upserted d db s x (Q : unit → Database Data → Prop) : stored db s x →
  (∀ db', changes_table t_devices (device_row <$> put dev_id d (ct_devices s)) db db' → Q tt db') →
  runs (upsert_into t_devices (device_row d)) db Q (λ _ _, False).
Proof.
  intros [] HQ.
  apply (runs_upsert _ device_row dev_id (ct_devices s)); [by rewrite sd_tables0|apply device_row_fits| |done|done].
  intros b. unfold key_values. cbn [ts_key schema registryOwner registry_table devices_schema fmap list_fmap].
  rewrite device_row_id. apply same_key_text, device_row_id.
Qed.

Lemma write_virtual v db s : holds db s → device_data_ok (Virtual v) →
  leaves (writeDevice deviceData (Virtual v)) db
    (s <| ct_devices := put dev_id (Virtual v) (ct_devices s) |>).
Proof using DeviceDataLaws0.
  intros [x Hs] Hd. unfold writeDevice. apply runs_bind. apply (device_upserted _ _ _ _ _ Hs).
  intros db1 H1. destruct Hs. destruct (data_accepted _ _ Hd) as (table & Htable & Hwrite). rewrite Htable.
  destruct (Hwrite (dev_id (Virtual v)) (device_data db1)) as [data Hdata].
  unfold runs, write_data. rewrite Hdata. exists x. split; cbn; try done.
  - intros t. destruct t; now_holds; by rewrite ?sd_tables0.
  - by apply put_NoDup.
  - intros p [?|[Hp _]]%elem_of_put; [done|]. by apply sd_apps0.
  - intros w Hw. unfold read_device_data. apply elem_of_put in Hw as [[= ->]|[Hw Hne]].
    + by rewrite Htable, (data_read_back _ _ _ _ _ _ Htable Hdata).
    + specialize (sd_data0 w Hw). unfold read_device_data in sd_data0.
      destruct (deviceData (vs_platform (v_spec w))) as [table'|] eqn:Ew; [|done].
      erewrite data_others; [|exact Htable|exact Hdata|exact Ew|by intros [= _ ?]].
      by rewrite (ch_data _ _ _ _ H1).
Qed.

(** Entries under one key, replaced by others under it. *)
Lemma filter_replaced {A B} `{EqDecision B} (f : A → B) (i k : B) (l new : list A) :
  (∀ a, a ∈ new → f a = i) →
  Arr.filter (λ e, f e === k) (Arr.filter (λ e, f e !== i) l ++ new)
  = if decide (k = i) then new else Arr.filter (λ e, f e === k) l.
Proof.
  intros Hnew. unfold Arr.filter at 1. rewrite List.filter_app.
  change (Arr.filter (λ e, f e === k) (Arr.filter (λ e, f e !== i) l) ++ Arr.filter (λ e, f e === k) new
    = if decide (k = i) then new else Arr.filter (λ e, f e === k) l).
  case_decide as Hk; [subst k|].
  - rewrite afilter_none, afilter_all; [done|..].
    + intros e ?%Hnew. by apply bool_decide_eq_true_2.
    + by intros e [_ He%negb_true_iff]%elem_of_afilter.
  - rewrite filter_others by done. rewrite (afilter_none _ new); [by rewrite app_nil_r|].
    intros e He%Hnew. apply bool_decide_eq_false_2. congruence.
Qed.

Lemma write_physical p db s : holds db s →
  leaves (writeDevice deviceData (Physical p)) db
    (s <| ct_devices := put dev_id (Physical p) (ct_devices s) |>).
Proof.
  intros [x Hs]. unfold writeDevice. apply runs_bind. apply (device_upserted _ _ _ _ _ Hs).
  intros db1 H1. destruct Hs.
  set (apps := imap (λ n app, (dev_id (Physical p), n, app)) (p_enrolledApps p)).
  assert (∀ e, e ∈ apps → e.1.1 = dev_id (Physical p)) as Happs.
  { by intros e (n & a & -> & _)%elem_of_lookup_imap. }
  replace (imap (app_row (dev_id (Physical p))) (p_enrolledApps p)) with (part_app <$> apps)
    by (unfold apps; by rewrite fmap_imap).
  rewrite for_each_fmap.
  apply (runs_rewrite _ part_app (λ e, e.1.1) _ _ (dev_id (Physical p)) (x_apps x) apps).
  - now_holds. by rewrite sd_tables0.
  - intros e. by apply same_key_text.
  - intros e. no_children.
  - intros e. apply app_row_fits.
  - intros ref Href. cbn in Href. decompose_list_elem_of. by subst ref.
  - by intros a b [= Hk _].
  - apply app_keys_NoDup.
  - intros e He. split; [by apply Happs|]. unfold parents_there. cbn. now_holds. rewrite andb_true_r.
    apply asome_true. exists (device_row (Physical p)).
    split; [apply list_elem_of_fmap_2, elem_of_put; by left|].
    apply bool_decide_eq_true. cbn. by rewrite (Happs e He).
  - intros db2 H2. exists (MkParts (Arr.filter (λ e, e.1.1 !== dev_id (Physical p)) (x_apps x) ++ apps)
      (x_grants x) (x_environment x) (x_receipts x)).
    split; cbn; try done.
    + intros t. destruct t; now_holds; by rewrite ?sd_tables0.
    + by apply put_NoDup.
    + intros p' Hp'. rewrite (filter_replaced (λ e : string * nat * string, e.1.1)) by done.
      apply elem_of_put in Hp' as [[= ->]|[Hp' Hne]]; [by rewrite decide_True|].
      rewrite decide_False by done. by apply sd_apps0.
    + intros v [?|[Hv _]]%elem_of_put; [done|].
      rewrite (ch_data _ _ _ _ H2), (ch_data _ _ _ _ H1). by apply sd_data0.
Qed.
Lemma writeDevice_leaves d db s : holds db s → device_data_ok d →
  leaves (writeDevice deviceData d) db (s <| ct_devices := put dev_id d (ct_devices s) |>).
Proof using DeviceDataLaws0. destruct d; [apply write_virtual|intros ? _; by apply write_physical]. Qed.

(** A request without a grant, written over one without a grant. *)
Lemma write_ungranted q db s : holds db s → q_grant q = None →
  (∀ old, old ∈ ct_requests s → q_id old = q_id q → q_grant old = None) →
  leaves (writeLeaseRequest q) db (s <| ct_requests := put q_id q (ct_requests s) |>).
Proof.
  intros [x []] Hnone Hold. unfold writeLeaseRequest. rewrite Hnone. apply runs_bind.
  apply (runs_upsert _ request_row q_id (ct_requests s));
    [by rewrite sd_tables0|apply request_row_fits|by intros b; apply same_key_text|done|].
  intros db1 H1. apply runs_ret. exists x. split; cbn; try done.
  - intros t. destruct t; now_holds; by rewrite ?sd_tables0.
  - by apply put_NoDup.
  - intros i g. rewrite sd_grants0. setoid_rewrite elem_of_put. split; [|naive_solver congruence].
    intros (y & Hy & Hi & Hg). exists y. split; [|done]. right. split; [done|].
    intros Heq. by rewrite (Hold y Hy Heq) in Hg.
  - intros y g [->|[Hy _]]%elem_of_put Hg; [congruence|by apply sd_environment0].
  - intros v Hv. rewrite (ch_data _ _ _ _ H1). by apply sd_data0.
Qed.

Lemma environment_keys_NoDup i (environment : list (string * string)) : NoDup environment.*1 →
  NoDup ((λ e, key_values (ts_key (schema t_lease_grant_environment)) (part_environment e))
    <$> (pair i <$> environment)).
Proof.
  intros Hn. rewrite <- list_fmap_compose.
  replace (_ <$> environment) with ((λ name, [SqlText i; SqlText name]) <$> environment.*1)
    by (by rewrite <- list_fmap_compose).
  apply NoDup_fmap_2_strong; [|done]. by intros a b _ _ [= ->].
Qed.

Lemma grant_upserted q g db db1 s x (Q : unit → Database Data → Prop) : stored db s x →
  changes_table t_lease_requests (request_row <$> put q_id q (ct_requests s)) db db1 →
  (dev_id (g_device g) ∈ dev_id <$> ct_devices s) →
  (∀ db', changes_table t_lease_grants (part_grant <$> put fst (q_id q, g) (x_grants x)) db1 db' → Q tt db') →
  runs (upsert_into t_lease_grants (grant_row (q_id q) g)) db1 Q (λ _ _, False).
Proof.
  intros [] H1 Hdev HQ.
  apply (runs_upsert t_lease_grants part_grant fst (x_grants x) (q_id q, g));
    [now_holds; by rewrite sd_tables0|apply grant_row_fits|by intros b; apply same_key_text| |done].
  unfold parents_there. cbn. now_holds. rewrite sd_tables0, andb_true_r. apply andb_true_intro.
  split; apply asome_true.
  - exists (request_row q). split; [apply list_elem_of_fmap_2, elem_of_put; by left|].
    by apply bool_decide_eq_true.
  - apply list_elem_of_fmap in Hdev as (d & Hid & Hd). exists (device_row d).
    split; [by apply list_elem_of_fmap_2|]. rewrite Hid.
    rewrite (same_key_text _ _ (dev_id d)) by apply device_row_id. by apply bool_decide_eq_true_2.
Qed.

Lemma write_granted q g db s : holds db s → q_grant q = Some g →
  (dev_id (g_device g) ∈ dev_id <$> ct_devices s) → NoDup (g_environment g).*1 →
  leaves (writeLeaseRequest q) db (s <| ct_requests := put q_id q (ct_requests s) |>).
Proof.
  intros [x Hs] Hg Hdev Hn. unfold writeLeaseRequest. rewrite Hg. apply runs_bind.
  apply (runs_upsert _ request_row q_id (ct_requests s));
    [by rewrite (sd_tables _ _ _ Hs)|apply request_row_fits|by intros b; apply same_key_text|done|].
  intros db1 H1. apply runs_bind. apply (grant_upserted q g db db1 s x _ Hs H1 Hdev).
  intros db2 H2. destruct Hs.
  change (λ entry, insert_into t_lease_grant_environment (environment_row (q_id q) entry))
    with (λ entry, insert_into (Data := Data) t_lease_grant_environment (part_environment (pair (q_id q) entry))).
  rewrite <- (for_each_fmap (λ e, insert_into t_lease_grant_environment (part_environment e)) (pair (q_id q))).
  apply (runs_rewrite _ part_environment fst _ _ (q_id q) (x_environment x)).
  - now_holds. by rewrite sd_tables0.
  - intros e. by apply same_key_text.
  - intros e. no_children.
  - intros e. apply environment_row_fits.
  - intros ref Href. cbn in Href. decompose_list_elem_of. by subst ref.
  - by intros a b [= Hk _].
  - by apply environment_keys_NoDup.
  - intros e (a & -> & _)%list_elem_of_fmap. split; [done|]. unfold parents_there. cbn. now_holds.
    rewrite andb_true_r. apply asome_true. exists (part_grant (q_id q, g)).
    split; [apply list_elem_of_fmap_2, elem_of_put; by left|]. by apply bool_decide_eq_true.
  - intros db3 H3. exists (MkParts (x_apps x) (put fst (q_id q, g) (x_grants x))
      (Arr.filter (λ e, e.1 !== q_id q) (x_environment x) ++ (pair (q_id q) <$> g_environment g))
      (x_receipts x)).
    split; cbn; try done.
    + intros t. destruct t; now_holds; by rewrite ?sd_tables0.
    + by apply put_NoDup.
    + intros i g'. rewrite elem_of_put, sd_grants0. setoid_rewrite elem_of_put. cbn. split.
      * intros [[= -> ->]|[(y & Hy & Hi & Hg') Hne]]; [by exists q; auto|].
        exists y. split_and!; [right; split; congruence|done..].
      * intros (y & [->|[Hy Hne]] & Hi & Hg'); [left; congruence|]. right.
        split; [by exists y|congruence].
    + intros y g' Hy Hg'. rewrite filter_replaced by (by intros e (a & -> & _)%list_elem_of_fmap).
      apply elem_of_put in Hy as [->|[Hy Hne]].
      * rewrite decide_True by done. congruence.
      * rewrite decide_False by done. by apply sd_environment0.
    + intros v Hv. rewrite (ch_data _ _ _ _ H3), (ch_data _ _ _ _ H2), (ch_data _ _ _ _ H1).
      by apply sd_data0.
Qed.

Lemma deleteComponentRows_leaves k db s : holds db s →
  leaves (deleteComponentRows k) db (s <| ct_components := drop_key componentKey k (ct_components s) |>).
Proof.
  intros [x []]. unfold deleteComponentRows. apply runs_bind. destruct k as [p v].
  apply (runs_delete _ _ _ part_receipt (x_receipts x) (λ e, e.1 !== (p, v))); [by rewrite sd_tables0|..].
  { intros [[p' v'] e]. rewrite (same_key_pair _ _ _ p' v') by done. by rewrite negb_involutive. }
  { intros e _ _. no_children. }
  intros db1 H1.
  apply (runs_delete _ _ _ component_row (ct_components s) (λ c, componentKey c !== (p, v)));
    [now_holds; by rewrite sd_tables0|..].
  { intros c. rewrite (same_key_pair _ _ _ (cp_platform c) (cp_version c)) by done.
    by rewrite negb_involutive. }
  { intros c Hc Hk%negb_false_iff%bool_decide_eq_true. no_children. revert Hchild. now_holds.
    intros ([[p' v'] e] & -> & [_ Hy]%elem_of_afilter)%list_elem_of_fmap. injection Hk as Hkp Hkv.
    change (same_key ["platform"; "version"] (component_key (cp_platform c, cp_version c))
      (part_receipt (p', v', e)) = true) in Hrefers.
    rewrite Hkp, Hkv, (same_key_pair _ _ _ p' v') in Hrefers by done. cbn in Hy. by rewrite Hrefers in Hy. }
  intros db2 H2.
  exists (MkParts (x_apps x) (x_grants x) (x_environment x) (Arr.filter (λ e, e.1 !== (p, v)) (x_receipts x))).
  split; cbn; try done.
  - intros t. destruct t; now_holds; by rewrite ?sd_tables0.
  - by apply drop_key_NoDup.
  - intros c [Hc Hne]%elem_of_drop_key. rewrite filter_others by done. by apply sd_receipts0.
  - intros e [He Hk%negb_true_iff%bool_decide_eq_false]%elem_of_afilter.
    apply sd_receipt_keys0, list_elem_of_fmap in He as (c & Hc & Hin). rewrite Hc in *.
    apply list_elem_of_fmap_2. by apply elem_of_drop_key.
  - intros w Hw. rewrite (ch_data _ _ _ _ H2), (ch_data _ _ _ _ H1). by apply sd_data0.
Qed.

Lemma receipt_keys_NoDup k (receipt : list (string * string)) : NoDup receipt.*1 →
  NoDup ((λ e, key_values (ts_key (schema t_component_receipt)) (part_receipt e)) <$> (pair k <$> receipt)).
Proof.
  intros Hn. rewrite <- list_fmap_compose.
  replace (_ <$> receipt)
    with ((λ name, [SqlText (platform_text k.1); SqlText k.2; SqlText name]) <$> receipt.*1)
    by (by rewrite <- list_fmap_compose).
  apply NoDup_fmap_2_strong; [|done]. by intros a b _ _ [= ->].
Qed.

Lemma writeComponent_leaves c db s : holds db s → NoDup (cp_receipt c).*1 →
  leaves (writeComponent c) db (s <| ct_components := put_last componentKey c (ct_components s) |>).
Proof.
  intros Hs Hn. unfold writeComponent. apply runs_bind.
  eapply runs_mono; [by apply deleteComponentRows_leaves|cbv beta|done].
  intros [] db1 [x []]. cbn in *. apply runs_bind.
  assert (∀ d, d ∈ drop_key componentKey (componentKey c) (ct_components s) → componentKey d ≠ componentKey c)
    as Hgone by (by intros d [_ ?]%elem_of_drop_key).
  apply (runs_insert _ _ _ _ _ _ (sd_tables0 t_components)); [apply component_row_fits| |done|].
  { intros r (d & -> & Hd)%list_elem_of_fmap [= Hp%platform_text_inj Hv]. apply (Hgone d Hd).
    unfold componentKey. congruence. }
  intros db2 H2.
  change (runs (for_each (λ entry, insert_into t_component_receipt (part_receipt (pair (componentKey c) entry)))
    (cp_receipt c)) db2
    (λ _ db', holds db' (s <| ct_components := put_last componentKey c (ct_components s) |>)) (λ _ _, False)).
  rewrite <- (for_each_fmap (λ e, insert_into t_component_receipt (part_receipt e)) (pair (componentKey c))).
  assert (tables db2 t_component_receipt = part_receipt <$> x_receipts x) as Hr
    by (now_holds; apply sd_tables0).
  eapply runs_insert_all; [exact Hr|by intros; apply receipt_row_fits|by apply receipt_keys_NoDup|..].
  - intros e r (a & -> & _)%list_elem_of_fmap ([[p v] b] & -> & Hy)%list_elem_of_fmap
      [= Hp%platform_text_inj Hv _].
    apply sd_receipt_keys0, list_elem_of_fmap in Hy as (d & Hd & Hin). apply (Hgone d Hin).
    rewrite <- Hd. cbn in *. unfold componentKey. congruence.
  - intros ref Href. cbn in Href. decompose_list_elem_of. by subst ref.
  - intros e (a & -> & _)%list_elem_of_fmap. unfold parents_there. cbn.
    rewrite (ch_rows _ _ _ _ H2), andb_true_r. apply asome_true. exists (component_row c).
    split; [apply elem_of_app; right; by left|]. by apply bool_decide_eq_true.
  - intros db3 H3. exists (MkParts (x_apps x) (x_grants x) (x_environment x)
      (x_receipts x ++ (pair (componentKey c) <$> cp_receipt c))).
    assert (∀ e, e ∈ x_receipts x → e.1 ≠ componentKey c) as Hfree.
    { intros e (d & -> & Hd)%sd_receipt_keys0%list_elem_of_fmap. by apply Hgone. }
    split; cbn; try done.
    + intros t. destruct t; now_holds; rewrite ?sd_tables0; try done; cbn [tables_of x_receipts ct_components].
      * symmetry. apply (fmap_app component_row _ [c]).
      * by rewrite fmap_app.
    + unfold put_last. rewrite fmap_app. apply NoDup_app. split_and!; [done| |apply NoDup_singleton].
      by intros k (d & -> & Hd%Hgone)%list_elem_of_fmap ?%list_elem_of_singleton.
    + intros d Hd. unfold Arr.filter. rewrite List.filter_app.
      change (Arr.filter (λ e, e.1 === componentKey d) (x_receipts x)
        ++ Arr.filter (λ e, e.1 === componentKey d) (pair (componentKey c) <$> cp_receipt c)
        = pair (componentKey d) <$> cp_receipt d).
      apply elem_of_put_last in Hd as [->|[Hd Hne]].
      * rewrite afilter_none, afilter_all; [done|..].
        -- intros e (a & -> & _)%list_elem_of_fmap. by apply bool_decide_eq_true_2.
        -- intros e He. apply bool_decide_eq_false_2. by apply Hfree.
      * rewrite (sd_receipts0 d), (afilter_none _ (pair _ <$> _)); [by rewrite app_nil_r| |].
        -- intros e (a & -> & _)%list_elem_of_fmap. by apply bool_decide_eq_false_2.
        -- by apply elem_of_drop_key.
    + intros e [He|(a & -> & _)%list_elem_of_fmap]%elem_of_app.
      * apply sd_receipt_keys0 in He. unfold put_last. rewrite fmap_app. apply elem_of_app. by left.
      * apply (list_elem_of_fmap_2 componentKey), elem_of_put_last. by left.
    + intros w Hw. rewrite (ch_data _ _ _ _ H3), (ch_data _ _ _ _ H2). by apply sd_data0.
Qed.
End stored.

(** ** The transaction of a commit *)

Section transaction.
Context {Data : Type} (deviceData : Platform → option (DeviceDataTable Data)).
Context (accepts : Platform → opaque → Prop) `{!DeviceDataLaws deviceData accepts}.
Implicit Types (db : Database Data) (s before after : Contents).
Local Abbreviation holds := (holds deviceData).
Local Abbreviation leaves m db s := (runs m db (λ _ db', holds db' s) (λ _ _, False)).

Lemma for_each_leaves {A} (f : A → action (Database Data) WriteError unit) (g : Contents → A → Contents)
    l s db : holds db s →
  (∀ pre a post db', l = pre ++ a :: post → holds db' (foldl g s pre) →
     leaves (f a) db' (g (foldl g s pre) a)) →
  leaves (for_each f l) db (foldl g s l).
Proof.
  revert s db. induction l as [|a l IH]; intros s db Hs Hf; [by apply runs_ret|]. apply runs_bind.
  eapply runs_mono; [by apply (Hf [] a l)|cbv beta|done]. intros [] db' Hs'. apply IH; [done|].
  intros pre b post db2 -> Hdb. by apply (Hf (a :: pre) b post).
Qed.

(** What the loops over each table come to. *)
Lemma fold_requests {A} (h : A → list (LeaseRequestRecord LeaseGrant) → list (LeaseRequestRecord LeaseGrant)) l s :
  foldl (λ s a, s <| ct_requests := h a (ct_requests s) |>) s l
  = s <| ct_requests := foldl (λ r a, h a r) (ct_requests s) l |>.
Proof. revert s. induction l as [|a l IH]; intros s; [by destruct s|]. cbn [foldl]. by rewrite IH. Qed.
Lemma fold_devices {A} (h : A → list DeviceRecord → list DeviceRecord) l s :
  foldl (λ s a, s <| ct_devices := h a (ct_devices s) |>) s l
  = s <| ct_devices := foldl (λ r a, h a r) (ct_devices s) l |>.
Proof. revert s. induction l as [|a l IH]; intros s; [by destruct s|]. cbn [foldl]. by rewrite IH. Qed.
Lemma fold_leases {A} (h : A → list LeaseRecord → list LeaseRecord) l s :
  foldl (λ s a, s <| ct_leases := h a (ct_leases s) |>) s l
  = s <| ct_leases := foldl (λ r a, h a r) (ct_leases s) l |>.
Proof. revert s. induction l as [|a l IH]; intros s; [by destruct s|]. cbn [foldl]. by rewrite IH. Qed.
Lemma fold_components {A} (h : A → list ComponentRecord → list ComponentRecord) l s :
  foldl (λ s a, s <| ct_components := h a (ct_components s) |>) s l
  = s <| ct_components := foldl (λ r a, h a r) (ct_components s) l |>.
Proof. revert s. induction l as [|a l IH]; intros s; [by destruct s|]. cbn [foldl]. by rewrite IH. Qed.

(** Records the tables can say all of: names of categories without commas, causes of a stall as the
    type has them, driver data its table accepts, a grant whose lease is on its device, and objects
    with one value per name. *)
Record storable s : Prop := {
  so_device d : d ∈ ct_devices s →
    device_data_ok accepts d ∧ cause_ok (quarantineCause (dev_fields d)) ∧ except_ok (dev_except d)
    ∧ (dev_physical d = true → driverData (dev_fields d) = no_driver_data);
  so_request q : q ∈ ct_requests s → except_ok (rq_except (q_request q))
    ∧ ∀ g, q_grant q = Some g → l_deviceId (g_lease g) = dev_id (g_device g) ∧ NoDup (g_environment g).*1;
  so_component c : c ∈ ct_components s → NoDup (cp_receipt c).*1 }.

(** The tables hold the records, components in the order they were last written. *)
Definition on_disk db s : Prop :=
  ∃ cs, cs ≡ₚ ct_components s ∧ holds db (s <| ct_components := cs |>).

(** The requests that are left and their grants name devices that stay. *)
Lemma kept_grants t before after q g : contents_ok t after → carries before after →
  NoDup (q_id <$> ct_requests before) →
  q ∈ foldl (λ l k, drop_key q_id k l) (ct_requests before)
        (changes same_record q_id (ct_requests before) (ct_requests after)).2 →
  q_grant q = Some g → dev_id (g_device g) ∈ dev_id <$> ct_devices after.
Proof.
  intros Ha Hc Hn [Hq Hk]%elem_of_drop_all Hg. rewrite changes_removed in Hk by done.
  destruct (decide (q_id q ∈ q_id <$> ct_requests after)) as [(q' & Hid & Hq')%list_elem_of_fmap|Hno].
  2:{ destruct Hk. split; [by apply list_elem_of_fmap_2|done]. }
  pose proof (ca_grants _ _ Hc q q' g Hq Hq' Hid Hg) as Hg'.
  destruct (do_grants _ _ _ _ _ Ha q' g Hq' Hg') as (_ & at_ & d & _ & _ & Hd & <- & _).
  by apply list_elem_of_fmap_2.
Qed.

(** The loops of the transaction. *)
Lemma requests_dropped ids db s : holds db s →
  leaves (for_each deleteLeaseRequest ids) db
    (s <| ct_requests := foldl (λ l i, drop_key q_id i l) (ct_requests s) ids |>).
Proof.
  intros Hs. rewrite <- (fold_requests (drop_key q_id)). apply for_each_leaves; [done|].
  intros. by apply deleteLeaseRequest_leaves.
Qed.
Lemma devices_dropped ids db s : holds db s →
  (∀ q g, q ∈ ct_requests s → q_grant q = Some g → dev_id (g_device g) ∉ ids) →
  leaves (for_each deleteDevice ids) db
    (s <| ct_devices := foldl (λ l i, drop_key dev_id i l) (ct_devices s) ids |>).
Proof.
  intros Hs Hno. rewrite <- (fold_devices (drop_key dev_id)). apply for_each_leaves; [done|].
  intros pre i post db' -> Hdb'. apply deleteDevice_leaves; [done|]. rewrite fold_devices.
  intros q g Hq Hg <-. apply (Hno q g Hq Hg). set_solver.
Qed.
Lemma devices_put ds db s : holds db s → (∀ d, d ∈ ds → device_data_ok accepts d) →
  leaves (for_each (writeDevice deviceData) ds) db
    (s <| ct_devices := foldl (λ l d, put dev_id d l) (ct_devices s) ds |>).
Proof using DeviceDataLaws0.
  intros Hs Hds. rewrite <- (fold_devices (put dev_id)). apply for_each_leaves; [done|].
  intros pre d post db' -> Hdb'. eapply writeDevice_leaves; [exact _|exact Hdb'|]. apply Hds. set_solver.
Qed.
Lemma leases_dropped ids db s : holds db s →
  leaves (for_each deleteLease ids) db
    (s <| ct_leases := foldl (λ l i, drop_key l_id i l) (ct_leases s) ids |>).
Proof.
  intros Hs. rewrite <- (fold_leases (drop_key l_id)). apply for_each_leaves; [done|].
  intros. by apply deleteLease_leaves.
Qed.
Lemma leases_put ls db s : holds db s →
  leaves (for_each writeLease ls) db (s <| ct_leases := foldl (λ l r, put l_id r l) (ct_leases s) ls |>).
Proof.
  intros Hs. rewrite <- (fold_leases (put l_id)). apply for_each_leaves; [done|].
  intros. by apply writeLease_leaves.
Qed.
Lemma requests_put qs db s : holds db s → NoDup (q_id <$> qs) →
  (∀ q, q ∈ qs → match q_grant q with
     | None => ∀ old, old ∈ ct_requests s → q_id old = q_id q → q_grant old = None
     | Some g => (dev_id (g_device g) ∈ dev_id <$> ct_devices s) ∧ NoDup (g_environment g).*1
     end) →
  leaves (for_each writeLeaseRequest qs) db
    (s <| ct_requests := foldl (λ l q, put q_id q l) (ct_requests s) qs |>).
Proof.
  intros Hs Hn Hqs. rewrite <- (fold_requests (put q_id)). apply for_each_leaves; [done|].
  intros pre q post db' -> Hdb'. specialize (Hqs q ltac:(set_solver)).
  destruct (q_grant q) as [g|] eqn:Eg.
  - rewrite fold_requests in Hdb' |- *. by apply (write_granted _ q g); [..|apply Hqs|apply Hqs].
  - apply write_ungranted; [done..|]. rewrite fold_requests. intros old Hold Hid.
    apply elem_of_put_all in Hold as [Hold|Hold]; [by apply Hqs|].
    exfalso. rewrite fmap_app, fmap_cons in Hn. apply NoDup_app in Hn as (_ & Hn & _).
    apply (Hn (q_id old)); [by apply list_elem_of_fmap_2|rewrite Hid; by left].
Qed.
Lemma components_dropped ks db s : holds db s →
  leaves (for_each deleteComponentRows ks) db
    (s <| ct_components := foldl (λ l k, drop_key componentKey k l) (ct_components s) ks |>).
Proof.
  intros Hs. rewrite <- (fold_components (drop_key componentKey)). apply for_each_leaves; [done|].
  intros. by apply deleteComponentRows_leaves.
Qed.
Lemma components_put cs db s : holds db s → (∀ c, c ∈ cs → NoDup (cp_receipt c).*1) →
  leaves (for_each writeComponent cs) db
    (s <| ct_components := foldl (λ l c, put_last componentKey c l) (ct_components s) cs |>).
Proof.
  intros Hs Hcs. rewrite <- (fold_components (put_last componentKey)). apply for_each_leaves; [done|].
  intros pre c post db' -> Hdb'. apply writeComponent_leaves; [done|]. apply Hcs. set_solver.
Qed.

Lemma persist_leaves tb ta before after db : contents_ok tb before → contents_ok ta after →
  carries before after → storable after → on_disk db before →
  runs (persist deviceData before after) db (λ _ db', on_disk db' after) (λ _ _, False).
Proof using DeviceDataLaws0.
  intros Hb Ha Hc Hso (cs & Hcs & Hdb). unfold persist.
  enough (runs (write_changes_of deviceData before after) db (λ _ db', on_disk db' after) (λ _ _, False)) as H.
  { unfold runs, inTransaction in *. by destruct (write_changes_of _ _ _ db) as [? [?|?]]. }
  pose proof (apply_changes dev_id _ _ (do_ids _ _ _ _ _ Hb) (do_ids _ _ _ _ _ Ha) (ca_devices _ _ Hc)) as Ed.
  pose proof (apply_changes l_id _ _ (do_lease_ids _ _ _ _ _ Hb) (do_lease_ids _ _ _ _ _ Ha)
    (ca_leases _ _ Hc)) as El.
  pose proof (apply_changes q_id _ _ (do_request_ids _ _ _ _ _ Hb) (do_request_ids _ _ _ _ _ Ha)
    (ca_requests _ _ Hc)) as Eq.
  pose proof (apply_changes_last componentKey _ cs _ (do_components _ _ _ _ _ Hb)
    (do_components _ _ _ _ _ Ha) Hcs) as Ec.
  unfold write_changes_of. cbv zeta in *.
  apply runs_bind. eapply runs_mono; [by apply requests_dropped|cbv beta; intros [] db1 H1|done].
  apply runs_bind. eapply runs_mono; [apply (devices_dropped _ _ _ H1)|cbv beta; intros [] db2 H2|done].
  { intros q g Hq Hg [_ Hno]%changes_removed; [|apply Hb]. apply Hno.
    by eapply kept_grants; [exact Ha|exact Hc|apply Hb|exact Hq|]. }
  apply runs_bind. eapply runs_mono; [apply (devices_put _ _ _ H2)|cbv beta; intros [] db3 H3|done].
  { intros d [Hd _]%changes_changed; [|apply Hb]. by apply (so_device _ Hso). }
  apply runs_bind. eapply runs_mono; [by apply leases_dropped|cbv beta; intros [] db4 H4|done].
  apply runs_bind. eapply runs_mono; [by apply leases_put|cbv beta; intros [] db5 H5|done].
  apply runs_bind. eapply runs_mono; [apply (requests_put _ _ _ H5)|cbv beta; intros [] db6 H6|done].
  { apply changes_keys, Ha. }
  { intros q [Hq Hnb]%changes_changed; [|apply Hb]. destruct (q_grant q) as [g|] eqn:Eg.
    - split; [|by apply (so_request _ Hso q Hq)].
      destruct (do_grants _ _ _ _ _ Ha q g Hq Eg) as (_ & at_ & d & _ & _ & Hd & <- & _).
      apply list_elem_of_fmap_2. exact (eq_ind_r (λ l, d ∈ l) Hd Ed).
    - intros old [Hold _]%elem_of_drop_all Hid. destruct (q_grant old) as [g|] eqn:Eo; [|done].
      by rewrite (ca_grants _ _ Hc old q g Hold Hq Hid Eo) in Eg. }
  apply runs_bind. eapply runs_mono; [by apply components_dropped|cbv beta; intros [] db7 H7|done].
  eapply runs_mono; [apply (components_put _ _ _ H7)|cbv beta; intros [] db8 H8|done].
  { intros c [Hin _]%changes_changed; [|apply Hb]. by apply (so_component _ Hso). }
  eexists. split; [exact Ec|].
  change (holds db8 (MkContents (ct_devices after) (ct_leases after) (ct_requests after)
    (foldl (λ l c, put_last componentKey c l) (foldl (λ l k, drop_key componentKey k l) cs
      (changes same_record componentKey (ct_components before) (ct_components after)).2)
      (changes same_record componentKey (ct_components before) (ct_components after)).1))).
  rewrite <- Ed, <- El, <- Eq. exact H8.
Qed.
End transaction.
