(* ===== verification/RowsInv.v ===== *)
(** * Restarts lose nothing: [src/core/registry-rows.ts], [src/core/registry.ts]

    What a load reads of tables that hold the records, and the theorem that every registry is read
    back from the transactions of its commits. *)
From stdpp Require Import base strings list option numbers gmap fin_maps sets sorting.
From S2P Require Import Prelude JsString OsRange Domain Resolve RequestStore Registry RegistryInv Ordered Sqlite Rows RowsRead Keyed RowsWrite.

(** ** The load *)

Lemma mapM_Ok {A B C E} (f : B → result E C) (g : A → B) (h : A → C) (l : list A) :
  (∀ a, a ∈ l → f (g a) = Ok (h a)) → mapM f (g <$> l) = Ok (h <$> l).
Proof.
  induction l as [|a l IH]; intros Hl; [done|]. cbn [fmap list_fmap mapM].
  rewrite (Hl a) by (by left). rewrite bind_of_Ok.
  change (mapM f (g <$> l) ≫= (λ k, mret (h a :: k)) = Ok (h a :: (h <$> l))).
  rewrite IH; [done|]. intros b ?. apply Hl. by right.
Qed.

(** Rows gathered under their keys: each key has what its own rows add, in their order. *)
Lemma gather_spec {K E V} `{Countable K}
    (f : gmap K (list V) → Row → result RegistryLoadError (gmap K (list V))) (row : E → Row)
    (key : E → K) (add : E → list V → list V) :
  (∀ m e, f m (row e) = Ok (<[key e := add e (default [] (m !! key e))]> m)) →
  ∀ es m, ∃ m', fold_rows f m (row <$> es) = Ok m'
    ∧ ∀ k, default [] (m' !! k)
        = foldl (λ o e, add e o) (default [] (m !! k)) (Arr.filter (λ e, key e === k) es).
Proof.
  intros Hf es. induction es as [|e es IH]; intros m; [by exists m|].
  destruct (IH (<[key e := add e (default [] (m !! key e))]> m)) as (m' & Hm' & Hk).
  exists m'. split; [cbn; by rewrite Hf|]. intros k. rewrite Hk. cbn. case_bool_decide as He.
  - subst k. by rewrite lookup_insert_eq.
  - by rewrite lookup_insert_ne.
Qed.

Lemma foldl_snoc {E V} (f : E → V) (l : list E) (o : list V) :
  foldl (λ o e, o ++ [f e]) o l = o ++ (f <$> l).
Proof. revert o. induction l as [|e l IH]; intros o; cbn; [by rewrite app_nil_r|]. by rewrite IH, <- (assoc_L (++)). Qed.
Lemma set_new {K V} `{EqDecision K} (k : K) (v : V) m : k ∉ m.*1 → Ordered.set k v m = m ++ [(k, v)].
Proof.
  induction m as [|e m IH]; cbn; [done|]. intros [Hne Hk]%not_elem_of_cons.
  rewrite bool_decide_eq_false_2 by done. f_equal. by apply IH.
Qed.
Lemma foldl_set {K V} `{EqDecision K} (l : list (K * V)) (o : list (K * V)) : NoDup (o ++ l).*1 →
  foldl (λ o e, Ordered.set e.1 e.2 o) o l = o ++ l.
Proof.
  revert o. induction l as [|e l IH]; intros o Hn; cbn; [by rewrite app_nil_r|].
  assert (e.1 ∉ o.*1) as Hne.
  { rewrite fmap_app in Hn. apply NoDup_app in Hn as (_ & Hd & _). intros Hin. apply (Hd _ Hin). by left. }
  rewrite set_new by done. rewrite IH; rewrite <- (assoc_L (++)); by destruct e.
Qed.

Lemma sort_by_fmap {A B} (f : A → B) (cmp : B → B → Z) (l : list A) :
  sort_by cmp (f <$> l) = f <$> sort_by (λ a b, cmp (f a) (f b)) l.
Proof.
  induction l as [|a l IH]; [done|]. rewrite fmap_cons.
  change (sort_insert cmp (f a) (sort_by cmp (f <$> l))
    = f <$> sort_insert (λ a b, cmp (f a) (f b)) a (sort_by (λ a b, cmp (f a) (f b)) l)).
  rewrite IH. generalize (sort_by (λ a b, cmp (f a) (f b)) l) as k. clear.
  induction k as [|b k IH]; [done|]. cbn. destruct (_ <=? 0)%Z; [done|]. cbn. f_equal. apply IH.
Qed.

(** The apps of a device come in the order of their positions. *)
Local Abbreviation app_order := (λ e e', order_by ["device_id"; "position"] (part_app e) (part_app e')).
#[local] Instance app_order_comparator : Comparator app_order.
Proof. split; intros *; apply order_by_comparator. Qed.
Lemma app_order_same (e e' : string * nat * string) : e.1.1 = e'.1.1 →
  app_order e e' = (Z.of_nat e.1.2 - Z.of_nat e'.1.2)%Z.
Proof.
  destruct e as [[j n] a], e' as [[j' n'] a']. cbn [fst snd]. intros <-. unfold order_by. cbn.
  rewrite (proj2 (compare_values_eq (SqlText j) (SqlText j)) eq_refl : codepoint_compare j j = 0%Z).
  unfold num_or. cbn. by destruct (_ =? 0)%Z eqn:E; [apply Z.eqb_eq in E|].
Qed.
Lemma positions_sorted i k (apps : list string) :
  StronglySorted (λ e e', (app_order e e' ≤ 0)%Z) (imap (λ n app, (i, k + n, app)) apps).
Proof.
  revert k. induction apps as [|a apps IH]; intros k; [constructor|]. rewrite imap_cons. constructor.
  - rewrite (imap_ext _ (λ n app, (i, S k + n, app))); [apply IH|].
    intros n app _. cbn. do 2 f_equal. lia.
  - apply Forall_forall. intros e (n & b & -> & _)%elem_of_lookup_imap.
    rewrite app_order_same by done. cbn. lia.
Qed.
Lemma apps_sorted i (apps : list string) (es : list (string * nat * string)) :
  Arr.filter (λ e, e.1.1 === i) es = imap (λ n app, (i, n, app)) apps →
  Arr.filter (λ e, e.1.1 === i) (sort_by app_order es) = imap (λ n app, (i, n, app)) apps.
Proof.
  intros Hes. rewrite <- Hes.
  assert (∀ e, e ∈ Arr.filter (λ e, e.1.1 === i) es → e.1.1 = i ∧ apps !! e.1.2 = Some e.2) as Hin.
  { rewrite Hes. by intros e (n & a & -> & Ha)%elem_of_lookup_imap. }
  eapply StronglySorted_unique_strong with (R := λ e e', (app_order e e' ≤ 0)%Z).
  - intros e e' [Hs He]%elem_of_afilter He' H1 H2.
    destruct (Hin e' He') as [He1' He2'], (Hin e) as [He1 He2].
    { apply elem_of_afilter. split; [by apply (elem_of_sort_by app_order)|done]. }
    rewrite app_order_same in H1, H2 by congruence.
    destruct e as [[j n] a], e' as [[j' n'] a']. cbn in *. assert (n = n') as -> by lia. congruence.
  - apply StronglySorted_afilter, sort_by_sorted, _.
  - rewrite Hes. apply (positions_sorted i 0).
  - by rewrite sort_by_perm.
Qed.

Lemma grants_by_request (gs : list (string * LeaseGrant)) (m : gmap string Row) i :
  let M := foldl (λ m row, <[js_String (row_get row "request_id") := row]> m) m (part_grant <$> gs) in
  (∀ row, M !! i = Some row → (∃ g, (i, g) ∈ gs ∧ row = grant_row i g) ∨ m !! i = Some row)
  ∧ ((i ∈ gs.*1) ∨ is_Some (m !! i) → is_Some (M !! i)).
Proof.
  revert m. induction gs as [|[j g] gs IH]; intros m M.
  { split; [by right|]. by intros [?%elem_of_nil|?]. }
  destruct (IH (<[j := grant_row j g]> m)) as [IH1 IH2]. split.
  - intros row [(g' & Hg' & ->)|Hm]%IH1; [left; exists g'; split; [by right|done]|].
    destruct (decide (i = j)) as [->|Hne].
    + rewrite lookup_insert_eq in Hm. injection Hm as <-. left. exists g. split; [by left|done].
    + rewrite lookup_insert_ne in Hm by done. by right.
  - intros Hi. apply IH2. destruct (decide (i = j)) as [->|Hne]; [right; rewrite lookup_insert_eq; eauto|].
    rewrite lookup_insert_ne by done. destruct Hi as [[?|?]%elem_of_cons|?]; [done|by left|by right].
Qed.

Section load.
Context {Data : Type} (deviceData : Platform → option (DeviceDataTable Data)).
Context (accepts : Platform → opaque → Prop).
Implicit Types (db : Database Data) (s : Contents) (x : Parts).

Definition by_id (ds : list DeviceRecord) : gmap string DeviceRecord :=
  foldl (λ m d, <[dev_id d := d]> m) ∅ ds.
Lemma by_id_Some ds d : NoDup (dev_id <$> ds) → d ∈ ds → by_id ds !! dev_id d = Some d.
Proof.
  intros Hn Hd. unfold by_id. rewrite insert_all_lookup by done.
  by rewrite (proj2 (table_of_Some dev_id ds (dev_id d) d Hn)).
Qed.

Lemma load_apps db s x : stored deviceData db s x →
  ∃ apps, fold_rows gather_apps ∅
      (sort_by (order_by ["device_id"; "position"]) (tables db t_device_enrolled_apps)) = Ok apps
    ∧ ∀ p, Physical p ∈ ct_devices s → default [] (apps !! dev_id (Physical p)) = p_enrolledApps p.
Proof.
  intros [Htables Hids Hqids Hckeys Happs Hgrants Henv Hreceipts Hrkeys Hdata]. rewrite Htables. cbn [tables_of]. rewrite sort_by_fmap.
  destruct (gather_spec gather_apps part_app (λ e, e.1.1) (λ e l, l ++ [e.2]) ltac:(done)
    (sort_by (λ e e', order_by ["device_id"; "position"] (part_app e) (part_app e')) (x_apps x)) ∅)
    as (apps & Hok & Hk).
  exists apps. split; [done|]. intros p Hp. rewrite Hk, lookup_empty.
  rewrite (apps_sorted _ _ _ (Happs p Hp)), foldl_snoc. cbn [app].
  rewrite fmap_imap. cbn. apply list_eq. intros n. rewrite list_lookup_imap. by destruct (_ !! n).
Qed.

Lemma load_devices t db s x : stored deviceData db s x → contents_ok t s → storable accepts s →
  (apps ← fold_rows gather_apps ∅
      (sort_by (order_by ["device_id"; "position"]) (tables db t_device_enrolled_apps));
   mapM (deviceFromRow deviceData (device_data db) apps) (tables db t_devices)) = Ok (ct_devices s).
Proof.
  intros Hst Hok Hso. destruct (load_apps db s x Hst) as (apps & -> & Happs). rewrite bind_of_Ok.
  rewrite (sd_tables _ _ _ _ Hst). cbn [tables_of].
  rewrite (mapM_Ok _ device_row (λ d, d)); [by rewrite list_fmap_id|].
  intros d Hd. destruct (so_device _ _ Hso d Hd) as (_ & Hcause & Hex & Hphys).
  apply deviceFromRow_eq; [|by intros p ->; apply Happs].
  split_and!; [done|by apply (do_wf _ _ _ _ _ Hok)|]. destruct d as [v|p]; [|by apply Hphys].
  split; [done|]. by apply (sd_data _ _ _ _ Hst).
Qed.

Lemma load_leases db s x : stored deviceData db s x →
  mapM (λ row, leaseFromRow "leases" (js_String (row_get row "id")) row "id") (tables db t_leases)
  = Ok (ct_leases s).
Proof.
  intros [Htables Hids Hqids Hckeys Happs Hgrants Henv Hreceipts Hrkeys Hdata]. rewrite Htables. cbn [tables_of].
  rewrite (mapM_Ok _ lease_row (λ l, l)); [by rewrite list_fmap_id|].
  intros l _. by apply leaseFromRow_eq.
Qed.

Lemma load_components db s x : stored deviceData db s x →
  (∀ c, c ∈ ct_components s → NoDup (cp_receipt c).*1) → loadComponents db = Ok (ct_components s).
Proof.
  intros [Htables Hids Hqids Hckeys Happs Hgrants Henv Hreceipts Hrkeys Hdata] Hn.
  unfold loadComponents. rewrite !Htables. cbn [tables_of].
  destruct (gather_spec gather_receipt part_receipt (λ e, (platform_text e.1.1, e.1.2))
    (λ e l, Ordered.set e.2.1 e.2.2 l) ltac:(done) (x_receipts x) ∅) as (receipts & -> & Hk).
  rewrite bind_of_Ok. rewrite (mapM_Ok _ component_row (λ c, c)); [by rewrite list_fmap_id|].
  intros c Hc. apply componentFromRow_eq. rewrite Hk, lookup_empty.
  rewrite (afilter_ext _ (λ e, e.1 === componentKey c)).
  2:{ intros [[p v] e] _. apply bool_decide_ext. cbn. unfold componentKey.
      split; [by intros [= ->%platform_text_inj ->]|by intros [= -> ->]]. }
  rewrite Hreceipts by done. rewrite foldl_fmap. cbn. by rewrite foldl_set; [|apply Hn].
Qed.

Lemma load_requests t db s x : stored deviceData db s x → contents_ok t s → storable accepts s →
  loadLeaseRequests db (by_id (ct_devices s)) = Ok (current (by_id (ct_devices s)) <$> ct_requests s).
Proof.
  intros [Htables Hids Hqids Hckeys Happs Hgrants Henv Hreceipts Hrkeys Hdata] Hok Hso.
  unfold loadLeaseRequests. rewrite !Htables. cbn [tables_of].
  destruct (gather_spec gather_environment part_environment fst (λ e l, Ordered.set e.2.1 e.2.2 l)
    ltac:(done) (x_environment x) ∅) as (environments & -> & Hk).
  rewrite bind_of_Ok. cbv zeta. apply mapM_Ok. intros q Hq. destruct (so_request _ _ Hso q Hq) as [Hex Hg].
  apply requestRecordFromRow_eq; [done|by apply (do_granted _ _ _ _ _ Hok)| |].
  - destruct (grants_by_request (x_grants x) ∅ (q_id q)) as [H1 H2].
    set (M := foldl _ _ _) in *. destruct (q_grant q) as [g|] eqn:Eg.
    + destruct H2 as [row Hrow].
      { left. apply (list_elem_of_fmap_2 fst _ (q_id q, g)), Hgrants. by exists q. }
      rewrite Hrow. destruct (H1 row Hrow) as [(g' & (q' & Hq' & Hid & Hg')%Hgrants & ->)|?]; [|done].
      rewrite (NoDup_fmap_inj_on q_id _ q' q Hqids Hq' Hq Hid) in Hg'.
      by assert (g' = g) as -> by congruence.
    + destruct (M !! q_id q) as [row|] eqn:Em; [|done].
      destruct (H1 row eq_refl) as [(g' & (q' & Hq' & Hid & Hg')%Hgrants & ->)|?]; [|done].
      rewrite (NoDup_fmap_inj_on q_id _ q' q Hqids Hq' Hq Hid) in Hg'. congruence.
  - intros g Eg. destruct (Hg g Eg) as [Hl Hn].
    destruct (do_grants _ _ _ _ _ Hok q g Hq Eg) as (_ & at_ & d & _ & _ & Hd & Hid & _).
    split_and!; [rewrite <- Hid, by_id_Some; by eauto|done|].
    rewrite Hk, lookup_empty, (Henv q g Hq Eg), foldl_fmap. cbn. by rewrite foldl_set.
Qed.

(** The load reads the records that are on disk, each request with its device as it is now. *)
Lemma load_on_disk t db s : contents_ok t s → storable accepts s → on_disk deviceData db s →
  ∃ cs, cs ≡ₚ ct_components s
    ∧ loadRegistryRows deviceData db = Ok (MkContents (ct_devices s) (ct_leases s)
        (current (by_id (ct_devices s)) <$> ct_requests s) cs).
Proof.
  intros Hok Hso (cs & Hcs & x & Hst). exists cs. split; [done|].
  pose proof (load_devices t db _ x Hst) as Hd. pose proof (load_requests t db _ x Hst) as Hq.
  assert (contents_ok t (s <| ct_components := cs |>)) as Hok'.
  { destruct Hok. split; try done. cbn. by rewrite Hcs. }
  assert (storable accepts (s <| ct_components := cs |>)) as Hso'.
  { destruct Hso as [? ? Hc]. split; try done. cbn. intros c Hin. apply Hc. by rewrite <- Hcs. }
  specialize (Hd Hok' Hso'). specialize (Hq Hok' Hso').
  unfold loadRegistryRows.
  destruct (load_apps db _ x Hst) as (apps & Happs & _). rewrite Happs in Hd. rewrite Happs, bind_of_Ok.
  rewrite (Hd : mapM (deviceFromRow deviceData (device_data db) apps) (tables db t_devices) = _), bind_of_Ok, (load_leases _ _ _ Hst), bind_of_Ok. cbv zeta.
  rewrite (load_components _ _ _ Hst (so_component _ _ Hso')), bind_of_Ok.
  exact (f_equal (λ r, requests ← r; Ok (MkContents (ct_devices s) (ct_leases s) requests cs)) Hq).
Qed.
End load.

(** ** Restarts *)

Section restart.
Context {Data : Type} (deviceData : Platform → option (DeviceDataTable Data)).
Context (accepts : Platform → opaque → Prop).

(** A database no transaction has been written to. *)
Definition empty_database (data : Data) : Database Data := MkDatabase (λ _, []) data.

Lemma empty_on_disk data : on_disk deviceData (empty_database data) no_contents.
Proof.
  exists []. split; [done|]. exists (MkParts [] [] [] []). split; cbn; try apply NoDup_nil_2;
    try (by intros ? ?%elem_of_nil); try (by intros ? ? ?%elem_of_nil); [by intros []|].
  intros i g. split; [by intros ?%elem_of_nil|]. by intros (q & ?%elem_of_nil & _).
Qed.
Lemma no_contents_ok t : contents_ok t no_contents.
Proof. apply (empty_registry_ok t). Qed.
Lemma no_contents_storable : storable accepts no_contents.
Proof. split; cbn; by intros ? ?%elem_of_nil. Qed.

Lemma current_device t r q : registry_ok t r →
  current (by_id (devices r)) q = withCurrentDevice r q.
Proof.
  intros Hr. unfold current, withCurrentDevice. destruct (q_grant q) as [g|]; [|done].
  pose proof (do_ids _ _ _ _ _ (ro_data _ _ Hr)) as Hn.
  destruct (Arr.find _ (devices r)) as [d|] eqn:Ef.
  - apply afind_Some in Ef as [Hd <-%bool_decide_eq_true]. by rewrite by_id_Some.
  - rewrite afind_None in Ef. unfold by_id. rewrite insert_all_lookup by done.
    rewrite (proj2 (table_of_None _ _ _)); [done|].
    intros (d & Hid & Hd)%list_elem_of_fmap. specialize (Ef d Hd). cbn in Ef.
    by rewrite bool_decide_eq_true_2 in Ef.
Qed.

Context `{!DeviceDataLaws deviceData accepts}.

(** Commit after commit, the tables hold what is in memory. *)
Lemma persist_all_leaves l s s' t db : chain s l s' → contents_ok t s → storable accepts s →
  Forall (storable accepts) l → on_disk deviceData db s →
  runs (persist_all deviceData s l) db
    (λ _ db', on_disk deviceData db' s' ∧ storable accepts s') (λ _ _, False).
Proof using DeviceDataLaws0.
  revert s t db. induction l as [|x l IH]; intros s t db Hch Hok Hso Hl Hdb; cbn [chain] in Hch.
  { subst s'. by split. }
  destruct Hch as [[[tx Hx] Hc] Hch]. apply Forall_cons in Hl as [Hxs Hl]. apply runs_bind.
  eapply runs_mono; [by eapply persist_leaves|cbv beta|done]. intros [] db' Hdb'. by eapply IH.
Qed.
End restart.

(** C3. A restart loses nothing. For every registry that can be reached, the transactions of its
    commits all succeed, in order, from an empty database: no statement breaks a column type, a
    primary key or a foreign key, purged devices and dropped requests included. Loading the
    database they leave gives back the registry as it is in memory: the same devices, leases and
    requests in the same order, every field of them, each granted request with its device as it is
    now, and the same installed components. The drivers' tables keep their contract, and the records
    are ones the columns can say all of (category names have no commas). *)
Theorem restart_loads_what_was_committed {Data} (deviceData : Platform → option (DeviceDataTable Data))
    accepts data options r t :
  DeviceDataLaws deviceData accepts → retention_ok options → registry_reachable options r t →
  Forall (storable accepts) (commits (log r)) →
  ∃ db cs,
    persist_all deviceData no_contents (commits (log r)) (empty_database data) = (db, Ok tt)
    ∧ loadRegistryRows deviceData db
      = Ok (MkContents (devices r) (leases r) (withCurrentDevice r <$> leaseRequests r) cs)
    ∧ cs ≡ₚ components r.
Proof.
  intros Hlaws Hret Hre Hso. pose proof (registry_reachable_ok _ _ _ Hret Hre) as Hr.
  pose proof (persist_all_leaves deviceData accepts _ _ _ t _ (ro_log _ _ Hr) (no_contents_ok t)
    (no_contents_storable accepts) Hso (empty_on_disk deviceData data)) as Hrun.
  unfold runs in Hrun. destruct (persist_all _ _ _ _) as [db [[]|e]]; [|done].
  destruct Hrun as [Hdb Hs]. destruct (load_on_disk deviceData accepts t db (contents r)) as (cs & Hcs & Hl);
    [apply Hr|done..|].
  exists db, cs. split_and!; [done| |done]. rewrite Hl. cbn. do 2 f_equal.
  apply list_fmap_ext. intros i q _. by eapply current_device.
Qed.

(** A table that stores what it is given, under the device's id. *)
Definition sample_table (p : Platform) : DeviceDataTable (gmap (Platform * string) opaque) :=
  MkDeviceData "sample" (λ i o d, Ok (<[(p, i) := o]> d)) (λ i d, of_option "no row" (d !! (p, i))).
Lemma sample_table_laws : DeviceDataLaws (λ p, Some (sample_table p)) (λ _ _, True).
Proof.
  split.
  - intros p o _. exists (sample_table p). split; [done|]. intros i d. by eexists.
  - intros p table i o d d' [= <-] [= <-]. cbn. by rewrite lookup_insert_eq.
  - intros p table i o d d' q table' j [= <-] [= <-] [= <-] Hne. cbn. by rewrite lookup_insert_ne.
Qed.

(** A lease that keeps two categories, in an environment of two variables; a phone enrolled with two
    apps; an installed component with its receipt; and the lease's end. *)
Definition restart_leased : Registry := (perform sample_options 4
  (CCreateLease "1" (MkCreateLease "dev_1" "agent" "owner" 100 104 None (Some ["store"; "other"])
     (Some (MkRequestRef "req_1" [("PORT", "8081"); ("HOST", "local")] (MkTiming 1 2 3 4)))))
  sample_ready).1.
Definition restart_enrolled : Registry := (perform sample_options 5
  (CEnroll "2" (MkEnroll ios "udid-2" "iPhone 15" "18.4" physical_phone ["com.b"; "com.a"]))
  restart_leased).1.
Definition restart_installed : Registry := (perform sample_options 6
  (CRecordComponent (MkComponent android "35" 6 [("identity", "android-35"); ("bytes", "12")]))
  restart_enrolled).1.
Definition restart_registry : Registry :=
  (perform sample_options 7 (CBeginRelease "lse_1" false) restart_installed).1.

Lemma restart_reachable : registry_reachable sample_options restart_registry 7.
Proof.
  apply (registry_command _ _ 6 7); [|lia|done].
  apply (registry_command _ _ 5 6); [|lia|done].
  apply (registry_command _ _ 4 5); [|lia|by apply (bool_decide_unpack _); vm_compute].
  apply (registry_command _ _ 3 4); [apply sample_ready_reachable|lia|].
  apply (bool_decide_unpack _). by vm_compute.
Qed.
Lemma restart_storable : Forall (storable (λ _ _, True)) (commits (log restart_registry)).
Proof.
  set (l := commits (log restart_registry)). vm_compute in l. subst l.
  assert (except_ok (Some ["store"; "other"])) as Hex.
  { intros l [= <-]. split; [done|]. by repeat constructor. }
  assert (NoDup ["PORT"; "HOST"] ∧ NoDup ["identity"; "bytes"]) as [He Hr].
  { split; by apply (bool_decide_unpack _); vm_compute. }
  repeat (apply Forall_cons; split;
    [split; cbn; intros ? H; decompose_list_elem_of; subst; cbn|]); [..|by apply Forall_nil].
  all: try split_and!; try done; intros g [= <-]; split; done.
Qed.

Lemma restart_loads_what_was_committed_witness :
  ∃ db cs,
    persist_all (λ p, Some (sample_table p)) no_contents (commits (log restart_registry))
      (empty_database ∅) = (db, Ok tt)
    ∧ loadRegistryRows (λ p, Some (sample_table p)) db
      = Ok (MkContents (devices restart_registry) (leases restart_registry)
          (withCurrentDevice restart_registry <$> leaseRequests restart_registry) cs)
    ∧ cs ≡ₚ components restart_registry.
Proof.
  apply (restart_loads_what_was_committed (λ p, Some (sample_table p)) (λ _ _, True) ∅ sample_options
    restart_registry 7 sample_table_laws sample_retention restart_reachable restart_storable).
Defined.
