(* ===== verification/FleetIndex.v ===== *)
(** * The gateway's leases: [src/gateway/lease-index.ts]

    A gateway leases devices of many workers. [FleetLeaseIndex] is its record of the leases it
    issued: by the id it gave out, by requester, and by the worker's own id. It is rebuilt from what
    workers report, so it must survive reports that are late: a lease is dropped only when two
    reports in a row lack it, and one the worker said it ended is not taken back from an older
    report. The listeners of a removal are a log of the entries removed. Log lines are left out. *)
From Stdlib Require Import Ascii.
From stdpp Require Import base strings list option numbers gmap sets.
From S2P Require Import Prelude JsString Domain WaitQueue Ordered.

(** ** Definitions *)

Record FleetLeaseEntry := MkEntry {
  e_gatewayLeaseId : string;
  e_workerId : string;
  e_workerLeaseId : string;
  e_requesterId : string;
  e_ownerId : string;
  e_grantedAt : Z }.
#[global] Instance FleetLeaseEntry_eq_dec : EqDecision FleetLeaseEntry.
Proof. solve_decision. Defined.

Record WorkerReportedLease := MkReported {
  r_id : string;
  r_deviceId : option string;
  r_requesterId : string;
  r_ownerId : string;
  r_grantedAt : Z;
  r_idChosenByRequester : option bool }.

Record ReportedDevice := MkReportedDevice { rd_id : string; rd_platform : Platform }.

Record ProjectedLease := MkProjected {
  pl_id : string;
  pl_requesterId : string;
  pl_workerId : string;
  pl_worker : option (string * option string) }.

Record FleetLeaseIndex := MkIndex {
  byGatewayId : list (string * FleetLeaseEntry);
  byRequester : gmap string (list string);
  byWorkerLease : gmap string string;
  platforms : gmap string Platform;
  generations : gmap string Z;
  missingSince : gmap string Z;
  removedByEvent : list string;
  endedByWorkerAnswer : list string;
  removals : list FleetLeaseEntry }.
#[export] Instance FleetLeaseIndex_eta : Eta FleetLeaseIndex := λ r,
  MkIndex (byGatewayId r) (byRequester r) (byWorkerLease r) (platforms r) (generations r)
    (missingSince r) (removedByEvent r) (endedByWorkerAnswer r) (removals r).
Definition empty_index : FleetLeaseIndex := MkIndex [] ∅ ∅ ∅ ∅ ∅ [] [] [].

(** [LEASE_ID_PATTERN]: a letter or digit, then at most 63 letters, digits, [_] and [-]. *)
Definition id_head (c : ascii) : bool := in_range "A" "Z" c || in_range "a" "z" c || in_range "0" "9" c.
Definition id_tail (c : ascii) : bool := id_head c || (c === "_"%char) || (c === "-"%char).
Definition LEASE_ID_PATTERN (s : string) : bool :=
  match s with
  | "" => false
  | String c rest => id_head c && str_all id_tail rest && (String.length rest <=? 63)%nat
  end.

Definition REMOVED_IDS_CAPACITY : nat := 200.
Definition remember (ids : list string) (gatewayLeaseId : string) : list string :=
  let ids := Ordered.add gatewayLeaseId ids in
  if (length ids <=? REMOVED_IDS_CAPACITY)%nat then ids else tail ids.

Definition workerKey (workerId workerLeaseId : string) : string := workerId +:+ " " +:+ workerLeaseId.
Definition prefixed (workerId workerLeaseId : string) : string := workerId +:+ "." +:+ workerLeaseId.

Section index.
(** [gw:<instance>:], which marks a requester id as this gateway's own. *)
Context (gatewayRequesterPrefix : string).
Implicit Types (idx : FleetLeaseIndex) (entry : FleetLeaseEntry).

Definition isGatewayRequester (requesterId : string) : bool := startsWith gatewayRequesterPrefix requesterId.

Definition all idx : list FleetLeaseEntry := Ordered.values (byGatewayId idx).
Definition resolve_lease idx (gatewayLeaseId : string) : option FleetLeaseEntry :=
  Ordered.get gatewayLeaseId (byGatewayId idx).
Definition findByWorkerLease idx (workerId workerLeaseId : string) : option FleetLeaseEntry :=
  byWorkerLease idx !! workerKey workerId workerLeaseId ≫= resolve_lease idx.
Definition ownerId idx (gatewayLeaseId : string) : option string :=
  e_ownerId <$> resolve_lease idx gatewayLeaseId.
Definition leaseRequesterId idx (gatewayLeaseId : string) : option string :=
  e_requesterId <$> resolve_lease idx gatewayLeaseId.

Definition ids_of idx (requesterId : string) : list string := default [] (byRequester idx !! requesterId).

Definition earlier_entry (earliest : option FleetLeaseEntry) entry : option FleetLeaseEntry :=
  match earliest with
  | Some e => if (e_grantedAt entry <? e_grantedAt e)%Z then Some entry else Some e
  | None => Some entry
  end.
Definition existingLeaseId idx (requesterId : string) : option string :=
  e_gatewayLeaseId <$> foldl earlier_entry None (omap (resolve_lease idx) (ids_of idx requesterId)).

Definition held_lease idx (id : string) : option HeldLease :=
  entry ← resolve_lease idx id;
  Some (MkHeld (e_gatewayLeaseId entry) (e_grantedAt entry) (platforms idx !! id)).
Definition held idx (requesterId : string) : list HeldLease :=
  omap (held_lease idx) (ids_of idx requesterId).
Definition leaseCount idx (requesterId : string) : Z := Z.of_nat (length (ids_of idx requesterId)).

Definition add idx entry (platform : option Platform) : FleetLeaseIndex * bool :=
  let existing := resolve_lease idx (e_gatewayLeaseId entry) in
  if match existing with Some e => e_workerId e !== e_workerId entry | None => false end then (idx, false)
  else
    let gid := e_gatewayLeaseId entry in
    (idx <| endedByWorkerAnswer := Ordered.drop gid (endedByWorkerAnswer idx) |>
         <| byGatewayId := Ordered.set gid entry (byGatewayId idx) |>
         <| platforms := match platform with Some p => <[gid := p]> (platforms idx) | None => platforms idx end |>
         <| byRequester := <[e_requesterId entry := Ordered.add gid (ids_of idx (e_requesterId entry))]>
              (byRequester idx) |>
         <| byWorkerLease := <[workerKey (e_workerId entry) (e_workerLeaseId entry) := gid]>
              (byWorkerLease idx) |>, true).

Definition dropRequesterLink idx entry : FleetLeaseIndex :=
  match byRequester idx !! e_requesterId entry with
  | Some ids =>
      let ids := Ordered.drop (e_gatewayLeaseId entry) ids in
      idx <| byRequester := if ids === [] then delete (e_requesterId entry) (byRequester idx)
                            else <[e_requesterId entry := ids]> (byRequester idx) |>
  | None => idx
  end.

Definition forget idx entry : FleetLeaseIndex :=
  let idx := idx <| byGatewayId := Ordered.delete (e_gatewayLeaseId entry) (byGatewayId idx) |>
                 <| platforms := delete (e_gatewayLeaseId entry) (platforms idx) |> in
  let idx := dropRequesterLink idx entry in
  idx <| byWorkerLease := delete (workerKey (e_workerId entry) (e_workerLeaseId entry)) (byWorkerLease idx) |>
      <| missingSince := delete (e_gatewayLeaseId entry) (missingSince idx) |>
      <| removals := removals idx ++ [entry] |>.

Definition remove idx (gatewayLeaseId : string) : FleetLeaseIndex * option FleetLeaseEntry :=
  let entry := resolve_lease idx gatewayLeaseId in
  let idx := idx <| endedByWorkerAnswer := remember (endedByWorkerAnswer idx) gatewayLeaseId |> in
  match entry with
  | None => (idx, None)
  | Some entry => (forget idx entry, Some entry)
  end.

Definition removeByWorkerLease idx (workerId workerLeaseId : string)
    : FleetLeaseIndex * option FleetLeaseEntry :=
  match findByWorkerLease idx workerId workerLeaseId with
  | None => (idx, None)
  | Some entry =>
      let idx := forget idx entry in
      (idx <| removedByEvent := remember (removedByEvent idx) (e_gatewayLeaseId entry) |>, Some entry)
  end.

Definition gatewayLeaseId (workerId : string) (lease : WorkerReportedLease) : string :=
  if r_idChosenByRequester lease !== Some true then prefixed workerId (r_id lease)
  else if LEASE_ID_PATTERN (r_id lease) then r_id lease
  else prefixed workerId (r_id lease).

(** One lease of the report: the index, and the ids seen so far. *)
Definition add_reported (workerId : string) (devices : list ReportedDevice)
    (acc : FleetLeaseIndex * list string) (lease : WorkerReportedLease) : FleetLeaseIndex * list string :=
  let '(idx, reported) := acc in
  if negb (isGatewayRequester (r_requesterId lease)) then (idx, reported)
  else
    let gid := gatewayLeaseId workerId lease in
    let existing := resolve_lease idx gid in
    if match existing with Some e => e_workerId e !== workerId | None => false end then (idx, reported)
    else
      let reported := Ordered.add gid reported in
      let idx := idx <| missingSince := delete gid (missingSince idx) |> in
      if (existing !== None) || Arr.includes gid (endedByWorkerAnswer idx) then (idx, reported)
      else
        let idx := idx <| removedByEvent := Ordered.drop gid (removedByEvent idx) |> in
        let platform := rd_platform <$> Arr.find (λ device, Some (rd_id device) === r_deviceId lease) devices in
        ((add idx
            (MkEntry gid workerId (r_id lease)
               (str_drop (String.length gatewayRequesterPrefix) (r_requesterId lease))
               (r_ownerId lease) (r_grantedAt lease)) platform).1, reported).
Definition addReported idx (workerId : string) (leases : list WorkerReportedLease)
    (devices : list ReportedDevice) : FleetLeaseIndex * list string :=
  foldl (add_reported workerId devices) (idx, []) leases.

Definition reconcile_entry (workerId : string) (generation : Z) (reported : list string) idx entry
    : FleetLeaseIndex :=
  if (e_workerId entry !== workerId) || Arr.includes (e_gatewayLeaseId entry) reported then idx
  else match missingSince idx !! e_gatewayLeaseId entry with
       | None => idx <| missingSince := <[e_gatewayLeaseId entry := generation]> (missingSince idx) |>
       | Some firstMissedAt => if (firstMissedAt <? generation)%Z then forget idx entry else idx
       end.
Definition reconcileMissing idx (workerId : string) (generation : Z) (reported : list string)
    : FleetLeaseIndex :=
  foldl (reconcile_entry workerId generation reported) idx (all idx).

Definition rebuildFromWorker idx (workerId : string) (leases : list WorkerReportedLease)
    (devices : list ReportedDevice) : FleetLeaseIndex :=
  let generation := (default 0 (generations idx !! workerId) + 1)%Z in
  let idx := idx <| generations := <[workerId := generation]> (generations idx) |> in
  let '(idx, reported) := addReported idx workerId leases devices in
  reconcileMissing idx workerId generation reported.

Definition forget_of (workerId : string) idx entry : FleetLeaseIndex :=
  if e_workerId entry === workerId then forget idx entry else idx.
Definition forgetWorker idx (workerId : string) : FleetLeaseIndex :=
  let idx := foldl (forget_of workerId) idx (all idx) in
  idx <| generations := delete workerId (generations idx) |>.

Definition project idx (lease : WorkerReportedLease) (workerId : string) (workerLabel : option string)
    : ProjectedLease :=
  match findByWorkerLease idx workerId (r_id lease) with
  | None => MkProjected (r_id lease) (r_requesterId lease) workerId None
  | Some entry => MkProjected (e_gatewayLeaseId entry) (e_requesterId entry) workerId
                    (Some (workerId, workerLabel))
  end.
End index.

(** ** Ids

    A worker's id holds neither the separator of [workerKey] nor that of [prefixed] (it is a UUID),
    so both can be read apart again, and an id a requester may choose is never a prefixed one. *)

Definition worker_id_ok (w : string) : bool := str_all (λ c, (c !== " "%char) && (c !== "."%char)) w.

Lemma separator_split (f : ascii → bool) (c : ascii) a b a' b' :
  f c = false → str_all f a = true → str_all f a' = true →
  a +:+ String c b = a' +:+ String c b' → a = a' ∧ b = b'.
Proof.
  intros Hc. revert a'. induction a as [|x a IH]; intros [|y a']; cbn; intros Ha Ha' Heq.
  - by simplify_eq.
  - simplify_eq. by rewrite Hc in Ha'.
  - simplify_eq. by rewrite Hc in Ha.
  - simplify_eq. apply andb_true_iff in Ha as [_ Ha], Ha' as [_ Ha'].
    by destruct (IH a' Ha Ha') as [-> ->].
Qed.
Lemma workerKey_inj w l w' l' : worker_id_ok w = true → worker_id_ok w' = true →
  workerKey w l = workerKey w' l' → w = w' ∧ l = l'.
Proof. by apply separator_split. Qed.
Lemma prefixed_inj w l w' l' : worker_id_ok w = true → worker_id_ok w' = true →
  prefixed w l = prefixed w' l' → w = w' ∧ l = l'.
Proof. by apply separator_split. Qed.

Lemma prefixed_not_chosen w l : LEASE_ID_PATTERN (prefixed w l) = false.
Proof.
  assert (str_all id_tail (prefixed w l) = false) as Hall.
  { unfold prefixed. rewrite !str_all_app. cbn. by rewrite andb_false_r. }
  destruct (prefixed w l) as [|c s]; [done|]. cbn in *.
  destruct (id_head c) eqn:Ec; [|done]. cbn. unfold id_tail at 1 in Hall. rewrite Ec in Hall. cbn in Hall.
  by rewrite Hall.
Qed.

(** ** The invariant *)

(** What holds of one worker lease for good: whether the requester chose its id, and who asked. *)
Definition Issued := string → string → bool * string.

Section invariant.
Context (gatewayRequesterPrefix : string) (issued : Issued).
Implicit Types (idx : FleetLeaseIndex) (e : FleetLeaseEntry) (w l gid : string).

Record entry_ok e : Prop := {
  eo_worker : worker_id_ok (e_workerId e) = true;
  eo_requester : e_requesterId e = (issued (e_workerId e) (e_workerLeaseId e)).2;
  eo_bare : (issued (e_workerId e) (e_workerLeaseId e)).1 = true →
    LEASE_ID_PATTERN (e_workerLeaseId e) = true ∧ e_gatewayLeaseId e = e_workerLeaseId e;
  eo_prefixed : (issued (e_workerId e) (e_workerLeaseId e)).1 = false →
    e_gatewayLeaseId e = prefixed (e_workerId e) (e_workerLeaseId e) }.

(** One gateway id of one worker is one lease, and one worker lease is one gateway id. *)
Lemma same_lease e e' : entry_ok e → entry_ok e' → e_workerId e = e_workerId e' →
  e_gatewayLeaseId e = e_gatewayLeaseId e' ↔ e_workerLeaseId e = e_workerLeaseId e'.
Proof.
  intros He He' Hw. split.
  - intros Hg. destruct (issued (e_workerId e) (e_workerLeaseId e)).1 eqn:E1,
      (issued (e_workerId e') (e_workerLeaseId e')).1 eqn:E2.
    + apply (eo_bare _ He) in E1 as [_ E1]. apply (eo_bare _ He') in E2 as [_ E2]. congruence.
    + apply (eo_bare _ He) in E1 as [Hp E1]. apply (eo_prefixed _ He') in E2.
      rewrite <- E1, Hg, E2, prefixed_not_chosen in Hp. done.
    + apply (eo_prefixed _ He) in E1. apply (eo_bare _ He') in E2 as [Hp E2].
      rewrite <- E2, <- Hg, E1, prefixed_not_chosen in Hp. done.
    + apply (eo_prefixed _ He) in E1. apply (eo_prefixed _ He') in E2. rewrite E1, E2 in Hg.
      by apply prefixed_inj in Hg as [_ ?]; [|apply He|apply He'].
  - intros Hl. destruct (issued (e_workerId e) (e_workerLeaseId e)).1 eqn:E1; pose proof E1 as E2;
      rewrite Hw, Hl in E2.
    + apply (eo_bare _ He) in E1 as [_ ->]. by apply (eo_bare _ He') in E2 as [_ ->].
    + apply (eo_prefixed _ He) in E1 as ->. apply (eo_prefixed _ He') in E2 as ->. by rewrite Hw, Hl.
Qed.
Lemma same_requester e e' : entry_ok e → entry_ok e' → e_workerId e = e_workerId e' →
  e_workerLeaseId e = e_workerLeaseId e' → e_requesterId e = e_requesterId e'.
Proof. intros [_ -> _ _] [_ -> _ _]. by intros -> ->. Qed.

Definition key_of e : string := workerKey (e_workerId e) (e_workerLeaseId e).
Lemma key_of_inj e e' : entry_ok e → entry_ok e' → key_of e = key_of e' →
  e_workerId e = e_workerId e' ∧ e_workerLeaseId e = e_workerLeaseId e'.
Proof. intros He He'. apply workerKey_inj; [apply He|apply He']. Qed.

(** The five tables agree on which leases there are. *)
Record linked idx : Prop := {
  li_wf : Ordered.wf (byGatewayId idx);
  li_entry gid e : resolve_lease idx gid = Some e → e_gatewayLeaseId e = gid ∧ entry_ok e;
  li_requester r gid : gid ∈ ids_of idx r ↔ ∃ e, resolve_lease idx gid = Some e ∧ e_requesterId e = r;
  li_ids r ids : byRequester idx !! r = Some ids → ids ≠ [] ∧ NoDup ids;
  li_worker k gid : byWorkerLease idx !! k = Some gid ↔ ∃ e, resolve_lease idx gid = Some e ∧ key_of e = k;
  li_platform gid : is_Some (platforms idx !! gid) → is_Some (resolve_lease idx gid);
  li_missing gid : is_Some (missingSince idx !! gid) → is_Some (resolve_lease idx gid) }.

Lemma ids_NoDup idx r : linked idx → NoDup (ids_of idx r).
Proof.
  intros Hl. unfold ids_of. destruct (byRequester idx !! r) eqn:E; cbn; [|constructor].
  by apply (li_ids _ Hl) in E as [_ ?].
Qed.

Lemma resolve_set idx gid e gid' :
  resolve_lease (idx <| byGatewayId := Ordered.set gid e (byGatewayId idx) |>) gid' =
    if decide (gid = gid') then Some e else resolve_lease idx gid'.
Proof. apply Ordered.get_set_case. Qed.

Lemma linked_empty : linked empty_index.
Proof.
  split; cbn; try done.
  - constructor.
  - intros r gid. split; [intros []%elem_of_nil|intros (e & [=] & _)].
  - intros k gid. split; [done|intros (e & [=] & _)].
  - intros gid [? [=]].
  - intros gid [? [=]].
Qed.

(** The tables [linked] does not read may change. *)
Lemma linked_ext idx idx' : linked idx → byGatewayId idx' = byGatewayId idx →
  byRequester idx' = byRequester idx → byWorkerLease idx' = byWorkerLease idx →
  platforms idx' = platforms idx →
  (∀ gid, is_Some (missingSince idx' !! gid) → is_Some (resolve_lease idx gid)) → linked idx'.
Proof.
  intros [] H1 H2 H3 H4 H5.
  split; unfold ids_of, resolve_lease in *; rewrite ?H1, ?H2, ?H3, ?H4; auto.
Qed.

Lemma add_refuses idx e p e0 : resolve_lease idx (e_gatewayLeaseId e) = Some e0 → e_workerId e0 ≠ e_workerId e →
  add idx e p = (idx, false).
Proof. intros E Hw. unfold add. rewrite E. by rewrite bool_decide_false. Qed.

Definition added idx e (p : option Platform) : FleetLeaseIndex :=
  let gid := e_gatewayLeaseId e in
  MkIndex (Ordered.set gid e (byGatewayId idx))
    (<[e_requesterId e := Ordered.add gid (ids_of idx (e_requesterId e))]> (byRequester idx))
    (<[key_of e := gid]> (byWorkerLease idx))
    (match p with Some p => <[gid := p]> (platforms idx) | None => platforms idx end)
    (generations idx) (missingSince idx) (removedByEvent idx)
    (Ordered.drop gid (endedByWorkerAnswer idx)) (removals idx).
Lemma add_adds idx e p :
  (∀ e0, resolve_lease idx (e_gatewayLeaseId e) = Some e0 → e_workerId e0 = e_workerId e) →
  add idx e p = (added idx e p, true).
Proof.
  intros Hw. unfold add. destruct (resolve_lease _ _) as [e0|] eqn:E; [|done].
  by rewrite (Hw e0), bool_decide_true.
Qed.

Lemma resolve_added idx e p gid :
  resolve_lease (added idx e p) gid = if decide (e_gatewayLeaseId e = gid) then Some e else resolve_lease idx gid.
Proof. apply Ordered.get_set_case. Qed.
Lemma ids_added idx e p r :
  ids_of (added idx e p) r =
    if decide (e_requesterId e = r) then Ordered.add (e_gatewayLeaseId e) (ids_of idx r) else ids_of idx r.
Proof.
  unfold ids_of. cbn. case_decide as Hr; [subst r; by rewrite lookup_insert_eq|by rewrite lookup_insert_ne].
Qed.

Lemma added_linked idx e p : linked idx → entry_ok e →
  (∀ e0, resolve_lease idx (e_gatewayLeaseId e) = Some e0 → e_workerId e0 = e_workerId e) →
  linked (added idx e p).
Proof.
  intros Hl He Hw.
  assert (∀ e0, resolve_lease idx (e_gatewayLeaseId e) = Some e0 →
    e_requesterId e0 = e_requesterId e ∧ key_of e0 = key_of e) as Hsame.
  { intros e0 E0. pose proof (Hw _ E0) as Hw0. destruct (li_entry _ Hl _ _ E0) as [Hg0 He0].
    apply (same_lease e0 e He0 He Hw0) in Hg0. split; [by apply same_requester|].
    unfold key_of. by rewrite Hw0, Hg0. }
  split.
  - apply Ordered.set_wf, Hl.
  - intros gid e'. rewrite resolve_added. case_decide; [by intros [= <-]|apply Hl].
  - intros r gid. rewrite ids_added, resolve_added. case_decide as Hr; case_decide as Hg.
    + rewrite Ordered.elem_of_add. naive_solver.
    + rewrite Ordered.elem_of_add, (li_requester _ Hl). naive_solver.
    + subst gid. rewrite (li_requester _ Hl). split; [|naive_solver].
      intros (e0 & E0 & Hr0). destruct (Hsame _ E0) as [Hs _]. congruence.
    + apply Hl.
  - intros r ids. cbn. rewrite lookup_insert_Some. intros [[_ <-]|[_ Hids]]; [|by apply (li_ids _ Hl) in Hids].
    split; [|by apply Ordered.add_NoDup, ids_NoDup]. intros Hnil.
    assert (e_gatewayLeaseId e ∈ []) as []%elem_of_nil. rewrite <- Hnil. apply Ordered.elem_of_add. by left.
  - intros k gid. cbn [byWorkerLease added]. rewrite lookup_insert_Some, resolve_added, (li_worker _ Hl).
    case_decide as Hg; [subst gid|]; split.
    + intros [[<- _]|[Hk (e0 & E0 & Hk0)]]; [by exists e|]. destruct (Hsame _ E0) as [_ Hs]. congruence.
    + intros (? & [= <-] & <-). by left.
    + intros [[_ <-]|[_ ?]]; [done|done].
    + intros (e' & E' & <-). right. split; [|by exists e']. intros Hk.
      destruct (li_entry _ Hl _ _ E') as [<- He']. destruct (key_of_inj _ _ He He' Hk) as [Hw' Hwl].
      apply Hg. by apply same_lease.
  - intros gid. rewrite resolve_added. case_decide as Hg; [done|]. cbn. destruct p; [|apply Hl].
    rewrite lookup_insert_ne by done. apply Hl.
  - intros gid. rewrite resolve_added. case_decide as Hg; [done|]. apply Hl.
Qed.

Lemma add_linked idx e p : linked idx → entry_ok e → linked (add idx e p).1.
Proof.
  intros Hl He. destruct (resolve_lease idx (e_gatewayLeaseId e)) as [e0|] eqn:E0.
  - destruct (decide (e_workerId e0 = e_workerId e)) as [Hw|Hw]; [|by rewrite (add_refuses _ _ _ _ E0 Hw)].
    rewrite add_adds by congruence. apply added_linked; [done..|congruence].
  - rewrite add_adds by congruence. apply added_linked; [done..|congruence].
Qed.

(** Forgetting an entry of the index. *)
Lemma resolve_forget idx e gid :
  resolve_lease (forget idx e) gid = if decide (e_gatewayLeaseId e = gid) then None else resolve_lease idx gid.
Proof.
  unfold resolve_lease, forget, dropRequesterLink. cbn. rewrite <- Ordered.get_delete_case.
  by destruct (byRequester idx !! _).
Qed.
Lemma byRequester_forget idx e :
  byRequester (forget idx e) =
    match byRequester idx !! e_requesterId e with
    | Some ids => if Ordered.drop (e_gatewayLeaseId e) ids === [] then delete (e_requesterId e) (byRequester idx)
                  else <[e_requesterId e := Ordered.drop (e_gatewayLeaseId e) ids]> (byRequester idx)
    | None => byRequester idx
    end.
Proof. unfold forget, dropRequesterLink. cbn. by destruct (byRequester idx !! _). Qed.
Lemma ids_forget idx e r :
  ids_of (forget idx e) r =
    if decide (e_requesterId e = r) then Ordered.drop (e_gatewayLeaseId e) (ids_of idx r) else ids_of idx r.
Proof.
  unfold ids_of. rewrite byRequester_forget. case_decide as Hr.
  - subst r. destruct (byRequester idx !! _) as [ids|] eqn:E; [|by rewrite E].
    case_bool_decide as Hn; [rewrite lookup_delete_eq; exact (eq_sym Hn)|by rewrite lookup_insert_eq].
  - destruct (byRequester idx !! e_requesterId e) as [ids|] eqn:E; [|done].
    case_bool_decide as Hn; [by rewrite lookup_delete_ne|by rewrite lookup_insert_ne].
Qed.
Lemma forget_others idx e : byWorkerLease (forget idx e) = delete (key_of e) (byWorkerLease idx) ∧
  platforms (forget idx e) = delete (e_gatewayLeaseId e) (platforms idx) ∧
  missingSince (forget idx e) = delete (e_gatewayLeaseId e) (missingSince idx) ∧
  generations (forget idx e) = generations idx ∧
  removedByEvent (forget idx e) = removedByEvent idx ∧
  endedByWorkerAnswer (forget idx e) = endedByWorkerAnswer idx ∧
  byGatewayId (forget idx e) = Ordered.delete (e_gatewayLeaseId e) (byGatewayId idx).
Proof. unfold forget, dropRequesterLink. cbn. by destruct (byRequester idx !! _). Qed.

Lemma forget_linked idx e : linked idx → resolve_lease idx (e_gatewayLeaseId e) = Some e → linked (forget idx e).
Proof.
  intros Hl E. destruct (li_entry _ Hl _ _ E) as [_ He].
  destruct (forget_others idx e) as (Hwl & Hp & Hm & _ & _ & _ & Hg). split.
  - rewrite Hg. apply Ordered.delete_wf, Hl.
  - intros gid e'. rewrite resolve_forget. case_decide; [done|apply Hl].
  - intros r gid. rewrite ids_forget, resolve_forget. case_decide as Hr; case_decide as Hgid.
    + rewrite Ordered.elem_of_drop. naive_solver.
    + rewrite Ordered.elem_of_drop, (li_requester _ Hl). naive_solver.
    + subst gid. rewrite (li_requester _ Hl). naive_solver congruence.
    + apply Hl.
  - intros r ids. rewrite byRequester_forget. destruct (byRequester idx !! e_requesterId e) as [ids0|] eqn:E0; [|apply Hl].
    case_bool_decide as Hn.
    + rewrite lookup_delete_Some. intros [_ ?]. by apply (li_ids _ Hl) in H.
    + rewrite lookup_insert_Some. intros [[_ <-]|[_ ?]]; [|by apply (li_ids _ Hl) in H].
      split; [done|]. apply Ordered.drop_NoDup. by apply (li_ids _ Hl) in E0 as [_ ?].
  - intros k gid. rewrite Hwl, lookup_delete_Some, (li_worker _ Hl), resolve_forget.
    case_decide as Hgid; split.
    + intros [Hk (e' & E' & <-)]. subst gid. congruence.
    + by intros (? & [=] & _).
    + by intros [_ ?].
    + intros (e' & E' & <-). split; [|by exists e']. intros Hk.
      destruct (li_entry _ Hl _ _ E') as [<- He']. destruct (key_of_inj _ _ He He' Hk) as [Hw' Hwl'].
      apply Hgid. by apply same_lease.
  - intros gid. rewrite Hp, resolve_forget. case_decide as Hgid; [subst; rewrite lookup_delete_eq; by intros []|].
    rewrite lookup_delete_ne by done. apply Hl.
  - intros gid. rewrite Hm, resolve_forget. case_decide as Hgid; [subst; rewrite lookup_delete_eq; by intros []|].
    rewrite lookup_delete_ne by done. apply Hl.
Qed.

(** ** A report *)

Definition reported_ids w (leases : list WorkerReportedLease) : list string :=
  gatewayLeaseId w <$> Arr.filter (λ lease, isGatewayRequester gatewayRequesterPrefix (r_requesterId lease)) leases.

(** The worker says of its leases what holds of them. *)
Definition lease_agrees w (lease : WorkerReportedLease) : Prop :=
  isGatewayRequester gatewayRequesterPrefix (r_requesterId lease) = true →
  issued w (r_id lease) =
    ((r_idChosenByRequester lease === Some true) && LEASE_ID_PATTERN (r_id lease),
     str_drop (String.length gatewayRequesterPrefix) (r_requesterId lease)).

Definition reported_entry w (lease : WorkerReportedLease) : FleetLeaseEntry :=
  MkEntry (gatewayLeaseId w lease) w (r_id lease)
    (str_drop (String.length gatewayRequesterPrefix) (r_requesterId lease)) (r_ownerId lease) (r_grantedAt lease).
Lemma reported_entry_ok w lease : worker_id_ok w = true → lease_agrees w lease →
  isGatewayRequester gatewayRequesterPrefix (r_requesterId lease) = true → entry_ok (reported_entry w lease).
Proof.
  intros Hw Ha Hg. specialize (Ha Hg). split; cbn; rewrite ?Ha; cbn; try done; unfold gatewayLeaseId.
  - intros [-> Hp]%andb_true_iff. cbn. by rewrite Hp.
  - case_bool_decide; cbn; [|done]. by intros ->.
Qed.

(** What a report does to the index before anything is found missing. *)
Record report_read w (leases : list WorkerReportedLease) idx (idx' : FleetLeaseIndex) (reported : list string)
    : Prop := {
  rr_linked : linked idx';
  rr_generations : generations idx' = generations idx;
  rr_ended : endedByWorkerAnswer idx' = endedByWorkerAnswer idx;
  rr_kept gid e : resolve_lease idx gid = Some e → resolve_lease idx' gid = Some e;
  rr_new gid e : resolve_lease idx gid = None → resolve_lease idx' gid = Some e →
    e_workerId e = w ∧ gid ∈ reported ∧ gid ∉ endedByWorkerAnswer idx;
  rr_named gid : gid ∈ reported → gid ∈ reported_ids w leases;
  rr_owner gid e : gid ∈ reported → resolve_lease idx gid = Some e → e_workerId e = w;
  rr_all gid e : resolve_lease idx gid = Some e → e_workerId e = w → gid ∈ reported_ids w leases → gid ∈ reported;
  rr_missing gid : missingSince idx' !! gid = if decide (gid ∈ reported) then None else missingSince idx !! gid }.

Lemma ended_drop_id idx gid : gid ∉ endedByWorkerAnswer idx →
  Ordered.drop gid (endedByWorkerAnswer idx) = endedByWorkerAnswer idx.
Proof.
  intros Hni. apply afilter_all. intros x Hx. rewrite negb_true_iff, bool_decide_eq_false. by intros ->.
Qed.

Lemma reported_ids_snoc w leases lease gid : gid ∈ reported_ids w (leases ++ [lease]) ↔ gid ∈ reported_ids w leases ∨
  (isGatewayRequester gatewayRequesterPrefix (r_requesterId lease) = true ∧ gid = gatewayLeaseId w lease).
Proof.
  unfold reported_ids, Arr.filter. rewrite List.filter_app, fmap_app, elem_of_app. cbn.
  destruct (isGatewayRequester _ _); cbn; set_solver.
Qed.

(** A lease under an id of another worker, or of no gateway request, is passed over. *)
Lemma report_skipped w leases lease idx idx' reported : report_read w leases idx idx' reported →
  (isGatewayRequester gatewayRequesterPrefix (r_requesterId lease) = true →
   ∃ e, resolve_lease idx' (gatewayLeaseId w lease) = Some e ∧ e_workerId e ≠ w) →
  report_read w (leases ++ [lease]) idx idx' reported.
Proof.
  intros Hrr Hskip. pose proof Hrr as [Hl Hgen Hend Hkept Hnew Hnamed Hown Hall Hmiss]. split; try assumption; intros gid.
  - intros Hin. apply reported_ids_snoc. auto.
  - intros e E Ew [Hin|[Hg ->]]%reported_ids_snoc; [eauto|]. destruct (Hskip Hg) as (e' & E' & Hne).
    apply Hkept in E. congruence.
Qed.

(** A lease that is taken note of. *)
Lemma report_noted w leases lease idx idx' reported idx1 : report_read w leases idx idx' reported →
  isGatewayRequester gatewayRequesterPrefix (r_requesterId lease) = true →
  (∀ e, resolve_lease idx' (gatewayLeaseId w lease) = Some e → e_workerId e = w) →
  linked idx1 → generations idx1 = generations idx' → endedByWorkerAnswer idx1 = endedByWorkerAnswer idx' →
  missingSince idx1 = delete (gatewayLeaseId w lease) (missingSince idx') →
  (∀ gid e, resolve_lease idx' gid = Some e → resolve_lease idx1 gid = Some e) →
  (∀ gid e, resolve_lease idx' gid = None → resolve_lease idx1 gid = Some e →
     e_workerId e = w ∧ gid = gatewayLeaseId w lease ∧ gid ∉ endedByWorkerAnswer idx') →
  report_read w (leases ++ [lease]) idx idx1 (Ordered.add (gatewayLeaseId w lease) reported).
Proof.
  intros [Hl Hgen Hend Hkept Hnew Hnamed Hown Hall Hmiss] Hg Hw Hl1 Hg1 He1 Hm1 Hk1 Hn1.
  split; [done|congruence|congruence|eauto|..].
  - intros gid e E E1. rewrite Ordered.elem_of_add. destruct (resolve_lease idx' gid) as [e'|] eqn:E'.
    + pose proof (Hk1 _ _ E') as ?. destruct (Hnew gid e') as (?&?&?); [done..|]. naive_solver congruence.
    + destruct (Hn1 _ _ E' E1) as (?&?&?). rewrite <- Hend. naive_solver.
  - intros gid. rewrite Ordered.elem_of_add, reported_ids_snoc. intros [->|?]; auto.
  - intros gid e. rewrite Ordered.elem_of_add. naive_solver.
  - intros gid e E Ew. rewrite Ordered.elem_of_add, reported_ids_snoc. naive_solver.
  - intros gid. rewrite Hm1. destruct (decide (gid = gatewayLeaseId w lease)) as [->|Hne].
    + rewrite lookup_delete_eq. case_decide as Hd; [done|]. rewrite Ordered.elem_of_add in Hd. tauto.
    + rewrite lookup_delete_ne, Hmiss by done.
      case_decide as Hd1; case_decide as Hd2; rewrite ?Ordered.elem_of_add in *; naive_solver.
Qed.

Lemma report_read_snoc w devices leases lease idx idx' reported : worker_id_ok w = true → lease_agrees w lease →
  report_read w leases idx idx' reported →
  let '(idx'', reported') := add_reported gatewayRequesterPrefix w devices (idx', reported) lease in
  report_read w (leases ++ [lease]) idx idx'' reported'.
Proof.
  intros Hw Ha Hrr. pose proof (rr_linked _ _ _ _ _ Hrr) as Hl. unfold add_reported.
  destruct (isGatewayRequester _ _) eqn:Eg; cbn [negb]; [|apply report_skipped; [done|congruence]].
  pose proof (reported_entry_ok w lease Hw Ha Eg) as Heok.
  set (gid0 := gatewayLeaseId w lease) in *.
  assert (linked (idx' <| missingSince := delete gid0 (missingSince idx') |>)) as Hl1.
  { eapply linked_ext; [exact Hl|done..|]. intros gid. cbn. rewrite lookup_delete_is_Some. intros [_ ?].
    by apply (li_missing _ Hl). }
  destruct (resolve_lease idx' gid0) as [e|] eqn:E0.
  - case_bool_decide as He; cbn [negb]; [|apply report_skipped; eauto].
    rewrite bool_decide_false by done. cbn [negb orb]. apply report_noted with idx'; try done; [unfold gid0 in *; congruence|].
    intros gid e1 E1 E1'. change (resolve_lease idx' gid = Some e1) in E1'. congruence.
  - rewrite bool_decide_true by done. cbn [negb orb endedByWorkerAnswer].
    unfold Arr.includes. case_bool_decide as Hin.
    { apply report_noted with idx'; try done; [unfold gid0 in *; congruence|]. intros gid e1 E1 E1'.
      change (resolve_lease idx' gid = Some e1) in E1'. congruence. }
    set (idx2 := _ <| removedByEvent := _ |>).
    assert (linked idx2) as Hl2 by (eapply linked_ext; [exact Hl1|done..|apply (li_missing _ Hl1)]).
    assert (resolve_lease idx2 gid0 = None) as E2 by exact E0.
    rewrite add_adds by (cbn [e_gatewayLeaseId]; congruence). cbn [fst]. apply report_noted with idx'; try done.
    + unfold gid0 in *. congruence.
    + apply added_linked; [done..|]. cbn [e_gatewayLeaseId]. congruence.
    + exact (ended_drop_id _ _ Hin).
    + intros gid e E. rewrite resolve_added. case_decide as Hg; [|exact E]. subst gid. cbn in E. congruence.
    + intros gid e E. rewrite resolve_added. case_decide as Hg; [intros [= <-]; by subst gid|].
      intros Ee. change (resolve_lease idx' gid = Some e) in Ee. congruence.
Qed.

Lemma report_read_nil w idx : linked idx → report_read w [] idx idx [].
Proof.
  intros Hl. split; try done; set_solver.
Qed.
Lemma addReported_read w devices leases idx : worker_id_ok w = true → Forall (lease_agrees w) leases → linked idx →
  let '(idx', reported) := addReported gatewayRequesterPrefix idx w leases devices in
  report_read w leases idx idx' reported.
Proof.
  intros Hw Ha Hl. unfold addReported. induction leases as [|lease leases IH] using rev_ind.
  { by apply report_read_nil. }
  apply Forall_app in Ha as [Ha [Hla _]%Forall_cons]. rewrite foldl_app. cbn [foldl].
  destruct (foldl _ (idx, []) leases) as [idx' reported]. by apply report_read_snoc, IH.
Qed.

(** ** What a report lacks *)

(** What becomes of an entry and of its mark when a report is done. *)
Definition reconciled w (generation : Z) (reported : list string) e (mark : option Z)
    : option FleetLeaseEntry * option Z :=
  if (e_workerId e !== w) || Arr.includes (e_gatewayLeaseId e) reported then (Some e, mark)
  else match mark with
       | None => (Some e, Some generation)
       | Some g => if (g <? generation)%Z then (None, None) else (Some e, Some g)
       end.

Definition at_id idx gid : option FleetLeaseEntry * option Z := (resolve_lease idx gid, missingSince idx !! gid).

(** A loop over the entries of the index that only marks and forgets them. *)
Section loop.
Context (step : FleetLeaseIndex → FleetLeaseEntry → FleetLeaseIndex)
  (becomes : FleetLeaseEntry → option Z → option FleetLeaseEntry * option Z).
Definition steps_alone : Prop := ∀ idx e, linked idx → resolve_lease idx (e_gatewayLeaseId e) = Some e →
  linked (step idx e) ∧ generations (step idx e) = generations idx ∧
  endedByWorkerAnswer (step idx e) = endedByWorkerAnswer idx ∧
  at_id (step idx e) (e_gatewayLeaseId e) = becomes e (missingSince idx !! e_gatewayLeaseId e) ∧
  ∀ gid, gid ≠ e_gatewayLeaseId e → at_id (step idx e) gid = at_id idx gid.

Lemma loop_alone es idx : steps_alone → linked idx → NoDup (e_gatewayLeaseId <$> es) →
  (∀ e, e ∈ es → resolve_lease idx (e_gatewayLeaseId e) = Some e) →
  linked (foldl step idx es) ∧ generations (foldl step idx es) = generations idx ∧
  endedByWorkerAnswer (foldl step idx es) = endedByWorkerAnswer idx ∧
  (∀ gid, gid ∉ e_gatewayLeaseId <$> es → at_id (foldl step idx es) gid = at_id idx gid) ∧
  ∀ e, e ∈ es → at_id (foldl step idx es) (e_gatewayLeaseId e) = becomes e (missingSince idx !! e_gatewayLeaseId e).
Proof.
  intros Hstep. revert idx. induction es as [|e es IH]; intros idx Hl Hnd Hes.
  { split_and!; [done..|]. by intros e ?%elem_of_nil. }
  cbn [foldl]. apply NoDup_cons in Hnd as [Hni Hnd].
  destruct (Hstep idx e Hl (Hes e ltac:(by left))) as (Hl1 & Hg1 & He1 & Hat & Hothers).
  assert (∀ e', e' ∈ es → e_gatewayLeaseId e' ≠ e_gatewayLeaseId e) as Hne.
  { intros e' He' Heq. apply Hni. rewrite <- Heq. by apply list_elem_of_fmap_2. }
  destruct (IH (step idx e) Hl1 Hnd) as (Hl2 & Hg2 & He2 & Hout & Hin).
  { intros e' He'. pose proof (Hothers _ (Hne _ He')) as Heq. unfold at_id in Heq. injection Heq as -> _.
    apply Hes. by right. }
  split_and!; [done|congruence|congruence|..].
  - intros gid [??]%not_elem_of_cons. rewrite Hout by done. by apply Hothers.
  - intros e' [->|He']%elem_of_cons; [by rewrite Hout|]. rewrite Hin by done.
    pose proof (Hothers _ (Hne _ He')) as Heq. unfold at_id in Heq. by injection Heq as _ ->.
Qed.

Lemma loop_all idx : steps_alone → linked idx →
  linked (foldl step idx (all idx)) ∧ generations (foldl step idx (all idx)) = generations idx ∧
  endedByWorkerAnswer (foldl step idx (all idx)) = endedByWorkerAnswer idx ∧
  ∀ gid, at_id (foldl step idx (all idx)) gid =
    match resolve_lease idx gid with
    | Some e => becomes e (missingSince idx !! gid)
    | None => (None, None)
    end.
Proof.
  intros Hstep Hl.
  assert (∀ e, e ∈ all idx ↔ resolve_lease idx (e_gatewayLeaseId e) = Some e) as Hall.
  { intros e. unfold all. rewrite Ordered.values_spec by apply Hl. split; [|eauto].
    intros (gid & E). by destruct (li_entry _ Hl _ _ E) as [-> _]. }
  assert (e_gatewayLeaseId <$> all idx = (byGatewayId idx).*1) as Hkeys.
  { unfold all, Ordered.values. rewrite <- list_fmap_compose. apply list_fmap_ext. intros i [gid e] Hi. cbn.
    apply list_elem_of_lookup_2 in Hi. apply Ordered.elem_get in Hi; [|apply Hl].
    by apply (li_entry _ Hl) in Hi as [-> _]. }
  destruct (loop_alone (all idx) idx Hstep Hl) as (? & ? & ? & Hout & Hin);
    [rewrite Hkeys; apply Hl|intros e; apply Hall|].
  split_and!; [done..|]. intros gid. destruct (resolve_lease idx gid) as [e|] eqn:E.
  - destruct (li_entry _ Hl _ _ E) as [<- _]. by apply Hin, Hall.
  - rewrite Hout; unfold at_id.
    + rewrite E. destruct (missingSince idx !! gid) eqn:Em; [|done].
      destruct (li_missing _ Hl gid); [by eexists|congruence].
    + intros (e & -> & He%Hall)%list_elem_of_fmap. congruence.
Qed.
End loop.

Lemma at_forget idx e gid : at_id (forget idx e) gid =
  if decide (e_gatewayLeaseId e = gid) then (None, None) else at_id idx gid.
Proof.
  unfold at_id. rewrite resolve_forget. destruct (forget_others idx e) as (_ & _ & -> & _).
  case_decide as Hg; [subst; by rewrite lookup_delete_eq|by rewrite lookup_delete_ne].
Qed.

Lemma reconcile_alone w generation reported :
  steps_alone (reconcile_entry w generation reported) (reconciled w generation reported).
Proof.
  intros idx e Hl E. unfold reconcile_entry, reconciled. destruct (_ || _).
  { split_and!; try done. unfold at_id. by rewrite E. }
  destruct (missingSince idx !! _) as [g|] eqn:Em; [destruct (g <? generation)%Z|].
  - destruct (forget_others idx e) as (_ & _ & _ & -> & _ & -> & _).
    split_and!; [by apply forget_linked|done..| |].
    + rewrite at_forget. by rewrite decide_True.
    + intros gid Hne. rewrite at_forget. by rewrite decide_False.
  - split_and!; try done. unfold at_id. by rewrite E, Em.
  - split_and!; try done.
    + eapply linked_ext; [exact Hl|done..|]. intros gid. cbn. rewrite lookup_insert_is_Some'.
      intros [<-|?]; [by rewrite E|by apply (li_missing _ Hl)].
    + unfold at_id. cbn. rewrite lookup_insert_eq. by rewrite <- E.
    + intros gid Hne. unfold at_id. cbn. by rewrite lookup_insert_ne.
Qed.

Lemma forget_of_alone w :
  steps_alone (forget_of w) (λ e mark, if e_workerId e === w then (None, None) else (Some e, mark)).
Proof.
  intros idx e Hl E. unfold forget_of. case_bool_decide.
  - destruct (forget_others idx e) as (_ & _ & _ & -> & _ & -> & _).
    split_and!; [by apply forget_linked|done..| |].
    + rewrite at_forget. by rewrite decide_True.
    + intros gid Hne. rewrite at_forget. by rewrite decide_False.
  - split_and!; try done. unfold at_id. by rewrite E.
Qed.

(** A mark is of the worker's latest report. *)
Definition marks_ok idx : Prop := ∀ gid e g, resolve_lease idx gid = Some e → missingSince idx !! gid = Some g →
  generations idx !! e_workerId e = Some g.

(** What a report does, id by id. *)
Record rebuilt w leases idx (idx' : FleetLeaseIndex) : Prop := {
  rb_linked : linked idx';
  rb_marks : marks_ok idx';
  rb_ended : endedByWorkerAnswer idx' = endedByWorkerAnswer idx;
  rb_other gid e : resolve_lease idx gid = Some e → e_workerId e ≠ w → at_id idx' gid = at_id idx gid;
  rb_reported gid e : resolve_lease idx gid = Some e → e_workerId e = w → gid ∈ reported_ids w leases →
    at_id idx' gid = (Some e, None);
  rb_missed gid e : resolve_lease idx gid = Some e → e_workerId e = w → gid ∉ reported_ids w leases →
    missingSince idx !! gid = None → resolve_lease idx' gid = Some e ∧ is_Some (missingSince idx' !! gid);
  rb_gone gid e : resolve_lease idx gid = Some e → e_workerId e = w → gid ∉ reported_ids w leases →
    is_Some (missingSince idx !! gid) → at_id idx' gid = (None, None);
  rb_new gid e : resolve_lease idx gid = None → resolve_lease idx' gid = Some e →
    e_workerId e = w ∧ gid ∈ reported_ids w leases ∧ (gid ∉ endedByWorkerAnswer idx) ∧ missingSince idx' !! gid = None }.


(** What a report makes of an entry the index had, and of an id it had not. *)
Definition after_report w gen (reported : list string) idx gid (after : option FleetLeaseEntry * option Z) : Prop :=
  match resolve_lease idx gid with
  | Some e => (gid ∈ reported → e_workerId e = w ∧ after = (Some e, None)) ∧
              (gid ∉ reported → after = reconciled w gen reported e (missingSince idx !! gid))
  | None => after.2 = None ∧ ∀ e, after.1 = Some e → e_workerId e = w ∧ gid ∈ reported ∧ gid ∉ endedByWorkerAnswer idx
  end.
Lemma rebuild_at w leases devices idx : worker_id_ok w = true → Forall (lease_agrees w) leases → linked idx →
  let gen := (default 0 (generations idx !! w) + 1)%Z in
  let idx' := rebuildFromWorker gatewayRequesterPrefix idx w leases devices in
  linked idx' ∧ generations idx' = <[w := gen]> (generations idx) ∧
  endedByWorkerAnswer idx' = endedByWorkerAnswer idx ∧
  ∃ reported, (∀ gid, gid ∈ reported → gid ∈ reported_ids w leases) ∧
    (∀ gid e, resolve_lease idx gid = Some e → e_workerId e = w → gid ∈ reported_ids w leases → gid ∈ reported) ∧
    ∀ gid, after_report w gen reported idx gid (at_id idx' gid).
Proof.
  intros Hw Ha Hl gen. unfold rebuildFromWorker. fold gen. set (idx0 := idx <| generations := _ |>).
  assert (linked idx0) as Hl0 by (eapply linked_ext; [exact Hl|done..|apply (li_missing _ Hl)]).
  pose proof (addReported_read w devices leases idx0 Hw Ha Hl0) as Hrr.
  destruct (addReported _ idx0 w leases devices) as [idx1 reported].
  destruct Hrr as [Hl1 Hgen Hend Hkept Hnew Hnamed Hown Hall Hmiss].
  destruct (loop_all _ _ idx1 (reconcile_alone w gen reported) Hl1) as (Hl2 & Hg2 & He2 & Hat).
  cbn zeta. split_and!; [done|by etrans|by etrans|]. exists reported. split_and!; [done..|]. intros gid.
  unfold after_report, reconcileMissing. rewrite Hat. change (resolve_lease idx gid) with (resolve_lease idx0 gid).
  destruct (resolve_lease idx0 gid) as [e|] eqn:E.
  - rewrite (Hkept gid e E), Hmiss. case_decide as Hin; [|by split]. split; [|done]. intros _.
    rewrite (Hown _ _ Hin E). split; [done|]. unfold reconciled, Arr.includes.
    rewrite (bool_decide_true (_ ∈ reported)), orb_true_r; [done|]. by destruct (li_entry _ Hl0 _ _ E) as [-> _].
  - destruct (resolve_lease idx1 gid) as [e|] eqn:E1; [|done].
    destruct (Hnew gid e E E1) as (Hwe & Hin & Hne). destruct (li_entry _ Hl1 _ _ E1) as [Hg _].
    unfold reconciled, Arr.includes. rewrite Hg, Hmiss, decide_True by done.
    rewrite (bool_decide_true (gid ∈ reported)), orb_true_r by done. split; [done|]. by intros ? [= <-].
Qed.

Lemma reconciled_kept w gen reported e mark : e_workerId e ≠ w → reconciled w gen reported e mark = (Some e, mark).
Proof. intros ?. unfold reconciled. by rewrite bool_decide_false. Qed.
Lemma reconciled_named w gen reported e mark : e_gatewayLeaseId e ∈ reported →
  reconciled w gen reported e mark = (Some e, mark).
Proof. intros ?. unfold reconciled, Arr.includes. by rewrite (bool_decide_true (_ ∈ _)), orb_true_r. Qed.
Lemma reconciled_missed w gen reported e mark : e_workerId e = w → e_gatewayLeaseId e ∉ reported →
  (∀ g, mark = Some g → (g < gen)%Z) →
  reconciled w gen reported e mark = match mark with Some _ => (None, None) | None => (Some e, Some gen) end.
Proof.
  intros Hw Hr Hlt. unfold reconciled, Arr.includes. rewrite bool_decide_true, bool_decide_false by done. cbn.
  destruct mark as [g|]; [|done]. by destruct (Z.ltb_spec g gen); [|specialize (Hlt g eq_refl); lia].
Qed.

Lemma rebuild_rebuilt w leases devices idx : worker_id_ok w = true → Forall (lease_agrees w) leases →
  linked idx → marks_ok idx → rebuilt w leases idx (rebuildFromWorker gatewayRequesterPrefix idx w leases devices).
Proof.
  intros Hw Ha Hl Hmk. destruct (rebuild_at w leases devices idx Hw Ha Hl) as (Hl' & Hg' & He' & reported & Hnm & Hall & Hat).
  set (idx' := rebuildFromWorker _ _ _ _ _) in *. set (gen := (default 0 _ + 1)%Z) in *.
  assert (∀ gid e g, resolve_lease idx gid = Some e → e_workerId e = w → missingSince idx !! gid = Some g → (g < gen)%Z) as Hlt.
  { intros gid e g E Ew Em. pose proof (Hmk _ _ _ E Em) as Hg. rewrite Ew in Hg. unfold gen. rewrite Hg. cbn. lia. }
  assert (∀ gid e, resolve_lease idx gid = Some e → e_gatewayLeaseId e = gid) as Hgid
    by (intros gid e E; apply (li_entry _ Hl _ _ E)).
  assert (∀ gid e, resolve_lease idx gid = Some e → e_workerId e = w → gid ∉ reported →
    at_id idx' gid = match missingSince idx !! gid with Some _ => (None, None) | None => (Some e, Some gen) end) as Hmissed.
  { intros gid e E Ew Hr. specialize (Hat gid). unfold after_report in Hat. rewrite E in Hat.
    destruct Hat as [_ ->]; [|done]. apply reconciled_missed; [done|by rewrite (Hgid _ _ E)|eauto]. }
  assert (∀ gid e, resolve_lease idx gid = Some e → e_workerId e ≠ w → at_id idx' gid = at_id idx gid) as Hother.
  { intros gid e E Ew. specialize (Hat gid). unfold after_report in Hat. rewrite E in Hat.
    destruct Hat as [Hr ->]; [|by intros [? _]%Hr]. rewrite reconciled_kept by done. unfold at_id. by rewrite E. }
  split; [done| |done|done|..].
  - intros gid e g E' Em'. destruct (resolve_lease idx gid) as [e0|] eqn:E.
    + destruct (decide (e_workerId e0 = w)) as [Ew|Ew].
      * destruct (decide (gid ∈ reported)) as [Hr|Hr].
        -- specialize (Hat gid). unfold after_report, at_id in Hat. rewrite E in Hat.
           destruct Hat as [Hat _]. destruct (Hat Hr) as [_ [= _ ?]]. congruence.
        -- pose proof (Hmissed _ _ E Ew Hr) as Heq. unfold at_id in Heq. rewrite E', Em' in Heq.
           destruct (missingSince idx !! gid); simplify_eq. rewrite Hg'. apply lookup_insert_eq.
      * pose proof (Hother _ _ E Ew) as Heq. unfold at_id in Heq. rewrite E', Em', E in Heq. simplify_eq.
        rewrite Hg', lookup_insert_ne by done. by eapply Hmk.
    + specialize (Hat gid). unfold after_report, at_id in Hat. rewrite E in Hat. destruct Hat as [Hm _].
      cbn in Hm. congruence.
  - intros gid e E Ew Hin. specialize (Hat gid). unfold after_report in Hat. rewrite E in Hat.
    apply Hat. by eapply Hall.
  - intros gid e E Ew Hin Em. assert (gid ∉ reported) as Hr by (intros ?; by apply Hin, Hnm).
    pose proof (Hmissed _ _ E Ew Hr) as Heq. rewrite Em in Heq. unfold at_id in Heq. by injection Heq as -> ->.
  - intros gid e E Ew Hin [g Em]. assert (gid ∉ reported) as Hr by (intros ?; by apply Hin, Hnm).
    pose proof (Hmissed _ _ E Ew Hr) as Heq. by rewrite Em in Heq.
  - intros gid e E E'. specialize (Hat gid). unfold after_report in Hat. rewrite E in Hat. destruct Hat as [Hm Hnew].
    destruct (Hnew e E') as (? & ?%Hnm & ?). done.
Qed.

(** ** Histories of the index *)

Inductive IndexOp :=
| OpAdd (entry : FleetLeaseEntry) (platform : option Platform)
| OpRemove (gatewayLeaseId : string)
| OpRemoveByWorkerLease (workerId workerLeaseId : string)
| OpRebuild (workerId : string) (leases : list WorkerReportedLease) (devices : list ReportedDevice)
| OpForgetWorker (workerId : string).

Definition perform idx (op : IndexOp) : FleetLeaseIndex :=
  match op with
  | OpAdd entry platform => (add idx entry platform).1
  | OpRemove gid => (remove idx gid).1
  | OpRemoveByWorkerLease w l => (removeByWorkerLease idx w l).1
  | OpRebuild w leases devices => rebuildFromWorker gatewayRequesterPrefix idx w leases devices
  | OpForgetWorker w => forgetWorker idx w
  end.

(** What the callers tell the index holds of the leases they name. *)
Definition op_agrees (op : IndexOp) : Prop :=
  match op with
  | OpAdd entry _ => entry_ok entry
  | OpRebuild w leases _ => worker_id_ok w = true ∧ Forall (lease_agrees w) leases
  | _ => True
  end.

Definition replay (ops : list IndexOp) : FleetLeaseIndex := foldl perform empty_index ops.

Record index_ok idx : Prop := { io_linked : linked idx; io_marks : marks_ok idx }.

(** A step that only takes entries and marks away. *)
Lemma marks_shrink idx idx' : marks_ok idx → generations idx' = generations idx →
  (∀ gid e, resolve_lease idx' gid = Some e → at_id idx' gid = at_id idx gid) → marks_ok idx'.
Proof.
  intros Hmk Hg Hat gid e g E Em. pose proof (Hat _ _ E) as Heq. unfold at_id in Heq. rewrite E, Em in Heq.
  simplify_eq. rewrite Hg. by eapply Hmk.
Qed.

Lemma forget_ok idx e : index_ok idx → resolve_lease idx (e_gatewayLeaseId e) = Some e → index_ok (forget idx e).
Proof.
  intros [Hl Hmk] E. split; [by apply forget_linked|]. eapply marks_shrink; [exact Hmk|by apply forget_others|].
  intros gid e'. rewrite at_forget, resolve_forget. by case_decide.
Qed.
Lemma index_ok_ext idx idx' : index_ok idx → byGatewayId idx' = byGatewayId idx →
  byRequester idx' = byRequester idx → byWorkerLease idx' = byWorkerLease idx →
  platforms idx' = platforms idx → missingSince idx' = missingSince idx → generations idx' = generations idx →
  index_ok idx'.
Proof.
  intros [Hl Hmk] H1 H2 H3 H4 H5 H6. split.
  - eapply linked_ext; [done..|]. rewrite H5. apply Hl.
  - intros gid e g. unfold resolve_lease. rewrite H1, H5, H6. apply Hmk.
Qed.

Lemma add_ok idx e p : index_ok idx → entry_ok e → index_ok (add idx e p).1.
Proof.
  intros [Hl Hmk] He. split; [by apply add_linked|].
  destruct (resolve_lease idx (e_gatewayLeaseId e)) as [e0|] eqn:E0.
  - destruct (decide (e_workerId e0 = e_workerId e)) as [Hw|Hw]; [|by rewrite (add_refuses _ _ _ _ E0 Hw)].
    rewrite add_adds by congruence. intros gid e' g. cbn [fst]. rewrite resolve_added. cbn. case_decide; [|apply Hmk].
    intros [= <-]. rewrite <- Hw. subst gid. by apply Hmk.
  - rewrite add_adds by congruence. intros gid e' g. cbn [fst]. rewrite resolve_added. cbn. case_decide; [|apply Hmk].
    intros [= <-] Em. subst gid. destruct (li_missing _ Hl (e_gatewayLeaseId e)); [by eexists|congruence].
Qed.

Lemma find_resolve idx w l e : linked idx → findByWorkerLease idx w l = Some e →
  resolve_lease idx (e_gatewayLeaseId e) = Some e ∧ key_of e = workerKey w l.
Proof.
  intros Hl. unfold findByWorkerLease. rewrite bind_Some. intros (gid & (e' & E' & Hk)%(li_worker _ Hl) & E).
  replace e' with e in Hk by congruence. by destruct (li_entry _ Hl _ _ E) as [-> _].
Qed.

Lemma perform_ok idx op : index_ok idx → op_agrees op → index_ok (perform idx op).
Proof.
  intros Hok Hag. pose proof Hok as [Hl Hmk]. destruct op as [e p|gid|w l|w leases devices|w]; cbn in *.
  - by apply add_ok.
  - unfold remove. destruct (resolve_lease idx gid) as [e|] eqn:E; [|by eapply index_ok_ext].
    cbn [fst]. destruct (li_entry _ Hl _ _ E) as [Hg _]. apply forget_ok; [by eapply index_ok_ext|].
    by rewrite Hg.
  - unfold removeByWorkerLease. destruct (findByWorkerLease idx w l) as [e|] eqn:E; [|done].
    apply find_resolve in E as [E _]; [|done]. cbn [fst]. eapply index_ok_ext; [by apply forget_ok|done..].
  - destruct Hag as [Hw Ha]. by destruct (rebuild_rebuilt w leases devices idx Hw Ha Hl Hmk).
  - unfold forgetWorker. destruct (loop_all _ _ idx (forget_of_alone w) Hl) as (Hl' & Hg' & _ & Hat).
    set (idx1 := foldl _ _ _) in *. split; [by eapply linked_ext; [exact Hl'|done..|apply (li_missing _ Hl')]|].
    intros gid e g E Em. change (resolve_lease idx1 gid = Some e) in E. change (missingSince idx1 !! gid = Some g) in Em.
    specialize (Hat gid). unfold at_id in Hat. rewrite E, Em in Hat.
    destruct (resolve_lease idx gid) as [e0|] eqn:E0; [|done]. case_bool_decide as Hw; [done|].
    injection Hat as <- Hm. cbn. rewrite lookup_delete_ne by done. rewrite Hg'. by eapply Hmk.
Qed.

Lemma replay_ok ops : Forall op_agrees ops → index_ok (replay ops).
Proof.
  unfold replay. induction ops as [|op ops IH] using rev_ind; intros Ha.
  { split; [apply linked_empty|]. by intros ???[=]. }
  apply Forall_app in Ha as [Ha [Hop _]%Forall_cons]. rewrite foldl_app. cbn. apply perform_ok; auto.
Qed.

(** *** What the reads answer *)

Lemma resolve_find idx gid e : linked idx → resolve_lease idx gid = Some e →
  findByWorkerLease idx (e_workerId e) (e_workerLeaseId e) = Some e.
Proof.
  intros Hl E. unfold findByWorkerLease. fold (key_of e).
  by rewrite (proj2 (li_worker _ Hl (key_of e) gid) ltac:(by exists e)).
Qed.

Lemma held_ids idx r : linked idx → h_id <$> held idx r = ids_of idx r.
Proof.
  intros Hl. unfold held. assert (Forall (λ gid, is_Some (resolve_lease idx gid)) (ids_of idx r)) as Hall.
  { apply Forall_forall. intros gid (e & E & _)%(li_requester _ Hl). by exists e. }
  induction (ids_of idx r) as [|gid ids IH]; [done|]. apply Forall_cons in Hall as [[e E] Hall].
  cbn. unfold held_lease at 1. rewrite E. cbn. f_equal; [by apply (li_entry _ Hl) in E as [-> _]|by apply IH].
Qed.

Lemma earliest_agree idx (ids : list string) (acc : option FleetLeaseEntry) (acc' : option HeldLease) : linked idx →
  (λ e, (e_gatewayLeaseId e, e_grantedAt e)) <$> acc = (λ h, (h_id h, h_grantedAt h)) <$> acc' →
  e_gatewayLeaseId <$> foldl earlier_entry acc (omap (resolve_lease idx) ids) =
  h_id <$> foldl earlier acc' (omap (held_lease idx) ids).
Proof.
  intros Hl. revert acc acc'. induction ids as [|gid ids IH]; intros acc acc' Hacc; cbn.
  { destruct acc, acc'; cbn in *; congruence. }
  unfold held_lease at 1. destruct (resolve_lease idx gid) as [e|]; cbn; [|by apply IH].
  apply IH. destruct acc as [a|], acc' as [a'|]; cbn in *; try done. injection Hacc as Hi Hg. rewrite Hg.
  destruct (_ <? _)%Z; cbn; congruence.
Qed.
Lemma existing_earliest idx r : linked idx → existingLeaseId idx r = h_id <$> earliestGranted (held idx r).
Proof. intros Hl. by apply earliest_agree. Qed.

(** *** Misses *)

(** The report of [w] that missed the id, with no later one of [w]. *)
Definition missed_last w gid (ops : list IndexOp) : Prop :=
  ∃ ops1 leases devices ops2, ops = ops1 ++ OpRebuild w leases devices :: ops2 ∧
    is_Some (resolve_lease (replay ops1) gid) ∧ (gid ∉ reported_ids w leases) ∧
    ∀ leases' devices', OpRebuild w leases' devices' ∉ ops2.

Lemma missed_later w gid ops op : missed_last w gid ops →
  (∀ leases devices, op ≠ OpRebuild w leases devices) → missed_last w gid (ops ++ [op]).
Proof.
  intros (ops1 & leases & devices & ops2 & -> & ? & ? & Hno) Hop. exists ops1, leases, devices, (ops2 ++ [op]).
  split_and!; [by rewrite <- app_assoc|done..|]. intros l' d'. rewrite elem_of_app, list_elem_of_singleton.
  intros [?|?]; [by eapply Hno|by eapply Hop].
Qed.

(** A step that ends leases leaves each id as it was or without a lease. *)
Definition ends (op : IndexOp) : bool :=
  match op with OpAdd _ _ | OpRebuild _ _ _ => false | _ => true end.
Lemma ends_at idx op gid : linked idx → ends op = true →
  at_id (perform idx op) gid = at_id idx gid ∨ at_id (perform idx op) gid = (None, None).
Proof.
  intros Hl Hop. destruct op as [| gid1|w l| |w]; try done; cbn.
  - unfold remove. destruct (resolve_lease idx gid1) as [e1|]; cbn [fst]; [|by left].
    rewrite at_forget. case_decide; auto.
  - unfold removeByWorkerLease. destruct (findByWorkerLease idx w l) as [e1|]; cbn [fst]; [|by left].
    change (at_id (forget idx e1) gid = at_id idx gid ∨ at_id (forget idx e1) gid = (None, None)).
    rewrite at_forget. case_decide; auto.
  - unfold forgetWorker. destruct (loop_all _ _ idx (forget_of_alone w) Hl) as (_ & _ & _ & Hat).
    set (idx1 := foldl _ _ _) in *. change (at_id idx1 gid = at_id idx gid ∨ at_id idx1 gid = (None, None)).
    rewrite Hat. unfold at_id. destruct (resolve_lease idx gid) as [e|]; [|auto]. case_bool_decide; auto.
Qed.

(** Any step but a report of the entry's worker keeps or drops a mark. *)
Lemma perform_mark idx op gid e : index_ok idx → op_agrees op →
  resolve_lease (perform idx op) gid = Some e → is_Some (missingSince (perform idx op) !! gid) →
  (∀ leases devices, op ≠ OpRebuild (e_workerId e) leases devices) →
  ∃ e0, resolve_lease idx gid = Some e0 ∧ e_workerId e0 = e_workerId e ∧ is_Some (missingSince idx !! gid).
Proof.
  intros [Hl Hmk] Hag E' Hm Hop. destruct (ends op) eqn:Eo.
  { destruct (ends_at idx op gid Hl Eo) as [Heq|Heq]; unfold at_id in Heq; rewrite E' in Heq; [|done].
    injection Heq as E Em. exists e. rewrite <- Em. auto. }
  destruct op as [e1 p| | |w leases devices|]; try done; cbn in *.
  - destruct (resolve_lease idx (e_gatewayLeaseId e1)) as [e0|] eqn:E0.
    + destruct (decide (e_workerId e0 = e_workerId e1)) as [Hw|Hw]; [|rewrite (add_refuses _ _ _ _ E0 Hw) in *; eauto].
      rewrite add_adds in * by congruence. cbn [fst] in *. rewrite resolve_added in E'. cbn in Hm.
      case_decide; [simplify_eq; eauto|eauto].
    + rewrite add_adds in * by congruence. cbn [fst] in *. rewrite resolve_added in E'. cbn in Hm.
      case_decide; [|eauto]. subst gid. destruct (li_missing _ Hl _ Hm). congruence.
  - destruct Hag as [Hw Ha]. destruct (rebuild_rebuilt w leases devices idx Hw Ha Hl Hmk) as [_ _ _ Hoth Hrep Hmis Hgone Hnew].
    set (idx' := rebuildFromWorker _ _ _ _ _) in *. destruct (resolve_lease idx gid) as [e0|] eqn:E0.
    + destruct (decide (e_workerId e0 = w)) as [Hw0|Hw0].
      * destruct (decide (gid ∈ reported_ids w leases)) as [Hr|Hr].
        { pose proof (Hrep _ _ E0 Hw0 Hr) as Heq. unfold at_id in Heq. destruct Hm as [? Hm]. congruence. }
        destruct (missingSince idx !! gid) eqn:Em.
        { pose proof (Hgone gid e0 E0 Hw0 Hr ltac:(rewrite Em; eauto)) as Heq. unfold at_id in Heq. congruence. }
        destruct (Hmis _ _ E0 Hw0 Hr Em) as [? _]. simplify_eq. by destruct (Hop leases devices).
      * pose proof (Hoth _ _ E0 Hw0) as Heq. unfold at_id in Heq. rewrite E', E0 in Heq. injection Heq as <- Em.
        rewrite <- Em. eauto.
    + destruct (Hnew _ _ E0 E') as (<- & _). by destruct (Hop leases devices).
Qed.

Lemma rebuild_mark w leases devices idx gid e : index_ok idx → op_agrees (OpRebuild w leases devices) →
  resolve_lease (perform idx (OpRebuild w leases devices)) gid = Some e → e_workerId e = w →
  is_Some (missingSince (perform idx (OpRebuild w leases devices)) !! gid) →
  is_Some (resolve_lease idx gid) ∧ gid ∉ reported_ids w leases.
Proof.
  intros [Hl Hmk] [Hw Ha] E' Ew Hm. cbn in *.
  destruct (rebuild_rebuilt w leases devices idx Hw Ha Hl Hmk) as [_ _ _ Hoth Hrep _ _ Hnew].
  set (idx' := rebuildFromWorker _ _ _ _ _) in *. destruct (resolve_lease idx gid) as [e0|] eqn:E0.
  - split; [done|]. intros Hr. destruct (decide (e_workerId e0 = w)) as [Hw0|Hw0].
    + pose proof (Hrep _ _ E0 Hw0 Hr) as Heq. unfold at_id in Heq. destruct Hm. congruence.
    + pose proof (Hoth _ _ E0 Hw0) as Heq. unfold at_id in Heq. congruence.
  - destruct (Hnew _ _ E0 E') as (_ & _ & _ & ?). destruct Hm. congruence.
Qed.

Lemma rebuild_of_or_not (op : IndexOp) w :
  (∃ leases devices, op = OpRebuild w leases devices) ∨ ∀ leases devices, op ≠ OpRebuild w leases devices.
Proof.
  destruct op as [| | |w' leases devices|]; try (by right). destruct (decide (w' = w)) as [->|]; [eauto|].
  right. by intros ?? [=].
Qed.
Lemma replay_snoc ops op : replay (ops ++ [op]) = perform (replay ops) op.
Proof. unfold replay. by rewrite foldl_app. Qed.

Lemma mark_missed ops gid e : Forall op_agrees ops → resolve_lease (replay ops) gid = Some e →
  is_Some (missingSince (replay ops) !! gid) → missed_last (e_workerId e) gid ops.
Proof.
  revert e. induction ops as [|op ops IH] using rev_ind; intros e Ha E Hm; [by destruct Hm|].
  apply Forall_app in Ha as [Ha [Hop _]%Forall_cons]. pose proof (replay_ok ops Ha) as Hok.
  rewrite replay_snoc in E, Hm.
  destruct (rebuild_of_or_not op (e_workerId e)) as [(leases & devices & ->)|Hno].
  - destruct (rebuild_mark _ _ _ _ _ _ Hok Hop E eq_refl Hm) as [??].
    exists ops, leases, devices, []. split_and!; [done..|]. by intros ?? ?%elem_of_nil.
  - destruct (perform_mark _ _ _ _ Hok Hop E Hm Hno) as (e0 & E0 & Hw & Hm0).
    apply missed_later; [|done]. rewrite <- Hw. auto.
Qed.

(** *** Leases their worker said it ended *)

(** The id is remembered, with at most [k] ids remembered after it. *)
Definition remembered gid k (ids : list string) : Prop := ∃ a b, ids = a ++ gid :: b ∧ length b ≤ k.

Lemma remembered_elem gid k ids : remembered gid k ids → gid ∈ ids.
Proof. intros (a & b & -> & _). set_solver. Qed.
Lemma remembered_mono gid k k' ids : k ≤ k' → remembered gid k ids → remembered gid k' ids.
Proof. intros ? (a & b & -> & ?). exists a, b. split; [done|lia]. Qed.
Lemma remember_last gid ids : gid ∉ ids → remembered gid 0 (remember ids gid).
Proof.
  intros Hni. unfold remember, Ordered.add, Arr.includes. rewrite bool_decide_false by done.
  destruct (_ <=? _)%nat eqn:El; [by exists ids, []|]. destruct ids as [|x ids]; [done|]. by exists ids, [].
Qed.
Lemma remember_other gid gid' k ids : remembered gid k ids → S k < REMOVED_IDS_CAPACITY →
  remembered gid (S k) (remember ids gid').
Proof.
  intros (a & b & -> & Hb) Hk. unfold remember, Ordered.add, Arr.includes. case_bool_decide as Hin.
  - destruct (_ <=? _)%nat eqn:El; [exists a, b; split; [done|lia]|].
    apply Nat.leb_gt in El. rewrite length_app in El. cbn in El. destruct a as [|x a]; [cbn in El; lia|].
    exists a, b. split; [done|lia].
  - rewrite <- app_assoc. cbn. destruct (_ <=? _)%nat eqn:El; [exists a, (b ++ [gid']); split; [done|]; rewrite length_app; cbn; lia|].
    apply Nat.leb_gt in El. rewrite length_app in El. cbn in El. rewrite length_app in El. cbn in El.
    destruct a as [|x a]; [cbn in El; lia|]. exists a, (b ++ [gid']). split; [done|]. rewrite length_app. cbn. lia.
Qed.
Lemma remembered_drop gid gid' k ids : gid ≠ gid' → remembered gid k ids → remembered gid k (Ordered.drop gid' ids).
Proof.
  intros Hne (a & b & -> & Hb). exists (Ordered.drop gid' a), (Ordered.drop gid' b). split.
  - unfold Ordered.drop, Arr.filter. rewrite List.filter_app. cbn. by rewrite bool_decide_false.
  - pose proof (afilter_length_le (λ y, y !== gid') b). unfold Ordered.drop. lia.
Qed.

Definition removes (op : IndexOp) : bool := match op with OpRemove _ => true | _ => false end.
Definition adds_id gid (op : IndexOp) : Prop := match op with OpAdd e _ => e_gatewayLeaseId e = gid | _ => False end.

Lemma perform_ended idx op : index_ok idx → op_agrees op →
  endedByWorkerAnswer (perform idx op) =
    match op with
    | OpAdd e _ => match resolve_lease idx (e_gatewayLeaseId e) with
                   | Some e0 => if decide (e_workerId e0 = e_workerId e)
                                then Ordered.drop (e_gatewayLeaseId e) (endedByWorkerAnswer idx)
                                else endedByWorkerAnswer idx
                   | None => Ordered.drop (e_gatewayLeaseId e) (endedByWorkerAnswer idx)
                   end
    | OpRemove gid => remember (endedByWorkerAnswer idx) gid
    | _ => endedByWorkerAnswer idx
    end.
Proof.
  intros [Hl Hmk] Hag. destruct op as [e p|gid|w l|w leases devices|w]; cbn in *.
  - destruct (resolve_lease idx _) as [e0|] eqn:E0; [case_decide|].
    + by rewrite add_adds by congruence.
    + by rewrite (add_refuses _ _ _ _ E0).
    + by rewrite add_adds by congruence.
  - unfold remove. destruct (resolve_lease idx gid) as [e|]; cbn [fst]; [|done].
    by rewrite (proj1 (proj2 (proj2 (proj2 (proj2 (proj2 (forget_others _ e))))))).
  - unfold removeByWorkerLease. destruct (findByWorkerLease idx w l) as [e|]; cbn [fst]; [|done].
    exact (proj1 (proj2 (proj2 (proj2 (proj2 (proj2 (forget_others idx e))))))).
  - destruct Hag as [Hw Ha]. by destruct (rebuild_rebuilt w leases devices idx Hw Ha Hl Hmk).
  - by destruct (loop_all _ _ idx (forget_of_alone w) Hl) as (_ & _ & ? & _).
Qed.

(** An entry of the index is never among the ended. *)
Lemma perform_resolve idx op gid e : index_ok idx → op_agrees op → resolve_lease (perform idx op) gid = Some e →
  is_Some (resolve_lease idx gid) ∨ adds_id gid op ∨ gid ∉ endedByWorkerAnswer (perform idx op).
Proof.
  intros Hok Hag E'. pose proof Hok as [Hl Hmk]. destruct (ends op) eqn:Eo.
  { left. destruct (ends_at idx op gid Hl Eo) as [Heq|Heq]; unfold at_id in Heq; rewrite E' in Heq; [|done].
    injection Heq as <- _. done. }
  destruct op as [e1 p| | |w leases devices|]; try done.
  - destruct (decide (e_gatewayLeaseId e1 = gid)) as [Hg|Hg]; [right; by left|left]. cbn in E'.
    destruct (resolve_lease idx (e_gatewayLeaseId e1)) as [e0|] eqn:E0.
    + destruct (decide (e_workerId e0 = e_workerId e1)) as [Hw|Hw]; [|rewrite (add_refuses _ _ _ _ E0 Hw) in *; eauto].
      rewrite add_adds in * by congruence. cbn [fst] in *. rewrite resolve_added, decide_False in E' by done. eauto.
    + rewrite add_adds in * by congruence. cbn [fst] in *. rewrite resolve_added, decide_False in E' by done. eauto.
  - destruct (resolve_lease idx gid) as [e0|] eqn:E0; [eauto|]. right; right. rewrite perform_ended by done.
    destruct Hag as [Hw Ha]. destruct (rebuild_rebuilt w leases devices idx Hw Ha Hl Hmk) as [_ _ _ _ _ _ _ Hnew].
    by destruct (Hnew _ _ E0 E') as (_ & _ & ? & _).
Qed.

Lemma elem_of_remember gid gid' ids : gid ∈ remember ids gid' → gid = gid' ∨ gid ∈ ids.
Proof.
  unfold remember. destruct (_ <=? _)%nat; [by rewrite Ordered.elem_of_add|].
  intros Hin. apply Ordered.elem_of_add. destruct (Ordered.add gid' ids); [done|by right].
Qed.
Lemma remove_gone idx gid : linked idx → resolve_lease (perform idx (OpRemove gid)) gid = None.
Proof.
  intros Hl. cbn. unfold remove. destruct (resolve_lease idx gid) as [e|] eqn:E; cbn [fst]; [|done].
  destruct (li_entry _ Hl _ _ E) as [Hg _]. rewrite resolve_forget. by rewrite decide_True.
Qed.

Lemma not_ended ops gid : Forall op_agrees ops → is_Some (resolve_lease (replay ops) gid) →
  gid ∉ endedByWorkerAnswer (replay ops).
Proof.
  induction ops as [|op ops IH] using rev_ind; intros Ha [e E]; [done|].
  apply Forall_app in Ha as [Ha [Hop _]%Forall_cons]. pose proof (replay_ok ops Ha) as Hok.
  rewrite replay_snoc in *.
  destruct (perform_resolve _ _ _ _ Hok Hop E) as [Hold|[Hadd|?]]; [| |done]; rewrite perform_ended by done.
  - specialize (IH Ha Hold). destruct op as [e1 p|gid1| | |]; try done.
    + destruct (resolve_lease _ (e_gatewayLeaseId e1)) as [e0|]; [case_decide|]; rewrite ?Ordered.elem_of_drop; tauto.
    + intros [->|?]%elem_of_remember; [|done]. by rewrite remove_gone in E by apply Hok.
  - destruct op as [e1 p| | | |]; try done. cbn in Hadd. subst gid.
    destruct (resolve_lease (replay ops) (e_gatewayLeaseId e1)) as [e0|] eqn:E0; [case_decide as Hw|];
      rewrite ?Ordered.elem_of_drop; [tauto| |tauto]. apply IH; eauto.
Qed.

Lemma stays_ended idx ops gid k : index_ok idx → Forall op_agrees ops → resolve_lease idx gid = None →
  remembered gid k (endedByWorkerAnswer idx) → Forall (λ op, ¬ adds_id gid op) ops →
  k + length (Arr.filter removes ops) < REMOVED_IDS_CAPACITY → resolve_lease (foldl perform idx ops) gid = None.
Proof.
  revert idx k. induction ops as [|op ops IH]; intros idx k Hok Ha E Hr Hna Hk; [done|].
  apply Forall_cons in Ha as [Hop Ha], Hna as [Hnop Hna]. cbn [foldl].
  assert (∃ k', remembered gid k' (endedByWorkerAnswer (perform idx op)) ∧
    k' + length (Arr.filter removes ops) < REMOVED_IDS_CAPACITY) as (k' & Hr' & Hk').
  { rewrite perform_ended by done. destruct op as [e1 p|gid1| | |]; try (by exists k).
    - cbn in Hnop. exists k. split; [|done].
      destruct (resolve_lease idx (e_gatewayLeaseId e1)) as [e0|]; [case_decide|]; try done;
        by apply remembered_drop.
    - change (Arr.filter removes (OpRemove gid1 :: ops)) with (OpRemove gid1 :: Arr.filter removes ops) in Hk.
      cbn [length] in Hk. exists (S k). split; [|lia]. apply remember_other; [done|lia]. }
  apply (IH _ k'); [by apply perform_ok|done| |done..].
  destruct (resolve_lease (perform idx op) gid) as [e|] eqn:E'; [exfalso|done].
  destruct (perform_resolve _ _ _ _ Hok Hop E') as [[??]|[?|Hni]]; [congruence|done|].
  by apply Hni, (remembered_elem _ k').
Qed.
End invariant.

(** ** Theorems *)

(** C19. The gateway's lease index answers every question from one set of leases. After any history of
    grants, releases, relayed ends, worker reports and forgotten workers, in which the callers say of
    a worker's lease what holds of it, the id a lease was given out under and the worker's own id
    lead to the same entry and to no other; the leases counted against a requester, by the limit's
    list and by its count, are exactly the entries of that requester, each once; and the lease a
    refusal names is the earliest of them. *)
Theorem fleet_index_answers gatewayRequesterPrefix issued ops :
  Forall (op_agrees gatewayRequesterPrefix issued) ops →
  let idx := replay gatewayRequesterPrefix ops in
  (∀ gid e, resolve_lease idx gid = Some e → e_gatewayLeaseId e = gid ∧
     findByWorkerLease idx (e_workerId e) (e_workerLeaseId e) = Some e) ∧
  (∀ w l e, worker_id_ok w = true → findByWorkerLease idx w l = Some e →
     resolve_lease idx (e_gatewayLeaseId e) = Some e ∧ e_workerId e = w ∧ e_workerLeaseId e = l) ∧
  ∀ r, NoDup (h_id <$> held idx r) ∧ leaseCount idx r = Z.of_nat (length (held idx r)) ∧
    existingLeaseId idx r = h_id <$> earliestGranted (held idx r) ∧
    ∀ gid, gid ∈ h_id <$> held idx r ↔ ∃ e, resolve_lease idx gid = Some e ∧ e_requesterId e = r.
Proof.
  intros Ha idx. destruct (replay_ok _ _ _ Ha) as [Hl _]. fold idx in Hl. split_and!.
  - intros gid e E. split; [apply (li_entry _ _ Hl _ _ E)|by eapply resolve_find].
  - intros w l e Hw E. apply (find_resolve issued) in E as [E Hk]; [|done].
    destruct (li_entry _ _ Hl _ _ E) as [_ He]. apply workerKey_inj in Hk as [??]; [done|apply He|done].
  - intros r. pose proof (held_ids issued idx r Hl) as Hh. split_and!.
    + rewrite Hh. by eapply ids_NoDup.
    + unfold leaseCount. by rewrite <- Hh, length_fmap.
    + by eapply existing_earliest.
    + intros gid. rewrite Hh. apply (li_requester _ _ Hl).
Qed.

(** C20. One report that lacks a lease never drops it. When a worker's report makes the gateway forget a
    lease, the lease is that worker's, this report lacks it, and so did the worker's report before
    it, which the gateway read while it already held the lease: a report gathered before a grant
    and read after it costs the holder nothing. *)
Theorem lease_dropped_after_two_misses gatewayRequesterPrefix issued ops w leases devices gid e :
  Forall (op_agrees gatewayRequesterPrefix issued) (ops ++ [OpRebuild w leases devices]) →
  resolve_lease (replay gatewayRequesterPrefix ops) gid = Some e →
  resolve_lease (replay gatewayRequesterPrefix (ops ++ [OpRebuild w leases devices])) gid = None →
  e_workerId e = w ∧ (gid ∉ reported_ids gatewayRequesterPrefix w leases) ∧
  missed_last gatewayRequesterPrefix w gid ops.
Proof.
  intros [Ha [Hop _]%Forall_cons]%Forall_app E E'. pose proof (replay_ok _ _ _ Ha) as [Hl Hmk].
  rewrite replay_snoc in E'. cbn in E', Hop. destruct Hop as [Hw Hag].
  destruct (rebuild_rebuilt _ issued w leases devices _ Hw Hag Hl Hmk) as [_ _ _ Hoth Hrep Hmis Hgone _].
  set (idx' := rebuildFromWorker _ _ _ _ _) in *. unfold at_id in *.
  destruct (decide (e_workerId e = w)) as [Hwe|Hwe]; [|specialize (Hoth _ _ E Hwe); congruence].
  destruct (decide (gid ∈ reported_ids gatewayRequesterPrefix w leases)) as [Hr|Hr];
    [specialize (Hrep _ _ E Hwe Hr); congruence|].
  split_and!; [done..|]. destruct (missingSince (replay gatewayRequesterPrefix ops) !! gid) as [g|] eqn:Em.
  - rewrite <- Hwe. eapply mark_missed; [done..|]. by rewrite Em.
  - destruct (Hmis _ _ E Hwe Hr Em). congruence.
Qed.

(** A lease a worker said it ended is not taken back from a report gathered earlier: after the
    worker's answer, no report brings the lease back, unless the gateway itself is granted that id
    again, until two hundred more leases have ended in the same way. *)
Theorem ended_lease_not_taken_back gatewayRequesterPrefix issued ops gid later :
  Forall (op_agrees gatewayRequesterPrefix issued) (ops ++ OpRemove gid :: later) →
  is_Some (resolve_lease (replay gatewayRequesterPrefix ops) gid) →
  Forall (λ op, ¬ adds_id gid op) later → length (Arr.filter removes later) < REMOVED_IDS_CAPACITY →
  resolve_lease (replay gatewayRequesterPrefix (ops ++ OpRemove gid :: later)) gid = None.
Proof.
  intros [Ha Hl]%Forall_app Hin Hna Hk. apply Forall_cons in Hl as [Hop Hl].
  pose proof (replay_ok _ _ _ Ha) as Hok. unfold replay. rewrite foldl_app. cbn [foldl].
  apply (stays_ended _ issued _ _ _ 0); [by apply perform_ok|done|by eapply remove_gone, Hok| |done|done].
  rewrite (perform_ended _ issued) by done. apply remember_last. by eapply not_ended.
Qed.

Module IndexSamples.
Definition gw : string := "gw:1:".
Definition issued : Issued := λ _ l, (l === "mine", "alice").
Definition entry : FleetLeaseEntry := MkEntry "w1.lse_1" "w1" "lse_1" "alice" "owner" 5.
Definition report : WorkerReportedLease := MkReported "lse_1" None "gw:1:alice" "owner" 5 None.

Lemma entry_sound : entry_ok issued entry.
Proof. by split. Qed.
Lemma report_agrees : lease_agrees gw issued "w1" report.
Proof. done. Qed.
Lemma history_agrees platform reported : (reported = [] ∨ reported = [report]) →
  Forall (op_agrees gw issued) [OpAdd entry platform; OpRemove "w1.lse_1"; OpRebuild "w1" reported []].
Proof.
  intros Hr. apply Forall_cons. split; [apply entry_sound|]. apply Forall_cons. split; [done|].
  apply Forall_singleton. split; [done|]. destruct Hr as [->| ->]; [constructor|].
  apply Forall_singleton, report_agrees.
Qed.
End IndexSamples.

Lemma fleet_index_answers_witness :
  leaseCount (replay IndexSamples.gw [OpAdd IndexSamples.entry (Some ios); OpRebuild "w1" [IndexSamples.report] []])
    "alice" = 1%Z.
Proof.
  destruct (fleet_index_answers IndexSamples.gw IndexSamples.issued
    [OpAdd IndexSamples.entry (Some ios); OpRebuild "w1" [IndexSamples.report] []]) as (_ & _ & H).
  - pose proof (IndexSamples.history_agrees (Some ios) [IndexSamples.report] (or_intror eq_refl)) as Ha.
    apply Forall_cons in Ha as [H1 [_ H2]%Forall_cons]. by apply Forall_cons.
  - destruct (H "alice") as (_ & Hc & _). rewrite Hc. reflexivity.
Defined.

Lemma lease_dropped_after_two_misses_witness :
  missed_last IndexSamples.gw "w1" "w1.lse_1" [OpAdd IndexSamples.entry None; OpRebuild "w1" [] []].
Proof.
  refine (proj2 (proj2 (lease_dropped_after_two_misses IndexSamples.gw IndexSamples.issued
    [OpAdd IndexSamples.entry None; OpRebuild "w1" [] []] "w1" [] [] "w1.lse_1" IndexSamples.entry _ _ _))).
  - pose proof (IndexSamples.history_agrees None [] (or_introl eq_refl)) as Ha.
    apply Forall_cons in Ha as [H1 [_ H2]%Forall_cons]. apply Forall_app. split; [by apply Forall_cons|done].
  - reflexivity.
  - reflexivity.
Defined.

Lemma ended_lease_not_taken_back_witness :
  resolve_lease (replay IndexSamples.gw
    ([OpAdd IndexSamples.entry None] ++ OpRemove "w1.lse_1" :: [OpRebuild "w1" [IndexSamples.report] []])) "w1.lse_1" = None.
Proof.
  apply (ended_lease_not_taken_back IndexSamples.gw IndexSamples.issued).
  - apply IndexSamples.history_agrees. by right.
  - eexists; reflexivity.
  - repeat constructor; intros [].
  - cbv. lia.
Defined.

(** A report that was gathered before a relayed end does bring the lease back, and it takes two more
    reports without it to drop it again. *)
Example relayed_end_taken_back :
  is_Some (resolve_lease (replay IndexSamples.gw
    [OpAdd IndexSamples.entry None; OpRemoveByWorkerLease "w1" "lse_1"; OpRebuild "w1" [IndexSamples.report] []])
    "w1.lse_1").
Proof. eexists; reflexivity. Qed.

(** An entry replaced under the same id by one of another requester stays counted against the first:
    [add] sets the new link and leaves the old one. *)
Example replaced_entry_counts_twice :
  let bob := MkEntry "w1.lse_1" "w1" "lse_1" "bob" "owner" 7 in
  let idx := replay IndexSamples.gw [OpAdd IndexSamples.entry None; OpAdd bob None] in
  leaseCount idx "alice" = 1%Z ∧ leaseCount idx "bob" = 1%Z ∧ length (all idx) = 1.
Proof. split_and!; reflexivity. Qed.
