(* ===== verification/FleetViews.v ===== *)
(** * The workers of a fleet: [src/gateway/worker-registry.ts] and [src/gateway/drain-store.ts]

    The gateway's view of each worker: what its uplink said last, whether it is connected, and
    whether an operator drained it. A view comes and goes with its worker; the drained workers are
    kept beside the views and stored, because a drain is a decision about a machine and outlives
    them. An array of leases has a number of its own: the coordinator tells a new report from an
    old one by identity. Log lines are left out. *)
From stdpp Require Import base strings list option numbers gmap sets.
From S2P Require Import Prelude JsString Domain Devices Ordered FleetIndex.

(** ** Views: [workerViewSchema] of [src/contract/status-schemas.ts] *)

Inductive Connection := connected_ | disconnected_ | incompatible_.
#[global] Instance Connection_eq_dec : EqDecision Connection.
Proof. solve_decision. Defined.
Inductive Health := health_starting | health_running | health_failed.
#[global] Instance Health_eq_dec : EqDecision Health.
Proof. solve_decision. Defined.

Record RunningEntry := MkRunning { re_running : Z; re_maxRunning : Z; re_reserved : Z; re_warm : Z }.
Record PlatformCapacity := MkPlatformCapacity { pc_entry : RunningEntry; pc_atRamBudget : bool }.
Inductive MemoryStep := step_none | step_warming_paused | step_new_devices_paused.
#[global] Instance MemoryStep_eq_dec : EqDecision MemoryStep.
Proof. solve_decision. Defined.
Record StatusCapacity := MkStatusCapacity {
  sc_ios : PlatformCapacity;
  sc_android : PlatformCapacity;
  sc_global : RunningEntry;
  sc_memoryPressure : option MemoryStep }.
Definition sc_platform (c : StatusCapacity) (p : Platform) : PlatformCapacity :=
  match p with ios => sc_ios c | android => sc_android c end.

(** A worker's catalog of one platform, with what only a gateway reads of it. *)
Record PlatformEntry := MkPlatformEntry {
  pe_platform : Platform;
  pe_catalog : DriverCatalogEntry;
  pe_slimCategories : option (list string);
  pe_defaultMode : option DeviceMode }.

Record BaselineListed := MkListed {
  bn_facts : BaselineFacts;
  bn_version : Z;
  bn_staleReason : option string }.

Record ViewDevice := MkViewDevice {
  vd_id : string;
  vd_spec : FittableSpec;
  vd_state : DeviceState;
  vd_physical : bool;
  vd_mode : option DeviceMode;
  vd_class : option PhysicalClass;
  vd_servesDefaultMode : bool;
  vd_presence : option LatestPresence;
  vd_transitionAgeMs : option Z }.

Record ViewLease := MkViewLease { vl_lease : WorkerReportedLease; vl_ttlDeadline : Z }.
Record LeaseArray := MkLeaseArray { la_number : nat; la_leases : list ViewLease }.

Inductive CapabilityState := cap_available | cap_unavailable | cap_off.
#[global] Instance CapabilityState_eq_dec : EqDecision CapabilityState.
Proof. solve_decision. Defined.
Record Capability := MkCapability { cb_name : string; cb_state : CapabilityState }.

Record WorkerView := MkView {
  wv_id : string;
  wv_label : option string;
  wv_connection : Connection;
  wv_drained : bool;
  wv_lastSeenAt : Z;
  wv_health : option Health;
  wv_version : option string;
  wv_protocol : option opaque;
  wv_capabilities : option (list Capability);
  wv_load : option opaque;
  wv_capacity : option StatusCapacity;
  wv_warmPool : option opaque;
  wv_downloads : option opaque;
  wv_maxTtlMs : option Z;
  wv_queueDepth : option Z;
  wv_physicalQueueDepth : option Z;
  wv_leases : option LeaseArray;
  wv_devices : option (list ViewDevice);
  wv_catalog : option (list PlatformEntry);
  wv_baselines : option (list BaselineListed);
  wv_catalogReadAt : option Z;
  wv_host : option opaque;
  wv_installs : option opaque;
  wv_waiting : option opaque;
  wv_update : option opaque;
  wv_lastUpdateFailure : option opaque;
  wv_latestVersion : option string }.
#[export] Instance WorkerView_eta : Eta WorkerView := λ v,
  MkView (wv_id v) (wv_label v) (wv_connection v) (wv_drained v) (wv_lastSeenAt v) (wv_health v) (wv_version v)
    (wv_protocol v) (wv_capabilities v) (wv_load v) (wv_capacity v) (wv_warmPool v) (wv_downloads v) (wv_maxTtlMs v)
    (wv_queueDepth v) (wv_physicalQueueDepth v) (wv_leases v) (wv_devices v) (wv_catalog v) (wv_baselines v)
    (wv_catalogReadAt v) (wv_host v) (wv_installs v) (wv_waiting v) (wv_update v) (wv_lastUpdateFailure v)
    (wv_latestVersion v).

(** A view with only its id. *)
Definition no_view (id : string) : WorkerView :=
  MkView id None disconnected_ false 0 None None None None None None None None None None None None None None None
    None None None None None None None.

(** What a refresh may bring: a key that is absent, or present and possibly [undefined]. *)
Definition key (A : Type) : Type := option (option A).
Definition value {A} (k : key A) : option A := mjoin k.
(** [{ ...old, key }]. *)
Definition over {A} (k : key A) (old : option A) : option A := default old k.

Record WorkerRefresh := MkRefresh {
  f_health : key Health;
  f_version : key string;
  f_capabilities : key (list Capability);
  f_load : key opaque;
  f_capacity : key StatusCapacity;
  f_warmPool : key opaque;
  f_downloads : key opaque;
  f_maxTtlMs : key Z;
  f_queueDepth : key Z;
  f_physicalQueueDepth : key Z;
  f_leases : key LeaseArray;
  f_devices : key (list ViewDevice);
  f_catalog : key (list PlatformEntry);
  f_baselines : key (list BaselineListed);
  f_host : key opaque;
  f_installs : key opaque;
  f_waiting : key opaque;
  f_update : key opaque;
  f_lastUpdateFailure : key opaque;
  f_latestVersion : key string;
  f_grantedDevices : option (list opaque) }.

(** ** The registry *)

Inductive WorkerEvent :=
| WorkerConnected (workerId : string) (label version : option string)
| WorkerRejected (reason : string) (workerId label : option string) (count : option Z)
| WorkerDisconnected (leaseCount : Z) (workerId : string) (label : option string)
| WorkerDrainChanged (drained : bool) (workerId : string) (label : option string)
| WorkerRemoved (by_operator : bool) (workerId : string) (label : option string)
| ViewsChanged.

Record WorkerRegistry := MkWorkers {
  wr_workers : list (string * WorkerView);
  wr_grantedDevices : gmap string (list opaque);
  wr_lastCatalog : gmap string (list PlatformEntry);
  wr_lastBaselines : gmap string (list BaselineListed);
  wr_lastPhysicalDevices : gmap string (list ViewDevice);
  wr_lastLeases : gmap string LeaseArray;
  wr_drained : list string;
  wr_stored : list string;
  wr_log : list WorkerEvent }.
#[export] Instance WorkerRegistry_eta : Eta WorkerRegistry := λ r,
  MkWorkers (wr_workers r) (wr_grantedDevices r) (wr_lastCatalog r) (wr_lastBaselines r)
    (wr_lastPhysicalDevices r) (wr_lastLeases r) (wr_drained r) (wr_stored r) (wr_log r).

Inductive WorkerError := UnknownWorker (workerId : string) | WorkerStillConnected (workerId : string).

Definition withoutReadFields (v : WorkerView) : WorkerView :=
  v <| wv_baselines := None |> <| wv_capabilities := None |> <| wv_capacity := None |> <| wv_catalog := None |>
    <| wv_catalogReadAt := None |> <| wv_devices := None |> <| wv_installs := None |> <| wv_leases := None |>
    <| wv_physicalQueueDepth := None |> <| wv_queueDepth := None |> <| wv_waiting := None |> <| wv_warmPool := None |>.
Definition withoutLoad (v : WorkerView) : WorkerView := v <| wv_load := None |>.

Module Workers.
Section registry.
Context `{LocaleCompare} (retentionMs : Z) (gatewayRequesterPrefix : option string) (now : Z).
Implicit Types (r : WorkerRegistry) (workerId : string).

Definition note (e : WorkerEvent) r : WorkerRegistry := r <| wr_log := wr_log r ++ [e] |>.
Definition notifyViewsChanged r : WorkerRegistry := note ViewsChanged r.
Definition set_view (v : WorkerView) r : WorkerRegistry :=
  r <| wr_workers := Ordered.set (wv_id v) v (wr_workers r) |>.

(** The store's read and write; a write that fails is logged and leaves what was stored. *)
Definition load r : WorkerRegistry := r <| wr_drained := foldl (λ d id, Ordered.add id d) (wr_drained r) (wr_stored r) |>.
Definition save (written : bool) r : WorkerRegistry := if written then r <| wr_stored := wr_drained r |> else r.

Definition view r workerId : option WorkerView := Ordered.get workerId (wr_workers r).
Definition views r : list WorkerView :=
  sort_by (λ left right, localeCompare (wv_id left) (wv_id right)) (Ordered.values (wr_workers r)).

Definition routing_view r (v : WorkerView) : WorkerView :=
  let catalog := wr_lastCatalog r !! wv_id v in
  let baselines := if wv_baselines v === None then wr_lastBaselines r !! wv_id v else None in
  let physical := if wv_devices v === None then wr_lastPhysicalDevices r !! wv_id v else None in
  let v := v <| wv_catalog := spread catalog (wv_catalog v) |> in
  let v := v <| wv_baselines := spread baselines (wv_baselines v) |> in
  match physical with
  | None | Some [] => v
  | Some devices => v <| wv_devices := Some devices |>
  end.
Definition routingViews r : list WorkerView := routing_view r <$> views r.

Definition grantedDevices r : list (opaque * string) :=
  Arr.flatMap (λ v, (λ device, (device, wv_id v)) <$> default [] (wr_grantedDevices r !! wv_id v)) (views r).

Definition connected r workerId (label version : option string) : WorkerRegistry :=
  let existing := (withoutLoad (default (no_view workerId) (view r workerId))) <| wv_catalogReadAt := None |> in
  let v := existing <| wv_connection := connected_ |> <| wv_drained := Arr.includes workerId (wr_drained r) |>
             <| wv_id := workerId |> <| wv_lastSeenAt := now |>
             <| wv_label := spread label (wv_label existing) |> <| wv_version := spread version (wv_version existing) |> in
  notifyViewsChanged (note (WorkerConnected workerId label version) (set_view (v <| wv_protocol := None |>) r)).

Definition incompatible r workerId (label : option string) (protocol : opaque) (version : option string)
    : WorkerRegistry :=
  let existing := withoutLoad (default (no_view workerId) (view r workerId)) in
  let v := existing <| wv_connection := incompatible_ |> <| wv_drained := Arr.includes workerId (wr_drained r) |>
             <| wv_id := workerId |> <| wv_lastSeenAt := now |> <| wv_protocol := Some protocol |>
             <| wv_label := spread label (wv_label existing) |> <| wv_version := spread version (wv_version existing) |> in
  notifyViewsChanged (set_view (v <| wv_capabilities := None |> <| wv_host := None |> <| wv_installs := None |>
    <| wv_waiting := None |> <| wv_warmPool := None |>) r).

Definition rejected r (reason : string) (workerId label : option string) (count : option Z) : WorkerRegistry :=
  note (WorkerRejected reason workerId label count) r.

Definition apply_refresh (f : WorkerRefresh) (held : WorkerView) : WorkerView :=
  MkView (wv_id held) (wv_label held) (wv_connection held) (wv_drained held) now
    (over (f_health f) (wv_health held)) (over (f_version f) (wv_version held)) (wv_protocol held)
    (over (f_capabilities f) (wv_capabilities held)) (over (f_load f) (wv_load held))
    (over (f_capacity f) (wv_capacity held)) (over (f_warmPool f) (wv_warmPool held))
    (over (f_downloads f) (wv_downloads held)) (over (f_maxTtlMs f) (wv_maxTtlMs held))
    (over (f_queueDepth f) (wv_queueDepth held)) (over (f_physicalQueueDepth f) (wv_physicalQueueDepth held))
    (over (f_leases f) (wv_leases held)) (over (f_devices f) (wv_devices held)) (over (f_catalog f) (wv_catalog held))
    (over (f_baselines f) (wv_baselines held))
    (match value (f_catalog f) with None => wv_catalogReadAt held | Some _ => Some now end)
    (over (f_host f) (wv_host held)) (over (f_installs f) (wv_installs held)) (over (f_waiting f) (wv_waiting held))
    (over (f_update f) (wv_update held)) (over (f_lastUpdateFailure f) (wv_lastUpdateFailure held))
    (over (f_latestVersion f) (wv_latestVersion held)).

Definition keepLastReads r workerId (f : WorkerRefresh) : WorkerRegistry :=
  let r := match value (f_catalog f) with
           | Some c => r <| wr_lastCatalog := <[workerId := c]> (wr_lastCatalog r) |> | None => r end in
  let r := match value (f_baselines f) with
           | Some b => r <| wr_lastBaselines := <[workerId := b]> (wr_lastBaselines r) |> | None => r end in
  let r := match value (f_leases f) with
           | Some l => r <| wr_lastLeases := <[workerId := l]> (wr_lastLeases r) |> | None => r end in
  match value (f_devices f) with
  | Some d => r <| wr_lastPhysicalDevices :=
                  <[workerId := Arr.filter vd_physical d]> (wr_lastPhysicalDevices r) |>
  | None => r
  end.

Definition refresh r workerId (f : WorkerRefresh) : WorkerRegistry :=
  match view r workerId with
  | None => r
  | Some existing =>
      let held := withoutLoad (if value (f_health f) === Some health_starting then withoutReadFields existing
                               else existing) in
      let built := apply_refresh f held in
      let next := if wv_connection built === connected_ then built else withoutLoad built in
      let r := keepLastReads (set_view next r) workerId f in
      let r := match f_grantedDevices f with
               | Some d => r <| wr_grantedDevices := <[workerId := d]> (wr_grantedDevices r) |> | None => r end in
      notifyViewsChanged r
  end.

Definition refreshUpdate r workerId (lastUpdateFailure update : option opaque) (latestVersion : option string)
    : WorkerRegistry :=
  refresh r workerId (MkRefresh None None None None None None None None None None None None None None None None None
    (Some update) (Some lastUpdateFailure) (Some latestVersion) None).

Definition lease_count (l : option LeaseArray) : Z := Z.of_nat (length (default [] (la_leases <$> l))).
Definition disconnected r workerId : WorkerRegistry :=
  match view r workerId with
  | None => r
  | Some existing =>
      if wv_connection existing === disconnected_ then r
      else
        let v := (withoutLoad existing) <| wv_installs := None |> <| wv_waiting := None |>
                   <| wv_connection := disconnected_ |> <| wv_lastSeenAt := now |> in
        let leases := match wv_leases existing with Some l => Some l | None => wr_lastLeases r !! workerId end in
        notifyViewsChanged (note (WorkerDisconnected (lease_count leases) workerId (wv_label existing)) (set_view v r))
  end.

(** [setDrained] up to its write, and what it announces once that is done. *)
Definition setDrained (written : bool) r workerId (drained : bool) : result WorkerError (WorkerRegistry * bool) :=
  existing ← of_option (UnknownWorker workerId) (view r workerId);
  if wv_drained existing === drained then Ok (r, false)
  else
    let r := set_view (existing <| wv_drained := drained |>) r in
    let r := r <| wr_drained := if drained then Ordered.add workerId (wr_drained r)
                                else Ordered.drop workerId (wr_drained r) |> in
    Ok (save written r, true).
Definition drain_announced r workerId (drained : bool) : WorkerRegistry :=
  notifyViewsChanged (note (WorkerDrainChanged drained workerId (view r workerId ≫= wv_label)) r).

Definition forget_view (written : bool) r (v : WorkerView) (clearDrain : bool) : WorkerRegistry :=
  let r := r <| wr_workers := Ordered.delete (wv_id v) (wr_workers r) |>
             <| wr_grantedDevices := delete (wv_id v) (wr_grantedDevices r) |>
             <| wr_lastCatalog := delete (wv_id v) (wr_lastCatalog r) |>
             <| wr_lastBaselines := delete (wv_id v) (wr_lastBaselines r) |>
             <| wr_lastLeases := delete (wv_id v) (wr_lastLeases r) |>
             <| wr_lastPhysicalDevices := delete (wv_id v) (wr_lastPhysicalDevices r) |> in
  if clearDrain && Arr.includes (wv_id v) (wr_drained r)
  then save written (r <| wr_drained := Ordered.drop (wv_id v) (wr_drained r) |>) else r.
Definition removal_announced r (v : WorkerView) (by_operator : bool) : WorkerRegistry :=
  notifyViewsChanged (note (WorkerRemoved by_operator (wv_id v) (wv_label v)) r).

Definition remove_worker (written : bool) r workerId : result WorkerError (WorkerRegistry * bool) :=
  match view r workerId with
  | None =>
      if Arr.includes workerId (wr_drained r)
      then Ok (save written (r <| wr_drained := Ordered.drop workerId (wr_drained r) |>), false)
      else Ok (r, false)
  | Some existing =>
      if wv_connection existing !== disconnected_ then Err (WorkerStillConnected workerId)
      else Ok (removal_announced (forget_view written r existing true) existing true, true)
  end.

Definition holds_lease (l : ViewLease) : bool :=
  (now <? vl_ttlDeadline l)%Z &&
  match gatewayRequesterPrefix with
  | None => true
  | Some prefix => startsWith prefix (r_requesterId (vl_lease l))
  end.
Definition last_leases r (v : WorkerView) : list ViewLease :=
  default [] (la_leases <$> match wv_leases v with Some l => Some l | None => wr_lastLeases r !! wv_id v end).
Definition is_expired r (v : WorkerView) : bool :=
  (wv_connection v === disconnected_) && (wv_lastSeenAt v <=? now - retentionMs)%Z
  && negb (Arr.some holds_lease (last_leases r v)).
Definition pruneExpired r : WorkerRegistry :=
  foldl (λ r v, removal_announced (forget_view false r v false) v false) r (Arr.filter (is_expired r) (views r)).
End registry.

(** ** Drains

    The views say of a drain what the drained workers say. *)

Section drains.
Context `{LocaleCompare} (retentionMs : Z) (gatewayRequesterPrefix : option string).
Implicit Types (r : WorkerRegistry) (w : string) (v : WorkerView).

Definition drain_shown r : Prop :=
  Ordered.wf (wr_workers r) ∧ ∀ w v, view r w = Some v → wv_id v = w ∧ wv_drained v = Arr.includes w (wr_drained r).

Lemma drain_shown_ext r r' : wr_workers r' = wr_workers r → wr_drained r' = wr_drained r → drain_shown r → drain_shown r'.
Proof. unfold drain_shown, view. by intros -> ->. Qed.
Lemma view_set r v w : view (set_view v r) w = if decide (wv_id v = w) then Some v else view r w.
Proof. apply Ordered.get_set_case. Qed.
Lemma set_view_shown r v : drain_shown r → wv_drained v = Arr.includes (wv_id v) (wr_drained r) → drain_shown (set_view v r).
Proof.
  intros [Hwf Hv] Hd. split; [by apply Ordered.set_wf|]. intros w v'.
  rewrite view_set. case_decide as Hw; [intros [= <-]; by subst|apply Hv].
Qed.

(** What an operator and the workers do; a restart of the gateway loses the views and reads the
    store. Every write of the store succeeds here. *)
Inductive WorkerOp :=
| OpConnected (now : Z) (workerId : string) (label version : option string)
| OpIncompatible (now : Z) (workerId : string) (label : option string) (protocol : opaque) (version : option string)
| OpRefresh (now : Z) (workerId : string) (f : WorkerRefresh)
| OpDisconnected (now : Z) (workerId : string)
| OpSetDrained (workerId : string) (drained : bool)
| OpRemoveWorker (workerId : string)
| OpPrune (now : Z)
| OpRestart.
Definition no_workers (stored : list string) : WorkerRegistry := MkWorkers [] ∅ ∅ ∅ ∅ ∅ [] stored [].
Definition answer {A} r (a : result WorkerError (WorkerRegistry * A)) : WorkerRegistry :=
  match a with Ok (r', _) => r' | Err _ => r end.
Definition perform_worker r (op : WorkerOp) : WorkerRegistry :=
  match op with
  | OpConnected now w label version => connected now r w label version
  | OpIncompatible now w label protocol version => incompatible now r w label protocol version
  | OpRefresh now w f => refresh now r w f
  | OpDisconnected now w => disconnected now r w
  | OpSetDrained w drained => answer r (setDrained true r w drained)
  | OpRemoveWorker w => answer r (remove_worker true r w)
  | OpPrune now => pruneExpired retentionMs gatewayRequesterPrefix now r
  | OpRestart => load (no_workers (wr_stored r))
  end.

Record registry_ok r : Prop := {
  ro_shown : drain_shown r;
  ro_stored w : w ∈ wr_stored r ↔ w ∈ wr_drained r }.

Lemma registry_ok_ext r r' : wr_workers r' = wr_workers r → wr_drained r' = wr_drained r → wr_stored r' = wr_stored r →
  registry_ok r → registry_ok r'.
Proof. intros Hw Hd Hs [H1 H2]. split; [by eapply drain_shown_ext|]. by rewrite Hd, Hs. Qed.

Lemma forget_view_ok r v clear : registry_ok r → registry_ok (forget_view true r v clear).
Proof.
  intros [[Hwf Hv] Hs]. unfold forget_view. set (r1 := _ <| wr_lastPhysicalDevices := _ |>).
  assert (∀ w, view r1 w = if decide (wv_id v = w) then None else view r w) as Hview
    by (intros w; apply Ordered.get_delete_case).
  assert (Ordered.wf (wr_workers r1)) as Hwf1 by (by apply Ordered.delete_wf).
  destruct (clear && _); split; try done.
  - split; [done|]. intros w v'. change (view r1 w = Some v' → wv_id v' = w ∧ wv_drained v' = Arr.includes w (Ordered.drop (wv_id v) (wr_drained r))).
    rewrite Hview. case_decide as Hw; [done|]. intros [Hid Hd]%Hv. split; [done|]. rewrite Hd. unfold Arr.includes.
    apply bool_decide_ext. rewrite Ordered.elem_of_drop. naive_solver.
  - split; [done|]. intros w v'. rewrite Hview. case_decide; [done|apply Hv].
Qed.

Lemma keepLastReads_same r w f : wr_workers (keepLastReads r w f) = wr_workers r ∧
  wr_drained (keepLastReads r w f) = wr_drained r ∧ wr_stored (keepLastReads r w f) = wr_stored r.
Proof.
  unfold keepLastReads. by destruct (value (f_catalog f)), (value (f_baselines f)), (value (f_leases f)), (value (f_devices f)).
Qed.

Lemma view_shown r w v : drain_shown r → view r w = Some v → wv_id v = w ∧ wv_drained v = Arr.includes w (wr_drained r).
Proof. intros [_ Hv]. apply Hv. Qed.

Lemma load_adds (ids acc : list string) w : w ∈ foldl (λ d id, Ordered.add id d) acc ids ↔ w ∈ ids ∨ w ∈ acc.
Proof.
  revert acc. induction ids as [|id ids IH]; intros acc; cbn; [set_solver|].
  rewrite IH, Ordered.elem_of_add. set_solver.
Qed.

Lemma perform_worker_ok r op : registry_ok r → registry_ok (perform_worker r op).
Proof.
  intros Hok. pose proof Hok as [Hsh Hst]. destruct op as [now w l ver|now w l p ver|now w f|now w|w d|w|now|]; cbn.
  - split; [|exact Hst]. eapply (drain_shown_ext (set_view _ r)); [reflexivity..|]. by apply set_view_shown.
  - split; [|exact Hst]. eapply (drain_shown_ext (set_view _ r)); [reflexivity..|]. by apply set_view_shown.
  - unfold refresh. destruct (view r w) as [v|] eqn:Ev; [|done]. destruct (view_shown _ _ _ Hsh Ev) as [Hid Hd].
    set (next := if _ === _ then _ else _).
    assert (registry_ok (set_view next r)) as Hset.
    { split; [|exact Hst]. apply set_view_shown; [done|]. unfold next.
      do 2 case_bool_decide; cbn; by rewrite Hid. }
    destruct (keepLastReads_same (set_view next r) w f) as (H1 & H2 & H3).
    eapply registry_ok_ext; [..|exact Hset]; destruct (f_grantedDevices f); done.
  - unfold disconnected. destruct (view r w) as [v|] eqn:Ev; [|done]. destruct (view_shown _ _ _ Hsh Ev) as [Hid Hd].
    case_bool_decide; [done|]. split; [|exact Hst]. eapply (drain_shown_ext (set_view _ r)); [reflexivity..|].
    apply set_view_shown; [done|]. cbn. by rewrite Hid.
  - unfold setDrained. destruct (view r w) as [v|] eqn:Ev; [|done]. destruct (view_shown _ _ _ Hsh Ev) as [Hid Hd]. cbn.
    case_bool_decide; [done|]. cbn. split; [|done]. split.
    { apply Ordered.set_wf, Hsh. }
    intros w' v'. change (view (set_view (v <| wv_drained := d |>) r) w' = Some v' →
      wv_id v' = w' ∧ wv_drained v' = Arr.includes w' (if d then Ordered.add w (wr_drained r) else Ordered.drop w (wr_drained r))).
    rewrite view_set. cbn [wv_id]. unfold Arr.includes. case_decide as Hw.
    + intros [= <-]. cbn. split; [done|]. subst w'. change (wv_id _) with (wv_id v). rewrite Hid. destruct d; symmetry.
      * apply bool_decide_eq_true. rewrite Ordered.elem_of_add. by left.
      * apply bool_decide_eq_false. rewrite Ordered.elem_of_drop. by intros [? _].
    + change (wv_id _) with (wv_id v) in Hw. intros Hv'. destruct (view_shown _ _ _ Hsh Hv') as [Hid' Hd'].
      split; [done|]. rewrite Hd'. unfold Arr.includes. apply bool_decide_ext.
      destruct d; rewrite ?Ordered.elem_of_add, ?Ordered.elem_of_drop; naive_solver.
  - unfold remove_worker. destruct (view r w) as [v|] eqn:Ev.
    + case_bool_decide; [|done]. cbn [negb answer]. apply (registry_ok_ext (forget_view true r v true)); [done..|]. by apply forget_view_ok.
    + unfold Arr.includes. case_bool_decide as Hin; [|done]. cbn. split; [|done]. split; [apply Hsh|].
      intros w' v' Hv'. change (view r w' = Some v') in Hv'. destruct (view_shown _ _ _ Hsh Hv') as [Hid' Hd'].
      split; [done|]. rewrite Hd'. unfold Arr.includes. apply bool_decide_ext. cbn. rewrite Ordered.elem_of_drop.
      split; [|tauto]. intros Hw'. split; [|done]. intros ->. congruence.
  - unfold pruneExpired. generalize (Arr.filter (is_expired retentionMs gatewayRequesterPrefix now r) (views r)).
    intros vs. revert r Hok Hsh Hst. induction vs as [|v vs IH]; intros r Hok Hsh Hst; cbn [foldl]; [done|].
    assert (registry_ok (removal_announced (forget_view false r v false) v false)) as Hok1.
    { apply (registry_ok_ext (forget_view true r v false)); [done..|]. by apply forget_view_ok. }
    apply IH; apply Hok1.
  - split.
    + split; [constructor|]. by intros ?? [=].
    + intros w. cbn. rewrite load_adds. set_solver.
Qed.

(** A drain ends only when an operator ends it or removes the worker. *)
Definition ends_drain w (op : WorkerOp) : bool :=
  match op with
  | OpSetDrained w' drained => (w' === w) && negb drained
  | OpRemoveWorker w' => w' === w
  | _ => false
  end.

Lemma perform_keeps_drain r op w : registry_ok r → w ∈ wr_drained r → ends_drain w op = false →
  w ∈ wr_drained (perform_worker r op).
Proof.
  intros [Hsh Hst] Hin Hop. destruct op as [now w' l ver|now w' l p ver|now w' f|now w'|w' d|w'|now|]; cbn in *; try done.
  - unfold refresh. destruct (view r w') as [v|]; [|done]. set (next := if _ === _ then _ else _).
    destruct (keepLastReads_same (set_view next r) w' f) as (_ & H2 & _).
    cut (w ∈ wr_drained (keepLastReads (set_view next r) w' f)); [by destruct (f_grantedDevices f)|]. by rewrite H2.
  - unfold disconnected. destruct (view r w') as [v|]; [|done]. by case_bool_decide.
  - unfold setDrained. destruct (view r w') as [v|]; [|done]. cbn. destruct (wv_drained v === d); [done|]. cbn.
    destruct d; [apply Ordered.elem_of_add; by right|]. rewrite andb_true_r in Hop. apply bool_decide_eq_false in Hop.
    by apply Ordered.elem_of_drop.
  - apply bool_decide_eq_false in Hop. unfold remove_worker. destruct (view r w') as [v|] eqn:Ev.
    + case_bool_decide; [|done]. cbn. destruct (view_shown _ _ _ Hsh Ev) as [Hid _]. unfold forget_view.
      destruct (_ && _); [|done]. cbn. rewrite Hid. by apply Ordered.elem_of_drop.
    + destruct (Arr.includes w' (wr_drained r)); [|done]. by apply Ordered.elem_of_drop.
  - unfold pruneExpired. generalize (Arr.filter (is_expired retentionMs gatewayRequesterPrefix now r) (views r)).
    intros vs. clear Hsh Hst. revert r Hin. induction vs as [|v vs IH]; intros r Hin; cbn [foldl]; [done|]. by apply IH.
  - apply load_adds. left. by apply Hst.
Qed.

Definition replay_workers (ops : list WorkerOp) : WorkerRegistry := foldl perform_worker (no_workers []) ops.
Lemma replay_workers_snoc ops op : replay_workers (ops ++ [op]) = perform_worker (replay_workers ops) op.
Proof. unfold replay_workers. by rewrite foldl_app. Qed.
Lemma replay_workers_ok ops : registry_ok (replay_workers ops).
Proof.
  induction ops as [|op ops IH] using rev_ind; [|rewrite replay_workers_snoc; by apply perform_worker_ok].
  split; [|done]. split; [constructor|]. by intros ?? [=].
Qed.
End drains.

(** A drained worker stays out of rotation until an operator says otherwise: after an operator
    drained it, through reconnects, reports, disconnects, forgotten views and restarts of the
    gateway, in any order, every view of it is drained, as long as no one undrains or removes it;
    and the views and the stored decisions never disagree. *)
Theorem drain_survives `{LocaleCompare} retentionMs prefix ops w later :
  let replay := replay_workers retentionMs prefix in
  w ∈ wr_drained (replay ops) → Forall (λ op, ends_drain w op = false) later →
  (∀ v, view (replay (ops ++ later)) w = Some v → wv_drained v = true) ∧
  w ∈ wr_stored (replay (ops ++ later)) ∧
  ∀ w' v, view (replay (ops ++ later)) w' = Some v → wv_drained v = true ↔ w' ∈ wr_stored (replay (ops ++ later)).
Proof.
  intros replay Hin Hl. pose proof (replay_workers_ok retentionMs prefix (ops ++ later)) as [Hsh Hst].
  assert (w ∈ wr_drained (replay (ops ++ later))) as Hin'.
  { induction later as [|op later IH] using rev_ind; [by rewrite app_nil_r|].
    apply Forall_app in Hl as [Hl [Hop _]%Forall_cons]. unfold replay. rewrite app_assoc, replay_workers_snoc.
    apply perform_keeps_drain; [apply replay_workers_ok| |done].
    apply IH; [done|apply (replay_workers_ok retentionMs prefix (ops ++ later))..]. }
  split_and!.
  - intros v Hv. destruct (view_shown _ _ _ Hsh Hv) as [_ ->]. by apply bool_decide_eq_true.
  - by apply Hst.
  - intros w' v Hv. destruct (view_shown _ _ _ Hsh Hv) as [_ ->]. unfold replay, Arr.includes.
    by rewrite bool_decide_eq_true, Hst.
Qed.
End Workers.

Module WorkerSamples.
Import Workers.
Definition drained : list WorkerOp := [OpConnected 0 "w1" None None; OpSetDrained "w1" true].
Definition later : list WorkerOp := [OpDisconnected 5 "w1"; OpPrune 90; OpRestart; OpConnected 99 "w1" None None].
End WorkerSamples.

Lemma drain_survives_witness :
  wv_drained <$> Workers.view (Workers.replay_workers (H := codepoint_compare) 10 None
    (WorkerSamples.drained ++ WorkerSamples.later)) "w1" = Some true.
Proof.
  destruct (Workers.drain_survives (H := codepoint_compare) 10 None WorkerSamples.drained "w1" WorkerSamples.later)
    as (Hv & _ & _); [apply (bool_decide_eq_true_1 _); vm_compute; reflexivity|repeat constructor|].
  destruct (Workers.view _ "w1") as [v|] eqn:Ev; [cbn; f_equal; by apply Hv|]. vm_compute in Ev. discriminate.
Defined.
