(* ===== verification/Routing.v ===== *)
(** * Routing a request over a fleet: [src/gateway/routing.ts] and [src/gateway/routing/]

    Which worker a gateway sends a request to. A policy is a list of stages: a filter drops workers
    that cannot take the request, a rank keeps the best of the rest. Before any stage runs,
    [assess] decides whether the fleet can serve the request at all; a request it refuses fails at
    once, and one it lets pass is sent or waits. *)
From stdpp Require Import base strings list option numbers gmap sets pretty sorting.
From S2P Require Import Prelude JsString OsRange Domain Devices Resolve FleetIndex FleetViews.

(** ** Requests and reasons: [pipeline.ts] *)

Record RoutableRequest := MkRoutable {
  t_platform : Platform;
  t_model : option string;
  t_class : option DeviceClass;
  t_osVersion : option string;
  t_imageTag : option string;
  t_mode : option DeviceMode;
  t_physical : option bool;
  t_baseline : option string;
  t_requires : option (list string);
  t_except : option (list string) }.
#[export] Instance RoutableRequest_eta : Eta RoutableRequest := λ t,
  MkRoutable (t_platform t) (t_model t) (t_class t) (t_osVersion t) (t_imageTag t) (t_mode t) (t_physical t)
    (t_baseline t) (t_requires t) (t_except t).

Inductive CapacityReason :=
| device_limit | ram_budget | memory_pressure | global_running_limit | platform_running_limit.
Inductive WorkerReasonCode :=
| wr_disconnected | wr_incompatible | wr_not_ready | wr_unhealthy | wr_drained_ | wr_updating | wr_busy | wr_no_driver
| wr_unknown_model | wr_runtime_missing | wr_no_baseline | wr_baseline_mismatch | wr_baseline_stale
| wr_capability_missing | wr_cannot_keep_except | wr_full | wr_no_free_physical | wr_not_chosen.
#[global] Instance WorkerReasonCode_eq_dec : EqDecision WorkerReasonCode.
Proof. solve_decision. Defined.
Record WorkerReason := MkReason { wn_reason : WorkerReasonCode; wn_capacityReason : option CapacityReason }.
Definition reason (c : WorkerReasonCode) : WorkerReason := MkReason c None.

Inductive RoutingStage :=
| FilterStage (appliesToPhysical : bool) (check : WorkerView → RoutableRequest → option WorkerReason)
| RankStage (name : string) (appliesToPhysical settles : bool) (score : WorkerView → RoutableRequest → Z)
    (zeroReason : option (WorkerView → RoutableRequest → option WorkerReason)).
Definition stage_physical (s : RoutingStage) : bool :=
  match s with FilterStage p _ | RankStage _ p _ _ _ => p end.
Definition is_filter (s : RoutingStage) : bool := match s with FilterStage _ _ => true | _ => false end.
(** The one place a stage is skipped for a physical request. *)
Definition applies (request : RoutableRequest) (s : RoutingStage) : bool :=
  (t_physical request !== Some true) || stage_physical s.

Record StagePick := MkPick { pk_workerId : string; pk_stage : string }.

(** [Math.max] over the scores, [None] for the minus infinity it gives for none. *)
Definition best_score (scores : list Z) : option Z :=
  foldl (λ best s, Some (match best with None => s | Some b => Z.max b s end)) None scores.

Section pipeline.
Context `{LocaleCompare}.

Definition by_worker_id (workers : list WorkerView) : list WorkerView :=
  sort_by (λ left right, localeCompare (wv_id left) (wv_id right)) workers.

Record Walk := MkWalk { wk_remaining : list WorkerView; wk_decided : option string; wk_removed : option string }.

(** The loop over the stages; a rank that settles leaves it. *)
Fixpoint run_stages (stages : list RoutingStage) (request : RoutableRequest) (walk : Walk) : Walk :=
  match stages with
  | [] => walk
  | stage :: stages =>
      if negb (applies request stage) then run_stages stages request walk
      else match stage with
      | FilterStage _ check =>
          run_stages stages request
            (MkWalk (Arr.filter (λ worker, check worker request === None) (wk_remaining walk))
               (wk_decided walk) (wk_removed walk))
      | RankStage name _ settles score _ =>
          match best_score ((λ worker, score worker request) <$> wk_remaining walk) with
          | None => run_stages stages request walk
          | Some best =>
              if negb (0 <? best)%Z then run_stages stages request walk
              else
                let kept := Arr.filter (λ worker, (score worker request =? best)%Z) (wk_remaining walk) in
                let walk := MkWalk kept (Some name)
                  (if (length kept <? length (wk_remaining walk))%nat then Some name else wk_removed walk) in
                if settles then walk else run_stages stages request walk
          end
      end
  end.

Definition runStages (stages : list RoutingStage) (request : RoutableRequest) (workers : list WorkerView)
    : option StagePick :=
  let walk := run_stages stages request (MkWalk (by_worker_id workers) None None) in
  decided ← wk_decided walk;
  first ← head (wk_remaining walk);
  Some (MkPick (wv_id first) (default decided (wk_removed walk))).

Fixpoint first_filter_reason (stages : list RoutingStage) (worker : WorkerView) (request : RoutableRequest)
    : option WorkerReason :=
  match stages with
  | [] => None
  | FilterStage _ check :: stages =>
      match check worker request with Some r => Some r | None => first_filter_reason stages worker request end
  | _ :: stages => first_filter_reason stages worker request
  end.
Fixpoint first_zero_reason (stages : list RoutingStage) (worker : WorkerView) (request : RoutableRequest)
    : option WorkerReason :=
  match stages with
  | [] => None
  | RankStage _ _ _ score zeroReason :: stages =>
      if (score worker request =? 0)%Z
      then match zeroReason ≫= (λ z, z worker request) with
           | Some r => Some r | None => first_zero_reason stages worker request end
      else first_zero_reason stages worker request
  | _ :: stages => first_zero_reason stages worker request
  end.
Definition firstReason (stages : list RoutingStage) (worker : WorkerView) (request : RoutableRequest)
    : option WorkerReason :=
  match first_filter_reason stages worker request with
  | Some r => Some r
  | None => first_zero_reason stages worker request
  end.

Definition explainStages (stages : list RoutingStage) (request : RoutableRequest) (workers : list WorkerView)
    : list (string * option WorkerReason) :=
  let applicable := Arr.filter (applies request) stages in
  (λ worker, (wv_id worker, firstReason applicable worker request)) <$> by_worker_id workers.
End pipeline.

(** ** What a worker could serve: [request-match.ts] *)

Definition catalogOf (worker : WorkerView) (request : RoutableRequest) : option PlatformEntry :=
  catalog ← wv_catalog worker;
  Arr.find (λ entry, pe_platform entry === t_platform request) catalog.
Definition hasPlatform (worker : WorkerView) (request : RoutableRequest) : bool :=
  catalogOf worker request !== None.

Definition baselineEntry (worker : WorkerView) (request : RoutableRequest) : option BaselineListed :=
  name ← t_baseline request;
  baselines ← wv_baselines worker;
  Arr.find (λ entry, bf_name (bn_facts entry) === name) baselines.

(** The fields of a routable request the core's functions read. *)
Definition as_device_request (request : RoutableRequest) : DeviceRequest :=
  MkRequest (t_platform request) (t_model request) (t_osVersion request) (t_mode request) (t_imageTag request)
    (t_except request) (t_baseline request) (t_class request) (t_physical request).

Definition baselineMismatchOf (worker : WorkerView) (request : RoutableRequest) : option (MismatchField * string) :=
  entry ← baselineEntry worker request;
  baselineMismatch (bn_facts entry) (as_device_request request)
    (default no_catalog (pe_catalog <$> catalogOf worker request)).

Definition withBaseline (worker : WorkerView) (request : RoutableRequest) : RoutableRequest :=
  match baselineEntry worker request with
  | None => request
  | Some entry =>
      request <| t_class := None |> <| t_imageTag := bf_imageTag (bn_facts entry) |>
        <| t_mode := Some (bf_mode (bn_facts entry)) |> <| t_model := Some (bf_model (bn_facts entry)) |>
        <| t_osVersion := Some (bf_osVersion (bn_facts entry)) |>
  end.

(** [requestedClass] of a request without a model always names a class. *)
Definition wantedClass (request : RoutableRequest) : DeviceClass :=
  default phone (requestedClass None (t_class request)).

Definition candidates (catalog : DriverCatalogEntry) (request : RoutableRequest) : list string :=
  match t_model request with
  | Some model => match findCatalogModel catalog model with None => [] | Some m => [m] end
  | None => Arr.filter (λ model, modelClass catalog model === Some (wantedClass request)) (ce_models catalog)
  end.

Definition osConstraintOf (request : RoutableRequest) : option OsConstraint :=
  osVersion ← t_osVersion request;
  Some (match parseOsConstraint osVersion with Ok c => c | Err _ => ExactOs osVersion end).
Definition osFits (runtime : string) (request : RoutableRequest) : bool :=
  match osConstraintOf request with None => true | Some c => satisfies runtime c end.

Definition pairedRuntimesOf (catalog : DriverCatalogEntry) (model : string) (request : RoutableRequest) : list string :=
  let runtimes := pairedRuntimes catalog model in
  match t_imageTag request with
  | None => runtimes
  | Some tag =>
      Arr.filter (λ runtime, Arr.some (λ image, (im_tag image === tag) && (im_runtime image === runtime))
        (default [] (ce_images catalog))) runtimes
  end.

Definition servingModel (catalog : DriverCatalogEntry) (request : RoutableRequest) : option string :=
  Arr.find (λ model, Arr.some (λ runtime, osFits runtime request) (pairedRuntimesOf catalog model request))
    (candidates catalog request).

Definition matchRequest (worker : WorkerView) (request : RoutableRequest) : option string :=
  if t_physical request === Some true then None else
  let narrowed := withBaseline worker request in
  catalog ← catalogOf worker narrowed;
  servingModel (pe_catalog catalog) narrowed.

Definition osRequirement (catalog : DriverCatalogEntry) (model : string) (request : RoutableRequest) : OsRequirement :=
  match osConstraintOf request with
  | Some constraint => RequiredOs constraint
  | None =>
      match t_model request with
      | None => InstalledOs (ce_runtimes catalog)
      | Some _ =>
          InstalledOs (match last (sort_by by_version (pairedRuntimesOf catalog model request)) with
                       | None => [] | Some newest => [newest] end)
      end
  end.

Definition deviceFit (worker : WorkerView) (request : RoutableRequest) : option (FittableSpec → bool) :=
  if t_physical request === Some true then None else
  let narrowed := withBaseline worker request in
  entry ← catalogOf worker narrowed;
  let catalog := pe_catalog entry in
  model ← servingModel catalog narrowed;
  let requirement :=
    MkRequirement (t_platform narrowed)
      (match t_model narrowed with None => TargetClass (wantedClass narrowed) | Some _ => TargetModel model end)
      (osRequirement catalog model narrowed) (t_imageTag narrowed)
      ((λ listed, MkBaseline (bf_name (bn_facts listed)) (bn_version listed)) <$> baselineEntry worker request) in
  Some (λ spec, fits requirement spec (modelClass catalog)).

Inductive Which := enrolled | pickable.
Definition physical_fits (request : RoutableRequest) (which : Which) (device : ViewDevice) : bool :=
  if negb (vd_physical device) || (vd_state device === deleted) then false
  else if match which with
          | pickable => (vd_state device !== ready) ||
              match vd_presence device with Some (latest_absent _) => true | _ => false end
          | enrolled => false
          end then false
  else fitsPhysical (MkFittablePhysical (fs_platform (vd_spec device)) (fs_model (vd_spec device))
         (fs_osVersion (vd_spec device)) None (vd_class device))
         (MkPhysicalRequest (t_platform request) (t_model request) (t_class request) (t_osVersion request)).
Definition physicalMatch (worker : WorkerView) (request : RoutableRequest) (which : Which) : bool :=
  Arr.some (physical_fits request which) (default [] (wv_devices worker)).

Definition listsModel (worker : WorkerView) (request : RoutableRequest) : bool :=
  let narrowed := withBaseline worker request in
  match catalogOf worker narrowed with
  | None => false
  | Some catalog => candidates (pe_catalog catalog) narrowed !== []
  end.

(** ** The stages: [stages/] *)

Definition takesRequests_check (worker : WorkerView) (_ : RoutableRequest) : option WorkerReason :=
  match wv_connection worker with
  | disconnected_ => Some (reason wr_disconnected)
  | incompatible_ => Some (reason wr_incompatible)
  | connected_ =>
      if wv_drained worker then Some (reason wr_drained_)
      else if wv_update worker !== None then Some (reason wr_updating)
      else
        let ready :=
          if wv_health worker === Some health_starting then wv_catalog worker !== None
          else (wv_capacity worker !== None) && (wv_catalogReadAt worker !== None) in
        if ready then None else Some (reason wr_not_ready)
  end.
Definition takesRequests : RoutingStage := FilterStage true takesRequests_check.

Definition listsAllAvailable (capabilities : option (list Capability)) (requires : option (list string)) : bool :=
  match requires with
  | None => true
  | Some requires =>
      Arr.every (λ name,
        Arr.some (λ entry, (cb_name entry === name) && (cb_state entry === cap_available)) (default [] capabilities)) requires
  end.
Definition hasCapabilities_check (worker : WorkerView) (request : RoutableRequest) : option WorkerReason :=
  if listsAllAvailable (wv_capabilities worker) (t_requires request) then None
  else Some (reason wr_capability_missing).
Definition hasCapabilities : RoutingStage := FilterStage true hasCapabilities_check.

(** A model name is a condition: the empty one is false. *)
Definition serves_truthy (worker : WorkerView) (request : RoutableRequest) : bool :=
  match matchRequest worker request with None => false | Some model => model !== "" end.
Definition canServe_check (worker : WorkerView) (request : RoutableRequest) : option WorkerReason :=
  let physical := t_physical request === Some true in
  if if physical then physicalMatch worker request enrolled else serves_truthy worker request then None
  else if negb (hasPlatform worker request) then Some (reason wr_no_driver)
  else if physical || negb (listsModel worker request) then Some (reason wr_unknown_model)
  else Some (reason wr_runtime_missing).
Definition canServe : RoutingStage := FilterStage true canServe_check.

Definition hasBaseline_check (worker : WorkerView) (request : RoutableRequest) : option WorkerReason :=
  if t_baseline request === None then None
  else match baselineEntry worker request with
       | None => Some (reason wr_no_baseline)
       | Some entry =>
           if match baselineMismatchOf worker request with Some _ => true | None => false end
           then Some (reason wr_baseline_mismatch)
           else if bn_staleReason entry !== None then Some (reason wr_baseline_stale)
           else None
       end.
Definition hasBaseline : RoutingStage := FilterStage false hasBaseline_check.

Definition mode_given (worker : WorkerView) (request : RoutableRequest) : option DeviceMode :=
  spread (t_mode (withBaseline worker request)) (catalogOf worker request ≫= pe_defaultMode).
Definition slims (worker : WorkerView) (request : RoutableRequest) : list string :=
  default [] (catalogOf worker request ≫= pe_slimCategories).
Definition keepsExcept_check (worker : WorkerView) (request : RoutableRequest) : option WorkerReason :=
  match t_except request with
  | None => None
  | Some except =>
      if (mode_given worker request === Some slim) && Arr.every (λ name, Arr.includes name (slims worker request)) except
      then None else Some (reason wr_cannot_keep_except)
  end.
Definition keepsExcept : RoutingStage := FilterStage false keepsExcept_check.

Definition healthy_check (worker : WorkerView) (_ : RoutableRequest) : option WorkerReason :=
  if wv_health worker === Some health_running then None else Some (reason wr_unhealthy).
Definition healthy : RoutingStage := FilterStage true healthy_check.

Definition idleQueue_check (worker : WorkerView) (_ : RoutableRequest) : option WorkerReason :=
  if wv_queueDepth worker === Some 0%Z then None else Some (reason wr_busy).
Definition idleQueue : RoutingStage := FilterStage false idleQueue_check.

Definition warm_device (worker : WorkerView) (request : RoutableRequest) (fitsRequest : FittableSpec → bool)
    (device : ViewDevice) : bool :=
  (vd_state device === ready) && fitsRequest (vd_spec device) &&
  match t_mode (withBaseline worker request) with
  | None => vd_servesDefaultMode device
  | Some mode => vd_mode device === Some mode
  end.
Definition warmHit_score (worker : WorkerView) (request : RoutableRequest) : Z :=
  if t_physical request === Some true then (if physicalMatch worker request pickable then 1 else 0)
  else match deviceFit worker request with
       | None => 0
       | Some fitsRequest =>
           if Arr.some (warm_device worker request fitsRequest) (default [] (wv_devices worker)) then 1 else 0
       end.
Definition warmHit_zeroReason (worker : WorkerView) (request : RoutableRequest) : option WorkerReason :=
  if t_physical request !== Some true then None
  else if physicalMatch worker request pickable then None else Some (reason wr_no_free_physical).
Definition warmHit_name : string := "warm-hit".
Definition warmHit : RoutingStage := RankStage warmHit_name true true warmHit_score (Some warmHit_zeroReason).

Definition freeRunning (entry : RunningEntry) : Z := re_maxRunning entry - re_running entry - re_reserved entry.
Definition freeOrEvictableRunning (entry : RunningEntry) : Z := freeRunning entry + re_warm entry.
Definition freeSlot_check (worker : WorkerView) (request : RoutableRequest) : option WorkerReason :=
  match wv_capacity worker with
  | None => Some (reason wr_full)
  | Some capacity =>
      if (freeOrEvictableRunning (pc_entry (sc_platform capacity (t_platform request))) <=? 0)%Z
      then Some (MkReason wr_full (Some platform_running_limit))
      else if (freeOrEvictableRunning (sc_global capacity) <=? 0)%Z
      then Some (MkReason wr_full (Some global_running_limit))
      else None
  end.
Definition freeSlot : RoutingStage := FilterStage false freeSlot_check.

Definition paused (worker : WorkerView) : bool :=
  (wv_capacity worker ≫= sc_memoryPressure) === Some step_new_devices_paused.
Definition memoryPressure_score (worker : WorkerView) (_ : RoutableRequest) : Z := if paused worker then 0 else 1.
Definition memoryPressure_zeroReason (worker : WorkerView) (_ : RoutableRequest) : option WorkerReason :=
  if paused worker then Some (MkReason wr_full (Some memory_pressure)) else None.
Definition memoryPressure : RoutingStage :=
  RankStage "memory-pressure" false false memoryPressure_score (Some memoryPressure_zeroReason).

Definition at_ram_budget (worker : WorkerView) (request : RoutableRequest) : bool :=
  match wv_capacity worker with
  | None => false
  | Some capacity => pc_atRamBudget (sc_platform capacity (t_platform request))
  end.
Definition ramBudget_score (worker : WorkerView) (request : RoutableRequest) : Z :=
  if at_ram_budget worker request then 0 else 1.
Definition ramBudget_zeroReason (worker : WorkerView) (request : RoutableRequest) : option WorkerReason :=
  if at_ram_budget worker request then Some (MkReason wr_full (Some ram_budget)) else None.
Definition ramBudget : RoutingStage := RankStage "ram-budget" false false ramBudget_score (Some ramBudget_zeroReason).

Definition freeCapacity_score (worker : WorkerView) (request : RoutableRequest) : Z :=
  match wv_capacity worker with
  | None => 0
  | Some capacity => Z.max 0 (freeRunning (pc_entry (sc_platform capacity (t_platform request))))
  end.
Definition freeCapacity : RoutingStage := RankStage "free-capacity" false false freeCapacity_score None.

(** ** The policy: [routing.ts] *)

Inductive RoutingReason := routed_warm_hit | routed_free_capacity.
Record RoutingDecision := MkDecision { dn_workerId : string; dn_reason : RoutingReason; dn_stage : string }.
Record WorkerExplanation := MkExplanation {
  ex_workerId : string; ex_filter : option WorkerReason; ex_zero : option WorkerReason }.

Definition warm_then_free : list RoutingStage :=
  [takesRequests; hasCapabilities; canServe; hasBaseline; keepsExcept; healthy; idleQueue; warmHit; freeSlot;
   memoryPressure; ramBudget; freeCapacity].

Section policy.
Context `{LocaleCompare} (stages : list RoutingStage).

Definition explain (request : RoutableRequest) (workers : list WorkerView) : list WorkerExplanation :=
  let filters := explainStages (Arr.filter is_filter stages) request workers in
  imap (λ index entry,
    match filters !! index ≫= snd with
    | Some filter => MkExplanation entry.1 (Some filter) None
    | None => MkExplanation entry.1 None entry.2
    end) (explainStages stages request workers).

Definition select (request : RoutableRequest) (workers : list WorkerView) : option RoutingDecision :=
  pick ← runStages stages request workers;
  Some (MkDecision (pk_workerId pick)
    (if pk_stage pick === warmHit_name then routed_warm_hit else routed_free_capacity) (pk_stage pick)).
End policy.

(** ** Whether the fleet can serve a request at all: [serviceability.ts] *)

Inductive RejectionCode :=
| NO_CAPACITY | NO_DRIVER | UNKNOWN_MODEL | RUNTIME_MISSING | CAPABILITY_MISSING | UNKNOWN_BASELINE
| BASELINE_MISMATCH | BASELINE_STALE | BAD_REQUEST.
Inductive RejectionDetails :=
| DeviceDetails (platform : Platform) (model : option string) (class : option DeviceClass) (osVersion : option string)
    (downloadable : option bool)
| CapabilityDetails (capabilities : list string)
| NameDetails (name : string)
| FieldDetails (baseline : string) (field : MismatchField)
| StaleDetails (baseline reason : string).
Inductive RejectionReason := reject_no_worker | reject_unresolvable_spec.
Record Rejection := MkRejection {
  rj_code : RejectionCode;
  rj_message : string;
  rj_details : option RejectionDetails;
  rj_reason : RejectionReason }.
Inductive Assessment := RouteOrWait | Reject (r : Rejection).

(** [noPhysicalMatch] of [src/core/domain.ts]. *)
Definition osPhrase (osVersion : option string) : list string :=
  match osVersion with
  | None => []
  | Some os => match parseOsConstraint os with
               | Ok (RangeOs _ _) => ["os in the requested range"]
               | _ => ["os " +:+ os]
               end
  end.
Definition raise_last (parts : list Z) : list Z :=
  imap (λ index part, if (index =? length parts - 1)%nat then (part + 1)%Z else part) parts.
Definition rangeAround (osVersion : string) : string :=
  let parts := decimal_value <$> JsString.split "." osVersion in
  ">=" +:+ join "." (pretty <$> parts) +:+ " <" +:+ join "." (pretty <$> raise_last parts).
(** One number, or two joined by a dot. *)
Definition one_or_two_numbers (os : string) : bool :=
  let parts := JsString.split "." os in (length parts <=? 2)%nat && Arr.every digits parts.
Definition noPhysicalMatch (request : PhysicalRequest) : string * RejectionDetails :=
  let named :=
    (match pr_model request with
     | None => "class " +:+ class_text (default phone (pr_class request))
     | Some model => "model " +:+ model
     end) :: osPhrase (pr_osVersion request) in
  let range :=
    match pr_osVersion request with
    | Some os =>
        if (pr_platform request === ios) && one_or_two_numbers os
        then "; --os is exact, for any " +:+ os +:+ ".x write --os " +:+ quote +:+ rangeAround os +:+ quote
        else ""
    | None => ""
    end in
  ("no enrolled physical device can match " +:+ platform_text (pr_platform request) +:+ " " +:+ join " " named +:+ range,
   DeviceDetails (pr_platform request) (pr_model request) (pr_class request) (pr_osVersion request) None).

Definition isKnown (worker : WorkerView) : bool := wv_connection worker !== incompatible_.

Definition noWorker : Rejection :=
  MkRejection NO_CAPACITY "No worker in the fleet can currently serve this request" None reject_no_worker.

Definition unknownModel (request : RoutableRequest) : Rejection :=
  let platform := platform_text (t_platform request) in
  match t_model request with
  | None =>
      let c := wantedClass request in
      MkRejection UNKNOWN_MODEL
        ("No " +:+ platform +:+ " model of class " +:+ class_text c +:+ " is listed by any worker in the fleet; " +:+
         "name one in " +:+ platform +:+ ".defaultModels." +:+ class_text c +:+ " on a worker")
        (Some (DeviceDetails (t_platform request) None (Some c) None None)) reject_unresolvable_spec
  | Some model =>
      MkRejection UNKNOWN_MODEL ("Unknown " +:+ platform +:+ " model: " +:+ model)
        (Some (DeviceDetails (t_platform request) (Some model) None None None)) reject_unresolvable_spec
  end.

Definition takersOf (request : RoutableRequest) (views : list WorkerView) : list WorkerView :=
  Arr.filter (λ worker,
    match takesRequests_check worker request with
    | None => true
    | Some refusal => wn_reason refusal === wr_updating
    end) views.

Definition serves (request : RoutableRequest) (worker : WorkerView) : bool :=
  match matchRequest worker request with Some _ => true | None => false end.

Definition assessLeading (request : RoutableRequest) (views : list WorkerView) : option Rejection :=
  if takersOf request views is [] then Some noWorker
  else
    let known := Arr.filter isKnown views in
    let platform := t_platform request in
    if negb (Arr.some (λ worker, hasPlatform worker request) known) then
      Some (MkRejection NO_DRIVER ("No driver registered for platform: " +:+ platform_text platform)
        (Some (DeviceDetails platform None None None None)) reject_unresolvable_spec)
    else if t_physical request === Some true then
      if Arr.some (λ worker, physicalMatch worker request enrolled) known then None
      else
        let '(message, details) := noPhysicalMatch
          (MkPhysicalRequest (t_platform request) (t_model request) (t_class request) (t_osVersion request)) in
        Some (MkRejection UNKNOWN_MODEL message (Some details) reject_unresolvable_spec)
    else if negb (Arr.some (λ worker, listsModel worker request) known) then Some (unknownModel request)
    else if negb (Arr.some (serves request) known) then
      let osVersion := default "default" (t_osVersion request) in
      Some (MkRejection RUNTIME_MISSING ("Runtime missing for " +:+ platform_text platform +:+ " " +:+ osVersion)
        (Some (DeviceDetails platform None None (Some osVersion) (Some false))) reject_unresolvable_spec)
    else None.

Definition assessServing (request : RoutableRequest) (views : list WorkerView) : option Rejection :=
  let takers := takersOf request views in
  let fits :=
    if t_physical request === Some true then Arr.some (λ worker, physicalMatch worker request enrolled) takers
    else Arr.some (serves request) takers in
  if fits then None else Some noWorker.

Definition assessTable (request : RoutableRequest) (views : list WorkerView) : Assessment :=
  match assessLeading request views with
  | Some r => Reject r
  | None => match assessServing request views with Some r => Reject r | None => RouteOrWait end
  end.

Definition whyNotSlim (request : RoutableRequest) (slimmers : list WorkerView) : string :=
  if negb (Arr.every (λ worker, mode_given worker request !== Some slim) slimmers)
  then "no worker that slims them in slim mode serves this model and runtime"
  else match t_baseline request with
  | Some baseline => "baseline " +:+ quote +:+ baseline +:+ quote +:+ " is full"
  | None => match t_mode request with
            | Some mode => "mode is " +:+ mode_text mode +:+ " on every worker that slims them"
            | None => "default mode is full on every worker that slims them"
            end
  end.

Definition assessExcept (request : RoutableRequest) (views : list WorkerView) : option Rejection :=
  match t_except request with
  | None => None
  | Some except =>
      let keeping := Arr.filter (λ worker, keepsExcept_check worker request === None) views in
      match assessServing request keeping with
      | None => None
      | Some _ =>
          if Arr.some (λ worker, isKnown worker && listsModel worker request && serves request worker) keeping
          then Some noWorker
          else
            let names := join ", " except in
            let slimmers := Arr.filter (λ worker,
              Arr.every (λ name, Arr.includes name (slims worker request)) except) views in
            let message :=
              if slimmers is [] then "no worker slims every category in except: " +:+ names
              else "no worker can keep slim categories " +:+ names +:+ " (" +:+ whyNotSlim request slimmers +:+ ")" in
            Some (MkRejection BAD_REQUEST message None reject_unresolvable_spec)
      end
  end.

Definition assessFleet (request : RoutableRequest) (views : list WorkerView) : Assessment :=
  match assessLeading request views with
  | Some leading => Reject leading
  | None =>
  match assessExcept request views with
  | Some except => Reject except
  | None =>
  match assessServing request views with
  | Some serving => Reject serving
  | None =>
  match t_requires request with
  | None | Some [] => RouteOrWait
  | Some requires =>
      let capable := Arr.filter (λ worker, hasCapabilities_check worker request === None) views in
      if assessTable request capable is RouteOrWait then RouteOrWait
      else Reject (MkRejection CAPABILITY_MISSING
        ("No worker connected to this gateway can serve " +:+ join ", " requires +:+ " for this request")
        (Some (CapabilityDetails requires)) reject_unresolvable_spec)
  end end end end.

Section assess.
Context `{LocaleCompare}.

(** The fitting, fresh holders of the baseline, or why there are none. *)
Definition baselineHolders (request : RoutableRequest) (views : list WorkerView) : result Rejection (list WorkerView) :=
  let name := default "" (t_baseline request) in
  let holders := by_worker_id (Arr.filter (λ worker,
    isKnown worker && match baselineEntry worker request with Some _ => true | None => false end) views) in
  if holders is [] then
    Err (MkRejection UNKNOWN_BASELINE ("no worker holds a baseline named " +:+ quote +:+ name +:+ quote)
      (Some (NameDetails name)) reject_unresolvable_spec)
  else
    let mismatches := (λ worker, baselineMismatchOf worker request) <$> holders in
    let fitting := Arr.filter (λ worker,
      match baselineMismatchOf worker request with None => true | Some _ => false end) holders in
    match fitting, head mismatches with
    | [], Some (Some (field, message)) =>
        Err (MkRejection BASELINE_MISMATCH message (Some (FieldDetails name field)) reject_unresolvable_spec)
    | _, _ =>
        let fresh := Arr.filter (λ worker, (baselineEntry worker request ≫= bn_staleReason) === None) fitting in
        if fresh is [] then
          let why := default "" (first ← head fitting; baselineEntry first request ≫= bn_staleReason) in
          Err (MkRejection BASELINE_STALE ("baseline " +:+ name +:+ " is stale: " +:+ why)
            (Some (StaleDetails name why)) reject_unresolvable_spec)
        else Ok fresh
    end.

Definition assess (request : RoutableRequest) (views : list WorkerView) : Assessment :=
  match t_baseline request with
  | None => assessFleet request views
  | Some _ => match baselineHolders request views with
              | Err r => Reject r
              | Ok holders => assessFleet request holders
              end
  end.
End assess.

(** ** What a pick is *)

Lemma best_score_snoc l s : best_score (l ++ [s]) = Some (match best_score l with None => s | Some b => Z.max b s end).
Proof. unfold best_score. by rewrite foldl_app. Qed.
Lemma best_score_None l : best_score l = None ↔ l = [].
Proof.
  split; [|by intros ->]. destruct l as [|x l _] using rev_ind; [done|]. by rewrite best_score_snoc.
Qed.
Lemma best_score_Some l b : best_score l = Some b → b ∈ l ∧ ∀ s, s ∈ l → (s ≤ b)%Z.
Proof.
  revert b. induction l as [|x l IH] using rev_ind; intros b; [done|]. rewrite best_score_snoc. intros [= <-].
  destruct (best_score l) as [b'|] eqn:Eb.
  - destruct (IH b' eq_refl) as [Hin Hle]. split.
    + rewrite elem_of_app, list_elem_of_singleton. destruct (Z.max_spec b' x) as [[_ ->]|[_ ->]]; auto.
    + intros s [Hs%Hle|Hs%list_elem_of_singleton]%elem_of_app; lia.
  - apply best_score_None in Eb as ->. split; [set_solver|]. intros s [Hs|Hs%list_elem_of_singleton]%elem_of_app; [set_solver|lia].
Qed.

(** The workers of a list none of which scores higher. *)
Definition maximal (score : WorkerView → Z) (l : list WorkerView) : list WorkerView :=
  Arr.filter (λ w, Arr.every (λ w', score w' <=? score w)%Z l) l.
Lemma elem_of_maximal score l w : w ∈ maximal score l ↔ w ∈ l ∧ ∀ w', w' ∈ l → (score w' ≤ score w)%Z.
Proof.
  unfold maximal. rewrite elem_of_afilter, aevery_true. by setoid_rewrite Z.leb_le.
Qed.

Definition any_scores (score : WorkerView → Z) (l : list WorkerView) : bool := Arr.some (λ w, (0 <? score w)%Z) l.

Section walks.
Context `{LocaleCompare}.
Implicit Types (request : RoutableRequest) (walk : Walk).

Definition passes (filters : list RoutingStage) request (w : WorkerView) : bool :=
  Arr.every (λ s, match s with
                  | FilterStage _ check => negb (applies request s) || (check w request === None)
                  | RankStage _ _ _ _ _ => true end) filters.

Lemma run_filters filters rest request walk : Forall (λ s, is_filter s = true) filters →
  run_stages (filters ++ rest) request walk =
    run_stages rest request (MkWalk (Arr.filter (passes filters request) (wk_remaining walk)) (wk_decided walk) (wk_removed walk)).
Proof.
  intros Hf. revert walk. induction Hf as [|stage filters Hs Hf IH]; intros [remaining decided removed]; cbn.
  { by rewrite afilter_all. }
  destruct stage as [p check|]; [|done]. destruct (applies request (FilterStage p check)) eqn:Ea; cbn [negb].
  - rewrite IH. cbn. unfold Arr.filter. rewrite filter_filter_b. do 2 f_equal. apply (afilter_ext (A := WorkerView)).
    intros w _. unfold passes. cbn. by rewrite Ea.
  - rewrite IH. cbn. f_equal. f_equal. apply afilter_ext. intros w _. unfold passes. cbn. by rewrite Ea.
Qed.

Lemma any_scores_false score (l : list WorkerView) : (∀ w, 0 ≤ score w)%Z → any_scores score l = false →
  maximal score l = l ∧ ∀ w, w ∈ l → score w = 0%Z.
Proof.
  intros Hpos Hany.
  assert (∀ w, w ∈ l → score w = 0%Z) as Hz.
  { intros w Hw. apply (proj1 (asome_false _ _)) with (x := w) in Hany; [|done]. apply Z.ltb_ge in Hany. specialize (Hpos w). lia. }
  split; [|done]. apply afilter_all. intros w Hw. apply aevery_true. intros w' Hw'. apply Z.leb_le.
  rewrite (Hz w), (Hz w') by done. lia.
Qed.

(** A rank keeps the workers none of the rest outscores, and decides when any scores at all. *)
Lemma run_rank name p settles score zero rest request walk :
  applies request (RankStage name p settles score zero) = true → (∀ w, 0 ≤ score w request)%Z →
  run_stages (RankStage name p settles score zero :: rest) request walk =
    let kept := maximal (λ w, score w request) (wk_remaining walk) in
    if any_scores (λ w, score w request) (wk_remaining walk) then
      let after := MkWalk kept (Some name)
        (if (length kept <? length (wk_remaining walk))%nat then Some name else wk_removed walk) in
      if settles then after else run_stages rest request after
    else run_stages rest request (MkWalk kept (wk_decided walk) (wk_removed walk)).
Proof.
  intros Ha Hpos. cbn [run_stages]. rewrite Ha. cbn [negb]. destruct walk as [l decided removed]. cbn [wk_remaining wk_decided wk_removed].
  set (f := λ w, score w request). change (λ worker, score worker request) with f.
  destruct (any_scores f l) eqn:Eany.
  - apply asome_true in Eany as (w0 & Hw0 & Hs0%Z.ltb_lt).
    destruct (best_score (f <$> l)) as [best|] eqn:Eb.
    2:{ apply best_score_None, fmap_nil_inv in Eb. subst l. set_solver. }
    apply best_score_Some in Eb as [(wb & -> & Hwb)%list_elem_of_fmap Hle].
    assert (∀ w, w ∈ l → (f w ≤ f wb)%Z) as Hmax by (intros w Hw; apply Hle, list_elem_of_fmap_2, Hw).
    specialize (Hmax w0 Hw0) as Hpos0. rewrite (proj2 (Z.ltb_lt 0 (f wb))) by lia. cbn [negb].
    assert (Arr.filter (λ worker, (score worker request =? f wb)%Z) l = maximal f l) as ->.
    { apply afilter_ext. intros w Hw. change (score w request) with (f w). apply eq_bool_prop_intro. rewrite !Is_true_true, Z.eqb_eq, aevery_true.
      split; [intros -> w' Hw'; by apply Z.leb_le, Hmax|]. intros Hall. specialize (Hall wb Hwb). apply Z.leb_le in Hall.
      specialize (Hmax w Hw). lia. }
    done.
  - destruct (any_scores_false f l Hpos Eany) as [Heq Hz]. rewrite Heq.
    destruct (best_score (f <$> l)) as [best|] eqn:Eb; [|done].
    apply best_score_Some in Eb as [(wb & -> & Hwb)%list_elem_of_fmap _]. by rewrite (Hz wb Hwb).
Qed.

Lemma maximal_nonempty score (l : list WorkerView) : l ≠ [] → maximal score l ≠ [].
Proof.
  intros Hl. destruct (best_score (score <$> l)) as [b|] eqn:Eb.
  - apply best_score_Some in Eb as [(w & -> & Hw)%list_elem_of_fmap Hle]. intros Hnil.
    assert (w ∈ maximal score l) as Hin; [|rewrite Hnil in Hin; by apply elem_of_nil in Hin].
    apply elem_of_maximal. split; [done|]. intros w' Hw'. apply Hle. by apply list_elem_of_fmap_2.
  - apply best_score_None, fmap_nil_inv in Eb. done.
Qed.
Lemma any_scores_nonempty score (l : list WorkerView) : any_scores score l = true → l ≠ [].
Proof. intros (w & Hw & _)%asome_true ->. by apply elem_of_nil in Hw. Qed.

(** *** The shipped policy *)

Definition fit_filters : list RoutingStage :=
  [takesRequests; hasCapabilities; canServe; hasBaseline; keepsExcept; healthy; idleQueue].
Definition eligible request (w : WorkerView) : bool := passes fit_filters request w.
Definition warm request (w : WorkerView) : bool := (0 <? warmHit_score w request)%Z.
Definition roomy request (w : WorkerView) : bool := freeSlot_check w request === None.
Definition merits request (w : WorkerView) : Z * Z * Z :=
  (memoryPressure_score w request, ramBudget_score w request, freeCapacity_score w request).
(** At most as good, the first difference deciding. *)
Definition at_most (a b : Z * Z * Z) : Prop :=
  let '(a1, a2, a3) := a in
  let '(b1, b2, b3) := b in
  (a1 < b1 ∨ (a1 = b1 ∧ (a2 < b2 ∨ (a2 = b2 ∧ a3 ≤ b3))))%Z.

Lemma warmHit_nonneg request w : (0 ≤ warmHit_score w request)%Z.
Proof. unfold warmHit_score. by repeat case_match. Qed.
Lemma memoryPressure_nonneg request w : (0 ≤ memoryPressure_score w request)%Z.
Proof. unfold memoryPressure_score. by case_match. Qed.
Lemma ramBudget_nonneg request w : (0 ≤ ramBudget_score w request)%Z.
Proof. unfold ramBudget_score. by case_match. Qed.
Lemma freeCapacity_nonneg request w : (0 ≤ freeCapacity_score w request)%Z.
Proof. unfold freeCapacity_score. case_match; lia. Qed.

(** What is left when the three ranks have run. *)
Definition best_merits request (l : list WorkerView) : list WorkerView :=
  maximal (λ w, freeCapacity_score w request) (maximal (λ w, ramBudget_score w request)
    (maximal (λ w, memoryPressure_score w request) l)).
Lemma elem_of_best_merits request l w : w ∈ best_merits request l ↔
  w ∈ l ∧ ∀ w', w' ∈ l → at_most (merits request w') (merits request w).
Proof.
  unfold best_merits. rewrite !elem_of_maximal. setoid_rewrite elem_of_maximal. setoid_rewrite elem_of_maximal.
  unfold at_most, merits. split.
  - intros [[[Hl H1] H2] H3]. split; [done|]. intros w' Hw'. pose proof (H1 _ Hw') as Hle1.
    destruct (Z.eq_dec (memoryPressure_score w' request) (memoryPressure_score w request)) as [E1|?]; [|lia].
    assert (∀ w2, w2 ∈ l → (memoryPressure_score w2 request ≤ memoryPressure_score w' request)%Z) as Hm1
      by (intros w2 Hw2; rewrite E1; auto).
    pose proof (H2 w' (conj Hw' Hm1)) as Hle2.
    destruct (Z.eq_dec (ramBudget_score w' request) (ramBudget_score w request)) as [E2|?]; [|lia].
    right; split; [done|]; right; split; [done|]. apply H3. split; [done|]. intros w2 Hw2. rewrite E2. by apply H2.
  - intros [Hl Hall]. split; [split; [split; [done|]|]|].
    + intros w' Hw'. specialize (Hall w' Hw'). lia.
    + intros w' [Hw' Hm]. specialize (Hall w' Hw'). specialize (Hm w Hl). lia.
    + intros w' [[Hw' Hm1] Hm2]. pose proof (Hall w' Hw') as Hle. specialize (Hm1 w Hl).
      assert (∀ w2, w2 ∈ l → (memoryPressure_score w2 request ≤ memoryPressure_score w request)%Z) as Hm
        by (intros w2 Hw2; specialize (Hall w2 Hw2); lia).
      specialize (Hm2 w (conj Hl Hm)). lia.
Qed.

Lemma applies_virtual request stage : t_physical request ≠ Some true → applies request stage = true.
Proof. intros Hp. unfold applies. by rewrite bool_decide_false. Qed.
Lemma applies_physical request stage : t_physical request = Some true → applies request stage = stage_physical stage.
Proof. intros Hp. unfold applies. by rewrite bool_decide_true. Qed.

(** The stages up to the warm rank. *)
Lemma run_to_warm request workers :
  let l := Arr.filter (eligible request) (by_worker_id workers) in
  run_stages warm_then_free request (MkWalk (by_worker_id workers) None None) =
    if any_scores (λ w, warmHit_score w request) l
    then MkWalk (maximal (λ w, warmHit_score w request) l) (Some warmHit_name)
           (if (length (maximal (λ w, warmHit_score w request) l) <? length l)%nat then Some warmHit_name else None)
    else run_stages [freeSlot; memoryPressure; ramBudget; freeCapacity] request (MkWalk l None None).
Proof.
  intros l. change warm_then_free with (fit_filters ++ [warmHit; freeSlot; memoryPressure; ramBudget; freeCapacity]).
  rewrite run_filters by repeat constructor. cbn [wk_remaining wk_decided wk_removed].
  change (Arr.filter (passes fit_filters request) (by_worker_id workers)) with l.
  unfold warmHit at 1. rewrite run_rank; [|unfold applies; cbn; by rewrite orb_true_r|intros; apply warmHit_nonneg].
  cbn [wk_remaining wk_decided wk_removed]. cbv zeta. destruct (any_scores _ l) eqn:Ea; [reflexivity|].
  by destruct (any_scores_false _ l (warmHit_nonneg request) Ea) as [-> _].
Qed.

Lemma run_after_warm_physical request walk : t_physical request = Some true →
  run_stages [freeSlot; memoryPressure; ramBudget; freeCapacity] request walk = walk.
Proof. intros Hp. cbn. by rewrite !applies_physical by done. Qed.

(** A run of ranks that do not settle. *)
Definition stage_score (s : RoutingStage) : WorkerView → RoutableRequest → Z :=
  match s with RankStage _ _ _ score _ => score | FilterStage _ _ => λ _ _, 0%Z end.
Definition stage_name (s : RoutingStage) : string :=
  match s with RankStage name _ _ _ _ => name | FilterStage _ _ => "" end.
Definition plain_rank request (s : RoutingStage) : Prop :=
  match s with RankStage _ _ settles _ _ => settles = false | FilterStage _ _ => False end ∧
  applies request s = true ∧ ∀ w, (0 ≤ stage_score s w request)%Z.

Lemma run_ranks ranks request walk : Forall (plain_rank request) ranks →
  let walk' := run_stages ranks request walk in
  wk_remaining walk' = foldl (λ l s, maximal (λ w, stage_score s w request) l) (wk_remaining walk) ranks ∧
  (wk_decided walk' = None ↔ wk_decided walk = None ∧
    ∀ s w, s ∈ ranks → w ∈ wk_remaining walk → stage_score s w request = 0%Z) ∧
  (∀ name, wk_decided walk' = Some name ∨ wk_removed walk' = Some name →
    wk_decided walk = Some name ∨ wk_removed walk = Some name ∨ name ∈ stage_name <$> ranks).
Proof.
  intros Hr. revert walk. induction Hr as [|stage ranks [Hs [Ha Hp]] Hr IH]; intros walk walk'; unfold walk'.
  { cbn. split_and!; [done| |naive_solver]. split; [|tauto]. intros ?. split; [done|]. intros ?? []%elem_of_nil. }
  destruct stage as [|name p settles score zero]; [done|]. subst settles. rewrite run_rank by done. cbn zeta.
  change (λ w, score w request) with (λ w, stage_score (RankStage name p false score zero) w request).
  set (stage := RankStage name p false score zero) in *. set (f := λ w, stage_score stage w request).
  destruct (any_scores f (wk_remaining walk)) eqn:Eany.
  - set (after := MkWalk _ _ _). destruct (IH after) as (H1 & H2 & H3). split_and!; [done| |].
    + rewrite H2. cbn. split; [by intros [? _]|]. intros [_ Hz]. exfalso.
      apply asome_true in Eany as (w & Hw & Hlt%Z.ltb_lt). specialize (Hz stage w ltac:(by left) Hw). unfold f in Hlt. lia.
    + intros name' Hn. apply H3 in Hn as [Hn|[Hn|Hn]].
      * cbn in Hn. injection Hn as <-. right; right. by left.
      * cbn in Hn. case_match; [injection Hn as <-; right; right; by left|auto].
      * right; right. by right.
  - destruct (any_scores_false f (wk_remaining walk) Hp Eany) as [Heq Hz]. rewrite Heq.
    destruct (IH (MkWalk (wk_remaining walk) (wk_decided walk) (wk_removed walk))) as (H1 & H2 & H3). split_and!.
    + cbn [foldl]. fold f. rewrite Heq. done.
    + rewrite H2. cbn. setoid_rewrite elem_of_cons. split; intros [Hd Hall]; (split; [done|]).
      * intros s w [->|Hin] Hw; [by apply Hz|by apply Hall].
      * intros s w Hin Hw. apply Hall; auto.
    + intros name' Hn. apply H3 in Hn as [Hn|[Hn|Hn]]; auto. right; right. by right.
Qed.

Lemma run_after_warm_virtual request l : t_physical request ≠ Some true →
  let roomy_ones := Arr.filter (roomy request) l in
  let walk := run_stages [freeSlot; memoryPressure; ramBudget; freeCapacity] request (MkWalk l None None) in
  wk_remaining walk = best_merits request roomy_ones ∧
  (wk_decided walk = None ↔ ∀ w, w ∈ roomy_ones → merits request w = (0, 0, 0)%Z) ∧
  (∀ name, wk_decided walk = Some name ∨ wk_removed walk = Some name → name ≠ warmHit_name).
Proof.
  intros Hv roomy_ones walk. unfold walk.
  change [freeSlot; memoryPressure; ramBudget; freeCapacity] with ([freeSlot] ++ [memoryPressure; ramBudget; freeCapacity]).
  rewrite run_filters by repeat constructor. cbn [wk_remaining wk_decided wk_removed].
  assert (Arr.filter (passes [freeSlot] request) l = roomy_ones) as ->.
  { apply afilter_ext. intros w _. unfold passes, roomy. cbn. rewrite applies_virtual by done. cbn. by rewrite andb_true_r. }
  destruct (run_ranks [memoryPressure; ramBudget; freeCapacity] request (MkWalk roomy_ones None None)) as (H1 & H2 & H3).
  { repeat constructor; try (by apply applies_virtual).
    - apply memoryPressure_nonneg.
    - apply ramBudget_nonneg.
    - apply freeCapacity_nonneg. }
  split_and!; [exact H1| |].
  - rewrite H2. cbn. unfold merits. split.
    + intros [_ Hz] w Hw. f_equal; [f_equal|]; [apply (Hz memoryPressure w)|apply (Hz ramBudget w)|apply (Hz freeCapacity w)];
        rewrite ?elem_of_cons; auto.
    + intros Hz. split; [done|]. intros s w Hs Hw. specialize (Hz w Hw). injection Hz as ???.
      rewrite !elem_of_cons, elem_of_nil in Hs. by destruct Hs as [->|[->|[->|[]]]].
  - intros name [Hn|[Hn|Hn]]%H3; [done..|]. cbn in Hn. intros ->. rewrite !elem_of_cons, elem_of_nil in Hn.
    by destruct Hn as [?|[?|[?|[]]]].
Qed.
End walks.

Lemma StronglySorted_sublist {A} (R : A → A → Prop) l k : sublist l k → StronglySorted R k → StronglySorted R l.
Proof.
  induction 1 as [|x l k Hs IH|x l k Hs IH]; intros Hk; [done|..]; apply StronglySorted_inv in Hk as [Hk Hx].
  - constructor; [by apply IH|]. rewrite Forall_forall in *. intros y Hy. apply Hx. by eapply sublist_elem_of.
  - by apply IH.
Qed.

Section policy_facts.
Context `{LocaleCompareLaws}.
Implicit Types (request : RoutableRequest) (workers : list WorkerView).

#[local] Instance by_id_comparator : Comparator (λ left right, localeCompare (wv_id left) (wv_id right)).
Proof. split; intros; [apply cmp_total|by eapply cmp_trans]. Qed.

(** The first of what filters left of the workers in order comes before the rest. *)
Lemma head_least workers (l : list WorkerView) w : sublist l (by_worker_id workers) →
  head l = Some w → ∀ w', w' ∈ l → (localeCompare (wv_id w) (wv_id w') ≤ 0)%Z.
Proof.
  intros Hsub Hh w' Hw'.
  assert (StronglySorted (λ a b, localeCompare (wv_id a) (wv_id b) ≤ 0)%Z l) as Hs.
  { eapply StronglySorted_sublist; [exact Hsub|]. apply (sort_by_sorted _). }
  destruct l as [|x l]; [done|]. injection Hh as ->. apply elem_of_cons in Hw' as [->|Hw'].
  - destruct (cmp_total (cmp := localeCompare) (wv_id w) (wv_id w)); lia.
  - apply StronglySorted_inv in Hs as [_ Hs]. rewrite Forall_forall in Hs. by apply Hs.
Qed.
Lemma maximal_sublist score (l : list WorkerView) : sublist (maximal score l) l.
Proof. apply sublist_filter_b. Qed.
Lemma elem_of_by_worker_id workers w : w ∈ by_worker_id workers ↔ w ∈ workers.
Proof. apply elem_of_sort_by. Qed.
Lemma elem_of_routable request workers w :
  w ∈ Arr.filter (eligible request) (by_worker_id workers) ↔ w ∈ workers ∧ eligible request w = true.
Proof. by rewrite elem_of_afilter, elem_of_by_worker_id. Qed.

Lemma select_walk stages request workers :
  let walk := run_stages stages request (MkWalk (by_worker_id workers) None None) in
  select stages request workers =
    match wk_decided walk, head (wk_remaining walk) with
    | Some decided, Some w =>
        let stage := default decided (wk_removed walk) in
        Some (MkDecision (wv_id w) (if stage === warmHit_name then routed_warm_hit else routed_free_capacity) stage)
    | _, _ => None
    end.
Proof.
  unfold select, runStages. set (walk := run_stages _ _ _). by destruct (wk_decided walk), (head (wk_remaining walk)).
Qed.

Lemma select_warm request workers :
  let l := Arr.filter (eligible request) (by_worker_id workers) in
  any_scores (λ w, warmHit_score w request) l = true →
  ∃ w, select warm_then_free request workers = Some (MkDecision (wv_id w) routed_warm_hit warmHit_name) ∧
    w ∈ workers ∧ eligible request w = true ∧ warm request w = true ∧
    ∀ w', w' ∈ workers → eligible request w' = true → warm request w' = true →
      (localeCompare (wv_id w) (wv_id w') ≤ 0)%Z.
Proof.
  intros l Hany. rewrite select_walk, run_to_warm. fold l. rewrite Hany. cbn [wk_decided wk_remaining wk_removed].
  set (k := maximal (λ w, warmHit_score w request) l).
  destruct (head k) as [w|] eqn:Eh.
  2:{ destruct k eqn:Ek; [|done]. exfalso. by apply (maximal_nonempty (λ w, warmHit_score w request) l); [eapply any_scores_nonempty|]. }
  exists w. split; [by destruct (_ <? _)%nat|].
  assert (w ∈ k) as Hwk by (destruct k; [done|]; injection Eh as ->; by left).
  pose proof Hwk as [[Hw He]%elem_of_routable Hmax]%elem_of_maximal.
  pose proof Hany as (w0 & Hw0 & Hs0%Z.ltb_lt)%asome_true. pose proof (Hmax _ Hw0) as Hle.
  split_and!; [done..|apply Z.ltb_lt; lia|].
  intros w' Hw' He' Hwarm%Z.ltb_lt. apply (head_least workers k w); [|done|].
  - etrans; [apply maximal_sublist|apply sublist_filter_b].
  - apply elem_of_maximal. split; [by apply elem_of_routable|]. intros w2 Hw2.
    assert (∀ w, warmHit_score w request ≤ 1)%Z as H1 by (intros ?; unfold warmHit_score; repeat case_match; lia).
    specialize (H1 w2). lia.
Qed.
End policy_facts.

(** C21. The routing policy sends a request to the worker it promises. When it picks a worker, that worker
    passes every filter the request needs; a pick for a warm device is, of the eligible workers with
    one, the first by id; a pick for free capacity is made only when no eligible worker is warm, has
    room, and no eligible worker with room is better in the order of memory pressure, RAM budget and
    free slots, the first by id of equals. When it picks none, no eligible worker is warm, and each
    with room is paused by memory pressure, at its RAM budget, and without a free slot, all three. *)
Theorem routing_picks_the_best `{LocaleCompareLaws} request workers :
  match select warm_then_free request workers with
  | Some d => ∃ w, w ∈ workers ∧ wv_id w = dn_workerId d ∧ eligible request w = true ∧
      match dn_reason d with
      | routed_warm_hit => warm request w = true ∧
          ∀ w', w' ∈ workers → eligible request w' = true → warm request w' = true →
            (localeCompare (wv_id w) (wv_id w') ≤ 0)%Z
      | routed_free_capacity => t_physical request ≠ Some true ∧ roomy request w = true ∧
          ∀ w', w' ∈ workers → eligible request w' = true → warm request w' = false ∧
            (roomy request w' = true → at_most (merits request w') (merits request w) ∧
               (merits request w' = merits request w → localeCompare (wv_id w) (wv_id w') ≤ 0)%Z)
      end
  | None => ∀ w, w ∈ workers → eligible request w = true → warm request w = false ∧
      (t_physical request ≠ Some true → roomy request w = true → merits request w = (0, 0, 0)%Z)
  end.
Proof.
  set (l := Arr.filter (eligible request) (by_worker_id workers)).
  destruct (any_scores (λ w, warmHit_score w request) l) eqn:Eany.
  { destruct (select_warm request workers Eany) as (w & -> & ? & ? & ? & ?). by exists w. }
  destruct (any_scores_false _ l (warmHit_nonneg request) Eany) as [_ Hcold].
  assert (∀ w', w' ∈ workers → eligible request w' = true → warm request w' = false) as Hno.
  { intros w' Hw' He'. unfold warm. by rewrite (Hcold w') by (by apply elem_of_routable). }
  rewrite select_walk, run_to_warm. fold l. rewrite Eany.
  destruct (decide (t_physical request = Some true)) as [Hp|Hv].
  { rewrite run_after_warm_physical by done. cbn [wk_decided]. intros w Hw He. split; [by apply Hno|done]. }
  destruct (run_after_warm_virtual request l Hv) as (Hrem & Hdec & Hname).
  set (walk := run_stages _ _ _) in *. set (k := Arr.filter (roomy request) l) in *.
  destruct (wk_decided walk) as [decided|] eqn:Ed.
  - destruct (head (wk_remaining walk)) as [w|] eqn:Eh.
    + cbn zeta. rewrite bool_decide_false.
      2:{ destruct (wk_removed walk) eqn:Er; apply Hname; auto. }
      rewrite Hrem in Eh. assert (w ∈ best_merits request k) as Hin.
      { destruct (best_merits request k); [done|]. injection Eh as ->. by left. }
      pose proof Hin as [[Hl Hroom]%elem_of_afilter Hbest]%elem_of_best_merits. apply elem_of_routable in Hl as [Hw He].
      exists w. cbn [dn_reason dn_workerId]. split_and!; [done..|]. intros w' Hw' He'. split; [by apply Hno|]. intros Hr'.
      assert (w' ∈ k) as Hk' by (apply elem_of_afilter; split; [by apply elem_of_routable|done]).
      split; [by apply Hbest|]. intros Heq. apply (head_least workers (best_merits request k) w); [|done|].
      * unfold best_merits. do 3 (etrans; [apply maximal_sublist|]). etrans; [apply sublist_filter_b|apply sublist_filter_b].
      * apply elem_of_best_merits. rewrite Heq. by split.
    + exfalso. destruct (wk_remaining walk) eqn:Erem; [|done]. destruct k as [|w0 k0] eqn:Ek.
      * assert (Some decided = None) as [=]. apply Hdec. by intros w ?%elem_of_nil.
      * unfold best_merits in Hrem. symmetry in Hrem. revert Hrem. do 3 apply maximal_nonempty. done.
  - intros w Hw He. split; [by apply Hno|]. intros _ Hr. apply Hdec; [done|]. apply elem_of_afilter.
    split; [by apply elem_of_routable|done].
Qed.

(** ** The table and the stages agree *)

Section serviceable.
Context `{LocaleCompareLaws}.
Implicit Types (request : RoutableRequest) (views : list WorkerView) (w : WorkerView).

(** A worker that passes what the table asks for a request that needs no phone. *)
Record serviceable request w : Prop := {
  sv_takes : takesRequests_check w request = None;
  sv_capable : hasCapabilities_check w request = None;
  sv_serves : serves request w = true;
  sv_baseline : hasBaseline_check w request = None;
  sv_except : keepsExcept_check w request = None }.

Lemma eligible_serviceable request w : t_physical request ≠ Some true → eligible request w = true → serviceable request w.
Proof.
  intros Hv He. assert (∀ s check, s ∈ fit_filters → (∃ p, s = FilterStage p check) → check w request = None) as Hall.
  { intros s check Hs [p ->]. unfold eligible, passes in He. apply (proj1 (aevery_true _ _)) with (x := FilterStage p check) in He; [|done].
    rewrite applies_virtual in He by done. cbn in He. by apply bool_decide_eq_true in He. }
  assert (canServe_check w request = None) as Hc by (apply (Hall canServe); [unfold fit_filters; set_solver|by eexists]).
  split; [apply (Hall takesRequests)|apply (Hall hasCapabilities)| |apply (Hall hasBaseline)|apply (Hall keepsExcept)];
    try (unfold fit_filters; set_solver); try (by eexists).
  unfold canServe_check in Hc. rewrite bool_decide_false in Hc by done. destruct (serves_truthy w request) eqn:Es.
  - unfold serves, serves_truthy in *. by destruct (matchRequest w request).
  - destruct (negb _); [done|]. by destruct (false || _).
Qed.

Lemma elem_nonnil {A} (x : A) l : x ∈ l → l ≠ [].
Proof. by intros Hx ->; apply elem_of_nil in Hx. Qed.

Lemma serviceable_taker request w views : serviceable request w → w ∈ views → w ∈ takersOf request views.
Proof. intros [Ht _ _ _ _] Hw. apply elem_of_afilter. by rewrite Ht. Qed.
Lemma serviceable_known request w : serviceable request w → isKnown w = true.
Proof. intros [Ht _ _ _ _]. unfold isKnown. unfold takesRequests_check in Ht. by destruct (wv_connection w). Qed.

Lemma withBaseline_platform w request : t_platform (withBaseline w request) = t_platform request.
Proof. unfold withBaseline. by destruct (baselineEntry w request). Qed.
Lemma catalogOf_platform w request request' : t_platform request' = t_platform request → catalogOf w request' = catalogOf w request.
Proof. intros Hp. unfold catalogOf. by rewrite Hp. Qed.

Lemma serves_lists request w : serves request w = true → hasPlatform w request = true ∧ listsModel w request = true.
Proof.
  unfold serves, matchRequest, hasPlatform, listsModel. case_bool_decide; [done|].
  rewrite (catalogOf_platform w request _ (withBaseline_platform w request)).
  destruct (catalogOf w request) as [c|] eqn:Ec; [|done]. cbn [mbind option_bind].
  destruct (servingModel _ _) as [m|] eqn:Em; [|done]. intros _.
  apply afind_Some in Em as [Hm _]. split; [|apply negb_true_iff, bool_decide_eq_false; by eapply elem_nonnil].
  apply negb_true_iff, bool_decide_eq_false. done.
Qed.

Lemma leading_passes request w views : t_physical request ≠ Some true → serviceable request w → w ∈ views →
  assessLeading request views = None.
Proof.
  intros Hv Hs Hw. unfold assessLeading.
  pose proof (elem_nonnil _ _ (serviceable_taker _ _ _ Hs Hw)) as Hne. destruct (takersOf request views); [done|].
  assert (w ∈ Arr.filter isKnown views) as Hk by (apply elem_of_afilter; split; [done|by eapply serviceable_known]).
  pose proof (sv_serves _ _ Hs) as Hsv. destruct (serves_lists _ _ Hsv) as [Hp Hl].
  rewrite (proj2 (asome_true (λ w, hasPlatform w request) _)) by eauto. cbn [negb]. rewrite bool_decide_false by done.
  rewrite (proj2 (asome_true (λ w, listsModel w request) _)) by eauto. cbn [negb].
  by rewrite (proj2 (asome_true (serves request) _)) by eauto.
Qed.
Lemma serving_passes request w views : t_physical request ≠ Some true → serviceable request w → w ∈ views →
  assessServing request views = None.
Proof.
  intros Hv Hs Hw. unfold assessServing. rewrite bool_decide_false by done.
  rewrite (proj2 (asome_true (serves request) _)); [done|]. exists w. split; [by apply serviceable_taker|apply Hs].
Qed.
Lemma fleet_passes request w views : t_physical request ≠ Some true → serviceable request w → w ∈ views →
  assessFleet request views = RouteOrWait.
Proof.
  intros Hv Hs Hw. unfold assessFleet. rewrite (leading_passes _ w) by done.
  assert (assessExcept request views = None) as ->.
  { unfold assessExcept. destruct (t_except request) eqn:Ee; [|done]. rewrite (serving_passes _ w); [done..|].
    apply elem_of_afilter. split; [done|]. apply bool_decide_eq_true, Hs. }
  rewrite (serving_passes _ w) by done. destruct (t_requires request) as [[|name names]|]; [done| |done].
  set (capable := Arr.filter _ views). assert (w ∈ capable) as Hc.
  { apply elem_of_afilter. split; [done|]. apply bool_decide_eq_true, Hs. }
  unfold assessTable. by rewrite (leading_passes _ w), (serving_passes _ w).
Qed.

Lemma holders_pass request w views name : t_baseline request = Some name → serviceable request w → w ∈ views →
  ∃ holders, baselineHolders request views = Ok holders ∧ w ∈ holders.
Proof.
  intros Hb Hs Hw. pose proof (sv_baseline _ _ Hs) as Hck. unfold hasBaseline_check in Hck.
  rewrite bool_decide_false in Hck by congruence. destruct (baselineEntry w request) as [entry|] eqn:Ee; [|done].
  destruct (baselineMismatchOf w request) as [?|] eqn:Em; [done|]. case_bool_decide as Est; [|done].
  unfold baselineHolders. set (holders := by_worker_id _). assert (w ∈ holders) as Hh.
  { apply elem_of_by_worker_id, elem_of_afilter. split; [done|]. by rewrite (serviceable_known _ _ Hs), Ee. }
  pose proof (elem_nonnil _ _ Hh). destruct holders as [|h hs] eqn:Eh; [done|]. rewrite <- Eh in *. cbn zeta.
  set (fitting := Arr.filter _ holders). assert (w ∈ fitting) as Hf by (apply elem_of_afilter; by rewrite Em).
  set (fresh := Arr.filter _ fitting).
  assert (w ∈ fresh) as Hfr by (apply elem_of_afilter; rewrite Ee; cbn; by rewrite Est).
  pose proof (elem_nonnil _ _ Hf). pose proof (elem_nonnil _ _ Hfr).
  exists fresh. split; [|done]. destruct fitting as [|f fs]; [done|]. by destruct fresh.
Qed.

Lemma select_eligible request workers d : t_physical request ≠ Some true → select warm_then_free request workers = Some d →
  ∃ w, w ∈ workers ∧ eligible request w = true.
Proof.
  intros Hv. rewrite select_walk, run_to_warm. set (l := Arr.filter (eligible request) (by_worker_id workers)).
  intros Hsel. assert (∃ w, w ∈ l) as [w [Hw He]%elem_of_routable]; [|eauto].
  destruct (any_scores _ l) eqn:Ea; [apply asome_true in Ea as (w & ? & _); eauto|].
  destruct (run_after_warm_virtual request l Hv) as (Hrem & _ & _). set (walk := run_stages _ _ _) in *.
  destruct (wk_decided walk); [|done]. rewrite Hrem in Hsel.
  destruct (best_merits request (Arr.filter (roomy request) l)) as [|w k] eqn:Eb; [done|].
  assert (w ∈ best_merits request (Arr.filter (roomy request) l)) as [[Hw _]%elem_of_afilter _]%elem_of_best_merits
    by (rewrite Eb; by left). eauto.
Qed.
End serviceable.

(** C22. The table that fails a request at once never fails one the policy would send: whenever the stages
    pick a worker for a request for a simulator or emulator, whatever it names, the table lets it
    pass. A request the table refuses could not have been served by any of the workers it was shown. *)
Theorem routable_request_not_refused `{LocaleCompareLaws} request workers d :
  t_physical request ≠ Some true → select warm_then_free request workers = Some d →
  assess request workers = RouteOrWait.
Proof.
  intros Hv Hsel. destruct (select_eligible _ _ _ Hv Hsel) as (w & Hw & He).
  pose proof (eligible_serviceable _ _ Hv He) as Hs. unfold assess. destruct (t_baseline request) as [name|] eqn:Eb.
  - destruct (holders_pass _ _ _ _ Eb Hs Hw) as (holders & -> & Hh). by eapply fleet_passes.
  - by eapply fleet_passes.
Qed.

Module RoutingSamples.
Definition catalog : DriverCatalogEntry :=
  MkCatalog ["iPhone 16"] ["26.5"] None {["iPhone 16" := ["26.5"]]} ∅ {["iPhone 16" := phone]} None.
Definition capacity (used warm : Z) (at_budget : bool) (step : MemoryStep) : StatusCapacity :=
  MkStatusCapacity (MkPlatformCapacity (MkRunning used 2 0 warm) at_budget) (MkPlatformCapacity (MkRunning 0 2 0 0) false)
    (MkRunning used 4 0 warm) (Some step).
Definition worker (id : string) (c : StatusCapacity) : WorkerView :=
  (no_view id) <| wv_connection := connected_ |> <| wv_health := Some health_running |> <| wv_capacity := Some c |>
    <| wv_catalog := Some [MkPlatformEntry ios catalog None None] |> <| wv_catalogReadAt := Some 1%Z |>
    <| wv_queueDepth := Some 0%Z |> <| wv_devices := Some [] |>.
Definition request : RoutableRequest := MkRoutable ios (Some "iphone 16") None None None None None None None None.
Definition fleet : list WorkerView :=
  [worker "w2" (capacity 0 0 false step_none); worker "w1" (capacity 1 0 false step_none);
   worker "w3" (capacity 0 0 true step_none)].
(** Its two running devices are idle, so it has room, but it is paused and at its budget. *)
Definition strained : list WorkerView := [worker "w1" (capacity 2 2 true step_new_devices_paused)].
End RoutingSamples.

Lemma routing_picks_the_best_witness :
  ∃ w, w ∈ RoutingSamples.fleet ∧ wv_id w = "w2" ∧ eligible RoutingSamples.request w = true ∧
    roomy RoutingSamples.request w = true.
Proof.
  pose proof (routing_picks_the_best (H := codepoint_compare) (H0 := Codepoint.laws) RoutingSamples.request RoutingSamples.fleet) as Hp.
  assert (select (H := codepoint_compare) warm_then_free RoutingSamples.request RoutingSamples.fleet =
    Some (MkDecision "w2" routed_free_capacity "free-capacity")) as E by (vm_compute; reflexivity).
  rewrite E in Hp. destruct Hp as (w & Hw & Hid & He & _ & Hr & _). exists w. auto.
Defined.

Lemma routable_request_not_refused_witness :
  assess (H := codepoint_compare) RoutingSamples.request RoutingSamples.fleet = RouteOrWait.
Proof.
  apply (routable_request_not_refused (H := codepoint_compare) (H0 := Codepoint.laws) RoutingSamples.request
    RoutingSamples.fleet (MkDecision "w2" routed_free_capacity "free-capacity")).
  - discriminate.
  - vm_compute. reflexivity.
Defined.

(** A worker that is the only one, passes every filter and could make room is still not asked when
    memory pressure, the RAM budget and the free slots all rank it at zero. *)
Example strained_worker_not_asked :
  select (H := codepoint_compare) warm_then_free RoutingSamples.request RoutingSamples.strained = None ∧
  assess (H := codepoint_compare) RoutingSamples.request RoutingSamples.strained = RouteOrWait ∧
  Arr.every (λ w, eligible RoutingSamples.request w && roomy RoutingSamples.request w) RoutingSamples.strained = true.
Proof. split_and!; vm_compute; reflexivity. Qed.
