(* ===== verification/Fleet.v ===== *)
(** * The fleet's lease coordinator: [src/gateway/fleet-coordinator.ts],
    [src/gateway/fleet-refusals.ts], [src/gateway/routing/view-state.ts] and the lease half of
    [src/gateway/fleet-forwarding.ts]

    A gateway admits a request, walks its queue over the workers' views, and forwards each request a
    worker is picked for. A worker grants it or refuses it at once; a refusal is remembered until
    the worker's view changes, and the request waits or is walked again. A forwarded call that is
    out is an [Attempt]; the code between two awaits is one section here. No code a pass runs
    dispatches again, so the guard against that ([#dispatchDepth], [#passRequested]) is left out,
    and so are log lines. *)
From Stdlib Require Import Ascii.
From stdpp Require Import base strings list option numbers gmap sets.
From S2P Require Import Prelude JsString Domain Devices WaitQueue Ordered FleetIndex FleetViews Routing.

(** ** The routing policy, as the coordinator uses it *)

Class RoutingPolicy := {
  policy_assess : RoutableRequest → list WorkerView → Assessment;
  policy_select : RoutableRequest → list WorkerView → option RoutingDecision;
  policy_explain : RoutableRequest → list WorkerView → list WorkerExplanation }.
Class RoutingPolicyLaws `{RoutingPolicy} : Prop :=
  policy_picks request workers d : policy_select request workers = Some d →
    ∃ w, w ∈ workers ∧ wv_id w = dn_workerId d.

(** [composeRoutingPolicy] of [routing.ts]. *)
Definition composeRoutingPolicy `{LocaleCompare} (stages : list RoutingStage) : RoutingPolicy :=
  {| policy_assess := assess; policy_select := select stages; policy_explain := explain stages |}.

(** ** Errors and what is remembered of a worker's answer *)

Inductive ErrorDetails :=
| NoDetails
| RejectedDetails (details : RejectionDetails)
| WorkerDetails (workerId : string)
| LeaseDetails (leaseId : string)
| RelayedDetails (details : opaque).
Record DispatchError := MkDispatchError { de_code : string; de_message : string; de_details : ErrorDetails }.

(** What a forwarded call fails with: an error of the contract, this gateway's own error (its timer),
    or anything else. [se_capacityReason] is the [capacityReason] of the details when it is text. *)
Inductive AttemptError :=
| SimlockError (code message : string) (transport : bool) (capacityReason : option string) (details : opaque)
| OwnError (error : DispatchError)
| UnexpectedError.

Definition classifyRelayedError (code message : string) (transport : bool) (details : opaque) (workerId : string)
    : DispatchError :=
  if transport then MkDispatchError "WORKER_UNREACHABLE" message (WorkerDetails workerId)
  else MkDispatchError code message (RelayedDetails details).

Definition classifyLeaseRequestError (error : AttemptError) (workerId : string) : DispatchError :=
  match error with
  | OwnError e => e
  | SimlockError code message transport _ details => classifyRelayedError code message transport details workerId
  | UnexpectedError =>
      MkDispatchError "INTERNAL" ("Unexpected error forwarding lease.request to worker " +:+ workerId)
        (WorkerDetails workerId)
  end.

Definition refusedCapacityReason (text : option string) : option CapacityReason :=
  match text with
  | Some "device-limit" => Some device_limit
  | Some "ram-budget" => Some ram_budget
  | Some "memory-pressure" => Some memory_pressure
  | Some "global-running-limit" => Some global_running_limit
  | Some "platform-running-limit" => Some platform_running_limit
  | _ => None
  end.

(** [viewLoadKey]: what a refusal holds for, over the fields of a view the model has. *)
#[global] Instance FittableSpec_eq_dec : EqDecision FittableSpec.
Proof. solve_decision. Defined.
#[global] Instance LatestPresence_eq_dec : EqDecision LatestPresence.
Proof. solve_decision. Defined.
#[global] Instance ViewDevice_eq_dec : EqDecision ViewDevice.
Proof. solve_decision. Defined.
#[global] Instance RunningEntry_eq_dec : EqDecision RunningEntry.
Proof. solve_decision. Defined.
#[global] Instance PlatformCapacity_eq_dec : EqDecision PlatformCapacity.
Proof. solve_decision. Defined.
#[global] Instance StatusCapacity_eq_dec : EqDecision StatusCapacity.
Proof. solve_decision. Defined.
Record LoadKey := MkLoadKey {
  lk_capacity : option StatusCapacity;
  lk_devices : list ViewDevice;
  lk_health : option Health;
  lk_leases : list string;
  lk_physicalQueueDepth : option Z;
  lk_queueDepth : option Z;
  lk_updating : bool }.
#[global] Instance LoadKey_eq_dec : EqDecision LoadKey.
Proof. solve_decision. Defined.
Definition without_age (d : ViewDevice) : ViewDevice :=
  MkViewDevice (vd_id d) (vd_spec d) (vd_state d) (vd_physical d) (vd_mode d) (vd_class d) (vd_servesDefaultMode d)
    (vd_presence d) None.
Definition viewLoadKey (view : WorkerView) : LoadKey :=
  MkLoadKey (wv_capacity view) (without_age <$> default [] (wv_devices view)) (wv_health view)
    ((λ l, r_id (vl_lease l)) <$> default [] (la_leases <$> wv_leases view))
    (wv_physicalQueueDepth view) (wv_queueDepth view) (wv_update view !== None).

Record Refusal := MkRefusalMemo {
  rf_key : LoadKey;
  rf_capacityReason : option CapacityReason;
  rf_provisionFailure : option DispatchError }.
Record WorkerEntry := MkWorkerEntry { we_reason : WorkerReason; we_workerId : string }.

Definition COULD_TAKE_LATER : list WorkerReasonCode := [wr_busy; wr_full; wr_not_ready; wr_unhealthy; wr_updating].
Definition STALE_VIEW_CODES : list string := ["NO_CAPACITY"; "DAEMON_UPDATING"].
Definition CANNOT_SERVE_CODES : list string :=
  ["UNKNOWN_MODEL"; "RUNTIME_MISSING"; "NO_DRIVER"; "CAPABILITY_MISSING"; "UNKNOWN_BASELINE"; "BASELINE_MISMATCH";
   "BASELINE_STALE"].
Definition CANNOT_SERVE_REASONS (code : string) : option WorkerReasonCode :=
  match code with
  | "CAPABILITY_MISSING" => Some wr_capability_missing
  | "NO_DRIVER" => Some wr_no_driver
  | "RUNTIME_MISSING" => Some wr_runtime_missing
  | "UNKNOWN_MODEL" => Some wr_unknown_model
  | "UNKNOWN_BASELINE" => Some wr_no_baseline
  | "BASELINE_MISMATCH" => Some wr_baseline_mismatch
  | "BASELINE_STALE" => Some wr_baseline_stale
  | _ => None
  end.
Definition rejection_code (c : RejectionCode) : string :=
  match c with
  | NO_CAPACITY => "NO_CAPACITY" | NO_DRIVER => "NO_DRIVER" | UNKNOWN_MODEL => "UNKNOWN_MODEL"
  | RUNTIME_MISSING => "RUNTIME_MISSING" | CAPABILITY_MISSING => "CAPABILITY_MISSING"
  | UNKNOWN_BASELINE => "UNKNOWN_BASELINE" | BASELINE_MISMATCH => "BASELINE_MISMATCH"
  | BASELINE_STALE => "BASELINE_STALE" | BAD_REQUEST => "BAD_REQUEST"
  end.

(** ** The coordinator's state *)

(** A forwarded [lease.request] that is out, with what its callbacks close over. *)
Record Attempt := MkAttempt {
  at_waiter : nat;
  at_workerId : string;
  at_decision : RoutingDecision;
  at_announced : bool }.

(** [requestedDevice] of [contract/operations.ts], with the model it is renamed to. *)
Definition requestedDevice (request : DeviceRequest) (rename : option string) : DeviceRequest :=
  MkRequest (rq_platform request) (spread rename (rq_model request)) (rq_osVersion request) (rq_mode request)
    (rq_imageTag request) (rq_except request) (rq_baseline request) (rq_class request)
    (if rq_physical request === Some true then Some true else None).
(** The [lease.request] a worker is sent; each is [noWait] and allows no download. *)
Record ForwardedRequest := MkForwarded {
  fw_device : DeviceRequest;
  fw_requesterId : string;
  fw_owner : string;
  fw_allowDownload : bool;
  fw_noWait : bool;
  fw_ttlMs : option Z;
  fw_leaseId : option string;
  fw_fleetRequestId : string;
  fw_requires : option (list string) }.

Inductive FleetReason :=
| fr_no_worker | fr_unresolvable_spec | fr_no_wait | fr_cancelled | fr_timeout | fr_lease_id_taken | fr_worker_failed
| fr_already_leased.
Inductive FleetEvent :=
| LeaseRequested (requestId requester : string) (request : DeviceRequest) (noWait : bool)
| LeaseQueued (requestId : string) (queuePosition : Z)
| LeaseRejected (requestId requester : string) (request : DeviceRequest) (why : FleetReason)
    (failedOn : option (string * string))
| RequestDispatched (requestId requester : string) (queuedMs : Z) (decision : RoutingDecision)
| RequestGranted (requestId leaseId worker workerLeaseId : string)
| Forwarded (workerId : string) (request : ForwardedRequest)
| ReleasedOnWorker (workerId workerLeaseId : string)
| RefreshAsked (workerId : string) (includeCatalog : bool)
| QueueChanged (depth : Z) (line : QueueLine).

Record Fleet := MkFleet {
  fl_queue : WaitQueue;
  fl_index : FleetLeaseIndex;
  fl_workers : WorkerRegistry;
  fl_live : list string;
  fl_refusals : gmap nat (list (string * Refusal));
  fl_cannotServe : gmap nat (list (string * DispatchError));
  fl_reasons : gmap nat (list WorkerEntry);
  fl_createdAt : gmap nat Z;
  fl_known : list string;
  fl_lastReconciled : gmap string nat;
  fl_admitting : list nat;
  fl_attempts : list Attempt;
  fl_events : list FleetEvent }.
#[export] Instance Fleet_eta : Eta Fleet := λ s,
  MkFleet (fl_queue s) (fl_index s) (fl_workers s) (fl_live s) (fl_refusals s) (fl_cannotServe s) (fl_reasons s)
    (fl_createdAt s) (fl_known s) (fl_lastReconciled s) (fl_admitting s) (fl_attempts s) (fl_events s).

Module Coordinator.
Section coordinator.
Context `{LocaleCompare} `{RoutingPolicy} (gatewayRequesterPrefix : string) (maxPerRequester : option MaxPerRequester)
  (now : Z).
Local Abbreviation op A := (action Fleet QueueError A).
Implicit Types (s : Fleet) (h : nat) (workerId : string).

(** [onDepthChange] and [onTimeout], which the queue calls as it goes. *)
Definition reported (q : WaitQueue) (e : QueueEvent) : option FleetEvent :=
  match e with
  | DepthChanged d line => Some (QueueChanged d line)
  | TimedOut h =>
      w ← store q !! h; Some (LeaseRejected (w_id w) (ro_requesterId (w_options w)) (w_request w) fr_timeout None)
  | _ => None
  end.
Definition on_queue {A} (m : action WaitQueue QueueError A) : op A := λ s,
  let '(q, r) := m (fl_queue s) in
  let seen := drop (length (q_log (fl_queue s))) (q_log q) in
  (s <| fl_queue := q |> <| fl_events := fl_events s ++ omap (reported q) seen |>, r).
Definition emit (e : FleetEvent) : op unit := modify (λ s, s <| fl_events := fl_events s ++ [e] |>).
Definition waiter h : op Waiter := on_queue (mutable h).
Definition routing_views s : list WorkerView := Workers.routingViews (fl_workers s).

(** ** Refusals: [fleet-refusals.ts] *)

Definition refusals_of s h : list (string * Refusal) := default [] (fl_refusals s !! h).
Definition cannot_serve_of s h : list (string * DispatchError) := default [] (fl_cannotServe s !! h).

(** A refusal ends at the first change of the view it was made at. *)
Definition refused h (worker : WorkerView) : op bool :=
  s ← get;
  match Ordered.get (wv_id worker) (refusals_of s h) with
  | None => mret false
  | Some refusal =>
      if rf_key refusal === viewLoadKey worker then mret true
      else
        _ ← modify (λ s, s <| fl_refusals := <[h := Ordered.delete (wv_id worker) (refusals_of s h)]> (fl_refusals s) |>);
        mret false
  end.

Definition rememberCannotServe h workerId (e : DispatchError) : op unit :=
  modify (λ s, s <| fl_cannotServe := <[h := Ordered.set workerId e (cannot_serve_of s h)]> (fl_cannotServe s) |>).

Definition rememberRefusal h workerId (capacityReason : option CapacityReason) (provisionFailure : option DispatchError)
    : op unit :=
  s ← get;
  match Arr.find (λ worker, wv_id worker === workerId) (Workers.views (fl_workers s)) with
  | None => mret tt
  | Some view =>
      let memo := MkRefusalMemo (viewLoadKey view) capacityReason provisionFailure in
      modify (λ s, s <| fl_refusals :=
        <[h := Ordered.set workerId memo (Ordered.delete workerId (refusals_of s h))]> (fl_refusals s) |>)
  end.

Definition cannotServeReason s h workerId : option WorkerReason :=
  e ← Ordered.get workerId (cannot_serve_of s h);
  reason <$> CANNOT_SERVE_REASONS (de_code e).
Definition refusedReason h (view : WorkerView) (zero : option WorkerReason) : op (option WorkerReason) :=
  was ← refused h view;
  if negb was then mret None
  else
    s ← get;
    let refusal := Ordered.get (wv_id view) (refusals_of s h) in
    if (refusal ≫= rf_provisionFailure) is Some _ then mret None
    else mret (Some (MkReason wr_full
      (spread (refusal ≫= rf_capacityReason) (zero ≫= wn_capacityReason)))).
Definition passedOver (claimed : bool) (zero : option WorkerReason) : WorkerReason :=
  match zero with Some z => if claimed then reason wr_not_chosen else z | None => reason wr_not_chosen end.

Definition reasonFor h (view : WorkerView) (entry : option WorkerExplanation) (claimed : string → bool)
    (unreachable : option string) : op WorkerReason :=
  match entry ≫= ex_filter with
  | Some filter => mret filter
  | None =>
      if unreachable === Some (wv_id view) then mret (reason wr_disconnected)
      else
        s ← get;
        match cannotServeReason s h (wv_id view) with
        | Some r => mret r
        | None =>
            r ← refusedReason h view (entry ≫= ex_zero);
            mret (default (passedOver (claimed (wv_id view)) (entry ≫= ex_zero)) r)
        end
  end.
Fixpoint reasons_for h (explained : list WorkerExplanation) (claimed : string → bool) (unreachable : option string)
    (views : list WorkerView) : op (list WorkerEntry) :=
  match views with
  | [] => mret []
  | view :: views =>
      let entry := last (Arr.filter (λ e, ex_workerId e === wv_id view) explained) in
      r ← reasonFor h view entry claimed unreachable;
      rest ← reasons_for h explained claimed unreachable views;
      mret (MkWorkerEntry r (wv_id view) :: rest)
  end.
Definition reasonsFor h (request : RoutableRequest) (views : list WorkerView) (claimed : string → bool)
    (unreachable : option string) : op (list WorkerEntry) :=
  reasons_for h (policy_explain request views) claimed unreachable views.

(** ** Settling and queueing *)

Definition emitRejected h (why : FleetReason) (failedOn : option (string * string)) : op unit :=
  w ← waiter h;
  emit (LeaseRejected (w_id w) (ro_requesterId (w_options w)) (w_request w) why failedOn).
Definition reject_waiter h (e : WaitError) (why : FleetReason) (failedOn : option (string * string)) : op unit :=
  rejected ← on_queue (reject h e);
  if rejected : bool then emitRejected h why failedOn else mret tt.
Definition failed_with (e : DispatchError) : WaitError := DispatchFailed (de_code e) (de_message e).

Definition enqueue_waiter h : op unit :=
  alreadyQueued ← on_queue (isQueued h);
  enqueued ← on_queue (enqueue now h None);
  if (enqueued : bool) && negb alreadyQueued then
    s ← get;
    w ← waiter h;
    let position := match lineOf (w_request w) with
                    | line_physical => physicalDepth (fl_queue s) | line_virtual => depth (fl_queue s) end in
    emit (LeaseQueued (w_id w) position)
  else mret tt.

Definition refreshView workerId (includeCatalog : bool) : op unit := emit (RefreshAsked workerId includeCatalog).

Definition routable (w : Waiter) : RoutableRequest :=
  let request := w_request w in
  MkRoutable (rq_platform request) (rq_model request) (rq_class request) (rq_osVersion request) (rq_imageTag request)
    (rq_mode request) (match lineOf request with line_physical => Some true | line_virtual => None end)
    (rq_baseline request) (ro_requires (w_options w)) (rq_except request).

Definition staleView h workerId (unreachable : bool) : op unit :=
  w ← waiter h;
  s ← get;
  entries ← reasonsFor h (routable w) (routing_views s) (λ _, false) (if unreachable then Some workerId else None);
  _ ← modify (λ s, s <| fl_reasons := <[h := entries]> (fl_reasons s) |>);
  _ ← enqueue_waiter h;
  refreshView workerId false.

(** ** Attempts *)

Definition forwardedModel (request : RoutableRequest) (views : list WorkerView) (d : RoutingDecision) : option string :=
  match t_model request with
  | None => None
  | Some model =>
      if t_physical request === Some true then None
      else Some (default model (view ← Arr.find (λ w, wv_id w === dn_workerId d) views; matchRequest view request))
  end.

Definition forwarded_request (w : Waiter) (rename : option string) : ForwardedRequest :=
  MkForwarded (requestedDevice (w_request w) rename) (gatewayRequesterPrefix +:+ ro_requesterId (w_options w))
    (ro_ownerId (w_options w)) false true (ro_ttlMs (w_options w)) (ro_leaseId (w_options w)) (w_id w)
    (ro_requires (w_options w)).
(** [#attempt] up to its call: a worker whose link is gone is a stale view. The request is forwarded
    under the worker's name for an exact model. *)
Definition start_attempt h (d : RoutingDecision) (rename : option string) : op unit :=
  s ← get;
  let workerId := dn_workerId d in
  if negb (Arr.includes workerId (fl_live s)) then staleView h workerId true
  else
    w ← waiter h;
    _ ← emit (Forwarded workerId (forwarded_request w rename));
    modify (λ s, s <| fl_attempts := fl_attempts s ++ [MkAttempt h workerId d false] |>).
Definition beginAttempt h (d : RoutingDecision) (rename : option string) : op unit :=
  processing ← on_queue (markProcessing now h);
  if negb (processing : bool) then mret tt else start_attempt h d rename.

Definition announceDispatched h (d : RoutingDecision) : op unit :=
  s ← get;
  w ← waiter h;
  let queuedMs := match fl_createdAt s !! h with None => 0%Z | Some at_ => Z.max 0 (now - at_) end in
  emit (RequestDispatched (w_id w) (ro_requesterId (w_options w)) queuedMs d).

(** ** Walks *)

Definition rejectUnservable h (verdict : Rejection) (refusals : list (string * DispatchError)) : op unit :=
  match last (Ordered.values refusals) with
  | Some e => reject_waiter h (failed_with e) fr_unresolvable_spec None
  | None => reject_waiter h (DispatchFailed (rejection_code (rj_code verdict)) (rj_message verdict))
              (match rj_reason verdict with reject_no_worker => fr_no_worker | reject_unresolvable_spec => fr_unresolvable_spec end)
              None
  end.

Definition rejectIfEveryWorkerFailedProvisioning h (request : RoutableRequest) (views : list WorkerView) : op unit :=
  s ← get;
  match fl_refusals s !! h with
  | None => mret tt
  | Some refusals =>
      let open := ex_workerId <$> Arr.filter (λ entry,
        match ex_filter entry with None => true | Some r => Arr.includes (wn_reason r) COULD_TAKE_LATER end)
        (policy_explain request views) in
      let failed := omap (λ entry,
        if Arr.includes entry.1 open then (λ e, (entry.1, e)) <$> rf_provisionFailure entry.2 else None) refusals in
      match last failed with
      | Some (workerId, e) =>
          if (length failed <? length open)%nat then mret tt
          else reject_waiter h (failed_with e) fr_worker_failed (Some (de_code e, workerId))
      | None => mret tt
      end
  end.

Definition nul : string := String Ascii.zero "".
Definition physicalMatchKey (request : DeviceRequest) : string :=
  let target := match rq_model request with
                | None => "class:" +:+ Resolve.class_text (default phone (requestedClass None (rq_class request)))
                | Some model => "model:" +:+ toLowerCase model
                end in
  join nul [platform_text (rq_platform request); target; default "" (rq_osVersion request)].
(** What a pass has claimed: workers for virtual requests, workers with a match for physical ones. *)
Record PassClaims := MkPassClaims { pc_physical : list string; pc_virtual : list string }.
Definition claim_key (request : DeviceRequest) workerId : string :=
  match lineOf request with
  | line_physical => workerId +:+ nul +:+ physicalMatchKey request
  | line_virtual => workerId
  end.
Definition claimed_keys (request : DeviceRequest) (c : PassClaims) : list string :=
  match lineOf request with line_physical => pc_physical c | line_virtual => pc_virtual c end.
Definition claim_worker (request : DeviceRequest) workerId (c : PassClaims) : PassClaims :=
  match lineOf request with
  | line_physical => MkPassClaims (Ordered.add (claim_key request workerId) (pc_physical c)) (pc_virtual c)
  | line_virtual => MkPassClaims (pc_physical c) (Ordered.add (claim_key request workerId) (pc_virtual c))
  end.

(** The workers not claimed in this pass and not refusing at their current view. *)
Fixpoint eligible_workers h (claimed : string → bool) (views : list WorkerView) : op (list WorkerView) :=
  match views with
  | [] => mret []
  | worker :: views =>
      out ← (if claimed (wv_id worker) then mret true else refused h worker);
      rest ← eligible_workers h claimed views;
      mret (if out : bool then rest else worker :: rest)
  end.

Definition walkWaiter h (claims : PassClaims) : op (PassClaims * bool) :=
  w ← waiter h;
  s ← get;
  let claimed := λ workerId, Arr.includes (claim_key (w_request w) workerId) (claimed_keys (w_request w) claims) in
  let refusals := cannot_serve_of s h in
  let allViews := routing_views s in
  let views := Arr.filter (λ worker, negb (Ordered.has (wv_id worker) refusals)) allViews in
  let request := routable w in
  match policy_assess request views with
  | Reject verdict => _ ← rejectUnservable h verdict refusals; mret (claims, false)
  | RouteOrWait =>
      entries ← reasonsFor h request allViews claimed None;
      _ ← modify (λ s, s <| fl_reasons := <[h := entries]> (fl_reasons s) |>);
      eligibleWorkers ← eligible_workers h claimed views;
      match policy_select request eligibleWorkers with
      | None => _ ← rejectIfEveryWorkerFailedProvisioning h request views; mret (claims, false)
      | Some d =>
          _ ← beginAttempt h d (forwardedModel request eligibleWorkers d);
          mret (claim_worker (w_request w) (dn_workerId d) claims, true)
      end
  end.

(** The waiters attempted in the pass, in order. *)
Fixpoint walk_each (candidate : option nat) (hs : list nat) (claims : PassClaims) (attempted : list nat)
    : op (list nat) :=
  match hs with
  | [] => mret attempted
  | h :: hs =>
      w ← waiter h;
      if (candidate !== Some h) && (w_state w !== w_queued) then walk_each candidate hs claims attempted
      else
        '(claims, went) ← walkWaiter h claims;
        walk_each candidate hs claims (if went : bool then attempted ++ [h] else attempted)
  end.
(** Whom a pass looks at, in order. *)
Definition pass_line (candidate : option nat) (q : WaitQueue) : list nat :=
  match candidate with
  | None => waiters q
  | Some c => if Arr.includes c (waiters q) then waiters q else waiters q ++ [c]
  end.
Definition dispatchPass (candidate : option nat) : op bool :=
  s ← get;
  attempted ← walk_each candidate (pass_line candidate (fl_queue s)) (MkPassClaims [] []) [];
  mret (match candidate with None => false | Some c => Arr.includes c attempted end).
Definition dispatch (candidate : option nat) : op bool := dispatchPass candidate.

Definition admit_waiter h : op unit :=
  went ← dispatch (Some h);
  if went : bool then mret tt
  else
    w ← waiter h;
    if ro_noWait (w_options w)
    then reject_waiter h (DispatchFailed "NO_CAPACITY" "No worker in the fleet can currently serve this request") fr_no_wait None
    else enqueue_waiter h.

(** ** The rest of an attempt *)

Definition ended_attempt (a : Attempt) : op unit :=
  modify (λ s, s <| fl_attempts := Arr.filter (λ b, at_waiter b !== at_waiter a) (fl_attempts s) |>).

(** The lease under the gateway's names; the [worker] the answer also names is left out. *)
Definition projectRecord (record : LeaseRecord) (entry : FleetLeaseEntry) : LeaseRecord :=
  record <| l_id := e_gatewayLeaseId entry |> <| l_ownerId := e_ownerId entry |>
         <| l_requesterId := e_requesterId entry |>.
Definition leaseIdTaken (leaseId : string) : DispatchError :=
  MkDispatchError "LEASE_ID_TAKEN" ("lease ID " +:+ leaseId +:+ " is already in use") (LeaseDetails leaseId).

Inductive Settlement := settled_ | retry_.
Definition settleGrant h workerId (grant : LeaseGrant) : op Settlement :=
  w ← waiter h;
  let forwarded := ro_leaseId (w_options w) in
  let granted := l_id (g_lease grant) in
  if match forwarded with Some f => granted !== f | None => false end then
    _ ← emit (ReleasedOnWorker workerId granted);
    mret retry_
  else
    let gid := default (workerId +:+ "." +:+ granted) forwarded in
    let entry := MkEntry gid workerId granted (ro_requesterId (w_options w)) (ro_ownerId (w_options w))
                   (l_grantedAt (g_lease grant)) in
    s ← get;
    let '(index, added) := add (fl_index s) entry (Some (rq_platform (w_request w))) in
    _ ← modify (λ s, s <| fl_index := index |>);
    if negb added then
      _ ← emit (ReleasedOnWorker workerId granted);
      _ ← reject_waiter h (failed_with (leaseIdTaken gid)) fr_lease_id_taken None;
      mret settled_
    else
      resolved ← on_queue (WaitQueue.resolve h (grant <| g_lease := projectRecord (g_lease grant) entry |>));
      _ ← (if resolved : bool then emit (RequestGranted (w_id w) gid workerId granted) else mret tt);
      mret settled_.

(** The catch of [#attempt]. *)
Definition attempt_failed (a : Attempt) (error : AttemptError) : op unit :=
  let h := at_waiter a in
  let workerId := at_workerId a in
  let terminal : op unit :=
    let failure := classifyLeaseRequestError error workerId in
    _ ← reject_waiter h (failed_with failure) fr_worker_failed (Some (de_code failure, workerId));
    _ ← dispatch None;
    mret tt in
  match error with
  | SimlockError code message transport capacityReason details =>
      if at_announced a then terminal
      else if Arr.includes code STALE_VIEW_CODES then
        _ ← rememberRefusal h workerId (refusedCapacityReason capacityReason) None;
        w ← waiter h;
        if ro_noWait (w_options w) then _ ← refreshView workerId false; admit_waiter h
        else staleView h workerId false
      else if code === "PROVISION_FAILED" then
        _ ← rememberRefusal h workerId None (Some (classifyRelayedError code message transport details workerId));
        _ ← refreshView workerId false;
        admit_waiter h
      else if Arr.includes code CANNOT_SERVE_CODES then
        _ ← rememberCannotServe h workerId (classifyRelayedError code message transport details workerId);
        _ ← refreshView workerId true;
        admit_waiter h
      else terminal
  | _ => terminal
  end.

Inductive AttemptAnswer := Granted (grant : option LeaseGrant) | AttemptFailed (error : AttemptError).
(** [#attempt] from its answer on; [Granted None] is a grant without a lease. *)
Definition attempt_answered (a : Attempt) (answer : AttemptAnswer) : op unit :=
  let h := at_waiter a in
  let workerId := at_workerId a in
  _ ← ended_attempt a;
  match answer with
  | AttemptFailed error => attempt_failed a error
  | Granted None =>
      attempt_failed a (OwnError (MkDispatchError "INTERNAL"
        ("Worker " +:+ workerId +:+ " answered lease.request with a malformed grant") (WorkerDetails workerId)))
  | Granted (Some grant) =>
      _ ← (if at_announced a then mret tt else announceDispatched h (at_decision a));
      settled ← settleGrant h workerId grant;
      match settled with
      | retry_ => _ ← rememberRefusal h workerId None None; staleView h workerId false
      | settled_ => _ ← dispatch None; mret tt
      end
  end.

Definition set_announced h (a : Attempt) : Attempt :=
  if at_waiter a === h then MkAttempt (at_waiter a) (at_workerId a) (at_decision a) true else a.
Definition attempt_progress (a : Attempt) (p : LeaseProgress) : op unit :=
  _ ← (if at_announced a then mret tt
       else _ ← announceDispatched (at_waiter a) (at_decision a);
            modify (λ s, s <| fl_attempts := set_announced (at_waiter a) <$> fl_attempts s |>));
  on_queue (notifyProgress (at_waiter a) p).

(** ** Requests *)

Definition isPastDeadlineOnDisconnectedWorker s (gatewayLeaseId : string) : bool :=
  match resolve_lease (fl_index s) gatewayLeaseId with
  | None => false
  | Some entry =>
      match Workers.view (fl_workers s) (e_workerId entry) with
      | None => false
      | Some view =>
          if wv_connection view !== disconnected_ then false
          else match Arr.find (λ l, r_id (vl_lease l) === e_workerLeaseId entry) (default [] (la_leases <$> wv_leases view)) with
               | None => false
               | Some reported => (vl_ttlDeadline reported <=? now)%Z
               end
      end
  end.

Inductive RequestRefusal := AlreadyLeased (e : RequesterAlreadyLeasedError) | LeaseIdTaken (leaseId : string).
Definition refuseIfAlreadyLeased s (request : DeviceRequest) (requesterId : string) : option RequesterAlreadyLeasedError :=
  requesterLimitDecision (MkLimitInput requesterId (rq_platform request) maxPerRequester
    (Arr.filter (λ lease, negb (isPastDeadlineOnDisconnectedWorker s (h_id lease))) (held (fl_index s) requesterId))
    (pendingPlatforms (fl_queue s) requesterId) false).

(** [request], in the decision gate, for a request that repeats none; [heldByRequest] says whether an
    open request of the book holds the id, and [requestId] is a new one. *)
Definition request_section (request : DeviceRequest) (options : LeaseRequestOptions) (requestId : string)
    (heldByRequest : string → bool) : op (result RequestRefusal nat) :=
  s ← get;
  match refuseIfAlreadyLeased s request (ro_requesterId options) with
  | Some refusal =>
      _ ← emit (LeaseRejected requestId (ro_requesterId options) request fr_already_leased None);
      mret (Err (AlreadyLeased refusal))
  | None =>
      match ro_leaseId options with
      | Some leaseId =>
          if match resolve_lease (fl_index s) leaseId with Some _ => true | None => heldByRequest leaseId end then
            _ ← emit (LeaseRejected requestId (ro_requesterId options) request fr_lease_id_taken None);
            mret (Err (LeaseIdTaken leaseId))
          else mret (Ok 0)
      | None => mret (Ok 0)
      end
  end ≫= λ refusal : result RequestRefusal nat,
  match refusal with
  | Err e => mret (Err e)
  | Ok _ =>
      h ← on_queue (create requestId request options (Some requestId));
      _ ← modify (λ s, s <| fl_createdAt := <[h := now]> (fl_createdAt s) |>
                          <| fl_admitting := fl_admitting s ++ [h] |>);
      _ ← emit (LeaseRequested requestId (ro_requesterId options) request (ro_noWait options));
      mret (Ok h)
  end.
(** [request], when the gate has answered. *)
Definition request_admitted h : op unit :=
  _ ← modify (λ s, s <| fl_admitting := Arr.filter (λ k, k !== h) (fl_admitting s) |>);
  admit_waiter h.

Inductive CancelAnswer := cancelled_ | not_found | not_cancellable.
Definition cancelPending (requesterId : string) (platform : option Platform) : op CancelAnswer :=
  s ← get;
  match findPendingWaiter (fl_queue s) requesterId platform with
  | None => mret not_found
  | Some h =>
      w ← waiter h;
      if w_state w !== w_queued then mret not_cancellable
      else
        _ ← reject_waiter h (RequestCancelledError (w_id w)) fr_cancelled None;
        mret cancelled_
  end.
Definition pendingRequestOwner s (requesterId : string) (platform : option Platform) : option string :=
  h ← findPendingWaiter (fl_queue s) requesterId platform;
  w ← store (fl_queue s) !! h;
  Some (ro_ownerId (w_options w)).

Definition dispose : op unit :=
  _ ← on_queue (cancelAll (λ _, DispatchFailed "DAEMON_STOPPING" "Gateway is stopping"));
  mret tt.

(** A timer of the queue. *)
Definition timer_fired h : op unit := on_queue (fire h).
(** [start]. *)
Definition start : op unit := s ← get; emit (QueueChanged (depth (fl_queue s)) line_virtual).

(** ** Views *)

Definition reported_leases (l : LeaseArray) : list WorkerReportedLease := vl_lease <$> la_leases l.
Definition reported_devices (view : WorkerView) : list ReportedDevice :=
  (λ d, MkReportedDevice (vd_id d) (fs_platform (vd_spec d))) <$> default [] (wv_devices view).
(** Only a view whose array of leases is a new one is reconciled. *)
Definition reconcile_view (s : Fleet) (view : WorkerView) : Fleet :=
  match wv_leases view with
  | None => s
  | Some leases =>
      if fl_lastReconciled s !! wv_id view === Some (la_number leases) then s
      else s <| fl_index := rebuildFromWorker gatewayRequesterPrefix (fl_index s) (wv_id view) (reported_leases leases)
                              (reported_devices view) |>
             <| fl_lastReconciled := <[wv_id view := la_number leases]> (fl_lastReconciled s) |>
  end.
Definition forget_gone (currentIds : list string) (s : Fleet) workerId : Fleet :=
  if Arr.includes workerId currentIds then s
  else s <| fl_index := forgetWorker (fl_index s) workerId |>
         <| fl_lastReconciled := delete workerId (fl_lastReconciled s) |>.
Definition onViewsChanged : op unit :=
  s ← get;
  let views := Workers.views (fl_workers s) in
  let currentIds := wv_id <$> views in
  _ ← modify (λ s, foldl reconcile_view s views);
  _ ← modify (λ s, foldl (forget_gone currentIds) s (fl_known s));
  _ ← modify (λ s, s <| fl_known := currentIds |>);
  _ ← dispatch None;
  mret tt.
End coordinator.
End Coordinator.
