(* ===== verification/FleetInv.v ===== *)
(** * Every request of the fleet is in one place: invariants of [src/gateway/fleet-coordinator.ts]

    A waiter is new and about to be walked, in the gateway's line, out with one worker, or settled:
    an attempt that ends puts its waiter in exactly one of the other places, and no pass picks up a
    waiter that is out. [fleet_ok] says so of a state in which the waiters [X] are in hand, in the
    middle of an operation; each operation returns and leaves nothing in hand. *)
From stdpp Require Import base strings list option numbers gmap sets.
From S2P Require Import Prelude JsString Domain Devices WaitQueue Ordered FleetIndex FleetViews Routing Fleet.

(** ** Waiters in one place *)

Definition status (q : WaitQueue) (h : nat) : option WaiterState := w_state <$> store q !! h.
(** Who asks for which platform. *)
Definition asks (q : WaitQueue) (h : nat) : option (string * Platform) :=
  (λ w, (ro_requesterId (w_options w), rq_platform (w_request w))) <$> store q !! h.
Definition live (q : WaitQueue) (h : nat) : Prop := ∃ st, status q h = Some st ∧ isTerminal st = false.
Definition out_with (ats : list Attempt) : list nat := at_waiter <$> ats.

Record fleet_ok (X : list nat) (q : WaitQueue) (ats : list Attempt) (adm : list nat) : Prop := {
  fo_queue : queue_ok q;
  fo_nodup : NoDup (out_with ats);
  fo_attempt h : h ∈ out_with ats → (h ∉ X) ∧ (h ∉ adm) ∧
    ∃ st, status q h = Some st ∧ (st = w_processing ∨ isTerminal st = true);
  fo_admitting h : h ∈ adm → (h ∉ X) ∧ ∃ st, status q h = Some st ∧ (st = w_new ∨ isTerminal st = true);
  fo_new h : status q h = Some w_new → h ∈ X ∨ h ∈ adm;
  fo_processing h : status q h = Some w_processing → h ∈ X ∨ h ∈ out_with ats;
  fo_hand h : h ∈ X → is_Some (status q h);
  fo_single h k : live q h → live q k → asks q h = asks q k → h = k }.

(** Only [h]'s entry of the store differs, and only in its state and its timer. *)
Record touched (h : nat) (q q' : WaitQueue) : Prop := {
  to_ok : queue_ok q → queue_ok q';
  to_other k : k ≠ h → store q' !! k = store q !! k;
  to_self w : store q !! h = Some w →
    ∃ w', store q' !! h = Some w' ∧ w_request w' = w_request w ∧ w_options w' = w_options w
          ∧ (isTerminal (w_state w) = true → isTerminal (w_state w') = true) }.

Definition resting (q : WaitQueue) (h : nat) : Prop :=
  ∃ st, status q h = Some st ∧ (st = w_queued ∨ isTerminal st = true).

Lemma touched_refl h q : touched h q q.
Proof. split; eauto. Qed.
Lemma touched_trans h q q' q'' : touched h q q' → touched h q' q'' → touched h q q''.
Proof.
  intros [? Ho Hs] [? Ho' Hs']. split; [auto|by intros k Hk; rewrite Ho', Ho|].
  intros w Hw. destruct (Hs w Hw) as (w' & Hw' & ? & ? & ?). destruct (Hs' w' Hw') as (x & ? & ? & ? & ?).
  exists x. split_and!; [congruence..|auto].
Qed.
Lemma touched_status h q q' k : touched h q q' → is_Some (status q k) → is_Some (status q' k).
Proof.
  unfold status. intros [_ Ho Hs] [st Hst]. apply fmap_Some in Hst as (w & Hw & _).
  destruct (decide (k = h)) as [->|Hk]; [destruct (Hs w Hw) as (w' & -> & _); eauto|].
  rewrite Ho, Hw by done. eauto.
Qed.
Lemma touched_put h q w w' : store q !! h = Some w → w_request w' = w_request w → w_options w' = w_options w →
  isTerminal (w_state w) = false → (queue_ok q → queue_ok (q <| store := <[h := w']> (store q) |>)) →
  touched h q (q <| store := <[h := w']> (store q) |>).
Proof.
  intros Hw Hr Ho Ht Hok. split; [done|by intros k Hk; apply lookup_insert_ne|].
  intros x Hx. exists w'. simplify_eq. split; [apply lookup_insert_eq|]. by rewrite Ht.
Qed.
Lemma status_insert h (w : Waiter) q : status (q <| store := <[h := w]> (store q) |>) h = Some (w_state w).
Proof. unfold status. cbn. by rewrite lookup_insert_eq. Qed.

Section lemmas.
Implicit Types (q : WaitQueue) (ats : list Attempt) (adm X : list nat) (h k : nat) (a : Attempt).

Lemma touched_live h q q' k : touched h q q' → live q' k → is_Some (status q h) → live q k ∧ asks q' k = asks q k.
Proof.
  unfold live, status, asks. intros [_ Ho Hs] (st & Hst & Ht) Hin.
  destruct (decide (k = h)) as [->|Hk]; [|rewrite Ho in Hst |- * by done; eauto].
  apply fmap_is_Some in Hin as [w Hw]. destruct (Hs w Hw) as (w' & Hw' & Hr & Hop & Hterm). rewrite Hw', Hw in *.
  cbn in *. rewrite Hr, Hop. split; [|done]. exists (w_state w). split; [done|]. simplify_eq.
  destruct (isTerminal (w_state w)); [|done]. rewrite Hterm in Ht; done.
Qed.
(** Ending waiters is always safe. *)
Lemma ok_ended X q q' ats adm : fleet_ok X q ats adm → queue_ok q' →
  (∀ k, (status q' k = status q k ∧ asks q' k = asks q k)
        ∨ is_Some (status q k) ∧ ∃ st, status q' k = Some st ∧ isTerminal st = true) →
  fleet_ok X q' ats adm.
Proof.
  intros [? ? Ha Hd Hn Hp Hh Hone] Hq Hs.
  assert (∀ k st, status q' k = Some st → isTerminal st = false → status q k = Some st) as Hlive.
  { intros k st Hk Ht. destruct (Hs k) as [[<- _]|(_ & st' & ? & ?)]; [done|]. simplify_eq. congruence. }
  split; try done; try (intros k Hk; apply Hlive in Hk; by eauto).
  - intros k Hk. destruct (Ha k Hk) as (? & ? & st & Hst & Hor). split_and!; [done..|].
    destruct (Hs k) as [[-> _]|(_ & st' & ? & ?)]; eauto.
  - intros k Hk. destruct (Hd k Hk) as (? & st & Hst & Hor). split; [done|].
    destruct (Hs k) as [[-> _]|(_ & st' & ? & ?)]; eauto.
  - intros k Hk. destruct (Hs k) as [[-> _]|(_ & st' & -> & ?)]; eauto.
  - assert (∀ k, live q' k → live q k ∧ asks q' k = asks q k) as Hback.
    { intros k (st & Hst & Ht). split; [exists st; auto|]. destruct (Hs k) as [[_ ?]|(_ & st' & ? & ?)]; [done|congruence]. }
    intros h k [Hh' Eh]%Hback [Hk Ek]%Hback Heq. apply Hone; [done..|congruence].
Qed.
Lemma ok_out X q ats ats' adm : fleet_ok X q ats adm → out_with ats' = out_with ats → fleet_ok X q ats' adm.
Proof. intros [? ? ? ? ? ? ? ?] Heq. by split; rewrite ?Heq; try setoid_rewrite Heq. Qed.

Lemma touched_status_ne h q q' k : touched h q q' → k ≠ h → status q' k = status q k.
Proof. intros [_ Ho _] Hk. unfold status. by rewrite Ho. Qed.

Lemma ok_touched X q q' ats adm h : fleet_ok X q ats adm → h ∈ X → touched h q q' → fleet_ok X q' ats adm.
Proof.
  intros [Hq Hnd Ha Hd Hn Hp Hh Hone] HhX Ht. split; [by apply (to_ok h q)|done|..].
  - intros k Hk. destruct (Ha k Hk) as (? & ? & Hst). split; [done|]. split; [done|].
    rewrite (touched_status_ne h q) by (done || congruence). done.
  - intros k Hk. destruct (Hd k Hk) as [? Hst]. split; [done|].
    rewrite (touched_status_ne h q) by (done || congruence). done.
  - intros k Hk. destruct (decide (k = h)) as [->|Hne]; [by left|].
    rewrite (touched_status_ne h q) in Hk by done. auto.
  - intros k Hk. destruct (decide (k = h)) as [->|Hne]; [by left|].
    rewrite (touched_status_ne h q) in Hk by done. auto.
  - intros k Hk. eapply touched_status; eauto.
  - intros i k [Hi Ei]%(touched_live h q) [Hk Ek]%(touched_live h q) Heq; auto. apply Hone; [done..|congruence].
Qed.

(** Put down where it rests; handed to a worker; picked up. *)
Lemma ok_drop X q ats adm h : fleet_ok (h :: X) q ats adm → resting q h → fleet_ok X q ats adm.
Proof.
  intros [Hq Hnd Ha Hd Hn Hp Hh Hone] (st & Hst & Hre). split; try done.
  - intros k Hk. destruct (Ha k Hk). set_solver.
  - intros k Hk. destruct (Hd k Hk). set_solver.
  - intros k Hk. destruct (Hn k Hk) as [[->|?]%elem_of_cons|?]; auto. simplify_eq. by destruct Hre.
  - intros k Hk. destruct (Hp k Hk) as [[->|?]%elem_of_cons|?]; auto. simplify_eq. by destruct Hre.
  - intros k Hk. apply Hh. by right.
Qed.
Lemma ok_sent X q ats adm a : fleet_ok (at_waiter a :: X) q ats adm → at_waiter a ∉ X →
  status q (at_waiter a) = Some w_processing → fleet_ok X q (ats ++ [a]) adm.
Proof.
  intros [Hq Hnd Ha Hd Hn Hp Hh Hone] HX Hst. unfold out_with in *. split; unfold out_with; try done; rewrite ?fmap_app; cbn.
  - apply NoDup_app. split_and!; [done| |apply NoDup_singleton].
    intros k Hk ->%list_elem_of_singleton. destruct (Ha _ Hk) as [Hk' _]. by destruct Hk'; left.
  - intros k [Hk| ->%list_elem_of_singleton]%elem_of_app; [destruct (Ha k Hk); set_solver|]. split; [done|].
    split; [|eauto]. intros [Hk _]%Hd. by destruct Hk; left.
  - intros k Hk. destruct (Hd k Hk). set_solver.
  - intros k Hk. destruct (Hn k Hk) as [[->|?]%elem_of_cons|?]; auto. congruence.
  - intros k Hk. setoid_rewrite elem_of_app. destruct (Hp k Hk) as [[->|?]%elem_of_cons|?]; auto. right. right. by left.
  - intros k Hk. apply Hh. by right.
Qed.
Lemma ok_take X q ats adm h : fleet_ok X q ats adm → is_Some (status q h) → h ∉ out_with ats → h ∉ adm →
  fleet_ok (h :: X) q ats adm.
Proof.
  intros [Hq Hnd Ha Hd Hn Hp Hh Hone] Hst Ho Had. split; try done.
  - intros k Hk. destruct (Ha k Hk). split; [|done]. apply not_elem_of_cons. split; congruence.
  - intros k Hk. destruct (Hd k Hk). split; [|done]. apply not_elem_of_cons. split; congruence.
  - intros k Hk. destruct (Hn k Hk); [left; by right|by right].
  - intros k Hk. destruct (Hp k Hk); [left; by right|by right].
  - intros k [->|Hk]%elem_of_cons; auto.
Qed.
Lemma ok_take_queued X q ats adm h : fleet_ok X q ats adm → status q h = Some w_queued → fleet_ok (h :: X) q ats adm.
Proof.
  intros Hok Hst. apply ok_take; [done|by rewrite Hst| |].
  - intros (_ & _ & st & Heq & Hor)%(fo_attempt _ _ _ _ Hok). simplify_eq. by destruct Hor.
  - intros (_ & st & Heq & Hor)%(fo_admitting _ _ _ _ Hok). simplify_eq. by destruct Hor.
Qed.
Lemma ok_admitted q ats adm h : fleet_ok [] q ats adm → h ∈ adm →
  fleet_ok [h] q ats (Arr.filter (λ k, k !== h) adm).
Proof.
  intros [Hq Hnd Ha Hd Hn Hp Hh Hone] Hin.
  assert (∀ k, k ∈ Arr.filter (λ k, k !== h) adm ↔ k ∈ adm ∧ k ≠ h) as Hmem.
  { intros k. rewrite elem_of_afilter, negb_true_iff, bool_decide_eq_false. done. }
  destruct (Hd h Hin) as (_ & st & Hst & Hor). split; try done.
  - intros k Hk. destruct (Ha k Hk) as (_ & Hna & Hst'). rewrite Hmem. split_and!; [set_solver|tauto|done].
  - intros k [Hk Hne]%Hmem. destruct (Hd k Hk) as (_ & Hst'). split; [set_solver|done].
  - intros k Hk. rewrite Hmem. destruct (decide (k = h)); [set_solver|]. destruct (Hn k Hk); set_solver.
  - intros k Hk. destruct (Hp k Hk); [set_solver|by right].
  - intros k ->%list_elem_of_singleton. by rewrite Hst.
Qed.
Lemma ok_created q q' ats adm h : fleet_ok [] q ats adm → queue_ok q' → status q h = None →
  status q' h = Some w_new → (∀ k, k ≠ h → store q' !! k = store q !! k) →
  (∀ k, live q k → asks q k ≠ asks q' h) → fleet_ok [] q' ats (adm ++ [h]).
Proof.
  intros [Hq Hnd Ha Hd Hn Hp Hh Hone] Hq' Hnone Hnew Hsto Hfree.
  assert (∀ k, k ≠ h → status q' k = status q k) as Hoth by (intros k Hk; unfold status; by rewrite Hsto).
  assert (∀ k, k ≠ h → asks q' k = asks q k) as Hask by (intros k Hk; unfold asks; by rewrite Hsto).
  split; try done.
  - intros k Hk. destruct (Ha k Hk) as (_ & Hna & st & Hst & ?). rewrite Hoth by congruence.
    split_and!; [set_solver| |eauto]. intros [?| ->%list_elem_of_singleton]%elem_of_app; [done|congruence].
  - intros k [Hk| ->%list_elem_of_singleton]%elem_of_app; (split; [set_solver|]); [|eauto].
    destruct (Hd k Hk) as (_ & st & Hst & ?). rewrite Hoth by congruence. eauto.
  - intros k Hk. destruct (decide (k = h)) as [->|Hne]; [set_solver|]. rewrite Hoth in Hk by done.
    destruct (Hn k Hk); set_solver.
  - intros k Hk. destruct (decide (k = h)) as [->|Hne]; [congruence|]. rewrite Hoth in Hk by done. auto.
  - by intros k ?%elem_of_nil.
  - assert (∀ k, k ≠ h → live q' k → live q k) as Hback by (intros k Hk (st & Hst & ?); rewrite Hoth in Hst by done; by exists st).
    intros i k Hi Hk Heq. destruct (decide (i = h)) as [->|Hih], (decide (k = h)) as [->|Hkh]; try done.
    + destruct (Hfree k); [by apply Hback|]. by rewrite Heq, Hask.
    + destruct (Hfree i); [by apply Hback|]. by rewrite <- Heq, Hask.
    + apply Hone; [by apply Hback..|]. by rewrite <- !Hask.
Qed.
Lemma ok_end_attempt X q ats adm a : fleet_ok X q ats adm → a ∈ ats →
  fleet_ok (at_waiter a :: X) q (Arr.filter (λ b, at_waiter b !== at_waiter a) ats) adm.
Proof.
  intros [Hq Hnd Ha Hd Hn Hp Hh Hone] Hin. unfold out_with in *.
  assert (at_waiter a ∈ at_waiter <$> ats) as Hout by by apply list_elem_of_fmap_2.
  destruct (Ha _ Hout) as (HX & Hadm & st & Hst & Hor).
  assert (∀ k, k ∈ at_waiter <$> Arr.filter (λ b, at_waiter b !== at_waiter a) ats ↔
               k ∈ at_waiter <$> ats ∧ k ≠ at_waiter a) as Hmem.
  { intros k. rewrite !list_elem_of_fmap. setoid_rewrite elem_of_afilter. setoid_rewrite negb_true_iff.
    setoid_rewrite bool_decide_eq_false. naive_solver. }
  split; unfold out_with; try done.
  - eapply sublist_NoDup; [exact Hnd|]. apply fmap_sublist, sublist_filter_b.
  - intros k [Hk Hne]%Hmem. destruct (Ha k Hk). split; [|done]. by apply not_elem_of_cons.
  - intros k Hk. destruct (Hd k Hk) as (? & Hst'). split; [|done]. apply not_elem_of_cons. split; [congruence|done].
  - intros k Hk. destruct (Hn k Hk); [left; by right|by right].
  - intros k Hk. rewrite Hmem, elem_of_cons. destruct (decide (k = at_waiter a)); [auto|]. destruct (Hp k Hk); auto.
  - intros k [->|Hk]%elem_of_cons; [by rewrite Hst|auto].
Qed.
End lemmas.

(** ** What the coordinator's parts do to the state *)

Definition ends {A} (m : action Fleet QueueError A) (s : Fleet) (Q : A → Fleet → Prop) : Prop :=
  runs m s Q (λ _ _, False).
Definition frame (s s' : Fleet) : Prop :=
  fl_admitting s' = fl_admitting s ∧ fl_workers s' = fl_workers s ∧ fl_live s' = fl_live s.
Record moved (h : nat) (new : list Attempt) (s s' : Fleet) : Prop := {
  mo_queue : touched h (fl_queue s) (fl_queue s');
  mo_attempts : fl_attempts s' = fl_attempts s ++ new;
  mo_frame : frame s s' }.
Definition quiet (s s' : Fleet) : Prop :=
  fl_queue s' = fl_queue s ∧ fl_attempts s' = fl_attempts s ∧ frame s s'.

Lemma frame_trans s s' s'' : frame s s' → frame s' s'' → frame s s''.
Proof. intros (?&?&?) (?&?&?). split_and!; congruence. Qed.
Lemma quietly_refl s : quiet s s.
Proof. done. Qed.
Lemma quietly_trans s s' s'' : quiet s s' → quiet s' s'' → quiet s s''.
Proof. intros (?&?&?) (?&?&?). split_and!; [congruence..|by eapply frame_trans]. Qed.
Ltac quietly := cbv beta in *; eauto using quietly_trans.
Lemma moved_refl h s : moved h [] s s.
Proof. split; [apply touched_refl|by rewrite app_nil_r|done]. Qed.
Lemma moved_trans h new s s' s'' : moved h [] s s' → moved h new s' s'' → moved h new s s''.
Proof.
  intros [? Ha ?] [? Hb ?]. split; [by eapply touched_trans| |by eapply frame_trans].
  by rewrite Hb, Ha, app_nil_r.
Qed.
Lemma moved_quiet h new s s' s'' : moved h new s s' → quiet s' s'' → moved h new s s''.
Proof.
  intros [? Ha ?] (Hq & Hb & ?). split; [by rewrite Hq|congruence|by eapply frame_trans].
Qed.
Lemma quiet_moved h s s' : quiet s s' → moved h [] s s'.
Proof. intros. eapply moved_quiet; [apply moved_refl|done]. Qed.

Lemma ends_bind {A B} (m : action Fleet QueueError A) (f : A → action Fleet QueueError B) s P Q :
  ends m s P → (∀ a s', P a s' → ends (f a) s' Q) → ends (m ≫= f) s Q.
Proof. intros Hm Hf. apply runs_bind. eapply runs_mono; [exact Hm|exact Hf|done]. Qed.
Lemma ends_mono {A} (m : action Fleet QueueError A) s (P Q : A → Fleet → Prop) :
  ends m s P → (∀ a s', P a s' → Q a s') → ends m s Q.
Proof. intros Hm Hf. by eapply runs_mono. Qed.
Lemma ends_quiet_bind {A B} (m : action Fleet QueueError A) (f : A → action Fleet QueueError B) s (P : B → Fleet → Prop) :
  ends m s (λ _ s', quiet s s') → (∀ a s', quiet s s' → ends (f a) s' P) → ends (m ≫= f) s P.
Proof. apply ends_bind. Qed.

Lemma touched_settled h q w st e : store q !! h = Some w → isTerminal (w_state w) = false → isTerminal st = true →
  (∀ k, settles k e = bool_decide (h = k)) →
  touched h q (settled q h w st e) ∧ status (settled q h w st e) h = Some st.
Proof.
  intros Hw Ht Hst He. split; [split|].
  - intros Hq. by apply queue_ok_settled.
  - intros k Hk. unfold settled, removed. cbn. by rewrite lookup_insert_ne.
  - intros x Hx. simplify_eq. eexists. unfold settled, removed. cbn. rewrite lookup_insert_eq. by split_and!.
  - unfold status, settled, removed. cbn. by rewrite lookup_insert_eq.
Qed.
Lemma touched_timed_out h q w : store q !! h = Some w → isTerminal (w_state w) = false →
  touched h q (timed_out q h w) ∧ status (timed_out q h w) h = Some w_rejected.
Proof.
  intros Hw Ht.
  destruct (touched_settled h q w w_rejected (Rejected h (QueueTimeoutError (w_id w))) Hw Ht eq_refl) as [[? ? ?] ?];
    [done|]. split; [|done]. split; [intros; by apply queue_ok_timed_out|done..].
Qed.
Lemma armed_keeps now w : w_state (armed now w) = w_state w ∧ w_request (armed now w) = w_request w
  ∧ w_options (armed now w) = w_options w.
Proof. unfold armed. by destruct (w_timer w), (ro_timeoutMs (w_options w)). Qed.
Lemma touched_enqueued now h q w reason : store q !! h = Some w → isTerminal (w_state w) = false →
  touched h q (enqueued now q h w reason) ∧ status (enqueued now q h w reason) h = Some w_queued.
Proof.
  intros Hw Ht. set (w' := armed now (w <| w_reason := reason |> <| w_state := w_queued |>)).
  destruct (armed_keeps now (w <| w_reason := reason |> <| w_state := w_queued |>)) as (Hs & Hr & Ho).
  assert (store (enqueued now q h w reason) = <[h := w']> (store q)) as Hst.
  { unfold enqueued. by destruct (Arr.includes h (waiters q)). }
  split; [split|].
  - intros Hq. by apply queue_ok_enqueued.
  - intros k Hk. by rewrite Hst, lookup_insert_ne.
  - intros x Hx. simplify_eq. exists w'. rewrite Hst, lookup_insert_eq. split_and!; [done..|congruence].
  - unfold status. rewrite Hst, lookup_insert_eq. exact (f_equal Some Hs).
Qed.

Lemma status_Some q h : is_Some (status q h) ↔ ∃ w, store q !! h = Some w.
Proof. unfold status. rewrite fmap_is_Some. done. Qed.
Lemma status_of q h w : store q !! h = Some w → status q h = Some (w_state w).
Proof. unfold status. by intros ->. Qed.
Lemma resting_terminal q h st : status q h = Some st → isTerminal st = true → resting q h.
Proof. intros. exists st. auto. Qed.
Lemma resting_queued q h : status q h = Some w_queued → resting q h.
Proof. intros. exists w_queued. auto. Qed.

Section parts.
Context `{LocaleCompare} `{RoutingPolicy}.
Context (gatewayRequesterPrefix : string) (now : Z).
Implicit Types (s : Fleet) (h : nat).
Import Coordinator.

Lemma ends_on_queue {A} (m : action WaitQueue QueueError A) s (P : A → Fleet → Prop) q a : m (fl_queue s) = (q, Ok a) →
  (∀ s', fl_queue s' = q → fl_attempts s' = fl_attempts s → frame s s' → P a s') → ends (on_queue m) s P.
Proof. intros Hm HP. unfold ends, runs, on_queue. rewrite Hm. by apply HP. Qed.
Lemma ends_waiter {B} h s w (f : Waiter → action Fleet QueueError B) P : store (fl_queue s) !! h = Some w →
  (∀ s', quiet s s' → ends (f w) s' P) → ends (waiter h ≫= f) s P.
Proof.
  intros Hw HP. apply runs_bind. unfold waiter. eapply ends_on_queue; [by apply mutable_Some|].
  intros s' ? ? ?. by apply HP.
Qed.
Lemma ends_emit e s (P : unit → Fleet → Prop) : (∀ s', quiet s s' → P tt s') → ends (emit e) s P.
Proof. intros HP. by apply runs_modify, HP. Qed.

Lemma emitRejected_spec h why f s : is_Some (status (fl_queue s) h) →
  ends (emitRejected h why f) s (λ _ s', quiet s s').
Proof.
  intros [w Hw]%status_Some. unfold emitRejected. apply (ends_waiter h s w _ _ Hw).
  intros s' Hs. apply ends_emit. intros s'' Hs'. quietly.
Qed.

Lemma reject_waiter_spec h e why f s : is_Some (status (fl_queue s) h) →
  ends (reject_waiter h e why f) s (λ _ s', moved h [] s s' ∧
    ∃ st, status (fl_queue s') h = Some st ∧ isTerminal st = true).
Proof.
  intros [w Hw]%status_Some. unfold reject_waiter. apply runs_bind.
  destruct (isTerminal (w_state w)) eqn:Ht.
  - eapply ends_on_queue; [by rewrite reject_eval, Hw, Ht|]. intros s' Hq Ha Hf. cbv beta iota. apply runs_ret.
    split; [by apply quiet_moved|]. rewrite Hq, (status_of _ _ _ Hw). eauto.
  - eapply ends_on_queue; [by rewrite reject_eval, Hw, Ht|]. intros s' Hq Ha Hf. cbv beta iota.
    destruct (touched_settled h (fl_queue s) w w_rejected (Rejected h e) Hw Ht eq_refl) as [Hto Hst]; [done|].
    rewrite <- Hq in Hto, Hst. eapply ends_mono; [apply emitRejected_spec; by rewrite Hst|].
    intros [] s'' Hs. split.
    + eapply moved_quiet; [|exact Hs]. split; [done|by rewrite app_nil_r|done].
    + destruct Hs as (-> & _). eauto.
Qed.

Lemma enqueue_waiter_spec h s : is_Some (status (fl_queue s) h) →
  ends (enqueue_waiter now h) s (λ _ s', moved h [] s s' ∧ resting (fl_queue s') h).
Proof.
  intros [w Hw]%status_Some. unfold enqueue_waiter. eapply ends_bind.
  { eapply ends_on_queue with (P := λ _ s', quiet s s'); [unfold isQueued; by rewrite (bind_eval _ _ _ _ _ (mutable_Some _ h w Hw))|].
    by intros s' ? ? ?. }
  intros already s1 Hs1. pose proof Hs1 as (Hq1 & _). rewrite <- Hq1 in Hw.
  eapply ends_bind with (P := λ _ s', moved h [] s s' ∧ resting (fl_queue s') h).
  - destruct (isTerminal (w_state w)) eqn:Ht; [|destruct (past_deadline now w) eqn:Hp];
      (eapply ends_on_queue; [by rewrite enqueue_eval, Hw, Ht, ?Hp|]); intros s2 Hq Ha Hf; cbv beta iota.
    + split; [|rewrite Hq; exact (resting_terminal _ _ _ (status_of _ _ _ Hw) Ht)]. eapply moved_trans; [apply quiet_moved, Hs1|].
      by apply quiet_moved.
    + destruct (touched_timed_out h _ w Hw Ht) as [Hto Hst]. rewrite <- Hq in Hto, Hst.
      split; [|by eapply resting_terminal]. eapply moved_trans; [apply quiet_moved, Hs1|].
      split; [done|by rewrite app_nil_r|done].
    + destruct (touched_enqueued now h _ w None Hw Ht) as [Hto Hst]. rewrite <- Hq in Hto, Hst.
      split; [|by apply resting_queued]. eapply moved_trans; [apply quiet_moved, Hs1|].
      split; [done|by rewrite app_nil_r|done].
  - intros b s2 [Hm Hr]. destruct (_ && _); [|by apply runs_ret].
    apply runs_bind, runs_get. destruct Hr as (st & Hst & Hor).
    destruct (proj1 (status_Some (fl_queue s2) h)) as [w2 Hw2]; [by rewrite Hst|].
    apply (ends_waiter h s2 w2 _ _ Hw2). intros s3 Hs3.
    apply ends_emit. intros s4 Hs4. assert (quiet s2 s4) as Hq by quietly.
    split; [by eapply moved_quiet|]. destruct Hq as (-> & _). exists st. auto.
Qed.

(** *** Reading and remembering refusals leaves the requests where they are *)

Lemma quiet_modify f s (P : unit → Fleet → Prop) : quiet s (f s) → (∀ s', quiet s s' → P tt s') → ends (modify f) s P.
Proof. intros Hf HP. by apply runs_modify, HP. Qed.
Lemma refused_spec h view s : ends (refused h view) s (λ _ s', quiet s s').
Proof.
  unfold refused. apply runs_bind, runs_get. destruct (Ordered.get _ _) as [r|]; [|by apply runs_ret].
  destruct (_ === _); [by apply runs_ret|]. by apply runs_bind, runs_modify, runs_ret.
Qed.
Lemma refusedReason_spec h view zero s : ends (refusedReason h view zero) s (λ _ s', quiet s s').
Proof.
  unfold refusedReason. eapply ends_bind; [apply refused_spec|]. intros was s' Hs. destruct (negb was); [by apply runs_ret|].
  apply runs_bind, runs_get. cbv zeta. by case_match; apply runs_ret.
Qed.
Lemma reasonFor_spec h view entry claimed u s : ends (reasonFor h view entry claimed u) s (λ _ s', quiet s s').
Proof.
  unfold reasonFor. destruct (entry ≫= ex_filter); [by apply runs_ret|]. destruct (_ === _); [by apply runs_ret|].
  apply runs_bind, runs_get. destruct (cannotServeReason _ _ _); [by apply runs_ret|].
  eapply ends_bind; [apply refusedReason_spec|]. intros r s' Hs. by apply runs_ret.
Qed.
Lemma reasonsFor_spec h request views claimed u s :
  ends (reasonsFor h request views claimed u) s (λ _ s', quiet s s').
Proof.
  unfold reasonsFor. generalize (policy_explain request views). intros explained. revert s.
  induction views as [|view views IH]; intros s; cbn [reasons_for]; [by apply runs_ret|].
  eapply ends_bind; [apply reasonFor_spec|]. intros r s' Hs. eapply ends_bind; [apply IH|].
  intros rest s'' Hs'. apply runs_ret. quietly.
Qed.
Lemma eligible_workers_spec h claimed views s :
  ends (eligible_workers h claimed views) s (λ l s', quiet s s' ∧ ∀ w, w ∈ l → w ∈ views ∧ claimed (wv_id w) = false).
Proof.
  revert s. induction views as [|view views IH]; intros s; cbn [eligible_workers].
  { apply runs_ret. split; [done|]. by intros w ?%elem_of_nil. }
  eapply ends_bind with (P := λ out s', quiet s s' ∧ (out = false → claimed (wv_id view) = false)).
  { destruct (claimed (wv_id view)); [by apply runs_ret|]. eapply ends_mono; [apply refused_spec|]. auto. }
  intros out s' [Hs Hout]. eapply ends_bind; [apply IH|]. intros l s'' [Hs' Hl]. apply runs_ret.
  split; [quietly|]. intros w Hw. destruct out.
  - destruct (Hl w Hw). split; [by right|done].
  - apply elem_of_cons in Hw as [->|Hw]; [split; [by left|auto]|]. destruct (Hl w Hw). split; [by right|done].
Qed.
Lemma rememberRefusal_spec h workerId reason failure s :
  ends (rememberRefusal h workerId reason failure) s (λ _ s', quiet s s').
Proof. unfold rememberRefusal. apply runs_bind, runs_get. by destruct (Arr.find _ _). Qed.
Lemma rememberCannotServe_spec h workerId e s : ends (rememberCannotServe h workerId e) s (λ _ s', quiet s s').
Proof. by apply runs_modify. Qed.
Lemma refreshView_spec workerId c s : ends (refreshView workerId c) s (λ _ s', quiet s s').
Proof. by apply ends_emit. Qed.

(** *** Walking a waiter *)

Lemma staleView_spec h workerId u s : is_Some (status (fl_queue s) h) →
  ends (staleView now h workerId u) s (λ _ s', moved h [] s s' ∧ resting (fl_queue s') h).
Proof.
  intros Hst. pose proof Hst as [w Hw]%status_Some. unfold staleView. apply (ends_waiter h s w _ _ Hw). intros s1 Hs1.
  apply runs_bind, runs_get. eapply ends_bind; [apply reasonsFor_spec|]. intros entries s2 Hs2.
  eapply ends_bind with (P := λ _ s', quiet s2 s'); [by apply runs_modify|]. intros _ s3 Hs3.
  assert (quiet s s3) as Hq by quietly.
  eapply ends_bind; [apply enqueue_waiter_spec; by rewrite (proj1 Hq)|]. intros [] s4 [Hm Hr].
  eapply ends_mono; [apply refreshView_spec|]. intros [] s5 Hs5.
  split; [|by rewrite (proj1 Hs5)]. eapply moved_quiet; [|exact Hs5]. eapply moved_trans; [apply quiet_moved, Hq|done].
Qed.

(** What an attempt that begins leaves: the waiter at rest, or out with its worker. *)
Definition begun h (d : RoutingDecision) (s s' : Fleet) : Prop :=
  (moved h [] s s' ∧ resting (fl_queue s') h)
  ∨ moved h [MkAttempt h (dn_workerId d) d false] s s' ∧ status (fl_queue s') h = Some w_processing
    ∧ dn_workerId d ∈ fl_live s.

Lemma beginAttempt_spec h d rename s : is_Some (status (fl_queue s) h) →
  ends (beginAttempt gatewayRequesterPrefix now h d rename) s (λ _ s', begun h d s s').
Proof.
  intros [w Hw]%status_Some. unfold beginAttempt. apply runs_bind.
  destruct (isTerminal (w_state w)) eqn:Ht; [|destruct (past_deadline now w) eqn:Hp];
    (eapply ends_on_queue; [by rewrite markProcessing_eval, Hw, Ht, ?Hp|]); intros s1 Hq Ha Hf;
    cbv beta iota delta [negb].
  - apply runs_ret. left. split; [by apply quiet_moved|]. rewrite Hq.
    exact (resting_terminal _ _ _ (status_of _ _ _ Hw) Ht).
  - apply runs_ret. left. destruct (touched_timed_out h _ w Hw Ht) as [Hto Hst]. rewrite <- Hq in Hto, Hst.
    split; [split; [done|by rewrite app_nil_r|done]|by eapply resting_terminal].
  - set (w' := w <| w_state := w_processing |>) in Hq.
    assert (touched h (fl_queue s) (fl_queue s1)) as Hto.
    { rewrite Hq. eapply touched_put; [done..|]. intros Hok. eapply queue_ok_put; [done..|].
      destruct (qo_waiter _ Hok h w Hw) as (_ & _ & Htm). split_and!; [done..|].
      intros t Hti. destruct (Htm t Hti) as [_ ?]. done. }
    assert (status (fl_queue s1) h = Some w_processing) as Hst by (rewrite Hq; apply status_insert).
    assert (moved h [] s s1) as Hm by (split; [done|by rewrite app_nil_r|done]).
    unfold start_attempt. apply runs_bind, runs_get. unfold Arr.includes. case_bool_decide as Hlive; cbn [negb].
    + destruct (proj1 (status_Some (fl_queue s1) h)) as [w1 Hw1]; [by rewrite Hst|].
      apply (ends_waiter h s1 w1 _ _ Hw1). intros s2 Hs2. apply runs_bind, ends_emit. intros s3 Hs3.
      assert (quiet s1 s3) as (Hq3 & Ha3 & Hf3) by quietly. apply runs_modify. right.
      split_and!; [split|by cbn; rewrite Hq3|by rewrite <- (proj2 (proj2 Hf))].
      * cbn. by rewrite Hq3.
      * cbn. by rewrite Ha3, Ha.
      * by eapply frame_trans, Hf3.
    + eapply ends_mono; [apply staleView_spec; by rewrite Hst|]. intros [] s2 [Hm2 Hr]. left.
      split; [by eapply moved_trans|done].
Qed.

(** A walk that attempts nothing leaves the waiter as it was, or ends it. *)
Definition kept h (s s' : Fleet) : Prop :=
  moved h [] s s' ∧ (status (fl_queue s') h = status (fl_queue s) h
                     ∨ ∃ st, status (fl_queue s') h = Some st ∧ isTerminal st = true).
Lemma quiet_kept h s s' : quiet s s' → kept h s s'.
Proof. intros Hs. split; [by apply quiet_moved|]. left. by rewrite (proj1 Hs). Qed.
Lemma kept_after h s s' s'' : quiet s s' → kept h s' s'' → kept h s s''.
Proof.
  intros Hs [Hm Hst]. split; [eapply moved_trans; [apply quiet_moved, Hs|done]|]. by rewrite <- (proj1 Hs).
Qed.
Lemma begun_after h d s s' s'' : quiet s s' → begun h d s' s'' → begun h d s s''.
Proof.
  intros Hs [[Hm Hr]|(Hm & Hr & Hl)]; [left|right].
  - split; [|done]. eapply moved_trans; [apply quiet_moved, Hs|done].
  - split; [eapply moved_trans; [apply quiet_moved, Hs|done]|]. split; [done|].
    by rewrite <- (proj2 (proj2 (proj2 (proj2 Hs)))).
Qed.

Lemma rejectUnservable_spec h verdict refusals s : is_Some (status (fl_queue s) h) →
  ends (rejectUnservable h verdict refusals) s (λ _ s', kept h s s').
Proof.
  intros Hst. unfold rejectUnservable. case_match; (eapply ends_mono; [by apply reject_waiter_spec|]);
    intros [] s' [Hm Ht]; split; auto.
Qed.
Lemma rejectIfEvery_spec h request views s : is_Some (status (fl_queue s) h) →
  ends (rejectIfEveryWorkerFailedProvisioning h request views) s (λ _ s', kept h s s').
Proof.
  intros Hst. unfold rejectIfEveryWorkerFailedProvisioning. apply runs_bind, runs_get.
  destruct (fl_refusals s !! h) as [refusals|]; [|by apply runs_ret, quiet_kept]. cbv zeta.
  destruct (last _) as [[workerId e]|]; [|by apply runs_ret, quiet_kept].
  destruct (_ <? _); [by apply runs_ret, quiet_kept|].
  eapply ends_mono; [by apply reject_waiter_spec|]. intros [] s' [Hm Ht]; split; auto.
Qed.

Context `{!RoutingPolicyLaws}.

(** What a walk answers, and what it leaves. *)
Definition walked h (rq : DeviceRequest) (claims : PassClaims) (s : Fleet) (r : PassClaims * bool) (s' : Fleet) : Prop :=
  if r.2 then ∃ d, r.1 = claim_worker rq (dn_workerId d) claims
    ∧ (claim_key rq (dn_workerId d) ∉ claimed_keys rq claims)
    ∧ dn_workerId d ∈ wv_id <$> routing_views s ∧ begun h d s s'
  else r.1 = claims ∧ kept h s s'.

Lemma walkWaiter_spec h w claims s : store (fl_queue s) !! h = Some w →
  ends (walkWaiter gatewayRequesterPrefix now h claims) s (walked h (w_request w) claims s).
Proof.
  intros Hw. unfold walkWaiter. apply (ends_waiter h s w _ _ Hw). intros s1 Hs1. apply runs_bind, runs_get. cbv zeta.
  assert (∀ s', quiet s s' → is_Some (status (fl_queue s') h)) as Hlive.
  { intros s' Hs'. rewrite (proj1 Hs'). apply status_Some. eauto. }
  destruct (policy_assess _ _) as [|verdict]; last first.
  { eapply ends_bind; [by apply rejectUnservable_spec, Hlive|]. intros [] s2 Hk. apply runs_ret.
    split; [done|]. by eapply kept_after. }
  eapply ends_bind; [apply reasonsFor_spec|]. intros entries s2 Hs2.
  eapply ends_bind with (P := λ _ s', quiet s2 s'); [by apply runs_modify|]. intros [] s3 Hs3.
  eapply ends_bind; [apply eligible_workers_spec|]. intros eligible s4 [Hs4 Hel].
  assert (quiet s s4) as Hq by quietly. destruct (policy_select _ eligible) as [d|] eqn:Hd.
  - eapply ends_bind; [by apply beginAttempt_spec, Hlive|]. intros [] s5 Hb. apply runs_ret. exists d.
    destruct (policy_picks _ _ _ Hd) as (v & Hv & Hid). destruct (Hel v Hv) as [Hviews Hun]. split_and!; [done|..].
    + rewrite <- Hid. by apply bool_decide_eq_false in Hun.
    + rewrite <- Hid. apply list_elem_of_fmap_2. apply elem_of_afilter in Hviews as [Hviews _].
      unfold routing_views in *. by rewrite <- (proj1 (proj2 (proj2 (proj2 Hs1)))).
    + by eapply begun_after.
  - eapply ends_bind; [by apply rejectIfEvery_spec, Hlive|]. intros [] s5 Hk. apply runs_ret.
    split; [done|]. by eapply kept_after.
Qed.

(** *** A pass *)

Definition request_of (q : WaitQueue) h : option DeviceRequest := w_request <$> store q !! h.
(** What an attempt claims of its worker for the rest of the pass. *)
Definition claim_of (q : WaitQueue) (a : Attempt) : option (QueueLine * string) :=
  rq ← request_of q (at_waiter a); Some (lineOf rq, claim_key rq (at_workerId a)).
Definition claimed_in (claims : PassClaims) (c : QueueLine * string) : Prop :=
  c.2 ∈ match c.1 with line_physical => pc_physical claims | line_virtual => pc_virtual claims end.

Lemma request_of_touched h q q' k : touched h q q' → is_Some (status q h) → request_of q' k = request_of q k.
Proof.
  intros [_ Ho Hs] [w Hw]%status_Some. unfold request_of. destruct (decide (k = h)) as [->|Hk]; [|by rewrite Ho].
  destruct (Hs w Hw) as (w' & -> & Hr & _). rewrite Hw. cbn. by rewrite Hr.
Qed.
Lemma claim_worker_claims rq i claims c : claimed_in (claim_worker rq i claims) c ↔
  c = (lineOf rq, claim_key rq i) ∨ claimed_in claims c.
Proof.
  unfold claimed_in, claim_worker. destruct c as [line key]. cbn. destruct (lineOf rq) eqn:Hl, line; cbn;
    rewrite ?Ordered.elem_of_add; naive_solver.
Qed.
Lemma unclaimed rq i claims : claim_key rq i ∉ claimed_keys rq claims ↔ ¬ claimed_in claims (lineOf rq, claim_key rq i).
Proof. unfold claimed_in, claimed_keys. cbn. by destruct (lineOf rq). Qed.

(** The attempts a pass has begun: in the order of the waiters it has seen, each with a reachable
    worker of the views, and no two with the same claim. *)
Record pass_ok (s0 : Fleet) (seen : list nat) (new : list Attempt) (claims : PassClaims) (s : Fleet) : Prop := {
  po_attempts : fl_attempts s = fl_attempts s0 ++ new;
  po_frame : frame s0 s;
  po_requests k : request_of (fl_queue s) k = request_of (fl_queue s0) k;
  po_order : sublist (out_with new) seen;
  po_worker a : a ∈ new → at_workerId a ∈ fl_live s0 ∧ at_workerId a ∈ wv_id <$> routing_views s0;
  po_claimed a : a ∈ new → ∃ c, claim_of (fl_queue s0) a = Some c ∧ claimed_in claims c;
  po_distinct : NoDup (claim_of (fl_queue s0) <$> new) }.

Lemma pass_ok_start s : pass_ok s [] [] (MkPassClaims [] []) s.
Proof.
  split; [by rewrite app_nil_r|done|done|constructor| | |constructor]; by intros a ?%elem_of_nil.
Qed.
Lemma pass_ok_moved h s0 seen new claims s s' : pass_ok s0 seen new claims s → moved h [] s s' →
  is_Some (status (fl_queue s) h) → pass_ok s0 (seen ++ [h]) new claims s'.
Proof.
  intros [Ha Hf Hr Ho Hw Hc Hd] [Hto Ha' Hf'] Hst. split; try done.
  - by rewrite Ha', Ha, app_nil_r.
  - by eapply frame_trans.
  - intros k. rewrite <- Hr. by eapply request_of_touched.
  - by apply sublist_inserts_r.
Qed.
Lemma pass_ok_attempt s0 seen new claims s s' rq a : pass_ok s0 seen new claims s → moved (at_waiter a) [a] s s' →
  request_of (fl_queue s) (at_waiter a) = Some rq →
  at_workerId a ∈ fl_live s → at_workerId a ∈ wv_id <$> routing_views s →
  claim_key rq (at_workerId a) ∉ claimed_keys rq claims →
  pass_ok s0 (seen ++ [at_waiter a]) (new ++ [a]) (claim_worker rq (at_workerId a) claims) s'.
Proof.
  intros [Ha Hf Hr Ho Hw Hc Hd] [Hto Ha' Hf'] Hrq Hl Hv Hun.
  assert (is_Some (status (fl_queue s) (at_waiter a))) as Hst.
  { unfold request_of in Hrq. apply fmap_Some in Hrq as (w & Hw' & _). apply status_Some. eauto. }
  assert (claim_of (fl_queue s0) a = Some (lineOf rq, claim_key rq (at_workerId a))) as Hca.
  { unfold claim_of. by rewrite <- Hr, Hrq. }
  split.
  - by rewrite Ha', Ha, app_assoc.
  - by eapply frame_trans.
  - intros k. rewrite <- Hr. by eapply request_of_touched.
  - unfold out_with. rewrite fmap_app. by apply sublist_app.
  - intros b [Hb| ->%list_elem_of_singleton]%elem_of_app; [auto|]. destruct Hf as (_ & Hwk & Hlv).
    unfold routing_views in *. by rewrite <- Hwk, <- Hlv.
  - intros b [Hb| ->%list_elem_of_singleton]%elem_of_app.
    + destruct (Hc b Hb) as (c & ? & ?). exists c. rewrite claim_worker_claims. auto.
    + exists (lineOf rq, claim_key rq (at_workerId a)). rewrite claim_worker_claims. auto.
  - rewrite fmap_app. apply NoDup_app. split_and!; [done| |apply NoDup_singleton].
    intros c (b & -> & Hb)%list_elem_of_fmap Heq%list_elem_of_singleton.
    destruct (Hc b Hb) as (c & Hcb & Hin). rewrite Hca, Hcb in Heq. simplify_eq. by apply unclaimed in Hun.
Qed.
Lemma pass_ok_claim s0 seen new claims s rq i : pass_ok s0 seen new claims s →
  pass_ok s0 seen new (claim_worker rq i claims) s.
Proof.
  intros [? ? ? ? ? Hc ?]. split; try done. intros a Ha. destruct (Hc a Ha) as (c & ? & ?). exists c.
  rewrite claim_worker_claims. auto.
Qed.

Definition fok (X : list nat) (s : Fleet) : Prop := fleet_ok X (fl_queue s) (fl_attempts s) (fl_admitting s).

Lemma fok_quiet X s s' : fok X s → quiet s s' → fok X s'.
Proof. unfold fok. by intros Hok (-> & -> & -> & _). Qed.
Lemma fok_moved X h s s' : fok X s → h ∈ X → moved h [] s s' → fok X s'.
Proof.
  unfold fok. intros Hok Hh [Hto -> [-> _]]. rewrite app_nil_r. by eapply ok_touched.
Qed.
Lemma fok_rest X h s s' : fok (h :: X) s → moved h [] s s' → resting (fl_queue s') h → fok X s'.
Proof. intros Hok Hm Hr. eapply ok_drop; [|done]. eapply fok_moved; [done|by left|done]. Qed.
Lemma fok_begun X h d s s' : fok (h :: X) s → h ∉ X → begun h d s s' → fok X s'.
Proof.
  intros Hok HX [[Hm Hr]|(Hm & Hst & _)]; [by eapply fok_rest|]. destruct Hm as [Hto Ha [Hf _]]. unfold fok.
  rewrite Ha, Hf. apply ok_sent; [|done|done]. eapply ok_touched; [done|by left|done].
Qed.
Lemma kept_resting h s s' : status (fl_queue s) h = Some w_queued → kept h s s' → resting (fl_queue s') h.
Proof.
  intros Hst [_ [Heq|(st & Hs & Ht)]]; [apply resting_queued; congruence|by eapply resting_terminal].
Qed.

(** The candidate is in hand until it is attempted. *)
Definition hand (candidate : option nat) (attempted : list nat) : list nat :=
  match candidate with Some c => if bool_decide (c ∈ attempted) then [] else [c] | None => [] end.
Lemma elem_of_hand candidate attempted h : h ∈ hand candidate attempted ↔ candidate = Some h ∧ h ∉ attempted.
Proof.
  unfold hand. destruct candidate as [c|]; [|set_solver]. case_bool_decide; set_solver.
Qed.
Lemma hand_attempted candidate attempted h : candidate ≠ Some h →
  hand candidate (attempted ++ [h]) = hand candidate attempted.
Proof.
  intros Hne. unfold hand. destruct candidate as [c|]; [|done].
  rewrite (bool_decide_ext (c ∈ attempted ++ [h]) (c ∈ attempted)); [done|]. set_solver.
Qed.

(** One waiter of the pass. *)
Lemma walk_one h w claims candidate attempted s0 seen new s : store (fl_queue s) !! h = Some w →
  (candidate = Some h ∨ w_state w = w_queued) → (h ∉ seen) → (∀ k, k ∈ attempted → k ∈ seen) →
  fok (hand candidate attempted) s → pass_ok s0 seen new claims s →
  ends (walkWaiter gatewayRequesterPrefix now h claims) s (λ r s',
    fok (hand candidate (if r.2 then attempted ++ [h] else attempted)) s'
    ∧ ∃ new', pass_ok s0 (seen ++ [h]) new' r.1 s').
Proof.
  intros Hw Hor Hseen Hatt Hok Hpass. pose proof (status_of _ _ _ Hw) as Hst.
  assert (is_Some (status (fl_queue s) h)) as Hlive by by rewrite Hst.
  eapply ends_mono; [by apply walkWaiter_spec|]. intros [claims' went] s' Hwalk. unfold walked in Hwalk. cbn in *.
  destruct went.
  - destruct Hwalk as (d & -> & Hun & Hv & Hb). split.
    + destruct (decide (candidate = Some h)) as [->|Hne].
      * unfold hand in *. rewrite bool_decide_eq_false_2 in Hok by auto. rewrite bool_decide_eq_true_2 by set_solver.
        eapply fok_begun; [done|set_solver|done].
      * rewrite hand_attempted by done. destruct Hor as [?|Hqd]; [done|]. eapply fok_begun; [|rewrite elem_of_hand; naive_solver|done].
        apply ok_take_queued; [done|congruence].
    + destruct Hb as [[Hm Hr]|(Hm & _ & Hl)].
      * exists new. by apply pass_ok_claim, (pass_ok_moved h) with (s := s).
      * exists (new ++ [MkAttempt h (dn_workerId d) d false]). set (a := MkAttempt h (dn_workerId d) d false) in *.
        apply (pass_ok_attempt s0 seen new claims s s' (w_request w) a); try done. unfold request_of. cbn. by rewrite Hw.
  - destruct Hwalk as [-> Hk]. split.
    + destruct (decide (candidate = Some h)) as [->|Hne].
      * eapply fok_moved; [done|by apply elem_of_hand; auto|apply Hk].
      * destruct Hor as [?|Hqd]; [done|]. eapply fok_rest; [|apply Hk|].
        -- apply ok_take_queued; [done|congruence].
        -- eapply kept_resting; [|done]. congruence.
    + exists new. by eapply pass_ok_moved; [|apply Hk|].
Qed.

Lemma walk_each_spec candidate hs s0 : ∀ seen new claims attempted s, NoDup (seen ++ hs) →
  (∀ h, h ∈ hs → is_Some (request_of (fl_queue s0) h)) → (∀ k, k ∈ attempted → k ∈ seen) →
  fok (hand candidate attempted) s → pass_ok s0 seen new claims s →
  ends (walk_each gatewayRequesterPrefix now candidate hs claims attempted) s (λ attempted' s',
    fok (hand candidate attempted') s' ∧ ∃ new' claims', pass_ok s0 (seen ++ hs) new' claims' s').
Proof.
  induction hs as [|h hs IH]; intros seen new claims attempted s Hnd Hin Hatt Hok Hpass; cbn [walk_each].
  { apply runs_ret. rewrite app_nil_r. eauto. }
  assert (∃ w, store (fl_queue s) !! h = Some w) as [w Hw].
  { destruct (Hin h) as [rq Hrq]; [by left|]. rewrite <- (po_requests _ _ _ _ _ Hpass) in Hrq.
    apply fmap_Some in Hrq as (w & ? & _). eauto. }
  assert (h ∉ seen) as Hh by (apply NoDup_app in Hnd as (_ & Hd & _); intros Hs; apply (Hd h Hs); by left).
  apply (ends_waiter h s w _ _ Hw). intros s1 Hs1.
  assert (seen ++ h :: hs = (seen ++ [h]) ++ hs) as Happ by by rewrite <- app_assoc. rewrite Happ in Hnd |- *. clear Happ.
  pose proof (fok_quiet _ _ _ Hok Hs1) as Hok1. rewrite <- (proj1 Hs1) in Hw.
  destruct ((candidate !== Some h) && (w_state w !== w_queued)) eqn:Hskip.
  - apply (IH (seen ++ [h]) new); [done|intros; apply Hin; by right|set_solver|done|].
    eapply pass_ok_moved; [done|by apply quiet_moved|]. rewrite <- (proj1 Hs1). apply status_Some. eauto.
  - assert (pass_ok s0 seen new claims s1) as Hpass1.
    { destruct Hpass as [Ha Hf Hr]. destruct Hs1 as (Hq & Ha1 & Hf1). split; try done; [congruence|by eapply frame_trans|].
      by rewrite Hq. }
    eapply ends_bind.
    { apply (walk_one h w claims candidate attempted s0 seen new s1); [done|..|done|done|done|done].
      apply andb_false_iff in Hskip as [Hs|Hs]; apply negb_false_iff, bool_decide_eq_true in Hs; auto. }
    intros [claims' went] s2 (Hok2 & new' & Hpass2).
    apply (IH (seen ++ [h]) new'); [done|intros; apply Hin; by right| |done|done]. destruct went; set_solver.
Qed.

Lemma dispatchPass_spec candidate s : fok (hand candidate []) s →
  ends (dispatchPass gatewayRequesterPrefix now candidate) s (λ went s',
    fok (if went then [] else hand candidate []) s'
    ∧ ∃ new claims, pass_ok s (pass_line candidate (fl_queue s)) new claims s').
Proof.
  intros Hok. unfold dispatchPass. apply runs_bind, runs_get. cbv zeta.
  set (hs := pass_line candidate (fl_queue s)).
  assert (queue_ok (fl_queue s)) as Hq by apply Hok.
  assert (∀ h, h ∈ hs → h ∈ waiters (fl_queue s) ∨ candidate = Some h) as Hmem.
  { intros h. unfold hs, pass_line, Arr.includes. destruct candidate as [c|]; [case_bool_decide|]; set_solver. }
  eapply ends_bind.
  { apply (walk_each_spec candidate hs s [] [] (MkPassClaims [] []) [] s); [|..|done|apply pass_ok_start].
    - cbn. unfold hs, pass_line, Arr.includes. pose proof (qo_waiters_nd _ Hq) as Hnd. destruct candidate as [c|]; [|done].
      case_bool_decide as Hc; [done|]. apply NoDup_app. split_and!; [done|set_solver|apply NoDup_singleton].
    - intros h [Hh|Hc]%Hmem; unfold request_of; apply fmap_is_Some.
      + destruct (proj1 (qo_pending _ Hq h)) as (w & Hw & _); [by apply (qo_waiters _ Hq)|eauto].
      + destruct (proj1 (status_Some (fl_queue s) h)) as [w Hw]; [|eauto].
        apply (fo_hand _ _ _ _ Hok). rewrite elem_of_hand. set_solver.
    - set_solver. }
  intros attempted s' (Hok' & new & claims & Hpass). apply runs_ret. split; [|eauto 6].
  unfold hand in Hok' |- *. unfold Arr.includes. destruct candidate as [c|]; [|done]. by case_bool_decide.
Qed.

(** ** Every operation leaves nothing in hand *)

Lemma dispatch_spec s : fok [] s → ends (dispatch gatewayRequesterPrefix now None) s (λ _ s', fok [] s').
Proof.
  intros Hok. eapply ends_mono; [by apply dispatchPass_spec|]. intros went s' [Hok' _]. by destruct went.
Qed.
Lemma hand_live X h s : fok (h :: X) s → is_Some (status (fl_queue s) h).
Proof. intros Hok. apply (fo_hand _ _ _ _ Hok). by left. Qed.
Lemma reject_in_hand X h e why f s : fok (h :: X) s → ends (reject_waiter h e why f) s (λ _ s', fok X s').
Proof.
  intros Hok. eapply ends_mono; [eapply reject_waiter_spec, hand_live, Hok|]. intros [] s' (Hm & st & Hst & Ht).
  eapply fok_rest; [done..|]. by eapply resting_terminal.
Qed.
Lemma staleView_in_hand h workerId u s : fok [h] s → ends (staleView now h workerId u) s (λ _ s', fok [] s').
Proof.
  intros Hok. eapply ends_mono; [eapply staleView_spec, hand_live, Hok|]. intros [] s' [Hm Hr]. by eapply fok_rest.
Qed.
Lemma admit_waiter_spec h s : fok [h] s → ends (admit_waiter gatewayRequesterPrefix now h) s (λ _ s', fok [] s').
Proof.
  intros Hok. unfold admit_waiter. eapply ends_bind; [by apply dispatchPass_spec|]. intros went s1 [Hok1 _].
  destruct went; [by apply runs_ret|]. unfold hand in Hok1. rewrite bool_decide_eq_false_2 in Hok1 by set_solver.
  destruct (proj1 (status_Some (fl_queue s1) h)) as [w Hw]; [by eapply hand_live|].
  apply (ends_waiter h s1 w _ _ Hw). intros s2 Hs2. pose proof (fok_quiet _ _ _ Hok1 Hs2) as Hok2.
  destruct (ro_noWait (w_options w)); [by apply reject_in_hand|].
  eapply ends_mono; [eapply enqueue_waiter_spec, hand_live, Hok2|]. intros [] s3 [Hm Hr]. by eapply fok_rest.
Qed.

Lemma announceDispatched_spec h d s : is_Some (status (fl_queue s) h) →
  ends (announceDispatched now h d) s (λ _ s', quiet s s').
Proof.
  intros [w Hw]%status_Some. unfold announceDispatched. apply runs_bind, runs_get.
  apply (ends_waiter h s w _ _ Hw). intros s1 Hs1. apply ends_emit. intros s2 Hs2. quietly.
Qed.

(** Steps that read or remember, then go on. *)
Ltac quiet_step lemma Hok :=
  eapply ends_bind; [apply lemma|]; let a := fresh in let s1 := fresh "s1" in let Hs := fresh in
  intros a s1 Hs; apply (fok_quiet _ _ _ Hok) in Hs; clear Hok; rename Hs into Hok.

Lemma attempt_failed_spec a error s : fok [at_waiter a] s →
  ends (attempt_failed gatewayRequesterPrefix now a error) s (λ _ s', fok [] s').
Proof.
  intros Hok. unfold attempt_failed. cbv zeta.
  set (terminal := (_ ← reject_waiter _ _ _ _; _)%stdpp).
  assert (ends terminal s (λ _ s', fok [] s')) as Hterminal.
  { eapply ends_bind; [by apply reject_in_hand|]. intros [] s1 Hok1. eapply ends_bind; [by apply dispatch_spec|].
    intros b s2 Hok2. by apply runs_ret. }
  destruct error as [code message transport reason details|e|]; [|done..].
  destruct (at_announced a); [done|]. destruct (Arr.includes code STALE_VIEW_CODES); [|destruct (code === _)].
  - quiet_step rememberRefusal_spec Hok.
    destruct (proj1 (status_Some (fl_queue s1) (at_waiter a))) as [w Hw]; [by eapply hand_live|].
    apply (ends_waiter (at_waiter a) s1 w _ _ Hw). intros s2 Hs2. apply (fok_quiet _ _ _ Hok) in Hs2.
    destruct (ro_noWait (w_options w)); [|by apply staleView_in_hand].
    quiet_step refreshView_spec Hs2. by apply admit_waiter_spec.
  - quiet_step rememberRefusal_spec Hok. quiet_step refreshView_spec Hok. by apply admit_waiter_spec.
  - destruct (Arr.includes code CANNOT_SERVE_CODES); [|done].
    quiet_step rememberCannotServe_spec Hok. quiet_step refreshView_spec Hok. by apply admit_waiter_spec.
Qed.

Lemma settleGrant_spec h workerId grant s : fok [h] s →
  ends (settleGrant h workerId grant) s (λ r s', fok (match r with settled_ => [] | retry_ => [h] end) s').
Proof.
  intros Hok. unfold settleGrant. destruct (proj1 (status_Some (fl_queue s) h)) as [w Hw]; [by eapply hand_live|].
  apply (ends_waiter h s w _ _ Hw). intros s1 Hs1. apply (fok_quiet _ _ _ Hok) in Hs1 as Hok1. rewrite <- (proj1 Hs1) in Hw.
  cbv zeta. destruct (match ro_leaseId _ with Some _ => _ | None => _ end).
  { apply runs_bind, ends_emit. intros s2 Hs2. apply runs_ret. by eapply fok_quiet. }
  apply runs_bind, runs_get. destruct (add _ _ _) as [index added]. apply runs_bind, runs_modify.
  set (s2 := s1 <| fl_index := index |>). assert (fok [h] s2) as Hok2 by done. destruct added; cbn [negb].
  - change (store (fl_queue s2) !! h = Some w) in Hw. apply runs_bind.
    destruct (isTerminal (w_state w)) eqn:Ht.
    + eapply ends_on_queue; [by rewrite resolve_eval, Hw, Ht|]. intros s3 Hq Ha Hf.
      assert (quiet s2 s3) as Hs3 by done. apply runs_bind, runs_ret, runs_ret.
      eapply fok_rest; [exact Hok2|by apply quiet_moved|]. rewrite Hq. exact (resting_terminal _ _ _ (status_of _ _ _ Hw) Ht).
    + eapply ends_on_queue; [by rewrite resolve_eval, Hw, Ht|]. intros s3 Hq Ha Hf.
      apply runs_bind, ends_emit. intros s4 Hs4. apply runs_ret. eapply fok_quiet; [|exact Hs4].
      match type of Hq with _ = settled _ _ _ _ ?e =>
        destruct (touched_settled h (fl_queue s2) w w_granted e Hw Ht eq_refl) as [Hto Hst]; [done|] end.
      rewrite <- Hq in Hto, Hst. eapply fok_rest; [exact Hok2| |by eapply resting_terminal].
      split; [done|by rewrite app_nil_r|done].
  - apply runs_bind, ends_emit. intros s3 Hs3. apply (fok_quiet _ _ _ Hok2) in Hs3.
    eapply ends_bind; [by apply reject_in_hand|]. intros [] s4 Hok4. by apply runs_ret.
Qed.

Lemma attempt_answered_spec a answer s : fok [] s → a ∈ fl_attempts s →
  ends (attempt_answered gatewayRequesterPrefix now a answer) s (λ _ s', fok [] s').
Proof.
  intros Hok Ha. unfold attempt_answered. cbv zeta. apply runs_bind, runs_modify.
  set (s1 := s <| fl_attempts := _ |>). assert (fok [at_waiter a] s1) as Hok1 by by apply ok_end_attempt.
  destruct answer as [[grant|]|error]; [|by apply attempt_failed_spec..].
  eapply ends_bind with (P := λ _ s', fok [at_waiter a] s').
  { destruct (at_announced a); [by apply runs_ret|]. eapply ends_mono; [eapply announceDispatched_spec, hand_live, Hok1|].
    intros [] s2 Hs2. by eapply fok_quiet. }
  intros [] s2 Hok2. eapply ends_bind; [by apply settleGrant_spec|]. intros [] s3 Hok3.
  - eapply ends_bind; [by apply dispatch_spec|]. intros b s4 Hok4. by apply runs_ret.
  - quiet_step rememberRefusal_spec Hok3. by apply staleView_in_hand.
Qed.

Lemma attempt_progress_spec a p s : fok [] s → a ∈ fl_attempts s →
  ends (attempt_progress now a p) s (λ _ s', fok [] s').
Proof.
  intros Hok Ha. assert (is_Some (status (fl_queue s) (at_waiter a))) as Hlive.
  { destruct (fo_attempt _ _ _ _ Hok (at_waiter a)) as (_ & _ & st & -> & _); [|done]. by apply list_elem_of_fmap_2. }
  unfold attempt_progress. eapply ends_bind with (P := λ _ s', fok [] s' ∧ fl_queue s' = fl_queue s).
  { destruct (at_announced a); [by apply runs_ret|]. eapply ends_bind; [by apply announceDispatched_spec|].
    intros [] s1 Hs1. apply runs_modify. split; [|apply Hs1]. eapply (ok_out [] _ (fl_attempts s1)).
    - change (fok [] s1). by eapply fok_quiet.
    - unfold out_with. cbn. rewrite <- list_fmap_compose. apply list_fmap_ext. intros i b _. cbn. unfold set_announced.
      by destruct (_ === _). }
  intros [] s1 [Hok1 Hq]. destruct (proj1 (status_Some (fl_queue s1) (at_waiter a))) as [w Hw]; [by rewrite Hq|].
  destruct (isTerminal (w_state w)) eqn:Ht;
    (eapply ends_on_queue; [unfold notifyProgress; rewrite (bind_eval _ _ _ _ _ (mutable_Some _ _ w Hw)), Ht; done|]);
    intros s2 Hq2 Ha2 (Hf2 & _); unfold fok; rewrite Hq2, Ha2, Hf2; [done|].
  eapply ok_ended; [exact Hok1| |by left]. apply queue_ok_log; [apply Hok1|]. by intros k e ->%list_elem_of_singleton.
Qed.

Lemma limit_free rq requesterId maxPerRequester s : refuseIfAlreadyLeased maxPerRequester now s rq requesterId = None →
  rq_platform rq ∉ pendingPlatforms (fl_queue s) requesterId.
Proof.
  unfold refuseIfAlreadyLeased. intros Hlim. match type of Hlim with requesterLimitDecision ?input = _ =>
    pose proof (requester_limit_spec input) as Hs end. cbv zeta in Hs. rewrite Hlim in Hs. apply Hs.
Qed.
Lemma free_asks q requesterId platform : queue_ok q → platform ∉ pendingPlatforms q requesterId →
  ∀ k, live q k → asks q k ≠ Some (requesterId, platform).
Proof.
  intros Hq Hfree k (st & Hst & Ht) Heq. apply Hfree. unfold pendingPlatforms. apply list_elem_of_omap.
  unfold status in Hst. apply fmap_Some in Hst as (w & Hw & ->). exists k. split; [apply (qo_pending q Hq); eauto|].
  unfold asks in Heq. rewrite Hw in Heq |- *. cbn in *. simplify_eq. by rewrite bool_decide_eq_true_2.
Qed.

Lemma request_section_spec maxPerRequester rq opt requestId held s : fok [] s →
  ends (request_section maxPerRequester now rq opt requestId held) s (λ _ s', fok [] s').
Proof.
  intros Hok. unfold request_section. apply runs_bind, runs_get.
  eapply ends_bind with (P := λ r s', quiet s s' ∧
    ((∃ n, r = Ok n) → rq_platform rq ∉ pendingPlatforms (fl_queue s) (ro_requesterId opt))).
  { assert (∀ e, ¬ ∃ n, Err e = @Ok RequestRefusal nat n) as Herr by naive_solver.
    destruct (refuseIfAlreadyLeased _ _ _ _ _) eqn:Hlim.
    { apply runs_bind, ends_emit. intros s' Hs'. split; [done|]. by intros ?%Herr. }
    apply limit_free in Hlim. destruct (ro_leaseId opt); [|by apply runs_ret].
    destruct (match resolve_lease _ _ with Some _ => _ | None => _ end); [|by apply runs_ret].
    apply runs_bind, ends_emit. intros s' Hs'. split; [done|]. by intros ?%Herr. }
  intros [n|e] s1 [Hs1 Hfree]; [|apply runs_ret; by eapply fok_quiet]. specialize (Hfree (ex_intro _ n eq_refl)).
  rewrite <- (proj1 Hs1) in Hfree. apply (fok_quiet _ _ _ Hok) in Hs1. clear Hok.
  apply runs_bind. eapply ends_on_queue; [apply create_eval|]. intros s2 Hq Ha (Hf & _).
  apply runs_bind, runs_modify. apply runs_bind, ends_emit. intros s3 Hs3. apply runs_ret.
  eapply fok_quiet; [|exact Hs3]. unfold fok. cbn. rewrite Hf, Ha, Hq.
  assert (queue_ok (fl_queue s1)) as Hqok by apply Hs1.
  eapply ok_created; [exact Hs1|by apply (queue_ok_create requestId rq opt (Some requestId))|..].
  - unfold status. destruct (store (fl_queue s1) !! _) as [w|] eqn:E; [|done]. apply (qo_fresh _ Hqok) in E. lia.
  - unfold status. cbn. by rewrite lookup_insert_eq.
  - intros k Hk. cbn. by rewrite lookup_insert_ne.
  - unfold asks at 2. cbn. rewrite lookup_insert_eq. cbn. by apply free_asks.
Qed.

Lemma request_admitted_spec h s : fok [] s → h ∈ fl_admitting s →
  ends (request_admitted gatewayRequesterPrefix now h) s (λ _ s', fok [] s').
Proof.
  intros Hok Hh. unfold request_admitted. apply runs_bind, runs_modify. apply admit_waiter_spec. by apply ok_admitted.
Qed.

Lemma cancelPending_spec requesterId platform s : fok [] s →
  ends (cancelPending requesterId platform) s (λ _ s', fok [] s').
Proof.
  intros Hok. unfold cancelPending. apply runs_bind, runs_get.
  destruct (findPendingWaiter _ _ _) as [h|] eqn:Hh; [|by apply runs_ret].
  apply afind_Some in Hh as [Hh _]. apply (qo_pending _ (fo_queue _ _ _ _ Hok)) in Hh as (w & Hw & _).
  apply (ends_waiter h s w _ _ Hw). intros s1 Hs1. apply (fok_quiet _ _ _ Hok) in Hs1 as Hok1. rewrite <- (proj1 Hs1) in Hw.
  case_bool_decide as Hst; cbn [negb]; [|by apply runs_ret].
  eapply ends_bind; [eapply reject_in_hand, ok_take_queued; [exact Hok1|]|].
  - by rewrite (status_of _ _ _ Hw), Hst.
  - intros [] s2 Hok2. by apply runs_ret.
Qed.

Lemma dispose_spec s : fok [] s → ends dispose s (λ _ s', fok [] s').
Proof.
  intros Hok. unfold dispose. pose proof (fo_queue _ _ _ _ Hok) as Hq. apply runs_bind.
  destruct (cancel_each_spec (λ _, DispatchFailed "DAEMON_STOPPING" "Gateway is stopping")
    (pendingWaiters (fl_queue s)) (fl_queue s) Hq (qo_pending_nd _ Hq)) as (q' & Hrun & Hq' & _ & _ & Hrej & Hoth & _);
    [done|].
  eapply ends_on_queue; [unfold cancelAll; rewrite (bind_eval get _ (fl_queue s) (fl_queue s) (fl_queue s)) by done; exact Hrun|].
  intros s' Hqs Ha (Hf & _). apply runs_ret. unfold fok. rewrite Hqs, Ha, Hf. eapply ok_ended; [exact Hok|done|].
  intros k. destruct (decide (k ∈ pendingWaiters (fl_queue s))) as [Hk|Hk].
  - right. destruct (Hrej k Hk) as (w & Hw & Hst). split.
    + apply (qo_pending _ Hq) in Hk as (w' & Hw' & _). apply status_Some. eauto.
    + exists w_rejected. by rewrite (status_of _ _ _ Hw), Hst.
  - left. unfold status, asks. by rewrite Hoth.
Qed.

Lemma timer_fired_spec h w t s : fok [] s → store (fl_queue s) !! h = Some w → w_timer w = Some t →
  ends (timer_fired h) s (λ _ s', fok [] s').
Proof.
  intros Hok Hw Ht. unfold timer_fired. pose proof (fo_queue _ _ _ _ Hok) as Hq.
  destruct (queue_step_spec now _ _ Hq (step_fire now _ h w t Hw Ht)) as [Hq' _]. revert Hq'.
  pose proof (fire_eval (fl_queue s) h) as He. rewrite Hw in He. cbv zeta in He. intros Hq'.
  case_bool_decide as Hst; (eapply ends_on_queue; [exact He|]; intros s' Hqs Ha (Hf & _)); rewrite He in Hq'; cbn [fst] in Hq';
    unfold fok; rewrite Hqs, Ha, Hf; (eapply ok_ended; [exact Hok|done|]); intros k;
    (destruct (decide (k = h)) as [->|Hk]; [|left; unfold status, asks; cbn; by rewrite !lookup_insert_ne]).
  - right. rewrite (status_of _ _ _ Hw). split; [done|]. exists w_rejected. unfold status. cbn. by rewrite lookup_insert_eq.
  - left. unfold status, asks. cbn. by rewrite lookup_insert_eq, Hw.
Qed.

Lemma foldl_quiet {A} (f : Fleet → A → Fleet) l s : (∀ s x, quiet s (f s x)) → quiet s (foldl f s l).
Proof. intros Hf. revert s. induction l as [|x l IH]; intros s; cbn; [done|]. eapply quietly_trans; [apply Hf|apply IH]. Qed.
Lemma onViewsChanged_spec s : fok [] s → ends (onViewsChanged gatewayRequesterPrefix now) s (λ _ s', fok [] s').
Proof.
  intros Hok. unfold onViewsChanged. apply runs_bind, runs_get. cbv zeta. do 3 apply runs_bind, runs_modify.
  eapply ends_bind; [eapply dispatch_spec, fok_quiet; [exact Hok|]|intros b s1 Hok1; by apply runs_ret].
  set (views := Workers.views (fl_workers s)). set (r := foldl (reconcile_view gatewayRequesterPrefix) s views).
  apply (quietly_trans _ r); [apply foldl_quiet|apply (quietly_trans _ (foldl (forget_gone (wv_id <$> views)) r (fl_known r)));
    [apply foldl_quiet|done]].
  - intros s1 v. unfold reconcile_view. destruct (wv_leases v); [|done]. by destruct (_ === _).
  - intros s1 i. unfold forget_gone. by destruct (Arr.includes _ _).
Qed.
End parts.

(** ** Runs *)

Lemma run_stages_within stages request walk w : w ∈ wk_remaining (run_stages stages request walk) → w ∈ wk_remaining walk.
Proof.
  revert walk. induction stages as [|stage stages IH]; intros walk; cbn [run_stages]; [done|].
  destruct (negb (applies request stage)); [apply IH|]. destruct stage as [p check|name p settles score zero].
  { intros Hw%IH. cbn in Hw. by apply elem_of_afilter in Hw as [? _]. }
  destruct (best_score _) as [best|]; [|apply IH]. destruct (negb _); [apply IH|]. cbv zeta. destruct settles.
  - cbn. by intros [? _]%elem_of_afilter.
  - intros Hw%IH. cbn in Hw. by apply elem_of_afilter in Hw as [? _].
Qed.
Lemma composed_policy_laws `{LocaleCompareLaws} stages :
  @RoutingPolicyLaws (composeRoutingPolicy stages).
Proof.
  intros request workers d. cbn. rewrite select_walk. cbv zeta. set (walk := run_stages _ _ _).
  destruct (wk_decided walk); [|done]. destruct (head (wk_remaining walk)) as [w|] eqn:Eh; [|done]. intros [= <-].
  exists w. split; [|done]. apply elem_of_by_worker_id.
  apply (run_stages_within stages request (MkWalk (by_worker_id workers) None None)). fold walk.
  destruct (wk_remaining walk); [done|]. injection Eh as ->. by left.
Qed.

Section runs_of_fleet.
Context `{LocaleCompare} `{RoutingPolicy} `{!RoutingPolicyLaws}.
Context (gatewayRequesterPrefix : string) (maxPerRequester : option MaxPerRequester).
Implicit Types (s : Fleet).
Import Coordinator.

(** What can be called in a state, at some time [now]: a request's section and its admission, an
    attempt's progress and answer, a queue timer, a cancellation, a change of views, the end. *)
Inductive fleet_call s : action Fleet QueueError unit → Prop :=
| call_request now rq opt requestId held :
    fleet_call s (_ ← request_section maxPerRequester now rq opt requestId held; mret tt)
| call_admitted now h : h ∈ fl_admitting s → fleet_call s (request_admitted gatewayRequesterPrefix now h)
| call_progress now a p : a ∈ fl_attempts s → fleet_call s (attempt_progress now a p)
| call_answer now a answer : a ∈ fl_attempts s → fleet_call s (attempt_answered gatewayRequesterPrefix now a answer)
| call_timer h w t : store (fl_queue s) !! h = Some w → w_timer w = Some t → fleet_call s (timer_fired h)
| call_cancel requesterId platform : fleet_call s (_ ← cancelPending requesterId platform; mret tt)
| call_views now : fleet_call s (onViewsChanged gatewayRequesterPrefix now)
| call_dispose : fleet_call s dispose.
(** Between calls the views, the links and the lease index change in any way. *)
Inductive fleet_reachable : Fleet → Prop :=
| fleet_start s : fl_queue s = empty_queue → fl_attempts s = [] → fl_admitting s = [] → fleet_reachable s
| fleet_called s m : fleet_reachable s → fleet_call s m → fleet_reachable (m s).1
| fleet_world s index workers links : fleet_reachable s →
    fleet_reachable (s <| fl_index := index |> <| fl_workers := workers |> <| fl_live := links |>).

Lemma fleet_call_ok s m : fok [] s → fleet_call s m → ends m s (λ _ s', fok [] s').
Proof.
  intros Hok [now rq opt i held|now h Hh|now a p Ha|now a answer Ha|h w t Hw Ht|i p|now|].
  - eapply ends_bind; [by apply request_section_spec|]. intros r s' Hok'. by apply runs_ret.
  - by apply request_admitted_spec.
  - by apply attempt_progress_spec.
  - by apply attempt_answered_spec.
  - by apply (timer_fired_spec 0 h w t).
  - eapply ends_bind; [by apply cancelPending_spec|]. intros r s' Hok'. by apply runs_ret.
  - by apply onViewsChanged_spec.
  - by apply dispose_spec.
Qed.
Lemma ends_result {A} (m : action Fleet QueueError A) s Q : ends m s Q → ∃ s' a, m s = (s', Ok a) ∧ Q a s'.
Proof. unfold ends, runs. destruct (m s) as [s' [a|e]]; [eauto|done]. Qed.
Lemma fleet_reachable_ok s : fleet_reachable s → fok [] s.
Proof.
  induction 1 as [s Hq Ha Hd|s m _ IH Hm|s index workers links _ IH]; [|by destruct (ends_result _ _ _ (fleet_call_ok _ _ IH Hm)) as (s' & [] & -> & ?)|done].
  unfold fok. rewrite Hq, Ha, Hd. unfold status, live, asks.
  split; unfold status, live, asks; cbn; try (by intros h ?%elem_of_nil); try (intros h; by rewrite lookup_empty);
    [apply empty_queue_ok|constructor|]. intros h k (st & Hst & _). unfold status in Hst. cbn in Hst. by rewrite lookup_empty in Hst.
Qed.

(** C17. No request of the fleet is lost or sent twice. In every run, whatever workers answer and
    however views and links change: every call returns; no request has two forwarded calls out; a
    request that is not settled is either about to be walked for the first time, or in line, or out
    with a worker, and in only one of these (its place in line may be kept while it is out), so none
    is left processing with nothing to drive it; and a requester never has two unsettled requests for
    the same platform. *)
Theorem fleet_request_in_one_place s : fleet_reachable s →
  (∀ m, fleet_call s m → ∃ s', m s = (s', Ok tt))
  ∧ NoDup (out_with (fl_attempts s))
  ∧ (∀ h w, store (fl_queue s) !! h = Some w →
       match w_state w with
       | w_new => h ∈ fl_admitting s ∧ (h ∉ out_with (fl_attempts s)) ∧ (h ∉ waiters (fl_queue s))
       | w_queued => h ∈ waiters (fl_queue s) ∧ (h ∉ out_with (fl_attempts s)) ∧ (h ∉ fl_admitting s)
       | w_processing => h ∈ out_with (fl_attempts s) ∧ (h ∉ fl_admitting s)
       | w_granted | w_rejected => h ∉ waiters (fl_queue s)
       end)
  ∧ ∀ h k w x, store (fl_queue s) !! h = Some w → store (fl_queue s) !! k = Some x →
      isTerminal (w_state w) = false → isTerminal (w_state x) = false →
      ro_requesterId (w_options w) = ro_requesterId (w_options x) →
      rq_platform (w_request w) = rq_platform (w_request x) → h = k.
Proof.
  intros Hok%fleet_reachable_ok. split_and!.
  - intros m Hm. destruct (ends_result _ _ _ (fleet_call_ok _ _ Hok Hm)) as (s' & [] & ? & _). eauto.
  - apply Hok.
  - intros h w Hw. pose proof (status_of _ _ _ Hw) as Hst. destruct Hok as [Hq Hnd Ha Hd Hn Hp _ _].
    destruct (qo_waiter _ Hq h w Hw) as (Hqd & Hnw & _).
    assert (h ∈ waiters (fl_queue s) → isTerminal (w_state w) = false) as Hline.
    { intros (x & ? & ?)%(qo_waiters _ Hq)%(qo_pending _ Hq). congruence. }
    assert (h ∈ out_with (fl_attempts s) → w_state w = w_processing ∨ isTerminal (w_state w) = true) as Hout.
    { intros (_ & _ & st & ? & ?)%Ha. congruence. }
    assert (h ∈ fl_admitting s → w_state w = w_new ∨ isTerminal (w_state w) = true) as Hadm.
    { intros (_ & st & ? & ?)%Hd. congruence. }
    destruct (w_state w).
    + destruct (Hn h Hst) as [?%elem_of_nil|?]; [done|]. naive_solver.
    + naive_solver.
    + destruct (Hp h Hst) as [?%elem_of_nil|?]; [done|]. naive_solver.
    + by intros ?%Hline.
    + by intros ?%Hline.
  - intros h k w x Hw Hx Htw Htx Hr Hpl. apply (fo_single _ _ _ _ Hok).
    + exists (w_state w). split; [by apply status_of|done].
    + exists (w_state x). split; [by apply status_of|done].
    + unfold asks. rewrite Hw, Hx. cbn. by rewrite Hr, Hpl.
Qed.

(** C18. One pass over the line. It begins attempts in the order of the line, each with a worker of the
    views whose link is up; it never sends two requests for a simulator or emulator to one worker,
    nor two requests for a phone that ask for the same match; and every other attempt stays out. *)
Theorem fleet_pass_spreads s now : fleet_reachable s →
  ∃ s' new, dispatchPass gatewayRequesterPrefix now None s = (s', Ok false)
  ∧ fl_attempts s' = fl_attempts s ++ new
  ∧ sublist (out_with new) (waiters (fl_queue s))
  ∧ (∀ a, a ∈ new → at_workerId a ∈ fl_live s ∧ at_workerId a ∈ wv_id <$> routing_views s)
  ∧ ∀ i j a b w x, new !! i = Some a → new !! j = Some b →
      store (fl_queue s) !! at_waiter a = Some w → store (fl_queue s) !! at_waiter b = Some x →
      at_workerId a = at_workerId b → lineOf (w_request w) = lineOf (w_request x) →
      (lineOf (w_request w) = line_virtual ∨ physicalMatchKey (w_request w) = physicalMatchKey (w_request x)) → i = j.
Proof.
  intros Hok%fleet_reachable_ok. destruct (ends_result _ _ _ (dispatchPass_spec gatewayRequesterPrefix now None s Hok))
    as (s' & went & Hrun & _ & new & claims & [Ha _ _ Ho Hw _ Hd]).
  exists s', new. split_and!; [|done..|].
  - rewrite Hrun. unfold dispatchPass, mbind, action_bind, get in Hrun.
    destruct (walk_each gatewayRequesterPrefix now None _ _ _ s) as [s1 [l|e]]; [|done]. by injection Hrun as <- <-.
  - intros i j a b w x Hi Hj Hwa Hxb Heq Hline Hkey. eapply NoDup_lookup; [exact Hd|..]; rewrite list_lookup_fmap.
    + rewrite Hi. done.
    + rewrite Hj. cbn. unfold claim_of, request_of. rewrite Hwa, Hxb. cbn. unfold claim_key. rewrite Heq, Hline.
      destruct (lineOf (w_request x)); [done|]. destruct Hkey as [?|Hkey]; [congruence|]. by rewrite Hkey.
Qed.
End runs_of_fleet.

(** ** Samples *)

Module FleetSamples.
#[export] Instance compare : LocaleCompare := codepoint_compare.
#[export] Instance policy : RoutingPolicy := composeRoutingPolicy warm_then_free.
#[export] Instance laws : RoutingPolicyLaws := composed_policy_laws (H0 := Codepoint.laws) warm_then_free.
Definition workers : WorkerRegistry :=
  MkWorkers ((λ w, (wv_id w, w)) <$> RoutingSamples.fleet) ∅ ∅ ∅ ∅ ∅ [] [] [].
Definition asking (requester : string) : LeaseRequestOptions :=
  MkRequestOptions requester "owner" None false None None None None None.
(** No link is up: both requests find a worker in the views and go back in line. *)
Definition start : Fleet := MkFleet empty_queue empty_index workers [] ∅ ∅ ∅ ∅ [] ∅ [] [] [].
Definition asked (requester requestId : string) (s : Fleet) : Fleet :=
  ((_ ← Coordinator.request_section None 0 sample_rq (asking requester) requestId (λ _, false); mret tt) s).1.
Definition one : Fleet := asked "agent" "req_1" start.
Definition one_in_line : Fleet := (Coordinator.request_admitted "gw/" 0 0 one).1.
Definition two : Fleet := asked "other" "req_2" one_in_line.
Definition two_in_line : Fleet := (Coordinator.request_admitted "gw/" 0 1 two).1.
Definition links_up : Fleet :=
  two_in_line <| fl_index := empty_index |> <| fl_workers := workers |> <| fl_live := ["w1"; "w2"] |>.

Definition passed : Fleet := (Coordinator.dispatchPass "gw/" 7 None links_up).1.
Lemma links_up_reachable : fleet_reachable "gw/" None links_up.
Proof.
  apply fleet_world, fleet_called; [|apply call_admitted; vm_compute; apply list_elem_of_here].
  apply fleet_called; [|apply call_request].
  apply fleet_called; [|apply call_admitted; vm_compute; apply list_elem_of_here].
  apply fleet_called; [|apply call_request]. by apply fleet_start.
Qed.
End FleetSamples.

Lemma fleet_request_in_one_place_witness :
  waiters (fl_queue FleetSamples.links_up) = [0; 1] ∧ NoDup (out_with (fl_attempts FleetSamples.links_up)).
Proof.
  split; [vm_compute; reflexivity|].
  apply (fleet_request_in_one_place (H0 := FleetSamples.policy) (H1 := FleetSamples.laws) "gw/" None FleetSamples.links_up
    FleetSamples.links_up_reachable).
Defined.
Lemma fleet_pass_spreads_witness : ∃ s' new,
  fl_attempts s' = fl_attempts FleetSamples.links_up ++ new ∧ sublist (out_with new) [0; 1] ∧
  (λ a, (at_waiter a, at_workerId a)) <$>
    fl_attempts FleetSamples.passed = [(0, "w2"); (1, "w1")].
Proof.
  destruct (fleet_pass_spreads (H0 := FleetSamples.policy) (H1 := FleetSamples.laws) "gw/" None FleetSamples.links_up 7
    FleetSamples.links_up_reachable) as (s' & new & _ & Ha & Hs & _).
  exists s', new. split; [exact Ha|]. split; [exact Hs|]. vm_compute. reflexivity.
Defined.
